(* ===== verification/_CoqProject ===== *)
-Q . S2P
Prelude.v
StringUtil.v
StrMap.v
Bdecode.v
BencodeGrammar.v
BdecodeCorrect.v
BdecodeTheorems.v
BdecodeNode.v
BdecodeNodeCorrect.v
BdecodeWalk.v
Entry.v
EntryCorrect.v
BencodeProperties.v
Random.v
PiecePicker.v
PickerBuckets.v
PickerRebuild.v
PickerState.v
PickerOps.v
PickerBlocks.v
PickerPick.v
PickerInv.v
PickerAvail.v
PickerDls.v
PickerSteps.v
PickerCore.v
PickerMarks.v
PickerDownloading.v
PickerCancel.v
PickerHave.v
PickerLost.v
PickerStart.v
PickerCalls.v
PickerCheck.v
PickerQueries.v
PickerGrow.v
PickerPhases.v
PickerPicked.v
PickerPicking.v
PickerDistinct.v
PickerProperties.v
PickProperties.v
Bitfield.v
BitWords.v
BitfieldOps.v
BitfieldQueries.v
BitfieldProperties.v
IpFilter.v
IpFilterCorrect.v
IpFilterProperties.v
Path.v
PathCorrect.v
FileStorage.v
FileLayout.v
FileOps.v
FileOptimize.v
FilePacking.v
FileSymlinks.v
FileLinks.v
FileProperties.v
Utf8.v
Utf8Correct.v
TorrentPath.v
TorrentInfo.v
TorrentFiles.v
TorrentCorrect.v
TorrentNodes.v
TorrentSection.v
TorrentMerkle.v
TorrentProperties.v
Tailqueue.v
DiskFence.v
FenceCorrect.v
FenceProperties.v
PacketBuffer.v
PacketProperties.v
Bandwidth.v
BandwidthCorrect.v
BandwidthProperties.v
FileProgress.v
