(* ===== verification/Prelude.v ===== *)
(** Verification of the BitTorrent library of the downloader, the C++ sources
    under src/btdownloader/torrent and src/btdownloader/include/libtorrent.

    * The program

    The application is an Objective-C user interface around libtorrent, whose
    sources it carries.  A torrent file and every message of the tracker and
    DHT protocols is bencoded: [bdecode] turns bytes into tokens, a
    [bdecode_node] reads them, and an [entry] is a value that can be modified
    and encoded again.  A torrent asks its [piece_picker] which blocks to
    request from a peer; it tells it what the peers have, which blocks were
    requested, received, written and checked, and what the user wants.  The
    peers, the disk and the session around these two are driven by callbacks of
    the network and of threads.

    * The parts and their files

    A C++ function that can have undefined behaviour returns an option here and
    [None] is that behaviour: an index out of range, an iterator at its end, an
    overflow of a signed integer.  The last is [signed] of Prelude.v, where the
    code computes with what a caller or a file gives: the value of a number in
    bdecode, the number of seeds, the number of a block among all blocks.  Bit
    fields and unsigned integers wrap at their width.

    - Prelude.v: vectors with indices in [Z] and the lemmas about them.
    - StringUtil.v: string_util.cpp and hex.cpp, as functions of lists of
      characters.
    - StrMap.v: [std::map] with string keys, a sorted association list.
    - Bdecode.v: [bdecode] of bdecode.cpp: the tokens, the parse loop with its
      explicit stack and its unwinding.  BencodeGrammar.v is the specification:
      the concrete syntax trees of bencoding, their tokens and the limits.
      BdecodeCorrect.v and BdecodeTheorems.v prove one against the other.
    - BdecodeNode.v: the accessors of [bdecode_node], with the caches that make
      lookups in a row fast, and has_soft_error, line_longer_than and
      print_entry; BdecodeNodeCorrect.v and BdecodeWalk.v are about them.
    - Entry.v: [entry] of entry.cpp and the encoder of bencode.hpp;
      EntryCorrect.v is about it.
    - BencodeProperties.v: the properties of the files above.
    - Random.v: random.cpp, over a class for the engine of the standard
      library.
    - PiecePicker.v: the data of piece_picker.hpp, and the list of the pieces
      that can be picked, in buckets of equal priority ([add], [remove],
      [update], [shuffle], [update_pieces]); PickerBuckets.v and
      PickerRebuild.v are about it.
    - PickerState.v, PickerOps.v, PickerBlocks.v: the members of
      [piece_picker], a state monad [M] over them, and the operations of
      piece_picker.cpp: availability, download queues, the mark_as functions,
      having pieces, priorities, queries.
    - PickerPick.v: [pick_pieces] and the functions only it uses.
    - PickerCheck.v: [check_invariant], which debug builds run, and that it
      passes: [picker_ok] implies it.
    - PickerInv.v, PickerAvail.v, PickerDls.v, PickerSteps.v, PickerCore.v:
      the invariant, from the inside out.  The list of pieces is in order
      unless the picker is dirty ([list_ok]); every queue is ordered and its
      records own disjoint slices of m_block_info ([dls_ok]); the counters of a
      record count its blocks and its queue is the one they call for
      ([core_ok]); the tallies and cursors are those of the pieces
      ([tallies_ok], [cursors_ok]).  [picker_ok] of PickerHave.v is all of it.
    - PickerMarks.v, PickerDownloading.v, PickerCancel.v, PickerHave.v,
      PickerLost.v, PickerStart.v, PickerQueries.v: for each
      operation, that it returns, what it changes, and that it keeps the
      invariant.
    - PickerCalls.v: the calls of a client, when they are allowed ([allowed]:
      indices in range, the widths of the counters, and the assertions that the
      outcome depends on), when they are [harmless] (not one of the cases in
      which the code leaves an inconsistent state behind), and the states that
      calls reach which are both, [valid].  PickerProperties.v: the properties
      of these operations.
    - PickerGrow.v, PickerPhases.v, PickerPicked.v, PickerPicking.v,
      PickerDistinct.v: [pick_pieces] from the blocks of one piece over the
      phases to the whole; PickProperties.v: its properties.
    - Bitfield.v: bitfield.hpp, bitfield.cpp, ffs.cpp and byteswap.hpp, with the
      class [Platform] for the byte order and instructions of a machine.
      BitWords.v: words and counts of bits; BitfieldOps.v, BitfieldQueries.v: the operations against the list of bits;
      BitfieldProperties.v.
    - IpFilter.v: ip_filter.hpp and ip_filter.cpp, [filter_impl] over the class
      [Address]; IpFilterCorrect.v proves it over the laws [AddressOk], which
      ports and arrays of bytes have; IpFilterProperties.v.
    - Path.v: the functions of path.cpp on characters; PathCorrect.v: what they
      do to the elements of a path.
    - FileStorage.v, FileOptimize.v, FileSymlinks.v: file_storage.cpp.
      FileLayout.v: files are laid out one after the other, and [map_block],
      [map_file] and the piece ranges.  FileOps.v: names, paths, adding and
      renaming.  FilePacking.v: [optimize].  FileLinks.v:
      [sanitize_symlinks].  FileProperties.v: the properties.
    - FileProgress.v: [file_progress] of file_progress.cpp, over a file_storage
      and what a picker answers, and its property.
    - Tailqueue.v: [tailqueue] of tailqueue.hpp, links in a store, and that
      it is a list.  DiskFence.v: disk_job_fence.cpp over
      it; FenceCorrect.v: each function against the jobs that run and the jobs
      that wait, a storage and the calls disk_io_thread.cpp makes;
      FenceProperties.v.
    - PacketBuffer.v: packet_buffer.cpp of uTP, and that it is a map from
      sequence numbers to packets; PacketProperties.v.
    - Bandwidth.v: bandwidth_limit.cpp, bandwidth_queue_entry.cpp and
      bandwidth_manager.cpp, with the channels in a store; BandwidthCorrect.v:
      what a request and a round do to a channel; BandwidthProperties.v.
    - Utf8.v: utf8.cpp, the functions of ConvertUTF.cpp for UTF-32 and
      [verify_encoding] of torrent_info.cpp; Utf8Correct.v: they are the
      encoding of code points, [utf8_of].
    - TorrentPath.v: [sanitize_append_path_element] of torrent_info.cpp, and
      what it appends.  TorrentInfo.v: [parse_info_section] with the functions
      that read the files of a torrent, and merkle.cpp.  TorrentFiles.v: what
      the items of an info dictionary say of its files, [file_of], and that this
      is what is read from a [bdecode_node]; TorrentCorrect.v: the files that
      are added to a file_storage; TorrentNodes.v: where strings are in the
      section; TorrentSection.v: the error of a dictionary, [verdict], or what
      the members are, [info_parsed].  TorrentMerkle.v: [add_merkle_nodes] and
      [build_merkle_list].  TorrentProperties.v.

    * The theorems

    They are in the files named Properties, and each has a number.

    BencodeProperties.v: bdecode returns on every buffer and accepts exactly
    the well-formed items within the limits; the accessors, with the caches of
    any lookups before, read the item back, empty containers too, and no number
    overflows; has_soft_error finds exactly the items that are not canonical,
    but for numbers with a sign, and the first error; entries round trip through their encoding.  Without a number:
    the functions that walk a node return, and numbers are rendered, with those
    that are wrong.

    PickerProperties.v: in every state that calls reach which are allowed and
    harmless, an allowed call returns, and a harmless one keeps the invariant;
    the list of pieces is ordered; each operation does what it means to do,
    errors included; three operations that break the invariant from any state
    that satisfies it, in a case the code does not assert against.

    PickProperties.v: pick_pieces returns, only picks blocks that may be picked,
    and enough of them if there are; without a number, what goes wrong with some
    options.

    BitfieldProperties.v: a bitfield refines a list of bits on every platform;
    the counts in software and by instructions agree; find_last_clear is wrong.

    IpFilterProperties.v: a rule changes the flags of its range only and keeps
    the list canonical; the last rule wins; the exported list is the shortest.

    FileProperties.v: every sequence of allowed calls on a file_storage keeps
    its invariant and returns; path functions are the functions on elements;
    files have the path they were given; blocks are mapped to files and back;
    optimize returns, keeps the files and aligns them; sanitize_symlinks
    returns and judges each link by the targets that the torrent gave, those
    that lead through other links by following them; what goes wrong.

    FileProgress.v: after any updates the progress of each file is the number
    of its bytes in pieces that are had, and the callback is called for exactly
    the files that became complete.

    FenceProperties.v: in every sequence of calls jobs start in the order they
    arrive, a fence runs alone, and nothing is blocked without a fence; a job
    that runs is in the hands of the client or on the queue of released jobs,
    and the client can go on, with less to do each time, until there is none.

    PacketProperties.v: the buffer refines a map of the numbers of a window.

    BandwidthProperties.v: what is handed out through a channel in any
    sequence of requests and rounds (of at most five channels each, with
    priorities of a sum below 2^31 - 1) is at most its quota and what its limit
    adds in their time; a round shares the quota by priority, gives no request
    more than it asked for, and answers those that have it; what goes wrong.

    TorrentProperties.v: the conversions of UTF-8 are inverse and accept what is
    well formed; an element is appended to a path as a name without separators,
    control characters and dots alone; a dictionary is refused with the error of
    its verdict, or read into a well-formed storage with the pieces, digests and
    flags it has; from the bytes of a torrent to the paths of its files, these
    stay below the directory of the torrent, and so do its links; what the hash
    tree accepts is authentic, and what it builds is accepted; without a number,
    what goes wrong.

    * Bounds and fuel

    The loops of bdecode take one byte or one token at a time, so its fuel is
    the size of the buffer, which is proved enough.  The recursion
    of the functions that walk a node is bounded by the number of tokens.  A
    loop over a vector or a range is a Fixpoint on the list or on its length.
    The loops of pick_pieces that have no such bound take the number of pieces
    as fuel, its random loop (num_blocks + 1) * (num_pieces + 1); that these
    are enough is part of its safety.  The loop of optimize takes
    twice the number of files, as it passes every file and at most one pad file
    beside it.  The walk over the branches of a link takes the number of links
    times the length of the longest path, [walk_fuel]; that these two are
    enough is part of the theorems about these functions.  The capacity of a
    packet buffer doubles at most 32 times; the walk back to its last packet
    takes its capacity; the loops of [file_progress] the number of files; the
    release of jobs behind a fence the number of them.  The loops over text take
    its bytes, those over a list its items; the loop for the leaves of a hash
    tree doubles at most 31 times, and its walks take 31 steps up, the depth of
    a tree with indices of 32 bits.

    The picker has at most 2^26 peers per piece, 2^14 peers per block and 2^15
    blocks per piece, the widths of the fields; it counts less than 2^31 - 2^26
    seeds, so that the availability is an int, and its blocks together are less
    than 2^31 once there are pad blocks; the theorems have these as hypotheses
    where an operation counts up.  Sizes and offsets of files have
    48 bits, lengths of borrowed names 12 and indices of links 15; [fits_info] is
    that the sizes and names of a torrent respect these.  The paths of files are
    proved for names of less than 240 bytes, the limit of the code for an
    element, that are not dots: it is a finding that others can differ.

    * Parameters

    The random engine and the distributions and shuffles of the C++ standard
    are the class [StdRandom] with the laws [StdRandomOk] (a number in the
    range, a permutation), its sort the class [StdSort] with [StdSortOk];
    Random.v has an instance, so the laws can hold.  The CRC of Boost is the
    class [Crc32c], without laws.  SHA-1, which is CommonCrypto's on the systems
    of Apple, is the class [Sha1]; [sha1_ok] is that a digest has 20 bytes.  Peers are numbers; what the picker asserts
    about peer objects is left out.

    * Not modelled

    The network, threads and timers: peer_connection.cpp, torrent.cpp and
    session_impl.cpp with what they call of Asio, the trackers, the DHT's
    messages, the uTP socket and port mapping: classes of callbacks that hold
    each other and whose behaviour is that of the operating system.  Of the disk
    subsystem the order of its jobs is modelled, not the thread pool and the
    cache, whose correctness depends on the interleaving of threads.  The
    cryptographic primitives are third-party code.  The user interface and the
    video player are Objective-C over UIKit and FFmpeg.  In the files that are
    modelled, deprecated functions, printing for logs and reserve() are left
    out.  Of torrent_info.cpp the info dictionary is modelled; what is beside it
    (trackers, web seeds, nodes), duplicate file names, which are found in the
    order of a hash table, loading files and creating torrents are not. *)

From Stdlib Require Ascii String.
From stdpp Require Export base option list numbers tactics.
From Stdlib Require Export ZArith Lia.

#[export] Set Default Goal Selector "!".
Global Open Scope Z_scope.

(** * Vectors

    A C++ vector (or a C array, or a span) is a list.  Its indices are C++
    integers, hence [Z].  Reading or writing outside of the vector is
    undefined behaviour, which is [None] in the option monad. *)

Definition vsize {A} (v : list A) : Z := Z.of_nat (length v).

Definition vget {A} (v : list A) (i : Z) : option A :=
  if i <? 0 then None else v !! Z.to_nat i.

Definition vset {A} (v : list A) (i : Z) (x : A) : option (list A) :=
  if (0 <=? i) && (i <? vsize v) then Some (<[Z.to_nat i := x]> v) else None.

Declare Scope cpp_scope.
Delimit Scope cpp_scope with cpp.
Notation "v ⟦ i ⟧" := (vget v i)
  (at level 1, left associativity, format "v ⟦ i ⟧") : cpp_scope.
Notation "v ⟦ i := x ⟧" := (vset v i x)
  (at level 1, left associativity, format "v ⟦ i  :=  x ⟧") : cpp_scope.
Global Open Scope cpp_scope.

(** an [if (!c) <undefined behaviour>] of the model *)
Definition guard_b (b : bool) : option unit := if b then Some tt else None.

Section vectors.
Context {A : Type}.
Implicit Types (v w : list A) (i j : Z) (x y : A).

Lemma vsize_nonneg v : 0 ≤ vsize v.
Proof. unfold vsize; lia. Qed.

Lemma vsize_nil : vsize (@nil A) = 0.
Proof. reflexivity. Qed.

Lemma vsize_cons x v : vsize (x :: v) = 1 + vsize v.
Proof. unfold vsize; simpl; lia. Qed.

Lemma vsize_app v w : vsize (v ++ w) = vsize v + vsize w.
Proof. unfold vsize; rewrite length_app; lia. Qed.

Lemma vget_Some_range v i x : v⟦i⟧ = Some x → 0 ≤ i < vsize v.
Proof.
  unfold vget, vsize. destruct (Z.ltb_spec i 0); [done|].
  intros ?%lookup_lt_Some. lia.
Qed.

Lemma vget_is_Some v i : 0 ≤ i < vsize v → ∃ x, v⟦i⟧ = Some x.
Proof.
  unfold vget, vsize. intros Hi. destruct (Z.ltb_spec i 0); [lia|].
  apply lookup_lt_is_Some_2. lia.
Qed.

Lemma vget_None v i : ¬ (0 ≤ i < vsize v) → v⟦i⟧ = None.
Proof.
  intros Hi. destruct (v⟦i⟧) eqn:E; [|done].
  by apply vget_Some_range in E.
Qed.

Lemma vget_nat v (n : nat) : v⟦Z.of_nat n⟧ = v !! n.
Proof.
  unfold vget. destruct (Z.ltb_spec (Z.of_nat n) 0); [lia|]. by rewrite Nat2Z.id.
Qed.

Lemma vget_app_l v w i : i < vsize v → (v ++ w)⟦i⟧ = v⟦i⟧.
Proof.
  unfold vget, vsize. intros Hi. destruct (Z.ltb_spec i 0); [done|].
  apply lookup_app_l. lia.
Qed.

Lemma vget_app_r v w i : vsize v ≤ i → (v ++ w)⟦i⟧ = w⟦i - vsize v⟧.
Proof.
  unfold vget, vsize. intros Hi. destruct (Z.ltb_spec i 0); [lia|].
  destruct (Z.ltb_spec (i - Z.of_nat (length v)) 0); [lia|].
  rewrite lookup_app_r by lia. f_equal. lia.
Qed.

Lemma vget_middle v x w : (v ++ x :: w)⟦vsize v⟧ = Some x.
Proof. rewrite vget_app_r; [|lia]. by rewrite Z.sub_diag. Qed.

Lemma vget_nil i : (@nil A)⟦i⟧ = None.
Proof. apply vget_None. rewrite vsize_nil. lia. Qed.

Lemma vget_cons x v i : (x :: v)⟦i⟧ = if i =? 0 then Some x else v⟦i - 1⟧.
Proof.
  destruct (Z.eqb_spec i 0) as [->|]; [done|].
  destruct (Z.lt_ge_cases i 0); [by rewrite !vget_None by lia|].
  change (x :: v) with ([x] ++ v). rewrite vget_app_r; [done|]. unfold vsize. simpl. lia.
Qed.

Lemma vget_cons_S x v i : 0 ≤ i → (x :: v)⟦i + 1⟧ = v⟦i⟧.
Proof.
  intros Hi. rewrite vget_cons. destruct (Z.eqb_spec (i + 1) 0); [lia|]. f_equal. lia.
Qed.

Lemma vset_Some v i x :
  0 ≤ i < vsize v → v⟦i := x⟧ = Some (<[Z.to_nat i := x]> v).
Proof.
  intros Hi. unfold vset.
  by destruct (Z.leb_spec 0 i), (Z.ltb_spec i (vsize v)); try lia.
Qed.

Lemma vset_inv v i x w :
  v⟦i := x⟧ = Some w → 0 ≤ i < vsize v ∧ w = <[Z.to_nat i := x]> v.
Proof.
  unfold vset.
  destruct (Z.leb_spec 0 i), (Z.ltb_spec i (vsize v)); simpl; try discriminate.
  by intros [= <-].
Qed.

Lemma vset_size v i x w : v⟦i := x⟧ = Some w → vsize w = vsize v.
Proof. intros [_ ->]%vset_inv. unfold vsize. by rewrite length_insert. Qed.

Lemma vset_get v i x w j :
  v⟦i := x⟧ = Some w → w⟦j⟧ = if j =? i then Some x else v⟦j⟧.
Proof.
  intros [Hi ->]%vset_inv. unfold vget, vsize in *.
  destruct (Z.ltb_spec j 0), (Z.eqb_spec j i); subst; try done; try lia.
  - apply list_lookup_insert_eq. lia.
  - apply list_lookup_insert_ne. lia.
Qed.

Lemma vset_vset v i x y w u : v⟦i := x⟧ = Some w → w⟦i := y⟧ = Some u → v⟦i := y⟧ = Some u.
Proof.
  intros [Hi ->]%vset_inv [_ ->]%vset_inv. by rewrite vset_Some, list_insert_insert_eq by done.
Qed.

Lemma vset_is_Some v i x : 0 ≤ i < vsize v → ∃ w, v⟦i := x⟧ = Some w.
Proof. intros Hi. eexists. by apply vset_Some. Qed.

Lemma vget_elem_of v i x : v⟦i⟧ = Some x → x ∈ v.
Proof. unfold vget. destruct (i <? 0); [done|]. apply list_elem_of_lookup_2. Qed.

Lemma elem_of_vget v x : x ∈ v → ∃ i, v⟦i⟧ = Some x.
Proof.
  intros [n Hn]%list_elem_of_lookup_1. exists (Z.of_nat n). by rewrite vget_nat.
Qed.

Lemma vset_split v i x w :
  v⟦i := x⟧ = Some w → w = take (Z.to_nat i) v ++ x :: drop (S (Z.to_nat i)) v.
Proof.
  intros [Hi ->]%vset_inv. apply insert_take_drop. unfold vsize in Hi. lia.
Qed.
End vectors.

Lemma vsize_replicate {A} (x : A) n : vsize (replicate n x) = Z.of_nat n.
Proof. unfold vsize. by rewrite length_replicate. Qed.

Lemma vget_replicate {A} n (x : A) i : 0 ≤ i < Z.of_nat n → (replicate n x)⟦i⟧ = Some x.
Proof.
  intros Hi. unfold vget. destruct (Z.ltb_spec i 0); [lia|]. apply lookup_replicate. split; [done|lia].
Qed.

Lemma vget_replicate_inv {A} n (x : A) i y : (replicate n x)⟦i⟧ = Some y → y = x.
Proof. unfold vget. destruct (i <? 0); [done|]. intros H. by apply lookup_replicate in H as [-> _]. Qed.

(** * Bytes

    A [char] is its value in [0, 256); string literals of the source are
    spelled with [bytes_of]. *)
Fixpoint bytes_of (s : String.string) : list Z :=
  match s with
  | String.EmptyString => []
  | String.String a s' => Z.of_N (Ascii.N_of_ascii a) :: bytes_of s'
  end.

(** a value stored in an unsigned field of [w] bits *)
Definition uint (w : Z) (n : Z) : Z := n mod 2 ^ w.

Lemma uint_small w n : 0 ≤ n < 2 ^ w → uint w n = n.
Proof. apply Z.mod_small. Qed.

(** the result of a signed [w]-bit operation; one that does not fit is
    undefined behaviour *)
Definition signed (w n : Z) : option Z :=
  if (- 2 ^ (w - 1) <=? n) && (n <? 2 ^ (w - 1)) then Some n else None.

Lemma signed_Some w n m : signed w n = Some m ↔ m = n ∧ - 2 ^ (w - 1) ≤ n < 2 ^ (w - 1).
Proof.
  unfold signed. destruct (Z.leb_spec (- 2 ^ (w - 1)) n), (Z.ltb_spec n (2 ^ (w - 1)));
    simpl; (split; [|intros [-> ?]]); try (intros [= <-]); try lia; done.
Qed.

Lemma signed_small w n : - 2 ^ (w - 1) ≤ n < 2 ^ (w - 1) → signed w n = Some n.
Proof. intros. by apply signed_Some. Qed.

Lemma uint_range w n : 0 ≤ w → 0 ≤ uint w n < 2 ^ w.
Proof. intros. apply Z.mod_pos_bound. lia. Qed.

(** [vsize] arithmetic *)
Create Rewrite HintDb vsize.
#[export] Hint Rewrite @vsize_nil @vsize_cons @vsize_app : vsize.
Ltac vsize := autorewrite with vsize; try lia.

(** goals of linear arithmetic with quotients and remainders *)
Ltac division := Z.to_euclidean_division_equations; lia.
Tactic Notation "vsize" "in" hyp(H) := autorewrite with vsize in H.

(** * Decimal rendering *)

(** the decimal digits of [n], in front of [acc] *)
Fixpoint dec_digits (fuel : nat) (n : Z) (acc : list Z) : list Z :=
  match fuel with
  | O => acc
  | S fuel => if n =? 0 then acc else dec_digits fuel (n / 10) ((48 + n mod 10) :: acc)
  end.

(** the digits of a positive number *)
Definition digits (n : Z) : list Z := dec_digits (S (Z.to_nat (Z.log2 n))) n [].

(** [printf("%d", v)] *)
Definition dec_string (v : Z) : list Z :=
  (if v <? 0 then [45] else []) ++ (if v =? 0 then [48] else digits (Z.abs v)).

Lemma dec_digits_acc fuel n acc : dec_digits fuel n acc = dec_digits fuel n [] ++ acc.
Proof.
  revert n acc. induction fuel as [|fuel IH]; intros n acc; [done|]. cbn [dec_digits].
  destruct (n =? 0); [done|]. by rewrite IH, (IH _ [_]), <-app_assoc.
Qed.

Lemma dec_digits_fuel f1 f2 n :
  0 ≤ n → n < 2 ^ Z.of_nat f1 → n < 2 ^ Z.of_nat f2 →
  dec_digits f1 n [] = dec_digits f2 n [].
Proof.
  revert f2 n. induction f1 as [|f1 IH]; intros f2 n Hn H1 H2.
  - replace n with 0 by (simpl in H1; lia). by destruct f2.
  - destruct f2 as [|f2].
    + replace n with 0 by (simpl in H2; lia). done.
    + cbn [dec_digits]. destruct (Z.eqb_spec n 0); [done|].
      rewrite dec_digits_acc, (dec_digits_acc f2). f_equal.
      rewrite Nat2Z.inj_succ, Z.pow_succ_r in * by lia.
      apply IH; [apply Z.div_pos; lia| |]; apply Z.div_lt_upper_bound; lia.
Qed.

Lemma log2_fuel n : n < 2 ^ Z.of_nat (S (Z.to_nat (Z.log2 n))).
Proof.
  destruct (Z.ltb_spec 0 n).
  - rewrite Nat2Z.inj_succ, Z2Nat.id by apply Z.log2_nonneg. by apply Z.log2_spec.
  - pose proof (Z.pow_pos_nonneg 2 (Z.of_nat (S (Z.to_nat (Z.log2 n)))) eq_refl ltac:(lia)). lia.
Qed.

Lemma digits_step n : 0 < n → digits n = digits (n / 10) ++ [48 + n mod 10].
Proof.
  intros Hn. unfold digits at 1. cbn [dec_digits].
  destruct (Z.eqb_spec n 0); [lia|]. rewrite (dec_digits_acc _ _ [_]). f_equal.
  pose proof (log2_fuel n) as Hf. rewrite Nat2Z.inj_succ, Z.pow_succ_r in Hf by lia.
  apply dec_digits_fuel; [apply Z.div_pos; lia| |apply log2_fuel].
  apply Z.div_lt_upper_bound; [done|]. lia.
Qed.

(** writing below a position of an array *)
Lemma drop_vset {A} (v w : list A) i x :
  v⟦i := x⟧ = Some w → drop (Z.to_nat i) w = x :: drop (Z.to_nat (i + 1)) v.
Proof.
  intros [Hi ->]%vset_inv. unfold vsize in Hi.
  rewrite (drop_S _ x) by (apply list_lookup_insert_eq; lia).
  f_equal. rewrite drop_insert_lt by lia. f_equal. lia.
Qed.
