(* ===== verification/StringUtil.v ===== *)
(** The string helpers of src/btdownloader/torrent/string_util.cpp and
    src/btdownloader/torrent/hex.cpp: number rendering, character classes,
    comparison, splitting and stripping, the parser of the listen_interfaces
    setting, and hexadecimal.

    A [string_view] is its characters; [npos] is [None]. *)

From Stdlib Require Import String.
From S2P Require Import Prelude.

Open Scope Z_scope.

(** * Hexadecimal (hex.cpp) *)

Definition hex_to_int (c : Z) : Z :=
  if (48 <=? c) && (c <=? 57) then c - 48
  else if (65 <=? c) && (c <=? 70) then c - 65 + 10
  else if (97 <=? c) && (c <=? 102) then c - 97 + 10
  else -1.

Definition is_hex (s : list Z) : bool := forallb (λ c, negb (hex_to_int c =? -1)) s.

(** the bytes written to [out] and the result.  An input of odd length is read
    past its end, which is undefined behaviour. *)
Fixpoint from_hex (s : list Z) : option (list Z * bool) :=
  match s with
  | [] => Some ([], true)
  | c1 :: s =>
      let t1 := hex_to_int c1 in
      if t1 =? -1 then Some ([], false)
      else
        match s with
        | [] => None
        | c2 :: s =>
            let t2 := hex_to_int c2 in
            if t2 =? -1 then Some ([uint 8 (Z.shiftl t1 4)], false)
            else
              '(out, ok) ← from_hex s;
              Some (Z.lor (uint 8 (Z.shiftl t1 4)) (Z.land t2 15) :: out, ok)
        end
  end.

Definition hex_chars : list Z := bytes_of "0123456789abcdef".

Fixpoint to_hex (s : list Z) : option (list Z) :=
  match s with
  | [] => Some []
  | c :: s =>
      hi ← hex_chars⟦Z.shiftr c 4⟧;
      lo ← hex_chars⟦Z.land c 15⟧;
      out ← to_hex s;
      Some (hi :: lo :: out)
  end.

(** * Numbers *)

(** the digits of [to_string], written backwards from [p] in the array [ret] *)
Fixpoint write_digits (fuel : nat) (ret : list Z) (p un : Z) : option (list Z * Z) :=
  match fuel with
  | O => None
  | S fuel =>
      ret ← ret⟦p - 1 := 48 + un mod 10⟧;
      let un := un / 10 in
      if un =? 0 then Some (ret, p - 1) else write_digits fuel ret (p - 1) un
  end.

(** [to_string(n)]: the array of 22 characters, as the string up to its
    terminator *)
Definition to_string (n : Z) : option (list Z) :=
  let ret := repeat 0 22 in
  let un := if n <? 0 then uint 64 (2 ^ 64 - 1 - uint 64 n + 1) else n in
  '(ret, p) ← write_digits 22 ret 21 un;
  '(ret, p) ← (if n <? 0 then ret ← ret⟦p - 1 := 45⟧; Some (ret, p - 1) else Some (ret, p));
  Some (take (Z.to_nat (21 - p)) (drop (Z.to_nat p) ret)).

(** * Characters and comparison *)

Definition is_alpha (c : Z) : bool :=
  ((97 <=? c) && (c <=? 122)) || ((65 <=? c) && (c <=? 90)).
Definition is_digit (c : Z) : bool := (48 <=? c) && (c <=? 57).
Definition is_print (c : Z) : bool := (32 <=? c) && (c <? 127).
Definition is_space (c : Z) : bool :=
  (c =? 32) || (c =? 9) || (c =? 10) || (c =? 13) || (c =? 12) || (c =? 11).
Definition to_lower (c : Z) : Z := if (65 <=? c) && (c <=? 90) then c - 65 + 97 else c.

(** C strings, without their terminator *)
Fixpoint string_begins_no_case (s1 s2 : list Z) : bool :=
  match s1, s2 with
  | [], _ => true
  | _ :: _, [] => false
  | c1 :: s1, c2 :: s2 =>
      if negb (to_lower c1 =? to_lower c2) then false else string_begins_no_case s1 s2
  end.

Definition string_equal_no_case (s1 s2 : list Z) : bool :=
  if negb (vsize s1 =? vsize s2) then false
  else forallb (λ p, to_lower p.1 =? to_lower p.2) (combine s1 s2).

Definition string_ends_with (s1 s2 : list Z) : bool :=
  (vsize s2 <=? vsize s1) &&
  forallb (λ p, p.1 =? p.2) (combine (rev s2) (rev s1)).

Fixpoint starts_with (src target : list Z) : bool :=
  match src, target with
  | [], _ => true
  | _ :: _, [] => false
  | a :: src, b :: target => (a =? b) && starts_with src target
  end.

(** [std::search]: the offset of the first occurrence *)
Fixpoint search_from (src target : list Z) (i : Z) : Z :=
  if starts_with src target then i
  else match target with
       | [] => -1
       | _ :: target => search_from src target (i + 1)
       end.

Definition search (src target : list Z) : Z := search_from src target 0.

(** * Splitting *)

Fixpoint strip_front (s : list Z) : list Z :=
  match s with
  | c :: s' => if is_space c then strip_front s' else s
  | [] => []
  end.

Definition strip_string (s : list Z) : list Z := rev (strip_front (rev (strip_front s))).

(** the first loop of [split_string]: the characters of a quoted section, up to
    the closing quote, which is not counted *)
Fixpoint quoted_length (s : list Z) (pos : Z) : Z :=
  match s with
  | [] => pos
  | c :: s => if c =? 34 then pos + 1 else quoted_length s (pos + 1)
  end.

(** the second loop: the position of the separator and whether there is one *)
Fixpoint find_separator (s : list Z) (sep pos : Z) : Z * Z :=
  match s with
  | [] => (pos, 0)
  | c :: s => if c =? sep then (pos, 1) else find_separator s sep (pos + 1)
  end.

Definition split_string (last : list Z) (sep : Z) : list Z * list Z :=
  match last with
  | [] => ([], [])
  | c :: rest =>
      let pos := if (c =? 34) && negb (sep =? 34) then quoted_length rest 0 else 0 in
      let '(pos, found_sep) := find_separator (drop (Z.to_nat pos) last) sep pos in
      (take (Z.to_nat pos) last, drop (Z.to_nat (pos + found_sep)) last)
  end.

(** [find_first_of(s, c, 0)] *)
Fixpoint find_first_of (s : list Z) (c : Z) : option Z :=
  match s with
  | [] => None
  | x :: s => if x =? c then Some 0 else pos ← find_first_of s c; Some (pos + 1)
  end.

(** * listen_interfaces *)

Record listen_interface_t := ListenInterface {
  device : list Z;
  port : Z;
  ssl : bool
}.

Fixpoint take_digits (s : list Z) : list Z :=
  match s with
  | c :: s => if is_digit c then c :: take_digits s else []
  | [] => []
  end.

(** [std::atoi] of at most five digits *)
Definition atoi (s : list Z) : Z := fold_left (λ v c, v * 10 + (c - 48)) s 0.

(** [substr(pos, n)]; a position past the end throws *)
Definition substr (s : list Z) (pos n : Z) : list Z :=
  take (Z.to_nat n) (drop (Z.to_nat pos) s).

(** the device name and the text of the port, or an error *)
Definition parse_device (element : list Z) : option (list Z * list Z) :=
  let size := vsize element in
  if bool_decide (head element = Some 91) then
    match find_first_of element 93 with
    | Some pos =>
        if (size <=? pos + 1) || negb (bool_decide (element⟦pos + 1⟧ = Some 58)) then None
        else Some (strip_string (substr element 1 (pos - 1)),
                   strip_string (drop (Z.to_nat (pos + 2)) element))
    | None => None
    end
  else
    match find_first_of element 58 with
    | Some pos => Some (strip_string (take (Z.to_nat pos) element),
                        strip_string (drop (Z.to_nat (pos + 1)) element))
    | None => None
    end.

(** the body of the loop over the elements: nothing, an interface or an
    element to report *)
Definition parse_interface (element : list Z) : option (listen_interface_t + list Z) :=
  let element := strip_string element in
  let size := vsize element in
  let element :=
    if (1 <? size) && bool_decide (head element = Some 34) && bool_decide (head (rev element) = Some 34)
    then substr element 1 (size - 2) else element in
  match element with
  | [] => None
  | _ =>
      match parse_device element with
      | None => Some (inr element)
      | Some (device, port) =>
          let port_str := take_digits port in
          if (vsize port_str =? 0) || (5 <? vsize port_str) then Some (inr element)
          else
            let p := atoi port_str in
            if (p <? 0) || (65535 <? p) then Some (inr element)
            else
              let port := strip_string (drop (length port_str) port) in
              Some (inl (ListenInterface device p (existsb (λ c, c =? 115) port)))
      end
  end.

Fixpoint parse_listen_loop (fuel : nat) (rest : list Z)
    (out : list listen_interface_t) (err : list (list Z))
    : option (list listen_interface_t * list (list Z)) :=
  match rest with
  | [] => Some (out, err)
  | _ =>
      match fuel with
      | O => None
      | S fuel =>
          let '(element, rest) := split_string rest 44 in
          match parse_interface element with
          | None => parse_listen_loop fuel rest out err
          | Some (inl iface) => parse_listen_loop fuel rest (out ++ [iface]) err
          | Some (inr e) => parse_listen_loop fuel rest out (err ++ [e])
          end
      end
  end.

Definition parse_listen_interfaces (s : list Z)
    : option (list listen_interface_t * list (list Z)) :=
  parse_listen_loop (length s) s [] [].

(** one element of [parse_comma_separated_string]: leading spaces are skipped
    before the comma is looked for *)
Fixpoint parse_comma_loop (fuel : nat) (rest : list Z) (out : list (list Z))
    : option (list (list Z)) :=
  match rest with
  | [] => Some out
  | _ =>
      match fuel with
      | O => None
      | S fuel =>
          let rest := strip_front rest in
          let '(pos, found) := find_separator rest 44 0 in
          let item := rev (strip_front (rev (take (Z.to_nat pos) rest))) in
          parse_comma_loop fuel (drop (Z.to_nat (pos + 1)) rest) (out ++ [item])
      end
  end.

Definition parse_comma_separated_string (s : list Z) : option (list (list Z)) :=
  parse_comma_loop (length s) s [].

(** * Properties *)

Lemma hex_nibble n : 0 ≤ n < 16 → ∃ c, hex_chars⟦n⟧ = Some c ∧ hex_to_int c = n ∧
  (48 ≤ c ≤ 57 ∨ 97 ≤ c ≤ 102).
Proof.
  intros Hn.
  assert (n = 0 ∨ n = 1 ∨ n = 2 ∨ n = 3 ∨ n = 4 ∨ n = 5 ∨ n = 6 ∨ n = 7 ∨ n = 8 ∨ n = 9 ∨
    n = 10 ∨ n = 11 ∨ n = 12 ∨ n = 13 ∨ n = 14 ∨ n = 15) as H by lia.
  repeat destruct H as [H|H]; subst; eexists; split; try reflexivity; split; try reflexivity;
    first [left; split; vm_compute; discriminate | right; split; vm_compute; discriminate].
Qed.

Lemma hex_byte c : 0 ≤ c < 256 →
  0 ≤ Z.shiftr c 4 < 16 ∧ 0 ≤ Z.land c 15 < 16 ∧
  Z.lor (uint 8 (Z.shiftl (Z.shiftr c 4) 4)) (Z.land (Z.land c 15) 15) = c.
Proof.
  intros Hc. rewrite Z.shiftr_div_pow2 by lia. change (2 ^ 4) with 16.
  change 15 with (Z.ones 4). rewrite !Z.land_ones by lia. change (2 ^ 4) with 16.
  split_and!; try (apply Z.mod_pos_bound; lia); try (apply Z.div_pos; lia).
  - apply Z.div_lt_upper_bound; lia.
  - rewrite (Z.mod_small (c mod 16)) by (apply Z.mod_pos_bound; lia).
    rewrite Z.shiftl_mul_pow2 by lia. change (2 ^ 4) with 16.
    rewrite uint_small.
    2: { change (2 ^ 8) with 256. pose proof (Z.mul_div_le c 16 eq_refl).
       pose proof (Z.div_pos c 16 ltac:(lia) eq_refl). lia. }
    rewrite <-(Z.add_0_r (Z.lor _ _)).
    replace 0 with (Z.land (c / 16 * 16) (c mod 16)) at 1.
    + rewrite Z.add_lor_land. pose proof (Z.div_mod c 16 ltac:(lia)). lia.
    + apply Z.bits_inj'. intros i Hi. rewrite Z.land_spec, Z.bits_0.
      change 16 with (2 ^ 4). destruct (Z.ltb_spec i 4).
      * rewrite Z.mul_pow2_bits_low by lia. done.
      * rewrite Z.mod_pow2_bits_high by lia. apply andb_false_r.
Qed.

Lemma to_hex_spec s :
  Forall (λ c, 0 ≤ c < 256) s →
  ∃ h, to_hex s = Some h ∧ from_hex h = Some (s, true) ∧ vsize h = 2 * vsize s ∧
    is_hex h = true.
Proof.
  induction 1 as [|c s Hc _ (h & Hh & Hf & Hs & Hx)].
  { by exists []. }
  destruct (hex_byte c Hc) as (Hhi & Hlo & Hlor).
  destruct (hex_nibble _ Hhi) as (a & Ha & Hia & _).
  destruct (hex_nibble _ Hlo) as (b & Hb & Hib & _).
  exists (a :: b :: h). cbn [to_hex from_hex]. rewrite Ha, Hb, Hh. cbn [mbind option_bind].
  rewrite Hia, Hib.
  destruct (Z.eqb_spec (Z.shiftr c 4) (-1)); [lia|].
  destruct (Z.eqb_spec (Z.land c 15) (-1)); [lia|].
  rewrite Hf. cbn [mbind option_bind]. rewrite Hlor. split_and!; try done.
  - vsize.
  - unfold is_hex in *. cbn. rewrite Hia, Hib, Hx.
    destruct (Z.eqb_spec (Z.shiftr c 4) (-1)); [lia|].
    by destruct (Z.eqb_spec (Z.land c 15) (-1)); [lia|].
Qed.
