(* ===== verification/StrMap.v ===== *)
(** [std::map<std::string, T>]: the pairs in the order the map iterates them,
    which is the lexicographic order of their keys.  [std::less] of two strings
    compares their bytes as unsigned values. *)

From S2P Require Import Prelude.

Fixpoint lex_compare (a b : list Z) : comparison :=
  match a, b with
  | [], [] => Eq
  | [], _ => Lt
  | _, [] => Gt
  | x :: a, y :: b => if x <? y then Lt else if y <? x then Gt else lex_compare a b
  end.

Lemma lex_compare_eq a b : lex_compare a b = Eq ↔ a = b.
Proof.
  revert b. induction a as [|x a IH]; intros [|y b]; simpl; try done.
  destruct (Z.ltb_spec x y); [split; [done|intros [= ? ?]; lia]|].
  destruct (Z.ltb_spec y x); [split; [done|intros [= ? ?]; lia]|].
  rewrite IH. split; [intros ->; f_equal; lia|by intros [= _ ->]].
Qed.

Lemma lex_compare_antisym a b : lex_compare b a = CompOpp (lex_compare a b).
Proof.
  revert b. induction a as [|x a IH]; intros [|y b]; simpl; try done.
  destruct (Z.ltb_spec x y), (Z.ltb_spec y x); try lia; [done|done|apply IH].
Qed.

Definition lex_lt (a b : list Z) : Prop := lex_compare a b = Lt.

#[export] Instance lex_lt_dec a b : Decision (lex_lt a b).
Proof. unfold lex_lt. solve_decision. Defined.

#[export] Instance lex_lt_trans : Transitive lex_lt.
Proof.
  unfold lex_lt. intros a. induction a as [|x a IH]; intros [|y b] [|z c]; simpl; try done.
  destruct (Z.ltb_spec x y), (Z.ltb_spec y z), (Z.ltb_spec x z); try done; try lia.
  all: destruct (Z.ltb_spec y x), (Z.ltb_spec z y), (Z.ltb_spec z x); try done; try lia.
  apply IH.
Qed.

#[export] Instance lex_lt_irrefl : Irreflexive lex_lt.
Proof. intros a Ha. unfold lex_lt in Ha. by rewrite (proj2 (lex_compare_eq a a) eq_refl) in Ha. Qed.

Section map.
Context {V : Type}.
Implicit Types (m : list (list Z * V)) (k : list Z) (v : V).

Fixpoint find m k : option V :=
  match m with
  | [] => None
  | (k', v) :: m => if decide (k = k') then Some v else find m k
  end.

(** [m[k] = v] *)
Fixpoint insert m k v : list (list Z * V) :=
  match m with
  | [] => [(k, v)]
  | (k', v') :: m' =>
      match lex_compare k k' with
      | Lt => (k, v) :: m
      | Eq => (k, v) :: m'
      | Gt => (k', v') :: insert m' k v
      end
  end.

(** the keys increase, and are above [k] *)
Fixpoint above k m : Prop :=
  match m with
  | [] => True
  | (k', _) :: m => lex_lt k k' ∧ above k' m
  end.

Definition sorted m : Prop := match m with [] => True | (k, _) :: m => above k m end.

Lemma above_sorted k m : above k m → sorted m.
Proof. by destruct m as [|[k' v] m]; simpl; [|intros [_ ?]]. Qed.

Lemma above_trans k k' m : lex_lt k k' → above k' m → above k m.
Proof.
  destruct m as [|[k'' v] m]; simpl; [done|]. intros H [H' ?]. split; [|done].
  by trans k'.
Qed.

Lemma insert_above k m k' v :
  lex_lt k k' → above k m → above k (insert m k' v).
Proof.
  revert k. induction m as [|[k1 v1] m IH]; intros k Hk Hm; simpl in *; [done|].
  destruct Hm as [H1 Hm].
  destruct (lex_compare k' k1) eqn:Hc; simpl.
  - apply lex_compare_eq in Hc as ->. done.
  - done.
  - split; [done|]. apply IH; [|done]. unfold lex_lt. by rewrite lex_compare_antisym, Hc.
Qed.

Lemma insert_sorted m k v : sorted m → sorted (insert m k v).
Proof.
  destruct m as [|[k1 v1] m]; simpl; [done|]. intros Hm.
  destruct (lex_compare k k1) eqn:Hc; simpl.
  - by apply lex_compare_eq in Hc as ->.
  - done.
  - apply insert_above; [|done]. unfold lex_lt. by rewrite lex_compare_antisym, Hc.
Qed.

Lemma find_insert_eq m k v : find (insert m k v) k = Some v.
Proof.
  induction m as [|[k1 v1] m IH]; simpl; [by rewrite decide_True|].
  destruct (lex_compare k k1) eqn:Hc; simpl; [by rewrite decide_True..|].
  rewrite decide_False; [done|]. intros ->.
  by rewrite (proj2 (lex_compare_eq k1 k1) eq_refl) in Hc.
Qed.

Lemma find_insert_ne m k k' v : k' ≠ k → find (insert m k v) k' = find m k'.
Proof.
  intros Hne. induction m as [|[k1 v1] m IH]; simpl; [by rewrite decide_False|].
  destruct (lex_compare k k1) eqn:Hc; simpl.
  - apply lex_compare_eq in Hc as ->. by rewrite !decide_False.
  - by rewrite decide_False.
  - by destruct (decide (k' = k1)).
Qed.

(** a key above all of [m] is inserted at the end *)
Lemma insert_end m k v :
  Forall (λ kv, lex_lt kv.1 k) m → insert m k v = m ++ [(k, v)].
Proof.
  induction 1 as [|[k1 v1] m Hk _ IH]; [done|]. simpl in *.
  rewrite lex_compare_antisym, Hk. simpl. by rewrite IH.
Qed.

Lemma sorted_app_inv m1 k v m2 :
  sorted (m1 ++ (k, v) :: m2) → Forall (λ kv, lex_lt kv.1 k) m1.
Proof.
  induction m1 as [|[k1 v1] m1 IH]; intros Hs; [constructor|]. simpl in Hs.
  assert (Hs' := above_sorted _ _ Hs). specialize (IH Hs'). constructor; [|done].
  simpl. destruct m1 as [|[k2 v2] m1]; simpl in *.
  - by destruct Hs.
  - destruct Hs as [H12 _]. apply Forall_cons_1 in IH as [H2 _]. simpl in H2. by trans k2.
Qed.
End map.
