(* ===== verification/Bdecode.v ===== *)
(** The bdecoder, [bdecode()] of src/btdownloader/torrent/bdecode.cpp: the
    token array it builds, the loop over the buffer with its explicit stack,
    and the unwinding after an error.

    A pointer into the buffer is the suffix of the buffer it points to, so
    [end - start] is the size of the suffix and [start - orig_start] is
    [offset_of]. *)

From S2P Require Import Prelude.

(** the character constants of the source *)
Definition ch_0 : Z := 48.
Definition ch_9 : Z := 57.
Definition ch_colon : Z := 58.
Definition ch_minus : Z := 45.
Definition ch_d : Z := 100.
Definition ch_e : Z := 101.
Definition ch_i : Z := 105.
Definition ch_l : Z := 108.

Definition int64_max : Z := 2 ^ 63 - 1.
Definition int64_min : Z := - 2 ^ 63.

Inductive bdecode_errors :=
| no_error
| expected_digit
| expected_colon
| unexpected_eof
| expected_value
| depth_exceeded
| limit_exceeded
| overflow.

#[export] Instance bdecode_errors_dec : EqDecision bdecode_errors.
Proof. solve_decision. Defined.

Definition is_error (e : bdecode_errors) : bool :=
  match e with no_error => false | _ => true end.

Inductive type_t := tok_none | tok_dict | tok_list | tok_string | tok_integer | tok_end.

#[export] Instance type_t_dec : EqDecision type_t.
Proof. solve_decision. Defined.

(** [detail::bdecode_token]: four bit fields *)
Record bdecode_token := Token {
  offset : Z;     (* 29 bits *)
  type : type_t;  (* 3 bits *)
  next_item : Z;  (* 29 bits *)
  header : Z      (* 3 bits *)
}.

#[export] Instance bdecode_token_dec : EqDecision bdecode_token.
Proof. solve_decision. Defined.

Definition max_offset : Z := 2 ^ 29 - 1.
Definition max_next_item : Z := 2 ^ 29 - 1.
Definition max_header : Z := 2 ^ 3 - 1.

(** [bdecode_token(off, t)] *)
Definition token2 (off : Z) (t : type_t) : bdecode_token :=
  Token (uint 29 off) t 0 0.

(** [bdecode_token(off, next, t, header_size)] *)
Definition token4 (off next : Z) (t : type_t) (header_size : Z) : bdecode_token :=
  Token (uint 29 off) t (uint 29 next)
    (uint 3 (if decide (t = tok_string) then header_size - 2 else 0)).

Definition start_offset (t : bdecode_token) : Z := header t + 2.

Definition set_next_item (t : bdecode_token) (n : Z) : bdecode_token :=
  Token (offset t) (type t) (uint 29 n) (header t).

Definition numeric (c : Z) : bool := (ch_0 <=? c) && (c <=? ch_9).

(** the do-while loop of [check_integer]; it is entered with [start != end] *)
Fixpoint check_digits (start : list Z) (digits : Z) (e : bdecode_errors)
    : list Z * Z * bdecode_errors :=
  match start with
  | [] => (start, digits, e)
  | c :: start' =>
      if negb (numeric c) then (start, digits, expected_digit)
      else match start' with
           | [] => (start', digits + 1, unexpected_eof)
           | c' :: _ =>
               if c' =? ch_e then (start', digits + 1, e)
               else check_digits start' (digits + 1) e
           end
  end.

Definition check_integer (start : list Z) (e : bdecode_errors)
    : list Z * bdecode_errors :=
  match start with
  | [] => (start, unexpected_eof)
  | c :: rest =>
      let start := if c =? ch_minus then rest else start in
      match start with
      | [] => (start, unexpected_eof)
      | _ =>
          let '(start, digits, e) := check_digits start 0 e in
          (start, if 20 <? digits then overflow else e)
      end
  end.

(** [parse_int]: [val] and [ec] are in-out parameters.  [val] is an [int64_t]:
    a product or a sum that does not fit is undefined behaviour. *)
Fixpoint parse_int (start : list Z) (delimiter val : Z) (ec : bdecode_errors)
    : option (list Z * Z * bdecode_errors) :=
  match start with
  | [] => Some (start, val, ec)
  | c :: start' =>
      if c =? delimiter then Some (start, val, ec)
      else if negb (numeric c) then Some (start, val, expected_digit)
      else if int64_max / 10 <? val then Some (start, val, overflow)
      else
        val ← signed 64 (val * 10);
        let digit := c - ch_0 in
        if int64_max - digit <? val then Some (start, val, overflow)
        else val ← signed 64 (val + digit); parse_int start' delimiter val ec
  end.

Record stack_frame := Frame { token : Z; state : Z }.

(** the local variables of [bdecode]; [stack] holds the [sp] frames in use,
    oldest first, so [sp] is its size *)
Record pstate := PState {
  start : list Z;
  m_tokens : list bdecode_token;
  stack : list stack_frame;
  token_limit : Z
}.

Definition sp (st : pstate) : Z := vsize (stack st).
Definition set_start (s : list Z) (st : pstate) : pstate :=
  PState s (m_tokens st) (stack st) (token_limit st).
Definition push_token (t : bdecode_token) (st : pstate) : pstate :=
  PState (start st) (m_tokens st ++ [t]) (stack st) (token_limit st).
Definition push_frame (f : stack_frame) (st : pstate) : pstate :=
  PState (start st) (m_tokens st) (stack st ++ [f]) (token_limit st).
Definition set_stack (fs : list stack_frame) (st : pstate) : pstate :=
  PState (start st) (m_tokens st) fs (token_limit st).
Definition set_limit (n : Z) (st : pstate) : pstate :=
  PState (start st) (m_tokens st) (stack st) n.

(** one turn of the parse loop either goes on, or reports an error (with the
    value stored in [*error_pos]) and jumps to [done] *)
Inductive outcome :=
| Next (st : pstate)
| Failed (st : pstate) (ec : bdecode_errors) (error_pos : Z).

Section bdecode.
Context (buffer : list Z) (depth_limit : Z).

(** [p - orig_start] *)
Definition offset_of (p : list Z) : Z := vsize buffer - vsize p.

(** [TORRENT_FAIL_BDECODE(ec)] *)
Definition fail_bdecode (st : pstate) (ec : bdecode_errors) : outcome :=
  Failed st ec (offset_of (start st)).

(** [frame > 0 && m_tokens[stack[frame - 1].token].type == dict], with the
    frame *)
Definition dict_frame (st : pstate) (frame : Z) : option (option stack_frame) :=
  if 0 <? frame then
    f ← (stack st)⟦frame - 1⟧;
    t ← (m_tokens st)⟦token f⟧;
    Some (if decide (type t = tok_dict) then Some f else None)
  else Some None.

(** cases 'd' and 'l' *)
Definition parse_container (t : type_t) (rest : list Z) (st : pstate) : outcome :=
  let st1 := push_frame (Frame (uint 31 (vsize (m_tokens st))) 0) st in
  let st2 := push_token (token2 (offset_of (start st)) t) st1 in
  Next (set_start rest st2).

(** case 'i' *)
Definition parse_integer (rest : list Z) (st : pstate) : option outcome :=
  let int_start := start st in
  let '(start, e) := check_integer rest no_error in
  if is_error e then Some (Failed st e (offset_of start))
  else
    match start with
    | [] => None
    | _ :: start' =>
        Some (Next (set_start start'
          (push_token (token4 (offset_of int_start) 1 tok_integer 1) st)))
    end.

(** case 'e' *)
Definition parse_end (rest : list Z) (st : pstate) : option outcome :=
  if sp st =? 0 then Some (fail_bdecode st unexpected_eof)
  else
    d ← dict_frame st (sp st);
    f ← (stack st)⟦sp st - 1⟧;
    if (match d with Some f => state f =? 1 | None => false end)
    then Some (fail_bdecode st expected_value)
    else
      let st := push_token (token4 (offset_of (start st)) 1 tok_end 0) st in
      let top := token f in
      if max_next_item <? vsize (m_tokens st) - top
      then Some (fail_bdecode st limit_exceeded)
      else
        tk ← (m_tokens st)⟦top⟧;
        toks ← (m_tokens st)⟦top := set_next_item tk (vsize (m_tokens st) - top)⟧;
        Some (Next (PState rest toks (take (Z.to_nat (sp st - 1)) (stack st))
                      (token_limit st))).

(** the default case: strings *)
Definition parse_string (t : Z) (rest : list Z) (st : pstate) : option outcome :=
  if negb (numeric t) then Some (fail_bdecode st expected_value)
  else
    let str_start := start st in
    match rest with
    | [] => Some (fail_bdecode (set_start rest st) unexpected_eof)
    | _ =>
        '(start, len, e) ← parse_int rest ch_colon (t - ch_0) no_error;
        if is_error e then Some (fail_bdecode (set_start start st) e)
        else
          match start with
          | [] => Some (fail_bdecode (set_start start st) expected_colon)
          | _ :: start' =>
              let buff_size := vsize start - 1 in
              if buff_size <? len
              then Some (fail_bdecode (set_start start st) unexpected_eof)
              else if len <? 0
              then Some (fail_bdecode (set_start start st) overflow)
              else
                let header_size := vsize str_start - vsize start' in
                if max_header <? header_size - 2
                then Some (fail_bdecode (set_start start' st) limit_exceeded)
                else
                  Some (Next (set_start (drop (Z.to_nat len) start')
                    (push_token (token4 (offset_of str_start) 1 tok_string
                                   (uint 8 header_size)) st)))
          end
    end.

(** after an item, the enclosing dictionary expects the other of key and
    value; the frame of a container that was just closed is dead storage *)
Definition flip_state (current_frame : Z) (st : pstate) : option pstate :=
  if (0 <? current_frame) && (current_frame <=? sp st) then
    d ← dict_frame st current_frame;
    match d with
    | Some f =>
        fs ← (stack st)⟦current_frame - 1 := Frame (token f) (Z.land (state f + 1) 1)⟧;
        Some (set_stack fs st)
    | None => Some st
    end
  else Some st.

(** the switch over the first character of the item *)
Definition parse_item (t : Z) (rest : list Z) (st : pstate) : option outcome :=
  if t =? ch_d then Some (parse_container tok_dict rest st)
  else if t =? ch_l then Some (parse_container tok_list rest st)
  else if t =? ch_i then parse_integer rest st
  else if t =? ch_e then parse_end rest st
  else parse_string t rest st.

(** the body of the parse loop *)
Definition step (st : pstate) : option outcome :=
  match start st with
  | [] => Some (fail_bdecode st unexpected_eof)
  | t :: rest =>
      if depth_limit <=? sp st then Some (fail_bdecode st depth_exceeded)
      else
        let st := set_limit (token_limit st - 1) st in
        if token_limit st <? 0 then Some (fail_bdecode st limit_exceeded)
        else
          let current_frame := sp st in
          d ← dict_frame st current_frame;
          if (match d with Some f => state f =? 0 | None => false end)
             && negb (numeric t) && negb (t =? ch_e)
          then Some (fail_bdecode st expected_digit)
          else
            o ← parse_item t rest st;
            match o with
            | Next st' => st'' ← flip_state current_frame st'; Some (Next st'')
            | Failed _ _ _ => Some o
            end
  end.

(** [while (start <= end)]: the fuel is a bound on the turns of the loop *)
Fixpoint parse_loop (fuel : nat) (st : pstate)
    : option (pstate * option (bdecode_errors * Z)) :=
  match fuel with
  | O => None
  | S fuel =>
      o ← step st;
      match o with
      | Failed st ec pos => Some (st, Some (ec, pos))
      | Next st => if sp st =? 0 then Some (st, None) else parse_loop fuel st
      end
  end.

(** the loop at [done:], over the frames left, youngest first *)
Fixpoint unwind (pos : Z) (toks : list bdecode_token) (frames : list stack_frame)
    : option (list bdecode_token) :=
  match frames with
  | [] => Some toks
  | f :: frames =>
      tk ← toks⟦token f⟧;
      let toks :=
        if decide (type tk = tok_dict) then
          if state f =? 1
          then (toks ++ [token4 pos 2 tok_dict 0]) ++ [token2 pos tok_end]
          else toks
        else toks in
      toks ← toks⟦token f := set_next_item tk (vsize toks - token f)⟧;
      unwind pos (toks ++ [token4 pos 1 tok_end 0]) frames
  end.
End bdecode.

(** what [bdecode] hands back: the owning node ([root_tokens], the index of
    its token and the size of the buffer it spans), the error and the
    position of the error *)
Record result := Result {
  r_tokens : list bdecode_token;
  r_token_idx : Z;
  r_buffer_size : Z;
  r_ec : bdecode_errors;
  r_error_pos : option Z
}.

Definition init_state (buffer : list Z) (token_limit : Z) : pstate :=
  PState buffer [] [] token_limit.

(** the code from [done:] on *)
Definition finish (buffer : list Z) (st : pstate) (err : option (bdecode_errors * Z))
    : option result :=
  let pos := offset_of buffer (start st) in
  toks ← unwind pos (m_tokens st) (rev (stack st));
  Some (Result (toks ++ [token4 pos 0 tok_end 0]) 0 pos
          (match err with Some (ec, _) => ec | None => no_error end)
          (match err with Some (_, p) => Some p | None => None end)).

Definition bdecode (buffer : list Z) (depth_limit token_limit : Z) : option result :=
  if max_offset <? vsize buffer
  then Some (Result [] (-1) 0 limit_exceeded (Some 0))
  else if vsize buffer =? 0
  then finish buffer (init_state buffer token_limit) (Some (unexpected_eof, 0))
  else
    r ← parse_loop buffer depth_limit (S (length buffer)) (init_state buffer token_limit);
    let '(st, err) := r in finish buffer st err.

