(* ===== verification/BencodeGrammar.v ===== *)
(** The bencoding grammar as concrete syntax trees: how a tree is printed, the
    token array that stands for it, and the limits [bdecode] puts on it.  This
    is the abstract specification the parser is proved against. *)

From S2P Require Import Prelude.
From S2P Require Import Bdecode.

(** a string item: the digits of its length and its bytes *)
Record bstr := BStr { len_digits : list Z; content : list Z }.

Inductive cst :=
| CInt (neg : bool) (digits : list Z)
| CStr (s : bstr)
| CList (l : list cst)
| CDict (l : list (bstr * cst)).

Section cst_ind.
Context (P : cst → Prop)
  (Hint : ∀ neg ds, P (CInt neg ds))
  (Hstr : ∀ s, P (CStr s))
  (Hlist : ∀ l, Forall P l → P (CList l))
  (Hdict : ∀ l, Forall (λ kv, P kv.2) l → P (CDict l)).

Fixpoint cst_rect' (c : cst) : P c :=
  match c with
  | CInt neg ds => Hint neg ds
  | CStr s => Hstr s
  | CList l => Hlist l
      ((fix go l : Forall P l :=
          match l with
          | [] => Forall_nil_2 P
          | c :: l => Forall_cons_2 P c l (cst_rect' c) (go l)
          end) l)
  | CDict l => Hdict l
      ((fix go l : Forall (λ kv, P kv.2) l :=
          match l with
          | [] => Forall_nil_2 _
          | kv :: l => Forall_cons_2 _ kv l (cst_rect' kv.2) (go l)
          end) l)
  end.
End cst_ind.

(** * Printing *)

Definition print_str (s : bstr) : list Z := len_digits s ++ [ch_colon] ++ content s.

Arguments print_str : simpl never.

Definition sign (neg : bool) : list Z := if neg then [ch_minus] else [].

Fixpoint print (c : cst) : list Z :=
  match c with
  | CInt neg ds => [ch_i] ++ sign neg ++ ds ++ [ch_e]
  | CStr s => print_str s
  | CList l => [ch_l] ++ concat (map print l) ++ [ch_e]
  | CDict l => [ch_d] ++ concat (map (λ kv, print_str kv.1 ++ print kv.2) l) ++ [ch_e]
  end.

Definition print_list (l : list cst) : list Z := concat (map print l).
Definition print_pairs (l : list (bstr * cst)) : list Z :=
  concat (map (λ kv, print_str kv.1 ++ print kv.2) l).

(** * Tokens *)

Definition str_token (off : Z) (s : bstr) : bdecode_token :=
  token4 off 1 tok_string (uint 8 (vsize (len_digits s) + 1)).

Arguments str_token : simpl never.

(** the tokens of a container opened at [off] with the items [inner], which
    closes at [last] *)
Definition container (t : type_t) (off : Z) (inner : list bdecode_token) (last : Z)
    : list bdecode_token :=
  set_next_item (token2 off t) (vsize inner + 2) :: inner ++ [token4 last 1 tok_end 0].

Fixpoint tokens (off : Z) (c : cst) : list bdecode_token :=
  match c with
  | CInt _ _ => [token4 off 1 tok_integer 1]
  | CStr s => [str_token off s]
  | CList l =>
      container tok_list off
        ((fix go off l :=
            match l with
            | [] => []
            | c :: l => tokens off c ++ go (off + vsize (print c)) l
            end) (off + 1) l)
        (off + vsize (print c) - 1)
  | CDict l =>
      container tok_dict off
        ((fix go off l :=
            match l with
            | [] => []
            | (k, v) :: l =>
                str_token off k :: tokens (off + vsize (print_str k)) v ++
                go (off + vsize (print_str k) + vsize (print v)) l
            end) (off + 1) l)
        (off + vsize (print c) - 1)
  end.

Fixpoint tokens_list (off : Z) (l : list cst) : list bdecode_token :=
  match l with
  | [] => []
  | c :: l => tokens off c ++ tokens_list (off + vsize (print c)) l
  end.

Fixpoint tokens_pairs (off : Z) (l : list (bstr * cst)) : list bdecode_token :=
  match l with
  | [] => []
  | (k, v) :: l =>
      str_token off k :: tokens (off + vsize (print_str k)) v ++
      tokens_pairs (off + vsize (print_str k) + vsize (print v)) l
  end.

(** * Well-formedness and limits *)

Definition digit_list (ds : list Z) : Prop := Forall (λ c, numeric c = true) ds.

(** the value of a list of decimal digits, from the accumulator [v] *)
Fixpoint digits_value (v : Z) (ds : list Z) : Z :=
  match ds with
  | [] => v
  | c :: ds => digits_value (v * 10 + (c - ch_0)) ds
  end.

(** a length prefix has one to eight digits: [header] has three bits and two
    bytes are implied *)
Definition str_ok (s : bstr) : Prop :=
  digit_list (len_digits s) ∧ 1 ≤ vsize (len_digits s) ≤ 8 ∧
  digits_value 0 (len_digits s) = vsize (content s).

Inductive cst_ok : cst → Prop :=
| int_ok neg ds : digit_list ds → 1 ≤ vsize ds ≤ 20 → cst_ok (CInt neg ds)
| string_ok s : str_ok s → cst_ok (CStr s)
| list_ok l : Forall cst_ok l → cst_ok (CList l)
| dict_ok l : Forall (λ kv, str_ok kv.1 ∧ cst_ok kv.2) l → cst_ok (CDict l).

(** the number of stack frames that must be free when the item starts: a
    container needs one more for the test made at its 'e' *)
Fixpoint depth (c : cst) : Z :=
  match c with
  | CInt _ _ | CStr _ => 1
  | CList l => 1 + foldr (λ c, Z.max (depth c)) 1 l
  | CDict l => 1 + foldr (λ kv, Z.max (depth kv.2)) 1 l
  end.

Definition depth_list (l : list cst) : Z := foldr (λ c, Z.max (depth c)) 1 l.
Definition depth_pairs (l : list (bstr * cst)) : Z :=
  foldr (λ kv, Z.max (depth kv.2)) 1 l.

(** * Unfolding lemmas *)

Lemma print_list_eq l : print (CList l) = [ch_l] ++ print_list l ++ [ch_e].
Proof. reflexivity. Qed.
Lemma print_dict_eq l : print (CDict l) = [ch_d] ++ print_pairs l ++ [ch_e].
Proof. reflexivity. Qed.

Lemma tokens_list_eq off l :
  tokens off (CList l) =
  container tok_list off (tokens_list (off + 1) l) (off + vsize (print (CList l)) - 1).
Proof.
  reflexivity.
Qed.

Lemma tokens_dict_eq off l :
  tokens off (CDict l) =
  container tok_dict off (tokens_pairs (off + 1) l) (off + vsize (print (CDict l)) - 1).
Proof.
  reflexivity.
Qed.

Lemma print_list_app l1 l2 : print_list (l1 ++ l2) = print_list l1 ++ print_list l2.
Proof. unfold print_list. by rewrite map_app, concat_app. Qed.

Lemma print_pairs_app l1 l2 : print_pairs (l1 ++ l2) = print_pairs l1 ++ print_pairs l2.
Proof. unfold print_pairs. by rewrite map_app, concat_app. Qed.

Lemma tokens_list_app off l1 l2 :
  tokens_list off (l1 ++ l2) =
  tokens_list off l1 ++ tokens_list (off + vsize (print_list l1)) l2.
Proof.
  revert off. induction l1 as [|c l1 IH]; intros off; simpl.
  - unfold print_list; simpl. by rewrite vsize_nil, Z.add_0_r.
  - rewrite IH, <-app_assoc. unfold print_list; simpl.
    by rewrite vsize_app, Z.add_assoc.
Qed.

Lemma tokens_pairs_app off l1 l2 :
  tokens_pairs off (l1 ++ l2) =
  tokens_pairs off l1 ++ tokens_pairs (off + vsize (print_pairs l1)) l2.
Proof.
  revert off. induction l1 as [|[k v] l1 IH]; intros off; simpl.
  - unfold print_pairs; simpl. by rewrite vsize_nil, Z.add_0_r.
  - rewrite IH, <-app_assoc. unfold print_pairs; simpl.
    by rewrite !vsize_app, !Z.add_assoc.
Qed.

Lemma depth_pos c : 1 ≤ depth c.
Proof.
  destruct c as [| |l|l]; simpl; try lia.
  - enough (1 ≤ foldr (λ c, Z.max (depth c)) 1 l) by lia. induction l; simpl; lia.
  - enough (1 ≤ foldr (λ kv, Z.max (depth kv.2)) 1 l) by lia. induction l; simpl; lia.
Qed.

Lemma depth_list_le l : 1 ≤ depth_list l.
Proof. unfold depth_list. induction l; simpl; lia. Qed.
Lemma depth_pairs_le l : 1 ≤ depth_pairs l.
Proof. unfold depth_pairs. induction l; simpl; lia. Qed.
