(* ===== verification/BdecodeCorrect.v ===== *)
(** The parser against the grammar: every turn of the loop of [bdecode] is a
    move on a context of open containers; a buffer is accepted exactly when it
    starts with a well-formed item within the limits, and the tokens are those
    of that item. *)

From S2P Require Import Prelude.
From S2P Require Import Bdecode.
From S2P Require Import BencodeGrammar.

(** * Lexing *)

Lemma numeric_range c : numeric c = true ↔ ch_0 ≤ c ≤ ch_9.
Proof. unfold numeric. lia. Qed.

Lemma numeric_e : numeric ch_e = false. Proof. reflexivity. Qed.
Lemma numeric_colon : numeric ch_colon = false. Proof. reflexivity. Qed.

Lemma digits_value_mono v ds : 0 ≤ v → digit_list ds → v ≤ digits_value v ds.
Proof.
  intros Hv Hds. revert v Hv. induction Hds as [|c ds Hc _ IH]; intros v Hv; simpl; [lia|].
  apply numeric_range in Hc. unfold ch_0 in *.
  etrans; [|apply IH; lia]. lia.
Qed.

Lemma digits_value_app v ds1 ds2 :
  digits_value v (ds1 ++ ds2) = digits_value (digits_value v ds1) ds2.
Proof. revert v. induction ds1 as [|c ds1 IH]; intros v; simpl; [done|]. apply IH. Qed.

Lemma check_digits_ok ds r n e :
  digit_list ds → ds ≠ [] →
  check_digits (ds ++ ch_e :: r) n e = (ch_e :: r, n + vsize ds, e).
Proof.
  intros Hds. revert n. induction Hds as [|c ds Hc Hds IH]; intros n Hne; [done|].
  simpl. rewrite Hc; simpl. destruct ds as [|c' ds].
  - simpl. by rewrite vsize_cons, vsize_nil.
  - specialize (IH (n + 1) ltac:(done)). simpl in IH |- *.
    inversion Hds as [|? ? Hc' _]; subst.
    destruct (Z.eqb_spec c' ch_e) as [->|_]; [by rewrite numeric_e in Hc'|].
    by rewrite IH, (vsize_cons c (c' :: ds)), Z.add_assoc.
Qed.

Lemma check_digits_inv s n s' n' :
  s ≠ [] → check_digits s n no_error = (s', n', no_error) →
  ∃ ds r, s = ds ++ ch_e :: r ∧ s' = ch_e :: r ∧ digit_list ds ∧ ds ≠ [] ∧
    n' = n + vsize ds.
Proof.
  revert n. induction s as [|c s IH]; intros n Hne; [done|]. simpl.
  destruct (numeric c) eqn:Hc; simpl; [|by intros [=]].
  destruct s as [|c' s]; [by intros [=]|].
  destruct (Z.eqb_spec c' ch_e) as [->|Hc'].
  - intros [= <- <-]. exists [c], s. repeat split; try done. by repeat constructor.
  - intros (ds & r & -> & -> & Hds & Hne' & ->)%IH; [|done].
    exists (c :: ds), r. repeat split; try done; [by constructor|].
    rewrite vsize_cons. lia.
Qed.

Lemma check_integer_ok neg ds r :
  digit_list ds → 1 ≤ vsize ds ≤ 20 →
  check_integer (sign neg ++ ds ++ ch_e :: r) no_error = (ch_e :: r, no_error).
Proof.
  intros Hds Hlen.
  assert (Hne : ds ≠ []) by (intros ->; rewrite vsize_nil in Hlen; lia).
  unfold check_integer.
  assert (Hcd := check_digits_ok ds r 0 no_error Hds Hne).
  destruct neg; cbn -[check_digits vsize].
  - destruct (ds ++ ch_e :: r) eqn:E; [by destruct ds|].
    rewrite Hcd. destruct (Z.ltb_spec 20 (0 + vsize ds)); [lia|done].
  - destruct ds as [|c ds]; [done|]. cbn -[check_digits vsize] in *. inversion Hds as [|? ? Hc _]; subst.
    destruct (Z.eqb_spec c ch_minus) as [->|_]; [done|].
    rewrite Hcd. destruct (Z.ltb_spec 20 (0 + vsize (c :: ds))); [lia|done].
Qed.

Lemma check_integer_inv s s' :
  check_integer s no_error = (s', no_error) →
  ∃ neg ds r, s = sign neg ++ ds ++ ch_e :: r ∧ s' = ch_e :: r ∧
    digit_list ds ∧ 1 ≤ vsize ds ≤ 20.
Proof.
  unfold check_integer. destruct s as [|c s]; [by intros [=]|].
  destruct (Z.eqb_spec c ch_minus) as [->|Hc].
  - destruct s as [|c s]; [by intros [=]|].
    destruct (check_digits (c :: s) 0 no_error) as [[s1 n] e] eqn:E.
    destruct (Z.ltb_spec 20 n); intros [= -> ->].
    apply check_digits_inv in E as (ds & r & -> & -> & Hds & Hne & ->); [|done].
    exists true, ds, r. repeat split; try done.
    destruct ds; [done|]. rewrite vsize_cons. pose proof (vsize_nonneg ds). lia.
  - destruct (check_digits (c :: s) 0 no_error) as [[s1 n] e] eqn:E.
    destruct (Z.ltb_spec 20 n); intros [= -> ->].
    apply check_digits_inv in E as (ds & r & -> & -> & Hds & Hne & ->); [|done].
    exists false, ds, r. repeat split; try done.
    destruct ds; [done|]. rewrite vsize_cons. pose proof (vsize_nonneg ds). lia.
Qed.

Lemma int64_max_div_10 v : int64_max / 10 < v ↔ int64_max < v * 10.
Proof.
  change (int64_max / 10) with 922337203685477580.
  change int64_max with 9223372036854775807. lia.
Qed.

Lemma int64_small v : 0 ≤ v ≤ int64_max → signed 64 v = Some v.
Proof. intros Hv. apply signed_small. unfold int64_max in Hv. lia. Qed.

Lemma int64_times_10 v : 0 ≤ v → v ≤ int64_max / 10 → signed 64 (v * 10) = Some (v * 10).
Proof.
  intros Hv Hle. apply int64_small.
  destruct (Z.le_gt_cases (v * 10) int64_max) as [|Hgt]; [lia|].
  apply Z.lt_gt, Z.gt_lt, int64_max_div_10 in Hgt. lia.
Qed.

(** the value is exact whenever it fits in 64 bits, and every value that does
    not is reported *)
Lemma parse_int_digits ds d r v ec :
  digit_list ds → numeric d = false → 0 ≤ v ≤ int64_max →
  if digits_value v ds <=? int64_max
  then parse_int (ds ++ d :: r) d v ec = Some (d :: r, digits_value v ds, ec)
  else ∃ s w, parse_int (ds ++ d :: r) d v ec = Some (s, w, overflow).
Proof.
  intros Hds Hd. revert v. induction Hds as [|c ds Hc Hds IH]; intros v Hv; simpl.
  - rewrite Z.eqb_refl. destruct (Z.leb_spec v int64_max); [done|lia].
  - destruct (Z.eqb_spec c d) as [->|_]; [congruence|]. rewrite Hc; simpl.
    assert (Hmono := λ w H, digits_value_mono w ds H Hds).
    apply numeric_range in Hc. unfold ch_0, ch_9 in *.
    destruct (Z.ltb_spec (int64_max / 10) v).
    { destruct (Z.leb_spec (digits_value (v * 10 + (c - 48)) ds) int64_max); [|eauto].
      exfalso. specialize (Hmono (v * 10 + (c - 48)) ltac:(lia)).
      apply int64_max_div_10 in H. lia. }
    rewrite int64_times_10 by lia. cbn [mbind option_bind].
    destruct (Z.ltb_spec (int64_max - (c - 48)) (v * 10)).
    { destruct (Z.leb_spec (digits_value (v * 10 + (c - 48)) ds) int64_max); [|eauto].
      exfalso. specialize (Hmono (v * 10 + (c - 48)) ltac:(lia)). lia. }
    rewrite int64_small by lia. cbn [mbind option_bind]. apply IH. lia.
Qed.

Lemma parse_int_ok ds d r v ec :
  digit_list ds → numeric d = false → 0 ≤ v → digits_value v ds ≤ int64_max →
  parse_int (ds ++ d :: r) d v ec = Some (d :: r, digits_value v ds, ec).
Proof.
  intros Hds Hd Hv Hle. pose proof (digits_value_mono v ds Hv Hds).
  pose proof (parse_int_digits ds d r v ec Hds Hd ltac:(lia)) as Hp.
  by destruct (Z.leb_spec (digits_value v ds) int64_max); [|lia].
Qed.

(** no operation of the loop overflows, whatever the bytes *)
Lemma parse_int_returns s d v ec :
  0 ≤ v ≤ int64_max → ∃ s' v' e, parse_int s d v ec = Some (s', v', e).
Proof.
  revert v. induction s as [|c s IH]; intros v Hv; simpl; [by eauto|].
  destruct (c =? d); [by eauto|]. destruct (numeric c) eqn:Hc; simpl; [|by eauto].
  apply numeric_range in Hc. unfold ch_0, ch_9 in *.
  destruct (Z.ltb_spec (int64_max / 10) v); [by eauto|].
  rewrite int64_times_10 by lia. cbn [mbind option_bind].
  destruct (Z.ltb_spec (int64_max - (c - 48)) (v * 10)); [by eauto|].
  rewrite int64_small by lia. cbn [mbind option_bind]. apply IH. lia.
Qed.

Lemma parse_int_suffix s d v ec t s' v' e :
  parse_int s d v ec = Some (s', v', e) → ∃ m, t :: s = m ++ s'.
Proof.
  revert t v. induction s as [|c s IH]; intros t v; simpl.
  - intros [= <- ? ?]. by exists [t].
  - repeat case_match; try (intros [= <- ? ?]; by exists [t]).
    intros (v1 & _ & Hv1)%bind_Some. case_match; [simplify_eq; by exists [t]|].
    apply bind_Some in Hv1 as (v2 & _ & Hv2). destruct (IH c _ Hv2) as [m Hm].
    exists (t :: m). by rewrite Hm.
Qed.

Lemma parse_int_inv s d v s' v' :
  0 ≤ v ≤ int64_max → parse_int s d v no_error = Some (s', v', no_error) →
  ∃ ds, s = ds ++ s' ∧ digit_list ds ∧ v' = digits_value v ds ∧
    (s' = [] ∨ ∃ r, s' = d :: r).
Proof.
  revert v. induction s as [|c s IH]; intros v Hv; simpl.
  - intros [= <- <-]. exists []. repeat split; [constructor|by left].
  - destruct (Z.eqb_spec c d) as [->|Hne].
    { intros [= <- <-]. exists []. repeat split; [constructor|by eauto]. }
    destruct (numeric c) eqn:Hc; simpl; [|by intros [=]].
    pose proof (proj1 (numeric_range c) Hc). unfold ch_0, ch_9 in *.
    destruct (Z.ltb_spec (int64_max / 10) v); [by intros [=]|].
    rewrite int64_times_10 by lia. cbn [mbind option_bind].
    destruct (Z.ltb_spec (int64_max - (c - 48)) (v * 10)); [by intros [=]|].
    rewrite int64_small by lia. cbn [mbind option_bind].
    intros (ds & -> & Hds & -> & Hs')%IH; [|lia].
    exists (c :: ds). repeat split; try done. by constructor.
Qed.

(** * Contexts *)

(** a container that is still open: the items read so far and, in a
    dictionary, the key that waits for its value *)
Inductive open_frame :=
| OList (done : list cst)
| ODict (done : list (bstr * cst)) (pending : option bstr).

(** the open containers, innermost first *)
Abbreviation context := (list open_frame).

Definition print_pending (p : option bstr) : list Z :=
  match p with Some k => print_str k | None => [] end.

Definition print_open (f : open_frame) : list Z :=
  match f with
  | OList l => ch_l :: print_list l
  | ODict l p => ch_d :: print_pairs l ++ print_pending p
  end.

Fixpoint print_ctx (ctx : context) : list Z :=
  match ctx with [] => [] | f :: ctx => print_ctx ctx ++ print_open f end.

Definition open_tokens (off : Z) (f : open_frame) : list bdecode_token :=
  match f with
  | OList l => token2 off tok_list :: tokens_list (off + 1) l
  | ODict l p =>
      token2 off tok_dict :: tokens_pairs (off + 1) l ++
      match p with
      | Some k => [str_token (off + 1 + vsize (print_pairs l)) k]
      | None => []
      end
  end.

Fixpoint tokens_ctx (ctx : context) : list bdecode_token :=
  match ctx with
  | [] => []
  | f :: ctx => tokens_ctx ctx ++ open_tokens (vsize (print_ctx ctx)) f
  end.

Definition state_of (f : open_frame) : Z :=
  match f with ODict _ (Some _) => 1 | _ => 0 end.

(** only the innermost dictionary can wait for a value with its state bit set:
    the bit is flipped when the value starts *)
Fixpoint outer_frames (ctx : context) : list stack_frame :=
  match ctx with
  | [] => []
  | _ :: ctx => outer_frames ctx ++ [Frame (vsize (tokens_ctx ctx)) 0]
  end.

Definition frames_ctx (ctx : context) : list stack_frame :=
  match ctx with
  | [] => []
  | f :: ctx => outer_frames ctx ++ [Frame (vsize (tokens_ctx ctx)) (state_of f)]
  end.

(** the parser state that stands for a context *)
Definition conc (ctx : context) (rest : list Z) (lim : Z) : pstate :=
  PState rest (tokens_ctx ctx) (frames_ctx ctx) lim.

(** either still inside of a container (or before the first item), or done *)
Inductive astate := Open (ctx : context) | Complete (c : cst).

Definition conc_a (a : astate) (rest : list Z) (lim : Z) : pstate :=
  match a with
  | Open ctx => conc ctx rest lim
  | Complete c => PState rest (tokens 0 c) [] lim
  end.

Definition print_a (a : astate) : list Z :=
  match a with Open ctx => print_ctx ctx | Complete c => print c end.

Definition plug_frame (f : open_frame) (c : cst) : option open_frame :=
  match f, c with
  | OList l, _ => Some (OList (l ++ [c]))
  | ODict l (Some k), _ => Some (ODict (l ++ [(k, c)]) None)
  | ODict l None, CStr s => Some (ODict l (Some s))
  | ODict l None, _ => None
  end.

Definition plug (ctx : context) (c : cst) : option astate :=
  match ctx with
  | [] => Some (Complete c)
  | f :: ctx => f' ← plug_frame f c; Some (Open (f' :: ctx))
  end.

Definition close (f : open_frame) : option cst :=
  match f with
  | OList l => Some (CList l)
  | ODict l None => Some (CDict l)
  | ODict l (Some _) => None
  end.

(** a container may not be a key *)
Definition can_open (ctx : context) : bool :=
  match ctx with ODict _ None :: _ => false | _ => true end.

Lemma print_plug_frame f c f' :
  plug_frame f c = Some f' → print_open f' = print_open f ++ print c.
Proof.
  destruct f as [l|l [k|]]; simpl.
  - intros [= <-]. simpl. rewrite print_list_app. unfold print_list at 2; simpl.
    by rewrite app_nil_r.
  - intros [= <-]. simpl. rewrite print_pairs_app. unfold print_pairs at 2; simpl.
    by rewrite !app_nil_r, <-!app_assoc.
  - destruct c; intros [= <-]. simpl. by rewrite app_nil_r.
Qed.

Lemma tokens_plug_frame off f c f' :
  plug_frame f c = Some f' →
  open_tokens off f' = open_tokens off f ++ tokens (off + vsize (print_open f)) c.
Proof.
  destruct f as [l|l [k|]]; simpl.
  - intros [= <-]. simpl. rewrite tokens_list_app; simpl. rewrite app_nil_r, vsize_cons.
    by rewrite Z.add_assoc.
  - intros [= <-]. simpl. rewrite tokens_pairs_app; simpl. rewrite !app_nil_r.
    rewrite vsize_cons, vsize_app, <-app_assoc. by rewrite !Z.add_assoc.
  - destruct c; intros [= <-]. simpl. rewrite !app_nil_r, vsize_cons.
    by rewrite !Z.add_assoc.
Qed.

Lemma state_plug_frame f c f' :
  plug_frame f c = Some f' →
  state_of f' = match f with OList _ => 0 | ODict _ _ => Z.land (state_of f + 1) 1 end.
Proof.
  destruct f as [l|l [k|]]; simpl; [by intros [= <-]..|]. by destruct c; intros [= <-].
Qed.

Lemma outer_frames_size ctx : vsize (outer_frames ctx) = vsize ctx.
Proof. induction ctx; simpl; [done|]. rewrite vsize_app, !vsize_cons, vsize_nil. lia. Qed.

Lemma frames_ctx_size ctx : vsize (frames_ctx ctx) = vsize ctx.
Proof.
  destruct ctx; simpl; [done|].
  rewrite vsize_app, !vsize_cons, vsize_nil, outer_frames_size. lia.
Qed.

(** * Sizes *)

Lemma print_str_size k : vsize (print_str k) = vsize (len_digits k) + 1 + vsize (content k).
Proof. unfold print_str. rewrite !vsize_app, vsize_cons, vsize_nil. lia. Qed.

Lemma print_str_pos k : 1 ≤ vsize (print_str k).
Proof.
  rewrite print_str_size. pose proof (vsize_nonneg (len_digits k)).
  pose proof (vsize_nonneg (content k)). lia.
Qed.

Lemma tokens_size off c : 1 ≤ vsize (tokens off c) ≤ vsize (print c).
Proof.
  revert off. induction c as [neg ds|s|l IH|l IH] using cst_rect'; intros off.
  - simpl. pose proof (vsize_nonneg ds). pose proof (vsize_nonneg (sign neg)). vsize.
  - simpl. rewrite !vsize_cons, !vsize_nil. pose proof (print_str_pos s). lia.
  - rewrite tokens_list_eq, print_list_eq. unfold container.
    autorewrite with vsize.
    enough (∀ o, 0 ≤ vsize (tokens_list o l) ≤ vsize (print_list l)) as H
      by (specialize (H (off + 1)); lia).
    induction IH as [|c l Hc _ IHl]; intros o; simpl; [done|].
    unfold print_list in *; simpl. rewrite !vsize_app.
    specialize (Hc o). specialize (IHl (o + vsize (print c))). lia.
  - rewrite tokens_dict_eq, print_dict_eq. unfold container.
    autorewrite with vsize.
    enough (∀ o, 0 ≤ vsize (tokens_pairs o l) ≤ vsize (print_pairs l)) as H
      by (specialize (H (off + 1)); lia).
    induction IH as [|[k v] l Hc _ IHl]; intros o; simpl in *; [done|].
    unfold print_pairs in *; simpl. rewrite vsize_cons, !vsize_app.
    specialize (Hc (o + vsize (print_str k))).
    specialize (IHl (o + vsize (print_str k) + vsize (print v))).
    pose proof (print_str_pos k). lia.
Qed.

Lemma open_tokens_size off f : 1 ≤ vsize (open_tokens off f) ≤ vsize (print_open f).
Proof.
  assert (Hl : ∀ l o, vsize (tokens_list o l) ≤ vsize (print_list l)).
  { intros l o. pose proof (tokens_size (o - 1) (CList l)) as H.
    rewrite tokens_list_eq, print_list_eq in H. unfold container in H.
    autorewrite with vsize in H.
    replace (o - 1 + 1) with o in H by lia. lia. }
  assert (Hd : ∀ l o, vsize (tokens_pairs o l) ≤ vsize (print_pairs l)).
  { intros l o. pose proof (tokens_size (o - 1) (CDict l)) as H.
    rewrite tokens_dict_eq, print_dict_eq in H. unfold container in H.
    autorewrite with vsize in H.
    replace (o - 1 + 1) with o in H by lia. lia. }
  destruct f as [l|l p]; simpl.
  - rewrite !vsize_cons. specialize (Hl l (off + 1)).
    pose proof (vsize_nonneg (tokens_list (off + 1) l)). lia.
  - rewrite !vsize_cons, !vsize_app. specialize (Hd l (off + 1)).
    pose proof (vsize_nonneg (tokens_pairs (off + 1) l)).
    destruct p as [k|]; simpl; vsize. pose proof (print_str_pos k). lia.
Qed.

Lemma tokens_ctx_size ctx : vsize ctx ≤ vsize (tokens_ctx ctx) ≤ vsize (print_ctx ctx).
Proof.
  induction ctx as [|f ctx IH]; simpl; [done|]. rewrite !vsize_app, vsize_cons.
  pose proof (open_tokens_size (vsize (print_ctx ctx)) f). lia.
Qed.

(** * One turn of the loop, on the state of a context *)

Definition is_dict (f : open_frame) : bool :=
  match f with OList _ => false | ODict _ _ => true end.

Definition type_of (f : open_frame) : type_t :=
  if is_dict f then tok_dict else tok_list.

Definition inner_tokens (off : Z) (f : open_frame) : list bdecode_token :=
  match f with
  | OList l => tokens_list (off + 1) l
  | ODict l p =>
      tokens_pairs (off + 1) l ++
      match p with
      | Some k => [str_token (off + 1 + vsize (print_pairs l)) k]
      | None => []
      end
  end.

Definition flipped (f : open_frame) : Z :=
  if is_dict f then Z.land (state_of f + 1) 1 else 0.

Lemma open_tokens_cons off f :
  open_tokens off f = token2 off (type_of f) :: inner_tokens off f.
Proof. by destruct f. Qed.

Lemma flipped_plug f c f' : plug_frame f c = Some f' → state_of f' = flipped f.
Proof. intros ->%state_plug_frame. by destruct f. Qed.

Section steps.
Context (buffer : list Z) (depth_limit : Z).

Lemma offset_of_ctx ctx rest :
  buffer = print_ctx ctx ++ rest → offset_of buffer rest = vsize (print_ctx ctx).
Proof. intros ->. unfold offset_of. rewrite vsize_app. lia. Qed.

Lemma top_token ctx f ext :
  (tokens_ctx (f :: ctx) ++ ext)⟦vsize (tokens_ctx ctx)⟧ =
  Some (token2 (vsize (print_ctx ctx)) (type_of f)).
Proof.
  cbn [tokens_ctx]. rewrite open_tokens_cons, <-app_assoc. apply vget_middle.
Qed.

Lemma dict_frame_ctx rest ctx f more ext lim :
  dict_frame (PState rest (tokens_ctx (f :: ctx) ++ ext)
                (frames_ctx (f :: ctx) ++ more) lim) (vsize (f :: ctx)) =
  Some (if is_dict f then Some (Frame (vsize (tokens_ctx ctx)) (state_of f)) else None).
Proof.
  unfold dict_frame. rewrite vsize_cons.
  pose proof (vsize_nonneg ctx).
  destruct (Z.ltb_spec 0 (1 + vsize ctx)); [|lia]. cbn [stack m_tokens frames_ctx].
  rewrite <-app_assoc, <-outer_frames_size.
  replace (1 + vsize (outer_frames ctx) - 1) with (vsize (outer_frames ctx)) by lia.
  cbn [app]. rewrite vget_middle. cbn [mbind option_bind token].
  rewrite top_token. cbn [mbind option_bind]. f_equal. by destruct f.
Qed.

Lemma dict_frame_conc rest ctx f lim :
  dict_frame (conc (f :: ctx) rest lim) (vsize (f :: ctx)) =
  Some (if is_dict f then Some (Frame (vsize (tokens_ctx ctx)) (state_of f)) else None).
Proof.
  pose proof (dict_frame_ctx rest ctx f [] [] lim) as H. by rewrite !app_nil_r in H.
Qed.

Lemma flip_state_ctx rest ctx f more ext lim :
  flip_state (vsize (f :: ctx))
    (PState rest (tokens_ctx (f :: ctx) ++ ext) (frames_ctx (f :: ctx) ++ more) lim) =
  Some (PState rest (tokens_ctx (f :: ctx) ++ ext)
          (outer_frames ctx ++ Frame (vsize (tokens_ctx ctx)) (flipped f) :: more) lim).
Proof.
  unfold flip_state, sp. cbn [stack].
  rewrite dict_frame_ctx, vsize_app, frames_ctx_size.
  pose proof (vsize_nonneg ctx). pose proof (vsize_nonneg more). rewrite vsize_cons.
  destruct (Z.ltb_spec 0 (1 + vsize ctx)); [|lia].
  destruct (Z.leb_spec (1 + vsize ctx) (1 + vsize ctx + vsize more)); [|lia].
  cbn [andb mbind option_bind]. destruct f as [l|l p]; cbn [is_dict].
  - cbn [frames_ctx state_of]. by rewrite <-app_assoc.
  - cbn [frames_ctx token state]. rewrite <-app_assoc. cbn [app].
    rewrite vset_Some; [|rewrite vsize_app, vsize_cons, outer_frames_size;
                         pose proof (vsize_nonneg more); lia].
    cbn [mbind option_bind]. unfold set_stack. cbn [start m_tokens token_limit].
    do 2 f_equal.
    replace (Z.to_nat (1 + vsize ctx - 1)) with (length (outer_frames ctx) + 0)%nat.
    + by rewrite insert_app_r.
    + pose proof (outer_frames_size ctx). unfold vsize in *. lia.
Qed.

(** what the loop checks before it looks at the item *)
Definition admits (ctx : context) (t : Z) : bool :=
  match ctx with
  | ODict _ None :: _ => numeric t || (t =? ch_e)
  | _ => true
  end.

Lemma step_item ctx t rest lim :
  vsize ctx < depth_limit → 0 < lim → admits ctx t = true →
  step buffer depth_limit (conc ctx (t :: rest) lim) =
    o ← parse_item buffer t rest (conc ctx (t :: rest) (lim - 1));
    match o with
    | Next st' => st'' ← flip_state (vsize ctx) st'; Some (Next st'')
    | Failed _ _ _ => Some o
    end.
Proof.
  intros Hd Hl Ha. unfold step, conc, sp, set_limit.
  cbn [stack token_limit m_tokens start].
  rewrite frames_ctx_size.
  destruct (Z.leb_spec depth_limit (vsize ctx)); [lia|].
  destruct (Z.ltb_spec (lim - 1) 0); [lia|].
  destruct ctx as [|f ctx]; [done|].
  rewrite <-(app_nil_r (frames_ctx _)), <-(app_nil_r (tokens_ctx _)).
  rewrite dict_frame_ctx, !app_nil_r. cbn [mbind option_bind].
  destruct f as [l|l [k|]]; cbn in Ha |- *; try done.
  destruct (numeric t); simpl in *; [done|]. by rewrite Ha.
Qed.

(** the tokens and the frames after a complete item *)
Lemma step_leaf ctx c a t rest rest' lim :
  buffer = print_ctx ctx ++ t :: rest →
  vsize ctx < depth_limit → 0 < lim → admits ctx t = true →
  plug ctx c = Some a →
  parse_item buffer t rest (conc ctx (t :: rest) (lim - 1)) =
    Some (Next (PState rest' (tokens_ctx ctx ++ tokens (vsize (print_ctx ctx)) c)
                  (frames_ctx ctx) (lim - 1))) →
  step buffer depth_limit (conc ctx (t :: rest) lim) =
    Some (Next (conc_a a rest' (lim - 1))).
Proof.
  intros Hb Hd Hl Ha Hplug Hp. rewrite step_item, Hp by done. cbn [mbind option_bind].
  destruct ctx as [|f ctx]; simpl in Hplug.
  - injection Hplug as <-. done.
  - destruct (plug_frame f c) as [f'|] eqn:Hf; [|done]. injection Hplug as <-.
    rewrite <-(app_nil_r (frames_ctx _)), flip_state_ctx. cbn [mbind option_bind].
    unfold conc_a, conc. cbn [frames_ctx tokens_ctx print_ctx].
    rewrite (flipped_plug _ _ _ Hf), (tokens_plug_frame _ _ _ _ Hf), <-app_assoc.
    by rewrite vsize_app.
Qed.

Lemma step_int ctx neg ds r lim a :
  buffer = print_ctx ctx ++ print (CInt neg ds) ++ r →
  vsize ctx < depth_limit → 0 < lim →
  digit_list ds → 1 ≤ vsize ds ≤ 20 → plug ctx (CInt neg ds) = Some a →
  step buffer depth_limit (conc ctx (print (CInt neg ds) ++ r) lim) =
    Some (Next (conc_a a r (lim - 1))).
Proof.
  intros Hb Hd Hl Hds Hn Hplug. cbn [print app] in *.
  apply (step_leaf _ (CInt neg ds)); try done.
  { by destruct ctx as [|[l|l [k|]] ctx]; simpl in *. }
  unfold parse_item. cbn -[parse_integer]. unfold parse_integer.
  rewrite <-!app_assoc. cbn [app]. rewrite check_integer_ok by done. cbn.
  unfold push_token, set_start; cbn [start m_tokens stack token_limit].
  rewrite (offset_of_ctx ctx) by by rewrite Hb; cbn [app]; rewrite <-!app_assoc. done.
Qed.

Lemma step_str ctx s r lim a :
  buffer = print_ctx ctx ++ print (CStr s) ++ r → vsize buffer ≤ max_offset →
  vsize ctx < depth_limit → 0 < lim → str_ok s → plug ctx (CStr s) = Some a →
  step buffer depth_limit (conc ctx (print (CStr s) ++ r) lim) =
    Some (Next (conc_a a r (lim - 1))).
Proof.
  intros Hb Hmax Hd Hl (Hds & Hn & Hv) Hplug. cbn [print] in *.
  unfold print_str in *. destruct s as [ds b]; cbn [len_digits content] in *.
  destruct ds as [|t ds]; [rewrite vsize_nil in Hn; lia|].
  rewrite <-!app_assoc in *. cbn [app] in *.
  assert (Ht := Forall_inv Hds). assert (Hds' := Forall_inv_tail Hds). cbn in Ht.
  apply (step_leaf _ (CStr (BStr (t :: ds) b))); try done.
  { destruct ctx as [|[l|l [k|]] ctx]; simpl in *; try done. by rewrite Ht. }
  assert (Hne : t ≠ ch_d ∧ t ≠ ch_l ∧ t ≠ ch_i ∧ t ≠ ch_e).
  { apply numeric_range in Ht. unfold ch_0, ch_9, ch_d, ch_l, ch_i, ch_e in *. lia. }
  destruct Hne as (? & ? & ? & ?). unfold parse_item.
  do 4 (rewrite (proj2 (Z.eqb_neq _ _)) by done).
  unfold parse_string. rewrite Ht. cbn [negb].
  destruct (ds ++ ch_colon :: b ++ r) as [|x xs] eqn:E; [by destruct ds|].
  rewrite <-E in *. clear x xs E. apply numeric_range in Ht.
  rewrite vsize_cons in Hn. pose proof (vsize_nonneg ds).
  cbn [digits_value] in Hv. rewrite Z.mul_0_l, Z.add_0_l in Hv.
  assert (Hb' : vsize b ≤ max_offset).
  { rewrite Hb in Hmax. vsize in Hmax. pose proof (vsize_nonneg r).
    pose proof (vsize_nonneg (print_ctx ctx)). lia. }
  rewrite parse_int_ok; try done; [|unfold ch_0 in *; lia|
    rewrite Hv; unfold max_offset, int64_max in *; lia].
  rewrite Hv. cbn [mbind option_bind is_error start conc].
  pose proof (vsize_nonneg r). pose proof (vsize_nonneg b).
  rewrite (vsize_cons ch_colon), vsize_app.
  destruct (Z.ltb_spec (1 + (vsize b + vsize r) - 1) (vsize b)); [lia|].
  destruct (Z.ltb_spec (vsize b) 0); [lia|].
  match goal with |- context [max_header <? ?x - 2] =>
    replace x with (vsize (t :: ds) + 1) by vsize end.
  unfold max_header. destruct (Z.ltb_spec (2 ^ 3 - 1) (vsize (t :: ds) + 1 - 2));
    [rewrite vsize_cons in *; lia|].
  do 2 f_equal. unfold set_start, push_token; cbn [m_tokens stack token_limit].
  f_equal.
  - unfold vsize. by rewrite Nat2Z.id, drop_app_length.
  - rewrite (offset_of_ctx ctx) by done. done.
Qed.

Lemma step_open ctx (dict : bool) rest lim :
  let t := if dict then ch_d else ch_l in
  buffer = print_ctx ctx ++ t :: rest → vsize buffer ≤ max_offset →
  vsize ctx < depth_limit → 0 < lim → can_open ctx = true →
  step buffer depth_limit (conc ctx (t :: rest) lim) =
    Some (Next (conc ((if dict then ODict [] None else OList []) :: ctx) rest (lim - 1))).
Proof.
  intros t Hb Hmax Hd Hl Hopen. rewrite step_item; [|done|done|].
  2: { destruct ctx as [|[l|l [k|]] ctx]; done. }
  set (f0 := if dict then ODict [] None else OList []).
  assert (Hp : parse_item buffer t rest (conc ctx (t :: rest) (lim - 1)) =
    Some (Next (PState rest (tokens_ctx ctx ++ open_tokens (vsize (print_ctx ctx)) f0)
            (frames_ctx ctx ++ [Frame (vsize (tokens_ctx ctx)) 0]) (lim - 1)))).
  { assert (Hu : uint 31 (vsize (tokens_ctx ctx)) = vsize (tokens_ctx ctx)).
    { apply uint_small. pose proof (tokens_ctx_size ctx). pose proof (vsize_nonneg ctx).
      rewrite Hb in Hmax. vsize in Hmax. pose proof (vsize_nonneg rest).
      unfold max_offset in *. lia. }
    unfold parse_item, parse_container. subst t f0.
    destruct dict; cbn; unfold push_frame, push_token, set_start; cbn;
      rewrite Hu, (offset_of_ctx ctx) by done; done. }
  rewrite Hp. cbn [mbind option_bind]. destruct ctx as [|f ctx].
  - cbn. by destruct dict.
  - rewrite flip_state_ctx. cbn [mbind option_bind].
    unfold conc. cbn [frames_ctx tokens_ctx outer_frames].
    assert (flipped f = 0) as -> by by destruct f as [|? []].
    rewrite <-!app_assoc. subst f0. by destruct dict.
Qed.

Lemma print_close f c : close f = Some c → print c = print_open f ++ [ch_e].
Proof.
  destruct f as [l|l [k|]]; intros [= <-]; [done|]. cbn.
  by rewrite app_nil_r.
Qed.

Lemma tokens_close off f c :
  close f = Some c →
  tokens off c = container (type_of f) off (inner_tokens off f) (off + vsize (print_open f)).
Proof.
  intros Hc. pose proof (print_close _ _ Hc) as Hp.
  destruct f as [l|l [k|]]; [injection Hc as <-|discriminate|injection Hc as <-].
  - rewrite tokens_list_eq, Hp. cbn [type_of is_dict inner_tokens]. f_equal. vsize.
  - rewrite tokens_dict_eq, Hp. cbn [type_of is_dict inner_tokens]. f_equal; [|vsize].
    by rewrite app_nil_r.
Qed.

Lemma step_close ctx f c a r lim :
  buffer = print_ctx (f :: ctx) ++ ch_e :: r → vsize buffer ≤ max_offset →
  vsize (f :: ctx) < depth_limit → 0 < lim → close f = Some c → plug ctx c = Some a →
  step buffer depth_limit (conc (f :: ctx) (ch_e :: r) lim) =
    Some (Next (conc_a a r (lim - 1))).
Proof.
  intros Hb Hmax Hd Hl Hc Hplug. rewrite step_item; [|done|done|].
  2: { by destruct f as [l|l [k|]]. }
  set (off := vsize (print_ctx ctx)).
  assert (Hp : parse_item buffer ch_e r (conc (f :: ctx) (ch_e :: r) (lim - 1)) =
    Some (Next (PState r (tokens_ctx ctx ++ tokens off c) (outer_frames ctx) (lim - 1)))).
  { unfold parse_item. cbn -[parse_end conc]. unfold parse_end.
    replace (sp (conc (f :: ctx) (ch_e :: r) (lim - 1))) with (vsize (f :: ctx))
      by (unfold sp, conc; cbn [stack]; by rewrite frames_ctx_size).
    pose proof (vsize_nonneg ctx). pose proof (vsize_cons f ctx).
    destruct (Z.eqb_spec (vsize (f :: ctx)) 0); [lia|].
    rewrite dict_frame_conc. unfold conc. cbn [mbind option_bind stack frames_ctx].
    replace (vsize (f :: ctx) - 1) with (vsize (outer_frames ctx))
      by (rewrite outer_frames_size; lia).
    rewrite vget_middle. cbn [mbind option_bind].
    replace (match (if is_dict f then _ else _) with Some f0 => state f0 =? 1 | None => false end)
      with false by by destruct f as [l|l [k|]].
    rewrite (offset_of_ctx (f :: ctx)) by done.
    unfold push_token, conc. cbn [m_tokens start stack token_limit token].
    pose proof (tokens_ctx_size (f :: ctx)) as Hts.
    assert (Hm : vsize (tokens_ctx (f :: ctx) ++
      [token4 (vsize (print_ctx (f :: ctx))) 1 tok_end 0]) -
      vsize (tokens_ctx ctx) = vsize (inner_tokens off f) + 2).
    { cbn [tokens_ctx]. rewrite open_tokens_cons. subst off. vsize. }
    rewrite Hm.
    destruct (Z.ltb_spec max_next_item (vsize (inner_tokens off f) + 2)) as [Hlt|_].
    { exfalso. rewrite <-Hm in Hlt. rewrite Hb in Hmax. vsize in Hmax. vsize in Hlt.
      unfold max_next_item, max_offset in *. pose proof (vsize_nonneg r).
      pose proof (vsize_nonneg (tokens_ctx ctx)). lia. }
    rewrite top_token. cbn [mbind option_bind].
    rewrite vset_Some.
    2: { cbn [tokens_ctx]. rewrite open_tokens_cons. vsize.
         pose proof (vsize_nonneg (tokens_ctx ctx)).
         pose proof (vsize_nonneg (inner_tokens (vsize (print_ctx ctx)) f)). lia. }
    cbn [mbind option_bind]. do 3 f_equal.
    - rewrite (tokens_close off f c Hc). cbn [tokens_ctx print_ctx].
      rewrite open_tokens_cons, <-app_assoc. cbn [app].
      replace (Z.to_nat (vsize (tokens_ctx ctx))) with (length (tokens_ctx ctx) + 0)%nat
        by (unfold vsize; lia).
      rewrite insert_app_r. cbn. unfold container. by rewrite vsize_app.
    - cbn [frames_ctx]. apply take_app_length'. unfold sp; cbn [stack].
      vsize. unfold vsize. lia. }
  rewrite Hp. cbn [mbind option_bind].
  assert (Hflip : flip_state (vsize (f :: ctx))
    (PState r (tokens_ctx ctx ++ tokens off c) (outer_frames ctx) (lim - 1)) =
    Some (PState r (tokens_ctx ctx ++ tokens off c) (outer_frames ctx) (lim - 1))).
  { unfold flip_state, sp; cbn [stack]. rewrite outer_frames_size, vsize_cons.
    destruct (Z.leb_spec (1 + vsize ctx) (vsize ctx)); [lia|]. by rewrite andb_false_r. }
  rewrite Hflip. cbn [mbind option_bind].
  destruct ctx as [|f1 ctx]; simpl in Hplug.
  - by injection Hplug as <-.
  - destruct (plug_frame f1 c) as [f'|] eqn:Hf; [|done]. injection Hplug as <-.
    unfold conc_a, conc. cbn [frames_ctx tokens_ctx outer_frames]. do 3 f_equal.
    + rewrite (tokens_plug_frame _ _ _ _ Hf), <-app_assoc. do 2 f_equal.
      subst off. cbn [print_ctx]. by rewrite vsize_app.
    + do 3 f_equal. rewrite (flipped_plug _ _ _ Hf).
      destruct f1 as [l|l [k|]]; try done.
      destruct f as [|? []]; cbn in Hc; simplify_eq; done.
Qed.
End steps.
