(* ===== verification/BdecodeTheorems.v ===== *)
(** What [bdecode] promises: it returns on every buffer without undefined
    behaviour, it accepts exactly the buffers that start with a well-formed
    item within the limits, and the tokens are those of that item. *)

From S2P Require Import Prelude.
From S2P Require Import Bdecode.
From S2P Require Import BencodeGrammar.
From S2P Require Import BdecodeCorrect.

Section parser.
Context (buffer : list Z) (depth_limit : Z).

(** * Invariant of the contexts *)

Definition child_ok (level : Z) (c : cst) : Prop :=
  cst_ok c ∧ level + 1 + depth c ≤ depth_limit.

Definition frame_ok (level : Z) (f : open_frame) : Prop :=
  match f with
  | OList l => Forall (child_ok level) l
  | ODict l p =>
      Forall (λ kv, str_ok kv.1 ∧ child_ok level kv.2) l ∧
      match p with Some k => str_ok k | None => True end
  end.

Fixpoint ctx_ok (ctx : context) : Prop :=
  match ctx with
  | [] => True
  | f :: ctx => frame_ok (vsize ctx) f ∧ can_open ctx = true ∧ ctx_ok ctx
  end.

Definition a_ok (a : astate) : Prop :=
  match a with
  | Open ctx => ctx_ok ctx
  | Complete c => cst_ok c ∧ depth c ≤ depth_limit
  end.

Definition tokens_a (a : astate) : list bdecode_token :=
  match a with Open ctx => tokens_ctx ctx | Complete c => tokens 0 c end.

Lemma plug_open ctx c a :
  plug ctx c = Some a → ctx ≠ [] → ∃ f ctx', a = Open (f :: ctx').
Proof.
  destruct ctx as [|f ctx]; [done|]. simpl.
  destruct (plug_frame f c); simpl; [|done]. intros [= <-] _. eauto.
Qed.

Lemma plug_ok ctx c a :
  ctx_ok ctx → cst_ok c → vsize ctx + depth c ≤ depth_limit →
  plug ctx c = Some a →
  a_ok a ∧ print_a a = print_ctx ctx ++ print c ∧
  tokens_a a = tokens_ctx ctx ++ tokens (vsize (print_ctx ctx)) c.
Proof.
  destruct ctx as [|f ctx]; simpl.
  - intros _ Hc Hd [= <-]. done.
  - intros (Hf & Hopen & Hctx) Hc Hd.
    destruct (plug_frame f c) as [f'|] eqn:Hp; simpl; [|done]. intros [= <-].
    split_and!.
    + split_and!; [|done..]. rewrite vsize_cons in Hd.
      destruct f as [l|l [k|]]; simpl in Hp, Hf.
      * injection Hp as <-. apply Forall_app; split; [done|].
        apply Forall_singleton. split; [done|lia].
      * injection Hp as <-. destruct Hf as [Hf Hk]. split; [|done].
        apply Forall_app; split; [done|]. apply Forall_singleton.
        split; [done|]. split; simpl; [done|lia].
      * destruct c; simplify_eq. destruct Hf as [Hf _]. split; [done|].
        by inversion Hc.
    + simpl. by rewrite (print_plug_frame _ _ _ Hp), app_assoc.
    + simpl. by rewrite (tokens_plug_frame _ _ _ _ Hp), vsize_app, app_assoc.
Qed.

Lemma foldr_max_bound {A} (g : A → Z) (l : list A) b m :
  Forall (λ x, g x ≤ m) l → b ≤ m → foldr (λ x, Z.max (g x)) b l ≤ m.
Proof. induction 1; simpl; lia. Qed.

Lemma close_ok ctx f c :
  ctx_ok (f :: ctx) → vsize (f :: ctx) < depth_limit → close f = Some c →
  cst_ok c ∧ vsize ctx + depth c ≤ depth_limit.
Proof.
  intros (Hf & _ & _) Hd Hc. rewrite vsize_cons in Hd.
  destruct f as [l|l [k|]]; [injection Hc as <-|done|injection Hc as <-]; cbn in Hf.
  - split.
    + constructor. eapply Forall_impl; [|exact Hf]. by intros c [? _].
    + cbn. enough (foldr (λ c, Z.max (depth c)) 1 l ≤ depth_limit - vsize ctx - 1) by lia.
      apply foldr_max_bound; [|lia]. eapply Forall_impl; [|exact Hf].
      intros c [_ ?]; simpl; lia.
  - destruct Hf as [Hf _]. split.
    + constructor. eapply Forall_impl; [|exact Hf]. by intros c [? [? _]].
    + cbn. enough (foldr (λ kv, Z.max (depth kv.2)) 1 l ≤ depth_limit - vsize ctx - 1) by lia.
      apply foldr_max_bound; [|lia]. eapply Forall_impl; [|exact Hf].
      intros c [_ [_ ?]]; simpl; lia.
Qed.

Lemma can_plug ctx c : can_open ctx = true → ∃ a, plug ctx c = Some a.
Proof. destruct ctx as [|[l|l [k|]] ctx]; simpl; intros; simplify_eq; eauto. Qed.

(** * A turn of the loop *)

(** the turn moves to another context *)
Definition progress (ctx : context) (rest : list Z) (lim : Z) (a : astate) (r : list Z) :=
  step buffer depth_limit (conc ctx rest lim) = Some (Next (conc_a a r (lim - 1))) ∧
  print_ctx ctx ++ rest = print_a a ++ r ∧ a_ok a ∧ a ≠ Open [] ∧
  vsize (tokens_a a) = vsize (tokens_ctx ctx) + 1 ∧ 0 < lim ∧ vsize r < vsize rest.

(** the turn fails, and leaves the tokens and the frames of the context *)
Definition failure (ctx : context) (rest : list Z) (lim : Z) :=
  ∃ s ec pos lim', is_error ec = true ∧
    step buffer depth_limit (conc ctx rest lim) =
      Some (Failed (PState s (tokens_ctx ctx) (frames_ctx ctx) lim') ec pos) ∧
    ∃ m, rest = m ++ s.

Lemma progress_plug ctx rest lim c a r :
  rest = print c ++ r → ctx_ok ctx → cst_ok c → vsize ctx + depth c ≤ depth_limit →
  plug ctx c = Some a → vsize (tokens (vsize (print_ctx ctx)) c) = 1 → 0 < lim →
  step buffer depth_limit (conc ctx rest lim) = Some (Next (conc_a a r (lim - 1))) →
  progress ctx rest lim a r.
Proof.
  intros -> Hctx Hc Hd Hp Ht Hl Hs.
  destruct (plug_ok ctx c a) as (Ha & Hpr & Htk); try done.
  split_and!; try done.
  - by rewrite Hpr, <-app_assoc.
  - destruct ctx as [|f ctx]; simpl in Hp; [by simplify_eq|].
    destruct (plug_frame f c); simpl in Hp; by simplify_eq.
  - rewrite Htk. vsize.
  - vsize. pose proof (tokens_size 0 c). lia.
Qed.

Lemma fail_early ctx t rest lim :
  admits ctx t = false ∨ depth_limit ≤ vsize ctx ∨ lim ≤ 0 →
  failure ctx (t :: rest) lim.
Proof.
  intros Hcond. unfold failure, step, conc, sp, set_limit.
  cbn [stack token_limit m_tokens start].
  rewrite frames_ctx_size.
  destruct (Z.leb_spec depth_limit (vsize ctx)).
  { do 4 eexists. split; [|split; [done|]]; [done|]. by exists []. }
  destruct (Z.ltb_spec (lim - 1) 0).
  { do 4 eexists. split; [|split; [done|]]; [done|]. by exists []. }
  destruct Hcond as [Ha|[|]]; [|lia..].
  destruct ctx as [|f ctx]; [done|].
  rewrite (dict_frame_conc (t :: rest) ctx f (lim - 1) :
    dict_frame (PState _ (tokens_ctx (f :: ctx)) (frames_ctx (f :: ctx)) _) _ = _).
  cbn [mbind option_bind]. destruct f as [l|l [k|]]; cbn in Ha |- *; try done.
  apply orb_false_iff in Ha as [-> ->]. cbn.
  do 4 eexists. split; [|split; [done|]]; [done|]. by exists [].
Qed.

(** an error inside of an item *)
Lemma fail_item ctx t rest lim s ec pos :
  vsize ctx < depth_limit → 0 < lim → admits ctx t = true → is_error ec = true →
  parse_item buffer t rest (conc ctx (t :: rest) (lim - 1)) =
    Some (Failed (PState s (tokens_ctx ctx) (frames_ctx ctx) (lim - 1)) ec pos) →
  (∃ m, t :: rest = m ++ s) →
  failure ctx (t :: rest) lim.
Proof.
  intros Hd Hl Ha He Hp Hm. exists s, ec, pos, (lim - 1). split; [done|]. split; [|done].
  by rewrite step_item, Hp.
Qed.

Ltac fail_item H := eapply fail_item; [done|done|done| |exact H|]; [done|].

Lemma string_item ctx t rest lim :
  buffer = print_ctx ctx ++ t :: rest → vsize buffer ≤ max_offset →
  ctx_ok ctx → vsize ctx < depth_limit → 0 < lim → numeric t = true →
  (∃ a r, progress ctx (t :: rest) lim a r) ∨ failure ctx (t :: rest) lim.
Proof.
  intros Hb Hmax Hctx Hd Hl Ht.
  assert (Ha : admits ctx t = true).
  { destruct ctx as [|[l|l [k|]] ctx]; try done. simpl. by rewrite Ht. }
  assert (Hn := proj1 (numeric_range t) Ht).
  assert (Hne : t ≠ ch_d ∧ t ≠ ch_l ∧ t ≠ ch_i ∧ t ≠ ch_e).
  { unfold ch_0, ch_9, ch_d, ch_l, ch_i, ch_e in *. lia. }
  assert (Hitem : parse_item buffer t rest (conc ctx (t :: rest) (lim - 1)) =
    parse_string buffer t rest (conc ctx (t :: rest) (lim - 1))).
  { unfold parse_item. destruct Hne as (? & ? & ? & ?).
    by do 4 (rewrite (proj2 (Z.eqb_neq _ _)) by done). }
  clear Hne. unfold parse_string in Hitem. rewrite Ht in Hitem. cbn [negb] in Hitem.
  destruct rest as [|c rest].
  { right. fail_item Hitem. by exists [t]. }
  destruct (parse_int_returns (c :: rest) ch_colon (t - ch_0) no_error) as (s & len & e & Hpi);
    [unfold ch_0, ch_9, int64_max in *; lia|].
  rewrite Hpi in Hitem. cbn [mbind option_bind] in Hitem.
  pose proof (parse_int_suffix _ _ _ _ t _ _ _ Hpi) as Hm.
  destruct (is_error e) eqn:He.
  { right. by fail_item Hitem. }
  destruct e; try done.
  apply parse_int_inv in Hpi as (ds & Hs & Hds & -> & Hend);
    [|unfold ch_0, ch_9, int64_max in *; lia].
  destruct Hend as [->|[r ->]].
  { right. by fail_item Hitem. }
  set (len := digits_value (t - ch_0) ds) in *.
  destruct (Z.ltb_spec (vsize (ch_colon :: r) - 1) len) as [|Hlen].
  { right. by fail_item Hitem. }
  destruct (Z.ltb_spec len 0) as [Hneg|Hpos].
  { right. by fail_item Hitem. }
  cbn [start conc] in Hitem.
  assert (Hhdr : vsize (t :: c :: rest) - vsize r = vsize (t :: ds) + 1).
  { rewrite Hs. vsize. }
  rewrite Hhdr in Hitem.
  destruct (Z.ltb_spec max_header (vsize (t :: ds) + 1 - 2)) as [|Hh].
  { right. fail_item Hitem.
    exists (t :: ds ++ [ch_colon]). rewrite Hs. by rewrite <-app_comm_cons, <-app_assoc. }
  left. clear Hitem Hm.
  rewrite vsize_cons in Hlen.
  set (b := take (Z.to_nat len) r). set (r' := drop (Z.to_nat len) r).
  assert (Hr : r = b ++ r') by (symmetry; apply take_drop).
  assert (Hvb : vsize b = len).
  { unfold b, vsize in *. rewrite length_take. lia. }
  set (st := BStr (t :: ds) b).
  assert (Hok : str_ok st).
  { split_and!; cbn [len_digits content st].
    - by constructor.
    - rewrite vsize_cons. pose proof (vsize_nonneg ds). lia.
    - unfold max_header in Hh. lia.
    - cbn [digits_value]. by rewrite Z.mul_0_l, Z.add_0_l. }
  assert (Hprint : t :: c :: rest = print (CStr st) ++ r').
  { rewrite Hs. cbn. unfold print_str; cbn [len_digits content st].
    rewrite <-!app_assoc. cbn [app]. by rewrite <-Hr. }
  destruct (plug ctx (CStr st)) as [a|] eqn:Hplug.
  2: { destruct ctx as [|[l|l [k|]] ctx]; done. }
  exists a, r'. eapply progress_plug; try done.
  - by constructor.
  - simpl. lia.
  - rewrite Hprint. apply step_str; try done. by rewrite <-Hprint.
Qed.

Lemma int_item ctx rest lim :
  buffer = print_ctx ctx ++ ch_i :: rest →
  ctx_ok ctx → vsize ctx < depth_limit → 0 < lim → admits ctx ch_i = true →
  (∃ a r, progress ctx (ch_i :: rest) lim a r) ∨ failure ctx (ch_i :: rest) lim.
Proof.
  intros Hb Hctx Hd Hl Ha.
  destruct (check_integer rest no_error) as [s e] eqn:Hci.
  destruct (is_error e) eqn:He.
  { right. eapply (fail_item _ _ _ _ (ch_i :: rest)); [done..| |by exists []].
    unfold parse_item. cbn -[parse_integer]. unfold parse_integer. by rewrite Hci, He. }
  left. destruct e; try done.
  apply check_integer_inv in Hci as (neg & ds & r & -> & -> & Hds & Hn).
  assert (Hprint : ch_i :: sign neg ++ ds ++ ch_e :: r = print (CInt neg ds) ++ r).
  { cbn. by rewrite <-!app_assoc. }
  destruct (plug ctx (CInt neg ds)) as [a|] eqn:Hplug.
  2: { destruct ctx as [|[l|l [k|]] ctx]; done. }
  exists a, r. eapply progress_plug; try done.
  - by constructor.
  - simpl. lia.
  - rewrite Hprint. apply step_int; try done. by rewrite <-Hprint.
Qed.

Lemma open_item ctx (dict : bool) rest lim :
  let t := if dict then ch_d else ch_l in
  buffer = print_ctx ctx ++ t :: rest → vsize buffer ≤ max_offset →
  ctx_ok ctx → vsize ctx < depth_limit → 0 < lim → admits ctx t = true →
  ∃ a r, progress ctx (t :: rest) lim a r.
Proof.
  intros t Hb Hmax Hctx Hd Hl Ha.
  assert (Hopen : can_open ctx = true).
  { destruct ctx as [|[l|l [k|]] ctx]; try done. by destruct dict. }
  exists (Open ((if dict then ODict [] None else OList []) :: ctx)), rest. split_and!.
  - apply (step_open _ _ ctx dict rest lim); done.
  - simpl. rewrite <-app_assoc. by destruct dict.
  - simpl. split_and!; try done. destruct dict; simpl; [by split|constructor].
  - done.
  - simpl. vsize. by destruct dict.
  - done.
  - vsize.
Qed.

Lemma close_item ctx rest lim :
  buffer = print_ctx ctx ++ ch_e :: rest → vsize buffer ≤ max_offset →
  ctx_ok ctx → vsize ctx < depth_limit → 0 < lim →
  (∃ a r, progress ctx (ch_e :: rest) lim a r) ∨ failure ctx (ch_e :: rest) lim.
Proof.
  intros Hb Hmax Hctx Hd Hl. destruct ctx as [|f ctx].
  { right. eapply (fail_item _ _ _ _ (ch_e :: rest) unexpected_eof);
      [done..|by exists []]. }
  assert (Ha : admits (f :: ctx) ch_e = true) by by destruct f as [|? []].
  destruct (close f) as [c|] eqn:Hc.
  - left. destruct (close_ok ctx f c) as [Hok Hdep]; try done.
    pose proof Hctx as (Hf & Hopen & Hctx').
    destruct (can_plug ctx c Hopen) as [a Hplug].
    destruct (plug_ok ctx c a) as (Hao & Hpr & Htk); try done.
    exists a, rest. split_and!; try done.
    + by apply step_close with c.
    + rewrite Hpr, (print_close f c Hc). cbn [print_ctx]. by rewrite <-!app_assoc.
    + intros ->. destruct ctx as [|f1 ctx]; simpl in Hplug; [done|].
      destruct (plug_frame f1 c); simpl in Hplug; by simplify_eq.
    + rewrite Htk, (tokens_close _ _ _ Hc). cbn [tokens_ctx].
      rewrite open_tokens_cons. unfold container. vsize.
    + vsize.
  - right. destruct f as [l|l [k|]]; try done.
    eapply (fail_item _ _ _ _ (ch_e :: rest) expected_value); [done..| |by exists []].
    unfold parse_item. cbn -[parse_end]. unfold parse_end.
    replace (sp (conc (ODict l (Some k) :: ctx) (ch_e :: rest) (lim - 1)))
      with (vsize (ODict l (Some k) :: ctx))
      by (unfold sp, conc; cbn [stack]; by rewrite frames_ctx_size).
    pose proof (vsize_nonneg ctx). pose proof (vsize_cons (ODict l (Some k)) ctx).
    destruct (Z.eqb_spec (vsize (ODict l (Some k) :: ctx)) 0); [lia|].
    rewrite dict_frame_conc. unfold conc. cbn [mbind option_bind stack frames_ctx].
    replace (vsize (ODict l (Some k) :: ctx) - 1) with (vsize (outer_frames ctx))
      by (rewrite outer_frames_size; lia).
    rewrite vget_middle. done.
Qed.

Lemma step_cases ctx rest lim :
  buffer = print_ctx ctx ++ rest → vsize buffer ≤ max_offset → ctx_ok ctx →
  (∃ a r, progress ctx rest lim a r) ∨ failure ctx rest lim.
Proof.
  intros Hb Hmax Hctx. destruct rest as [|t rest].
  { right. do 4 eexists. split; [|split; [done|]]; [done|]. by exists []. }
  destruct (admits ctx t) eqn:Ha; [|right; apply fail_early; auto].
  destruct (decide (vsize ctx < depth_limit)) as [Hd|]; [|right; apply fail_early; lia].
  destruct (decide (0 < lim)) as [Hl|]; [|right; apply fail_early; lia].
  destruct (decide (t = ch_d)) as [->|Hnd].
  { left. by apply (open_item ctx true). }
  destruct (decide (t = ch_l)) as [->|Hnl].
  { left. by apply (open_item ctx false). }
  destruct (decide (t = ch_i)) as [->|Hni]; [by apply int_item|].
  destruct (decide (t = ch_e)) as [->|Hne]; [by apply close_item|].
  destruct (numeric t) eqn:Ht; [by apply string_item|].
  right. eapply (fail_item _ _ _ _ (t :: rest) expected_value); [done..| |by exists []].
  unfold parse_item. do 4 (rewrite (proj2 (Z.eqb_neq _ _)) by done).
  unfold parse_string. by rewrite Ht.
Qed.

(** * The loop *)

Definition accepted (ctx : context) (lim : Z) (res : option (pstate * option (bdecode_errors * Z))) :=
  ∃ c r lim', res = Some (PState r (tokens 0 c) [] lim', None) ∧
    buffer = print c ++ r ∧ cst_ok c ∧ depth c ≤ depth_limit ∧ 0 ≤ lim' ∧
    vsize (tokens 0 c) + lim' = vsize (tokens_ctx ctx) + lim.

Definition rejected (res : option (pstate * option (bdecode_errors * Z))) :=
  ∃ ctx s lim' ec pos, res =
      Some (PState s (tokens_ctx ctx) (frames_ctx ctx) lim', Some (ec, pos)) ∧
    is_error ec = true ∧ ctx_ok ctx ∧ ∃ m, buffer = print_ctx ctx ++ m ++ s.

Lemma loop_cases fuel ctx rest lim :
  buffer = print_ctx ctx ++ rest → vsize buffer ≤ max_offset → ctx_ok ctx →
  vsize rest < Z.of_nat fuel →
  let res := parse_loop buffer depth_limit fuel (conc ctx rest lim) in
  accepted ctx lim res ∨ rejected res.
Proof.
  revert ctx rest lim. induction fuel as [|fuel IH]; intros ctx rest lim Hb Hmax Hctx Hf res.
  { pose proof (vsize_nonneg rest). lia. }
  subst res. cbn [parse_loop].
  destruct (step_cases ctx rest lim Hb Hmax Hctx) as [(a & r & Hp)|Hfail].
  - destruct Hp as (-> & Hpr & Ha & Hne & Htk & Hl & Hr). cbn [mbind option_bind].
    destruct a as [[|f ctx']|c]; [done| |].
    + replace (sp (conc_a _ _ _)) with (vsize (f :: ctx'))
        by (unfold sp, conc_a, conc; cbn [stack]; by rewrite frames_ctx_size).
      pose proof (vsize_nonneg ctx'). pose proof (vsize_cons f ctx').
      destruct (Z.eqb_spec (vsize (f :: ctx')) 0); [lia|].
      destruct (IH (f :: ctx') r (lim - 1)) as [Hacc|Hrej]; try done; [by rewrite Hb|lia| |].
      * left. destruct Hacc as (c & r' & lim' & ? & ? & ? & ? & ? & Hn).
        exists c, r', lim'. split_and!; try done. cbn [tokens_a] in Htk. lia.
      * by right.
    + left. cbn in Ha, Hpr, Htk |- *. destruct Ha as [? ?].
      exists c, r, (lim - 1). split_and!; try done; [by rewrite Hb|lia..].
  - right. destruct Hfail as (s & ec & pos & lim' & He & -> & m & ->).
    cbn [mbind option_bind]. exists ctx, s, lim', ec, pos. split_and!; try done.
    by exists m.
Qed.
End parser.

(** * The way the parser reads a well-formed item *)

Section runs.
Context (buffer : list Z) (depth_limit : Z) (Hmax : vsize buffer ≤ max_offset).

(** what is left to do once the item is read: nothing, or the rest of the
    enclosing container *)
Definition continue (fuel : nat) (a : astate) (r : list Z) (lim : Z) :=
  match a with
  | Open ctx => parse_loop buffer depth_limit fuel (conc ctx r lim)
  | Complete _ => Some (conc_a a r lim, None)
  end.

Lemma loop_next fuel ctx rest lim a r :
  step buffer depth_limit (conc ctx rest lim) = Some (Next (conc_a a r (lim - 1))) →
  a ≠ Open [] →
  parse_loop buffer depth_limit (S fuel) (conc ctx rest lim) = continue fuel a r (lim - 1).
Proof.
  intros Hs Hne. cbn [parse_loop]. rewrite Hs. cbn [mbind option_bind].
  destruct a as [[|f ctx']|c]; [done| |done].
  replace (sp (conc_a _ _ _)) with (vsize (f :: ctx'))
    by (unfold sp, conc_a, conc; cbn [stack]; by rewrite frames_ctx_size).
  pose proof (vsize_nonneg ctx'). pose proof (vsize_cons f ctx').
  by destruct (Z.eqb_spec (vsize (f :: ctx')) 0); [lia|].
Qed.

Lemma plug_not_start ctx c a : plug ctx c = Some a → a ≠ Open [].
Proof.
  destruct ctx as [|f ctx]; simpl; [by intros [= <-]|].
  destruct (plug_frame f c); simpl; [|done]. by intros [= <-].
Qed.

Definition runs (c : cst) : Prop := ∀ ctx a r lim fuel off,
  buffer = print_ctx ctx ++ print c ++ r → cst_ok c →
  vsize ctx + depth c ≤ depth_limit → vsize (tokens off c) ≤ lim →
  plug ctx c = Some a →
  parse_loop buffer depth_limit (length (tokens off c) + fuel) (conc ctx (print c ++ r) lim) =
    continue fuel a r (lim - vsize (tokens off c)).

Lemma runs_list l done ctx r lim fuel off :
  Forall runs l → Forall cst_ok l →
  buffer = print_ctx (OList done :: ctx) ++ print_list l ++ r →
  vsize ctx + 1 + depth_list l ≤ depth_limit → vsize (tokens_list off l) ≤ lim →
  parse_loop buffer depth_limit (length (tokens_list off l) + fuel)
    (conc (OList done :: ctx) (print_list l ++ r) lim) =
  parse_loop buffer depth_limit fuel
    (conc (OList (done ++ l) :: ctx) r (lim - vsize (tokens_list off l))).
Proof.
  intros Hruns. revert done lim fuel off.
  induction Hruns as [|c l Hc _ IH]; intros dn lim fuel off Hok Hb Hd Hlim.
  { cbn. by rewrite app_nil_r, vsize_nil, Z.sub_0_r. }
  inversion Hok as [|? ? Hokc Hokl]; subst. unfold print_list, depth_list in *. cbn in *.
  rewrite length_app, vsize_app in *. rewrite <-!app_assoc in *.
  pose proof (vsize_nonneg (tokens_list (off + vsize (print c)) l)).
  rewrite <-Nat.add_assoc.
  rewrite (Hc (OList dn :: ctx) (Open (OList (dn ++ [c]) :: ctx)));
    [|cbn; by rewrite <-!app_assoc|done|rewrite vsize_cons; lia|lia|done].
  cbn [continue]. rewrite IH; [|done| |lia|lia].
  - rewrite <-app_assoc. do 2 f_equal. lia.
  - cbn. rewrite print_list_app. unfold print_list; cbn. rewrite app_nil_r.
    rewrite <-!app_assoc; cbn; by rewrite <-!app_assoc.
Qed.

Lemma runs_key ctx l k r lim fuel :
  buffer = print_ctx (ODict l None :: ctx) ++ print_str k ++ r →
  str_ok k → vsize ctx + 1 < depth_limit → 1 ≤ lim →
  parse_loop buffer depth_limit (S fuel) (conc (ODict l None :: ctx) (print_str k ++ r) lim) =
  parse_loop buffer depth_limit fuel (conc (ODict l (Some k) :: ctx) r (lim - 1)).
Proof.
  intros Hb Hk Hd Hl.
  apply (loop_next fuel _ _ _ (Open (ODict l (Some k) :: ctx))); [|done].
  apply (step_str buffer depth_limit _ k); try done; [|lia]. rewrite vsize_cons. lia.
Qed.

Lemma runs_pairs l done ctx r lim fuel off :
  Forall (λ kv, runs kv.2) l → Forall (λ kv, str_ok kv.1 ∧ cst_ok kv.2) l →
  buffer = print_ctx (ODict done None :: ctx) ++ print_pairs l ++ r →
  vsize ctx + 1 + depth_pairs l ≤ depth_limit → vsize (tokens_pairs off l) ≤ lim →
  parse_loop buffer depth_limit (length (tokens_pairs off l) + fuel)
    (conc (ODict done None :: ctx) (print_pairs l ++ r) lim) =
  parse_loop buffer depth_limit fuel
    (conc (ODict (done ++ l) None :: ctx) r (lim - vsize (tokens_pairs off l))).
Proof.
  intros Hruns. revert done lim fuel off.
  induction Hruns as [|[k v] l Hc _ IH]; intros dn lim fuel off Hok Hb Hd Hlim.
  { cbn. by rewrite app_nil_r, vsize_nil, Z.sub_0_r. }
  inversion Hok as [|? ? [Hokk Hokv] Hokl]; subst. simpl in Hokk, Hokv, Hc.
  unfold print_pairs, depth_pairs in *.
  cbn [tokens_pairs map concat foldr length fst snd] in *.
  rewrite length_app, vsize_cons, vsize_app in *. rewrite <-!app_assoc in *.
  pose proof (vsize_nonneg (tokens_pairs (off + vsize (print_str k) + vsize (print v)) l)).
  pose proof (vsize_nonneg (tokens (off + vsize (print_str k)) v)).
  pose proof (depth_pairs_le l). unfold depth_pairs in *.
  rewrite Nat.add_succ_l, <-Nat.add_assoc.
  rewrite runs_key; [|exact Hb|done|lia|lia].
  rewrite (Hc (ODict dn (Some k) :: ctx) (Open (ODict (dn ++ [(k, v)]) None :: ctx)));
    [| |done|rewrite vsize_cons; lia|lia|done].
  2: { cbn in Hb |- *. rewrite Hb, !app_nil_r, <-!app_assoc. cbn. by rewrite <-!app_assoc. }
  cbn [continue]. rewrite IH; [|done| |lia|lia].
  - rewrite <-app_assoc. do 2 f_equal. lia.
  - cbn in Hb |- *. rewrite Hb, print_pairs_app. unfold print_pairs; cbn.
    rewrite !app_nil_r, <-!app_assoc. cbn. by rewrite <-!app_assoc.
Qed.

(** opening and closing a container around items the parser runs through *)
Lemma runs_container (dict : bool) f c ctx a r lim fuel n off :
  close f = Some c → is_dict f = dict →
  buffer = print_ctx ctx ++ print c ++ r →
  vsize ctx + 1 < depth_limit → n + 2 ≤ lim → 0 ≤ n → plug ctx c = Some a →
  (∀ lim fuel, n ≤ lim →
    parse_loop buffer depth_limit (Z.to_nat n + fuel)
      (conc ((if dict then ODict [] None else OList []) :: ctx)
         (tail (print_open f) ++ ch_e :: r) lim) =
    parse_loop buffer depth_limit fuel (conc (f :: ctx) (ch_e :: r) (lim - n))) →
  vsize (tokens off c) = n + 2 →
  can_open ctx = true →
  parse_loop buffer depth_limit (length (tokens off c) + fuel) (conc ctx (print c ++ r) lim) =
    continue fuel a r (lim - vsize (tokens off c)).
Proof.
  intros Hc Hdict Hb Hd Hlim Hn Hplug Hinner Htk Hopen.
  pose proof (print_close _ _ Hc) as Hp.
  replace (length (tokens off c) + fuel)%nat with (S (Z.to_nat n + S fuel))
    by (unfold vsize in Htk; lia).
  assert (Hpo : print_open f = (if dict then ch_d else ch_l) :: tail (print_open f)).
  { subst dict. by destruct f. }
  set (tl := tail (print_open f)) in *. rewrite Hp, Hpo, <-app_assoc in Hb |- *.
  cbn [app] in *.
  rewrite (loop_next _ _ _ _ (Open ((if dict then ODict [] None else OList []) :: ctx))
             (tl ++ ch_e :: r)); [|apply step_open; try done; lia|done].
  cbn [continue]. rewrite Hinner by lia.
  rewrite (loop_next _ _ _ _ a r); [|apply (step_close buffer depth_limit ctx f c a r); try done|].
  - rewrite Htk. f_equal. lia.
  - cbn [print_ctx]. rewrite Hpo, <-app_assoc. done.
  - rewrite vsize_cons. lia.
  - lia.
  - by eapply plug_not_start.
Qed.

Lemma plug_can_open ctx c a :
  plug ctx c = Some a → match c with CStr _ => True | _ => can_open ctx = true end.
Proof. by destruct ctx as [|[l|l [k|]] ctx], c. Qed.

Lemma runs_item c : runs c.
Proof.
  induction c as [neg ds|s|l IH|l IH] using cst_rect';
    intros ctx a r lim fuel off Hb Hok Hd Hlim Hplug.
  - inversion Hok; subst. cbn [tokens length Nat.add].
    rewrite (loop_next _ _ _ _ a r); [done| |by eapply plug_not_start].
    cbn in Hd, Hlim. apply step_int; try done; [lia|].
    unfold vsize in Hlim; simpl in Hlim; lia.
  - inversion Hok; subst. cbn [tokens length Nat.add].
    rewrite (loop_next _ _ _ _ a r); [done| |by eapply plug_not_start].
    cbn in Hd, Hlim. apply step_str; try done; [lia|].
    unfold vsize in Hlim; simpl in Hlim; lia.
  - inversion Hok as [| |? Hl|]; subst.
    assert (Htk : vsize (tokens off (CList l)) = vsize (tokens_list (off + 1) l) + 2)
      by (rewrite tokens_list_eq; unfold container; vsize).
    assert (Hdep : depth (CList l) = 1 + depth_list l) by done.
    pose proof (depth_list_le l). pose proof (vsize_nonneg (tokens_list (off + 1) l)).
    apply (runs_container false (OList l) _ _ _ _ _ _ (vsize (tokens_list (off + 1) l)));
      try done; [lia|lia| |by apply plug_can_open in Hplug].
    intros lim' fuel' Hlim'. unfold vsize at 1. rewrite Nat2Z.id.
    apply (runs_list l []); try done; [|lia].
    rewrite Hb, print_list_eq. cbn. by rewrite <-!app_assoc.
  - inversion Hok as [| | |? Hl]; subst.
    assert (Htk : vsize (tokens off (CDict l)) = vsize (tokens_pairs (off + 1) l) + 2)
      by (rewrite tokens_dict_eq; unfold container; vsize).
    assert (Hdep : depth (CDict l) = 1 + depth_pairs l) by done.
    pose proof (depth_pairs_le l). pose proof (vsize_nonneg (tokens_pairs (off + 1) l)).
    apply (runs_container true (ODict l None) _ _ _ _ _ _ (vsize (tokens_pairs (off + 1) l)));
      try done; [lia|lia| |by apply plug_can_open in Hplug].
    intros lim' fuel' Hlim'. unfold vsize at 1. rewrite Nat2Z.id.
    cbn [print_open tail print_pending]. rewrite app_nil_r.
    apply (runs_pairs l []); try done; [|lia].
    rewrite Hb, print_dict_eq. cbn. by rewrite <-!app_assoc.
Qed.
End runs.

(** * Unwinding after an error *)

(** the tokens of an open container that [done:] closes, with the tokens
    [ext] that already follow it; a key without a value gets an empty
    dictionary *)
Definition dummy (pos : Z) : list bdecode_token := [token4 pos 2 tok_dict 0; token2 pos tok_end].

Definition close_frame (pos off : Z) (f : open_frame) (s : Z) (ext : list bdecode_token)
    : list bdecode_token :=
  let inner := inner_tokens off f ++ ext ++
    (if is_dict f && (s =? 1) then dummy pos else []) in
  set_next_item (token2 off (type_of f)) (1 + vsize inner) ::
  inner ++ [token4 pos 1 tok_end 0].

Fixpoint unwound_outer (pos : Z) (ctx : context) (ext : list bdecode_token)
    : list bdecode_token :=
  match ctx with
  | [] => ext
  | f :: ctx => unwound_outer pos ctx (close_frame pos (vsize (print_ctx ctx)) f 0 ext)
  end.

Definition unwound (pos : Z) (ctx : context) : list bdecode_token :=
  match ctx with
  | [] => []
  | f :: ctx =>
      unwound_outer pos ctx (close_frame pos (vsize (print_ctx ctx)) f (state_of f) [])
  end.

Lemma unwind_frame pos ctx f s ext fs :
  unwind pos (tokens_ctx (f :: ctx) ++ ext) (Frame (vsize (tokens_ctx ctx)) s :: fs) =
  unwind pos (tokens_ctx ctx ++ close_frame pos (vsize (print_ctx ctx)) f s ext) fs.
Proof.
  cbn [unwind token state]. rewrite top_token. cbn [mbind option_bind].
  set (off := vsize (print_ctx ctx)).
  set (inner := inner_tokens off f ++ ext ++ (if is_dict f && (s =? 1) then dummy pos else [])).
  match goal with |- context [if decide ?P then _ else _] => set (toks := if decide P then _ else _) end.
  assert (Ht : toks = tokens_ctx ctx ++ token2 off (type_of f) :: inner).
  { subst toks inner. cbn [tokens_ctx]. rewrite open_tokens_cons. subst off.
    destruct f as [l|l p]; cbn [type_of is_dict token2 type]; simpl; [|destruct (s =? 1)];
      rewrite ?app_nil_r, <-?app_assoc; cbn; by rewrite <-?app_assoc. }
  rewrite Ht. rewrite vset_Some.
  2: { vsize. pose proof (vsize_nonneg (tokens_ctx ctx)). pose proof (vsize_nonneg inner). lia. }
  cbn [mbind option_bind]. f_equal. unfold close_frame. fold inner.
  replace (Z.to_nat (vsize (tokens_ctx ctx))) with (length (tokens_ctx ctx) + 0)%nat
    by (unfold vsize; lia).
  rewrite insert_app_r, <-app_assoc. cbn. do 3 f_equal. vsize.
Qed.

Lemma unwind_outer pos ctx ext :
  unwind pos (tokens_ctx ctx ++ ext) (rev (outer_frames ctx)) =
  Some (unwound_outer pos ctx ext).
Proof.
  revert ext. induction ctx as [|f ctx IH]; intros ext; [done|].
  cbn [outer_frames]. rewrite rev_app_distr. cbn [rev app].
  rewrite unwind_frame. apply IH.
Qed.

Lemma unwind_ctx pos ctx :
  unwind pos (tokens_ctx ctx) (rev (frames_ctx ctx)) = Some (unwound pos ctx).
Proof.
  destruct ctx as [|f ctx]; [done|]. cbn [frames_ctx]. rewrite rev_app_distr. cbn [rev app].
  rewrite <-(app_nil_r (tokens_ctx (f :: ctx))), unwind_frame. apply unwind_outer.
Qed.

(** * The theorems *)

(** the result of a successful run *)
Definition success (c : cst) : result :=
  Result (tokens 0 c ++ [token4 (vsize (print c)) 0 tok_end 0]) 0 (vsize (print c))
    no_error None.

Definition within_limits (buffer : list Z) (depth_limit token_limit : Z) (c : cst) : Prop :=
  vsize buffer ≤ max_offset ∧ cst_ok c ∧ depth c ≤ depth_limit ∧
  vsize (tokens 0 c) ≤ token_limit.

(** every outcome of [bdecode]: success on a well-formed prefix, or an error
    with a token array that is closed *)
Lemma bdecode_cases buffer depth_limit token_limit :
  (∃ c r, buffer = print c ++ r ∧ within_limits buffer depth_limit token_limit c ∧
     bdecode buffer depth_limit token_limit = Some (success c)) ∨
  (∃ res, bdecode buffer depth_limit token_limit = Some res ∧ is_error (r_ec res) = true ∧
     ((r_tokens res = [] ∧ r_token_idx res = -1) ∨
      ∃ ctx s m, ctx_ok depth_limit ctx ∧ buffer = print_ctx ctx ++ m ++ s ∧
        vsize buffer ≤ max_offset ∧
        r_tokens res = unwound (offset_of buffer s) ctx ++
                         [token4 (offset_of buffer s) 0 tok_end 0] ∧
        r_token_idx res = 0 ∧ r_buffer_size res = offset_of buffer s)).
Proof.
  unfold bdecode. destruct (Z.ltb_spec max_offset (vsize buffer)) as [Hbig|Hmax].
  { right. eexists. split; [done|]. split; [done|]. by left. }
  destruct (Z.eqb_spec (vsize buffer) 0) as [H0|H0].
  { right. destruct buffer; [|unfold vsize in H0; simpl in H0; lia].
    eexists. split; [done|]. split; [done|]. right. by exists [], [], []. }
  change (init_state buffer token_limit) with (conc [] buffer token_limit).
  destruct (loop_cases buffer depth_limit (S (length buffer)) [] buffer token_limit)
    as [Hacc|Hrej]; try done; [unfold vsize; lia| |].
  - left. destruct Hacc as (c & r & lim' & -> & Hb & Hok & Hd & Hl & Hn).
    exists c, r. split; [done|]. unfold vsize in Hn at 2; simpl in Hn.
    split; [split_and!; [done..|lia]|].
    cbn [mbind option_bind]. unfold finish. cbn [start m_tokens stack rev unwind mbind option_bind].
    unfold success, offset_of. rewrite Hb at 1 2. rewrite vsize_app.
    by replace (vsize (print c) + vsize r - vsize r) with (vsize (print c)) by lia.
  - right. destruct Hrej as (ctx & s & lim' & ec & pos & -> & He & Hctx & m & Hb).
    cbn [mbind option_bind]. unfold finish. cbn [start m_tokens stack].
    rewrite unwind_ctx. cbn [mbind option_bind]. eexists. split; [done|]. split; [done|].
    right. by exists ctx, s, m.
Qed.

Lemma success_within buffer depth_limit token_limit c r :
  buffer = print c ++ r → within_limits buffer depth_limit token_limit c →
  bdecode buffer depth_limit token_limit = Some (success c).
Proof.
  intros Hb (Hmax & Hok & Hd & Ht). unfold bdecode.
  destruct (Z.ltb_spec max_offset (vsize buffer)); [lia|].
  pose proof (tokens_size 0 c) as Hts.
  destruct (Z.eqb_spec (vsize buffer) 0) as [H0|H0].
  { rewrite Hb, vsize_app in H0. pose proof (vsize_nonneg r). lia. }
  change (init_state buffer token_limit) with (conc [] buffer token_limit).
  assert (Hf : ∃ fuel, S (length buffer) = (length (tokens 0 c) + fuel)%nat).
  { exists (S (length buffer) - length (tokens 0 c))%nat.
    rewrite Hb, length_app. unfold vsize in Hts. lia. }
  destruct Hf as [fuel ->]. rewrite Hb at 2.
  rewrite (runs_item buffer depth_limit Hmax c [] (Complete c)); try done.
  cbn. unfold finish. cbn. unfold success, offset_of. rewrite Hb at 1 2. rewrite vsize_app.
  by replace (vsize (print c) + vsize r - vsize r) with (vsize (print c)) by lia.
Qed.
