(* ===== verification/BdecodeNode.v ===== *)
(** [bdecode_node] of src/btdownloader/torrent/bdecode.cpp: a reference into
    the token array a parse left, its accessors with the lookup caches they
    keep in [mutable] fields, [has_soft_error], and the functions that print a
    node.

    The token array and the buffer are never written once [bdecode] returned,
    so the pointers [m_root_tokens] and [m_buffer] are the arrays they point
    to; [nullptr] is the empty array.  An accessor that updates a cache returns
    the updated node. *)

From Stdlib Require Import String.
From S2P Require Import Prelude.
From S2P Require Import Bdecode.

Open Scope Z_scope.

Record bdecode_node := Node {
  m_tokens : list bdecode_token;
  m_root_tokens : list bdecode_token;
  m_buffer : list Z;
  m_buffer_size : Z;
  m_token_idx : Z;
  m_last_index : Z;
  m_last_token : Z;
  m_size : Z
}.

(** [bdecode_node()] *)
Definition default_node : bdecode_node := Node [] [] [] 0 (-1) (-1) (-1) (-1).

(** [bdecode_node(tokens, buf, len, idx)] *)
Definition node4 (tokens : list bdecode_token) (buf : list Z) (len idx : Z) : bdecode_node :=
  Node [] tokens buf len idx (-1) (-1) (-1).

(** the node [bdecode] returns *)
Definition node_of (buffer : list Z) (r : result) : bdecode_node :=
  Node (r_tokens r) (r_tokens r) (if r_token_idx r =? -1 then [] else buffer)
    (r_buffer_size r) (r_token_idx r) (-1) (-1) (-1).

Definition set_lookup (n : bdecode_node) (index token : Z) : bdecode_node :=
  Node (m_tokens n) (m_root_tokens n) (m_buffer n) (m_buffer_size n) (m_token_idx n)
    index token (m_size n).
Definition set_size (n : bdecode_node) (size : Z) : bdecode_node :=
  Node (m_tokens n) (m_root_tokens n) (m_buffer n) (m_buffer_size n) (m_token_idx n)
    (m_last_index n) (m_last_token n) size.

(** [operator=] and the copy constructor *)
Definition copy (n : bdecode_node) : bdecode_node :=
  match m_tokens n with
  | [] => n
  | _ => Node (m_tokens n) (m_tokens n) (m_buffer n) (m_buffer_size n) (m_token_idx n)
           (m_last_index n) (m_last_token n) (m_size n)
  end.

Definition non_owning (n : bdecode_node) : bdecode_node :=
  match m_tokens n with
  | [] => n
  | _ => node4 (m_tokens n) (m_buffer n) (m_buffer_size n) (m_token_idx n)
  end.

Definition clear (n : bdecode_node) : bdecode_node :=
  Node [] [] (m_buffer n) (m_buffer_size n) (-1) (-1) (-1) (-1).

Definition switch_underlying_buffer (n : bdecode_node) (buf : list Z) : bdecode_node :=
  match m_tokens n with
  | [] => n
  | _ => Node (m_tokens n) (m_root_tokens n) buf (m_buffer_size n) (m_token_idx n)
           (m_last_index n) (m_last_token n) (m_size n)
  end.

Definition swap (n1 n2 : bdecode_node) : bdecode_node * bdecode_node := (n2, n1).

(** the span of [len] bytes at [off]; a span that leaves the buffer is
    undefined behaviour to read *)
Definition span (buf : list Z) (off len : Z) : option (list Z) :=
  if (0 <=? off) && (0 <=? len) && (off + len <=? vsize buf)
  then Some (take (Z.to_nat len) (drop (Z.to_nat off) buf)) else None.

(** [token_source_span(t)] for the token at index [i] *)
Definition token_source_span (toks : list bdecode_token) (i : Z) : option Z :=
  t ← toks⟦i⟧; next ← toks⟦i + 1⟧; Some (offset next - offset t).

(** [type()]; [bdecode_token::end] has no counterpart in [bdecode_node::type_t],
    the cast makes it the value 5 *)
Definition node_type (n : bdecode_node) : option type_t :=
  if m_token_idx n =? -1 then Some tok_none
  else t ← (m_root_tokens n)⟦m_token_idx n⟧; Some (type t).

Definition operator_bool (n : bdecode_node) : bool := negb (m_token_idx n =? -1).

Definition data_section (n : bdecode_node) : option (list Z) :=
  if m_token_idx n =? -1 then Some []
  else
    t ← (m_root_tokens n)⟦m_token_idx n⟧;
    next ← (m_root_tokens n)⟦m_token_idx n + next_item t⟧;
    span (m_buffer n) (offset t) (offset next - offset t).

Definition is_type (t : type_t) (o : option type_t) : option bool :=
  t' ← o; Some (bool_decide (t' = t)).

(** * Values *)

Definition string_ptr (n : bdecode_node) : option Z :=
  t ← (m_root_tokens n)⟦m_token_idx n⟧; Some (offset t + start_offset t).

Definition string_length (n : bdecode_node) : option Z :=
  t ← (m_root_tokens n)⟦m_token_idx n⟧;
  size ← token_source_span (m_root_tokens n) (m_token_idx n);
  Some (size - start_offset t).

Definition string_value (n : bdecode_node) : option (list Z) :=
  ptr ← string_ptr n; len ← string_length n; span (m_buffer n) ptr len.

(** The range given to [parse_int] is [size - skip] bytes from behind the 'i'
    and the sign, one or two more than the token has.  Only the bytes before
    the first delimiter or error are read; a scan that would leave the buffer
    is undefined behaviour. *)
Definition int_value (n : bdecode_node) : option Z :=
  t ← (m_root_tokens n)⟦m_token_idx n⟧;
  size ← token_source_span (m_root_tokens n) (m_token_idx n);
  c ← (m_buffer n)⟦offset t + 1⟧;
  let negative := c =? ch_minus in
  let from := offset t + 1 + Z.b2z negative in
  let len := size - Z.b2z negative in
  let avail := vsize (m_buffer n) - from in
  s ← span (m_buffer n) from (Z.max 0 (Z.min len avail));
  '(rest, val, ec) ← parse_int s ch_e 0 no_error;
  if is_error ec then Some 0
  else if (vsize rest =? 0) && (avail <? len) then None
  else if negative then signed 64 (- val) else Some val.

(** * Lists *)

(** [while (item < i) ...] of [list_at]: [k] items to skip *)
Fixpoint list_skip (toks : list bdecode_token) (k : nat) (token : Z) : option Z :=
  match k with
  | O => Some token
  | S k => t ← toks⟦token⟧; list_skip toks k (token + next_item t)
  end.

(** where a lookup of index [i] starts: the cache, when it is not past [i] *)
Definition lookup_start (n : bdecode_node) (i : Z) : Z * Z :=
  if (m_last_index n <=? i) && negb (m_last_index n =? -1)
  then (m_last_token n, m_last_index n) else (m_token_idx n + 1, 0).

Definition child (n : bdecode_node) (token : Z) : bdecode_node :=
  node4 (m_root_tokens n) (m_buffer n) (m_buffer_size n) token.

Definition list_at (n : bdecode_node) (i : Z) : option (bdecode_node * bdecode_node) :=
  let '(token, item) := lookup_start n i in
  token ← list_skip (m_root_tokens n) (Z.to_nat (i - item)) token;
  Some (set_lookup n i token, child n token).

(** the loop that counts the tokens up to the end token; the fuel is the size
    of the array *)
Fixpoint count_items (toks : list bdecode_token) (fuel : nat) (token ret : Z) : option Z :=
  match fuel with
  | O => None
  | S fuel =>
      t ← toks⟦token⟧;
      if decide (type t = tok_end) then Some ret
      else count_items toks fuel (token + next_item t) (ret + 1)
  end.

Definition list_size (n : bdecode_node) : option (bdecode_node * Z) :=
  if negb (m_size n =? -1) then Some (n, m_size n)
  else
    let '(token, ret) :=
      if negb (m_last_index n =? -1) then (m_last_token n, m_last_index n)
      else (m_token_idx n + 1, 0) in
    ret ← count_items (m_root_tokens n) (S (length (m_root_tokens n))) token ret;
    Some (set_size n ret, ret).

Definition list_string_value_at (n : bdecode_node) (i : Z) (default_val : list Z)
    : option (bdecode_node * list Z) :=
  '(n, c) ← list_at n i;
  ty ← node_type c;
  if decide (ty = tok_string) then v ← string_value c; Some (n, v)
  else Some (n, default_val).

Definition list_int_value_at (n : bdecode_node) (i : Z) (default_val : Z)
    : option (bdecode_node * Z) :=
  '(n, c) ← list_at n i;
  ty ← node_type c;
  if decide (ty = tok_integer) then v ← int_value c; Some (n, v)
  else Some (n, default_val).

(** * Dictionaries *)

(** [while (item < i) ...] of [dict_at]: a key and a value are skipped *)
Fixpoint dict_skip (toks : list bdecode_token) (k : nat) (token : Z) : option Z :=
  match k with
  | O => Some token
  | S k =>
      t ← toks⟦token⟧;
      t' ← toks⟦token + next_item t⟧;
      dict_skip toks k (token + next_item t + next_item t')
  end.

Definition dict_at (n : bdecode_node) (i : Z)
    : option (bdecode_node * (list Z * bdecode_node)) :=
  let '(token, item) := lookup_start n i in
  token ← dict_skip (m_root_tokens n) (Z.to_nat (i - item)) token;
  let n := if 0 <? i then set_lookup n i token else n in
  t ← (m_root_tokens n)⟦token⟧;
  let value_token := token + next_item t in
  key ← string_value (child n token);
  Some (n, (key, child n value_token)).

Definition dict_size (n : bdecode_node) : option (bdecode_node * Z) :=
  if negb (m_size n =? -1) then Some (n, m_size n)
  else
    let '(token, ret) :=
      if negb (m_last_index n =? -1) then (m_last_token n, m_last_index n * 2)
      else (m_token_idx n + 1, 0) in
    ret ← count_items (m_root_tokens n) (S (length (m_root_tokens n))) token ret;
    let ret := Z.quot ret 2 in
    Some (set_size n ret, ret).

(** the loop of [dict_find]: the value token of the first key equal to [key] *)
Fixpoint find_key (toks : list bdecode_token) (buf key : list Z) (fuel : nat) (token : Z)
    : option (option Z) :=
  match fuel with
  | O => None
  | S fuel =>
      t ← toks⟦token⟧;
      if decide (type t = tok_end) then Some None
      else
        span_size ← token_source_span toks token;
        let size := span_size - start_offset t in
        eq ← (if vsize key =? size
              then k ← span buf (offset t + start_offset t) size; Some (bool_decide (key = k))
              else Some false);
        if eq : bool then Some (Some (token + next_item t))
        else
          t' ← toks⟦token + next_item t⟧;
          find_key toks buf key fuel (token + next_item t + next_item t')
  end.

Definition dict_find (n : bdecode_node) (key : list Z) : option bdecode_node :=
  r ← find_key (m_root_tokens n) (m_buffer n) key (S (length (m_root_tokens n)))
        (m_token_idx n + 1);
  Some (match r with Some token => child n token | None => default_node end).

Definition dict_find_type (ty : type_t) (n : bdecode_node) (key : list Z)
    : option bdecode_node :=
  ret ← dict_find n key;
  t ← node_type ret;
  Some (if decide (t = ty) then ret else default_node).

Definition dict_find_list := dict_find_type tok_list.
Definition dict_find_dict := dict_find_type tok_dict.
Definition dict_find_string := dict_find_type tok_string.
Definition dict_find_int := dict_find_type tok_integer.

Definition dict_find_string_value (n : bdecode_node) (key default_value : list Z)
    : option (list Z) :=
  c ← dict_find n key;
  ty ← node_type c;
  if decide (ty = tok_string) then string_value c else Some default_value.

Definition dict_find_int_value (n : bdecode_node) (key : list Z) (default_val : Z)
    : option Z :=
  c ← dict_find n key;
  ty ← node_type c;
  if decide (ty = tok_integer) then int_value c else Some default_val.

(** * Soft errors *)

(** [std::snprintf(error.data(), error.size(), msg)] *)
Definition snprintf (size : Z) (msg : list Z) : list Z :=
  if size <=? 0 then [] else take (Z.to_nat (size - 1)) msg ++ [0].

Definition leading_zero_int : list Z := bytes_of "leading zero in integer".
Definition leading_zero_str : list Z := bytes_of "leading zero in string length".
Definition unsorted_key : list Z := bytes_of "unsorted dictionary key".
Definition duplicate_key : list Z := bytes_of "duplicate dictionary key".

(** the sign of [memcmp] *)
Fixpoint memcmp (a b : list Z) : Z :=
  match a, b with
  | x :: a, y :: b => if x <? y then -1 else if y <? x then 1 else memcmp a b
  | _, _ => 0
  end.

(** the loop over the keys of the dictionary that ends at [token] *)
Fixpoint check_keys (toks : list bdecode_token) (buf : list Z) (token : Z)
    (fuel : nat) (k1 : Z) : option (option (list Z)) :=
  match fuel with
  | O => None
  | S fuel =>
      tk1 ← toks⟦k1⟧;
      let v1 := k1 + next_item tk1 in
      tv1 ← toks⟦v1⟧;
      let k2 := v1 + next_item tv1 in
      if k2 =? token then Some None
      else
        tk2 ← toks⟦k2⟧;
        let v2 := k2 + next_item tk2 in
        tv2 ← toks⟦v2⟧;
        let k1_start := offset tk1 + start_offset tk1 in
        let k1_len := offset tv1 - k1_start in
        let k2_start := offset tk2 + start_offset tk2 in
        let k2_len := offset tv2 - k2_start in
        let min_len := Z.min k1_len k2_len in
        a ← span buf k1_start min_len;
        b ← span buf k2_start min_len;
        let cmp := memcmp a b in
        if (0 <? cmp) || ((cmp =? 0) && (k2_len <? k1_len)) then Some (Some unsorted_key)
        else if (cmp =? 0) && (k1_len =? k2_len) then Some (Some duplicate_key)
        else check_keys toks buf token fuel k2
  end.

(** the loop of [has_soft_error]; [stack] has its top first *)
Fixpoint soft_error_loop (toks : list bdecode_token) (buf : list Z) (fuel : nat)
    (token : Z) (stack : list Z) : option (option (list Z)) :=
  match fuel with
  | O => None
  | S fuel =>
      let next stack :=
        match stack with
        | [] => Some None
        | _ => soft_error_loop toks buf fuel (token + 1) stack
        end in
      t ← toks⟦token⟧;
      match type t with
      | tok_integer =>
          a ← buf⟦offset t + 1⟧;
          e ← (if a =? ch_0 then b ← buf⟦offset t + 2⟧; Some (negb (b =? ch_e))
               else Some false);
          if e : bool then Some (Some leading_zero_int) else next stack
      | tok_string =>
          a ← buf⟦offset t⟧;
          e ← (if a =? ch_0 then b ← buf⟦offset t + 1⟧; Some (negb (b =? ch_colon))
               else Some false);
          if e : bool then Some (Some leading_zero_str) else next stack
      | tok_dict | tok_list => next (token :: stack)
      | tok_end =>
          match stack with
          | [] => None
          | parent :: stack =>
              tp ← toks⟦parent⟧;
              e ← (if bool_decide (type tp = tok_dict) && negb (token =? parent + 1)
                   then check_keys toks buf token (S (length toks)) (parent + 1)
                   else Some None);
              match e with
              | Some msg => Some (Some msg)
              | None => next stack
              end
          end
      | tok_none => next stack
      end
  end.

(** the result and what is written to [error] *)
Definition has_soft_error (n : bdecode_node) (error_size : Z) : option (bool * list Z) :=
  ty ← node_type n;
  if decide (ty = tok_none) then Some (false, [])
  else
    r ← soft_error_loop (m_root_tokens n) (m_buffer n) (S (length (m_root_tokens n)))
          (m_token_idx n) [];
    Some (match r with
          | Some msg => (true, snprintf error_size msg)
          | None => (false, [])
          end).

(** * Printing *)

(** [snprintf("%02x", c)] of a byte *)
Definition hex_digit (n : Z) : Z := if n <? 10 then ch_0 + n else 97 + (n - 10).
Definition printable (c : Z) : bool := (32 <=? c) && (c <? 127).

Definition escape_string (str : list Z) : list Z :=
  flat_map (λ c, if printable c then [c]
                 else [92; 120; hex_digit (c / 16); hex_digit (c mod 16)]) str.

(** the loop of [line_longer_than] over the decimal digits of a value *)
Fixpoint count_digits (fuel : nat) (val line_len : Z) : option Z :=
  match fuel with
  | O => None
  | S fuel =>
      if 0 <? val then count_digits fuel (Z.quot val 10) (line_len + 1) else Some line_len
  end.

(** the items [i], [i + 1], ... of the loop [for (i = 0; i < e.size(); ++i)]:
    the body returns the updated node and accumulator, or the result the
    function returns at once *)
Section for_each.
Context {S R : Type} (size : bdecode_node → option (bdecode_node * Z))
  (body : bdecode_node → Z → S → option (bdecode_node * (S + R))).

Fixpoint for_each (fuel : nat) (e : bdecode_node) (i : Z) (s : S)
    : option (bdecode_node * (S + R)) :=
  match fuel with
  | O => None
  | Datatypes.S fuel =>
      '(e, n) ← size e;
      if i <? n then
        '(e, r) ← body e i s;
        match r with
        | inl s => for_each fuel e (i + 1) s
        | inr r => Some (e, inr r)
        end
      else Some (e, inl s)
  end.
End for_each.

(** the bound used for the recursion and for the loops over a node: its tokens *)
Definition node_fuel (e : bdecode_node) : nat := S (length (m_root_tokens e)).

Definition limit_line (limit : Z) (r : bdecode_node * (Z + Z)) : bdecode_node * Z :=
  match r with
  | (e, inl line_len) => (e, if limit <? line_len then -1 else line_len)
  | (e, inr ret) => (e, ret)
  end.

Fixpoint line_longer_than (fuel : nat) (e : bdecode_node) (limit : Z)
    : option (bdecode_node * Z) :=
  match fuel with
  | O => None
  | S fuel =>
      ty ← node_type e;
      match ty with
      | tok_list =>
          if limit <? 4 then Some (e, -1)
          else
            r ← for_each list_size (λ e i line_len,
                  '(e, c) ← list_at e i;
                  '(_, ret) ← line_longer_than fuel c (limit - line_len);
                  Some (e, if ret =? -1 then inr (-1) else inl (line_len + (ret + 2))))
                (node_fuel e) e 0 4;
            Some (limit_line limit r)
      | tok_dict =>
          if limit <? 4 then Some (e, -1)
          else
            r ← for_each dict_size (λ e i line_len,
                  '(e, (key, _)) ← dict_at e i;
                  let line_len := line_len + (4 + vsize key) in
                  if limit <? line_len then Some (e, inr (-1))
                  else
                    '(e, (_, c)) ← dict_at e i;
                    '(_, ret) ← line_longer_than fuel c (limit - line_len);
                    Some (e, if ret =? -1 then inr (-1) else inl (line_len + (ret + 1))))
                (node_fuel e) e 0 4;
            Some (limit_line limit r)
      | tok_string =>
          len ← string_length e;
          Some (limit_line limit (e, inl (3 + len)))
      | tok_integer =>
          val ← int_value e;
          line_len ← count_digits 64 val 0;
          Some (limit_line limit (e, inl (line_len + 2)))
      | tok_none => Some (limit_line limit (e, inl 4))
      | tok_end => Some (limit_line limit (e, inl 0))
      end
  end.

Definition quote : list Z := [39].
Definition dots : list Z := bytes_of "...".

Definition print_string (str : list Z) (single_line : bool) : list Z :=
  let len := vsize str in
  let first n := take (Z.to_nat n) str in
  let last n := drop (Z.to_nat (len - n)) str in
  quote ++
  (if forallb printable str then
     if single_line && (30 <? len) then first 14 ++ dots ++ last 14 else str
   else if single_line && (20 <? len)
   then escape_string (first 9) ++ dots ++ escape_string (last 9)
   else escape_string str) ++ quote.

(** the buffer [indent_str] as the string up to its terminator *)
Definition indent_string (indent : Z) : list Z :=
  [44; 10] ++ repeat 32 (Z.to_nat (if (indent <? 197) && (0 <=? indent) then indent else 197)).

Fixpoint print_entry (fuel : nat) (e : bdecode_node) (single_line : bool) (indent : Z)
    : option (bdecode_node * list Z) :=
  match fuel with
  | O => None
  | S fuel =>
      ty ← node_type e;
      let sep := indent_string indent in
      let items (one_liner : bool) (n i : Z) :=
        if i <? n - 1 then (if one_liner then bytes_of ", " else sep)
        else (if one_liner then bytes_of " " else tail sep) in
      let lead (one_liner : bool) (i : Z) :=
        if (i =? 0) && one_liner then bytes_of " " else [] in
      let close (c : Z) (r : bdecode_node * (list Z + Empty_set)) :=
        match r with
        | (e, inl ret) => (e, ret ++ [c])
        | (_, inr x) => match x : Empty_set with end
        end in
      match ty with
      | tok_none => Some (e, bytes_of "none")
      | tok_integer => v ← int_value e; Some (e, dec_string v)
      | tok_string => v ← string_value e; Some (e, print_string v single_line)
      | tok_list =>
          '(e, len) ← line_longer_than (node_fuel e) e 200;
          let one_liner := negb (len =? -1) || single_line in
          r ← for_each list_size (λ e i ret,
                '(e, c) ← list_at e i;
                '(_, s) ← print_entry fuel c single_line (indent + 2);
                '(e, n) ← list_size e;
                Some (e, inl (ret ++ lead one_liner i ++ s ++ items one_liner n i)))
              (node_fuel e) e 0 (bytes_of "[" ++ if one_liner then [] else tail sep);
          Some (close 93 r)
      | tok_dict =>
          '(e, len) ← line_longer_than (node_fuel e) e 200;
          let one_liner := negb (len =? -1) || single_line in
          r ← for_each dict_size (λ e i ret,
                '(e, (key, c)) ← dict_at e i;
                '(_, s) ← print_entry fuel c single_line (indent + 2);
                '(e, n) ← dict_size e;
                Some (e, inl (ret ++ lead one_liner i ++ print_string key true ++
                              bytes_of ": " ++ s ++ items one_liner n i)))
              (node_fuel e) e 0 (bytes_of "{" ++ if one_liner then [] else tail sep);
          Some (close 125 r)
      | tok_end => Some (e, [])
      end
  end.

(** [bdecode_error_category::message] *)
Definition message (ev : Z) : list Z :=
  let msgs := map bytes_of
    ["no error"; "expected digit in bencoded string"; "expected colon in bencoded string";
     "unexpected end of file in bencoded string";
     "expected value (list, dict, int or string) in bencoded string";
     "bencoded nesting depth exceeded"; "bencoded item count limit exceeded";
     "integer overflow"]%string in
  match msgs⟦ev⟧ with Some m => m | None => bytes_of "Unknown error" end.
