(* ===== verification/BdecodeNodeCorrect.v ===== *)
(** The accessors of [bdecode_node] read back the item that was parsed: a node
    denotes a concrete syntax tree, and every accessor returns the part of the
    tree its name says, whatever its caches hold. *)

From S2P Require Import Prelude.
From S2P Require Import Bdecode.
From S2P Require Import BencodeGrammar.
From S2P Require Import BdecodeCorrect.
From S2P Require Import BdecodeNode.

(** * Chains of sibling tokens *)

(** [l] is the list of the token indices from [i] on to the end token of the
    enclosing container *)
Inductive siblings (toks : list bdecode_token) : Z → list Z → Prop :=
| siblings_end i t :
    toks⟦i⟧ = Some t → type t = tok_end → siblings toks i []
| siblings_cons i t l :
    toks⟦i⟧ = Some t → type t ≠ tok_end → 0 < next_item t →
    siblings toks (i + next_item t) l → siblings toks i (i :: l).

Section siblings.
Context (toks : list bdecode_token).

Lemma siblings_bound i l : siblings toks i l → i + vsize l < vsize toks.
Proof.
  induction 1 as [i t Ht|i t l Ht _ Hn _ IH].
  - apply vget_Some_range in Ht. vsize.
  - vsize.
Qed.

Lemma siblings_drop i l (j : nat) x :
  siblings toks i l → l !! j = Some x → siblings toks x (drop j l).
Proof.
  intros Hs. revert j. induction Hs as [|i t l Ht Hty Hn Hs IH]; intros j Hj; [done|].
  destruct j as [|j]; simpl in *; [|auto].
  injection Hj as <-. by econstructor.
Qed.

Lemma siblings_skip i l (j : nat) x :
  siblings toks i l → l !! j = Some x → list_skip toks j i = Some x.
Proof.
  intros Hs. revert j. induction Hs as [|i t l Ht _ _ _ IH]; intros j Hj; [done|].
  destruct j as [|j]; simpl in *; [done|]. rewrite Ht. simpl. auto.
Qed.

Lemma dict_skip_list_skip k i : dict_skip toks k i = list_skip toks (k + k) i.
Proof.
  revert i. induction k as [|k IH]; intros i; [done|].
  rewrite <-Nat.add_succ_comm. simpl. destruct (toks⟦i⟧) as [t|]; [|done]. simpl.
  destruct (toks⟦i + next_item t⟧); [|done]. simpl. apply IH.
Qed.

Lemma siblings_count i l fuel ret :
  siblings toks i l → (length l < fuel)%nat →
  count_items toks fuel i ret = Some (ret + vsize l).
Proof.
  intros Hs. revert fuel ret.
  induction Hs as [i t Ht Hty|i t l Ht Hty _ _ IH]; intros [|fuel] ret Hf;
    simpl in *; try lia; rewrite Ht; simpl.
  - rewrite Hty. simpl. f_equal. vsize.
  - rewrite decide_False by done. rewrite IH by lia. f_equal. vsize.
Qed.

(** * Caches *)

(** the caches of a node whose items, of [stride] tokens each, have the
    tokens [l] *)
Definition coherent (stride : Z) (n : bdecode_node) (l : list Z) : Prop :=
  (m_size n = -1 ∨ m_size n * stride = vsize l) ∧
  (m_last_index n = -1 ∨
   0 ≤ m_last_index n ∧ l⟦stride * m_last_index n⟧ = Some (m_last_token n)).

Lemma coherent_lookup stride n l i x :
  coherent stride n l → 0 ≤ i → l⟦stride * i⟧ = Some x →
  coherent stride (set_lookup n i x) l.
Proof. intros [Hs _] Hi Hx. split; [done|]. right. done. Qed.

Lemma coherent_size stride n l s :
  coherent stride n l → s * stride = vsize l → coherent stride (set_size n s) l.
Proof. intros [_ Hc] Hs. split; [by right|done]. Qed.

(** a lookup starts at an item not behind the one asked for *)
Lemma lookup_start_spec stride n l i x :
  0 < stride → siblings toks (m_token_idx n + 1) l → coherent stride n l → 0 ≤ i →
  l⟦stride * i⟧ = Some x →
  let '(token, item) := lookup_start n i in
  list_skip toks (Z.to_nat (stride * (i - item))) token = Some x.
Proof.
  intros Hst Hs [_ Hc] Hi Hx. unfold lookup_start.
  destruct ((m_last_index n <=? i) && negb (m_last_index n =? -1)) eqn:Hb.
  - apply andb_true_iff in Hb as [Hle%Z.leb_le Hne%negb_true_iff%Z.eqb_neq].
    destruct Hc as [|[H0 Hc]]; [done|].
    rewrite <-(Z2Nat.id (stride * m_last_index n)), vget_nat in Hc by nia.
    eapply siblings_skip; [by eapply siblings_drop|].
    rewrite lookup_drop, <-Z2Nat.inj_add by nia.
    rewrite <-(Z2Nat.id (stride * i)), vget_nat in Hx by nia.
    rewrite <-Hx. f_equal. f_equal. lia.
  - rewrite Z.sub_0_r. eapply siblings_skip; [done|].
    by rewrite <-(Z2Nat.id (stride * i)), vget_nat in Hx by nia.
Qed.

Lemma count_start_spec stride n l :
  0 < stride → siblings toks (m_token_idx n + 1) l → coherent stride n l →
  0 ≤ m_token_idx n →
  let '(token, ret) :=
    if negb (m_last_index n =? -1) then (m_last_token n, m_last_index n * stride)
    else (m_token_idx n + 1, 0) in
  count_items toks (S (length toks)) token ret = Some (vsize l).
Proof.
  intros Hst Hs [_ Hc] Hidx. pose proof (siblings_bound _ _ Hs) as Hb.
  destruct (Z.eqb_spec (m_last_index n) (-1)) as [He|He]; cbn [negb].
  - rewrite <-(Z.add_0_l (vsize l)). apply siblings_count; [done|].
    unfold vsize in *. lia.
  - destruct Hc as [|[H0 Hc]]; [done|].
    assert (Hc' := Hc). apply vget_Some_range in Hc'.
    rewrite <-(Z2Nat.id (stride * m_last_index n)), vget_nat in Hc by nia.
    pose proof (siblings_drop _ _ _ _ Hs Hc) as Hd.
    pose proof (siblings_bound _ _ Hd) as Hb2.
    rewrite (siblings_count _ _ _ _ Hd).
    + f_equal. unfold vsize in *. rewrite length_drop. lia.
    + rewrite length_drop. unfold vsize in *. lia.
Qed.
End siblings.

(** * Items in the token array *)

Definition cst_type (c : cst) : type_t :=
  match c with
  | CInt _ _ => tok_integer
  | CStr _ => tok_string
  | CList _ => tok_list
  | CDict _ => tok_dict
  end.

Lemma tokens_length off off' c : vsize (tokens off c) = vsize (tokens off' c).
Proof.
  revert off off'. induction c as [| |l IH|l IH] using cst_rect'; intros off off'; try done.
  - rewrite !tokens_list_eq. unfold container. vsize.
    enough (∀ off off', vsize (tokens_list off l) = vsize (tokens_list off' l)) as H by (by rewrite (H _ (off' + 1))).
    clear off off'. induction IH as [|c l Hc _ IHl]; intros off off'; simpl; [done|].
    rewrite !vsize_app. f_equal; [apply Hc|apply IHl].
  - rewrite !tokens_dict_eq. unfold container. vsize.
    enough (∀ off off', vsize (tokens_pairs off l) = vsize (tokens_pairs off' l)) as H by (by rewrite (H _ (off' + 1))).
    clear off off'. induction IH as [|[k c] l Hc _ IHl]; intros off off'; simpl; [done|].
    rewrite !vsize_cons, !vsize_app. do 2 f_equal; [apply Hc|apply IHl].
Qed.

(** the first token of an item *)
Lemma tokens_head off c :
  ∃ t ts, tokens off c = t :: ts ∧ offset t = uint 29 off ∧ type t = cst_type c ∧
          next_item t = uint 29 (vsize (tokens off c)).
Proof.
  destruct c as [neg ds|s|l|l].
  - by eexists _, _.
  - by eexists _, _.
  - rewrite tokens_list_eq. eexists _, _. split_and!; [done..|].
    unfold container, set_next_item; cbn [next_item]. f_equal. vsize.
  - rewrite tokens_dict_eq. eexists _, _. split_and!; [done..|].
    unfold container, set_next_item; cbn [next_item]. f_equal. vsize.
Qed.

(** item [c] was parsed at byte [off] and its tokens are those from [idx] on *)
Definition located (toks : list bdecode_token) (buf : list Z) (off idx : Z) (c : cst)
    : Prop :=
  ∃ pre next post bpre bpost,
    toks = pre ++ tokens off c ++ next :: post ∧ vsize pre = idx ∧
    buf = bpre ++ print c ++ bpost ∧ vsize bpre = off ∧
    offset next = off + vsize (print c) ∧ cst_ok c ∧ vsize buf ≤ max_offset.

(** [l] are the tokens of the items [cs] *)
Definition located_items toks buf (l : list Z) (cs : list cst) : Prop :=
  Forall2 (λ i c, ∃ off, located toks buf off i c) l cs.

Lemma uint29_small n : 0 ≤ n ≤ max_offset → uint 29 n = n.
Proof. intros. apply uint_small. unfold max_offset in *. lia. Qed.

Section located.
Context (toks : list bdecode_token) (buf : list Z).

Lemma located_range off idx c :
  located toks buf off idx c →
  0 ≤ off ∧ off + vsize (print c) ≤ vsize buf ∧ vsize buf ≤ max_offset ∧
  0 ≤ idx ∧ idx + vsize (tokens off c) < vsize toks ∧ vsize (tokens off c) ≤ vsize (print c) ∧
  1 ≤ vsize (tokens off c).
Proof.
  intros (pre & next & post & bpre & bpost & -> & <- & -> & <- & _ & _ & Hmax).
  autorewrite with vsize in *. pose proof (tokens_size (vsize bpre) c).
  pose proof (vsize_nonneg pre). pose proof (vsize_nonneg bpre).
  pose proof (vsize_nonneg bpost). pose proof (vsize_nonneg post). lia.
Qed.

(** the token of a located item *)
Lemma located_token off idx c :
  located toks buf off idx c →
  ∃ t, toks⟦idx⟧ = Some t ∧ offset t = off ∧ type t = cst_type c ∧
       next_item t = vsize (tokens off c) ∧ tokens off c !! 0%nat = Some t.
Proof.
  intros Hl. pose proof (located_range _ _ _ Hl) as Hr.
  destruct Hl as (pre & next & post & bpre & bpost & -> & <- & Hb & <- & _).
  destruct (tokens_head (vsize bpre) c) as (t & ts & Ht & Ho & Hty & Hn).
  exists t. rewrite Ht at 1. rewrite <-app_comm_cons, vget_middle.
  rewrite Ho, Hn, !uint29_small by lia. by rewrite Ht.
Qed.

(** the token behind it *)
Lemma located_next off idx c :
  located toks buf off idx c →
  ∃ t, toks⟦idx + vsize (tokens off c)⟧ = Some t ∧ offset t = off + vsize (print c).
Proof.
  intros (pre & next & post & bpre & bpost & -> & <- & Hb & <- & Hn & _).
  exists next. split; [|done]. rewrite app_assoc.
  rewrite <-vsize_app. apply vget_middle.
Qed.

Lemma span_app b1 b2 b3 : span (b1 ++ b2 ++ b3) (vsize b1) (vsize b2) = Some b2.
Proof.
  unfold span. autorewrite with vsize.
  pose proof (vsize_nonneg b1). pose proof (vsize_nonneg b2). pose proof (vsize_nonneg b3).
  destruct (Z.leb_spec 0 (vsize b1)), (Z.leb_spec 0 (vsize b2)),
    (Z.leb_spec (vsize b1 + vsize b2) (vsize b1 + (vsize b2 + vsize b3))); try lia.
  cbn [andb]. f_equal. unfold vsize. rewrite !Nat2Z.id, drop_app_length.
  apply take_app_length.
Qed.

Lemma located_section off idx c :
  located toks buf off idx c → span buf off (vsize (print c)) = Some (print c).
Proof. intros (pre & next & post & bpre & bpost & _ & _ & -> & <- & _). apply span_app. Qed.

(** * Items of a list *)

Fixpoint idx_list (off idx : Z) (l : list cst) : list Z :=
  match l with
  | [] => []
  | c :: l => idx :: idx_list (off + vsize (print c)) (idx + vsize (tokens off c)) l
  end.

Lemma idx_list_size off idx l : vsize (idx_list off idx l) = vsize l.
Proof. revert off idx. induction l as [|c l IH]; intros; [done|]. simpl. vsize. by rewrite IH. Qed.

Lemma head_offset off l (e : bdecode_token) post :
  0 ≤ off → off + vsize (print_list l) ≤ max_offset → offset e = off + vsize (print_list l) →
  ∃ t ts, tokens_list off l ++ e :: post = t :: ts ∧ offset t = off.
Proof.
  intros Hoff Hmax He. destruct l as [|c l]; simpl.
  - exists e, post. split; [done|]. unfold print_list in He; simpl in He. vsize in He. lia.
  - destruct (tokens_head off c) as (t & ts & -> & Ho & _).
    exists t, (ts ++ tokens_list (off + vsize (print c)) l ++ e :: post).
    split; [by rewrite <-app_assoc|]. rewrite Ho, uint29_small; [done|].
    pose proof (vsize_nonneg (print_list (c :: l))). lia.
Qed.

Lemma items_list pre bpre l e post bpost :
  toks = pre ++ tokens_list (vsize bpre) l ++ e :: post →
  buf = bpre ++ print_list l ++ bpost → vsize buf ≤ max_offset → Forall cst_ok l →
  type e = tok_end → offset e = vsize bpre + vsize (print_list l) →
  let idxs := idx_list (vsize bpre) (vsize pre) l in
  siblings toks (vsize pre) idxs ∧ located_items toks buf idxs l.
Proof.
  revert pre bpre. induction l as [|c l IH]; intros pre bpre Ht Hb Hmax Hok Hty He; simpl.
  { split; [|constructor]. econstructor; [|exact Hty]. rewrite Ht. apply vget_middle. }
  apply Forall_cons_1 in Hok as [Hc Hok].
  unfold print_list in *; cbn [map concat tokens_list] in *. fold (print_list l) in *.
  rewrite <-!app_assoc in Hb. rewrite <-!app_assoc in Ht.
  rewrite vsize_app in He.
  assert (Hsz : vsize bpre + vsize (print c) + vsize (print_list l) ≤ max_offset).
  { rewrite Hb in Hmax. autorewrite with vsize in Hmax. pose proof (vsize_nonneg bpost). lia. }
  assert (Hloc : located toks buf (vsize bpre) (vsize pre) c).
  { destruct (head_offset (vsize bpre + vsize (print c)) l e post) as (t & ts & Hts & Ho);
      [pose proof (vsize_nonneg bpre); pose proof (vsize_nonneg (print c)); lia|done|lia|].
    rewrite Hts in Ht. by exists pre, t, ts, bpre, (print_list l ++ bpost). }
  destruct (IH (pre ++ tokens (vsize bpre) c) (bpre ++ print c)) as [Hs Hi]; try done.
  { by rewrite <-app_assoc, vsize_app. }
  { by rewrite <-!app_assoc. }
  { rewrite vsize_app. lia. }
  rewrite !vsize_app in Hs, Hi.
  destruct (located_token _ _ _ Hloc) as (t & Ht1 & Ho & Hty' & Hn & _).
  pose proof (located_range _ _ _ Hloc).
  split.
  - econstructor; [exact Ht1| |lia|by rewrite Hn].
    rewrite Hty'. by destruct c.
  - constructor; [by eexists|done].
Qed.

(** the items of a container, a dictionary being the list of its keys and
    values in turn *)
Definition flat (l : list (bstr * cst)) : list cst :=
  flat_map (λ kv, [CStr kv.1; kv.2]) l.

Lemma print_pairs_flat l : print_pairs l = print_list (flat l).
Proof.
  unfold print_pairs, print_list, flat. induction l as [|[k v] l IH]; [done|].
  cbn. by rewrite IH, <-!app_assoc.
Qed.

Lemma tokens_pairs_flat off l : tokens_pairs off l = tokens_list off (flat l).
Proof.
  unfold flat. revert off. induction l as [|[k v] l IH]; intros off; [done|].
  cbn. by rewrite IH.
Qed.

Definition items (c : cst) : list cst :=
  match c with CList l => l | CDict l => flat l | _ => [] end.

Definition is_container (c : cst) : Prop :=
  match c with CList _ | CDict _ => True | _ => False end.

Lemma container_eq c off :
  is_container c →
  ∃ hd ch, print c = ch :: print_list (items c) ++ [ch_e] ∧
    tokens off c = hd :: tokens_list (off + 1) (items c) ++
      [token4 (off + vsize (print c) - 1) 1 tok_end 0].
Proof.
  destruct c as [| |l|l]; intros Hc; try done.
  - eexists _, _. split; [done|]. by rewrite tokens_list_eq.
  - eexists _, _. rewrite tokens_dict_eq, print_dict_eq, print_pairs_flat, tokens_pairs_flat.
    by split.
Qed.

Lemma items_ok c : cst_ok c → Forall cst_ok (items c).
Proof.
  destruct 1 as [| | |l Hl]; try constructor; [done|].
  cbn. unfold flat. induction Hl as [|[k v] l [Hk Hv] _ IH]; [constructor|].
  cbn. constructor; [by constructor|]. by constructor.
Qed.

Lemma located_container off idx c :
  located toks buf off idx c → is_container c →
  let idxs := idx_list (off + 1) (idx + 1) (items c) in
  siblings toks (idx + 1) idxs ∧ located_items toks buf idxs (items c).
Proof.
  intros Hl Hc. pose proof (located_range _ _ _ Hl) as Hr.
  destruct Hl as (pre & next & post & bpre & bpost & Ht & <- & Hb & <- & Hn & Hok & Hmax).
  destruct (container_eq c (vsize bpre) Hc) as (hd & ch & Hp & Htk).
  rewrite Hp in Hr, Hb, Htk. autorewrite with vsize in Hr, Htk.
  rewrite Htk in Ht.
  destruct (items_list (pre ++ [hd]) (bpre ++ [ch]) (items c)
    (token4 (vsize bpre + (1 + (vsize (print_list (items c)) + 1)) - 1) 1 tok_end 0)
    (next :: post) (ch_e :: bpost)) as [Hs Hi]; try done.
  - rewrite Ht, <-app_assoc. cbn. autorewrite with vsize. rewrite <-app_assoc. done.
  - rewrite Hb. cbn. by rewrite <-!app_assoc.
  - by apply items_ok.
  - unfold token4; cbn [offset]. autorewrite with vsize.
    pose proof (vsize_nonneg (print_list (items c))).
    rewrite uint29_small; lia.
  - autorewrite with vsize in Hs, Hi. done.
Qed.
End located.

(** * Nodes *)

Definition stride (c : cst) : Z := match c with CDict _ => 2 | _ => 1 end.

(** the node refers to the item [c] of its buffer, and its caches are those of
    [c] *)
Definition denotes (n : bdecode_node) (c : cst) : Prop :=
  ∃ off, located (m_root_tokens n) (m_buffer n) off (m_token_idx n) c ∧
    coherent (stride c) n (idx_list (off + 1) (m_token_idx n + 1) (items c)).

Lemma child_denotes n off i c :
  located (m_root_tokens n) (m_buffer n) off i c → denotes (child n i) c.
Proof. intros Hl. exists off. split; [done|]. by split; left. Qed.

Lemma denotes_type n c : denotes n c → node_type n = Some (cst_type c).
Proof.
  intros (off & Hl & _). unfold node_type.
  destruct (located_token _ _ _ _ _ Hl) as (t & Ht & _ & Hty & _).
  pose proof (located_range _ _ _ _ _ Hl).
  destruct (Z.eqb_spec (m_token_idx n) (-1)); [lia|]. rewrite Ht. simpl. by rewrite Hty.
Qed.

Lemma denotes_data_section n c : denotes n c → data_section n = Some (print c).
Proof.
  intros (off & Hl & _). unfold data_section.
  destruct (located_token _ _ _ _ _ Hl) as (t & Ht & Ho & _ & Hn & _).
  destruct (located_next _ _ _ _ _ Hl) as (t' & Ht' & Ho').
  pose proof (located_range _ _ _ _ _ Hl).
  destruct (Z.eqb_spec (m_token_idx n) (-1)); [lia|]. rewrite Ht. cbn [mbind option_bind].
  rewrite Hn, Ht'. cbn [mbind option_bind]. rewrite Ho, Ho'.
  replace (_ - off) with (vsize (print c)) by lia. by eapply located_section.
Qed.

(** ** Values *)

Lemma located_string toks buf off i s :
  located toks buf off i (CStr s) →
  ∃ t span_size, toks⟦i⟧ = Some t ∧ type t = tok_string ∧ next_item t = 1 ∧
    token_source_span toks i = Some span_size ∧
    span_size - start_offset t = vsize (content s) ∧ offset t = off ∧
    span buf (offset t + start_offset t) (vsize (content s)) = Some (content s).
Proof.
  intros Hl.
  destruct (located_token _ _ _ _ _ Hl) as (t & Ht & Ho & Hty & Hn & Ht0).
  destruct (located_next _ _ _ _ _ Hl) as (t' & Ht' & Ho').
  change (vsize (tokens off (CStr s))) with 1 in Ht'.
  destruct Hl as (pre & next & post & bpre & bpost & _ & _ & Hb & <- & _ & Hok & _).
  inversion Hok as [|? (Hdl & Hsz & _)| |]; subst.
  assert (Hh : start_offset t = vsize (len_digits s) + 1).
  { cbn in Ht0. injection Ht0 as <-. unfold start_offset, str_token, token4; cbn [header].
    rewrite decide_True by done. rewrite (uint_small 8) by lia.
    rewrite uint_small; [lia|]. change (2 ^ 3) with 8. lia. }
  exists t, (offset t' - offset t). split_and!; try done.
  - unfold token_source_span. rewrite Ht. cbn [mbind option_bind]. by rewrite Ht'.
  - rewrite Ho, Ho', Hh. cbn [print]. rewrite print_str_size. lia.
  - rewrite Ho, Hh. cbn [print]. unfold print_str.
    replace (vsize bpre + (vsize (len_digits s) + 1))
      with (vsize (bpre ++ len_digits s ++ [ch_colon])) by vsize.
    replace (bpre ++ (len_digits s ++ [ch_colon] ++ content s) ++ bpost)
      with ((bpre ++ len_digits s ++ [ch_colon]) ++ content s ++ bpost)
      by (by rewrite <-!app_assoc).
    apply span_app.
Qed.

Lemma located_string_value n off s :
  located (m_root_tokens n) (m_buffer n) off (m_token_idx n) (CStr s) →
  string_length n = Some (vsize (content s)) ∧ string_value n = Some (content s).
Proof.
  intros (t & sz & Ht & _ & _ & Hsz & Hlen & _ & Hspan)%located_string.
  unfold string_value, string_ptr, string_length. rewrite Ht, Hsz. cbn [mbind option_bind].
  by rewrite Hlen, Hspan.
Qed.

Lemma denotes_string n s : denotes n (CStr s) →
  string_length n = Some (vsize (content s)) ∧ string_value n = Some (content s).
Proof. intros (off & Hl & _). by eapply located_string_value. Qed.

(** the value [int_value] gives to an integer: zero when it is not between
    [- int64_max] and [int64_max] *)
Definition int_of (neg : bool) (ds : list Z) : Z :=
  let v := digits_value 0 ds in
  if int64_max <? v then 0 else if neg then - v else v.

Lemma denotes_int n neg ds : denotes n (CInt neg ds) → int_value n = Some (int_of neg ds).
Proof.
  intros (off & Hl & _). unfold int_value, token_source_span.
  destruct (located_token _ _ _ _ _ Hl) as (t & Ht & Ho & _).
  destruct (located_next _ _ _ _ _ Hl) as (t' & Ht' & Ho').
  change (vsize (tokens off (CInt neg ds))) with 1 in Ht'.
  rewrite Ht. cbn [mbind option_bind]. rewrite Ht'. cbn [mbind option_bind].
  rewrite Ho, Ho'. clear t t' Ht Ht' Ho Ho'.
  destruct Hl as (pre & next & post & bpre & bpost & _ & _ & -> & <- & _ & Hok & _).
  inversion Hok as [? ? Hds Hn| | |]; subst.
  set (buf := bpre ++ print (CInt neg ds) ++ bpost).
  assert (Hbuf : buf = (bpre ++ [ch_i]) ++ sign neg ++ ds ++ [ch_e] ++ bpost).
  { subst buf. cbn. by rewrite <-!app_assoc. }
  assert (Hc : ∃ c, buf⟦vsize bpre + 1⟧ = Some c ∧ (c =? ch_minus) = neg).
  { rewrite Hbuf. replace (vsize bpre + 1) with (vsize (bpre ++ [ch_i])) by vsize.
    destruct neg; cbn [sign app].
    - exists ch_minus. by rewrite vget_middle.
    - destruct ds as [|c ds]; [vsize in Hn; lia|]. exists c. cbn [app].
      rewrite vget_middle. split; [done|]. apply Forall_cons_1 in Hds as [Hd _].
      apply numeric_range in Hd. apply Z.eqb_neq. unfold ch_minus, ch_0 in *. lia. }
  destruct Hc as (c & -> & Hneg). cbn [mbind option_bind]. rewrite Hneg.
  assert (Hpr : vsize (print (CInt neg ds)) = 2 + Z.b2z neg + vsize ds).
  { destruct neg; cbn; vsize. }
  replace (vsize bpre + vsize (print (CInt neg ds)) - vsize bpre - Z.b2z neg)
    with (vsize ds + 2) by lia.
  assert (Hav : vsize buf - (vsize bpre + 1 + Z.b2z neg) = vsize ds + 1 + vsize bpost).
  { subst buf. autorewrite with vsize. lia. }
  rewrite Hav. pose proof (vsize_nonneg bpost). pose proof (vsize_nonneg ds).
  assert (Hspan : ∃ r, span buf (vsize bpre + 1 + Z.b2z neg)
    (Z.max 0 (Z.min (vsize ds + 2) (vsize ds + 1 + vsize bpost))) = Some (ds ++ ch_e :: r)).
  { exists (take 1 bpost).
    replace (Z.max _ _) with (vsize (ds ++ ch_e :: take 1 bpost)).
    2: { autorewrite with vsize. unfold vsize. rewrite length_take. lia. }
    replace (_ + _ + _) with (vsize (bpre ++ [ch_i] ++ sign neg)) by (destruct neg; cbn; vsize).
    replace buf with ((bpre ++ [ch_i] ++ sign neg) ++ (ds ++ ch_e :: take 1 bpost) ++ drop 1 bpost).
    2: { rewrite Hbuf, <-!app_assoc. cbn. by rewrite take_drop. }
    apply span_app. }
  destruct Hspan as [r ->]. cbn [mbind option_bind]. unfold int_of.
  pose proof (parse_int_digits ds ch_e r 0 no_error Hds numeric_e ltac:(done)) as Hp.
  destruct (Z.leb_spec (digits_value 0 ds) int64_max), (Z.ltb_spec int64_max (digits_value 0 ds));
    try lia.
  - rewrite Hp. cbn [mbind option_bind is_error].
    destruct (Z.eqb_spec (vsize (ch_e :: r)) 0).
    { vsize in e. pose proof (vsize_nonneg r). lia. }
    pose proof (digits_value_mono 0 ds ltac:(done) Hds). cbn [andb].
    destruct neg; [|done]. apply signed_small. unfold int64_max in *. lia.
  - destruct Hp as (s & w & ->). done.
Qed.

(** ** Lists *)

Lemma idx_list_lookup toks buf off idx l i c :
  located_items toks buf (idx_list off idx l) l → l⟦i⟧ = Some c →
  ∃ x o, (idx_list off idx l)⟦i⟧ = Some x ∧ located toks buf o x c.
Proof.
  intros Hi Hc. pose proof (vget_Some_range _ _ _ Hc).
  rewrite <-(Z2Nat.id i) in Hc |- * by lia. rewrite vget_nat in Hc.
  setoid_rewrite vget_nat.
  destruct (Forall2_lookup_r _ _ _ _ _ Hi Hc) as (x & Hx & o & Ho). eauto.
Qed.

Lemma denotes_set_lookup n c i x :
  denotes n c →
  (∀ off, located (m_root_tokens n) (m_buffer n) off (m_token_idx n) c →
     0 ≤ i ∧ (idx_list (off + 1) (m_token_idx n + 1) (items c))⟦stride c * i⟧ = Some x) →
  denotes (set_lookup n i x) c.
Proof.
  intros (off & Hl & Hc) Hx. exists off. split; [done|]. destruct (Hx off Hl).
  by apply coherent_lookup.
Qed.

Lemma denotes_list_at n l i c :
  denotes n (CList l) → l⟦i⟧ = Some c →
  ∃ n' m, list_at n i = Some (n', m) ∧ denotes n' (CList l) ∧ denotes m c.
Proof.
  intros (off & Hl & Hc) Hi. pose proof (vget_Some_range _ _ _ Hi).
  destruct (located_container _ _ _ _ _ Hl I) as [Hs Hit].
  destruct (idx_list_lookup _ _ _ _ _ _ _ Hit Hi) as (x & o & Hx & Ho).
  cbn [stride items] in *.
  pose proof (lookup_start_spec _ 1 n _ i x eq_refl Hs Hc ltac:(lia)) as Hls.
  unfold list_at. destruct (lookup_start n i) as [token item].
  rewrite !Z.mul_1_l in Hls. rewrite (Hls Hx). cbn [mbind option_bind].
  exists (set_lookup n i x), (child n x). split; [done|]. split.
  - exists off. split; [done|]. apply coherent_lookup; cbn [stride items]; [done|lia|].
    by rewrite Z.mul_1_l.
  - by eapply child_denotes.
Qed.

Lemma denotes_list_size n l :
  denotes n (CList l) →
  ∃ n', list_size n = Some (n', vsize l) ∧ denotes n' (CList l).
Proof.
  intros (off & Hl & Hc). unfold list_size.
  destruct (located_container _ _ _ _ _ Hl I) as [Hs _]. cbn [stride items] in *.
  destruct (Z.eqb_spec (m_size n) (-1)) as [Hm|Hm]; cbn [negb].
  - pose proof (located_range _ _ _ _ _ Hl).
    pose proof (count_start_spec _ 1 n _ eq_refl Hs Hc ltac:(lia)) as Hct.
    rewrite Z.mul_1_r in Hct.
    destruct (if negb (m_last_index n =? -1) then _ else _) as [token ret].
    rewrite Hct, idx_list_size. cbn [mbind option_bind].
    eexists. split; [done|]. exists off. split; [done|].
    apply coherent_size; cbn [stride items]; [done|]. by rewrite idx_list_size, Z.mul_1_r.
  - exists n. split; [|by exists off]. destruct Hc as [[?|Hz] _]; [done|].
    rewrite idx_list_size, Z.mul_1_r in Hz. by rewrite Hz.
Qed.

(** ** Dictionaries *)

Lemma flat_size l : vsize (flat l) = 2 * vsize l.
Proof. unfold flat. induction l as [|[k v] l IH]; [done|]. cbn. vsize. Qed.

Lemma flat_lookup l i k v :
  l⟦i⟧ = Some (k, v) → (flat l)⟦2 * i⟧ = Some (CStr k) ∧ (flat l)⟦2 * i + 1⟧ = Some v.
Proof.
  intros Hi. pose proof (vget_Some_range _ _ _ Hi).
  revert i Hi H. induction l as [|[k' v'] l IH]; intros i Hi Hr; [vsize in Hr; lia|].
  change (flat ((k', v') :: l)) with ([CStr k'; v'] ++ flat l).
  destruct (decide (i = 0)) as [->|Hne].
  - cbn in Hi. by injection Hi as -> ->.
  - change ((k', v') :: l) with ([(k', v')] ++ l) in Hi, Hr.
    rewrite vget_app_r in Hi by (unfold vsize; simpl; lia).
    rewrite !vget_app_r by (unfold vsize; simpl; lia).
    change (vsize [(k', v')]) with 1 in Hi. change (vsize [CStr k'; v']) with 2.
    vsize in Hr. change (vsize [(k', v')]) with 1 in Hr.
    destruct (IH (i - 1)) as [H1 H2]; [done|lia|]. split.
    + rewrite <-H1. f_equal. lia.
    + rewrite <-H2. f_equal. lia.
Qed.

Lemma denotes_dict_at n l i k v :
  denotes n (CDict l) → l⟦i⟧ = Some (k, v) →
  ∃ n' m, dict_at n i = Some (n', (content k, m)) ∧ denotes n' (CDict l) ∧ denotes m v.
Proof.
  intros (off & Hl & Hc) Hi. pose proof (vget_Some_range _ _ _ Hi).
  destruct (located_container _ _ _ _ _ Hl I) as [Hs Hit].
  destruct (flat_lookup _ _ _ _ Hi) as [Hk Hv].
  destruct (idx_list_lookup _ _ _ _ _ _ _ Hit Hk) as (x & o & Hx & Ho).
  destruct (idx_list_lookup _ _ _ _ _ _ _ Hit Hv) as (y & o' & Hy & Ho').
  cbn [stride items] in *.
  pose proof (lookup_start_spec _ 2 n _ i x eq_refl Hs Hc ltac:(lia) Hx) as Hls.
  destruct (located_string _ _ _ _ _ Ho) as (t & sz & Ht & _ & Hnext & _).
  assert (Hxy : y = x + next_item t).
  { rewrite <-(Z2Nat.id (2 * i)), vget_nat in Hx by lia.
    pose proof (siblings_drop _ _ _ _ _ Hs Hx) as Hd.
    replace (2 * i + 1) with (Z.of_nat (S (Z.to_nat (2 * i)))) in Hy by lia.
    rewrite vget_nat in Hy. rewrite (drop_S _ _ _ Hx) in Hd.
    inversion Hd as [|? t' ? Ht' _ _ Hd']; subst. rewrite Ht in Ht'. injection Ht' as <-.
    assert (Hy' : drop (S (Z.to_nat (2 * i))) (idx_list (off + 1) (m_token_idx n + 1) (flat l))
      !! 0%nat = Some y) by (by rewrite lookup_drop, Nat.add_0_r).
    destruct (drop _ _) as [|y' ys]; [done|]. injection Hy' as ->.
    by inversion Hd'. }
  unfold dict_at. destruct (lookup_start n i) as [token item].
  rewrite dict_skip_list_skip.
  replace (Z.to_nat (i - item) + Z.to_nat (i - item))%nat
    with (Z.to_nat (2 * (i - item))) by lia.
  rewrite Hls. cbn [mbind option_bind].
  assert (Hroot : ∀ b : bool, m_root_tokens (if b then set_lookup n i x else n) = m_root_tokens n)
    by by intros [].
  assert (Hch : ∀ (b : bool) z, child (if b then set_lookup n i x else n) z = child n z)
    by by intros [].
  rewrite Hroot, Ht. cbn [mbind option_bind]. rewrite !Hch.
  destruct (located_string_value (child n x) o k Ho) as [_ ->]. cbn [mbind option_bind].
  eexists _, _. split; [done|]. split.
  - exists off. destruct (0 <? i); [|done]. split; [done|].
    apply coherent_lookup; cbn [stride items]; [done|lia|done].
  - rewrite <-Hxy. by eapply child_denotes.
Qed.

Lemma denotes_dict_size n l :
  denotes n (CDict l) →
  ∃ n', dict_size n = Some (n', vsize l) ∧ denotes n' (CDict l).
Proof.
  intros (off & Hl & Hc). unfold dict_size.
  destruct (located_container _ _ _ _ _ Hl I) as [Hs _]. cbn [stride items] in *.
  destruct (Z.eqb_spec (m_size n) (-1)) as [Hm|Hm]; cbn [negb].
  - pose proof (located_range _ _ _ _ _ Hl).
    pose proof (count_start_spec _ 2 n _ eq_refl Hs Hc ltac:(lia)) as Hct.
    destruct (if negb (m_last_index n =? -1) then _ else _) as [token ret].
    rewrite Hct, idx_list_size, flat_size. cbn [mbind option_bind].
    rewrite (Z.mul_comm 2), Z.quot_mul by lia.
    eexists. split; [done|]. exists off. split; [done|].
    apply coherent_size; cbn [stride items]; [done|]. rewrite idx_list_size, flat_size. lia.
  - exists n. split; [|by exists off]. destruct Hc as [[?|Hz] _]; [done|].
    rewrite idx_list_size, flat_size in Hz. replace (vsize l) with (m_size n) by lia. done.
Qed.

(** the value of the first key that equals [key] *)
Fixpoint find_pair (key : list Z) (l : list (bstr * cst)) : option cst :=
  match l with
  | [] => None
  | (k, v) :: l => if decide (key = content k) then Some v else find_pair key l
  end.

Lemma find_key_spec toks buf key l i idxs fuel :
  siblings toks i idxs → located_items toks buf idxs (flat l) →
  (length idxs < fuel)%nat →
  ∃ r, find_key toks buf key fuel i = Some r ∧
    match find_pair key l with
    | Some v => ∃ x off, r = Some x ∧ located toks buf off x v ∧
        ∃ j, idxs !! j = Some x ∧ flat l !! j = Some v
    | None => r = None
    end.
Proof.
  revert i idxs fuel. induction l as [|[k v] l IH]; intros i idxs fuel Hs Hit Hf.
  - inversion Hit; subst. inversion Hs as [? t Ht Hty|]; subst.
    destruct fuel; [simpl in Hf; lia|]. cbn [find_key]. rewrite Ht. cbn [mbind option_bind].
    rewrite decide_True by done. by exists None.
  - inversion Hit as [|i1 c1 idxs1 l1 (o1 & Hk) Hit1]; subst.
    inversion Hit1 as [|i2 c2 idxs2 l2 (o2 & Hv) Hit2]; subst.
    inversion Hs as [|? t1 ? Ht1 Hty1 Hn1 Hs1]; subst.
    inversion Hs1 as [|? t2 ? Ht2 Hty2 Hn2 Hs2]; subst.
    destruct fuel; [simpl in Hf; lia|]. cbn [find_key find_pair].
    destruct (located_string _ _ _ _ _ Hk) as (t & sz & Ht & Hty & _ & Hsz & Hlen & _ & Hspan).
    rewrite Ht in Ht1. injection Ht1 as <-. rewrite Ht. cbn [mbind option_bind].
    rewrite decide_False by congruence. rewrite Hsz. cbn [mbind option_bind].
    assert (Hrest : ∃ r, find_key toks buf key fuel (i1 + next_item t + next_item t2) = Some r ∧
      match find_pair key l with
      | Some v0 => ∃ x off, r = Some x ∧ located toks buf off x v0 ∧
          ∃ j, (i1 :: i1 + next_item t :: idxs2) !! j = Some x ∧ flat ((k, v) :: l) !! j = Some v0
      | None => r = None
      end).
    { destruct (IH (i1 + next_item t + next_item t2) idxs2 fuel) as (r & Hr & Hm); [done|done|simpl in Hf; lia|].
      exists r. split; [done|]. destruct (find_pair key l); [|done].
      destruct Hm as (x & o & -> & Ho & j & Hj). exists x, o. split; [done|]. split; [done|]. by exists (S (S j)). }
    rewrite Hlen. destruct (Z.eqb_spec (vsize key) (vsize (content k))) as [He|He].
    + rewrite Hspan. cbn [mbind option_bind]. destruct (decide (key = content k)) as [->|Hne].
      * rewrite bool_decide_true by done. eexists. split; [done|]. exists (i1 + next_item t), o2.
        split; [done|]. split; [done|]. by exists 1%nat.
      * rewrite bool_decide_false by done. by rewrite Ht2.
    + cbn [mbind option_bind]. rewrite decide_False by congruence. by rewrite Ht2.
Qed.

Lemma denotes_dict_find n l key :
  denotes n (CDict l) →
  ∃ m, dict_find n key = Some m ∧
    match find_pair key l with
    | Some v => denotes m v
    | None => m = default_node
    end.
Proof.
  intros (off & Hl & Hc). unfold dict_find.
  destruct (located_container _ _ _ _ _ Hl I) as [Hs Hit].
  destruct (find_key_spec _ _ key l _ _ (S (length (m_root_tokens n))) Hs Hit) as (r & -> & Hr).
  { pose proof (siblings_bound _ _ _ Hs). pose proof (located_range _ _ _ _ _ Hl).
    unfold vsize in *. lia. }
  cbn [mbind option_bind]. eexists. split; [done|].
  destruct (find_pair key l) as [v|]; [|by subst].
  destruct Hr as (x & o & -> & Ho & _). by eapply child_denotes.
Qed.

Lemma denotes_dict_find_type ty n l key :
  denotes n (CDict l) →
  ∃ m, dict_find_type ty n key = Some m ∧
    match find_pair key l with
    | Some v => if decide (cst_type v = ty) then denotes m v else m = default_node
    | None => m = default_node
    end.
Proof.
  intros Hn. destruct (denotes_dict_find n l key Hn) as (m & Hm & Hr).
  unfold dict_find_type. rewrite Hm. cbn [mbind option_bind].
  destruct (find_pair key l) as [v|].
  - rewrite (denotes_type _ _ Hr). cbn [mbind option_bind]. eexists. split; [done|].
    by destruct (decide (cst_type v = ty)).
  - subst m. cbn. eexists. split; [done|]. by destruct (decide (tok_none = ty)).
Qed.

(** the root that a successful parse returns *)
Lemma success_denotes buffer c r :
  buffer = print c ++ r → cst_ok c → vsize buffer ≤ max_offset →
  let res := Result (tokens 0 c ++ [token4 (vsize (print c)) 0 tok_end 0]) 0 (vsize (print c))
    no_error None in
  denotes (node_of buffer res) c.
Proof.
  intros Hb Hc Hmax res. exists 0. split; [|by split; left].
  exists [], (token4 (vsize (print c)) 0 tok_end 0), [], [], r. split_and!; try done.
  unfold token4; cbn [offset]. rewrite uint29_small; [done|].
  rewrite Hb, vsize_app in Hmax. pose proof (vsize_nonneg r).
  pose proof (vsize_nonneg (print c)). lia.
Qed.
