(* ===== verification/BdecodeWalk.v ===== *)
(** The functions of bdecode.cpp that walk a whole item: [has_soft_error]
    against the definition of a canonical encoding, [line_longer_than] against
    the length of the line, and [print_entry], which always returns. *)

From Stdlib Require Import Sorting.Sorted.
From S2P Require Import Prelude.
From S2P Require Import StrMap.
From S2P Require Import Bdecode.
From S2P Require Import BencodeGrammar.
From S2P Require Import BdecodeCorrect.
From S2P Require Import BdecodeNode.
From S2P Require Import BdecodeNodeCorrect.

(** * Soft errors *)

(** the first pair of neighbouring keys that is not strictly increasing *)
Fixpoint key_error (k : list Z) (ks : list (list Z)) : option (list Z) :=
  match ks with
  | [] => None
  | k' :: ks =>
      match lex_compare k k' with
      | Lt => key_error k' ks
      | Eq => Some duplicate_key
      | Gt => Some unsorted_key
      end
  end.

Definition leading_zero (ds : list Z) : bool :=
  match ds with c :: _ :: _ => c =? ch_0 | _ => false end.

Definition first_error {A} (f : A → option (list Z)) : list A → option (list Z) :=
  fix go l := match l with
              | [] => None
              | x :: l => match f x with Some e => Some e | None => go l end
              end.

(** the error of an item: of its parts first, then of the order of its keys.
    The sign of a negative number hides a leading zero *)
Fixpoint soft_error (c : cst) : option (list Z) :=
  match c with
  | CInt neg ds => if negb neg && leading_zero ds then Some leading_zero_int else None
  | CStr s => if leading_zero (len_digits s) then Some leading_zero_str else None
  | CList l => first_error soft_error l
  | CDict l =>
      match first_error (λ kv, if leading_zero (len_digits kv.1) then Some leading_zero_str
                               else soft_error kv.2) l with
      | Some e => Some e
      | None => match l with
                | [] => None
                | kv :: l => key_error (content kv.1) (map (λ kv, content kv.1) l)
                end
      end
  end.

Lemma first_error_flat l :
  first_error (λ kv, if leading_zero (len_digits kv.1) then Some leading_zero_str
                     else soft_error kv.2) l = first_error soft_error (flat l).
Proof.
  unfold flat. induction l as [|[k v] l IH]; [done|]. simpl.
  destruct (leading_zero (len_digits k)); [done|].
  destruct (soft_error v); [done|]. apply IH.
Qed.

(** [memcmp] of the common length and the comparison of the lengths decide the
    order *)
Lemma lex_compare_memcmp a b :
  let m := Z.to_nat (Z.min (vsize a) (vsize b)) in
  let cmp := memcmp (take m a) (take m b) in
  match lex_compare a b with
  | Lt => cmp < 0 ∨ (cmp = 0 ∧ vsize a < vsize b)
  | Eq => cmp = 0 ∧ vsize a = vsize b
  | Gt => 0 < cmp ∨ (cmp = 0 ∧ vsize b < vsize a)
  end.
Proof.
  revert b. induction a as [|x a IH]; intros [|y b]; cbn zeta.
  - by cbn.
  - pose proof (vsize_nonneg b). rewrite vsize_cons, vsize_nil, Z.min_l by lia.
    change (Z.to_nat 0) with 0%nat. cbn [take memcmp lex_compare]. lia.
  - pose proof (vsize_nonneg a). rewrite vsize_cons, vsize_nil, Z.min_r by lia.
    change (Z.to_nat 0) with 0%nat. cbn [take memcmp lex_compare]. lia.
  - specialize (IH b). cbn zeta in IH. rewrite !vsize_cons.
    replace (Z.to_nat (Z.min (1 + vsize a) (1 + vsize b)))
      with (S (Z.to_nat (Z.min (vsize a) (vsize b)))).
    2: { pose proof (vsize_nonneg a). pose proof (vsize_nonneg b). lia. }
    cbn [take memcmp lex_compare].
    destruct (Z.ltb_spec x y); [lia|]. destruct (Z.ltb_spec y x); [lia|].
    destruct (lex_compare a b); lia.
Qed.

Lemma span_take buf a n s m :
  span buf a n = Some s → 0 ≤ m ≤ n → span buf a m = Some (take (Z.to_nat m) s).
Proof.
  unfold span.
  destruct (Z.leb_spec 0 a), (Z.leb_spec 0 n), (Z.leb_spec (a + n) (vsize buf)); try done.
  intros [= <-] Hm.
  destruct (Z.leb_spec 0 m), (Z.leb_spec (a + m) (vsize buf)); try lia.
  cbn [andb]. rewrite take_take. do 2 f_equal. lia.
Qed.

Section soft.
Context (toks : list bdecode_token) (buf : list Z).

Lemma tokens_list_cons off c l :
  tokens_list off (c :: l) = tokens off c ++ tokens_list (off + vsize (print c)) l.
Proof. reflexivity. Qed.

Lemma string_token_end off off' i k v l x :
  located toks buf off i (CStr k) → x = i + vsize (tokens_list off' (CStr k :: v :: l)) →
  ∃ t, toks⟦i⟧ = Some t ∧ next_item t = 1 ∧ i < x.
Proof.
  intros Hk ->. destruct (located_string _ _ _ _ _ Hk) as (t & _ & Ht & _ & Hn & _).
  exists t. split_and!; try done. rewrite tokens_list_cons. cbn [tokens].
  vsize. match goal with |- context [vsize ?l] => pose proof (vsize_nonneg l) end. lia.
Qed.

Lemma check_keys_spec off i k v l e fuel te :
  located_items toks buf (idx_list off i (flat ((k, v) :: l))) (flat ((k, v) :: l)) →
  e = i + vsize (tokens_list off (flat ((k, v) :: l))) →
  toks⟦e⟧ = Some te → type te = tok_end → (length l < fuel)%nat →
  check_keys toks buf e fuel i =
    Some (key_error (content k) (map (λ kv, content kv.1) l)).
Proof.
  revert off i k v fuel. induction l as [|[k2 v2] l IH];
    intros off i k v fuel Hit He Hte Htye Hf;
    (destruct fuel as [|fuel]; [simpl in Hf; lia|]).
  all: cbn in Hit; inversion Hit as [|? ? ? ? (o1 & Hk) Hit1]; subst.
  all: inversion Hit1 as [|? ? ? ? (o2 & Hv) Hit2]; subst.
  all: destruct (located_string _ _ _ _ _ Hk)
    as (t1 & sz1 & Ht1 & Hty1 & Hn1 & Hsz1 & Hlen1 & Ho1 & Hspan1).
  all: destruct (located_token _ _ _ _ _ Hv) as (tv1 & Htv1 & Hov1 & _ & Hnv1 & _).
  all: change (vsize [str_token off k]) with 1 in *.
  all: assert (Hsz1' : offset tv1 - offset t1 = sz1)
    by (unfold token_source_span in Hsz1; rewrite Ht1 in Hsz1; cbn in Hsz1;
        rewrite Htv1 in Hsz1; cbn in Hsz1; congruence).
  all: cbn [check_keys]; rewrite Ht1; cbn [mbind option_bind]; rewrite Hn1, Htv1;
    cbn [mbind option_bind]; rewrite Hnv1.
  all: rewrite (tokens_length o2 (off + vsize (print_str k))) in *.
  - set (e := i + vsize _) in *.
    assert (i + 1 + vsize (tokens (off + vsize (print_str k)) v) = e) as ->.
    { subst e. cbn. rewrite app_nil_r. vsize. }
    by rewrite Z.eqb_refl.
  - inversion Hit2 as [|? ? ? ? (o3 & Hk2) Hit3]; subst.
    inversion Hit3 as [|? ? ? ? (o4 & Hv2) Hit4]; subst.
    destruct (located_string _ _ _ _ _ Hk2)
      as (t2 & sz2 & Ht2 & Hty2 & Hn2 & Hsz2 & Hlen2 & Ho2 & Hspan2).
    destruct (located_token _ _ _ _ _ Hv2) as (tv2 & Htv2 & Hov2 & _ & Hnv2 & _).
    set (i2 := i + 1 + vsize (tokens (off + vsize (print_str k)) v)) in *.
    set (e := i + vsize _) in *.
    destruct (Z.eqb_spec i2 e) as [Heq|_].
    { exfalso. rewrite Heq in Ht2. rewrite Hte in Ht2. congruence. }
    rewrite Ht2. cbn [mbind option_bind]. rewrite Hn2.
    change (vsize [str_token _ k2]) with 1 in *. rewrite Htv2. cbn [mbind option_bind].
    assert (Hsz2' : offset tv2 - offset t2 = sz2)
      by (unfold token_source_span in Hsz2; rewrite Ht2 in Hsz2; cbn in Hsz2;
          rewrite Htv2 in Hsz2; cbn in Hsz2; congruence).
    replace (offset tv1 - (offset t1 + start_offset t1)) with (vsize (content k)) by lia.
    replace (offset tv2 - (offset t2 + start_offset t2)) with (vsize (content k2)) by lia.
    pose proof (vsize_nonneg (content k)). pose proof (vsize_nonneg (content k2)).
    rewrite (span_take _ _ _ _ _ Hspan1) by lia. cbn [mbind option_bind].
    rewrite (span_take _ _ _ _ _ Hspan2) by lia. cbn [mbind option_bind].
    pose proof (lex_compare_memcmp (content k) (content k2)) as Hcmp. cbn zeta in Hcmp.
    set (cmp := memcmp _ _) in *. cbn [map key_error fst].
    destruct (Z.ltb_spec 0 cmp), (Z.eqb_spec cmp 0),
      (Z.ltb_spec (vsize (content k2)) (vsize (content k))),
      (Z.eqb_spec (vsize (content k)) (vsize (content k2))); cbn [andb orb];
      destruct (lex_compare (content k) (content k2)); try done; try lia.
    all: eapply (IH (off + vsize (print_str k) + vsize (print v)) i2 k2 v2);
      [exact Hit2| |done|done|simpl in Hf; lia].
    all: subst e i2; cbn; rewrite ?vsize_cons, !vsize_app, ?vsize_cons, ?vsize_app; lia.
Qed.
End soft.

Section soft_loop.
Context (toks : list bdecode_token) (buf : list Z).

(** what the loop does behind an item *)
Definition after (fuel : nat) (i : Z) (stack : list Z) : option (option (list Z)) :=
  match stack with
  | [] => Some None
  | _ => soft_error_loop toks buf fuel i stack
  end.

Definition walks (c : cst) : Prop := ∀ off i stack fuel,
  located toks buf off i c →
  soft_error_loop toks buf (length (tokens off c) + fuel) i stack =
    match soft_error c with
    | Some e => Some (Some e)
    | None => after fuel (i + vsize (tokens off c)) stack
    end.

Lemma walks_items l off i stack fuel :
  Forall walks l → located_items toks buf (idx_list off i l) l → stack ≠ [] →
  soft_error_loop toks buf (length (tokens_list off l) + fuel) i stack =
    match first_error soft_error l with
    | Some e => Some (Some e)
    | None => soft_error_loop toks buf fuel (i + vsize (tokens_list off l)) stack
    end.
Proof.
  intros Hw. revert off i. induction Hw as [|c l Hc _ IH]; intros off i Hit Hst.
  - cbn. by rewrite Z.add_0_r.
  - cbn in Hit. inversion Hit as [|? ? ? ? (o & Hl) Hit']; subst.
    rewrite tokens_list_cons, length_app, <-Nat.add_assoc.
    pose proof (tokens_length o off c) as Hlen.
    replace (length (tokens off c)) with (length (tokens o c)) by (unfold vsize in Hlen; lia).
    rewrite (Hc o i stack _ Hl). cbn [first_error].
    destruct (soft_error c) as [e|]; [done|].
    unfold after. destruct stack as [|p stack]; [done|].
    rewrite Hlen, IH by done. destruct (first_error soft_error l); [done|].
    f_equal. vsize.
Qed.

Lemma located_byte off i c (k : nat) b :
  located toks buf off i c → print c !! k = Some b → buf⟦off + Z.of_nat k⟧ = Some b.
Proof.
  intros (pre & next & post & bpre & bpost & _ & _ & -> & <- & _) Hb.
  pose proof (vsize_nonneg bpre). rewrite vget_app_r by lia.
  replace (_ - _) with (Z.of_nat k) by lia. rewrite vget_nat.
  by apply lookup_app_l_Some.
Qed.

Lemma second_byte ds d post c1 :
  digit_list ds → numeric d = false → ds = c1 :: tail ds →
  ∃ c2, (ds ++ d :: post) !! 1%nat = Some c2 ∧
    negb (c2 =? d) = match tail ds with [] => false | _ => true end.
Proof.
  intros Hds Hd Hc. rewrite Hc in Hds |- *. cbn [tail].
  destruct (tail ds) as [|c2 ds']; cbn.
  - exists d. by rewrite Z.eqb_refl.
  - exists c2. split; [done|]. apply negb_true_iff, Z.eqb_neq. intros ->.
    apply Forall_cons_1 in Hds as [_ Hds]. apply Forall_cons_1 in Hds as [Hc2 _]. congruence.
Qed.

Lemma located_cst_ok off i c : located toks buf off i c → cst_ok c.
Proof. by intros (pre & next & post & bpre & bpost & _ & _ & _ & _ & _ & ? & _). Qed.

Lemma walks_int neg ds : walks (CInt neg ds).
Proof.
  intros off i stack fuel Hl. cbn [tokens length Nat.add].
  destruct (located_token _ _ _ _ _ Hl) as (t & Ht & Ho & Hty & _).
  pose proof (located_cst_ok _ _ _ Hl) as Hok. inversion Hok as [? ? Hds Hn| | |]; subst.
  cbn [soft_error_loop]. rewrite Ht. cbn [mbind option_bind]. rewrite Hty. cbn [cst_type].
  cbn [soft_error]. unfold after.
  destruct ds as [|c1 ds]; [vsize in Hn; lia|].
  assert (Hb : ∀ k b, (sign neg ++ (c1 :: ds) ++ [ch_e]) !! k = Some b →
    buf⟦offset t + 1 + Z.of_nat k⟧ = Some b).
  { intros k b Hk. rewrite <-(located_byte _ _ _ (S k) b Hl) by done. f_equal. lia. }
  destruct neg.
  - pose proof (Hb 0%nat ch_minus eq_refl) as H0. rewrite Z.add_0_r in H0. by rewrite H0.
  - pose proof (Hb 0%nat c1 eq_refl) as H0. rewrite Z.add_0_r in H0. rewrite H0.
    cbn [mbind option_bind].
    destruct (second_byte (c1 :: ds) ch_e [] c1 Hds numeric_e eq_refl) as (c2 & H2 & He).
    pose proof (Hb 1%nat c2 H2) as H1. replace (_ + 1 + Z.of_nat 1) with (offset t + 2) in H1 by lia.
    cbn [tail] in He. unfold leading_zero. cbn [negb andb].
    destruct (Z.eqb_spec c1 ch_0).
    + rewrite H1. cbn [mbind option_bind]. rewrite He. by destruct ds.
    + cbn [mbind option_bind]. by destruct ds.
Qed.

Lemma walks_str s : walks (CStr s).
Proof.
  intros off i stack fuel Hl. cbn [tokens length Nat.add].
  destruct (located_token _ _ _ _ _ Hl) as (t & Ht & Ho & Hty & _).
  pose proof (located_cst_ok _ _ _ Hl) as Hok. inversion Hok as [|? (Hds & Hn & _)| |]; subst.
  cbn [soft_error_loop]. rewrite Ht. cbn [mbind option_bind]. rewrite Hty. cbn [cst_type].
  cbn [soft_error]. unfold after.
  assert (Hb : ∀ k b, print_str s !! k = Some b → buf⟦offset t + Z.of_nat k⟧ = Some b).
  { intros k b Hk. by apply (located_byte _ _ _ k b Hl). }
  unfold print_str in Hb.
  destruct (len_digits s) as [|c1 ds] eqn:Hlen; [vsize in Hn; lia|].
  pose proof (Hb 0%nat c1 eq_refl) as H0. rewrite Z.add_0_r in H0. rewrite H0.
  cbn [mbind option_bind].
  destruct (second_byte (c1 :: ds) ch_colon (content s) c1 Hds numeric_colon eq_refl)
    as (c2 & H2 & He).
  pose proof (Hb 1%nat c2 H2) as H1. change (Z.of_nat 1) with 1 in H1.
  cbn [tail] in He. unfold leading_zero.
  destruct (Z.eqb_spec c1 ch_0).
  - rewrite H1. cbn [mbind option_bind]. rewrite He. by destruct ds.
  - cbn [mbind option_bind]. by destruct ds.
Qed.

(** the end token of a container and the test of its keys *)
Lemma walks_container c keys :
  is_container c → Forall walks (items c) →
  (∀ off i e te, located toks buf off i c → e = i + vsize (tokens off c) - 1 →
     toks⟦e⟧ = Some te → type te = tok_end →
     (if bool_decide (cst_type c = tok_dict) && negb (e =? i + 1)
      then check_keys toks buf e (S (length toks)) (i + 1) else Some None) = Some keys) →
  soft_error c = match first_error soft_error (items c) with
                 | Some e => Some e
                 | None => keys
                 end →
  walks c.
Proof.
  intros Hc Hw Hkeys Hsoft off i stack fuel Hl.
  destruct (located_container _ _ _ _ _ Hl Hc) as [_ Hit].
  destruct (located_token _ _ _ _ _ Hl) as (t & Ht & Ho & Hty & _).
  pose proof (located_range _ _ _ _ _ Hl) as Hr.
  destruct (container_eq c off Hc) as (hd & ch & Hp & Htk).
  set (te := token4 _ _ _ _) in Htk.
  assert (He : toks⟦i + vsize (tokens off c) - 1⟧ = Some te).
  { destruct Hl as (pre & next & post & bpre & bpost & -> & <- & _). rewrite Htk.
    replace (pre ++ _ ++ _) with ((pre ++ hd :: tokens_list (off + 1) (items c)) ++ te :: next :: post).
    2: { cbn. by rewrite <-!app_assoc. }
    replace (_ - 1) with (vsize (pre ++ hd :: tokens_list (off + 1) (items c))) by vsize.
    apply vget_middle. }
  specialize (Hkeys off i _ te Hl eq_refl He eq_refl).
  assert (Hlen : length (tokens off c) = S (length (tokens_list (off + 1) (items c)) + 1)).
  { rewrite Htk. simpl. rewrite length_app. done. }
  assert (Hvl : vsize (tokens off c) = vsize (tokens_list (off + 1) (items c)) + 2)
    by (unfold vsize; lia).
  rewrite Hlen. cbn [soft_error_loop Nat.add]. rewrite Ht. cbn [mbind option_bind].
  rewrite Hty, <-Nat.add_assoc.
  rewrite Hsoft.
  transitivity (soft_error_loop toks buf
    (length (tokens_list (off + 1) (items c)) + (1 + fuel)) (i + 1) (i :: stack)).
  { by destruct c. }
  rewrite walks_items by done. destruct (first_error soft_error (items c)); [done|].
  replace (i + 1 + _) with (i + vsize (tokens off c) - 1) by lia.
  cbn [Nat.add soft_error_loop]. rewrite He. cbn [mbind option_bind].
  change (type te) with tok_end. cbn iota. rewrite Ht. cbn [mbind option_bind].
  rewrite Hty, Hkeys. cbn [mbind option_bind]. destruct keys; [done|]. unfold after.
  by replace (i + vsize (tokens off c) - 1 + 1) with (i + vsize (tokens off c)) by lia.
Qed.

Lemma walks_all c : walks c.
Proof.
  induction c as [neg ds|s|l IH|l IH] using cst_rect'.
  - apply walks_int.
  - apply walks_str.
  - apply (walks_container _ None); try done. simpl. by destruct (first_error soft_error l).
  - apply (walks_container _ (match l with [] => None | kv :: l =>
      key_error (content kv.1) (map (λ kv, content kv.1) l) end)); try done.
    + cbn [items]. unfold flat. induction IH as [|[k v] l Hv _ IHl]; [constructor|].
      cbn. constructor; [apply walks_str|]. by constructor.
    + intros off i e te Hl -> Hte Htye. rewrite bool_decide_true by done. cbn [andb].
      destruct (located_container _ _ _ _ _ Hl I) as [Hs Hit]. cbn [items] in *.
      pose proof (located_range _ _ _ _ _ Hl) as Hr.
      rewrite tokens_dict_eq in *. unfold container in *. rewrite tokens_pairs_flat in *.
      autorewrite with vsize in *.
      destruct l as [|[k v] l].
      { change (vsize (tokens_list _ (flat []))) with 0.
        by destruct (Z.eqb_spec (i + (1 + (0 + (1 + 0))) - 1) (i + 1)); [|lia]. }
      destruct (Z.eqb_spec (i + (1 + (vsize (tokens_list (off + 1) (flat ((k, v) :: l))) + (1 + 0))) - 1)
                  (i + 1)) as [Heq|_]; cbn [negb].
      { exfalso. change (flat ((k, v) :: l)) with (CStr k :: v :: flat l) in Heq.
        rewrite tokens_list_cons in Heq. cbn [tokens] in Heq. autorewrite with vsize in Heq.
        match type of Heq with context [tokens_list ?a ?b] =>
          pose proof (vsize_nonneg (tokens_list a b)) end. lia. }
      apply (check_keys_spec _ _ (off + 1) _ k v l _ _ te); [exact Hit| |exact Hte|done|].
      * lia.
      * pose proof (siblings_bound _ _ _ Hs) as Hb. rewrite idx_list_size, flat_size in Hb.
        unfold vsize in *. simpl in Hb. lia.
    + cbn [items soft_error]. rewrite first_error_flat.
      by destruct (first_error soft_error (flat l)).
Qed.
End soft_loop.

(** what bencoding calls canonical, as far as [has_soft_error] looks: no
    leading zero in the digits of a number that has no sign or in the length of
    a string, and strictly increasing keys *)
Inductive canonical : cst → Prop :=
| canonical_int neg ds : neg = true ∨ leading_zero ds = false → canonical (CInt neg ds)
| canonical_str s : leading_zero (len_digits s) = false → canonical (CStr s)
| canonical_list l : Forall canonical l → canonical (CList l)
| canonical_dict l :
    Forall (λ kv, leading_zero (len_digits kv.1) = false ∧ canonical kv.2) l →
    Sorted (λ a b, lex_compare a b = Lt) (map (λ kv, content kv.1) l) →
    canonical (CDict l).

Lemma first_error_None {A} (f : A → option (list Z)) l :
  first_error f l = None ↔ Forall (λ x, f x = None) l.
Proof.
  induction l as [|x l [IH1 IH2]]; simpl; [by split|].
  pose proof (Forall_cons_iff (λ x, f x = None) x l) as [H1 H2].
  destruct (f x) eqn:E; split; try done; intros H.
  - by apply H1 in H as [? _]; congruence.
  - apply H2. auto.
  - apply H1 in H as [_ ?]. auto.
Qed.

Lemma key_error_None k ks :
  key_error k ks = None ↔ Sorted (λ a b, lex_compare a b = Lt) (k :: ks).
Proof.
  revert k. induction ks as [|k' ks IH]; intros k; simpl.
  - split; [intros _; by repeat constructor|done].
  - split.
    + destruct (lex_compare k k') eqn:E; try done. intros H%IH. by constructor; [|constructor].
    + intros H. apply Sorted_inv in H as [H E%HdRel_inv]. rewrite E. by apply IH.
Qed.

Lemma soft_error_None c : soft_error c = None ↔ canonical c.
Proof.
  induction c as [neg ds|s|l IH|l IH] using cst_rect'; cbn [soft_error].
  - split.
    + intros H. constructor. destruct neg; [by left|right]. by destruct (leading_zero ds).
    + intros H. inversion H as [? ? Hz| | |]; subst.
      destruct Hz as [-> | ->]; [done|by rewrite andb_false_r].
  - split; [intros H; constructor; by destruct (leading_zero _)|].
    intros H. inversion H as [| ? E| |]; subst. by rewrite E.
  - rewrite first_error_None. assert (Hl : Forall (λ x, soft_error x = None) l ↔ Forall canonical l).
    { induction IH as [|x l Hx _ IHl]; [done|]. by rewrite !Forall_cons_iff, Hx, IHl. }
    rewrite Hl. split; [by constructor|]. intros H. by inversion H.
  - pose proof (first_error_None (λ kv : bstr * cst,
      if leading_zero (len_digits kv.1) then Some leading_zero_str else soft_error kv.2) l) as Hf.
    assert (Hl : Forall (λ kv : bstr * cst, (if leading_zero (len_digits kv.1)
        then Some leading_zero_str else soft_error kv.2) = None) l ↔
      Forall (λ kv, leading_zero (len_digits kv.1) = false ∧ canonical kv.2) l).
    { clear Hf. induction IH as [|x l Hx _ IHl]; [done|]. rewrite !Forall_cons_iff, IHl, <-Hx.
      destruct (leading_zero (len_digits x.1)); naive_solver. }
    rewrite Hl in Hf. clear Hl IH.
    destruct (first_error _ l) as [e|] eqn:E.
    + split; [done|]. intros H. inversion H as [| | |? Hc]; subst. by apply Hf in Hc.
    + assert (Hc := proj1 Hf eq_refl). destruct l as [|kv l].
      { split; [|done]. intros _. constructor; [done|]. constructor. }
      rewrite key_error_None. split; [by constructor|]. intros H. by inversion H.
Qed.

Lemma denotes_soft_error n c size :
  denotes n c →
  has_soft_error n size =
    Some (match soft_error c with
          | Some e => (true, snprintf size e)
          | None => (false, [])
          end).
Proof.
  intros Hn. unfold has_soft_error. rewrite (denotes_type _ _ Hn). cbn [mbind option_bind].
  rewrite decide_False by by destruct c.
  destruct Hn as (off & Hl & _).
  pose proof (located_range _ _ _ _ _ Hl).
  replace (S (length (m_root_tokens n))) with
    (length (tokens off c) + (S (length (m_root_tokens n)) - length (tokens off c)))%nat
    by (unfold vsize in *; lia).
  rewrite (walks_all _ _ c off _ [] _ Hl). by destruct (soft_error c).
Qed.

(** * Printing *)

(** a loop over the items of a node: [J i s] is the accumulator before item
    [i], [R] the result of an early return *)
Lemma for_each_spec {S T} (size : bdecode_node → option (bdecode_node * Z)) body
    (k : Z) (I : bdecode_node → Prop) (J : Z → S → Prop) (R : T → Prop) :
  (∀ e, I e → ∃ e', size e = Some (e', k) ∧ I e') →
  (∀ e i s, I e → 0 ≤ i < k → J i s →
     ∃ e' r, body e i s = Some (e', r) ∧ I e' ∧
       match r with inl s => J (i + 1) s | inr r => R r end) →
  ∀ fuel e i s, I e → J i s → 0 ≤ i ≤ k → k - i < Z.of_nat fuel →
  ∃ e' r, for_each size body fuel e i s = Some (e', r) ∧ I e' ∧
    match r with inl s => J k s | inr r => R r end.
Proof.
  intros Hsize Hbody. induction fuel as [|fuel IH]; intros e i s He Hj Hi Hf; [lia|].
  cbn [for_each]. destruct (Hsize e He) as (e1 & -> & He1). cbn [mbind option_bind].
  destruct (Z.ltb_spec i k).
  - destruct (Hbody e1 i s He1 ltac:(lia) Hj) as (e2 & r & -> & He2 & Hr).
    cbn [mbind option_bind]. destruct r as [s'|r].
    + apply IH; try done; lia.
    + by exists e2, (inr r).
  - exists e1, (inl s). replace k with i by lia. done.
Qed.

Definition sum_by {A} (f : A → Z) (l : list A) : Z := foldr (λ x, Z.add (f x)) 0 l.

(** the length of an item on one line; a number that is not positive counts
    two *)
Fixpoint line_length (c : cst) : Z :=
  match c with
  | CInt neg ds => 2 + (if 0 <? int_of neg ds then vsize (dec_string (int_of neg ds)) else 0)
  | CStr s => 3 + vsize (content s)
  | CList l => 4 + sum_by (λ c, line_length c + 2) l
  | CDict l => 4 + sum_by (λ kv, 4 + vsize (content kv.1) + (line_length kv.2 + 1)) l
  end.

Lemma count_digits_spec fuel v n :
  v < 2 ^ Z.of_nat fuel →
  count_digits (S fuel) v n =
    Some (n + if 0 <? v then vsize (dec_digits fuel v []) else 0).
Proof.
  revert v n. induction fuel as [|fuel IH]; intros v n Hv.
  - cbn. simpl in Hv. destruct (Z.ltb_spec 0 v); [lia|]. f_equal; lia.
  - change (count_digits (S (S fuel)) v n)
      with (if 0 <? v then count_digits (S fuel) (Z.quot v 10) (n + 1) else Some n).
    destruct (Z.ltb_spec 0 v) as [Hpos|]; [|f_equal; lia].
    rewrite Z.quot_div_nonneg by lia.
    rewrite IH.
    2: { rewrite Nat2Z.inj_succ, Z.pow_succ_r in Hv by lia. apply Z.div_lt_upper_bound; lia. }
    cbn [dec_digits]. destruct (Z.eqb_spec v 0); [lia|].
    rewrite (dec_digits_acc _ _ [48 + v mod 10]), vsize_app.
    change (vsize [48 + v mod 10]) with 1.
    destruct (Z.ltb_spec 0 (v / 10)); f_equal; [lia|].
    assert (v / 10 = 0) as -> by (pose proof (Z.div_pos v 10); lia).
    replace (dec_digits fuel 0 []) with (@nil Z) by by destruct fuel. unfold vsize; simpl; lia.
Qed.

Lemma int_of_bound neg ds : digit_list ds → - int64_max ≤ int_of neg ds ≤ int64_max.
Proof.
  intros Hds. pose proof (digits_value_mono 0 ds ltac:(done) Hds). unfold int_of.
  assert (0 ≤ int64_max) by done.
  destruct (Z.ltb_spec int64_max (digits_value 0 ds)); [lia|]. destruct neg; lia.
Qed.

Lemma sum_by_take {A} (f : A → Z) (l : list A) (i : nat) x :
  l !! i = Some x → sum_by f (take (S i) l) = sum_by f (take i l) + f x.
Proof.
  revert i. induction l as [|y l IH]; intros [|i]; simpl; intros Hi; simplify_eq.
  - unfold sum_by; simpl; lia.
  - unfold sum_by in *; simpl. rewrite IH by done. lia.
Qed.

Lemma sum_by_nonneg {A} (f : A → Z) (l : list A) :
  (∀ x, 0 ≤ f x) → 0 ≤ sum_by f l.
Proof. intros Hf. unfold sum_by. induction l as [|x l IH]; simpl; [lia|]. specialize (Hf x). lia. Qed.

Lemma sum_by_take_le {A} (f : A → Z) (l : list A) (i : nat) :
  (∀ x, 0 ≤ f x) → sum_by f (take i l) ≤ sum_by f l.
Proof.
  intros Hf. rewrite <-(take_drop i l) at 2. unfold sum_by. rewrite foldr_app.
  fold (sum_by f (drop i l)). pose proof (sum_by_nonneg f (drop i l) Hf).
  induction (take i l) as [|x l' IH]; simpl; lia.
Qed.

Lemma line_length_nonneg c : 2 ≤ line_length c.
Proof.
  induction c as [neg ds|s|l IH|l IH] using cst_rect'; simpl.
  - destruct (0 <? int_of neg ds); [|lia]. pose proof (vsize_nonneg (dec_string (int_of neg ds))).
    lia.
  - pose proof (vsize_nonneg (content s)). lia.
  - enough (0 ≤ sum_by (λ c, line_length c + 2) l) by lia. unfold sum_by.
    induction IH; simpl; lia.
  - enough (0 ≤ sum_by (λ kv, 4 + vsize (content kv.1) + (line_length kv.2 + 1)) l) by lia.
    unfold sum_by. induction IH as [|[k v] l ? ? ?]; simpl in *; [lia|].
    pose proof (vsize_nonneg (content k)). lia.
Qed.

(** ** [line_longer_than] *)

Lemma line_list fuel n l limit :
  (∀ c m limit, c ∈ l → denotes m c →
     ∃ m', line_longer_than fuel m limit =
       Some (m', if limit <? line_length c then -1 else line_length c)) →
  denotes n (CList l) →
  ∃ n', line_longer_than (S fuel) n limit =
      Some (n', if limit <? line_length (CList l) then -1 else line_length (CList l)) ∧
    denotes n' (CList l).
Proof.
  intros IH Hn. cbn [line_longer_than]. rewrite (denotes_type _ _ Hn). cbn [mbind option_bind].
  cbn [cst_type].
  assert (Hpos : ∀ c, 0 ≤ line_length c + 2) by (intros c; pose proof (line_length_nonneg c); lia).
  pose proof (sum_by_nonneg _ l Hpos). cbn [line_length].
  destruct (Z.ltb_spec limit 4).
  { exists n. split; [|done]. destruct (Z.ltb_spec limit (4 + sum_by (λ c, line_length c + 2) l)).
    - done.
    - lia. }
  edestruct (for_each_spec list_size (λ e i line_len,
      '(e, c) ← list_at e i;
      '(_, ret) ← line_longer_than fuel c (limit - line_len);
      Some (e, if ret =? -1 then inr (-1) else inl (line_len + (ret + 2))))
    (vsize l) (λ e, denotes e (CList l))
    (λ i s, s = 4 + sum_by (λ c, line_length c + 2) (take (Z.to_nat i) l))
    (λ r, r = -1 ∧ limit < line_length (CList l)))
    with (fuel := node_fuel n) (e := n) (i := 0) (s := 4)
    as (n' & r & -> & Hn' & Hr); try done.
  - intros e He. by apply denotes_list_size.
  - intros e i s He Hi ->. destruct (vget_is_Some l i Hi) as [c Hc].
    destruct (denotes_list_at _ _ _ _ He Hc) as (e' & m & -> & He' & Hm).
    cbn [mbind option_bind].
    rewrite <-(Z2Nat.id i) in Hc by lia. rewrite vget_nat in Hc.
    destruct (IH c m (limit - (4 + sum_by (λ c, line_length c + 2) (take (Z.to_nat i) l))))
      as (m' & ->); [by eapply list_elem_of_lookup_2|done|].
    cbn [mbind option_bind]. eexists _, _. split; [done|]. split; [done|].
    pose proof (sum_by_take (λ c, line_length c + 2) l (Z.to_nat i) c Hc) as Hsum.
    pose proof (sum_by_take_le (λ c, line_length c + 2) l (S (Z.to_nat i)) Hpos) as Hle.
    pose proof (line_length_nonneg c). cbn [line_length]. cbn beta in Hsum.
    destruct (Z.ltb_spec (limit - (4 + sum_by (λ c, line_length c + 2) (take (Z.to_nat i) l)))
                (line_length c)).
    + rewrite Z.eqb_refl. split; [done|lia].
    + destruct (Z.eqb_spec (line_length c) (-1)); [lia|].
      replace (Z.to_nat (i + 1)) with (S (Z.to_nat i)) by lia. lia.
  - pose proof (vsize_nonneg l). lia.
  - destruct Hn as (off & Hl & _).
    destruct (located_container _ _ _ _ _ Hl I) as [Hs _].
    pose proof (siblings_bound _ _ _ Hs) as Hb. rewrite idx_list_size in Hb.
    pose proof (located_range _ _ _ _ _ Hl).
    unfold node_fuel, vsize in *. cbn [items] in Hb. lia.
  - cbn [mbind option_bind]. exists n'. split; [|done]. unfold limit_line.
    unfold vsize in Hr. rewrite Nat2Z.id, take_ge in Hr by lia.
    destruct r as [s|r]; [by subst|]. destruct Hr as [-> Hlt].
    cbn [line_length] in Hlt. by destruct (Z.ltb_spec limit (4 + sum_by (λ c, line_length c + 2) l)); [|lia].
Qed.

Definition pair_length (kv : bstr * cst) : Z :=
  4 + vsize (content kv.1) + (line_length kv.2 + 1).

Lemma pair_length_nonneg kv : 0 ≤ pair_length kv.
Proof.
  unfold pair_length. pose proof (line_length_nonneg kv.2).
  pose proof (vsize_nonneg (content kv.1)). lia.
Qed.

Lemma container_fuel n c : denotes n c → is_container c → vsize (items c) < Z.of_nat (node_fuel n).
Proof.
  intros (off & Hl & _) Hc.
  destruct (located_container _ _ _ _ _ Hl Hc) as [Hs _].
  pose proof (siblings_bound _ _ _ Hs) as Hb. rewrite idx_list_size in Hb.
  pose proof (located_range _ _ _ _ _ Hl). unfold node_fuel, vsize in *. lia.
Qed.

Lemma line_dict fuel n l limit :
  (∀ kv m limit, kv ∈ l → denotes m kv.2 →
     ∃ m', line_longer_than fuel m limit =
       Some (m', if limit <? line_length kv.2 then -1 else line_length kv.2)) →
  denotes n (CDict l) →
  ∃ n', line_longer_than (S fuel) n limit =
      Some (n', if limit <? line_length (CDict l) then -1 else line_length (CDict l)) ∧
    denotes n' (CDict l).
Proof.
  intros IH Hn. cbn [line_longer_than]. rewrite (denotes_type _ _ Hn). cbn [mbind option_bind].
  cbn [cst_type].
  change (line_length (CDict l)) with (4 + sum_by pair_length l).
  pose proof (sum_by_nonneg _ l pair_length_nonneg).
  destruct (Z.ltb_spec limit 4).
  { exists n. split; [|done]. by destruct (Z.ltb_spec limit (4 + sum_by pair_length l)); [|lia]. }
  match goal with |- context [for_each ?sz ?b ?f0 ?e0 ?i0 ?s0] =>
    destruct (for_each_spec sz b (vsize l) (λ e, denotes e (CDict l))
      (λ i s, s = 4 + sum_by pair_length (take (Z.to_nat i) l))
      (λ r, r = -1 ∧ limit < 4 + sum_by pair_length l))
      with (fuel := f0) (e := e0) (i := i0) (s := s0) as (n' & r & -> & Hn' & Hr); try done end.
  - intros e He. by apply denotes_dict_size.
  - intros e i s He Hi ->. destruct (vget_is_Some l i Hi) as [[k c] Hc].
    destruct (denotes_dict_at _ _ _ _ _ He Hc) as (e' & m & -> & He' & Hm).
    cbn [mbind option_bind].
    destruct (denotes_dict_at _ _ _ _ _ He' Hc) as (e2 & m2 & Hat & He2 & Hm2).
    rewrite <-(Z2Nat.id i) in Hc by lia. rewrite vget_nat in Hc.
    pose proof (sum_by_take pair_length l (Z.to_nat i) _ Hc) as Hsum.
    pose proof (sum_by_take_le pair_length l (S (Z.to_nat i)) pair_length_nonneg) as Hle.
    unfold pair_length in Hsum at 3; cbn [fst snd] in Hsum.
    pose proof (line_length_nonneg c).
    set (s := 4 + sum_by pair_length (take (Z.to_nat i) l) + (4 + vsize (content k))).
    destruct (Z.ltb_spec limit s) as [Hlim|Hlim].
    { eexists _, _. split; [done|]. split; [done|]. split; [done|]. lia. }
    rewrite Hat. cbn [mbind option_bind].
    destruct (IH (k, c) m2 (limit - s)) as (m' & ->);
      [by eapply list_elem_of_lookup_2|done|].
    cbn [mbind option_bind snd]. eexists _, _. split; [done|]. split; [done|].
    destruct (Z.ltb_spec (limit - s) (line_length c)).
    + rewrite Z.eqb_refl. split; [done|lia].
    + destruct (Z.eqb_spec (line_length c) (-1)); [lia|].
      replace (Z.to_nat (i + 1)) with (S (Z.to_nat i)) by lia. lia.
  - pose proof (vsize_nonneg l). lia.
  - pose proof (container_fuel _ _ Hn I) as Hf. cbn [items] in Hf. rewrite flat_size in Hf.
    pose proof (vsize_nonneg l). lia.
  - cbn [mbind option_bind]. exists n'. split; [|done]. unfold limit_line.
    unfold vsize in Hr. rewrite Nat2Z.id, take_ge in Hr by lia.
    destruct r as [s|r]; [by subst|]. destruct Hr as [-> Hlt].
    by destruct (Z.ltb_spec limit (4 + sum_by pair_length l)); [|lia].
Qed.

(** the nesting depth, which bounds the recursion of the printers *)
Lemma depth_list_elem c l : c ∈ l → depth c < depth (CList l).
Proof.
  intros Hc. simpl. enough (depth c ≤ foldr (λ c, Z.max (depth c)) 1 l) by lia.
  induction Hc; simpl; lia.
Qed.

Lemma depth_dict_elem kv l : kv ∈ l → depth kv.2 < depth (CDict l).
Proof.
  intros Hc. simpl. enough (depth kv.2 ≤ foldr (λ kv, Z.max (depth kv.2)) 1 l) by lia.
  induction Hc; simpl; lia.
Qed.

Lemma denotes_cst_ok n c : denotes n c → cst_ok c.
Proof. intros (off & Hl & _). by eapply located_cst_ok. Qed.

Lemma denotes_line_longer_than fuel n c limit :
  denotes n c → depth c ≤ Z.of_nat fuel →
  ∃ n', line_longer_than fuel n limit =
      Some (n', if limit <? line_length c then -1 else line_length c) ∧ denotes n' c.
Proof.
  revert n c limit. induction fuel as [|fuel IH]; intros n c limit Hn Hd.
  { pose proof (depth_pos c). lia. }
  destruct c as [neg ds|s|l|l].
  - cbn [line_longer_than]. rewrite (denotes_type _ _ Hn). cbn [mbind option_bind cst_type].
    rewrite (denotes_int _ _ _ Hn). cbn [mbind option_bind].
    pose proof (denotes_cst_ok _ _ Hn) as Hok. inversion Hok as [? ? Hds| | |]; subst.
    pose proof (int_of_bound neg ds Hds) as Hb. unfold int64_max in Hb.
    rewrite (count_digits_spec 63) by (change (Z.of_nat 63) with 63; lia).
    cbn [mbind option_bind]. exists n. split; [|done]. unfold limit_line. cbn [line_length].
    assert (Hv : (if 0 <? int_of neg ds then vsize (dec_digits 63 (int_of neg ds) []) else 0) =
      if 0 <? int_of neg ds then vsize (dec_string (int_of neg ds)) else 0).
    { destruct (Z.ltb_spec 0 (int_of neg ds)); [|done]. unfold dec_string.
      destruct (Z.ltb_spec (int_of neg ds) 0), (Z.eqb_spec (int_of neg ds) 0); try lia.
      cbn [app]. rewrite Z.abs_eq by lia. f_equal.
      apply dec_digits_fuel; [lia|change (Z.of_nat 63) with 63; lia|apply log2_fuel]. }
    rewrite Hv. by rewrite Z.add_0_l, Z.add_comm.
  - cbn [line_longer_than]. rewrite (denotes_type _ _ Hn). cbn [mbind option_bind cst_type].
    destruct (denotes_string _ _ Hn) as [-> _]. cbn. by exists n.
  - apply line_list; [|done]. intros c m lim Hc Hm.
    destruct (IH m c lim Hm) as (m' & Hm' & _); [|by exists m'].
    pose proof (depth_list_elem _ _ Hc). lia.
  - apply line_dict; [|done]. intros kv m lim Hc Hm.
    destruct (IH m kv.2 lim Hm) as (m' & Hm' & _); [|by exists m'].
    pose proof (depth_dict_elem _ _ Hc). lia.
Qed.

Lemma depth_tokens off c : depth c ≤ vsize (tokens off c).
Proof.
  rewrite (tokens_length _ 0). generalize 0. 
  induction c as [neg ds|s|l IH|l IH] using cst_rect'; intros off'; try done.
  - rewrite tokens_list_eq. unfold container. vsize. change (depth (CList l)) with (1 + depth_list l).
    enough (∀ o, depth_list l ≤ 1 + vsize (tokens_list o l)) as H by (specialize (H (off' + 1)); lia).
    unfold depth_list. induction IH as [|c l Hc _ IHl]; intros o; simpl; [unfold vsize; simpl; lia|].
    specialize (IHl (o + vsize (print c))). specialize (Hc o). vsize.
    pose proof (vsize_nonneg (tokens_list (o + vsize (print c)) l)).
    pose proof (vsize_nonneg (tokens o c)). lia.
  - rewrite tokens_dict_eq. unfold container. vsize. change (depth (CDict l)) with (1 + depth_pairs l).
    enough (∀ o, depth_pairs l ≤ 1 + vsize (tokens_pairs o l)) as H by (specialize (H (off' + 1)); lia).
    unfold depth_pairs. induction IH as [|[k c] l Hc _ IHl]; intros o; simpl; [unfold vsize; simpl; lia|].
    specialize (IHl (o + vsize (print_str k) + vsize (print c))).
    specialize (Hc (o + vsize (print_str k))). simpl in Hc. vsize.
    pose proof (vsize_nonneg (tokens_pairs (o + vsize (print_str k) + vsize (print c)) l)).
    pose proof (vsize_nonneg (tokens (o + vsize (print_str k)) c)). lia.
Qed.

Lemma node_fuel_depth n c : denotes n c → depth c < Z.of_nat (node_fuel n).
Proof.
  intros (off & Hl & _). pose proof (located_range _ _ _ _ _ Hl).
  pose proof (depth_tokens off c). unfold node_fuel. unfold vsize in *. lia.
Qed.

(** ** [print_entry] *)

Lemma denotes_print_entry fuel n c single_line indent :
  denotes n c → depth c ≤ Z.of_nat fuel →
  ∃ n' s, print_entry fuel n single_line indent = Some (n', s) ∧ denotes n' c.
Proof.
  revert n c indent. induction fuel as [|fuel IH]; intros n c indent Hn Hd.
  { pose proof (depth_pos c). lia. }
  cbn [print_entry]. rewrite (denotes_type _ _ Hn). cbn [mbind option_bind].
  destruct c as [neg ds|s|l|l]; cbn [cst_type].
  - rewrite (denotes_int _ _ _ Hn). cbn. eauto.
  - destruct (denotes_string _ _ Hn) as [_ ->]. cbn. eauto.
  - destruct (denotes_line_longer_than (node_fuel n) n _ 200 Hn) as (n1 & -> & Hn1);
      [pose proof (node_fuel_depth _ _ Hn); lia|]. cbn [mbind option_bind].
    match goal with |- context [for_each ?sz ?b ?f0 ?e0 ?i0 ?s0] =>
      destruct (for_each_spec sz b (vsize l) (λ e, denotes e (CList l)) (λ _ _, True)
        (λ _ : Empty_set, False)) with (fuel := f0) (e := e0) (i := i0) (s := s0)
        as (n' & r & -> & Hn' & Hr); try done end.
    + intros e He. by apply denotes_list_size.
    + intros e i s He Hi _. destruct (vget_is_Some l i Hi) as [c Hc].
      destruct (denotes_list_at _ _ _ _ He Hc) as (e' & m & -> & He' & Hm).
      cbn [mbind option_bind]. rewrite <-(Z2Nat.id i) in Hc by lia. rewrite vget_nat in Hc.
      destruct (IH m c (indent + 2) Hm) as (m' & s' & -> & _).
      { pose proof (depth_list_elem c l ltac:(by eapply list_elem_of_lookup_2)). lia. }
      cbn [mbind option_bind].
      destruct (denotes_list_size _ _ He') as (e2 & -> & He2). cbn [mbind option_bind]. eauto.
    + pose proof (vsize_nonneg l). lia.
    + pose proof (container_fuel _ _ Hn1 I) as Hf. cbn [items] in Hf. lia.
    + destruct r as [s|[]]. cbn. eauto.
  - destruct (denotes_line_longer_than (node_fuel n) n _ 200 Hn) as (n1 & -> & Hn1);
      [pose proof (node_fuel_depth _ _ Hn); lia|]. cbn [mbind option_bind].
    match goal with |- context [for_each ?sz ?b ?f0 ?e0 ?i0 ?s0] =>
      destruct (for_each_spec sz b (vsize l) (λ e, denotes e (CDict l)) (λ _ _, True)
        (λ _ : Empty_set, False)) with (fuel := f0) (e := e0) (i := i0) (s := s0)
        as (n' & r & -> & Hn' & Hr); try done end.
    + intros e He. by apply denotes_dict_size.
    + intros e i s He Hi _. destruct (vget_is_Some l i Hi) as [[k c] Hc].
      destruct (denotes_dict_at _ _ _ _ _ He Hc) as (e' & m & -> & He' & Hm).
      cbn [mbind option_bind]. rewrite <-(Z2Nat.id i) in Hc by lia. rewrite vget_nat in Hc.
      destruct (IH m c (indent + 2) Hm) as (m' & s' & -> & _).
      { pose proof (depth_dict_elem (k, c) l ltac:(by eapply list_elem_of_lookup_2)) as Hlt.
        cbn [snd] in Hlt. lia. }
      cbn [mbind option_bind].
      destruct (denotes_dict_size _ _ He') as (e2 & -> & He2). cbn [mbind option_bind]. eauto.
    + pose proof (vsize_nonneg l). lia.
    + pose proof (container_fuel _ _ Hn1 I) as Hf. cbn [items] in Hf. rewrite flat_size in Hf.
      pose proof (vsize_nonneg l). lia.
    + destruct r as [s|[]]. cbn. eauto.
Qed.
