(* ===== verification/Entry.v ===== *)
(** [entry] of src/btdownloader/torrent/entry.cpp and the encoder of
    src/btdownloader/include/libtorrent/bencode.hpp.

    The discriminated union [m_type] / [data] is an inductive type; the
    dictionary is a [std::map], a list of pairs sorted by key.  An accessor
    that throws [errors::invalid_entry_type] returns [inl]. *)

From Stdlib Require Import String.
From S2P Require Import Prelude.
From S2P Require Import StrMap.
From S2P Require Import StringUtil.
From S2P Require Import Bdecode.
From S2P Require Import BdecodeNode.

Open Scope Z_scope.

Inductive entry :=
| undefined_t
| int_t (i : Z)
| string_t (s : list Z)
| list_t (l : list entry)
| dictionary_t (d : list (list Z * entry))
| preformatted_t (p : list Z).

Section entry_ind.
Context (P : entry → Prop)
  (Hund : P undefined_t) (Hint : ∀ i, P (int_t i)) (Hstr : ∀ s, P (string_t s))
  (Hlist : ∀ l, Forall P l → P (list_t l))
  (Hdict : ∀ d, Forall (λ kv, P kv.2) d → P (dictionary_t d))
  (Hpre : ∀ p, P (preformatted_t p)).

Fixpoint entry_rect' (e : entry) : P e :=
  match e with
  | undefined_t => Hund
  | int_t i => Hint i
  | string_t s => Hstr s
  | list_t l => Hlist l
      ((fix go l : Forall P l :=
          match l with
          | [] => Forall_nil_2 P
          | e :: l => Forall_cons_2 P e l (entry_rect' e) (go l)
          end) l)
  | dictionary_t d => Hdict d
      ((fix go d : Forall (λ kv, P kv.2) d :=
          match d with
          | [] => Forall_nil_2 _
          | kv :: d => Forall_cons_2 _ kv d (entry_rect' kv.2) (go d)
          end) d)
  | preformatted_t p => Hpre p
  end.
End entry_ind.

(** [entry::data_type], in the order of the enumeration *)
Definition data_type (e : entry) : Z :=
  match e with
  | int_t _ => 0
  | string_t _ => 1
  | list_t _ => 2
  | dictionary_t _ => 3
  | undefined_t => 4
  | preformatted_t _ => 5
  end.

(** [construct(t)] *)
Definition construct (t : Z) : entry :=
  if t =? 0 then int_t 0
  else if t =? 1 then string_t []
  else if t =? 2 then list_t []
  else if t =? 3 then dictionary_t []
  else if t =? 5 then preformatted_t []
  else undefined_t.

Inductive exn := invalid_entry_type.

(** * Accessors *)

(** the const accessors *)
Definition integer_const (e : entry) : exn + Z :=
  match e with int_t i => inr i | _ => inl invalid_entry_type end.
Definition string_const (e : entry) : exn + list Z :=
  match e with string_t s => inr s | _ => inl invalid_entry_type end.
Definition list_const (e : entry) : exn + list entry :=
  match e with list_t l => inr l | _ => inl invalid_entry_type end.
Definition dict_const (e : entry) : exn + list (list Z * entry) :=
  match e with dictionary_t d => inr d | _ => inl invalid_entry_type end.
Definition preformatted_const (e : entry) : exn + list Z :=
  match e with preformatted_t p => inr p | _ => inl invalid_entry_type end.

(** the accessors that return a reference: an undefined entry becomes one of
    the type asked for *)
Definition materialise {A} (t : Z) (get : entry → exn + A) (e : entry) : exn + (entry * A) :=
  let e := if data_type e =? 4 then construct t else e in
  match get e with
  | inr a => inr (e, a)
  | inl x => inl x
  end.

Definition integer := materialise 0 integer_const.
Definition string := materialise 1 string_const.
Definition list_of := materialise 2 list_const.
Definition dict := materialise 3 dict_const.
Definition preformatted := materialise 5 preformatted_const.

(** [operator[](key)]: the reference to the value, which is added when there is
    none *)
Definition op_index (e : entry) (key : list Z) : exn + (entry * entry) :=
  match dict e with
  | inl x => inl x
  | inr (e, d) =>
      match find d key with
      | Some v => inr (e, v)
      | None => inr (dictionary_t (insert d key undefined_t), undefined_t)
      end
  end.

Definition op_index_const (e : entry) (key : list Z) : exn + entry :=
  match dict_const e with
  | inl x => inl x
  | inr d => match find d key with Some v => inr v | None => inl invalid_entry_type end
  end.

Definition find_key (e : entry) (key : list Z) : exn + (entry * option entry) :=
  match dict e with
  | inl x => inl x
  | inr (e, d) => inr (e, find d key)
  end.

Definition find_key_const (e : entry) (key : list Z) : exn + option entry :=
  match dict_const e with
  | inl x => inl x
  | inr d => inr (find d key)
  end.

(** * Assignment *)

(** [destruct()] *)
Definition destruct_ (e : entry) : entry := undefined_t.

(** [copy(e)], the copy constructor and [operator=(entry const&)] *)
Fixpoint copy (e : entry) : entry :=
  match e with
  | int_t i => int_t i
  | string_t s => string_t s
  | list_t l => list_t (map copy l)
  | dictionary_t d => dictionary_t (map (λ kv, (kv.1, copy kv.2)) d)
  | undefined_t => undefined_t
  | preformatted_t p => preformatted_t p
  end.

(** [operator==] *)
Fixpoint op_eq (lhs rhs : entry) : bool :=
  match lhs, rhs with
  | int_t i, int_t j => i =? j
  | string_t s, string_t t => bool_decide (s = t)
  | list_t l, list_t m =>
      (fix go l m := match l, m with
                     | [], [] => true
                     | a :: l, b :: m => op_eq a b && go l m
                     | _, _ => false
                     end) l m
  | dictionary_t l, dictionary_t m =>
      (fix go l m := match l, m with
                     | [], [] => true
                     | (k, a) :: l, (k', b) :: m => bool_decide (k = k') && op_eq a b && go l m
                     | _, _ => false
                     end) l m
  | preformatted_t p, preformatted_t q => bool_decide (p = q)
  | undefined_t, undefined_t => true
  | _, _ => false
  end.

(** [swap]: entries of two different types are left as they are when asserts
    are off *)
Definition swap (this e : entry) : entry * entry :=
  if (data_type this =? 4) && (data_type e =? 4) then (this, e)
  else
    let '(this, clear_that) :=
      if data_type this =? 4 then (construct (data_type e), true) else (this, false) in
    let '(e, clear_this) :=
      if data_type e =? 4 then (construct (data_type this), true) else (e, false) in
    if data_type this =? data_type e then
      let '(this, e) := (e, this) in
      (if clear_this : bool then destruct_ this else this,
       if clear_that : bool then destruct_ e else e)
    else (this, e).

(** [operator=(bdecode_node const&)]; the recursion is through [operator=] of
    the items *)
Fixpoint assign_node (fuel : nat) (e : bdecode_node) : option entry :=
  match fuel with
  | O => None
  | S fuel =>
      ty ← node_type e;
      match ty with
      | tok_string => s ← string_value e; Some (string_t s)
      | tok_integer => i ← int_value e; Some (int_t i)
      | tok_dict =>
          r ← for_each dict_size (λ e i d,
                '(e, (key, c)) ← dict_at e i;
                v ← assign_node fuel c;
                Some (e, @inl _ Empty_set (insert d key v)))
              (node_fuel e) e 0 [];
          match r.2 with inl d => Some (dictionary_t d) | inr x => match x : Empty_set with end end
      | tok_list =>
          r ← for_each list_size (λ e i l,
                '(e, c) ← list_at e i;
                v ← assign_node fuel c;
                Some (e, @inl _ Empty_set (l ++ [v])))
              (node_fuel e) e 0 [];
          match r.2 with inl l => Some (list_t l) | inr x => match x : Empty_set with end end
      | tok_none | tok_end => Some undefined_t
      end
  end.

(** * Encoding *)

(** the loop of [integer_to_str], which writes the digits backwards from
    [ptr] *)
Fixpoint write_back (fuel : nat) (buf : list Z) (sign ptr val : Z)
    : option (list Z * Z) :=
  match fuel with
  | O => None
  | S fuel =>
      if (sign <? ptr) && negb (val =? 0) then
        buf ← buf⟦ptr := 48 + Z.rem val 10⟧;
        write_back fuel buf sign (ptr - 1) (Z.quot val 10)
      else Some (buf, ptr)
  end.

(** [integer_to_str(buf, val)] for a buffer of [size] bytes; the negation of
    the least integer overflows *)
Definition integer_to_str (size val : Z) : option (list Z) :=
  let buf := repeat 0 (Z.to_nat size) in
  let sign := Z.b2z (val <? 0) in
  val ← (if val <? 0 then if val =? int64_min then None else Some (- val) else Some val);
  let back := size - 1 in
  buf ← buf⟦back := 0⟧;
  let ptr := back - 1 in
  '(buf, ptr) ← (if val =? 0 then buf ← buf⟦ptr := 48⟧; Some (buf, ptr - 1)
                 else Some (buf, ptr));
  '(buf, ptr) ← write_back (S (Z.to_nat size)) buf sign ptr val;
  '(buf, ptr) ← (if negb (sign =? 0) then buf ← buf⟦ptr := 45⟧; Some (buf, ptr - 1)
                 else Some (buf, ptr));
  span buf (ptr + 1) (back - (ptr + 1)).

(** the text written and the number of its characters *)
Definition write_integer (data : Z) : option (list Z * Z) :=
  str ← integer_to_str 21 data; Some (str, vsize str).

Definition write_string (s : list Z) : list Z * Z := (s, vsize s).

(** the loops of [bencode_recursive] over the items of a list and the pairs of
    a dictionary *)
Definition bencode_items (rec : entry → option (list Z * Z)) :=
  fix go (l : list entry) : option (list Z * Z) :=
    match l with
    | [] => Some ([], 0)
    | e :: l => '(s, n) ← rec e; '(s', n') ← go l; Some (s ++ s', n + n')
    end.

Definition bencode_pairs (rec : entry → option (list Z * Z)) :=
  fix go (d : list (list Z * entry)) : option (list Z * Z) :=
    match d with
    | [] => Some ([], 0)
    | (key, v) :: d =>
        '(len, n1) ← write_integer (vsize key);
        let '(ks, n2) := write_string key in
        '(vs, n3) ← rec v;
        '(s', n') ← go d;
        Some (len ++ [ch_colon] ++ ks ++ vs ++ s', n1 + n2 + n3 + 1 + n')
    end.

(** [bencode_recursive]: the bytes written to the output iterator, and the
    count that is returned *)
Fixpoint bencode_recursive (e : entry) : option (list Z * Z) :=
  match e with
  | int_t i =>
      '(s, n) ← write_integer i;
      Some ([ch_i] ++ s ++ [ch_e], n + 2)
  | string_t s =>
      '(len, n) ← write_integer (vsize s);
      let '(s, k) := write_string s in
      Some (len ++ [ch_colon] ++ s, n + k + 1)
  | list_t l =>
      '(s, n) ← bencode_items bencode_recursive l;
      Some ([ch_l] ++ s ++ [ch_e], n + 2)
  | dictionary_t d =>
      '(s, n) ← bencode_pairs bencode_recursive d;
      Some ([ch_d] ++ s ++ [ch_e], n + 2)
  | preformatted_t p => Some (p, vsize p)
  | undefined_t => Some ([ch_0; ch_colon], 2)
  end.

Definition bencode := bencode_recursive.

(** * [to_string] *)

Definition is_binary (str : list Z) : bool := existsb (λ c, negb (is_print c)) str.

Definition print_string (str : list Z) : option (list Z) :=
  if is_binary str then to_hex str else Some str.

Definition add_indent (out : list Z) (indent : Z) : list Z :=
  out ++ repeat 32 (Z.to_nat indent).

Definition comma (single_line : bool) : list Z :=
  if single_line then bytes_of ", " else [44; 10].

Fixpoint to_string_impl (out : list Z) (e : entry) (indent : Z) (single_line : bool) {struct e}
    : option (list Z) :=
  let lead (out : list Z) (first : bool) indent :=
    let out := if first then out else out ++ comma single_line in
    if single_line then out else add_indent out indent in
  match e with
  | int_t i => s ← StringUtil.to_string i; Some (out ++ s)
  | string_t s => s ← print_string s; Some (out ++ bytes_of "'" ++ s ++ bytes_of "'")
  | list_t l =>
      out ← (fix go out first l {struct l} :=
               match l with
               | [] => Some out
               | item :: l =>
                   out ← to_string_impl (lead out first (indent + 1)) item (indent + 1) single_line;
                   go out false l
               end) (out ++ if single_line then bytes_of "[ " else [91; 10]) true l;
      Some (out ++ bytes_of " ]")
  | dictionary_t d =>
      out ← (fix go out first d {struct d} :=
               match d with
               | [] => Some out
               | (key, v) :: d =>
                   k ← print_string key;
                   out ← to_string_impl
                           (lead out first (indent + 1) ++ bytes_of "'" ++ k ++ bytes_of "': ")
                           v (indent + 1 + 1) single_line;
                   go out false d
               end) (out ++ if single_line then bytes_of "{ " else [123; 10]) true d;
      Some (out ++ bytes_of " }")
  | preformatted_t _ => Some (out ++ bytes_of "<preformatted>")
  | undefined_t => Some (out ++ bytes_of "<uninitialized>")
  end.

Definition entry_to_string (e : entry) (single_line : bool) : option (list Z) :=
  to_string_impl [] e 0 single_line.
