(* ===== verification/EntryCorrect.v ===== *)
(** Encoding and decoding of entries: the number rendering, what [bencode]
    writes, what [operator=(bdecode_node)] reads back, and comparison,
    assignment and swapping of entries. *)

From S2P Require Import Prelude.
From S2P Require Import StrMap.
From S2P Require Import StringUtil.
From S2P Require Import Bdecode.
From S2P Require Import BencodeGrammar.
From S2P Require Import BdecodeCorrect.
From S2P Require Import BdecodeNode.
From S2P Require Import BdecodeNodeCorrect.
From S2P Require Import BdecodeWalk.
From S2P Require Import Entry.

(** * Decimal digits *)

Lemma digits_spec n (k : nat) :
  0 ≤ n < 10 ^ Z.of_nat k →
  digit_list (digits n) ∧ digits_value 0 (digits n) = n ∧ vsize (digits n) ≤ Z.of_nat k ∧
  (0 < n → 1 ≤ vsize (digits n)).
Proof.
  revert n. induction k as [|k IH]; intros n Hn.
  - replace n with 0 by (simpl in Hn; lia). split_and!; [constructor|done..].
  - destruct (decide (n = 0)) as [->|Hne].
    { split_and!; [constructor|done| |done]. unfold vsize; simpl; lia. }
    rewrite digits_step by lia. rewrite Nat2Z.inj_succ, Z.pow_succ_r in Hn by lia.
    destruct (IH (n / 10)) as (Hd & Hv & Hs & _).
    { split; [apply Z.div_pos; lia|]. apply Z.div_lt_upper_bound; lia. }
    pose proof (Z.mod_pos_bound n 10 eq_refl).
    split_and!.
    + apply Forall_app; split; [done|]. apply Forall_singleton, numeric_range.
      unfold ch_0, ch_9. lia.
    + rewrite digits_value_app, Hv. simpl. unfold ch_0.
      pose proof (Z.div_mod n 10 ltac:(done)). lia.
    + vsize.
    + vsize. pose proof (vsize_nonneg (digits (n / 10))). lia.
Qed.

Definition dec_digits_of (n : Z) : list Z := if n =? 0 then [48] else digits n.

Lemma dec_digits_of_spec n k :
  0 ≤ n < 10 ^ k → 1 ≤ k →
  digit_list (dec_digits_of n) ∧ digits_value 0 (dec_digits_of n) = n ∧
  1 ≤ vsize (dec_digits_of n) ≤ k.
Proof.
  intros Hn Hk. unfold dec_digits_of. destruct (Z.eqb_spec n 0) as [->|Hne].
  - split_and!; [by repeat constructor|done..].
  - rewrite <-(Z2Nat.id k) in Hn by lia.
    destruct (digits_spec n (Z.to_nat k) Hn) as (? & ? & ? & H). specialize (H ltac:(lia)).
    split_and!; try done; lia.
Qed.

Lemma dec_string_sign v : dec_string v = sign (v <? 0) ++ dec_digits_of (Z.abs v).
Proof.
  unfold dec_string, dec_digits_of. f_equal.
  by destruct (Z.eqb_spec v 0), (Z.eqb_spec (Z.abs v) 0); try lia.
Qed.

Lemma write_back_spec fuel buf sign ptr val :
  0 ≤ sign → sign ≤ ptr < vsize buf → 0 ≤ val < 10 ^ (ptr - sign) →
  ptr - sign < Z.of_nat fuel →
  ∃ buf' ptr', write_back fuel buf sign ptr val = Some (buf', ptr') ∧
    vsize buf' = vsize buf ∧ sign ≤ ptr' ≤ ptr ∧
    drop (Z.to_nat (ptr' + 1)) buf' = digits val ++ drop (Z.to_nat (ptr + 1)) buf.
Proof.
  revert buf ptr val. induction fuel as [|fuel IH]; intros buf ptr val Hs Hp Hv Hf; [lia|].
  cbn [write_back]. destruct (Z.eqb_spec val 0) as [->|Hne].
  { rewrite andb_false_r. exists buf, ptr. split_and!; try done; lia. }
  destruct (Z.ltb_spec sign ptr) as [Hlt|].
  2: { replace (ptr - sign) with 0 in Hv by lia. simpl in Hv. lia. }
  cbn [andb negb].
  destruct (vset_is_Some buf ptr (48 + Z.rem val 10)) as [b Hb]; [lia|].
  rewrite Hb. cbn [mbind option_bind].
  pose proof (vset_size _ _ _ _ Hb) as Hsz. pose proof (drop_vset _ _ _ _ Hb) as Hdrop.
  rewrite Z.quot_div_nonneg by lia. rewrite Z.rem_mod_nonneg in Hdrop by lia.
  destruct (IH b (ptr - 1) (val / 10)) as (buf' & ptr' & -> & Hsz' & Hp' & Hd'); try lia.
  { split; [apply Z.div_pos; lia|]. apply Z.div_lt_upper_bound; [done|].
    rewrite <-Z.pow_succ_r by lia. replace (Z.succ (ptr - 1 - sign)) with (ptr - sign) by lia. lia. }
  exists buf', ptr'. split_and!; try done; try lia.
  replace (ptr - 1 + 1) with ptr in Hd' by lia.
  rewrite Hd', Hdrop, (digits_step val) by lia. by rewrite <-app_assoc.
Qed.

Lemma span_drop buf a s r :
  0 ≤ a ≤ vsize buf → drop (Z.to_nat a) buf = s ++ r → span buf a (vsize s) = Some s.
Proof.
  intros Ha Hd. unfold span.
  assert (Hsz : vsize s + vsize r = vsize buf - a).
  { rewrite <-vsize_app, <-Hd. unfold vsize. rewrite length_drop. unfold vsize in Ha. lia. }
  pose proof (vsize_nonneg s). pose proof (vsize_nonneg r).
  destruct (Z.leb_spec 0 a), (Z.leb_spec 0 (vsize s)), (Z.leb_spec (a + vsize s) (vsize buf));
    try lia.
  cbn [andb]. rewrite Hd. unfold vsize. by rewrite Nat2Z.id, take_app_length.
Qed.

(** the range of numbers [integer_to_str] renders: a negative number has one
    digit less than the buffer could hold *)
Definition int_ok (v : Z) : Prop := - 10 ^ 18 < v ≤ int64_max.

Lemma integer_to_str_spec v : int_ok v → integer_to_str 21 v = Some (dec_string v).
Proof.
  intros Hv. unfold int_ok, int64_max in Hv. unfold integer_to_str.
  assert (Habs : (if v <? 0 then if v =? int64_min then None else Some (- v) else Some v) =
    Some (Z.abs v)).
  { destruct (Z.ltb_spec v 0); [|f_equal; lia].
    destruct (Z.eqb_spec v int64_min) as [->|]; [unfold int64_min in Hv; lia|f_equal; lia]. }
  rewrite Habs. cbn [mbind option_bind]. change (vset (repeat 0 (Z.to_nat 21)) (21 - 1) 0)
    with (Some (repeat 0 21)). cbn [mbind option_bind].
  set (sg := Z.b2z (v <? 0)).
  assert (Hsg : 0 ≤ sg ≤ 1) by (unfold sg; by destruct (v <? 0)).
  assert (Hfirst : ∃ buf ptr, (if Z.abs v =? 0 then
      buf ← (repeat 0 21)⟦21 - 1 - 1 := 48⟧; Some (buf, 21 - 1 - 1 - 1)
      else Some (repeat 0 21, 21 - 1 - 1)) = Some (buf, ptr) ∧ vsize buf = 21 ∧
      1 ≤ ptr ≤ 19 ∧ Z.abs v < 10 ^ (ptr - sg) ∧
      digits (Z.abs v) ++ drop (Z.to_nat (ptr + 1)) buf = dec_digits_of (Z.abs v) ++ [0]).
  { unfold dec_digits_of. destruct (Z.eqb_spec (Z.abs v) 0) as [H0|H0].
    - eexists _, 18. split; [reflexivity|]. split; [done|]. rewrite H0.
      split; [lia|]. split; [apply Z.pow_pos_nonneg; lia|done].
    - exists (repeat 0 21), 19. split; [done|]. split; [done|]. split; [lia|].
      split; [|done]. unfold sg.
      destruct (Z.ltb_spec v 0); [change (10 ^ (19 - Z.b2z true)) with (10 ^ 18); lia|].
      change (10 ^ (19 - Z.b2z false)) with 10000000000000000000. lia. }
  destruct Hfirst as (buf & ptr & -> & Hsz & Hptr & Hlt & Hdig). cbn [mbind option_bind].
  change (S (Z.to_nat 21)) with 22%nat.
  destruct (write_back_spec 22 buf sg ptr (Z.abs v)) as (b2 & p2 & -> & Hsz2 & Hp2 & Hd2);
    [lia|lia|lia|lia|].
  cbn [mbind option_bind]. rewrite Hdig in Hd2.
  assert (Hsign : ∃ b3 p3, (if negb (sg =? 0) then buf ← b2⟦p2 := 45⟧; Some (buf, p2 - 1)
      else Some (b2, p2)) = Some (b3, p3) ∧ vsize b3 = 21 ∧ -1 ≤ p3 < 21 ∧
      drop (Z.to_nat (p3 + 1)) b3 = dec_string v ++ [0]).
  { rewrite dec_string_sign. unfold sg in *. destruct (v <? 0); cbn [Z.b2z] in *.
    - change (negb (1 =? 0)) with true. cbn iota.
      destruct (vset_is_Some b2 p2 45) as [b3 Hb3]; [lia|]. rewrite Hb3. cbn [mbind option_bind].
      exists b3, (p2 - 1). split; [done|]. rewrite (vset_size _ _ _ _ Hb3).
      split; [lia|]. split; [lia|].
      replace (p2 - 1 + 1) with p2 by lia. rewrite (drop_vset _ _ _ _ Hb3), Hd2. done.
    - exists b2, p2. split; [done|]. split; [lia|]. split; [lia|]. done. }
  destruct Hsign as (b3 & p3 & -> & Hsz3 & Hp3 & Hd3). cbn [mbind option_bind].
  assert (Hlen : 21 - 1 - (p3 + 1) = vsize (dec_string v)).
  { assert (Hl : vsize (drop (Z.to_nat (p3 + 1)) b3) = vsize (dec_string v) + 1)
      by (rewrite Hd3; vsize).
    unfold vsize in *. rewrite length_drop in Hl. lia. }
  rewrite Hlen. apply (span_drop _ _ _ [0]); [lia|done].
Qed.

(** * Encoding *)

Definition bstr_of (s : list Z) : bstr := BStr (dec_digits_of (vsize s)) s.

(** the item [bencode] writes for an entry without preformatted parts *)
Fixpoint cst_of (e : entry) : cst :=
  match e with
  | int_t i => CInt (i <? 0) (dec_digits_of (Z.abs i))
  | string_t s => CStr (bstr_of s)
  | list_t l => CList (map cst_of l)
  | dictionary_t d => CDict (map (λ kv, (bstr_of kv.1, cst_of kv.2)) d)
  | preformatted_t _ | undefined_t => CStr (BStr [ch_0] [])
  end.

Definition string_ok (s : list Z) : Prop := vsize s < 10 ^ 8.

(** the entries [bencode] writes as one well-formed item *)
Fixpoint encodable (e : entry) : Prop :=
  match e with
  | int_t i => int_ok i
  | string_t s => string_ok s
  | list_t l => foldr (λ e, and (encodable e)) True l
  | dictionary_t d => foldr (λ kv, and (string_ok kv.1 ∧ encodable kv.2)) True d
  | preformatted_t _ => False
  | undefined_t => True
  end.

Lemma foldr_and_Forall {A} (P : A → Prop) l : foldr (λ x, and (P x)) True l ↔ Forall P l.
Proof.
  induction l as [|x l IH]; simpl; [by split; [constructor|]|].
  rewrite IH. split; [by intros [? ?]; constructor|by inversion 1].
Qed.

Lemma write_integer_size s : string_ok s →
  write_integer (vsize s) = Some (dec_digits_of (vsize s), vsize (dec_digits_of (vsize s))).
Proof.
  intros Hs. pose proof (vsize_nonneg s). unfold string_ok in Hs. unfold write_integer.
  rewrite integer_to_str_spec.
  2: { unfold int_ok, int64_max. lia. }
  cbn [mbind option_bind]. rewrite dec_string_sign.
  destruct (Z.ltb_spec (vsize s) 0); [lia|]. rewrite Z.abs_eq by lia. done.
Qed.

Lemma bencode_spec e :
  encodable e → bencode e = Some (print (cst_of e), vsize (print (cst_of e))).
Proof.
  unfold bencode. induction e as [|i|s|l IH|d IH|p] using entry_rect'; intros He.
  - done.
  - cbn [bencode_recursive]. unfold write_integer. rewrite integer_to_str_spec by done.
    cbn [mbind option_bind]. cbn [cst_of print]. rewrite dec_string_sign, <-!app_assoc.
    do 2 f_equal. vsize.
  - cbn [bencode_recursive]. rewrite write_integer_size by done.
    cbn. unfold print_str. cbn. do 2 f_equal. vsize.
  - cbn [encodable] in He. apply foldr_and_Forall in He. cbn [bencode_recursive].
    assert (Hgo : bencode_items bencode_recursive l = Some
      (print_list (map cst_of l), vsize (print_list (map cst_of l)))).
    { induction l as [|e l IHl]; [done|].
      apply Forall_cons_1 in IH as [He1 IH]. apply Forall_cons_1 in He as [Hok He].
      cbn [bencode_items]. rewrite (He1 Hok). cbn [mbind option_bind].
      change (print_list (map cst_of (e :: l)))
        with (print (cst_of e) ++ print_list (map cst_of l)).
      fold (bencode_items bencode_recursive). rewrite (IHl IH He). cbn [mbind option_bind]. by rewrite vsize_app. }
    rewrite Hgo. cbn [mbind option_bind]. cbn [cst_of]. rewrite print_list_eq.
    do 2 f_equal. vsize.
  - cbn [encodable] in He. apply foldr_and_Forall in He. cbn [bencode_recursive].
    assert (Hgo : bencode_pairs bencode_recursive d = Some
      (print_pairs (map (λ kv, (bstr_of kv.1, cst_of kv.2)) d),
       vsize (print_pairs (map (λ kv, (bstr_of kv.1, cst_of kv.2)) d)))).
    { induction d as [|[k v] d IHd]; [done|].
      apply Forall_cons_1 in IH as [He1 IH]. apply Forall_cons_1 in He as [[Hk Hok] He].
      simpl in He1, Hk, Hok.
      cbn [bencode_pairs]. rewrite write_integer_size by done.
      cbn [mbind option_bind write_string].
      rewrite (He1 Hok). cbn [mbind option_bind].
      fold (bencode_pairs bencode_recursive). rewrite (IHd IH He). cbn [mbind option_bind].
      change (print_pairs (map _ ((k, v) :: d)))
        with ((print_str (bstr_of k) ++ print (cst_of v)) ++
              print_pairs (map (λ kv, (bstr_of kv.1, cst_of kv.2)) d)).
      unfold print_str at 1 2. cbn [len_digits content bstr_of].
      rewrite <-!app_assoc. do 2 f_equal. vsize. }
    rewrite Hgo. cbn [mbind option_bind]. cbn [cst_of]. rewrite print_dict_eq.
    do 2 f_equal. vsize.
  - done.
Qed.

Lemma bstr_of_ok s : string_ok s → str_ok (bstr_of s).
Proof.
  intros Hs. pose proof (vsize_nonneg s). unfold string_ok in Hs. unfold str_ok, bstr_of; simpl.
  destruct (dec_digits_of_spec (vsize s) 8) as (? & ? & ?); [lia|done|]. done.
Qed.

Lemma cst_of_ok e : encodable e → cst_ok (cst_of e).
Proof.
  induction e as [|i|s|l IH|d IH|p] using entry_rect'; intros He; cbn [cst_of].
  - constructor. split_and!; [by repeat constructor|done..].
  - simpl in He. unfold int_ok, int64_max in He.
    destruct (dec_digits_of_spec (Z.abs i) 19) as (? & ? & ?); [lia|done|].
    constructor; [done|lia].
  - constructor. by apply bstr_of_ok.
  - constructor. cbn [encodable] in He. apply foldr_and_Forall in He.
    apply Forall_map. eapply Forall_impl; [|exact (Forall_and IH He)].
    simpl. intros e [H1 H2]. auto.
  - constructor. cbn [encodable] in He. apply foldr_and_Forall in He.
    apply Forall_map. eapply Forall_impl; [|exact (Forall_and IH He)].
    simpl. intros [k v] [H1 [H2 H3]]. simpl in *. split; [by apply bstr_of_ok|auto].
  - done.
Qed.

(** * Decoding *)

(** the entry an item stands for; of two equal keys the later one wins *)
Fixpoint entry_of (c : cst) : entry :=
  match c with
  | CInt neg ds => int_t (int_of neg ds)
  | CStr s => string_t (content s)
  | CList l => list_t (map entry_of l)
  | CDict l => dictionary_t
      (fold_left (λ d kv, insert d kv.1 kv.2) (map (λ kv, (content kv.1, entry_of kv.2)) l) [])
  end.

Definition dict_of (l : list (bstr * cst)) : list (list Z * entry) :=
  fold_left (λ d kv, insert d kv.1 kv.2) (map (λ kv, (content kv.1, entry_of kv.2)) l) [].

Lemma dict_of_snoc l k v :
  dict_of (l ++ [(k, v)]) = insert (dict_of l) (content k) (entry_of v).
Proof. unfold dict_of. by rewrite map_app, fold_left_app. Qed.

Lemma assign_node_spec fuel n c :
  denotes n c → depth c ≤ Z.of_nat fuel → assign_node fuel n = Some (entry_of c).
Proof.
  revert n c. induction fuel as [|fuel IH]; intros n c Hn Hd.
  { pose proof (depth_pos c). lia. }
  cbn [assign_node]. rewrite (denotes_type _ _ Hn). cbn [mbind option_bind].
  destruct c as [neg ds|s|l|l]; cbn [cst_type].
  - by rewrite (denotes_int _ _ _ Hn).
  - by destruct (denotes_string _ _ Hn) as [_ ->].
  - match goal with |- context [for_each ?sz ?b ?f0 ?e0 ?i0 ?s0] =>
      destruct (for_each_spec sz b (vsize l) (λ e, denotes e (CList l))
        (λ i s, s = map entry_of (take (Z.to_nat i) l)) (λ _ : Empty_set, False))
        with (fuel := f0) (e := e0) (i := i0) (s := s0) as (n' & r & -> & Hn' & Hr); try done end.
    + intros e He. by apply denotes_list_size.
    + intros e i s He Hi ->. destruct (vget_is_Some l i Hi) as [c Hc].
      destruct (denotes_list_at _ _ _ _ He Hc) as (e' & m & -> & He' & Hm).
      cbn [mbind option_bind]. rewrite <-(Z2Nat.id i) in Hc by lia. rewrite vget_nat in Hc.
      rewrite (IH m c Hm).
      2: { pose proof (depth_list_elem c l ltac:(by eapply list_elem_of_lookup_2)). lia. }
      cbn [mbind option_bind]. eexists _, _. split; [done|]. split; [done|].
      replace (Z.to_nat (i + 1)) with (S (Z.to_nat i)) by lia.
      by rewrite (take_S_r _ _ _ Hc), map_app.
    + pose proof (vsize_nonneg l). lia.
    + pose proof (container_fuel _ _ Hn I) as Hf. cbn [items] in Hf. lia.
    + cbn. destruct r as [s|[]]. rewrite Hr. unfold vsize. rewrite Nat2Z.id, take_ge by lia. done.
  - match goal with |- context [for_each ?sz ?b ?f0 ?e0 ?i0 ?s0] =>
      destruct (for_each_spec sz b (vsize l) (λ e, denotes e (CDict l))
        (λ i s, s = dict_of (take (Z.to_nat i) l)) (λ _ : Empty_set, False))
        with (fuel := f0) (e := e0) (i := i0) (s := s0) as (n' & r & -> & Hn' & Hr); try done end.
    + intros e He. by apply denotes_dict_size.
    + intros e i s He Hi ->. destruct (vget_is_Some l i Hi) as [[k c] Hc].
      destruct (denotes_dict_at _ _ _ _ _ He Hc) as (e' & m & -> & He' & Hm).
      cbn [mbind option_bind]. rewrite <-(Z2Nat.id i) in Hc by lia. rewrite vget_nat in Hc.
      rewrite (IH m c Hm).
      2: { pose proof (depth_dict_elem (k, c) l ltac:(by eapply list_elem_of_lookup_2)) as Hlt.
           cbn [snd] in Hlt. lia. }
      cbn [mbind option_bind]. eexists _, _. split; [done|]. split; [done|].
      replace (Z.to_nat (i + 1)) with (S (Z.to_nat i)) by lia.
      by rewrite (take_S_r _ _ _ Hc), dict_of_snoc.
    + pose proof (vsize_nonneg l). lia.
    + pose proof (container_fuel _ _ Hn I) as Hf. cbn [items] in Hf. rewrite flat_size in Hf.
      pose proof (vsize_nonneg l). lia.
    + cbn. destruct r as [s|[]]. rewrite Hr. unfold vsize. rewrite Nat2Z.id, take_ge by lia. done.
Qed.

(** ** The entries that survive encoding *)

Fixpoint plain (e : entry) : Prop :=
  match e with
  | int_t i => int_ok i
  | string_t s => string_ok s
  | list_t l => foldr (λ e, and (plain e)) True l
  | dictionary_t d => sorted d ∧ foldr (λ kv, and (string_ok kv.1 ∧ plain kv.2)) True d
  | preformatted_t _ | undefined_t => False
  end.

Lemma plain_encodable e : plain e → encodable e.
Proof.
  induction e as [|i|s|l IH|d IH|p] using entry_rect'; try done; cbn [plain encodable].
  - rewrite !foldr_and_Forall. intros He.
    eapply Forall_impl; [|exact (Forall_and IH He)].
    simpl. intros e [? ?]. auto.
  - rewrite !foldr_and_Forall. intros [_ He].
    eapply Forall_impl; [|exact (Forall_and IH He)].
    simpl. intros [k v] [? [? ?]]. auto.
Qed.

Lemma insert_all_sorted {V} (d1 d2 : list (list Z * V)) :
  sorted (d1 ++ d2) → fold_left (λ d kv, insert d kv.1 kv.2) d2 d1 = d1 ++ d2.
Proof.
  revert d1. induction d2 as [|[k v] d2 IH]; intros d1 Hs; simpl; [by rewrite app_nil_r|].
  rewrite insert_end by by eapply sorted_app_inv.
  rewrite IH; by rewrite <-app_assoc.
Qed.

Lemma entry_of_cst_of e : plain e → entry_of (cst_of e) = e.
Proof.
  induction e as [|i|s|l IH|d IH|p] using entry_rect'; try done; cbn [plain cst_of entry_of].
  - intros Hi. f_equal. unfold int_ok, int64_max in Hi. unfold int_of.
    destruct (dec_digits_of_spec (Z.abs i) 19) as (_ & -> & _); [lia|done|].
    unfold int64_max. destruct (Z.ltb_spec (2 ^ 63 - 1) (Z.abs i)); [lia|].
    destruct (Z.ltb_spec i 0); lia.
  - rewrite foldr_and_Forall. intros He. f_equal. rewrite map_map.
    rewrite <-(map_id l) at 2. apply map_ext_Forall.
    eapply Forall_impl; [|exact (Forall_and IH He)].
    simpl. intros e [? ?]. auto.
  - rewrite foldr_and_Forall. intros [Hs He]. f_equal. rewrite map_map.
    assert (map (λ kv, (content (bstr_of kv.1, cst_of kv.2).1,
      entry_of (bstr_of kv.1, cst_of kv.2).2)) d = d) as ->.
    { rewrite <-(map_id d) at 2. apply map_ext_Forall.
      eapply Forall_impl; [|exact (Forall_and IH He)].
      simpl. intros [k v] [? [? ?]]. simpl in *. f_equal. auto. }
    by apply (insert_all_sorted []).
Qed.

(** * Comparison and swapping *)

Lemma op_eq_spec a b : op_eq a b = true ↔ a = b.
Proof.
  revert b. induction a as [|i|s|l IH|d IH|p] using entry_rect'; intros b; destruct b; simpl;
    try (split; [done|congruence]); try done.
  - rewrite Z.eqb_eq. split; [by intros ->|by intros [= ->]].
  - rewrite bool_decide_eq_true. split; [by intros ->|by intros [= ->]].
  - transitivity (l = l0); [|split; [by intros ->|by intros [= ->]]].
    revert l0. induction IH as [|e l He _ IHl]; intros [|b l0]; try done.
    rewrite andb_true_iff, He, IHl. split; [by intros [-> ->]|by intros [= -> ->]].
  - transitivity (d = d0); [|split; [by intros ->|by intros [= ->]]].
    revert d0. induction IH as [|[k e] d He _ IHd]; intros [|[k' b] d0]; try done.
    cbn [snd] in He. rewrite !andb_true_iff, bool_decide_eq_true, He, IHd.
    split; [by intros [[-> ->] ->]|by intros [= -> -> ->]].
  - rewrite bool_decide_eq_true. split; [by intros ->|by intros [= ->]].
Qed.

Lemma copy_id e : copy e = e.
Proof.
  induction e as [|i|s|l IH|d IH|p] using entry_rect'; simpl; try done; f_equal.
  - rewrite <-(map_id l) at 2. by apply map_ext_Forall.
  - rewrite <-(map_id d) at 2. apply map_ext_Forall.
    eapply Forall_impl; [|exact IH]. intros [k v] Hv. simpl in *. by f_equal.
Qed.
