(* ===== verification/BencodeProperties.v ===== *)
(** The properties of the bencoding components: what [bdecode] accepts, what
    the accessors of [bdecode_node] return, and the round trip through
    [entry]. *)

From Stdlib Require Import String.
From S2P Require Import Prelude.
From S2P Require Import StrMap.
From S2P Require Import StringUtil.
From S2P Require Import Bdecode.
From S2P Require Import BencodeGrammar.
From S2P Require Import BdecodeCorrect.
From S2P Require Import BdecodeTheorems.
From S2P Require Import BdecodeNode.
From S2P Require Import BdecodeNodeCorrect.
From S2P Require Import BdecodeWalk.
From S2P Require Import Entry.
From S2P Require Import EntryCorrect.

Open Scope Z_scope.

(** a message that the witnesses parse: a dictionary with a list of two numbers
    and a string *)
Definition sample : list Z := bytes_of "d1:ali1ei-20ee1:b2:xye".

Definition sample_cst : cst :=
  CDict [ (BStr (bytes_of "1") (bytes_of "a"),
           CList [CInt false (bytes_of "1"); CInt true (bytes_of "20")]);
          (BStr (bytes_of "1") (bytes_of "b"),
           CStr (BStr (bytes_of "2") (bytes_of "xy"))) ].

(** the node of a successful run *)
Definition root (buffer : list Z) (depth_limit token_limit : Z) : bdecode_node :=
  match bdecode buffer depth_limit token_limit with
  | Some r => node_of buffer r
  | None => default_node
  end.

Lemma sample_ok : cst_ok sample_cst.
Proof.
  assert (Hd : ∀ s : String.string, forallb numeric (bytes_of s) = true → digit_list (bytes_of s)).
  { intros s Hs. unfold digit_list. apply Forall_forall. intros c Hc.
    rewrite forallb_forall in Hs. by apply Hs. }
  unfold sample_cst. constructor. repeat constructor; try (by apply Hd); vm_compute; congruence.
Qed.

Lemma sample_denotes : denotes (root sample 100 1000) sample_cst.
Proof.
  apply (success_denotes sample sample_cst []); [reflexivity|apply sample_ok|].
  vm_compute. congruence.
Qed.

(** ** Parsing *)

(** C1: [bdecode] always returns.  It succeeds exactly when the buffer starts
    with a well-formed item that respects the limits on the size, the nesting
    and the number of tokens, and the node it then returns denotes that item;
    otherwise it reports an error. *)
Theorem bdecode_correct buffer depth_limit token_limit :
  ∃ res, bdecode buffer depth_limit token_limit = Some res ∧
    if is_error (r_ec res)
    then ∀ c r, buffer = print c ++ r → ¬ within_limits buffer depth_limit token_limit c
    else ∃ c r, buffer = print c ++ r ∧ within_limits buffer depth_limit token_limit c ∧
           denotes (node_of buffer res) c.
Proof.
  destruct (bdecode_cases buffer depth_limit token_limit)
    as [(c & r & Hb & Hw & Hrun)|(res & Hrun & He & _)].
  - exists (success c). split; [done|]. cbn. exists c, r. split; [done|]. split; [done|].
    destruct Hw as (Hmax & Hok & _). by eapply success_denotes.
  - exists res. split; [done|]. rewrite He. intros c r Hb Hw.
    rewrite (success_within _ _ _ _ _ Hb Hw) in Hrun. by injection Hrun as <-.
Qed.

(** the item that follows a prefix does not matter: an item that is
    within the limits is parsed whatever comes after it, and the node spans
    exactly the bytes of the item. *)
Theorem bdecode_prefix c rest depth_limit token_limit :
  within_limits (print c ++ rest) depth_limit token_limit c →
  ∃ res, bdecode (print c ++ rest) depth_limit token_limit = Some res ∧
    r_ec res = no_error ∧ r_error_pos res = None ∧ r_buffer_size res = vsize (print c) ∧
    data_section (node_of (print c ++ rest) res) = Some (print c).
Proof.
  intros Hw. exists (success c). split; [by eapply success_within|].
  split; [done|]. split; [done|]. split; [done|].
  destruct Hw as (Hmax & Hok & _). apply denotes_data_section. by eapply success_denotes.
Qed.

(** ** Accessors *)

(** [dict_find] returns the value of the first pair with the key, or an
    empty node when no pair has it; [dict_find_dict], [_list], [_string] and
    [_int] return it only when it has their type. *)
Theorem dict_find_correct ty n l key :
  denotes n (CDict l) →
  ∃ m m', dict_find n key = Some m ∧ dict_find_type ty n key = Some m' ∧
    match find_pair key l with
    | Some v => denotes m v ∧ if decide (cst_type v = ty) then denotes m' v else m' = default_node
    | None => m = default_node ∧ m' = default_node
    end.
Proof.
  intros Hn. destruct (denotes_dict_find n l key Hn) as (m & Hm & Hr).
  destruct (denotes_dict_find_type ty n l key Hn) as (m' & Hm' & Hr').
  exists m, m'. split; [done|]. split; [done|]. by destruct (find_pair key l).
Qed.

(** [string_value] returns the bytes of a string and [int_value] the value
    of a number, which is 0 exactly for the numbers whose magnitude exceeds
    [INT64_MAX]; no 64-bit operation overflows on the way. *)
Theorem values_correct n :
  (∀ s, denotes n (CStr s) →
     string_value n = Some (content s) ∧ string_length n = Some (vsize (content s))) ∧
  (∀ neg ds, denotes n (CInt neg ds) →
     int_value n = Some (let v := digits_value 0 ds in
                         if int64_max <? v then 0 else if neg then - v else v)).
Proof.
  split.
  - intros s Hn. destruct (denotes_string n s Hn). by split.
  - intros neg ds Hn. by apply denotes_int.
Qed.

(** C2: On a node whose caches belong to its container - a node as [bdecode],
    [list_at], [dict_at] and [dict_find] hand it out, or as any lookups before
    this one left it - [list_size] and [dict_size] return the number of items,
    0 for an empty container, [list_at(i)] returns the node of the [i]-th item
    and [dict_at(i)] the key and the node of the [i]-th pair, for every [i]
    that is in range, and each leaves the caches as those of the same container.
    [dict_find] returns the value of the first pair with the key, or an empty
    node when no pair has it, and [dict_find_dict], [_list], [_string] and [_int]
    return it only when it has their type.  [string_value] returns the bytes of
    a string and [int_value] the value of a number, which is 0 exactly for the
    numbers whose magnitude exceeds [INT64_MAX] and for zero itself; every one
    of them returns, so no product, sum or negation of [int64_t]s on the way
    overflows. *)
Theorem accessors_correct ty n i key :
  (∀ l, denotes n (CList l) →
     (∃ n1, list_size n = Some (n1, vsize l) ∧ denotes n1 (CList l)) ∧
     (∀ c, l⟦i⟧ = Some c →
        ∃ n1 m, list_at n i = Some (n1, m) ∧ denotes n1 (CList l) ∧ denotes m c)) ∧
  (∀ l, denotes n (CDict l) →
     (∃ n1, dict_size n = Some (n1, vsize l) ∧ denotes n1 (CDict l)) ∧
     (∀ k v, l⟦i⟧ = Some (k, v) →
        ∃ n1 m, dict_at n i = Some (n1, (content k, m)) ∧
          denotes n1 (CDict l) ∧ denotes m v) ∧
     ∃ m m', dict_find n key = Some m ∧ dict_find_type ty n key = Some m' ∧
       match find_pair key l with
       | Some v => denotes m v ∧ if decide (cst_type v = ty) then denotes m' v else m' = default_node
       | None => m = default_node ∧ m' = default_node
       end) ∧
  (∀ s, denotes n (CStr s) →
     string_value n = Some (content s) ∧ string_length n = Some (vsize (content s))) ∧
  (∀ neg ds, denotes n (CInt neg ds) →
     int_value n = Some (let v := digits_value 0 ds in
                         if int64_max <? v then 0 else if neg then - v else v)).
Proof.
  split; [|split; [|exact (values_correct n)]].
  - intros l Hn. split; [by apply denotes_list_size|]. intros c. by apply denotes_list_at.
  - intros l Hn. split; [by apply denotes_dict_size|]. split; [|by apply dict_find_correct].
    intros k v. by apply denotes_dict_at.
Qed.

Definition sample_list : list cst := [CInt false (bytes_of "1"); CInt true (bytes_of "20")].

(** 'le': an empty list, as the root of a decoded buffer *)
Definition empty_list_bytes : list Z := bytes_of "le".

Lemma empty_list_denotes : denotes (root empty_list_bytes 100 1000) (CList []).
Proof.
  apply (success_denotes empty_list_bytes (CList []) []); [reflexivity|by repeat constructor|].
  vm_compute. congruence.
Qed.

Lemma accessors_correct_witness :
  (∃ n, denotes n (CList sample_list) ∧
     (∃ n1, list_size n = Some (n1, 2) ∧ denotes n1 (CList sample_list)) ∧
     ∃ n1 m, list_at n 1 = Some (n1, m) ∧ denotes n1 (CList sample_list) ∧
       denotes m (CInt true (bytes_of "20"))) ∧
  (∃ n1, list_size (root empty_list_bytes 100 1000) = Some (n1, 0) ∧ denotes n1 (CList [])) ∧
  (∃ n1, dict_size (root sample 100 1000) = Some (n1, 2) ∧ denotes n1 sample_cst) ∧
  ∃ n1 m, dict_at (root sample 100 1000) 1 = Some (n1, (bytes_of "b", m)) ∧
    denotes n1 sample_cst ∧ denotes m (CStr (BStr (bytes_of "2") (bytes_of "xy"))).
Proof.
  split; [|split; [|split]].
  - destruct (denotes_dict_find _ _ (bytes_of "a") sample_denotes) as (n & _ & Hn). exists n.
    destruct (proj1 (accessors_correct tok_integer n 1 []) sample_list Hn) as [Hs Ha].
    split; [exact Hn|]. split; [exact Hs|]. exact (Ha (CInt true (bytes_of "20")) eq_refl).
  - exact (proj1 (proj1 (accessors_correct tok_integer _ 0 []) [] empty_list_denotes)).
  - exact (proj1 (proj1 (proj2 (accessors_correct tok_integer _ 0 [])) _ sample_denotes)).
  - exact (proj1 (proj2 (proj1 (proj2 (accessors_correct tok_integer _ 1 [])) _ sample_denotes))
             _ _ eq_refl).
Defined.

(** ** Walking an item *)

(** C3: [has_soft_error] of any decoded item returns, and reports no error
    exactly for the items that are canonical in this sense: no string or key
    has a leading zero in its length, no number without a sign has a leading
    zero, and the keys of every dictionary are strictly increasing, inside
    every part of the item.  A number with a sign is exempt, since the byte
    behind the 'i' is then '-': [i-01e] and [i-0e] report nothing.  For an item
    that is not canonical it reports the first error in the order of a walk
    that visits the parts of a container before the order of its keys. *)
Theorem has_soft_error_correct n c size :
  denotes n c →
  (has_soft_error n size = Some (false, []) ↔ canonical c) ∧
  has_soft_error n size =
    Some (match soft_error c with
          | Some e => (true, snprintf size e)
          | None => (false, [])
          end).
Proof.
  intros Hn. pose proof (denotes_soft_error n c size Hn) as H. split; [|done].
  rewrite H, <-soft_error_None. by destruct (soft_error c).
Qed.

(** 01, with and without a sign *)
Definition zero_one (neg : bool) : cst := CInt neg (bytes_of "01").

Lemma zero_one_denotes neg : denotes (root (print (zero_one neg)) 100 1000) (zero_one neg).
Proof.
  destruct neg.
  - apply (success_denotes (print (zero_one true)) (zero_one true) []);
      [reflexivity|repeat constructor; vm_compute; congruence|vm_compute; congruence].
  - apply (success_denotes (print (zero_one false)) (zero_one false) []);
      [reflexivity|repeat constructor; vm_compute; congruence|vm_compute; congruence].
Qed.

(** a dictionary whose keys are out of order *)
Definition unsorted_cst : cst :=
  CDict [ (BStr (bytes_of "1") (bytes_of "b"), CInt false (bytes_of "1"));
          (BStr (bytes_of "1") (bytes_of "a"), CInt false (bytes_of "2")) ].

Lemma unsorted_denotes : denotes (root (print unsorted_cst) 100 1000) unsorted_cst.
Proof.
  apply (success_denotes (print unsorted_cst) unsorted_cst []); [reflexivity| |vm_compute; congruence].
  unfold unsorted_cst. repeat constructor; vm_compute; congruence.
Qed.

Lemma has_soft_error_correct_witness :
  has_soft_error (root sample 100 1000) 100 = Some (false, []) ∧
  has_soft_error (root (bytes_of "i01e") 100 1000) 100 = Some (true, snprintf 100 leading_zero_int) ∧
  has_soft_error (root (bytes_of "i-01e") 100 1000) 100 = Some (false, []) ∧
  has_soft_error (root (bytes_of "d1:bi1e1:ai2ee") 100 1000) 100 = Some (true, snprintf 100 unsorted_key).
Proof.
  split; [exact (proj2 (has_soft_error_correct _ _ 100 sample_denotes))|].
  split; [exact (proj2 (has_soft_error_correct _ _ 100 (zero_one_denotes false)))|].
  split; [exact (proj2 (has_soft_error_correct _ _ 100 (zero_one_denotes true)))|].
  exact (proj2 (has_soft_error_correct _ _ 100 unsorted_denotes)).
Defined.

(** with a stack as deep as the token array is long, [line_longer_than]
    returns the length of the item on one line, or -1 when that exceeds the
    limit, and [print_entry] returns. *)
Theorem walks_return n c limit single_line indent :
  denotes n c →
  (∃ n', line_longer_than (node_fuel n) n limit =
     Some (n', if limit <? line_length c then -1 else line_length c) ∧ denotes n' c) ∧
  (∃ n' s, print_entry (node_fuel n) n single_line indent = Some (n', s) ∧ denotes n' c).
Proof.
  intros Hn. pose proof (node_fuel_depth n c Hn). split.
  - apply denotes_line_longer_than; [done|lia].
  - apply denotes_print_entry; [done|lia].
Qed.

(** ** Entries *)

(** the counts and lengths of the tokens of an entry's encoding that [bdecode]
    accepts *)
Definition fits (e : entry) (depth_limit token_limit : Z) : Prop :=
  vsize (print (cst_of e)) ≤ max_offset ∧ depth (cst_of e) ≤ depth_limit ∧
  vsize (tokens 0 (cst_of e)) ≤ token_limit.

(** C4: encoding an entry and decoding the bytes gives the entry back, for
    entries without undefined or preformatted parts whose numbers
    [integer_to_str] renders (those above -10^18), whose strings are shorter
    than 10^8 bytes, and which fit the limits the decoder is given: the encoding has at most [max_offset] bytes, it is nested
    at most as deep as [depth_limit] and it has at most [token_limit] tokens. *)
Theorem bencode_round_trip e depth_limit token_limit :
  plain e → fits e depth_limit token_limit →
  ∃ bytes res, bencode e = Some (bytes, vsize bytes) ∧
    bdecode bytes depth_limit token_limit = Some res ∧ r_ec res = no_error ∧
    assign_node (node_fuel (node_of bytes res)) (node_of bytes res) = Some e.
Proof.
  intros He (Hmax & Hd & Ht). pose proof (plain_encodable e He) as Henc.
  pose proof (cst_of_ok e Henc) as Hok.
  exists (print (cst_of e)), (success (cst_of e)). split; [by apply bencode_spec|].
  assert (Hb : print (cst_of e) = print (cst_of e) ++ []) by by rewrite app_nil_r.
  split; [by eapply success_within|]. split; [done|].
  assert (Hn : denotes (node_of (print (cst_of e)) (success (cst_of e))) (cst_of e))
    by by eapply success_denotes.
  pose proof (node_fuel_depth _ _ Hn).
  rewrite (assign_node_spec _ _ _ Hn) by lia. f_equal. by apply entry_of_cst_of.
Qed.

Definition sample_entry : entry :=
  dictionary_t [(bytes_of "a", list_t [int_t 7; int_t (-300)]); (bytes_of "b", string_t (bytes_of "x y"))].

Lemma bencode_round_trip_witness :
  plain sample_entry ∧ fits sample_entry 10 20 ∧
  ∃ bytes res, bencode sample_entry = Some (bytes, vsize bytes) ∧
    bdecode bytes 10 20 = Some res ∧ r_ec res = no_error ∧
    assign_node (node_fuel (node_of bytes res)) (node_of bytes res) = Some sample_entry.
Proof.
  assert (Hp : plain sample_entry).
  { repeat split; vm_compute; congruence. }
  assert (Hf : fits sample_entry 10 20).
  { repeat split; vm_compute; congruence. }
  split; [exact Hp|]. split; [exact Hf|].
  exact (bencode_round_trip sample_entry 10 20 Hp Hf).
Defined.

(** assigning any decoded item to an entry gives the entry that item
    stands for: of two pairs with one key the later wins, the map is ordered by
    key, and numbers and strings have the values of [accessors_correct]. *)
Theorem assign_node_correct n c :
  denotes n c → assign_node (node_fuel n) n = Some (entry_of c).
Proof.
  intros Hn. pose proof (node_fuel_depth n c Hn). apply assign_node_spec; [done|lia].
Qed.

(** [integer_to_str] renders every number above -10^18 that fits in 64
    bits as its decimal digits.  From -10^18 on down, the leading digit of a
    number is lost, for the loop stops one place before the sign: -10^18 is
    written as "-000000000000000000", and an entry with it reads back as 0. *)
Theorem integer_to_str_correct :
  (∀ v, - 10 ^ 18 < v ≤ int64_max → integer_to_str 21 v = Some (dec_string v)) ∧
  integer_to_str 21 (- 10 ^ 18) = Some (bytes_of "-000000000000000000") ∧
  ∃ bytes res, bencode (int_t (- 10 ^ 18)) = Some (bytes, vsize bytes) ∧
    bdecode bytes 100 100 = Some res ∧ r_ec res = no_error ∧
    assign_node (node_fuel (node_of bytes res)) (node_of bytes res) = Some (int_t 0).
Proof.
  split; [apply integer_to_str_spec|]. split; [vm_compute; reflexivity|].
  exists (bytes_of "i-000000000000000000e"). eexists.
  split; [vm_compute; reflexivity|]. split; [vm_compute; reflexivity|].
  split; vm_compute; reflexivity.
Qed.

(** [operator==] decides equality of entries, [copy] makes an equal entry,
    and [swap] exchanges two entries of one type or of which one is
    undefined. *)
Theorem entry_equality_and_swap a b :
  (op_eq a b = true ↔ a = b) ∧ op_eq (Entry.copy a) a = true ∧
  (data_type a = data_type b ∨ data_type a = 4 ∨ data_type b = 4 →
   Entry.swap a b = (b, a)).
Proof.
  split; [apply op_eq_spec|]. split; [apply op_eq_spec, EntryCorrect.copy_id|].
  destruct a, b; cbn; intros H; try done; by destruct H as [|[|]].
Qed.

Lemma entry_equality_and_swap_witness :
  op_eq sample_entry sample_entry = true ∧
  Entry.swap (int_t 7) undefined_t = (undefined_t, int_t 7).
Proof.
  split.
  - exact (proj2 (proj1 (entry_equality_and_swap sample_entry sample_entry)) eq_refl).
  - exact (proj2 (proj2 (entry_equality_and_swap (int_t 7) undefined_t))
             (or_intror (or_intror eq_refl))).
Defined.

(** ** Hexadecimal *)

(** [to_hex] writes two characters per byte, which [is_hex] accepts and
    [from_hex] turns back into the bytes. *)
Theorem hex_round_trip s :
  Forall (λ c, 0 ≤ c < 256) s →
  ∃ h, to_hex s = Some h ∧ from_hex h = Some (s, true) ∧ vsize h = 2 * vsize s ∧ is_hex h = true.
Proof. apply to_hex_spec. Qed.

Lemma hex_round_trip_witness :
  ∃ h, to_hex [0; 171; 255] = Some h ∧ from_hex h = Some ([0; 171; 255], true) ∧
    vsize h = 2 * vsize [0; 171; 255] ∧ is_hex h = true.
Proof.
  apply (hex_round_trip [0; 171; 255]). repeat constructor; vm_compute; congruence.
Defined.
