(* ===== verification/Random.v ===== *)
(** The random numbers of src/btdownloader/torrent/random.cpp and
    src/btdownloader/include/libtorrent/random.hpp.

    The standard fixes what [std::uniform_int_distribution] and [std::shuffle]
    return only up to the engine: a number in the range, a permutation of the
    range.  A class holds the engine and the two operations; [StdRandomOk]
    states what the standard promises about them. *)

From stdpp Require Import sorting.
From S2P Require Import Prelude.

Class StdRandom := {
  engine : Type;
  uniform_int_distribution : Z → Z → engine → Z * engine;
  std_shuffle : list Z → engine → list Z * engine
}.

Class StdRandomOk (R : StdRandom) := {
  uniform_range lo hi e : lo ≤ hi → lo ≤ (uniform_int_distribution lo hi e).1 ≤ hi;
  shuffle_perm l e : (std_shuffle l e).1 ≡ₚ l
}.

Section random.
Context {R : StdRandom}.

(** [random(max)]: a number in the closed range from 0 to [max], which is
    passed as a [std::uint32_t] *)
Definition random (max : Z) (e : engine) : Z * engine :=
  uniform_int_distribution 0 (uint 32 max) e.

Definition random_shuffle (l : list Z) (e : engine) : list Z * engine := std_shuffle l e.

Context {Rok : StdRandomOk R}.

Lemma random_range max e : 0 ≤ max < 2 ^ 32 → 0 ≤ (random max e).1 ≤ max.
Proof.
  intros Hm. unfold random. rewrite uint_small by done. apply uniform_range. lia.
Qed.
End random.

(** an instance: a linear congruential engine, the remainder of its state, and
    rotation of the range *)
#[export] Instance lcg : StdRandom := {
  engine := Z;
  uniform_int_distribution lo hi e :=
    (lo + e mod (hi - lo + 1), (e * 48271 + 11) mod 2147483647);
  std_shuffle l e :=
    let k := Z.to_nat (e mod (1 + vsize l)) in
    (drop k l ++ take k l, (e * 48271 + 11) mod 2147483647)
}.

#[export] Instance lcg_ok : StdRandomOk lcg.
Proof.
  split.
  - intros lo hi e H. simpl. pose proof (Z.mod_pos_bound e (hi - lo + 1) ltac:(lia)). lia.
  - intros l e. simpl.
    transitivity (take (Z.to_nat (e mod (1 + vsize l))) l ++ drop (Z.to_nat (e mod (1 + vsize l))) l).
    + apply Permutation_app_comm.
    + by rewrite take_drop.
Qed.
