(* ===== verification/PiecePicker.v ===== *)
(** The data of the piece picker: src/btdownloader/torrent/piece_picker.cpp
    and src/btdownloader/include/libtorrent/piece_picker.hpp.

    [m_piece_map], [m_pieces] and [m_priority_boundaries], which together hold
    the list of pickable pieces, are grouped in the record [layout]; the other
    members are the fields of [picker].  A [torrent_peer*] is an integer, with
    [nullptr] 0. *)

From stdpp Require Import gmap.
From S2P Require Import Prelude.
From S2P Require Import Random.

Open Scope Z_scope.

Definition torrent_peer : Type := Z.
Definition nullptr : torrent_peer := 0.

(** * Enumerations and constants *)

Definition priority_levels : Z := 8.
Definition prio_factor : Z := 3.
Definition max_blocks_per_piece : Z := 2 ^ 15 - 1.
Definition default_priority : Z := 4.
Definition dont_download : Z := 0.
Definition top_priority : Z := 7.
Definition filter_priority : Z := 0.
Definition we_have_index : Z := -1.
Definition max_peer_count : Z := 65535.
Definition default_block_size : Z := 16384.
Definition max_piece_affinity_extent : Z := Z.quot (4 * 1024 * 1024) default_block_size.

Inductive block_state := state_none | state_requested | state_writing | state_finished.

#[export] Instance block_state_dec : EqDecision block_state.
Proof. solve_decision. Defined.

Inductive download_queue_t :=
| piece_downloading
| piece_full
| piece_finished
| piece_zero_prio
| piece_open
| piece_downloading_reverse
| piece_full_reverse.

#[export] Instance download_queue_dec : EqDecision download_queue_t.
Proof. solve_decision. Defined.

(** [picker_options_t], a set of flags *)
Record picker_options_t := Options {
  rarest_first : bool;
  opt_reverse : bool;
  on_parole : bool;
  prioritize_partials : bool;
  sequential : bool;
  time_critical_mode : bool;
  align_expanded_pieces : bool;
  piece_extent_affinity : bool
}.

(** * Records *)

Record block_info := BlockInfo {
  peer : torrent_peer;
  num_peers : Z;        (* 14 bits *)
  bstate : block_state
}.

Definition block_info_default : block_info := BlockInfo nullptr 0 state_none.

Record downloading_piece := DownloadingPiece {
  dp_index : Z;
  info_idx : Z;              (* 16 bits *)
  finished : Z;              (* 15 bits *)
  passed_hash_check : bool;
  writing : Z;               (* 15 bits *)
  locked : bool;
  requested : Z;             (* 15 bits *)
  outstanding_hash_check : bool
}.

Definition with_finished (dp : downloading_piece) (n : Z) : downloading_piece :=
  DownloadingPiece (dp_index dp) (info_idx dp) (uint 15 n) (passed_hash_check dp) (writing dp)
    (locked dp) (requested dp) (outstanding_hash_check dp).
Definition with_writing (dp : downloading_piece) (n : Z) : downloading_piece :=
  DownloadingPiece (dp_index dp) (info_idx dp) (finished dp) (passed_hash_check dp) (uint 15 n)
    (locked dp) (requested dp) (outstanding_hash_check dp).
Definition with_requested (dp : downloading_piece) (n : Z) : downloading_piece :=
  DownloadingPiece (dp_index dp) (info_idx dp) (finished dp) (passed_hash_check dp) (writing dp)
    (locked dp) (uint 15 n) (outstanding_hash_check dp).
Definition with_passed (dp : downloading_piece) (b : bool) : downloading_piece :=
  DownloadingPiece (dp_index dp) (info_idx dp) (finished dp) b (writing dp)
    (locked dp) (requested dp) (outstanding_hash_check dp).
Definition with_locked (dp : downloading_piece) (b : bool) : downloading_piece :=
  DownloadingPiece (dp_index dp) (info_idx dp) (finished dp) (passed_hash_check dp) (writing dp)
    b (requested dp) (outstanding_hash_check dp).

Record piece_block := PieceBlock { piece_index : Z; block_index : Z }.

#[export] Instance piece_block_dec : EqDecision piece_block.
Proof. solve_decision. Defined.

Record piece_count := PieceCount { num_pieces_of : Z; pad_blocks : Z; last_piece : bool }.

(** ** [piece_pos] *)

Record piece_pos := PiecePos {
  peer_count : Z;                   (* 26 bits *)
  download_state : download_queue_t;
  piece_priority : Z;               (* 3 bits *)
  index : Z
}.

#[export] Instance piece_pos_dec : EqDecision piece_pos.
Proof. solve_decision. Defined.

(** [piece_pos(peer_count_, index_)] *)
Definition piece_pos2 (peer_count index : Z) : piece_pos :=
  PiecePos (uint 26 (uint 16 peer_count)) piece_open default_priority index.

Definition with_peer_count (p : piece_pos) (n : Z) : piece_pos :=
  PiecePos (uint 26 n) (download_state p) (piece_priority p) (index p).
Definition with_state (p : piece_pos) (q : download_queue_t) : piece_pos :=
  PiecePos (peer_count p) q (piece_priority p) (index p).
Definition with_priority (p : piece_pos) (n : Z) : piece_pos :=
  PiecePos (peer_count p) (download_state p) (uint 3 n) (index p).
Definition with_index (p : piece_pos) (i : Z) : piece_pos :=
  PiecePos (peer_count p) (download_state p) (piece_priority p) i.

Definition download_queue (p : piece_pos) : download_queue_t :=
  match download_state p with
  | piece_downloading_reverse => piece_downloading
  | piece_full_reverse => piece_full
  | q => q
  end.

Definition reverse (p : piece_pos) : bool :=
  match download_state p with
  | piece_downloading_reverse | piece_full_reverse => true
  | _ => false
  end.

Definition unreverse (p : piece_pos) : piece_pos :=
  match download_state p with
  | piece_downloading_reverse => with_state p piece_downloading
  | piece_full_reverse => with_state p piece_full
  | _ => p
  end.

Definition make_reverse (p : piece_pos) : piece_pos :=
  match download_state p with
  | piece_downloading => with_state p piece_downloading_reverse
  | piece_full => with_state p piece_full_reverse
  | _ => p
  end.

Definition have (p : piece_pos) : bool := index p =? we_have_index.
Definition set_have (p : piece_pos) : piece_pos := with_index p we_have_index.
Definition set_not_have (p : piece_pos) : piece_pos := with_index p 0.
Definition downloading (p : piece_pos) : bool := negb (bool_decide (download_state p = piece_open)).
Definition filtered (p : piece_pos) : bool := piece_priority p =? filter_priority.

(** [piece_pos::priority(picker)] *)
Definition priority (m_seeds : Z) (p : piece_pos) : Z :=
  if filtered p || have p || (peer_count p + m_seeds =? 0)
     || bool_decide (download_state p = piece_full)
     || bool_decide (download_state p = piece_finished)
  then -1
  else
    let adjustment :=
      if reverse p then -1
      else if negb (bool_decide (download_state p = piece_open)) then -3 else -2 in
    let availability := peer_count p + 1 in
    availability * (priority_levels - piece_priority p) * prio_factor + adjustment.

(** * The list of pickable pieces *)

Record layout := Layout {
  m_piece_map : list piece_pos;
  m_pieces : list Z;
  m_priority_boundaries : list Z
}.

(** [m_piece_map[i].index = t] *)
Definition set_index (l : layout) (i t : Z) : option layout :=
  p ← (m_piece_map l)⟦i⟧;
  m ← (m_piece_map l)⟦i := with_index p t⟧;
  Some (Layout m (m_pieces l) (m_priority_boundaries l)).

(** [m_pieces[t] = i] *)
Definition set_piece (l : layout) (t i : Z) : option layout :=
  s ← (m_pieces l)⟦t := i⟧;
  Some (Layout (m_piece_map l) s (m_priority_boundaries l)).

Definition set_boundaries (l : layout) (b : list Z) : layout :=
  Layout (m_piece_map l) (m_pieces l) b.
Definition set_pieces (l : layout) (s : list Z) : layout :=
  Layout (m_piece_map l) s (m_priority_boundaries l).
Definition set_map (l : layout) (m : list piece_pos) : layout :=
  Layout m (m_pieces l) (m_priority_boundaries l).

(** [v.resize(n, x)] *)
Definition vresize {A} (v : list A) (n : Z) (x : A) : list A :=
  take (Z.to_nat n) v ++ replicate (Z.to_nat (n - vsize v)) x.

Definition priority_begin (l : layout) (prio : Z) : option Z :=
  if prio =? 0 then Some 0 else (m_priority_boundaries l)⟦prio - 1⟧.

Definition priority_end (l : layout) (prio : Z) : option Z := (m_priority_boundaries l)⟦prio⟧.

Definition priority_range (l : layout) (prio : Z) : option (Z * Z) :=
  b ← priority_begin l prio; e ← priority_end l prio; Some (b, e).

(** the do-while loops of [add] and [remove] over the boundaries, which change
    each by [delta] until one differs from [stop].  [post] says whether the
    value looked at is the one before the change ([b++]) or after it
    ([--b]). *)
Fixpoint bump (fuel : nat) (delta : Z) (post : bool) (b : list Z) (prio stop : Z)
    : option (list Z * Z * Z) :=
  match fuel with
  | O => None
  | S fuel =>
      x ← b⟦prio⟧;
      b ← b⟦prio := x + delta⟧;
      let temp := if post then x else x + delta in
      let prio := prio + 1 in
      if (temp =? stop) && (prio <? vsize b) then bump fuel delta post b prio stop
      else Some (b, prio, temp)
  end.

(** the loop of [add]: piece [i] goes to slot [new_index], the piece it
    displaces goes on *)
Fixpoint add_loop (fuel : nat) (l : layout) (i prio new_index : Z)
    : option (layout * Z * Z) :=
  match fuel with
  | O => None
  | S fuel =>
      temp ← (m_pieces l)⟦new_index⟧;
      l ← set_piece l new_index i;
      l ← set_index l i new_index;
      let i := temp in
      '(b, prio, new_index) ←
        bump (length (m_priority_boundaries l)) 1 true (m_priority_boundaries l) prio new_index;
      let l := set_boundaries l b in
      if vsize b <=? prio then Some (l, i, new_index) else add_loop fuel l i prio new_index
  end.

(** the loop of [remove]: the last piece of each bucket fills the hole at
    [elem_index] *)
Fixpoint remove_loop (fuel : nat) (l : layout) (prio elem_index next_index : Z)
    : option layout :=
  match fuel with
  | O => None
  | S fuel =>
      '(b, prio, temp) ←
        bump (length (m_priority_boundaries l)) (-1) false (m_priority_boundaries l) prio next_index;
      let l := set_boundaries l b in
      if next_index =? temp then Some l
      else
        let next_index := temp in
        piece ← (m_pieces l)⟦next_index⟧;
        l ← set_piece l elem_index piece;
        l ← set_index l piece elem_index;
        let elem_index := next_index in
        if prio =? vsize b then Some l else remove_loop fuel l prio elem_index next_index
  end.

(** [remove(priority, elem_index)] *)
Definition remove (l : layout) (prio elem_index : Z) : option layout :=
  l ← remove_loop (S (length (m_priority_boundaries l))) l prio elem_index elem_index;
  match m_pieces l with
  | [] => None
  | _ => Some (set_pieces l (take (length (m_pieces l) - 1) (m_pieces l)))
  end.

(** the loops of [update]: the hole moves down ([up = true], towards the
    buckets of lower number) or up one bucket at a time *)
Fixpoint update_loop (up : bool) (fuel : nat) (l : layout) (prio new_priority elem_index temp : Z)
    : option (layout * Z) :=
  match fuel with
  | O => None
  | S fuel =>
      let b := m_priority_boundaries l in
      let prio' := if up then prio - 1 else prio in
      x ← b⟦prio'⟧;
      b ← b⟦prio' := if up then x + 1 else x - 1⟧;
      let new_index := if up then x else x - 1 in
      let l := set_boundaries l b in
      s ← (m_pieces l)⟦new_index⟧;
      '(l, temp) ← (if negb (temp =? s) then
                      l ← set_piece l elem_index s;
                      l ← set_index l s elem_index;
                      Some (l, s)
                    else Some (l, temp));
      let elem_index := new_index in
      let prio := if up then prio' else prio + 1 in
      if prio =? new_priority then Some (l, elem_index)
      else update_loop up fuel l prio new_priority elem_index temp
  end.

Section random.
Context {R : StdRandom}.

(** [add(index)] *)
Definition add (m_seeds : Z) (l : layout) (i : Z) (e : engine) : option (layout * engine) :=
  p ← (m_piece_map l)⟦i⟧;
  let prio := priority m_seeds p in
  if prio <? 0 then Some (l, e)
  else
    let b := m_priority_boundaries l in
    let l := if vsize b <=? prio
             then set_boundaries l (vresize b (prio + 1) (vsize (m_pieces l))) else l in
    '(first, second) ← priority_range l prio;
    let '(new_index, e) :=
      if second =? first then (first, e)
      else let '(r, e) := random (second - first) e in (r + first, e) in
    let l := set_pieces l (m_pieces l ++ [-1]) in
    '(l, i, new_index) ← add_loop (S (length (m_priority_boundaries l))) l i prio new_index;
    if negb (i =? -1) then
      l ← set_piece l new_index i; l ← set_index l i new_index; Some (l, e)
    else Some (l, e).

(** [shuffle(priority, elem_index)] *)
Definition shuffle (l : layout) (prio elem_index : Z) (e : engine)
    : option (layout * engine) :=
  '(first, second) ← priority_range l prio;
  let '(r, e) := random (second - first - 1) e in
  let other_index := r + first in
  if other_index =? elem_index then Some (l, e)
  else
    i1 ← (m_pieces l)⟦other_index⟧;
    i2 ← (m_pieces l)⟦elem_index⟧;
    p1 ← (m_piece_map l)⟦i1⟧;
    p2 ← (m_piece_map l)⟦i2⟧;
    l ← set_index l i1 (index p2);
    l ← set_index l i2 (index p1);
    l ← set_piece l other_index i2;
    l ← set_piece l elem_index i1;
    Some (l, e).

(** [update(priority, elem_index)] *)
Definition update (m_seeds : Z) (l : layout) (prio elem_index : Z) (e : engine)
    : option (layout * engine) :=
  i ← (m_pieces l)⟦elem_index⟧;
  p ← (m_piece_map l)⟦i⟧;
  let new_priority := priority m_seeds p in
  if new_priority =? prio then Some (l, e)
  else if new_priority =? -1 then l ← remove l prio elem_index; Some (l, e)
  else
    let b := m_priority_boundaries l in
    let l := if vsize b <=? new_priority
             then set_boundaries l (vresize b (new_priority + 1) (vsize (m_pieces l))) else l in
    '(l, elem_index) ←
      update_loop (new_priority <? prio) (S (length (m_priority_boundaries l))) l prio
        new_priority elem_index i;
    l ← set_piece l elem_index i;
    l ← set_index l i elem_index;
    shuffle l new_priority elem_index e.

(** ** [update_pieces] *)

(** the first loop: the pieces of each priority are counted, and numbered in
    [index] *)
Fixpoint count_pieces (m_seeds : Z) (m : list piece_pos) (b : list Z)
    : option (list piece_pos * list Z) :=
  match m with
  | [] => Some ([], b)
  | pos :: m =>
      let prio := priority m_seeds pos in
      if prio =? -1 then '(m, b) ← count_pieces m_seeds m b; Some (pos :: m, b)
      else
        let b := if vsize b <=? prio then vresize b (prio + 1) 0 else b in
        x ← b⟦prio⟧;
        b ← b⟦prio := x + 1⟧;
        '(m, b) ← count_pieces m_seeds m b;
        Some (with_index pos x :: m, b)
  end.

(** the second loop: the counters become cumulative *)
Fixpoint accumulate (b : list Z) (new_size : Z) : list Z * Z :=
  match b with
  | [] => ([], new_size)
  | x :: b => let '(b, n) := accumulate b (new_size + x) in (new_size + x :: b, n)
  end.

(** the third loop: every piece goes to its slot *)
Fixpoint place_pieces (m_seeds : Z) (m : list piece_pos) (piece : Z) (l : layout)
    : option layout :=
  match m with
  | [] => Some l
  | p :: m =>
      let prio := priority m_seeds p in
      if prio =? -1 then place_pieces m_seeds m (piece + 1) l
      else
        b ← priority_begin l prio;
        l ← set_piece l (b + index p) piece;
        place_pieces m_seeds m (piece + 1) l
  end.

(** the fourth loop: the ranges are shuffled *)
Fixpoint shuffle_ranges (b : list Z) (start : Z) (s : list Z) (e : engine)
    : option (list Z * engine) :=
  match b with
  | [] => Some (s, e)
  | x :: b =>
      if start =? x then shuffle_ranges b start s e
      else
        _ ← guard_b ((0 <=? start) && (start <=? x) && (x <=? vsize s));
        let '(r, e) :=
          random_shuffle (take (Z.to_nat (x - start)) (drop (Z.to_nat start) s)) e in
        shuffle_ranges b x (take (Z.to_nat start) s ++ r ++ drop (Z.to_nat x) s) e
  end.

(** the last loop: the piece map learns the slots *)
Fixpoint index_pieces (s : list Z) (t : Z) (l : layout) : option layout :=
  match s with
  | [] => Some l
  | p :: s => l ← set_index l p t; index_pieces s (t + 1) l
  end.

Definition update_pieces (m_seeds : Z) (l : layout) (e : engine)
    : option (layout * engine) :=
  let b := m_priority_boundaries l in
  let b := match b with [] => [0] | _ => b end in
  '(m, b) ← count_pieces m_seeds (m_piece_map l) (map (λ _, 0) b);
  let '(b, new_size) := accumulate b 0 in
  let l := Layout m (vresize (m_pieces l) new_size 0) b in
  l ← place_pieces m_seeds (m_piece_map l) 0 l;
  '(s, e) ← shuffle_ranges (m_priority_boundaries l) 0 (m_pieces l) e;
  l ← index_pieces s 0 (set_pieces l s);
  Some (l, e).
End random.
