(* ===== verification/PickerBuckets.v ===== *)
(** The list of pickable pieces: [add], [remove], [update], [shuffle] and
    [update_pieces] keep every piece in the range of its priority.

    The invariant is stated for any assignment [pr] of buckets to pieces; an
    operation changes the bucket of one piece. *)

From S2P Require Import Prelude.
From S2P Require Import Random.
From S2P Require Import PiecePicker.

Open Scope Z_scope.

(** * Boundaries *)

(** the boundary above bucket [q], with 0 below the first bucket *)
Definition bnd (b : list Z) (q : Z) : Z := match b⟦q⟧ with Some x => x | None => 0 end.

Definition in_bucket (b : list Z) (t q : Z) : Prop :=
  0 ≤ q < vsize b ∧ bnd b (q - 1) ≤ t < bnd b q.

Definition mono (b : list Z) : Prop := ∀ q, 0 ≤ q < vsize b → bnd b (q - 1) ≤ bnd b q.

Lemma bnd_lookup b q : 0 ≤ q < vsize b → b⟦q⟧ = Some (bnd b q).
Proof. intros Hq. unfold bnd. by destruct (vget_is_Some b q Hq) as [x ->]. Qed.

Lemma bnd_neg b q : q < 0 → bnd b q = 0.
Proof. intros Hq. unfold bnd. by rewrite vget_None by lia. Qed.

Lemma bnd_vset b k x b' q : b⟦k := x⟧ = Some b' → bnd b' q = if q =? k then x else bnd b q.
Proof. intros Hb. unfold bnd. rewrite (vset_get _ _ _ _ _ Hb). by destruct (q =? k). Qed.

Lemma mono_le b j k : mono b → -1 ≤ j ≤ k → k < vsize b → bnd b j ≤ bnd b k.
Proof.
  intros Hm Hjk Hk. replace k with (j + Z.of_nat (Z.to_nat (k - j))) in * by lia.
  clear Hjk. induction (Z.to_nat (k - j)) as [|n IH].
  - by rewrite Z.add_0_r.
  - transitivity (bnd b (j + Z.of_nat n)); [apply IH; lia|].
    destruct (decide (0 ≤ j + Z.of_nat (S n))) as [Hpos|].
    + specialize (Hm (j + Z.of_nat (S n)) ltac:(lia)).
      by replace (j + Z.of_nat (S n) - 1) with (j + Z.of_nat n) in Hm by lia.
    + rewrite !bnd_neg by lia. done.
Qed.

Lemma in_bucket_unique b t q1 q2 :
  mono b → in_bucket b t q1 → in_bucket b t q2 → q1 = q2.
Proof.
  intros Hm [Hq1 Ht1] [Hq2 Ht2].
  destruct (Z.lt_trichotomy q1 q2) as [H|[H|H]]; [|done|].
  - pose proof (mono_le b q1 (q2 - 1) Hm). lia.
  - pose proof (mono_le b q2 (q1 - 1) Hm). lia.
Qed.

Lemma vresize_size {A} (v : list A) n x : 0 ≤ n → vsize (vresize v n x) = n.
Proof.
  intros Hn. unfold vresize. rewrite vsize_app. unfold vsize.
  rewrite length_take, length_replicate. lia.
Qed.

Lemma vresize_get {A} (v : list A) n x i :
  0 ≤ i < n → (vresize v n x)⟦i⟧ = if i <? vsize v then v⟦i⟧ else Some x.
Proof.
  intros Hi. rewrite <-(Z2Nat.id i) by lia. rewrite !vget_nat. unfold vresize.
  destruct (Z.ltb_spec (Z.of_nat (Z.to_nat i)) (vsize v)) as [Hlt|Hge].
  - rewrite lookup_app_l.
    + rewrite lookup_take. by rewrite decide_True by lia.
    + rewrite length_take. unfold vsize in Hlt. lia.
  - rewrite lookup_app_r.
    + rewrite length_take. apply lookup_replicate_2. unfold vsize in *. lia.
    + rewrite length_take. unfold vsize in *. lia.
Qed.

Lemma bump_spec fuel delta (post : bool) b k stop :
  0 ≤ k < vsize b → vsize b - k ≤ Z.of_nat fuel →
  let val q := bnd b q + (if post then 0 else delta) in
  ∃ b' k', bump fuel delta post b k stop = Some (b', k', val (k' - 1)) ∧
    k < k' ≤ vsize b ∧ vsize b' = vsize b ∧
    (∀ q, bnd b' q = bnd b q + (if (k <=? q) && (q <? k') then delta else 0)) ∧
    (∀ q, k ≤ q < k' - 1 → val q = stop) ∧
    (val (k' - 1) = stop → k' = vsize b).
Proof.
  revert b k. induction fuel as [|fuel IH]; intros b k Hk Hf val; [lia|].
  cbn [bump]. rewrite (bnd_lookup b k Hk). cbn [mbind option_bind].
  destruct (vset_is_Some b k (bnd b k + delta) Hk) as [b1 Hb1]. rewrite Hb1.
  cbn [mbind option_bind].
  pose proof (vset_size _ _ _ _ Hb1) as Hs1. pose proof (λ q, bnd_vset _ _ _ _ q Hb1) as Hget.
  assert (Hval : (if post then bnd b k else bnd b k + delta) = val k)
    by (unfold val; destruct post; lia).
  rewrite Hval, Hs1.
  destruct (Z.eqb_spec (val k) stop) as [Heq|Hne]; cbn [andb].
  2: { exists b1, (k + 1). replace (k + 1 - 1) with k by lia.
       split_and!; try done; try lia. intros q. rewrite Hget.
       destruct (Z.eqb_spec q k), (Z.leb_spec k q), (Z.ltb_spec q (k + 1)); subst; simpl; lia. }
  destruct (Z.ltb_spec (k + 1) (vsize b)) as [Hlt|Hge].
  2: { exists b1, (k + 1). replace (k + 1 - 1) with k by lia.
       split_and!; try done; try lia. intros q. rewrite Hget.
       destruct (Z.eqb_spec q k), (Z.leb_spec k q), (Z.ltb_spec q (k + 1)); subst; simpl; lia. }
  destruct (IH b1 (k + 1)) as (b' & k' & Hrun & Hk' & Hs' & Hb' & Hstop & Hend); [lia|lia|].
  assert (Hv : ∀ q, k + 1 ≤ q → bnd b1 q = bnd b q).
  { intros q Hq. rewrite Hget. destruct (Z.eqb_spec q k); [lia|done]. }
  exists b', k'. rewrite Hrun, (Hv (k' - 1)) by lia. split_and!; try done; try lia.
  - intros q. rewrite Hb', Hget.
    destruct (Z.eqb_spec q k), (Z.leb_spec k q), (Z.leb_spec (k + 1) q), (Z.ltb_spec q k');
      subst; simpl; lia.
  - intros q Hq. destruct (decide (q = k)) as [->|]; [done|].
    unfold val. rewrite <-(Hv q) by lia. apply Hstop. lia.
  - intros He. rewrite Hend; [done|]. unfold val in He. rewrite (Hv (k' - 1)) by lia. done.
Qed.

(** * The invariant *)

(** every slot but [h] holds a piece that knows its slot and satisfies [V];
    every piece of a bucket but [x] is in the slot it knows *)
Definition partial (V : Z → Z → Prop) (h x : Z) (pr : Z → Z) (l : layout) : Prop :=
  (∀ t i, t ≠ h → (m_pieces l)⟦t⟧ = Some i →
     ∃ p, (m_piece_map l)⟦i⟧ = Some p ∧ index p = t ∧ 0 ≤ pr i ∧ V t (pr i) ∧ i ≠ x) ∧
  (∀ i p, (m_piece_map l)⟦i⟧ = Some p → 0 ≤ pr i → i ≠ x →
     index p ≠ h ∧ (m_pieces l)⟦index p⟧ = Some i).

Record bucket_inv (pr : Z → Z) (l : layout) : Prop := {
  inv_mono : mono (m_priority_boundaries l);
  inv_ne : 0 < vsize (m_priority_boundaries l);
  inv_last : bnd (m_priority_boundaries l) (vsize (m_priority_boundaries l) - 1) =
             vsize (m_pieces l);
  inv_slots : partial (in_bucket (m_priority_boundaries l)) (-1) (-1) pr l
}.

(** the piece maps differ in the slots of the pieces we do not have *)
Definition moved (m m' : list piece_pos) : Prop :=
  vsize m' = vsize m ∧
  ∀ i p, m⟦i⟧ = Some p →
    ∃ t, m'⟦i⟧ = Some (with_index p t) ∧ (t = index p ∨ (0 ≤ t ∧ index p ≠ -1)).

#[export] Instance moved_refl : Reflexive moved.
Proof.
  intros m. split; [done|]. intros i p Hp. exists (index p). split; [|by left].
  rewrite Hp. by destruct p.
Qed.

#[export] Instance moved_trans : Transitive moved.
Proof.
  intros m1 m2 m3 [Hs1 H1] [Hs2 H2]. split; [congruence|]. intros i p Hp.
  destruct (H1 i p Hp) as (t & Ht & Hc). destruct (H2 i _ Ht) as (t' & Ht' & Hc').
  exists t'. split; [done|]. simpl in Hc'. lia.
Qed.

Lemma with_index_index p t : index (with_index p t) = t.
Proof. done. Qed.

Lemma set_index_spec l i t p :
  (m_piece_map l)⟦i⟧ = Some p → index p ≠ -1 → 0 ≤ t →
  ∃ m, set_index l i t = Some (set_map l m) ∧ moved (m_piece_map l) m ∧
    m⟦i⟧ = Some (with_index p t) ∧ (∀ j, j ≠ i → m⟦j⟧ = (m_piece_map l)⟦j⟧).
Proof.
  intros Hp Hi Ht. unfold set_index. rewrite Hp. cbn [mbind option_bind].
  pose proof (vget_Some_range _ _ _ Hp) as Hr.
  destruct (vset_is_Some (m_piece_map l) i (with_index p t) Hr) as [m Hm].
  rewrite Hm. cbn [mbind option_bind]. exists m. split; [done|].
  pose proof (λ j, vset_get _ _ _ _ j Hm) as Hget. split_and!.
  - split; [by apply vset_size in Hm|]. intros j q Hq. rewrite Hget.
    destruct (Z.eqb_spec j i) as [->|].
    + rewrite Hp in Hq. injection Hq as <-. exists t. split; [done|lia].
    + exists (index q). rewrite Hq. split; [by destruct q|by left].
  - by rewrite Hget, Z.eqb_refl.
  - intros j Hj. rewrite Hget. by destruct (Z.eqb_spec j i).
Qed.

Lemma set_piece_spec l t i :
  0 ≤ t < vsize (m_pieces l) →
  ∃ s, set_piece l t i = Some (set_pieces l s) ∧ vsize s = vsize (m_pieces l) ∧
    s⟦t⟧ = Some i ∧ (∀ u, u ≠ t → s⟦u⟧ = (m_pieces l)⟦u⟧).
Proof.
  intros Ht. unfold set_piece. destruct (vset_is_Some (m_pieces l) t i Ht) as [s Hs].
  rewrite Hs. cbn [mbind option_bind]. exists s. split; [done|].
  pose proof (λ j, vset_get _ _ _ _ j Hs) as Hget.
  split; [by apply vset_size in Hs|]. split; [by rewrite Hget, Z.eqb_refl|].
  intros u Hu. rewrite Hget. by destruct (Z.eqb_spec u t).
Qed.

(** a piece that can be given a slot *)
Definition movable (l : layout) (i : Z) : Prop :=
  ∃ p, (m_piece_map l)⟦i⟧ = Some p ∧ index p ≠ -1.

(** writing a piece to a slot *)
Lemma write_slot l t i :
  0 ≤ t < vsize (m_pieces l) → movable l i →
  ∃ l1 l2, set_piece l t i = Some l1 ∧ set_index l1 i t = Some l2 ∧
    m_priority_boundaries l2 = m_priority_boundaries l ∧
    vsize (m_pieces l2) = vsize (m_pieces l) ∧
    moved (m_piece_map l) (m_piece_map l2) ∧
    (∀ u, (m_pieces l2)⟦u⟧ = if u =? t then Some i else (m_pieces l)⟦u⟧) ∧
    (∃ p, (m_piece_map l2)⟦i⟧ = Some p ∧ index p = t) ∧
    (∀ j, j ≠ i → (m_piece_map l2)⟦j⟧ = (m_piece_map l)⟦j⟧).
Proof.
  intros Ht (p & Hp & Hi).
  destruct (set_piece_spec l t i Ht) as (s & -> & Hs & Hst & Hsu).
  destruct (set_index_spec (set_pieces l s) i t p Hp Hi ltac:(lia)) as (m & Hm & Hmv & Hmi & Hmj).
  eexists _, _. split; [done|]. split; [exact Hm|]. simpl. split_and!; try done.
  - intros u. destruct (Z.eqb_spec u t) as [->|]; auto.
  - by exists (with_index p t).
Qed.

Lemma partial_movable V h x pr l t i :
  partial V h x pr l → t ≠ h → (m_pieces l)⟦t⟧ = Some i → movable l i.
Proof.
  intros [Hf _] Ht Hi. destruct (Hf t i Ht Hi) as (p & Hp & Hidx & _). exists p.
  split; [done|]. apply vget_Some_range in Hi. lia.
Qed.

(** the pending piece [x] takes slot [s]; the piece it displaces is pending *)
Lemma place_step V V' h x pr l s y :
  partial V h x pr l → (m_pieces l)⟦s⟧ = Some y → s ≠ h → movable l x →
  0 ≤ pr x → V' s (pr x) → (∀ t q, t ≠ s → t ≠ h → V t q → V' t q) →
  ∃ l1 l2, set_piece l s x = Some l1 ∧ set_index l1 x s = Some l2 ∧
    m_priority_boundaries l2 = m_priority_boundaries l ∧
    vsize (m_pieces l2) = vsize (m_pieces l) ∧ moved (m_piece_map l) (m_piece_map l2) ∧
    partial V' h y pr l2 ∧ movable l2 y ∧ (m_pieces l2)⟦h⟧ = (m_pieces l)⟦h⟧.
Proof.
  intros Hpart Hy Hsh Hmov Hpr HV HVV.
  pose proof (vget_Some_range _ _ _ Hy) as Hr.
  pose proof (partial_movable _ _ _ _ _ _ _ Hpart Hsh Hy) as (py & Hpy & Hiy).
  destruct Hpart as [Hf Hp].
  destruct (Hf s y Hsh Hy) as (py' & Hpy' & Hidx & _ & _ & Hyx).
  destruct (write_slot l s x Hr Hmov)
    as (l1 & l2 & H1 & H2 & Hb & Hs & Hmv & Hslot & (px & Hpx & Hix) & Hmap).
  exists l1, l2. split_and!; try done.
  - split.
    + intros t i Ht Hti. rewrite Hslot in Hti. destruct (Z.eqb_spec t s) as [->|Hts].
      * injection Hti as <-. exists px. split_and!; try done.
      * destruct (Hf t i Ht Hti) as (p & Hpi & Hpt & Hpos & HVt & Hix').
        exists p. rewrite Hmap by done. split_and!; try done; [by apply HVV|].
        intros ->. rewrite Hpy' in Hpi. congruence.
    + intros i p Hpi Hpos Hiy'. destruct (decide (i = x)) as [->|Hix'].
      * rewrite Hpx in Hpi. injection Hpi as <-. rewrite Hix. split; [done|].
        by rewrite Hslot, Z.eqb_refl.
      * rewrite Hmap in Hpi by done. destruct (Hp i p Hpi Hpos Hix') as [Hh Hsl].
        split; [done|]. rewrite Hslot. destruct (Z.eqb_spec (index p) s) as [He|]; [|done].
        rewrite He in Hsl. congruence.
  - exists py. rewrite Hmap by done. done.
  - rewrite Hslot. destruct (Z.eqb_spec h s); [congruence|done].
Qed.

(** the piece of slot [n] fills the hole [h]; the hole moves to [n] *)
Lemma move_step V V' h x pr l n y :
  partial V h x pr l → (m_pieces l)⟦n⟧ = Some y → n ≠ h → 0 ≤ h < vsize (m_pieces l) →
  V' h (pr y) → (∀ t q, t ≠ n → t ≠ h → V t q → V' t q) →
  ∃ l1 l2, set_piece l h y = Some l1 ∧ set_index l1 y h = Some l2 ∧
    m_priority_boundaries l2 = m_priority_boundaries l ∧
    vsize (m_pieces l2) = vsize (m_pieces l) ∧ moved (m_piece_map l) (m_piece_map l2) ∧
    partial V' n x pr l2 ∧ y ≠ x ∧
    (∃ p, (m_piece_map l2)⟦y⟧ = Some p ∧ index p = h) ∧ (m_pieces l2)⟦n⟧ = Some y ∧
    (m_piece_map l2)⟦x⟧ = (m_piece_map l)⟦x⟧.
Proof.
  intros Hpart Hy Hnh Hh HV HVV.
  pose proof (partial_movable _ _ _ _ _ _ _ Hpart Hnh Hy) as Hmov.
  destruct Hpart as [Hf Hp].
  destruct (Hf n y Hnh Hy) as (py & Hpy & Hidx & Hposy & _ & Hyx).
  destruct (write_slot l h y Hh Hmov)
    as (l1 & l2 & H1 & H2 & Hb & Hs & Hmv & Hslot & (p2 & Hp2 & Hi2) & Hmap).
  exists l1, l2. split_and!; try done.
  - split.
    + intros t i Ht Hti. rewrite Hslot in Hti. destruct (Z.eqb_spec t h) as [->|Hth].
      * injection Hti as <-. exists p2. split_and!; done.
      * destruct (Hf t i Hth Hti) as (p & Hpi & Hpt & Hpos & HVt & Hix).
        assert (i ≠ y) by (intros ->; congruence).
        exists p. rewrite Hmap by done. split_and!; try done. by apply HVV.
    + intros i p Hpi Hpos Hix. destruct (decide (i = y)) as [->|Hiy].
      * rewrite Hp2 in Hpi. injection Hpi as <-. rewrite Hi2. split; [congruence|].
        by rewrite Hslot, Z.eqb_refl.
      * rewrite Hmap in Hpi by done. destruct (Hp i p Hpi Hpos Hix) as [Hh' Hsl].
        rewrite Hslot. destruct (Z.eqb_spec (index p) h); [done|]. split; [|done].
        intros He. rewrite He in Hsl. congruence.
  - by exists p2.
  - rewrite Hslot. by destruct (Z.eqb_spec n h).
  - by apply Hmap.
Qed.

(** the pending piece fills the hole *)
Lemma fill_step V V' h x pr l :
  partial V h x pr l → 0 ≤ h < vsize (m_pieces l) → movable l x →
  0 ≤ pr x → V' h (pr x) →
  (∀ t q, t ≠ h → 0 ≤ t < vsize (m_pieces l) → V t q → V' t q) →
  ∃ l1 l2, set_piece l h x = Some l1 ∧ set_index l1 x h = Some l2 ∧
    m_priority_boundaries l2 = m_priority_boundaries l ∧
    vsize (m_pieces l2) = vsize (m_pieces l) ∧ moved (m_piece_map l) (m_piece_map l2) ∧
    partial V' (-1) (-1) pr l2 ∧ (m_pieces l2)⟦h⟧ = Some x.
Proof.
  intros [Hf Hp] Hh Hmov Hpos HV HVV.
  destruct (write_slot l h x Hh Hmov)
    as (l1 & l2 & H1 & H2 & Hb & Hs & Hmv & Hslot & (px & Hpx & Hix) & Hmap).
  exists l1, l2. split_and!; try done.
  - split.
    + intros t i _ Hti. pose proof (vget_Some_range _ _ _ Hti) as Hr.
      rewrite Hslot in Hti. destruct (Z.eqb_spec t h) as [->|Hth].
      * injection Hti as <-. exists px. split_and!; try done.
        apply vget_Some_range in Hpx. lia.
      * destruct (Hf t i Hth Hti) as (p & Hpi & Hpt & Hposi & HVt & Hix').
        exists p. rewrite Hmap by done. split_and!; try done.
        -- apply HVV; [done| |done]. by rewrite <-Hs.
        -- apply vget_Some_range in Hpi. lia.
    + intros i p Hpi Hposi _. destruct (decide (i = x)) as [->|Hix'].
      * rewrite Hpx in Hpi. injection Hpi as <-. rewrite Hix. split; [lia|].
        by rewrite Hslot, Z.eqb_refl.
      * rewrite Hmap in Hpi by done. destruct (Hp i p Hpi Hposi Hix') as [Hh' Hsl].
        rewrite Hslot. destruct (Z.eqb_spec (index p) h); [done|]. split; [|done].
        apply vget_Some_range in Hsl. lia.
  - by rewrite Hslot, Z.eqb_refl.
Qed.

(** * [add] *)

(** validity of a slot while a loop is at slot [s]: below it the buckets are
    the final ones ([f]), above it the original ones *)
Definition split_valid (b : list Z) (f : Z → Z) (lo : bool) (s t q : Z) : Prop :=
  0 ≤ q < vsize b ∧
  if (if lo then t <? s else s <? t) then f (q - 1) ≤ t < f q else bnd b (q - 1) ≤ t < bnd b q.

(** boundaries that are [d] higher in the buckets from [q0] up to [k] *)
Definition shifted (b : list Z) (d q0 k : Z) (q : Z) : Z :=
  bnd b q + (if (q0 <=? q) && (q <? k) then d else 0).

Lemma shifted_cases b d q0 k q :
  (q0 ≤ q < k ∧ shifted b d q0 k q = bnd b q + d) ∨
  (¬ (q0 ≤ q < k) ∧ shifted b d q0 k q = bnd b q).
Proof.
  unfold shifted. destruct (Z.leb_spec q0 q), (Z.ltb_spec q k); simpl; [left|right..]; lia.
Qed.

Ltac shifted q :=
  match goal with
  | |- context [shifted ?b ?d ?q0 ?k q] => destruct (shifted_cases b d q0 k q) as [[? ->]|[? ->]]
  | H : context [shifted ?b ?d ?q0 ?k q] |- _ =>
      destruct (shifted_cases b d q0 k q) as [[? H']|[? H']]; rewrite H' in *; clear H'
  end.

Lemma add_loop_spec fuel b0 q0 l x k s pr :
  mono b0 → 0 ≤ q0 ≤ k → k < vsize b0 → vsize b0 - k ≤ Z.of_nat fuel →
  vsize (m_priority_boundaries l) = vsize b0 →
  (∀ q, bnd (m_priority_boundaries l) q = shifted b0 1 q0 k q) →
  let f := shifted b0 1 q0 (vsize b0) in
  let N := bnd b0 (vsize b0 - 1) in
  vsize (m_pieces l) = N + 1 → (m_pieces l)⟦N⟧ = Some (-1) →
  partial (split_valid b0 f true s) N x pr l → movable l x → 0 ≤ pr x < vsize b0 →
  f (pr x - 1) ≤ s < f (pr x) → bnd b0 (k - 1) ≤ s ≤ bnd b0 k →
  ∃ l' x' s', add_loop fuel l x k s = Some (l', x', s') ∧
    vsize (m_priority_boundaries l') = vsize b0 ∧
    (∀ q, bnd (m_priority_boundaries l') q = f q) ∧
    moved (m_piece_map l) (m_piece_map l') ∧ vsize (m_pieces l') = N + 1 ∧
    ((x' = -1 ∧ partial (λ t q, 0 ≤ q < vsize b0 ∧ f (q - 1) ≤ t < f q) (-1) (-1) pr l') ∨
     (x' ≠ -1 ∧ s' = N ∧ movable l' x' ∧ 0 ≤ pr x' < vsize b0 ∧ f (pr x' - 1) ≤ N < f (pr x') ∧
      partial (λ t q, 0 ≤ q < vsize b0 ∧ f (q - 1) ≤ t < f q) N x' pr l')).
Proof.
  intros Hmono Hq0. revert l x k s Hq0.
  induction fuel as [|fuel IH]; intros l x k s Hq0 Hk Hfuel Hsz Hb f N HN Hhole Hpart Hmov Hprx Hfx Hs;
    [lia|].
  cbn [add_loop].
  assert (HsN : 0 ≤ s ≤ N).
  { pose proof (mono_le b0 k (vsize b0 - 1) Hmono ltac:(lia) ltac:(lia)).
    pose proof (mono_le b0 (-1) (k - 1) Hmono ltac:(lia) ltac:(lia)) as H0.
    rewrite bnd_neg in H0 by lia. lia. }
  destruct (vget_is_Some (m_pieces l) s) as [y Hy]; [lia|]. rewrite Hy. cbn [mbind option_bind].
  destruct (decide (s = N)) as [->|HsN'].
  - (* the new slot at the end *)
    rewrite Hhole in Hy. injection Hy as <-.
    destruct (fill_step _ (λ t q, 0 ≤ q < vsize b0 ∧ f (q - 1) ≤ t < f q) _ _ _ _ Hpart)
      as (l1 & l2 & -> & Hl2 & Hb2 & Hs2 & Hmv2 & Hp2 & _); [lia|done|lia|done| |].
    { intros t q Ht Hr [Hq HV]. split; [done|].
      destruct (Z.ltb_spec t N); [done|lia]. }
    cbn [mbind option_bind]. rewrite Hl2. cbn [mbind option_bind].
    destruct (bump_spec (length (m_priority_boundaries l2)) 1 true (m_priority_boundaries l2) k N)
      as (b' & k' & -> & Hk' & Hsb' & Hb' & Hstop & Hend);
      [rewrite Hb2; lia|rewrite Hb2; unfold vsize; lia|].
    cbn [mbind option_bind].
    assert (Hall : ∀ q, k ≤ q < vsize b0 → bnd (m_priority_boundaries l2) q + 0 = N).
    { intros q Hq. rewrite Hb2, Hb. unfold shifted. destruct (Z.ltb_spec q k); [lia|].
      rewrite andb_false_r.
      pose proof (mono_le b0 k q Hmono ltac:(lia) ltac:(lia)).
      pose proof (mono_le b0 q (vsize b0 - 1) Hmono ltac:(lia) ltac:(lia)). unfold N in *. lia. }
    rewrite Hb2 in Hk'. assert (k' = vsize b0) as ->.
    { rewrite Hend; [rewrite Hb2; congruence|]. apply Hall. lia. }
    rewrite Hsb', Hb2, Hsz. destruct (Z.leb_spec (vsize b0) (vsize b0)); [|lia].
    eexists _, (-1), _. split; [done|]. cbn [m_priority_boundaries set_boundaries m_piece_map m_pieces].
    split_and!; try done; [rewrite Hsb', Hb2; done| |lia|by left].
    intros q. rewrite Hb', Hb2, Hb. unfold f, shifted.
    destruct (Z.leb_spec k q), (Z.leb_spec q0 q), (Z.ltb_spec q (vsize b0)), (Z.ltb_spec q k);
      simpl; lia.
  - (* an occupied slot *)
    assert (HyF : ∃ p, (m_piece_map l)⟦y⟧ = Some p ∧ split_valid b0 f true s s (pr y) ∧ 0 ≤ pr y).
    { destruct Hpart as [Hf _]. destruct (Hf s y HsN' Hy) as (p & ? & _ & ? & ? & _). eauto. }
    destruct HyF as (py & Hpy & [Hqy HVy] & Hposy). rewrite Z.ltb_irrefl in HVy.
    (* the bucket of [y] is the first one from [k] on that ends above [s] *)
    assert (Hky : k ≤ pr y).
    { destruct (Z.ltb_spec (pr y) k); [|done].
      pose proof (mono_le b0 (pr y) (k - 1) Hmono ltac:(lia) ltac:(lia)). lia. }
    destruct (place_step _ (split_valid b0 f true (bnd b0 (pr y))) _ _ _ _ s y Hpart Hy HsN' Hmov)
      as (l1 & l2 & -> & Hl2 & Hb2 & Hs2 & Hmv2 & Hp2 & Hmov2 & Hh2); [lia| | |].
    { split; [lia|]. destruct (Z.ltb_spec s (bnd b0 (pr y))); lia. }
    { intros t q Hts HtN [Hq HV]. split; [done|].
      destruct (Z.ltb_spec t s), (Z.ltb_spec t (bnd b0 (pr y))); try lia.
      (* between [s] and the end of the bucket of [y] *)
      assert (q = pr y) as ->.
      { apply (in_bucket_unique b0 t); [done|by split|]. split; [lia|]. lia. }
      unfold f. shifted (pr y - 1); shifted (pr y); lia. }
    cbn [mbind option_bind]. rewrite Hl2. cbn [mbind option_bind].
    destruct (bump_spec (length (m_priority_boundaries l2)) 1 true (m_priority_boundaries l2) k s)
      as (b' & k' & -> & Hk' & Hsb' & Hb' & Hstop & Hend);
      [rewrite Hb2; lia|rewrite Hb2; unfold vsize; lia|].
    cbn [mbind option_bind].
    assert (Hbk : ∀ q, k ≤ q → bnd (m_priority_boundaries l2) q = bnd b0 q).
    { intros q Hq. rewrite Hb2, Hb. unfold shifted. destruct (Z.ltb_spec q k); [lia|].
      by rewrite andb_false_r, Z.add_0_r. }
    rewrite Hb2, Hsz in Hk'.
    assert (k' = pr y + 1) as ->.
    { assert (Hle : pr y + 1 ≤ k').
      { destruct (Z.le_gt_cases (pr y + 1) k'); [done|].
        pose proof (mono_le b0 (k' - 1) (pr y - 1) Hmono ltac:(lia) ltac:(lia)).
        destruct (decide (bnd b0 (k' - 1) = s)) as [He|He].
        - rewrite Hbk in Hend by lia. rewrite Hb2, Hsz in Hend. lia.
        - pose proof (mono_le b0 k (k' - 1) Hmono ltac:(lia) ltac:(lia)). lia. }
      destruct (Z.le_gt_cases k' (pr y + 1)); [lia|].
      specialize (Hstop (pr y) ltac:(lia)). rewrite Hbk in Hstop by lia. lia. }
    replace (pr y + 1 - 1) with (pr y) by lia. rewrite Hbk by lia.
    replace (bnd b0 (pr y) + 0) with (bnd b0 (pr y)) by lia.
    assert (Hbf : ∀ q, bnd b' q = shifted b0 1 q0 (pr y + 1) q).
    { intros q. rewrite Hb', Hb2, Hb. unfold shifted.
      destruct (Z.leb_spec k q), (Z.leb_spec q0 q), (Z.ltb_spec q (pr y + 1)), (Z.ltb_spec q k);
        simpl; lia. }
    rewrite Hsb', Hb2, Hsz.
    destruct (Z.leb_spec (vsize b0) (pr y + 1)) as [Hlast|Hmore].
    + eexists _, y, _. split; [done|].
      cbn [m_priority_boundaries set_boundaries m_piece_map m_pieces].
      assert (Hpy1 : pr y = vsize b0 - 1) by lia. fold N in Hlast.
      assert (HNy : bnd b0 (pr y) = N) by (unfold N; congruence).
      split_and!; try done; [rewrite Hsb', Hb2; done| |lia|].
      * intros q. rewrite Hbf. unfold f, shifted.
        destruct (Z.leb_spec q0 q), (Z.ltb_spec q (pr y + 1)), (Z.ltb_spec q (vsize b0)); simpl; lia.
      * right. split_and!; try done; try lia.
        -- intros ->. apply vget_Some_range in Hpy. lia.
        -- unfold f. shifted (pr y - 1); lia.
        -- unfold f. shifted (pr y); lia.
        -- rewrite HNy in Hp2. destruct Hp2 as [Hf2 Hpp2]. split; [|done].
           intros t i HtN Hti. destruct (Hf2 t i HtN Hti) as (p & ? & ? & ? & [? HV] & ?).
           assert (f (pr i - 1) ≤ t < f (pr i)).
           { cbn [m_pieces set_boundaries] in Hti.
             apply vget_Some_range in Hti. destruct (Z.ltb_spec t N); [done|lia]. }
           exists p. split_and!; try done; lia.
    + destruct (IH (set_boundaries l2 b') y (pr y + 1) (bnd b0 (pr y)))
        as (l' & x' & s' & Hrun & Hres); try done; try lia.
      * cbn. congruence.
      * cbn. lia.
      * cbn [m_pieces set_boundaries]. fold N. rewrite Hh2. done.
      * shifted (pr y - 1); shifted (pr y); lia.
      * replace (pr y + 1 - 1) with (pr y) by lia. split; [done|].
        apply (mono_le b0); [done|lia|lia].
      * exists l', x', s'. rewrite Hrun. split; [done|].
        destruct Hres as (R1 & R2 & Hmv' & R3 & R4).
        split; [exact R1|]. split; [exact R2|]. split; [|split; [exact R3|exact R4]].
        etransitivity; [exact Hmv2|exact Hmv'].
Qed.

(** * [remove] *)

Lemma remove_loop_spec fuel b0 q0 l x k e pr :
  mono b0 → 0 ≤ q0 ≤ k → k < vsize b0 → vsize b0 - k < Z.of_nat fuel →
  vsize (m_priority_boundaries l) = vsize b0 →
  (∀ q, bnd (m_priority_boundaries l) q = shifted b0 (-1) q0 k q) →
  let f := shifted b0 (-1) q0 (vsize b0) in
  let N := bnd b0 (vsize b0 - 1) in
  vsize (m_pieces l) = N → partial (split_valid b0 f true e) e x pr l →
  0 ≤ e < bnd b0 k → (k = q0 → bnd b0 (q0 - 1) ≤ e) → (q0 < k → bnd b0 (k - 1) = e + 1) →
  ∃ l', remove_loop fuel l k e e = Some l' ∧
    vsize (m_priority_boundaries l') = vsize b0 ∧
    (∀ q, bnd (m_priority_boundaries l') q = f q) ∧
    moved (m_piece_map l) (m_piece_map l') ∧ vsize (m_pieces l') = N ∧
    (m_piece_map l')⟦x⟧ = (m_piece_map l)⟦x⟧ ∧
    partial (λ t q, 0 ≤ q < vsize b0 ∧ f (q - 1) ≤ t < f q) (N - 1) x pr l'.
Proof.
  intros Hmono. revert l k e.
  induction fuel as [|fuel IH]; intros l k e Hq0 Hk Hfuel Hsz Hb f N HN Hpart He Hkq Hkq';
    [lia|].
  cbn [remove_loop].
  destruct (bump_spec (length (m_priority_boundaries l)) (-1) false (m_priority_boundaries l) k e)
    as (b' & k' & -> & Hk' & Hsb' & Hb' & Hstop & Hend); [lia|unfold vsize; lia|].
  cbn [mbind option_bind]. rewrite Hsz in Hk', Hsb', Hend.
  assert (Hbk : ∀ q, k ≤ q → bnd (m_priority_boundaries l) q = bnd b0 q).
  { intros q Hq. rewrite Hb. unfold shifted. destruct (Z.ltb_spec q k); [lia|].
    by rewrite andb_false_r, Z.add_0_r. }
  assert (Hbf : ∀ q, bnd b' q = shifted b0 (-1) q0 k' q).
  { intros q. rewrite Hb', Hb. unfold shifted.
    destruct (Z.leb_spec k q), (Z.leb_spec q0 q), (Z.ltb_spec q k'), (Z.ltb_spec q k);
      simpl; lia. }
  rewrite (Hbk (k' - 1)) in Hend |- * by lia.
  pose proof (mono_le b0 k (vsize b0 - 1) Hmono ltac:(lia) ltac:(lia)) as HkN. fold N in HkN.
  destruct (Z.eqb_spec e (bnd b0 (k' - 1) + -1)) as [Hlast|Hne].
  - (* the hole is the last slot *)
    assert (k' = vsize b0) as -> by (apply Hend; lia). fold N in Hlast.
    eexists. split; [done|]. cbn [m_priority_boundaries set_boundaries m_piece_map m_pieces].
    split_and!; try done.
    replace (N - 1) with e by lia. destruct Hpart as [Hf Hp]. split; [|done].
    intros t i Hte Hti. destruct (Hf t i Hte Hti) as (p & ? & ? & ? & [? HV] & ?).
    apply vget_Some_range in Hti. cbn [m_pieces set_boundaries] in Hti.
    exists p. split_and!; try done; destruct (Z.ltb_spec t e); lia.
  - set (n := bnd b0 (k' - 1) + -1) in *.
    assert (Hn : e < n).
    { pose proof (mono_le b0 k (k' - 1) Hmono ltac:(lia) ltac:(lia)). lia. }
    pose proof (mono_le b0 (k' - 1) (vsize b0 - 1) Hmono ltac:(lia) ltac:(lia)) as HkN'.
    fold N in HkN'.
    destruct (vget_is_Some (m_pieces l) n) as [y Hy]; [lia|].
    cbn [m_pieces set_boundaries]. rewrite Hy. cbn [mbind option_bind].
    assert (Hpy : split_valid b0 f true e n (pr y)).
    { destruct Hpart as [Hf _]. destruct (Hf n y ltac:(lia) Hy) as (p & ? & ? & ? & ? & _). done. }
    destruct Hpy as [Hqy HVy]. destruct (Z.ltb_spec n e); [lia|].
    assert (Hlow : bnd b0 (k' - 1 - 1) ≤ e + 1 ∧ (k' - 1 = q0 → bnd b0 (k' - 1 - 1) ≤ e) ∧
      (q0 < k' - 1 → bnd b0 (k' - 1 - 1) = e + 1)).
    { destruct (decide (k' - 1 = k)) as [Hkk|Hkk].
      - rewrite Hkk. split; [|split; [|done]].
        + destruct (decide (k = q0)) as [Hkq0|]; [|rewrite Hkq' by lia; lia].
          specialize (Hkq Hkq0). rewrite Hkq0. lia.
        + intros Hkq0. rewrite Hkq0. by apply Hkq.
      - specialize (Hstop (k' - 1 - 1) ltac:(lia)). rewrite Hbk in Hstop by lia. lia. }
    assert (pr y = k' - 1) as Hpry.
    { apply (in_bucket_unique b0 n); [done|by split|]. split; [lia|]. unfold n. lia. }
    destruct (move_step (split_valid b0 f true e) (split_valid b0 f true n) e x pr (set_boundaries l b') n y)
      as (l1 & l2 & Hl1 & Hl2 & Hb2 & Hs2 & Hmv2 & Hp2 & Hyx & _ & _ & Hx2);
      [exact Hpart|exact Hy|lia|cbn; lia| | |].
    { rewrite Hpry. split; [lia|]. destruct (Z.ltb_spec e n); [|lia]. unfold f.
      shifted (k' - 1 - 1); shifted (k' - 1); unfold n in *; lia. }
    { intros t q Htn Hte [Hq HV]. split; [done|].
      destruct (Z.ltb_spec t e), (Z.ltb_spec t n); try lia.
      assert (q = k' - 1) as ->.
      { apply (in_bucket_unique b0 t); [done|by split|]. split; [lia|]. unfold n in *. lia. }
      unfold f. shifted (k' - 1 - 1); shifted (k' - 1); unfold n in *; lia. }
    rewrite Hl1. cbn [mbind option_bind]. rewrite Hl2. cbn [mbind option_bind].
    rewrite Hsb'. cbn [m_priority_boundaries m_pieces m_piece_map set_boundaries] in *.
    destruct (Z.eqb_spec k' (vsize b0)) as [Hkend|Hkend].
    + assert (n = N - 1) as HnN by (unfold n, N; rewrite Hkend; lia).
      exists l2. split; [done|]. rewrite Hb2. split; [done|].
      split; [intros q; by rewrite Hbf, Hkend|]. split; [done|]. split; [lia|].
      split; [done|]. rewrite <-HnN. destruct Hp2 as [Hf Hp]. split; [|done].
      intros t i Htn Hti. destruct (Hf t i Htn Hti) as (p & ? & ? & ? & [? HV] & ?).
      assert (f (pr i - 1) ≤ t < f (pr i)).
      { apply vget_Some_range in Hti. destruct (Z.ltb_spec t n); [done|lia]. }
      exists p. split_and!; try done; lia.
    + destruct (IH l2 k' n) as (l' & Hrun & R1 & R2 & R3 & R4 & R5 & R6); try done; try lia.
      * by rewrite Hb2.
      * intros q. by rewrite Hb2, Hbf.
      * pose proof (mono_le b0 (k' - 1) k' Hmono ltac:(lia) ltac:(lia)). unfold n. lia.
      * exists l'. rewrite Hrun. split; [done|]. split; [exact R1|]. split; [exact R2|].
        split; [etransitivity; [exact Hmv2|exact R3]|]. split; [done|]. split; [|exact R6].
        by rewrite R5.
Qed.

(** * [update] *)

Lemma update_loop_spec (up : bool) fuel b0 p np l x k e temp pr :
  mono b0 → 0 ≤ p < vsize b0 → 0 ≤ np < vsize b0 →
  (if up then np < k ≤ p else p ≤ k < np) → Z.abs (np - k) < Z.of_nat fuel →
  vsize (m_priority_boundaries l) = vsize b0 →
  (∀ q, bnd (m_priority_boundaries l) q =
        if up then shifted b0 1 k p q else shifted b0 (-1) p k q) →
  let f := if up then shifted b0 1 np p else shifted b0 (-1) p np in
  vsize (m_pieces l) = bnd b0 (vsize b0 - 1) →
  partial (split_valid b0 f (negb up) e) e x pr l →
  (m_pieces l)⟦e⟧ = Some temp →
  (temp = x ∨ ∃ q, (m_piece_map l)⟦temp⟧ = Some q ∧ if up then e < index q else index q < e) →
  (if up then bnd b0 (k - 1) ≤ e ∧ (if decide (k = p) then e < bnd b0 p else e = bnd b0 k)
   else e < bnd b0 k ∧ (if decide (k = p) then bnd b0 (p - 1) ≤ e else bnd b0 (k - 1) = e + 1)) →
  ∃ l' e', update_loop up fuel l k np e temp = Some (l', e') ∧
    vsize (m_priority_boundaries l') = vsize b0 ∧
    (∀ q, bnd (m_priority_boundaries l') q = f q) ∧
    moved (m_piece_map l) (m_piece_map l') ∧ vsize (m_pieces l') = vsize (m_pieces l) ∧
    (m_piece_map l')⟦x⟧ = (m_piece_map l)⟦x⟧ ∧
    0 ≤ e' < vsize (m_pieces l) ∧ f (np - 1) ≤ e' < f np ∧
    partial (λ t q, 0 ≤ q < vsize b0 ∧ f (q - 1) ≤ t < f q) e' x pr l'.
Proof.
  intros Hmono Hp Hnp. revert l k e temp.
  induction fuel as [|fuel IH]; intros l k e temp Hk Hfuel Hsz Hb f HN Hpart Htemp Hstale He; [lia|].
  cbn [update_loop].
  pose proof (vget_Some_range _ _ _ Htemp) as HeN.
  (* the boundary that changes and the slot next to it *)
  set (k1 := if up then k - 1 else k).
  set (n := if up then bnd b0 (k - 1) else bnd b0 k - 1).
  assert (Hk1 : 0 ≤ k1 < vsize b0) by (unfold k1; destruct up; lia).
  assert (Hbk : bnd (m_priority_boundaries l) k1 = bnd b0 k1).
  { rewrite Hb. unfold k1. destruct up; [shifted (k - 1); lia|shifted k; lia]. }
  rewrite (bnd_lookup _ k1), Hbk by lia. cbn [mbind option_bind].
  destruct (vset_is_Some (m_priority_boundaries l) k1
    (if up then bnd b0 k1 + 1 else bnd b0 k1 - 1)) as [b' Hb']; [lia|].
  rewrite Hb'. cbn [mbind option_bind].
  pose proof (vset_size _ _ _ _ Hb') as Hsb'. pose proof (λ q, bnd_vset _ _ _ _ q Hb') as Hgb'.
  assert (Hne : (if up then n ≤ e else e ≤ n) ∧ 0 ≤ n < vsize (m_pieces l) ∧
    (if up then bnd b0 k1 else bnd b0 k1 - 1) = n).
  { pose proof (mono_le b0 (-1) k1 Hmono ltac:(lia) ltac:(lia)) as H0. rewrite bnd_neg in H0 by lia.
    pose proof (mono_le b0 k1 (vsize b0 - 1) Hmono ltac:(lia) ltac:(lia)).
    unfold n, k1 in *. destruct up; [|destruct (decide (k = p))]; lia. }
  destruct Hne as (Hne & HnN & Hn). rewrite Hn.
  destruct (vget_is_Some (m_pieces l) n HnN) as [y Hy]. cbn [m_pieces set_boundaries].
  rewrite Hy. cbn [mbind option_bind].
  set (k2 := if up then k1 else k + 1).
  assert (Hbf : ∀ q, bnd b' q = if up then shifted b0 1 k2 p q else shifted b0 (-1) p k2 q).
  { intros q. rewrite Hgb', Hb. unfold k2, k1. destruct (Z.eqb_spec q (if up then k - 1 else k));
      unfold k1 in *; destruct up; subst; unfold shifted;
      [destruct (Z.leb_spec (k - 1) (k - 1)), (Z.ltb_spec (k - 1) p)
      |destruct (Z.leb_spec p k), (Z.ltb_spec k (k + 1))
      |destruct (Z.leb_spec k q), (Z.leb_spec (k - 1) q), (Z.ltb_spec q p)
      |destruct (Z.leb_spec p q), (Z.ltb_spec q k), (Z.ltb_spec q (k + 1))]; simpl; lia. }
  (* the state once the hole is at [n] *)
  assert (Hstep : ∃ l2 temp2,
    (if negb (temp =? y) then
       l ← set_piece (set_boundaries l b') e y; l ← set_index l y e; Some (l, y)
     else Some (set_boundaries l b', temp)) = Some (l2, temp2) ∧
    m_priority_boundaries l2 = b' ∧ vsize (m_pieces l2) = vsize (m_pieces l) ∧
    moved (m_piece_map l) (m_piece_map l2) ∧ (m_piece_map l2)⟦x⟧ = (m_piece_map l)⟦x⟧ ∧
    partial (split_valid b0 f (negb up) n) n x pr l2 ∧ (m_pieces l2)⟦n⟧ = Some temp2 ∧
    (temp2 = x ∨ ∃ q, (m_piece_map l2)⟦temp2⟧ = Some q ∧ if up then n < index q else index q < n)).
  { destruct (decide (n = e)) as [->|Hdiff].
    - rewrite Htemp in Hy. injection Hy as <-. rewrite Z.eqb_refl. cbn [negb].
      exists (set_boundaries l b'), temp. split_and!; try done.
    - assert (HyF : ∃ py, (m_piece_map l)⟦y⟧ = Some py ∧ index py = n ∧
        split_valid b0 f (negb up) e n (pr y) ∧ y ≠ x).
      { destruct Hpart as [Hf _]. destruct (Hf n y Hdiff Hy) as (py & ? & ? & _ & ? & ?). eauto. }
      destruct HyF as (py & Hpy & Hiy & [Hqy HVy] & Hyx).
      assert (Hty : temp ≠ y).
      { intros ->. destruct Hstale as [|(q & Hq & Hlt)]; [done|].
        rewrite Hpy in Hq. injection Hq as <-. destruct up; lia. }
      destruct (Z.eqb_spec temp y); [done|]. cbn [negb].
      assert (Hpry : pr y = k).
      { apply (in_bucket_unique b0 n); [done| |].
        - split; [done|]. destruct up; cbn [negb] in HVy.
          + destruct (Z.ltb_spec e n); [lia|done].
          + destruct (Z.ltb_spec n e); [lia|done].
        - pose proof (mono_le b0 (k - 1) k Hmono ltac:(destruct up; lia) ltac:(destruct up; lia)).
          split; [destruct up; lia|].
          unfold n in *. destruct up; destruct (decide (k = p)); subst; lia. }
      destruct (move_step (split_valid b0 f (negb up) e) (split_valid b0 f (negb up) n) e x pr (set_boundaries l b') n y)
        as (l1 & l2 & -> & Hl2 & Hb2 & Hs2 & Hmv2 & Hp2 & _ & (q2 & Hq2 & Hi2) & Hn2 & Hx2);
        [exact Hpart|exact Hy|done|cbn; lia| | |].
      { rewrite Hpry. split; [destruct up; lia|]. unfold n, f in *.
        destruct up; cbn [negb].
        - destruct (Z.ltb_spec (bnd b0 (k - 1)) e); [|lia].
          shifted (k - 1); [|lia]. destruct (decide (k = p)) as [->|].
          + shifted p; lia.
          + shifted k; lia.
        - destruct (Z.ltb_spec e (bnd b0 k - 1)); [|lia].
          shifted k; [|lia]. destruct (decide (k = p)) as [->|].
          + shifted (p - 1); lia.
          + shifted (k - 1); lia. }
      { intros t q Htn Hte [Hq HV]. split; [done|]. unfold n, f in *.
        destruct up; cbn [negb] in *.
        - destruct (Z.ltb_spec e t), (Z.ltb_spec (bnd b0 (k - 1)) t); try lia.
          assert (q = k) as ->.
          { apply (in_bucket_unique b0 t); [done|by split|]. split; [lia|].
            destruct (decide (k = p)); subst; lia. }
          shifted (k - 1); shifted k; destruct (decide (k = p)); subst; lia.
        - destruct (Z.ltb_spec t e), (Z.ltb_spec t (bnd b0 k - 1)); try lia.
          assert (q = k) as ->.
          { apply (in_bucket_unique b0 t); [done|by split|]. split; [lia|].
            destruct (decide (k = p)); subst; lia. }
          shifted (k - 1); shifted k; destruct (decide (k = p)); subst; lia. }
      cbn [mbind option_bind]. rewrite Hl2. cbn [mbind option_bind].
      cbn [m_priority_boundaries m_pieces m_piece_map set_boundaries] in *.
      exists l2, y. split_and!; try done. right. exists q2. split; [done|].
      rewrite Hi2. destruct up; lia. }
  destruct Hstep as (l2 & temp2 & -> & Hb2 & Hs2 & Hmv2 & Hx2 & Hp2 & Hn2 & Hst2).
  cbn [mbind option_bind]. fold k2.
  destruct (Z.eqb_spec k2 np) as [Hend|Hend].
  - exists l2, n. split; [done|]. rewrite Hb2, Hs2. split; [congruence|].
    split; [intros q; rewrite Hbf, Hend; unfold f; by destruct up|].
    split; [done|]. split; [done|]. split; [done|]. split; [done|].
    unfold k2, k1, n, f in *. split.
    + destruct up.
      * replace (k - 1) with np in * by lia.
        pose proof (mono_le b0 (np - 1) np Hmono ltac:(lia) ltac:(lia)).
        shifted (np - 1); shifted np; lia.
      * replace k with (np - 1) in * by lia.
        pose proof (mono_le b0 (np - 1) np Hmono ltac:(lia) ltac:(lia)).
        shifted (np - 1); shifted np; lia.
    + destruct Hp2 as [Hf2 Hpp2]. split; [|done].
      intros t i Htn Hti. destruct (Hf2 t i Htn Hti) as (p' & ? & ? & ? & [? HV] & ?).
      exists p'. split; [done|]. split; [done|]. split; [done|]. split; [|done]. split; [done|].
      destruct up; cbn [negb] in HV.
      * replace (k - 1) with np in * by lia. destruct (Z.ltb_spec (bnd b0 np) t); [done|].
        assert (pr i ≤ np).
        { destruct (Z.le_gt_cases (pr i) np); [done|].
          pose proof (mono_le b0 np (pr i - 1) Hmono ltac:(lia) ltac:(lia)). lia. }
        shifted (pr i - 1); shifted (pr i); lia.
      * replace k with (np - 1) in * by lia. destruct (Z.ltb_spec t (bnd b0 (np - 1) - 1)); [done|].
        assert (np ≤ pr i).
        { destruct (Z.le_gt_cases np (pr i)); [done|].
          pose proof (mono_le b0 (pr i) (np - 1) Hmono ltac:(lia) ltac:(lia)). lia. }
        shifted (pr i - 1); shifted (pr i); lia.
  - assert (Hk2 : if up then np < k2 ≤ p else p ≤ k2 < np) by (unfold k2, k1 in *; destruct up; lia).
    destruct (IH l2 k2 n temp2 Hk2)
      as (l' & e' & Hrun & R1 & R2 & R3 & R4 & R5 & R6 & R7 & R8);
      [unfold k2, k1; destruct up; lia|congruence| |congruence|exact Hp2|exact Hn2|exact Hst2| |].
    + intros q. by rewrite Hb2, Hbf.
    + unfold k2, k1, n in *. destruct up.
      * pose proof (mono_le b0 (k - 1 - 1) (k - 1) Hmono ltac:(lia) ltac:(lia)).
        rewrite decide_False by lia. lia.
      * pose proof (mono_le b0 k (k + 1) Hmono ltac:(lia) ltac:(lia)).
        rewrite decide_False by lia. replace (k + 1 - 1) with k by lia. lia.
    + exists l', e'. rewrite Hrun. split; [done|]. split; [exact R1|]. split; [exact R2|].
      split; [etransitivity; [exact Hmv2|exact R3]|]. split; [congruence|]. split; [congruence|].
      rewrite Hs2 in R6. split; [done|]. split; [exact R7|exact R8].
Qed.

(** * The operations *)

Definition set_bucket (pr : Z → Z) (i q j : Z) : Z := if j =? i then q else pr j.

Lemma set_bucket_eq pr i q : set_bucket pr i q i = q.
Proof. unfold set_bucket. by rewrite Z.eqb_refl. Qed.

Lemma set_bucket_ne pr i q j : j ≠ i → set_bucket pr i q j = pr j.
Proof. intros Hj. unfold set_bucket. by destruct (Z.eqb_spec j i). Qed.

Lemma partial_ext V V' h x pr pr' l :
  partial V h x pr l → (∀ j, j ≠ x → pr' j = pr j) →
  (∀ t q, t ≠ h → 0 ≤ t < vsize (m_pieces l) → V t q → V' t q) → partial V' h x pr' l.
Proof.
  intros [Hf Hp] Hpr HV. split.
  - intros t i Ht Hti. destruct (Hf t i Ht Hti) as (p & ? & ? & ? & ? & ?). exists p.
    rewrite Hpr by done. split_and!; try done. apply HV; try done.
    by apply vget_Some_range in Hti.
  - intros i p Hi Hpos Hx. rewrite Hpr in Hpos by done. by apply Hp.
Qed.

(** the list of pieces has no repetitions *)
Lemma partial_size V pr l :
  partial V (-1) (-1) pr l → vsize (m_pieces l) ≤ vsize (m_piece_map l).
Proof.
  intros [Hf _].
  assert (Hlook : ∀ t i, m_pieces l !! t = Some i →
    ∃ p, (m_piece_map l)⟦i⟧ = Some p ∧ index p = Z.of_nat t).
  { intros t i Ht. destruct (Hf (Z.of_nat t) i) as (p & ? & ? & _); [lia|by rewrite vget_nat|].
    eauto. }
  assert (Hnd : NoDup (m_pieces l)).
  { apply NoDup_alt. intros t u i Ht Hu.
    destruct (Hlook t i Ht) as (p & Hp & Hi). destruct (Hlook u i Hu) as (p' & Hp' & Hi').
    rewrite Hp in Hp'. injection Hp' as ->. lia. }
  assert (Hsub : m_pieces l ⊆+ seqZ 0 (vsize (m_piece_map l))).
  { apply NoDup_submseteq; [done|]. intros i [t Ht]%list_elem_of_lookup_1.
    destruct (Hlook t i Ht) as (p & Hp & _). apply elem_of_seqZ.
    apply vget_Some_range in Hp. lia. }
  apply submseteq_length in Hsub. rewrite length_seqZ in Hsub. unfold vsize in *. lia.
Qed.

Lemma bucket_inv_size pr l : bucket_inv pr l → vsize (m_pieces l) ≤ vsize (m_piece_map l).
Proof. intros Hl. eapply partial_size, Hl. Qed.

(** the boundaries after more buckets were added at the end *)
Definition extended (b : list Z) (prio n : Z) : list Z :=
  if vsize b <=? prio then vresize b (prio + 1) n else b.

Lemma extended_spec b prio n :
  mono b → 0 < vsize b → bnd b (vsize b - 1) = n → 0 ≤ prio →
  let b' := extended b prio n in
  mono b' ∧ prio < vsize b' ∧ vsize b ≤ vsize b' ∧ bnd b' (vsize b' - 1) = n ∧
  (∀ q, q < vsize b → bnd b' q = bnd b q).
Proof.
  intros Hm Hb Hn Hp. unfold extended. destruct (Z.leb_spec (vsize b) prio) as [Hle|]; [|done].
  cbn zeta. rewrite vresize_size by lia.
  assert (Hget : ∀ q, 0 ≤ q < prio + 1 →
    bnd (vresize b (prio + 1) n) q = if q <? vsize b then bnd b q else n).
  { intros q Hq. unfold bnd at 1. rewrite vresize_get by done.
    destruct (Z.ltb_spec q (vsize b)); [by rewrite bnd_lookup by lia|done]. }
  split_and!; try lia.
  - intros q Hq. rewrite vresize_size in Hq by lia. rewrite (Hget q) by lia.
    destruct (decide (q = 0)) as [->|].
    + rewrite bnd_neg by lia. destruct (Z.ltb_spec 0 (vsize b)); [|lia].
      specialize (Hm 0 ltac:(lia)). by rewrite bnd_neg in Hm by lia.
    + rewrite (Hget (q - 1)) by lia. destruct (Z.ltb_spec (q - 1) (vsize b)), (Z.ltb_spec q (vsize b)); try lia.
      * by apply Hm; lia.
      * replace (q - 1) with (vsize b - 1) by lia. lia.
  - rewrite Hget by lia. destruct (Z.ltb_spec (prio + 1 - 1) (vsize b)); lia.
  - intros q Hq. destruct (decide (q < 0)); [by rewrite !bnd_neg by lia|].
    rewrite Hget by lia. by destruct (Z.ltb_spec q (vsize b)); [|lia].
Qed.

Lemma partial_extend b b' h x pr l :
  partial (in_bucket b) h x pr l → vsize b ≤ vsize b' →
  (∀ q, q < vsize b → bnd b' q = bnd b q) → partial (in_bucket b') h x pr l.
Proof.
  intros Hp Hs Hb. eapply partial_ext; [exact Hp|done|].
  intros t q _ _ [Hq Ht]. split; [lia|]. by rewrite !Hb by lia.
Qed.

(** a piece taken out of its slot [e] of bucket [k]: its entry in the piece map
    may have changed *)
Record detached (pr : Z → Z) (k e i : Z) (l : layout) : Prop := {
  det_mono : mono (m_priority_boundaries l);
  det_last : bnd (m_priority_boundaries l) (vsize (m_priority_boundaries l) - 1) =
             vsize (m_pieces l);
  det_slots : partial (in_bucket (m_priority_boundaries l)) e i pr l;
  det_piece : (m_pieces l)⟦e⟧ = Some i;
  det_bucket : in_bucket (m_priority_boundaries l) e k
}.

Lemma detach pr l i p m :
  bucket_inv pr l → (m_piece_map l)⟦i⟧ = Some p → 0 ≤ pr i →
  (∀ j, j ≠ i → m⟦j⟧ = (m_piece_map l)⟦j⟧) →
  detached pr (pr i) (index p) i (set_map l m).
Proof.
  intros [Hm Hne Hl [Hf Hp]] Hi Hpos Hmap.
  assert (i ≠ -1) by (apply vget_Some_range in Hi; lia).
  destruct (Hp i p Hi Hpos ltac:(done)) as [Hp1 Hpi].
  split; try done; cbn [m_pieces m_piece_map m_priority_boundaries set_map].
  - split; cbn [m_pieces m_piece_map set_map].
    + intros t j Ht Htj. destruct (Hf t j) as (q & Hq & Hqt & ? & ? & _); [|done|].
      { apply vget_Some_range in Htj. lia. }
      assert (j ≠ i) by (intros ->; rewrite Hi in Hq; congruence).
      exists q. by rewrite Hmap by done.
    + intros j q Hj Hposj Hji. rewrite Hmap in Hj by done.
      destruct (Hp j q Hj Hposj) as [_ Hqj]; [apply vget_Some_range in Hj; lia|].
      split; [|done]. intros He. rewrite He in Hqj. congruence.
  - destruct (Hf (index p) i Hp1 Hpi) as (? & _ & _ & _ & ? & _). done.
Qed.

Lemma moved_index_ne m m' i p p' :
  moved m m' → m⟦i⟧ = Some p → m'⟦i⟧ = Some p' → index p ≠ -1 → index p' ≠ -1.
Proof.
  intros [_ Hm] Hp Hp' Hne. destruct (Hm i p Hp) as (t & Ht & Hc).
  rewrite Ht in Hp'. injection Hp' as <-. simpl. lia.
Qed.

Theorem remove_spec pr k e i l :
  detached pr k e i l →
  ∃ l', remove l k e = Some l' ∧ bucket_inv (set_bucket pr i (-1)) l' ∧
    moved (m_piece_map l) (m_piece_map l') ∧ (m_piece_map l')⟦i⟧ = (m_piece_map l)⟦i⟧.
Proof.
  intros [Hm Hl Hs Hi [Hk He]]. set (b0 := m_priority_boundaries l) in *.
  pose proof (vget_Some_range _ _ _ Hi) as HeN.
  unfold remove. fold b0.
  destruct (remove_loop_spec (S (length b0)) b0 k l i k e (set_bucket pr i (-1)) Hm)
    as (l' & -> & R1 & R2 & R3 & R4 & R5 & R6); try done; try lia.
  - unfold vsize; lia.
  - intros q. fold b0. destruct (shifted_cases b0 (-1) k k q) as [[? _]|[_ ->]]; [lia|done].
  - eapply partial_ext; [exact Hs| |].
    + intros j Hj. by apply set_bucket_ne.
    + intros t q Hte _ [Hq HV]. split; [done|]. destruct (Z.ltb_spec t e); [|done].
      assert (q ≤ k).
      { destruct (Z.le_gt_cases q k); [done|].
        pose proof (mono_le b0 k (q - 1) Hm ltac:(lia) ltac:(lia)). lia. }
      shifted (q - 1); shifted q; try lia. assert (q = k) as -> by lia.
      assert (t ≠ bnd b0 k - 1) by lia. lia.
  - cbn [mbind option_bind]. set (N := bnd b0 (vsize b0 - 1)) in *.
    set (f := shifted b0 (-1) k (vsize b0)) in *.
    destruct (m_pieces l') as [|s0 ss] eqn:Hss.
    { exfalso. change (vsize (@nil Z)) with 0 in R4. lia. }
    rewrite <-Hss in *. clear s0 ss Hss.
    assert (Htake : ∀ t, (take (length (m_pieces l') - 1) (m_pieces l'))⟦t⟧ =
      if t =? N - 1 then None else (m_pieces l')⟦t⟧).
    { intros t. unfold vsize in R4. destruct (decide (t < 0)).
      - rewrite !vget_None by lia. by destruct (t =? N - 1).
      - rewrite <-(Z2Nat.id t) by lia. rewrite !vget_nat, lookup_take.
        destruct (Z.eqb_spec (Z.of_nat (Z.to_nat t)) (N - 1)), (decide (Z.to_nat t < length (m_pieces l') - 1)%nat);
          try lia; try done. rewrite lookup_ge_None_2 by lia. done. }
    assert (HpL : vsize (take (length (m_pieces l') - 1) (m_pieces l')) = N - 1).
    { unfold vsize in *. rewrite length_take. lia. }
    eexists. split; [done|]. split; [|done].
    split; cbn [m_pieces m_piece_map m_priority_boundaries set_pieces].
    + intros q Hq. rewrite !R2. rewrite R1 in Hq. unfold f.
      specialize (Hm q Hq).
      destruct (decide (q = k)) as [->|].
      * shifted (k - 1); shifted k; lia.
      * shifted (q - 1); shifted q; lia.
    + lia.
    + rewrite R1, R2, HpL. unfold f. shifted (vsize b0 - 1); fold N; lia.
    + destruct R6 as [Hf Hp]. split; cbn [m_pieces m_piece_map set_pieces].
      * intros t j _ Htj. rewrite Htake in Htj. destruct (Z.eqb_spec t (N - 1)); [done|].
        destruct (Hf t j) as (p & Hpj & ? & ? & [? ?] & ?); [done|done|].
        exists p. split; [done|]. split; [done|]. split; [done|]. split.
        -- split; [by rewrite R1|]. by rewrite !R2.
        -- apply vget_Some_range in Hpj. lia.
      * intros j p Hj Hposj _. destruct (decide (j = i)) as [->|Hji].
        { rewrite set_bucket_eq in Hposj. lia. }
        destruct (Hp j p Hj Hposj Hji) as [Hne Hsl]. split.
        -- apply vget_Some_range in Hsl. lia.
        -- rewrite Htake. by destruct (Z.eqb_spec (index p) (N - 1)).
Qed.

Lemma priority_not_have m_seeds p : 0 ≤ priority m_seeds p → index p ≠ -1.
Proof.
  unfold priority. intros Hp He.
  assert (have p = true) as Hh by (unfold have, we_have_index; by apply Z.eqb_eq).
  rewrite Hh, orb_true_r in Hp. simpl in Hp. lia.
Qed.

Lemma priority_range_spec l prio :
  0 ≤ prio < vsize (m_priority_boundaries l) →
  priority_range l prio =
    Some (bnd (m_priority_boundaries l) (prio - 1), bnd (m_priority_boundaries l) prio).
Proof.
  intros Hp. unfold priority_range, priority_begin, priority_end.
  rewrite (bnd_lookup _ prio) by done. destruct (Z.eqb_spec prio 0) as [->|].
  - cbn [mbind option_bind]. change (0 - 1) with (-1). done.
  - by rewrite bnd_lookup by lia.
Qed.

Section random.
Context {R : StdRandom} {Rok : StdRandomOk R}.

Theorem add_spec m_seeds pr i p l e :
  bucket_inv pr l → (m_piece_map l)⟦i⟧ = Some p → pr i < 0 →
  0 ≤ priority m_seeds p → vsize (m_piece_map l) < 2 ^ 31 →
  ∃ l' e', add m_seeds l i e = Some (l', e') ∧
    bucket_inv (set_bucket pr i (priority m_seeds p)) l' ∧
    moved (m_piece_map l) (m_piece_map l').
Proof.
  intros Hinv Hp Hpr Hprio Hsize. pose proof (bucket_inv_size _ _ Hinv) as Hle.
  pose proof (priority_not_have _ _ Hprio) as Hhave.
  destruct Hinv as [Hm Hne Hl Hs]. unfold add. rewrite Hp. cbn [mbind option_bind].
  set (prio := priority m_seeds p) in *.
  destruct (Z.ltb_spec prio 0); [lia|].
  set (b := m_priority_boundaries l) in *.
  destruct (extended_spec b prio (vsize (m_pieces l)) Hm Hne Hl Hprio)
    as (Hm0 & Hpb & Hbb & Hl0 & Hb0).
  set (b0 := extended b prio (vsize (m_pieces l))) in *.
  replace (if vsize b <=? prio then set_boundaries l (vresize b (prio + 1) (vsize (m_pieces l)))
           else l) with (set_boundaries l b0).
  2: { unfold b0, extended. destruct (vsize b <=? prio); [done|]. by destruct l. }
  rewrite priority_range_spec by (cbn; lia). cbn [mbind option_bind].
  cbn [m_priority_boundaries m_pieces set_boundaries].
  set (N := vsize (m_pieces l)) in *.
  assert (Hrange : 0 ≤ bnd b0 (prio - 1) ≤ bnd b0 prio ∧ bnd b0 prio ≤ N).
  { pose proof (mono_le b0 (-1) (prio - 1) Hm0 ltac:(lia) ltac:(lia)) as H0.
    rewrite bnd_neg in H0 by lia.
    pose proof (mono_le b0 (prio - 1) prio Hm0 ltac:(lia) ltac:(lia)).
    pose proof (mono_le b0 prio (vsize b0 - 1) Hm0 ltac:(lia) ltac:(lia)). lia. }
  (* the slot that is drawn *)
  assert (Hdraw : ∃ s e', (if bnd b0 prio =? bnd b0 (prio - 1) then (bnd b0 (prio - 1), e)
     else let '(r, e) := random (bnd b0 prio - bnd b0 (prio - 1)) e in
          (r + bnd b0 (prio - 1), e)) = (s, e') ∧ bnd b0 (prio - 1) ≤ s ≤ bnd b0 prio).
  { destruct (Z.eqb_spec (bnd b0 prio) (bnd b0 (prio - 1))); [eexists _, _; split; [done|lia]|].
    pose proof (random_range (bnd b0 prio - bnd b0 (prio - 1)) e ltac:(lia)) as Hr.
    destruct (random _ e) as [r e']. simpl in Hr. eexists _, _. split; [done|lia]. }
  destruct Hdraw as (s & e' & -> & Hsr).
  set (l0 := set_pieces (set_boundaries l b0) (m_pieces l ++ [-1])).
  set (f := shifted b0 1 prio (vsize b0)).
  assert (HN0 : (m_pieces l ++ [-1])⟦N⟧ = Some (-1)) by apply vget_middle.
  assert (Hpart : partial (split_valid b0 f true s) N i (set_bucket pr i prio) l0).
  { assert (Hold : ∀ t, t ≠ N → (m_pieces l ++ [-1])⟦t⟧ = (m_pieces l)⟦t⟧).
    { intros t Ht. destruct (Z.lt_ge_cases t N).
      - by apply vget_app_l.
      - rewrite !vget_None; [done|fold N; lia|vsize; fold N; lia]. }
    destruct Hs as [Hf Hpp]. split.
    - intros t j Ht Htj. unfold l0 in *. cbn [m_pieces m_piece_map set_pieces set_boundaries] in *.
      rewrite Hold in Htj by done.
      destruct (Hf t j) as (q & Hq & Hqt & Hpos & [Hqb HV] & _);
        [apply vget_Some_range in Htj; lia|done|].
      assert (j ≠ i) by (intros ->; lia). fold b in Hqb, HV.
      exists q. rewrite set_bucket_ne by done. split; [done|]. split; [done|]. split; [done|].
      split; [|done]. split; [lia|]. rewrite !Hb0 by lia.
      destruct (Z.ltb_spec t s); [|done].
      assert (pr j ≤ prio).
      { destruct (Z.le_gt_cases (pr j) prio); [done|].
        pose proof (mono_le b0 prio (pr j - 1) Hm0 ltac:(lia) ltac:(lia)).
        rewrite (Hb0 (pr j - 1)) in * by lia. lia. }
      rewrite <-!Hb0 in HV by lia. unfold f. shifted (pr j - 1); shifted (pr j); lia.
    - intros j q Hj Hpos Hji. unfold l0 in *.
      cbn [m_pieces m_piece_map set_pieces set_boundaries] in *.
      rewrite set_bucket_ne in Hpos by done.
      destruct (Hpp j q Hj Hpos) as [_ Hjs]; [apply vget_Some_range in Hj; lia|].
      pose proof (vget_Some_range _ _ _ Hjs). fold N in H0. split; [lia|].
      rewrite Hold by lia. done. }
  change (m_priority_boundaries l0) with b0.
  destruct (add_loop_spec (S (length b0)) b0 prio l0 i prio s (set_bucket pr i prio) Hm0)
    as (l1 & x & s1 & Hrun & R1 & R2 & R3 & R4 & R5); try done; try lia.
  { unfold vsize; lia. }
  { intros q. unfold l0; cbn. destruct (shifted_cases b0 1 prio prio q) as [[? _]|[_ ->]]; [lia|done]. }
  { unfold l0; cbn. rewrite Hl0. vsize. }
  { rewrite Hl0. exact HN0. }
  { by rewrite Hl0. }
  { by exists p. }
  { rewrite set_bucket_eq. lia. }
  { rewrite set_bucket_eq. shifted (prio - 1); shifted prio; lia. }
  rewrite Hrun. clear Hrun.
  cbn [mbind option_bind]. rewrite Hl0 in *. fold f in R2, R5.
  assert (Hfb : ∀ b1, vsize b1 = vsize b0 → (∀ q, bnd b1 q = f q) →
    mono b1 ∧ 0 < vsize b1 ∧ bnd b1 (vsize b1 - 1) = N + 1).
  { intros b1 Hs1 Hb1. split_and!; [|lia|].
    - intros q Hq. rewrite !Hb1. specialize (Hm0 q ltac:(lia)). unfold f.
      shifted (q - 1); shifted q; lia.
    - rewrite Hb1, Hs1. unfold f. shifted (vsize b0 - 1); lia. }
  destruct (Hfb _ R1 R2) as (F1 & F2 & F3).
  destruct R5 as [[-> Hpart']|(Hx & -> & Hmov & Hprx & Hfx & Hpart')].
  - cbn. eexists _, _. split; [done|]. split; [|exact R3].
    split; [done|done|congruence|].
    eapply partial_ext; [exact Hpart'|done|]. intros t q _ _ [? ?]. split; [lia|].
    by rewrite !R2.
  - destruct (Z.eqb_spec x (-1)); [done|]. cbn [negb].
    destruct (fill_step _ (λ t q, 0 ≤ q < vsize b0 ∧ f (q - 1) ≤ t < f q) _ _ _ _ Hpart')
      as (l2 & l3 & -> & Hl3 & Hb3 & Hs3 & Hmv3 & Hp3 & _); [lia|done|lia|done|by intros|].
    cbn [mbind option_bind]. rewrite Hl3. cbn [mbind option_bind].
    eexists _, _. split; [done|]. split; [|etransitivity; [exact R3|exact Hmv3]].
    split; rewrite ?Hb3; [done|done|congruence|].
    eapply partial_ext; [exact Hp3|done|]. intros t q _ _ [? ?]. split; [lia|].
    by rewrite !R2.
Qed.

Theorem shuffle_spec pr l k t e :
  bucket_inv pr l → in_bucket (m_priority_boundaries l) t k →
  vsize (m_piece_map l) < 2 ^ 31 →
  ∃ l' e', shuffle l k t e = Some (l', e') ∧ bucket_inv pr l' ∧
    moved (m_piece_map l) (m_piece_map l').
Proof.
  intros Hinv [Hk Ht] Hsize. pose proof (bucket_inv_size _ _ Hinv) as Hle.
  pose proof Hinv as [Hm Hne Hl [Hf Hp]]. unfold shuffle.
  rewrite priority_range_spec by done. cbn [mbind option_bind].
  set (b := m_priority_boundaries l) in *.
  assert (Hrange : 0 ≤ bnd b (k - 1) ∧ bnd b k ≤ vsize (m_pieces l)).
  { pose proof (mono_le b (-1) (k - 1) Hm ltac:(lia) ltac:(lia)) as H0.
    rewrite bnd_neg in H0 by lia.
    pose proof (mono_le b k (vsize b - 1) Hm ltac:(lia) ltac:(lia)). lia. }
  pose proof (random_range (bnd b k - bnd b (k - 1) - 1) e ltac:(lia)) as Hr.
  destruct (random _ e) as [r e']. cbn [fst] in Hr.
  destruct (Z.eqb_spec (r + bnd b (k - 1)) t) as [|Hneq]; [eexists _, _; done|].
  set (o := r + bnd b (k - 1)) in *.
  destruct (vget_is_Some (m_pieces l) o) as [i1 Hi1]; [lia|].
  destruct (vget_is_Some (m_pieces l) t) as [i2 Hi2]; [lia|].
  destruct (Hf o i1) as (p1 & Hp1 & Ho1 & Hpos1 & Hb1 & _); [lia|done|].
  destruct (Hf t i2) as (p2 & Hp2 & Ho2 & Hpos2 & Hb2 & _); [lia|done|].
  rewrite Hi1, Hi2. cbn [mbind option_bind]. rewrite Hp1, Hp2. cbn [mbind option_bind].
  assert (Hi12 : i1 ≠ i2) by (intros ->; congruence).
  assert (pr i1 = k) as Hk1.
  { apply (in_bucket_unique b o); [done|done|]. split; [done|]. lia. }
  assert (pr i2 = k) as Hk2 by by apply (in_bucket_unique b t).
  destruct (set_index_spec l i1 (index p2) p1 Hp1) as (m1 & -> & Hmv1 & Hm1 & Hm1');
    [lia..|]. cbn [mbind option_bind].
  destruct (set_index_spec (set_map l m1) i2 (index p1) p2)
    as (m2 & -> & Hmv2 & Hm2 & Hm2'); [by cbn; rewrite Hm1'|lia..|]. cbn [mbind option_bind].
  destruct (set_piece_spec (set_map (set_map l m1) m2) o i2)
    as (s1 & -> & Hs1 & Hso & Hs1'); [cbn; lia|]. cbn [mbind option_bind].
  destruct (set_piece_spec (set_pieces (set_map (set_map l m1) m2) s1) t i1)
    as (s2 & -> & Hs2 & Hst & Hs2'); [cbn; rewrite Hs1; cbn; lia|]. cbn [mbind option_bind].
  cbn [m_piece_map m_pieces m_priority_boundaries set_map set_pieces] in *.
  eexists _, _. split; [done|]. cbn [m_piece_map m_pieces m_priority_boundaries set_map set_pieces].
  split; [|etransitivity; [exact Hmv1|exact Hmv2]].
  split; cbn [m_piece_map m_pieces m_priority_boundaries set_map set_pieces];
    [done|done|by rewrite Hs2, Hs1|].
  assert (Hslot : ∀ u j, s2⟦u⟧ = Some j →
    (u = o ∧ j = i2) ∨ (u = t ∧ j = i1) ∨ (u ≠ o ∧ u ≠ t ∧ (m_pieces l)⟦u⟧ = Some j)).
  { intros u j Hu. destruct (decide (u = t)) as [->|Hut]; [right; left; split; congruence|].
    rewrite Hs2' in Hu by done. destruct (decide (u = o)) as [->|Huo]; [left; split; congruence|].
    rewrite Hs1' in Hu by done. right; right. done. }
  split; cbn [m_piece_map m_pieces set_map set_pieces].
  - intros u j _ Hu. destruct (Hslot u j Hu) as [[-> ->]|[[-> ->]|(Huo & Hut & Hu')]].
    + exists (with_index p2 (index p1)). rewrite Hm2. split; [done|].
      split; [done|]. split; [lia|]. split; [|apply vget_Some_range in Hp2; lia].
      rewrite Hk2. fold b. split; [done|unfold o; lia].
    + exists (with_index p1 (index p2)). rewrite Hm2' by done. rewrite Hm1. split; [done|].
      split; [done|]. split; [lia|]. split; [|apply vget_Some_range in Hp1; lia].
      rewrite Hk1. fold b. split; [done|lia].
    + destruct (Hf u j) as (q & Hq & Hqu & Hrest); [apply vget_Some_range in Hu'; lia|done|].
      assert (j ≠ i1 ∧ j ≠ i2) as [Hj1 Hj2].
      { split; intros ->; [rewrite Hp1 in Hq|rewrite Hp2 in Hq]; congruence. }
      exists q. rewrite Hm2', Hm1' by done. done.
  - intros j q Hq Hpos _. destruct (decide (j = i2)) as [->|Hj2].
    { rewrite Hm2 in Hq. injection Hq as <-. simpl. rewrite Ho1.
      split; [lia|]. rewrite Hs2' by done. done. }
    rewrite Hm2' in Hq by done. destruct (decide (j = i1)) as [->|Hj1].
    { rewrite Hm1 in Hq. injection Hq as <-. simpl. rewrite Ho2. split; [lia|done]. }
    rewrite Hm1' in Hq by done.
    destruct (Hp j q Hq Hpos) as [Hqi Hsl]; [apply vget_Some_range in Hq; lia|].
    split; [done|].
    assert (index q ≠ o ∧ index q ≠ t) as [Hqo Hqt] by (split; intros Heq; congruence).
    by rewrite Hs2', Hs1'.
Qed.

Theorem update_spec m_seeds pr k t i l p e :
  detached pr k t i l → (m_piece_map l)⟦i⟧ = Some p →
  (priority m_seeds p = -1 ∨ (0 ≤ priority m_seeds p ∧ index p = t)) →
  vsize (m_piece_map l) < 2 ^ 31 →
  ∃ l' e', update m_seeds l k t e = Some (l', e') ∧
    bucket_inv (set_bucket pr i (priority m_seeds p)) l' ∧
    moved (m_piece_map l) (m_piece_map l').
Proof.
  intros Hdet Hp Hprio Hsize. unfold update.
  rewrite (det_piece _ _ _ _ _ Hdet). cbn [mbind option_bind]. rewrite Hp.
  cbn [mbind option_bind]. set (q := priority m_seeds p) in *.
  pose proof (det_bucket _ _ _ _ _ Hdet) as [Hk Ht].
  destruct (Z.eqb_spec q k) as [Hqk|Hqk].
  { (* the same bucket *)
    destruct Hprio as [|[Hq Hidx]]; [lia|]. eexists _, _. split; [done|]. split; [|done].
    destruct Hdet as [Hm Hl [Hf Hpp] Hi _]. split; [done|lia|done|]. split.
    - intros u j _ Hu. destruct (decide (u = t)) as [->|Hut].
      + rewrite Hi in Hu. injection Hu as <-. exists p. rewrite set_bucket_eq.
        split; [done|]. split; [done|]. split; [done|]. split; [rewrite Hqk; by split|].
        apply vget_Some_range in Hp. lia.
      + destruct (Hf u j Hut Hu) as (r & Hr & ? & ? & ? & ?). exists r.
        rewrite set_bucket_ne by done. split_and!; try done. apply vget_Some_range in Hr. lia.
    - intros j r Hr Hpos _. destruct (decide (j = i)) as [->|Hji].
      + rewrite Hp in Hr. injection Hr as <-. rewrite Hidx. split; [|done].
        apply vget_Some_range in Hi. lia.
      + rewrite set_bucket_ne in Hpos by done. destruct (Hpp j r Hr Hpos Hji) as [? Hsl].
        split; [|done]. apply vget_Some_range in Hsl. lia. }
  destruct (Z.eqb_spec q (-1)) as [Hq1|Hq1].
  { destruct (remove_spec _ _ _ _ _ Hdet) as (l' & -> & Hinv & Hmv & _).
    cbn [mbind option_bind]. rewrite Hq1. eauto. }
  destruct Hprio as [|[Hq Hidx]]; [lia|].
  pose proof (priority_not_have _ _ Hq) as Hhave.
  destruct Hdet as [Hm Hl Hs Hi _]. set (b := m_priority_boundaries l) in *.
  destruct (extended_spec b q (vsize (m_pieces l)) Hm ltac:(lia) Hl Hq)
    as (Hm0 & Hpb & Hbb & Hl0 & Hb0).
  set (b0 := extended b q (vsize (m_pieces l))) in *.
  replace (if vsize b <=? q then set_boundaries l (vresize b (q + 1) (vsize (m_pieces l)))
           else l) with (set_boundaries l b0).
  2: { unfold b0, extended. destruct (vsize b <=? q); [done|]. by destruct l. }
  change (m_priority_boundaries (set_boundaries l b0)) with b0.
  set (up := q <? k). set (pr' := set_bucket pr i q).
  set (f := if up then shifted b0 1 q k else shifted b0 (-1) k q).
  assert (Ht0 : bnd b0 (k - 1) ≤ t < bnd b0 k) by (by rewrite !Hb0 by lia).
  assert (Hpart : partial (split_valid b0 f (negb up) t) t i pr' (set_boundaries l b0)).
  { apply (partial_ext (in_bucket b0) _ _ _ pr).
    - by apply (partial_extend b).
    - intros j Hj. by apply set_bucket_ne.
    - intros u r Hut _ [Hr HV]. split; [done|]. unfold f, up in *.
      destruct (Z.ltb_spec q k) as [Hlt|Hge]; cbv iota; cbn [negb].
      + destruct (Z.ltb_spec t u); [|done].
        assert (k ≤ r).
        { destruct (Z.le_gt_cases k r); [done|].
          pose proof (mono_le b0 r (k - 1) Hm0 ltac:(lia) ltac:(lia)). lia. }
        shifted (r - 1); shifted r; try lia. assert (r = k) as -> by lia. lia.
      + destruct (Z.ltb_spec u t); [|done].
        assert (r ≤ k).
        { destruct (Z.le_gt_cases r k); [done|].
          pose proof (mono_le b0 k (r - 1) Hm0 ltac:(lia) ltac:(lia)). lia. }
        shifted (r - 1); shifted r; try lia. assert (r = k) as -> by lia. lia. }
  destruct (update_loop_spec up (S (length b0)) b0 k q (set_boundaries l b0) i k t i pr' Hm0)
    as (l1 & e1 & -> & R1 & R2 & R3 & R4 & R5 & R6 & R7 & R8); try done; try lia.
  { unfold up. destruct (Z.ltb_spec q k); lia. }
  { unfold vsize in *; lia. }
  { intros r. cbn. destruct up.
    - destruct (shifted_cases b0 1 k k r) as [[? _]|[_ ->]]; [lia|done].
    - destruct (shifted_cases b0 (-1) k k r) as [[? _]|[_ ->]]; [lia|done]. }
  { rewrite !decide_True by done. destruct up; lia. }
  cbn [mbind option_bind]. fold f in R2, R7, R8.
  cbn [m_pieces m_piece_map set_boundaries] in *.
  assert (Hmono1 : mono (m_priority_boundaries l1)).
  { intros r Hr. rewrite !R2. rewrite R1 in Hr. specialize (Hm0 r ltac:(lia)).
    unfold f, up in *. destruct (Z.ltb_spec q k); cbv iota.
    - shifted (r - 1); shifted r; try lia. assert (r = k) as -> by lia. lia.
    - shifted (r - 1); shifted r; try lia. assert (r = k) as -> by lia. lia. }
  destruct (fill_step _ (in_bucket (m_priority_boundaries l1)) _ _ _ _ R8)
    as (l2 & l3 & -> & Hl3 & Hb3 & Hs3 & Hmv3 & Hp3 & Hpi3).
  { by rewrite R4. }
  { exists p. rewrite R5. done. }
  { unfold pr'. by rewrite set_bucket_eq. }
  { unfold pr'. rewrite set_bucket_eq. split; [lia|]. by rewrite !R2. }
  { intros u r _ _ [? ?]. split; [lia|]. by rewrite !R2. }
  cbn [mbind option_bind]. rewrite Hl3. cbn [mbind option_bind].
  assert (Hinv3 : bucket_inv pr' l3).
  { split; rewrite ?Hb3; [done|lia| |done].
    rewrite R1, R2, Hs3, R4, <-Hl0. unfold f. destruct up.
    - destruct (shifted_cases b0 1 q k (vsize b0 - 1)) as [[? _]|[_ ->]]; [lia|done].
    - destruct (shifted_cases b0 (-1) k q (vsize b0 - 1)) as [[? _]|[_ ->]]; [lia|done]. }
  destruct (shuffle_spec pr' l3 q e1 e Hinv3) as (l4 & e4 & -> & Hinv4 & Hmv4).
  { rewrite Hb3. split; [lia|]. by rewrite !R2. }
  { destruct Hmv3 as [-> _]. by destruct R3 as [-> _]. }
  eexists _, _. split; [done|]. split; [done|].
  etransitivity; [exact R3|]. etransitivity; [exact Hmv3|exact Hmv4].
Qed.
End random.
