(* ===== verification/PickerRebuild.v ===== *)
(** [piece_picker::update_pieces], which builds the list of pickable pieces
    from the piece map: counting, accumulating, placing, shuffling. *)

From S2P Require Import Prelude.
From S2P Require Import Random.
From S2P Require Import PiecePicker.
From S2P Require Import PickerBuckets.

Open Scope Z_scope.

Section rebuild.
Context (m_seeds : Z).
Abbreviation prio := (priority m_seeds).

(** the number of pieces of priority [k] *)
Fixpoint cnt (k : Z) (m : list piece_pos) : Z :=
  match m with
  | [] => 0
  | p :: m => (if prio p =? k then 1 else 0) + cnt k m
  end.

Lemma cnt_nonneg k m : 0 ≤ cnt k m.
Proof. induction m as [|p m IH]; simpl; [lia|]. destruct (prio p =? k); lia. Qed.

Lemma cnt_app k m1 m2 : cnt k (m1 ++ m2) = cnt k m1 + cnt k m2.
Proof. induction m1 as [|p m IH]; simpl; lia. Qed.

Lemma cnt_take_lt m i p :
  m⟦i⟧ = Some p → cnt (prio p) (take (Z.to_nat i) m) < cnt (prio p) m.
Proof.
  intros Hp. pose proof (vget_Some_range _ _ _ Hp) as Hi.
  unfold vget in Hp. destruct (Z.ltb_spec i 0); [lia|].
  rewrite <-(take_drop_middle _ _ _ Hp) at 2. rewrite cnt_app. simpl.
  rewrite Z.eqb_refl. pose proof (cnt_nonneg (prio p) (drop (S (Z.to_nat i)) m)). lia.
Qed.

(** the piece of priority [k] with rank [r] *)
Lemma cnt_rank m k r :
  0 ≤ r < cnt k m →
  ∃ i p, m⟦i⟧ = Some p ∧ prio p = k ∧ cnt k (take (Z.to_nat i) m) = r.
Proof.
  revert r. induction m as [|q m IH]; intros r Hr; simpl in Hr; [lia|].
  destruct (decide (prio q = k ∧ r = 0)) as [[Hq ->]|Hn].
  { exists 0, q. done. }
  destruct (IH (r - if prio q =? k then 1 else 0)) as (i & p & Hp & Hk & Hrank).
  { destruct (Z.eqb_spec (prio q) k); [|lia].
    assert (r ≠ 0) by (intros ->; by apply Hn). lia. }
  pose proof (vget_Some_range _ _ _ Hp) as Hi.
  exists (i + 1), p. unfold vget in *. destruct (Z.ltb_spec i 0); [lia|].
  destruct (Z.ltb_spec (i + 1) 0); [lia|].
  replace (Z.to_nat (i + 1)) with (S (Z.to_nat i)) by lia. simpl.
  split; [done|]. split; [done|]. rewrite Hrank. lia.
Qed.

Lemma cnt_rank_inj m i j p q :
  m⟦i⟧ = Some p → m⟦j⟧ = Some q → prio p = prio q →
  cnt (prio p) (take (Z.to_nat i) m) = cnt (prio q) (take (Z.to_nat j) m) → i = j.
Proof.
  assert (Hlt : ∀ i j p q, m⟦i⟧ = Some p → m⟦j⟧ = Some q → prio p = prio q → i < j →
    cnt (prio p) (take (Z.to_nat i) m) < cnt (prio p) (take (Z.to_nat j) m)).
  { clear. intros i j p q Hp Hq Hpq Hij.
    pose proof (vget_Some_range _ _ _ Hp) as Hi.
    assert (Hp' : (take (Z.to_nat j) m)⟦i⟧ = Some p).
    { unfold vget in *. destruct (Z.ltb_spec i 0); [lia|]. rewrite lookup_take.
      by rewrite decide_True by lia. }
    apply cnt_take_lt in Hp'. rewrite take_take in Hp'.
    by rewrite Nat.min_l in Hp' by lia. }
  intros Hp Hq Hpq Hc. destruct (Z.lt_trichotomy i j) as [H|[H|H]]; [|done|].
  - specialize (Hlt _ _ _ _ Hp Hq Hpq H). rewrite Hpq in *. lia.
  - specialize (Hlt _ _ _ _ Hq Hp (eq_sym Hpq) H). rewrite Hpq in *. lia.
Qed.

Lemma priority_with_index p t :
  prio p ≠ -1 → 0 ≤ t → prio (with_index p t) = prio p.
Proof.
  intros Hp Ht. unfold priority in *. unfold filtered, have, we_have_index in *. cbn.
  replace (t =? -1) with false by (symmetry; apply Z.eqb_neq; lia).
  destruct (index p =? -1); [|done]. by rewrite orb_true_r in Hp.
Qed.

(** ** Counting *)

Lemma bnd_vresize b n k : 0 ≤ k → vsize b ≤ n → bnd (vresize b n 0) k = bnd b k.
Proof.
  intros Hk Hn. destruct (Z.lt_ge_cases k n) as [Hlt|Hge].
  - unfold bnd at 1. rewrite vresize_get by lia. destruct (Z.ltb_spec k (vsize b)) as [|].
    + by rewrite bnd_lookup by lia.
    + unfold bnd. by rewrite vget_None by lia.
  - unfold bnd. rewrite !vget_None; [done|lia|]. pose proof (vsize_nonneg b).
    rewrite vresize_size by lia. lia.
Qed.

Lemma count_pieces_spec m b :
  (∀ i p, m⟦i⟧ = Some p → -1 ≤ prio p) → (∀ k, 0 ≤ bnd b k) →
  ∃ m' b', count_pieces m_seeds m b = Some (m', b') ∧
    vsize m' = vsize m ∧ vsize b ≤ vsize b' ∧
    (∀ i p, m⟦i⟧ = Some p → prio p < vsize b' ∨ prio p = -1) ∧
    (∀ k, 0 ≤ k → bnd b' k = bnd b k + cnt k m) ∧
    (∀ i p, m⟦i⟧ = Some p →
       m'⟦i⟧ = Some (if prio p =? -1 then p
                     else with_index p (bnd b (prio p) + cnt (prio p) (take (Z.to_nat i) m)))).
Proof.
  revert b. induction m as [|p m IH]; intros b Hprio Hb.
  { exists [], b. cbn. split; [done|]. split; [done|]. split; [lia|].
    split; [intros i p Hp; by rewrite vget_nil in Hp|].
    split; [intros; lia|]. intros i p Hp; by rewrite vget_nil in Hp. }
  assert (Htail : ∀ i q, m⟦i⟧ = Some q → (p :: m)⟦i + 1⟧ = Some q).
  { intros i q Hq. pose proof (vget_Some_range _ _ _ Hq). by rewrite vget_cons_S by lia. }
  assert (Hcons : ∀ i q, (p :: m)⟦i⟧ = Some q →
    (i = 0 ∧ q = p) ∨ (1 ≤ i ∧ m⟦i - 1⟧ = Some q ∧
      take (Z.to_nat i) (p :: m) = p :: take (Z.to_nat (i - 1)) m)).
  { intros i q Hq. pose proof (vget_Some_range _ _ _ Hq) as Hi.
    destruct (decide (i = 0)) as [->|]; [left; by injection Hq as ->|right].
    rewrite vget_cons in Hq. destruct (Z.eqb_spec i 0); [done|].
    split; [lia|]. split; [exact Hq|].
    by replace (Z.to_nat i) with (S (Z.to_nat (i - 1))) by lia. }
  pose proof (Hprio 0 p eq_refl) as Hp. cbn [count_pieces].
  destruct (Z.eqb_spec (prio p) (-1)) as [Hp1|Hp1].
  - destruct (IH b) as (m' & b' & -> & Hs & Hbs & Hlt & Hcnt & Hidx); [by eauto|done|].
    cbn [mbind option_bind]. exists (p :: m'), b'. split; [done|].
    rewrite !vsize_cons, Hs. split; [done|]. split; [done|]. split.
    { intros i q [[-> ->]|(Hi & Hq & _)]%Hcons; [by right|by eapply Hlt]. }
    split.
    { intros k Hk. rewrite Hcnt by done. cbn [cnt].
      destruct (Z.eqb_spec (prio p) k); lia. }
    intros i q Hq. destruct (Hcons i q Hq) as [[-> ->]|(Hi & Hq' & ->)].
    + rewrite (proj2 (Z.eqb_eq _ _) Hp1). done.
    + rewrite vget_cons. destruct (Z.eqb_spec i 0); [lia|]. rewrite (Hidx _ _ Hq').
      destruct (Z.eqb_spec (prio q) (-1)); [done|]. cbn [cnt].
      destruct (Z.eqb_spec (prio p) (prio q)); [lia|]. by rewrite Z.add_0_l.
  - set (k := prio p) in *.
    set (b0 := if vsize b <=? k then vresize b (k + 1) 0 else b).
    assert (Hb0 : vsize b ≤ vsize b0 ∧ k < vsize b0 ∧ ∀ q, 0 ≤ q → bnd b0 q = bnd b q).
    { unfold b0. destruct (Z.leb_spec (vsize b) k); [|split; [lia|by split]].
      rewrite vresize_size by lia. split; [lia|]. split; [lia|]. intros q Hq.
      apply bnd_vresize; lia. }
    destruct Hb0 as (Hs0 & Hk0 & Hb0).
    rewrite (bnd_lookup b0 k) by lia. cbn [mbind option_bind].
    destruct (vset_is_Some b0 k (bnd b0 k + 1)) as [b1 Hb1]; [lia|]. rewrite Hb1.
    cbn [mbind option_bind].
    pose proof (vset_size _ _ _ _ Hb1) as Hs1. pose proof (λ q, bnd_vset _ _ _ _ q Hb1) as Hget.
    assert (Hpos1 : ∀ q, 0 ≤ bnd b1 q).
    { intros q. rewrite Hget. destruct (Z.lt_ge_cases q 0) as [Hq|Hq].
      - rewrite (bnd_neg b0 q) by lia. destruct (q =? k); [|lia].
        rewrite (Hb0 k) by lia. specialize (Hb k). lia.
      - rewrite !Hb0 by lia. pose proof (Hb q). pose proof (Hb k). destruct (q =? k); lia. }
    destruct (IH b1) as (m' & b' & -> & Hs & Hbs & Hlt & Hcnt & Hidx); [by eauto|done|].
    cbn [mbind option_bind]. eexists _, b'. split; [done|].
    rewrite !vsize_cons, Hs. split; [done|]. split; [lia|]. split.
    { intros i q [[-> ->]|(Hi & Hq & _)]%Hcons; [left; fold k; lia|by eapply Hlt]. }
    split.
    { intros q Hq. rewrite Hcnt, Hget, !Hb0 by lia. cbn [cnt]. fold k.
      destruct (Z.eqb_spec q k), (Z.eqb_spec k q); subst; lia. }
    intros i q Hq. destruct (Hcons i q Hq) as [[-> ->]|(Hi & Hq' & ->)].
    + fold k. destruct (Z.eqb_spec k (-1)); [done|]. rewrite Hb0 by lia.
      change (Z.to_nat 0) with 0%nat. cbn [take cnt]. by rewrite Z.add_0_r.
    + rewrite vget_cons. destruct (Z.eqb_spec i 0); [lia|]. rewrite (Hidx _ _ Hq'). destruct (Z.eqb_spec (prio q) (-1)); [done|]. cbn [cnt].
      fold k. rewrite Hget. specialize (Hprio _ _ Hq).
      destruct (Z.eqb_spec k (prio q)) as [Heq|], (Z.eqb_spec (prio q) k); try lia;
        do 2 f_equal.
      * rewrite Hb0 by lia. rewrite Heq. lia.
      * rewrite Hb0 by lia. lia.
Qed.

(** ** Accumulating *)

Definition below (b : list Z) (start k : Z) : Z := if k =? 0 then start else bnd b (k - 1).

Lemma below_0 b k : 0 ≤ k → below b 0 k = bnd b (k - 1).
Proof. intros Hk. unfold below. destruct (Z.eqb_spec k 0) as [->|]; [by rewrite bnd_neg|done]. Qed.

Lemma bnd_cons x b k : bnd (x :: b) k = if k =? 0 then x else bnd b (k - 1).
Proof.
  unfold bnd. rewrite vget_cons. by destruct (k =? 0).
Qed.

Lemma below_cons x b start k : 0 < k → below (x :: b) start k = below b x (k - 1).
Proof.
  intros Hk. unfold below. rewrite bnd_cons. destruct (Z.eqb_spec k 0); [lia|].
  by destruct (k - 1 =? 0).
Qed.

Lemma accumulate_spec b n :
  ∃ b', accumulate b n = (b', below b' n (vsize b)) ∧ vsize b' = vsize b ∧
    ∀ k, 0 ≤ k < vsize b → bnd b' k = below b' n k + bnd b k.
Proof.
  revert n. induction b as [|x b IH]; intros n.
  { exists []. split; [done|]. split; [done|]. intros k Hk. vsize in Hk. lia. }
  cbn [accumulate]. destruct (IH (n + x)) as (b' & -> & Hs & Hk).
  exists (n + x :: b'). pose proof (vsize_nonneg b). split; [|split].
  - f_equal. rewrite below_cons by vsize. rewrite vsize_cons. f_equal. lia.
  - vsize.
  - intros k Hkr. rewrite vsize_cons in Hkr. rewrite !bnd_cons.
    destruct (Z.eqb_spec k 0) as [->|]; [done|].
    rewrite Hk by lia. rewrite below_cons by lia. done.
Qed.

(** ** Placing *)

Lemma priority_begin_spec l k :
  0 ≤ k ≤ vsize (m_priority_boundaries l) →
  priority_begin l k = Some (bnd (m_priority_boundaries l) (k - 1)).
Proof.
  intros Hk. unfold priority_begin. destruct (Z.eqb_spec k 0) as [->|]; [done|].
  apply bnd_lookup. lia.
Qed.

Definition slot (b : list Z) (p : piece_pos) : Z := bnd b (prio p - 1) + index p.

Lemma place_pieces_spec m piece l :
  (∀ i p, m⟦i⟧ = Some p → prio p ≠ -1 →
     0 ≤ prio p < vsize (m_priority_boundaries l) ∧
     0 ≤ slot (m_priority_boundaries l) p < vsize (m_pieces l)) →
  (∀ i j p q, m⟦i⟧ = Some p → m⟦j⟧ = Some q → prio p ≠ -1 → prio q ≠ -1 →
     slot (m_priority_boundaries l) p = slot (m_priority_boundaries l) q → i = j) →
  ∃ s, place_pieces m_seeds m piece l = Some (set_pieces l s) ∧
    vsize s = vsize (m_pieces l) ∧
    (∀ i p, m⟦i⟧ = Some p → prio p ≠ -1 →
       s⟦slot (m_priority_boundaries l) p⟧ = Some (piece + i)) ∧
    (∀ t, (∀ i p, m⟦i⟧ = Some p → prio p ≠ -1 → slot (m_priority_boundaries l) p ≠ t) →
       s⟦t⟧ = (m_pieces l)⟦t⟧).
Proof.
  revert piece l. induction m as [|p m IH]; intros piece l Hr Hinj.
  { exists (m_pieces l). split; [by destruct l|]. split; [done|].
    split; [intros i p Hp; by rewrite vget_nil in Hp|done]. }
  assert (Htail : ∀ i q, m⟦i⟧ = Some q → (p :: m)⟦i + 1⟧ = Some q).
  { intros i q Hq. pose proof (vget_Some_range _ _ _ Hq). by rewrite vget_cons_S by lia. }
  assert (Hcons : ∀ i q, (p :: m)⟦i⟧ = Some q →
    (i = 0 ∧ q = p) ∨ (1 ≤ i ∧ m⟦i - 1⟧ = Some q)).
  { intros i q Hq. pose proof (vget_Some_range _ _ _ Hq) as Hi.
    destruct (decide (i = 0)) as [->|]; [left; by injection Hq as ->|right].
    rewrite vget_cons in Hq. destruct (Z.eqb_spec i 0); [done|].
    split; [lia|]. exact Hq. }
  assert (Hrm : ∀ l', m_priority_boundaries l' = m_priority_boundaries l →
    vsize (m_pieces l') = vsize (m_pieces l) →
    ∃ s, place_pieces m_seeds m (piece + 1) l' = Some (set_pieces l' s) ∧
    vsize s = vsize (m_pieces l') ∧
    (∀ i p, m⟦i⟧ = Some p → prio p ≠ -1 →
       s⟦slot (m_priority_boundaries l) p⟧ = Some (piece + 1 + i)) ∧
    (∀ t, (∀ i p, m⟦i⟧ = Some p → prio p ≠ -1 → slot (m_priority_boundaries l) p ≠ t) →
       s⟦t⟧ = (m_pieces l')⟦t⟧)).
  { intros l' Hb Hs. destruct (IH (piece + 1) l') as (s & Hrun).
    - rewrite Hb, Hs. intros i q Hq. by apply (Hr (i + 1)), Htail.
    - rewrite Hb. intros i j q q' Hq Hq' H1 H2 Heq. enough (i + 1 = j + 1) by lia. eauto.
    - exists s. by rewrite <-Hb. }
  cbn [place_pieces]. destruct (Z.eqb_spec (prio p) (-1)) as [Hp|Hp].
  - destruct (Hrm l) as (s & -> & Hs & Hin & Hout); [done..|]. exists s.
    split; [done|]. split; [done|]. split.
    + intros i q Hq Hq1. destruct (Hcons i q Hq) as [[-> ->]|[Hi Hq']]; [done|].
      rewrite (Hin _ _ Hq' Hq1). f_equal. lia.
    + intros t Ht. apply Hout. intros i q Hq. by apply (Ht (i + 1)), Htail.
  - destruct (Hr 0 p eq_refl Hp) as [Hk Hsl].
    rewrite priority_begin_spec by lia. cbn [mbind option_bind]. fold (slot (m_priority_boundaries l) p).
    destruct (set_piece_spec l _ piece Hsl) as (s0 & -> & Hs0 & Hs0p & Hs0').
    cbn [mbind option_bind].
    destruct (Hrm (set_pieces l s0)) as (s & -> & Hs & Hin & Hout); [done..|]. exists s.
    split; [done|]. split; [by rewrite Hs|]. split.
    + intros i q Hq Hq1. destruct (Hcons i q Hq) as [[-> ->]|[Hi Hq']].
      * rewrite Hout; [by rewrite Z.add_0_r|]. intros i q Hq' Hq'1 Heq.
        enough (i + 1 = 0) by (apply vget_Some_range in Hq'; lia). eauto.
      * rewrite (Hin _ _ Hq' Hq1). f_equal. lia.
    + intros t Ht. rewrite Hout; [apply Hs0'|].
      * intros ->. by apply (Ht 0 p).
      * intros i q Hq. by apply (Ht (i + 1)), Htail.
Qed.

(** ** Shuffling *)

Context {R : StdRandom} {Rok : StdRandomOk R}.

(** the elements of the range of [b] number [k] satisfy [C k] *)
Definition classed (C : Z → Z → Prop) (b : list Z) (start : Z) (s : list Z) : Prop :=
  ∀ k t i, 0 ≤ k < vsize b → below b start k ≤ t < bnd b k → s⟦t⟧ = Some i → C k i.

Lemma shuffle_ranges_spec C b start s e :
  0 ≤ start → (∀ k, 0 ≤ k < vsize b → below b start k ≤ bnd b k ≤ vsize s) →
  classed C b start s →
  ∃ s' e', shuffle_ranges b start s e = Some (s', e') ∧ s' ≡ₚ s ∧ classed C b start s' ∧
    take (Z.to_nat start) s' = take (Z.to_nat start) s.
Proof.
  revert C start s e. induction b as [|x b IH]; intros C start s e Hst Hb HC.
  { exists s, e. done. }
  pose proof (vsize_nonneg b) as Hb0.
  pose proof (Hb 0 ltac:(vsize)) as Hx. unfold below in Hx. rewrite (bnd_cons x b 0) in Hx. cbn [Z.eqb] in Hx.
  assert (Hb' : ∀ k, 0 ≤ k < vsize b → below b x k ≤ bnd b k ≤ vsize s).
  { intros k Hk. specialize (Hb (k + 1) ltac:(vsize)).
    rewrite below_cons, bnd_cons in Hb by lia. destruct (Z.eqb_spec (k + 1) 0); [lia|].
    by replace (k + 1 - 1) with k in Hb by lia. }
  assert (Htail : ∀ s, (∀ t i, start ≤ t < x → s⟦t⟧ = Some i → C 0 i) →
    classed (λ k i, C (k + 1) i) b x s → classed C (x :: b) start s).
  { clear -Hb0. intros s H0 HC k t i Hk Ht Hi. rewrite vsize_cons in Hk. rewrite bnd_cons in Ht.
    destruct (Z.eqb_spec k 0) as [->|]; [by apply (H0 t)|].
    rewrite below_cons in Ht by lia. replace k with (k - 1 + 1) by lia.
    apply (HC _ t); [lia|done|done]. }
  assert (HC0 : ∀ t i, start ≤ t < x → s⟦t⟧ = Some i → C 0 i).
  { intros t i Ht. apply HC; [vsize|]. rewrite bnd_cons. done. }
  assert (HC1 : classed (λ k i, C (k + 1) i) b x s).
  { intros k t i Hk Ht. apply HC; [vsize|]. rewrite below_cons, bnd_cons by lia.
    destruct (Z.eqb_spec (k + 1) 0); [lia|]. by replace (k + 1 - 1) with k by lia. }
  cbn [shuffle_ranges]. destruct (Z.eqb_spec start x) as [->|Hne].
  { destruct (IH (λ k i, C (k + 1) i) x s e) as (s' & e' & -> & Hp & HC' & Hk); try done.
    exists s', e'. split; [done|]. split; [done|]. split; [|done].
    apply Htail; [|done]. intros; lia. }
  replace ((0 <=? start) && (start <=? x) && (x <=? vsize s)) with true
    by (symmetry; rewrite !andb_true_iff, !Z.leb_le; lia).
  cbn [guard_b mbind option_bind].
  set (r := take (Z.to_nat (x - start)) (drop (Z.to_nat start) s)).
  unfold random_shuffle. pose proof (shuffle_perm r e) as Hperm.
  destruct (std_shuffle r e) as [r' e1]. cbn [fst] in Hperm.
  set (s1 := take (Z.to_nat start) s ++ r' ++ drop (Z.to_nat x) s).
  assert (Hdrop : r ++ drop (Z.to_nat x) s = drop (Z.to_nat start) s).
  { unfold r. rewrite <-(take_drop (Z.to_nat (x - start)) (drop (Z.to_nat start) s)) at 2.
    f_equal. rewrite drop_drop. f_equal. lia. }
  assert (Hs1 : s1 ≡ₚ s).
  { unfold s1. rewrite Hperm, Hdrop, take_drop. done. }
  assert (Hlr : length r' = Z.to_nat (x - start)).
  { rewrite Hperm. unfold r. rewrite length_take, length_drop. unfold vsize in Hx. lia. }
  assert (Hsz : vsize s1 = vsize s) by (unfold vsize; by rewrite Hs1).
  assert (Hlow : take (Z.to_nat start) s1 = take (Z.to_nat start) s).
  { unfold s1. rewrite take_app_length'; [done|]. rewrite length_take.
    unfold vsize in Hx. lia. }
  assert (Hhigh : ∀ t, x ≤ t → s1⟦t⟧ = s⟦t⟧).
  { intros t Ht. unfold s1. rewrite app_assoc, vget_app_r.
    - unfold vsize. rewrite length_app, length_take, Hlr. unfold vsize in Hx.
      unfold vget. destruct (Z.ltb_spec (t - Z.of_nat (Z.to_nat start `min` length s + Z.to_nat (x - start))) 0); [lia|].
      destruct (Z.ltb_spec t 0); [lia|]. rewrite lookup_drop. f_equal. lia.
    - unfold vsize in *. rewrite length_app, length_take, Hlr. lia. }
  destruct (IH (λ k i, C (k + 1) i) x s1 e1) as (s' & e' & -> & Hp' & HC' & Hk').
  { lia. }
  { intros k Hk. by rewrite Hsz; auto. }
  { intros k t i Hk Ht Hi. apply (HC1 k t i Hk Ht). rewrite <-Hhigh; [done|].
    transitivity (below b x k); [|lia]. clear -Hk Hb'. unfold below.
    destruct (Z.eqb_spec k 0) as [|Hk0]; [lia|].
    assert (∀ n : nat, Z.of_nat n < vsize b → x ≤ bnd b (Z.of_nat n)) as Hn.
    { intros n. induction n as [|n IHn]; intros Hn.
      - pose proof (proj1 (Hb' 0 ltac:(lia))) as H. exact H.
      - pose proof (proj1 (Hb' (Z.of_nat (S n)) ltac:(lia))) as H. unfold below in H.
        destruct (Z.eqb_spec (Z.of_nat (S n)) 0); [lia|].
        replace (Z.of_nat (S n) - 1) with (Z.of_nat n) in H by lia. specialize (IHn ltac:(lia)). lia. }
    replace (k - 1) with (Z.of_nat (Z.to_nat (k - 1))) by lia. apply Hn. lia. }
  exists s', e'. split; [done|]. split; [by rewrite Hp'|]. split.
  - apply Htail; [|done]. intros t i Ht Hi.
    assert (Hr' : i ∈ r').
    { assert (Ht' : (take (Z.to_nat x) s1)⟦t⟧ = Some i).
      { rewrite <-Hk'. unfold vget in *. destruct (Z.ltb_spec t 0); [lia|].
        rewrite lookup_take, decide_True by lia. done. }
      unfold s1 in Ht'. rewrite app_assoc, take_app_length' in Ht'.
      2: { rewrite length_app, length_take, Hlr. unfold vsize in Hx. lia. }
      rewrite vget_app_r in Ht'.
      - unfold vget in Ht'. destruct (_ <? 0); [done|]. by eapply list_elem_of_lookup_2.
      - unfold vsize in *. rewrite length_take. lia. }
    rewrite Hperm in Hr'. unfold r in Hr'.
    apply list_elem_of_lookup_1 in Hr' as [n Hn].
    apply lookup_take_Some in Hn as [Hn Hlt]. rewrite lookup_drop in Hn.
    apply (HC0 (start + Z.of_nat n)); [lia|].
    replace (start + Z.of_nat n) with (Z.of_nat (Z.to_nat start + n)) by lia.
    by rewrite vget_nat.
  - transitivity (take (Z.to_nat start) (take (Z.to_nat x) s')).
    { rewrite take_take. f_equal. lia. }
    rewrite Hk', take_take. rewrite Nat.min_l by lia. done.
Qed.

(** ** Indexing *)

Lemma index_pieces_spec s t l :
  NoDup s → (∀ i, i ∈ s → ∃ p, (m_piece_map l)⟦i⟧ = Some p) →
  ∃ m, index_pieces s t l = Some (set_map l m) ∧ vsize m = vsize (m_piece_map l) ∧
    (∀ u i p, s⟦u⟧ = Some i → (m_piece_map l)⟦i⟧ = Some p →
       m⟦i⟧ = Some (with_index p (t + u))) ∧
    (∀ i, i ∉ s → m⟦i⟧ = (m_piece_map l)⟦i⟧).
Proof.
  revert t l. induction s as [|j s IH]; intros t l Hnd Hin.
  { exists (m_piece_map l). split; [by destruct l|]. split; [done|].
    split; [intros u i p Hu; by rewrite vget_nil in Hu|done]. }
  inversion_clear Hnd as [|? ? Hj Hnd'].
  destruct (Hin j) as [p Hp]; [by left|]. cbn [index_pieces]. unfold set_index at 1.
  rewrite Hp. cbn [mbind option_bind].
  destruct (vset_is_Some (m_piece_map l) j (with_index p t)) as [m1 Hm1];
    [by apply vget_Some_range in Hp|].
  pose proof (λ q, vset_get _ _ _ _ q Hm1) as Hget.
  rewrite Hm1. cbn [mbind option_bind].
  destruct (IH (t + 1) (set_map l m1)) as (m & Hrun & Hs & Hi & Ho); [done| |].
  { intros i Hi. cbn. rewrite Hget. destruct (Z.eqb_spec i j); [by eexists|].
    apply Hin. by right. }
  exists m. split; [exact Hrun|]. cbn in Hs, Hi, Ho. apply vset_size in Hm1.
  split; [congruence|]. split.
  - intros u i q Hu Hq. rewrite vget_cons in Hu. destruct (Z.eqb_spec u 0) as [->|].
    + injection Hu as ->. rewrite Ho by done. rewrite Hget, Z.eqb_refl, Z.add_0_r.
      congruence.
    + rewrite (Hi (u - 1) i q); [do 2 f_equal; lia|done|]. rewrite Hget.
      destruct (Z.eqb_spec i j) as [->|]; [|done]. exfalso. apply Hj.
      unfold vget in Hu. destruct (_ <? 0); [done|]. by eapply list_elem_of_lookup_2.
  - intros i Hi'. apply not_elem_of_cons in Hi' as [Hij Hi'].
    rewrite Ho by done. rewrite Hget. by destruct (Z.eqb_spec i j).
Qed.

(** ** The whole function *)

Definition bucket_of (m : list piece_pos) (i : Z) : Z :=
  match m⟦i⟧ with Some p => prio p | None => -1 end.

Lemma fill_zero b k : bnd (map (λ _ : Z, 0) b) k = 0.
Proof.
  unfold bnd, vget. destruct (k <? 0); [done|]. rewrite list_lookup_fmap.
  by destruct (b !! Z.to_nat k).
Qed.

Theorem update_pieces_spec l e :
  (∀ i p, (m_piece_map l)⟦i⟧ = Some p → -1 ≤ prio p) →
  ∃ l' e', update_pieces m_seeds l e = Some (l', e') ∧
    bucket_inv (bucket_of (m_piece_map l)) l' ∧ moved (m_piece_map l) (m_piece_map l').
Proof.
  intros Hprio. unfold update_pieces.
  set (b0 := match m_priority_boundaries l with [] => [0] | _ => _ end).
  assert (Hb0 : 0 < vsize b0).
  { unfold b0. destruct (m_priority_boundaries l) as [|x b]; [done|].
    rewrite vsize_cons. pose proof (vsize_nonneg b). lia. }
  set (m := m_piece_map l).
  destruct (count_pieces_spec m (map (λ _, 0) b0)) as (m1 & b1 & -> & Hm1 & Hb1 & Hlt & Hcnt & Hidx);
    [done|intros k; by rewrite fill_zero|].
  cbn [mbind option_bind].
  replace (vsize (map (λ _ : Z, 0) b0)) with (vsize b0) in Hb1
    by (unfold vsize; by rewrite length_map).
  destruct (accumulate_spec b1 0) as (b & -> & Hbs & Hacc).
  assert (Hstep : ∀ k, 0 ≤ k < vsize b → bnd b k = bnd b (k - 1) + cnt k m).
  { intros k Hk. rewrite Hacc by lia. rewrite below_0 by lia.
    by rewrite Hcnt, fill_zero by lia. }
  assert (Hmono : mono b).
  { intros k Hk. rewrite (Hstep k) by done. pose proof (cnt_nonneg k m). lia. }
  rewrite below_0 by lia. rewrite <-Hbs. set (N := bnd b (vsize b - 1)).
  assert (HN : ∀ k, -1 ≤ k < vsize b → 0 ≤ bnd b k ≤ N).
  { intros k Hk. split.
    - rewrite <-(bnd_neg b (-1)) by lia. apply mono_le; [done|lia|lia].
    - apply mono_le; [done|lia|lia]. }
  pose proof (HN (-1) ltac:(lia)) as HN0.
  set (l0 := Layout m1 _ b).
  (* the pieces of the counted map *)
  assert (Hm1' : ∀ i q, m1⟦i⟧ = Some q → prio q ≠ -1 → ∃ p, m⟦i⟧ = Some p ∧
    0 ≤ prio p < vsize b ∧ prio q = prio p ∧
    slot b q = bnd b (prio p - 1) + cnt (prio p) (take (Z.to_nat i) m) ∧
    q = with_index p (cnt (prio p) (take (Z.to_nat i) m))).
  { intros i q Hq Hq1. pose proof (vget_Some_range _ _ _ Hq) as Hr. rewrite Hm1 in Hr.
    destruct (vget_is_Some m i Hr) as [p Hp]. exists p. split; [done|].
    rewrite (Hidx i p Hp) in Hq. injection Hq as Hq. rewrite fill_zero, Z.add_0_l in Hq.
    destruct (Z.eqb_spec (prio p) (-1)) as [|Hp1]; [congruence|].
    pose proof (Hprio i p Hp). destruct (Hlt i p Hp); [|done].
    pose proof (cnt_nonneg (prio p) (take (Z.to_nat i) m)).
    split; [lia|]. subst q. unfold slot. rewrite priority_with_index by lia.
    split; [done|]. split; [done|]. done. }
  assert (Hinslot : ∀ i p, m⟦i⟧ = Some p → prio p ≠ -1 →
    let t := bnd b (prio p - 1) + cnt (prio p) (take (Z.to_nat i) m) in
    bnd b (prio p - 1) ≤ t < bnd b (prio p)).
  { intros i p Hp Hp1. cbn zeta. pose proof (Hprio i p Hp). destruct (Hlt i p Hp); [|done].
    pose proof (cnt_take_lt _ _ _ Hp). pose proof (cnt_nonneg (prio p) (take (Z.to_nat i) m)).
    rewrite (Hstep (prio p)) by lia. lia. }
  assert (Hslotinj : ∀ i j p q, m⟦i⟧ = Some p → m⟦j⟧ = Some q → prio p ≠ -1 → prio q ≠ -1 →
    bnd b (prio p - 1) + cnt (prio p) (take (Z.to_nat i) m) =
    bnd b (prio q - 1) + cnt (prio q) (take (Z.to_nat j) m) → i = j).
  { intros i j p q Hp Hq Hp1 Hq1 Heq.
    pose proof (Hprio i p Hp). pose proof (Hprio j q Hq).
    destruct (Hlt i p Hp); [|done]. destruct (Hlt j q Hq); [|done].
    assert (prio p = prio q) as Hpq.
    { apply (in_bucket_unique b (bnd b (prio p - 1) + cnt (prio p) (take (Z.to_nat i) m)));
        [done| |].
      - split; [lia|]. by apply Hinslot.
      - rewrite Heq. split; [lia|]. by apply Hinslot. }
    apply (cnt_rank_inj m i j p q); [done..|]. rewrite Hpq in *. lia. }
  destruct (place_pieces_spec m1 0 l0) as (s & Hrun & Hs & Hin & _).
  { intros i q Hq Hq1. destruct (Hm1' i q Hq Hq1) as (p & Hp & Hk & Hpq & Hsl & _).
    rewrite Hpq. split; [done|]. change (m_priority_boundaries l0) with b. rewrite Hsl.
    pose proof (Hinslot i p Hp ltac:(lia)) as Hr. cbn zeta in Hr. unfold l0. cbn [m_pieces].
    rewrite vresize_size by lia. pose proof (HN (prio p - 1) ltac:(lia)).
    pose proof (HN (prio p) ltac:(lia)). lia. }
  { intros i j p q Hp Hq Hp1 Hq1 Heq. change (m_priority_boundaries l0) with b in Heq.
    destruct (Hm1' i p Hp Hp1) as (p' & Hp' & ? & ? & Hs1 & _).
    destruct (Hm1' j q Hq Hq1) as (q' & Hq' & ? & ? & Hs2 & _).
    rewrite Hs1, Hs2 in Heq. apply (Hslotinj i j p' q'); try done; lia. }
  change (m_piece_map l0) with m1. rewrite Hrun. cbn [mbind option_bind].
  cbn [m_priority_boundaries m_pieces m_piece_map set_pieces l0].
  unfold l0 in Hs, Hin. cbn [m_pieces m_priority_boundaries] in Hs, Hin.
  rewrite vresize_size in Hs by lia.
  (* every slot holds the piece of its rank *)
  assert (Hall : ∀ k t i, 0 ≤ k < vsize b → bnd b (k - 1) ≤ t < bnd b k → s⟦t⟧ = Some i →
    ∃ p, m⟦i⟧ = Some p ∧ prio p = k ∧ t = bnd b (k - 1) + cnt k (take (Z.to_nat i) m)).
  { intros k t i Hk Ht Hi. destruct (cnt_rank m k (t - bnd b (k - 1))) as (j & p & Hp & Hpk & Hr).
    { rewrite (Hstep k) in Ht by done. lia. }
    pose proof (Hidx j p Hp) as Hq. rewrite fill_zero, Z.add_0_l in Hq.
    destruct (Z.eqb_spec (prio p) (-1)) as [|Hp1]; [lia|].
    assert (Hq1 : prio (with_index p (cnt (prio p) (take (Z.to_nat j) m))) ≠ -1).
    { rewrite priority_with_index; [done|done|apply cnt_nonneg]. }
    destruct (Hm1' _ _ Hq Hq1) as (p' & Hp' & _ & _ & Hsl & _).
    rewrite Hp in Hp'. injection Hp' as <-. specialize (Hin j _ Hq Hq1).
    rewrite Hsl, Hpk, Hr in Hin.
    replace (bnd b (k - 1) + (t - bnd b (k - 1))) with t in Hin by lia.
    rewrite Hi in Hin. injection Hin as ->. rewrite Z.add_0_l.
    exists p. split; [done|]. split; [done|]. lia. }
  assert (Hbucket : ∀ t, 0 ≤ t < N → ∃ k, 0 ≤ k < vsize b ∧ bnd b (k - 1) ≤ t < bnd b k).
  { intros t Ht. assert (Hex : ∀ n : nat, Z.of_nat n < vsize b → t < bnd b (Z.of_nat n) →
      ∃ k, 0 ≤ k < vsize b ∧ bnd b (k - 1) ≤ t < bnd b k).
    { intros n. induction n as [|n IHn]; intros Hn Htn.
      - exists 0. rewrite (bnd_neg b (0 - 1)) by lia. split; [lia|]. split; [lia|done].
      - destruct (Z.lt_ge_cases t (bnd b (Z.of_nat n))); [apply IHn; lia|].
        exists (Z.of_nat (S n)). replace (Z.of_nat (S n) - 1) with (Z.of_nat n) by lia. lia. }
    apply (Hex (Z.to_nat (vsize b - 1))); [lia|].
    replace (Z.of_nat (Z.to_nat (vsize b - 1))) with (vsize b - 1) by lia. unfold N in Ht. lia. }
  assert (Hnd : NoDup s).
  { apply NoDup_alt. intros t1 t2 i Hi1 Hi2.
    rewrite <-vget_nat in Hi1, Hi2.
    pose proof (vget_Some_range _ _ _ Hi1). pose proof (vget_Some_range _ _ _ Hi2).
    destruct (Hbucket (Z.of_nat t1)) as (k1 & Hk1 & Ht1); [lia|].
    destruct (Hbucket (Z.of_nat t2)) as (k2 & Hk2 & Ht2); [lia|].
    destruct (Hall _ _ _ Hk1 Ht1 Hi1) as (p1 & Hp1 & Hpk1 & He1).
    destruct (Hall _ _ _ Hk2 Ht2 Hi2) as (p2 & Hp2 & Hpk2 & He2).
    rewrite Hp1 in Hp2. injection Hp2 as <-. rewrite <-Hpk1, <-Hpk2 in *. lia. }
  destruct (shuffle_ranges_spec (λ k i, ∃ p, m⟦i⟧ = Some p ∧ prio p = k) b 0 s e)
    as (s' & e' & Hrun' & Hperm & HC & _).
  { lia. }
  { intros k Hk. rewrite below_0, Hs by lia. specialize (Hmono k Hk).
    pose proof (HN k ltac:(lia)). lia. }
  { intros k t i Hk Ht Hi. rewrite below_0 in Ht by lia.
    destruct (Hall k t i Hk Ht Hi) as (p & Hp & Hpk & _). by exists p. }
  unfold l0. cbn [m_priority_boundaries set_pieces].
  rewrite Hrun'. cbn [mbind option_bind].
  assert (Hs' : vsize s' = N) by (rewrite <-Hs; unfold vsize; by rewrite Hperm).
  assert (HC' : ∀ k t i, 0 ≤ k < vsize b → bnd b (k - 1) ≤ t < bnd b k → s'⟦t⟧ = Some i →
    ∃ p, m⟦i⟧ = Some p ∧ prio p = k).
  { intros k t i Hk Ht. apply (HC k t i Hk). by rewrite below_0 by lia. }
  destruct (index_pieces_spec s' 0 (Layout m1 s' b)) as (m2 & Hrun2 & Hm2 & Hi2 & Ho2).
  { by rewrite Hperm. }
  { intros i Hi. cbn [m_piece_map]. apply list_elem_of_lookup_1 in Hi as [n Hn].
    rewrite <-vget_nat in Hn. pose proof (vget_Some_range _ _ _ Hn).
    destruct (Hbucket (Z.of_nat n)) as (k & Hk & Ht); [lia|].
    destruct (HC' _ _ _ Hk Ht Hn) as (p & Hp & _). eexists. by apply Hidx. }
  match goal with |- context [index_pieces s' 0 ?x] => change x with (Layout m1 s' b) end.
  rewrite Hrun2. cbn [mbind option_bind]. cbn [m_piece_map] in *.
  eexists _, _. split; [done|]. cbn [m_piece_map m_pieces m_priority_boundaries set_map].
  assert (Hfinal : ∀ i p, m⟦i⟧ = Some p →
    if prio p =? -1 then m2⟦i⟧ = Some p
    else ∃ t, 0 ≤ t ∧ s'⟦t⟧ = Some i ∧ m2⟦i⟧ = Some (with_index p t)).
  { intros i p Hp. pose proof (Hidx i p Hp) as Hq. rewrite fill_zero, Z.add_0_l in Hq.
    destruct (Z.eqb_spec (prio p) (-1)) as [Hp1|Hp1].
    - rewrite Ho2; [done|]. intros Hi. apply list_elem_of_lookup_1 in Hi as [n Hn].
      rewrite <-vget_nat in Hn. pose proof (vget_Some_range _ _ _ Hn).
      destruct (Hbucket (Z.of_nat n)) as (k & Hk & Ht); [lia|].
      destruct (HC' _ _ _ Hk Ht Hn) as (p' & Hp' & Hpk). rewrite Hp in Hp'.
      injection Hp' as <-. lia.
    - assert (Hi : i ∈ s').
      { rewrite Hperm. specialize (Hin i _ Hq). rewrite Z.add_0_l in Hin.
        assert (Hi : ∃ t, s⟦t⟧ = Some i).
        { eexists. apply Hin. rewrite priority_with_index; [done|done|apply cnt_nonneg]. }
        destruct Hi as [t Hi]. unfold vget in Hi. destruct (t <? 0); [done|].
        by eapply list_elem_of_lookup_2. }
      apply list_elem_of_lookup_1 in Hi as [n Hn]. rewrite <-vget_nat in Hn.
      exists (Z.of_nat n). split; [lia|]. split; [done|]. by rewrite (Hi2 _ _ _ Hn Hq). }
  split.
  - split; cbn [m_piece_map m_pieces m_priority_boundaries set_map]; [done|lia|done|]. split.
    + cbn [m_piece_map m_pieces set_map]. intros t i _ Hi. pose proof (vget_Some_range _ _ _ Hi).
      destruct (Hbucket t) as (k & Hk & Ht); [lia|].
      destruct (HC' _ _ _ Hk Ht Hi) as (p & Hp & Hpk).
      exists (with_index p t). rewrite (Hi2 _ _ _ Hi (Hidx _ _ Hp)).
      rewrite fill_zero. destruct (Z.eqb_spec (prio p) (-1)); [lia|].
      split; [done|]. split; [done|]. unfold bucket_of. fold m. rewrite Hp, Hpk.
      split; [lia|]. split; [by split|]. apply vget_Some_range in Hp. lia.
    + cbn [m_piece_map m_pieces set_map]. intros i p' Hp' Hpos _.
      unfold bucket_of in Hpos. fold m in Hpos.
      destruct (m⟦i⟧) as [p|] eqn:Hp; [|lia]. specialize (Hfinal i p Hp).
      destruct (Z.eqb_spec (prio p) (-1)); [lia|]. destruct Hfinal as (t & Ht & Hst & Hmt).
      rewrite Hp' in Hmt. injection Hmt as ->. cbn [index with_index]. split; [lia|done].
  - split; [by rewrite Hm2, Hm1|]. intros i p Hp. specialize (Hfinal i p Hp).
    destruct (Z.eqb_spec (prio p) (-1)) as [|Hp1].
    + exists (index p). rewrite Hfinal. split; [by destruct p|by left].
    + destruct Hfinal as (t & Ht & _ & ->). exists t. split; [done|]. right. split; [done|].
      intros Hidx1. apply Hp1. unfold priority, have, we_have_index. rewrite Hidx1.
      rewrite orb_true_r. done.
Qed.
End rebuild.
