(* ===== verification/PickerState.v ===== *)
(** The members of [piece_picker], a monad for its functions and the accessors
    they share: src/btdownloader/torrent/piece_picker.cpp and
    src/btdownloader/include/libtorrent/piece_picker.hpp.

    A [const] member function that changes nothing is a function of the picker
    ([picker → option A]); the others are in the monad [M], a state monad over
    the picker.  [None] is undefined behaviour: an index out of range, an
    iterator that is the end of its vector.

    An iterator into [m_downloads] is a queue and a position. *)

From stdpp Require Import gmap.
From S2P Require Import Prelude.
From S2P Require Import Random.
From S2P Require Import PiecePicker.

Open Scope Z_scope.

(** * Members *)

Record downloads := Downloads {
  m_downloads : list (list downloading_piece);   (* one vector per category *)
  m_block_info : list block_info;
  m_free_block_infos : list Z
}.

Record tallies := Tallies {
  m_num_filtered : Z;
  m_num_have_filtered : Z;
  m_num_have : Z;
  m_num_passed : Z;
  m_num_pad_blocks : Z;
  m_have_pad_blocks : Z;
  m_filtered_pad_blocks : Z;
  m_have_filtered_pad_blocks : Z
}.

Record dl_iterator := DlIterator { it_queue : Z; it_pos : Z }.

(** a bitfield is the list of its bits *)
Definition bitfield : Type := list bool.

(** [m_downloads[q]]: the categories are 0 to 3 *)
Definition queue_number (q : download_queue_t) : Z :=
  match q with
  | piece_downloading => 0
  | piece_full => 1
  | piece_finished => 2
  | piece_zero_prio => 3
  | piece_open => 4
  | piece_downloading_reverse => 5
  | piece_full_reverse => 6
  end.

(** [std::lower_bound] in a vector ordered by piece index *)
Fixpoint lower_bound (v : list downloading_piece) (i : Z) : Z :=
  match v with
  | [] => 0
  | dp :: v => if dp_index dp <? i then 1 + lower_bound v i else 0
  end.

(** [v.insert(pos, x)] and [v.erase(pos)] *)
Definition vinsert {A} (v : list A) (pos : Z) (x : A) : option (list A) :=
  if (0 <=? pos) && (pos <=? vsize v)
  then Some (take (Z.to_nat pos) v ++ x :: drop (Z.to_nat pos) v) else None.

Definition verase {A} (v : list A) (pos : Z) : option (list A) :=
  if (0 <=? pos) && (pos <? vsize v)
  then Some (take (Z.to_nat pos) v ++ drop (S (Z.to_nat pos)) v) else None.

Section state.
Context {R : StdRandom}.

Record picker := Picker {
  lay : layout;
  m_dirty : bool;
  m_seeds : Z;
  rng : engine;
  dls : downloads;
  tal : tallies;
  m_cursor : Z;
  m_reverse_cursor : Z;
  m_pad_blocks : bitfield;
  m_pads_in_piece : gmap Z Z;
  m_recent_extents : list Z;
  m_blocks_per_piece : Z;
  m_blocks_in_last_piece : Z
}.

Definition set_lay (x : layout) (s : picker) : picker :=
  Picker x (m_dirty s) (m_seeds s) (rng s) (dls s) (tal s) (m_cursor s) (m_reverse_cursor s)
    (m_pad_blocks s) (m_pads_in_piece s) (m_recent_extents s) (m_blocks_per_piece s)
    (m_blocks_in_last_piece s).
Definition set_dirty (x : bool) (s : picker) : picker :=
  Picker (lay s) x (m_seeds s) (rng s) (dls s) (tal s) (m_cursor s) (m_reverse_cursor s)
    (m_pad_blocks s) (m_pads_in_piece s) (m_recent_extents s) (m_blocks_per_piece s)
    (m_blocks_in_last_piece s).
Definition set_seeds (x : Z) (s : picker) : picker :=
  Picker (lay s) (m_dirty s) x (rng s) (dls s) (tal s) (m_cursor s) (m_reverse_cursor s)
    (m_pad_blocks s) (m_pads_in_piece s) (m_recent_extents s) (m_blocks_per_piece s)
    (m_blocks_in_last_piece s).
Definition set_rng (x : engine) (s : picker) : picker :=
  Picker (lay s) (m_dirty s) (m_seeds s) x (dls s) (tal s) (m_cursor s) (m_reverse_cursor s)
    (m_pad_blocks s) (m_pads_in_piece s) (m_recent_extents s) (m_blocks_per_piece s)
    (m_blocks_in_last_piece s).
Definition set_dls (x : downloads) (s : picker) : picker :=
  Picker (lay s) (m_dirty s) (m_seeds s) (rng s) x (tal s) (m_cursor s) (m_reverse_cursor s)
    (m_pad_blocks s) (m_pads_in_piece s) (m_recent_extents s) (m_blocks_per_piece s)
    (m_blocks_in_last_piece s).
Definition set_tal (x : tallies) (s : picker) : picker :=
  Picker (lay s) (m_dirty s) (m_seeds s) (rng s) (dls s) x (m_cursor s) (m_reverse_cursor s)
    (m_pad_blocks s) (m_pads_in_piece s) (m_recent_extents s) (m_blocks_per_piece s)
    (m_blocks_in_last_piece s).
Definition set_cursors (c rc : Z) (s : picker) : picker :=
  Picker (lay s) (m_dirty s) (m_seeds s) (rng s) (dls s) (tal s) c rc
    (m_pad_blocks s) (m_pads_in_piece s) (m_recent_extents s) (m_blocks_per_piece s)
    (m_blocks_in_last_piece s).
Definition set_pads (bits : bitfield) (m : gmap Z Z) (s : picker) : picker :=
  Picker (lay s) (m_dirty s) (m_seeds s) (rng s) (dls s) (tal s) (m_cursor s) (m_reverse_cursor s)
    bits m (m_recent_extents s) (m_blocks_per_piece s) (m_blocks_in_last_piece s).
Definition set_extents (x : list Z) (s : picker) : picker :=
  Picker (lay s) (m_dirty s) (m_seeds s) (rng s) (dls s) (tal s) (m_cursor s) (m_reverse_cursor s)
    (m_pad_blocks s) (m_pads_in_piece s) x (m_blocks_per_piece s) (m_blocks_in_last_piece s).
Definition set_blocks (n last : Z) (s : picker) : picker :=
  Picker (lay s) (m_dirty s) (m_seeds s) (rng s) (dls s) (tal s) (m_cursor s) (m_reverse_cursor s)
    (m_pad_blocks s) (m_pads_in_piece s) (m_recent_extents s) n last.

(** * The monad *)

Definition M (A : Type) : Type := picker → option (A * picker).

#[global] Instance M_ret : MRet M := λ A x s, Some (x, s).
#[global] Instance M_bind : MBind M := λ A B k m s, '(x, s) ← m s; k x s.

Definition reads {A} (f : picker → option A) : M A := λ s, x ← f s; Some (x, s).
Definition guard_M (b : bool) : M unit := reads (λ _, guard_b b).
Definition gets {A} (f : picker → A) : M A := λ s, Some (f s, s).
Definition modify (f : picker → picker) : M unit := λ s, Some (tt, f s).

(** * Accessors *)

Definition piece_map (i : Z) (s : picker) : option piece_pos := (m_piece_map (lay s))⟦i⟧.

Definition num_pieces (s : picker) : Z := vsize (m_piece_map (lay s)).

(** [m_piece_map[i].priority(this)] *)
Definition priority_of (i : Z) (s : picker) : option Z :=
  p ← piece_map i s; Some (priority (m_seeds s) p).

Definition update_piece_pos (i : Z) (f : piece_pos → piece_pos) : M unit := λ s,
  p ← piece_map i s;
  m ← (m_piece_map (lay s))⟦i := f p⟧;
  Some (tt, set_lay (set_map (lay s) m) s).

Definition update_all (f : piece_pos → piece_pos) : M unit :=
  modify (λ s, set_lay (set_map (lay s) (map f (m_piece_map (lay s)))) s).

Definition update_tallies (f : tallies → tallies) : M unit :=
  modify (λ s, set_tal (f (tal s)) s).

Definition blocks_in_piece (i : Z) (s : picker) : Z :=
  if i + 1 =? num_pieces s then m_blocks_in_last_piece s else m_blocks_per_piece s.

Definition pad_blocks_in_piece (i : Z) (s : picker) : Z :=
  match m_pads_in_piece s !! i with Some n => n | None => 0 end.

Definition have_piece (i : Z) (s : picker) : option bool :=
  p ← piece_map i s; Some (index p =? we_have_index).

Definition piece_priority_of (i : Z) (s : picker) : option Z :=
  p ← piece_map i s; Some (piece_priority p).

(** ** [m_downloads] *)

Definition queue (q : Z) (s : picker) : option (list downloading_piece) :=
  (m_downloads (dls s))⟦q⟧.

Definition set_queue (q : Z) (v : list downloading_piece) : M unit := λ s,
  d ← (m_downloads (dls s))⟦q := v⟧;
  Some (tt, set_dls (Downloads d (m_block_info (dls s)) (m_free_block_infos (dls s))) s).

(** [*it] *)
Definition deref (it : dl_iterator) (s : picker) : option downloading_piece :=
  v ← queue (it_queue it) s; v⟦it_pos it⟧.

Definition update_dl (it : dl_iterator) (f : downloading_piece → downloading_piece) : M unit :=
  dp ← reads (deref it);
  v ← reads (queue (it_queue it));
  v ← reads (λ _, v⟦it_pos it := f dp⟧);
  set_queue (it_queue it) v.

(** [find_dl_piece(queue, index)] *)
Definition find_dl_piece (q i : Z) (s : picker) : option dl_iterator :=
  v ← queue q s;
  let pos := lower_bound v i in
  if pos =? vsize v then Some (DlIterator q pos)
  else
    dp ← v⟦pos⟧;
    if dp_index dp =? i then Some (DlIterator q pos) else Some (DlIterator q (vsize v)).

(** [it == m_downloads[q].end()] *)
Definition is_end (it : dl_iterator) (s : picker) : option bool :=
  v ← queue (it_queue it) s; Some (it_pos it =? vsize v).

(** ** Blocks *)

(** [blocks_for_piece(dp)]: the first block and the number of blocks *)
Definition blocks_for_piece (dp : downloading_piece) (s : picker) : option (Z * Z) :=
  let idx := info_idx dp * m_blocks_per_piece s in
  _ ← (m_block_info (dls s))⟦idx⟧;
  Some (idx, blocks_in_piece (dp_index dp) s).

Definition get_block (sp : Z * Z) (j : Z) (s : picker) : option block_info :=
  _ ← guard_b ((0 <=? j) && (j <? sp.2));
  (m_block_info (dls s))⟦sp.1 + j⟧.

Definition set_block_info (b : list block_info) (s : picker) : picker :=
  set_dls (Downloads (m_downloads (dls s)) b (m_free_block_infos (dls s))) s.

Definition set_block (sp : Z * Z) (j : Z) (x : block_info) : M unit := λ s,
  _ ← guard_b ((0 <=? j) && (j <? sp.2));
  b ← (m_block_info (dls s))⟦sp.1 + j := x⟧;
  Some (tt, set_block_info b s).

(** the blocks of a span *)
Fixpoint read_blocks (n : nat) (idx : Z) (s : picker) : option (list block_info) :=
  match n with
  | O => Some []
  | S n =>
      b ← (m_block_info (dls s))⟦idx⟧;
      bs ← read_blocks n (idx + 1) s;
      Some (b :: bs)
  end.

Definition span_blocks (sp : Z * Z) (s : picker) : option (list block_info) :=
  read_blocks (Z.to_nat sp.2) sp.1 s.

(** ** The list of pickable pieces *)

Definition picker_add (i : Z) : M unit := λ s,
  '(l, e) ← add (m_seeds s) (lay s) i (rng s);
  Some (tt, set_rng e (set_lay l s)).

Definition picker_remove (prio elem_index : Z) : M unit := λ s,
  l ← remove (lay s) prio elem_index;
  Some (tt, set_lay l s).

Definition picker_update (prio elem_index : Z) : M unit := λ s,
  '(l, e) ← update (m_seeds s) (lay s) prio elem_index (rng s);
  Some (tt, set_rng e (set_lay l s)).

Definition picker_update_pieces : M unit := λ s,
  '(l, e) ← update_pieces (m_seeds s) (lay s) (rng s);
  Some (tt, set_dirty false (set_rng e (set_lay l s))).
End state.

(** [x & y]: a 15-bit counter is written back as it is *)
Definition with_peer (b : block_info) (p : torrent_peer) : block_info :=
  BlockInfo p (num_peers b) (bstate b).
Definition with_num_peers (b : block_info) (n : Z) : block_info :=
  BlockInfo (peer b) (uint 14 n) (bstate b).
Definition with_bstate (b : block_info) (st : block_state) : block_info :=
  BlockInfo (peer b) (num_peers b) st.
