(* ===== verification/PickerOps.v ===== *)
(** The operations of [piece_picker] that change its state, and its queries:
    src/btdownloader/torrent/piece_picker.cpp.  [pick_pieces] is in
    PickerPick.v. *)

From stdpp Require Import gmap.
From S2P Require Import Prelude.
From S2P Require Import Random.
From S2P Require Import PiecePicker.
From S2P Require Import PickerState.

Open Scope Z_scope.

(** ** Tallies *)

Definition add_num_filtered (n : Z) (t : tallies) : tallies :=
  Tallies (m_num_filtered t + n) (m_num_have_filtered t) (m_num_have t) (m_num_passed t)
    (m_num_pad_blocks t) (m_have_pad_blocks t) (m_filtered_pad_blocks t)
    (m_have_filtered_pad_blocks t).
Definition add_num_have_filtered (n : Z) (t : tallies) : tallies :=
  Tallies (m_num_filtered t) (m_num_have_filtered t + n) (m_num_have t) (m_num_passed t)
    (m_num_pad_blocks t) (m_have_pad_blocks t) (m_filtered_pad_blocks t)
    (m_have_filtered_pad_blocks t).
Definition add_num_have (n : Z) (t : tallies) : tallies :=
  Tallies (m_num_filtered t) (m_num_have_filtered t) (m_num_have t + n) (m_num_passed t)
    (m_num_pad_blocks t) (m_have_pad_blocks t) (m_filtered_pad_blocks t)
    (m_have_filtered_pad_blocks t).
Definition add_num_passed (n : Z) (t : tallies) : tallies :=
  Tallies (m_num_filtered t) (m_num_have_filtered t) (m_num_have t) (m_num_passed t + n)
    (m_num_pad_blocks t) (m_have_pad_blocks t) (m_filtered_pad_blocks t)
    (m_have_filtered_pad_blocks t).
Definition add_num_pad_blocks (n : Z) (t : tallies) : tallies :=
  Tallies (m_num_filtered t) (m_num_have_filtered t) (m_num_have t) (m_num_passed t)
    (m_num_pad_blocks t + n) (m_have_pad_blocks t) (m_filtered_pad_blocks t)
    (m_have_filtered_pad_blocks t).
Definition add_have_pad_blocks (n : Z) (t : tallies) : tallies :=
  Tallies (m_num_filtered t) (m_num_have_filtered t) (m_num_have t) (m_num_passed t)
    (m_num_pad_blocks t) (m_have_pad_blocks t + n) (m_filtered_pad_blocks t)
    (m_have_filtered_pad_blocks t).
Definition add_filtered_pad_blocks (n : Z) (t : tallies) : tallies :=
  Tallies (m_num_filtered t) (m_num_have_filtered t) (m_num_have t) (m_num_passed t)
    (m_num_pad_blocks t) (m_have_pad_blocks t) (m_filtered_pad_blocks t + n)
    (m_have_filtered_pad_blocks t).
Definition add_have_filtered_pad_blocks (n : Z) (t : tallies) : tallies :=
  Tallies (m_num_filtered t) (m_num_have_filtered t) (m_num_have t) (m_num_passed t)
    (m_num_pad_blocks t) (m_have_pad_blocks t) (m_filtered_pad_blocks t)
    (m_have_filtered_pad_blocks t + n).

(** ** Cursors *)

Definition settled (p : piece_pos) : bool := have p || filtered p.

(** [m_cursor] moves up to the first piece that is neither had nor filtered *)
Fixpoint skip_up (fuel : nat) (m : list piece_pos) (c : Z) : option Z :=
  match fuel with
  | O => None
  | S fuel =>
      if c =? vsize m then Some c
      else p ← m⟦c⟧; if settled p then skip_up fuel m (c + 1) else Some c
  end.

(** [m_reverse_cursor] moves down *)
Fixpoint skip_down (fuel : nat) (m : list piece_pos) (c : Z) : option Z :=
  match fuel with
  | O => None
  | S fuel =>
      if 0 <? c then p ← m⟦c - 1⟧; if settled p then skip_down fuel m (c - 1) else Some c
      else Some c
  end.

(** the outcome of a function that can throw *)
Inductive outcome := returned | threw_invalid_piece_size.

Record piece_stats_t := PieceStats {
  ps_peer_count : Z;
  ps_priority : Z;
  ps_have : bool;
  ps_downloading : bool
}.

(** [bitfield::none_set] and [bitfield::all_set] on the list of the bits; the
    functions of Bitfield.v refine them *)
Definition none_set (b : bitfield) : bool := forallb negb b.
Definition all_set (b : bitfield) : bool := negb (vsize b =? 0) && forallb id b.

(** the first loop of the bitfield overloads: the set bits, as long as there
    are fewer than [size] *)
Fixpoint collect (bits : bitfield) (index num size : Z) : list Z * Z :=
  match bits with
  | [] => ([], num)
  | false :: bits => collect bits (index + 1) num size
  | true :: bits =>
      let here := if num <? size then [index] else [] in
      if size <=? num + 1 then (here, num + 1)
      else let '(l, n) := collect bits (index + 1) (num + 1) size in (here ++ l, n)
  end.

Section ops.
Context {R : StdRandom}.

(** ** [resize] *)

Definition resize (blocks_per_piece blocks_in_last_piece total_num_pieces : Z) : M outcome :=
  if max_blocks_per_piece <? blocks_per_piece then mret threw_invalid_piece_size
  else
    modify (λ s, set_lay (set_map (lay s)
              (vresize (m_piece_map (lay s)) total_num_pieces (piece_pos2 0 0))) s);;
    modify (λ s, set_cursors 0 (num_pieces s) s);;
    modify (set_dls (Downloads [[]; []; []; []] [] []));;
    update_tallies (λ t,
      Tallies (m_num_filtered t + m_num_have_filtered t) 0 0 0 (m_num_pad_blocks t) 0 0 0);;
    modify (set_dirty true);;
    update_all (λ p, with_index (with_state (with_peer_count p 0) piece_open) 0);;
    s ← gets (λ s, s);
    let m := m_piece_map (lay s) in
    c ← reads (λ _, skip_up (S (length m)) m (m_cursor s));
    rc ← reads (λ _, skip_down (S (length m)) m (m_reverse_cursor s));
    modify (set_cursors c rc);;
    let n := uint 16 blocks_per_piece in
    let last := uint 16 blocks_in_last_piece in
    modify (set_blocks n (if last =? 0 then uint 16 blocks_per_piece else last));;
    mret returned.

(** the constructor *)
Definition new_picker (blocks_per_piece blocks_in_last_piece total_num_pieces : Z) (e : engine)
    : option (outcome * picker) :=
  resize blocks_per_piece blocks_in_last_piece total_num_pieces
    (Picker (Layout [] [] [0]) false 0 e (Downloads [[]; []; []; []] [] [])
       (Tallies 0 0 0 0 0 0 0 0) 0 0 [] ∅ [] 0 0).

(** ** Downloading pieces *)

(** [piece_info(index, st)]: the new value of [st] *)
Definition piece_info (i : Z) (st : downloading_piece) (s : picker)
    : option downloading_piece :=
  p ← piece_map i s;
  if negb (bool_decide (download_queue p = piece_open)) then
    it ← find_dl_piece (queue_number (download_queue p)) i s;
    deref it s
  else
    Some (DownloadingPiece i 0 (if have p then uint 15 (uint 16 (blocks_in_piece i s)) else 0)
            (passed_hash_check st) 0 (locked st) 0 (outstanding_hash_check st)).

Definition piece_stats (i : Z) (s : picker) : option piece_stats_t :=
  pp ← piece_map i s;
  Some (PieceStats (peer_count pp + m_seeds s) (priority (m_seeds s) pp) (have pp)
          (downloading pp)).

Definition update_piece_state (it : dl_iterator) : M dl_iterator :=
  dp ← reads (deref it);
  let i := dp_index dp in
  num_blocks ← gets (blocks_in_piece i);
  p ← reads (piece_map i);
  let current_state := download_state p in
  if bool_decide (current_state = piece_open) then mret it
  else
    let sum := requested dp + finished dp + writing dp in
    let new_state :=
      if filtered p then piece_zero_prio
      else if sum =? 0 then piece_open
      else if sum <? num_blocks then
        (if reverse p then piece_downloading_reverse else piece_downloading)
      else if 0 <? requested dp then
        (if reverse p then piece_full_reverse else piece_full)
      else piece_finished in
    if bool_decide (new_state = current_state) then mret it
    else if bool_decide (new_state = piece_open) then mret it
    else
      let q := queue_number (download_queue p) in
      guard_M (it_queue it =? q);;
      v ← reads (queue q);
      v ← reads (λ _, verase v (it_pos it));
      set_queue q v;;
      prio ← reads (priority_of i);
      update_piece_pos i (λ p, with_state p new_state);;
      let q := queue_number (download_queue (with_state p new_state)) in
      v ← reads (queue q);
      let pos := lower_bound v i in
      v ← reads (λ _, vinsert v pos dp);
      set_queue q v;;
      dirty ← gets m_dirty;
      (if (dirty : bool) then mret tt
       else
         p ← reads (piece_map i);
         now ← reads (priority_of i);
         if (prio =? -1) && negb (now =? -1) then picker_add i
         else if negb (prio =? -1) then picker_update prio (index p)
         else mret tt);;
      mret (DlIterator q pos).

(** [piece * m_blocks_per_piece + block], of [int]s: the bit of a block in
    [m_pad_blocks] *)
Definition pad_bit_index (i j : Z) (s : picker) : option Z :=
  n ← signed 32 (i * m_blocks_per_piece s); signed 32 (n + j).

(** the loop of [add_download_piece] over the blocks of the piece *)
Fixpoint init_blocks (n : nat) (sp : Z * Z) (j : Z) (ret : downloading_piece)
    : M downloading_piece :=
  match n with
  | O => mret ret
  | S n =>
      pad ← reads (λ s, match m_pad_blocks s with
                        | [] => Some false
                        | bits => k ← pad_bit_index (dp_index ret) j s; bits⟦k⟧
                        end);
      set_block sp j
        (BlockInfo nullptr 0 (if (pad : bool) then state_finished else state_none));;
      init_blocks n sp (j + 1) (if (pad : bool) then with_finished ret (finished ret + 1) else ret)
  end.

(** the slice of [m_block_info] of a new piece: one that was released, or a
    new one *)
Definition allocate_blocks : M Z :=
  free ← gets (λ s, m_free_block_infos (dls s));
  match free with
  | [] =>
      n ← gets m_blocks_per_piece;
      size ← gets (λ s, vsize (m_block_info (dls s)));
      guard_M (negb (n =? 0));;
      modify (λ s, set_block_info
        (m_block_info (dls s) ++ replicate (Z.to_nat n) block_info_default) s);;
      mret (Z.quot size n)
  | _ =>
      b ← reads (λ _, free⟦vsize free - 1⟧);
      modify (λ s, set_dls (Downloads (m_downloads (dls s)) (m_block_info (dls s))
                             (take (length free - 1) free)) s);;
      mret b
  end.

Definition add_download_piece (piece : Z) : M dl_iterator :=
  block_index ← allocate_blocks;
  let ret := DownloadingPiece piece (uint 16 block_index) 0 false 0 false 0 false in
  let q := queue_number piece_downloading in
  v ← reads (queue q);
  let pos := lower_bound v piece in
  sp ← reads (blocks_for_piece ret);
  ret ← init_blocks (Z.to_nat sp.2) sp 0 ret;
  v ← reads (λ _, vinsert v pos ret);
  set_queue q v;;
  update_piece_state (DlIterator q pos).

Definition erase_download_piece (it : dl_iterator) : M unit :=
  dp ← reads (deref it);
  p ← reads (piece_map (dp_index dp));
  let q := queue_number (download_queue p) in
  modify (λ s, set_dls (Downloads (m_downloads (dls s)) (m_block_info (dls s))
                         (m_free_block_infos (dls s) ++ [info_idx dp])) s);;
  update_piece_pos (dp_index dp) (λ p, with_state p piece_open);;
  guard_M (it_queue it =? q);;
  v ← reads (queue q);
  v ← reads (λ _, verase v (it_pos it));
  set_queue q v.

Definition get_download_queue (s : picker) : list downloading_piece := concat (m_downloads (dls s)).

Definition get_download_queue_size (s : picker) : Z :=
  foldl (λ acc q, acc + vsize q) 0 (m_downloads (dls s)).

Definition get_download_queue_sizes (s : picker) : option (Z * Z * Z * Z) :=
  partial ← queue (queue_number piece_downloading) s;
  full ← queue (queue_number piece_full) s;
  finished ← queue (queue_number piece_finished) s;
  zero_prio ← queue (queue_number piece_zero_prio) s;
  Some (vsize partial, vsize full, vsize finished, vsize zero_prio).

(** ** Availability *)

(** the loop of [distributed_copies] *)
Fixpoint copies_loop (m : list piece_pos) (min_availability integer_part fraction_part : Z)
    : Z * Z * Z :=
  match m with
  | [] => (min_availability, integer_part, fraction_part)
  | p :: m =>
      let n := if have p then peer_count p + 1 else peer_count p in
      if n <? min_availability then copies_loop m n 1 (fraction_part + integer_part)
      else if n =? min_availability then
        copies_loop m min_availability (integer_part + 1) fraction_part
      else copies_loop m min_availability integer_part (fraction_part + 1)
  end.

Definition distributed_copies (s : picker) : option (Z * Z) :=
  let npieces := num_pieces s in
  if npieces =? 0 then Some (1, 0)
  else
    let '(min_availability, _, fraction_part) :=
      copies_loop (m_piece_map (lay s)) max_peer_count 0 0 in
    low ← signed 32 (min_availability + m_seeds s);
    share ← signed 32 (fraction_part * 1000);
    Some (low, Z.quot share npieces).

Definition get_availability (s : picker) : list Z :=
  map (λ p, peer_count p + m_seeds s) (m_piece_map (lay s)).

Definition get_availability_of (i : Z) (s : picker) : option Z :=
  p ← piece_map i s; Some (peer_count p + m_seeds s).

(** after the priority of a piece has changed from [prev]: the piece joins
    the list, or moves in it *)
Definition relist (i prev : Z) : M unit :=
  if prev =? -1 then picker_add i
  else p ← reads (piece_map i); picker_update prev (index p).

Definition restore_piece (i : Z) : M unit :=
  p ← reads (piece_map i);
  if bool_decide (download_queue p = piece_open) then mret tt
  else
    it ← reads (find_dl_piece (queue_number (download_queue p)) i);
    update_dl it (λ dp, with_locked dp false);;
    prev_priority ← reads (priority_of i);
    erase_download_piece it;;
    new_priority ← reads (priority_of i);
    if new_priority =? prev_priority then mret tt
    else
      dirty ← gets m_dirty;
      if (dirty : bool) then mret tt else relist i prev_priority.

(** [m_seeds += d], of an [int] *)
Definition add_seeds (d : Z) : M unit :=
  seeds ← reads (λ s, signed 32 (m_seeds s + d));
  modify (set_seeds seeds).

Definition inc_refcount_all : M unit :=
  add_seeds 1;;
  modify (λ s, if m_seeds s =? 1 then set_dirty true s else s).

Definition dec_refcount_all : M unit :=
  seeds ← gets m_seeds;
  if 0 <? seeds then
    add_seeds (-1);;
    modify (λ s, if m_seeds s =? 0 then set_dirty true s else s)
  else
    update_all (λ p, with_peer_count p (peer_count p - 1));;
    modify (set_dirty true).

Definition inc_refcount (i : Z) : M unit :=
  prev_priority ← reads (priority_of i);
  update_piece_pos i (λ p, with_peer_count p (peer_count p + 1));;
  dirty ← gets m_dirty;
  if (dirty : bool) then mret tt
  else
    new_priority ← reads (priority_of i);
    if prev_priority =? new_priority then mret tt else relist i prev_priority.

Definition break_one_seed : M unit :=
  add_seeds (-1);;
  update_all (λ p, with_peer_count p (peer_count p + 1));;
  modify (set_dirty true).

Definition dec_refcount (i : Z) : M unit :=
  p ← reads (piece_map i);
  (if peer_count p =? 0 then break_one_seed else mret tt);;
  prev_priority ← reads (priority_of i);
  update_piece_pos i (λ p, with_peer_count p (peer_count p - 1));;
  dirty ← gets m_dirty;
  if (dirty : bool) then mret tt
  else if 0 <=? prev_priority then
    p ← reads (piece_map i); picker_update prev_priority (index p)
  else mret tt.

(** ** The overloads for a bitfield *)

Fixpoint inc_listed (l : list Z) : M unit :=
  match l with
  | [] => mret tt
  | i :: l =>
      prev_priority ← reads (priority_of i);
      update_piece_pos i (λ p, with_peer_count p (peer_count p + 1));;
      new_priority ← reads (priority_of i);
      (if prev_priority =? new_priority then mret tt
       else if 0 <=? prev_priority then
         p ← reads (piece_map i); picker_update prev_priority (index p)
       else picker_add i);;
      inc_listed l
  end.

Fixpoint inc_bits (bits : bitfield) (i : Z) (updated : bool) : M bool :=
  match bits with
  | [] => mret updated
  | true :: bits =>
      update_piece_pos i (λ p, with_peer_count p (peer_count p + 1));;
      inc_bits bits (i + 1) true
  | false :: bits => inc_bits bits (i + 1) updated
  end.

Definition inc_refcount_bits (bitmask : bitfield) : M unit :=
  if none_set bitmask then mret tt
  else
    n ← gets num_pieces;
    if all_set bitmask && (vsize bitmask =? n) then inc_refcount_all
    else
      let size := Z.min 50 (Z.quot (vsize bitmask) 2) in
      dirty ← gets m_dirty;
      let '(incremented, num_inc) := collect bitmask 0 0 size in
      if negb dirty && (num_inc <? size) then inc_listed incremented
      else
        updated ← inc_bits bitmask 0 false;
        dirty ← gets m_dirty;
        if (dirty : bool) then mret tt
        else if updated : bool then modify (set_dirty true) else mret tt.

Fixpoint dec_listed (l : list Z) : M unit :=
  match l with
  | [] => mret tt
  | i :: l =>
      prev_priority ← reads (priority_of i);
      p ← reads (piece_map i);
      (if peer_count p =? 0 then break_one_seed else mret tt);;
      update_piece_pos i (λ p, with_peer_count p (peer_count p - 1));;
      dirty ← gets m_dirty;
      (if negb dirty && (0 <=? prev_priority) then
         p ← reads (piece_map i); picker_update prev_priority (index p)
       else mret tt);;
      dec_listed l
  end.

Fixpoint dec_bits (bits : bitfield) (i : Z) (updated : bool) : M bool :=
  match bits with
  | [] => mret updated
  | true :: bits =>
      p ← reads (piece_map i);
      (if peer_count p =? 0 then break_one_seed else mret tt);;
      update_piece_pos i (λ p, with_peer_count p (peer_count p - 1));;
      dec_bits bits (i + 1) true
  | false :: bits => dec_bits bits (i + 1) updated
  end.

Definition dec_refcount_bits (bitmask : bitfield) : M unit :=
  if none_set bitmask then mret tt
  else
    n ← gets num_pieces;
    if all_set bitmask && (vsize bitmask =? n) then dec_refcount_all
    else
      let size := Z.min 50 (Z.quot (vsize bitmask) 2) in
      dirty ← gets m_dirty;
      let '(decremented, num_dec) := collect bitmask 0 0 size in
      if negb dirty && (num_dec <? size) then dec_listed decremented
      else
        updated ← dec_bits bitmask 0 false;
        dirty ← gets m_dirty;
        if (dirty : bool) then mret tt
        else if updated : bool then modify (set_dirty true) else mret tt.
End ops.
