(* ===== verification/PickerBlocks.v ===== *)
(** Having, prioritising and downloading pieces and blocks: the operations of
    src/btdownloader/torrent/piece_picker.cpp from [piece_passed] on, without
    [pick_pieces]. *)

From stdpp Require Import gmap.
From S2P Require Import Prelude.
From S2P Require Import Random.
From S2P Require Import PiecePicker.
From S2P Require Import PickerState.
From S2P Require Import PickerOps.

Open Scope Z_scope.

Section ops.
Context {R : StdRandom}.

(** the iterator of a piece that is being downloaded *)
Definition dl_piece (i : Z) : M dl_iterator :=
  p ← reads (piece_map i);
  reads (find_dl_piece (queue_number (download_queue p)) i).

(** ** [we_have] and [we_dont_have] *)

(** the cursors after piece [i] has been had *)
Definition we_have_cursors (i : Z) : M unit :=
  s ← gets (λ s : picker, s);
  let m := m_piece_map (lay s) in
  let c := m_cursor s in
  let rc := m_reverse_cursor s in
  if (c =? rc - 1) && (c =? i) then modify (set_cursors (vsize m) 0)
  else if c =? i then
    c ← reads (λ _, skip_up (S (length m)) m (c + 1));
    modify (set_cursors c rc)
  else if rc - 1 =? i then
    rc ← reads (λ _, skip_down (S (length m)) m (rc - 1));
    modify (set_cursors c rc)
  else mret tt.

Definition we_have (i : Z) : M unit :=
  p ← reads (piece_map i);
  let info_index := index p in
  prio ← reads (priority_of i);
  if have p then mret tt
  else
    (if negb (bool_decide (download_queue p = piece_open)) then
       it ← reads (find_dl_piece (queue_number (download_queue p)) i);
       dp ← reads (deref it);
       (if passed_hash_check dp then update_tallies (add_num_passed (-1)) else mret tt);;
       erase_download_piece it
     else mret tt);;
    pads ← gets (pad_blocks_in_piece i);
    (if filtered p then
       update_tallies (add_filtered_pad_blocks (- pads));;
       update_tallies (add_num_filtered (-1));;
       update_tallies (add_have_filtered_pad_blocks pads);;
       update_tallies (add_num_have_filtered 1)
     else mret tt);;
    update_tallies (add_num_have 1);;
    update_tallies (add_num_passed 1);;
    update_tallies (add_have_pad_blocks pads);;
    update_piece_pos i set_have;;
    we_have_cursors i;;
    if prio =? -1 then mret tt
    else
      dirty ← gets m_dirty;
      if (dirty : bool) then mret tt else picker_remove prio info_index.

Definition piece_passed (i : Z) : M unit :=
  p ← reads (piece_map i);
  if bool_decide (download_queue p = piece_open) then mret tt
  else
    it ← reads (find_dl_piece (queue_number (download_queue p)) i);
    dp ← reads (deref it);
    if locked dp then mret tt
    else
      update_dl it (λ dp, with_passed dp true);;
      update_tallies (add_num_passed 1);;
      n ← gets (blocks_in_piece i);
      if finished dp <? n then mret tt else we_have i.

(** the cursors after piece [i] has become wanted *)
Definition extend_cursors (i : Z) : M unit :=
  modify (λ s,
    let c := if i <? m_cursor s then i else m_cursor s in
    let rc := if m_reverse_cursor s <=? i then i + 1 else m_reverse_cursor s in
    if rc =? c then set_cursors (num_pieces s) 0 s else set_cursors c rc s).

Definition we_dont_have (i : Z) : M unit :=
  p ← reads (piece_map i);
  if negb (have p) then
    if bool_decide (download_queue p = piece_open) then mret tt
    else
      it ← reads (find_dl_piece (queue_number (download_queue p)) i);
      dp ← reads (deref it);
      (if passed_hash_check dp then
         update_dl it (λ dp, with_passed dp false);;
         update_tallies (add_num_passed (-1))
       else mret tt);;
      erase_download_piece it
  else
    update_tallies (add_num_passed (-1));;
    pads ← gets (pad_blocks_in_piece i);
    (if filtered p then
       update_tallies (add_filtered_pad_blocks pads);;
       update_tallies (add_num_filtered 1);;
       update_tallies (add_have_filtered_pad_blocks (- pads));;
       update_tallies (add_num_have_filtered (-1))
     else extend_cursors i);;
    update_tallies (add_num_have (-1));;
    update_tallies (add_have_pad_blocks (- pads));;
    update_piece_pos i set_not_have;;
    dirty ← gets m_dirty;
    if (dirty : bool) then mret tt
    else
      prio ← reads (priority_of i);
      if 0 <=? prio then picker_add i else mret tt.

(** ** Priorities *)

(** the cursors before piece [i] is filtered *)
Definition filter_cursors (i : Z) : M unit :=
  s ← gets (λ s : picker, s);
  let m := m_piece_map (lay s) in
  let c := m_cursor s in
  let rc := m_reverse_cursor s in
  if (c =? rc - 1) && (c =? i) then modify (set_cursors (vsize m) 0)
  else if c =? i then
    c ← reads (λ _, skip_up (S (length m)) m (c + 1));
    modify (set_cursors c rc)
  else if rc =? i + 1 then
    rc ← reads (λ _, skip_down (S (length m)) m (rc - 1));
    modify (set_cursors c rc)
  else mret tt.

Definition set_piece_priority (i new_piece_priority : Z) : M bool :=
  p ← reads (piece_map i);
  if new_piece_priority =? piece_priority p then mret false
  else
    prev_priority ← reads (priority_of i);
    pads ← gets (pad_blocks_in_piece i);
    ret ← (if (new_piece_priority =? dont_download) && negb (filtered p) then
             (if have p then
                update_tallies (add_have_filtered_pad_blocks pads);;
                update_tallies (add_num_have_filtered 1)
              else
                update_tallies (add_filtered_pad_blocks pads);;
                update_tallies (add_num_filtered 1);;
                filter_cursors i);;
             mret true
           else if negb (new_piece_priority =? dont_download) && filtered p then
             (if have p then
                update_tallies (add_have_filtered_pad_blocks (- pads));;
                update_tallies (add_num_have_filtered (-1))
              else
                update_tallies (add_filtered_pad_blocks (- pads));;
                update_tallies (add_num_filtered (-1));;
                extend_cursors i);;
             mret true
           else mret false : M bool);
    update_piece_pos i (λ p, with_priority p (uint 8 new_piece_priority));;
    new_priority ← reads (priority_of i);
    dirty ← gets m_dirty;
    (if negb (prev_priority =? new_priority) && negb dirty then relist i prev_priority
     else mret tt);;
    p ← reads (piece_map i);
    (if downloading p then
       it ← reads (find_dl_piece (queue_number (download_queue p)) i);
       e ← reads (is_end it);
       if (e : bool) then mret tt else update_piece_state it;; mret tt
     else mret tt);;
    mret ret.

Definition piece_priorities (s : picker) : list Z := map piece_priority (m_piece_map (lay s)).

(** ** The state of a piece or a block *)

Definition is_piece_finished (i : Z) (s : picker) : option bool :=
  p ← piece_map i s;
  if index p =? we_have_index then Some true
  else if bool_decide (download_queue p = piece_open) then Some false
  else
    it ← find_dl_piece (queue_number (download_queue p)) i s;
    dp ← deref it s;
    Some (negb (finished dp + writing dp <? blocks_in_piece i s)).

Definition has_piece_passed (i : Z) (s : picker) : option bool :=
  p ← piece_map i s;
  if index p =? we_have_index then Some true
  else if bool_decide (download_queue p = piece_open) then Some false
  else
    it ← find_dl_piece (queue_number (download_queue p)) i s;
    dp ← deref it s;
    Some (passed_hash_check dp).

(** the block of a piece that is being downloaded *)
Definition dl_block (p : piece_pos) (b : piece_block) (s : picker) : option block_info :=
  it ← find_dl_piece (queue_number (download_queue p)) (piece_index b) s;
  dp ← deref it s;
  sp ← blocks_for_piece dp s;
  get_block sp (block_index b) s.

Definition is_requested (b : piece_block) (s : picker) : option bool :=
  p ← piece_map (piece_index b) s;
  if bool_decide (download_queue p = piece_open) then Some false
  else info ← dl_block p b s; Some (bool_decide (bstate info = state_requested)).

Definition is_downloaded (b : piece_block) (s : picker) : option bool :=
  p ← piece_map (piece_index b) s;
  if index p =? we_have_index then Some true
  else if bool_decide (download_queue p = piece_open) then Some false
  else
    info ← dl_block p b s;
    Some (bool_decide (bstate info = state_finished) || bool_decide (bstate info = state_writing)).

Definition is_finished (b : piece_block) (s : picker) : option bool :=
  p ← piece_map (piece_index b) s;
  if index p =? we_have_index then Some true
  else if bool_decide (download_queue p = piece_open) then Some false
  else info ← dl_block p b s; Some (bool_decide (bstate info = state_finished)).

(** [num_peers(block)] *)
Definition num_peers_of (b : piece_block) (s : picker) : option Z :=
  p ← piece_map (piece_index b) s;
  if negb (downloading p) then Some 0
  else info ← dl_block p b s; Some (num_peers info).

Definition get_downloaders (i : Z) (s : picker) : option (list torrent_peer) :=
  p ← piece_map i s;
  let num_blocks := blocks_in_piece i s in
  if bool_decide (download_queue p = piece_open) then
    Some (replicate (Z.to_nat num_blocks) nullptr)
  else
    it ← find_dl_piece (queue_number (download_queue p)) i s;
    dp ← deref it s;
    sp ← blocks_for_piece dp s;
    mapM (λ j, info ← get_block sp (Z.of_nat j) s; Some (peer info))
      (seq 0 (Z.to_nat num_blocks)).

Definition get_downloader (b : piece_block) (s : picker) : option torrent_peer :=
  p ← piece_map (piece_index b) s;
  if bool_decide (download_queue p = piece_open) then Some nullptr
  else
    info ← dl_block p b s;
    Some (if bool_decide (bstate info = state_none) then nullptr else peer info).

(** ** Extents *)

(** [extent_for(piece)]: the divisor is 0 for pieces of more than
    [max_piece_affinity_extent] blocks *)
Definition extent_for (p : Z) (s : picker) : option Z :=
  _ ← guard_b (negb (m_blocks_per_piece s =? 0));
  let extent_size := Z.quot max_piece_affinity_extent (m_blocks_per_piece s) in
  _ ← guard_b (negb (extent_size =? 0));
  Some (Z.quot p extent_size).

(** [extent_for(extent)]: the pieces of the extent *)
Definition extent_pieces (e : Z) (s : picker) : option (list Z) :=
  _ ← guard_b (negb (m_blocks_per_piece s =? 0));
  let extent_size := Z.quot max_piece_affinity_extent (m_blocks_per_piece s) in
  let begin := e * extent_size in
  let end_ := Z.min (begin + extent_size) (num_pieces s) in
  Some (map (λ k, begin + Z.of_nat k) (seq 0 (Z.to_nat (end_ - begin)))).

(** the loop of [record_downloading_piece]: [None] in the inner option is
    the early return *)
Fixpoint extent_loop (l : list Z) (p this_prio : Z) (have_all : bool) (s : picker)
    : option (option bool) :=
  match l with
  | [] => Some (Some have_all)
  | piece :: l =>
      if piece =? p then extent_loop l p this_prio have_all s
      else
        pp ← piece_map piece s;
        let have_all := have_all && have pp in
        if negb (piece_priority pp =? this_prio) then Some None
        else extent_loop l p this_prio have_all s
  end.

Definition record_downloading_piece (p : Z) : M unit :=
  n ← gets m_blocks_per_piece;
  if max_piece_affinity_extent <=? n then mret tt
  else
    this_extent ← reads (extent_for p);
    recent ← gets m_recent_extents;
    if bool_decide (this_extent ∈ recent) then mret tt
    else
      this_prio ← reads (piece_priority_of p);
      pieces ← reads (extent_pieces this_extent);
      r ← reads (extent_loop pieces p this_prio true);
      match r with
      | None | Some true => mret tt
      | Some false =>
          if vsize recent <? 5 then modify (set_extents (recent ++ [this_extent])) else mret tt
      end.

(** ** Blocks *)

(** the priority of piece [i] has changed from [prio] while it was listed *)
Definition update_if_listed (i prio : Z) : M unit :=
  dirty ← gets m_dirty;
  if (0 <=? prio) && negb dirty then
    p ← reads (piece_map i); picker_update prio (index p)
  else mret tt.

Definition mark_as_downloading (b : piece_block) (pr : torrent_peer)
    (options : picker_options_t) : M bool :=
  let i := piece_index b in
  p ← reads (piece_map i);
  if bool_decide (download_queue p = piece_open) then
    prio ← reads (priority_of i);
    update_piece_pos i (λ p, with_state p
      (if opt_reverse options then piece_downloading_reverse else piece_downloading));;
    update_if_listed i prio;;
    (if piece_extent_affinity options then record_downloading_piece i else mret tt);;
    it ← add_download_piece i;
    dp ← reads (deref it);
    sp ← reads (blocks_for_piece dp);
    info ← reads (get_block sp (block_index b));
    if bool_decide (bstate info = state_finished) then mret false
    else
      set_block sp (block_index b) (BlockInfo pr 1 state_requested);;
      update_dl it (λ dp, with_requested dp (requested dp + 1));;
      update_piece_state it;;
      mret true
  else
    it ← reads (find_dl_piece (queue_number (download_queue p)) i);
    dp ← reads (deref it);
    sp ← reads (blocks_for_piece dp);
    info ← reads (get_block sp (block_index b));
    if bool_decide (bstate info = state_writing) || bool_decide (bstate info = state_finished)
    then mret false
    else
      (if opt_reverse options && negb (reverse p) && (requested dp =? 0) then
         prio ← reads (priority_of i);
         update_piece_pos i make_reverse;;
         update_if_listed i prio
       else mret tt);;
      set_block sp (block_index b) (with_peer info pr);;
      (if negb (bool_decide (bstate info = state_requested)) then
         set_block sp (block_index b) (with_bstate (with_peer info pr) state_requested);;
         update_dl it (λ dp, with_requested dp (requested dp + 1));;
         update_piece_state it;;
         mret tt
       else mret tt);;
      info ← reads (get_block sp (block_index b));
      set_block sp (block_index b) (with_num_peers info (num_peers info + 1));;
      p ← reads (piece_map i);
      (if negb (opt_reverse options) && reverse p then
         prio ← reads (priority_of i);
         update_piece_pos i unreverse;;
         update_if_listed i prio
       else mret tt);;
      mret true.

Definition mark_as_writing (b : piece_block) (pr : torrent_peer) : M bool :=
  let i := piece_index b in
  p ← reads (piece_map i);
  if negb (downloading p) then
    h ← reads (have_piece i);
    if (h : bool) then mret false
    else
      prio ← reads (priority_of i);
      update_piece_pos i (λ p, with_state p piece_downloading);;
      update_if_listed i prio;;
      it ← add_download_piece i;
      dp ← reads (deref it);
      sp ← reads (blocks_for_piece dp);
      info ← reads (get_block sp (block_index b));
      if bool_decide (bstate info = state_finished) then mret false
      else
        set_block sp (block_index b) (BlockInfo pr 0 state_writing);;
        update_dl it (λ dp, with_writing dp 1);;
        update_piece_state it;;
        mret true
  else
    it ← reads (find_dl_piece (queue_number (download_queue p)) i);
    dp ← reads (deref it);
    sp ← reads (blocks_for_piece dp);
    info ← reads (get_block sp (block_index b));
    set_block sp (block_index b) (with_peer info pr);;
    (if bool_decide (bstate info = state_requested)
     then update_dl it (λ dp, with_requested dp (requested dp - 1)) else mret tt);;
    if bool_decide (bstate info = state_writing) || bool_decide (bstate info = state_finished)
    then mret false
    else
      update_dl it (λ dp, with_writing dp (writing dp + 1));;
      set_block sp (block_index b) (BlockInfo pr 0 state_writing);;
      update_piece_state it;;
      mret true.

Definition lock_piece (i : Z) : M unit :=
  p ← reads (piece_map i);
  if bool_decide (download_queue p = piece_open) then mret tt
  else
    it ← reads (find_dl_piece (queue_number (download_queue p)) i);
    e ← reads (is_end it);
    if (e : bool) then mret tt
    else
      dp ← reads (deref it);
      (if passed_hash_check dp then
         update_dl it (λ dp, with_passed dp false);;
         update_tallies (add_num_passed (-1))
       else mret tt);;
      update_dl it (λ dp, with_locked dp true).

(** the piece is removed from the downloads, no block of it being
    requested, written or finished *)
Definition erase_if_unused (i : Z) (it : dl_iterator) : M unit :=
  dp ← reads (deref it);
  if finished dp + writing dp + requested dp =? 0 then
    prev_priority ← reads (priority_of i);
    erase_download_piece it;;
    new_priority ← reads (priority_of i);
    dirty ← gets m_dirty;
    if (dirty : bool) then mret tt
    else if new_priority =? prev_priority then mret tt
    else relist i prev_priority
  else mret tt.

Definition write_failed (b : piece_block) : M unit :=
  let i := piece_index b in
  p ← reads (piece_map i);
  if bool_decide (download_queue p = piece_open) then mret tt
  else
    it ← reads (find_dl_piece (queue_number (download_queue p)) i);
    e ← reads (is_end it);
    if (e : bool) then mret tt
    else
      dp ← reads (deref it);
      sp ← reads (blocks_for_piece dp);
      info ← reads (get_block sp (block_index b));
      if bool_decide (bstate info = state_finished) then mret tt
      else
        (if bool_decide (bstate info = state_writing)
         then update_dl it (λ dp, with_writing dp (writing dp - 1)) else mret tt);;
        set_block sp (block_index b) (with_bstate (with_peer info nullptr) state_none);;
        (if passed_hash_check dp then
           update_dl it (λ dp, with_passed dp false);;
           update_tallies (add_num_passed (-1))
         else mret tt);;
        update_dl it (λ dp, with_locked dp true);;
        it ← update_piece_state it;
        erase_if_unused i it.

Definition mark_as_canceled (b : piece_block) (pr : torrent_peer) : M unit :=
  let i := piece_index b in
  p ← reads (piece_map i);
  if bool_decide (download_queue p = piece_open) then mret tt
  else
    it ← reads (find_dl_piece (queue_number (download_queue p)) i);
    dp ← reads (deref it);
    sp ← reads (blocks_for_piece dp);
    info ← reads (get_block sp (block_index b));
    if bool_decide (bstate info = state_finished) then mret tt
    else
      set_block sp (block_index b) (with_peer info pr);;
      if bool_decide (bstate info = state_writing) then
        update_dl it (λ dp, with_writing dp (writing dp - 1));;
        set_block sp (block_index b) (with_bstate (with_peer info pr) state_none);;
        it ← update_piece_state it;
        erase_if_unused i it
      else mret tt.

Definition mark_as_finished (b : piece_block) (pr : torrent_peer) : M unit :=
  let i := piece_index b in
  p ← reads (piece_map i);
  if bool_decide (download_queue p = piece_open) then
    h ← reads (have_piece i);
    if (h : bool) then mret tt
    else
      prio ← reads (priority_of i);
      update_piece_pos i (λ p, with_state p piece_downloading);;
      update_if_listed i prio;;
      it ← add_download_piece i;
      dp ← reads (deref it);
      sp ← reads (blocks_for_piece dp);
      info ← reads (get_block sp (block_index b));
      if bool_decide (bstate info = state_finished) then mret tt
      else
        update_dl it (λ dp, with_finished dp (finished dp + 1));;
        set_block sp (block_index b) (with_bstate (with_peer info pr) state_finished);;
        update_piece_state it;;
        mret tt
  else
    it ← reads (find_dl_piece (queue_number (download_queue p)) i);
    dp ← reads (deref it);
    sp ← reads (blocks_for_piece dp);
    info ← reads (get_block sp (block_index b));
    if bool_decide (bstate info = state_finished) then mret tt
    else
      let info' :=
        if negb (bool_decide (bstate info = state_writing)) || negb (pr =? nullptr)
        then with_peer info pr else info in
      update_dl it (λ dp, with_finished dp (finished dp + 1));;
      (if bool_decide (bstate info = state_writing)
       then update_dl it (λ dp, with_writing dp (writing dp - 1)) else mret tt);;
      set_block sp (block_index b) (with_bstate info' state_finished);;
      it ← update_piece_state it;
      dp ← reads (deref it);
      n ← gets (blocks_in_piece (dp_index dp));
      if finished dp <? n then mret tt
      else if passed_hash_check dp then we_have (dp_index dp) else mret tt.

(** the size of the bitfield is a [size_t] converted to [int]; one that does
    not fit would become negative, which has no result here *)
Definition mark_as_pad (b : piece_block) : M unit :=
  let i := piece_index b in
  bits ← reads (λ s,
    match m_pad_blocks s with
    | [] => n ← signed 32 (num_pieces s * m_blocks_per_piece s);
            Some (replicate (Z.to_nat n) false)
    | bits => Some bits
    end);
  modify (λ s, set_pads bits (m_pads_in_piece s) s);;
  bits ← reads (λ s, k ← pad_bit_index i (block_index b) s; (m_pad_blocks s)⟦k := true⟧);
  modify (λ s, set_pads bits (m_pads_in_piece s) s);;
  update_tallies (add_num_pad_blocks 1);;
  modify (λ s, set_pads (m_pad_blocks s)
            (<[i := pad_blocks_in_piece i s + 1]> (m_pads_in_piece s)) s);;
  p ← reads (piece_map i);
  (if filtered p then update_tallies (add_filtered_pad_blocks 1) else mret tt);;
  blocks ← gets (blocks_in_piece i);
  pads ← gets (pad_blocks_in_piece i);
  if pads =? blocks then we_have i else mret tt.

Definition abort_download (b : piece_block) (pr : torrent_peer) : M unit :=
  let i := piece_index b in
  p ← reads (piece_map i);
  if bool_decide (download_queue p = piece_open) then mret tt
  else
    it ← reads (find_dl_piece (queue_number (download_queue p)) i);
    dp ← reads (deref it);
    sp ← reads (blocks_for_piece dp);
    info ← reads (get_block sp (block_index b));
    if negb (bool_decide (bstate info = state_requested)) then mret tt
    else
      prev_prio ← reads (priority_of i);
      let info := if 0 <? num_peers info then with_num_peers info (num_peers info - 1)
                  else info in
      let info := if peer info =? pr then with_peer info nullptr else info in
      set_block sp (block_index b) info;;
      if 0 <? num_peers info then mret tt
      else
        set_block sp (block_index b) (with_bstate (with_peer info nullptr) state_none);;
        update_dl it (λ dp, with_requested dp (requested dp - 1));;
        dp ← reads (deref it);
        if requested dp + finished dp + writing dp =? 0 then
          erase_download_piece it;;
          prio ← reads (priority_of i);
          dirty ← gets m_dirty;
          if (dirty : bool) then mret tt
          else if (prev_prio =? -1) && (0 <=? prio) then picker_add i
          else if 0 <=? prev_prio then
            p ← reads (piece_map i); picker_update prev_prio (index p)
          else mret tt
        else update_piece_state it;; mret tt.

Definition clear_peer (pr : torrent_peer) : M unit :=
  modify (λ s, set_block_info
    (map (λ b, if peer b =? pr then with_peer b nullptr else b) (m_block_info (dls s))) s).

(** ** What is wanted and had *)

Definition want (s : picker) : option piece_count :=
  last ← piece_priority_of (num_pieces s - 1) s;
  Some (PieceCount (num_pieces s - m_num_filtered (tal s) - m_num_have_filtered (tal s))
          (m_num_pad_blocks (tal s) - m_filtered_pad_blocks (tal s)
           - m_have_filtered_pad_blocks (tal s))
          (negb (last =? dont_download))).

Definition have_want (s : picker) : option piece_count :=
  have_last ← have_piece (num_pieces s - 1) s;
  last ← piece_priority_of (num_pieces s - 1) s;
  Some (PieceCount (m_num_have (tal s) - m_num_have_filtered (tal s))
          (m_have_pad_blocks (tal s) - m_have_filtered_pad_blocks (tal s))
          (have_last && negb (last =? dont_download))).

Definition have_pieces (s : picker) : option piece_count :=
  have_last ← have_piece (num_pieces s - 1) s;
  Some (PieceCount (m_num_have (tal s)) (m_have_pad_blocks (tal s)) have_last).

Definition all_pieces (s : picker) : piece_count :=
  PieceCount (num_pieces s) (m_num_pad_blocks (tal s)) true.
End ops.
