(* ===== verification/PickerPick.v ===== *)
(** [piece_picker::pick_pieces] and the functions it uses:
    src/btdownloader/torrent/piece_picker.cpp.

    [pick_pieces] is [const], but rebuilds the list of pieces and forgets
    extents: it is in the monad of the picker.  Its output vectors, the number
    of blocks that are still wanted, the flags it returns and the counters it
    increments are the fields of [pick_state]. *)

From stdpp Require Import gmap sorting.
From S2P Require Import Prelude.
From S2P Require Import Random.
From S2P Require Import PiecePicker.
From S2P Require Import PickerState.
From S2P Require Import PickerOps.
From S2P Require Import PickerBlocks.

Open Scope Z_scope.

(** [std::sort] orders a range; which of two equivalent elements comes first
    is not fixed *)
Class StdSort := std_sort : ∀ {A}, (A → A → bool) → list A → list A.

Class StdSortOk (S : StdSort) := {
  sort_perm {A} (lt : A → A → bool) (l : list A) : std_sort lt l ≡ₚ l
}.

(** ** Options, flags and counters *)

Definition set_prioritize_partials (o : picker_options_t) : picker_options_t :=
  Options (rarest_first o) (opt_reverse o) (on_parole o) true (sequential o)
    (time_critical_mode o) (align_expanded_pieces o) (piece_extent_affinity o).

(** the bits of [picker_log_alert] *)
Definition flag_partial_ratio : Z := 0.
Definition flag_prioritize_partials : Z := 1.
Definition flag_rarest_first_partials : Z := 2.
Definition flag_rarest_first : Z := 3.
Definition flag_reverse_rarest_first : Z := 4.
Definition flag_suggested_pieces : Z := 5.
Definition flag_prio_sequential_pieces : Z := 6.
Definition flag_sequential_pieces : Z := 7.
Definition flag_time_critical : Z := 9.
Definition flag_random_pieces : Z := 10.
Definition flag_prefer_contiguous : Z := 11.
Definition flag_reverse_sequential : Z := 12.
Definition flag_backup1 : Z := 13.
Definition flag_backup2 : Z := 14.
Definition flag_end_game : Z := 15.
Definition flag_extent_affinity : Z := 16.

(** the performance counters that are incremented, in order *)
Inductive counter :=
| piece_picker_partial_loops
| piece_picker_suggest_loops
| piece_picker_reverse_rare_loops
| piece_picker_rare_loops
| piece_picker_rand_start_loops
| piece_picker_rand_loops
| piece_picker_busy_loops.

Record pick_state := PickState {
  interesting_blocks : list piece_block;
  backup_blocks : list piece_block;
  backup_blocks2 : list piece_block;
  num_blocks : Z;
  ret : Z;
  pc : list counter
}.

Definition with_num_blocks (st : pick_state) (n : Z) : pick_state :=
  PickState (interesting_blocks st) (backup_blocks st) (backup_blocks2 st) n (ret st) (pc st).
Definition with_interesting (st : pick_state) (l : list piece_block) : pick_state :=
  PickState l (backup_blocks st) (backup_blocks2 st) (num_blocks st) (ret st) (pc st).
Definition with_backup2 (st : pick_state) (l : list piece_block) : pick_state :=
  PickState (interesting_blocks st) (backup_blocks st) l (num_blocks st) (ret st) (pc st).
Definition with_flag (st : pick_state) (bit : Z) : pick_state :=
  PickState (interesting_blocks st) (backup_blocks st) (backup_blocks2 st) (num_blocks st)
    (Z.lor (ret st) (Z.shiftl 1 bit)) (pc st).
Definition with_counters (st : pick_state) (l : list counter) : pick_state :=
  PickState (interesting_blocks st) (backup_blocks st) (backup_blocks2 st) (num_blocks st)
    (ret st) (pc st ++ l).

(** [append_blocks(dst, src, num_blocks)] *)
Definition append_blocks (dst src : list piece_block) (n : Z)
    : list piece_block * list piece_block * Z :=
  match src with
  | [] => (dst, src, n)
  | _ =>
      let to_copy := Z.min (vsize src) n in
      (dst ++ take (Z.to_nat to_copy) src, drop (Z.to_nat to_copy) src, n - to_copy)
  end.

Definition append_backup (st : pick_state) : pick_state :=
  let '(dst, src, n) := append_blocks (interesting_blocks st) (backup_blocks st) (num_blocks st) in
  PickState dst src (backup_blocks2 st) n (ret st) (pc st).

Definition append_backup2 (st : pick_state) : pick_state :=
  let '(dst, src, n) := append_blocks (interesting_blocks st) (backup_blocks2 st) (num_blocks st) in
  PickState dst (backup_blocks st) src n (ret st) (pc st).

(** the blocks of piece [k] from [j] on are pushed, until [stop] says so *)
Fixpoint push_blocks (stop : Z → Z → bool) (n : nat) (k j num prefer : Z)
    : list piece_block * Z * Z :=
  match n with
  | O => ([], num, prefer)
  | S n =>
      let num := num - 1 in
      let prefer := prefer - 1 in
      if stop num prefer then ([PieceBlock k j], num, prefer)
      else
        let '(l, num, prefer) := push_blocks stop n k (j + 1) num prefer in
        (PieceBlock k j :: l, num, prefer)
  end.

(** the blocks of the pieces from [k] on are pushed *)
Fixpoint push_pieces (stop : Z → Z → bool) (blocks_in : Z → Z) (n : nat) (k num prefer : Z)
    : list piece_block * Z * Z :=
  match n with
  | O => ([], num, prefer)
  | S n =>
      let '(l, num, prefer) := push_blocks stop (Z.to_nat (blocks_in k)) k 0 num prefer in
      let '(l', num, prefer) := push_pieces stop blocks_in n (k + 1) num prefer in
      (l ++ l', num, prefer)
  end.

(** the stop condition of [add_blocks] and of the random pick *)
Definition stop_add (num prefer : Z) : bool := (prefer =? 0) && (num <=? 0).
Definition stop_random (num prefer : Z) : bool := (prefer <=? 0) && (num <=? 0).

(** the last loop of [add_blocks_downloading] over the blocks of the piece;
    [true] is the early return *)
Fixpoint pick_open (n : nat) (blocks : list block_info) (i j first_block total num prefer : Z)
    : option (list piece_block * Z * bool) :=
  match n with
  | O => Some ([], num, false)
  | S n =>
      let block_idx := Z.rem (j + first_block) total in
      info ← blocks⟦block_idx⟧;
      if negb (bool_decide (bstate info = state_none)) then
        pick_open n blocks i (j + 1) first_block total num prefer
      else
        let num := num - 1 in
        if (negb (0 <? prefer)) && (num <=? 0) then Some ([PieceBlock i block_idx], num, true)
        else
          '(l, num, early) ←
            pick_open n blocks i (j + 1) first_block total num
              (if 0 <? prefer then prefer - 1 else prefer);
          Some (PieceBlock i block_idx :: l, num, early)
  end.

(** the loop that fills [backup_blocks2] *)
Fixpoint open_blocks (n : nat) (blocks : list block_info) (i j first_block total : Z)
    : option (list piece_block) :=
  match n with
  | O => Some []
  | S n =>
      let block_idx := Z.rem (j + first_block) total in
      info ← blocks⟦block_idx⟧;
      l ← open_blocks n blocks i (j + 1) first_block total;
      Some (if negb (bool_decide (bstate info = state_none)) then l
            else PieceBlock i block_idx :: l)
  end.

(** the loop of [requested_from] *)
Fixpoint requested_loop (blocks : list block_info) (pr : torrent_peer) (idx : Z)
    (exclusive exclusive_active : bool) (contiguous max_contiguous first_block : Z)
    : bool * bool * Z * Z * Z :=
  match blocks with
  | [] => (exclusive, exclusive_active, contiguous, max_contiguous, first_block)
  | info :: blocks =>
      if bool_decide (bstate info = state_none) then
        requested_loop blocks pr (idx + 1) exclusive exclusive_active (contiguous + 1)
          max_contiguous first_block
      else
        let '(max_contiguous, first_block) :=
          if max_contiguous <? contiguous then (contiguous, idx - contiguous)
          else (max_contiguous, first_block) in
        let other := negb (peer info =? pr) in
        let active := other && bool_decide (bstate info = state_requested)
                      && negb (peer info =? nullptr) in
        requested_loop blocks pr (idx + 1) (exclusive && negb other)
          (exclusive_active && negb active) 0 max_contiguous first_block
  end.

Section pick.
Context {R : StdRandom} {St : StdSort}.

Definition is_piece_free (i : Z) (bitmask : bitfield) (s : picker) : option bool :=
  b ← bitmask⟦i⟧;
  if negb b then Some false
  else p ← piece_map i s; Some (negb (have p) && negb (filtered p)).

Definition can_pick (i : Z) (bitmask : bitfield) (s : picker) : option bool :=
  b ← bitmask⟦i⟧;
  if negb b then Some false
  else p ← piece_map i s; Some (negb (have p) && negb (downloading p) && negb (filtered p)).

(** ** [expand_piece] *)

Fixpoint expand_down (fuel : nat) (start lower_limit : Z) (have : bitfield) (s : picker)
    : option Z :=
  match fuel with
  | O => Some start
  | S fuel =>
      if lower_limit <? start then
        b ← can_pick (start - 1) have s;
        if b : bool then expand_down fuel (start - 1) lower_limit have s else Some start
      else Some start
  end.

Fixpoint expand_up (fuel : nat) (end_ upper_limit : Z) (have : bitfield) (s : picker)
    : option Z :=
  match fuel with
  | O => Some end_
  | S fuel =>
      if end_ <? upper_limit then
        b ← can_pick end_ have s;
        if b : bool then expand_up fuel (end_ + 1) upper_limit have s else Some end_
      else Some end_
  end.

Definition expand_piece (piece contiguous_blocks : Z) (have : bitfield)
    (options : picker_options_t) (s : picker) : option (Z * Z) :=
  if contiguous_blocks =? 0 then Some (piece, piece + 1)
  else
    let n := m_blocks_per_piece s in
    _ ← guard_b (negb (n =? 0));
    let whole_pieces := Z.quot (contiguous_blocks + n - 1) n in
    lower_limit ←
      (if align_expanded_pieces options then
         _ ← guard_b (negb (whole_pieces =? 0));
         Some (piece - Z.rem piece whole_pieces)
       else
         let l := piece - whole_pieces + 1 in
         Some (if l <? 0 then 0 else l));
    start ← expand_down (Z.to_nat (piece - lower_limit)) piece lower_limit have s;
    let upper_limit :=
      if align_expanded_pieces options then lower_limit + whole_pieces
      else start + whole_pieces in
    let upper_limit := if vsize have <? upper_limit then vsize have else upper_limit in
    end_ ← expand_up (Z.to_nat (upper_limit - (piece + 1))) (piece + 1) upper_limit have s;
    Some (start, end_).

(** ** [requested_from], [add_blocks_downloading] and [add_blocks] *)

Definition requested_from (dp : downloading_piece) (num_blocks_in_piece : Z)
    (pr : torrent_peer) (s : picker) : option (bool * bool * Z * Z) :=
  sp ← blocks_for_piece dp s;
  blocks ← span_blocks sp s;
  let '(exclusive, exclusive_active, contiguous, max_contiguous, first_block) :=
    requested_loop blocks pr 0 true true 0 0 0 in
  let '(max_contiguous, first_block) :=
    if max_contiguous <? contiguous then (contiguous, num_blocks_in_piece - contiguous)
    else (max_contiguous, first_block) in
  Some (exclusive, exclusive_active, max_contiguous, first_block).

Definition add_blocks_downloading (dp : downloading_piece) (pieces : bitfield)
    (prefer : Z) (pr : torrent_peer) (options : picker_options_t) (st : pick_state)
    (s : picker) : option pick_state :=
  let i := dp_index dp in
  b ← pieces⟦i⟧;
  if negb b then Some st
  else if locked dp then Some st
  else
    let total := blocks_in_piece i s in
    '(exclusive, exclusive_active, contiguous_blocks, first_block) ←
      requested_from dp total pr s;
    let first_block := if prefer =? 0 then 0 else first_block in
    if on_parole options && negb exclusive then Some st
    else
      sp ← blocks_for_piece dp s;
      blocks ← span_blocks sp s;
      if (contiguous_blocks <? prefer) && negb exclusive_active && negb (on_parole options) then
        if num_blocks st <=? vsize (backup_blocks2 st) then Some st
        else
          l ← open_blocks (Z.to_nat total) blocks i 0 first_block total;
          Some (with_backup2 st (backup_blocks2 st ++ l))
      else
        '(l, num, early) ←
          pick_open (Z.to_nat total) blocks i 0 first_block total (num_blocks st) prefer;
        let st := with_interesting st (interesting_blocks st ++ l) in
        Some (with_num_blocks st (if (early : bool) || (num <=? 0) then 0 else num)).

Definition add_blocks (piece : Z) (pieces : bitfield) (prefer : Z) (pr : torrent_peer)
    (ignore : list Z) (options : picker_options_t) (st : pick_state) (s : picker)
    : option pick_state :=
  if bool_decide (piece ∈ ignore) then Some st
  else
    p ← piece_map piece s;
    let state := download_queue p in
    if negb (bool_decide (state = piece_open)) && negb (bool_decide (state = piece_downloading))
    then Some st
    else if bool_decide (state = piece_downloading) then
      if prioritize_partials options then Some st
      else
        it ← find_dl_piece (queue_number piece_downloading) piece s;
        dp ← deref it s;
        add_blocks_downloading dp pieces prefer pr options st s
    else if prefer =? 0 then
      let n := Z.min (blocks_in_piece piece s) (num_blocks st) in
      let l := map (λ j, PieceBlock piece (Z.of_nat j)) (seq 0 (Z.to_nat n)) in
      let st := with_interesting st (interesting_blocks st ++ l) in
      Some (with_num_blocks st (Z.max (num_blocks st - n) 0))
    else
      '(start, end_) ← expand_piece piece prefer pieces options s;
      let '(l, num, _) :=
        push_pieces stop_add (λ k, blocks_in_piece k s) (Z.to_nat (end_ - start)) start
          (num_blocks st) prefer in
      let st := with_interesting st (interesting_blocks st ++ l) in
      Some (with_num_blocks st (Z.max num 0)).

(** lower availability comes first *)
Definition partial_compare_rarest_first (s : picker) (lhs rhs : downloading_piece) : bool :=
  let availability dp := match piece_map (dp_index dp) s with
                         | Some p => peer_count p
                         | None => 0
                         end in
  let blocks_left dp := m_blocks_per_piece s - finished dp - writing dp - requested dp in
  if negb (availability lhs =? availability rhs) then availability lhs <? availability rhs
  else blocks_left lhs <? blocks_left rhs.

(** ** The loops of [pick_pieces]

    A loop looks at the pieces of a list.  [check] says whether a piece is
    considered, skipped, or ends the loop, and which counters are
    incremented; the loops return whether [pick_pieces] returns. *)

Inductive verdict := consider | skip | stop.

(** [(options & time_critical_mode) && piece_priority(i) != top_priority] *)
Definition too_low (options : picker_options_t) (i : Z) (s : picker) : option bool :=
  if time_critical_mode options then
    prio ← piece_priority_of i s; Some (negb (prio =? top_priority))
  else Some false.

Fixpoint pick_list (l : list Z) (check : Z → picker → option (verdict * list counter))
    (flag : Z) (pieces : bitfield) (prefer : Z) (pr : torrent_peer) (ignore : list Z)
    (options : picker_options_t) (st : pick_state) (s : picker) : option (pick_state * bool) :=
  match l with
  | [] => Some (st, false)
  | i :: l =>
      '(v, cs) ← check i s;
      let st := with_counters st cs in
      match v with
      | stop => Some (st, false)
      | skip => pick_list l check flag pieces prefer pr ignore options st s
      | consider =>
          free ← is_piece_free i pieces s;
          if negb free then pick_list l check flag pieces prefer pr ignore options st s
          else
            st ← add_blocks i pieces prefer pr ignore options (with_flag st flag) s;
            if num_blocks st <=? 0 then Some (st, true)
            else pick_list l check flag pieces prefer pr ignore options st s
      end
  end.

(** the eligible partial pieces *)
Fixpoint eligible_partials (l : list downloading_piece) (pieces : bitfield)
    (options : picker_options_t) (s : picker) : option (list downloading_piece) :=
  match l with
  | [] => Some []
  | dp :: l =>
      low ← too_low options (dp_index dp) s;
      free ← (if (low : bool) then Some false else is_piece_free (dp_index dp) pieces s);
      l ← eligible_partials l pieces options s;
      Some (if (free : bool) then dp :: l else l)
  end.

Fixpoint pick_partials (l : list downloading_piece) (pieces : bitfield) (prefer : Z)
    (pr : torrent_peer) (options : picker_options_t) (st : pick_state) (s : picker)
    : option (pick_state * bool) :=
  match l with
  | [] => Some (st, false)
  | dp :: l =>
      st ← add_blocks_downloading dp pieces prefer pr options
             (with_flag st flag_prioritize_partials) s;
      if num_blocks st <=? 0 then Some (st, true)
      else if (num_blocks st <=? vsize (backup_blocks st))
              && (num_blocks st <=? vsize (backup_blocks2 st)) then Some (st, false)
      else pick_partials l pieces prefer pr options st s
  end.

(** [if (options & prioritize_partials)] *)
Definition partials_phase (pieces : bitfield) (prefer : Z) (pr : torrent_peer)
    (options : picker_options_t) (st : pick_state) (s : picker)
    : option (pick_state * bool) :=
  v ← queue (queue_number piece_downloading) s;
  let st := with_counters st (map (λ _, piece_picker_partial_loops) v) in
  ordered ← eligible_partials v pieces options s;
  let '(ordered, st) :=
    if rarest_first options
    then (std_sort (partial_compare_rarest_first s) ordered,
          with_flag st flag_rarest_first_partials)
    else (ordered, st) in
  '(st, done) ← pick_partials ordered pieces prefer pr options st s;
  if (done : bool) then Some (st, true)
  else
    let st := append_backup st in
    if num_blocks st <=? 0 then Some (st, true)
    else
      let st := append_backup2 st in
      Some (st, num_blocks st <=? 0).

(** the suggested pieces *)
Definition suggested_phase (suggested_pieces : list Z) (pieces : bitfield) (prefer : Z)
    (pr : torrent_peer) (options : picker_options_t) (st : pick_state) (s : picker)
    : option (pick_state * bool) :=
  pick_list suggested_pieces
    (λ i s, low ← too_low options i s;
            Some (if low : bool then (skip, []) else (consider, [piece_picker_suggest_loops])))
    flag_suggested_pieces pieces prefer pr [] options st s.

Definition top_only (i : Z) (s : picker) : option (verdict * list counter) :=
  prio ← piece_priority_of i s;
  Some (if prio =? top_priority then consider else stop, []).

Definition not_top (i : Z) (s : picker) : option (verdict * list counter) :=
  prio ← piece_priority_of i s;
  Some (if prio =? top_priority then skip else consider, []).

Definition range_up (first last : Z) : list Z :=
  map (λ k, first + Z.of_nat k) (seq 0 (Z.to_nat (last - first))).

(** [if (m_dirty) update_pieces();] *)
Definition rebuild_if_dirty : M unit :=
  dirty ← gets m_dirty; if (dirty : bool) then picker_update_pieces else mret tt.

Definition sequential_phase (pieces : bitfield) (prefer : Z) (pr : torrent_peer)
    (suggested_pieces : list Z) (options : picker_options_t) (st : pick_state)
    : M (pick_state * bool) :=
  rebuild_if_dirty;;
  reads (λ s,
    '(st, done) ← pick_list (m_pieces (lay s)) top_only flag_prio_sequential_pieces pieces
                    prefer pr suggested_pieces options st s;
    if (done : bool) || time_critical_mode options then Some (st, done)
    else
      let l := range_up (m_cursor s) (m_reverse_cursor s) in
      if opt_reverse options then
        pick_list (rev l) not_top flag_reverse_sequential pieces prefer pr suggested_pieces
          options st s
      else
        pick_list l not_top flag_sequential_pieces pieces prefer pr suggested_pieces
          options st s).

(** the buckets from number [n - 1] down to 0, each from its end *)
Fixpoint reverse_rarest (n : nat) (pieces : bitfield) (prefer : Z) (pr : torrent_peer)
    (suggested_pieces : list Z) (options : picker_options_t) (st : pick_state) (s : picker)
    : option (pick_state * bool) :=
  match n with
  | O => Some (st, false)
  | S n =>
      start ← priority_begin (lay s) (Z.of_nat n);
      end_ ← priority_end (lay s) (Z.of_nat n);
      l ← mapM (λ t, (m_pieces (lay s))⟦t⟧) (range_up start end_);
      '(st, done) ←
        pick_list (rev l) (λ _ _, Some (consider, [piece_picker_reverse_rare_loops]))
          flag_reverse_rarest_first pieces prefer pr suggested_pieces options st s;
      if (done : bool) then Some (st, true)
      else reverse_rarest n pieces prefer pr suggested_pieces options st s
  end.

(** the pieces of one extent; the last component is [have_all] *)
Fixpoint pick_extent (l : list Z) (have_all : bool) (pieces : bitfield) (prefer : Z)
    (pr : torrent_peer) (suggested_pieces : list Z) (options : picker_options_t)
    (st : pick_state) (s : picker) : option (pick_state * bool * bool) :=
  match l with
  | [] => Some (st, false, have_all)
  | i :: l =>
      p ← piece_map i s;
      let have_all := have_all && have p in
      free ← is_piece_free i pieces s;
      if negb free then
        pick_extent l have_all pieces prefer pr suggested_pieces options st s
      else
        st ← add_blocks i pieces prefer pr suggested_pieces options
               (with_flag st flag_extent_affinity) s;
        if num_blocks st <=? 0 then Some (st, true, have_all)
        else pick_extent l have_all pieces prefer pr suggested_pieces options st s
  end.

(** the recent extents; the last component is [to_erase] *)
Fixpoint pick_extents (l : list Z) (idx to_erase : Z) (pieces : bitfield) (prefer : Z)
    (pr : torrent_peer) (suggested_pieces : list Z) (options : picker_options_t)
    (st : pick_state) (s : picker) : option (pick_state * bool * Z) :=
  match l with
  | [] => Some (st, false, to_erase)
  | e :: l =>
      ps ← extent_pieces e s;
      '(st, done, have_all) ←
        pick_extent ps true pieces prefer pr suggested_pieces options st s;
      if (done : bool) then Some (st, true, to_erase)
      else
        pick_extents l (idx + 1) (if (have_all : bool) then idx else to_erase) pieces prefer pr
          suggested_pieces options st s
  end.

Definition extents_phase (pieces : bitfield) (prefer : Z) (pr : torrent_peer)
    (suggested_pieces : list Z) (options : picker_options_t) (st : pick_state)
    : M (pick_state * bool) :=
  recent ← gets m_recent_extents;
  '(st, done, to_erase) ←
    reads (pick_extents recent 0 (-1) pieces prefer pr suggested_pieces options st);
  (if negb (to_erase =? -1) then
     l ← reads (λ _, verase recent to_erase); modify (set_extents l)
   else mret tt);;
  mret (st, done).

Definition rarest_phase (pieces : bitfield) (prefer : Z) (pr : torrent_peer)
    (suggested_pieces : list Z) (options : picker_options_t) (st : pick_state)
    : M (pick_state * bool) :=
  rebuild_if_dirty;;
  if opt_reverse options && negb (time_critical_mode options) then
    reads (λ s, reverse_rarest (length (m_priority_boundaries (lay s))) pieces prefer pr
                  suggested_pieces options st s)
  else
    '(st, done) ← (if piece_extent_affinity options
                   then extents_phase pieces prefer pr suggested_pieces options st
                   else mret (st, false));
    if (done : bool) then mret (st, true)
    else
      reads (λ s,
        pick_list (m_pieces (lay s))
          (λ i s, low ← too_low options i s;
                  Some (if low : bool then stop else consider, [piece_picker_rare_loops]))
          flag_rarest_first pieces prefer pr suggested_pieces options st s).

(** ** The random pick *)

Definition wrap (i : Z) (s : picker) : Z := if i =? num_pieces s then 0 else i.

(** the inner loop: the next piece that can be picked, [None] in the inner
    option when the start is reached *)
Fixpoint next_free (fuel : nat) (piece start_piece : Z) (pieces : bitfield)
    (suggested_pieces : list Z) (st : pick_state) (s : picker)
    : option (pick_state * option Z) :=
  match fuel with
  | O => None
  | S fuel =>
      free ← is_piece_free piece pieces s;
      if negb free || bool_decide (piece ∈ suggested_pieces) then
        let st := with_counters st [piece_picker_rand_start_loops] in
        let piece := wrap (piece + 1) s in
        if piece =? start_piece then Some (st, None)
        else next_free fuel piece start_piece pieces suggested_pieces st s
      else Some (st, Some piece)
  end.

Fixpoint random_loop (fuel : nat) (piece start_piece : Z) (pieces : bitfield) (prefer : Z)
    (pr : torrent_peer) (suggested_pieces : list Z) (options : picker_options_t)
    (st : pick_state) (s : picker) : option pick_state :=
  match fuel with
  | O => None
  | S fuel =>
      if negb (0 <? num_blocks st) then Some st
      else
        '(st, next) ←
          next_free (S (length (m_piece_map (lay s)))) piece start_piece pieces
            suggested_pieces st s;
        match next with
        | None => Some st
        | Some piece =>
            p ← piece_map piece s;
            '(st, prefer, piece) ←
              (if (1 <? prefer) && negb (downloading p) then
                 '(start, end_) ← expand_piece piece prefer pieces options s;
                 let '(l, num, prefer) :=
                   push_pieces stop_random (λ k, blocks_in_piece k s)
                     (Z.to_nat (end_ - start)) start (num_blocks st) prefer in
                 let st := with_interesting (with_flag st flag_random_pieces)
                             (interesting_blocks st ++ l) in
                 let st := with_counters st (map (λ _, piece_picker_rand_loops) l) in
                 Some (with_num_blocks st num, prefer, end_)
               else
                 st ← add_blocks piece pieces prefer pr [] options
                        (with_flag st flag_random_pieces) s;
                 Some (st, prefer, piece + 1));
            let piece := wrap piece s in
            if piece =? start_piece then Some st
            else
              random_loop fuel piece start_piece pieces prefer pr suggested_pieces options st s
        end
  end.

(** enough steps for every block and every piece *)
Definition random_fuel (st : pick_state) (s : picker) : nat :=
  Z.to_nat ((num_blocks st + 1) * (num_pieces s + 1)).

Definition random_phase (pieces : bitfield) (prefer : Z) (pr : torrent_peer)
    (suggested_pieces : list Z) (options : picker_options_t) (st : pick_state)
    : M (pick_state * bool) := λ s,
  let '(start_piece, e) := random (num_pieces s - 1) (rng s) in
  st ← random_loop (random_fuel st s) start_piece start_piece pieces prefer pr
         suggested_pieces options st s;
  Some ((st, num_blocks st <=? 0), set_rng e s).

(** ** The end game *)

Fixpoint full_pieces (l : list downloading_piece) (c partials_size : Z) (pieces : bitfield)
    (options : picker_options_t) (s : picker) : option (list downloading_piece) :=
  match l with
  | [] => Some []
  | dp :: l =>
      if c =? partials_size then Some []
      else
        b ← pieces⟦dp_index dp⟧;
        low ← (if negb b then Some true else too_low options (dp_index dp) s);
        if (low : bool) then full_pieces l c partials_size pieces options s
        else
          l ← full_pieces l (c + 1) partials_size pieces options s;
          Some (dp :: l)
  end.

(** the requested blocks of other peers *)
Fixpoint busy_blocks (blocks : list block_info) (i idx : Z) (pr : torrent_peer)
    : list piece_block :=
  match blocks with
  | [] => []
  | info :: blocks =>
      let l := busy_blocks blocks i (idx + 1) pr in
      if negb (bool_decide (bstate info = state_requested)) || (peer info =? pr) then l
      else PieceBlock i idx :: l
  end.

Fixpoint busy_loop (fuel : nat) (partials : list downloading_piece) (partials_size : Z)
    (pr : torrent_peer) (st : pick_state) : M pick_state :=
  match fuel with
  | O => mret st
  | S fuel =>
      let st := with_counters st [piece_picker_busy_loops] in
      e ← gets rng;
      let '(piece, e) := random (partials_size - 1) e in
      modify (set_rng e);;
      dp ← reads (λ _, partials⟦piece⟧);
      sp ← reads (blocks_for_piece dp);
      blocks ← reads (span_blocks sp);
      let temp := busy_blocks blocks (dp_index dp) 0 pr in
      match temp with
      | _ :: _ =>
          e ← gets rng;
          let '(k, e) := random (vsize temp - 1) e in
          modify (set_rng e);;
          b ← reads (λ _, temp⟦k⟧);
          let st := with_flag st flag_end_game in
          mret (with_num_blocks (with_interesting st (interesting_blocks st ++ [b]))
                  (num_blocks st - 1))
      | [] =>
          last ← reads (λ _, partials⟦partials_size - 1⟧);
          partials ← reads (λ _, partials⟦piece := last⟧);
          busy_loop fuel partials (partials_size - 1) pr st
      end
  end.

Definition end_game (pieces : bitfield) (pr : torrent_peer) (options : picker_options_t)
    (st : pick_state) : M pick_state :=
  partial ← reads (queue (queue_number piece_downloading));
  full ← reads (queue (queue_number piece_full));
  let partials_size := Z.min 200 (vsize partial + vsize full) in
  if partials_size =? 0 then mret st
  else
    partials ← reads (full_pieces full 0 partials_size pieces options);
    busy_loop (length partials) partials (vsize partials) pr st.

(** ** [pick_pieces] *)

(** from [get_out] on *)
Definition finish_pick (pieces : bitfield) (pr : torrent_peer) (options : picker_options_t)
    (st : pick_state) : M pick_state :=
  if num_blocks st <=? 0 then mret st
  else
    let st := append_backup (with_flag st flag_backup1) in
    if num_blocks st <=? 0 then mret st
    else
      let st := append_backup2 (with_flag st flag_backup2) in
      if num_blocks st <=? 0 then mret st
      else if on_parole options then mret st
      else end_game pieces pr options st.

Definition pick_pieces (pieces : bitfield) (interesting : list piece_block) (num_blocks prefer : Z)
    (pr : torrent_peer) (options : picker_options_t) (suggested_pieces : list Z)
    (num_peers : Z) : M pick_state :=
  partial ← reads (queue (queue_number piece_downloading));
  n ← gets m_blocks_per_piece;
  let num_partials := vsize partial in
  let st := PickState interesting [] [] num_blocks 0 [] in
  let '(options, prefer, st) :=
    if (Z.quot (num_peers * 3) 2 <? num_partials) || (2048 <? num_partials * n)
    then (set_prioritize_partials options, 0, with_flag st flag_partial_ratio)
    else (options, prefer, st) in
  let st := if negb (prefer =? 0) then with_flag st flag_prefer_contiguous else st in
  '(st, done) ← reads (λ s, if prioritize_partials options
                            then partials_phase pieces prefer pr options st s
                            else Some (st, false));
  if (done : bool) then mret st
  else
    '(st, done) ← reads (suggested_phase suggested_pieces pieces prefer pr options st);
    if (done : bool) then mret st
    else
      '(st, done) ←
        (if sequential options then
           sequential_phase pieces prefer pr suggested_pieces options st
         else if rarest_first options then
           rarest_phase pieces prefer pr suggested_pieces options st
         else if time_critical_mode options then
           reads (λ s, pick_list (m_pieces (lay s)) top_only flag_time_critical pieces prefer pr
                         suggested_pieces options st s)
         else random_phase pieces prefer pr suggested_pieces options st);
      if (done : bool) then mret st
      else finish_pick pieces pr options st.
End pick.
