(* ===== verification/PickerInv.v ===== *)
(** Reasoning about the monad of the picker, and the invariant of the list of
    pieces: when the picker is not dirty, every piece is in the bucket of its
    priority.  An operation that changes one piece and then adds, updates or
    removes it re-establishes the invariant. *)

From stdpp Require Import gmap.
From S2P Require Import Prelude.
From S2P Require Import Random.
From S2P Require Import PiecePicker.
From S2P Require Import PickerBuckets.
From S2P Require Import PickerRebuild.
From S2P Require Import PickerState.
From S2P Require Import PickerOps.

Open Scope Z_scope.

(** * Weakest preconditions *)

Section wp.
Context {R : StdRandom}.

(** [m] returns, without undefined behaviour, and its result and final state
    satisfy [Q] *)
Definition wp {A} (m : M A) (s : picker) (Q : A → picker → Prop) : Prop :=
  ∃ x s', m s = Some (x, s') ∧ Q x s'.

Lemma wp_ret {A} (x : A) s (Q : A → picker → Prop) : Q x s → wp (mret x) s Q.
Proof. intros HQ. by exists x, s. Qed.

Lemma wp_bind {A B} (m : M A) (k : A → M B) s Q :
  wp m s (λ x s', wp (k x) s' Q) → wp (m ≫= k) s Q.
Proof.
  intros (x & s' & Hm & y & s'' & Hk & HQ). exists y, s''. split; [|done].
  unfold mbind, M_bind. by rewrite Hm.
Qed.

Lemma wp_mono {A} (m : M A) s (Q Q' : A → picker → Prop) :
  wp m s Q → (∀ x s', Q x s' → Q' x s') → wp m s Q'.
Proof. intros (x & s' & Hm & HQ) HQQ. exists x, s'. auto. Qed.

Lemma wp_reads {A} (f : picker → option A) s x (Q : A → picker → Prop) :
  f s = Some x → Q x s → wp (reads f) s Q.
Proof. intros Hf HQ. exists x, s. unfold reads. by rewrite Hf. Qed.

Lemma wp_gets {A} (f : picker → A) s (Q : A → picker → Prop) : Q (f s) s → wp (gets f) s Q.
Proof. intros HQ. by exists (f s), s. Qed.

Lemma wp_modify f s (Q : unit → picker → Prop) : Q tt (f s) → wp (modify f) s Q.
Proof. intros HQ. by exists tt, (f s). Qed.

Lemma wp_guard b s (Q : unit → picker → Prop) : b = true → Q tt s → wp (guard_M b) s Q.
Proof. intros -> HQ. by exists tt, s. Qed.

Lemma wp_update_tallies f s (Q : unit → picker → Prop) :
  Q tt (set_tal (f (tal s)) s) → wp (update_tallies f) s Q.
Proof. apply wp_modify. Qed.

Lemma wp_bind_inv {A B} (m : M A) (k : A → M B) s Q :
  wp (m ≫= k) s Q → wp m s (λ x s', wp (k x) s' Q).
Proof.
  intros (y & s'' & Hrun & HQ). unfold mbind, M_bind in Hrun.
  destruct (m s) as [[x s']|] eqn:Hm; [|done]. exists x, s'. split; [done|]. by exists y, s''.
Qed.

Lemma wp_reads_inv {A} (f : picker → option A) s (Q : A → picker → Prop) :
  wp (reads f) s Q → ∃ x, f s = Some x ∧ Q x s.
Proof.
  intros (x & s' & Hrun & HQ). unfold reads in Hrun. destruct (f s) as [y|] eqn:Hf; [|done].
  injection Hrun as <- <-. by exists y.
Qed.

(** the actions that come before [k] *)
Lemma wp_regroup1 {B C D} (b : M B) (f : B → M C) (k : M D) s Q :
  wp (x ← b; f x) s (λ _ s', wp k s' Q) → wp (x ← b; f x ;; k) s Q.
Proof.
  intros H1. apply wp_bind_inv in H1. apply wp_bind.
  eapply wp_mono; [exact H1|]. cbn beta. intros x s2 H2. by apply wp_bind.
Qed.

Lemma wp_regroup {A B C D} (a : M A) (b : M B) (f : B → M C) (k : M D) s Q :
  wp (a ;; x ← b; f x) s (λ _ s', wp k s' Q) → wp (a ;; x ← b; f x ;; k) s Q.
Proof.
  intros H. apply wp_bind_inv in H. apply wp_bind. eapply wp_mono; [exact H|].
  cbn beta. intros _ s1 H1. by apply wp_regroup1.
Qed.

Lemma wp_unit_bind {B} (m : M unit) (k : M B) s Q :
  wp m s (λ _ s', wp k s' Q) → wp (m ;; k) s Q.
Proof. apply wp_bind. Qed.
End wp.

(** one step of a computation whose next action is of a simple kind *)
Ltac wstep :=
  lazymatch goal with
  | |- wp (mbind _ _) _ _ => apply wp_bind; wstep
  | |- wp (mret _) _ _ => apply wp_ret
  | |- wp (gets _) _ _ => apply wp_gets
  | |- wp (modify _) _ _ => apply wp_modify
  | |- wp (update_tallies _) _ _ => apply wp_update_tallies
  | |- wp (reads _) _ _ => eapply wp_reads; [try first [eassumption|reflexivity]|]
  | |- wp (guard_M _) _ _ => apply wp_guard
  | |- wp (if ?b then _ else _) _ _ => idtac
  | _ => idtac
  end; cbv beta.

(** * Changing one piece *)

(** [m'] is [m] with the entry of piece [i] replaced *)
Definition changed (m m' : list piece_pos) (i : Z) (p' : piece_pos) : Prop :=
  vsize m' = vsize m ∧ ∀ j, m'⟦j⟧ = if j =? i then Some p' else m⟦j⟧.

Lemma changed_vset m m' i p' : m⟦i := p'⟧ = Some m' → changed m m' i p'.
Proof. intros H. split; [by eapply vset_size|]. intros j. by apply vset_get. Qed.

Lemma changed_eq m m' i p' : changed m m' i p' → m'⟦i⟧ = Some p'.
Proof. intros [_ H]. by rewrite H, Z.eqb_refl. Qed.

Lemma changed_ne m m' i p' j : changed m m' i p' → j ≠ i → m'⟦j⟧ = m⟦j⟧.
Proof. intros [_ H] Hj. rewrite H. by destruct (Z.eqb_spec j i). Qed.

(** the range of a well-formed entry *)
Definition piece_ok (p : piece_pos) : Prop :=
  0 ≤ peer_count p < 2 ^ 26 ∧ 0 ≤ piece_priority p < 2 ^ 3 ∧ -1 ≤ index p.

Lemma priority_bounds seeds p :
  piece_ok p → -1 ≤ priority seeds p < 2 ^ 31.
Proof.
  intros (Hc & Hp & _). unfold priority, priority_levels, prio_factor.
  destruct (_ || _ || _ || _ || _); [lia|].
  destruct (reverse p); [|destruct (negb _)]; split; nia.
Qed.

Lemma priority_index seeds p t :
  (t = index p ∨ (0 ≤ t ∧ index p ≠ -1)) → priority seeds (with_index p t) = priority seeds p.
Proof.
  intros [->|[Ht Hp]]; [by destruct p|].
  unfold priority, filtered, have, we_have_index. cbn.
  replace (t =? -1) with false by (symmetry; apply Z.eqb_neq; lia).
  by replace (index p =? -1) with false by (symmetry; apply Z.eqb_neq; lia).
Qed.

Lemma moved_priority seeds m m' : moved m m' → ∀ i, bucket_of seeds m' i = bucket_of seeds m i.
Proof.
  intros [Hs Hm] i. unfold bucket_of. destruct (m⟦i⟧) as [p|] eqn:Hp.
  - destruct (Hm i p Hp) as (t & -> & Ht). by apply priority_index.
  - rewrite (vget_None m' i); [done|]. rewrite Hs. intros Hr.
    destruct (vget_is_Some m i Hr) as [p ?]. congruence.
Qed.

Lemma moved_ok m m' :
  moved m m' → (∀ i p, m⟦i⟧ = Some p → piece_ok p) → ∀ i p, m'⟦i⟧ = Some p → piece_ok p.
Proof.
  intros [Hs Hm] Hok i p' Hp'. pose proof (vget_Some_range _ _ _ Hp') as Hr. rewrite Hs in Hr.
  destruct (vget_is_Some m i Hr) as [p Hp]. destruct (Hm i p Hp) as (t & Ht & Hc).
  rewrite Hp' in Ht. injection Ht as ->. destruct (Hok i p Hp) as (? & ? & ?).
  split; [done|]. split; [done|]. cbn. lia.
Qed.

Lemma bucket_inv_ext pr pr' l : bucket_inv pr l → (∀ j, pr' j = pr j) → bucket_inv pr' l.
Proof.
  intros [H1 H2 H3 H4] Hpr. split; try done. by eapply partial_ext.
Qed.

Lemma bucket_inv_map pr l m :
  bucket_inv pr l →
  (∀ i p, (m_piece_map l)⟦i⟧ = Some p → 0 ≤ pr i → ∃ p', m⟦i⟧ = Some p' ∧ index p' = index p) →
  vsize m = vsize (m_piece_map l) → bucket_inv pr (set_map l m).
Proof.
  intros [H1 H2 H3 [Hf Hp]] Hm Hs. split; try done. split; cbn [m_pieces m_piece_map set_map].
  - intros t i Ht Hi. destruct (Hf t i Ht Hi) as (p & Hpi & Hidx & Hpos & HV & Hx).
    destruct (Hm i p Hpi Hpos) as (p' & Hp' & Hi'). exists p'. rewrite Hi'. done.
  - intros i p' Hp' Hpos Hx. pose proof (vget_Some_range _ _ _ Hp') as Hr. rewrite Hs in Hr.
    destruct (vget_is_Some _ i Hr) as [p Hpi]. destruct (Hm i p Hpi Hpos) as (q & Hq & Hi').
    rewrite Hp' in Hq. injection Hq as <-. rewrite Hi'. by apply Hp.
Qed.

Section change.
Context (seeds : Z).
Context (l : layout) (m : list piece_pos) (i : Z) (p p' : piece_pos).
Context (Hp : (m_piece_map l)⟦i⟧ = Some p) (Hch : changed (m_piece_map l) m i p').

Lemma bucket_of_changed j :
  set_bucket (bucket_of seeds (m_piece_map l)) i (priority seeds p') j = bucket_of seeds m j.
Proof using Hch.
  unfold set_bucket, bucket_of. destruct Hch as [_ Hm]. rewrite Hm. by destruct (j =? i).
Qed.

(** a change that keeps the priority *)
Lemma change_same :
  bucket_inv (bucket_of seeds (m_piece_map l)) l →
  priority seeds p' = priority seeds p → (0 ≤ priority seeds p → index p' = index p) →
  bucket_inv (bucket_of seeds m) (set_map l m).
Proof using Hp Hch.
  intros Hinv Hprio Hidx.
  apply (bucket_inv_ext (bucket_of seeds (m_piece_map l))).
  - apply bucket_inv_map; [done| |by destruct Hch].
    intros j q Hq Hpos. destruct (decide (j = i)) as [->|Hj].
    + exists p'. rewrite (changed_eq _ _ _ _ Hch). split; [done|].
      unfold bucket_of in Hpos. rewrite Hp in Hq, Hpos. injection Hq as <-. auto.
    + exists q. by rewrite (changed_ne _ _ _ _ _ Hch Hj).
  - intros j. rewrite <-bucket_of_changed. unfold set_bucket.
    destruct (Z.eqb_spec j i) as [->|]; [|done]. unfold bucket_of. by rewrite Hp.
Qed.

Context {R : StdRandom} {Rok : StdRandomOk R}.
Context (Hsize : vsize (m_piece_map l) < 2 ^ 31).

(** a piece that is not listed is added *)
Lemma change_add e :
  bucket_inv (bucket_of seeds (m_piece_map l)) l →
  priority seeds p = -1 → 0 ≤ priority seeds p' →
  ∃ l' e', add seeds (set_map l m) i e = Some (l', e') ∧
    bucket_inv (bucket_of seeds (m_piece_map l')) l' ∧ moved m (m_piece_map l').
Proof using Hp Hch Hsize Rok.
  intros Hinv Hprio Hprio'.
  assert (Hb : bucket_of seeds (m_piece_map l) i = -1) by (unfold bucket_of; by rewrite Hp).
  destruct (add_spec seeds (bucket_of seeds (m_piece_map l)) i p' (set_map l m) e)
    as (l' & e' & Hrun & Hinv' & Hmv).
  - apply bucket_inv_map; [done| |by destruct Hch].
    intros j q Hq Hpos. exists q. rewrite (changed_ne _ _ _ _ _ Hch); [done|]. intros ->. lia.
  - by apply changed_eq with (m := m_piece_map l).
  - lia.
  - done.
  - cbn. destruct Hch as [-> _]. done.
  - exists l', e'. split; [done|]. split; [|done]. eapply bucket_inv_ext; [exact Hinv'|].
    intros j. by rewrite (moved_priority _ _ _ Hmv), bucket_of_changed.
Qed.

Lemma change_detached :
  bucket_inv (bucket_of seeds (m_piece_map l)) l → 0 ≤ priority seeds p →
  detached (bucket_of seeds (m_piece_map l)) (priority seeds p) (index p) i (set_map l m).
Proof using Hp Hch.
  intros Hinv Hprio.
  assert (Hb : bucket_of seeds (m_piece_map l) i = priority seeds p)
    by (unfold bucket_of; by rewrite Hp).
  rewrite <-Hb. apply detach; [done|done|by rewrite Hb|].
  intros j Hj. by rewrite (changed_ne _ _ _ _ _ Hch Hj).
Qed.

(** a listed piece is moved to its new bucket, or leaves the list *)
Lemma change_update e :
  bucket_inv (bucket_of seeds (m_piece_map l)) l →
  0 ≤ priority seeds p → piece_ok p' → index p' = index p →
  ∃ l' e', update seeds (set_map l m) (priority seeds p) (index p) e = Some (l', e') ∧
    bucket_inv (bucket_of seeds (m_piece_map l')) l' ∧ moved m (m_piece_map l').
Proof using Hp Hch Hsize Rok.
  intros Hinv Hprio Hok Hidx.
  destruct (update_spec seeds _ _ _ i (set_map l m) p' e (change_detached Hinv Hprio))
    as (l' & e' & Hrun & Hinv' & Hmv).
  - by apply changed_eq with (m := m_piece_map l).
  - pose proof (priority_bounds seeds p' Hok). destruct (decide (priority seeds p' = -1)); [by left|].
    right. split; [lia|done].
  - cbn. destruct Hch as [-> _]. done.
  - exists l', e'. split; [done|]. split; [|done]. eapply bucket_inv_ext; [exact Hinv'|].
    intros j. by rewrite (moved_priority _ _ _ Hmv), bucket_of_changed.
Qed.

(** a listed piece that can no longer be picked is removed *)
Lemma change_remove :
  bucket_inv (bucket_of seeds (m_piece_map l)) l →
  0 ≤ priority seeds p → priority seeds p' = -1 →
  ∃ l', remove (set_map l m) (priority seeds p) (index p) = Some l' ∧
    bucket_inv (bucket_of seeds (m_piece_map l')) l' ∧ moved m (m_piece_map l').
Proof using Hp Hch.
  intros Hinv Hprio Hprio'.
  destruct (remove_spec _ _ _ i (set_map l m) (change_detached Hinv Hprio))
    as (l' & Hrun & Hinv' & Hmv & _).
  exists l'. split; [done|]. split; [|done]. eapply bucket_inv_ext; [exact Hinv'|].
  intros j. rewrite (moved_priority _ _ _ Hmv), <-bucket_of_changed. by rewrite Hprio'.
Qed.
End change.
