(* ===== verification/PickerAvail.v ===== *)
(** Availability counts: [inc_refcount] and [dec_refcount] of one piece, of a
    bitfield of pieces and of all pieces, and the moves of pieces in the list of
    pieces that they cause. *)

From stdpp Require Import gmap.
From S2P Require Import Prelude.
From S2P Require Import Random.
From S2P Require Import PiecePicker.
From S2P Require Import PickerBuckets.
From S2P Require Import PickerRebuild.
From S2P Require Import PickerState.
From S2P Require Import PickerOps.
From S2P Require Import PickerBlocks.
From S2P Require Import PickerInv.

Open Scope Z_scope.

Section avail.
Context {R : StdRandom} {Rok : StdRandomOk R}.

Definition pieces (s : picker) : list piece_pos := m_piece_map (lay s).

Definition map_ok (m : list piece_pos) : Prop := ∀ i p, m⟦i⟧ = Some p → piece_ok p.

(** the number of seeds stays below this bound, so that the sum of a count of
    26 bits and the seeds is an [int] *)
Definition max_seeds : Z := 2 ^ 31 - 2 ^ 26.

(** the invariant: entries are within their widths, the list names pieces, and
    unless the picker is dirty every piece is in the bucket of its priority *)
Record list_ok (s : picker) : Prop := {
  lo_seeds : 0 ≤ m_seeds s < max_seeds;
  lo_size : num_pieces s < 2 ^ 31;
  lo_map : map_ok (pieces s);
  lo_range : ∀ t i, (m_pieces (lay s))⟦t⟧ = Some i → 0 ≤ i < num_pieces s;
  lo_mono : mono (m_priority_boundaries (lay s));
  lo_listed : m_dirty s = false → bucket_inv (bucket_of (m_seeds s) (pieces s)) (lay s)
}.

(** the members that the list of pieces has nothing to do with *)
Record rest_eq (s s' : picker) : Prop := {
  re_dls : dls s' = dls s;
  re_tal : tal s' = tal s;
  re_cursor : m_cursor s' = m_cursor s;
  re_reverse_cursor : m_reverse_cursor s' = m_reverse_cursor s;
  re_pad_blocks : m_pad_blocks s' = m_pad_blocks s;
  re_pads : m_pads_in_piece s' = m_pads_in_piece s;
  re_extents : m_recent_extents s' = m_recent_extents s;
  re_blocks : m_blocks_per_piece s' = m_blocks_per_piece s;
  re_last : m_blocks_in_last_piece s' = m_blocks_in_last_piece s
}.

#[global] Instance rest_eq_refl : Reflexive rest_eq.
Proof. by split. Qed.

#[global] Instance rest_eq_trans : Transitive rest_eq.
Proof. intros s1 s2 s3 [] []. split; congruence. Qed.

Lemma rest_eq_lay s l : rest_eq s (set_lay l s).
Proof. by split. Qed.

Lemma rest_eq_rng s e : rest_eq s (set_rng e s).
Proof. by split. Qed.

Lemma bucket_inv_range pr l t i :
  bucket_inv pr l → (m_pieces l)⟦t⟧ = Some i → 0 ≤ i < vsize (m_piece_map l).
Proof.
  intros [_ _ _ [Hf _]] Hi.
  destruct (Hf t i) as (p & Hp & _); [apply vget_Some_range in Hi; lia|done|].
  by eapply vget_Some_range.
Qed.

Lemma map_ok_changed m m' i p' : map_ok m → changed m m' i p' → piece_ok p' → map_ok m'.
Proof.
  intros Hm [_ Hch] Hp j q. rewrite Hch. destruct (j =? i); [by intros [= <-]|apply Hm].
Qed.

Lemma map_ok_moved m m' : map_ok m → moved m m' → map_ok m'.
Proof. intros Hm Hmv. exact (moved_ok m m' Hmv Hm). Qed.

(** ** The primitive steps *)

Lemma wp_update_piece_pos i f s p (Q : unit → picker → Prop) :
  piece_map i s = Some p →
  (∀ m, changed (pieces s) m i (f p) → Q tt (set_lay (set_map (lay s) m) s)) →
  wp (update_piece_pos i f) s Q.
Proof.
  intros Hp HQ. unfold wp, update_piece_pos. rewrite Hp. cbn [mbind option_bind].
  destruct (vset_is_Some (m_piece_map (lay s)) i (f p)) as [m Hm];
    [by eapply vget_Some_range|].
  rewrite Hm. cbn [mbind option_bind]. eexists tt, _. split; [done|].
  apply HQ. by apply changed_vset.
Qed.

Section relist.
Context (s : picker) (l : layout) (m : list piece_pos) (i : Z) (p p' : piece_pos).
Context (Hlay : lay s = set_map l m) (Hsize : vsize (m_piece_map l) < 2 ^ 31)
  (Hinv : bucket_inv (bucket_of (m_seeds s) (m_piece_map l)) l)
  (Hp : (m_piece_map l)⟦i⟧ = Some p) (Hch : changed (m_piece_map l) m i p').

(** what holds of a state in which the piece has been put in its place *)
Definition relisted (Q : unit → picker → Prop) : Prop :=
  ∀ l' e', bucket_inv (bucket_of (m_seeds s) (m_piece_map l')) l' →
    moved m (m_piece_map l') → Q tt (set_rng e' (set_lay l' s)).

Lemma wp_picker_add (Q : unit → picker → Prop) :
  priority (m_seeds s) p = -1 → 0 ≤ priority (m_seeds s) p' → relisted Q →
  wp (picker_add i) s Q.
Proof using Hlay Hsize Hinv Hp Hch Rok.
  intros H1 H2 HQ. unfold wp, picker_add. rewrite Hlay.
  destruct (change_add _ l m i p p' Hp Hch Hsize (rng s) Hinv H1 H2)
    as (l' & e' & -> & Hinv' & Hmv).
  cbn [mbind option_bind]. eexists tt, _. split; [done|]. by apply HQ.
Qed.

Lemma wp_picker_update (Q : unit → picker → Prop) :
  0 ≤ priority (m_seeds s) p → piece_ok p' → index p' = index p → relisted Q →
  wp (picker_update (priority (m_seeds s) p) (index p)) s Q.
Proof using Hlay Hsize Hinv Hp Hch Rok.
  intros H1 H2 H3 HQ. unfold wp, picker_update. rewrite Hlay.
  destruct (change_update _ l m i p p' Hp Hch Hsize (rng s) Hinv H1 H2 H3)
    as (l' & e' & -> & Hinv' & Hmv).
  cbn [mbind option_bind]. eexists tt, _. split; [done|]. by apply HQ.
Qed.

Lemma wp_picker_remove (Q : unit → picker → Prop) :
  0 ≤ priority (m_seeds s) p → priority (m_seeds s) p' = -1 →
  (∀ l', bucket_inv (bucket_of (m_seeds s) (m_piece_map l')) l' →
     moved m (m_piece_map l') → Q tt (set_lay l' s)) →
  wp (picker_remove (priority (m_seeds s) p) (index p)) s Q.
Proof using Hlay Hinv Hp Hch.
  intros H1 H2 HQ. unfold wp, picker_remove. rewrite Hlay.
  destruct (change_remove _ l m i p p' Hp Hch Hinv H1 H2) as (l' & -> & Hinv' & Hmv).
  cbn [mbind option_bind]. eexists tt, _. split; [done|]. by apply HQ.
Qed.

Lemma piece_map_changed : piece_map i s = Some p'.
Proof using Hlay Hch. unfold piece_map. rewrite Hlay. by eapply changed_eq. Qed.

Lemma wp_relist (Q : unit → picker → Prop) :
  piece_ok p → piece_ok p' → index p' = index p →
  (priority (m_seeds s) p = -1 → 0 ≤ priority (m_seeds s) p') → relisted Q →
  wp (relist i (priority (m_seeds s) p)) s Q.
Proof using Hlay Hsize Hinv Hp Hch Rok.
  intros H0 H1 H2 H3 HQ. unfold relist. pose proof (priority_bounds (m_seeds s) p H0).
  destruct (Z.eqb_spec (priority (m_seeds s) p) (-1)) as [Heq|Hne].
  - apply wp_picker_add; [done|auto|done].
  - apply wp_bind. eapply wp_reads; [apply piece_map_changed|]. rewrite H2.
    apply wp_picker_update; try done. lia.
Qed.
End relist.

(** ** Establishing the invariant *)

(** after a listed or unlisted piece has been put in its place *)
Lemma list_ok_relisted s l m i p p' l' e' :
  list_ok (set_lay l s) → lay s = set_map l m → (m_piece_map l)⟦i⟧ = Some p →
  changed (m_piece_map l) m i p' → piece_ok p' →
  bucket_inv (bucket_of (m_seeds s) (m_piece_map l')) l' → moved m (m_piece_map l') →
  list_ok (set_rng e' (set_lay l' s)).
Proof.
  intros [H1 H2 H3 H4 Hmono H5] Hlay Hp Hch Hok Hinv [Hs Hmv].
  unfold num_pieces, pieces in *. cbn [lay m_seeds set_rng set_lay m_dirty] in *.
  destruct Hch as [Hms Hch].
  assert (Hsz : vsize (m_piece_map l') = vsize (m_piece_map l)) by congruence.
  split; unfold num_pieces, pieces; cbn [lay m_seeds set_rng set_lay m_dirty].
  - done.
  - by rewrite Hsz.
  - apply (map_ok_moved m); [|by split]. by apply (map_ok_changed (m_piece_map l) m i p').
  - intros t j Hj. by eapply bucket_inv_range.
  - apply Hinv.
  - done.
Qed.

(** a change of one entry that leaves its bucket and slot as they are *)
Lemma list_ok_same s m i p p' :
  list_ok s → piece_map i s = Some p → changed (pieces s) m i p' → piece_ok p' →
  (m_dirty s = false → priority (m_seeds s) p' = priority (m_seeds s) p ∧
     (0 ≤ priority (m_seeds s) p → index p' = index p)) →
  list_ok (set_lay (set_map (lay s) m) s).
Proof.
  intros [H1 H2 H3 H4 Hmono H5] Hp Hch Hok Hsame. pose proof Hch as [Hms _].
  unfold num_pieces, pieces in *.
  split; unfold num_pieces, pieces; cbn [lay m_seeds set_lay m_dirty m_piece_map m_pieces set_map].
  - done.
  - by rewrite Hms.
  - by eapply map_ok_changed.
  - by rewrite Hms.
  - done.
  - intros Hd. destruct (Hsame Hd). eapply change_same; eauto.
Qed.

(** ** The list after a priority has changed *)

(** [if (m_dirty) return; ... relist] after the entry of piece [i] has been
    replaced *)
Definition settle (i prev : Z) : M unit :=
  dirty ← gets m_dirty;
  if (dirty : bool) then mret tt
  else
    now ← reads (priority_of i);
    if prev =? now then mret tt else relist i prev.

Definition after_change (s : picker) (m : list piece_pos) (s' : picker) : Prop :=
  list_ok s' ∧ moved m (pieces s') ∧ rest_eq s s' ∧ m_seeds s' = m_seeds s ∧
  m_dirty s' = m_dirty s.

Lemma wp_settle s i p p' m (Q : unit → picker → Prop) :
  list_ok s → piece_map i s = Some p → changed (pieces s) m i p' →
  piece_ok p' → index p' = index p →
  (∀ s', after_change s m s' → Q tt s') →
  wp (settle i (priority (m_seeds s) p)) (set_lay (set_map (lay s) m) s) Q.
Proof.
  intros Hs Hp Hch Hok Hidx HQ. unfold settle. wstep.
  cbn [m_dirty set_lay]. destruct (m_dirty s) eqn:Hd.
  { wstep. apply HQ. split; [|split; [done|by split]].
    eapply list_ok_same; try done. by rewrite Hd. }
  wstep. { unfold priority_of, piece_map. cbn. rewrite (changed_eq _ _ _ _ Hch). reflexivity. }
  cbn [m_seeds set_lay].
  destruct (Z.eqb_spec (priority (m_seeds s) p) (priority (m_seeds s) p')) as [Heq|Hne].
  { wstep. apply HQ. split; [|split; [done|by split]].
    eapply list_ok_same; try done. }
  pose proof (lo_map s Hs i p Hp) as Hokp. pose proof (priority_bounds (m_seeds s) p' Hok).
  apply (wp_relist (set_lay (set_map (lay s) m) s) (lay s) m i p p'); try done.
  - apply (lo_size s Hs).
  - by apply (lo_listed s Hs).
  - cbn. lia.
  - intros l' e' Hinv Hmv. apply HQ. split; [|by split].
    apply (list_ok_relisted _ (lay s) m i p p'); try done. by destruct s.
Qed.

(** [update] after the entry of piece [i] has been replaced, when an unlisted
    piece stays out of the list *)
Lemma wp_update_if_listed s i p p' m (Q : unit → picker → Prop) :
  list_ok s → piece_map i s = Some p → changed (pieces s) m i p' →
  piece_ok p' → index p' = index p →
  (priority (m_seeds s) p = -1 → priority (m_seeds s) p' = -1) →
  (∀ s', after_change s m s' → Q tt s') →
  wp (update_if_listed i (priority (m_seeds s) p)) (set_lay (set_map (lay s) m) s) Q.
Proof.
  intros Hs Hp Hch Hok Hidx Hlow HQ. unfold update_if_listed. wstep.
  cbn [m_dirty set_lay]. pose proof (lo_map s Hs i p Hp) as Hokp.
  pose proof (priority_bounds (m_seeds s) p Hokp) as Hb.
  assert (Hsame : m_dirty s = true ∨ priority (m_seeds s) p = -1 →
    Q tt (set_lay (set_map (lay s) m) s)).
  { intros H. apply HQ. split; [|split; [done|by split]].
    eapply list_ok_same; try done. destruct H as [H|H]; [by rewrite H|].
    intros _. split; [rewrite H; auto|done]. }
  destruct (Z.leb_spec 0 (priority (m_seeds s) p)); cbn [andb].
  2: { wstep. apply Hsame. right. lia. }
  destruct (m_dirty s) eqn:Hd; cbn [negb].
  { wstep. apply Hsame. by left. }
  wstep. { unfold piece_map. cbn. by rewrite (changed_eq _ _ _ _ Hch). }
  rewrite Hidx. apply (wp_picker_update (set_lay (set_map (lay s) m) s) (lay s) m i p p');
    try done.
  - apply (lo_size s Hs).
  - by apply (lo_listed s Hs).
  - intros l' e' Hinv Hmv. apply HQ. split; [|by split].
    apply (list_ok_relisted _ (lay s) m i p p'); try done. by destruct s.
Qed.

(** ** Availability *)

(** what an operation on the counts leaves alone *)
Definition same_piece (p p' : piece_pos) : Prop :=
  download_state p' = download_state p ∧ piece_priority p' = piece_priority p ∧
  have p' = have p.

#[global] Instance same_piece_refl : Reflexive same_piece.
Proof. done. Qed.

#[global] Instance same_piece_trans : Transitive same_piece.
Proof. intros p1 p2 p3 (? & ? & ?) (? & ? & ?). split; [congruence|split; congruence]. Qed.

(** the invariant holds in [s'], and the availability of every piece [j] has
    changed by [d j] since [s] *)
Record counted (s s' : picker) (d : Z → Z) : Prop := {
  ct_ok : list_ok s';
  ct_rest : rest_eq s s';
  ct_size : num_pieces s' = num_pieces s;
  ct_piece : ∀ j p, piece_map j s = Some p → ∃ p', piece_map j s' = Some p' ∧
    same_piece p p' ∧ peer_count p' + m_seeds s' = peer_count p + m_seeds s + d j
}.

Lemma counted_trans s1 s2 s3 d1 d2 :
  counted s1 s2 d1 → counted s2 s3 d2 → counted s1 s3 (λ j, d1 j + d2 j).
Proof.
  intros [_ R1 Z1 P1] [O2 R2 Z2 P2]. split; [done|by etransitivity|congruence|].
  intros j p Hp. destruct (P1 j p Hp) as (p' & Hp' & S1 & C1).
  destruct (P2 j p' Hp') as (p'' & Hp'' & S2 & C2).
  exists p''. split; [done|]. split; [by etransitivity|]. lia.
Qed.

Lemma counted_ext s s' d d' :
  counted s s' d → (∀ j, 0 ≤ j < num_pieces s → d' j = d j) → counted s s' d'.
Proof.
  intros [O Rr Z' P] Hd. split; try done. intros j p Hp. rewrite Hd by by eapply vget_Some_range.
  auto.
Qed.

Lemma counted_refl s : list_ok s → counted s s (λ _, 0).
Proof. intros Hs. split; try done. intros j p Hp. exists p. split; [done|]. split; [done|lia]. Qed.

Lemma same_piece_moved p t : t = index p ∨ (0 ≤ t ∧ index p ≠ -1) → same_piece p (with_index p t).
Proof.
  intros Ht. split; [done|]. split; [done|]. unfold have, we_have_index. cbn.
  destruct (Z.eqb_spec t (-1)), (Z.eqb_spec (index p) (-1)); try done; lia.
Qed.

(** the counts of a state whose piece map has moved *)
Lemma counted_moved s s' m d :
  list_ok s' → rest_eq s s' → vsize m = num_pieces s → moved m (pieces s') →
  (∀ j p, piece_map j s = Some p → ∃ p', m⟦j⟧ = Some p' ∧ same_piece p p' ∧
     peer_count p' + m_seeds s' = peer_count p + m_seeds s + d j) →
  counted s s' d.
Proof.
  intros Ho Hr Hs [Hms Hmv] Hp. split; [done|done|unfold num_pieces, pieces in *; congruence|].
  intros j p Hj. destruct (Hp j p Hj) as (p' & Hp' & Hsame & Hc).
  destruct (Hmv j p' Hp') as (t & Ht & Hcase). exists (with_index p' t).
  split; [exact Ht|]. split; [|exact Hc]. etransitivity; [done|]. by apply same_piece_moved.
Qed.

Lemma with_peer_count_ok p n : piece_ok p → piece_ok (with_peer_count p n).
Proof. intros (_ & Hp & Hi). split; [by apply uint_range|done]. Qed.

Definition at_piece (i d j : Z) : Z := if j =? i then d else 0.

Lemma counted_after_change s s' m i p d :
  after_change s m s' → piece_map i s = Some p →
  changed (pieces s) m i (with_peer_count p (peer_count p + d)) →
  0 ≤ peer_count p + d < 2 ^ 26 → counted s s' (at_piece i d).
Proof.
  intros (Ho & Hmv & Hr & Hseeds & _) Hp Hch Hd.
  apply (counted_moved _ _ m); try done; [by destruct Hch|].
  intros j q Hq. unfold at_piece. destruct (Z.eqb_spec j i) as [->|Hj].
  - eexists. split; [by eapply changed_eq|]. rewrite Hp in Hq. injection Hq as <-.
    split; [done|]. cbn. rewrite uint_small by done. lia.
  - exists q. rewrite (changed_ne _ _ _ _ _ Hch Hj). split; [done|]. split; [done|]. lia.
Qed.

(** no peer count overflows its 26 bits when seeds are broken up *)
Definition counts_fit (s : picker) (d : Z → Z) : Prop :=
  ∀ j p, piece_map j s = Some p → 0 ≤ peer_count p + m_seeds s + d j < 2 ^ 26.

Lemma counts_fit_counted s s' d d' :
  counted s s' d → counts_fit s (λ j, d j + d' j) → counts_fit s' d'.
Proof.
  intros Hc Hf j p' Hp'. pose proof (vget_Some_range _ _ _ Hp') as Hr.
  change (0 ≤ j < num_pieces s') in Hr. rewrite (ct_size _ _ _ Hc) in Hr.
  destruct (vget_is_Some (m_piece_map (lay s)) j Hr) as [p Hp].
  destruct (ct_piece _ _ _ Hc j p Hp) as (q & Hq & _ & Hq').
  rewrite Hq in Hp'. injection Hp' as ->. specialize (Hf j p Hp). lia.
Qed.

(** [settle] after a count has changed *)
Lemma wp_settle_count s i p d (Q : unit → picker → Prop) :
  list_ok s → piece_map i s = Some p → 0 ≤ peer_count p + d < 2 ^ 26 →
  (∀ s', counted s s' (at_piece i d) → m_seeds s' = m_seeds s → m_dirty s' = m_dirty s → Q tt s') →
  wp (update_piece_pos i (λ p, with_peer_count p (peer_count p + d)) ;;
      settle i (priority (m_seeds s) p)) s Q.
Proof.
  intros Hs Hp Hd HQ. apply wp_bind. eapply wp_update_piece_pos; [done|]. intros m Hch.
  eapply wp_settle; try done; [by apply with_peer_count_ok, (lo_map s Hs i)|].
  intros s' Hs'. apply HQ; [by eapply counted_after_change|by destruct Hs' as (_ & _ & _ & ? & _)|].
  by destruct Hs' as (_ & _ & _ & _ & ?).
Qed.

Lemma inc_refcount_spec s i p :
  list_ok s → piece_map i s = Some p → peer_count p + 1 < 2 ^ 26 →
  wp (inc_refcount i) s (λ _ s', counted s s' (at_piece i 1)).
Proof.
  intros Hs Hp Hfit. destruct (lo_map s Hs i p Hp) as [Hc _].
  unfold inc_refcount. apply wp_bind. eapply wp_reads.
  { unfold priority_of. by rewrite Hp. }
  apply (wp_settle_count s i p 1); [done|done|lia|done].
Qed.

Lemma list_ok_dirty s :
  0 ≤ m_seeds s < max_seeds → num_pieces s < 2 ^ 31 → map_ok (pieces s) → m_dirty s = true →
  (∀ t i, (m_pieces (lay s))⟦t⟧ = Some i → 0 ≤ i < num_pieces s) →
  mono (m_priority_boundaries (lay s)) → list_ok s.
Proof. intros. split; try done. congruence. Qed.

Lemma map_ok_map f m : map_ok m → (∀ p, piece_ok p → piece_ok (f p)) → map_ok (map f m).
Proof.
  intros Hm Hf i q Hq. pose proof (vget_Some_range _ _ _ Hq).
  unfold vget in Hq. destruct (Z.ltb_spec i 0); [done|].
  rewrite list_lookup_fmap in Hq. destruct (m !! Z.to_nat i) as [p|] eqn:Hp; [|done].
  injection Hq as <-. apply Hf, (Hm i). unfold vget. by destruct (Z.ltb_spec i 0); [lia|].
Qed.

Lemma vget_map {A B} (f : A → B) l i x : l⟦i⟧ = Some x → (map f l)⟦i⟧ = Some (f x).
Proof.
  unfold vget. destruct (i <? 0); [done|]. intros Hx. by rewrite list_lookup_fmap, Hx.
Qed.

(** all counts change by [d], the seeds by [e] *)
Lemma counted_all s d e :
  list_ok s → 0 ≤ m_seeds s + e < max_seeds →
  let f p := with_peer_count p (peer_count p + d) in
  (∀ j p, piece_map j s = Some p → 0 ≤ peer_count p + d < 2 ^ 26) →
  counted s (set_dirty true (set_lay (set_map (lay s) (map f (pieces s)))
               (set_seeds (m_seeds s + e) s))) (λ _, d + e).
Proof.
  intros Hs He f Hd. pose proof (lo_map s Hs) as Hok.
  assert (Hsz : vsize (map f (m_piece_map (lay s))) = num_pieces s)
    by (unfold vsize; by rewrite length_map).
  split.
  - apply list_ok_dirty; unfold num_pieces, pieces; cbn; try done; rewrite ?Hsz.
    + apply (lo_size s Hs).
    + apply map_ok_map; [done|]. intros p. apply with_peer_count_ok.
    + apply (lo_range s Hs).
    + apply (lo_mono s Hs).
  - by split.
  - exact Hsz.
  - intros j p Hp. exists (f p). split; [by apply vget_map|]. split; [done|].
    cbn. rewrite uint_small by by eapply Hd. lia.
Qed.

(** the new number of seeds is an [int] *)
Lemma wp_add_seeds d s (Q : unit → picker → Prop) :
  0 ≤ m_seeds s + d < max_seeds → Q tt (set_seeds (m_seeds s + d) s) → wp (add_seeds d) s Q.
Proof.
  intros Hd HQ. unfold add_seeds. apply wp_bind. eapply wp_reads.
  { apply signed_small. unfold max_seeds in Hd. lia. }
  by wstep.
Qed.

Lemma break_one_seed_spec s :
  list_ok s → counts_fit s (λ _, 0) → 0 < m_seeds s →
  wp break_one_seed s (λ _ s', counted s s' (λ _, 0) ∧ m_dirty s' = true ∧
    ∀ j p, piece_map j s' = Some p → 0 < peer_count p).
Proof.
  intros Hs Hfit Hseeds. pose proof (lo_seeds s Hs).
  unfold break_one_seed, update_all. apply wp_bind, wp_add_seeds; [lia|]. do 2 wstep.
  pose proof (counted_all s 1 (-1) Hs ltac:(lia)) as Hc. cbn zeta in Hc.
  assert (Hd : ∀ j p, piece_map j s = Some p → 0 ≤ peer_count p + 1 < 2 ^ 26).
  { intros j p Hp. specialize (Hfit j p Hp). destruct (lo_map s Hs j p Hp). lia. }
  specialize (Hc Hd). split; [exact Hc|]. split; [done|].
  intros j q Hq. pose proof (vget_Some_range _ _ _ Hq) as Hr.
  change (0 ≤ j < vsize (map (λ p, with_peer_count p (peer_count p + 1)) (m_piece_map (lay s)))) in Hr.
  unfold vsize in Hr. rewrite length_map in Hr. fold (vsize (m_piece_map (lay s))) in Hr.
  destruct (vget_is_Some _ j Hr) as [p Hp].
  pose proof (vget_map (λ p, with_peer_count p (peer_count p + 1)) _ _ _ Hp) as Hq'.
  unfold piece_map in Hq. cbn in Hq. rewrite Hq' in Hq. injection Hq as <-. cbn.
  specialize (Hd j p Hp). rewrite uint_small by lia. destruct (lo_map s Hs j p Hp). lia.
Qed.

(** one fewer: an unlisted piece stays out of the list *)
Lemma priority_fewer seeds p :
  piece_ok p → 0 < peer_count p → 0 ≤ seeds → priority seeds p = -1 →
  priority seeds (with_peer_count p (peer_count p - 1)) = -1.
Proof.
  intros (Hc & Hp & _) Hpos Hs. unfold priority.
  change (filtered (with_peer_count p (peer_count p - 1))) with (filtered p).
  change (have (with_peer_count p (peer_count p - 1))) with (have p).
  change (download_state (with_peer_count p (peer_count p - 1))) with (download_state p).
  destruct (Z.eqb_spec (peer_count p + seeds) 0); [lia|].
  destruct (filtered p); [done|]. destruct (have p); [done|]. cbn [orb].
  destruct (bool_decide (download_state p = piece_full)); [by rewrite !orb_true_r|].
  destruct (bool_decide (download_state p = piece_finished)); [by rewrite !orb_true_r|].
  cbn [orb]. unfold priority_levels, prio_factor.
  destruct (reverse p), (negb _); intros H; nia.
Qed.

(** the count of piece [i] goes down, and the piece moves in the list *)
Lemma wp_fewer s i p (k : M unit) (Q : unit → picker → Prop) :
  list_ok s → piece_map i s = Some p → 0 < peer_count p →
  (∀ s', m_dirty s' = m_dirty s → k s' = update_if_listed i (priority (m_seeds s) p) s') →
  (∀ s', counted s s' (at_piece i (-1)) → m_seeds s' = m_seeds s → m_dirty s' = m_dirty s →
     Q tt s') →
  wp (update_piece_pos i (λ p, with_peer_count p (peer_count p - 1)) ;; k) s Q.
Proof.
  intros Hs Hp Hc Hk HQ. pose proof (lo_map s Hs i p Hp) as Hok.
  apply wp_bind. eapply wp_update_piece_pos; [done|]. intros m Hch. unfold wp. rewrite Hk by done.
  eapply wp_update_if_listed; try done; [by apply with_peer_count_ok| |].
  - apply priority_fewer; [done|done|apply (lo_seeds s Hs)].
  - intros s' Hs'. apply HQ.
    + eapply counted_after_change; try done. destruct Hok. lia.
    + by destruct Hs' as (_ & _ & _ & ? & _).
    + by destruct Hs' as (_ & _ & _ & _ & ?).
Qed.

(** [if (p.peer_count == 0) break_one_seed();] *)
Definition ensure_count (p : piece_pos) : M unit :=
  if peer_count p =? 0 then break_one_seed else mret tt.

Lemma wp_ensure_count s i p (Q : unit → picker → Prop) :
  list_ok s → counts_fit s (λ _, 0) → piece_map i s = Some p → 0 < peer_count p + m_seeds s →
  (∀ s' p', counted s s' (λ _, 0) → piece_map i s' = Some p' → 0 < peer_count p' →
     (m_dirty s' = false → s' = s) → Q tt s') →
  wp (ensure_count p) s Q.
Proof.
  intros Hs Hfit Hp Hav HQ. destruct (lo_map s Hs i p Hp) as [Hc _]. unfold ensure_count.
  destruct (Z.eqb_spec (peer_count p) 0) as [Hz|Hnz].
  - eapply wp_mono; [apply break_one_seed_spec; [done|done|lia]|].
    intros [] s' (Hct & Hd & Hpos). destruct (ct_piece _ _ _ Hct i p Hp) as (p' & Hp' & _).
    eapply HQ; eauto. congruence.
  - wstep. eapply HQ; [by apply counted_refl|done|lia|done].
Qed.

Lemma dec_refcount_spec s i p :
  list_ok s → counts_fit s (λ _, 0) → piece_map i s = Some p → 0 < peer_count p + m_seeds s →
  wp (dec_refcount i) s (λ _ s', counted s s' (at_piece i (-1))).
Proof.
  intros Hs Hfit Hp Hav. unfold dec_refcount. wstep. fold (ensure_count p). apply wp_bind.
  eapply wp_ensure_count; try done. intros s1 p1 Hc1 Hp1 Hpos Hsame. apply wp_bind.
  eapply wp_reads. { unfold priority_of. by rewrite Hp1. }
  eapply wp_fewer; try done; [apply (ct_ok _ _ _ Hc1)| |].
  - intros s' _. unfold update_if_listed, mbind, M_bind, gets.
    by destruct (m_dirty s'); destruct (0 <=? priority (m_seeds s1) p1).
  - intros s2 Hc2 _ _. eapply counted_ext; [by eapply counted_trans|]. done.
Qed.

(** ** All pieces at once *)

(** the number of seeds changes by [e] *)
Lemma counted_seeds s s' e :
  list_ok s → 0 ≤ m_seeds s + e < max_seeds → lay s' = lay s → m_seeds s' = m_seeds s + e → rest_eq s s' →
  (m_dirty s' = false → m_dirty s = false ∧ 0 < m_seeds s ∧ 0 < m_seeds s + e) →
  counted s s' (λ _, e).
Proof.
  intros [H1 H2 H3 H4 Hmono H5] He Hlay Hseeds Hr Hd. unfold num_pieces, pieces in *.
  split; [split|done| |]; unfold num_pieces, pieces; rewrite ?Hlay; try done; [by rewrite Hseeds| |].
  - intros Hd'. destruct (Hd Hd') as (Hd0 & Hs0 & Hs1).
    eapply bucket_inv_ext; [by apply H5|]. intros j. unfold bucket_of.
    destruct ((m_piece_map (lay s))⟦j⟧) as [p|] eqn:Hp; [|done].
    destruct (H3 j p Hp) as [Hc _]. unfold priority. rewrite Hseeds.
    by rewrite !(proj2 (Z.eqb_neq (peer_count p + _) 0)) by lia.
  - intros j p Hp. exists p. unfold piece_map in *. rewrite Hlay. split; [done|]. split; [done|lia].
Qed.

Lemma inc_refcount_all_spec s :
  list_ok s → m_seeds s + 1 < max_seeds → wp inc_refcount_all s (λ _ s', counted s s' (λ _, 1)).
Proof.
  intros Hs Hmax. pose proof (lo_seeds s Hs). unfold inc_refcount_all.
  apply wp_bind, wp_add_seeds; [lia|]. wstep.
  cbn [m_seeds set_seeds]. destruct (Z.eqb_spec (m_seeds s + 1) 1);
    apply counted_seeds; try done; try lia. intros Hd. split; [exact Hd|lia].
Qed.

Lemma dec_refcount_all_spec s :
  list_ok s → counts_fit s (λ _, -1) → wp dec_refcount_all s (λ _ s', counted s s' (λ _, -1)).
Proof.
  intros Hs Hfit. unfold dec_refcount_all. wstep.
  destruct (Z.ltb_spec 0 (m_seeds s)) as [Hpos|Hz].
  - pose proof (lo_seeds s Hs). apply wp_bind, wp_add_seeds; [lia|]. wstep.
    cbn [m_seeds set_seeds]. destruct (Z.eqb_spec (m_seeds s + -1) 0);
      apply counted_seeds; try done; try lia. intros Hd. split; [exact Hd|lia].
  - unfold update_all. do 2 wstep. pose proof (lo_seeds s Hs).
    pose proof (counted_all s (-1) 0 Hs ltac:(lia)) as Hc. cbn zeta in Hc.
    rewrite Z.add_0_r in Hc.
    replace (set_seeds (m_seeds s) s) with s in Hc by by destruct s.
    apply Hc. intros j p Hp. specialize (Hfit j p Hp). cbn in Hfit.
    destruct (lo_map s Hs j p Hp). lia.
Qed.
End avail.

(** ** Bitfields and lists of pieces *)

(** bit [j] as a number *)
Definition bit (bits : bitfield) (j : Z) : Z :=
  match bits⟦j⟧ with Some true => 1 | _ => 0 end.

(** how often [j] is in the list *)
Fixpoint occ (l : list Z) (j : Z) : Z :=
  match l with
  | [] => 0
  | i :: l => at_piece i 1 j + occ l j
  end.

Lemma occ_nonneg l j : 0 ≤ occ l j.
Proof. induction l as [|i l IH]; cbn; [lia|]. unfold at_piece. destruct (j =? i); lia. Qed.

Lemma bit_range bits j : 0 ≤ bit bits j ≤ 1.
Proof. unfold bit. destruct (bits⟦j⟧) as [[]|]; lia. Qed.

Lemma bit_nil j : bit [] j = 0.
Proof. unfold bit. by rewrite vget_nil. Qed.

Lemma bit_cons b bits j : bit (b :: bits) j = (if j =? 0 then Z.b2z b else bit bits (j - 1)).
Proof.
  unfold bit. rewrite vget_cons. destruct (Z.eqb_spec j 0); [by destruct b|done].
Qed.

Lemma bit_neg bits j : j < 0 → bit bits j = 0.
Proof. intros Hj. unfold bit. by rewrite vget_None by lia. Qed.

Lemma bit_shift b bits i j :
  bit (b :: bits) (j - i) = at_piece i (Z.b2z b) j + bit bits (j - (i + 1)).
Proof.
  rewrite bit_cons. unfold at_piece. replace (j - i - 1) with (j - (i + 1)) by lia.
  destruct (Z.eqb_spec (j - i) 0), (Z.eqb_spec j i); try lia.
  rewrite bit_neg by lia. lia.
Qed.

(** the loop that collects the set bits either has them all, or has counted
    [size] of them *)
Lemma collect_spec bits i num size l n :
  collect bits i num size = (l, n) → n < size →
  (∀ j, occ l j = bit bits (j - i)) ∧ ∀ j, j ∈ l → i ≤ j < i + vsize bits.
Proof.
  revert i num l n. induction bits as [|b bits IH]; intros i num l n Hc Hn; cbn [collect] in Hc.
  { injection Hc as <- <-. split; [intros j; by rewrite bit_nil|].
    intros j Hj. by apply elem_of_nil in Hj. }
  rewrite vsize_cons. destruct b.
  - destruct (Z.leb_spec size (num + 1)); [injection Hc as _ <-; lia|].
    destruct (Z.ltb_spec num size); [|lia].
    destruct (collect bits (i + 1) (num + 1) size) as [l' n'] eqn:Hc'.
    injection Hc as <- <-. destruct (IH _ _ _ _ Hc' Hn) as [Hocc Hin]. split.
    + intros j. rewrite bit_shift. cbn. by rewrite Hocc.
    + intros j. cbn. rewrite elem_of_cons. intros [->|Hj].
      * pose proof (vsize_nonneg bits). lia.
      * specialize (Hin j Hj). lia.
  - destruct (IH _ _ _ _ Hc Hn) as [Hocc Hin]. split.
    + intros j. rewrite bit_shift, Hocc. unfold at_piece. cbn. destruct (j =? i); lia.
    + intros j Hj. specialize (Hin j Hj). lia.
Qed.

Lemma none_set_bits bits : none_set bits = true → ∀ j, bit bits j = 0.
Proof.
  unfold none_set. induction bits as [|b bits IH]; intros H j; [apply bit_nil|].
  cbn in H. apply andb_prop in H as [Hb H]. rewrite bit_cons, IH by done.
  destruct b; [done|]. by destruct (j =? 0).
Qed.

Lemma all_set_bits bits : all_set bits = true → ∀ j, 0 ≤ j < vsize bits → bit bits j = 1.
Proof.
  unfold all_set. intros [_ H]%andb_prop. revert H.
  induction bits as [|b bits IH]; intros H j Hj; [change (vsize []) with 0 in Hj; lia|].
  cbn in H. apply andb_prop in H as [Hb H]. rewrite vsize_cons in Hj. rewrite bit_cons.
  destruct (Z.eqb_spec j 0); [by destruct b|]. apply IH; [done|lia].
Qed.

(** ** The loops *)

Section bits.
Context {R : StdRandom} {Rok : StdRandomOk R}.

Lemma piece_in_range s i : 0 ≤ i < num_pieces s → ∃ p, piece_map i s = Some p.
Proof. apply vget_is_Some. Qed.

(** after the first piece of the list has been counted, the others still fit *)
Lemma counts_fit_step s s' d0 d f :
  counted s s' d0 → counts_fit s f → (∀ j, f j = d0 j + d j) → counts_fit s' d.
Proof.
  intros Hc Hf Hd. eapply counts_fit_counted; [done|]. intros j p Hp. rewrite <-Hd. by apply Hf.
Qed.

Lemma counted_step s s1 s2 d0 d f :
  counted s s1 d0 → counted s1 s2 d → (∀ j, f j = d0 j + d j) → counted s s2 f.
Proof. intros H1 H2 Hf. eapply counted_ext; [by eapply counted_trans|]. intros. apply Hf. Qed.

Lemma inc_listed_spec l s :
  list_ok s → m_dirty s = false → (∀ i, i ∈ l → 0 ≤ i < num_pieces s) →
  counts_fit s (occ l) → wp (inc_listed l) s (λ _ s', counted s s' (occ l)).
Proof.
  revert s. induction l as [|i l IH]; intros s Hs Hd Hr Hfit.
  { apply wp_ret. by apply counted_refl. }
  cbn [inc_listed]. destruct (piece_in_range s i) as [p Hp]; [apply Hr; left|].
  pose proof (lo_map s Hs i p Hp) as Hok. pose proof (Hfit i p Hp) as Hi.
  cbn [occ] in Hi. unfold at_piece in Hi. rewrite Z.eqb_refl in Hi.
  pose proof (occ_nonneg l i). pose proof (lo_seeds s Hs).
  assert (Hc : 0 ≤ peer_count p + 1 < 2 ^ 26) by (destruct Hok; lia).
  apply wp_bind. eapply wp_reads. { unfold priority_of. by rewrite Hp. }
  apply wp_bind. eapply wp_update_piece_pos; [done|]. intros m Hch.
  assert (Hset : wp (settle i (priority (m_seeds s) p)) (set_lay (set_map (lay s) m) s)
    (λ _ s', wp (inc_listed l) s' (λ _ s'', counted s s'' (occ (i :: l))))).
  { eapply wp_settle; try done; [by apply with_peer_count_ok|]. intros s1 Hs1.
    pose proof (counted_after_change _ _ _ _ _ _ Hs1 Hp Hch Hc) as Hc1.
    destruct Hs1 as (_ & _ & _ & _ & Hd1).
    eapply wp_mono; [apply IH; [apply (ct_ok _ _ _ Hc1)|congruence| |]|].
    - intros j Hj. rewrite (ct_size _ _ _ Hc1). apply Hr. by right.
    - by eapply counts_fit_step.
    - intros [] s2 Hc2. by eapply counted_step. }
  unfold settle in Hset. apply wp_bind_inv in Hset as (x & s' & [= <- <-] & Hset).
  cbn [m_dirty set_lay] in Hset. rewrite Hd in Hset.
  apply wp_bind_inv, wp_reads_inv in Hset as (now & Hnow & Hset).
  apply wp_bind. eapply wp_reads; [exact Hnow|]. apply wp_bind.
  destruct (priority (m_seeds s) p =? now); [exact Hset|]. unfold relist in Hset.
  pose proof (priority_bounds (m_seeds s) p Hok).
  destruct (Z.eqb_spec (priority (m_seeds s) p) (-1)), (Z.leb_spec 0 (priority (m_seeds s) p));
    try exact Hset; lia.
Qed.

(** while the counts change without the list, the picker is as good as dirty *)
Definition bits_counted (s s' : picker) (d : Z → Z) : Prop :=
  counted (set_dirty true s) (set_dirty true s') d ∧ (m_dirty s = true → m_dirty s' = true).

Lemma list_ok_as_dirty s : list_ok s → list_ok (set_dirty true s).
Proof. intros [H1 H2 H3 H4 H5 H6]. by split. Qed.

Lemma wp_count_only s i p d (Q : unit → picker → Prop) :
  list_ok (set_dirty true s) → piece_map i s = Some p → 0 ≤ peer_count p + d < 2 ^ 26 →
  (∀ s', bits_counted s s' (at_piece i d) → Q tt s') →
  wp (update_piece_pos i (λ p, with_peer_count p (peer_count p + d))) s Q.
Proof.
  intros Hs Hp Hd HQ. eapply wp_update_piece_pos; [done|]. intros m Hch. apply HQ.
  split; [|done]. change (set_dirty true (set_lay (set_map (lay s) m) s))
    with (set_lay (set_map (lay s) m) (set_dirty true s)).
  assert (Hok : piece_ok (with_peer_count p (peer_count p + d)))
    by by apply with_peer_count_ok, (lo_map _ Hs i).
  apply (counted_after_change _ _ m i p d); try done.
  split; [|split; [done|by split]].
  by apply (list_ok_same _ m i p _ Hs Hp Hch Hok).
Qed.

Lemma bits_counted_step s s1 s2 d0 d f :
  bits_counted s s1 d0 → bits_counted s1 s2 d → (∀ j, f j = d0 j + d j) → bits_counted s s2 f.
Proof.
  intros [H1 D1] [H2 D2] Hf. split; [by eapply counted_step|auto].
Qed.

Lemma inc_bits_spec bits i updated s :
  list_ok (set_dirty true s) → 0 ≤ i → i + vsize bits ≤ num_pieces s →
  counts_fit s (λ j, bit bits (j - i)) →
  wp (inc_bits bits i updated) s (λ x s',
    bits_counted s s' (λ j, bit bits (j - i)) ∧ x = updated || negb (none_set bits)).
Proof.
  revert i updated s. induction bits as [|b bits IH]; intros i updated s Hs Hi Hsz Hfit.
  { apply wp_ret. rewrite orb_false_r. split; [|done]. split; [|done].
    eapply counted_ext; [by apply counted_refl|]. intros. by rewrite bit_nil. }
  rewrite vsize_cons in Hsz. pose proof (vsize_nonneg bits).
  assert (Hrest : ∀ s1 u, bits_counted s s1 (at_piece i (Z.b2z b)) →
    wp (inc_bits bits (i + 1) u) s1 (λ x s',
      bits_counted s s' (λ j, bit (b :: bits) (j - i)) ∧ x = u || negb (none_set bits))).
  { intros s1 u H1. eapply wp_mono.
    - apply IH; [apply (ct_ok _ _ _ (proj1 H1))|lia| |].
      + pose proof (ct_size _ _ _ (proj1 H1)) as E. unfold num_pieces in *. cbn in E. lia.
      + eapply (counts_fit_step (set_dirty true s) (set_dirty true s1)); [apply H1|exact Hfit|].
        intros j. cbn beta. by rewrite bit_shift.
    - intros x s2 [H2 ->]. split; [|done]. eapply bits_counted_step; [done..|].
      intros j. cbn beta. by rewrite bit_shift. }
  destruct b; cbn [inc_bits].
  - destruct (piece_in_range s i) as [p Hp]; [lia|]. pose proof (Hfit i p Hp) as Hc.
    cbn in Hc. rewrite Z.sub_diag in Hc. change (bit (true :: bits) 0) with 1 in Hc.
    pose proof (lo_seeds _ Hs). pose proof (lo_map _ Hs i p Hp) as [Hpc _]. cbn [m_seeds set_dirty] in *.
    apply wp_bind. eapply wp_count_only; [done|done|lia|]. intros s1 Hs1.
    eapply wp_mono; [by apply Hrest|]. intros x s2 [H2 ->]. split; [done|].
    cbn. by rewrite orb_true_r.
  - eapply Hrest. split; [|done]. eapply counted_ext; [by apply counted_refl|].
    intros j _. unfold at_piece. by destruct (j =? i).
Qed.

(** the end of the slow path *)
Lemma wp_set_dirty_if s s1 d (updated : bool) :
  bits_counted s s1 d → list_ok s → updated = true →
  wp (dirty ← gets m_dirty;
      if (dirty : bool) then mret tt
      else if updated then modify (set_dirty true) else mret tt) s1
    (λ _ s', counted s s' d).
Proof.
  intros [Hc Hd] Hs ->. wstep.
  assert (Hall : counted s (set_dirty true s1) d) by (destruct Hc as [? [] ? ?]; by split).
  destruct (m_dirty s1) eqn:Hd1; wstep; [|exact Hall].
  replace (set_dirty true s1) with s1 in Hall; [done|]. destruct s1. cbn in Hd1. by rewrite Hd1.
Qed.

(** a piece whose count can be raised leaves room for another seed *)
Lemma seeds_fit s d j :
  list_ok s → counts_fit s d → 0 ≤ j < num_pieces s ∧ d j = 1 → m_seeds s + 1 < max_seeds.
Proof.
  intros Hs Hf [Hj Hd]. destruct (vget_is_Some (m_piece_map (lay s)) j Hj) as [p Hp].
  specialize (Hf j p Hp). destruct (lo_map s Hs j p Hp). unfold max_seeds. lia.
Qed.

Lemma inc_refcount_bits_spec s bits :
  list_ok s → vsize bits ≤ num_pieces s → counts_fit s (bit bits) →
  wp (inc_refcount_bits bits) s (λ _ s', counted s s' (bit bits)).
Proof.
  intros Hs Hsz Hfit. unfold inc_refcount_bits.
  destruct (none_set bits) eqn:Hnone.
  { wstep. eapply counted_ext; [by apply counted_refl|]. intros. by apply none_set_bits. }
  wstep. destruct (all_set bits && (vsize bits =? num_pieces s)) eqn:Hall.
  { apply andb_prop in Hall as [Hall Hn]. eapply wp_mono.
    { apply inc_refcount_all_spec; [done|]. apply (seeds_fit s (bit bits) 0); [done|done|].
      pose proof Hall as Hne. unfold all_set in Hne. apply andb_prop in Hne as [Hne _]. pose proof (vsize_nonneg bits).
      apply negb_true_iff, Z.eqb_neq in Hne. split; [lia|]. apply all_set_bits; [done|lia]. }
    intros [] s' Hc. eapply counted_ext; [done|]. intros j Hj. apply all_set_bits; [done|lia]. }
  wstep. destruct (collect bits 0 0 _) as [l n] eqn:Hcol.
  destruct (negb (m_dirty s) && _) eqn:Hfew.
  - apply andb_prop in Hfew as [Hd Hn]. apply negb_true_iff in Hd. apply Z.ltb_lt in Hn.
    destruct (collect_spec _ _ _ _ _ _ Hcol Hn) as [Hocc Hin].
    assert (Hb : ∀ j, occ l j = bit bits j) by (intros j; rewrite Hocc; f_equal; lia).
    eapply wp_mono; [apply inc_listed_spec; [done|done| |]|].
    + intros i Hi. specialize (Hin i Hi). lia.
    + intros j p Hp. cbn beta. rewrite Hb. by apply Hfit.
    + intros [] s' Hc. eapply counted_ext; [done|]. intros. cbn beta. by rewrite Hb.
  - assert (Hb : ∀ j, bit bits (j - 0) = bit bits j) by (intros; f_equal; lia).
    apply wp_bind. eapply wp_mono; [apply inc_bits_spec; [by apply list_ok_as_dirty|done|lia|]|].
    + intros j p Hp. cbn beta. rewrite Hb. by apply Hfit.
    + cbn beta. intros x s1 [Hc ->]. eapply wp_mono; [eapply wp_set_dirty_if; [done|done|]|].
      * by rewrite Hnone.
      * intros [] s' Hc'. eapply counted_ext; [done|]. intros. cbn beta. by rewrite Hb.
Qed.

(** ** One fewer *)

Definition minus (d : Z → Z) (j : Z) : Z := - d j.

Lemma dec_listed_spec l s :
  list_ok s → counts_fit s (λ _, 0) → (∀ i, i ∈ l → 0 ≤ i < num_pieces s) →
  counts_fit s (minus (occ l)) → wp (dec_listed l) s (λ _ s', counted s s' (minus (occ l))).
Proof.
  revert s. induction l as [|i l IH]; intros s Hs Hf0 Hr Hfit.
  { apply wp_ret. by apply counted_refl. }
  cbn [dec_listed]. destruct (piece_in_range s i) as [p Hp]; [apply Hr; left|].
  pose proof (Hfit i p Hp) as Hi. pose proof (Hf0 i p Hp) as Hi0.
  unfold minus in Hi. cbn [occ] in Hi. unfold at_piece in Hi. rewrite Z.eqb_refl in Hi.
  pose proof (occ_nonneg l i).
  apply wp_bind. eapply wp_reads. { unfold priority_of. by rewrite Hp. }
  wstep. fold (ensure_count p). apply wp_bind.
  eapply wp_ensure_count; [done|done|done|lia|]. intros s1 p1 Hc1 Hp1 Hpos Hsame.
  apply wp_regroup. eapply wp_fewer; [apply (ct_ok _ _ _ Hc1)|done|done| |].
  - intros s' Hd. unfold update_if_listed, mbind, M_bind, gets. rewrite Hd.
    destruct (m_dirty s1) eqn:Hd1; [by destruct (0 <=? priority (m_seeds s1) p1)|].
    specialize (Hsame eq_refl) as ->. rewrite Hp in Hp1. injection Hp1 as ->.
    by destruct (0 <=? priority (m_seeds s) p1).
  - intros s2 Hc2 _ _.
    assert (Hc : counted s s2 (at_piece i (-1))) by by eapply counted_step.
    assert (Hstep : ∀ j, minus (occ (i :: l)) j = at_piece i (-1) j + minus (occ l) j).
    { intros j. unfold minus, at_piece. cbn. unfold at_piece. destruct (j =? i); lia. }
    eapply wp_mono; [apply IH; [apply (ct_ok _ _ _ Hc)| | |]|].
    + eapply counts_fit_counted; [exact Hc|]. intros j q Hq.
      specialize (Hf0 j q Hq). specialize (Hfit j q Hq). cbn in Hf0.
      unfold minus in Hfit. pose proof (occ_nonneg l j). cbn [occ] in Hfit.
      unfold at_piece in *. destruct (j =? i); lia.
    + intros j Hj. rewrite (ct_size _ _ _ Hc). apply Hr. by right.
    + by eapply counts_fit_step.
    + intros [] s3 Hc3. by eapply counted_step.
Qed.

(** [break_one_seed] in a state that is as good as dirty *)
Lemma wp_ensure_count_bits s i p (Q : unit → picker → Prop) :
  list_ok (set_dirty true s) → counts_fit s (λ _, 0) → piece_map i s = Some p →
  0 < peer_count p + m_seeds s →
  (∀ s' p', bits_counted s s' (λ _, 0) → piece_map i s' = Some p' → 0 < peer_count p' →
     Q tt s') →
  wp (ensure_count p) s Q.
Proof.
  intros Hs Hfit Hp Hav HQ. destruct (lo_map _ Hs i p Hp) as [Hc _].
  destruct (peer_count p =? 0) eqn:Hcase.
  - assert (Hdirty : ensure_count p s = ensure_count p (set_dirty true s))
      by (unfold ensure_count, break_one_seed, add_seeds, mbind, M_bind, reads; rewrite Hcase;
          cbn [m_seeds set_dirty]; by destruct (signed 32 (m_seeds s + -1))).
    unfold wp. rewrite Hdirty. eapply (wp_ensure_count (set_dirty true s)); try done.
    intros s' p' Hc' Hp' Hpos' Hsame. destruct (m_dirty s') eqn:Hd'.
    + eapply HQ; [|done|done]. split; [|done].
      replace (set_dirty true s') with s'; [done|]. destruct s'. cbn in Hd'. by rewrite Hd'.
    + specialize (Hsame eq_refl) as ->. done.
  - unfold ensure_count. rewrite Hcase. apply Z.eqb_neq in Hcase.
    wstep. eapply HQ; [|done|lia]. split; [|done].
    by apply counted_refl.
Qed.

Lemma dec_bits_spec bits i updated s :
  list_ok (set_dirty true s) → 0 ≤ i → i + vsize bits ≤ num_pieces s →
  counts_fit s (λ _, 0) → counts_fit s (λ j, - bit bits (j - i)) →
  wp (dec_bits bits i updated) s (λ x s',
    bits_counted s s' (λ j, - bit bits (j - i)) ∧ x = updated || negb (none_set bits)).
Proof.
  revert i updated s. induction bits as [|b bits IH]; intros i updated s Hs Hi Hsz Hf0 Hfit.
  { apply wp_ret. rewrite orb_false_r. split; [|done]. split; [|done].
    eapply counted_ext; [by apply counted_refl|]. intros. by rewrite bit_nil. }
  rewrite vsize_cons in Hsz. pose proof (vsize_nonneg bits).
  assert (Hsh : ∀ j, - bit (b :: bits) (j - i) =
    at_piece i (- Z.b2z b) j + - bit bits (j - (i + 1))).
  { intros j. rewrite bit_shift. unfold at_piece. destruct (j =? i); lia. }
  assert (Hrest : ∀ s1 u, bits_counted s s1 (at_piece i (- Z.b2z b)) →
    wp (dec_bits bits (i + 1) u) s1 (λ x s',
      bits_counted s s' (λ j, - bit (b :: bits) (j - i)) ∧ x = u || negb (none_set bits))).
  { intros s1 u H1. eapply wp_mono.
    - apply IH; [apply (ct_ok _ _ _ (proj1 H1))|lia| | |].
      + pose proof (ct_size _ _ _ (proj1 H1)) as E. unfold num_pieces in *. cbn in E. lia.
      + eapply (counts_fit_counted (set_dirty true s) (set_dirty true s1)); [apply H1|].
        intros j q Hq. specialize (Hf0 j q Hq). specialize (Hfit j q Hq). cbn beta in *.
        rewrite Hsh in Hfit. pose proof (bit_range bits (j - (i + 1))).
        cbn [m_seeds set_dirty]. unfold at_piece in *. destruct (j =? i), b; cbn in *; lia.
      + eapply (counts_fit_step (set_dirty true s) (set_dirty true s1)); [apply H1|exact Hfit|].
        exact Hsh.
    - intros x s2 [H2 ->]. split; [|done]. eapply bits_counted_step; [done..|]. exact Hsh. }
  destruct b; cbn [dec_bits].
  - destruct (piece_in_range s i) as [p Hp]; [lia|]. pose proof (Hfit i p Hp) as Hc.
    cbn in Hc. rewrite Z.sub_diag in Hc. change (bit (true :: bits) 0) with 1 in Hc.
    wstep. fold (ensure_count p). apply wp_bind.
    eapply wp_ensure_count_bits; [done|done|done|lia|]. intros s1 p1 H1 Hp1 Hpos.
    apply wp_bind. eapply (wp_count_only s1 i p1 (-1)); [apply (ct_ok _ _ _ (proj1 H1))|done| |].
    { pose proof (lo_map _ (ct_ok _ _ _ (proj1 H1)) i p1 Hp1) as [Hpc _]. lia. }
    intros s2 H2. eapply wp_mono; [apply Hrest; by eapply bits_counted_step|].
    intros x s3 [H3 ->]. split; [done|]. cbn. by rewrite orb_true_r.
  - eapply Hrest. split; [|done]. eapply counted_ext; [by apply counted_refl|].
    intros j _. unfold at_piece. by destruct (j =? i).
Qed.

Lemma dec_refcount_bits_spec s bits :
  list_ok s → vsize bits ≤ num_pieces s → counts_fit s (λ _, 0) →
  counts_fit s (minus (bit bits)) →
  wp (dec_refcount_bits bits) s (λ _ s', counted s s' (minus (bit bits))).
Proof.
  intros Hs Hsz Hf0 Hfit. unfold dec_refcount_bits.
  destruct (none_set bits) eqn:Hnone.
  { wstep. eapply counted_ext; [by apply counted_refl|]. intros. unfold minus.
    by rewrite none_set_bits. }
  wstep. destruct (all_set bits && (vsize bits =? num_pieces s)) eqn:Hall.
  { apply andb_prop in Hall as [Hall Hn]. apply Z.eqb_eq in Hn.
    assert (Hone : ∀ j, 0 ≤ j < num_pieces s → minus (bit bits) j = -1).
    { intros j Hj. unfold minus. rewrite all_set_bits by (done || lia). done. }
    eapply wp_mono; [apply dec_refcount_all_spec; [done|]|].
    - intros j p Hp. rewrite <-(Hone j) by by eapply vget_Some_range. by apply Hfit.
    - intros [] s' Hc. by eapply counted_ext. }
  wstep. destruct (collect bits 0 0 _) as [l n] eqn:Hcol.
  destruct (negb (m_dirty s) && _) eqn:Hfew.
  - apply andb_prop in Hfew as [Hd Hn]. apply Z.ltb_lt in Hn.
    destruct (collect_spec _ _ _ _ _ _ Hcol Hn) as [Hocc Hin].
    assert (Hb : ∀ j, minus (occ l) j = minus (bit bits) j)
      by (intros j; unfold minus; rewrite Hocc; do 2 f_equal; lia).
    eapply wp_mono; [apply dec_listed_spec; [done|done| |]|].
    + intros i Hi. specialize (Hin i Hi). lia.
    + intros j p Hp. rewrite Hb. by apply Hfit.
    + intros [] s' Hc. by eapply counted_ext.
  - assert (Hb : ∀ j, - bit bits (j - 0) = minus (bit bits) j)
      by (intros; unfold minus; do 2 f_equal; lia).
    apply wp_bind.
    eapply wp_mono; [apply dec_bits_spec; [by apply list_ok_as_dirty|done|lia|done|]|].
    + intros j p Hp. cbn beta. rewrite Hb. by apply Hfit.
    + cbn beta. intros x s1 [Hc ->]. eapply wp_mono; [eapply wp_set_dirty_if; [done|done|]|].
      * by rewrite Hnone.
      * intros [] s' Hc'. eapply counted_ext; [done|]. intros. cbn beta. by rewrite Hb.
Qed.
End bits.
