(* ===== verification/PickerDls.v ===== *)
(** The download queues and the blocks of their records: the queues are ordered
    by piece, and the records own disjoint slices of m_block_info. *)

From stdpp Require Import gmap sorting.
From stdpp Require Import gmap.
From S2P Require Import Prelude.
From stdpp Require Import list.
From S2P Require Import Random.
From S2P Require Import PiecePicker.
From S2P Require Import PickerState.

Open Scope Z_scope.

(** * One vector *)

Definition dp_lt (a b : downloading_piece) : Prop := dp_index a < dp_index b.

Definition ordered (v : list downloading_piece) : Prop := StronglySorted dp_lt v.

Lemma ordered_cons a v : ordered (a :: v) ↔ ordered v ∧ Forall (dp_lt a) v.
Proof. split; [by apply StronglySorted_inv|intros [? ?]; by constructor]. Qed.

Lemma ordered_app v w :
  ordered (v ++ w) ↔ ordered v ∧ ordered w ∧ ∀ a b, a ∈ v → b ∈ w → dp_lt a b.
Proof.
  induction v as [|x v IH]; cbn.
  { split; [intros H; split; [constructor|split; [done|set_solver]]|by intros (_ & ? & _)]. }
  rewrite !ordered_cons, IH, Forall_app, !list.Forall_forall. split.
  - intros [(H1 & H2 & H3) [H4 H5]]. split; [done|]. split; [done|].
    intros a b. rewrite elem_of_cons. intros [->|Ha] Hb; auto.
  - intros ((H1 & H2) & H3 & H4). split; [split; [done|]; split; [done|]|split; [done|]].
    + intros a b Ha. apply H4. by right.
    + intros b. apply H4. by left.
Qed.

Lemma lower_bound_range v i : 0 ≤ lower_bound v i ≤ vsize v.
Proof.
  induction v as [|a v IH]; cbn; [done|]. rewrite vsize_cons.
  pose proof (vsize_nonneg v). destruct (_ <? _); lia.
Qed.

(** what comes before and from the bound *)
Lemma lower_bound_split v i :
  ordered v →
  let k := Z.to_nat (lower_bound v i) in
  (∀ a, a ∈ take k v → dp_index a < i) ∧ (∀ b, b ∈ drop k v → i ≤ dp_index b).
Proof.
  induction v as [|a v IH]; intros Hv k; subst k.
  { cbn. split; intros x Hx; by apply elem_of_nil in Hx. }
  apply ordered_cons in Hv as [Hv Ha]. rewrite list.Forall_forall in Ha. cbn [lower_bound].
  destruct (Z.ltb_spec (dp_index a) i) as [Hlt|Hge].
  - destruct (IH Hv) as [H1 H2]. pose proof (lower_bound_range v i).
    replace (Z.to_nat (1 + lower_bound v i)) with (S (Z.to_nat (lower_bound v i))) by lia.
    cbn [take drop]. split; [|done]. intros x. rewrite elem_of_cons. intros [->|Hx]; auto.
  - change (Z.to_nat 0) with O. cbn [take drop].
    split; [intros x Hx; by apply elem_of_nil in Hx|].
    intros x. rewrite elem_of_cons. intros [->|Hx]; [done|]. specialize (Ha x Hx).
    unfold dp_lt in Ha. lia.
Qed.

Lemma lower_bound_found v k dp :
  ordered v → v⟦k⟧ = Some dp → lower_bound v (dp_index dp) = k.
Proof.
  revert k. induction v as [|a v IH]; intros k Hv Hk; [by rewrite vget_nil in Hk|].
  pose proof (vget_Some_range _ _ _ Hk) as Hr. rewrite vget_cons in Hk.
  apply ordered_cons in Hv as [Hv Ha]. rewrite list.Forall_forall in Ha. cbn.
  destruct (Z.eqb_spec k 0) as [->|Hk0].
  - injection Hk as ->. by destruct (Z.ltb_spec (dp_index dp) (dp_index dp)); [lia|].
  - assert (Hin : dp ∈ v) by by eapply vget_elem_of.
    specialize (Ha dp Hin). unfold dp_lt in Ha.
    destruct (Z.ltb_spec (dp_index a) (dp_index dp)); [|lia]. rewrite (IH (k - 1)); [lia|done|done].
Qed.

Lemma ordered_inj v a b : ordered v → a ∈ v → b ∈ v → dp_index a = dp_index b → a = b.
Proof.
  intros Hv Ha Hb Hi. apply elem_of_vget in Ha as [k Ha]. apply elem_of_vget in Hb as [k' Hb].
  apply (lower_bound_found _ _ _ Hv) in Ha as E. apply (lower_bound_found _ _ _ Hv) in Hb as E'.
  rewrite Hi in E. congruence.
Qed.

(** [find_dl_piece] in an ordered vector *)
Lemma vget_erase {A} (v : list A) k :
  0 ≤ k < vsize v → ∃ x, v⟦k⟧ = Some x ∧ v = take (Z.to_nat k) v ++ x :: drop (S (Z.to_nat k)) v.
Proof.
  intros Hk. destruct (vget_is_Some v k Hk) as [x Hx]. exists x. split; [done|].
  unfold vget in Hx. destruct (Z.ltb_spec k 0); [lia|]. symmetry. by apply take_drop_middle.
Qed.

Lemma ordered_insert v dp :
  ordered v → (∀ b, b ∈ v → dp_index b ≠ dp_index dp) →
  ∃ v', vinsert v (lower_bound v (dp_index dp)) dp = Some v' ∧ ordered v' ∧
    v'⟦lower_bound v (dp_index dp)⟧ = Some dp ∧
    ∃ l1 l2, v = l1 ++ l2 ∧ v' = l1 ++ dp :: l2.
Proof.
  intros Hv Hne. pose proof (lower_bound_range v (dp_index dp)) as Hr.
  destruct (lower_bound_split v (dp_index dp) Hv) as [Hbelow Habove].
  unfold vinsert. set (k := lower_bound v (dp_index dp)) in *.
  replace ((0 <=? k) && (k <=? vsize v)) with true
    by (symmetry; apply andb_true_intro; split; lia).
  eexists. split; [done|]. set (l1 := take (Z.to_nat k) v) in *. set (l2 := drop (Z.to_nat k) v) in *.
  assert (Hv12 : v = l1 ++ l2) by (symmetry; apply take_drop).
  rewrite Hv12 in Hv. apply ordered_app in Hv as (H1 & H2 & H3). split_and!.
  - apply ordered_app. split; [done|]. split.
    + apply ordered_cons. split; [done|]. rewrite list.Forall_forall. intros b Hb.
      assert (dp_index b ≠ dp_index dp) by (apply Hne; rewrite Hv12; set_solver).
      specialize (Habove b Hb). unfold dp_lt. lia.
    + intros a b Ha. rewrite elem_of_cons. intros [->|Hb]; [by apply Hbelow|by apply H3].
  - assert (Hl : k = vsize l1)
      by (unfold l1, vsize; rewrite length_take; unfold vsize in Hr; lia).
    rewrite Hl. apply vget_middle.
  - by exists l1, l2.
Qed.

Lemma ordered_erase v k dp :
  ordered v → v⟦k⟧ = Some dp →
  ∃ v' l1 l2, verase v k = Some v' ∧ ordered v' ∧ v = l1 ++ dp :: l2 ∧ v' = l1 ++ l2.
Proof.
  intros Hv Hk. pose proof (vget_Some_range _ _ _ Hk) as Hr. unfold verase.
  replace ((0 <=? k) && (k <? vsize v)) with true by (symmetry; apply andb_true_intro; split; lia).
  destruct (vget_erase v k Hr) as (x & Hx & Hsplit). rewrite Hk in Hx. injection Hx as <-.
  do 3 eexists. split; [done|]. split; [|split; [exact Hsplit|done]].
  rewrite Hsplit in Hv. apply ordered_app in Hv as (H1 & H2 & H3).
  apply ordered_cons in H2 as [H2 _]. apply ordered_app. split; [done|]. split; [done|].
  intros a b Ha Hb. apply H3; [done|by right].
Qed.

Lemma ordered_replace v k dp dp' :
  ordered v → v⟦k⟧ = Some dp → dp_index dp' = dp_index dp →
  ∃ v' l1 l2, v⟦k := dp'⟧ = Some v' ∧ ordered v' ∧ v = l1 ++ dp :: l2 ∧ v' = l1 ++ dp' :: l2.
Proof.
  intros Hv Hk Hi. pose proof (vget_Some_range _ _ _ Hk) as Hr.
  destruct (vget_erase v k Hr) as (x & Hx & Hsplit). rewrite Hk in Hx. injection Hx as <-.
  destruct (vset_is_Some v k dp' Hr) as [v' Hv']. exists v', (take (Z.to_nat k) v), (drop (S (Z.to_nat k)) v).
  assert (Heq : v' = take (Z.to_nat k) v ++ dp' :: drop (S (Z.to_nat k)) v).
  { apply (vset_split _ _ _ _ Hv'). }
  split; [done|]. split; [|done]. rewrite Heq. rewrite Hsplit in Hv.
  apply ordered_app in Hv as (H1 & H2 & H3). apply ordered_cons in H2 as [H2 H4].
  rewrite list.Forall_forall in H4. apply ordered_app. split; [done|]. split.
  - apply ordered_cons. split; [done|]. rewrite list.Forall_forall. intros b Hb.
    unfold dp_lt. rewrite Hi. by apply H4.
  - intros a b Ha. rewrite elem_of_cons. intros [->|Hb].
    + unfold dp_lt. rewrite Hi. apply (H3 a dp Ha). by left.
    + apply H3; [done|by right].
Qed.

(** * The invariant *)

(** every record, whatever its queue *)
Definition all_dps (d : downloads) : list downloading_piece := concat (m_downloads d).

(** the slices of [m_block_info] that have been allocated *)
Definition slices (d : downloads) : list Z := map info_idx (all_dps d) ++ m_free_block_infos d.

(** the queue of each piece *)
Definition queue_of (m : list piece_pos) (i : Z) : option download_queue_t :=
  download_queue <$> m⟦i⟧.

(** [n] is the number of blocks in a piece and [st] the queue of each piece *)
Record dls_ok (n : Z) (st : Z → option download_queue_t) (d : downloads) : Prop := {
  dk_len : vsize (m_downloads d) = 4;
  dk_ordered : ∀ q v, (m_downloads d)⟦q⟧ = Some v → ordered v;
  dk_state : ∀ q v dp, (m_downloads d)⟦q⟧ = Some v → dp ∈ v →
    ∃ c, st (dp_index dp) = Some c ∧ queue_number c = q;
  dk_listed : ∀ i c, st i = Some c → c ≠ piece_open →
    ∃ dp, dp ∈ all_dps d ∧ dp_index dp = i;
  dk_slices : NoDup (slices d);
  dk_room : ∀ x, x ∈ slices d → 0 ≤ x ∧ (x + 1) * n ≤ vsize (m_block_info d);
  dk_blocks : (n | vsize (m_block_info d))
}.

(** a slice of a vector *)
Definition slice {A} (l : list A) (idx n : Z) : list A :=
  take (Z.to_nat n) (drop (Z.to_nat idx) l).

Definition blocks_of (n len : Z) (d : downloads) (dp : downloading_piece) : list block_info :=
  slice (m_block_info d) (info_idx dp * n) len.

(** the record of piece [i] *)
Fixpoint find_dp (i : Z) (l : list downloading_piece) : option downloading_piece :=
  match l with
  | [] => None
  | dp :: l => if dp_index dp =? i then Some dp else find_dp i l
  end.

Definition record_of (d : downloads) (i : Z) : option downloading_piece := find_dp i (all_dps d).

(** * Lists of vectors *)

Lemma elem_of_concat {A} (l : list (list A)) x : x ∈ concat l ↔ ∃ v, x ∈ v ∧ v ∈ l.
Proof.
  induction l as [|w l IH]; cbn; [set_solver|]. rewrite elem_of_app, IH. set_solver.
Qed.

Lemma elem_of_all_dps d dp :
  dp ∈ all_dps d ↔ ∃ q v, (m_downloads d)⟦q⟧ = Some v ∧ dp ∈ v.
Proof.
  unfold all_dps. rewrite elem_of_concat. split.
  - intros (v & Hdp & Hv). apply elem_of_vget in Hv as [q Hq]. eauto.
  - intros (q & v & Hq & Hdp). exists v. split; [done|]. by eapply vget_elem_of.
Qed.

(** replacing one vector changes the concatenation in that place *)
Lemma concat_vset (D D' : list (list downloading_piece)) q v v' l1 l2 a b :
  D⟦q⟧ = Some v → D⟦q := v'⟧ = Some D' → v = l1 ++ a ++ l2 → v' = l1 ++ b ++ l2 →
  ∃ r1 r2, concat D = r1 ++ a ++ r2 ∧ concat D' = r1 ++ b ++ r2.
Proof.
  intros Hq Hset Hv Hv'. pose proof (vget_Some_range _ _ _ Hq) as Hr.
  destruct (vget_erase D q Hr) as (x & Hx & HD). rewrite Hq in Hx. injection Hx as <-.
  apply vset_split in Hset.
  exists (concat (take (Z.to_nat q) D) ++ l1), (l2 ++ concat (drop (S (Z.to_nat q)) D)).
  split.
  - rewrite HD at 1. rewrite concat_app, concat_cons, Hv. by rewrite <-!(assoc_L (++)).
  - rewrite Hset, concat_app, concat_cons, Hv'. by rewrite <-!(assoc_L (++)).
Qed.

Lemma slice_get {A} (l : list A) idx n j :
  0 ≤ idx → 0 ≤ j < n → (slice l idx n)⟦j⟧ = l⟦idx + j⟧.
Proof.
  intros Hi Hj. unfold slice, vget.
  destruct (Z.ltb_spec j 0), (Z.ltb_spec (idx + j) 0); try lia.
  rewrite lookup_take, lookup_drop. rewrite decide_True by lia. f_equal. lia.
Qed.

Lemma vget_ext {A} (v w : list A) : (∀ i, v⟦i⟧ = w⟦i⟧) → v = w.
Proof. intros H. apply list_eq. intros k. by rewrite <-!vget_nat. Qed.

Lemma slice_get_out {A} (l : list A) idx n j :
  0 ≤ idx → ¬ (0 ≤ j < n) → (slice l idx n)⟦j⟧ = None.
Proof.
  intros Hi Hj. apply vget_None. unfold slice, vsize. rewrite length_take. lia.
Qed.

(** a slice is its elements *)
Lemma slice_ext {A} (l w : list A) idx n :
  0 ≤ idx → 0 ≤ n → (∀ j, w⟦j⟧ = if (0 <=? j) && (j <? n) then l⟦idx + j⟧ else None) →
  w = slice l idx n.
Proof.
  intros Hi Hn Hw. apply vget_ext. intros j. rewrite Hw.
  destruct (Z.leb_spec 0 j), (Z.ltb_spec j n); cbn [andb];
    [by rewrite slice_get by lia|by rewrite slice_get_out by lia..].
Qed.

Lemma slice_get_if {A} (l : list A) idx n j :
  0 ≤ idx → (slice l idx n)⟦j⟧ = if (0 <=? j) && (j <? n) then l⟦idx + j⟧ else None.
Proof.
  intros Hi. destruct (Z.leb_spec 0 j), (Z.ltb_spec j n); cbn [andb];
    [by rewrite slice_get by lia|by rewrite slice_get_out by lia..].
Qed.

Lemma slice_size {A} (l : list A) idx n :
  0 ≤ idx → 0 ≤ n → idx + n ≤ vsize l → vsize (slice l idx n) = n.
Proof.
  intros Hi Hn Hl. unfold slice, vsize in *. rewrite length_take, length_drop. lia.
Qed.

Lemma slice_vset_in {A} (l l' : list A) idx n j x :
  0 ≤ idx → 0 ≤ j < n → l⟦idx + j := x⟧ = Some l' →
  (slice l idx n)⟦j := x⟧ = Some (slice l' idx n).
Proof.
  intros Hi Hj Hset. apply vset_inv in Hset as [Hr ->].
  rewrite vset_Some.
  - f_equal. unfold slice. rewrite drop_insert_ge by lia. rewrite take_insert_lt by lia.
    do 2 f_equal. lia.
  - unfold slice, vsize in *. rewrite length_take, length_drop. lia.
Qed.

Lemma slice_vset_out {A} (l l' : list A) idx n k x :
  0 ≤ idx → 0 ≤ n → k < idx ∨ idx + n ≤ k → l⟦k := x⟧ = Some l' →
  slice l' idx n = slice l idx n.
Proof.
  intros Hi Hn Hk Hset. apply vset_inv in Hset as [Hr ->]. unfold slice.
  destruct (decide (k < idx)).
  - by rewrite drop_insert_lt by lia.
  - destruct (decide (Z.to_nat k < Z.to_nat idx)%nat); [lia|].
    rewrite drop_insert_ge by lia. by rewrite take_insert_ge by lia.
Qed.

(** * Looking up a piece *)

Section lookup.
Context (n : Z) (st : Z → option download_queue_t) (d : downloads) (Hd : dls_ok n st d).

Lemma dps_unique a b : a ∈ all_dps d → b ∈ all_dps d → dp_index a = dp_index b → a = b.
Proof using Hd.
  rewrite !elem_of_all_dps. intros (q & v & Hq & Ha) (q' & v' & Hq' & Hb) Hi.
  destruct (dk_state _ _ _ Hd _ _ _ Hq Ha) as (p & Hp & <-).
  destruct (dk_state _ _ _ Hd _ _ _ Hq' Hb) as (p' & Hp' & <-).
  rewrite Hi, Hp' in Hp. injection Hp as <-. rewrite Hq in Hq'. injection Hq' as <-.
  by eapply ordered_inj; [by eapply (dk_ordered _ _ _ Hd)|..].
Qed.

Lemma find_dp_Some i l dp : find_dp i l = Some dp → dp ∈ l ∧ dp_index dp = i.
Proof using.
  induction l as [|a l IH]; [done|]. cbn. destruct (Z.eqb_spec (dp_index a) i).
  - intros [= <-]. split; [left|done].
  - intros [? ?]%IH. split; [by right|done].
Qed.

Lemma find_dp_None i l dp : find_dp i l = None → dp ∈ l → dp_index dp ≠ i.
Proof using.
  induction l as [|a l IH]; cbn; [intros _ H; by apply elem_of_nil in H|].
  destruct (Z.eqb_spec (dp_index a) i); [done|]. intros Hn.
  rewrite elem_of_cons. intros [->|?]; auto.
Qed.

Lemma record_of_spec i dp : record_of d i = Some dp ↔ dp ∈ all_dps d ∧ dp_index dp = i.
Proof using Hd.
  unfold record_of. split; [apply find_dp_Some|]. intros [Hin Hi].
  destruct (find_dp i (all_dps d)) as [dp'|] eqn:Hf.
  - apply find_dp_Some in Hf as [Hin' Hi']. f_equal. apply dps_unique; [done|done|congruence].
  - by pose proof (find_dp_None _ _ _ Hf Hin).
Qed.

(** a piece has a record when it is being downloaded *)
Lemma record_of_state i c :
  st i = Some c → (record_of d i = None ↔ c = piece_open).
Proof using Hd.
  intros Hp. destruct (record_of d i) as [dp|] eqn:Hr.
  - split; [done|]. intros Ho. apply record_of_spec in Hr as [Hin Hi].
    apply elem_of_all_dps in Hin as (q & v & Hq & Hin).
    destruct (dk_state _ _ _ Hd _ _ _ Hq Hin) as (p' & Hp' & Hqn).
    rewrite Hi, Hp in Hp'. injection Hp' as <-. rewrite Ho in Hqn. cbn in Hqn.
    pose proof (vget_Some_range _ _ _ Hq). rewrite (dk_len _ _ _ Hd) in *. lia.
  - split; [|done]. intros _. destruct (decide (c = piece_open)); [done|].
    destruct (dk_listed _ _ _ Hd i c Hp) as (dp & Hin & Hi); [done|].
    assert (record_of d i = Some dp) by by apply record_of_spec. congruence.
Qed.

(** where the record is *)
Lemma record_of_loc i c dp :
  st i = Some c → record_of d i = Some dp →
  ∃ v k, (m_downloads d)⟦queue_number c⟧ = Some v ∧ v⟦k⟧ = Some dp ∧
    lower_bound v i = k.
Proof using Hd.
  intros Hp [Hin Hi]%record_of_spec. apply elem_of_all_dps in Hin as (q & v & Hq & Hin).
  destruct (dk_state _ _ _ Hd _ _ _ Hq Hin) as (p' & Hp' & <-).
  rewrite Hi, Hp in Hp'. injection Hp' as <-.
  apply elem_of_vget in Hin as [k Hk]. exists v, k. split; [done|]. split; [done|].
  rewrite <-Hi. apply lower_bound_found; [by eapply (dk_ordered _ _ _ Hd)|done].
Qed.

Lemma record_slice i dp : record_of d i = Some dp → info_idx dp ∈ slices d.
Proof using Hd.
  intros [Hin _]%record_of_spec. unfold slices. apply elem_of_app. left.
  by apply list_elem_of_fmap_2.
Qed.

Lemma slices_differ i j a b :
  record_of d i = Some a → record_of d j = Some b → i ≠ j → info_idx a ≠ info_idx b.
Proof using Hd.
  intros [Ha Hi]%record_of_spec [Hb Hj]%record_of_spec Hij Heq.
  pose proof (dk_slices _ _ _ Hd) as Hnd. apply list.NoDup_app in Hnd as [Hnd _].
  apply elem_of_vget in Ha as [k Ha]. apply elem_of_vget in Hb as [k' Hb].
  assert (k ≠ k') by (intros ->; congruence).
  pose proof (vget_Some_range _ _ _ Ha). pose proof (vget_Some_range _ _ _ Hb).
  rewrite NoDup_alt in Hnd.
  assert (Z.to_nat k = Z.to_nat k'); [|lia]. apply (Hnd _ _ (info_idx a)).
  - unfold vget in Ha. destruct (Z.ltb_spec k 0); [lia|]. by rewrite list_lookup_fmap, Ha.
  - unfold vget in Hb. destruct (Z.ltb_spec k' 0); [lia|]. rewrite list_lookup_fmap, Hb.
    cbn. by rewrite Heq.
Qed.
End lookup.

(** the records of another state of the structures *)
Lemma record_of_ext n st d i x :
  dls_ok n st d → (∀ dp, x = Some dp → dp_index dp = i) →
  (∀ dp, dp_index dp = i → (dp ∈ all_dps d ↔ x = Some dp)) → record_of d i = x.
Proof.
  intros Hd Hi Hx. destruct (record_of d i) as [a|] eqn:Hr.
  - apply (record_of_spec _ _ _ Hd) in Hr as [Hin Ha]. symmetry. by apply Hx.
  - destruct x as [dp|]; [|done]. specialize (Hi dp eq_refl).
    assert (record_of d i = Some dp); [|congruence].
    apply (record_of_spec _ _ _ Hd). split; [by apply Hx|done].
Qed.

Lemma dls_ok_ext n st st' d : dls_ok n st d → (∀ i, st' i = st i) → dls_ok n st' d.
Proof.
  intros [H1 H2 H3 H4 H5 H6 H7] Hst. split; try done.
  - intros q v dp Hq Hdp. rewrite Hst. eauto.
  - intros i c. rewrite Hst. apply H4.
Qed.

(** * Changing the structures *)

Definition set_queues (D : list (list downloading_piece)) (d : downloads) : downloads :=
  Downloads D (m_block_info d) (m_free_block_infos d).

Definition set_state (st : Z → option download_queue_t) (i : Z) (c : download_queue_t) (j : Z)
    : option download_queue_t := if j =? i then Some c else st j.

Section change.
Context (n : Z) (st : Z → option download_queue_t) (d : downloads) (Hd : dls_ok n st d).

Lemma others_differ r1 dp r2 a :
  all_dps d = r1 ++ dp :: r2 → a ∈ r1 ++ r2 → dp_index a ≠ dp_index dp.
Proof using Hd.
  intros Hall Ha Hi. pose proof (dk_slices _ _ _ Hd) as Hnd. unfold slices in Hnd.
  apply list.NoDup_app in Hnd as [Hnd _]. rewrite Hall in Hnd.
  assert (a = dp) as ->.
  { apply (dps_unique _ _ _ Hd); [|rewrite Hall; set_solver|done].
    rewrite Hall. apply elem_of_app in Ha. set_solver. }
  rewrite map_app in Hnd. cbn in Hnd.
  apply list.NoDup_app in Hnd as (_ & Hnd1 & Hnd2). apply list.NoDup_cons in Hnd2 as [Hnd2 _].
  apply elem_of_app in Ha as [Ha|Ha].
  - apply (Hnd1 (info_idx dp)); [by apply list_elem_of_fmap_2|left].
  - apply Hnd2. by apply list_elem_of_fmap_2.
Qed.

(** one vector is replaced, the others stay *)
Lemma set_queues_get D q v' q' :
  (m_downloads d)⟦q := v'⟧ = Some D →
  (m_downloads (set_queues D d))⟦q'⟧ = if q' =? q then Some v' else (m_downloads d)⟦q'⟧.
Proof using. intros HD. by apply vset_get. Qed.

(** the records after a change of the place [a] of the concatenation to [b] *)
Lemma record_of_surgery st' d' i a b r1 r2 (x : option downloading_piece) :
  dls_ok n st' d' → all_dps d = r1 ++ a ++ r2 → all_dps d' = r1 ++ b ++ r2 →
  (∀ dp, dp ∈ a → dp_index dp = i) → (∀ dp, dp ∈ b ↔ x = Some dp) →
  (∀ dp, x = Some dp → dp_index dp = i) →
  (∀ dp, dp ∈ r1 ++ r2 → dp_index dp ≠ i) →
  ∀ j, record_of d' j = if j =? i then x else record_of d j.
Proof using Hd.
  intros Hd' Hall Hall' Ha Hb Hx Hr j.
  assert (Hin : ∀ dp, dp ∈ all_dps d' ↔ dp ∈ r1 ++ r2 ∨ dp ∈ b)
    by (intros dp; rewrite Hall', !elem_of_app; tauto).
  assert (Hin0 : ∀ dp, dp ∈ all_dps d ↔ dp ∈ r1 ++ r2 ∨ dp ∈ a)
    by (intros dp; rewrite Hall, !elem_of_app; tauto).
  eapply record_of_ext; [done| |].
  - intros dp. destruct (Z.eqb_spec j i) as [->|]; [apply Hx|].
    intros Hdp. by apply (record_of_spec _ _ _ Hd) in Hdp as [_ ?].
  - intros dp Hdp. rewrite Hin. destruct (Z.eqb_spec j i) as [->|Hj].
    + rewrite Hb. split; [|by right]. intros [Hdp'|?]; [|done]. by apply Hr in Hdp'.
    + rewrite (record_of_spec _ _ _ Hd), Hin0. split.
      * intros [?|Hbx]; [tauto|]. apply Hb, Hx in Hbx. congruence.
      * intros [[?|Hax] _]; [by left|]. apply Ha in Hax. congruence.
Qed.

Context (i : Z).

(** [*it = dp'] *)
Lemma dls_replace dp dp' q v k :
  (m_downloads d)⟦q⟧ = Some v → v⟦k⟧ = Some dp → dp_index dp = i →
  dp_index dp' = i → info_idx dp' = info_idx dp →
  ∃ v' D, v⟦k := dp'⟧ = Some v' ∧ (m_downloads d)⟦q := v'⟧ = Some D ∧
    dls_ok n st (set_queues D d) ∧
    ∀ j, record_of (set_queues D d) j = if j =? i then Some dp' else record_of d j.
Proof using Hd.
  intros Hq Hk Hi Hi' Hinfo. pose proof (dk_ordered _ _ _ Hd _ _ Hq) as Hord.
  destruct (ordered_replace v k dp dp' Hord Hk) as (v' & l1 & l2 & Hset & Hord' & Hv & Hv');
    [congruence|].
  destruct (vset_is_Some (m_downloads d) q v') as [D HD]; [by eapply vget_Some_range|].
  exists v', D. split; [done|]. split; [done|].
  destruct (concat_vset _ _ _ _ _ l1 l2 [dp] [dp'] Hq HD Hv Hv') as (r1 & r2 & Hall & Hall').
  pose proof (λ q', set_queues_get _ _ _ q' HD) as Hget.
  assert (Hsl : slices (set_queues D d) = slices d).
  { unfold slices, all_dps. cbn. rewrite Hall, Hall', !map_app. cbn. by rewrite Hinfo. }
  assert (Hok : dls_ok n st (set_queues D d)).
  { destruct Hd as [H1 H2 H3 H4 H5 H6 H7]. split; rewrite ?Hsl; try done.
    - cbn. by rewrite (vset_size _ _ _ _ HD).
    - intros q' w. rewrite Hget. destruct (q' =? q); [by intros [= <-]|by apply H2].
    - intros q' w a. rewrite Hget. destruct (Z.eqb_spec q' q) as [->|]; [|apply H3].
      intros [= <-] Ha. rewrite Hv' in Ha.
      assert (a ∈ v ∨ a = dp') as [Hav| ->] by (rewrite Hv; set_solver).
      + by apply (H3 q v).
      + rewrite Hi', <-Hi. apply (H3 q v dp Hq). rewrite Hv. set_solver.
    - intros j c Hj Hc. destruct (H4 j c Hj Hc) as (a & Ha & Haj).
      unfold all_dps in *. cbn. rewrite Hall in Ha. rewrite Hall'.
      assert (a = dp ∨ a ∈ r1 ++ [dp'] ++ r2) as [-> |?] by set_solver; [|by exists a].
      exists dp'. split; [set_solver|congruence]. }
  split; [done|]. eapply (record_of_surgery _ _ i [dp] [dp'] r1 r2); try done.
  - intros a. rewrite list_elem_of_singleton. by intros ->.
  - intros a. rewrite list_elem_of_singleton. split; [by intros ->|by intros [= ->]].
  - by intros a [= <-].
  - intros a Ha. rewrite <-Hi. by eapply others_differ.
Qed.

(** [v.erase(it)] *)
Lemma dls_erase dp q v k :
  (m_downloads d)⟦q⟧ = Some v → v⟦k⟧ = Some dp → dp_index dp = i →
  ∃ v' D, verase v k = Some v' ∧ (m_downloads d)⟦q := v'⟧ = Some D ∧
    dls_ok n (set_state st i piece_open) (set_queues D d) ∧
    (info_idx dp ∉ slices (set_queues D d)) ∧
    ∀ j, record_of (set_queues D d) j = if j =? i then None else record_of d j.
Proof using Hd.
  intros Hq Hk Hi. pose proof (dk_ordered _ _ _ Hd _ _ Hq) as Hord.
  destruct (ordered_erase v k dp Hord Hk) as (v' & l1 & l2 & Hset & Hord' & Hv & Hv').
  destruct (vset_is_Some (m_downloads d) q v') as [D HD]; [by eapply vget_Some_range|].
  exists v', D. split; [done|]. split; [done|].
  destruct (concat_vset _ _ _ _ _ l1 l2 [dp] [] Hq HD Hv Hv') as (r1 & r2 & Hall & Hall').
  pose proof (λ q', set_queues_get _ _ _ q' HD) as Hget.
  assert (Hne : ∀ a, a ∈ r1 ++ r2 → dp_index a ≠ i)
    by (intros a Ha; rewrite <-Hi; by eapply others_differ).
  assert (Hsl : slices d ≡ₚ info_idx dp :: slices (set_queues D d)).
  { unfold slices, all_dps. cbn. rewrite Hall, Hall', !map_app. cbn.
    rewrite <-!(assoc_L (++)). cbn. by rewrite <-Permutation_middle. }
  assert (Hnd : NoDup (info_idx dp :: slices (set_queues D d)))
    by (rewrite <-Hsl; apply (dk_slices _ _ _ Hd)).
  apply list.NoDup_cons in Hnd as [Hout Hnd].
  assert (Hok : dls_ok n (set_state st i piece_open) (set_queues D d)).
  { destruct Hd as [H1 H2 H3 H4 H5 H6 H7]. split; try done.
    - cbn. by rewrite (vset_size _ _ _ _ HD).
    - intros q' w. rewrite Hget. destruct (q' =? q); [by intros [= <-]|by apply H2].
    - intros q' w a Hw Ha. assert (Hin : a ∈ r1 ++ r2).
      { change (a ∈ r1 ++ [] ++ r2). rewrite <-Hall'. apply (elem_of_all_dps (set_queues D d)).
        eauto. }
      unfold set_state. destruct (Z.eqb_spec (dp_index a) i) as [E|_]; [by apply Hne in Hin|].
      rewrite Hget in Hw. destruct (Z.eqb_spec q' q) as [->|]; [|by apply (H3 q' w)].
      injection Hw as <-. apply (H3 q v a Hq). rewrite Hv. set_solver.
    - intros j c. unfold set_state. destruct (Z.eqb_spec j i) as [->|Hj]; [by intros [= <-]|].
      intros Hc Ho. destruct (H4 j c Hc Ho) as (a & Ha & Haj). exists a. split; [|done].
      unfold all_dps in *. cbn. rewrite Hall in Ha. rewrite Hall'.
      assert (a = dp ∨ a ∈ r1 ++ [] ++ r2) as [-> |?] by set_solver; [congruence|done].
    - intros x Hx. apply H6. rewrite Hsl. by right. }
  split; [done|]. split; [done|]. eapply (record_of_surgery _ _ i [dp] [] r1 r2); try done.
  - intros a. rewrite list_elem_of_singleton. by intros ->.
  - intros a. rewrite elem_of_nil. by split.
Qed.

(** [v.insert(lower_bound(...), dp)] *)
Lemma dls_insert dp c q v :
  (m_downloads d)⟦q⟧ = Some v → queue_number c = q → st i = Some piece_open → dp_index dp = i →
  info_idx dp ∉ slices d → 0 ≤ info_idx dp → (info_idx dp + 1) * n ≤ vsize (m_block_info d) →
  ∃ v' D, vinsert v (lower_bound v i) dp = Some v' ∧ (m_downloads d)⟦q := v'⟧ = Some D ∧
    v'⟦lower_bound v i⟧ = Some dp ∧
    dls_ok n (set_state st i c) (set_queues D d) ∧
    ∀ j, record_of (set_queues D d) j = if j =? i then Some dp else record_of d j.
Proof using Hd.
  intros Hq Hc Hst Hi Hout Hpos Hroom. pose proof (dk_ordered _ _ _ Hd _ _ Hq) as Hord.
  assert (Hnone : ∀ a, a ∈ all_dps d → dp_index a ≠ i).
  { intros a Ha Hai. assert (record_of d i = Some a) by by apply (record_of_spec _ _ _ Hd).
    pose proof (proj2 (record_of_state _ _ _ Hd _ _ Hst) eq_refl). congruence. }
  destruct (ordered_insert v dp Hord) as (v' & Hset & Hord' & Hk & l1 & l2 & Hv & Hv').
  { intros b Hb. rewrite Hi. apply Hnone. apply elem_of_all_dps. eauto. }
  rewrite Hi in Hset, Hk.
  destruct (vset_is_Some (m_downloads d) q v') as [D HD]; [by eapply vget_Some_range|].
  exists v', D. split; [done|]. split; [done|]. split; [done|].
  destruct (concat_vset _ _ _ _ _ l1 l2 [] [dp] Hq HD Hv Hv') as (r1 & r2 & Hall & Hall').
  cbn in Hall. pose proof (λ q', set_queues_get _ _ _ q' HD) as Hget.
  assert (Hsl : slices (set_queues D d) ≡ₚ info_idx dp :: slices d).
  { unfold slices, all_dps. cbn. rewrite Hall, Hall', !map_app. cbn.
    rewrite <-!(assoc_L (++)). cbn. by rewrite <-Permutation_middle. }
  assert (Hok : dls_ok n (set_state st i c) (set_queues D d)).
  { destruct Hd as [H1 H2 H3 H4 H5 H6 H7]. split; try done.
    - cbn. by rewrite (vset_size _ _ _ _ HD).
    - intros q' w. rewrite Hget. destruct (q' =? q); [by intros [= <-]|by apply H2].
    - intros q' w a Hw Ha. unfold set_state. destruct (Z.eqb_spec (dp_index a) i) as [E|E].
      + rewrite Hget in Hw. destruct (Z.eqb_spec q' q) as [->|]; [by exists c|].
        exfalso. apply (Hnone a); [|done]. apply elem_of_all_dps. eauto.
      + rewrite Hget in Hw. destruct (Z.eqb_spec q' q) as [->|]; [|by apply (H3 q' w)].
        injection Hw as <-. apply (H3 q v a Hq). rewrite Hv. rewrite Hv' in Ha.
        assert (a = dp ∨ a ∈ l1 ++ l2) as [-> |?] by set_solver; [congruence|done].
    - intros j c' Hj Ho. unfold all_dps. cbn. rewrite Hall'. unfold set_state in Hj.
      destruct (Z.eqb_spec j i) as [->|Hji]; [exists dp; set_solver|].
      destruct (H4 j c' Hj Ho) as (a & Ha & Haj). exists a. split; [|done].
      unfold all_dps in Ha. rewrite Hall in Ha. set_solver.
    - rewrite Hsl. apply list.NoDup_cons. done.
    - intros x. rewrite Hsl, elem_of_cons. intros [->|Hx]; [done|by apply H6]. }
  split; [done|]. eapply (record_of_surgery _ _ i [] [dp] r1 r2); try done.
  - intros a Ha. by apply elem_of_nil in Ha.
  - intros a. rewrite list_elem_of_singleton. split; [by intros ->|by intros [= ->]].
  - by intros a [= <-].
  - intros a Ha. apply Hnone. unfold all_dps. by rewrite Hall.
Qed.
End change.

(** ** Slices *)

Section slices.
Context (n : Z) (st : Z → option download_queue_t) (D : list (list downloading_piece)).

(** writing to blocks *)
Lemma dls_blocks b b' f :
  dls_ok n st (Downloads D b f) → vsize b' = vsize b → dls_ok n st (Downloads D b' f).
Proof. intros [H1 H2 H3 H4 H5 H6 H7] Hb. split; cbn in *; rewrite ?Hb; done. Qed.

(** a slice is released *)
Lemma dls_release b f x :
  dls_ok n st (Downloads D b f) → x ∉ slices (Downloads D b f) → 0 ≤ x → (x + 1) * n ≤ vsize b →
  dls_ok n st (Downloads D b (f ++ [x])).
Proof.
  intros [H1 H2 H3 H4 H5 H6 H7] Hout Hx Hroom.
  assert (Hsl : slices (Downloads D b (f ++ [x])) ≡ₚ x :: slices (Downloads D b f)).
  { unfold slices. cbn. by rewrite (assoc_L (++)), (comm (++) _ [x]). }
  split; try done.
  - rewrite Hsl. by apply list.NoDup_cons.
  - intros y. rewrite Hsl, elem_of_cons. intros [->|Hy]; [done|by apply H6].
Qed.

(** the last slice that was released is taken again *)
Lemma dls_take b f x :
  dls_ok n st (Downloads D b (f ++ [x])) →
  dls_ok n st (Downloads D b f) ∧ (x ∉ slices (Downloads D b f)) ∧ 0 ≤ x ∧ (x + 1) * n ≤ vsize b.
Proof.
  intros [H1 H2 H3 H4 H5 H6 H7].
  assert (Hsl : slices (Downloads D b (f ++ [x])) ≡ₚ x :: slices (Downloads D b f)).
  { unfold slices. cbn. by rewrite (assoc_L (++)), (comm (++) _ [x]). }
  rewrite Hsl in H5. apply list.NoDup_cons in H5 as [Hout Hnd].
  split; [|split; [done|apply H6; rewrite Hsl; left]].
  split; try done. intros y Hy. apply H6. rewrite Hsl. by right.
Qed.

(** a new slice at the end *)
Lemma dls_allocate b f (b' : list block_info) :
  0 < n → dls_ok n st (Downloads D b f) → vsize b' = n →
  let x := Z.quot (vsize b) n in
  dls_ok n st (Downloads D (b ++ b') f) ∧ (x ∉ slices (Downloads D (b ++ b') f)) ∧ 0 ≤ x ∧
  (x + 1) * n ≤ vsize (b ++ b').
Proof.
  intros Hn [H1 H2 H3 H4 H5 H6 [k Hk]] Hb' x. cbn in *.
  assert (Hx : x = k) by (unfold x; rewrite Hk; by apply Z.quot_mul; lia).
  pose proof (vsize_nonneg b). rewrite vsize_app, Hb', Hx.
  split; [|split; [|split; nia]].
  - split; try done; cbn; rewrite vsize_app, Hb'.
    + intros y Hy. specialize (H6 y Hy). lia.
    + exists (k + 1). lia.
  - intros Hin. specialize (H6 k Hin). lia.
Qed.
End slices.
