(* ===== verification/PickerSteps.v ===== *)
(** What a step changes of a picker and what it leaves as it is, and the steps
    that the operations on download queues are made of. *)

From stdpp Require Import gmap.
From S2P Require Import Prelude.
From stdpp Require Import list.
From S2P Require Import Random.
From S2P Require Import PiecePicker.
From S2P Require Import PickerBuckets.
From S2P Require Import PickerRebuild.
From S2P Require Import PickerState.
From S2P Require Import PickerOps.
From S2P Require Import PickerBlocks.
From S2P Require Import PickerInv.
From S2P Require Import PickerAvail.
From S2P Require Import PickerDls.

Open Scope Z_scope.

Section views.
Context {R : StdRandom} {Rok : StdRandomOk R}.

(** * Views *)

(** the number of blocks in pieces *)
Record sizes_ok (s : picker) : Prop := {
  sz_blocks : 0 < m_blocks_per_piece s ≤ max_blocks_per_piece;
  sz_last : 0 < m_blocks_in_last_piece s ≤ m_blocks_per_piece s
}.

Record queues_ok (s : picker) : Prop := {
  qs_sizes : sizes_ok s;
  qs_dls : dls_ok (m_blocks_per_piece s) (queue_of (pieces s)) (dls s)
}.

Definition view_of (n len : Z) (d : downloads) (i : Z)
    : option (downloading_piece * list block_info) :=
  dp ← record_of d i; Some (dp, blocks_of n len d dp).

Definition view (s : picker) (i : Z) : option (downloading_piece * list block_info) :=
  view_of (m_blocks_per_piece s) (blocks_in_piece i s) (dls s) i.

(** an iterator to the record of piece [i] *)
Definition it_at (it : dl_iterator) (i : Z) (s : picker) : Prop :=
  ∃ c v dp, queue_of (pieces s) i = Some c ∧ it_queue it = queue_number c ∧
    queue (it_queue it) s = Some v ∧ v⟦it_pos it⟧ = Some dp ∧ dp_index dp = i.

(** only the downloads have changed, and only the view of piece [i] *)
Record touched (i : Z) (s s' : picker) : Prop := {
  tc_rest : s' = set_dls (dls s') s;
  tc_queues : queues_ok s';
  tc_frame : ∀ j, j ≠ i → view s' j = view s j
}.

Lemma touched_trans i s1 s2 s3 : touched i s1 s2 → touched i s2 s3 → touched i s1 s3.
Proof.
  intros [R1 Q1 F1] [R2 Q2 F2]. split; [|done|].
  - etransitivity; [exact R2|]. by rewrite R1.
  - intros j Hj. by rewrite F2, F1.
Qed.

Lemma blocks_in_piece_range i s : sizes_ok s → 0 < blocks_in_piece i s ≤ m_blocks_per_piece s.
Proof. intros [? ?]. unfold blocks_in_piece. destruct (_ =? _); lia. Qed.

Section piece.
Context (s : picker) (Hs : queues_ok s) (i : Z) (dp : downloading_piece) (bs : list block_info).
Context (Hview : view s i = Some (dp, bs)).

Lemma view_record : record_of (dls s) i = Some dp.
Proof using Hview.
  unfold view, view_of in Hview. destruct (record_of (dls s) i) as [a|]; [|done].
  by injection Hview as -> _.
Qed.

Lemma view_index : dp_index dp = i.
Proof using Hs Hview. by apply (record_of_spec _ _ _ (qs_dls s Hs)), view_record. Qed.

Lemma view_blocks : bs = slice (m_block_info (dls s)) (info_idx dp * m_blocks_per_piece s)
  (blocks_in_piece i s).
Proof using Hview.
  pose proof view_record as Hr. unfold view, view_of in Hview. rewrite Hr in Hview.
  by injection Hview as <-.
Qed.

Lemma view_room : 0 ≤ info_idx dp ∧
  info_idx dp * m_blocks_per_piece s + m_blocks_per_piece s ≤ vsize (m_block_info (dls s)).
Proof using Hs Hview.
  pose proof (record_slice _ _ _ (qs_dls s Hs) _ _ view_record) as Hin.
  pose proof (dk_room _ _ _ (qs_dls s Hs) _ Hin). lia.
Qed.

Lemma view_size : vsize bs = blocks_in_piece i s.
Proof using Hs Hview.
  rewrite view_blocks. pose proof view_room. destruct Hs as [Hz _].
  pose proof (blocks_in_piece_range i s Hz). pose proof (sz_blocks s Hz).
  apply slice_size; nia.
Qed.

(** ** Reading *)

Lemma blocks_for_piece_view :
  blocks_for_piece dp s = Some (info_idx dp * m_blocks_per_piece s, blocks_in_piece i s).
Proof using Hs Hview.
  unfold blocks_for_piece. rewrite view_index. pose proof view_room.
  pose proof (sz_blocks s (qs_sizes s Hs)).
  destruct (vget_is_Some (m_block_info (dls s)) (info_idx dp * m_blocks_per_piece s)) as [x ->];
    [nia|done].
Qed.

Lemma get_block_view j :
  get_block (info_idx dp * m_blocks_per_piece s, blocks_in_piece i s) j s = bs⟦j⟧.
Proof using Hs Hview.
  unfold get_block. cbn. destruct (Z.leb_spec 0 j), (Z.ltb_spec j (blocks_in_piece i s)); cbn.
  2-4: by rewrite vget_None by (rewrite view_size; lia).
  rewrite view_blocks. pose proof view_room. pose proof (sz_blocks s (qs_sizes s Hs)).
  by rewrite slice_get by nia.
Qed.

Lemma find_dl_piece_view p :
  piece_map i s = Some p →
  ∃ it, find_dl_piece (queue_number (download_queue p)) i s = Some it ∧ it_at it i s.
Proof using Hs Hview.
  intros Hp. assert (Hq : queue_of (pieces s) i = Some (download_queue p))
    by (unfold queue_of, pieces; unfold piece_map in Hp; by rewrite Hp).
  destruct (record_of_loc _ _ _ (qs_dls s Hs) i _ dp Hq view_record) as (v & k & Hv & Hk & Hlb).
  pose proof (vget_Some_range _ _ _ Hk). pose proof view_index as Hi.
  unfold find_dl_piece, queue. rewrite Hv. cbn [mbind option_bind]. rewrite Hlb.
  destruct (Z.eqb_spec k (vsize v)); [lia|]. rewrite Hk. cbn [mbind option_bind].
  rewrite Hi, Z.eqb_refl. eexists. split; [done|]. exists (download_queue p), v, dp. done.
Qed.

Lemma deref_view it : it_at it i s → deref it s = Some dp.
Proof using Hs Hview.
  intros (c & v & a & _ & _ & Hv & Hk & Hi). unfold deref. rewrite Hv. cbn. rewrite Hk.
  f_equal. eapply (dps_unique _ _ _ (qs_dls s Hs)); [| |by rewrite view_index].
  - apply elem_of_all_dps. exists (it_queue it), v. split; [done|]. by eapply vget_elem_of.
  - eapply (record_of_spec _ _ _ (qs_dls s Hs)). apply view_record.
Qed.

Lemma is_end_view it : it_at it i s → is_end it s = Some false.
Proof using.
  intros (c & v & a & _ & _ & Hv & Hk & Hi). unfold is_end. rewrite Hv. cbn.
  apply vget_Some_range in Hk. f_equal. apply Z.eqb_neq. lia.
Qed.

(** ** Writing *)

Lemma wp_update_dl it f (Q : unit → picker → Prop) :
  it_at it i s → dp_index (f dp) = dp_index dp → info_idx (f dp) = info_idx dp →
  (∀ s', touched i s s' → view s' i = Some (f dp, bs) → it_at it i s' → Q tt s') →
  wp (update_dl it f) s Q.
Proof using Hs Hview.
  intros Hit Hfi Hinfo HQ. pose proof (deref_view it Hit) as Hdp.
  destruct Hit as (c & v & a & Hc & Hq & Hv & Hk & Hi).
  assert (a = dp) as ->.
  { unfold deref in Hdp. rewrite Hv in Hdp. cbn in Hdp. rewrite Hk in Hdp. by injection Hdp. }
  destruct (dls_replace _ _ _ (qs_dls s Hs) i dp (f dp) _ v (it_pos it) Hv Hk Hi)
    as (v' & D & Hset & HD & Hok & Hrec); [congruence|done|].
  unfold update_dl, wp, reads, mbind, M_bind. rewrite Hdp. cbn. rewrite Hv. cbn. rewrite Hset. cbn.
  unfold set_queue. rewrite HD. cbn. eexists tt, _. split; [done|].
  fold (set_queues D (dls s)). set (s' := set_dls (set_queues D (dls s)) s).
  assert (Hview' : ∀ j, view s' j = if j =? i then Some (f dp, bs) else view s j).
  { intros j. unfold view, view_of. change (dls s') with (set_queues D (dls s)). rewrite Hrec.
    destruct (Z.eqb_spec j i) as [->|]; [|done]. cbn. do 2 f_equal. rewrite view_blocks.
    unfold blocks_of. by rewrite Hinfo. }
  apply HQ.
  - split; [done|split; [by destruct (qs_sizes s Hs)|exact Hok]|]. intros j Hj. rewrite Hview'.
    by destruct (Z.eqb_spec j i).
  - by rewrite Hview', Z.eqb_refl.
  - exists c, v', (f dp). split; [done|]. split; [done|]. split; [|split; [|congruence]].
    + unfold queue. cbn. rewrite (vset_get _ _ _ _ _ HD). by rewrite Z.eqb_refl.
    + rewrite (vset_get _ _ _ _ _ Hset). by rewrite Z.eqb_refl.
Qed.

Lemma wp_set_block j x (Q : unit → picker → Prop) :
  0 ≤ j < vsize bs →
  (∀ s' bs', bs⟦j := x⟧ = Some bs' → touched i s s' → view s' i = Some (dp, bs') →
     (∀ it, it_at it i s → it_at it i s') → Q tt s') →
  wp (set_block (info_idx dp * m_blocks_per_piece s, blocks_in_piece i s) j x) s Q.
Proof using Hs Hview.
  intros Hj HQ. pose proof view_room as Hroom. pose proof (sz_blocks s (qs_sizes s Hs)) as Hn.
  rewrite view_size in Hj. pose proof (blocks_in_piece_range i s (qs_sizes s Hs)) as Hlen.
  set (idx := info_idx dp * m_blocks_per_piece s) in *.
  destruct (vset_is_Some (m_block_info (dls s)) (idx + j) x) as [b Hb]; [nia|].
  unfold wp, set_block, guard_b. cbn [fst snd].
  replace ((0 <=? j) && (j <? blocks_in_piece i s)) with true
    by (symmetry; apply andb_true_intro; split; lia).
  cbn [mbind option_bind]. rewrite Hb. cbn [mbind option_bind].
  eexists tt, _. split; [done|]. set (s' := set_block_info b s).
  pose proof (slice_vset_in _ _ idx (blocks_in_piece i s) j x ltac:(nia) Hj Hb) as Hset.
  replace (slice (m_block_info (dls s)) idx _) with bs in Hset by apply view_blocks.
  assert (Hok : queues_ok s').
  { split; [by destruct (qs_sizes s Hs)|]. eapply dls_blocks; [|by eapply vset_size].
    pose proof (qs_dls s Hs) as H. by destruct (dls s). }
  eapply HQ; [exact Hset| | |].
  - split; [done|done|]. intros k Hk. unfold view, view_of.
    change (record_of (dls s') k) with (record_of (dls s) k).
    destruct (record_of (dls s) k) as [a|] eqn:Ha; [|done]. cbn. do 2 f_equal.
    unfold blocks_of. cbn. pose proof (slices_differ _ _ _ (qs_dls s Hs) _ _ _ _ view_record Ha).
    pose proof (record_slice _ _ _ (qs_dls s Hs) _ _ Ha) as Hin.
    pose proof (dk_room _ _ _ (qs_dls s Hs) _ Hin).
    pose proof (blocks_in_piece_range k s (qs_sizes s Hs)).
    assert (info_idx a ≠ info_idx dp) by (apply not_eq_sym; eauto).
    eapply slice_vset_out; [| | |exact Hb]; [nia|change (blocks_in_piece k s') with (blocks_in_piece k s); lia|].
    change (blocks_in_piece k s') with (blocks_in_piece k s).
    unfold idx. destruct (Z.lt_total (info_idx a) (info_idx dp)) as [?|[?|?]]; [right|done|left]; nia.
  - unfold view, view_of. change (record_of (dls s') i) with (record_of (dls s) i).
    rewrite view_record. reflexivity.
  - intros it (c & v & a & H). by exists c, v, a.
Qed.
End piece.
End views.

(** * Counting blocks *)

Fixpoint count (st : block_state) (bs : list block_info) : Z :=
  match bs with
  | [] => 0
  | b :: bs => Z.b2z (bool_decide (bstate b = st)) + count st bs
  end.

Lemma count_range st bs : 0 ≤ count st bs ≤ vsize bs.
Proof.
  induction bs as [|b bs IH]; [done|]. rewrite vsize_cons. cbn [count].
  destruct (bool_decide _); cbn [Z.b2z]; lia.
Qed.

Lemma count_app st bs bs' : count st (bs ++ bs') = count st bs + count st bs'.
Proof. induction bs as [|b bs IH]; cbn; [done|]. rewrite IH. lia. Qed.

(** a block changes *)
Lemma count_vset st bs j b x bs' :
  bs⟦j⟧ = Some b → bs⟦j := x⟧ = Some bs' →
  count st bs' = count st bs - Z.b2z (bool_decide (bstate b = st))
                 + Z.b2z (bool_decide (bstate x = st)).
Proof.
  intros Hb Hx. pose proof (vget_Some_range _ _ _ Hb) as Hr.
  destruct (vget_erase bs j Hr) as (b' & Hb' & Hsplit). rewrite Hb in Hb'. injection Hb' as <-.
  apply vset_split in Hx. rewrite Hx. rewrite Hsplit at 3. rewrite !count_app. cbn [count]. lia.
Qed.

(** every block is in one of the four states *)
Lemma count_sum bs :
  count state_none bs + count state_requested bs + count state_writing bs +
  count state_finished bs = vsize bs.
Proof.
  induction bs as [|b bs IH]; [done|]. rewrite vsize_cons. cbn [count].
  destruct b as [? ? []]; cbn [bstate]; repeat case_bool_decide; try done; cbn [Z.b2z]; lia.
Qed.

Lemma count_pos st bs j b : bs⟦j⟧ = Some b → bstate b = st → 0 < count st bs.
Proof.
  intros Hb Hst. pose proof (vget_Some_range _ _ _ Hb) as Hr.
  destruct (vget_erase bs j Hr) as (b' & Hb' & ->). rewrite Hb in Hb'. injection Hb' as <-.
  rewrite count_app. cbn [count]. rewrite bool_decide_eq_true_2 by done.
  pose proof (count_range st (take (Z.to_nat j) bs)).
  pose proof (count_range st (drop (S (Z.to_nat j)) bs)). cbn [Z.b2z]. lia.
Qed.

(** * Pieces without their slots *)

Definition norm (p : piece_pos) : piece_pos := with_index p (if have p then we_have_index else 0).

Lemma have_norm p : have (norm p) = have p.
Proof. unfold norm. unfold have at 1. cbn. by destruct (have p). Qed.

Lemma norm_moved p t : t = index p ∨ (0 ≤ t ∧ index p ≠ -1) → norm (with_index p t) = norm p.
Proof.
  intros Ht. unfold norm. replace (have (with_index p t)) with (have p); [done|].
  unfold have, we_have_index. cbn. destruct Ht as [->|[]]; [done|].
  rewrite !(proj2 (Z.eqb_neq _ _)); lia.
Qed.

Lemma norm_norm p : norm (norm p) = norm p.
Proof. unfold norm at 1. rewrite have_norm. by unfold norm. Qed.

Lemma priority_norm seeds p : priority seeds (norm p) = priority seeds p.
Proof. unfold priority. rewrite have_norm. done. Qed.

Section steps.
Context {R : StdRandom} {Rok : StdRandomOk R}.

Definition seen (s : picker) (i : Z) : option piece_pos := norm <$> piece_map i s.

Lemma seen_Some s i q : seen s i = Some q → ∃ p, piece_map i s = Some p ∧ norm p = q.
Proof. unfold seen. destruct (piece_map i s); [intros [= <-]; eauto|done]. Qed.

Lemma seen_moved m m' j : moved m m' → norm <$> m'⟦j⟧ = norm <$> m⟦j⟧.
Proof.
  intros [Hs Hm]. destruct (m⟦j⟧) as [p|] eqn:Hp.
  - destruct (Hm j p Hp) as (t & -> & Ht). cbn. by rewrite norm_moved.
  - rewrite vget_None; [done|]. rewrite Hs. intros Hr.
    destruct (vget_is_Some m j Hr). congruence.
Qed.

(** the members other than the pieces, their list and the downloads *)
Record env_eq (s s' : picker) : Prop := {
  ev_dirty : m_dirty s' = m_dirty s;
  ev_seeds : m_seeds s' = m_seeds s;
  ev_tal : tal s' = tal s;
  ev_cursor : m_cursor s' = m_cursor s;
  ev_reverse_cursor : m_reverse_cursor s' = m_reverse_cursor s;
  ev_pad_blocks : m_pad_blocks s' = m_pad_blocks s;
  ev_pads : m_pads_in_piece s' = m_pads_in_piece s;
  ev_extents : m_recent_extents s' = m_recent_extents s;
  ev_blocks : m_blocks_per_piece s' = m_blocks_per_piece s;
  ev_last : m_blocks_in_last_piece s' = m_blocks_in_last_piece s;
  ev_size : num_pieces s' = num_pieces s
}.

#[global] Instance env_eq_refl : Reflexive env_eq.
Proof. by split. Qed.

#[global] Instance env_eq_trans : Transitive env_eq.
Proof. intros s1 s2 s3 [] []. split; congruence. Qed.

Lemma env_eq_rest s s' :
  rest_eq s s' → m_seeds s' = m_seeds s → m_dirty s' = m_dirty s → num_pieces s' = num_pieces s →
  env_eq s s'.
Proof. intros [] ? ? ?. by split. Qed.

Lemma list_ok_dls s d : list_ok s → list_ok (set_dls d s).
Proof. intros [H1 H2 H3 H4 H5 H6]. by split. Qed.

Lemma list_ok_env s s' :
  list_ok s → lay s' = lay s → m_dirty s' = m_dirty s → m_seeds s' = m_seeds s → list_ok s'.
Proof.
  intros [H1 H2 H3 H4 Hmono H5] Hl Hd Hseeds. unfold num_pieces, pieces in *.
  split; unfold num_pieces, pieces; rewrite ?Hl, ?Hd, ?Hseeds; done.
Qed.

(** ** The queues after the pieces have moved in the list *)

Lemma queue_of_norm m i : queue_of m i = download_queue <$> (norm <$> m⟦i⟧).
Proof. unfold queue_of. by destruct (m⟦i⟧). Qed.

Lemma queue_of_seen s i : queue_of (pieces s) i = download_queue <$> seen s i.
Proof. apply queue_of_norm. Qed.

Lemma view_eq s s' j :
  dls s' = dls s → m_blocks_per_piece s' = m_blocks_per_piece s →
  m_blocks_in_last_piece s' = m_blocks_in_last_piece s → num_pieces s' = num_pieces s →
  view s' j = view s j.
Proof. intros Hd Hn Hl Hs. unfold view, blocks_in_piece. by rewrite Hd, Hn, Hl, Hs. Qed.

Lemma queues_ok_eq s s' :
  queues_ok s → env_eq s s' → dls s' = dls s → (∀ j, seen s' j = seen s j) →
  queues_ok s' ∧ ∀ j, view s' j = view s j.
Proof.
  intros [[Hz1 Hz2] Hok] He Hd Hseen. split; [|intros j; destruct He; by apply view_eq].
  split; [destruct He; split; congruence|]. rewrite Hd, (ev_blocks _ _ He).
  eapply dls_ok_ext; [exact Hok|]. intros i. by rewrite !queue_of_seen, Hseen.
Qed.

(** ** The list after the entry of a piece has changed *)

(** everything is as in [s], but for piece [i], seen as [p'], and the
    downloads, which are [d] *)
Record reseen (i : Z) (p' : piece_pos) (d : downloads) (s s' : picker) : Prop := {
  rn_env : env_eq s s';
  rn_list : list_ok s';
  rn_dls : dls s' = d;
  rn_seen : ∀ j, seen s' j = if j =? i then Some (norm p') else seen s j
}.

Section settle.
Context (s : picker) (Hs : list_ok s) (i : Z) (p p' : piece_pos) (m : list piece_pos)
  (d : downloads).
Context (Hp : piece_map i s = Some p) (Hch : changed (pieces s) m i p').
Context (Hok : piece_ok p') (Hidx : index p' = index p).

(** the state in which the list is put in order *)
Definition unsettled : picker := set_lay (set_map (lay s) m) (set_dls d s).

Lemma reseen_after_change s' : after_change (set_dls d s) m s' → reseen i p' d s s'.
Proof using Hch.
  intros (Hl & Hmv & Hr & Hseeds & Hd). split; [|done|by destruct Hr|].
  - assert (env_eq (set_dls d s) s') as [].
    { apply env_eq_rest; [done|done|done|]. destruct Hmv as [Hms _], Hch as [Hcs _].
      unfold num_pieces, pieces in *. cbn in *. congruence. }
    by split.
  - intros j. change (seen s' j) with (norm <$> (pieces s')⟦j⟧). rewrite (seen_moved _ _ _ Hmv).
    destruct Hch as [_ ->]. by destruct (j =? i).
Qed.

Lemma wp_settle_seen (Q : unit → picker → Prop) :
  (∀ s', reseen i p' d s s' → Q tt s') → wp (settle i (priority (m_seeds s) p)) unsettled Q.
Proof using Hs Hp Hch Hok Hidx Rok.
  intros HQ. apply (wp_settle (set_dls d s) i p p' m); [by apply list_ok_dls|done..|].
  intros s' Hs'. by apply HQ, reseen_after_change.
Qed.

Lemma wp_update_if_listed_seen (Q : unit → picker → Prop) :
  (priority (m_seeds s) p = -1 → priority (m_seeds s) p' = -1) →
  (∀ s', reseen i p' d s s' → Q tt s') →
  wp (update_if_listed i (priority (m_seeds s) p)) unsettled Q.
Proof using Hs Hp Hch Hok Hidx Rok.
  intros Hlow HQ.
  apply (wp_update_if_listed (set_dls d s) i p p' m); [by apply list_ok_dls|done..|].
  intros s' Hs'. by apply HQ, reseen_after_change.
Qed.

(** the list is put in order whatever has happened to the priority *)
Lemma wp_relink (k : M unit) (Q : unit → picker → Prop) :
  (m_dirty s = true → k unsettled = Some (tt, unsettled)) →
  (m_dirty s = false → priority (m_seeds s) p = -1 → priority (m_seeds s) p' = -1 →
     k unsettled = Some (tt, unsettled)) →
  (m_dirty s = false → priority (m_seeds s) p = -1 → 0 ≤ priority (m_seeds s) p' →
     k unsettled = picker_add i unsettled) →
  (m_dirty s = false → 0 ≤ priority (m_seeds s) p →
     k unsettled = picker_update (priority (m_seeds s) p) (index p) unsettled) →
  (∀ s', reseen i p' d s s' → Q tt s') → wp k unsettled Q.
Proof using Hs Hp Hch Hok Hidx Rok.
  intros K1 K2 K3 K4 HQ. pose proof (lo_map s Hs i p Hp) as Hokp.
  pose proof (priority_bounds (m_seeds s) p Hokp) as Hb.
  pose proof (priority_bounds (m_seeds s) p' Hok) as Hb'.
  pose proof (list_ok_dls s d Hs) as Hs0.
  assert (Hsame : list_ok unsettled → Q tt unsettled).
  { intros Hl. apply HQ, reseen_after_change. split; [done|]. split; [done|]. by split. }
  assert (Hput : m_dirty s = false → relisted unsettled m Q).
  { intros Hd l' e' Hinv Hmv. apply HQ, reseen_after_change.
    split; [|split; [exact Hmv|by split]].
    apply (list_ok_relisted _ (lay s) m i p p'); done. }
  destruct (m_dirty s) eqn:Hd.
  { exists tt, unsettled. split; [by apply K1|]. apply Hsame.
    eapply (list_ok_same (set_dls d s)); try done. cbn. by rewrite Hd. }
  destruct (decide (priority (m_seeds s) p = -1)) as [Hlow|Hlow].
  - destruct (decide (priority (m_seeds s) p' = -1)) as [Hlow'|Hlow'].
    + exists tt, unsettled. split; [by apply K2|]. apply Hsame.
      eapply (list_ok_same (set_dls d s)); try done. intros _. cbn. split; [congruence|lia].
    + unfold wp. rewrite K3 by (done || lia).
      apply (wp_picker_add unsettled (lay s) m i p p'); try done; [apply Hs0|by apply (lo_listed _ Hs0)|cbn; lia|by apply Hput].
  - unfold wp. rewrite K4 by (done || lia).
    apply (wp_picker_update unsettled (lay s) m i p p'); try done;
      [apply Hs0|by apply (lo_listed _ Hs0)|cbn; lia|by apply Hput].
Qed.
End settle.

(** ** [erase_download_piece] *)

Lemma queue_of_changed m m' i p' j :
  changed m m' i p' → queue_of m' j = set_state (queue_of m) i (download_queue p') j.
Proof. intros [_ Hm]. unfold queue_of, set_state. rewrite Hm. by destruct (j =? i). Qed.

Lemma sizes_ok_unsettled s m d : sizes_ok s → sizes_ok (unsettled s m d).
Proof. by intros [H1 H2]. Qed.

Lemma view_unsettled s i p m d j :
  changed (pieces s) m i p → view (unsettled s m d) j = view_of (m_blocks_per_piece s) (blocks_in_piece j s) d j.
Proof.
  intros [Hm _]. unfold view, blocks_in_piece, num_pieces. cbn. by rewrite Hm.
Qed.

Lemma wp_erase_download_piece s it i p dp bs (Q : unit → picker → Prop) :
  queues_ok s → piece_map i s = Some p → view s i = Some (dp, bs) → it_at it i s →
  (∀ m d, changed (pieces s) m i (with_state p piece_open) → queues_ok (unsettled s m d) →
     view (unsettled s m d) i = None →
     (∀ j, j ≠ i → view (unsettled s m d) j = view s j) → Q tt (unsettled s m d)) →
  wp (erase_download_piece it) s Q.
Proof.
  intros Hs Hp Hv Hit HQ. unfold erase_download_piece.
  pose proof (view_index s Hs i dp bs Hv) as Hi. pose proof (view_record s i dp bs Hv) as Hr.
  pose proof (view_room s Hs i dp bs Hv) as [Hpos Hroom].
  wstep. { by eapply deref_view. } rewrite Hi. do 2 wstep.
  apply wp_bind. eapply wp_update_piece_pos; [exact Hp|]. intros m Hch.
  destruct Hit as (c & v & a & Hc & Hq & Hqv & Hk & Ha).
  assert (c = download_queue p) as ->.
  { unfold queue_of in Hc. change ((pieces s)⟦i⟧) with (piece_map i s) in Hc.
    rewrite Hp in Hc. by injection Hc. }
  assert (a = dp) as ->.
  { eapply (dps_unique _ _ _ (qs_dls s Hs)); [| |congruence].
    - apply elem_of_all_dps. exists (it_queue it), v. split; [done|]. by eapply vget_elem_of.
    - by apply (record_of_spec _ _ _ (qs_dls s Hs)) in Hr as [? _]. }
  apply wp_bind. apply wp_guard; [by apply Z.eqb_eq|]. rewrite <-Hq.
  destruct (dls_erase _ _ _ (qs_dls s Hs) i dp _ v _ Hqv Hk Hi)
    as (v' & D & Hset & HD & Hok & Hout & Hrec).
  apply wp_bind. eapply wp_reads; [exact Hqv|].
  apply wp_bind. eapply wp_reads; [exact Hset|].
  unfold wp, set_queue. cbn [dls set_lay set_dls m_downloads]. rewrite HD. cbn [mbind option_bind].
  eexists tt, _. split; [done|]. cbn [m_block_info m_free_block_infos].
  set (d := Downloads D (m_block_info (dls s)) (m_free_block_infos (dls s) ++ [info_idx dp])).
  assert (Hrec' : ∀ j, record_of d j = if j =? i then None else record_of (dls s) j)
    by exact Hrec.
  apply (HQ m d Hch).
  - split; [apply sizes_ok_unsettled, Hs|]. eapply dls_ok_ext.
    + apply dls_release; [exact Hok|exact Hout|done|].
      cbn. change (m_blocks_per_piece (unsettled s m d)) with (m_blocks_per_piece s). lia.
    + intros j. exact (queue_of_changed _ _ _ _ j Hch).
  - rewrite (view_unsettled s i _ m d i Hch). unfold view_of. by rewrite Hrec', Z.eqb_refl.
  - intros j Hj. rewrite (view_unsettled s i _ m d j Hch). unfold view_of. rewrite Hrec'.
    by destruct (Z.eqb_spec j i).
Qed.

(** ** [update_piece_state] *)

Definition blocks_used (dp : downloading_piece) : Z := requested dp + finished dp + writing dp.

(** the state a piece of [n] blocks should be in; [piece_open] when no block
    of it is in use *)
Definition next_state (n : Z) (p : piece_pos) (dp : downloading_piece) : download_queue_t :=
  if filtered p then piece_zero_prio
  else if blocks_used dp =? 0 then piece_open
  else if blocks_used dp <? n then
    (if reverse p then piece_downloading_reverse else piece_downloading)
  else if 0 <? requested dp then
    (if reverse p then piece_full_reverse else piece_full)
  else piece_finished.

(** the piece after [update_piece_state] *)
Definition restated (n : Z) (dp : downloading_piece) (p : piece_pos) : piece_pos :=
  if bool_decide (next_state n p dp = piece_open) then p else with_state p (next_state n p dp).

Lemma restated_same n dp p : next_state n p dp = download_state p → restated n dp p = p.
Proof. intros Hn. unfold restated. rewrite Hn. case_bool_decide; [done|]. by destruct p. Qed.

Lemma restated_ok n dp p : piece_ok p → piece_ok (restated n dp p).
Proof. unfold restated. by destruct (bool_decide _). Qed.

Lemma restated_index n dp p : index (restated n dp p) = index p.
Proof. unfold restated. by destruct (bool_decide _). Qed.

(** an iterator stays valid while only the list and slots change *)
Lemma it_at_reseen it i p d s s' j m :
  reseen i p d s s' → changed (pieces s) m i p → it_at it j (unsettled s m d) → it_at it j s'.
Proof.
  intros [He Hl Hd Hseen] [_ Hm] (c & v & a & Hc & Hq & Hv & Hk & Ha). exists c, v, a.
  split; [|split; [done|split; [|done]]].
  - rewrite <-Hc, queue_of_seen, Hseen, queue_of_norm. change (pieces (unsettled s m d)) with m.
    rewrite Hm. unfold seen. change ((pieces s)⟦j⟧) with (piece_map j s). by destruct (j =? i).
  - unfold queue in *. rewrite Hd. exact Hv.
Qed.

Lemma queues_ok_reseen i p d s s' m :
  reseen i p d s s' → changed (pieces s) m i p → queues_ok (unsettled s m d) →
  queues_ok s' ∧ ∀ j, view s' j = view (unsettled s m d) j.
Proof.
  intros [He Hl Hd Hseen] [Hms Hm] Hq.
  assert (He' : env_eq (unsettled s m d) s') by (destruct He; by split; [..|unfold num_pieces; cbn; unfold num_pieces, pieces in *; congruence]).
  apply (queues_ok_eq (unsettled s m d)); [done|done|exact Hd|].
  intros j. rewrite Hseen. unfold seen. change (piece_map j (unsettled s m d)) with (m⟦j⟧).
  rewrite Hm. change (piece_map j s) with ((pieces s)⟦j⟧). by destruct (j =? i).
Qed.

Lemma queue_number_range p :
  download_state p ≠ piece_open → 0 ≤ queue_number (download_queue p) < 4.
Proof. unfold download_queue. destruct (download_state p); done. Qed.

Lemma wp_update_piece_state s it i p dp bs (Q : dl_iterator → picker → Prop) :
  list_ok s → queues_ok s → piece_map i s = Some p → view s i = Some (dp, bs) → it_at it i s →
  (∀ it' s', let p' := restated (blocks_in_piece i s) dp p in
     env_eq s s' → list_ok s' → queues_ok s' → it_at it' i s' →
     (∀ j, seen s' j = if j =? i then Some (norm p') else seen s j) →
     (∀ j, view s' j = view s j) → Q it' s') →
  wp (update_piece_state it) s Q.
Proof.
  intros Hl Hs Hp Hv Hit HQ. unfold update_piece_state.
  pose proof (view_index s Hs i dp bs Hv) as Hi. pose proof (view_record s i dp bs Hv) as Hr.
  pose proof (view_room s Hs i dp bs Hv) as [Hpos Hroom].
  wstep. { by eapply deref_view. } rewrite Hi. do 2 wstep.
  fold (blocks_used dp). fold (next_state (blocks_in_piece i s) p dp).
  set (ns := next_state (blocks_in_piece i s) p dp).
  assert (Hstay : restated (blocks_in_piece i s) dp p = p → Q it s).
  { intros E. apply HQ; try done. intros j. rewrite E.
    destruct (Z.eqb_spec j i) as [->|]; [|done]. unfold seen. by rewrite Hp. }
  assert (Hopen : download_state p ≠ piece_open).
  { intros E. assert (Hq : queue_of (pieces s) i = Some piece_open).
    { unfold queue_of. change ((pieces s)⟦i⟧) with (piece_map i s). rewrite Hp. cbn.
      unfold download_queue. by rewrite E. }
    pose proof (proj2 (record_of_state _ _ _ (qs_dls s Hs) _ _ Hq) eq_refl). congruence. }
  rewrite (bool_decide_eq_false_2 (download_state p = piece_open)) by done.
  case_bool_decide as Hsame; [wstep; by apply Hstay, restated_same|].
  case_bool_decide as Hno.
  { wstep. apply Hstay. unfold restated. fold ns. by rewrite bool_decide_eq_true_2. }
  destruct Hit as (c & v & a & Hc & Hq & Hqv & Hk & Ha).
  assert (c = download_queue p) as ->.
  { unfold queue_of in Hc. change ((pieces s)⟦i⟧) with (piece_map i s) in Hc.
    rewrite Hp in Hc. by injection Hc. }
  assert (a = dp) as ->.
  { eapply (dps_unique _ _ _ (qs_dls s Hs)); [| |congruence].
    - apply elem_of_all_dps. exists (it_queue it), v. split; [done|]. by eapply vget_elem_of.
    - by apply (record_of_spec _ _ _ (qs_dls s Hs)) in Hr as [? _]. }
  apply wp_bind. apply wp_guard; [by apply Z.eqb_eq|]. rewrite <-Hq.
  destruct (dls_erase _ _ _ (qs_dls s Hs) i dp _ v _ Hqv Hk Hi)
    as (v' & D & Hset & HD & Hok & Hout & Hrec).
  apply wp_bind. eapply wp_reads; [exact Hqv|].
  apply wp_bind. eapply wp_reads; [exact Hset|].
  set (d := set_queues D (dls s)) in *.
  apply wp_bind. exists tt, (set_dls d s). split; [unfold set_queue; by rewrite HD|].
  apply wp_bind. eapply wp_reads. { unfold priority_of. change (piece_map i (set_dls d s)) with (piece_map i s). by rewrite Hp. }
  cbn [m_seeds set_dls].
  apply wp_bind. eapply wp_update_piece_pos; [exact Hp|]. intros m Hch.
  change (pieces (set_dls d s)) with (pieces s) in Hch.
  set (c' := download_queue (with_state p ns)).
  assert (Hrange : 0 ≤ queue_number c' < 4) by by apply queue_number_range.
  rewrite <-(dk_len _ _ _ Hok) in Hrange.
  destruct (vget_is_Some (m_downloads d) (queue_number c') Hrange) as [w Hw].
  destruct (dls_insert _ _ _ Hok i dp c' _ w Hw eq_refl) as (w' & D' & Hins & HD' & Hk' & Hok' & Hrec');
    [unfold set_state; by rewrite Z.eqb_refl|done|done|done|cbn; lia|].
  apply wp_bind. eapply wp_reads; [exact Hw|].
  apply wp_bind. eapply wp_reads; [exact Hins|].
  set (d' := set_queues D' d) in *.
  apply wp_bind. exists tt, (unsettled s m d').
  split; [unfold set_queue; cbn [dls set_lay set_dls]; by rewrite HD'|].
  assert (Hrec2 : ∀ j, record_of d' j = record_of (dls s) j).
  { intros j. rewrite Hrec', Hrec. by destruct (Z.eqb_spec j i) as [->|]. }
  assert (Hviews : ∀ j, view (unsettled s m d') j = view s j).
  { intros j. rewrite (view_unsettled s i _ m d' j Hch). unfold view, view_of. by rewrite Hrec2. }
  assert (Hqs : queues_ok (unsettled s m d')).
  { split; [apply sizes_ok_unsettled, Hs|]. eapply dls_ok_ext; [exact Hok'|].
    intros j. change (pieces (unsettled s m d')) with m.
    rewrite (queue_of_changed (pieces s) _ i (with_state p ns) j Hch).
    unfold set_state. by destruct (j =? i). }
  assert (Hit' : it_at (DlIterator (queue_number c') (lower_bound w i)) i (unsettled s m d')).
  { exists c', w', dp. split; [|split; [done|split; [|done]]].
    - change (pieces (unsettled s m d')) with m.
      rewrite (queue_of_changed (pieces s) _ i (with_state p ns) i Hch). unfold set_state.
      by rewrite Z.eqb_refl.
    - unfold queue. cbn. rewrite (vset_get _ _ _ _ _ HD'). by rewrite Z.eqb_refl. }
  pose proof (lo_map s Hl i p Hp) as Hokp. pose proof (priority_bounds (m_seeds s) p Hokp).
  assert (Hpm : piece_map i (unsettled s m d') = Some (with_state p ns))
    by exact (changed_eq _ _ _ _ Hch).
  assert (Hpr : priority_of i (unsettled s m d') = Some (priority (m_seeds s) (with_state p ns)))
    by (unfold priority_of; by rewrite Hpm).
  apply wp_regroup1. apply (wp_relink s Hl i p (with_state p ns) m d' Hp Hch Hokp eq_refl).
  1-4: intros Hd; unfold mbind, M_bind, gets, reads;
    change (m_dirty (unsettled s m d')) with (m_dirty s); rewrite Hd; cbv beta iota; try done.
  1-3: cbn [mbind option_bind]; rewrite Hpm; cbn [mbind option_bind]; rewrite Hpr;
    cbn [mbind option_bind].
  - intros -> ->. done.
  - intros -> Hnow. by rewrite (proj2 (Z.eqb_neq (priority (m_seeds s) (with_state p ns)) (-1))) by lia.
  - intros Hnow. by rewrite (proj2 (Z.eqb_neq (priority (m_seeds s) p) (-1))) by lia.
  - intros s' Hs'. wstep. destruct (queues_ok_reseen _ _ _ _ _ _ Hs' Hch Hqs) as [Hqs' Hv'].
    apply HQ; [apply Hs'|apply Hs'|done| | |].
    + by eapply it_at_reseen.
    + intros j. rewrite (rn_seen _ _ _ _ _ Hs'). unfold restated. fold ns.
      by rewrite bool_decide_eq_false_2.
    + intros j. by rewrite Hv'.
Qed.
End steps.
