(* ===== verification/PickerCore.v ===== *)
(** Adding a record of a piece, and the part of the invariant that ties the
    counters of a record to its blocks and its queue to its state. *)

From stdpp Require Import gmap.
From S2P Require Import Prelude.
From S2P Require Import Random.
From S2P Require Import PiecePicker.
From S2P Require Import PickerBuckets.
From S2P Require Import PickerRebuild.
From S2P Require Import PickerState.
From S2P Require Import PickerOps.
From S2P Require Import PickerBlocks.
From S2P Require Import PickerInv.
From S2P Require Import PickerAvail.
From S2P Require Import PickerDls.
From S2P Require Import PickerSteps.

Open Scope Z_scope.

Section add.
Context {R : StdRandom} {Rok : StdRandomOk R}.

(** ** The blocks of a new slice *)

(** there are no pad blocks, or a bit for every block, which an [int] counts *)
Definition pads_ok (s : picker) : Prop :=
  m_pad_blocks s = [] ∨
  vsize (m_pad_blocks s) = num_pieces s * m_blocks_per_piece s ∧
  num_pieces s * m_blocks_per_piece s < 2 ^ 31.

Definition pad_at (s : picker) (i j : Z) : bool :=
  match m_pad_blocks s with
  | [] => false
  | bits => default false bits⟦i * m_blocks_per_piece s + j⟧
  end.

Definition fresh_block (s : picker) (i j : Z) : block_info :=
  BlockInfo nullptr 0 (if pad_at s i j then state_finished else state_none).

(** [k] blocks, from block [j] on *)
Fixpoint fresh_from (g : Z → block_info) (k : nat) (j : Z) : list block_info :=
  match k with
  | O => []
  | S k => g j :: fresh_from g k (j + 1)
  end.

Definition fresh_blocks (s : picker) (i : Z) : list block_info :=
  fresh_from (fresh_block s i) (Z.to_nat (blocks_in_piece i s)) 0.

Lemma fresh_from_size g k j : vsize (fresh_from g k j) = Z.of_nat k.
Proof. revert j. induction k as [|k IH]; intros j; [done|]. cbn [fresh_from]. rewrite vsize_cons, IH. lia. Qed.

Lemma fresh_from_get g k j t :
  0 ≤ t < Z.of_nat k → (fresh_from g k j)⟦t⟧ = Some (g (j + t)).
Proof.
  revert j t. induction k as [|k IH]; intros j t Ht; [lia|]. cbn [fresh_from].
  rewrite vget_cons. destruct (Z.eqb_spec t 0) as [->|]; [by rewrite Z.add_0_r|].
  rewrite IH by lia. do 2 f_equal. lia.
Qed.

Lemma with_finished_range dp n :
  0 ≤ n < 2 ^ 15 → finished (with_finished dp n) = n.
Proof. intros Hn. cbn. by apply uint_small. Qed.

Lemma with_finished_twice dp n n' : with_finished (with_finished dp n) n' = with_finished dp n'.
Proof. done. Qed.

Lemma with_finished_id dp : 0 ≤ finished dp < 2 ^ 15 → with_finished dp (finished dp) = dp.
Proof. intros Hn. destruct dp. unfold with_finished. cbn in *. by rewrite uint_small. Qed.

Lemma pad_bit_index_ok s i j :
  num_pieces s * m_blocks_per_piece s < 2 ^ 31 →
  0 ≤ i < num_pieces s → 0 ≤ j < m_blocks_per_piece s →
  pad_bit_index i j s = Some (i * m_blocks_per_piece s + j).
Proof.
  intros Hmax Hi Hj. unfold pad_bit_index. rewrite signed_small by nia.
  cbn [mbind option_bind]. apply signed_small. nia.
Qed.

Lemma pad_at_read s i j :
  pads_ok s → 0 ≤ i < num_pieces s → 0 ≤ j < m_blocks_per_piece s →
  (match m_pad_blocks s with
   | [] => Some false
   | bits => k ← pad_bit_index i j s; bits⟦k⟧
   end) = Some (pad_at s i j).
Proof.
  intros Hp Hi Hj. unfold pad_at. destruct (m_pad_blocks s) as [|b bits] eqn:Hb; [done|].
  destruct Hp as [?|[Hsz Hmax]]; [congruence|]. rewrite Hb in Hsz.
  rewrite pad_bit_index_ok by done. cbn [mbind option_bind].
  destruct (vget_is_Some (b :: bits) (i * m_blocks_per_piece s + j)) as [x ->]; [|done]. nia.
Qed.

(** the loop over the blocks from [j] on *)
Lemma wp_init_blocks k idx len j ret s (Q : downloading_piece → picker → Prop) :
  pads_ok s → 0 ≤ dp_index ret < num_pieces s → len ≤ m_blocks_per_piece s →
  0 ≤ j → j + Z.of_nat k = len → 0 ≤ idx → idx + len ≤ vsize (m_block_info (dls s)) →
  0 ≤ finished ret →
  finished ret + count state_finished (fresh_from (fresh_block s (dp_index ret)) k j) < 2 ^ 15 →
  (∀ b, vsize b = vsize (m_block_info (dls s)) →
     (∀ t, b⟦t⟧ = if (idx + j <=? t) && (t <? idx + len)
                  then Some (fresh_block s (dp_index ret) (t - idx))
                  else (m_block_info (dls s))⟦t⟧) →
     Q (with_finished ret (finished ret + count state_finished (fresh_from (fresh_block s (dp_index ret)) k j)))
       (set_block_info b s)) →
  wp (init_blocks k (idx, len) j ret) s Q.
Proof.
  revert j ret s. induction k as [|k IH]; intros j ret s Hpads Hret Hlen Hj Hk Hidx Hroom Hf Hfin HQ.
  - cbn [init_blocks fresh_from count] in *. wstep.
    specialize (HQ (m_block_info (dls s)) eq_refl).
    rewrite Z.add_0_r, with_finished_id in HQ by lia.
    replace (set_block_info _ s) with s in HQ by by destruct s as [? ? ? ? []].
    apply HQ. intros t. destruct (Z.leb_spec (idx + j) t), (Z.ltb_spec t (idx + len)); try done. lia.
  - cbn [init_blocks]. cbn [fresh_from count] in Hfin.
    set (x := fresh_block s (dp_index ret) j) in *.
    apply wp_bind. eapply wp_reads; [apply pad_at_read; [done|done|lia]|].
    destruct (vset_is_Some (m_block_info (dls s)) (idx + j) x) as [b Hb]; [lia|].
    apply wp_bind. exists tt, (set_block_info b s). split.
    { unfold set_block, guard_b. cbn [fst snd].
      replace ((0 <=? j) && (j <? len)) with true
        by (symmetry; apply andb_true_intro; split; lia).
      cbn [mbind option_bind]. unfold x in Hb. unfold fresh_block in Hb. by rewrite Hb. }
    set (ret' := if pad_at s (dp_index ret) j then with_finished ret (finished ret + 1) else ret).
    assert (Hpad : Z.b2z (bool_decide (bstate x = state_finished)) = Z.b2z (pad_at s (dp_index ret) j)).
    { unfold x, fresh_block. cbn [bstate]. by destruct (pad_at s (dp_index ret) j). }
    rewrite Hpad in Hfin.
    assert (Hidx' : dp_index ret' = dp_index ret) by (unfold ret'; by destruct (pad_at _ _ _)).
    pose proof (count_range state_finished (fresh_from (fresh_block s (dp_index ret)) k (j + 1))) as Hcr.
    assert (Hf' : finished ret' = finished ret + Z.b2z (pad_at s (dp_index ret) j)).
    { unfold ret'. destruct (pad_at s (dp_index ret) j); cbn [Z.b2z] in *; [|lia].
      apply with_finished_range. lia. }
    assert (Hw : ∀ n, with_finished ret' n = with_finished ret n)
      by (intros n; unfold ret'; by destruct (pad_at s (dp_index ret) j)).
    pose proof (vset_size _ _ _ _ Hb) as Hbs.
    assert (Hg : fresh_block (set_block_info b s) = fresh_block s) by done.
    apply IH; try done; try lia.
    + by rewrite Hidx'.
    + change (m_block_info (dls (set_block_info b s))) with b. lia.
    + destruct (pad_at s (dp_index ret) j); cbn [Z.b2z] in Hf'; lia.
    + rewrite Hidx', Hf', Hg. lia.
    + change (m_block_info (dls (set_block_info b s))) with b. rewrite Hidx', Hf', Hw, Hg.
      intros b' Hbs' Hget.
      replace (finished ret + Z.b2z (pad_at s (dp_index ret) j) + _) with
        (finished ret + count state_finished (fresh_from (fresh_block s (dp_index ret)) (S k) j))
        by (cbn [fresh_from count]; fold x; rewrite Hpad; lia).
      change (set_block_info b' (set_block_info b s)) with (set_block_info b' s).
      apply HQ; [congruence|]. intros t. rewrite Hget.
      rewrite (vset_get _ _ _ _ _ Hb).
      destruct (Z.leb_spec (idx + (j + 1)) t), (Z.ltb_spec t (idx + len)),
        (Z.leb_spec (idx + j) t), (Z.eqb_spec t (idx + j)); try lia; cbn [andb]; try done.
      unfold x. do 2 f_equal. lia.
Qed.

(** ** The allocation *)

(** [s] but for the downloads, piece [i] having no record yet *)
Record hollow (i : Z) (s : picker) : Prop := {
  hw_sizes : sizes_ok s;
  hw_dls : dls_ok (m_blocks_per_piece s) (set_state (queue_of (pieces s)) i piece_open) (dls s)
}.

(** there is room for one more slice: its number fits in 16 bits *)
Definition slices_fit (s : picker) : Prop :=
  vsize (m_block_info (dls s)) < 2 ^ 16 * m_blocks_per_piece s.

Lemma wp_allocate_blocks i s (Q : Z → picker → Prop) :
  hollow i s → slices_fit s →
  (∀ x d, hollow i (set_dls d s) → m_downloads d = m_downloads (dls s) →
     x ∉ slices d → 0 ≤ x < 2 ^ 16 → (x + 1) * m_blocks_per_piece s ≤ vsize (m_block_info d) →
     (∀ t, t < vsize (m_block_info (dls s)) → (m_block_info d)⟦t⟧ = (m_block_info (dls s))⟦t⟧) →
     Q x (set_dls d s)) →
  wp allocate_blocks s Q.
Proof.
  intros [Hz Hd] Hfit HQ. unfold slices_fit in Hfit. pose proof (sz_blocks s Hz) as Hn.
  pose proof (vsize_nonneg (m_block_info (dls s))) as Hb0.
  unfold allocate_blocks. wstep.
  destruct (m_free_block_infos (dls s)) as [|y free] eqn:Hfree.
  - do 2 wstep. apply wp_bind. apply wp_guard.
    { apply negb_true_iff, Z.eqb_neq. lia. }
    do 2 wstep.
    set (b' := replicate (Z.to_nat (m_blocks_per_piece s)) block_info_default).
    destruct (dls_allocate (m_blocks_per_piece s) (set_state (queue_of (pieces s)) i piece_open)
      (m_downloads (dls s)) (m_block_info (dls s)) [] b') as (Hok & Hout & Hx & Hroom).
    + lia.
    + by rewrite <-Hfree; destruct (dls s).
    + unfold b', vsize. rewrite length_replicate. lia.
    + replace (set_block_info _ s) with
        (set_dls (Downloads (m_downloads (dls s)) (m_block_info (dls s) ++ b') []) s)
        by (unfold set_block_info; by rewrite Hfree).
      apply HQ; try done; cbn [m_block_info].
      * split; [by destruct Hz|done].
      * split; [done|]. apply Z.quot_lt_upper_bound; lia.
      * intros t Ht. by apply vget_app_l.
  - destruct (exists_last (l := y :: free)) as (f & x & Hf); [done|].
    assert (Hlast : (f ++ [x])⟦vsize (f ++ [x]) - 1⟧ = Some x).
    { rewrite vsize_app. change (vsize [x]) with 1. replace (vsize f + 1 - 1) with (vsize f) by lia.
      apply vget_middle. }
    apply wp_bind. eapply wp_reads; [rewrite Hf; exact Hlast|]. do 2 wstep. rewrite Hf.
    rewrite length_app, Nat.add_sub, take_app_length.
    destruct (dls_take (m_blocks_per_piece s) (set_state (queue_of (pieces s)) i piece_open)
      (m_downloads (dls s)) (m_block_info (dls s)) f x) as (Hok & Hout & Hx & Hroom).
    { rewrite <-Hf, <-Hfree. by destruct (dls s). }
    apply HQ; try done.
    + split; [by destruct Hz|done].
    + split; [done|]. nia.
Qed.

(** ** The whole function *)

Definition fresh_record (s : picker) (i x : Z) : downloading_piece :=
  DownloadingPiece i x (count state_finished (fresh_blocks s i)) false 0 false 0 false.

Lemma fresh_blocks_size s i : sizes_ok s → vsize (fresh_blocks s i) = blocks_in_piece i s.
Proof.
  intros Hz. pose proof (blocks_in_piece_range i s Hz). unfold fresh_blocks.
  rewrite fresh_from_size. lia.
Qed.

Lemma fresh_blocks_get s i j :
  sizes_ok s → 0 ≤ j < blocks_in_piece i s → (fresh_blocks s i)⟦j⟧ = Some (fresh_block s i j).
Proof. intros Hz Hj. unfold fresh_blocks. by rewrite fresh_from_get by lia. Qed.

(** the blocks of the other pieces are outside of the new slice *)
Lemma other_blocks {A} (l b : list A) n len y x :
  y ≠ x → 0 ≤ y → (y + 1) * n ≤ vsize l → 0 < len ≤ n →
  (∀ t, t < vsize l → ¬ (x * n ≤ t < x * n + n) → b⟦t⟧ = l⟦t⟧) →
  slice b (y * n) len = slice l (y * n) len.
Proof.
  intros Hne Hy Hroom Hlen Hb. apply slice_ext; [nia|lia|]. intros t. rewrite slice_get_if by nia.
  destruct (Z.leb_spec 0 t), (Z.ltb_spec t len); cbn [andb]; try done. apply Hb; [nia|].
  destruct (Z.lt_total y x) as [?|[?|?]]; [nia|done|nia].
Qed.

Lemma wp_add_download_piece s i p (Q : dl_iterator → picker → Prop) :
  list_ok s → hollow i s → pads_ok s → slices_fit s → piece_map i s = Some p →
  download_queue p = piece_downloading →
  (∀ it x s', let dp := fresh_record s i x in
     let p' := restated (blocks_in_piece i s) dp p in
     env_eq s s' → list_ok s' → queues_ok s' → it_at it i s' →
     (∀ j, seen s' j = if j =? i then Some (norm p') else seen s j) →
     view s' i = Some (dp, fresh_blocks s i) →
     (∀ j, j ≠ i → view s' j = view s j) → Q it s') →
  wp (add_download_piece i) s Q.
Proof.
  intros Hl Hh Hpads Hfit Hp Hdq HQ. unfold add_download_piece. apply wp_bind.
  eapply (wp_allocate_blocks i); [done|done|]. intros x d Hh' Hmd Hout Hx Hroom Hsame.
  pose proof (hw_sizes _ _ Hh) as Hz. pose proof (sz_blocks s Hz) as Hn.
  unfold max_blocks_per_piece in Hn.
  pose proof (blocks_in_piece_range i s Hz) as Hlen.
  pose proof (vget_Some_range _ _ _ Hp) as Hi. change (0 ≤ i < num_pieces s) in Hi.
  rewrite (uint_small 16 x) by done.
  set (ret := DownloadingPiece i x 0 false 0 false 0 false).
  set (n := m_blocks_per_piece s) in *. set (len := blocks_in_piece i s) in *.
  pose proof (dk_len _ _ _ (hw_dls _ _ Hh')) as Hd4.
  destruct (vget_is_Some (m_downloads d) 0) as [v Hv].
  { change (m_downloads (dls (set_dls d s))) with (m_downloads d) in Hd4. lia. }
  apply wp_bind. eapply wp_reads; [exact Hv|].
  apply wp_bind. eapply wp_reads.
  { unfold blocks_for_piece. change (info_idx ret) with x. cbn [m_blocks_per_piece set_dls].
    fold n. change (dp_index ret) with i. cbn [dls set_dls].
    destruct (vget_is_Some (m_block_info d) (x * n)) as [y ->]; [nia|reflexivity]. }
  cbn [snd fst]. change (blocks_in_piece i (set_dls d s)) with len.
  apply wp_bind.
  pose proof (count_range state_finished (fresh_blocks s i)) as Hcnt.
  rewrite fresh_blocks_size in Hcnt by done. fold len in Hcnt.
  eapply (wp_init_blocks _ (x * n) len 0 ret (set_dls d s)); try done.
  { change (m_blocks_per_piece (set_dls d s)) with n. lia. }
  { lia. } { nia. } { cbn [dls set_dls]. nia. }
  { change (fresh_from (fresh_block (set_dls d s) (dp_index ret)) (Z.to_nat len) 0)
      with (fresh_blocks s i). change (finished ret) with 0. lia. }
  change (fresh_from (fresh_block (set_dls d s) (dp_index ret)) (Z.to_nat len) 0)
    with (fresh_blocks s i). change (finished ret) with 0.
  change (m_block_info (dls (set_dls d s))) with (m_block_info d).
  intros b Hbs Hb. set (dp := fresh_record s i x).
  replace (with_finished ret _) with dp
    by (unfold with_finished, dp, fresh_record; cbn; rewrite uint_small by lia; done).
  set (d1 := Downloads (m_downloads d) b (m_free_block_infos d)).
  assert (Hok1 : dls_ok n (set_state (queue_of (pieces s)) i piece_open) d1).
  { eapply dls_blocks; [|exact Hbs]. pose proof (hw_dls _ _ Hh') as H. by destruct d. }
  destruct (dls_insert _ _ _ Hok1 i dp piece_downloading 0 v Hv eq_refl)
    as (v' & D & Hins & HD & Hk & Hok2 & Hrec); [|done|exact Hout|apply Hx| |].
  { unfold set_state. by rewrite Z.eqb_refl. }
  { cbn. lia. }
  apply wp_bind. eapply wp_reads; [exact Hins|].
  set (d2 := set_queues D d1) in *.
  apply wp_bind. exists tt, (set_dls d2 s).
  split; [unfold set_queue; cbn in HD |- *; by rewrite HD|].
  assert (Hqi : queue_of (pieces s) i = Some piece_downloading).
  { unfold queue_of. change ((pieces s)⟦i⟧) with (piece_map i s). rewrite Hp. cbn. by rewrite Hdq. }
  assert (Hqs : queues_ok (set_dls d2 s)).
  { split; [by destruct Hz|]. eapply dls_ok_ext; [exact Hok2|]. intros j. unfold set_state.
    change (pieces (set_dls d2 s)) with (pieces s). by destruct (Z.eqb_spec j i) as [->|]. }
  assert (Hview : view (set_dls d2 s) i = Some (dp, fresh_blocks s i)).
  { unfold view, view_of. cbn [dls set_dls]. rewrite Hrec, Z.eqb_refl. cbn [mbind option_bind].
    do 2 f_equal. unfold blocks_of. symmetry. change (info_idx dp) with x.
    change (m_block_info d2) with b. cbn [m_blocks_per_piece set_dls]. fold n.
    change (blocks_in_piece i (set_dls d2 s)) with len.
    apply slice_ext; [nia|lia|]. intros j. rewrite Hb.
    destruct (Z.leb_spec 0 j), (Z.ltb_spec j len); cbn [andb].
    2-4: by rewrite vget_None by (rewrite fresh_blocks_size by done; fold len; lia).
    rewrite fresh_blocks_get by done.
    destruct (Z.leb_spec (x * n + 0) (x * n + j)), (Z.ltb_spec (x * n + j) (x * n + len));
      try lia. cbn [andb]. do 2 f_equal. lia. }
  assert (Hviews : ∀ j, j ≠ i → view (set_dls d2 s) j = view s j).
  { intros j Hj. unfold view, view_of. cbn [dls set_dls]. rewrite Hrec.
    destruct (Z.eqb_spec j i) as [|_]; [done|].
    assert (Hrj : record_of d1 j = record_of (dls s) j)
      by (unfold record_of, all_dps; cbn [m_downloads d1]; by rewrite Hmd).
    rewrite Hrj. destruct (record_of (dls s) j) as [a|] eqn:Ha; [|done].
    cbn [mbind option_bind]. do 2 f_equal. unfold blocks_of.
    change (m_block_info d2) with b. cbn [m_blocks_per_piece set_dls]. fold n.
    change (blocks_in_piece j (set_dls d2 s)) with (blocks_in_piece j s).
    pose proof (blocks_in_piece_range j s Hz) as Hlenj. fold n in Hlenj.
    assert (Hin : info_idx a ∈ slices (dls s)) by by eapply (record_slice _ _ _ (hw_dls _ _ Hh)).
    destruct (dk_room _ _ _ (hw_dls _ _ Hh) _ Hin) as [Hpos Hrooma]. fold n in Hrooma.
    apply (other_blocks _ _ n _ _ x); [|done|done|done|].
    - intros Hax. apply Hout. rewrite <-Hax. change (slices d) with (slices d1).
      eapply (record_slice _ _ _ Hok1).
      by rewrite Hrj.
    - intros t Ht Hnt. rewrite Hb, <-Hsame by done.
      destruct (Z.leb_spec (x * n + 0) t), (Z.ltb_spec t (x * n + len)); cbn [andb]; try done. lia. }
  eapply (wp_update_piece_state (set_dls d2 s) _ i p dp (fresh_blocks s i));
    [by apply list_ok_dls|done|exact Hp|exact Hview| |].
  { exists piece_downloading, v', dp. split; [exact Hqi|]. split; [done|].
    split; [|split; [exact Hk|done]]. unfold queue.
    exact (eq_trans (vset_get _ _ _ _ 0 HD) eq_refl). }
  intros it s' p' He Hl' Hq' Hit Hseen Hv'. apply (HQ it x s'); try done.
  - by destruct He.
  - by rewrite Hv'.
  - intros j Hj. rewrite Hv'. by apply Hviews.
Qed.
End add.

(** * Records and blocks *)

(** peers are counted for a requested block only *)
Definition block_ok (b : block_info) : Prop :=
  match bstate b with
  | state_requested => 0 < num_peers b < 2 ^ 14
  | _ => num_peers b = 0
  end.

Record counts_ok (dp : downloading_piece) (bs : list block_info) : Prop := {
  co_finished : finished dp = count state_finished bs;
  co_writing : writing dp = count state_writing bs;
  co_requested : requested dp = count state_requested bs;
  co_blocks : ∀ j b, bs⟦j⟧ = Some b → block_ok b
}.

(** the queue of a piece of [n] blocks with record [dp] *)
Definition proper_queue (n : Z) (p : piece_pos) (dp : downloading_piece) : download_queue_t :=
  if filtered p then piece_zero_prio
  else if blocks_used dp <? n then piece_downloading
  else if 0 <? requested dp then piece_full
  else piece_finished.

Lemma filtered_norm p : filtered (norm p) = filtered p.
Proof. done. Qed.

Lemma filtered_restated n dp p : filtered (restated n dp p) = filtered p.
Proof. unfold restated. by destruct (bool_decide _). Qed.

Lemma have_restated n dp p : have (restated n dp p) = have p.
Proof. unfold restated. by destruct (bool_decide _). Qed.

Lemma restated_queue n dp p :
  0 < blocks_used dp → download_queue (restated n dp p) = proper_queue n p dp.
Proof.
  intros Hu. unfold restated, next_state, proper_queue.
  rewrite (proj2 (Z.eqb_neq (blocks_used dp) 0)) by lia.
  destruct (filtered p); [done|]. destruct (_ <? n); [by destruct (reverse p)|].
  destruct (0 <? requested dp); [by destruct (reverse p)|done].
Qed.

Lemma counts_used dp bs :
  counts_ok dp bs → blocks_used dp = vsize bs - count state_none bs.
Proof. intros [Hf Hw Hr _]. pose proof (count_sum bs). unfold blocks_used. lia. Qed.

(** a block changes, and the counters with it *)
Lemma counts_ok_set dp bs j b x bs' dp' :
  counts_ok dp bs → bs⟦j⟧ = Some b → bs⟦j := x⟧ = Some bs' → block_ok x →
  (finished dp' = finished dp - Z.b2z (bool_decide (bstate b = state_finished))
                  + Z.b2z (bool_decide (bstate x = state_finished))) →
  (writing dp' = writing dp - Z.b2z (bool_decide (bstate b = state_writing))
                 + Z.b2z (bool_decide (bstate x = state_writing))) →
  (requested dp' = requested dp - Z.b2z (bool_decide (bstate b = state_requested))
                   + Z.b2z (bool_decide (bstate x = state_requested))) →
  counts_ok dp' bs'.
Proof.
  intros [Hf Hw Hr Hb] Hj Hset Hx Hf' Hw' Hr'.
  pose proof (λ st, count_vset st _ _ _ _ _ Hj Hset) as Hc.
  split; [rewrite Hc; lia..|]. intros k y. rewrite (vset_get _ _ _ _ _ Hset).
  destruct (k =? j); [by intros [= <-]|apply Hb].
Qed.

(** the counters of a record after a change of one block *)
Ltac counters :=
  cbn [bstate finished writing requested num_peers peer with_finished with_writing with_requested
       with_passed with_locked with_peer with_num_peers with_bstate];
  repeat case_bool_decide; try done; try congruence; cbn [Z.b2z]; rewrite ?uint_small by lia; lia.

Section core.
Context {R : StdRandom} {Rok : StdRandomOk R}.

(** * The invariant *)

Record dl_ok (n : Z) (p : piece_pos) (dp : downloading_piece) (bs : list block_info) : Prop := {
  do_have : have p = false;
  do_counts : counts_ok dp bs;
  do_used : 0 < blocks_used dp;
  do_queue : download_queue p = proper_queue n p dp
}.

Definition piece_dl_ok (s : picker) (i : Z) : Prop :=
  ∀ p dp bs, seen s i = Some p → view s i = Some (dp, bs) → dl_ok (blocks_in_piece i s) p dp bs.

(** the invariant, but for the record of piece [i] *)
Record almost_ok (i : Z) (s : picker) : Prop := {
  ao_list : list_ok s;
  ao_queues : queues_ok s;
  ao_pads : pads_ok s;
  ao_others : ∀ j, j ≠ i → piece_dl_ok s j
}.

Record core_ok (s : picker) : Prop := {
  ck_list : list_ok s;
  ck_queues : queues_ok s;
  ck_pads : pads_ok s;
  ck_pieces : ∀ i, piece_dl_ok s i
}.

Lemma core_ok_almost i s : core_ok s → almost_ok i s.
Proof. intros [? ? ? ?]. by split. Qed.

Lemma almost_ok_core i s : almost_ok i s → piece_dl_ok s i → core_ok s.
Proof.
  intros [? ? ? Ho] Hi. split; try done. intros j. destruct (decide (j = i)) as [->|]; auto.
Qed.

Lemma blocks_in_piece_env i s s' : env_eq s s' → blocks_in_piece i s' = blocks_in_piece i s.
Proof.
  intros He. unfold blocks_in_piece.
  by rewrite (ev_size _ _ He), (ev_blocks _ _ He), (ev_last _ _ He).
Qed.

Lemma piece_dl_ok_eq s s' i :
  blocks_in_piece i s' = blocks_in_piece i s → seen s' i = seen s i → view s' i = view s i →
  piece_dl_ok s i → piece_dl_ok s' i.
Proof. intros He Hs Hv Hok p dp bs. rewrite Hs, Hv, He. apply Hok. Qed.

Lemma pads_ok_env s s' : env_eq s s' → pads_ok s → pads_ok s'.
Proof.
  intros He Hp. unfold pads_ok.
  by rewrite (ev_pad_blocks _ _ He), (ev_blocks _ _ He), (ev_size _ _ He).
Qed.

Lemma almost_ok_step i s s' :
  almost_ok i s → env_eq s s' → list_ok s' → queues_ok s' →
  (∀ j, j ≠ i → seen s' j = seen s j) → (∀ j, j ≠ i → view s' j = view s j) → almost_ok i s'.
Proof.
  intros [H1 H2 H3 H4] He Hl Hq Hseen Hv. split; [done|done|by eapply pads_ok_env|].
  intros j Hj. apply (piece_dl_ok_eq s); auto using blocks_in_piece_env.
Qed.

Lemma env_eq_touched i s s' : touched i s s' → env_eq s s' ∧ ∀ j, seen s' j = seen s j.
Proof. intros [-> _ _]. by split. Qed.

Lemma almost_ok_touched i s s' : almost_ok i s → touched i s s' → almost_ok i s'.
Proof.
  intros Ha Ht. destruct (env_eq_touched _ _ _ Ht) as [He Hseen]. destruct Ht as [Hr Hq Hf].
  eapply almost_ok_step; [exact Ha|done| |done|by intros|done].
  rewrite Hr. apply list_ok_dls, Ha.
Qed.

(** the end of an operation on the blocks of piece [i] *)
Lemma wp_update_piece_state_core s it i p dp bs (Q : dl_iterator → picker → Prop) :
  almost_ok i s → piece_map i s = Some p → view s i = Some (dp, bs) → it_at it i s →
  have p = false → counts_ok dp bs →
  (∀ it' s', let p' := restated (blocks_in_piece i s) dp p in
     env_eq s s' → almost_ok i s' → it_at it' i s' →
     (∀ j, seen s' j = if j =? i then Some (norm p') else seen s j) →
     (∀ j, view s' j = view s j) → (0 < blocks_used dp → core_ok s') → Q it' s') →
  wp (update_piece_state it) s Q.
Proof.
  intros Ha Hp Hv Hit Hhave Hc HQ.
  eapply wp_update_piece_state; [apply Ha|apply Ha|done..|].
  intros it' s' p' He Hl Hq Hit' Hseen Hview.
  assert (Ha' : almost_ok i s').
  { eapply almost_ok_step; try done. intros j Hj. rewrite Hseen. by destruct (Z.eqb_spec j i). }
  apply HQ; try done. intros Hused. eapply almost_ok_core; [done|].
  intros q dp' bs'. rewrite Hseen, Hview, Z.eqb_refl, Hv, (blocks_in_piece_env _ _ _ He).
  intros [= <-] [= <- <-]. split; [|done|done|].
  - rewrite have_norm. unfold p'. by rewrite have_restated.
  - change (download_queue (norm p')) with (download_queue p'). unfold p'.
    rewrite restated_queue by done. unfold proper_queue. rewrite filtered_norm.
    by rewrite filtered_restated.
Qed.

(** ** Blocks *)

(** the state of block [j] of piece [i], which a record would start from *)
Definition block_at (s : picker) (i j : Z) : block_info :=
  match view s i with
  | Some (_, bs) => default block_info_default bs⟦j⟧
  | None => fresh_block s i j
  end.

Lemma block_at_view s i dp bs j b :
  view s i = Some (dp, bs) → bs⟦j⟧ = Some b → block_at s i j = b.
Proof. intros Hv Hb. unfold block_at. by rewrite Hv, Hb. Qed.

Lemma fresh_block_env s s' i j : env_eq s s' → fresh_block s' i j = fresh_block s i j.
Proof.
  intros He. unfold fresh_block, pad_at. by rewrite (ev_pad_blocks _ _ He), (ev_blocks _ _ He).
Qed.

Lemma block_at_eq s s' i j :
  env_eq s s' → view s' i = view s i → block_at s' i j = block_at s i j.
Proof. intros He Hv. unfold block_at. rewrite Hv. destruct (view s i) as [[]|]; [done|]. by apply fresh_block_env. Qed.
End core.
