(* ===== verification/PickerMarks.v ===== *)
(** What the operations on blocks do: [mark_as_downloading],
    [mark_as_writing], [mark_as_finished], [mark_as_canceled],
    [abort_download] and [write_failed] keep the invariant and change the one
    block they are called for. *)

From stdpp Require Import gmap.
From S2P Require Import Prelude.
From S2P Require Import Random.
From S2P Require Import PiecePicker.
From S2P Require Import PickerBuckets.
From S2P Require Import PickerRebuild.
From S2P Require Import PickerState.
From S2P Require Import PickerOps.
From S2P Require Import PickerBlocks.
From S2P Require Import PickerDls.
From S2P Require Import PickerInv.
From S2P Require Import PickerAvail.
From S2P Require Import PickerSteps.
From S2P Require Import PickerCore.

Open Scope Z_scope.

(** a block that may be requested *)
Definition requestable (b : block_info) : bool :=
  bool_decide (bstate b = state_none) || bool_decide (bstate b = state_requested).

Section marks.
Context {R : StdRandom} {Rok : StdRandomOk R}.

(** ** Changing the state of a piece in the list *)

(** the priorities -1 of states other than [piece_full] and [piece_finished] *)
Lemma priority_low seeds p c :
  piece_ok p → priority seeds p = -1 →
  download_state p ≠ piece_full → download_state p ≠ piece_finished →
  priority seeds (with_state p c) = -1.
Proof.
  intros (Hc & Hp & _) Hlow Hf Hfin. unfold priority in *.
  change (filtered (with_state p c)) with (filtered p).
  change (have (with_state p c)) with (have p).
  change (peer_count (with_state p c)) with (peer_count p).
  rewrite (bool_decide_eq_false_2 (download_state p = piece_full)) in Hlow by done.
  rewrite (bool_decide_eq_false_2 (download_state p = piece_finished)) in Hlow by done.
  rewrite !orb_false_r in Hlow. destruct (filtered p || have p || _); [done|].
  unfold priority_levels, prio_factor in Hlow. destruct (reverse p), (negb _); nia.
Qed.

Lemma wp_set_state s i p g c (Q : unit → picker → Prop) :
  list_ok s → piece_map i s = Some p → g p = with_state p c →
  download_state p ≠ piece_full → download_state p ≠ piece_finished →
  (∀ s', reseen i (with_state p c) (dls s) s s' → Q tt s') →
  wp (update_piece_pos i g ;; update_if_listed i (priority (m_seeds s) p)) s Q.
Proof.
  intros Hl Hp Hg Hf Hfin HQ. apply wp_bind. eapply wp_update_piece_pos; [done|]. intros m Hch.
  rewrite Hg in Hch.
  pose proof (lo_map s Hl i p Hp) as Hok.
  assert (Hun : set_lay (set_map (lay s) m) s = unsettled s m (dls s)) by done. rewrite Hun.
  eapply (wp_update_if_listed_seen s Hl i p (with_state p c) m (dls s)); try done.
  intros Hlow. by apply priority_low.
Qed.

(** the state changes within the queue *)
Lemma reseen_same_queue i p p' s s' :
  almost_ok i s → piece_map i s = Some p → download_queue p' = download_queue p →
  reseen i p' (dls s) s s' →
  almost_ok i s' ∧ (∀ j, view s' j = view s j) ∧ (∀ it, it_at it i s → it_at it i s') ∧
  ∃ q, piece_map i s' = Some q ∧ norm q = norm p'.
Proof.
  intros Ha Hp Hq [He Hl Hd Hseen].
  assert (Hv : ∀ j, view s' j = view s j) by (intros j; destruct He; by apply view_eq).
  assert (Hqs : ∀ j, queue_of (pieces s') j = queue_of (pieces s) j).
  { intros j. rewrite !queue_of_seen, Hseen. destruct (Z.eqb_spec j i) as [->|]; [|done].
    unfold seen. rewrite Hp. cbn. change (download_queue (norm p')) with (download_queue p').
    by rewrite Hq. }
  assert (Hqok : queues_ok s').
  { destruct (ao_queues _ _ Ha) as [[Hz1 Hz2] Hok]. destruct He. split; [split; congruence|].
    rewrite Hd, ev_blocks. eapply dls_ok_ext; [exact Hok|done]. }
  split; [|split; [done|split]].
  - eapply almost_ok_step; try done. intros j Hj. rewrite Hseen. by destruct (Z.eqb_spec j i).
  - intros it (c & v & a & Hc & H). exists c, v, a. rewrite Hqs. split; [done|].
    unfold queue in *. by rewrite Hd.
  - apply seen_Some. by rewrite Hseen, Z.eqb_refl.
Qed.

(** a piece that was open is about to get a record *)
Lemma reseen_hollow i p p' s s' :
  core_ok s → piece_map i s = Some p → download_queue p = piece_open →
  reseen i p' (dls s) s s' →
  hollow i s' ∧ pads_ok s' ∧ (∀ j, view s' j = view s j) ∧
  ∃ q, piece_map i s' = Some q ∧ norm q = norm p'.
Proof.
  intros Hc Hp Hq [He Hl Hd Hseen].
  assert (Hv : ∀ j, view s' j = view s j) by (intros j; destruct He; by apply view_eq).
  split; [|split; [by eapply pads_ok_env, Hc|split; [done|]]].
  - destruct (ck_queues _ Hc) as [[Hz1 Hz2] Hok]. destruct He. split; [split; congruence|].
    rewrite Hd, ev_blocks. eapply dls_ok_ext; [exact Hok|]. intros j. unfold set_state.
    rewrite !queue_of_seen, Hseen. destruct (Z.eqb_spec j i) as [->|]; [|done].
    unfold seen. rewrite Hp. cbn. change (download_queue (norm p)) with (download_queue p). by rewrite Hq.
  - apply seen_Some. by rewrite Hseen, Z.eqb_refl.
Qed.

(** turning a piece around keeps it in its queue *)
Lemma make_reverse_state p :
  ∃ c, make_reverse p = with_state p c ∧ download_queue (with_state p c) = download_queue p.
Proof. destruct p as [n q r x]. by destruct q; eexists. Qed.

Lemma unreverse_state p :
  ∃ c, unreverse p = with_state p c ∧ download_queue (with_state p c) = download_queue p.
Proof. destruct p as [n q r x]. by destruct q; eexists. Qed.

(** ** An operation on one piece

    [s] is a state in the middle of an operation on piece [i] that began in
    [s0]; the piece is [p], its record [dp], its blocks [bs], and [it] is the
    iterator to the record *)

(** what operations on blocks do not change of a piece *)
Definition static (p : piece_pos) : Z * Z * bool := (peer_count p, piece_priority p, have p).

Lemma static_norm p : static (norm p) = static p.
Proof. unfold static. by rewrite have_norm. Qed.

Lemma static_filtered p q : static p = static q → filtered p = filtered q.
Proof. unfold static, filtered. by intros [= _ -> _]. Qed.

Lemma static_have p q : static p = static q → have p = have q.
Proof. unfold static. by intros [= _ _ ->]. Qed.

Definition static_eq (s s' : picker) : Prop := ∀ j, static <$> seen s' j = static <$> seen s j.

Record focus (i : Z) (s0 s : picker) (p : piece_pos) (dp : downloading_piece)
    (bs : list block_info) (it : dl_iterator) : Prop := {
  fc_almost : almost_ok i s;
  fc_env : ∃ x, env_eq (set_extents x s0) s;
  fc_static : static_eq s0 s;
  fc_views : ∀ j, j ≠ i → view s j = view s0 j;
  fc_seen : ∀ j, j ≠ i → seen s j = seen s0 j;
  fc_piece : piece_map i s = Some p;
  fc_have : have p = false;
  fc_view : view s i = Some (dp, bs);
  fc_it : it_at it i s
}.

Lemma proper_queue_static n p q dp :
  static p = static q → proper_queue n p dp = proper_queue n q dp.
Proof. intros H. unfold proper_queue. by rewrite (static_filtered _ _ H). Qed.

Section focus.
Context (i : Z) (s0 s : picker) (p : piece_pos) (dp : downloading_piece)
  (bs : list block_info) (it : dl_iterator) (Hf : focus i s0 s p dp bs it).

Lemma fc_queues : queues_ok s.
Proof using Hf. apply Hf. Qed.

Lemma focus_deref : deref it s = Some dp.
Proof using Hf. eapply deref_view; [apply fc_queues|apply Hf|apply Hf]. Qed.

Lemma focus_is_end : is_end it s = Some false.
Proof using Hf. eapply is_end_view, Hf. Qed.

(** the blocks of the piece *)
Definition span_of : Z * Z := (info_idx dp * m_blocks_per_piece s, blocks_in_piece i s).

Lemma focus_span : blocks_for_piece dp s = Some span_of.
Proof using Hf. eapply blocks_for_piece_view; [apply fc_queues|apply Hf]. Qed.

Lemma focus_get_block j : get_block span_of j s = bs⟦j⟧.
Proof using Hf. eapply get_block_view; [apply fc_queues|apply Hf]. Qed.

Lemma focus_size : vsize bs = blocks_in_piece i s.
Proof using Hf. eapply view_size; [apply fc_queues|apply Hf]. Qed.

Lemma focus_blocks : blocks_in_piece i s = blocks_in_piece i s0.
Proof using Hf.
  destruct (fc_env _ _ _ _ _ _ _ Hf) as [x He]. by rewrite (blocks_in_piece_env i _ _ He).
Qed.

Lemma focus_fresh j : fresh_block s i j = fresh_block s0 i j.
Proof using Hf.
  destruct (fc_env _ _ _ _ _ _ _ Hf) as [x He]. by rewrite (fresh_block_env _ _ i j He).
Qed.

(** a step that leaves the pieces and the other records alone *)
Lemma focus_step s' dp' bs' it' :
  touched i s s' → view s' i = Some (dp', bs') → it_at it' i s' →
  focus i s0 s' p dp' bs' it'.
Proof using Hf.
  intros Ht Hv Hit. destruct (env_eq_touched _ _ _ Ht) as [He Hseen].
  pose proof (almost_ok_touched _ _ _ (fc_almost _ _ _ _ _ _ _ Hf) Ht) as Ha.
  destruct Ht as [Hr Hq Hframe]. destruct Hf as [H1 [x H2] H3 H4 H5 H6 H7 H8 H9].
  split; try done.
  - exists x. by etransitivity.
  - intros j. rewrite Hseen. apply H3.
  - intros j Hj. by rewrite Hframe, H4.
  - intros j Hj. by rewrite Hseen, H5.
  - rewrite Hr. exact H6.
Qed.

Lemma wp_focus_update_dl f (Q : unit → picker → Prop) :
  dp_index (f dp) = dp_index dp → info_idx (f dp) = info_idx dp →
  (∀ s', focus i s0 s' p (f dp) bs it → m_blocks_per_piece s' = m_blocks_per_piece s →
     num_pieces s' = num_pieces s → blocks_in_piece i s' = blocks_in_piece i s → Q tt s') →
  wp (update_dl it f) s Q.
Proof using Hf.
  intros Hi Hinfo HQ.
  eapply wp_update_dl; [apply fc_queues|apply Hf|apply Hf|done|done|].
  intros s' Ht Hv Hit. destruct (env_eq_touched _ _ _ Ht) as [He _].
  apply HQ; [by eapply focus_step|apply He|apply He|by apply blocks_in_piece_env].
Qed.

Lemma wp_focus_set_block j x (Q : unit → picker → Prop) :
  0 ≤ j < vsize bs →
  (∀ s' bs', bs⟦j := x⟧ = Some bs' → focus i s0 s' p dp bs' it →
     m_blocks_per_piece s' = m_blocks_per_piece s →
     blocks_in_piece i s' = blocks_in_piece i s → Q tt s') →
  wp (set_block span_of j x) s Q.
Proof using Hf.
  intros Hj HQ. eapply wp_set_block; [apply fc_queues|apply Hf|done|].
  intros s' bs' Hset Ht Hv Hit. destruct (env_eq_touched _ _ _ Ht) as [He _].
  eapply HQ; [done|eapply focus_step; [done|done|apply Hit, Hf]|apply He|].
  by apply blocks_in_piece_env.
Qed.

(** the tallies are not involved *)
Lemma focus_tal t : focus i (set_tal t s0) (set_tal t s) p dp bs it.
Proof using Hf.
  destruct Hf as [[[? ? ? ? ? ?] [[? ?] ?] ? ?] [x []] H3 H4 H5 H6 H7 H8 H9].
  by split; [split; [split|split; [split|]|..]|exists x|..].
Qed.

Lemma static_same_seen s' p' :
  (∀ j, seen s' j = if j =? i then Some (norm p') else seen s j) → static p' = static p →
  static_eq s0 s'.
Proof using Hf.
  intros Hseen Hst j. rewrite Hseen, <-(fc_static _ _ _ _ _ _ _ Hf).
  destruct (Z.eqb_spec j i) as [->|]; [|done]. unfold seen.
  rewrite (fc_piece _ _ _ _ _ _ _ Hf). cbn. by rewrite !static_norm, Hst.
Qed.

Lemma static_restated n dp' q : static (restated n dp' q) = static q.
Proof using. unfold restated. by destruct (bool_decide _). Qed.

Lemma wp_focus_update_piece_state (Q : dl_iterator → picker → Prop) :
  (∀ it' s' p', focus i s0 s' p' dp bs it' → static p' = static p →
     (0 < blocks_used dp → download_queue p' = proper_queue (blocks_in_piece i s) p' dp) →
     m_blocks_per_piece s' = m_blocks_per_piece s →
     blocks_in_piece i s' = blocks_in_piece i s → Q it' s') →
  wp (update_piece_state it) s Q.
Proof using Hf Rok.
  intros HQ. pose proof Hf as [H1 [x H2] H3 H4 H5 H6 H7 H8 H9].
  eapply wp_update_piece_state; [apply H1|apply H1|done|done|done|].
  intros it' s' p' He Hl Hq Hit Hseen Hv.
  destruct (seen_Some s' i (norm p')) as (q & Hqi & Hnq); [by rewrite Hseen, Z.eqb_refl|].
  assert (Hst : static q = static p)
    by (rewrite <-(static_norm q), Hnq, static_norm; apply static_restated).
  eapply (HQ it' s' q); [split; try done|exact Hst| | |].
  - eapply almost_ok_step; try done. intros j Hj. rewrite Hseen. by destruct (Z.eqb_spec j i).
  - exists x. by etransitivity.
  - eapply static_same_seen; [exact Hseen|]. apply static_restated.
  - intros j Hj. by rewrite Hv, H4.
  - intros j Hj. rewrite Hseen. destruct (Z.eqb_spec j i); [done|auto].
  - by rewrite (static_have _ _ Hst).
  - by rewrite Hv.
  - intros Hused. change (download_queue q) with (download_queue (norm q)). rewrite Hnq.
    change (download_queue (norm p')) with (download_queue p'). unfold p'.
    rewrite restated_queue by done. unfold proper_queue.
    by rewrite (static_filtered _ _ Hst).
  - apply He.
  - by apply blocks_in_piece_env.
Qed.

(** the state of the piece changes within its queue *)
Lemma wp_focus_set_state g c (Q : unit → picker → Prop) :
  g p = with_state p c →
  download_queue (with_state p c) = download_queue p →
  download_state p ≠ piece_full → download_state p ≠ piece_finished →
  (∀ s' p', focus i s0 s' p' dp bs it → static p' = static p →
     download_queue p' = download_queue p → m_blocks_per_piece s' = m_blocks_per_piece s →
     blocks_in_piece i s' = blocks_in_piece i s → Q tt s') →
  wp (prio ← reads (priority_of i); update_piece_pos i g ;; update_if_listed i prio) s Q.
Proof using Hf Rok.
  intros Hg Hqueue Hnf Hnfin HQ. pose proof Hf as [H1 [x H2] H3 H4 H5 H6 H7 H8 H9].
  apply wp_bind. eapply wp_reads. { unfold priority_of. by rewrite H6. }
  eapply wp_set_state; [apply H1|done|exact Hg|done|done|]. intros s' Hre.
  destruct (reseen_same_queue _ _ _ _ _ H1 H6 Hqueue Hre) as (Ha & Hv & Hit & q & Hq & Hnq).
  pose proof (rn_env _ _ _ _ _ Hre) as He. pose proof (rn_seen _ _ _ _ _ Hre) as Hseen.
  assert (Hst : static q = static p) by by rewrite <-(static_norm q), Hnq, static_norm.
  eapply (HQ s' q); [split; try done|done| | |].
  - exists x. by etransitivity.
  - by eapply static_same_seen.
  - intros j Hj. by rewrite Hv, H4.
  - intros j Hj. rewrite Hseen. destruct (Z.eqb_spec j i); [done|auto].
  - by rewrite (static_have _ _ Hst).
  - by rewrite Hv.
  - by apply Hit.
  - change (download_queue q) with (download_queue (norm q)). by rewrite Hnq.
  - apply He.
  - by apply blocks_in_piece_env.
Qed.
End focus.

(** ** The beginning of an operation on a piece without a record *)

Record opened (i : Z) (s0 s : picker) (p : piece_pos) : Prop := {
  op_list : list_ok s;
  op_hollow : hollow i s;
  op_pads : pads_ok s;
  op_fit : slices_fit s;
  op_env : ∃ x, env_eq (set_extents x s0) s;
  op_static : static_eq s0 s;
  op_seen : ∀ j, j ≠ i → seen s j = seen s0 j;
  op_views : ∀ j, view s j = view s0 j;
  op_piece : piece_map i s = Some p;
  op_queue : download_queue p = piece_downloading;
  op_have : have p = false
}.

Lemma queue_open_state p : download_queue p = piece_open → download_state p = piece_open.
Proof. unfold download_queue. by destruct (download_state p). Qed.

Lemma wp_open s i p c (Q : unit → picker → Prop) :
  core_ok s → piece_map i s = Some p → download_queue p = piece_open → have p = false →
  slices_fit s → download_queue (with_state p c) = piece_downloading →
  (∀ s' p', opened i s s' p' → static p' = static p → Q tt s') →
  wp (update_piece_pos i (λ p, with_state p c) ;; update_if_listed i (priority (m_seeds s) p)) s Q.
Proof.
  intros Hc Hp Ho Hh Hfit Hq HQ. pose proof (queue_open_state _ Ho) as Hst.
  eapply wp_set_state; [apply Hc|done|done|congruence|congruence|]. intros s' Hre.
  destruct (reseen_hollow _ _ _ _ _ Hc Hp Ho Hre) as (Hhol & Hpads & Hv & q & Hqi & Hnq).
  destruct Hre as [He Hl Hd Hseen].
  assert (Hsq : static q = static p) by by rewrite <-(static_norm q), Hnq, static_norm.
  eapply (HQ s' q); [split; try done|done].
  - unfold slices_fit. rewrite Hd. destruct He. by rewrite ev_blocks.
  - exists (m_recent_extents s). by destruct He.
  - intros j. rewrite Hseen. destruct (Z.eqb_spec j i) as [->|]; [|done].
    unfold seen. rewrite Hp. cbn. by rewrite !static_norm.
  - intros j Hj. rewrite Hseen. by destruct (Z.eqb_spec j i).
  - change (download_queue q) with (download_queue (norm q)). by rewrite Hnq.
  - by rewrite (static_have _ _ Hsq).
Qed.

Lemma opened_extents i s0 s p e : opened i s0 s p → opened i s0 (set_extents e s) p.
Proof.
  intros [[] [Hz Hd] H3 H4 [x H5] H6 H7 H8 H9 H10 H11]. split; try done.
  - split; [by destruct Hz|done].
  - exists e. by destruct H5.
Qed.

Lemma wp_opened_add i s0 s p (Q : dl_iterator → picker → Prop) :
  core_ok s0 → opened i s0 s p →
  (∀ it s' p' x, let dp := fresh_record s0 i x in
     focus i s0 s' p' dp (fresh_blocks s0 i) it → static p' = static p →
     (0 < blocks_used dp → download_queue p' = proper_queue (blocks_in_piece i s') p' dp) →
     Q it s') →
  wp (add_download_piece i) s Q.
Proof.
  intros Hc [H1 H2 H3 H4 [e H5] H6 H7 H8 H9 H10 H11] HQ.
  assert (Hlen : blocks_in_piece i s = blocks_in_piece i s0) by by rewrite (blocks_in_piece_env i _ _ H5).
  assert (Hfb : fresh_blocks s i = fresh_blocks s0 i).
  { unfold fresh_blocks. rewrite Hlen. f_equal. unfold fresh_block, pad_at.
    by rewrite (ev_pad_blocks _ _ H5), (ev_blocks _ _ H5). }
  eapply wp_add_download_piece; try done. intros it x s' dp p' He Hl Hq Hit Hseen Hv Hvs.
  assert (Hdp : dp = fresh_record s0 i x) by (unfold dp, fresh_record; by rewrite Hfb).
  rewrite Hfb in Hv. rewrite Hdp in Hv.
  destruct (seen_Some s' i (norm p')) as (q & Hqi & Hnq); [by rewrite Hseen, Z.eqb_refl|].
  assert (Hsp : static p' = static p) by (unfold p'; apply static_restated).
  assert (Hst : static q = static p) by by rewrite <-(static_norm q), Hnq, static_norm.
  eapply (HQ it s' q x); [split; try done|exact Hst|].
  - split; [done|done|by eapply pads_ok_env|]. intros j Hj.
    apply (piece_dl_ok_eq s0); [by rewrite (blocks_in_piece_env j _ _ He), (blocks_in_piece_env j _ _ H5)| |by rewrite Hvs, H8|apply Hc].
    rewrite Hseen. destruct (Z.eqb_spec j i); [done|auto].
  - exists e. by etransitivity.
  - intros j. rewrite Hseen, <-H6. destruct (Z.eqb_spec j i) as [->|]; [|done].
    unfold seen. rewrite H9. cbn. by rewrite !static_norm, Hsp.
  - intros j Hj. by rewrite Hvs, H8.
  - intros j Hj. rewrite Hseen. destruct (Z.eqb_spec j i); [done|auto].
  - by rewrite (static_have _ _ Hst).
  - intros Hused. change (download_queue q) with (download_queue (norm q)). rewrite Hnq.
    change (download_queue (norm p')) with (download_queue p'). unfold p'. rewrite <-Hdp in Hused.
    rewrite restated_queue by done. unfold proper_queue. rewrite <-Hdp.
    rewrite (static_filtered _ _ Hst), (blocks_in_piece_env i _ _ He). done.
Qed.

(** ** The end of an operation *)

(** whether the hash check of the piece that is being downloaded has passed *)
Definition passed_at (s : picker) (i : Z) : bool :=
  match view s i with Some (dp, _) => passed_hash_check dp | None => false end.

(** block [j] of piece [i] has become [x], the hash check of the piece has
    passed or not according to [b], everything else is as it was *)
Record marked_as (b : bool) (s s' : picker) (i j : Z) (x : block_info) : Prop := {
  mk_core : core_ok s';
  mk_env : ∃ e, env_eq (set_extents e s) s';
  mk_static : static_eq s s';
  mk_block : ∀ k, 0 ≤ k < blocks_in_piece i s →
    block_at s' i k = if k =? j then x else block_at s i k;
  mk_others : ∀ l, l ≠ i → view s' l = view s l;
  mk_passed : passed_at s' i = b
}.

Definition marked (s s' : picker) (i j : Z) (x : block_info) : Prop :=
  marked_as (passed_at s i) s s' i j x.

Lemma focus_core i s0 s p dp bs it :
  focus i s0 s p dp bs it → counts_ok dp bs → 0 < blocks_used dp →
  download_queue p = proper_queue (blocks_in_piece i s) p dp → core_ok s.
Proof.
  intros [H1 H2 H3 H4 H5 H6 H7 H8 H9] Hc Hu Hq. eapply almost_ok_core; [done|].
  intros q dp' bs' Hs Hv. rewrite H8 in Hv. injection Hv as <- <-.
  unfold seen in Hs. rewrite H6 in Hs. injection Hs as <-. split; try done.
  by rewrite have_norm.
Qed.

Lemma focus_marked i s0 s p dp bs it j x b :
  focus i s0 s p dp bs it → counts_ok dp bs → 0 < blocks_used dp →
  download_queue p = proper_queue (blocks_in_piece i s) p dp →
  (∀ k, 0 ≤ k < blocks_in_piece i s0 → bs⟦k⟧ = Some (if k =? j then x else block_at s0 i k)) →
  passed_hash_check dp = b → marked_as b s0 s i j x.
Proof.
  intros Hf Hc Hu Hq Hb Hpass. split; [by eapply focus_core|apply Hf|apply Hf| |apply Hf|].
  - intros k Hk. eapply block_at_view; [apply Hf|auto].
  - rewrite <-Hpass. unfold passed_at. by rewrite (fc_view _ _ _ _ _ _ _ Hf).
Qed.

Lemma focus_passed i s p dp bs it : focus i s s p dp bs it → passed_hash_check dp = passed_at s i.
Proof. intros Hf. unfold passed_at. by rewrite (fc_view _ _ _ _ _ _ _ Hf). Qed.

Lemma counts_fresh s i x : counts_ok (fresh_record s i x) (fresh_blocks s i).
Proof.
  assert (Hc : ∀ st k j, st ≠ state_finished → st ≠ state_none →
    count st (fresh_from (fresh_block s i) k j) = 0).
  { intros st k. induction k as [|k IH]; intros j H1 H2; [done|]. cbn [fresh_from count].
    rewrite IH by done. unfold fresh_block. cbn [bstate].
    destruct (pad_at s i j); by rewrite bool_decide_eq_false_2. }
  split; [done|symmetry; by apply Hc|symmetry; by apply Hc|].
  intros j b Hb. unfold fresh_blocks in Hb. pose proof (vget_Some_range _ _ _ Hb) as Hr.
  rewrite fresh_from_size in Hr. rewrite fresh_from_get in Hb by done. injection Hb as <-.
  unfold block_ok, fresh_block. cbn. by destruct (pad_at _ _ _).
Qed.

(** a piece is open when it has no record *)
Lemma view_open s i p :
  queues_ok s → piece_map i s = Some p →
  (view s i = None ↔ download_queue p = piece_open).
Proof.
  intros Hs Hp. assert (Hq : queue_of (pieces s) i = Some (download_queue p)).
  { unfold queue_of. change ((pieces s)⟦i⟧) with (piece_map i s). by rewrite Hp. }
  rewrite <-(record_of_state _ _ _ (qs_dls s Hs) _ _ Hq). unfold view, view_of.
  by destruct (record_of (dls s) i).
Qed.

(** the beginning of an operation on a piece with a record *)
Lemma wp_find s i p (Q : dl_iterator → picker → Prop) :
  core_ok s → piece_map i s = Some p → download_queue p ≠ piece_open →
  (∀ it dp bs, focus i s s p dp bs it → counts_ok dp bs → 0 < blocks_used dp →
     download_queue p = proper_queue (blocks_in_piece i s) p dp →
     (∀ k, 0 ≤ k < blocks_in_piece i s → bs⟦k⟧ = Some (block_at s i k)) → Q it s) →
  wp (reads (find_dl_piece (queue_number (download_queue p)) i)) s Q.
Proof.
  intros Hc Hp Hq HQ. destruct (view s i) as [[dp bs]|] eqn:Hv.
  2: { apply (view_open s i p (ck_queues _ Hc) Hp) in Hv. done. }
  assert (Hseen : seen s i = Some (norm p)) by (unfold seen; by rewrite Hp).
  destruct (ck_pieces _ Hc i _ _ _ Hseen Hv) as [Hh Hcnt Hu Hqu].
  destruct (find_dl_piece_view s (ck_queues _ Hc) i dp bs Hv p Hp) as (it & Hfind & Hit).
  eapply wp_reads; [exact Hfind|]. apply (HQ it dp bs); try done.
  - split; try done; [by apply core_ok_almost|by exists (m_recent_extents s)|].
    by rewrite <-have_norm.
  - intros k Hk. rewrite <-(view_size s (ck_queues _ Hc) i dp bs Hv) in Hk.
    destruct (vget_is_Some bs k Hk) as [b Hb]. unfold block_at. by rewrite Hv, Hb.
Qed.
End marks.
