(* ===== verification/PickerDownloading.v ===== *)
(** [mark_as_downloading] and [mark_as_writing]: what they return, change and
    keep. *)

From stdpp Require Import gmap.
From S2P Require Import Prelude.
From S2P Require Import Random.
From S2P Require Import PiecePicker.
From S2P Require Import PickerBuckets.
From S2P Require Import PickerRebuild.
From S2P Require Import PickerState.
From S2P Require Import PickerOps.
From S2P Require Import PickerBlocks.
From S2P Require Import PickerInv.
From S2P Require Import PickerAvail.
From S2P Require Import PickerDls.
From S2P Require Import PickerSteps.
From S2P Require Import PickerCore.
From S2P Require Import PickerMarks.

Open Scope Z_scope.

Section downloading.
Context {R : StdRandom} {Rok : StdRandomOk R}.

(** ** [record_downloading_piece] *)

Lemma extent_loop_total l p prio all s :
  (∀ k, k ∈ l → 0 ≤ k < num_pieces s) → ∃ r, extent_loop l p prio all s = Some r.
Proof.
  revert all. induction l as [|k l IH]; intros all Hl; [by eexists|]. cbn.
  assert (Hrest : ∀ k, k ∈ l → 0 ≤ k < num_pieces s) by (intros; apply Hl; by right).
  destruct (k =? p); [by apply IH|].
  destruct (vget_is_Some (m_piece_map (lay s)) k) as [q Hq]; [apply Hl; left|].
  unfold piece_map. rewrite Hq. cbn. destruct (negb _); [by eexists|by apply IH].
Qed.

Lemma set_extents_same s : set_extents (m_recent_extents s) s = s.
Proof. by destruct s. Qed.

Lemma wp_record_downloading_piece s i (Q : unit → picker → Prop) :
  sizes_ok s → 0 ≤ i < num_pieces s → (∀ e, Q tt (set_extents e s)) →
  wp (record_downloading_piece i) s Q.
Proof.
  intros [Hn Hl] Hi HQ. pose proof (HQ (m_recent_extents s)) as Hsame.
  rewrite set_extents_same in Hsame. unfold record_downloading_piece. wstep.
  destruct (Z.leb_spec max_piece_affinity_extent (m_blocks_per_piece s)) as [|Hlt];
    [by wstep|].
  assert (Hsize : 0 < Z.quot max_piece_affinity_extent (m_blocks_per_piece s))
    by (apply Z.quot_str_pos; lia).
  assert (Hg1 : negb (m_blocks_per_piece s =? 0) = true) by (apply negb_true_iff, Z.eqb_neq; lia).
  assert (Hg2 : negb (Z.quot max_piece_affinity_extent (m_blocks_per_piece s) =? 0) = true)
    by (apply negb_true_iff, Z.eqb_neq; lia).
  set (size := Z.quot max_piece_affinity_extent (m_blocks_per_piece s)) in *.
  apply wp_bind. eapply wp_reads.
  { unfold extent_for. rewrite Hg1. fold size. rewrite Hg2. reflexivity. }
  wstep. case_bool_decide; [by wstep|].
  destruct (vget_is_Some (m_piece_map (lay s)) i Hi) as [q Hq].
  apply wp_bind. eapply wp_reads.
  { unfold piece_priority_of, piece_map. rewrite Hq. reflexivity. }
  apply wp_bind. eapply wp_reads.
  { unfold extent_pieces. rewrite Hg1. reflexivity. }
  fold size. set (l := map _ (seq 0 _)).
  destruct (extent_loop_total l i (piece_priority q) true s) as [r Hr].
  { intros k Hk. unfold l in Hk. apply list_elem_of_fmap in Hk as (t & -> & Ht).
    apply elem_of_seq in Ht. pose proof (Z.quot_pos i size ltac:(lia) ltac:(lia)). nia. }
  apply wp_bind. eapply wp_reads; [exact Hr|].
  destruct r as [[]|]; [by wstep| |by wstep].
  destruct (_ <? 5); wstep; [apply HQ|done].
Qed.

(** ** [mark_as_downloading] *)

Definition requested_block (b : block_info) (pr : torrent_peer) : block_info :=
  BlockInfo pr (num_peers b + 1) state_requested.

Lemma mark_new s i j pr opts p :
  core_ok s → piece_map i s = Some p → have p = false → 0 ≤ j < blocks_in_piece i s →
  download_queue p = piece_open → slices_fit s →
  wp (mark_as_downloading (PieceBlock i j) pr opts) s (λ r s',
    r = requestable (block_at s i j) ∧
    marked s s' i j (if requestable (block_at s i j) then requested_block (block_at s i j) pr
                     else block_at s i j)).
Proof.
  intros Hc Hp Hh Hj Hq Hfit. unfold mark_as_downloading. cbn [piece_index block_index].
  pose proof (proj2 (view_open s i p (ck_queues _ Hc) Hp) Hq) as Hnone.
  assert (Hb : ∀ k, block_at s i k = fresh_block s i k)
    by (intros k; unfold block_at; by rewrite Hnone).
  assert (Hpass : passed_at s i = false) by (unfold passed_at; by rewrite Hnone).
  wstep. rewrite bool_decide_eq_true_2 by done.
  apply wp_bind. eapply wp_reads. { unfold priority_of. by rewrite Hp. }
  apply wp_regroup1. eapply wp_open; try done.
  { by destruct (opt_reverse opts). }
  intros s1 p1 Ho Hst1. apply wp_bind.
  assert (Hrest : ∀ s2, opened i s s2 p1 → wp
    (it ← add_download_piece i; dp ← reads (deref it); sp ← reads (blocks_for_piece dp);
     info ← reads (get_block sp j);
     if bool_decide (bstate info = state_finished) then mret false
     else set_block sp j (BlockInfo pr 1 state_requested);;
          update_dl it (λ dp, with_requested dp (requested dp + 1));;
          update_piece_state it;; mret true) s2
    (λ r s', r = requestable (block_at s i j) ∧
      marked s s' i j (if requestable (block_at s i j) then requested_block (block_at s i j) pr
                       else block_at s i j))).
  2: { destruct (piece_extent_affinity opts); [|by wstep; apply Hrest].
       eapply wp_record_downloading_piece; [apply Ho| |].
       - by eapply vget_Some_range, (op_piece _ _ _ _ Ho).
       - intros e. by apply Hrest, opened_extents. }
  clear s1 Ho. intros s1 Ho. rewrite Hb. apply wp_bind. eapply wp_opened_add; [done|done|].
  intros it s2 p2 x dp Hf Hst2 Hqu. pose proof (counts_fresh s i x) as Hcnt. fold dp in Hcnt.
  apply wp_bind. eapply wp_reads; [by eapply focus_deref|].
  apply wp_bind. eapply wp_reads; [by eapply focus_span|].
  assert (Hz : sizes_ok s) by apply (ck_queues _ Hc).
  pose proof (fresh_blocks_get s i j Hz Hj) as Hget.
  pose proof (fresh_blocks_size s i Hz) as Hsize.
  apply wp_bind. eapply wp_reads. { rewrite (focus_get_block _ _ _ _ _ _ _ Hf). exact Hget. }
  assert (Hall : ∀ k, 0 ≤ k < blocks_in_piece i s →
    (fresh_blocks s i)⟦k⟧ = Some (block_at s i k)).
  { intros k Hk. rewrite Hb. by apply fresh_blocks_get. }
  rewrite (focus_blocks _ _ _ _ _ _ _ Hf) in Hqu.
  destruct (pad_at s i j) eqn:Hpad.
  - assert (Hx : fresh_block s i j = BlockInfo nullptr 0 state_finished)
      by (unfold fresh_block; by rewrite Hpad).
    rewrite Hx. cbn. apply wp_ret. split; [done|].
    assert (Hu : 0 < blocks_used dp).
    { pose proof (count_pos state_finished (fresh_blocks s i) j _ Hget ltac:(by rewrite Hx)).
      unfold blocks_used, dp, fresh_record. cbn [requested finished writing]. lia. }
    eapply focus_marked; [done|done|done| | |done].
    + rewrite (focus_blocks _ _ _ _ _ _ _ Hf). auto.
    + intros k Hk. rewrite Hall by done. destruct (Z.eqb_spec k j) as [->|]; [|done].
      by rewrite Hb, Hx.
  - assert (Hx : fresh_block s i j = BlockInfo nullptr 0 state_none)
      by (unfold fresh_block; by rewrite Hpad).
    rewrite Hx. cbn [bstate]. rewrite bool_decide_eq_false_2 by done.
    change (requestable _) with true. cbn [num_peers]. rewrite Hx in Hget.
    apply wp_bind. eapply (wp_focus_set_block _ _ _ _ _ _ _ Hf); [lia|].
    intros s3 bs' Hset Hf3 _ Hbl3. apply wp_bind.
    eapply (wp_focus_update_dl _ _ _ _ _ _ _ Hf3); [done|done|]. intros s4 Hf4 _ _ Hbl4.
    apply wp_bind. eapply (wp_focus_update_piece_state _ _ _ _ _ _ _ Hf4).
    intros it' s5 p5 Hf5 _ Hqu5 _ Hbl5. apply wp_ret. split; [done|].
    assert (Hcnt' : counts_ok (with_requested dp (requested dp + 1)) bs')
      by (eapply counts_ok_set; [exact Hcnt|exact Hget|exact Hset|done|counters..]).
    assert (Hu : 0 < blocks_used (with_requested dp (requested dp + 1))).
    { unfold blocks_used. destruct Hcnt'.
      pose proof (count_range state_finished bs'). pose proof (count_range state_writing bs').
      change (requested (with_requested dp (requested dp + 1))) with 1. lia. }
    eapply focus_marked; [exact Hf5|exact Hcnt'|exact Hu|rewrite Hbl5; auto| |done].
    intros k Hk. rewrite (vset_get _ _ _ _ _ Hset). destruct (k =? j); [done|auto].
Qed.

(** one more peer is counted, and the piece is in reverse order no more *)
Lemma wp_mark_tail s0 s i j opts p dp bs it sp info :
  focus i s0 s p dp bs it → sp = span_of i s dp → bs⟦j⟧ = Some info →
  (∀ bs', bs⟦j := with_num_peers info (num_peers info + 1)⟧ = Some bs' → counts_ok dp bs') →
  (∀ k, 0 ≤ k < blocks_in_piece i s0 → k ≠ j → bs⟦k⟧ = Some (block_at s0 i k)) →
  0 < blocks_used dp → download_queue p = proper_queue (blocks_in_piece i s) p dp →
  passed_hash_check dp = passed_at s0 i →
  wp (info ← reads (get_block sp j);
      set_block sp j (with_num_peers info (num_peers info + 1));;
      p ← reads (piece_map i);
      (if negb (opt_reverse opts) && reverse p then
         prio ← reads (priority_of i);
         update_piece_pos i unreverse;;
         update_if_listed i prio
       else mret tt);;
      mret true) s
    (λ r s', r = true ∧ marked s0 s' i j (with_num_peers info (num_peers info + 1))).
Proof.
  intros Hf -> Hj Hcnt Hk Hu Hq Hpass. apply wp_bind. eapply wp_reads.
  { rewrite (focus_get_block _ _ _ _ _ _ _ Hf). exact Hj. }
  apply wp_bind. eapply (wp_focus_set_block _ _ _ _ _ _ _ Hf); [by eapply vget_Some_range|].
  intros s1 bs' Hset Hf1 _ Hbl1. apply wp_bind. eapply wp_reads; [apply Hf1|].
  assert (Hend : ∀ s' p', focus i s0 s' p' dp bs' it → static p' = static p →
    download_queue p' = download_queue p → blocks_in_piece i s' = blocks_in_piece i s →
    marked s0 s' i j (with_num_peers info (num_peers info + 1))).
  { intros s' p' Hf' Hst Hqq Hbl. eapply focus_marked; [exact Hf'|auto|done| | |done].
    - rewrite Hqq, Hq, Hbl. symmetry. by apply proper_queue_static.
    - intros k Hkr. rewrite (vset_get _ _ _ _ _ Hset). destruct (Z.eqb_spec k j); [done|auto]. }
  apply wp_bind. destruct (negb (opt_reverse opts) && reverse p) eqn:Hrev.
  2: { wstep. wstep. split; [done|]. by eapply Hend. }
  apply andb_prop in Hrev as [_ Hrev]. unfold reverse in Hrev.
  destruct (unreverse_state p) as (c & Hc & Hcq).
  eapply (wp_focus_set_state _ _ _ _ _ _ _ Hf1 unreverse c _ Hc Hcq);
    [intros E; by rewrite E in Hrev..|].
  intros s2 p2 Hf2 Hst2 Hq2 _ Hbl2. wstep. split; [done|]. eapply Hend; [done|done|done|congruence].
Qed.

Lemma mark_again s i j pr opts p :
  core_ok s → piece_map i s = Some p → 0 ≤ j < blocks_in_piece i s →
  download_queue p ≠ piece_open → num_peers (block_at s i j) + 1 < 2 ^ 14 →
  wp (mark_as_downloading (PieceBlock i j) pr opts) s (λ r s',
    r = requestable (block_at s i j) ∧
    marked s s' i j (if requestable (block_at s i j) then requested_block (block_at s i j) pr
                     else block_at s i j)).
Proof.
  intros Hc Hp Hj Hq Hnp. unfold mark_as_downloading. cbn [piece_index block_index].
  wstep. rewrite bool_decide_eq_false_2 by done. apply wp_bind.
  eapply wp_find; [done|done|done|]. intros it dp bs Hf Hcnt Hu Hqu Hall.
  apply wp_bind. eapply wp_reads; [by eapply focus_deref|].
  apply wp_bind. eapply wp_reads; [by eapply focus_span|].
  pose proof (focus_passed _ _ _ _ _ _ Hf) as Hpass.
  pose proof (Hall j Hj) as Hget. set (info := block_at s i j) in *.
  apply wp_bind. eapply wp_reads. { rewrite (focus_get_block _ _ _ _ _ _ _ Hf). exact Hget. }
  pose proof (co_blocks _ _ Hcnt _ _ Hget) as Hbok.
  assert (Hreq : requestable info = negb (bool_decide (bstate info = state_writing)
                                          || bool_decide (bstate info = state_finished))).
  { unfold requestable. by destruct (bstate info). }
  rewrite Hreq. destruct (bool_decide (bstate info = state_writing) || _) eqn:Hdone; cbn [negb].
  { wstep. split; [done|]. eapply focus_marked; try done.
    intros k Hk. rewrite Hall by done. by destruct (Z.eqb_spec k j) as [->|]. }
  assert (Hst : bstate info = state_none ∨ bstate info = state_requested).
  { destruct (bstate info); try done; [by left|by right]. }
  assert (Hnotfin : requested dp = 0 → download_queue p ≠ piece_full ∧ download_queue p ≠ piece_finished).
  { intros Hr0. rewrite Hqu. unfold proper_queue. destruct (filtered p); [done|].
    pose proof (counts_used _ _ Hcnt) as Hus. rewrite (focus_size _ _ _ _ _ _ _ Hf) in Hus.
    destruct Hst as [Hst|Hst].
    - pose proof (count_pos _ _ _ _ Hget Hst). by destruct (Z.ltb_spec (blocks_used dp) (blocks_in_piece i s)); [|lia].
    - pose proof (count_pos _ _ _ _ Hget Hst). pose proof (co_requested _ _ Hcnt). lia. }
  set (sp := span_of i s dp). apply wp_bind.
  match goal with |- wp _ _ (λ _ s', wp ?k s' ?Q) =>
    assert (Hrest : ∀ s1 p1, focus i s s1 p1 dp bs it → static p1 = static p →
      download_queue p1 = download_queue p → span_of i s1 dp = sp →
      blocks_in_piece i s1 = blocks_in_piece i s → wp k s1 Q) end.
  2: { destruct (opt_reverse opts && negb (reverse p) && (requested dp =? 0)) eqn:Hrev.
       2: { wstep. by eapply Hrest. }
       apply andb_prop in Hrev as [Hrev Hr0]. apply andb_prop in Hrev as [_ Hrev].
       apply Z.eqb_eq in Hr0. destruct (Hnotfin Hr0) as [Hnf Hnfin].
       destruct (make_reverse_state p) as (c & Hcg & Hcq).
       eapply (wp_focus_set_state _ _ _ _ _ _ _ Hf make_reverse c _ Hcg Hcq).
       - intros E. apply Hnf. unfold download_queue. by rewrite E.
       - intros E. apply Hnfin. unfold download_queue. by rewrite E.
       - intros s1 p1 Hf1 Hs1 Hq1 Hb1 Hbl1. eapply Hrest; try done.
         unfold span_of. by rewrite Hb1, Hbl1. }
  intros s1 p1 Hf1 Hs1 Hq1 Hsp1 Hbl1. clear Hf Hp Hc.
  rewrite <-Hsp1. apply wp_bind.
  eapply (wp_focus_set_block _ _ _ _ _ _ _ Hf1); [by eapply vget_Some_range|].
  intros s2 bs2 Hset2 Hf2 Hn2 Hbl2. rewrite Hsp1.
  assert (Hsp2 : sp = span_of i s2 dp) by (rewrite <-Hsp1; unfold span_of; by rewrite Hn2, Hbl2).
  assert (Hget2 : bs2⟦j⟧ = Some (with_peer info pr))
    by (rewrite (vset_get _ _ _ _ _ Hset2); by rewrite Z.eqb_refl).
  assert (Hall2 : ∀ k, 0 ≤ k < blocks_in_piece i s → k ≠ j → bs2⟦k⟧ = Some (block_at s i k)).
  { intros k Hk Hkj. rewrite (vset_get _ _ _ _ _ Hset2). destruct (Z.eqb_spec k j); [done|auto]. }
  assert (Hnp0 : 0 ≤ num_peers info) by (unfold block_ok in Hbok; destruct (bstate info); lia).
  assert (Hfinal : with_num_peers (BlockInfo pr (num_peers info) state_requested) (num_peers info + 1)
    = requested_block info pr).
  { unfold with_num_peers, requested_block. cbn. by rewrite uint_small by lia. }
  assert (Hok : block_ok (requested_block info pr)) by (unfold block_ok; cbn; lia).
  rewrite <-Hfinal. apply wp_bind. destruct (bool_decide (bstate info = state_requested)) eqn:Hr.
  - apply bool_decide_eq_true in Hr. cbn [negb]. wstep.
    replace (with_peer info pr) with (BlockInfo pr (num_peers info) state_requested) in Hget2
      by (unfold with_peer; by rewrite Hr).
    eapply (wp_mark_tail s s2 i j opts p1 dp bs2 it sp
      (BlockInfo pr (num_peers info) state_requested)); try done.
    + intros bs' Hset. cbn [num_peers] in Hset. rewrite Hfinal in Hset. pose proof (vset_vset _ _ _ _ _ _ Hset2 Hset) as Hset'.
      eapply counts_ok_set; [exact Hcnt|exact Hget|exact Hset'|done|rewrite Hr; cbn [requested_block]; counters..].
    + rewrite Hq1, Hqu, Hbl2, Hbl1. symmetry. by apply proper_queue_static.
  - apply bool_decide_eq_false in Hr. cbn [negb]. destruct Hst as [Hst|Hst]; [|done].
    apply wp_bind. rewrite Hsp2.
    eapply (wp_focus_set_block _ _ _ _ _ _ _ Hf2); [by eapply vget_Some_range|].
    intros s3 bs3 Hset3 Hf3 Hn3 Hbl3. apply wp_bind.
    eapply (wp_focus_update_dl _ _ _ _ _ _ _ Hf3); [done|done|]. intros s4 Hf4 Hn4 _ Hbl4.
    apply wp_bind. eapply (wp_focus_update_piece_state _ _ _ _ _ _ _ Hf4).
    intros it' s5 p5 Hf5 _ Hqu5 Hn5 Hbl5. wstep.
    set (dp' := with_requested dp (requested dp + 1)) in *.
    assert (Hsp5 : span_of i s2 dp = span_of i s5 dp')
      by (unfold span_of; by rewrite Hn5, Hn4, Hn3, Hbl5, Hbl4, Hbl3).
    assert (Hlt : 0 ≤ requested dp < 2 ^ 15 - 1).
    { pose proof (co_requested _ _ Hcnt). pose proof (count_range state_requested bs).
      pose proof (count_sum bs). pose proof (count_pos _ _ _ _ Hget Hst).
      pose proof (count_range state_writing bs). pose proof (count_range state_finished bs).
      pose proof (focus_size _ _ _ _ _ _ _ Hf1) as Hsz.
      pose proof (qs_sizes _ (ao_queues _ _ (fc_almost _ _ _ _ _ _ _ Hf1))) as Hz.
      pose proof (blocks_in_piece_range i s1 Hz). pose proof (sz_blocks _ Hz).
      unfold max_blocks_per_piece in *. lia. }
    assert (Hcf : ∀ bs', bs3⟦j := requested_block info pr⟧ = Some bs' → counts_ok dp' bs').
    { intros bs' Hset. pose proof (vset_vset _ _ _ _ _ _ Hset3 Hset) as Hset'.
      pose proof (vset_vset _ _ _ _ _ _ Hset2 Hset') as Hset''.
      eapply counts_ok_set; [exact Hcnt|exact Hget|exact Hset''|done|rewrite Hst; unfold dp'; cbn [requested_block]; counters..]. }
    assert (Hu' : 0 < blocks_used dp').
    { unfold blocks_used, dp' in *. cbn [requested finished writing with_requested].
      rewrite uint_small by lia. lia. }
    eapply (wp_mark_tail s s5 i j opts p5 dp' bs3 it' _
      (BlockInfo pr (num_peers info) state_requested)); [done|exact Hsp5| | | |done| |exact Hpass].
    + rewrite (vset_get _ _ _ _ _ Hset3), Z.eqb_refl. reflexivity.
    + intros bs' Hset. cbn [num_peers] in Hset. apply Hcf. by rewrite <-Hfinal.
    + intros k Hk Hkj. rewrite (vset_get _ _ _ _ _ Hset3).
      destruct (Z.eqb_spec k j); [done|auto].
    + rewrite Hbl5. auto.
Qed.
End downloading.

(** ** Steps shared by the operations on blocks *)

(** the record, the span and block [j] of a piece in focus *)
Ltac lookup_block Hf Hget :=
  apply wp_bind; eapply wp_reads; [by eapply (focus_deref _ _ _ _ _ _ _ Hf)|];
  apply wp_bind; eapply wp_reads; [by eapply (focus_span _ _ _ _ _ _ _ Hf)|];
  apply wp_bind; eapply wp_reads;
  [rewrite (focus_get_block _ _ _ _ _ _ _ Hf); exact Hget|].

Section writing.
Context {R : StdRandom} {Rok : StdRandomOk R}.

(** a piece without a record gets one *)
Lemma wp_open_add {A} s i p c (rest : dl_iterator → M A) (Q : A → picker → Prop) :
  core_ok s → piece_map i s = Some p → download_queue p = piece_open → have p = false →
  slices_fit s → download_queue (with_state p c) = piece_downloading →
  (∀ it s' p' x, let dp := fresh_record s i x in
     focus i s s' p' dp (fresh_blocks s i) it → counts_ok dp (fresh_blocks s i) →
     (0 < blocks_used dp → download_queue p' = proper_queue (blocks_in_piece i s') p' dp) →
     passed_hash_check dp = passed_at s i →
     (∀ k, 0 ≤ k < blocks_in_piece i s → (fresh_blocks s i)⟦k⟧ = Some (block_at s i k)) →
     wp (rest it) s' Q) →
  wp (prio ← reads (priority_of i); update_piece_pos i (λ p, with_state p c);;
      update_if_listed i prio;; it ← add_download_piece i; rest it) s Q.
Proof.
  intros Hc Hp Ho Hh Hfit Hq HQ.
  pose proof (proj2 (view_open s i p (ck_queues _ Hc) Hp) Ho) as Hnone.
  apply wp_bind. eapply wp_reads. { unfold priority_of. by rewrite Hp. }
  apply wp_regroup1. eapply wp_open; try done. intros s1 p1 Ho1 _. apply wp_bind.
  eapply wp_opened_add; [done|done|]. intros it s2 p2 x dp Hf _ Hqu.
  eapply HQ; [exact Hf|apply counts_fresh|exact Hqu| |].
  - unfold passed_at. by rewrite Hnone.
  - intros k Hk. unfold block_at. rewrite Hnone. apply fresh_blocks_get; [apply Hc|done].
Qed.

(** the block was finished in the new record: it is a pad block *)
Lemma pad_marked s s' i j p dp bs it b :
  focus i s s' p dp bs it → counts_ok dp bs →
  (0 < blocks_used dp → download_queue p = proper_queue (blocks_in_piece i s') p dp) →
  passed_hash_check dp = passed_at s i →
  (∀ k, 0 ≤ k < blocks_in_piece i s → bs⟦k⟧ = Some (block_at s i k)) →
  0 ≤ j < blocks_in_piece i s → b = block_at s i j → bstate b = state_finished →
  marked s s' i j b.
Proof.
  intros Hf Hcnt Hqu Hpass Hall Hj -> Hb.
  assert (Hu : 0 < blocks_used dp).
  { pose proof (count_pos state_finished bs j _ (Hall j Hj) Hb). destruct Hcnt.
    pose proof (count_range state_writing bs). pose proof (count_range state_requested bs).
    unfold blocks_used. lia. }
  eapply focus_marked; [exact Hf|done|done|auto| |done].
  intros k Hk. rewrite Hall by done. by destruct (Z.eqb_spec k j) as [->|].
Qed.

(** the end of an operation that has changed the state of block [j] *)
Lemma wp_finish_block s0 s i j p dp bs it dp0 bs0 b x (Q : dl_iterator → picker → Prop) :
  focus i s0 s p dp bs it → counts_ok dp0 bs0 → bs0⟦j⟧ = Some b → bs0⟦j := x⟧ = Some bs →
  block_ok x →
  (finished dp = finished dp0 - Z.b2z (bool_decide (bstate b = state_finished))
                 + Z.b2z (bool_decide (bstate x = state_finished))) →
  (writing dp = writing dp0 - Z.b2z (bool_decide (bstate b = state_writing))
                + Z.b2z (bool_decide (bstate x = state_writing))) →
  (requested dp = requested dp0 - Z.b2z (bool_decide (bstate b = state_requested))
                  + Z.b2z (bool_decide (bstate x = state_requested))) →
  (∀ k, 0 ≤ k < blocks_in_piece i s0 → bs0⟦k⟧ = Some (block_at s0 i k)) →
  passed_hash_check dp = passed_at s0 i →
  (∀ it' s' p', focus i s0 s' p' dp bs it' → static p' = static p → counts_ok dp bs →
     (0 < blocks_used dp → marked s0 s' i j x) → Q it' s') →
  wp (update_piece_state it) s Q.
Proof.
  intros Hf Hcnt Hj Hset Hx H1 H2 H3 Hall Hpass HQ.
  assert (Hc : counts_ok dp bs) by by eapply counts_ok_set.
  eapply (wp_focus_update_piece_state _ _ _ _ _ _ _ Hf).
  intros it' s' p' Hf' Hst Hqu _ Hbl. eapply HQ; [exact Hf'|done|done|]. intros Hu.
  eapply focus_marked; [exact Hf'|done|done|rewrite Hbl; auto| |done].
  intros k Hk. rewrite (vset_get _ _ _ _ _ Hset). destruct (k =? j); [done|auto].
Qed.

Lemma used_pos dp bs j b :
  counts_ok dp bs → bs⟦j⟧ = Some b → bstate b ≠ state_none → 0 < blocks_used dp.
Proof.
  intros Hc Hj Hb. rewrite (counts_used _ _ Hc). pose proof (count_sum bs).
  pose proof (count_range state_requested bs). pose proof (count_range state_writing bs).
  pose proof (count_range state_finished bs).
  destruct (bstate b) eqn:E; [done| | |]; pose proof (count_pos _ _ _ _ Hj E); lia.
Qed.

(** a counter of a record is below the number of blocks *)
Lemma counter_bound i s0 s p dp bs it :
  focus i s0 s p dp bs it → counts_ok dp bs →
  0 ≤ finished dp ∧ 0 ≤ writing dp ∧ 0 ≤ requested dp ∧
  blocks_used dp + count state_none bs < 2 ^ 15.
Proof.
  intros Hf Hc. rewrite (counts_used _ _ Hc). destruct Hc.
  pose proof (count_range state_requested bs). pose proof (count_range state_writing bs).
  pose proof (count_range state_finished bs). pose proof (focus_size _ _ _ _ _ _ _ Hf) as Hsz.
  pose proof (qs_sizes _ (ao_queues _ _ (fc_almost _ _ _ _ _ _ _ Hf))) as Hz.
  pose proof (blocks_in_piece_range i s Hz). pose proof (sz_blocks _ Hz).
  unfold max_blocks_per_piece in *. lia.
Qed.

Lemma span_of_eq i s s' dp dp' :
  info_idx dp' = info_idx dp → m_blocks_per_piece s' = m_blocks_per_piece s →
  blocks_in_piece i s' = blocks_in_piece i s → span_of i s' dp' = span_of i s dp.
Proof. intros H1 H2 H3. unfold span_of. by rewrite H1, H2, H3. Qed.

(** ** [mark_as_writing] *)

Definition writing_block (pr : torrent_peer) : block_info := BlockInfo pr 0 state_writing.

(** a block that has been received already keeps its state, but not its peer *)
Definition written (s : picker) (i j : Z) (pr : torrent_peer) : block_info :=
  let b := block_at s i j in
  if requestable b then writing_block pr
  else match view s i with None => b | Some _ => with_peer b pr end.

Lemma requestable_states b :
  requestable b = negb (bool_decide (bstate b = state_writing)
                        || bool_decide (bstate b = state_finished)).
Proof. unfold requestable. by destruct (bstate b). Qed.

Lemma write_new s i j pr p :
  core_ok s → piece_map i s = Some p → have p = false → 0 ≤ j < blocks_in_piece i s →
  download_queue p = piece_open → slices_fit s →
  wp (mark_as_writing (PieceBlock i j) pr) s (λ r s',
    r = requestable (block_at s i j) ∧ marked s s' i j (written s i j pr)).
Proof.
  intros Hc Hp Hh Hj Hq Hfit. unfold mark_as_writing. cbn [piece_index block_index].
  pose proof (proj2 (view_open s i p (ck_queues _ Hc) Hp) Hq) as Hnone.
  unfold written. rewrite Hnone.
  wstep. unfold downloading. rewrite (queue_open_state _ Hq). rewrite bool_decide_eq_true_2 by done.
  cbn [negb]. apply wp_bind. eapply wp_reads.
  { unfold have_piece. rewrite Hp. reflexivity. }
  change (index p =? we_have_index) with (have p). rewrite Hh.
  eapply wp_open_add; try done. intros it s1 p1 x dp Hf Hcnt Hqu Hpass Hall.
  pose proof (Hall j Hj) as Hget. set (b := block_at s i j) in *.
  assert (Hb : bstate b = state_none ∨ bstate b = state_finished).
  { unfold b, block_at. rewrite Hnone. unfold fresh_block. cbn. destruct (pad_at s i j); auto. }
  lookup_block Hf Hget. case_bool_decide as Hfin.
  - wstep. unfold requestable. rewrite Hfin. cbn. split; [done|].
    eapply pad_marked; [exact Hf|done..].
  - destruct Hb as [Hb|Hb]; [|done].
    assert (Hr : requestable b = true) by (unfold requestable; by rewrite Hb).
    rewrite Hr. apply wp_bind.
    eapply (wp_focus_set_block _ _ _ _ _ _ _ Hf); [by eapply vget_Some_range|].
    intros s2 bs2 Hset Hf2 _ _. apply wp_bind.
    eapply (wp_focus_update_dl _ _ _ _ _ _ _ Hf2); [done|done|]. intros s3 Hf3 _ _ _.
    apply wp_bind. eapply (wp_finish_block s s3 i j); [exact Hf3|exact Hcnt|exact Hget|exact Hset|
      done|unfold writing_block; rewrite Hb; counters..|exact Hall|exact Hpass|].
    intros it' s4 p4 Hf4 _ Hc4 Hm. wstep. split; [done|]. apply Hm.
    eapply (used_pos _ _ j); [exact Hc4| |]; [by rewrite (vset_get _ _ _ _ _ Hset), Z.eqb_refl|done].
Qed.

Lemma write_again s i j pr p :
  core_ok s → piece_map i s = Some p → 0 ≤ j < blocks_in_piece i s →
  download_queue p ≠ piece_open →
  wp (mark_as_writing (PieceBlock i j) pr) s (λ r s',
    r = requestable (block_at s i j) ∧ marked s s' i j (written s i j pr)).
Proof.
  intros Hc Hp Hj Hq. unfold mark_as_writing. cbn [piece_index block_index].
  wstep. unfold downloading. rewrite bool_decide_eq_false_2
    by (intros E; apply Hq; unfold download_queue; by rewrite E).
  cbn [negb]. apply wp_bind. eapply wp_find; [done|done|done|].
  intros it dp bs Hf Hcnt Hu Hqu Hall. pose proof (focus_passed _ _ _ _ _ _ Hf) as Hpass.
  pose proof (Hall j Hj) as Hget. unfold written. rewrite (fc_view _ _ _ _ _ _ _ Hf).
  set (b := block_at s i j) in *. pose proof (co_blocks _ _ Hcnt _ _ Hget) as Hbok.
  pose proof (counter_bound _ _ _ _ _ _ _ Hf Hcnt) as (Hfb & Hwb & Hrb & Hub).
  pose proof (count_range state_none bs) as Hnb.
  pose proof (co_requested _ _ Hcnt) as Hreq.
  lookup_block Hf Hget. apply wp_bind.
  eapply (wp_focus_set_block _ _ _ _ _ _ _ Hf); [by eapply vget_Some_range|].
  intros s1 bs1 Hset1 Hf1 Hn1 Hbl1. rewrite requestable_states.
  destruct (bool_decide (bstate b = state_writing) || _) eqn:Hdone; cbn [negb].
  - assert (Hnr : bstate b ≠ state_requested) by (intros E; by rewrite E in Hdone).
    rewrite bool_decide_eq_false_2 by done. wstep. wstep. split; [done|].
    eapply focus_marked; [exact Hf1| |done|by rewrite Hbl1| |done].
    + eapply counts_ok_set; [exact Hcnt|exact Hget|exact Hset1|exact Hbok|counters..].
    + intros k Hk. rewrite (vset_get _ _ _ _ _ Hset1). destruct (k =? j); [done|auto].
  - assert (Hst : bstate b = state_none ∨ bstate b = state_requested)
      by (destruct (bstate b); try done; auto).
    assert (Hget1 : bs1⟦j⟧ = Some (with_peer b pr))
      by (rewrite (vset_get _ _ _ _ _ Hset1); by rewrite Z.eqb_refl).
    assert (Hpos : bstate b = state_requested → 0 < requested dp)
      by (intros E; rewrite Hreq; eapply count_pos; [exact Hget|done]).
    assert (Hnone : bstate b = state_none → 0 < count state_none bs)
      by (intros E; eapply count_pos; [exact Hget|done]).
    apply wp_bind.
    assert (Hrest : ∀ s2 dp2, focus i s s2 p dp2 bs1 it → info_idx dp2 = info_idx dp →
      m_blocks_per_piece s2 = m_blocks_per_piece s → blocks_in_piece i s2 = blocks_in_piece i s →
      finished dp2 = finished dp → writing dp2 = writing dp →
      requested dp2 = requested dp - Z.b2z (bool_decide (bstate b = state_requested)) →
      passed_hash_check dp2 = passed_hash_check dp →
      wp (update_dl it (λ dp, with_writing dp (writing dp + 1));;
          set_block (span_of i s dp) j (BlockInfo pr 0 state_writing);;
          update_piece_state it;; mret true) s2
        (λ r s', r = true ∧ marked s s' i j (writing_block pr))).
    { intros s2 dp2 Hf2 Hi2 Hn2 Hbl2 Hfin2 Hw2 Hr2 Hp2. apply wp_bind.
      eapply (wp_focus_update_dl _ _ _ _ _ _ _ Hf2); [done|done|]. intros s3 Hf3 Hn3 _ Hbl3.
      apply wp_bind.
      rewrite <-(span_of_eq i s s3 dp (with_writing dp2 (writing dp2 + 1))) by (done || congruence).
      eapply (wp_focus_set_block _ _ _ _ _ _ _ Hf3); [by eapply vget_Some_range|].
      intros s4 bs4 Hset4 Hf4 _ _. apply wp_bind.
      pose proof (vset_vset _ _ _ _ _ _ Hset1 Hset4) as Hset.
      assert (Hwr : writing dp + 1 < 2 ^ 15).
      { unfold blocks_used in Hub. destruct Hst as [E|E]; [specialize (Hnone E)|specialize (Hpos E)]; lia. }
      eapply (wp_finish_block s s4 i j); [exact Hf4|exact Hcnt|exact Hget|exact Hset|done| | | |
        exact Hall|by cbn; rewrite Hp2|].
      - cbn [finished with_writing]. rewrite Hfin2. destruct Hst as [E|E]; rewrite E; cbn [bstate]; counters.
      - cbn [writing with_writing]. rewrite Hw2, uint_small by lia.
        destruct Hst as [E|E]; rewrite E; cbn [bstate]; counters.
      - cbn [requested with_writing]. rewrite Hr2. cbn [bstate]. counters.
      - intros it' s5 p5 Hf5 _ Hc5 Hm. wstep. split; [done|]. apply Hm.
        eapply (used_pos _ _ j); [exact Hc5| |]; [by rewrite (vset_get _ _ _ _ _ Hset4), Z.eqb_refl|done]. }
    case_bool_decide as Hreqd.
    + specialize (Hpos Hreqd).
      eapply (wp_focus_update_dl _ _ _ _ _ _ _ Hf1); [done|done|]. intros s2 Hf2 Hn2 _ Hbl2.
      eapply Hrest; [exact Hf2|done|congruence|congruence|done|done| |done].
      unfold blocks_used in Hub. cbn [requested with_requested].
      rewrite uint_small by lia. counters.
    + wstep. eapply Hrest; [exact Hf1|done|done|done|done|done| |done]. counters.
Qed.
End writing.
