(* ===== verification/PickerCancel.v ===== *)
(** Giving up blocks: [mark_as_canceled], [write_failed], [abort_download] and
    [restore_piece].  A piece of which no block is in use any more loses its
    record and is open again. *)

From stdpp Require Import gmap.
From S2P Require Import Prelude.
From S2P Require Import Random.
From S2P Require Import PiecePicker.
From S2P Require Import PickerBuckets.
From S2P Require Import PickerRebuild.
From S2P Require Import PickerState.
From S2P Require Import PickerOps.
From S2P Require Import PickerBlocks.
From S2P Require Import PickerDls.
From S2P Require Import PickerInv.
From S2P Require Import PickerAvail.
From S2P Require Import PickerSteps.
From S2P Require Import PickerCore.
From S2P Require Import PickerMarks.


From S2P Require Import PickerDownloading.

Open Scope Z_scope.

Section cancel.
Context {R : StdRandom} {Rok : StdRandomOk R}.

(** ** A piece loses its record *)

(** piece [i] is open again, everything else is as it was *)
Record dropped (s s' : picker) (i : Z) : Prop := {
  dr_core : core_ok s';
  dr_env : ∃ e, env_eq (set_extents e s) s';
  dr_static : static_eq s s';
  dr_view : view s' i = None;
  dr_open : ∃ p, piece_map i s' = Some p ∧ download_state p = piece_open;
  dr_others : ∀ l, l ≠ i → view s' l = view s l
}.

Section erase.
Context (i : Z) (s0 s : picker) (p : piece_pos) (dp : downloading_piece)
  (bs : list block_info) (it : dl_iterator) (Hf : focus i s0 s p dp bs it).

Lemma wp_focus_erase (Q : unit → picker → Prop) :
  (∀ m d, changed (pieces s) m i (with_state p piece_open) → queues_ok (unsettled s m d) →
     view (unsettled s m d) i = None → (∀ j, j ≠ i → view (unsettled s m d) j = view s j) →
     priority_of i (unsettled s m d) = Some (priority (m_seeds s) (with_state p piece_open)) →
     Q tt (unsettled s m d)) →
  wp (erase_download_piece it) s Q.
Proof using Hf.
  intros HQ. eapply wp_erase_download_piece; [apply (fc_queues _ _ _ _ _ _ _ Hf)|apply Hf..|].
  intros m d Hch Hq Hv Hvs. apply (HQ m d); try done.
  unfold priority_of. change (piece_map i (unsettled s m d)) with (m⟦i⟧).
  by rewrite (changed_eq _ _ _ _ Hch).
Qed.

Lemma dropped_reseen m d s' :
  changed (pieces s) m i (with_state p piece_open) → queues_ok (unsettled s m d) →
  view (unsettled s m d) i = None → (∀ j, j ≠ i → view (unsettled s m d) j = view s j) →
  reseen i (with_state p piece_open) d s s' → dropped s0 s' i.
Proof using Hf.
  intros Hch Hq Hv Hvs Hre. pose proof Hf as [H1 [x H2] H3 H4 H5 H6 H7 H8 H9].
  destruct (queues_ok_reseen _ _ _ _ _ _ Hre Hch Hq) as [Hq' Hv'].
  pose proof (rn_env _ _ _ _ _ Hre) as He. pose proof (rn_seen _ _ _ _ _ Hre) as Hseen.
  destruct (seen_Some s' i (norm (with_state p piece_open))) as (q & Hqi & Hnq);
    [by rewrite Hseen, Z.eqb_refl|].
  split.
  - eapply almost_ok_core; [eapply almost_ok_step; [exact H1|done|apply Hre|done| |]|].
    + intros j Hj. rewrite Hseen. by destruct (Z.eqb_spec j i).
    + intros j Hj. by rewrite Hv', Hvs.
    + intros q' dp' bs' _ Hv1. by rewrite Hv', Hv in Hv1.
  - exists x. by etransitivity.
  - eapply (static_same_seen _ _ _ _ _ _ _ Hf); [exact Hseen|done].
  - by rewrite Hv'.
  - exists q. split; [done|]. change (download_state q) with (download_state (norm q)). by rewrite Hnq.
  - intros l Hl. by rewrite Hv', Hvs, H4.
Qed.

Lemma settle_run prev now s1 :
  priority_of i s1 = Some now →
  settle i prev s1 = if m_dirty s1 then Some (tt, s1)
                     else if prev =? now then Some (tt, s1) else relist i prev s1.
Proof using.
  intros Hn. unfold settle, mbind, M_bind, gets, reads. cbn [mbind option_bind].
  destruct (m_dirty s1); [done|]. rewrite Hn. cbn [mbind option_bind].
  by destruct (prev =? now).
Qed.

(** the list is put in order after the record is gone *)
Lemma wp_dropped m d (k : M unit) (Q : unit → picker → Prop) :
  changed (pieces s) m i (with_state p piece_open) → queues_ok (unsettled s m d) →
  view (unsettled s m d) i = None → (∀ j, j ≠ i → view (unsettled s m d) j = view s j) →
  k (unsettled s m d) = settle i (priority (m_seeds s) p) (unsettled s m d) →
  (∀ s', dropped s0 s' i → Q tt s') → wp k (unsettled s m d) Q.
Proof using Hf Rok.
  intros Hch Hq Hv Hvs Hk HQ. unfold wp. rewrite Hk.
  pose proof (ao_list _ _ (fc_almost _ _ _ _ _ _ _ Hf)) as Hl.
  pose proof (lo_map s Hl i p (fc_piece _ _ _ _ _ _ _ Hf)) as Hok.
  eapply (wp_settle_seen s Hl i p (with_state p piece_open) m d); [apply Hf|done|done|done|].
  intros s' Hre. apply HQ. by eapply dropped_reseen.
Qed.
End erase.

Lemma wp_restore_piece s i p :
  core_ok s → piece_map i s = Some p → download_queue p ≠ piece_open →
  wp (restore_piece i) s (λ _ s', dropped s s' i).
Proof.
  intros Hc Hp Hq. unfold restore_piece. wstep. rewrite bool_decide_eq_false_2 by done.
  apply wp_bind. eapply wp_find; [done|done|done|]. intros it dp bs Hf _ _ _ _.
  apply wp_bind. eapply (wp_focus_update_dl _ _ _ _ _ _ _ Hf); [done|done|]. intros s1 Hf1 _ _ _.
  apply wp_bind. eapply wp_reads. { unfold priority_of. by rewrite (fc_piece _ _ _ _ _ _ _ Hf1). }
  apply wp_bind. eapply (wp_focus_erase _ _ _ _ _ _ _ Hf1). intros m d Hch Hqs Hv Hvs Hpr.
  apply wp_bind. eapply wp_reads; [exact Hpr|].
  eapply (wp_dropped _ _ _ _ _ _ _ Hf1); [exact Hch|done..| |done].
  rewrite (settle_run _ _ _ _ Hpr), (Z.eqb_sym (priority _ p)).
  destruct (_ =? priority (m_seeds s1) p); [by destruct (m_dirty _)|].
  unfold mbind, M_bind, gets. by destruct (m_dirty (unsettled s1 m d)).
Qed.

(** the last block in use has been given up *)
Lemma wp_erase_if_unused i s0 s p dp bs it (Q : unit → picker → Prop) :
  focus i s0 s p dp bs it →
  (blocks_used dp = 0 → ∀ s', dropped s0 s' i → Q tt s') →
  (blocks_used dp ≠ 0 → Q tt s) →
  wp (erase_if_unused i it) s Q.
Proof.
  intros Hf Hdrop Hkeep. unfold erase_if_unused.
  apply wp_bind. eapply wp_reads; [by eapply focus_deref|].
  replace (finished dp + writing dp + requested dp) with (blocks_used dp) by (unfold blocks_used; lia).
  destruct (Z.eqb_spec (blocks_used dp) 0) as [Hz|Hnz]; [|wstep; auto].
  apply wp_bind. eapply wp_reads. { unfold priority_of. by rewrite (fc_piece _ _ _ _ _ _ _ Hf). }
  apply wp_bind. eapply (wp_focus_erase _ _ _ _ _ _ _ Hf). intros m d Hch Hqs Hv Hvs Hpr.
  apply wp_bind. eapply wp_reads; [exact Hpr|].
  eapply (wp_dropped _ _ _ _ _ _ _ Hf); [exact Hch|done..| |auto].
  rewrite (settle_run _ _ _ _ Hpr), (Z.eqb_sym (priority _ p)).
  unfold mbind, M_bind, gets. destruct (m_dirty (unsettled s m d)); [done|].
  by destruct (_ =? priority (m_seeds s) p).
Qed.

(** ** [mark_as_canceled] and [write_failed] *)

(** the block has been given up: it is [x], or the piece has lost its record *)
Definition given_up (b : bool) (s s' : picker) (i j : Z) (x : block_info) (left : Z) : Prop :=
  (left ≠ 0 → marked_as b s s' i j x) ∧ (left = 0 → dropped s s' i).

(** the blocks of piece [i] that are in use *)
Definition used_at (s : picker) (i : Z) : Z :=
  match view s i with Some (dp, _) => blocks_used dp | None => 0 end.

Definition canceled_block (b : block_info) (pr : torrent_peer) : block_info :=
  if bool_decide (bstate b = state_finished) then b
  else if bool_decide (bstate b = state_writing) then BlockInfo pr (num_peers b) state_none
  else with_peer b pr.

Lemma cancel_spec s i j pr p :
  core_ok s → piece_map i s = Some p → 0 ≤ j < blocks_in_piece i s →
  download_queue p ≠ piece_open →
  wp (mark_as_canceled (PieceBlock i j) pr) s (λ _ s',
    let b := block_at s i j in
    given_up (passed_at s i) s s' i j (canceled_block b pr)
      (used_at s i - Z.b2z (bool_decide (bstate b = state_writing)))).
Proof.
  intros Hc Hp Hj Hq. unfold mark_as_canceled. cbn [piece_index block_index].
  wstep. rewrite bool_decide_eq_false_2 by done.
  apply wp_bind. eapply wp_find; [done|done|done|]. intros it dp bs Hf Hcnt Hu Hqu Hall.
  pose proof (focus_passed _ _ _ _ _ _ Hf) as Hpass. pose proof (Hall j Hj) as Hget.
  assert (Hused : used_at s i = blocks_used dp)
    by (unfold used_at; by rewrite (fc_view _ _ _ _ _ _ _ Hf)).
  cbn zeta. set (b := block_at s i j) in *. rewrite Hused.
  pose proof (co_blocks _ _ Hcnt _ _ Hget) as Hbok.
  pose proof (counter_bound _ _ _ _ _ _ _ Hf Hcnt) as (Hfb & Hwb & Hrb & Hub).
  pose proof (count_range state_none bs) as Hnb. pose proof (co_writing _ _ Hcnt) as Hwr.
  lookup_block Hf Hget. unfold canceled_block.
  destruct (bool_decide (bstate b = state_finished)) eqn:Hfin.
  { apply bool_decide_eq_true in Hfin. wstep. rewrite Hfin. rewrite bool_decide_eq_false_2 by done.
    cbn [Z.b2z]. split; [intros _|lia]. eapply focus_marked; [exact Hf|done..| |done].
    intros k Hk. rewrite Hall by done. by destruct (Z.eqb_spec k j) as [->|]. }
  apply bool_decide_eq_false in Hfin. apply wp_bind.
  eapply (wp_focus_set_block _ _ _ _ _ _ _ Hf); [by eapply vget_Some_range|].
  intros s1 bs1 Hset1 Hf1 Hn1 Hbl1.
  destruct (bool_decide (bstate b = state_writing)) eqn:Hw.
  2: { apply bool_decide_eq_false in Hw. wstep. cbn [Z.b2z]. split; [intros _|lia].
       eapply focus_marked; [exact Hf1| |done|by rewrite Hbl1| |done].
       - eapply counts_ok_set; [exact Hcnt|exact Hget|exact Hset1|exact Hbok|counters..].
       - intros k Hk. rewrite (vset_get _ _ _ _ _ Hset1). destruct (k =? j); [done|auto]. }
  apply bool_decide_eq_true in Hw. cbn [Z.b2z].
  assert (Hpos : 0 < writing dp) by (rewrite Hwr; eapply count_pos; [exact Hget|done]).
  unfold blocks_used in Hub.
  apply wp_bind. eapply (wp_focus_update_dl _ _ _ _ _ _ _ Hf1); [done|done|].
  intros s2 Hf2 Hn2 _ Hbl2. apply wp_bind.
  rewrite <-(span_of_eq i s s2 dp (with_writing dp (writing dp - 1))) by (done || congruence).
  eapply (wp_focus_set_block _ _ _ _ _ _ _ Hf2).
  { apply vget_Some_range in Hget. by rewrite (vset_size _ _ _ _ Hset1). }
  intros s3 bs3 Hset3 Hf3 _ _. pose proof (vset_vset _ _ _ _ _ _ Hset1 Hset3) as Hset.
  assert (Hx : with_bstate (with_peer b pr) state_none = BlockInfo pr (num_peers b) state_none) by done.
  apply wp_bind. rewrite Hx in Hset.
  eapply (wp_finish_block s s3 i j); [exact Hf3|exact Hcnt|exact Hget|exact Hset| | | | |
    exact Hall|exact Hpass|].
  { unfold block_ok in *. by rewrite Hw in Hbok. }
  1-3: rewrite Hw; counters.
  intros it' s4 p4 Hf4 _ Hc4 Hm.
  assert (Hleft : blocks_used (with_writing dp (writing dp - 1)) = blocks_used dp - 1)
    by (unfold blocks_used; cbn [requested finished writing with_writing]; rewrite uint_small by lia; lia).
  eapply wp_erase_if_unused; [exact Hf4| |]; rewrite Hleft.
  - intros Hz s5 Hd. split; [lia|done].
  - intros Hnz. split; [intros _|done]. apply Hm. lia.
Qed.

(** [write_failed]: the hash check of the piece is void *)
Definition void_passed (s : picker) (i : Z) : picker :=
  if passed_at s i then set_tal (add_num_passed (-1) (tal s)) s else s.

Definition failed_block (b : block_info) : block_info := BlockInfo nullptr (num_peers b) state_none.

Lemma write_failed_spec s i j p :
  core_ok s → piece_map i s = Some p → 0 ≤ j < blocks_in_piece i s →
  download_queue p ≠ piece_open → bstate (block_at s i j) ≠ state_requested →
  wp (write_failed (PieceBlock i j)) s (λ _ s',
    let b := block_at s i j in
    if bool_decide (bstate b = state_finished) then s' = s
    else given_up false (void_passed s i) s' i j (failed_block b)
           (used_at s i - Z.b2z (bool_decide (bstate b = state_writing)))).
Proof.
  intros Hc Hp Hj Hq Hnr. unfold write_failed. cbn [piece_index block_index].
  wstep. rewrite bool_decide_eq_false_2 by done.
  apply wp_bind. eapply wp_find; [done|done|done|]. intros it dp bs Hf Hcnt Hu Hqu Hall.
  pose proof (focus_passed _ _ _ _ _ _ Hf) as Hpass. pose proof (Hall j Hj) as Hget.
  assert (Hused : used_at s i = blocks_used dp)
    by (unfold used_at; by rewrite (fc_view _ _ _ _ _ _ _ Hf)).
  cbn zeta. set (b := block_at s i j) in *. rewrite Hused.
  pose proof (co_blocks _ _ Hcnt _ _ Hget) as Hbok.
  pose proof (counter_bound _ _ _ _ _ _ _ Hf Hcnt) as (Hfb & Hwb & Hrb & Hub).
  pose proof (count_range state_none bs) as Hnb. pose proof (co_writing _ _ Hcnt) as Hwr.
  apply wp_bind. eapply wp_reads; [by eapply focus_is_end|].
  lookup_block Hf Hget. destruct (bool_decide (bstate b = state_finished)) eqn:Hfin; [by wstep|].
  apply bool_decide_eq_false in Hfin. unfold blocks_used in Hub.
  set (w := Z.b2z (bool_decide (bstate b = state_writing))).
  assert (Hpos : bstate b = state_writing → 0 < writing dp)
    by (intros E; rewrite Hwr; eapply count_pos; [exact Hget|done]).
  assert (Hw : 0 ≤ writing dp - w).
  { unfold w. case_bool_decide as E; cbn [Z.b2z]; [specialize (Hpos E)|]; lia. }
  apply wp_bind.
  assert (Hrest : ∀ s1 dp1, focus i s s1 p dp1 bs it → span_of i s1 dp1 = span_of i s dp →
    finished dp1 = finished dp → writing dp1 = writing dp - w → requested dp1 = requested dp →
    passed_hash_check dp1 = passed_hash_check dp →
    wp (set_block (span_of i s dp) j (with_bstate (with_peer b nullptr) state_none);;
        (if passed_hash_check dp then
           update_dl it (λ dp, with_passed dp false);; update_tallies (add_num_passed (-1))
         else mret tt);;
        update_dl it (λ dp, with_locked dp true);;
        it ← update_piece_state it; erase_if_unused i it) s1
      (λ _ s', given_up false (void_passed s i) s' i j (failed_block b) (blocks_used dp - w))).
  { intros s1 dp1 Hf1 Hsp Hfin1 Hw1 Hr1 Hp1. apply wp_bind. rewrite <-Hsp.
    eapply (wp_focus_set_block _ _ _ _ _ _ _ Hf1); [by eapply vget_Some_range|].
    intros s2 bs2 Hset Hf2 _ _. change (with_bstate (with_peer b nullptr) state_none)
      with (failed_block b) in Hset. apply wp_bind.
    assert (Hmid : ∀ s3 dp3, focus i (void_passed s i) s3 p dp3 bs2 it →
      passed_hash_check dp3 = false → finished dp3 = finished dp → writing dp3 = writing dp - w →
      requested dp3 = requested dp →
      wp (update_dl it (λ dp, with_locked dp true);;
          it ← update_piece_state it; erase_if_unused i it) s3
        (λ _ s', given_up false (void_passed s i) s' i j (failed_block b) (blocks_used dp - w))).
    { intros s3 dp3 Hf3 Hp3 Hfin3 Hw3 Hr3. apply wp_bind.
      eapply (wp_focus_update_dl _ _ _ _ _ _ _ Hf3); [done|done|]. intros s4 Hf4 _ _ _.
      apply wp_bind. eapply (wp_focus_update_piece_state _ _ _ _ _ _ _ Hf4).
      intros it' s5 p5 Hf5 _ Hqu5 _ Hbl5.
      assert (Hleft : blocks_used (with_locked dp3 true) = blocks_used dp - w)
        by (unfold blocks_used; cbn [requested finished writing with_locked]; lia).
      eapply wp_erase_if_unused; [exact Hf5| |]; rewrite Hleft.
      - intros Hz s6 Hd. split; [lia|done].
      - intros Hnz. split; [intros _|done].
        assert (Hpos' : 0 < blocks_used (with_locked dp3 true))
          by (rewrite Hleft; unfold blocks_used in *; lia).
        eapply focus_marked; [exact Hf5| |done|rewrite Hbl5; auto| |done].
        + eapply counts_ok_set; [exact Hcnt|exact Hget|exact Hset| | | |].
          * unfold block_ok in *. cbn. by destruct (bstate b).
          * cbn [finished with_locked bstate failed_block]. rewrite Hfin3. counters.
          * cbn [writing with_locked bstate failed_block]. rewrite Hw3. unfold w. counters.
          * cbn [requested with_locked bstate failed_block]. rewrite Hr3. counters.
        + intros k Hk. assert (Hk' : 0 ≤ k < blocks_in_piece i s)
            by (unfold void_passed in Hk; by destruct (passed_at s i)).
          assert (Hba : block_at (void_passed s i) i k = block_at s i k)
            by (unfold void_passed; by destruct (passed_at s i)).
          rewrite (vset_get _ _ _ _ _ Hset), Hba. destruct (k =? j); [done|auto]. }
    rewrite Hpass. unfold void_passed in *. destruct (passed_at s i).
    - apply wp_bind. eapply (wp_focus_update_dl _ _ _ _ _ _ _ Hf2); [done|done|].
      intros s3 Hf3 _ _ _. apply wp_update_tallies.
      eapply (Hmid _ (with_passed dp1 false)); try done.
      pose proof (fc_env _ _ _ _ _ _ _ Hf3) as [x He].
      replace (tal s3) with (tal s) by (symmetry; apply He). by apply focus_tal.
    - wstep. eapply (Hmid _ dp1); try done. congruence. }
  case_bool_decide as Hwb'.
  - specialize (Hpos Hwb'). eapply (wp_focus_update_dl _ _ _ _ _ _ _ Hf); [done|done|].
    intros s1 Hf1 Hn1 _ Hbl1. eapply Hrest; [exact Hf1|by apply span_of_eq|done| |done|done].
    unfold w. cbn [writing with_writing Z.b2z]. by rewrite uint_small by lia.
  - wstep. eapply Hrest; [exact Hf|done|done| |done|done]. unfold w. cbn [Z.b2z]. lia.
Qed.

(** ** [abort_download] *)

Definition aborted_block (b : block_info) (pr : torrent_peer) : block_info :=
  if num_peers b =? 1 then BlockInfo nullptr 0 state_none
  else BlockInfo (if peer b =? pr then nullptr else peer b) (num_peers b - 1) (bstate b).

(** the list is put in order after the record is gone, whatever the priorities *)
Lemma wp_dropped_relink i s0 s p dp bs it m d (Q : unit → picker → Prop) :
  focus i s0 s p dp bs it →
  changed (pieces s) m i (with_state p piece_open) → queues_ok (unsettled s m d) →
  view (unsettled s m d) i = None → (∀ j, j ≠ i → view (unsettled s m d) j = view s j) →
  (∀ s', dropped s0 s' i → Q tt s') →
  wp (prio ← reads (priority_of i);
      dirty ← gets m_dirty;
      if (dirty : bool) then mret tt
      else if (priority (m_seeds s) p =? -1) && (0 <=? prio) then picker_add i
      else if 0 <=? priority (m_seeds s) p then
        p' ← reads (piece_map i); picker_update (priority (m_seeds s) p) (index p')
      else mret tt) (unsettled s m d) Q.
Proof.
  intros Hf Hch Hq Hv Hvs HQ.
  pose proof (ao_list _ _ (fc_almost _ _ _ _ _ _ _ Hf)) as Hl.
  pose proof (lo_map s Hl i p (fc_piece _ _ _ _ _ _ _ Hf)) as Hok.
  assert (Hpm : piece_map i (unsettled s m d) = Some (with_state p piece_open))
    by exact (changed_eq _ _ _ _ Hch).
  pose proof (priority_bounds (m_seeds s) p Hok) as Hb.
  apply wp_bind. eapply wp_reads. { unfold priority_of. rewrite Hpm. reflexivity. }
  change (m_seeds (unsettled s m d)) with (m_seeds s).
  apply (wp_relink s Hl i p (with_state p piece_open) m d (fc_piece _ _ _ _ _ _ _ Hf) Hch Hok eq_refl).
  1-4: intros Hd; unfold mbind, M_bind, gets, reads; cbn [mbind option_bind];
    change (m_dirty (unsettled s m d)) with (m_dirty s); rewrite Hd; try done.
  - intros -> ->. done.
  - intros -> Hp'. by rewrite (proj2 (Z.leb_le 0 (priority (m_seeds s) (with_state p piece_open)))) by lia.
  - intros Hp'. rewrite (proj2 (Z.eqb_neq (priority (m_seeds s) p) (-1))) by lia.
    rewrite (proj2 (Z.leb_le 0 (priority (m_seeds s) p))) by lia. cbn [andb]. rewrite Hpm. done.
  - intros s' Hre. apply HQ. by eapply (dropped_reseen _ _ _ _ _ _ _ Hf).
Qed.

Lemma abort_spec s i j pr p :
  core_ok s → piece_map i s = Some p → 0 ≤ j < blocks_in_piece i s →
  download_queue p ≠ piece_open →
  wp (abort_download (PieceBlock i j) pr) s (λ _ s',
    let b := block_at s i j in
    if negb (bool_decide (bstate b = state_requested)) then s' = s
    else given_up (passed_at s i) s s' i j (aborted_block b pr)
           (used_at s i - Z.b2z (num_peers b =? 1))).
Proof.
  intros Hc Hp Hj Hq. unfold abort_download. cbn [piece_index block_index].
  wstep. rewrite bool_decide_eq_false_2 by done.
  apply wp_bind. eapply wp_find; [done|done|done|]. intros it dp bs Hf Hcnt Hu Hqu Hall.
  pose proof (focus_passed _ _ _ _ _ _ Hf) as Hpass. pose proof (Hall j Hj) as Hget.
  assert (Hused : used_at s i = blocks_used dp)
    by (unfold used_at; by rewrite (fc_view _ _ _ _ _ _ _ Hf)).
  cbn zeta. set (b := block_at s i j) in *. rewrite Hused.
  pose proof (co_blocks _ _ Hcnt _ _ Hget) as Hbok.
  pose proof (counter_bound _ _ _ _ _ _ _ Hf Hcnt) as (Hfb & Hwb & Hrb & Hub).
  pose proof (count_range state_none bs) as Hnb. pose proof (co_requested _ _ Hcnt) as Hrq.
  lookup_block Hf Hget. destruct (bool_decide (bstate b = state_requested)) eqn:Hr; cbn [negb];
    [|by wstep].
  apply bool_decide_eq_true in Hr. unfold block_ok in Hbok. rewrite Hr in Hbok.
  assert (Hpos : 0 < requested dp) by (rewrite Hrq; eapply count_pos; [exact Hget|done]).
  apply wp_bind. eapply wp_reads. { unfold priority_of. rewrite Hp. reflexivity. }
  rewrite (proj2 (Z.ltb_lt 0 (num_peers b))) by lia.
  set (info := if peer (with_num_peers b (num_peers b - 1)) =? pr then _ else _).
  assert (Hinfo : info = BlockInfo (if peer b =? pr then nullptr else peer b) (num_peers b - 1) state_requested).
  { unfold info, with_peer, with_num_peers. cbn. rewrite !uint_small by lia. rewrite Hr.
    by destruct (peer b =? pr). }
  rewrite Hinfo. cbn [num_peers]. clear info Hinfo. apply wp_bind.
  eapply (wp_focus_set_block _ _ _ _ _ _ _ Hf); [by eapply vget_Some_range|].
  intros s1 bs1 Hset1 Hf1 Hn1 Hbl1. unfold aborted_block.
  destruct (Z.ltb_spec 0 (num_peers b - 1)) as [Hmore|Hlast].
  - wstep. rewrite (proj2 (Z.eqb_neq (num_peers b) 1)) by lia. rewrite Hr. cbn [Z.b2z].
    split; [intros _|lia]. eapply focus_marked; [exact Hf1| |done|by rewrite Hbl1| |done].
    + eapply counts_ok_set; [exact Hcnt|exact Hget|exact Hset1|unfold block_ok; cbn; lia|counters..].
    + intros k Hk. rewrite (vset_get _ _ _ _ _ Hset1). destruct (k =? j); [done|auto].
  - rewrite (proj2 (Z.eqb_eq (num_peers b) 1)) by lia. cbn [Z.b2z].
    assert (Hget1 : 0 ≤ j < vsize bs1)
      by (rewrite (vset_size _ _ _ _ Hset1); by eapply vget_Some_range).
    apply wp_bind. rewrite <-(span_of_eq i s s1 dp dp) by done.
    eapply (wp_focus_set_block _ _ _ _ _ _ _ Hf1); [done|]. intros s2 bs2 Hset2 Hf2 Hn2 Hbl2.
    pose proof (vset_vset _ _ _ _ _ _ Hset1 Hset2) as Hset.
    replace (with_bstate _ state_none) with (BlockInfo nullptr 0 state_none) in Hset
      by (unfold with_bstate, with_peer; cbn; f_equal; lia).
    apply wp_bind. eapply (wp_focus_update_dl _ _ _ _ _ _ _ Hf2); [done|done|].
    intros s3 Hf3 Hn3 _ Hbl3. apply wp_bind. eapply wp_reads; [by eapply focus_deref|].
    set (dp' := with_requested dp (requested dp - 1)) in *.
    unfold blocks_used in Hub.
    assert (Hreq' : requested dp' = requested dp - 1)
      by (unfold dp'; cbn [requested with_requested]; rewrite uint_small; lia).
    assert (Hleft : blocks_used dp' = blocks_used dp - 1)
      by (unfold blocks_used; rewrite Hreq'; unfold dp'; cbn [finished writing with_requested]; lia).
    change (requested dp' + finished dp' + writing dp') with (blocks_used dp'). rewrite Hleft.
    destruct (Z.eqb_spec (blocks_used dp - 1) 0) as [Hz|Hnz].
    + apply wp_bind. eapply (wp_focus_erase _ _ _ _ _ _ _ Hf3). intros m d Hch Hqs Hv Hvs Hpr.
      assert (Hprev : priority (m_seeds s) p = priority (m_seeds s3) p).
      { destruct (fc_env _ _ _ _ _ _ _ Hf3) as [x He]. f_equal. symmetry. apply He. }
      rewrite Hprev.
      eapply wp_dropped_relink; [exact Hf3|exact Hch|done|done|done|].
      intros s' Hd. split; [lia|done].
    + apply wp_bind. eapply (wp_finish_block s s3 i j); [exact Hf3|exact Hcnt|exact Hget|exact Hset|
        done| | | |exact Hall|exact Hpass|].
      * unfold dp'. rewrite Hr. counters.
      * unfold dp'. rewrite Hr. counters.
      * rewrite Hreq', Hr. counters.
      * intros it' s4 p4 Hf4 _ Hc4 Hm. wstep. split; [intros _|done]. apply Hm.
        unfold blocks_used in *. lia.
Qed.
End cancel.
