(* ===== verification/PickerHave.v ===== *)
(** The tallies and cursors of a picker as functions of its pieces, the whole
    invariant [picker_ok], and [we_have]. *)

From stdpp Require Import gmap.
From S2P Require Import Prelude.
From S2P Require Import Random.
From S2P Require Import PiecePicker.
From S2P Require Import PickerBuckets.
From S2P Require Import PickerRebuild.
From S2P Require Import PickerState.
From S2P Require Import PickerOps.
From S2P Require Import PickerBlocks.
From S2P Require Import PickerInv.
From S2P Require Import PickerAvail.
From S2P Require Import PickerDls.
From S2P Require Import PickerSteps.
From S2P Require Import PickerCore.
From S2P Require Import PickerMarks.
From S2P Require Import PickerDownloading.
From S2P Require Import PickerCancel.

Open Scope Z_scope.

(** ** Sums over pieces *)

Fixpoint total (n : nat) (g : Z → Z) : Z :=
  match n with
  | O => 0
  | S n => total n g + g (Z.of_nat n)
  end.

Lemma total_ext n g g' : (∀ j, 0 ≤ j < Z.of_nat n → g' j = g j) → total n g' = total n g.
Proof.
  induction n as [|n IH]; intros Hg; [done|]. cbn [total]. rewrite IH, Hg by (intros; try apply Hg; lia).
  done.
Qed.

(** one term changes *)
Lemma total_change n g g' i :
  0 ≤ i < Z.of_nat n → (∀ j, j ≠ i → g' j = g j) → total n g' = total n g - g i + g' i.
Proof.
  induction n as [|n IH]; intros Hi Hg; [lia|]. cbn [total].
  destruct (decide (i = Z.of_nat n)) as [->|Hne].
  - rewrite (total_ext n g g') by (intros; apply Hg; lia). lia.
  - rewrite IH by (done || lia). rewrite (Hg (Z.of_nat n)) by lia. lia.
Qed.

Lemma total_range n g lo hi :
  (∀ j, 0 ≤ j < Z.of_nat n → lo ≤ g j ≤ hi) → Z.of_nat n * lo ≤ total n g ≤ Z.of_nat n * hi.
Proof.
  induction n as [|n IH]; intros Hg; [cbn; lia|]. cbn [total].
  pose proof (IH ltac:(intros; apply Hg; lia)). pose proof (Hg (Z.of_nat n) ltac:(lia)). lia.
Qed.

(** ** The loops that move the cursors *)

Lemma skip_up_spec fuel m c :
  0 ≤ c ≤ vsize m → vsize m - c < Z.of_nat fuel →
  ∃ c', skip_up fuel m c = Some c' ∧ c ≤ c' ≤ vsize m ∧
    (∀ j p, c ≤ j < c' → m⟦j⟧ = Some p → settled p = true) ∧
    (c' < vsize m → ∃ p, m⟦c'⟧ = Some p ∧ settled p = false).
Proof.
  revert c. induction fuel as [|fuel IH]; intros c Hc Hf; [lia|]. cbn [skip_up].
  destruct (Z.eqb_spec c (vsize m)) as [->|Hne].
  { exists (vsize m). split; [done|]. split; [lia|]. split; [intros; lia|lia]. }
  destruct (vget_is_Some m c ltac:(lia)) as [p Hp]. rewrite Hp. cbn [mbind option_bind].
  destruct (settled p) eqn:Hs.
  - destruct (IH (c + 1)) as (c' & Hrun & Hc' & Hall & Hstop); [lia|lia|].
    exists c'. split; [done|]. split; [lia|]. split; [|done].
    intros j q Hj Hq. destruct (decide (j = c)) as [->|]; [congruence|].
    apply (Hall j); [lia|done].
  - exists c. split; [done|]. split; [lia|]. split; [intros; lia|]. intros _. by exists p.
Qed.

Lemma skip_down_spec fuel m c :
  0 ≤ c ≤ vsize m → c < Z.of_nat fuel →
  ∃ c', skip_down fuel m c = Some c' ∧ 0 ≤ c' ≤ c ∧
    (∀ j p, c' ≤ j < c → m⟦j⟧ = Some p → settled p = true) ∧
    (0 < c' → ∃ p, m⟦c' - 1⟧ = Some p ∧ settled p = false).
Proof.
  revert c. induction fuel as [|fuel IH]; intros c Hc Hf; [lia|]. cbn [skip_down].
  destruct (Z.ltb_spec 0 c) as [Hpos|Hz].
  2: { exists c. split; [done|]. split; [lia|]. split; [intros; lia|lia]. }
  destruct (vget_is_Some m (c - 1) ltac:(lia)) as [p Hp]. rewrite Hp. cbn [mbind option_bind].
  destruct (settled p) eqn:Hs.
  - destruct (IH (c - 1)) as (c' & Hrun & Hc' & Hall & Hstop); [lia|lia|].
    exists c'. split; [done|]. split; [lia|]. split; [|done].
    intros j q Hj Hq. destruct (decide (j = c - 1)) as [->|]; [congruence|].
    apply (Hall j); [lia|done].
  - exists c. split; [done|]. split; [lia|]. split; [intros; lia|]. intros _. by exists p.
Qed.

Section tallies.
Context {R : StdRandom} {Rok : StdRandomOk R}.

(** ** The cursors *)

(** the pieces that are neither had nor filtered are in [c, rc) , and both
    ends of the range are such pieces *)
Record cursors_for (w : Z → bool) (n c rc : Z) : Prop := {
  cu_cursor : 0 ≤ c ≤ n;
  cu_reverse : 0 ≤ rc ≤ n;
  cu_below : ∀ j, 0 ≤ j < n → j < c → w j = false;
  cu_above : ∀ j, 0 ≤ j < n → rc ≤ j → w j = false;
  cu_first : c < n → w c = true;
  cu_last : 0 < rc → w (rc - 1) = true
}.

(** piece [j] is still wanted *)
Definition wanted (s : picker) (j : Z) : bool :=
  match seen s j with Some p => negb (settled p) | None => false end.

Definition cursors_ok (s : picker) : Prop :=
  cursors_for (wanted s) (num_pieces s) (m_cursor s) (m_reverse_cursor s).

(** the assertion of [check_invariant] *)
Lemma cursors_order w n c rc : cursors_for w n c rc → c < rc ∨ (c = n ∧ rc = 0).
Proof.
  intros [H1 H2 H3 H4 H5 H6]. destruct (decide (c < n)) as [Hc|Hc].
  - left. specialize (H5 Hc). destruct (Z.le_gt_cases rc c) as [Hle|]; [|done].
    rewrite (H4 c) in H5 by lia. done.
  - right. split; [lia|]. destruct (decide (0 < rc)) as [Hr|]; [|lia].
    specialize (H6 Hr). rewrite (H3 (rc - 1)) in H6 by lia. done.
Qed.

Lemma settled_norm p : settled (norm p) = settled p.
Proof. unfold settled. by rewrite have_norm. Qed.

Lemma wanted_piece s j p : piece_map j s = Some p → wanted s j = negb (settled p).
Proof. intros Hp. unfold wanted, seen. rewrite Hp. cbn. by rewrite settled_norm. Qed.

(** a piece is no longer wanted: the code of [we_have] and of
    [set_piece_priority] *)
Definition shrink_cursors (i : Z) (s : picker) : option (Z * Z) :=
  let m := m_piece_map (lay s) in
  let c := m_cursor s in
  let rc := m_reverse_cursor s in
  if (c =? rc - 1) && (c =? i) then Some (vsize m, 0)
  else if c =? i then c ← skip_up (S (length m)) m (c + 1); Some (c, rc)
  else if rc - 1 =? i then rc ← skip_down (S (length m)) m (rc - 1); Some (c, rc)
  else Some (c, rc).

Lemma set_cursors_same s : set_cursors (m_cursor s) (m_reverse_cursor s) s = s.
Proof. by destruct s. Qed.

Lemma we_have_cursors_run i s :
  we_have_cursors i s = '(c, rc) ← shrink_cursors i s; Some (tt, set_cursors c rc s).
Proof.
  unfold we_have_cursors, shrink_cursors, mbind, M_bind, gets, reads, modify.
  cbn [mbind option_bind].
  destruct (_ && _); [done|]. destruct (m_cursor s =? i).
  { by destruct (skip_up _ _ _). }
  destruct (m_reverse_cursor s - 1 =? i).
  { by destruct (skip_down _ _ _). }
  cbn. by rewrite set_cursors_same.
Qed.

Lemma filter_cursors_run i s :
  filter_cursors i s = '(c, rc) ← shrink_cursors i s; Some (tt, set_cursors c rc s).
Proof.
  unfold filter_cursors, shrink_cursors, mbind, M_bind, gets, reads, modify.
  cbn [mbind option_bind].
  destruct (_ && _); [done|]. destruct (m_cursor s =? i).
  { by destruct (skip_up _ _ _). }
  replace (m_reverse_cursor s =? i + 1) with (m_reverse_cursor s - 1 =? i)
    by (destruct (Z.eqb_spec (m_reverse_cursor s - 1) i), (Z.eqb_spec (m_reverse_cursor s) (i + 1)); lia).
  destruct (m_reverse_cursor s - 1 =? i).
  { by destruct (skip_down _ _ _). }
  cbn. by rewrite set_cursors_same.
Qed.

(** the cursors are right for the pieces without [i]; the loops may or may not
    see that [i] is no longer wanted *)
Lemma shrink_cursors_spec i s (w : Z → bool) :
  cursors_for w (num_pieces s) (m_cursor s) (m_reverse_cursor s) →
  0 ≤ i < num_pieces s → (∀ j, j ≠ i → 0 ≤ j < num_pieces s → wanted s j = w j) →
  ∃ c rc, shrink_cursors i s = Some (c, rc) ∧
    cursors_for (λ j, if j =? i then false else w j) (num_pieces s) c rc.
Proof.
  intros Hcu Hi Hw. pose proof (cursors_order _ _ _ _ Hcu) as Hord.
  destruct Hcu as [H1 H2 H3 H4 H5 H6]. unfold shrink_cursors.
  set (m := m_piece_map (lay s)). set (c := m_cursor s) in *. set (rc := m_reverse_cursor s) in *.
  change (num_pieces s) with (vsize m) in *.
  assert (Hm : ∀ j p, m⟦j⟧ = Some p → j ≠ i → w j = negb (settled p)).
  { intros j p Hp Hj. rewrite <-Hw by (done || by eapply vget_Some_range). by apply wanted_piece. }
  assert (Hlen : vsize m < Z.of_nat (S (length m))) by (unfold vsize; lia).
  destruct (Z.eqb_spec c (rc - 1)) as [Hone|Hmany], (Z.eqb_spec c i) as [Hci|Hci]; cbn [andb].
  - exists (vsize m), 0. split; [done|]. split; try lia; intros j Hj Hj2;
      destruct (Z.eqb_spec j i); try done.
    + destruct (Z.lt_ge_cases j c); [apply H3; lia|apply H4; lia].
    + destruct (Z.lt_ge_cases j c); [apply H3; lia|apply H4; lia].
  - destruct (Z.eqb_spec (rc - 1) i); [lia|]. exists c, rc. split; [done|]. split; try done.
    + intros j Hj Hj2. destruct (j =? i); [done|auto].
    + intros j Hj Hj2. destruct (j =? i); [done|auto].
    + intros Hc. destruct (Z.eqb_spec c i); [done|auto].
    + intros Hc. destruct (Z.eqb_spec (rc - 1) i); [lia|auto].
  - destruct (skip_up_spec (S (length m)) m (c + 1)) as (c' & -> & Hc' & Hall & Hstop); [lia|lia|].
    cbn [mbind option_bind]. exists c', rc. split; [done|]. split; try done; try lia.
    + intros j Hj Hj2. destruct (Z.eqb_spec j i) as [|Hji]; [done|].
      destruct (Z.lt_ge_cases j c) as [|Hge]; [by apply H3|].
      destruct (vget_is_Some m j Hj) as [p Hp]. rewrite (Hm j p Hp Hji).
      by rewrite (Hall j p ltac:(lia) Hp).
    + intros j Hj Hj2. destruct (j =? i); [done|auto].
    + intros Hlt. destruct (Hstop Hlt) as (p & Hp & Hs).
      destruct (Z.eqb_spec c' i); [lia|]. by rewrite (Hm c' p Hp) by done; rewrite Hs.
    + intros Hr. destruct (Z.eqb_spec (rc - 1) i); [lia|auto].
  - destruct (Z.eqb_spec (rc - 1) i) as [Hri|Hri].
    + destruct (skip_down_spec (S (length m)) m (rc - 1)) as (c' & -> & Hc' & Hall & Hstop); [lia|lia|].
      cbn [mbind option_bind]. exists c, c'. split; [done|]. split; try done; try lia.
      * intros j Hj Hj2. destruct (j =? i); [done|auto].
      * intros j Hj Hj2. destruct (Z.eqb_spec j i) as [|Hji]; [done|].
        destruct (Z.le_gt_cases rc j) as [|Hge]; [by apply H4|].
        destruct (vget_is_Some m j Hj) as [p Hp]. rewrite (Hm j p Hp Hji).
        by rewrite (Hall j p ltac:(lia) Hp).
      * intros Hlt. destruct (Z.eqb_spec c i); [lia|auto].
      * intros Hr. destruct (Hstop Hr) as (p & Hp & Hs).
        destruct (Z.eqb_spec (c' - 1) i); [lia|]. by rewrite (Hm (c' - 1) p Hp) by done; rewrite Hs.
    + exists c, rc. split; [done|]. split; try done.
      * intros j Hj Hj2. destruct (j =? i); [done|auto].
      * intros j Hj Hj2. destruct (j =? i); [done|auto].
      * intros Hlt. destruct (Z.eqb_spec c i); [lia|auto].
      * intros Hr. destruct (Z.eqb_spec (rc - 1) i); [lia|auto].
Qed.

(** a piece is wanted again *)
Lemma extend_cursors_run i s w :
  cursors_for w (num_pieces s) (m_cursor s) (m_reverse_cursor s) → 0 ≤ i < num_pieces s →
  ∃ c rc, extend_cursors i s = Some (tt, set_cursors c rc s) ∧
    cursors_for (λ j, if j =? i then true else w j) (num_pieces s) c rc.
Proof.
  intros Hcu Hi. pose proof (cursors_order _ _ _ _ Hcu) as Hord.
  destruct Hcu as [H1 H2 H3 H4 H5 H6]. unfold extend_cursors, modify.
  set (c := if i <? m_cursor s then i else m_cursor s).
  set (rc := if m_reverse_cursor s <=? i then i + 1 else m_reverse_cursor s).
  assert (Hc : c ≤ i ∧ i < rc).
  { unfold c, rc. destruct (Z.ltb_spec i (m_cursor s)), (Z.leb_spec (m_reverse_cursor s) i); lia. }
  rewrite (proj2 (Z.eqb_neq rc c)) by lia. exists c, rc. split; [done|].
  split; unfold c, rc in *; clear c rc;
    destruct (Z.ltb_spec i (m_cursor s)), (Z.leb_spec (m_reverse_cursor s) i); try lia;
    intros; try (destruct (Z.eqb_spec j i); [lia|]; first [apply H3; lia|apply H4; lia]);
    first [by rewrite Z.eqb_refl|by rewrite Z.add_simpl_r, Z.eqb_refl
          |destruct (_ =? i); [done|]; first [apply H5; lia|apply H6; lia]].
Qed.
End tallies.

Section have.
Context {R : StdRandom} {Rok : StdRandomOk R}.

(** ** The tallies *)

Definition flag (f : piece_pos → bool) (s : picker) (j : Z) : Z :=
  match seen s j with Some p => Z.b2z (f p) | None => 0 end.

Definition had (s : picker) (j : Z) : bool :=
  match seen s j with Some p => have p | None => false end.

Definition filtered_only (p : piece_pos) : bool := filtered p && negb (have p).
Definition have_filtered (p : piece_pos) : bool := filtered p && have p.

Definition pads (s : picker) (j : Z) : Z := pad_blocks_in_piece j s.

(** the sum over all pieces *)
Definition sum_pieces (s : picker) (g : Z → Z) : Z := total (Z.to_nat (num_pieces s)) g.

Definition passed_or_had (s : picker) (j : Z) : Z := Z.b2z (had s j || passed_at s j).

(** the tallies, as [check_invariant] computes them *)
Definition tallies_of (s : picker) : tallies :=
  Tallies (sum_pieces s (flag filtered_only s)) (sum_pieces s (flag have_filtered s))
    (sum_pieces s (flag have s)) (sum_pieces s (passed_or_had s))
    (sum_pieces s (pads s)) (sum_pieces s (λ j, flag have s j * pads s j))
    (sum_pieces s (λ j, flag filtered_only s j * pads s j))
    (sum_pieces s (λ j, flag have_filtered s j * pads s j)).

(** the number of pad blocks of piece [j], by the bits *)
Definition row_pads (s : picker) (j : Z) : Z :=
  total (Z.to_nat (m_blocks_per_piece s)) (λ l, Z.b2z (pad_at s j l)).

Record picker_ok (s : picker) : Prop := {
  ok_core : core_ok s;
  ok_cursors : cursors_ok s;
  ok_tallies : tal s = tallies_of s;
  ok_pads : ∀ j, pads s j = row_pads s j
}.

Lemma row_pads_same s s' j :
  m_pad_blocks s' = m_pad_blocks s → m_blocks_per_piece s' = m_blocks_per_piece s →
  row_pads s' j = row_pads s j.
Proof. intros Hb Hn. unfold row_pads, pad_at. by rewrite Hb, Hn. Qed.

(** a piece has at least no pad blocks and at most all its blocks *)
Lemma pads_range s j : picker_ok s → 0 ≤ pads s j ≤ m_blocks_per_piece s.
Proof.
  intros Hok. rewrite (ok_pads s Hok). unfold row_pads.
  pose proof (sz_blocks _ (qs_sizes _ (ck_queues _ (ok_core s Hok)))) as Hn.
  pose proof (total_range (Z.to_nat (m_blocks_per_piece s)) (λ l, Z.b2z (pad_at s j l)) 0 1
    ltac:(intros l _; cbn beta; destruct (pad_at s j l); cbn; lia)) as Hr.
  rewrite Z2Nat.id in Hr by lia. lia.
Qed.

(** what a tally becomes when piece [i] changes *)
Definition tallies_step (s s' : picker) (i : Z) : tallies :=
  let d f := flag f s' i - flag f s i in
  let t := tal s in
  Tallies (m_num_filtered t + d filtered_only) (m_num_have_filtered t + d have_filtered)
    (m_num_have t + d have) (m_num_passed t + (passed_or_had s' i - passed_or_had s i))
    (m_num_pad_blocks t + (pads s' i - pads s i))
    (m_have_pad_blocks t + (flag have s' i * pads s' i - flag have s i * pads s i))
    (m_filtered_pad_blocks t + (flag filtered_only s' i * pads s' i - flag filtered_only s i * pads s i))
    (m_have_filtered_pad_blocks t +
     (flag have_filtered s' i * pads s' i - flag have_filtered s i * pads s i)).

Lemma flag_static f s s' j :
  (∀ p q, static p = static q → f p = f q) →
  static <$> seen s' j = static <$> seen s j → flag f s' j = flag f s j.
Proof.
  intros Hf Hs. unfold flag. destruct (seen s' j) as [p|], (seen s j) as [q|]; try done.
  injection Hs as Hs. f_equal. apply Hf. unfold static. congruence.
Qed.

Lemma static_fields p q :
  static p = static q → have p = have q ∧ filtered_only p = filtered_only q ∧
    have_filtered p = have_filtered q ∧ settled p = settled q.
Proof.
  intros Hs. pose proof (static_have _ _ Hs) as Hh. pose proof (static_filtered _ _ Hs) as Hf.
  unfold filtered_only, have_filtered, settled. by rewrite Hh, Hf.
Qed.

Lemma had_static s s' j : static <$> seen s' j = static <$> seen s j → had s' j = had s j.
Proof.
  intros Hs. unfold had. destruct (seen s' j) as [p|], (seen s j) as [q|]; try done.
  injection Hs as Hs. apply static_have. unfold static. congruence.
Qed.

Lemma wanted_static s s' j : static <$> seen s' j = static <$> seen s j → wanted s' j = wanted s j.
Proof.
  intros Hs. unfold wanted. destruct (seen s' j) as [p|], (seen s j) as [q|]; try done.
  assert (static p = static q) by (unfold static; injection Hs; congruence).
  f_equal. by apply static_fields.
Qed.

Lemma tallies_of_step s s' i :
  tal s = tallies_of s → num_pieces s' = num_pieces s → 0 ≤ i < num_pieces s →
  (∀ j, j ≠ i → static <$> seen s' j = static <$> seen s j) →
  (∀ j, j ≠ i → passed_at s' j = passed_at s j) → (∀ j, j ≠ i → pads s' j = pads s j) →
  tallies_step s s' i = tallies_of s'.
Proof.
  intros Ht Hn Hi Hs Hp Hpads. unfold tallies_step. rewrite Ht. unfold tallies_of, sum_pieces.
  cbn [m_num_filtered m_num_have_filtered m_num_have m_num_passed m_num_pad_blocks
       m_have_pad_blocks m_filtered_pad_blocks m_have_filtered_pad_blocks]. rewrite Hn.
  assert (Hi' : 0 ≤ i < Z.of_nat (Z.to_nat (num_pieces s))) by lia.
  assert (Hf : ∀ f, (∀ p q, static p = static q → f p = f q) →
    ∀ j, j ≠ i → flag f s' j = flag f s j) by (intros f Hf j Hj; apply flag_static; auto).
  pose proof (Hf have (λ p q H, proj1 (static_fields p q H))) as H1.
  pose proof (Hf filtered_only (λ p q H, proj1 (proj2 (static_fields p q H)))) as H2.
  pose proof (Hf have_filtered (λ p q H, proj1 (proj2 (proj2 (static_fields p q H))))) as H3.
  f_equal; symmetry.
  - rewrite (total_change _ _ _ i Hi' H2). lia.
  - rewrite (total_change _ _ _ i Hi' H3). lia.
  - rewrite (total_change _ _ _ i Hi' H1). lia.
  - rewrite (total_change _ (passed_or_had s) _ i Hi'); [lia|].
    intros j Hj. unfold passed_or_had. rewrite (had_static s s' j) by auto. by rewrite Hp.
  - rewrite (total_change _ (pads s) _ i Hi'); [lia|done].
  - rewrite (total_change _ (λ j, flag have s j * pads s j) _ i Hi'); [lia|].
    intros j Hj. by rewrite H1, Hpads.
  - rewrite (total_change _ (λ j, flag filtered_only s j * pads s j) _ i Hi'); [lia|].
    intros j Hj. by rewrite H2, Hpads.
  - rewrite (total_change _ (λ j, flag have_filtered s j * pads s j) _ i Hi'); [lia|].
    intros j Hj. by rewrite H3, Hpads.
Qed.

Lemma tallies_eq t t' :
  m_num_filtered t = m_num_filtered t' → m_num_have_filtered t = m_num_have_filtered t' →
  m_num_have t = m_num_have t' → m_num_passed t = m_num_passed t' →
  m_num_pad_blocks t = m_num_pad_blocks t' → m_have_pad_blocks t = m_have_pad_blocks t' →
  m_filtered_pad_blocks t = m_filtered_pad_blocks t' →
  m_have_filtered_pad_blocks t = m_have_filtered_pad_blocks t' → t = t'.
Proof. destruct t, t'. cbn. congruence. Qed.

(** ** Operations on blocks *)

(** the pieces are the same, the number of passed pieces has been kept up *)
Lemma picker_ok_blocks s s' i :
  picker_ok s → core_ok s' → static_eq s s' → 0 ≤ i < num_pieces s → num_pieces s' = num_pieces s →
  m_cursor s' = m_cursor s → m_reverse_cursor s' = m_reverse_cursor s →
  m_pads_in_piece s' = m_pads_in_piece s →
  m_pad_blocks s' = m_pad_blocks s → m_blocks_per_piece s' = m_blocks_per_piece s →
  (∀ j, j ≠ i → passed_at s' j = passed_at s j) →
  tal s' = add_num_passed (passed_or_had s' i - passed_or_had s i) (tal s) → picker_ok s'.
Proof.
  intros [Hc Hcu Ht Hpos] Hc' Hst Hi Hn Hcur Hrev Hpads Hbits Hbpp Hp Htal. split; [done| | |].
  - unfold cursors_ok in *. rewrite Hn, Hcur, Hrev. destruct Hcu as [H1 H2 H3 H4 H5 H6].
    assert (Hw : ∀ j, wanted s' j = wanted s j) by (intros j; by apply wanted_static).
    split; intros; rewrite ?Hw; auto.
  - assert (Hpd : ∀ j, pads s' j = pads s j) by (intros j; unfold pads, pad_blocks_in_piece; by rewrite Hpads).
    rewrite <-(tallies_of_step s s' i) by auto. rewrite Htal.
    pose proof (Hst i) as Hsi.
    assert (Hfl : ∀ f, (∀ p q, static p = static q → f p = f q) → flag f s' i = flag f s i)
      by (intros f Hf; by apply flag_static).
    unfold tallies_step. rewrite Hpd.
    rewrite (Hfl have) by (intros p q H; by apply static_fields).
    rewrite (Hfl filtered_only) by (intros p q H; by apply static_fields).
    rewrite (Hfl have_filtered) by (intros p q H; by apply static_fields).
    apply tallies_eq; cbn; lia.
  - intros j. unfold pads, pad_blocks_in_piece. rewrite Hpads, (row_pads_same s) by done. apply Hpos.
Qed.

(** a piece with a record is not had *)
Lemma view_not_had s i dp bs : core_ok s → view s i = Some (dp, bs) → had s i = false.
Proof.
  intros Hc Hv. unfold had. destruct (seen s i) as [p|] eqn:Hs; [|done].
  by destruct (ck_pieces _ Hc i p dp bs Hs Hv).
Qed.

Lemma marked_ok s s' i j x :
  picker_ok s → marked s s' i j x → 0 ≤ i < num_pieces s → picker_ok s'.
Proof.
  intros Hok [Hc [e He] Hst _ Ho Hp] Hi.
  apply (picker_ok_blocks s s' i); try done; try apply He.
  - intros l Hl. unfold passed_at. by rewrite Ho.
  - unfold passed_or_had. rewrite Hp, (had_static s s' i) by done. rewrite Z.sub_diag.
    rewrite (ev_tal _ _ He). cbn. destruct (tal s). unfold add_num_passed. cbn. by rewrite Z.add_0_r.
Qed.

Lemma dropped_ok s s' i :
  picker_ok s → dropped s s' i → passed_at s i = false → 0 ≤ i < num_pieces s → picker_ok s'.
Proof.
  intros Hok [Hc [e He] Hst Hv _ Ho] Hp Hi.
  apply (picker_ok_blocks s s' i); try done; try apply He.
  - intros l Hl. unfold passed_at. by rewrite Ho.
  - unfold passed_or_had. rewrite Hp, (had_static s s' i) by done.
    unfold passed_at. rewrite Hv, Z.sub_diag.
    rewrite (ev_tal _ _ He). cbn. destruct (tal s). unfold add_num_passed. cbn. by rewrite Z.add_0_r.
Qed.

(** ** [we_have] *)

(** [s'] is [s] with the tallies [t], the cursors [c] and [rc] and the entry of
    piece [i] replaced by [p']; the piece has no record in [s'] *)
Record repieced (i : Z) (p' : piece_pos) (s s' : picker) : Prop := {
  rp_ok : picker_ok s';
  rp_dirty : m_dirty s' = m_dirty s;
  rp_seeds : m_seeds s' = m_seeds s;
  rp_size : num_pieces s' = num_pieces s;
  rp_pads : m_pads_in_piece s' = m_pads_in_piece s ∧ m_pad_blocks s' = m_pad_blocks s;
  rp_blocks : m_blocks_per_piece s' = m_blocks_per_piece s ∧
              m_blocks_in_last_piece s' = m_blocks_in_last_piece s;
  rp_seen : ∀ j, seen s' j = if j =? i then Some (norm p') else seen s j;
  rp_view : view s' i = None;
  rp_others : ∀ j, j ≠ i → view s' j = view s j
}.

(** the pieces have moved in the list once more *)
Lemma moved_seen m s' l' j :
  moved m (m_piece_map l') → seen (set_lay l' s') j = norm <$> m⟦j⟧.
Proof. intros Hmv. exact (seen_moved _ _ _ Hmv). Qed.

Lemma changed_twice m m1 m2 i p1 p2 : changed m m1 i p1 → changed m1 m2 i p2 → changed m m2 i p2.
Proof.
  intros [S1 G1] [S2 G2]. split; [congruence|]. intros j. rewrite G2, G1. by destruct (j =? i).
Qed.

Lemma with_state_same p : with_state p (download_state p) = p.
Proof. by destruct p. Qed.

(** the record of the piece goes, if it has one *)
Lemma wp_detach s i p (k : M unit) (Q : unit → picker → Prop) :
  core_ok s → piece_map i s = Some p →
  (∀ m d t, changed (pieces s) m i (with_state p piece_open) → queues_ok (unsettled s m d) →
     view (unsettled s m d) i = None → (∀ j, j ≠ i → view (unsettled s m d) j = view s j) →
     t = (if passed_at s i then add_num_passed (-1) (tal s) else tal s) →
     wp k (set_tal t (unsettled s m d)) Q) →
  wp ((if negb (bool_decide (download_queue p = piece_open)) then
         it ← reads (find_dl_piece (queue_number (download_queue p)) i);
         dp ← reads (deref it);
         (if passed_hash_check dp then update_tallies (add_num_passed (-1)) else mret tt);;
         erase_download_piece it
       else mret tt) ;; k) s Q.
Proof.
  intros Hc Hp HQ. apply wp_bind. case_bool_decide as Hq; cbn [negb].
  - wstep. specialize (HQ (pieces s) (dls s) (tal s)).
    replace (set_tal (tal s) (unsettled s (pieces s) (dls s))) with s in HQ
      by (by destruct s as [[] ? ? ? ? ? ? ? ? ? ? ? ?]).
    assert (Hv : view s i = None) by (by apply (view_open s i p (ck_queues _ Hc) Hp)).
    assert (Hun : unsettled s (pieces s) (dls s) = s)
      by (by destruct s as [[] ? ? ? ? ? ? ? ? ? ? ? ?]).
    rewrite Hun in HQ. apply HQ; try done.
    + rewrite <-(queue_open_state _ Hq), with_state_same. split; [done|]. intros j.
      destruct (Z.eqb_spec j i) as [->|]; [exact Hp|done].
    + apply Hc.
    + unfold passed_at. by rewrite Hv.
  - apply wp_bind. eapply wp_find; [done|done|done|]. intros it dp bs Hf Hcnt Hu Hqu Hall.
    apply wp_bind. eapply wp_reads; [by eapply focus_deref|].
    rewrite (focus_passed _ _ _ _ _ _ Hf). apply wp_bind.
    assert (Hrest : ∀ t, t = (if passed_at s i then add_num_passed (-1) (tal s) else tal s) →
      wp (erase_download_piece it) (set_tal t s) (λ _ s', wp k s' Q)).
    { intros t Ht. eapply (wp_focus_erase _ _ _ _ _ _ _ (focus_tal _ _ _ _ _ _ _ Hf t)).
      intros m d Hch Hqs Hv Hvs _. change (unsettled (set_tal t s) m d)
        with (set_tal t (unsettled s m d)) in *.
      apply HQ; try done. destruct Hqs as [[] ?]. by split. }
    destruct (passed_at s i); [|wstep; specialize (Hrest (tal s) eq_refl)].
    + apply wp_update_tallies. by apply Hrest.
    + by replace (set_tal (tal s) s) with s in Hrest by by destruct s.
Qed.

(** the piece leaves the list, if it is in it *)
Lemma wp_unlist s s1 i p p' m (Q : unit → picker → Prop) :
  list_ok s → piece_map i s = Some p → changed (pieces s) m i p' →
  lay s1 = set_map (lay s) m → m_dirty s1 = m_dirty s → m_seeds s1 = m_seeds s →
  piece_ok p' → priority (m_seeds s) p' = -1 →
  (∀ l', moved m (m_piece_map l') → list_ok (set_lay l' s1) → Q tt (set_lay l' s1)) →
  wp (if priority (m_seeds s) p =? -1 then mret tt
      else dirty ← gets m_dirty;
           if (dirty : bool) then mret tt
           else picker_remove (priority (m_seeds s) p) (index p)) s1 Q.
Proof.
  intros Hs Hp Hch Hlay Hd Hseeds Hok Hlow HQ.
  pose proof (lo_map s Hs i p Hp) as Hokp. pose proof (priority_bounds (m_seeds s) p Hokp) as Hb.
  assert (Hstay : (m_dirty s = false → priority (m_seeds s) p = -1) → Q tt s1).
  { intros H. replace s1 with (set_lay (set_map (lay s) m) s1) by (rewrite <-Hlay; by destruct s1).
    apply HQ; [done|]. eapply (list_ok_env (set_lay (set_map (lay s) m) s));
      [|done|cbn; congruence|cbn; congruence].
    eapply list_ok_same; try done. intros Hd0. specialize (H Hd0). split; [congruence|lia]. }
  destruct (Z.eqb_spec (priority (m_seeds s) p) (-1)) as [Heq|Hne]; [wstep; auto|].
  wstep. destruct (m_dirty s1) eqn:Hd1; [wstep; apply Hstay; congruence|].
  rewrite <-Hseeds in *.
  apply (wp_picker_remove s1 (lay s) m i p p'); try done; [|lia|].
  - rewrite Hseeds. apply (lo_listed s Hs). congruence.
  - intros l' Hinv Hmv. apply HQ; [done|].
    eapply (list_ok_env (set_rng (rng s1) (set_lay l' s1))); [|done..].
    apply (list_ok_relisted s1 (lay s) m i p p'); try done.
    apply (list_ok_env s); [done|done|cbn; congruence|cbn; congruence].
Qed.

(** the invariant after piece [i] has been replaced *)
Lemma picker_ok_repieced s s' i p' :
  picker_ok s → 0 ≤ i < num_pieces s → num_pieces s' = num_pieces s →
  m_blocks_per_piece s' = m_blocks_per_piece s →
  m_blocks_in_last_piece s' = m_blocks_in_last_piece s →
  m_pad_blocks s' = m_pad_blocks s → m_pads_in_piece s' = m_pads_in_piece s →
  list_ok s' → queues_ok s' →
  (∀ j, seen s' j = if j =? i then Some (norm p') else seen s j) →
  (∀ j, j ≠ i → view s' j = view s j) → piece_dl_ok s' i →
  cursors_for (λ j, if j =? i then negb (settled p') else wanted s j) (num_pieces s)
    (m_cursor s') (m_reverse_cursor s') →
  tal s' = tallies_step s s' i → picker_ok s'.
Proof.
  intros [Hc Hcu Ht Hpos] Hi Hn Hb Hl Hpb Hpp Hlist Hq Hseen Hv Hdl Hcur Htal. split.
  - assert (Hbl : ∀ j, blocks_in_piece j s' = blocks_in_piece j s)
      by (intros j; unfold blocks_in_piece; by rewrite Hn, Hb, Hl).
    split; [done|done| |].
    + unfold pads_ok. rewrite Hpb, Hn, Hb. apply Hc.
    + intros j. destruct (decide (j = i)) as [->|Hj]; [done|].
      apply (piece_dl_ok_eq s); [done| |by apply Hv|apply Hc].
      rewrite Hseen. by destruct (Z.eqb_spec j i).
  - unfold cursors_ok. rewrite Hn.
    assert (Hw : ∀ j, wanted s' j = if j =? i then negb (settled p') else wanted s j).
    { intros j. unfold wanted. rewrite Hseen. destruct (j =? i); [by rewrite settled_norm|done]. }
    destruct Hcur as [H1 H2 H3 H4 H5 H6].
    split; try done; intros; rewrite Hw; auto.
  - rewrite Htal. apply tallies_of_step; try done.
    + intros j Hj. rewrite Hseen. by destruct (Z.eqb_spec j i).
    + intros j Hj. unfold passed_at. by rewrite Hv.
    + intros j Hj. unfold pads, pad_blocks_in_piece. by rewrite Hpp.
  - intros j. unfold pads, pad_blocks_in_piece. rewrite Hpp, (row_pads_same s) by done. apply Hpos.
Qed.

Lemma piece_dl_ok_none s i : view s i = None → piece_dl_ok s i.
Proof. intros Hv p dp bs _ H. congruence. Qed.

Lemma have_piece_ok p : piece_ok p → piece_ok (set_have (with_state p piece_open)).
Proof. intros (H1 & H2 & _). split; [done|]. split; [done|]. cbn. unfold we_have_index. lia. Qed.

Lemma we_have_spec s i p :
  picker_ok s → piece_map i s = Some p → have p = false →
  wp (we_have i) s (λ _ s', repieced i (set_have (with_state p piece_open)) s s').
Proof.
  intros Hok Hp Hh. pose proof (ok_core _ Hok) as Hc. pose proof (ck_list _ Hc) as Hl.
  pose proof (vget_Some_range _ _ _ Hp) as Hi. change (0 ≤ i < num_pieces s) in Hi.
  pose proof (lo_map s Hl i p Hp) as Hokp.
  assert (Hsi : seen s i = Some (norm p)) by (unfold seen; by rewrite Hp).
  unfold we_have. wstep. apply wp_bind. eapply wp_reads. { unfold priority_of. rewrite Hp. reflexivity. }
  rewrite Hh. eapply (wp_detach s i p); [done|done|]. intros m d t Hch Hqs Hv Hvs Ht.
  set (s1 := set_tal t (unsettled s m d)). set (n := pad_blocks_in_piece i s).
  set (p' := set_have (with_state p piece_open)).
  (* the tallies *)
  set (t1 := if filtered p
             then add_num_have_filtered 1 (add_have_filtered_pad_blocks n
                    (add_num_filtered (-1) (add_filtered_pad_blocks (- n) t)))
             else t).
  set (t2 := add_have_pad_blocks n (add_num_passed 1 (add_num_have 1 t1))).
  apply wp_bind. apply wp_gets. change (pad_blocks_in_piece i s1) with n. apply wp_bind.
  assert (Hrest : wp
    (update_tallies (add_num_have 1);; update_tallies (add_num_passed 1);;
     update_tallies (add_have_pad_blocks n);; update_piece_pos i set_have;; we_have_cursors i;;
     if priority (m_seeds s) p =? -1 then mret tt
     else dirty ← gets m_dirty;
          if (dirty : bool) then mret tt else picker_remove (priority (m_seeds s) p) (index p))
    (set_tal t1 s1) (λ _ s', repieced i p' s s')).
  2: { unfold t1 in Hrest. destruct (filtered p); [do 4 wstep|apply wp_ret]; exact Hrest. }
  do 3 wstep. change (set_tal _ _) with (set_tal t2 s1). apply wp_bind.
  assert (Hp1 : piece_map i (set_tal t2 s1) = Some (with_state p piece_open))
    by exact (changed_eq _ _ _ _ Hch).
  eapply wp_update_piece_pos; [exact Hp1|]. intros m2 Hch2.
  change (pieces (set_tal t2 s1)) with m in Hch2.
  pose proof (changed_twice _ _ _ _ _ _ Hch Hch2) as Hch'.
  set (s2 := set_lay (set_map (lay (set_tal t2 s1)) m2) (set_tal t2 s1)).
  assert (Hn2 : num_pieces s2 = num_pieces s) by (destruct Hch'; unfold num_pieces, pieces in *; done).
  assert (Hseen2 : ∀ j, norm <$> m2⟦j⟧ = if j =? i then Some (norm p') else seen s j).
  { intros j. destruct Hch' as [_ ->]. by destruct (j =? i). }
  destruct (shrink_cursors_spec i s2 (wanted s)) as (c & rc & Hrun & Hcur).
  { rewrite Hn2. apply (ok_cursors _ Hok). }
  { by rewrite Hn2. }
  { intros j Hj _. unfold wanted, seen. change (piece_map j s2) with (m2⟦j⟧).
    rewrite Hseen2. by destruct (Z.eqb_spec j i). }
  apply wp_bind. exists tt, (set_cursors c rc s2). rewrite we_have_cursors_run, Hrun.
  split; [done|].
  eapply (wp_unlist s _ i p p' m2); [done|done|exact Hch'|done..|by apply have_piece_ok| |].
  { unfold priority. replace (have p') with true by done. by rewrite orb_true_r. }
  intros l' Hmv Hlok. set (s' := set_lay l' (set_cursors c rc s2)).
  assert (Hsn : ∀ j, seen s' j = if j =? i then Some (norm p') else seen s j)
    by (intros j; unfold s'; rewrite (moved_seen m2 _ l' j Hmv); apply Hseen2).
  assert (Hn' : num_pieces s' = num_pieces s).
  { destruct Hmv as [Hms _]. unfold num_pieces in *. cbn in *. congruence. }
  assert (Hvw : ∀ j, view s' j = view (unsettled s m d) j).
  { intros j. apply view_eq; try done. rewrite Hn'. destruct Hch as [Hms _].
    unfold num_pieces, pieces in *. cbn. congruence. }
  assert (Hq' : queues_ok s').
  { destruct Hqs as [[Hz1 Hz2] Hdls]. split; [by split|]. eapply dls_ok_ext; [exact Hdls|].
    intros j. rewrite queue_of_seen, Hsn, queue_of_norm. change (pieces (unsettled s m d)) with m.
    destruct Hch as [_ ->]. unfold seen. change (piece_map j s) with ((pieces s)⟦j⟧).
    by destruct (j =? i). }
  split; try done; [|by rewrite Hvw|by intros; rewrite Hvw, Hvs].
  apply (picker_ok_repieced s s' i p'); try done; [by intros; rewrite Hvw, Hvs|
    apply piece_dl_ok_none; by rewrite Hvw| |].
  - destruct Hcur as [C1 C2 C3 C4 C5 C6]. rewrite Hn2 in *. by split.
  - unfold tallies_step, passed_or_had, had, flag, passed_at, pads, pad_blocks_in_piece.
    rewrite Hsn, Z.eqb_refl, Hsi, Hvw, Hv. change (m_pads_in_piece s') with (m_pads_in_piece s).
    fold (pad_blocks_in_piece i s). fold n.
    assert (Hf' : filtered (norm p') = filtered p) by done.
    unfold filtered_only, have_filtered. rewrite !have_norm, Hf', filtered_norm, Hh.
    change (have p') with true. change (tal s') with t2. unfold t2, t1. rewrite Ht.
    change (match view s i with Some (dp, _) => passed_hash_check dp | None => false end)
      with (passed_at s i).
    destruct (filtered p), (passed_at s i); apply tallies_eq; cbn; lia.
Qed.
End have.
