(* ===== verification/PickerLost.v ===== *)
(** Pieces that pass the hash check: [piece_passed], [mark_as_finished] and
    [lock_piece], and the invariant after the operations of PickerCancel.v; pieces
    that are lost and pieces that change their priority: [we_dont_have] and
    [set_piece_priority]. *)

From stdpp Require Import gmap.
From S2P Require Import Prelude.
From S2P Require Import Random.
From S2P Require Import PiecePicker.
From S2P Require Import PickerBuckets.
From S2P Require Import PickerRebuild.
From S2P Require Import PickerState.
From S2P Require Import PickerOps.
From S2P Require Import PickerBlocks.
From S2P Require Import PickerInv.
From S2P Require Import PickerAvail.
From S2P Require Import PickerDls.
From S2P Require Import PickerSteps.
From S2P Require Import PickerCore.
From S2P Require Import PickerMarks.
From S2P Require Import PickerDownloading.
From S2P Require Import PickerCancel.
From S2P Require Import PickerHave.

Open Scope Z_scope.

Section pass.
Context {R : StdRandom} {Rok : StdRandomOk R}.

(** ** The invariant when a piece passes or no longer does *)

(** [d] more pieces have passed *)
Definition more_passed (d : Z) (s : picker) : picker := set_tal (add_num_passed d (tal s)) s.

Lemma more_passed_0 s : more_passed 0 s = s.
Proof.
  unfold more_passed, add_num_passed. rewrite Z.add_0_r. by destruct s as [? ? ? ? ? [] ? ? ? ? ? ? ?].
Qed.

Lemma void_passed_more s i : void_passed s i = more_passed (- Z.b2z (passed_at s i)) s.
Proof. unfold void_passed. destruct (passed_at s i); [done|]. by rewrite more_passed_0. Qed.

Lemma passed_ok s s' i j x b d :
  picker_ok s → marked_as b (more_passed d s) s' i j x → 0 ≤ i < num_pieces s →
  had s i = false → d = Z.b2z b - Z.b2z (passed_at s i) → picker_ok s'.
Proof.
  intros Hok [Hc [e He] Hst _ Ho Hp] Hi Hh ->.
  apply (picker_ok_blocks s s' i); try done; try apply He.
  - intros l Hl. unfold passed_at. by rewrite Ho.
  - unfold passed_or_had. rewrite Hp, (had_static s s' i), Hh by done.
    by rewrite (ev_tal _ _ He).
Qed.

Lemma dropped_passed_ok s s' i d :
  picker_ok s → dropped (more_passed d s) s' i → 0 ≤ i < num_pieces s → had s i = false →
  d = - Z.b2z (passed_at s i) → picker_ok s'.
Proof.
  intros Hok [Hc [e He] Hst Hv _ Ho] Hi Hh ->.
  apply (picker_ok_blocks s s' i); try done; try apply He.
  - intros l Hl. unfold passed_at. by rewrite Ho.
  - unfold passed_or_had. rewrite (had_static s s' i), Hh by done.
    unfold passed_at at 1. rewrite Hv. by rewrite (ev_tal _ _ He).
Qed.

Lemma given_up_ok s s' i j x b d left :
  picker_ok s → given_up b (more_passed d s) s' i j x left → 0 ≤ i < num_pieces s →
  had s i = false → d = Z.b2z b - Z.b2z (passed_at s i) → (left = 0 → b = false) → picker_ok s'.
Proof.
  intros Hok [Hm Hd] Hi Hh Hdd Hb. destruct (decide (left = 0)) as [Hz|Hz].
  - eapply dropped_passed_ok; [done|by apply Hd|done|done|]. rewrite Hdd, Hb by done. done.
  - eapply passed_ok; [done|by apply Hm|done..].
Qed.

(** the record of a piece, if it has one *)
Lemma wp_find_ok {A} s i p (k : dl_iterator → M A) (Q : A → picker → Prop) :
  picker_ok s → piece_map i s = Some p → download_queue p ≠ piece_open →
  (∀ it dp bs, focus i s s p dp bs it → counts_ok dp bs → 0 < blocks_used dp →
     download_queue p = proper_queue (blocks_in_piece i s) p dp →
     (∀ k, 0 ≤ k < blocks_in_piece i s → bs⟦k⟧ = Some (block_at s i k)) →
     view s i = Some (dp, bs) → had s i = false → passed_hash_check dp = passed_at s i →
     0 ≤ i < num_pieces s → wp (k it) s Q) →
  wp (it ← reads (find_dl_piece (queue_number (download_queue p)) i); k it) s Q.
Proof.
  intros Hok Hp Hq HQ. apply wp_bind. eapply wp_find; [apply Hok|done|done|].
  intros it dp bs Hf Hcnt Hu Hqu Hall. pose proof (fc_view _ _ _ _ _ _ _ Hf) as Hv.
  eapply HQ; try done; [by eapply view_not_had; [apply Hok|]|by eapply focus_passed|].
  by eapply vget_Some_range.
Qed.

Lemma touched_tal i s s' : touched i s s' → tal s' = tal s.
Proof. by intros [-> _ _]. Qed.

(** the passed flag and the tally of an operation that changes no block *)
Lemma wp_set_passed s i p dp bs it b (Q : unit → picker → Prop) :
  picker_ok s → focus i s s p dp bs it →
  (∀ s1, touched i s s1 → focus i s s1 p (with_passed dp b) bs it → Q tt s1) →
  wp (update_dl it (λ dp, with_passed dp b)) s Q.
Proof.
  intros Hok Hf HQ.
  eapply wp_update_dl; [apply (fc_queues _ _ _ _ _ _ _ Hf)|apply Hf|apply Hf|done|done|].
  intros s1 Ht Hv Hit. apply HQ; [done|]. by eapply focus_step.
Qed.

(** ** [lock_piece] *)

(** whether the record of the piece is locked *)
Definition locked_at (s : picker) (i : Z) : bool :=
  match view s i with Some (dp, _) => locked dp | None => false end.

(** no block has changed *)
Definition same_blocks (b : bool) (s s' : picker) (i : Z) : Prop :=
  marked_as b s s' i 0 (block_at s i 0).

Lemma focus_same_blocks i s0 s p dp bs it b :
  focus i s0 s p dp bs it → counts_ok dp bs → 0 < blocks_used dp →
  download_queue p = proper_queue (blocks_in_piece i s) p dp →
  (∀ k, 0 ≤ k < blocks_in_piece i s0 → bs⟦k⟧ = Some (block_at s0 i k)) →
  passed_hash_check dp = b → same_blocks b s0 s i.
Proof.
  intros Hf Hc Hu Hq Hall Hp. eapply focus_marked; [exact Hf|done|done|done| |done].
  intros k Hk. rewrite Hall by done. by destruct (Z.eqb_spec k 0) as [->|].
Qed.

Lemma lock_spec s i p :
  picker_ok s → piece_map i s = Some p →
  wp (lock_piece i) s (λ _ s',
    if bool_decide (download_queue p = piece_open) then s' = s
    else picker_ok s' ∧ same_blocks false (void_passed s i) s' i ∧ locked_at s' i = true).
Proof.
  intros Hok Hp. unfold lock_piece. wstep. case_bool_decide as Hq; [by wstep|].
  apply wp_find_ok; [done..|]. intros it dp bs Hf Hcnt Hu Hqu Hall Hv Hh Hpass Hi.
  apply wp_bind. eapply wp_reads; [by eapply focus_is_end|]. apply wp_bind.
  eapply wp_reads; [by eapply focus_deref|].
  assert (Hrest : ∀ s1 dp1, focus i (void_passed s i) s1 p dp1 bs it → counts_ok dp1 bs →
    0 < blocks_used dp1 → download_queue p = proper_queue (blocks_in_piece i s1) p dp1 →
    passed_hash_check dp1 = false →
    wp (update_dl it (λ dp, with_locked dp true)) s1 (λ _ s',
      picker_ok s' ∧ same_blocks false (void_passed s i) s' i ∧ locked_at s' i = true)).
  { intros s1 dp1 Hf1 Hc1 Hu1 Hq1 Hp1.
    eapply (wp_focus_update_dl _ _ _ _ _ _ _ Hf1); [done|done|]. intros s2 Hf2 _ _ Hbl.
    assert (Hm : same_blocks false (void_passed s i) s2 i).
    { eapply focus_same_blocks; [exact Hf2|by destruct Hc1; split|done|by rewrite Hbl| |done].
      rewrite void_passed_more. exact Hall. }
    split; [|split; [done|]].
    - rewrite void_passed_more in Hm. eapply passed_ok; [exact Hok|exact Hm|done|done|]. cbn. lia.
    - unfold locked_at. by rewrite (fc_view _ _ _ _ _ _ _ Hf2). }
  rewrite Hpass. unfold void_passed in *. apply wp_bind. destruct (passed_at s i).
  - apply wp_bind. eapply wp_set_passed; [done|exact Hf|]. intros s1 Ht Hf1. wstep.
    rewrite (touched_tal _ _ _ Ht). eapply Hrest; [apply (focus_tal _ _ _ _ _ _ _ Hf1)|by destruct Hcnt; split|done| |done].
    change (blocks_in_piece i (set_tal _ s1)) with (blocks_in_piece i s1).
    by rewrite (focus_blocks _ _ _ _ _ _ _ Hf1).
  - wstep. eapply Hrest; [exact Hf|done..].
Qed.
(** ** [piece_passed] *)

Definition finished_at (s : picker) (i : Z) : Z :=
  match view s i with Some (dp, _) => finished dp | None => 0 end.

(** what a piece that is had looks like *)
Definition had_piece (p : piece_pos) : piece_pos := set_have (with_state p piece_open).

(** what happened to a piece before it was had does not matter *)
Lemma repieced_trans i p' s s1 s' :
  (∃ e, env_eq (set_extents e (set_tal (tal s1) s)) s1) → (∀ j, j ≠ i → seen s1 j = seen s j) →
  (∀ j, j ≠ i → view s1 j = view s j) → repieced i p' s1 s' → repieced i p' s s'.
Proof.
  intros [e []] Hs Hv [H1 H2 H3 H4 [] [] H7 H8 H9].
  change (num_pieces (set_extents _ _)) with (num_pieces s) in *.
  cbn [m_dirty m_seeds m_pads_in_piece m_pad_blocks m_blocks_per_piece m_blocks_in_last_piece
       set_extents set_tal] in *.
  split; try done; [congruence..|split; congruence|split; congruence| |].
  - intros j. rewrite H7. destruct (Z.eqb_spec j i); [done|auto].
  - intros j Hj. by rewrite H9, Hv.
Qed.

Lemma had_piece_static p q : static p = static q → norm (had_piece p) = norm (had_piece q).
Proof. destruct p, q. unfold static. cbn. by intros [= -> -> _]. Qed.

Lemma repieced_static i p q s s' :
  static p = static q → repieced i (had_piece p) s s' → repieced i (had_piece q) s s'.
Proof. intros Hst []. split; try done. by rewrite <-(had_piece_static _ _ Hst). Qed.

(** a piece in focus is had *)
Lemma wp_focus_we_have i s0 s p0 p dp bs it t :
  piece_map i s0 = Some p0 → focus i s0 s p dp bs it → picker_ok (set_tal t s) →
  wp (we_have i) (set_tal t s) (λ _ s', repieced i (had_piece p0) s0 s').
Proof.
  intros Hp0 Hf Hok. pose proof Hf as [H1 [e H2] H3 H4 H5 H6 H7 H8 H9].
  eapply wp_mono; [apply (we_have_spec _ i p); [done|exact H6|done]|].
  intros [] s' Hre. eapply (repieced_trans i _ s0 (set_tal t s)); [|done..|].
  - exists e. by destruct H2.
  - eapply repieced_static; [|exact Hre]. specialize (H3 i). unfold seen in H3.
    rewrite H6, Hp0 in H3. cbn in H3. rewrite !static_norm in H3. congruence.
Qed.

Lemma piece_passed_spec s i p :
  picker_ok s → piece_map i s = Some p → passed_at s i = false →
  wp (piece_passed i) s (λ _ s',
    if bool_decide (download_queue p = piece_open) || locked_at s i then s' = s
    else if finished_at s i <? blocks_in_piece i s then
      picker_ok s' ∧ same_blocks true (more_passed 1 s) s' i
    else repieced i (had_piece p) s s').
Proof.
  intros Hok Hp Hnp. unfold piece_passed. wstep. case_bool_decide as Hq; [by wstep|].
  apply wp_find_ok; [done..|]. intros it dp bs Hf Hcnt Hu Hqu Hall Hv Hh Hpass Hi.
  apply wp_bind. eapply wp_reads; [by eapply focus_deref|].
  unfold locked_at, finished_at. rewrite Hv. cbn [orb].
  destruct (locked dp); [by wstep|]. apply wp_bind.
  eapply wp_set_passed; [done|exact Hf|]. intros s1 Ht Hf1. do 2 wstep.
  change (blocks_in_piece i (set_tal _ s1)) with (blocks_in_piece i s1).
  rewrite (focus_blocks _ _ _ _ _ _ _ Hf1), (touched_tal _ _ _ Ht).
  pose proof (focus_tal _ _ _ _ _ _ _ Hf1 (add_num_passed 1 (tal s))) as Hf2.
  assert (Hm : same_blocks true (more_passed 1 s) (set_tal (add_num_passed 1 (tal s)) s1) i).
  { eapply focus_same_blocks; [exact Hf2|by destruct Hcnt; split|done| |exact Hall|done].
    change (blocks_in_piece i (set_tal _ s1)) with (blocks_in_piece i s1).
    by rewrite (focus_blocks _ _ _ _ _ _ _ Hf1). }
  assert (Hok2 : picker_ok (set_tal (add_num_passed 1 (tal s)) s1)).
  { eapply passed_ok; [exact Hok|exact Hm|done|done|]. rewrite Hnp. done. }
  destruct (_ <? _); [by wstep|]. by eapply wp_focus_we_have.
Qed.

(** ** [mark_as_finished] *)

Definition finished_block (b : block_info) (pr : torrent_peer) : block_info :=
  BlockInfo (if negb (bool_decide (bstate b = state_writing)) || negb (pr =? nullptr)
             then pr else peer b) 0 state_finished.

Lemma finish_new s i j pr p :
  picker_ok s → piece_map i s = Some p → 0 ≤ j < blocks_in_piece i s →
  download_queue p = piece_open → slices_fit s →
  wp (mark_as_finished (PieceBlock i j) pr) s (λ _ s',
    let b := block_at s i j in
    if have p then s' = s
    else marked s s' i j (if bool_decide (bstate b = state_finished) then b
                          else finished_block b pr)).
Proof.
  intros Hok Hp Hj Hq Hfit. pose proof (ok_core _ Hok) as Hc.
  unfold mark_as_finished. cbn [piece_index block_index]. cbn zeta.
  pose proof (proj2 (view_open s i p (ck_queues _ Hc) Hp) Hq) as Hnone.
  wstep. rewrite bool_decide_eq_true_2 by done. apply wp_bind. eapply wp_reads.
  { unfold have_piece. rewrite Hp. reflexivity. }
  change (index p =? we_have_index) with (have p). destruct (have p) eqn:Hh; [by wstep|].
  eapply wp_open_add; try done. intros it s1 p1 x dp Hf Hcnt Hqu Hpass Hall.
  pose proof (Hall j Hj) as Hget. set (b := block_at s i j) in *.
  assert (Hb : b = BlockInfo nullptr 0 state_none ∨ bstate b = state_finished).
  { unfold b, block_at. rewrite Hnone. unfold fresh_block. destruct (pad_at s i j); auto. }
  lookup_block Hf Hget. case_bool_decide as Hfin.
  - wstep. eapply pad_marked; [exact Hf|done..].
  - destruct Hb as [Hb|Hb]; [|done]. apply wp_bind.
    eapply (wp_focus_update_dl _ _ _ _ _ _ _ Hf); [done|done|]. intros s2 Hf2 Hn2 _ Hbl2.
    apply wp_bind.
    rewrite <-(span_of_eq i s1 s2 dp (with_finished dp (finished dp + 1))) by done.
    eapply (wp_focus_set_block _ _ _ _ _ _ _ Hf2); [by eapply vget_Some_range|].
    intros s3 bs3 Hset Hf3 _ _. apply wp_bind.
    pose proof (counter_bound _ _ _ _ _ _ _ Hf Hcnt) as (Hfb & Hwb & Hrb & Hub).
    assert (Hpos : 0 < count state_none (fresh_blocks s i))
      by (eapply count_pos; [exact Hget|by rewrite Hb]).
    unfold blocks_used in Hub. rewrite Hb in Hget, Hset |- *.
    eapply (wp_finish_block s s3 i j); [exact Hf3|exact Hcnt|exact Hget|exact Hset|
      done|counters..|exact Hall|exact Hpass|].
    intros it' s4 p4 Hf4 _ Hc4 Hm. wstep. apply Hm.
    eapply (used_pos _ _ j); [exact Hc4| |]; [by rewrite (vset_get _ _ _ _ _ Hset), Z.eqb_refl|done].
Qed.

(** the last block of a piece that has passed: the piece is had *)
Lemma finish_again s i j pr p :
  picker_ok s → piece_map i s = Some p → 0 ≤ j < blocks_in_piece i s →
  download_queue p ≠ piece_open → bstate (block_at s i j) ≠ state_requested →
  wp (mark_as_finished (PieceBlock i j) pr) s (λ _ s',
    let b := block_at s i j in
    if bool_decide (bstate b = state_finished) then s' = s
    else if (finished_at s i + 1 =? blocks_in_piece i s) && passed_at s i
    then repieced i (had_piece p) s s'
    else marked s s' i j (finished_block b pr)).
Proof.
  intros Hok Hp Hj Hq Hnr. unfold mark_as_finished. cbn [piece_index block_index]. cbn zeta.
  wstep. rewrite bool_decide_eq_false_2 by done. apply wp_find_ok; [done..|].
  intros it dp bs Hf Hcnt Hu Hqu Hall Hv Hh Hpass Hi. pose proof (Hall j Hj) as Hget.
  set (b := block_at s i j) in *. pose proof (co_blocks _ _ Hcnt _ _ Hget) as Hbok.
  lookup_block Hf Hget. case_bool_decide as Hfin; [by wstep|].
  assert (Hst : bstate b = state_none ∨ bstate b = state_writing)
    by (destruct (bstate b); try done; auto).
  assert (Hnp : num_peers b = 0)
    by (unfold block_ok in Hbok; by destruct Hst as [E|E]; rewrite E in Hbok).
  set (info := with_bstate _ state_finished).
  assert (Hinfo : info = finished_block b pr).
  { unfold info, finished_block. destruct (_ || _); unfold with_bstate, with_peer; cbn; by rewrite Hnp. }
  clearbody info. subst info.
  pose proof (counter_bound _ _ _ _ _ _ _ Hf Hcnt) as (Hfb & Hwb & Hrb & Hub).
  pose proof (count_range state_none bs) as Hnb.
  assert (Hbound : finished dp + 1 < 2 ^ 15 ∧ (bstate b = state_writing → 0 < writing dp)).
  { unfold blocks_used in Hub. rewrite (co_writing _ _ Hcnt) in *.
    destruct Hst as [E|E]; pose proof (count_pos _ _ _ _ Hget E); (split; [lia|intros; congruence || lia]). }
  destruct Hbound as [Hfb1 Hwpos].
  apply wp_bind. eapply (wp_focus_update_dl _ _ _ _ _ _ _ Hf); [done|done|].
  intros s1 Hf1 Hn1 Hsz1 Hbl1.
  assert (Hrest : ∀ s2 dp2, focus i s s2 p dp2 bs it → info_idx dp2 = info_idx dp →
    m_blocks_per_piece s2 = m_blocks_per_piece s → blocks_in_piece i s2 = blocks_in_piece i s →
    finished dp2 = finished dp + 1 → requested dp2 = requested dp →
    writing dp2 = writing dp - Z.b2z (bool_decide (bstate b = state_writing)) →
    passed_hash_check dp2 = passed_at s i →
    wp (set_block (span_of i s dp) j (finished_block b pr);;
        it ← update_piece_state it;
        dp ← reads (deref it);
        n ← gets (blocks_in_piece (dp_index dp));
        if finished dp <? n then mret tt
        else if passed_hash_check dp then we_have (dp_index dp) else mret tt) s2
      (λ _ s', if (finished_at s i + 1 =? blocks_in_piece i s) && passed_at s i
         then repieced i (had_piece p) s s' else marked s s' i j (finished_block b pr))).
  { intros s2 dp2 Hf2 Hi2 Hn2 Hbl2 Hfin2 Hr2 Hw2 Hp2. apply wp_bind.
    rewrite <-(span_of_eq i s s2 dp dp2) by done.
    eapply (wp_focus_set_block _ _ _ _ _ _ _ Hf2); [by eapply vget_Some_range|].
    intros s3 bs3 Hset Hf3 Hn3 Hbl3. apply wp_bind.
    eapply (wp_finish_block s s3 i j); [exact Hf3|exact Hcnt|exact Hget|exact Hset|done|
      rewrite ?Hfin2, ?Hr2, ?Hw2; destruct Hst as [E|E]; rewrite E; cbn [bstate]; counters..|
      exact Hall|exact Hp2|].
    intros it4 s4 p4 Hf4 Hst4 Hc4 Hm. apply wp_bind. eapply wp_reads; [by eapply focus_deref|].
    assert (Hidx : dp_index dp2 = i)
      by (eapply view_index; [apply (fc_queues _ _ _ _ _ _ _ Hf4)|apply Hf4]).
    wstep. rewrite Hidx. rewrite (focus_blocks _ _ _ _ _ _ _ Hf4).
    assert (Hmk : marked s s4 i j (finished_block b pr)).
    { apply Hm. unfold blocks_used. rewrite Hfin2, Hr2, Hw2.
      unfold blocks_used in *. case_bool_decide; cbn [Z.b2z]; [specialize (Hwpos H)|]; lia. }
    unfold finished_at. rewrite Hv. rewrite Hfin2, Hp2.
    assert (Hle : finished dp + 1 ≤ blocks_in_piece i s).
    { rewrite <-(view_size s (fc_queues _ _ _ _ _ _ _ Hf) i dp bs Hv).
      pose proof (count_sum bs). rewrite (co_finished _ _ Hcnt).
      pose proof (count_range state_requested bs). pose proof (count_range state_writing bs).
      destruct Hst as [E|E]; pose proof (count_pos _ _ _ _ Hget E); lia. }
    destruct (Z.ltb_spec (finished dp + 1) (blocks_in_piece i s)).
    { wstep. by rewrite (proj2 (Z.eqb_neq _ _)) by lia. }
    rewrite (proj2 (Z.eqb_eq _ _)) by lia. cbn [andb]. destruct (passed_at s i) eqn:Hpa; [|by wstep].
    replace s4 with (set_tal (tal s4) s4) by by destruct s4.
    eapply wp_focus_we_have; [done|exact Hf4|]. replace (set_tal (tal s4) s4) with s4 by by destruct s4.
    eapply marked_ok; [exact Hok|exact Hmk|done]. }
  apply wp_bind. case_bool_decide as Hw.
  - specialize (Hwpos Hw).
    eapply (wp_focus_update_dl _ _ _ _ _ _ _ Hf1); [done|done|]. intros s2 Hf2 Hn2 _ Hbl2.
    eapply Hrest; [exact Hf2|done|congruence|congruence| |done| |done].
    + cbn. rewrite uint_small by lia. done.
    + cbn [writing with_writing with_finished]. unfold blocks_used in Hub.
      rewrite uint_small by lia. done.
  - wstep. eapply Hrest; [exact Hf1|done|done|done| |done| |done].
    + cbn. rewrite uint_small by lia. done.
    + cbn [writing with_writing with_finished Z.b2z]. lia.
Qed.
End pass.

Section lost.
Context {R : StdRandom} {Rok : StdRandomOk R}.

(** ** [we_dont_have] *)

(** the piece joins the list, if it can be picked *)
Lemma wp_enlist s s1 i p p' m (Q : unit → picker → Prop) :
  list_ok s → piece_map i s = Some p → changed (pieces s) m i p' →
  lay s1 = set_map (lay s) m → m_dirty s1 = m_dirty s → m_seeds s1 = m_seeds s →
  piece_ok p' → priority (m_seeds s) p = -1 →
  (∀ l' e', moved m (m_piece_map l') → list_ok (set_rng e' (set_lay l' s1)) →
     Q tt (set_rng e' (set_lay l' s1))) →
  wp (dirty ← gets m_dirty;
      if (dirty : bool) then mret tt
      else
        prio ← reads (priority_of i);
        if 0 <=? prio then picker_add i else mret tt) s1 Q.
Proof.
  intros Hs Hp Hch Hlay Hd Hseeds Hok Hlow HQ.
  pose proof (priority_bounds (m_seeds s) p' Hok) as Hb.
  assert (Hstay : (m_dirty s = false → priority (m_seeds s) p' = -1) → Q tt s1).
  { intros H. replace s1 with (set_rng (rng s1) (set_lay (set_map (lay s) m) s1))
      by (rewrite <-Hlay; by destruct s1).
    apply HQ; [done|]. eapply (list_ok_env (set_lay (set_map (lay s) m) s));
      [|done|cbn; congruence|cbn; congruence].
    eapply list_ok_same; try done. intros Hd0. specialize (H Hd0). split; [congruence|lia]. }
  wstep. destruct (m_dirty s1) eqn:Hd1; [wstep; apply Hstay; congruence|].
  assert (Hpm : piece_map i s1 = Some p')
    by (unfold piece_map; rewrite Hlay; exact (changed_eq _ _ _ _ Hch)).
  apply wp_bind. eapply wp_reads. { unfold priority_of. rewrite Hpm. reflexivity. }
  rewrite Hseeds. destruct (Z.leb_spec 0 (priority (m_seeds s) p')); [|wstep; apply Hstay; lia].
  rewrite <-Hseeds in *.
  apply (wp_picker_add s1 (lay s) m i p p'); try done; [apply Hs| |].
  { rewrite Hseeds. apply (lo_listed s Hs). congruence. }
  intros l' e' Hinv Hmv. apply HQ; [done|].
  apply (list_ok_relisted s1 (lay s) m i p p'); try done.
  apply (list_ok_env s); [done|done|cbn; congruence|cbn; congruence].
Qed.

Lemma priority_had seeds p : have p = true → priority seeds p = -1.
Proof. intros Hh. unfold priority. rewrite Hh. by rewrite orb_true_r. Qed.

Lemma had_no_view s i p : core_ok s → piece_map i s = Some p → have p = true → view s i = None.
Proof.
  intros Hc Hp Hh. destruct (view s i) as [[dp bs]|] eqn:Hv; [|done].
  pose proof (view_not_had s i dp bs Hc Hv) as H. unfold had, seen in H. rewrite Hp in H.
  cbn in H. rewrite have_norm in H. congruence.
Qed.

(** the queues do not depend on what else changes in the piece *)
Lemma queues_ok_piece s s' i p p' :
  queues_ok s → seen s i = Some p → download_queue p' = download_queue p →
  dls s' = dls s → m_blocks_per_piece s' = m_blocks_per_piece s →
  m_blocks_in_last_piece s' = m_blocks_in_last_piece s →
  (∀ j, seen s' j = if j =? i then Some (norm p') else seen s j) → queues_ok s'.
Proof.
  intros [[Hz1 Hz2] Hdls] Hp Hq Hd Hn Hl Hseen. split; [split; congruence|].
  rewrite Hd, Hn. eapply dls_ok_ext; [exact Hdls|]. intros j.
  rewrite !queue_of_seen, Hseen. destruct (Z.eqb_spec j i) as [->|]; [|done].
  rewrite Hp. cbn. f_equal. exact Hq.
Qed.

Lemma not_had_piece_ok p : piece_ok p → piece_ok (set_not_have p).
Proof. intros (H1 & H2 & _). split; [done|]. split; [done|]. cbn. lia. Qed.

Lemma we_dont_have_spec s i p :
  picker_ok s → piece_map i s = Some p → have p = true →
  wp (we_dont_have i) s (λ _ s', repieced i (set_not_have p) s s').
Proof.
  intros Hok Hp Hh. pose proof (ok_core _ Hok) as Hc. pose proof (ck_list _ Hc) as Hl.
  pose proof (vget_Some_range _ _ _ Hp) as Hi. change (0 ≤ i < num_pieces s) in Hi.
  pose proof (lo_map s Hl i p Hp) as Hokp.
  assert (Hsi : seen s i = Some (norm p)) by (unfold seen; by rewrite Hp).
  pose proof (had_no_view s i p Hc Hp Hh) as Hv.
  unfold we_dont_have. wstep. rewrite Hh. cbn [negb]. do 2 wstep.
  set (t0 := add_num_passed (-1) (tal s)).
  change (pad_blocks_in_piece i (set_tal t0 s)) with (pad_blocks_in_piece i s).
  set (n := pad_blocks_in_piece i s). set (p' := set_not_have p). set (s0 := set_tal t0 s).
  apply wp_bind.
  assert (Hrest : ∀ c rc t1,
    t1 = (if filtered p
          then add_num_have_filtered (-1) (add_have_filtered_pad_blocks (- n)
                 (add_num_filtered 1 (add_filtered_pad_blocks n t0)))
          else t0) →
    cursors_for (λ j, if j =? i then negb (settled p') else wanted s j) (num_pieces s) c rc →
    wp (update_tallies (add_num_have (-1));;
        update_tallies (add_have_pad_blocks (- n));;
        update_piece_pos i set_not_have;;
        dirty ← gets m_dirty;
        if (dirty : bool) then mret tt
        else
          prio ← reads (priority_of i);
          if 0 <=? prio then picker_add i else mret tt)
      (set_tal t1 (set_cursors c rc s)) (λ _ s', repieced i p' s s')).
  { intros c rc t1 Ht1 Hcur. do 2 wstep. apply wp_bind.
    change (set_tal _ (set_tal _ _)) with
      (set_tal (add_have_pad_blocks (- n) (add_num_have (-1) t1)) (set_cursors c rc s)).
    set (t2 := add_have_pad_blocks (- n) (add_num_have (-1) t1)).
    eapply wp_update_piece_pos; [exact Hp|]. intros m Hch.
    set (s2 := set_lay (set_map (lay s) m) (set_tal t2 (set_cursors c rc s))).
    eapply (wp_enlist s s2 i p p' m); [done|done|exact Hch|done..|by apply not_had_piece_ok|
      by apply priority_had|].
    intros l' e' Hmv Hlok. set (s' := set_rng e' (set_lay l' s2)).
    assert (Hsn : ∀ j, seen s' j = if j =? i then Some (norm p') else seen s j).
    { intros j. change (seen s' j) with (seen (set_lay l' s2) j).
      rewrite (moved_seen m s2 l' j Hmv). destruct Hch as [_ ->]. by destruct (j =? i). }
    assert (Hn' : num_pieces s' = num_pieces s).
    { destruct Hmv as [Hms _], Hch as [Hcs _]. unfold num_pieces, pieces in *. cbn in *. congruence. }
    assert (Hvw : ∀ j, view s' j = view s j) by (intros j; by apply view_eq).
    assert (Hq' : queues_ok s') by (eapply (queues_ok_piece s s' i (norm p) p'); [apply Hc|exact Hsi|done..]).
    split; try done; [|by rewrite Hvw].
    apply (picker_ok_repieced s s' i p'); try done; [apply piece_dl_ok_none; by rewrite Hvw|].
    unfold tallies_step, passed_or_had, had, flag, passed_at, pads, pad_blocks_in_piece.
    rewrite Hsn, Z.eqb_refl, Hsi, Hvw, Hv. change (m_pads_in_piece s') with (m_pads_in_piece s).
    fold (pad_blocks_in_piece i s). fold n.
    assert (Hf' : filtered (norm p') = filtered p) by done.
    unfold filtered_only, have_filtered. rewrite !have_norm, Hf', filtered_norm, Hh.
    change (have p') with false. change (tal s') with t2. unfold t2. rewrite Ht1. unfold t0.
    destruct (filtered p); apply tallies_eq; cbn; lia. }
  destruct (filtered p) eqn:Hfil.
  - do 4 wstep. specialize (Hrest (m_cursor s) (m_reverse_cursor s)).
    rewrite set_cursors_same in Hrest. apply Hrest; [done|].
    destruct (ok_cursors _ Hok) as [C1 C2 C3 C4 C5 C6].
    assert (Hw : ∀ j, (if j =? i then negb (settled p') else wanted s j) = wanted s j).
    { intros j. destruct (Z.eqb_spec j i) as [->|]; [|done]. rewrite (wanted_piece s i p Hp).
      unfold settled. change (filtered p') with (filtered p). by rewrite Hfil, !orb_true_r. }
    split; intros; rewrite ?Hw; auto.
  - destruct (extend_cursors_run i s0 (wanted s)) as (c & rc & Hrun & Hcur); [apply Hok|done|].
    exists tt, (set_cursors c rc s0). split; [exact Hrun|].
    apply (Hrest c rc t0); [done|]. change (num_pieces s0) with (num_pieces s) in Hcur.
    assert (Hset : negb (settled p') = true)
      by (unfold settled; change (filtered p') with (filtered p); by rewrite Hfil).
    by rewrite Hset.
Qed.
(** piece [i] has lost its record and is where it was in the list *)
Record forgotten (i : Z) (p : piece_pos) (s s' : picker) : Prop := {
  fg_pieces : m_pieces (lay s') = m_pieces (lay s);
  fg_bounds : m_priority_boundaries (lay s') = m_priority_boundaries (lay s);
  fg_seeds : m_seeds s' = m_seeds s;
  fg_dirty : m_dirty s' = m_dirty s;
  fg_piece : piece_map i s' = Some (with_state p piece_open);
  fg_view : view s' i = None
}.

(** a piece that is not had is only forgotten; it stays where it is in the
    list *)
Lemma wp_forget s i p :
  picker_ok s → piece_map i s = Some p → have p = false →
  wp (we_dont_have i) s (λ _ s',
    if bool_decide (download_queue p = piece_open) then s' = s
    else forgotten i p s s' ∧
      (m_dirty s = true ∨ priority (m_seeds s) (with_state p piece_open) = priority (m_seeds s) p →
       picker_ok s' ∧ dropped (void_passed s i) s' i)).
Proof.
  intros Hok Hp Hh. unfold we_dont_have. wstep. rewrite Hh. cbn [negb].
  case_bool_decide as Hq; [by wstep|].
  apply wp_find_ok; [done..|]. intros it dp bs Hf Hcnt Hu Hqu Hall Hv Hhad Hpass Hi.
  apply wp_bind. eapply wp_reads; [by eapply focus_deref|]. rewrite Hpass.
  assert (Hrest : ∀ s1 dp1, focus i (void_passed s i) s1 p dp1 bs it → m_dirty s1 = m_dirty s →
    m_seeds s1 = m_seeds s → lay s1 = lay s →
    wp (erase_download_piece it) s1 (λ _ s', forgotten i p s s' ∧
      (m_dirty s = true ∨ priority (m_seeds s) (with_state p piece_open) = priority (m_seeds s) p →
       picker_ok s' ∧ dropped (void_passed s i) s' i))).
  { intros s1 dp1 Hf1 Hd1 Hs1 Hl1'. eapply (wp_focus_erase _ _ _ _ _ _ _ Hf1).
    intros m d Hch Hqs Hv1 Hvs Hpr. split.
    { split; try done; try (cbn; by rewrite Hl1'). by apply changed_eq in Hch. }
    intros Hprio.
    pose proof (ao_list _ _ (fc_almost _ _ _ _ _ _ _ Hf1)) as Hl1.
    assert (Hdr : dropped (void_passed s i) (unsettled s1 m d) i).
    { eapply (dropped_reseen _ _ _ _ _ _ _ Hf1 m d); [done..|]. split; [| |done|].
      - split; try done. by destruct Hch.
      - apply (list_ok_same (set_dls d s1) m i p (with_state p piece_open));
          [by apply list_ok_dls|apply Hf1|done|exact (lo_map _ Hl1 i p (fc_piece _ _ _ _ _ _ _ Hf1))|].
        cbn. rewrite Hd1, Hs1. intros Hd0. destruct Hprio as [Hprio|]; [congruence|done].
      - intros j. unfold seen. change (piece_map j (unsettled s1 m d)) with (m⟦j⟧).
        destruct Hch as [_ ->]. by destruct (j =? i). }
    split; [|done]. rewrite void_passed_more in Hdr. by eapply dropped_passed_ok. }
  unfold void_passed in *. apply wp_bind. destruct (passed_at s i).
  - apply wp_bind. eapply wp_set_passed; [done|exact Hf|]. intros s1 Ht Hf1. wstep.
    rewrite (touched_tal _ _ _ Ht).
    eapply Hrest; [apply (focus_tal _ _ _ _ _ _ _ Hf1)|by rewrite (tc_rest _ _ _ Ht)..].
  - wstep. eapply Hrest; [exact Hf|done..].
Qed.

(** ** [set_piece_priority] *)

(** the tallies when piece [i] is filtered or no longer filtered *)
Definition refiltered (f f' h : bool) (n : Z) (t : tallies) : tallies :=
  let d := Z.b2z f' - Z.b2z f in
  if h then add_num_have_filtered d (add_have_filtered_pad_blocks (d * n) t)
  else add_num_filtered d (add_filtered_pad_blocks (d * n) t).

(** the tallies and the cursors of [set_piece_priority] *)
Definition refilter (i new : Z) (p : piece_pos) (pads : Z) : M bool :=
  if (new =? dont_download) && negb (filtered p) then
    (if have p then
       update_tallies (add_have_filtered_pad_blocks pads);;
       update_tallies (add_num_have_filtered 1)
     else
       update_tallies (add_filtered_pad_blocks pads);;
       update_tallies (add_num_filtered 1);;
       filter_cursors i);;
    mret true
  else if negb (new =? dont_download) && filtered p then
    (if have p then
       update_tallies (add_have_filtered_pad_blocks (- pads));;
       update_tallies (add_num_have_filtered (-1))
     else
       update_tallies (add_filtered_pad_blocks (- pads));;
       update_tallies (add_num_filtered (-1));;
       extend_cursors i);;
    mret true
  else mret false.

Definition refiltered_cursors (s : picker) (i : Z) (b : bool) (c rc : Z) : Prop :=
  cursors_for (λ j, if j =? i then negb b else wanted s j) (num_pieces s) c rc.

Lemma cursors_unchanged s i b :
  cursors_ok s → negb b = wanted s i →
  refiltered_cursors s i b (m_cursor s) (m_reverse_cursor s).
Proof.
  intros [C1 C2 C3 C4 C5 C6] Hb. unfold refiltered_cursors.
  assert (Hw : ∀ j, (if j =? i then negb b else wanted s j) = wanted s j)
    by (intros j; by destruct (Z.eqb_spec j i) as [->|]).
  split; intros; rewrite ?Hw; auto.
Qed.

Lemma wp_refilter s i p new (Q : bool → picker → Prop) :
  picker_ok s → piece_map i s = Some p →
  let f' := new =? dont_download in
  (∀ c rc, refiltered_cursors s i (have p || f') c rc →
     Q (negb (Bool.eqb (filtered p) f'))
       (set_tal (refiltered (filtered p) f' (have p) (pad_blocks_in_piece i s) (tal s))
          (set_cursors c rc s))) →
  wp (refilter i new p (pad_blocks_in_piece i s)) s Q.
Proof.
  intros Hok Hp f' HQ. pose proof (vget_Some_range _ _ _ Hp) as Hi.
  change (0 ≤ i < num_pieces s) in Hi. set (n := pad_blocks_in_piece i s) in *.
  pose proof (wanted_piece s i p Hp) as Hw.
  assert (Hsame : negb (have p || f') = wanted s i →
    Q (negb (Bool.eqb (filtered p) f')) (set_tal (refiltered (filtered p) f' (have p) n (tal s)) s)).
  { intros H. rewrite <-(set_cursors_same s) at 2. apply HQ, cursors_unchanged; [apply Hok|done]. }
  assert (Hsettled : settled p = have p || filtered p) by done.
  unfold refilter. fold f'. clearbody f'.
  assert (Heq : ∀ f h, tal s = refiltered f f h n (tal s)).
  { intros f h. unfold refiltered. rewrite Z.sub_diag. destruct h; apply tallies_eq; cbn; lia. }
  destruct f', (filtered p) eqn:Hfil; cbn [negb andb Bool.eqb] in *.
  - wstep. rewrite <-Heq in Hsame. replace (set_tal (tal s) s) with s in Hsame by by destruct s.
    apply Hsame. by rewrite Hw, Hsettled.
  - apply wp_bind. destruct (have p) eqn:Hh.
    + do 3 wstep. replace (set_tal _ _) with (set_tal (refiltered false true true n (tal s)) s).
      { apply Hsame. by rewrite Hw, Hsettled. }
      refine (f_equal (λ t, set_tal t s) _). apply tallies_eq; cbn; lia.
    + do 2 wstep. change (set_tal _ (set_tal _ s)) with
        (set_tal (add_num_filtered 1 (add_filtered_pad_blocks n (tal s))) s).
      set (s0 := set_tal _ s).
      destruct (shrink_cursors_spec i s0 (wanted s)) as (c & rc & Hrun & Hcur); [apply Hok|done|done|].
      exists tt, (set_cursors c rc s0). rewrite filter_cursors_run, Hrun. split; [done|]. wstep.
      replace (set_cursors c rc s0) with
        (set_tal (refiltered false true false n (tal s)) (set_cursors c rc s)).
      { apply HQ. exact Hcur. }
      refine (f_equal (λ t, set_tal t (set_cursors c rc s)) _). apply tallies_eq; cbn; lia.
  - apply wp_bind. destruct (have p) eqn:Hh.
    + do 3 wstep. replace (set_tal _ _) with (set_tal (refiltered true false true n (tal s)) s).
      { apply Hsame. by rewrite Hw, Hsettled. }
      refine (f_equal (λ t, set_tal t s) _). apply tallies_eq; cbn; lia.
    + do 2 wstep. change (set_tal _ (set_tal _ s)) with
        (set_tal (add_num_filtered (-1) (add_filtered_pad_blocks (- n) (tal s))) s).
      set (s0 := set_tal _ s).
      destruct (extend_cursors_run i s0 (wanted s)) as (c & rc & Hrun & Hcur); [apply Hok|done|].
      exists tt, (set_cursors c rc s0). rewrite Hrun. split; [done|]. wstep.
      replace (set_cursors c rc s0) with
        (set_tal (refiltered true false false n (tal s)) (set_cursors c rc s)).
      { apply HQ. exact Hcur. }
      refine (f_equal (λ t, set_tal t (set_cursors c rc s)) _). apply tallies_eq; cbn; lia.
  - wstep. rewrite <-Heq in Hsame. replace (set_tal (tal s) s) with s in Hsame by by destruct s.
    apply Hsame. by rewrite Hw, Hsettled.
Qed.
(** piece [i] has the priority [new], everything else about it is as it was *)
Record reprioritised (i new : Z) (s s' : picker) : Prop := {
  pr_ok : picker_ok s';
  pr_piece : ∃ p p', piece_map i s = Some p ∧ piece_map i s' = Some p' ∧
    static p' = static (with_priority p new);
  pr_env : ∃ c rc t, env_eq (set_tal t (set_cursors c rc s)) s';
  pr_seen : ∀ j, j ≠ i → seen s' j = seen s j;
  pr_views : ∀ j, view s' j = view s j
}.

Lemma with_priority_ok p n : piece_ok p → piece_ok (with_priority p n).
Proof. intros (H1 & _ & H3). split; [done|]. split; [apply uint_range; lia|done]. Qed.

(** the state of the piece follows its priority *)
Lemma wp_restate s s1 i p p' c rc t (Q : unit → picker → Prop) :
  picker_ok s → piece_map i s = Some p → download_state p' = download_state p →
  have p' = have p →
  reseen i p' (dls s) (set_tal t (set_cursors c rc s)) s1 →
  (∀ s2 p2, static p2 = static p' → core_ok s2 → env_eq s1 s2 →
     (∀ j, seen s2 j = if j =? i then Some (norm p2) else seen s j) →
     (∀ j, view s2 j = view s j) → Q tt s2) →
  wp (p ← reads (piece_map i);
      if downloading p then
        it ← reads (find_dl_piece (queue_number (download_queue p)) i);
        e ← reads (is_end it);
        if (e : bool) then mret tt else update_piece_state it;; mret tt
      else mret tt) s1 Q.
Proof.
  intros Hok Hp Hds Hhave [He Hl Hd Hseen] HQ. pose proof (ok_core _ Hok) as Hc.
  pose proof (ck_queues _ Hc) as Hqs.
  assert (Hsi : seen s i = Some (norm p)) by (unfold seen; by rewrite Hp).
  assert (Hdq : download_queue p' = download_queue (norm p))
    by (unfold download_queue; by rewrite Hds).
  assert (Hvw : ∀ j, view s1 j = view s j) by (intros j; destruct He; by apply view_eq).
  assert (Hq1 : queues_ok s1).
  { eapply (queues_ok_piece s s1 i (norm p) p'); try done; apply He. }
  assert (Ha : almost_ok i s1).
  { split; [done|done| |].
    - unfold pads_ok. rewrite (ev_pad_blocks _ _ He), (ev_size _ _ He), (ev_blocks _ _ He). apply Hc.
    - intros j Hj. apply (piece_dl_ok_eq s); [|rewrite Hseen; by destruct (Z.eqb_spec j i)|done|apply Hc].
      unfold blocks_in_piece. by rewrite (ev_size _ _ He), (ev_blocks _ _ He), (ev_last _ _ He). }
  destruct (seen_Some s1 i (norm p')) as (q & Hqi & Hnq); [by rewrite Hseen, Z.eqb_refl|].
  assert (Hqp : static q = static p' ∧ download_state q = download_state p' ∧ have q = have p').
  { split; [by rewrite <-(static_norm q), Hnq, static_norm|]. split.
    - change (download_state q) with (download_state (norm q)). by rewrite Hnq.
    - by rewrite <-(have_norm q), Hnq, have_norm. }
  destruct Hqp as (Hsq & Hdsq & Hhq).
  assert (Hstay : view s i = None → Q tt s1).
  { intros Hnone. apply (HQ s1 p'); try done. eapply almost_ok_core; [done|].
    apply piece_dl_ok_none. by rewrite Hvw. }
  apply wp_bind. eapply wp_reads; [exact Hqi|]. unfold downloading.
  case_bool_decide as Ho; cbn [negb].
  { wstep. apply Hstay, (view_open s i p Hqs Hp). rewrite Hdsq, Hds in Ho.
    unfold download_queue. by rewrite Ho. }
  destruct (view s i) as [[dp bs]|] eqn:Hv.
  2: { exfalso. apply (view_open s i p Hqs Hp) in Hv. apply Ho. unfold download_queue in Hv.
       rewrite Hdsq, Hds. by destruct (download_state p). }
  destruct (ck_pieces _ Hc i _ _ _ Hsi Hv) as [Hh Hcnt Hu Hqu]. rewrite have_norm in Hh.
  pose proof (eq_trans (Hvw i) Hv) as Hv1.
  destruct (find_dl_piece_view s1 Hq1 i dp bs Hv1 q Hqi) as (it & Hfind & Hit).
  apply wp_bind. eapply wp_reads; [exact Hfind|]. apply wp_bind.
  eapply wp_reads; [by eapply is_end_view|]. apply wp_bind.
  eapply (wp_update_piece_state_core s1 it i q dp bs); try done; [congruence|].
  intros it' s2 p2 He2 Ha2 _ Hseen2 Hv2 Hcore. wstep.
  apply (HQ s2 p2); try done; [|by apply Hcore| |by intros; rewrite Hv2].
  - unfold p2. by rewrite static_restated.
  - intros j. rewrite Hseen2, Hseen. by destruct (j =? i).
Qed.

Lemma set_piece_priority_spec s i p new :
  picker_ok s → piece_map i s = Some p → 0 ≤ new < 8 →
  wp (set_piece_priority i new) s (λ r s',
    r = negb (Bool.eqb (filtered p) (new =? dont_download)) ∧
    if new =? piece_priority p then s' = s else reprioritised i new s s').
Proof.
  intros Hok Hp Hnew. pose proof (ok_core _ Hok) as Hc. pose proof (ck_list _ Hc) as Hl.
  pose proof (vget_Some_range _ _ _ Hp) as Hi. change (0 ≤ i < num_pieces s) in Hi.
  unfold set_piece_priority. wstep. destruct (Z.eqb_spec new (piece_priority p)) as [->|Hne].
  { wstep. split; [|done]. unfold filtered, filter_priority, dont_download. by destruct (_ =? 0). }
  apply wp_bind. eapply wp_reads. { unfold priority_of. rewrite Hp. reflexivity. }
  wstep. fold (refilter i new p (pad_blocks_in_piece i s)).
  apply wp_bind. apply wp_refilter; [done..|]. intros c rc Hcur.
  set (f' := new =? dont_download) in *.
  set (t := refiltered (filtered p) f' (have p) (pad_blocks_in_piece i s) (tal s)).
  set (s0 := set_tal t (set_cursors c rc s)). set (p' := with_priority p new).
  assert (Hu : with_priority p (uint 8 new) = p') by (rewrite uint_small by lia; done).
  assert (Hf' : filtered p' = f').
  { unfold filtered, p'. cbn. by rewrite uint_small by lia. }
  assert (Hl0 : list_ok s0) by by apply (list_ok_env s).
  apply wp_bind. eapply wp_update_piece_pos; [exact Hp|]. intros m Hch. rewrite Hu in Hch.
  change (set_lay (set_map (lay s0) m) s0) with (unsettled s0 m (dls s)).
  assert (Hpr : priority_of i (unsettled s0 m (dls s)) = Some (priority (m_seeds s0) p')).
  { unfold priority_of. change (piece_map i (unsettled s0 m (dls s))) with (m⟦i⟧).
    by rewrite (changed_eq _ _ _ _ Hch). }
  pose proof (lo_map s Hl i p Hp) as Hokp.
  apply wp_bind. eapply wp_reads; [exact Hpr|]. wstep. apply wp_bind.
  assert (Hsettle : wp (settle i (priority (m_seeds s0) p)) (unsettled s0 m (dls s)) (λ _ s1,
    reseen i p' (dls s) s0 s1)).
  { eapply wp_settle_seen; [exact Hl0|exact Hp|exact Hch|by apply with_priority_ok|done|done]. }
  unfold wp in Hsettle. unfold wp at 1. rewrite (settle_run _ _ _ _ Hpr) in Hsettle.
  assert (Hrun : (if negb (priority (m_seeds s) p =? priority (m_seeds s0) p')
                     && negb (m_dirty (unsettled s0 m (dls s)))
                  then relist i (priority (m_seeds s) p) else mret tt) (unsettled s0 m (dls s))
    = if m_dirty (unsettled s0 m (dls s)) then Some (tt, unsettled s0 m (dls s))
      else if priority (m_seeds s0) p =? priority (m_seeds s0) p'
      then Some (tt, unsettled s0 m (dls s))
      else relist i (priority (m_seeds s0) p) (unsettled s0 m (dls s))).
  { change (m_seeds s0) with (m_seeds s). destruct (priority (m_seeds s) p =? _), (m_dirty _); done. }
  rewrite Hrun. destruct Hsettle as ([] & s1 & Hs1 & Hre). exists tt, s1. split; [exact Hs1|].
  apply wp_regroup1. eapply (wp_restate s s1 i p p' c rc t); [exact Hok|exact Hp|reflexivity|reflexivity|exact Hre|].
  intros s2 p2 Hst Hc2 He Hseen Hview. wstep. split; [done|].
  destruct (seen_Some s2 i (norm p2)) as (q & Hqi & Hnq); [by rewrite Hseen, Z.eqb_refl|].
  assert (Henv : env_eq s0 s2) by (etransitivity; [apply Hre|exact He]).
  destruct (static_fields p2 p' Hst) as (Hh2 & Hfo & Hhf & Hse).
  split; [|exists p, q; split; [done|split; [done|]]|exists c, rc, t; exact Henv| |done].
  - apply (picker_ok_repieced s s2 i p2); try done; try apply Henv; try apply Hc2.
    + rewrite (ev_cursor _ _ Henv), (ev_reverse_cursor _ _ Henv).
      replace (settled p2) with (have p || f'); [exact Hcur|].
      rewrite Hse. unfold settled. by rewrite Hf'.
    + rewrite (ev_tal _ _ Henv). unfold tallies_step, passed_or_had, had, flag, passed_at, pads,
        pad_blocks_in_piece. rewrite Hseen, Z.eqb_refl, Hview. unfold seen. rewrite Hp.
      cbn [fmap option_fmap option_map]. rewrite (ev_pads _ _ Henv).
      change (m_pads_in_piece s0) with (m_pads_in_piece s). fold (pad_blocks_in_piece i s).
      change (tal s0) with t. unfold t, refiltered.
      assert (Hfo' : filtered_only (norm p2) = f' && negb (have p)).
      { unfold filtered_only in *. by rewrite filtered_norm, have_norm, Hfo, Hf'. }
      assert (Hhf' : have_filtered (norm p2) = f' && have p).
      { unfold have_filtered in *. by rewrite filtered_norm, have_norm, Hhf, Hf'. }
      rewrite Hfo', Hhf'. unfold filtered_only, have_filtered.
      rewrite !have_norm, !filtered_norm, Hh2. change (have p') with (have p).
      destruct (filtered p), f', (have p); apply tallies_eq; cbn; lia.
  - by rewrite <-(static_norm q), Hnq, static_norm.
  - intros j Hj. rewrite Hseen. by destruct (Z.eqb_spec j i).
Qed.
End lost.
