(* ===== verification/PickerStart.v ===== *)
(** The picker from its construction on: [resize], [update_pieces], the
    counts of availability, pad blocks and peers that go away keep the
    invariant. *)

From stdpp Require Import gmap.
From S2P Require Import Prelude.
From S2P Require Import Random.
From S2P Require Import PiecePicker.
From S2P Require Import PickerBuckets.
From S2P Require Import PickerRebuild.
From S2P Require Import PickerState.
From S2P Require Import PickerOps.
From S2P Require Import PickerBlocks.
From S2P Require Import PickerDls.
From S2P Require Import PickerInv.
From S2P Require Import PickerAvail.
From S2P Require Import PickerSteps.
From S2P Require Import PickerCore.
From S2P Require Import PickerMarks.
From S2P Require Import PickerDownloading.
From S2P Require Import PickerCancel.
From S2P Require Import PickerHave.
From S2P Require Import PickerLost.

Open Scope Z_scope.

Section start.
Context {R : StdRandom} {Rok : StdRandomOk R}.

(** ** Operations on the list alone *)

(** what the list and the counts do not decide about the pieces is the same *)
Record same_pieces (s s' : picker) : Prop := {
  sp_rest : rest_eq s s';
  sp_size : num_pieces s' = num_pieces s;
  sp_piece : ∀ j p, piece_map j s = Some p → ∃ p', piece_map j s' = Some p' ∧ same_piece p p'
}.

Lemma same_piece_seen s s' j :
  same_pieces s s' →
  match seen s j with
  | Some p => ∃ p', seen s' j = Some p' ∧ same_piece p p'
  | None => seen s' j = None
  end.
Proof.
  intros [_ Hn Hp]. unfold seen. destruct (piece_map j s) as [p|] eqn:Hj; cbn.
  - destruct (Hp j p Hj) as (p' & -> & H1 & H2 & H3). exists (norm p'). split; [done|].
    split; [done|]. split; [done|]. by rewrite !have_norm.
  - unfold piece_map. rewrite vget_None; [done|]. change (vsize _) with (num_pieces s').
    rewrite Hn. intros Hr. destruct (vget_is_Some (m_piece_map (lay s)) j Hr) as [q Hq].
    unfold piece_map in Hj. congruence.
Qed.

Lemma same_piece_fields p p' :
  same_piece p p' → have p' = have p ∧ filtered p' = filtered p ∧ settled p' = settled p ∧
    filtered_only p' = filtered_only p ∧ have_filtered p' = have_filtered p ∧
    download_queue p' = download_queue p.
Proof.
  intros (H1 & H2 & H3). assert (Hf : filtered p' = filtered p) by (unfold filtered; by rewrite H2).
  unfold settled, filtered_only, have_filtered, download_queue. by rewrite H1, H3, Hf.
Qed.

Section same.
Context (s s' : picker) (Hsame : same_pieces s s').

Lemma same_flag f j : (∀ p p', same_piece p p' → f p' = f p) → flag f s' j = flag f s j.
Proof using Hsame.
  intros Hf. unfold flag. pose proof (same_piece_seen _ _ j Hsame) as Hj.
  destruct (seen s j) as [p|]; [|by rewrite Hj]. destruct Hj as (p' & -> & Hp). by rewrite (Hf p p').
Qed.

Lemma same_had j : had s' j = had s j.
Proof using Hsame.
  unfold had. pose proof (same_piece_seen _ _ j Hsame) as Hj.
  destruct (seen s j) as [p|]; [|by rewrite Hj]. destruct Hj as (p' & -> & Hp).
  by apply same_piece_fields.
Qed.

Lemma same_wanted j : wanted s' j = wanted s j.
Proof using Hsame.
  unfold wanted. pose proof (same_piece_seen _ _ j Hsame) as Hj.
  destruct (seen s j) as [p|]; [|by rewrite Hj]. destruct Hj as (p' & -> & Hp).
  f_equal. by apply same_piece_fields.
Qed.

Lemma same_view j : view s' j = view s j.
Proof using Hsame. destruct Hsame as [[] Hn _]. by apply view_eq. Qed.

Lemma same_passed_at j : passed_at s' j = passed_at s j.
Proof using Hsame. unfold passed_at. by rewrite same_view. Qed.

Lemma same_tallies : tallies_of s' = tallies_of s.
Proof using Hsame.
  pose proof (λ f j, same_flag f j) as Hf. destruct Hsame as [[] Hn _].
  assert (Hpd : ∀ j, pads s' j = pads s j) by (intros j; unfold pads, pad_blocks_in_piece; by rewrite re_pads).
  assert (H1 : ∀ j, flag have s' j = flag have s j) by (intros j; apply Hf; intros; by apply same_piece_fields).
  assert (H2 : ∀ j, flag filtered_only s' j = flag filtered_only s j)
    by (intros j; apply Hf; intros; by apply same_piece_fields).
  assert (H3 : ∀ j, flag have_filtered s' j = flag have_filtered s j)
    by (intros j; apply Hf; intros; by apply same_piece_fields).
  unfold tallies_of, sum_pieces. rewrite Hn.
  f_equal; apply total_ext; intros j _; rewrite ?H1, ?H2, ?H3, ?Hpd; try done.
  unfold passed_or_had. by rewrite same_had, same_passed_at.
Qed.

(** an operation on the list keeps the invariant of the picker *)
Lemma same_pieces_ok : picker_ok s → list_ok s' → picker_ok s'.
Proof using Hsame.
  intros [Hc Hcu Ht Hpos] Hl. pose proof Hsame as [[] Hn _].
  assert (Hq : queues_ok s').
  { destruct (ck_queues _ Hc) as [[Hz1 Hz2] Hdls]. split; [split; congruence|].
    rewrite re_dls, re_blocks. eapply dls_ok_ext; [exact Hdls|]. intros j.
    rewrite !queue_of_seen. pose proof (same_piece_seen _ _ j Hsame) as Hj.
    destruct (seen s j) as [p|]; [|by rewrite Hj]. destruct Hj as (p' & -> & Hp). cbn.
    f_equal. by apply same_piece_fields. }
  split; [split; [done|done| |]| | |].
  - unfold pads_ok. rewrite re_pad_blocks, Hn, re_blocks. apply Hc.
  - intros j q dp bs Hseen Hv. rewrite same_view in Hv.
    pose proof (same_piece_seen _ _ j Hsame) as Hj. destruct (seen s j) as [p|] eqn:Hp; [|congruence].
    destruct Hj as (p' & Hp' & Hpp). rewrite Hp' in Hseen. injection Hseen as <-.
    destruct (ck_pieces _ Hc j p dp bs Hp Hv) as [Hh Hcnt Hu Hqu].
    destruct (same_piece_fields _ _ Hpp) as (F1 & F2 & _ & _ & _ & F6).
    split; [congruence|done|done|]. unfold blocks_in_piece. rewrite Hn, re_blocks, re_last.
    rewrite F6, Hqu. unfold proper_queue. by rewrite F2.
  - unfold cursors_ok in *. rewrite Hn, re_cursor, re_reverse_cursor.
    destruct Hcu as [C1 C2 C3 C4 C5 C6]. split; intros; rewrite ?same_wanted; auto.
  - by rewrite re_tal, same_tallies.
  - intros j. unfold pads, pad_blocks_in_piece. rewrite re_pads, (row_pads_same s) by done. apply Hpos.
Qed.
End same.

Lemma counted_ok s s' d : picker_ok s → counted s s' d → picker_ok s'.
Proof.
  intros Hok [Hl Hr Hn Hp]. apply (same_pieces_ok s); try done. split; try done.
  intros j p Hj. destruct (Hp j p Hj) as (p' & ? & ? & _). eauto.
Qed.

(** ** [update_pieces] *)

(** the list has been rebuilt: it is no longer dirty, and nothing else has
    changed but the order of the pieces in the list *)
Record rebuilt (s s' : picker) : Prop := {
  rb_ok : picker_ok s';
  rb_dirty : m_dirty s' = false;
  rb_seeds : m_seeds s' = m_seeds s;
  rb_pieces : moved (pieces s) (pieces s');
  rb_rest : rest_eq s s'
}.

Lemma update_pieces_ok s :
  picker_ok s → wp picker_update_pieces s (λ _ s', rebuilt s s').
Proof.
  intros Hok. pose proof (ck_list _ (ok_core _ Hok)) as Hl. unfold wp, picker_update_pieces.
  destruct (update_pieces_spec (m_seeds s) (lay s) (rng s)) as (l' & e' & -> & Hinv & Hmv).
  { intros i p Hp. pose proof (priority_bounds (m_seeds s) p (lo_map s Hl i p Hp)). lia. }
  cbn [mbind option_bind]. eexists tt, _. split; [done|].
  set (s' := set_dirty false (set_rng e' (set_lay l' s))).
  assert (Hbi : bucket_inv (bucket_of (m_seeds s) (m_piece_map l')) l').
  { eapply bucket_inv_ext; [exact Hinv|]. by apply moved_priority. }
  pose proof Hmv as [Hs Hm].
  assert (Hsp : same_pieces s s').
  { split; [by split|exact Hs|]. intros j p Hp. destruct (Hm j p Hp) as (t & Ht & Hcase).
    exists (with_index p t). split; [exact Ht|]. by apply same_piece_moved. }
  split; try done. apply (same_pieces_ok s s' Hsp Hok). split.
  - apply (lo_seeds s Hl).
  - change (vsize (m_piece_map l') < 2 ^ 31). rewrite Hs. apply (lo_size s Hl).
  - apply (map_ok_moved (pieces s)); [apply (lo_map s Hl)|done].
  - intros t i Hi. by eapply (bucket_inv_range _ l').
  - apply Hinv.
  - intros _. exact Hbi.
Qed.

(** ** [clear_peer] *)

Definition forget_peer (pr : torrent_peer) (b : block_info) : block_info :=
  if peer b =? pr then with_peer b nullptr else b.

Lemma forget_peer_state pr b :
  bstate (forget_peer pr b) = bstate b ∧ num_peers (forget_peer pr b) = num_peers b.
Proof. unfold forget_peer. by destruct (_ =? _). Qed.

Lemma count_forget st pr bs : count st (map (forget_peer pr) bs) = count st bs.
Proof.
  induction bs as [|b bs IH]; [done|]. cbn [map count]. rewrite IH.
  by rewrite (proj1 (forget_peer_state pr b)).
Qed.

Lemma counts_forget pr dp bs : counts_ok dp bs → counts_ok dp (map (forget_peer pr) bs).
Proof.
  intros [H1 H2 H3 H4]. split; [by rewrite count_forget..|]. intros j b Hb.
  pose proof (vget_Some_range _ _ _ Hb) as Hr. unfold vsize in Hr. rewrite length_map in Hr.
  destruct (vget_is_Some bs j Hr) as [a Ha]. rewrite (vget_map _ _ _ _ Ha) in Hb.
  injection Hb as <-. specialize (H4 j a Ha). unfold block_ok in *.
  by rewrite (proj1 (forget_peer_state pr a)), (proj2 (forget_peer_state pr a)).
Qed.

Lemma slice_map {A B} (f : A → B) l idx n : slice (map f l) idx n = map f (slice l idx n).
Proof. unfold slice. by rewrite skipn_map, firstn_map. Qed.

Lemma clear_peer_spec s pr :
  picker_ok s →
  wp (clear_peer pr) s (λ _ s', picker_ok s' ∧ lay s' = lay s ∧ env_eq s s' ∧
    ∀ i j, block_at s' i j = forget_peer pr (block_at s i j)).
Proof.
  intros [Hc Hcu Ht Hpos]. unfold clear_peer. wstep.
  change (map _ _) with (map (forget_peer pr) (m_block_info (dls s))).
  set (s' := set_block_info _ s).
  assert (Hv : ∀ i, view s' i = prod_map id (map (forget_peer pr)) <$> view s i).
  { intros i. unfold view, view_of. change (record_of (dls s') i) with (record_of (dls s) i).
    destruct (record_of (dls s) i) as [dp|]; [|done]. cbn. unfold blocks_of. cbn.
    by rewrite slice_map. }
  assert (Hp : ∀ i, passed_at s' i = passed_at s i).
  { intros i. unfold passed_at. rewrite Hv. by destruct (view s i) as [[]|]. }
  split; [split; [split|done| |exact Hpos]|split; [done|split; [done|]]].
  - destruct (ck_list _ Hc). by split.
  - destruct (ck_queues _ Hc) as [[Hz1 Hz2] Hdls]. split; [done|].
    eapply (dls_blocks _ _ _ (m_block_info (dls s))); [|by unfold vsize; rewrite length_map].
    by destruct (dls s).
  - apply Hc.
  - intros i p dp bs Hs Hview. rewrite Hv in Hview.
    destruct (view s i) as [[dp0 bs0]|] eqn:Hv0; [|done]. injection Hview as <- <-.
    destruct (ck_pieces _ Hc i p dp0 bs0 Hs Hv0). split; try done. by apply counts_forget.
  - change (tal s') with (tal s). rewrite Ht. unfold tallies_of, sum_pieces. f_equal.
    apply total_ext. intros j _. unfold passed_or_had. by rewrite Hp.
  - intros i j. unfold block_at. rewrite Hv. destruct (view s i) as [[dp bs]|]; cbn.
    + destruct (bs⟦j⟧) as [b|] eqn:Hb; [by rewrite (vget_map (forget_peer pr) _ _ _ Hb)|].
      rewrite (vget_None (map (forget_peer pr) bs) j).
      * cbn [default]. unfold forget_peer, block_info_default. cbn [peer].
        by destruct (nullptr =? pr).
      * unfold vsize. rewrite length_map. intros Hr.
        destruct (vget_is_Some bs j Hr) as [b ?]. congruence.
    + change (fresh_block s' i j) with (fresh_block s i j). unfold forget_peer, fresh_block.
      cbn [peer]. by destruct (nullptr =? pr).
Qed.

(** ** [mark_as_pad] *)

(** the picker after block [j] of piece [i] has become a pad block *)
Record padded (i j : Z) (s s' : picker) : Prop := {
  pd_ok : picker_ok s';
  pd_env : s' = set_tal (tal s') (set_pads (m_pad_blocks s') (m_pads_in_piece s') s);
  pd_count : ∀ k, pads s' k = pads s k + (if k =? i then 1 else 0);
  pd_block : ∀ k l, 0 ≤ k < num_pieces s → 0 ≤ l < m_blocks_per_piece s →
    pad_at s' k l = if (k =? i) && (l =? j) then true else pad_at s k l
}.

(** the bits of the pad blocks, of which there may be none yet *)
Definition pad_bits (s : picker) : bitfield :=
  match m_pad_blocks s with
  | [] => replicate (Z.to_nat (num_pieces s * m_blocks_per_piece s)) false
  | bits => bits
  end.

Lemma pad_bits_size s :
  pads_ok s → 0 ≤ num_pieces s * m_blocks_per_piece s →
  vsize (pad_bits s) = num_pieces s * m_blocks_per_piece s.
Proof.
  intros Hp Hn. unfold pad_bits. destruct (m_pad_blocks s) as [|b bits] eqn:Hb.
  - unfold vsize. rewrite length_replicate. lia.
  - destruct Hp as [Hp|[Hp _]]; [congruence|]. by rewrite <-Hb, Hp.
Qed.

Lemma pad_bits_get s k l :
  pad_at s k l = default false (pad_bits s)⟦k * m_blocks_per_piece s + l⟧.
Proof.
  unfold pad_at, pad_bits. destruct (m_pad_blocks s) as [|b bits]; [|done].
  destruct ((replicate _ false)⟦_⟧) as [b|] eqn:Hb; [|done]. unfold vget in Hb.
  destruct (_ <? 0); [done|]. apply lookup_replicate in Hb as [-> _]. done.
Qed.

Lemma pad_bits_read s :
  0 ≤ num_pieces s * m_blocks_per_piece s < 2 ^ 31 →
  match m_pad_blocks s with
  | [] => n ← signed 32 (num_pieces s * m_blocks_per_piece s); Some (replicate (Z.to_nat n) false)
  | bits => Some bits
  end = Some (pad_bits s).
Proof.
  intros Hn. unfold pad_bits. destruct (m_pad_blocks s); [|done]. by rewrite signed_small by lia.
Qed.

(** a row of the bitfield after bit [j] of row [i] has been set *)
Lemma row_pads_marked s s' i j k :
  m_blocks_per_piece s' = m_blocks_per_piece s → 0 ≤ j < m_blocks_per_piece s →
  pad_at s i j = false →
  (∀ l, 0 ≤ l < m_blocks_per_piece s →
     pad_at s' k l = if (k =? i) && (l =? j) then true else pad_at s k l) →
  row_pads s' k = row_pads s k + (if k =? i then 1 else 0).
Proof.
  intros Hn Hj Hc Hs. unfold row_pads. rewrite Hn.
  rewrite (total_ext _ (λ l, if (k =? i) && (l =? j) then 1 else Z.b2z (pad_at s k l))).
  2: { intros l Hl. rewrite Hs by lia. by destruct (_ && _). }
  destruct (Z.eqb_spec k i) as [->|Hk]; cbn [andb]; [|lia].
  rewrite (total_change _ (λ l, Z.b2z (pad_at s i l)) _ j) by
    first [lia | intros l Hl; by rewrite (proj2 (Z.eqb_neq _ _))].
  rewrite Hc, Z.eqb_refl. cbn. lia.
Qed.

Lemma mark_as_pad_spec s i j p :
  picker_ok s → piece_map i s = Some p → have p = false → 0 ≤ j < blocks_in_piece i s →
  num_pieces s * m_blocks_per_piece s < 2 ^ 31 → pad_at s i j = false →
  wp (mark_as_pad (PieceBlock i j)) s (λ _ s', ∃ s1, padded i j s s1 ∧
    if pads s1 i =? blocks_in_piece i s then repieced i (had_piece p) s1 s' else s' = s1).
Proof.
  intros Hok Hp Hh Hj Hmax Hclear. pose proof Hok as [Hc Hcu Ht Hpos].
  pose proof (vget_Some_range _ _ _ Hp) as Hi. change (0 ≤ i < num_pieces s) in Hi.
  pose proof (qs_sizes _ (ck_queues _ Hc)) as Hz.
  pose proof (blocks_in_piece_range i s Hz) as Hbr. pose proof (sz_blocks _ Hz) as Hn.
  set (n := m_blocks_per_piece s) in *.
  assert (Hsize : vsize (pad_bits s) = num_pieces s * n) by (apply pad_bits_size; [apply Hc|nia]).
  destruct (vset_is_Some (pad_bits s) (i * n + j) true) as [bits Hbits]; [rewrite Hsize; nia|].
  assert (Hsi : seen s i = Some (norm p)) by (unfold seen; by rewrite Hp).
  unfold mark_as_pad. cbn [piece_index block_index].
  apply wp_bind. eapply wp_reads; [apply pad_bits_read; fold n; nia|]. wstep.
  apply wp_bind. eapply wp_reads.
  { change (pad_bit_index i j (set_pads _ _ s)) with (pad_bit_index i j s).
    rewrite pad_bit_index_ok by (fold n; lia). exact Hbits. }
  do 3 wstep. cbn [set_pads set_tal m_pad_blocks m_pads_in_piece tal].
  apply wp_bind. eapply wp_reads; [exact Hp|].
  set (pm := <[i := _]> (m_pads_in_piece s)).
  assert (Hpm : ∀ k, default 0 (pm !! k) = pads s k + (if k =? i then 1 else 0)).
  { intros k. unfold pm, pads, pad_blocks_in_piece. cbn [m_pads_in_piece set_pads set_tal].
    destruct (Z.eqb_spec k i) as [->|Hk]; [by rewrite lookup_insert_eq|].
    rewrite lookup_insert_ne by done. rewrite Z.add_0_r. by destruct (m_pads_in_piece s !! k). }
  set (t1 := if filtered p then add_filtered_pad_blocks 1 (add_num_pad_blocks 1 (tal s))
             else add_num_pad_blocks 1 (tal s)).
  set (s1 := set_tal t1 (set_pads bits pm s)).
  assert (Hpads : ∀ k, pads s1 k = pads s k + (if k =? i then 1 else 0)).
  { intros k. rewrite <-Hpm. unfold pads, pad_blocks_in_piece. cbn. by destruct (pm !! k). }
  assert (Hpad1 : ∀ k l, 0 ≤ l < n →
    pad_at s1 k l = if (k =? i) && (l =? j) then true else pad_at s k l).
  { intros k l Hl. rewrite (pad_bits_get s). unfold pad_at. change (m_pad_blocks s1) with bits.
    change (m_blocks_per_piece s1) with n. fold n.
    assert (Hget : default false bits⟦k * n + l⟧ =
      if (k =? i) && (l =? j) then true else default false (pad_bits s)⟦k * n + l⟧).
    { rewrite (vset_get _ _ _ _ _ Hbits).
      destruct (Z.eqb_spec k i), (Z.eqb_spec l j); subst; cbn [andb];
        [by rewrite Z.eqb_refl|rewrite (proj2 (Z.eqb_neq _ _)) by nia; done..]. }
    rewrite <-Hget. destruct bits; [|done].
    by rewrite (vget_None [] (k * n + l)) by (unfold vsize; cbn; lia). }
  assert (Hs1 : padded i j s s1).
  { split; [split; [split|exact Hcu| |]|done|done|].
    - destruct (ck_list _ Hc). by split.
    - destruct (ck_queues _ Hc) as [[] ?]. by split.
    - right. split; [|exact Hmax]. change (vsize bits = num_pieces s * n).
      by rewrite (vset_size _ _ _ _ Hbits).
    - apply Hc.
    - change (tal s1) with t1. rewrite <-(tallies_of_step s s1 i); try done.
      + unfold tallies_step, passed_or_had, had, flag, passed_at. rewrite Hpads, Z.eqb_refl.
        change (seen s1 i) with (seen s i). change (view s1 i) with (view s i). rewrite Hsi.
        unfold filtered_only, have_filtered. rewrite !have_norm, !filtered_norm, Hh. unfold t1.
        destruct (filtered p); apply tallies_eq; cbn; lia.
      + intros k Hk. rewrite Hpads. destruct (Z.eqb_spec k i); [done|lia].
    - intros k. rewrite Hpads, Hpos. symmetry. eapply row_pads_marked; [done| |done|by apply Hpad1].
      fold n. lia.
    - intros k l _. apply Hpad1. }
  assert (Hrest : wp (blocks ← gets (blocks_in_piece i);
      pads ← gets (pad_blocks_in_piece i);
      if pads =? blocks then we_have i else mret tt) s1 (λ _ s', ∃ s1, padded i j s s1 ∧
    if pads s1 i =? blocks_in_piece i s then repieced i (had_piece p) s1 s' else s' = s1)).
  { do 2 wstep. change (pad_blocks_in_piece i s1) with (pads s1 i).
    change (blocks_in_piece i s1) with (blocks_in_piece i s).
    destruct (pads s1 i =? blocks_in_piece i s) eqn:He; [|wstep; exists s1; by rewrite He].
    eapply wp_mono; [apply (we_have_spec s1 i p); [apply Hs1|exact Hp|done]|].
    intros [] s' Hre. exists s1. by rewrite He. }
  apply wp_bind. unfold s1, t1 in Hrest. destruct (filtered p); wstep; exact Hrest.
Qed.

(** ** The constructor *)

Definition new_piece : piece_pos := PiecePos 0 piece_open default_priority 0.

(** a new picker: no piece is had, filtered or being downloaded *)
Record fresh_picker (n last total : Z) (s : picker) : Prop := {
  fp_map : pieces s = replicate (Z.to_nat total) new_piece;
  fp_pieces : m_pieces (lay s) = [] ∧ m_priority_boundaries (lay s) = [0];
  fp_dls : dls s = Downloads [[]; []; []; []] [] [];
  fp_tal : tal s = Tallies 0 0 0 0 0 0 0 0;
  fp_cursors : m_cursor s = 0 ∧ m_reverse_cursor s = total;
  fp_blocks : m_blocks_per_piece s = n ∧ m_blocks_in_last_piece s = last;
  fp_pads : m_pad_blocks s = [] ∧ m_pads_in_piece s = ∅;
  fp_dirty : m_dirty s = true;
  fp_seeds : m_seeds s = 0
}.

Lemma new_picker_spec n last total e :
  0 < n ≤ max_blocks_per_piece → 0 ≤ last ≤ n → 0 ≤ total →
  ∃ s, new_picker n last total e = Some (returned, s) ∧
    fresh_picker n (if last =? 0 then n else last) total s.
Proof.
  intros Hn Hlast Htotal. unfold new_picker. set (s0 := Picker _ _ _ _ _ _ _ _ _ _ _ _ _).
  cut (wp (resize n last total) s0 (λ r s, r = returned ∧
         fresh_picker n (if last =? 0 then n else last) total s)).
  { intros (r & s & Hrun & -> & Hs). by exists s. }
  unfold resize. destruct (Z.ltb_spec max_blocks_per_piece n); [lia|].
  unfold max_blocks_per_piece in Hn. rewrite !(uint_small 16) by lia.
  do 5 wstep. unfold update_all. do 2 wstep.
  set (m := map _ _).
  assert (Hm : m = replicate (Z.to_nat total) new_piece).
  { unfold m, s0. cbn. unfold vresize. rewrite take_nil. cbn [app vsize length Z.of_nat].
    rewrite Z.sub_0_r. induction (Z.to_nat total) as [|k IH]; [done|]. cbn. by rewrite IH. }
  clearbody m. subst m. cbv zeta. cbn [lay set_lay set_map m_piece_map].
  set (m := replicate (Z.to_nat total) new_piece).
  assert (Hm : vsize m = total) by (unfold m, vsize; rewrite length_replicate; lia).
  assert (Hmget : ∀ j, 0 ≤ j < total → m⟦j⟧ = Some new_piece).
  { intros j Hj. destruct (vget_is_Some m j) as [p Hp]; [lia|]. rewrite Hp. f_equal.
    by eapply vget_replicate_inv. }
  assert (Hup : skip_up (S (length m)) m 0 = Some 0).
  { cbn [skip_up]. rewrite Hm. destruct (Z.eqb_spec 0 total); [done|]. by rewrite Hmget by lia. }
  assert (Hdown : skip_down (S (length m)) m total = Some total).
  { cbn [skip_down]. destruct (Z.ltb_spec 0 total); [|done]. by rewrite Hmget by lia. }
  apply wp_bind. eapply wp_reads; [exact Hup|]. apply wp_bind. eapply wp_reads.
  { change (m_reverse_cursor _) with (vsize (vresize (A := piece_pos) [] total (piece_pos2 0 0))).
    rewrite vresize_size by done. exact Hdown. }
  do 3 wstep. split; [done|]. by split.
Qed.

Lemma empty_queue q (v : list downloading_piece) :
  ([[]; []; []; []] : list (list downloading_piece))⟦q⟧ = Some v → v = [].
Proof.
  unfold vget. destruct (q <? 0); [done|].
  destruct (Z.to_nat q) as [|[|[|[|k]]]]; cbn; intros Hv; try done; by injection Hv as <-.
Qed.

Lemma total_0 k g : (∀ j, g j = 0) → total k g = 0.
Proof. intros Hg. induction k as [|k IH]; cbn; [done|]. rewrite IH, Hg. done. Qed.

Lemma fresh_picker_ok n last total s :
  0 < n ≤ max_blocks_per_piece → 0 < last ≤ n → 0 ≤ total < 2 ^ 31 →
  fresh_picker n last total s → picker_ok s.
Proof.
  intros Hn Hlast Htot [Hm [Hps Hbounds] Hd Ht [Hcu Hrc] [Hbn Hbl] [Hpb Hpp] Hdirty Hseeds].
  assert (Hsize : num_pieces s = total).
  { change (vsize (pieces s) = total). rewrite Hm. unfold vsize. rewrite length_replicate. lia. }
  assert (Hget : ∀ j p, (pieces s)⟦j⟧ = Some p → p = new_piece).
  { intros j p. rewrite Hm. apply vget_replicate_inv. }
  assert (Hview : ∀ j, view s j = None) by (intros j; unfold view; by rewrite Hd).
  assert (Hseen : ∀ j p, seen s j = Some p → p = new_piece).
  { intros j p Hp. apply seen_Some in Hp as (q & Hq & <-). by rewrite (Hget j q Hq). }
  split; [split| | |].
  - apply list_ok_dirty; try done; [unfold max_seeds; lia|lia| | |].
    + intros j p Hp. rewrite (Hget j p Hp). done.
    + rewrite Hps. intros t i Hi. apply vget_Some_range in Hi. unfold vsize in Hi. cbn in Hi. lia.
    + rewrite Hbounds. intros q Hq. unfold vsize in Hq. cbn in Hq. assert (q = 0) as -> by lia. done.
  - split; [split; lia|]. rewrite Hd. split; try done.
    + intros q v Hv. rewrite (empty_queue q v Hv). constructor.
    + intros q v dp Hv Hin. rewrite (empty_queue q v Hv) in Hin. by apply not_elem_of_nil in Hin.
    + intros i c Hi Hc. unfold queue_of in Hi. destruct ((pieces s)⟦i⟧) as [p|] eqn:Hp; [|done].
      rewrite (Hget i p Hp) in Hi. cbn in Hi. injection Hi as <-. by destruct Hc.
    + constructor.
    + intros x Hx. cbn in Hx. by apply not_elem_of_nil in Hx.
    + exists 0. done.
  - by left.
  - intros i. by apply piece_dl_ok_none.
  - assert (Hw : ∀ j, 0 ≤ j < total → wanted s j = true).
    { intros j Hj. destruct (vget_is_Some (m_piece_map (lay s)) j) as [p Hp].
      { change (0 ≤ j < num_pieces s). lia. }
      rewrite (wanted_piece s j p Hp). by rewrite (Hget j p Hp). }
    unfold cursors_ok. rewrite Hsize, Hcu, Hrc. split; try lia; intros; apply Hw; lia.
  - assert (Hf : ∀ f j, f new_piece = false → flag f s j = 0).
    { intros f j Hnew. unfold flag. destruct (seen s j) as [p|] eqn:Hp; [|done].
      by rewrite (Hseen j p Hp), Hnew. }
    assert (Hpads : ∀ j, pads s j = 0) by (intros j; unfold pads, pad_blocks_in_piece; by rewrite Hpp).
    rewrite Ht. unfold tallies_of, sum_pieces.
    f_equal; symmetry; apply total_0; intros j; rewrite ?Hf, ?Hpads by done; try done.
    unfold passed_or_had, passed_at, had. rewrite Hview.
    destruct (seen s j) as [p|] eqn:Hp; [|done]. by rewrite (Hseen j p Hp).
  - intros j. unfold pads, pad_blocks_in_piece, row_pads. rewrite Hpp. symmetry. apply total_0.
    intros l. unfold pad_at. by rewrite Hpb.
Qed.
End start.
