(* ===== verification/PickerCalls.v ===== *)
(** The calls that change a picker, as a client makes them: when a call is
    allowed, what it runs, and the states that can be reached from a new
    picker.

    A call is [allowed] when its arguments are in range, no counter overflows,
    and those assertions of the code hold that its outcome depends on.  Where
    the code goes on after an assertion that has failed in a defined way, the
    call is allowed although the assertion fails: [lock_piece] of a piece that
    has passed the hash check, [restore_piece] and [piece_passed] of a piece
    without a record.  An allowed call is [harmless] unless it is one of those
    that the code permits although they leave the state inconsistent. *)

From stdpp Require Import gmap.
From S2P Require Import Prelude.
From S2P Require Import Random.
From S2P Require Import PiecePicker.
From S2P Require Import PickerBuckets.
From S2P Require Import PickerRebuild.
From S2P Require Import PickerState.
From S2P Require Import PickerOps.
From S2P Require Import PickerBlocks.
From S2P Require Import PickerDls.
From S2P Require Import PickerInv.
From S2P Require Import PickerAvail.
From S2P Require Import PickerSteps.
From S2P Require Import PickerCore.
From S2P Require Import PickerMarks.
From S2P Require Import PickerDownloading.
From S2P Require Import PickerCancel.
From S2P Require Import PickerHave.
From S2P Require Import PickerLost.
From S2P Require Import PickerStart.

Open Scope Z_scope.

Inductive call :=
| call_inc_refcount (i : Z)
| call_dec_refcount (i : Z)
| call_inc_refcount_bits (bits : bitfield)
| call_dec_refcount_bits (bits : bitfield)
| call_inc_refcount_all
| call_dec_refcount_all
| call_mark_as_downloading (b : piece_block) (pr : torrent_peer) (opts : picker_options_t)
| call_mark_as_writing (b : piece_block) (pr : torrent_peer)
| call_mark_as_finished (b : piece_block) (pr : torrent_peer)
| call_mark_as_canceled (b : piece_block) (pr : torrent_peer)
| call_mark_as_pad (b : piece_block)
| call_abort_download (b : piece_block) (pr : torrent_peer)
| call_write_failed (b : piece_block)
| call_lock_piece (i : Z)
| call_piece_passed (i : Z)
| call_restore_piece (i : Z)
| call_we_have (i : Z)
| call_we_dont_have (i : Z)
| call_set_piece_priority (i new : Z)
| call_clear_peer (pr : torrent_peer)
| call_update_pieces.

Section calls.
Context {R : StdRandom}.

(** a call whose result does not matter *)
Definition ignore {A} (m : M A) : M unit := m;; mret tt.

Definition run_call (c : call) : M unit :=
  match c with
  | call_inc_refcount i => inc_refcount i
  | call_dec_refcount i => dec_refcount i
  | call_inc_refcount_bits bits => inc_refcount_bits bits
  | call_dec_refcount_bits bits => dec_refcount_bits bits
  | call_inc_refcount_all => inc_refcount_all
  | call_dec_refcount_all => dec_refcount_all
  | call_mark_as_downloading b pr opts => ignore (mark_as_downloading b pr opts)
  | call_mark_as_writing b pr => ignore (mark_as_writing b pr)
  | call_mark_as_finished b pr => mark_as_finished b pr
  | call_mark_as_canceled b pr => mark_as_canceled b pr
  | call_mark_as_pad b => mark_as_pad b
  | call_abort_download b pr => abort_download b pr
  | call_write_failed b => write_failed b
  | call_lock_piece i => lock_piece i
  | call_piece_passed i => piece_passed i
  | call_restore_piece i => restore_piece i
  | call_we_have i => we_have i
  | call_we_dont_have i => we_dont_have i
  | call_set_piece_priority i new => ignore (set_piece_priority i new)
  | call_clear_peer pr => clear_peer pr
  | call_update_pieces => picker_update_pieces
  end.

(** ** When a call is allowed *)

Definition piece_in (i : Z) (s : picker) : Prop := 0 ≤ i < num_pieces s.

Definition block_in (b : piece_block) (s : picker) : Prop :=
  piece_in (piece_index b) s ∧ 0 ≤ block_index b < blocks_in_piece (piece_index b) s.

Definition block_of (b : piece_block) (s : picker) : block_info :=
  block_at s (piece_index b) (block_index b).

(** the piece stays in its bucket when its record is dropped *)
Definition stays (i : Z) (s : picker) : Prop :=
  m_dirty s = true ∨
  ∃ p, piece_map i s = Some p ∧
    priority (m_seeds s) (with_state p piece_open) = priority (m_seeds s) p.

(** what the code needs of a call: the pieces and blocks exist, the counters
    have room (the 26 bits of a count, the number of seeds, the 14 bits of the
    peers of a block, the [int]s that number the pad blocks, the 16 bits of the
    index of a slice), and
    - a piece whose availability is lowered was available, as [break_one_seed]
      and [dec_refcount] assert;
    - a block that is requested or becomes a pad block is not in a piece that
      is had, and is not a pad block yet, as [mark_as_downloading] and
      [mark_as_pad] assert (the latter of the bit only);
    - a block that is finished or whose write failed is not one that is only
      requested, and a piece passes the hash check once, as [mark_as_finished],
      [write_failed] and [piece_passed] assert *)
Definition allowed (c : call) (s : picker) : Prop :=
  match c with
  | call_inc_refcount i =>
      piece_in i s ∧ ∀ p, piece_map i s = Some p → peer_count p + 1 < 2 ^ 26
  | call_dec_refcount i =>
      piece_in i s ∧ counts_fit s (λ _, 0) ∧ counts_fit s (at_piece i (-1))
  | call_inc_refcount_bits bits => vsize bits ≤ num_pieces s ∧ counts_fit s (bit bits)
  | call_dec_refcount_bits bits =>
      vsize bits ≤ num_pieces s ∧ counts_fit s (λ _, 0) ∧ counts_fit s (minus (bit bits))
  | call_inc_refcount_all => m_seeds s + 1 < max_seeds
  | call_dec_refcount_all => counts_fit s (λ _, -1)
  | call_mark_as_downloading b _ _ =>
      block_in b s ∧ slices_fit s ∧ had s (piece_index b) = false ∧
      num_peers (block_of b s) + 1 < 2 ^ 14
  | call_mark_as_writing b _ => block_in b s ∧ slices_fit s
  | call_mark_as_finished b _ =>
      block_in b s ∧ slices_fit s ∧ bstate (block_of b s) ≠ state_requested
  | call_mark_as_canceled b _ | call_abort_download b _ => block_in b s
  | call_mark_as_pad b =>
      block_in b s ∧ had s (piece_index b) = false ∧
      num_pieces s * m_blocks_per_piece s < 2 ^ 31 ∧
      pad_at s (piece_index b) (block_index b) = false
  | call_write_failed b => block_in b s ∧ bstate (block_of b s) ≠ state_requested
  | call_piece_passed i => piece_in i s ∧ passed_at s i = false
  | call_restore_piece i | call_lock_piece i | call_we_have i | call_we_dont_have i => piece_in i s
  | call_set_piece_priority i new => piece_in i s ∧ 0 ≤ new < 8
  | call_clear_peer _ | call_update_pieces => True
  end.

(** the calls that keep the state consistent: all but those that take back a
    block or all blocks of a piece that has passed the hash check, whose tally
    goes wrong when the record is dropped, and [we_dont_have] of a piece that
    is not had, unless the piece stays in its place when the record is dropped *)
Definition harmless (c : call) (s : picker) : Prop :=
  match c with
  | call_mark_as_canceled b _ | call_abort_download b _ => passed_at s (piece_index b) = false
  | call_restore_piece i => passed_at s i = false
  | call_we_dont_have i => had s i = true ∨ stays i s
  | _ => True
  end.

Definition valid (c : call) (s : picker) : Prop := allowed c s ∧ harmless c s.

(** the states of a picker for a torrent of [total] pieces *)
Inductive reachable (n last total : Z) (e : engine) : picker → Prop :=
| reach_new s :
    new_picker n last total e = Some (returned, s) → reachable n last total e s
| reach_call s s' c :
    reachable n last total e s → valid c s → run_call c s = Some (tt, s') →
    reachable n last total e s'.

Context {Rok : StdRandomOk R}.

(** ** Every allowed call returns and keeps the invariant *)

Lemma piece_in_Some i s : piece_in i s → ∃ p, piece_map i s = Some p.
Proof. intros Hi. by apply vget_is_Some. Qed.

Lemma had_piece_have i s p : piece_map i s = Some p → had s i = have p.
Proof. intros Hp. unfold had, seen. rewrite Hp. cbn. by rewrite have_norm. Qed.

Lemma wp_ignore {A} (m : M A) s (Q : unit → picker → Prop) :
  wp m s (λ _ s', Q tt s') → wp (ignore m) s Q.
Proof. intros H. apply wp_bind. eapply wp_mono; [exact H|]. intros x s' HQ. by apply wp_ret. Qed.

(** the counts of a single piece *)
Lemma counts_fit_at s i p d :
  counts_fit s (at_piece i d) → piece_map i s = Some p →
  0 ≤ peer_count p + m_seeds s + d < 2 ^ 26.
Proof. intros Hf Hp. specialize (Hf i p Hp). unfold at_piece in Hf. by rewrite Z.eqb_refl in Hf. Qed.

Lemma wp_counted_ok (m : M unit) s d :
  picker_ok s → wp m s (λ _ s', counted s s' d) → wp m s (λ _ s', picker_ok s').
Proof. intros Hok H. eapply wp_mono; [exact H|]. intros [] s' Hc. by eapply counted_ok. Qed.

Lemma counts_call c s :
  picker_ok s → allowed c s →
  match c with
  | call_inc_refcount _ | call_dec_refcount _ | call_inc_refcount_bits _
  | call_dec_refcount_bits _ | call_inc_refcount_all | call_dec_refcount_all =>
      wp (run_call c) s (λ _ s', picker_ok s')
  | _ => True
  end.
Proof.
  intros Hok Hv. pose proof (ck_list _ (ok_core _ Hok)) as Hl. pose proof (lo_seeds s Hl).
  destruct c; cbn [allowed run_call] in *; try done.
  - destruct Hv as [Hi Hf]. destruct (piece_in_Some i s Hi) as [p Hp].
    eapply wp_counted_ok; [done|]. eapply inc_refcount_spec; [done|exact Hp|by apply Hf].
  - destruct Hv as (Hi & H0 & Hf). destruct (piece_in_Some i s Hi) as [p Hp].
    pose proof (counts_fit_at _ _ _ _ Hf Hp). eapply wp_counted_ok; [done|].
    eapply dec_refcount_spec; [done|done|exact Hp|lia].
  - destruct Hv as [Hi Hf]. eapply wp_counted_ok; [done|]. by apply inc_refcount_bits_spec.
  - destruct Hv as (Hi & H0 & Hf). eapply wp_counted_ok; [done|]. by apply dec_refcount_bits_spec.
  - eapply wp_counted_ok; [done|]. by apply inc_refcount_all_spec.
  - eapply wp_counted_ok; [done|]. by apply dec_refcount_all_spec.
Qed.

(** the state of an operation on a block of a piece *)
Lemma block_call {A} s b (m : M A) (Q : unit → picker → Prop) :
  block_in b s →
  (∀ i j p, b = PieceBlock i j → piece_map i s = Some p → 0 ≤ j < blocks_in_piece i s →
     had s i = have p → 0 ≤ i < num_pieces s → wp m s (λ _ s', Q tt s')) →
  wp (ignore m) s Q.
Proof.
  intros [Hi Hj] HQ. apply wp_ignore. destruct b as [i j]. cbn in *.
  destruct (piece_in_Some i s Hi) as [p Hp]. eapply HQ; try done. by apply had_piece_have.
Qed.

Lemma wp_of_ignore (m : M unit) s (Q : unit → picker → Prop) : wp (ignore m) s Q → wp m s Q.
Proof.
  intros H. apply wp_bind_inv in H. eapply wp_mono; [exact H|].
  intros [] s' (x & s'' & [= <- <-] & HQ). done.
Qed.

Lemma mark_as_downloading_ok s b pr opts :
  picker_ok s → allowed (call_mark_as_downloading b pr opts) s →
  wp (run_call (call_mark_as_downloading b pr opts)) s (λ _ s', picker_ok s').
Proof.
  intros Hok (Hb & Hfit & Hhad & Hnp). apply (block_call s b); [done|].
  intros i j p -> Hp Hj Hh Hi. pose proof (ok_core _ Hok) as Hc. cbn [piece_index block_index] in *.
  destruct (decide (download_queue p = piece_open)) as [Hq|Hq].
  - eapply wp_mono; [eapply mark_new; try done; congruence|].
    intros r s' [_ Hm]. by eapply marked_ok.
  - eapply wp_mono; [by eapply mark_again|]. intros r s' [_ Hm]. by eapply marked_ok.
Qed.

Lemma mark_had s i j pr p :
  core_ok s → piece_map i s = Some p → have p = true →
  mark_as_writing (PieceBlock i j) pr s = Some (false, s).
Proof.
  intros Hc Hp Hh. pose proof (had_no_view s i p Hc Hp Hh) as Hv.
  apply (view_open s i p (ck_queues _ Hc) Hp) in Hv. apply queue_open_state in Hv.
  unfold mark_as_writing, mbind, M_bind, reads. cbn [piece_index]. rewrite Hp. cbn [mbind option_bind].
  unfold downloading. rewrite Hv. rewrite bool_decide_eq_true_2 by done. cbn [negb].
  unfold have_piece. rewrite Hp. cbn [mbind option_bind].
  change (index p =? we_have_index) with (have p). by rewrite Hh.
Qed.

Lemma mark_as_writing_ok s b pr :
  picker_ok s → allowed (call_mark_as_writing b pr) s →
  wp (run_call (call_mark_as_writing b pr)) s (λ _ s', picker_ok s').
Proof.
  intros Hok (Hb & Hfit). apply (block_call s b); [done|].
  intros i j p -> Hp Hj Hh Hi. pose proof (ok_core _ Hok) as Hc. cbn [piece_index block_index] in *.
  destruct (have p) eqn:Hhp; [exists false, s; split; [by eapply mark_had|done]|].
  destruct (decide (download_queue p = piece_open)) as [Hq|Hq].
  - eapply wp_mono; [by eapply write_new|]. intros r s' [_ Hm]. by eapply marked_ok.
  - eapply wp_mono; [by eapply write_again|]. intros r s' [_ Hm]. by eapply marked_ok.
Qed.

Lemma mark_as_finished_ok s b pr :
  picker_ok s → allowed (call_mark_as_finished b pr) s →
  wp (run_call (call_mark_as_finished b pr)) s (λ _ s', picker_ok s').
Proof.
  intros Hok (Hb & Hfit & Hnr). apply wp_of_ignore, (block_call s b); [done|].
  intros i j p -> Hp Hj Hh Hi. cbn [piece_index block_index] in *.
  destruct (decide (download_queue p = piece_open)) as [Hq|Hq].
  - eapply wp_mono; [by eapply finish_new|]. cbn zeta. intros [] s' Hm.
    destruct (have p); [by subst|]. by eapply marked_ok.
  - eapply wp_mono; [by eapply finish_again|]. cbn zeta. intros [] s' Hm.
    case_bool_decide; [by subst|]. destruct (_ && _); [apply Hm|]. by eapply marked_ok.
Qed.

(** a call that does nothing to a piece without a record *)
Lemma open_call s i p (m : M unit) (k : piece_pos → M unit) (Q : unit → picker → Prop) :
  piece_map i s = Some p →
  m = (p ← reads (piece_map i); if bool_decide (download_queue p = piece_open) then mret tt else k p) →
  Q tt s → (download_queue p ≠ piece_open → wp m s Q) → wp m s Q.
Proof.
  intros Hp Hm HQ Hk. destruct (decide (download_queue p = piece_open)) as [Hq|Hq]; [|auto].
  rewrite Hm. apply wp_bind. eapply wp_reads; [exact Hp|]. rewrite bool_decide_eq_true_2 by done.
  by apply wp_ret.
Qed.

Lemma given_up_same_ok s s' i j x left :
  picker_ok s → passed_at s i = false → 0 ≤ i < num_pieces s →
  given_up (passed_at s i) s s' i j x left → picker_ok s'.
Proof.
  intros Hok Hp Hi [Hm Hd]. destruct (decide (left = 0)) as [Hz|Hz].
  - by eapply dropped_ok; [|apply Hd|..].
  - by eapply marked_ok; [|apply Hm|].
Qed.

Lemma mark_as_canceled_ok s b pr :
  picker_ok s → allowed (call_mark_as_canceled b pr) s →
  wp (run_call (call_mark_as_canceled b pr)) s (λ _ s',
    passed_at s (piece_index b) = false → picker_ok s').
Proof.
  intros Hok Hb. apply wp_of_ignore, (block_call s b); [done|].
  intros i j p -> Hp Hj Hh Hi. cbn [piece_index] in *.
  eapply open_call; [exact Hp|reflexivity|done|]. intros Hq.
  eapply wp_mono; [eapply cancel_spec; [apply Hok|done..]|]. cbn zeta. intros [] s' Hg Hpass.
  by eapply given_up_same_ok.
Qed.

Lemma abort_download_ok s b pr :
  picker_ok s → allowed (call_abort_download b pr) s →
  wp (run_call (call_abort_download b pr)) s (λ _ s',
    passed_at s (piece_index b) = false → picker_ok s').
Proof.
  intros Hok Hb. apply wp_of_ignore, (block_call s b); [done|].
  intros i j p -> Hp Hj Hh Hi. cbn [piece_index] in *.
  eapply open_call; [exact Hp|reflexivity|done|]. intros Hq.
  eapply wp_mono; [eapply abort_spec; [apply Hok|done..]|]. cbn zeta. intros [] s' Hg Hpass.
  destruct (negb _); [by subst|]. by eapply given_up_same_ok.
Qed.

Lemma restore_piece_ok s i :
  picker_ok s → piece_in i s →
  wp (restore_piece i) s (λ _ s', passed_at s i = false → picker_ok s').
Proof.
  intros Hok Hi. destruct (piece_in_Some i s Hi) as [p Hp].
  eapply open_call; [exact Hp|reflexivity|done|]. intros Hq.
  eapply wp_mono; [eapply wp_restore_piece; [apply Hok|done..]|]. intros [] s' Hd Hpass.
  by eapply dropped_ok.
Qed.

Lemma we_dont_have_ok s i :
  picker_ok s → piece_in i s →
  wp (we_dont_have i) s (λ _ s', had s i = true ∨ stays i s → picker_ok s').
Proof.
  intros Hok Hi. destruct (piece_in_Some i s Hi) as [p Hp].
  rewrite (had_piece_have i s p Hp). destruct (have p) eqn:Hh.
  - eapply wp_mono; [by eapply we_dont_have_spec|]. intros [] s' Hs' _. apply Hs'.
  - eapply wp_mono; [eapply wp_forget; [done|exact Hp|done]|]. intros [] s' Hs' [|Hst]; [done|].
    cbn beta in Hs'. case_bool_decide; [by subst|]. apply (proj2 Hs').
    destruct Hst as [|(q & Hq & Hst)]; [by left|]. right. congruence.
Qed.

Lemma write_failed_ok s b :
  picker_ok s → allowed (call_write_failed b) s →
  wp (run_call (call_write_failed b)) s (λ _ s', picker_ok s').
Proof.
  intros Hok (Hb & Hnr). apply wp_of_ignore, (block_call s b); [done|].
  intros i j p -> Hp Hj Hh Hi. cbn [piece_index] in *.
  eapply open_call; [exact Hp|reflexivity|done|]. intros Hq.
  eapply wp_mono; [eapply write_failed_spec; [apply Hok|done..]|]. cbn zeta. intros [] s' Hg.
  case_bool_decide; [by subst|]. rewrite void_passed_more in Hg.
  eapply given_up_ok; [done|exact Hg|done| |cbn; lia|done].
  destruct (view s i) as [[dp bs]|] eqn:Hv; [by eapply view_not_had; [apply Hok|]|].
  by apply (view_open s i p (ck_queues _ (ok_core _ Hok)) Hp) in Hv.
Qed.

Lemma mark_as_pad_ok s b :
  picker_ok s → allowed (call_mark_as_pad b) s →
  wp (run_call (call_mark_as_pad b)) s (λ _ s', picker_ok s').
Proof.
  intros Hok (Hb & Hhad & Hmax & Hclear). apply wp_of_ignore, (block_call s b); [done|].
  intros i j p -> Hp Hj Hh Hi. cbn [piece_index] in *.
  eapply wp_mono; [eapply mark_as_pad_spec; [done|exact Hp|congruence|done..]|].
  intros [] s' (s1 & Hs1 & Hs'). destruct (_ =? _); [apply Hs'|]. subst. apply Hs1.
Qed.

(** a call on a piece *)
Lemma piece_calls_ok c s :
  picker_ok s → allowed c s →
  match c with
  | call_lock_piece _ | call_piece_passed _ | call_we_have _ | call_set_piece_priority _ _ =>
      wp (run_call c) s (λ _ s', picker_ok s')
  | _ => True
  end.
Proof.
  intros Hok Hv. destruct c; try done; cbn [run_call]; cbn [allowed] in Hv.
  - destruct (piece_in_Some i s Hv) as [p Hp].
    eapply wp_mono; [by eapply lock_spec|]. intros [] s' Hs'. case_bool_decide; [by subst|apply Hs'].
  - destruct Hv as [Hi Hpass]. destruct (piece_in_Some i s Hi) as [p Hp].
    eapply wp_mono; [by eapply piece_passed_spec|]. intros [] s' Hs'.
    destruct (_ || _); [by subst|]. destruct (_ <? _); apply Hs'.
  - destruct (piece_in_Some i s Hv) as [p Hp]. destruct (have p) eqn:Hh.
    + exists tt, s. split; [|done]. unfold we_have, mbind, M_bind, reads, priority_of. rewrite Hp.
      cbn [mbind option_bind]. rewrite Hp. cbn [mbind option_bind]. by rewrite Hh.
    + eapply wp_mono; [by eapply we_have_spec|]. intros [] s' Hs'. apply Hs'.
  - destruct Hv as [Hi Hn]. destruct (piece_in_Some i s Hi) as [p Hp]. apply wp_ignore.
    eapply wp_mono; [by eapply set_piece_priority_spec|]. intros r s' [_ Hs'].
    destruct (_ =? _); [by subst|apply Hs'].
Qed.

(** no allowed call is undefined behaviour, and the harmless ones keep the
    invariant *)
Lemma run_call_returns c s :
  picker_ok s → allowed c s →
  wp (run_call c) s (λ _ s', harmless c s → picker_ok s').
Proof.
  intros Hok Hv. pose proof (counts_call c s Hok Hv) as H1.
  pose proof (piece_calls_ok c s Hok Hv) as H2.
  assert (Hsafe : wp (run_call c) s (λ _ s', picker_ok s') →
    wp (run_call c) s (λ _ s', harmless c s → picker_ok s')).
  { intros H. eapply wp_mono; [exact H|]. auto. }
  destruct c; auto using mark_as_downloading_ok, mark_as_writing_ok, mark_as_finished_ok,
    mark_as_canceled_ok, mark_as_pad_ok, abort_download_ok, write_failed_ok.
  - by apply restore_piece_ok.
  - by apply we_dont_have_ok.
  - apply Hsafe. eapply wp_mono; [by apply clear_peer_spec|]. intros [] s' Hs'. apply Hs'.
  - apply Hsafe. eapply wp_mono; [by apply update_pieces_ok|]. intros [] s' Hs'. apply Hs'.
Qed.

Lemma run_call_ok c s :
  picker_ok s → valid c s → wp (run_call c) s (λ _ s', picker_ok s').
Proof.
  intros Hok [Ha Hh]. eapply wp_mono; [by apply run_call_returns|]. auto.
Qed.

Lemma reachable_ok n last total e s :
  0 < n ≤ max_blocks_per_piece → 0 ≤ last ≤ n → 0 ≤ total < 2 ^ 31 →
  reachable n last total e s → picker_ok s.
Proof.
  intros Hn Hlast Ht Hr. induction Hr as [s Hs|s s' c _ IH Hv Hrun].
  - destruct (new_picker_spec n last total e Hn Hlast ltac:(lia)) as (s0 & Hs0 & Hfresh).
    rewrite Hs in Hs0. injection Hs0 as <-.
    eapply fresh_picker_ok; [exact Hn| |exact Ht|exact Hfresh]. destruct (Z.eqb_spec last 0); lia.
  - destruct (run_call_ok c s IH Hv) as ([] & s1 & Hs1 & Hok). congruence.
Qed.
End calls.
