(* ===== verification/PickerCheck.v ===== *)
(** The checker of the picker's own invariant, as debug builds run it:
    [check_invariant], [check_piece_state], [verify_priority] and [verify_pick]
    of src/btdownloader/torrent/piece_picker.cpp; and that the invariant implies
    that it passes: in every state that can be reached, the assertions debug builds
    make hold.

    A failed assertion is [false], undefined behaviour [None].  The torrent
    passed to [check_invariant] is null; what is asserted about the objects of
    peers is left out, a peer being a number here. *)

From stdpp Require Import gmap.
From S2P Require Import Prelude.
From S2P Require Import Random.
From S2P Require Import PiecePicker.
From S2P Require Import PickerBuckets.
From S2P Require Import PickerRebuild.
From S2P Require Import PickerState.
From S2P Require Import PickerOps.
From S2P Require Import PickerBlocks.
From S2P Require Import PickerInv.
From S2P Require Import PickerAvail.
From S2P Require Import PickerDls.
From S2P Require Import PickerSteps.
From S2P Require Import PickerCore.
From S2P Require Import PickerMarks.
From S2P Require Import PickerDownloading.
From S2P Require Import PickerCancel.
From S2P Require Import PickerHave.
From S2P Require Import PickerLost.

Open Scope Z_scope.

(** a loop of assertions *)
Fixpoint all_of {A} (f : A → option bool) (l : list A) : option bool :=
  match l with
  | [] => Some true
  | x :: l => b ← f x; if (b : bool) then all_of f l else Some false
  end.

(** the same with the position in the vector *)
Fixpoint all_at {A} (f : Z → A → option bool) (l : list A) (i : Z) : option bool :=
  match l with
  | [] => Some true
  | x :: l => b ← f i x; if (b : bool) then all_at f l (i + 1) else Some false
  end.

Fixpoint sum_at {A} (f : Z → A → Z) (l : list A) (i : Z) : Z :=
  match l with
  | [] => 0
  | x :: l => f i x + sum_at f l (i + 1)
  end.

(** [std::count_if] with [has_index(i)] *)
Definition count_index (i : Z) (v : list downloading_piece) : Z :=
  sum_at (λ _ dp, Z.b2z (dp_index dp =? i)) v 0.

Section check.
Context {R : StdRandom}.

(** the pieces of a vector are in order, and their blocks exist *)
Fixpoint check_queue (v : list downloading_piece) (s : picker) : bool :=
  match v with
  | dp :: (next :: _) as w =>
      (dp_index dp <? dp_index next) &&
      (info_idx dp * m_blocks_per_piece s + m_blocks_per_piece s <=? vsize (m_block_info (dls s)))
      && check_queue w s
  | _ => true
  end.

Definition check_piece_state (s : picker) : bool :=
  forallb (λ v, check_queue v s) (m_downloads (dls s)).

Definition verify_pick (picked : list piece_block) (bits : bitfield) (s : picker) : option bool :=
  if negb (vsize bits =? num_pieces s) then Some false
  else all_of (λ pb,
    b ← bits⟦piece_index pb⟧;
    p ← piece_map (piece_index pb) s;
    Some (b && negb (have p) && negb (filtered p))) picked.

Definition verify_priority (range_start range_end prio : Z) (s : picker) : option bool :=
  if (range_start <=? range_end) && (range_end <=? vsize (m_pieces (lay s))) then
    all_of (λ i, p ← piece_map i s; Some (priority (m_seeds s) p =? prio))
      (take (Z.to_nat (range_end - range_start)) (drop (Z.to_nat range_start) (m_pieces (lay s))))
  else Some false.

(** ** [check_invariant] *)

Definition check_counts (s : picker) : bool :=
  let t := tal s in
  (0 <=? m_num_have t) && (0 <=? m_num_have_filtered t) &&
  (m_num_have_filtered t <=? m_num_have t) &&
  (m_num_have_filtered t + m_num_filtered t <=? num_pieces s) &&
  (0 <=? m_num_filtered t) && (0 <=? m_seeds s) &&
  (m_have_pad_blocks t <=? m_num_pad_blocks t) && (0 <=? m_have_pad_blocks t) &&
  (m_filtered_pad_blocks t <=? m_num_pad_blocks t) && (0 <=? m_filtered_pad_blocks t) &&
  (m_have_filtered_pad_blocks t <=? m_num_pad_blocks t) && (0 <=? m_have_filtered_pad_blocks t) &&
  (m_have_filtered_pad_blocks t + m_filtered_pad_blocks t <=? m_num_pad_blocks t) &&
  (m_have_filtered_pad_blocks t <=? m_have_pad_blocks t).

Fixpoint check_boundaries (last : Z) (b : list Z) : bool :=
  match b with
  | [] => true
  | x :: b => (last <=? x) && check_boundaries x b
  end.

Definition check_block (b : block_info) : bool :=
  match bstate b with
  | state_requested => 0 <? num_peers b
  | _ => num_peers b =? 0
  end.

(** a record in the vector of category [j] *)
Definition check_download (j : Z) (dp : downloading_piece) (s : picker) : option bool :=
  p ← piece_map (dp_index dp) s;
  sp ← blocks_for_piece dp s;
  bs ← span_blocks sp s;
  let num_blocks := blocks_in_piece (dp_index dp) s in
  let num_requested := count state_requested bs in
  let num_finished := count state_finished bs in
  let num_writing := count state_writing bs in
  let num_open := count state_none bs in
  Some ((queue_number (download_queue p) =? j) && forallb check_block bs &&
    (if j =? queue_number piece_downloading then negb (filtered p) && (0 <? num_open)
     else if j =? queue_number piece_full then
       negb (filtered p) && (num_open =? 0) && (0 <? num_requested)
     else if j =? queue_number piece_finished then
       negb (filtered p) && (num_open =? 0) && (num_requested =? 0)
       && (num_finished + num_writing =? num_blocks)
     else if j =? queue_number piece_zero_prio then filtered p
     else true) &&
    (num_requested =? requested dp) && (num_writing =? writing dp) && (num_finished =? finished dp) &&
    (if bool_decide (download_queue p = piece_full) || bool_decide (download_queue p = piece_finished)
     then num_finished + num_writing + num_requested =? num_blocks else true)).

Definition check_downloads (s : picker) : option bool :=
  all_at (λ j v, all_of (λ dp, check_download j dp s) v) (m_downloads (dls s)) 0.

Definition check_cursors (s : picker) : bool :=
  (0 <=? m_cursor s) && (m_cursor s <=? num_pieces s) &&
  (0 <=? m_reverse_cursor s) && (m_reverse_cursor s <=? num_pieces s) &&
  ((m_cursor s <? m_reverse_cursor s)
   || ((m_cursor s =? num_pieces s) && (m_reverse_cursor s =? 0))).

(** the ranges of the list *)
Fixpoint check_ranges (start prio : Z) (b : list Z) (s : picker) : option bool :=
  match b with
  | [] => Some true
  | x :: b =>
      ok ← verify_priority start x prio s;
      if (ok : bool) then check_ranges x (prio + 1) b s else Some false
  end.

Definition check_list (s : picker) : option bool :=
  if m_dirty s then Some true
  else
    let b := m_priority_boundaries (lay s) in
    match b with
    | [] => Some false
    | _ =>
        ok ← check_ranges 0 0 b s;
        back ← b⟦vsize b - 1⟧;
        Some ((ok : bool) && (back =? vsize (m_pieces (lay s))))
    end.

(** the cursors are where the loops of [resize] would put them *)
Definition check_cursor_loops (s : picker) : option bool :=
  let m := m_piece_map (lay s) in
  c ← skip_up (S (length m)) m 0;
  if negb (m_cursor s =? c) then Some false
  else if 0 <? num_pieces s then
    rc ← skip_down (S (length m)) m (vsize m);
    ok ← (if rc =? vsize m then Some true else p ← m⟦rc⟧; Some (have p || filtered p));
    Some ((ok : bool) && (m_reverse_cursor s =? rc))
  else Some (m_reverse_cursor s =? 0).

Definition check_piece (piece : Z) (p : piece_pos) (s : picker) : option bool :=
  let prio := priority (m_seeds s) p in
  listed ←
    (if m_dirty s then Some true
     else if negb (prio <? vsize (m_priority_boundaries (lay s))) then Some false
     else if 0 <=? prio then
       if index p <? vsize (m_pieces (lay s)) then
         i ← (m_pieces (lay s))⟦index p⟧; Some (i =? piece)
       else Some false
     else Some ((prio =? -1) && (sum_at (λ _ i, Z.b2z (i =? piece)) (m_pieces (lay s)) 0 =? 0)));
  v_downloading ← queue (queue_number piece_downloading) s;
  v_full ← queue (queue_number piece_full) s;
  v_finished ← queue (queue_number piece_finished) s;
  v_zero ← queue (queue_number piece_zero_prio) s;
  let count_downloading := count_index piece v_downloading in
  let count_full := count_index piece v_full in
  let count_finished := count_index piece v_finished in
  let count_zero := count_index piece v_zero in
  Some ((if have p then negb (downloading p) else true) &&
    (if downloading p then
       if reverse p then (prio =? -1) || (Z.rem prio prio_factor =? 2)
       else (prio =? -1) || (Z.rem prio prio_factor =? 0)
     else (prio =? -1) || (Z.rem prio prio_factor =? 1)) &&
    (listed : bool) &&
    (bool_decide (download_queue p = piece_open)
     || (count_zero + count_downloading + count_full + count_finished =? 1)) &&
    match download_queue p with
    | piece_open => count_downloading + count_full + count_finished + count_zero =? 0
    | piece_downloading => count_downloading =? 1
    | piece_full => count_full =? 1
    | piece_finished => count_finished =? 1
    | piece_zero_prio => count_zero =? 1
    | _ => true
    end).

Definition check_sums (s : picker) : bool :=
  let m := m_piece_map (lay s) in
  let t := tal s in
  let sum (f : Z → piece_pos → Z) := sum_at f m 0 in
  let pads i := pad_blocks_in_piece i s in
  (sum (λ _ p, Z.b2z (have p)) =? m_num_have t) &&
  (sum (λ _ p, Z.b2z (filtered p && negb (have p))) =? m_num_filtered t) &&
  (sum (λ _ p, Z.b2z (filtered p && have p)) =? m_num_have_filtered t) &&
  (sum (λ i p, Z.b2z (have p) * pads i) =? m_have_pad_blocks t) &&
  (sum (λ i p, Z.b2z (filtered p && negb (have p)) * pads i) =? m_filtered_pad_blocks t) &&
  (sum (λ i p, Z.b2z (filtered p && have p) * pads i) =? m_have_filtered_pad_blocks t).

Definition check_listed (s : picker) : option bool :=
  if m_dirty s then Some true
  else all_of (λ i, p ← piece_map i s; Some (0 <=? priority (m_seeds s) p)) (m_pieces (lay s)).

Definition check_invariant (s : picker) : option bool :=
  downloads_ok ← check_downloads s;
  list_ok ← check_list s;
  loops_ok ← check_cursor_loops s;
  pieces_ok ← all_at (λ i p, check_piece i p s) (m_piece_map (lay s)) 0;
  listed_ok ← check_listed s;
  Some (check_counts s && check_boundaries 0 (m_priority_boundaries (lay s)) &&
    check_piece_state s && (downloads_ok : bool) && check_cursors s && (list_ok : bool) &&
    (loops_ok : bool) && (pieces_ok : bool) && check_sums s && (listed_ok : bool)).
End check.

(** ** Loops *)

Lemma all_of_true {A} (f : A → option bool) l :
  (∀ x, x ∈ l → f x = Some true) → all_of f l = Some true.
Proof.
  induction l as [|x l IH]; intros Hf; [done|]. cbn. rewrite (Hf x) by left. cbn.
  apply IH. intros y Hy. apply Hf. by right.
Qed.

Lemma all_at_true {A} (f : Z → A → option bool) l i :
  (∀ k x, l⟦k⟧ = Some x → f (i + k) x = Some true) → all_at f l i = Some true.
Proof.
  revert i. induction l as [|x l IH]; intros i Hf; [done|]. cbn.
  pose proof (Hf 0 x eq_refl) as H0. rewrite Z.add_0_r in H0. rewrite H0. cbn. apply IH.
  intros k y Hk. pose proof (vget_Some_range _ _ _ Hk). replace (i + 1 + k) with (i + (k + 1)) by lia.
  apply Hf. by rewrite vget_cons_S by lia.
Qed.

Lemma sum_at_snoc {A} (f : Z → A → Z) l x i :
  sum_at f (l ++ [x]) i = sum_at f l i + f (i + vsize l) x.
Proof.
  revert i. induction l as [|y l IH]; intros i; cbn.
  - change (vsize []) with 0. rewrite (Z.add_0_r i). lia.
  - rewrite IH, vsize_cons. replace (i + 1 + vsize l) with (i + (1 + vsize l)) by lia. lia.
Qed.

Lemma sum_at_total {A} (f : Z → A → Z) l :
  sum_at f l 0 = total (length l) (λ j, match l⟦j⟧ with Some x => f j x | None => 0 end).
Proof.
  induction l as [|x l IH] using rev_ind; [done|]. rewrite sum_at_snoc, length_app, Nat.add_comm.
  cbn [length Nat.add total]. rewrite IH. change (Z.of_nat (length l)) with (vsize l).
  rewrite vget_middle, Z.add_0_l. f_equal. symmetry.
  apply total_ext. intros j Hj. rewrite vget_app_l; [done|]. unfold vsize. lia.
Qed.

Lemma sum_at_0 {A} (f : Z → A → Z) l i :
  (∀ k x, l⟦k⟧ = Some x → f (i + k) x = 0) → sum_at f l i = 0.
Proof.
  revert i. induction l as [|x l IH]; intros i Hf; [done|]. cbn.
  pose proof (Hf 0 x eq_refl) as H0. rewrite Z.add_0_r in H0. rewrite H0. rewrite IH; [done|].
  intros k y Hk. pose proof (vget_Some_range _ _ _ Hk). replace (i + 1 + k) with (i + (k + 1)) by lia.
  apply Hf. by rewrite vget_cons_S by lia.
Qed.

Lemma total_plus n g h : total n (λ j, g j + h j) = total n g + total n h.
Proof. induction n as [|n IH]; cbn; [done|]. rewrite IH. lia. Qed.

Lemma total_le n g h : (∀ j, 0 ≤ j < Z.of_nat n → g j ≤ h j) → total n g ≤ total n h.
Proof.
  induction n as [|n IH]; intros Hg; cbn; [lia|].
  pose proof (IH ltac:(intros; apply Hg; lia)). pose proof (Hg (Z.of_nat n) ltac:(lia)). lia.
Qed.

Lemma total_nonneg n g : (∀ j, 0 ≤ g j) → 0 ≤ total n g.
Proof. intros Hg. induction n as [|n IH]; cbn; [lia|]. specialize (Hg (Z.of_nat n)). lia. Qed.

Lemma total_const n c : total n (λ _, c) = Z.of_nat n * c.
Proof. induction n as [|n IH]; cbn [total]; [lia|]. rewrite IH. lia. Qed.

Lemma check_boundaries_mono b k :
  mono b → 0 ≤ k → check_boundaries (bnd b (k - 1)) (drop (Z.to_nat k) b) = true.
Proof.
  intros Hm. remember (length (drop (Z.to_nat k) b)) as n eqn:Hn. revert k Hn.
  induction n as [|n IH]; intros k Hn Hk.
  - by destruct (drop (Z.to_nat k) b).
  - rewrite length_drop in Hn. assert (Hr : 0 ≤ k < vsize b) by (unfold vsize; lia).
    destruct (vget_is_Some b k Hr) as [x Hx].
    assert (Hd : drop (Z.to_nat k) b = x :: drop (Z.to_nat (k + 1)) b).
    { replace (Z.to_nat (k + 1)) with (S (Z.to_nat k)) by lia. apply drop_S.
      unfold vget in Hx. by destruct (Z.ltb_spec k 0). }
    rewrite Hd. cbn [check_boundaries]. specialize (Hm k Hr).
    assert (Hbx : bnd b k = x) by (unfold bnd; by rewrite Hx).
    apply andb_true_intro. split; [lia|]. rewrite <-Hbx.
    replace (bnd b k) with (bnd b (k + 1 - 1)) by (f_equal; lia). apply IH; [|lia].
    rewrite length_drop. lia.
Qed.

Section checked.
Context {R : StdRandom} {Rok : StdRandomOk R}.

(** ** Counts *)

Lemma flag_01 f s j : 0 ≤ flag f s j ≤ 1.
Proof. unfold flag. destruct (seen s j) as [p|]; [destruct (f p); cbn; lia|lia]. Qed.

Lemma flag_split s j : flag filtered_only s j + flag have_filtered s j ≤ 1 ∧
  flag have_filtered s j ≤ flag have s j.
Proof.
  unfold flag, filtered_only, have_filtered.
  destruct (seen s j) as [p|]; [destruct (filtered p), (have p); cbn; lia|lia].
Qed.

Lemma check_counts_ok s : picker_ok s → check_counts s = true.
Proof.
  intros Hok. assert (Hpos : ∀ j, 0 ≤ pads s j) by (intros j; by apply pads_range).
  destruct Hok as [Hc _ Ht _]. unfold check_counts. rewrite Ht. unfold tallies_of, sum_pieces.
  cbn [m_num_filtered m_num_have_filtered m_num_have m_num_passed m_num_pad_blocks
       m_have_pad_blocks m_filtered_pad_blocks m_have_filtered_pad_blocks].
  pose proof (lo_seeds s (ck_list _ Hc)) as Hseeds. set (n := Z.to_nat (num_pieces s)).
  assert (Hn : Z.of_nat n = num_pieces s) by (unfold n, num_pieces, vsize; lia).
  pose proof (λ f j, flag_01 f s j) as H01. pose proof (λ j, flag_split s j) as Hsp.
  pose proof (total_plus n (flag have_filtered s) (flag filtered_only s)) as P1.
  pose proof (total_le n (λ j, flag have_filtered s j + flag filtered_only s j) (λ _, 1)
    ltac:(intros j _; cbn beta; specialize (Hsp j); lia)) as P2. rewrite total_const in P2.
  pose proof (total_plus n (λ j, flag have_filtered s j * pads s j)
    (λ j, flag filtered_only s j * pads s j)) as P3.
  pose proof (total_le n (λ j, flag have_filtered s j * pads s j + flag filtered_only s j * pads s j)
    (pads s) ltac:(intros j _; cbn beta; specialize (Hsp j); specialize (Hpos j); nia)) as P4.
  assert (Hnn : ∀ f, 0 ≤ total n (flag f s)) by (intros f; apply total_nonneg; intros j; apply H01).
  assert (Hnp : ∀ f, 0 ≤ total n (λ j, flag f s j * pads s j)).
  { intros f. apply total_nonneg. intros j. cbn beta. specialize (H01 f j). specialize (Hpos j). nia. }
  assert (Hle : ∀ f, total n (λ j, flag f s j * pads s j) ≤ total n (pads s)).
  { intros f. apply total_le. intros j _. cbn beta. specialize (H01 f j). specialize (Hpos j). nia. }
  pose proof (total_le n (flag have_filtered s) (flag have s) ltac:(intros j _; cbn beta; apply Hsp)) as P5.
  pose proof (total_le n (λ j, flag have_filtered s j * pads s j) (λ j, flag have s j * pads s j)
    ltac:(intros j _; cbn beta; specialize (Hsp j); specialize (Hpos j); nia)) as P6.
  pose proof (Hnn have). pose proof (Hnn have_filtered). pose proof (Hnn filtered_only).
  pose proof (Hnp have). pose proof (Hnp have_filtered). pose proof (Hnp filtered_only).
  pose proof (Hle have). pose proof (Hle have_filtered). pose proof (Hle filtered_only).
  clearbody n. cbn beta in P3. repeat (apply andb_true_intro; split); lia.
Qed.

(** ** Records *)

Lemma check_queue_ok v s :
  ordered v → (∀ dp, dp ∈ v → info_idx dp * m_blocks_per_piece s + m_blocks_per_piece s
                                ≤ vsize (m_block_info (dls s))) →
  check_queue v s = true.
Proof.
  induction v as [|dp [|next w] IH]; intros Ho Hr; [done|done|].
  apply ordered_cons in Ho as [Ho Hlt].
  change (check_queue (dp :: next :: w) s) with ((dp_index dp <? dp_index next) &&
    (info_idx dp * m_blocks_per_piece s + m_blocks_per_piece s <=? vsize (m_block_info (dls s)))
    && check_queue (next :: w) s).
  rewrite IH; [|done|intros; apply Hr; by right]. rewrite andb_true_r.
  inversion Hlt as [|? ? Hdp]. subst. unfold dp_lt in Hdp.
  pose proof (Hr dp ltac:(left)). apply andb_true_intro. split; lia.
Qed.

Lemma check_piece_state_ok s : queues_ok s → check_piece_state s = true.
Proof.
  intros [Hz Hd]. unfold check_piece_state. apply forallb_forall. intros v Hv.
  apply list_elem_of_In, elem_of_vget in Hv as [q Hq].
  apply check_queue_ok; [by eapply (dk_ordered _ _ _ Hd)|]. intros dp Hdp.
  assert (Hin : info_idx dp ∈ slices (dls s)).
  { unfold slices. apply elem_of_app. left. apply list_elem_of_fmap_2, elem_of_all_dps. eauto. }
  pose proof (dk_room _ _ _ Hd _ Hin). lia.
Qed.

Lemma read_blocks_slice k idx s :
  0 ≤ idx → idx + Z.of_nat k ≤ vsize (m_block_info (dls s)) →
  read_blocks k idx s = Some (slice (m_block_info (dls s)) idx (Z.of_nat k)).
Proof.
  revert idx. induction k as [|k IH]; intros idx Hi Hr; [done|]. cbn [read_blocks].
  destruct (vget_is_Some (m_block_info (dls s)) idx ltac:(lia)) as [b Hb].
  rewrite Hb. cbn [mbind option_bind]. rewrite IH by lia. cbn [mbind option_bind]. f_equal.
  unfold slice. rewrite !Nat2Z.id. replace (Z.to_nat (idx + 1)) with (S (Z.to_nat idx)) by lia.
  unfold vget in Hb. destruct (Z.ltb_spec idx 0); [lia|]. by rewrite (drop_S _ _ _ Hb).
Qed.

Lemma span_blocks_view s i dp bs :
  queues_ok s → view s i = Some (dp, bs) →
  span_blocks (info_idx dp * m_blocks_per_piece s, blocks_in_piece i s) s = Some bs.
Proof.
  intros Hs Hv. pose proof (view_room s Hs i dp bs Hv) as Hroom.
  pose proof (blocks_in_piece_range i s (qs_sizes s Hs)).
  pose proof (sz_blocks s (qs_sizes s Hs)).
  unfold span_blocks. cbn [fst snd]. rewrite read_blocks_slice by nia.
  rewrite Z2Nat.id by lia. by rewrite <-(view_blocks s i dp bs Hv).
Qed.

Lemma record_view s q v dp :
  queues_ok s → (m_downloads (dls s))⟦q⟧ = Some v → dp ∈ v →
  ∃ bs p, view s (dp_index dp) = Some (dp, bs) ∧ piece_map (dp_index dp) s = Some p ∧
    queue_number (download_queue p) = q.
Proof.
  intros [Hz Hd] Hq Hin.
  assert (Hr : record_of (dls s) (dp_index dp) = Some dp).
  { apply (record_of_spec _ _ _ Hd). split; [|done]. apply elem_of_all_dps. eauto. }
  destruct (dk_state _ _ _ Hd q v dp Hq Hin) as (c & Hc & <-).
  unfold queue_of in Hc. change ((pieces s)⟦dp_index dp⟧) with (piece_map (dp_index dp) s) in Hc.
  destruct (piece_map (dp_index dp) s) as [p|]; [|done]. injection Hc as <-.
  eexists _, p. split; [|done]. unfold view, view_of. by rewrite Hr.
Qed.

Lemma check_blocks_ok dp bs : counts_ok dp bs → forallb check_block bs = true.
Proof.
  intros Hc. apply forallb_forall. intros b Hb. apply list_elem_of_In, elem_of_vget in Hb as [k Hk].
  pose proof (co_blocks _ _ Hc k b Hk) as Hok. unfold block_ok in Hok. unfold check_block.
  destruct (bstate b); lia.
Qed.

Lemma check_downloads_ok s : core_ok s → check_downloads s = Some true.
Proof.
  intros Hc. pose proof (ck_queues _ Hc) as Hqs. unfold check_downloads. apply all_at_true.
  intros q v Hq. rewrite Z.add_0_l. apply all_of_true. intros dp Hin.
  destruct (record_view s q v dp Hqs Hq Hin) as (bs & p & Hv & Hp & Hqn).
  set (i := dp_index dp) in *.
  assert (Hseen : seen s i = Some (norm p)) by (unfold seen; by rewrite Hp).
  destruct (ck_pieces _ Hc i _ _ _ Hseen Hv) as [Hh Hcnt Hu Hqu].
  unfold check_download. fold i. rewrite Hp. cbn [mbind option_bind].
  rewrite (blocks_for_piece_view s Hqs i dp bs Hv). cbn [mbind option_bind].
  rewrite (span_blocks_view s i dp bs Hqs Hv). cbn [mbind option_bind]. f_equal.
  rewrite (check_blocks_ok dp bs Hcnt). subst q.
  change (download_queue (norm p)) with (download_queue p) in Hqu.
  pose proof (counts_used _ _ Hcnt) as Hused. pose proof (view_size s Hqs i dp bs Hv) as Hsz.
  pose proof (count_range state_none bs). pose proof (count_sum bs).
  pose proof (count_range state_requested bs).
  destruct Hcnt as [E1 E2 E3 _]. rewrite <-E1, <-E2, <-E3, !Z.eqb_refl. cbn [andb]. rewrite !andb_true_r.
  assert (Hnof : filtered (norm p) = filtered p) by done.
  unfold proper_queue in Hqu. rewrite Hnof in Hqu. unfold blocks_used in *.
  destruct (filtered p) eqn:Hf; [by rewrite Hqu|].
  destruct (Z.ltb_spec (requested dp + finished dp + writing dp) (blocks_in_piece i s)).
  { rewrite Hqu. cbn. rewrite andb_true_r. apply Z.ltb_lt. lia. }
  destruct (Z.ltb_spec 0 (requested dp)); rewrite Hqu; cbn;
    repeat (apply andb_true_intro; split); try apply Z.ltb_lt; try apply Z.eqb_eq; lia.
Qed.

(** ** The list *)

Lemma check_cursors_ok s : cursors_ok s → check_cursors s = true.
Proof.
  intros Hcu. pose proof (cursors_order _ _ _ _ Hcu). destruct Hcu.
  unfold check_cursors. repeat (apply andb_true_intro; split); [lia..|].
  apply orb_true_intro. destruct H as [H|[H1 H2]]; [left; lia|right].
  apply andb_true_intro. split; lia.
Qed.

Lemma slot_piece pr l t i :
  bucket_inv pr l → (m_pieces l)⟦t⟧ = Some i →
  ∃ p, (m_piece_map l)⟦i⟧ = Some p ∧ index p = t ∧ 0 ≤ pr i ∧
    in_bucket (m_priority_boundaries l) t (pr i).
Proof.
  intros [_ _ _ [Hs _]] Ht. destruct (Hs t i) as (p & Hp & Hi & Hpr & Hb & _).
  - apply vget_Some_range in Ht. lia.
  - done.
  - by exists p.
Qed.

Lemma bucket_of_piece s i p :
  piece_map i s = Some p → bucket_of (m_seeds s) (pieces s) i = priority (m_seeds s) p.
Proof. intros Hp. unfold bucket_of. change ((pieces s)⟦i⟧) with (piece_map i s). by rewrite Hp. Qed.

Lemma bnd_range b k : mono b → 0 ≤ k < vsize b → 0 ≤ bnd b (k - 1) ≤ bnd b k.
Proof.
  intros Hm Hk. pose proof (mono_le b (-1) (k - 1) Hm ltac:(lia) ltac:(lia)) as H.
  rewrite (bnd_neg b (-1)) in H by lia. pose proof (Hm k Hk). lia.
Qed.

Lemma verify_priority_ok s k :
  bucket_inv (bucket_of (m_seeds s) (pieces s)) (lay s) →
  0 ≤ k < vsize (m_priority_boundaries (lay s)) →
  verify_priority (bnd (m_priority_boundaries (lay s)) (k - 1))
    (bnd (m_priority_boundaries (lay s)) k) k s = Some true.
Proof.
  intros Hinv Hk. set (b := m_priority_boundaries (lay s)) in *.
  pose proof (bnd_range b k (inv_mono _ _ Hinv) Hk) as Hr.
  pose proof (mono_le b k (vsize b - 1) (inv_mono _ _ Hinv) ltac:(lia) ltac:(lia)) as Hle.
  pose proof (inv_last _ _ Hinv) as Hlast. fold b in Hlast. rewrite Hlast in Hle.
  unfold verify_priority. rewrite !(proj2 (Z.leb_le _ _)) by lia. cbn [andb].
  apply all_of_true. intros i Hi. apply elem_of_vget in Hi as [j Hj].
  fold (slice (m_pieces (lay s)) (bnd b (k - 1)) (bnd b k - bnd b (k - 1))) in Hj.
  pose proof (vget_Some_range _ _ _ Hj) as Hjr. rewrite slice_size in Hjr by lia.
  rewrite slice_get in Hj by lia.
  destruct (slot_piece _ _ _ _ Hinv Hj) as (p & Hp & _ & Hpr & Hb).
  change (piece_map i s = Some p) in Hp. rewrite Hp. cbn [mbind option_bind]. do 2 f_equal.
  apply Z.eqb_eq. rewrite <-(bucket_of_piece s i p Hp).
  eapply (in_bucket_unique b); [apply Hinv|exact Hb|]. split; [done|lia].
Qed.

Lemma check_ranges_ok s k :
  bucket_inv (bucket_of (m_seeds s) (pieces s)) (lay s) → 0 ≤ k →
  check_ranges (bnd (m_priority_boundaries (lay s)) (k - 1)) k
    (drop (Z.to_nat k) (m_priority_boundaries (lay s))) s = Some true.
Proof.
  intros Hinv. set (b := m_priority_boundaries (lay s)).
  remember (length (drop (Z.to_nat k) b)) as n eqn:Hn. revert k Hn.
  induction n as [|n IH]; intros k Hn Hk.
  - by destruct (drop (Z.to_nat k) b).
  - rewrite length_drop in Hn. assert (Hr : 0 ≤ k < vsize b) by (unfold vsize; lia).
    assert (Hd : drop (Z.to_nat k) b = bnd b k :: drop (Z.to_nat (k + 1)) b).
    { replace (Z.to_nat (k + 1)) with (S (Z.to_nat k)) by lia. apply drop_S.
      rewrite <-vget_nat, Z2Nat.id by lia. by apply bnd_lookup. }
    rewrite Hd. cbn [check_ranges].
    pose proof (verify_priority_ok s k Hinv Hr) as Hvp. fold b in Hvp. rewrite Hvp.
    cbn [mbind option_bind].
    replace (bnd b k) with (bnd b (k + 1 - 1)) by (f_equal; lia). apply IH; [|lia].
    rewrite length_drop. lia.
Qed.

Lemma check_list_ok s : list_ok s → check_list s = Some true.
Proof.
  intros Hl. unfold check_list. destruct (m_dirty s) eqn:Hd; [done|].
  pose proof (lo_listed s Hl Hd) as Hinv. pose proof (check_ranges_ok s 0 Hinv ltac:(lia)) as Hr.
  rewrite (bnd_neg _ (0 - 1)) in Hr by lia. change (Z.to_nat 0) with 0%nat in Hr.
  rewrite drop_0 in Hr.
  pose proof (inv_last _ _ Hinv) as Hlast. pose proof (inv_ne _ _ Hinv) as Hne.
  cbv zeta. set (b := m_priority_boundaries (lay s)) in *.
  clearbody b. destruct b as [|x b']; [done|].
  rewrite Hr. cbn [mbind option_bind]. rewrite bnd_lookup by lia. cbn [mbind option_bind].
  by rewrite Hlast, Z.eqb_refl.
Qed.

Lemma check_listed_ok s : list_ok s → check_listed s = Some true.
Proof.
  intros Hl. unfold check_listed. destruct (m_dirty s) eqn:Hd; [done|].
  pose proof (lo_listed s Hl Hd) as Hinv. apply all_of_true. intros i Hi.
  apply elem_of_vget in Hi as [t Ht].
  destruct (slot_piece _ _ _ _ Hinv Ht) as (p & Hp & _ & Hpr & _).
  change (piece_map i s = Some p) in Hp. rewrite Hp. cbn [mbind option_bind]. do 2 f_equal.
  rewrite (bucket_of_piece s i p Hp) in Hpr. lia.
Qed.

(** ** The cursors *)

Lemma check_cursor_loops_ok s : cursors_ok s → check_cursor_loops s = Some true.
Proof.
  intros [C1 C2 C3 C4 C5 C6]. unfold check_cursor_loops. set (m := m_piece_map (lay s)).
  change (num_pieces s) with (vsize m) in *.
  assert (Hlen : vsize m < Z.of_nat (S (length m))) by (unfold vsize; lia).
  pose proof (vsize_nonneg m).
  assert (Hw : ∀ j p, m⟦j⟧ = Some p → wanted s j = negb (settled p))
    by (intros j p Hp; by apply wanted_piece).
  destruct (skip_up_spec (S (length m)) m 0) as (c & -> & Hc & Hall & Hstop); [lia|lia|].
  cbn [mbind option_bind]. assert (m_cursor s = c) as Hcc.
  { destruct (Z.lt_trichotomy (m_cursor s) c) as [Hlt|[|Hlt]]; [|done|]; exfalso.
    - destruct (vget_is_Some m (m_cursor s) ltac:(lia)) as [p Hp].
      pose proof (C5 ltac:(lia)) as Hwc. rewrite (Hw _ p Hp), (Hall (m_cursor s) p ltac:(lia) Hp) in Hwc. done.
    - destruct (Hstop ltac:(lia)) as (p & Hp & Hs).
      pose proof (C3 c ltac:(lia) ltac:(lia)) as Hwc. by rewrite (Hw _ p Hp), Hs in Hwc. }
  rewrite (proj2 (Z.eqb_eq _ _)) by done. cbn [negb].
  destruct (Z.ltb_spec 0 (vsize m)); [|f_equal; apply Z.eqb_eq; lia].
  destruct (skip_down_spec (S (length m)) m (vsize m)) as (rc & -> & Hrc & Hall2 & Hstop2); [lia|lia|].
  cbn [mbind option_bind]. assert (m_reverse_cursor s = rc) as Hrr.
  { destruct (Z.lt_trichotomy (m_reverse_cursor s) rc) as [Hlt|[|Hlt]]; [|done|]; exfalso.
    - destruct (Hstop2 ltac:(lia)) as (p & Hp & Hs).
      pose proof (C4 (rc - 1) ltac:(lia) ltac:(lia)) as Hwc. by rewrite (Hw _ p Hp), Hs in Hwc.
    - destruct (vget_is_Some m (m_reverse_cursor s - 1) ltac:(lia)) as [p Hp].
      pose proof (C6 ltac:(lia)) as Hwc. rewrite (Hw _ p Hp), (Hall2 (m_reverse_cursor s - 1) p ltac:(lia) Hp) in Hwc. done. }
  rewrite (proj2 (Z.eqb_eq (m_reverse_cursor s) rc)) by done.
  destruct (Z.eqb_spec rc (vsize m)); [done|].
  destruct (vget_is_Some m rc ltac:(lia)) as [p Hp]. rewrite Hp. cbn [mbind option_bind].
  pose proof (Hall2 rc p ltac:(lia) Hp) as Hs. unfold settled in Hs. by rewrite Hs.
Qed.

(** ** Pieces *)

Lemma sum_at_map {A B} (f : Z → A → Z) (g : Z → B → Z) l l' i :
  length l = length l' → (∀ k x y, l⟦k⟧ = Some x → l'⟦k⟧ = Some y → f (i + k) x = g (i + k) y) →
  sum_at f l i = sum_at g l' i.
Proof.
  revert l' i. induction l as [|x l IH]; intros [|y l'] i Hlen Hfg; try done. cbn.
  pose proof (Hfg 0 x y eq_refl eq_refl) as H0. rewrite Z.add_0_r in H0. rewrite H0. f_equal.
  apply IH; [by injection Hlen|]. intros k a b Ha Hb.
  pose proof (vget_Some_range _ _ _ Ha). replace (i + 1 + k) with (i + (k + 1)) by lia.
  apply Hfg; by rewrite vget_cons_S by lia.
Qed.

(** the sums over the pieces are those of the tallies *)
Lemma sum_tally s f (w : Z → Z) :
  (∀ p, f (norm p) = f p) →
  sum_at (λ i p, Z.b2z (f p) * w i) (m_piece_map (lay s)) 0 = sum_pieces s (λ j, flag f s j * w j).
Proof.
  intros Hf. rewrite sum_at_total. unfold sum_pieces, num_pieces, vsize. rewrite Nat2Z.id.
  apply total_ext. intros j Hj. unfold flag, seen, piece_map.
  destruct ((m_piece_map (lay s))⟦j⟧) as [p|]; cbn; [by rewrite Hf|lia].
Qed.

Lemma sum_flag s f :
  (∀ p, f (norm p) = f p) →
  sum_at (λ _ p, Z.b2z (f p)) (m_piece_map (lay s)) 0 = sum_pieces s (flag f s).
Proof.
  intros Hf. pose proof (sum_tally s f (λ _, 1) Hf) as H.
  assert (H1 : sum_at (λ _ p, Z.b2z (f p) * 1) (m_piece_map (lay s)) 0 =
               sum_at (λ _ p, Z.b2z (f p)) (m_piece_map (lay s)) 0).
  { apply sum_at_map; [done|]. intros k x y Hx Hy. rewrite Hx in Hy. injection Hy as <-. lia. }
  rewrite <-H1, H. unfold sum_pieces. apply total_ext. intros j _. lia.
Qed.

Lemma check_sums_ok s : picker_ok s → check_sums s = true.
Proof.
  intros [_ _ Ht _]. unfold check_sums. rewrite Ht. unfold tallies_of.
  cbn [m_num_filtered m_num_have_filtered m_num_have m_have_pad_blocks m_filtered_pad_blocks
       m_have_filtered_pad_blocks].
  assert (H1 : ∀ p, have (norm p) = have p) by apply have_norm.
  assert (H2 : ∀ p, filtered_only (norm p) = filtered_only p)
    by (intros p; unfold filtered_only; by rewrite H1).
  assert (H3 : ∀ p, have_filtered (norm p) = have_filtered p)
    by (intros p; unfold have_filtered; by rewrite H1).
  rewrite (sum_flag s have H1), (sum_tally s have _ H1).
  pose proof (sum_flag s filtered_only H2) as F2. pose proof (sum_tally s filtered_only (pads s) H2) as T2.
  pose proof (sum_flag s have_filtered H3) as F3. pose proof (sum_tally s have_filtered (pads s) H3) as T3.
  unfold filtered_only at 1 in F2. unfold filtered_only at 1 in T2.
  unfold have_filtered at 1 in F3. unfold have_filtered at 1 in T3.
  rewrite F2, F3. change (λ i, pad_blocks_in_piece i s) with (pads s).
  unfold pads in T2 at 1, T3 at 1. rewrite T2, T3. by rewrite !Z.eqb_refl.
Qed.

Lemma count_index_0 i v : (∀ dp, dp ∈ v → dp_index dp ≠ i) → count_index i v = 0.
Proof.
  intros Hv. apply sum_at_0. intros k dp Hk. apply vget_elem_of, Hv in Hk.
  by destruct (Z.eqb_spec (dp_index dp) i).
Qed.

Lemma sum_at_shift {A} (f : A → Z) l i j : sum_at (λ _, f) l i = sum_at (λ _, f) l j.
Proof. revert i j. induction l as [|x l IH]; intros i j; [done|]. cbn. by rewrite (IH (i + 1) (j + 1)). Qed.

Lemma count_index_cons i dp v : count_index i (dp :: v) = Z.b2z (dp_index dp =? i) + count_index i v.
Proof. unfold count_index. cbn. by rewrite (sum_at_shift _ v 1 0). Qed.

Lemma count_index_1 i v dp : ordered v → dp ∈ v → dp_index dp = i → count_index i v = 1.
Proof.
  intros Ho Hin Hi. induction v as [|a v IH]; [by apply not_elem_of_nil in Hin|].
  apply ordered_cons in Ho as [Ho Hlt]. rewrite list.Forall_forall in Hlt. unfold dp_lt in Hlt.
  rewrite count_index_cons. apply elem_of_cons in Hin as [->|Hin].
  - rewrite Hi, Z.eqb_refl. rewrite count_index_0; [done|]. intros b Hb.
    specialize (Hlt b Hb). lia.
  - rewrite IH by done. specialize (Hlt dp Hin). by destruct (Z.eqb_spec (dp_index a) i); [lia|].
Qed.

(** a piece is in the vector of its category only *)
Lemma count_index_queue s i p q v :
  queues_ok s → piece_map i s = Some p → queue q s = Some v →
  count_index i v =
    Z.b2z (negb (bool_decide (download_queue p = piece_open)) &&
           (queue_number (download_queue p) =? q)).
Proof.
  intros [Hz Hd] Hp Hq.
  assert (Hqi : queue_of (pieces s) i = Some (download_queue p)).
  { unfold queue_of. change ((pieces s)⟦i⟧) with (piece_map i s). by rewrite Hp. }
  assert (Hst : ∀ dp, dp ∈ v → dp_index dp = i → queue_number (download_queue p) = q).
  { intros dp Hin Hi. destruct (dk_state _ _ _ Hd q v dp Hq Hin) as (c & Hc & Hn).
    rewrite Hi, Hqi in Hc. by injection Hc as <-. }
  case_bool_decide as Ho; cbn [negb andb].
  - apply count_index_0. intros dp Hin Hi. specialize (Hst dp Hin Hi). rewrite Ho in Hst.
    pose proof (vget_Some_range _ _ _ Hq). rewrite (dk_len _ _ _ Hd) in *. cbn in Hst. lia.
  - destruct (Z.eqb_spec (queue_number (download_queue p)) q) as [Hn|Hn].
    + destruct (dk_listed _ _ _ Hd i _ Hqi Ho) as (dp & Hin & Hi).
      apply elem_of_all_dps in Hin as (q' & v' & Hq' & Hin).
      destruct (dk_state _ _ _ Hd q' v' dp Hq' Hin) as (c & Hc & Hn').
      rewrite Hi, Hqi in Hc. injection Hc as <-. subst q'. rewrite Hn in Hq'.
      unfold queue in Hq. rewrite Hq in Hq'. injection Hq' as <-.
      by apply (count_index_1 i v dp); [by eapply (dk_ordered _ _ _ Hd)|..].
    + apply count_index_0. intros dp Hin Hi. by apply Hn, (Hst dp).
Qed.

(** the list has an entry for the piece when it has a priority *)
Lemma check_listing s i p :
  list_ok s → piece_map i s = Some p → m_dirty s = false →
  let prio := priority (m_seeds s) p in
  prio < vsize (m_priority_boundaries (lay s)) ∧
  (0 ≤ prio → index p < vsize (m_pieces (lay s)) ∧ (m_pieces (lay s))⟦index p⟧ = Some i) ∧
  (prio < 0 → prio = -1 ∧ sum_at (λ _ j, Z.b2z (j =? i)) (m_pieces (lay s)) 0 = 0).
Proof.
  intros Hl Hp Hd prio. pose proof (lo_listed s Hl Hd) as Hinv.
  pose proof (priority_bounds (m_seeds s) p (lo_map s Hl i p Hp)) as Hb. fold prio in Hb.
  pose proof (bucket_of_piece s i p Hp) as Hpr. fold prio in Hpr.
  pose proof (vget_Some_range _ _ _ Hp) as Hi.
  pose proof (inv_ne _ _ Hinv) as Hne. destruct (inv_slots _ _ Hinv) as [Hslots Hin].
  assert (Hlisted : 0 ≤ prio → (m_pieces (lay s))⟦index p⟧ = Some i).
  { intros H0. destruct (Hin i p Hp) as [_ H]; [by rewrite Hpr|lia|done]. }
  split; [|split].
  - destruct (decide (0 ≤ prio)) as [H0|]; [|lia].
    destruct (slot_piece _ _ _ _ Hinv (Hlisted H0)) as (q & _ & _ & _ & [Hq _]).
    rewrite Hpr in Hq. lia.
  - intros H0. specialize (Hlisted H0). split; [|done]. apply vget_Some_range in Hlisted. lia.
  - intros H0. split; [lia|]. apply sum_at_0. intros t j Hj.
    destruct (Z.eqb_spec j i) as [->|]; [|done].
    destruct (slot_piece _ _ _ _ Hinv Hj) as (q & _ & _ & Hq & _). lia.
Qed.

Lemma priority_class seeds p :
  piece_ok p → let prio := priority seeds p in
  (if downloading p then
     if reverse p then (prio =? -1) || (Z.rem prio prio_factor =? 2)
     else (prio =? -1) || (Z.rem prio prio_factor =? 0)
   else (prio =? -1) || (Z.rem prio prio_factor =? 1)) = true.
Proof.
  intros (Hc & Hp & _). cbn zeta. unfold priority.
  destruct (_ || _ || _ || _ || _); [by destruct (downloading p), (reverse p)|].
  unfold downloading, priority_levels, prio_factor.
  set (a := (peer_count p + 1) * (8 - piece_priority p)).
  assert (Ha : 1 ≤ a) by (unfold a; nia).
  assert (Hrem : ∀ d, 0 ≤ d < 3 → Z.rem (a * 3 + (d - 3)) 3 = d).
  { intros d Hd. rewrite Z.rem_mod_nonneg by lia. replace (a * 3 + (d - 3)) with (d + (a - 1) * 3) by lia.
    rewrite Z.mod_add by lia. by apply Z.mod_small. }
  pose proof (Hrem 0 ltac:(lia)). pose proof (Hrem 1 ltac:(lia)). pose proof (Hrem 2 ltac:(lia)).
  unfold reverse. destruct (download_state p); cbn [bool_decide negb]; apply orb_true_intro; right;
    apply Z.eqb_eq; assumption.
Qed.

Lemma check_piece_ok s i p :
  core_ok s → piece_map i s = Some p → check_piece i p s = Some true.
Proof.
  intros Hc Hp. pose proof (ck_list _ Hc) as Hl. pose proof (ck_queues _ Hc) as Hqs.
  assert (Hq : ∀ q, 0 ≤ q < 4 → ∃ v, queue q s = Some v).
  { intros q Hr. apply vget_is_Some. by rewrite (dk_len _ _ _ (qs_dls s Hqs)). }
  destruct (Hq 0) as [v0 H0]; [lia|]. destruct (Hq 1) as [v1 H1]; [lia|].
  destruct (Hq 2) as [v2 H2]; [lia|]. destruct (Hq 3) as [v3 H3]; [lia|].
  unfold check_piece. cbv zeta. set (prio := priority (m_seeds s) p).
  assert (Hlisted : (if m_dirty s then Some true
     else if negb (prio <? vsize (m_priority_boundaries (lay s))) then Some false
     else if 0 <=? prio then
       if index p <? vsize (m_pieces (lay s)) then
         i' ← (m_pieces (lay s))⟦index p⟧; Some (i' =? i)
       else Some false
     else Some ((prio =? -1) && (sum_at (λ _ j, Z.b2z (j =? i)) (m_pieces (lay s)) 0 =? 0)))
    = Some true).
  { destruct (m_dirty s) eqn:Hd; [done|].
    destruct (check_listing s i p Hl Hp Hd) as (Hlt & Hin & Hout). fold prio in Hlt, Hin, Hout.
    rewrite (proj2 (Z.ltb_lt _ _) Hlt). cbn [negb]. destruct (Z.leb_spec 0 prio) as [Hge|Hneg].
    - destruct (Hin Hge) as [Hix Hget]. rewrite (proj2 (Z.ltb_lt _ _) Hix), Hget.
      cbn [mbind option_bind]. by rewrite Z.eqb_refl.
    - destruct (Hout Hneg) as [-> ->]. done. }
  rewrite Hlisted. cbn [mbind option_bind queue_number]. rewrite H0, H1, H2, H3.
  cbn [mbind option_bind]. f_equal.
  rewrite (count_index_queue s i p 0 v0 Hqs Hp H0), (count_index_queue s i p 1 v1 Hqs Hp H1),
    (count_index_queue s i p 2 v2 Hqs Hp H2), (count_index_queue s i p 3 v3 Hqs Hp H3).
  pose proof (priority_class (m_seeds s) p (lo_map s Hl i p Hp)) as Hclass. cbv zeta in Hclass.
  fold prio in Hclass. rewrite Hclass. rewrite !andb_true_r.
  assert (Hh : (if have p then negb (downloading p) else true) = true).
  { destruct (have p) eqn:Hh; [|done]. pose proof (had_no_view s i p Hc Hp Hh) as Hv.
    apply (view_open s i p Hqs Hp) in Hv. apply queue_open_state in Hv. unfold downloading.
    by rewrite Hv. }
  rewrite Hh. unfold download_queue. by destruct (download_state p).
Qed.

(** every assertion of [check_invariant] holds *)
Theorem check_invariant_ok s : picker_ok s → check_invariant s = Some true.
Proof.
  intros Hok. pose proof Hok as [Hc Hcu Ht Hpos]. pose proof (ck_list _ Hc) as Hl.
  unfold check_invariant. rewrite (check_downloads_ok s Hc). cbn [mbind option_bind].
  rewrite (check_list_ok s Hl). cbn [mbind option_bind].
  rewrite (check_cursor_loops_ok s Hcu). cbn [mbind option_bind].
  rewrite (all_at_true (λ i p, check_piece i p s)).
  2: { intros k p Hk. rewrite Z.add_0_l. by apply check_piece_ok. }
  cbn [mbind option_bind]. rewrite (check_listed_ok s Hl). cbn [mbind option_bind].
  rewrite (check_counts_ok s Hok), (check_piece_state_ok s (ck_queues _ Hc)), (check_cursors_ok s Hcu),
    (check_sums_ok s Hok).
  pose proof (check_boundaries_mono (m_priority_boundaries (lay s)) 0 (lo_mono s Hl) ltac:(lia)) as Hb.
  rewrite bnd_neg in Hb by lia. change (Z.to_nat 0) with 0%nat in Hb. rewrite drop_0 in Hb.
  by rewrite Hb.
Qed.

(** ** What a checked state satisfies *)

(** the tallies are [int]s *)
Definition tallies_fit (t : tallies) : Prop :=
  Forall (λ n, 0 ≤ n < 2 ^ 31)
    [m_num_filtered t; m_num_have_filtered t; m_num_have t; m_num_passed t; m_num_pad_blocks t;
     m_have_pad_blocks t; m_filtered_pad_blocks t; m_have_filtered_pad_blocks t].

(** no tally is more than the number of pieces or of pad blocks *)
Lemma tallies_fit_ok s : picker_ok s → tallies_fit (tal s).
Proof.
  intros Hok. assert (Hpads : ∀ j, 0 ≤ pads s j ≤ m_blocks_per_piece s) by (intros j; by apply pads_range).
  pose proof (lo_size s (ck_list _ (ok_core s Hok))) as Hsize.
  unfold tallies_fit. rewrite (ok_tallies s Hok). unfold tallies_of, sum_pieces.
  cbn [m_num_filtered m_num_have_filtered m_num_have m_num_passed m_num_pad_blocks
       m_have_pad_blocks m_filtered_pad_blocks m_have_filtered_pad_blocks].
  set (n := Z.to_nat (num_pieces s)).
  assert (Hn : Z.of_nat n = num_pieces s) by (unfold n, num_pieces, vsize; lia).
  assert (Hflag : ∀ g, (∀ j, 0 ≤ g j ≤ 1) → 0 ≤ total n g < 2 ^ 31).
  { intros g Hg. pose proof (total_range n g 0 1 ltac:(intros j _; apply Hg)). lia. }
  assert (Hall : 0 ≤ total n (pads s) < 2 ^ 31).
  { destruct (ck_pads _ (ok_core s Hok)) as [Hnone|[_ Hmax]].
    - rewrite (total_ext _ (λ _, 0)); [rewrite total_const; lia|]. intros j _.
      rewrite (ok_pads s Hok). unfold row_pads. rewrite (total_ext _ (λ _, 0)); [rewrite total_const; lia|].
      intros l _. unfold pad_at. by rewrite Hnone.
    - pose proof (total_range n (pads s) 0 (m_blocks_per_piece s) ltac:(intros j _; apply Hpads)). nia. }
  assert (Hsome : ∀ f, 0 ≤ total n (λ j, flag f s j * pads s j) < 2 ^ 31).
  { intros f. split.
    - apply total_nonneg. intros j. cbn beta. pose proof (flag_01 f s j). specialize (Hpads j). nia.
    - eapply Z.le_lt_trans; [|apply Hall]. apply total_le. intros j _. cbn beta.
      pose proof (flag_01 f s j). specialize (Hpads j). nia. }
  repeat constructor; try apply Hsome; try apply Hall; apply Hflag; intros j; try apply flag_01;
    unfold passed_or_had; destruct (_ || _); cbn; lia.
Qed.

Lemma all_of_inv {A} (f : A → option bool) l :
  all_of f l = Some true → ∀ x, x ∈ l → f x = Some true.
Proof.
  induction l as [|y l IH]; cbn; [intros _ x Hx; by apply not_elem_of_nil in Hx|].
  destruct (f y) as [[]|] eqn:Hy; cbn; try done. intros H x Hx.
  apply elem_of_cons in Hx as [->|Hx]; auto.
Qed.

Lemma all_at_inv {A} (f : Z → A → option bool) l i :
  all_at f l i = Some true → ∀ k x, l⟦k⟧ = Some x → f (i + k) x = Some true.
Proof.
  revert i. induction l as [|y l IH]; intros i; cbn; [intros _ k x Hx|].
  - apply vget_Some_range in Hx. unfold vsize in Hx. cbn in Hx. lia.
  - destruct (f i y) as [[]|] eqn:Hy; cbn; try done. intros H k x Hx.
    pose proof (vget_Some_range _ _ _ Hx). rewrite vget_cons in Hx.
    destruct (Z.eqb_spec k 0) as [->|]; [rewrite Z.add_0_r; congruence|].
    replace (i + k) with (i + 1 + (k - 1)) by lia. by apply IH.
Qed.

Lemma check_invariant_inv s :
  check_invariant s = Some true →
  check_list s = Some true ∧ (∀ i p, piece_map i s = Some p → check_piece i p s = Some true) ∧
  check_sums s = true.
Proof.
  unfold check_invariant.
  destruct (check_downloads s) as [b1|]; [|done]. destruct (check_list s) as [b2|]; [|done].
  destruct (check_cursor_loops s) as [b3|]; [|done].
  destruct (all_at _ _ 0) as [b4|] eqn:Hpieces; [|done]. destruct (check_listed s) as [b5|]; [|done].
  cbn [mbind option_bind]. intros [= H]. repeat (apply andb_prop in H as [H ?]). subst.
  split; [done|]. split; [|done]. intros i p Hp.
  pose proof (all_at_inv _ _ _ Hpieces i p Hp) as Hi. by rewrite Z.add_0_l in Hi.
Qed.

(** in a range of the list that has been checked every piece has the priority
    of the range *)
Lemma check_ranges_inv s start prio b :
  check_ranges start prio b s = Some true →
  ∀ k x, b⟦k⟧ = Some x →
    verify_priority (default start b⟦k - 1⟧) x (prio + k) s = Some true.
Proof.
  revert start prio. induction b as [|y b IH]; intros start prio; cbn [check_ranges].
  - intros _ k x Hx. apply vget_Some_range in Hx. unfold vsize in Hx. cbn in Hx. lia.
  - destruct (verify_priority start y prio s) as [[]|] eqn:Hy; cbn; try done. intros H k x Hx.
    pose proof (vget_Some_range _ _ _ Hx) as Hr. rewrite vget_cons in Hx.
    destruct (Z.eqb_spec k 0) as [->|Hk].
    { injection Hx as <-. rewrite (vget_None _ (0 - 1)) by lia. by rewrite Z.add_0_r. }
    specialize (IH y (prio + 1) H (k - 1) x Hx).
    replace (prio + 1 + (k - 1)) with (prio + k) in IH by lia.
    rewrite vget_cons. destruct (Z.eqb_spec (k - 1) 0) as [Hk1|].
    2: { rewrite vsize_cons in Hr. destruct (vget_is_Some b (k - 1 - 1) ltac:(lia)) as [z Hz].
         rewrite Hz in IH |- *. exact IH. }
    rewrite Hk1, (vget_None b (0 - 1)) in IH by lia. done.
Qed.

Lemma check_list_inv s t i k :
  check_list s = Some true → m_dirty s = false → mono (m_priority_boundaries (lay s)) →
  (m_pieces (lay s))⟦t⟧ = Some i → in_bucket (m_priority_boundaries (lay s)) t k →
  ∃ p, piece_map i s = Some p ∧ priority (m_seeds s) p = k.
Proof.
  unfold check_list. intros Hck Hd Hm Ht [Hk Hb]. rewrite Hd in Hck.
  set (b := m_priority_boundaries (lay s)) in *.
  assert (Hrun : check_ranges 0 0 b s = Some true).
  { destruct b as [|x b']; [done|]. destruct (check_ranges 0 0 _ s) as [[]|]; [done| |done].
    cbn [mbind option_bind] in Hck. by destruct ((x :: b')⟦vsize (x :: b') - 1⟧). }
  pose proof (check_ranges_inv s 0 0 b Hrun k (bnd b k) ltac:(apply bnd_lookup; lia)) as Hv.
  replace (default 0 b⟦k - 1⟧) with (bnd b (k - 1)) in Hv by (unfold bnd; by destruct (b⟦k - 1⟧)).
  unfold verify_priority in Hv. destruct (_ && _) eqn:Hr; [|done].
  apply andb_prop in Hr as [Hr1 Hr2]. apply Z.leb_le in Hr1, Hr2.
  pose proof (bnd_range b k Hm ltac:(lia)).
  assert (Hi : i ∈ slice (m_pieces (lay s)) (bnd b (k - 1)) (bnd b k - bnd b (k - 1))).
  { apply (vget_elem_of _ (t - bnd b (k - 1))). rewrite slice_get by lia.
    by replace (bnd b (k - 1) + (t - bnd b (k - 1))) with t by lia. }
  apply (all_of_inv _ _ Hv) in Hi. destruct (piece_map i s) as [p|]; [|done].
  exists p. split; [done|]. injection Hi. apply Z.eqb_eq.
Qed.

(** ** The calls that leave an inconsistent state *)

(** a checked piece with a priority is in the slot it knows *)
Lemma check_piece_listed i p s :
  check_piece i p s = Some true → m_dirty s = false → 0 ≤ priority (m_seeds s) p →
  (m_pieces (lay s))⟦index p⟧ = Some i.
Proof.
  unfold check_piece. intros Hck Hd Hpr. rewrite Hd in Hck. cbv zeta in Hck.
  rewrite (proj2 (Z.leb_le 0 _) Hpr) in Hck.
  apply bind_Some in Hck as (listed & Hlisted & Hck).
  do 4 (apply bind_Some in Hck as (? & _ & Hck)).
  injection Hck as Hck. repeat (apply andb_prop in Hck as [Hck ?]). subst listed.
  destruct (negb _); [done|]. destruct (index p <? _); [|done].
  apply bind_Some in Hlisted as (j & -> & [= Hj]). by apply Z.eqb_eq in Hj as ->.
Qed.

(** a piece that has lost its record, but not its place in the list *)
Lemma forgotten_checked s s' i p :
  picker_ok s → piece_map i s = Some p → forgotten i p s s' → check_invariant s' = Some true →
  m_dirty s = true ∨ priority (m_seeds s) (with_state p piece_open) = priority (m_seeds s) p.
Proof.
  intros Hok Hp [Hps Hbd Hse Hdi Hpc _] Hck. destruct (m_dirty s) eqn:Hd; [by left|right].
  pose proof (ck_list _ (ok_core s Hok)) as Hl. pose proof (lo_listed s Hl Hd) as Hinv.
  destruct (check_invariant_inv s' Hck) as (Hlist & Hpieces & _).
  destruct (check_listing s i p Hl Hp Hd) as (_ & Hin & Hout).
  pose proof (priority_bounds (m_seeds s) (with_state p piece_open) (lo_map s Hl i p Hp)) as Hb.
  destruct (Z.lt_ge_cases (priority (m_seeds s) p) 0) as [Hneg|Hge].
  - destruct (Hout Hneg) as [-> Hno]. destruct (Z.eq_dec (priority (m_seeds s) (with_state p piece_open)) (-1));
      [done|exfalso].
    assert (Hx : (m_pieces (lay s))⟦index p⟧ = Some i).
    { rewrite <-Hps. apply (check_piece_listed i _ s' (Hpieces i _ Hpc)); [congruence|].
      rewrite Hse. lia. }
    destruct (slot_piece _ _ _ _ Hinv Hx) as (q & Hq & _ & Hpr & _).
    rewrite (bucket_of_piece s i p Hp) in Hpr. lia.
  - destruct (Hin Hge) as [_ Hslot].
    destruct (slot_piece _ _ _ _ Hinv Hslot) as (q & Hq & _ & _ & Hbk).
    rewrite (bucket_of_piece s i p Hp) in Hbk.
    destruct (check_list_inv s' (index p) i (priority (m_seeds s) p)) as (q' & Hq' & <-);
      rewrite ?Hps, ?Hbd, ?Hdi; try done; [apply (lo_mono s Hl)|].
    rewrite Hse. congruence.
Qed.

(** the pieces after [resize] *)
Definition restarted (p : piece_pos) : piece_pos :=
  with_index (with_state (with_peer_count p 0) piece_open) 0.

Lemma picker_resize_spec n last s :
  0 < n ≤ max_blocks_per_piece → 0 ≤ last →
  wp (resize n last (num_pieces s)) s (λ r s', r = returned ∧
    m_filtered_pad_blocks (tal s') = 0 ∧ m_pads_in_piece s' = m_pads_in_piece s ∧
    m_piece_map (lay s') = map restarted (m_piece_map (lay s))).
Proof.
  intros Hn Hlast. unfold resize. destruct (Z.ltb_spec max_blocks_per_piece n); [lia|].
  do 5 wstep. unfold update_all. do 2 wstep. cbv zeta.
  set (m := m_piece_map (lay _)).
  assert (Hm : m = map restarted (m_piece_map (lay s))).
  { unfold m. cbn. unfold vresize, num_pieces. rewrite Z.sub_diag. unfold vsize.
    rewrite Nat2Z.id, take_ge by lia. cbn. by rewrite app_nil_r. }
  assert (Hsz : vsize m = num_pieces s) by (rewrite Hm; unfold num_pieces, vsize; by rewrite length_map).
  pose proof (vsize_nonneg m).
  destruct (skip_up_spec (S (length m)) m 0) as (c & Hc & _); [lia|unfold vsize; lia|].
  destruct (skip_down_spec (S (length m)) m (vsize m)) as (rc & Hrc & _); [lia|unfold vsize; lia|].
  apply wp_bind. eapply wp_reads; [exact Hc|]. apply wp_bind. eapply wp_reads.
  { match goal with |- skip_down _ _ ?x = _ => replace x with (vsize m); [exact Hrc|] end.
    rewrite Hsz. unfold num_pieces. cbn. unfold vresize. rewrite Z.sub_diag. unfold vsize.
    rewrite Nat2Z.id, take_ge by lia. cbn. by rewrite app_nil_r. }
  do 3 wstep. split; [done|]. split; [done|]. split; [done|]. exact Hm.
Qed.

(** a pad block in a filtered piece is not counted any more *)
Lemma resized_unchecked s s' i p :
  picker_ok s → piece_map i s = Some p → filtered p = true → 0 < pads s i →
  m_filtered_pad_blocks (tal s') = 0 → m_pads_in_piece s' = m_pads_in_piece s →
  m_piece_map (lay s') = map restarted (m_piece_map (lay s)) →
  check_invariant s' ≠ Some true.
Proof.
  intros Hok Hp Hf Hpads Hz Hpp Hm Hck. destruct (check_invariant_inv s' Hck) as (_ & _ & Hs).
  unfold check_sums in Hs. apply andb_prop in Hs as [Hs _]. apply andb_prop in Hs as [_ H0].
  rewrite Hz in H0. apply Z.eqb_eq in H0.
  set (g := λ i p, Z.b2z (filtered p && negb (have p)) * pad_blocks_in_piece i s') in *.
  rewrite sum_at_total in H0.
  set (h := λ j, match (m_piece_map (lay s'))⟦j⟧ with Some x => g j x | None => 0 end) in *.
  assert (Hpd : ∀ j, pad_blocks_in_piece j s' = pads s j)
    by (intros j; unfold pads, pad_blocks_in_piece; by rewrite Hpp).
  pose proof (vget_Some_range _ _ _ Hp) as Hi.
  assert (Hterm : ∀ j, 0 ≤ h j).
  { intros j. unfold h. destruct ((m_piece_map (lay s'))⟦j⟧) as [x|]; [|lia]. unfold g. rewrite Hpd.
    pose proof (pads_range s j Hok). destruct (_ && _); cbn; lia. }
  assert (Hpos : 0 < h i).
  { unfold h. rewrite Hm, (vget_map restarted _ _ _ Hp). unfold g. rewrite Hpd.
    change (filtered (restarted p)) with (filtered p). rewrite Hf. cbn. lia. }
  pose proof (total_le (length (m_piece_map (lay s')))
    (λ j, if j =? i then h i else 0) h ltac:(intros j _; cbn beta; destruct (Z.eqb_spec j i) as [->|]; [apply Z.le_refl|apply Hterm])) as Hle.
  rewrite H0 in Hle.
  rewrite (total_change _ (λ _, 0) _ i) in Hle.
  - rewrite total_const, Z.eqb_refl in Hle. lia.
  - rewrite Hm, length_map. unfold vsize in Hi. lia.
  - intros j Hj. by rewrite (proj2 (Z.eqb_neq _ _)).
Qed.

(** a piece that had passed the hash check is still counted when its record is
    dropped *)
Lemma dropped_miscounted s s' i p :
  picker_ok s → piece_map i s = Some p → passed_at s i = true → dropped s s' i →
  m_num_passed (tal s') = m_num_passed (tallies_of s') + 1.
Proof.
  intros Hok Hp Hpass [Hc (e & He) Hst Hv _ Hvs]. rewrite (ev_tal _ _ He).
  change (tal (set_extents e s)) with (tal s). rewrite (ok_tallies s Hok).
  cbn [m_num_passed tallies_of]. unfold sum_pieces. rewrite (ev_size _ _ He).
  change (num_pieces (set_extents e s)) with (num_pieces s).
  pose proof (vget_Some_range _ _ _ Hp) as Hi.
  rewrite (total_change _ (passed_or_had s) (passed_or_had s') i).
  - unfold passed_or_had at 3 4. rewrite Hpass, orb_true_r, (had_static s s' i) by done.
    unfold passed_at in Hpass |- *. rewrite Hv.
    destruct (view s i) as [[dp bs]|] eqn:Hvi; [|done].
    rewrite (view_not_had s i dp bs) by first [apply Hok|done]. cbn. lia.
  - unfold num_pieces, vsize in *. lia.
  - intros j Hj. unfold passed_or_had, passed_at. rewrite (had_static s s' j) by done.
    by rewrite Hvs.
Qed.
End checked.
