(* ===== verification/PickerQueries.v ===== *)
(** The queries of the picker: what they say of blocks and pieces, and
    [distributed_copies]. *)

From stdpp Require Import gmap.
From S2P Require Import Prelude.
From S2P Require Import Random.
From S2P Require Import PiecePicker.
From S2P Require Import PickerBuckets.
From S2P Require Import PickerRebuild.
From S2P Require Import PickerState.
From S2P Require Import PickerOps.
From S2P Require Import PickerBlocks.
From S2P Require Import PickerDls.
From S2P Require Import PickerInv.
From S2P Require Import PickerAvail.
From S2P Require Import PickerSteps.
From S2P Require Import PickerCore.
From S2P Require Import PickerMarks.
From S2P Require Import PickerDownloading.
From S2P Require Import PickerCancel.
From S2P Require Import PickerHave.
From S2P Require Import PickerLost.

Open Scope Z_scope.

(** ** [distributed_copies] *)

(** the copies of a piece that there are, the seeds apart *)
Definition copies (p : piece_pos) : Z := if have p then peer_count p + 1 else peer_count p.

Lemma copies_loop_spec m mn i f lo i' f' :
  copies_loop m mn i f = (lo, i', f') →
  lo ≤ mn ∧ (∀ p, p ∈ m → lo ≤ copies p) ∧ (lo = mn ∨ ∃ p, p ∈ m ∧ copies p = lo) ∧
  i' + f' = i + f + vsize m ∧
  f' = (if lo =? mn then f else f + i) + vsize (filter (λ p, lo < copies p) m).
Proof.
  revert mn i f. induction m as [|p m IH]; intros mn i f; cbn [copies_loop].
  { intros [= <- <- <-]. change (vsize (filter _ [])) with 0. rewrite Z.eqb_refl.
    change (vsize []) with 0. split; [lia|]. split.
    { intros p Hp. by apply not_elem_of_nil in Hp. }
    split; [by left|lia]. }
  fold (copies p). rewrite vsize_cons.
  assert (Hall : ∀ lo', lo' ≤ copies p → (∀ q, q ∈ m → lo' ≤ copies q) → ∀ q, q ∈ p :: m → lo' ≤ copies q).
  { intros lo' H1 H2 q [->|Hq]%elem_of_cons; auto. }
  destruct (Z.ltb_spec (copies p) mn) as [Hlt|Hge]; [|destruct (Z.eqb_spec (copies p) mn) as [Heq|Hne]].
  - intros (H1 & H2 & H3 & H4 & H5)%IH. rewrite filter_cons.
    split; [lia|]. split; [apply Hall; [lia|done]|]. split.
    { right. destruct H3 as [->|(q & Hq & Hc)]; [exists p; split; [left|done]|exists q; split; [by right|done]]. }
    split; [lia|]. rewrite H5. rewrite (proj2 (Z.eqb_neq lo mn)) by lia.
    destruct (Z.eqb_spec lo (copies p)); [rewrite decide_False by lia; lia|].
    rewrite decide_True by lia. rewrite vsize_cons. lia.
  - intros (H1 & H2 & H3 & H4 & H5)%IH. rewrite filter_cons.
    split; [lia|]. split; [apply Hall; [lia|done]|]. split.
    { destruct H3 as [->|(q & Hq & Hc)]; [by left|right; exists q; split; [by right|done]]. }
    split; [lia|]. rewrite H5. destruct (Z.eqb_spec lo mn).
    + rewrite decide_False by lia. lia.
    + rewrite decide_True by lia. rewrite vsize_cons. lia.
  - intros (H1 & H2 & H3 & H4 & H5)%IH. rewrite filter_cons, decide_True by lia. rewrite vsize_cons.
    split; [lia|]. split; [apply Hall; [lia|done]|]. split.
    { destruct H3 as [->|(q & Hq & Hc)]; [by left|right; exists q; split; [by right|done]]. }
    split; [lia|]. rewrite H5. destruct (lo =? mn); lia.
Qed.

Section queries.
Context {R : StdRandom} {Rok : StdRandomOk R}.

Lemma distributed_copies_spec s :
  list_ok s → num_pieces s * 1000 < 2 ^ 31 →
  (∃ p, p ∈ m_piece_map (lay s) ∧ copies p ≤ max_peer_count) →
  ∃ low, (∀ p, p ∈ m_piece_map (lay s) → low ≤ copies p) ∧
    (∃ p, p ∈ m_piece_map (lay s) ∧ copies p = low) ∧
    distributed_copies s =
      Some (low + m_seeds s,
       Z.quot (vsize (filter (λ p, low < copies p) (m_piece_map (lay s))) * 1000) (num_pieces s)).
Proof.
  intros Hl Hfit (p & Hin & Hp). unfold distributed_copies.
  assert (Hn : 0 < num_pieces s).
  { unfold num_pieces, vsize. destruct (m_piece_map (lay s)); [by apply not_elem_of_nil in Hin|cbn; lia]. }
  rewrite (proj2 (Z.eqb_neq _ _)) by lia.
  destruct (copies_loop _ _ _ _) as [[lo i'] f'] eqn:Hrun.
  destruct (copies_loop_spec _ _ _ _ _ _ _ Hrun) as (H1 & H2 & H3 & H4 & H5).
  exists lo. split; [done|].
  assert (Hlow : ∃ q, q ∈ m_piece_map (lay s) ∧ copies q = lo).
  { destruct H3 as [->|H3]; [|done]. exists p. split; [done|]. specialize (H2 p Hin). lia. }
  split; [done|]. destruct Hlow as (q & [k Hk]%elem_of_vget & Hq).
  destruct (lo_map s Hl k q Hk) as [Hpc _]. pose proof (lo_seeds s Hl).
  assert (0 ≤ lo ≤ 2 ^ 26) by (unfold copies in Hq; destruct (have q); lia).
  assert (Hf : f' = vsize (filter (λ p, lo < copies p) (m_piece_map (lay s))))
    by (rewrite H5; by destruct (lo =? max_peer_count)).
  assert (Hle : f' ≤ num_pieces s).
  { rewrite Hf. unfold vsize, num_pieces, vsize. pose proof (length_filter (λ p, lo < copies p) (m_piece_map (lay s))). lia. }
  pose proof (vsize_nonneg (filter (λ p, lo < copies p) (m_piece_map (lay s)))).
  unfold max_seeds, max_peer_count in *.
  rewrite signed_small by lia. cbn [mbind option_bind]. rewrite signed_small by lia.
  cbn [mbind option_bind]. by rewrite Hf.
Qed.

(** ** The state of a block *)

Lemma dl_block_view s i j p dp bs b :
  queues_ok s → piece_map i s = Some p → view s i = Some (dp, bs) → bs⟦j⟧ = Some b →
  dl_block p (PieceBlock i j) s = Some b.
Proof.
  intros Hs Hp Hv Hb. unfold dl_block. cbn [piece_index block_index].
  destruct (find_dl_piece_view s Hs i dp bs Hv p Hp) as (it & -> & Hit). cbn [mbind option_bind].
  rewrite (deref_view s Hs i dp bs Hv it Hit). cbn [mbind option_bind].
  rewrite (blocks_for_piece_view s Hs i dp bs Hv). cbn [mbind option_bind].
  by rewrite (get_block_view s Hs i dp bs Hv).
Qed.

(** what the queries say of block [j] of piece [i] *)
Definition block_queries (s : picker) (i j : Z) : option (bool * bool * bool * Z * torrent_peer) :=
  let b := PieceBlock i j in
  r ← is_requested b s; d ← is_downloaded b s; f ← is_finished b s;
  n ← num_peers_of b s; p ← get_downloader b s; Some (r, d, f, n, p).

Lemma block_queries_spec s i j p :
  core_ok s → piece_map i s = Some p → 0 ≤ j < blocks_in_piece i s →
  block_queries s i j = Some
    match view s i with
    | None => (false, have p, have p, 0, nullptr)
    | Some _ =>
        let b := block_at s i j in
        (bool_decide (bstate b = state_requested),
         bool_decide (bstate b = state_finished) || bool_decide (bstate b = state_writing),
         bool_decide (bstate b = state_finished), num_peers b,
         if bool_decide (bstate b = state_none) then nullptr else peer b)
    end.
Proof.
  intros Hc Hp Hj. pose proof (ck_queues _ Hc) as Hs.
  unfold block_queries, is_requested, is_downloaded, is_finished, num_peers_of, get_downloader.
  cbn [piece_index]. rewrite Hp. cbn [mbind option_bind]. change (index p =? we_have_index) with (have p).
  destruct (view s i) as [[dp bs]|] eqn:Hv.
  - assert (Hq : download_queue p ≠ piece_open).
    { intros Hq. apply (view_open s i p Hs Hp) in Hq. congruence. }
    assert (Hd : downloading p = true).
    { unfold downloading. rewrite bool_decide_eq_false_2; [done|]. intros E. apply Hq.
      unfold download_queue. by rewrite E. }
    assert (Hh : have p = false).
    { pose proof (view_not_had s i dp bs Hc Hv) as H. unfold had, seen in H. rewrite Hp in H. cbn in H.
      by rewrite have_norm in H. }
    rewrite <-(view_size s Hs i dp bs Hv) in Hj. destruct (vget_is_Some bs j Hj) as [b Hb].
    rewrite (bool_decide_eq_false_2 _ Hq), Hd, Hh. cbn [negb].
    rewrite (dl_block_view s i j p dp bs b Hs Hp Hv Hb). cbn [mbind option_bind].
    unfold block_at. rewrite Hv, Hb. done.
  - apply (view_open s i p Hs Hp) in Hv. pose proof (queue_open_state p Hv) as Ho.
    rewrite (bool_decide_eq_true_2 _ Hv). unfold downloading.
    rewrite (bool_decide_eq_true_2 _ Ho). by destruct (have p).
Qed.

(** ** The state of a piece *)

Lemma is_piece_finished_spec s i p :
  core_ok s → piece_map i s = Some p →
  is_piece_finished i s = Some
    match view s i with
    | None => have p
    | Some (dp, bs) => count state_none bs + count state_requested bs =? 0
    end ∧
  has_piece_passed i s = Some (had s i || passed_at s i).
Proof.
  intros Hc Hp. pose proof (ck_queues _ Hc) as Hs.
  unfold is_piece_finished, has_piece_passed, passed_at. rewrite Hp. cbn [mbind option_bind].
  change (index p =? we_have_index) with (have p).
  assert (Hhad : had s i = have p) by (unfold had, seen; rewrite Hp; cbn; by rewrite have_norm).
  rewrite Hhad. destruct (view s i) as [[dp bs]|] eqn:Hv.
  - assert (Hseen : seen s i = Some (norm p)) by (unfold seen; by rewrite Hp).
    destruct (ck_pieces _ Hc i _ _ _ Hseen Hv) as [Hh Hcnt _ _]. rewrite have_norm in Hh.
    assert (Hq : download_queue p ≠ piece_open).
    { intros Hq. apply (view_open s i p Hs Hp) in Hq. congruence. }
    rewrite Hh, (bool_decide_eq_false_2 _ Hq).
    destruct (find_dl_piece_view s Hs i dp bs Hv p Hp) as (it & -> & Hit). cbn [mbind option_bind].
    rewrite (deref_view s Hs i dp bs Hv it Hit). cbn [mbind option_bind orb]. split; [|done].
    f_equal. pose proof (count_sum bs). rewrite <-(view_size s Hs i dp bs Hv).
    pose proof (count_range state_none bs). pose proof (count_range state_requested bs).
    destruct Hcnt as [-> -> _ _].
    destruct (Z.ltb_spec (count state_finished bs + count state_writing bs) (vsize bs)),
      (Z.eqb_spec (count state_none bs + count state_requested bs) 0); try done; lia.
  - apply (view_open s i p Hs Hp) in Hv. rewrite (bool_decide_eq_true_2 _ Hv).
    by destruct (have p).
Qed.
End queries.
