(* ===== verification/PickerGrow.v ===== *)
(** What [pick_pieces] may pick: the pieces a peer has and we want and the free
    blocks in them, and the functions that add the blocks of one piece. They
    pick free blocks only, and leave none of the piece unless there are
    enough. *)

From stdpp Require Import gmap.
From S2P Require Import Prelude.
From S2P Require Import Random.
From S2P Require Import PiecePicker.
From S2P Require Import PickerState.
From S2P Require Import PickerOps.
From S2P Require Import PickerBlocks.
From S2P Require Import PickerPick.
From S2P Require Import PickerInv.
From S2P Require Import PickerAvail.
From S2P Require Import PickerDls.
From S2P Require Import PickerSteps.
From S2P Require Import PickerCore.
From S2P Require Import PickerMarks.
From S2P Require Import PickerHave.
From S2P Require Import PickerLost.
From S2P Require Import PickerStart.
From S2P Require Import PickerCheck.
From S2P Require Import PickerQueries.

Open Scope Z_scope.

Section free.
Context {R : StdRandom} {Rok : StdRandomOk R}.

(** the peer has the piece, and we want it *)
Definition usable (pieces : bitfield) (s : picker) (i : Z) : Prop :=
  pieces⟦i⟧ = Some true ∧ ∃ p, seen s i = Some p ∧ have p = false ∧ filtered p = false.

(** no peer has requested the block and it has not been received *)
Definition free_in (s : picker) (i j : Z) : Prop :=
  0 ≤ j < blocks_in_piece i s ∧
  (view s i = None ∨ bstate (block_at s i j) = state_none).

Definition free_pick (pieces : bitfield) (s : picker) (b : piece_block) : Prop :=
  usable pieces s (piece_index b) ∧ free_in s (piece_index b) (block_index b).

Section picker.
Context (pieces : bitfield) (s : picker) (Hok : picker_ok s).
Context (Hsize : vsize pieces = num_pieces s).

Lemma piece_lookup i : 0 ≤ i < num_pieces s →
  ∃ p b, piece_map i s = Some p ∧ seen s i = Some (norm p) ∧ pieces⟦i⟧ = Some b.
Proof using Hsize.
  intros Hi. destruct (vget_is_Some (m_piece_map (lay s)) i Hi) as [p Hp].
  destruct (vget_is_Some pieces i) as [b Hb]; [lia|].
  exists p, b. split; [exact Hp|]. split; [|done]. unfold seen, piece_map. by rewrite Hp.
Qed.

Lemma usable_range i : usable pieces s i → 0 ≤ i < num_pieces s.
Proof using Hsize. intros [Hb _]. apply vget_Some_range in Hb. lia. Qed.

Lemma is_piece_free_spec i : 0 ≤ i < num_pieces s →
  ∃ b, is_piece_free i pieces s = Some b ∧ (b = true ↔ usable pieces s i).
Proof using Hsize.
  intros Hi. destruct (piece_lookup i Hi) as (p & b & Hp & Hs & Hb).
  unfold is_piece_free, usable. rewrite Hb, Hs. cbn [mbind option_bind].
  destruct b; cbn [negb].
  - rewrite Hp. cbn [mbind option_bind]. eexists. split; [done|].
    split.
    + intros [Hh Hf]%andb_true_iff. split; [done|]. exists (norm p). split; [done|].
      rewrite have_norm, filtered_norm. by destruct (have p), (filtered p).
    + intros (_ & q & [= <-] & Hh & Hf). rewrite have_norm in Hh. rewrite filtered_norm in Hf.
      by rewrite Hh, Hf.
  - exists false. split; [done|]. split; [done|]. by intros [[=] _].
Qed.

Lemma open_view i p : piece_map i s = Some p → downloading p = false → view s i = None.
Proof using Hok.
  intros Hp Hd. apply (view_open s i p); [apply Hok|done|].
  unfold downloading in Hd. unfold download_queue. destruct (download_state p); try done.
Qed.

Lemma can_pick_spec i : 0 ≤ i < num_pieces s →
  ∃ b, can_pick i pieces s = Some b ∧ (b = true → usable pieces s i ∧ view s i = None).
Proof using Hok Hsize.
  intros Hi. destruct (is_piece_free_spec i Hi) as (f & Hf & Hiff).
  destruct (piece_lookup i Hi) as (p & b & Hp & Hs & Hb).
  unfold is_piece_free in Hf. unfold can_pick. rewrite Hb in Hf |- *. cbn [mbind option_bind] in *.
  destruct b; cbn [negb] in *; [|by exists false].
  rewrite Hp in Hf |- *. cbn [mbind option_bind] in *. injection Hf as <-. eexists. split; [done|].
  intros [[Hh Hd]%andb_true_iff Hfl]%andb_true_iff. split.
  - apply Hiff. by rewrite Hh, Hfl.
  - apply (open_view i p Hp). by destruct (downloading p).
Qed.

(** ** [expand_piece] *)

(** every piece of the range can be picked from its first block on *)
Definition fresh_range (start end_ : Z) : Prop :=
  ∀ k, start ≤ k < end_ → usable pieces s k ∧ view s k = None.

Lemma expand_down_spec fuel start lower :
  0 ≤ lower ≤ start → start ≤ num_pieces s →
  ∃ start', expand_down fuel start lower pieces s = Some start' ∧ lower ≤ start' ≤ start ∧
    fresh_range start' start.
Proof using Hok Hsize.
  revert start. induction fuel as [|fuel IH]; intros start Hl Hs; cbn [expand_down].
  { exists start. split; [done|]. split; [lia|]. intros k. lia. }
  destruct (Z.ltb_spec lower start).
  2: { exists start. split; [done|]. split; [lia|]. intros k. lia. }
  destruct (can_pick_spec (start - 1)) as (b & -> & Hb); [lia|]. cbn [mbind option_bind].
  destruct b.
  - destruct (IH (start - 1)) as (start' & -> & Hr & Hf); [lia|lia|].
    exists start'. split; [done|]. split; [lia|]. intros k Hk.
    destruct (decide (k = start - 1)) as [->|]; [by apply Hb|apply Hf; lia].
  - exists start. split; [done|]. split; [lia|]. intros k. lia.
Qed.

Lemma expand_up_spec fuel end_ upper :
  0 ≤ end_ → upper ≤ num_pieces s →
  ∃ end', expand_up fuel end_ upper pieces s = Some end' ∧ end_ ≤ end' ∧
    (end' = end_ ∨ end' ≤ upper) ∧ fresh_range end_ end'.
Proof using Hok Hsize.
  revert end_. induction fuel as [|fuel IH]; intros end_ He Hu; cbn [expand_up].
  { exists end_. split; [done|]. split; [lia|]. split; [by left|]. intros k. lia. }
  destruct (Z.ltb_spec end_ upper).
  2: { exists end_. split; [done|]. split; [lia|]. split; [by left|]. intros k. lia. }
  destruct (can_pick_spec end_) as (b & -> & Hb); [lia|]. cbn [mbind option_bind].
  destruct b.
  - destruct (IH (end_ + 1)) as (end' & -> & Hle & Hr & Hf); [lia|lia|].
    exists end'. split; [done|]. split; [lia|]. split; [lia|]. intros k Hk.
    destruct (decide (k = end_)) as [->|]; [by apply Hb|apply Hf; lia].
  - exists end_. split; [done|]. split; [lia|]. split; [by left|]. intros k. lia.
Qed.

(** the division by the number of whole pieces is defined *)
Definition can_align (options : picker_options_t) (n : Z) : Prop :=
  align_expanded_pieces options = true → 0 ≤ n.

Lemma expand_piece_spec i n options :
  usable pieces s i → view s i = None → can_align options n →
  ∃ start end_, expand_piece i n pieces options s = Some (start, end_) ∧
    0 ≤ start ≤ i ∧ i < end_ ≤ num_pieces s ∧ fresh_range start end_.
Proof using Hok Hsize.
  intros Hu Hv Ha. pose proof (usable_range i Hu) as Hi.
  assert (Hself : fresh_range i (i + 1)).
  { intros k Hk. by assert (k = i) as -> by lia. }
  unfold expand_piece. destruct (Z.eqb_spec n 0).
  { exists i, (i + 1). split; [done|]. split; [lia|]. split; [lia|done]. }
  set (b := m_blocks_per_piece s).
  assert (Hb : 0 < b) by apply (sz_blocks s (qs_sizes s (ck_queues _ (ok_core _ Hok)))).
  rewrite (proj2 (Z.eqb_neq b 0)) by lia. cbn [negb guard_b mbind option_bind].
  set (w := Z.quot (n + b - 1) b).
  assert (Hdown : ∀ lower, 0 ≤ lower →
    ∃ start, expand_down (Z.to_nat (i - lower)) i lower pieces s = Some start ∧
      0 ≤ start ≤ i ∧ fresh_range start i).
  { intros lower Hl. destruct (decide (lower ≤ i)) as [Hle|Hgt].
    - destruct (expand_down_spec (Z.to_nat (i - lower)) i lower) as (st & -> & Hr & Hf); [lia|lia|].
      exists st. split; [done|]. split; [lia|done].
    - replace (Z.to_nat (i - lower)) with O by lia. exists i. split; [done|]. split; [lia|].
      intros k. lia. }
  assert (Hlower : ∃ lower, (if align_expanded_pieces options then
       _ ← guard_b (negb (w =? 0)); Some (i - Z.rem i w)
     else Some (if i - w + 1 <? 0 then 0 else i - w + 1)) = Some lower ∧ 0 ≤ lower).
  { destruct (align_expanded_pieces options) eqn:Hal.
    - specialize (Ha Hal). assert (0 < w).
      { unfold w. rewrite Z.quot_div_nonneg by lia. apply Z.div_str_pos. lia. }
      rewrite (proj2 (Z.eqb_neq w 0)) by lia. cbn [negb guard_b mbind option_bind].
      eexists. split; [done|]. rewrite Z.rem_mod_nonneg by lia.
      pose proof (Z.mod_le i w ltac:(lia) ltac:(lia)). lia.
    - eexists. split; [done|]. destruct (Z.ltb_spec (i - w + 1) 0); lia. }
  destruct Hlower as (lower & -> & Hl). cbn [mbind option_bind].
  destruct (Hdown lower Hl) as (start & -> & Hst & Hf1). cbn [mbind option_bind].
  set (up := if align_expanded_pieces options then lower + w else start + w).
  set (upper := if vsize pieces <? up then vsize pieces else up).
  assert (upper ≤ num_pieces s) by (unfold upper; destruct (Z.ltb_spec (vsize pieces) up); lia).
  destruct (expand_up_spec (Z.to_nat (upper - (i + 1))) (i + 1) upper) as (end_ & -> & He & Hr & Hf2);
    [lia|lia|].
  exists start, end_. split; [done|]. split; [lia|]. split; [lia|].
  intros k Hk. destruct (decide (k < i)); [apply Hf1; lia|].
  destruct (decide (k = i)) as [->|]; [apply Hself; lia|apply Hf2; lia].
Qed.

(** ** The blocks of a piece that is being downloaded *)

Lemma blocks_of_view i dp bs :
  view s i = Some (dp, bs) →
  ∃ sp, blocks_for_piece dp s = Some sp ∧ span_blocks sp s = Some bs.
Proof using Hok.
  intros Hv. pose proof (ck_queues _ (ok_core _ Hok)) as Hq. eexists.
  split; [exact (blocks_for_piece_view s Hq i dp bs Hv)|exact (span_blocks_view s i dp bs Hq Hv)].
Qed.
End picker.
End free.

(** ** The loops over the blocks of a piece *)

Lemma requested_loop_spec blocks pr idx ex exa c mx first ex' exa' c' mx' first' :
  requested_loop blocks pr idx ex exa c mx first = (ex', exa', c', mx', first') →
  0 ≤ c ≤ idx → 0 ≤ first → 0 ≤ mx → 0 ≤ c' ≤ idx + vsize blocks ∧ 0 ≤ first' ∧ 0 ≤ mx'.
Proof.
  revert idx ex exa c mx first. induction blocks as [|b blocks IH]; intros idx ex exa c mx first;
    cbn [requested_loop].
  { intros [= <- <- <- <- <-] Hc Hf Hm. change (vsize []) with 0. lia. }
  rewrite vsize_cons. pose proof (vsize_nonneg blocks). destruct (bool_decide _).
  - intros Hrun Hc Hf Hm. apply IH in Hrun; lia.
  - destruct (Z.ltb_spec mx c); intros Hrun Hc Hf Hm; apply IH in Hrun; lia.
Qed.

(** [b] is block [k] of piece [i], and it is open *)
Definition open_in (bs : list block_info) (i : Z) (b : piece_block) : Prop :=
  ∃ k x, b = PieceBlock i k ∧ bs⟦k⟧ = Some x ∧ bstate x = state_none.

Section loops.
Context (bs : list block_info) (i first : Z) (Hne : 0 < vsize bs) (Hfirst : 0 ≤ first).

Lemma rotated_block t :
  0 ≤ t → ∃ x, bs⟦Z.rem (t + first) (vsize bs)⟧ = Some x.
Proof using Hne Hfirst.
  intros Ht. apply vget_is_Some. rewrite Z.rem_mod_nonneg by lia. apply Z.mod_pos_bound. lia.
Qed.

(** every position is visited *)
Lemma rotated_onto k :
  0 ≤ k < vsize bs → ∃ t, 0 ≤ t < vsize bs ∧ Z.rem (t + first) (vsize bs) = k.
Proof using Hne Hfirst.
  intros Hk. exists ((k - first) mod vsize bs). pose proof (Z.mod_pos_bound (k - first) (vsize bs) Hne).
  split; [done|]. rewrite Z.rem_mod_nonneg by lia. rewrite Zplus_mod_idemp_l.
  replace (k - first + first) with k by lia. by apply Z.mod_small.
Qed.

Lemma pick_open_spec n j num prefer :
  0 ≤ j →
  ∃ l num' early, pick_open n bs i j first (vsize bs) num prefer = Some (l, num', early) ∧
    Forall (open_in bs i) l ∧ num' = num - vsize l ∧ (early = true → num' ≤ 0) ∧
    (prefer = 0 → 0 < num → 0 ≤ num') ∧
    (early = false → ∀ t x, j ≤ t < j + Z.of_nat n → bs⟦Z.rem (t + first) (vsize bs)⟧ = Some x →
       bstate x = state_none → PieceBlock i (Z.rem (t + first) (vsize bs)) ∈ l).
Proof using Hne Hfirst.
  revert j num prefer. induction n as [|n IH]; intros j num prefer Hj; cbn [pick_open].
  { exists [], num, false. split; [done|]. split; [done|]. change (vsize []) with 0.
    split; [lia|]. split; [done|]. split; [lia|]. intros _ t x Ht. lia. }
  destruct (rotated_block j Hj) as [x Hx]. rewrite Hx. cbn [mbind option_bind].
  destruct (bool_decide (bstate x = state_none)) eqn:Hb; cbn [negb].
  2: { apply bool_decide_eq_false in Hb.
    destruct (IH (j + 1) num prefer) as (l & num' & early & -> & H1 & H2 & H3 & H4 & H5); [lia|].
    exists l, num', early. split; [done|]. split; [done|]. split; [done|]. split; [done|].
    split; [done|]. intros He t y Ht Hy Hn. destruct (decide (t = j)) as [->|]; [congruence|].
    apply (H5 He t y); [lia|done|done]. }
  apply bool_decide_eq_true in Hb.
  destruct (negb (0 <? prefer) && (num - 1 <=? 0)) eqn:Hstop.
  { apply andb_true_iff in Hstop as [_ Hs%Z.leb_le]. eexists _, _, true. split; [done|].
    split; [constructor; [by exists (Z.rem (j + first) (vsize bs)), x|done]|].
    split; [done|]. split; [done|]. split; [lia|done]. }
  destruct (IH (j + 1) (num - 1) (if 0 <? prefer then prefer - 1 else prefer))
    as (l & num' & early & -> & H1 & H2 & H3 & H4 & H5); [lia|].
  cbn [mbind option_bind]. eexists _, _, early. split; [done|].
  split; [constructor; [by exists (Z.rem (j + first) (vsize bs)), x|done]|].
  rewrite vsize_cons. split; [lia|]. split; [done|]. split.
  { intros -> Hn. apply H4; [done|]. cbn in Hstop. apply Z.leb_gt in Hstop. lia. }
  intros He t y Ht Hy Hn. destruct (decide (t = j)) as [->|]; [left|right].
  apply (H5 He t y); [lia|done|done].
Qed.

Lemma open_blocks_spec n j :
  0 ≤ j →
  ∃ l, open_blocks n bs i j first (vsize bs) = Some l ∧ Forall (open_in bs i) l ∧
    (∀ t x, j ≤ t < j + Z.of_nat n → bs⟦Z.rem (t + first) (vsize bs)⟧ = Some x →
       bstate x = state_none → PieceBlock i (Z.rem (t + first) (vsize bs)) ∈ l).
Proof using Hne Hfirst.
  revert j. induction n as [|n IH]; intros j Hj; cbn [open_blocks].
  { exists []. split; [done|]. split; [done|]. intros t x Ht. lia. }
  destruct (rotated_block j Hj) as [x Hx]. rewrite Hx. cbn [mbind option_bind].
  destruct (IH (j + 1)) as (l & -> & H1 & H2); [lia|]. cbn [mbind option_bind].
  eexists. split; [done|]. destruct (bool_decide (bstate x = state_none)) eqn:Hb; cbn [negb].
  - apply bool_decide_eq_true in Hb.
    split; [constructor; [by exists (Z.rem (j + first) (vsize bs)), x|done]|].
    intros t y Ht Hy Hn. destruct (decide (t = j)) as [->|]; [left|right].
    apply (H2 t y); [lia|done|done].
  - apply bool_decide_eq_false in Hb. split; [done|].
    intros t y Ht Hy Hn. destruct (decide (t = j)) as [->|]; [congruence|].
    apply (H2 t y); [lia|done|done].
Qed.
End loops.

Lemma push_blocks_spec stop n k j num prefer l num' prefer' :
  push_blocks stop n k j num prefer = (l, num', prefer') →
  num' = num - vsize l ∧ prefer' = prefer - vsize l ∧ ((0 < n)%nat → 0 < vsize l) ∧
  Forall (λ b, ∃ t, b = PieceBlock k t ∧ j ≤ t < j + Z.of_nat n) l ∧
  ((∀ a b, stop a b = true → a ≤ 0) →
   num' ≤ 0 ∨ ∀ t, j ≤ t < j + Z.of_nat n → PieceBlock k t ∈ l).
Proof.
  revert j num prefer l num' prefer'. induction n as [|n IH]; intros j num prefer l num' prefer';
    cbn [push_blocks].
  { intros [= <- <- <-]. change (vsize []) with 0. split; [lia|]. split; [lia|]. split; [lia|].
    split; [done|]. intros _. right. intros t. lia. }
  destruct (stop _ _) eqn:Hstop.
  { intros [= <- <- <-]. change (vsize [_]) with 1. split; [lia|]. split; [lia|]. split; [lia|].
    split; [constructor; [exists j; split; [done|lia]|done]|]. intros Hs. left. by eapply Hs. }
  destruct (push_blocks stop n k (j + 1) (num - 1) (prefer - 1)) as [[l1 n1] p1] eqn:Hrec.
  intros [= <- <- <-]. apply IH in Hrec as (-> & -> & _ & Hall & Hcov). rewrite vsize_cons.
  pose proof (vsize_nonneg l1). split; [lia|]. split; [lia|]. split; [lia|]. split.
  - constructor; [exists j; split; [done|lia]|]. eapply Forall_impl; [|exact Hall].
    intros b (t & -> & Ht). exists t. split; [done|lia].
  - intros Hs. destruct (Hcov Hs) as [H1|H1]; [left; lia|right]. intros t Ht.
    destruct (decide (t = j)) as [->|]; [left|right]. apply H1. lia.
Qed.

Lemma push_pieces_spec stop (size : Z → Z) n k num prefer l num' prefer' :
  push_pieces stop size n k num prefer = (l, num', prefer') → (∀ t, 0 < size t) →
  num' = num - vsize l ∧ ((0 < n)%nat → 0 < vsize l) ∧
  Forall (λ b, ∃ t j, b = PieceBlock t j ∧ k ≤ t < k + Z.of_nat n ∧ 0 ≤ j < size t) l ∧
  ((∀ a b, stop a b = true → a ≤ 0) →
   num' ≤ 0 ∨ ∀ t j, k ≤ t < k + Z.of_nat n → 0 ≤ j < size t → PieceBlock t j ∈ l).
Proof.
  intros Hrun Hpos. revert k num prefer l num' prefer' Hrun.
  induction n as [|n IH]; intros k num prefer l num' prefer'; cbn [push_pieces].
  { intros [= <- <- <-]. change (vsize []) with 0. split; [lia|]. split; [lia|]. split; [done|].
    intros _. right. intros t j. lia. }
  destruct (push_blocks _ _ _ _ _ _) as [[l1 n1] p1] eqn:H1.
  destruct (push_pieces _ _ _ _ _ _) as [[l2 n2] p2] eqn:H2. intros [= <- <- <-].
  apply push_blocks_spec in H1 as (-> & -> & Hne & Hall1 & Hcov1).
  apply IH in H2 as (-> & _ & Hall2 & Hcov2). specialize (Hpos k).
  assert (0 < vsize l1) by (apply Hne; lia). pose proof (vsize_nonneg l2). rewrite vsize_app.
  split; [lia|]. split; [lia|]. split.
  - apply Forall_app. split.
    + eapply Forall_impl; [|exact Hall1]. intros b (t & -> & Ht). exists k, t. split; [done|]. lia.
    + eapply Forall_impl; [|exact Hall2]. intros b (t & j & -> & Ht & Hj). exists t, j.
      split; [done|]. lia.
  - intros Hs. destruct (Hcov1 Hs) as [|C1]; [left; lia|].
    destruct (Hcov2 Hs) as [|C2]; [by left|right]. intros t j Ht Hj. apply elem_of_app.
    destruct (decide (t = k)) as [->|]; [left; apply C1; lia|right; apply C2; lia].
Qed.

Section grow.
Context {R : StdRandom} {Rok : StdRandomOk R}.

(** ** What has been picked *)

(** free blocks are added to the picks and to the second backup; the number of
    wanted blocks falls by at most as many as were picked, and by exactly as
    many when contiguous blocks are not preferred *)
Definition grows (pieces : bitfield) (s : picker) (prefer : Z) (st st' : pick_state) : Prop :=
  ∃ a c, interesting_blocks st' = interesting_blocks st ++ a ∧
    backup_blocks st' = backup_blocks st ∧
    backup_blocks2 st' = backup_blocks2 st ++ c ∧
    Forall (free_pick pieces s) a ∧ Forall (free_pick pieces s) c ∧
    num_blocks st' ≤ num_blocks st ≤ num_blocks st' + vsize a ∧
    (prefer = 0 → 0 ≤ num_blocks st →
       num_blocks st' + vsize a = num_blocks st ∧ 0 ≤ num_blocks st').

(** nothing is missing of the blocks of piece [i] *)
Definition covers (s : picker) (st : pick_state) (i : Z) : Prop :=
  ∀ j, free_in s i j →
    PieceBlock i j ∈ interesting_blocks st ∨ PieceBlock i j ∈ backup_blocks2 st.

(** enough blocks are picked, those of the second backup included *)
Definition enough (st : pick_state) : Prop :=
  num_blocks st ≤ 0 ∨ num_blocks st ≤ vsize (backup_blocks2 st).

Lemma grows_refl pieces s prefer st : grows pieces s prefer st st.
Proof.
  exists [], []. rewrite !app_nil_r. repeat split; try done; change (vsize []) with 0; lia.
Qed.

Lemma grows_trans pieces s prefer st1 st2 st3 :
  grows pieces s prefer st1 st2 → grows pieces s prefer st2 st3 → grows pieces s prefer st1 st3.
Proof.
  intros (a & c & A1 & A2 & A3 & A4 & A5 & A6 & A7) (a' & c' & B1 & B2 & B3 & B4 & B5 & B6 & B7).
  exists (a ++ a'), (c ++ c'). rewrite B1, B2, B3, A1, A2, A3, !(assoc_L (++)), !Forall_app, vsize_app.
  repeat split; try done; try lia.
Qed.

(** the flags and counters do not matter *)
Lemma grows_flag pieces s prefer st st' f : grows pieces s prefer (with_flag st f) st' ↔ grows pieces s prefer st st'.
Proof. done. Qed.

Lemma grows_counters pieces s prefer st st' l :
  grows pieces s prefer (with_counters st l) st' ↔ grows pieces s prefer st st'.
Proof. done. Qed.

Lemma enough_grows pieces s prefer st st' : grows pieces s prefer st st' → enough st → enough st'.
Proof.
  intros (a & c & _ & _ & H & _ & _ & Hn & _) He. unfold enough in *. rewrite H, vsize_app.
  pose proof (vsize_nonneg c). lia.
Qed.

Lemma covers_grows pieces s prefer st st' i :
  grows pieces s prefer st st' → enough st ∨ covers s st i → enough st' ∨ covers s st' i.
Proof.
  intros Hg [He|Hc]; [left; by eapply enough_grows|right].
  destruct Hg as (a & c & H1 & _ & H2 & _). intros j Hj. rewrite H1, H2, !elem_of_app.
  destruct (Hc j Hj); auto.
Qed.

(** blocks are picked *)
Lemma grows_pick pieces s prefer st l num :
  Forall (free_pick pieces s) l → num ≤ num_blocks st ≤ num + vsize l →
  (prefer = 0 → 0 ≤ num_blocks st → num + vsize l = num_blocks st ∧ 0 ≤ num) →
  grows pieces s prefer st (with_num_blocks (with_interesting st (interesting_blocks st ++ l)) num).
Proof.
  intros Hl Hn He. exists l, []. rewrite app_nil_r. repeat split; try done; cbn; try lia; by apply He.
Qed.

Section picker.
Context (pieces : bitfield) (s : picker) (Hok : picker_ok s).
Context (Hsize : vsize pieces = num_pieces s).

(** ** [add_blocks_downloading] *)

Lemma requested_from_spec i dp bs pr :
  view s i = Some (dp, bs) →
  ∃ ex exa c first, requested_from dp (blocks_in_piece i s) pr s = Some (ex, exa, c, first) ∧
    0 ≤ first ∧ 0 ≤ c.
Proof using Hok.
  intros Hv. destruct (blocks_of_view s Hok i dp bs Hv) as (sp & Hsp & Hbs).
  unfold requested_from. rewrite Hsp. cbn [mbind option_bind]. rewrite Hbs. cbn [mbind option_bind].
  destruct (requested_loop bs pr 0 true true 0 0 0) as [[[[ex exa] c] mx] first] eqn:Hrun.
  apply requested_loop_spec in Hrun as (Hc & Hf & Hm); [|lia..].
  rewrite (view_size s (ck_queues _ (ok_core _ Hok)) i dp bs Hv) in Hc.
  destruct (mx <? c); do 4 eexists; (split; [done|lia]).
Qed.

Lemma open_in_free i dp bs b :
  view s i = Some (dp, bs) → usable pieces s i → open_in bs i b → free_pick pieces s b.
Proof using Hok.
  intros Hv Hu (k & x & -> & Hk & Hx). split; [done|]. cbn [piece_index block_index]. split.
  - rewrite <-(view_size s (ck_queues _ (ok_core _ Hok)) i dp bs Hv). by eapply vget_Some_range.
  - right. by rewrite (block_at_view s i dp bs k x Hv Hk).
Qed.

Lemma open_all_covers i dp bs (l : list piece_block) st first :
  view s i = Some (dp, bs) → 0 ≤ first →
  (∀ t x, 0 ≤ t < 0 + Z.of_nat (Z.to_nat (vsize bs)) →
     bs⟦Z.rem (t + first) (vsize bs)⟧ = Some x → bstate x = state_none →
     PieceBlock i (Z.rem (t + first) (vsize bs)) ∈ l) →
  (∀ b, b ∈ l → b ∈ interesting_blocks st ∨ b ∈ backup_blocks2 st) → covers s st i.
Proof using Hok.
  intros Hv Hf Hl Hst j [Hj Hfree]. apply Hst.
  rewrite <-(view_size s (ck_queues _ (ok_core _ Hok)) i dp bs Hv) in Hj.
  destruct Hfree as [|Hfree]; [congruence|]. destruct (vget_is_Some bs j Hj) as [x Hx].
  rewrite (block_at_view s i dp bs j x Hv Hx) in Hfree.
  destruct (rotated_onto bs first ltac:(lia) Hf j Hj) as (t & Ht & <-).
  apply (Hl t x); [lia|done|done].
Qed.

Lemma add_blocks_downloading_spec i dp bs prefer pr options st :
  view s i = Some (dp, bs) → usable pieces s i → 0 < num_blocks st →
  ∃ st', add_blocks_downloading dp pieces prefer pr options st s = Some st' ∧
    grows pieces s prefer st st' ∧
    (on_parole options = false → locked dp = false → enough st' ∨ covers s st' i).
Proof using Hok.
  intros Hv Hu Hnum. pose proof (ck_queues _ (ok_core _ Hok)) as Hq.
  assert (Hkeep : ∃ st', Some st = Some st' ∧ grows pieces s prefer st st').
  { exists st. split; [done|apply grows_refl]. }
  pose proof (view_size s Hq i dp bs Hv) as Hbs.
  pose proof (blocks_in_piece_range i s (qs_sizes s Hq)).
  unfold add_blocks_downloading. rewrite (view_index s Hq i dp bs Hv), (proj1 Hu).
  cbn [mbind option_bind negb]. destruct (locked dp).
  { destruct Hkeep as (st' & H1 & H2). by exists st'. }
  destruct (requested_from_spec i dp bs pr Hv) as (ex & exa & c & first & -> & Hf & _).
  cbn [mbind option_bind]. destruct (on_parole options && negb ex) eqn:Hparole.
  { apply andb_true_iff in Hparole as [Hp _]. destruct Hkeep as (st' & H1 & H2).
    exists st'. rewrite Hp. done. }
  clear Hparole.
  destruct (blocks_of_view s Hok i dp bs Hv) as (sp & -> & Hspan). cbn [mbind option_bind].
  rewrite Hspan. cbn [mbind option_bind]. rewrite <-Hbs.
  set (first' := if prefer =? 0 then 0 else first).
  assert (Hf' : 0 ≤ first') by (unfold first'; destruct (prefer =? 0); lia).
  destruct ((c <? prefer) && negb exa && negb (on_parole options)) eqn:Hbackup.
  - destruct (Z.leb_spec (num_blocks st) (vsize (backup_blocks2 st))).
    { destruct Hkeep as (st' & H1 & H2). exists st'. split; [done|]. split; [done|].
      intros _ _. left. right. injection H1 as <-. done. }
    destruct (open_blocks_spec bs i first' ltac:(lia) Hf' (Z.to_nat (vsize bs)) 0)
      as (l & -> & Hall & Hcov); [lia|]. cbn [mbind option_bind].
    eexists. split; [done|]. split.
    + exists [], l. rewrite app_nil_r. cbn. repeat split; try done; [|change (vsize []) with 0; lia..].
      eapply Forall_impl; [|exact Hall]. intros b. by apply (open_in_free i dp bs).
    + intros _ _. right. eapply (open_all_covers i dp bs l); [done|exact Hf'|exact Hcov|].
      intros b Hb. right. cbn. apply elem_of_app. by right.
  - destruct (pick_open_spec bs i first' ltac:(lia) Hf' (Z.to_nat (vsize bs)) 0 (num_blocks st) prefer)
      as (l & num & early & -> & Hall & -> & Hearly & Hexact & Hcov); [lia|].
    cbn [mbind option_bind]. eexists. split; [done|]. pose proof (vsize_nonneg l).
    assert (Hn : (if early || (num_blocks st - vsize l <=? 0) then 0 else num_blocks st - vsize l)
                 = Z.max 0 (num_blocks st - vsize l)).
    { destruct early; cbn [orb]; [specialize (Hearly eq_refl); lia|].
      destruct (Z.leb_spec (num_blocks st - vsize l) 0); lia. }
    rewrite Hn. split.
    + apply grows_pick; [|lia|intros Hp _; specialize (Hexact Hp ltac:(lia)); lia].
      eapply Forall_impl; [|exact Hall]. intros b. by apply (open_in_free i dp bs).
    + intros _ _. destruct early; [left; left; cbn; specialize (Hearly eq_refl); lia|right].
      eapply (open_all_covers i dp bs l); [done|exact Hf'|by apply Hcov|].
      intros b Hb. left. cbn. apply elem_of_app. by right.
Qed.

(** ** [add_blocks] *)

(** nothing is free in a piece that is full or finished *)
Lemma full_covers i p dp bs st :
  piece_map i s = Some p → view s i = Some (dp, bs) → filtered p = false →
  download_queue p ≠ piece_downloading → covers s st i.
Proof using Hok.
  intros Hp Hv Hf Hq j [Hj Hfree]. destruct Hfree as [|Hfree]; [congruence|].
  pose proof (ck_queues _ (ok_core _ Hok)) as Hqs.
  assert (Hseen : seen s i = Some (norm p)) by (unfold seen; by rewrite Hp).
  destruct (ck_pieces _ (ok_core _ Hok) i _ _ _ Hseen Hv) as [_ Hc _ Hpq].
  change (download_queue (norm p)) with (download_queue p) in Hpq. rewrite Hpq in Hq.
  unfold proper_queue in Hq. rewrite filtered_norm, Hf in Hq.
  rewrite (counts_used dp bs Hc), (view_size s Hqs i dp bs Hv) in Hq.
  destruct (Z.ltb_spec (blocks_in_piece i s - count state_none bs) (blocks_in_piece i s)); [done|].
  rewrite <-(view_size s Hqs i dp bs Hv) in Hj. destruct (vget_is_Some bs j Hj) as [x Hx].
  rewrite (block_at_view s i dp bs j x Hv Hx) in Hfree.
  pose proof (count_pos state_none bs j x Hx Hfree). lia.
Qed.

(** the blocks from the first on *)
Lemma first_blocks_spec i n :
  usable pieces s i → view s i = None → n ≤ blocks_in_piece i s →
  let l := map (λ j, PieceBlock i (Z.of_nat j)) (seq 0 (Z.to_nat n)) in
  Forall (free_pick pieces s) l ∧ vsize l = Z.max 0 n ∧ ∀ j, 0 ≤ j < n → PieceBlock i j ∈ l.
Proof using.
  intros Hu Hv Hn l. split; [|split].
  - apply Forall_forall. intros b Hb. apply in_map_iff in Hb as (j & <- & Hj).
    apply in_seq in Hj. split; [done|]. split; [cbn; lia|by left].
  - unfold l, vsize. rewrite length_map, length_seq. lia.
  - intros j Hj. apply list_elem_of_In, in_map_iff. exists (Z.to_nat j). split; [f_equal; lia|].
    apply in_seq. lia.
Qed.

(** the blocks of a range of open pieces *)
Lemma fresh_range_free start end_ l :
  fresh_range pieces s start end_ →
  Forall (λ b, ∃ t j, b = PieceBlock t j ∧ start ≤ t < start + Z.of_nat (Z.to_nat (end_ - start)) ∧
    0 ≤ j < blocks_in_piece t s) l → Forall (free_pick pieces s) l.
Proof using.
  intros Hr Hl. eapply Forall_impl; [|exact Hl]. intros b (t & j & -> & Ht & Hj).
  destruct (Hr t ltac:(lia)) as [Hu Hv]. split; [done|]. split; [done|by left].
Qed.

Lemma push_range start end_ i stop num prefer l num' prefer' :
  push_pieces stop (λ k, blocks_in_piece k s) (Z.to_nat (end_ - start)) start num prefer
    = (l, num', prefer') →
  fresh_range pieces s start end_ → start ≤ i < end_ →
  Forall (free_pick pieces s) l ∧ num' = num - vsize l ∧ 0 < vsize l ∧
  ((∀ a b, stop a b = true → a ≤ 0) →
   num' ≤ 0 ∨ ∀ j, 0 ≤ j < blocks_in_piece i s → PieceBlock i j ∈ l).
Proof using Hok.
  intros Hrun Hr Hi. apply push_pieces_spec in Hrun as (-> & Hpos & Hall & Hcov).
  - split; [by eapply fresh_range_free|]. split; [done|]. split; [apply Hpos; lia|].
    intros Hs. destruct (Hcov Hs) as [|Hc]; [by left|right]. intros j Hj. apply Hc; [lia|done].
  - intros t. apply blocks_in_piece_range, (ck_queues _ (ok_core _ Hok)).
Qed.

Definition not_visited (ignore : list Z) (options : picker_options_t) (i : Z) : Prop :=
  i ∈ ignore ∨ on_parole options = true ∨ locked_at s i = true ∨
  prioritize_partials options = true ∧ view s i ≠ None.

Lemma add_blocks_open_spec i prefer options st :
  usable pieces s i → view s i = None → can_align options prefer → 0 < num_blocks st →
  ∃ st', (if prefer =? 0 then
      let n := Z.min (blocks_in_piece i s) (num_blocks st) in
      let l := map (λ j, PieceBlock i (Z.of_nat j)) (seq 0 (Z.to_nat n)) in
      let st := with_interesting st (interesting_blocks st ++ l) in
      Some (with_num_blocks st (Z.max (num_blocks st - n) 0))
    else
      '(start, end_) ← expand_piece i prefer pieces options s;
      let '(l, num, _) :=
        push_pieces stop_add (λ k, blocks_in_piece k s) (Z.to_nat (end_ - start)) start
          (num_blocks st) prefer in
      let st := with_interesting st (interesting_blocks st ++ l) in
      Some (with_num_blocks st (Z.max num 0))) = Some st' ∧
    grows pieces s prefer st st' ∧ (enough st' ∨ covers s st' i).
Proof using Hok Hsize.
  intros Hu Hv Ha Hnum. destruct (Z.eqb_spec prefer 0) as [->|Hp].
  - cbv zeta. eexists. split; [done|].
    set (n := Z.min (blocks_in_piece i s) (num_blocks st)).
    pose proof (blocks_in_piece_range i s (qs_sizes s (ck_queues _ (ok_core _ Hok)))).
    destruct (first_blocks_spec i n Hu Hv ltac:(lia)) as (Hall & Hlen & Hcov). split.
    + apply grows_pick; [done|cbn; lia|cbn; lia].
    + destruct (decide (num_blocks st ≤ blocks_in_piece i s)); [left; left; cbn; lia|right].
      intros j [Hj _]. left. cbn. apply elem_of_app. right. apply Hcov. lia.
  - destruct (expand_piece_spec pieces s Hok Hsize i prefer options Hu Hv Ha)
      as (start & end_ & -> & Hst & He & Hr). cbn [mbind option_bind].
    destruct (push_pieces _ _ _ _ _ _) as [[l num] pr'] eqn:Hrun.
    destruct (push_range start end_ i _ _ _ _ _ _ Hrun Hr ltac:(lia)) as (Hall & -> & Hpos & Hcov).
    eexists. split; [done|]. split; [apply grows_pick; [done|lia|done]|].
    destruct Hcov as [Hn|Hcov]; [|left; left; cbn; lia|].
    { intros a b [_ Hab%Z.leb_le]%andb_true_iff. done. }
    right. intros j [Hj _]. left. cbn. apply elem_of_app. right. by apply Hcov.
Qed.

Lemma add_blocks_spec i prefer pr ignore options st :
  usable pieces s i → can_align options prefer → 0 < num_blocks st →
  ∃ st', add_blocks i pieces prefer pr ignore options st s = Some st' ∧
    grows pieces s prefer st st' ∧
    (not_visited ignore options i ∨ enough st' ∨ covers s st' i).
Proof using Hok Hsize.
  intros Hu Ha Hnum. pose proof (usable_range pieces s Hsize i Hu) as Hi.
  destruct (piece_lookup pieces s Hsize i Hi) as (p & b & Hp & Hseen & Hb).
  pose proof (ck_queues _ (ok_core _ Hok)) as Hqs.
  assert (Hf : filtered p = false).
  { destruct Hu as (_ & q & Hq & _ & Hf). rewrite Hseen in Hq. injection Hq as <-.
    by rewrite filtered_norm in Hf. }
  unfold add_blocks. case_bool_decide as Hign.
  { exists st. split; [done|]. split; [apply grows_refl|]. left. by left. }
  rewrite Hp. cbn [mbind option_bind].
  destruct (view s i) as [[dp bs]|] eqn:Hv.
  2: { pose proof (proj1 (view_open s i p Hqs Hp) Hv) as Ho. rewrite Ho. cbn [negb andb].
    rewrite !bool_decide_eq_true_2, !bool_decide_eq_false_2 by done. cbn [negb andb].
    destruct (add_blocks_open_spec i prefer options st Hu Hv Ha Hnum) as (st' & H1 & H2 & H3).
    exists st'. split; [exact H1|]. auto. }
  assert (Ho : download_queue p ≠ piece_open).
  { intros Ho. apply (view_open s i p Hqs Hp) in Ho. congruence. }
  rewrite (bool_decide_eq_false_2 (_ = piece_open)) by done. cbn [negb andb].
  destruct (decide (download_queue p = piece_downloading)) as [Hd|Hd].
  2: { rewrite bool_decide_eq_false_2 by done. cbn [negb]. exists st. split; [done|].
    split; [apply grows_refl|]. right. right. by eapply full_covers. }
  rewrite bool_decide_eq_true_2 by done. cbn [negb].
  destruct (prioritize_partials options) eqn:Hprio.
  { exists st. split; [done|]. split; [apply grows_refl|]. left. right. right. right.
    split; [done|congruence]. }
  destruct (find_dl_piece_view s Hqs i dp bs Hv p Hp) as (it & Hit & Hat). rewrite Hd in Hit.
  rewrite Hit. cbn [mbind option_bind]. rewrite (deref_view s Hqs i dp bs Hv it Hat).
  cbn [mbind option_bind].
  destruct (add_blocks_downloading_spec i dp bs prefer pr options st Hv Hu Hnum)
    as (st' & H1 & H2 & H3).
  exists st'. split; [exact H1|]. split; [done|]. destruct (on_parole options) eqn:Hpar.
  { left. right. by left. }
  destruct (locked dp) eqn:Hl; [|right; by apply H3].
  left. right. right. left. unfold locked_at. by rewrite Hv.
Qed.
End picker.
End grow.
