(* ===== verification/PickerPhases.v ===== *)
(** The phases of [pick_pieces]: those that go through a list of pieces, the
    random one, and the pick of a busy block in the end game. A phase picks free
    blocks only, and leaves none of the pieces it visits unless it has found
    enough; the loops return. *)

From stdpp Require Import gmap.
From S2P Require Import Prelude.
From S2P Require Import Random.
From S2P Require Import PiecePicker.
From S2P Require Import PickerBuckets.
From S2P Require Import PickerState.
From S2P Require Import PickerOps.
From S2P Require Import PickerBlocks.
From S2P Require Import PickerPick.
From S2P Require Import PickerInv.
From S2P Require Import PickerAvail.
From S2P Require Import PickerDls.
From S2P Require Import PickerSteps.
From S2P Require Import PickerCore.
From S2P Require Import PickerMarks.
From S2P Require Import PickerHave.
From S2P Require Import PickerLost.
From S2P Require Import PickerStart.
From S2P Require Import PickerQueries.
From S2P Require Import PickerGrow.

Open Scope Z_scope.

Section phases.
Context {R : StdRandom} {Rok : StdRandomOk R}.

(** the phase has looked at piece [i], has found enough, or had to skip it *)
Definition visited (s : picker) (ignore : list Z) (options : picker_options_t)
    (st : pick_state) (i : Z) : Prop :=
  not_visited s ignore options i ∨ enough st ∨ covers s st i.

Lemma visited_grows pieces s prefer st st' ignore options i :
  grows pieces s prefer st st' → visited s ignore options st i → visited s ignore options st' i.
Proof. intros Hg [Hn|Hv]; [by left|right]. by eapply covers_grows. Qed.

(** what a loop returns: the picks, and whether there are enough *)
Definition phase_done (pieces : bitfield) (s : picker) (prefer : Z) (st st' : pick_state)
    (done : bool) : Prop :=
  grows pieces s prefer st st' ∧ done = (num_blocks st' <=? 0).

Lemma phase_trans pieces s prefer st1 st2 st3 d :
  grows pieces s prefer st1 st2 → phase_done pieces s prefer st2 st3 d →
  phase_done pieces s prefer st1 st3 d.
Proof. intros Hg [Hg' Hd]. split; [by eapply grows_trans|done]. Qed.

Lemma phase_refl pieces s prefer st :
  0 < num_blocks st → phase_done pieces s prefer st st false.
Proof. intros Hn. split; [apply grows_refl|]. symmetry. apply Z.leb_gt. lia. Qed.

Section picker.
Context (pieces : bitfield) (s : picker) (Hok : picker_ok s).
Context (Hsize : vsize pieces = num_pieces s).

(** ** A list of pieces *)

Lemma pick_list_spec l check flag prefer pr ignore options st :
  (∀ i, i ∈ l → 0 ≤ i < num_pieces s ∧ ∃ v cs, check i s = Some (v, cs)) →
  can_align options prefer → 0 < num_blocks st →
  ∃ st' done, pick_list l check flag pieces prefer pr ignore options st s = Some (st', done) ∧
    phase_done pieces s prefer st st' done ∧
    ((∀ i, i ∈ l → ∃ cs, check i s = Some (consider, cs)) →
     ∀ i, i ∈ l → usable pieces s i → visited s ignore options st' i).
Proof using Hok Hsize.
  intros Hl Ha. revert st. induction l as [|i l IH]; intros st Hnum; cbn [pick_list].
  { exists st, false. split; [done|]. split; [by apply phase_refl|]. intros _ i Hi. by apply not_elem_of_nil in Hi. }
  destruct (Hl i ltac:(left)) as (Hi & v & cs & Hcheck). rewrite Hcheck. cbn [mbind option_bind].
  assert (IH' : ∀ st, 0 < num_blocks st → _) by (apply IH; intros; apply Hl; by right). clear IH.
  set (st1 := with_counters st cs). assert (Hg1 : ∀ st', grows pieces s prefer st1 st' → grows pieces s prefer st st') by done.
  assert (Hskip : ¬ usable pieces s i ∨ v = skip →
    ∃ st' done, pick_list l check flag pieces prefer pr ignore options st1 s = Some (st', done) ∧
    phase_done pieces s prefer st st' done ∧
    ((∀ k, k ∈ i :: l → ∃ cs, check k s = Some (consider, cs)) →
     ∀ k, k ∈ i :: l → usable pieces s k → visited s ignore options st' k)).
  { intros Hnot. destruct (IH' st1 Hnum) as (st' & done & Hrun & [Hg Hd] & Hcov).
    exists st', done. split; [exact Hrun|]. split; [split; [by apply Hg1|exact Hd]|].
    intros Hall k [->|Hk]%elem_of_cons Hu.
    - destruct Hnot as [|Hv]; [done|]. destruct (Hall i ltac:(left)) as [cs' Hc]. congruence.
    - apply Hcov; [|done|done]. intros k' Hk'. apply Hall. by right. }
  destruct v; [|by apply Hskip; right|].
  2: { exists st1, false. split; [done|].
    split; [split; [apply Hg1, grows_refl|symmetry; apply Z.leb_gt; exact Hnum]|].
    intros Hall. destruct (Hall i ltac:(left)) as [cs' Hc]. congruence. }
  destruct (is_piece_free_spec pieces s Hsize i Hi) as (b & -> & Hb). cbn [mbind option_bind].
  destruct b; cbn [negb].
  2: { apply Hskip. left. intros Hu. by apply Hb in Hu. }
  assert (Hu : usable pieces s i) by by apply Hb.
  destruct (add_blocks_spec pieces s Hok Hsize i prefer pr ignore options (with_flag st1 flag) Hu Ha Hnum)
    as (st2 & -> & Hg2 & Hcov2). cbn [mbind option_bind].
  destruct (Z.leb_spec (num_blocks st2) 0) as [Hle|Hgt].
  { exists st2, true. split; [done|]. split; [split; [done|symmetry; by apply Z.leb_le]|].
    intros _ k _ _. right. left. by left. }
  destruct (IH' st2 Hgt) as (st' & done & -> & Hp & Hcov). exists st', done. split; [done|].
  split; [by eapply phase_trans|]. intros Hall k [->|Hk]%elem_of_cons Huk.
  - eapply visited_grows; [apply Hp|]. exact Hcov2.
  - apply Hcov; [|done|done]. intros k' Hk'. apply Hall. by right.
Qed.

(** ** Partial pieces *)

Lemma too_low_spec options i : 0 ≤ i < num_pieces s → ∃ b, too_low options i s = Some b ∧
  (time_critical_mode options = false → b = false).
Proof using Hsize.
  intros Hi. unfold too_low, piece_priority_of. destruct (time_critical_mode options).
  - destruct (piece_lookup pieces s Hsize i Hi) as (p & _ & -> & _). cbn. by eexists.
  - by exists false.
Qed.

Definition recorded (dp : downloading_piece) : Prop :=
  0 ≤ dp_index dp < num_pieces s ∧ ∃ bs, view s (dp_index dp) = Some (dp, bs).

Lemma queue_recorded c v dp :
  c ≠ piece_open → queue (queue_number c) s = Some v → dp ∈ v →
  recorded dp ∧ ∃ p, seen s (dp_index dp) = Some (norm p) ∧ queue_number (download_queue p) = queue_number c.
Proof using Hok.
  intros Hc Hq Hdp. pose proof (ck_queues _ (ok_core _ Hok)) as Hqs. pose proof (qs_dls s Hqs) as Hd.
  destruct (dk_state _ _ _ Hd _ v dp Hq Hdp) as (c' & Hst & Hn).
  unfold queue_of in Hst. apply fmap_Some in Hst as (p & Hp & ->).
  assert (Hi : 0 ≤ dp_index dp < num_pieces s) by by eapply vget_Some_range.
  assert (Hin : dp ∈ all_dps (dls s)) by (apply elem_of_all_dps; eauto).
  split.
  - split; [done|]. unfold view, view_of.
    rewrite (proj2 (record_of_spec _ _ _ Hd _ _) (conj Hin eq_refl)). by eexists.
  - exists p. split; [|done]. unfold seen, piece_map. change (m_piece_map (lay s)) with (PickerAvail.pieces s).
    by rewrite Hp.
Qed.

(** the picks so far, of [n] blocks that are wanted *)
Record progress (n prefer : Z) (st : pick_state) : Prop := {
  pg_free : Forall (free_pick pieces s) (interesting_blocks st);
  pg_backup2 : Forall (free_pick pieces s) (backup_blocks2 st);
  pg_backup : backup_blocks st = [];
  pg_count : n ≤ vsize (interesting_blocks st) + num_blocks st;
  pg_exact : prefer = 0 → vsize (interesting_blocks st) + num_blocks st = n ∧ 0 ≤ num_blocks st
}.

Lemma progress_grows n prefer st st' :
  progress n prefer st → grows pieces s prefer st st' → progress n prefer st'.
Proof using.
  intros [P1 P2 P3 P4 P5] (a & c & H1 & H2 & H3 & H4 & H5 & H6 & H7).
  split; rewrite ?H1, ?H2, ?H3, ?vsize_app; [by apply Forall_app|by apply Forall_app|done|lia|].
  intros Hp. destruct (P5 Hp) as [P6 P7]. destruct (H7 Hp P7). lia.
Qed.

(** there is nothing left to pick in piece [i], or enough *)
Definition exhausted (options : picker_options_t) (st : pick_state) (i : Z) : Prop :=
  on_parole options = true ∨ locked_at s i = true ∨ enough st ∨ covers s st i.

Lemma exhausted_grows prefer st st' options i :
  grows pieces s prefer st st' → exhausted options st i → exhausted options st' i.
Proof using. intros Hg [|[|Hv]]; [by left|right; by left|right; right]. by eapply covers_grows. Qed.

Lemma visited_exhausted ignore options st i :
  visited s ignore options st i →
  i ∈ ignore ∨ (prioritize_partials options = true ∧ view s i ≠ None) ∨ exhausted options st i.
Proof using. unfold visited, not_visited, exhausted. tauto. Qed.

(** ** The backups *)

Lemma append_backup_nil st : backup_blocks st = [] → append_backup st = st.
Proof using. destruct st as [l b b2 n r c]. cbn. by intros ->. Qed.

Lemma append_backup2_spec n prefer st :
  progress n prefer st → 0 < num_blocks st →
  progress n prefer (append_backup2 st) ∧
  (0 < num_blocks (append_backup2 st) → backup_blocks2 (append_backup2 st) = []) ∧
  ∀ options i, exhausted options st i → exhausted options (append_backup2 st) i.
Proof using.
  intros [P1 P2 P3 P4 P5] Hn. destruct st as [l b b2 num r c]. cbn in *.
  unfold append_backup2. cbn [interesting_blocks backup_blocks backup_blocks2 num_blocks ret pc].
  destruct b2 as [|x b2']; [split; [by split|]; split; [done|done]|].
  set (b2 := x :: b2') in *. pose proof (vsize_nonneg b2) as Hb2. cbn [append_blocks].
  change (append_blocks l b2 num) with
    (l ++ take (Z.to_nat (Z.min (vsize b2) num)) b2, drop (Z.to_nat (Z.min (vsize b2) num)) b2,
     num - Z.min (vsize b2) num).
  set (k := Z.min (vsize b2) num).
  assert (Hk : vsize (take (Z.to_nat k) b2) = k) by (unfold vsize in *; rewrite length_take; lia).
  assert (Hall : 0 < num - k → take (Z.to_nat k) b2 = b2 ∧ drop (Z.to_nat k) b2 = []).
  { intros Hlt. assert (Z.to_nat k = length b2) as -> by (unfold vsize in *; lia).
    by rewrite firstn_all, drop_all. }
  split; [split; cbn|split; cbn].
  - apply Forall_app. split; [done|]. by apply Forall_take.
  - by apply Forall_drop.
  - done.
  - rewrite vsize_app, Hk. lia.
  - rewrite vsize_app, Hk. lia.
  - intros Hlt. by apply Hall.
  - intros options i [|[|[He|Hc]]]; [by left|right; by left| |]; right; right.
    + left. left. unfold enough in He. cbn in *. lia.
    + destruct (decide (num - k ≤ 0)); [left; left; cbn; lia|right].
      destruct (Hall ltac:(lia)) as [Ht _]. intros j Hj. cbn. rewrite Ht. left. apply elem_of_app.
      apply Hc in Hj. cbn in Hj. done.
Qed.

(** ** Partial pieces *)

Lemma eligible_partials_spec l options :
  (∀ dp, dp ∈ l → recorded dp) →
  ∃ l', eligible_partials l pieces options s = Some l' ∧
    (∀ dp, dp ∈ l' → dp ∈ l ∧ usable pieces s (dp_index dp)) ∧
    (time_critical_mode options = false →
     ∀ dp, dp ∈ l → usable pieces s (dp_index dp) → dp ∈ l').
Proof using Hok Hsize Rok.
  induction l as [|dp l IH]; intros Hl; cbn [eligible_partials].
  { exists []. split; [done|]. split; intros; set_solver. }
  destruct (Hl dp ltac:(left)) as [Hi _].
  destruct (too_low_spec options _ Hi) as (low & -> & Hlow). cbn [mbind option_bind].
  assert (Hfree : ∃ f, (if low then Some false else is_piece_free (dp_index dp) pieces s) = Some f ∧
    (f = true → usable pieces s (dp_index dp)) ∧
    (time_critical_mode options = false → usable pieces s (dp_index dp) → f = true)).
  { destruct (is_piece_free_spec pieces s Hsize _ Hi) as (f & Hf & Hiff). destruct low.
    - exists false. split; [done|]. split; [done|]. intros Ht. by specialize (Hlow Ht).
    - exists f. split; [done|]. split; [apply Hiff|]. intros _. apply Hiff. }
  destruct Hfree as (f & -> & Hf1 & Hf2). cbn [mbind option_bind].
  destruct IH as (l' & -> & H1 & H2); [intros; apply Hl; by right|]. cbn [mbind option_bind].
  eexists. split; [done|]. destruct f; split.
  - intros d [->|Hd]%elem_of_cons; [split; [left|by apply Hf1]|]. destruct (H1 d Hd). split; [by right|done].
  - intros Ht d [->|Hd]%elem_of_cons Hu; [left|right]. by apply H2.
  - intros d Hd. destruct (H1 d Hd). split; [by right|done].
  - intros Ht d [->|Hd]%elem_of_cons Hu; [by specialize (Hf2 Ht Hu)|]. by apply H2.
Qed.

Lemma pick_partials_spec l prefer pr options st :
  (∀ dp, dp ∈ l → recorded dp ∧ usable pieces s (dp_index dp)) →
  0 < num_blocks st →
  ∃ st' done, pick_partials l pieces prefer pr options st s = Some (st', done) ∧
    phase_done pieces s prefer st st' done ∧
    ∀ dp, dp ∈ l → exhausted options st' (dp_index dp).
Proof using Hok Hsize.
  revert st. induction l as [|dp l IH]; intros st Hl Hnum; cbn [pick_partials].
  { exists st, false. split; [done|]. split; [by apply phase_refl|]. intros dp Hi. by apply not_elem_of_nil in Hi. }
  destruct (Hl dp ltac:(left)) as [[Hi [bs Hv]] Hu].
  destruct (add_blocks_downloading_spec pieces s Hok _ dp bs prefer pr options
    (with_flag st flag_prioritize_partials) Hv Hu Hnum) as (st2 & -> & Hg2 & Hcov2).
  cbn [mbind option_bind].
  assert (Hex : exhausted options st2 (dp_index dp)).
  { unfold exhausted. destruct (on_parole options); [by left|right].
    assert (Hl2 : locked_at s (dp_index dp) = locked dp) by (unfold locked_at; by rewrite Hv).
    rewrite Hl2. destruct (locked dp); [by left|right]. by apply Hcov2. }
  destruct (Z.leb_spec (num_blocks st2) 0) as [Hle|Hgt].
  { exists st2, true. split; [done|]. split; [split; [done|symmetry; by apply Z.leb_le]|].
    intros d _. right. right. left. by left. }
  destruct ((num_blocks st2 <=? vsize (backup_blocks st2)) &&
            (num_blocks st2 <=? vsize (backup_blocks2 st2))) eqn:Hbr.
  { apply andb_true_iff in Hbr as [_ Hb%Z.leb_le]. exists st2, false. split; [done|].
    split; [split; [done|symmetry; apply Z.leb_gt; lia]|].
    intros d _. right. right. left. by right. }
  destruct (IH st2) as (st' & fin & -> & Hp & Hcov); [intros; apply Hl; by right|lia|].
  exists st', fin. split; [done|]. split; [by eapply phase_trans|].
  intros d [->|Hd]%elem_of_cons; [|by apply Hcov]. eapply exhausted_grows; [apply Hp|done].
Qed.
End picker.
End phases.

Section random.
Context {R : StdRandom} {Rok : StdRandomOk R}.

Lemma grows_weaken pieces s prefer prefer0 st st' :
  (prefer0 = 0 → prefer = 0) → grows pieces s prefer st st' → grows pieces s prefer0 st st'.
Proof. intros Hp (a & c & H1 & H2 & H3 & H4 & H5 & H6 & H7). exists a, c. split_and!; try done; try lia; auto. Qed.

Lemma set_rng_same s : set_rng (rng s) s = s.
Proof. by destruct s. Qed.

Section picker.
Context (pieces : bitfield) (s : picker) (Hok : picker_ok s).
Context (Hsize : vsize pieces = num_pieces s).

(** ** Going round the pieces *)

(** the steps from piece [i] to the piece where the search started *)
Definition steps_to (start i : Z) : Z := if i <? start then start - i else start - i + num_pieces s.

Lemma steps_range start i :
  0 ≤ start < num_pieces s → 0 ≤ i < num_pieces s → 1 ≤ steps_to start i ≤ num_pieces s.
Proof using. intros. unfold steps_to. destruct (Z.ltb_spec i start); lia. Qed.

Lemma steps_wrap start i :
  0 ≤ start < num_pieces s → 0 ≤ i < num_pieces s → wrap (i + 1) s ≠ start →
  0 ≤ wrap (i + 1) s < num_pieces s ∧ steps_to start (wrap (i + 1) s) = steps_to start i - 1.
Proof using.
  intros H1 H2. unfold wrap, steps_to. destruct (Z.eqb_spec (i + 1) (num_pieces s)).
  - intros H. destruct (Z.ltb_spec 0 start), (Z.ltb_spec i start); lia.
  - intros H. destruct (Z.ltb_spec (i + 1) start), (Z.ltb_spec i start); lia.
Qed.

Lemma wrap_range i : 0 ≤ i ≤ num_pieces s → 0 < num_pieces s → 0 ≤ wrap i s < num_pieces s.
Proof using. intros. unfold wrap. destruct (Z.eqb_spec i (num_pieces s)); lia. Qed.

Lemma next_free_spec fuel i start suggested st :
  0 ≤ start < num_pieces s → 0 ≤ i < num_pieces s → steps_to start i < Z.of_nat fuel →
  ∃ cs next, next_free fuel i start pieces suggested st s = Some (with_counters st cs, next) ∧
    match next with
    | Some k => usable pieces s k ∧ steps_to start k ≤ steps_to start i
    | None => True
    end.
Proof using Hsize.
  intros Hst. revert i st. induction fuel as [|fuel IH]; intros i st Hi Hf; [pose proof (steps_range start i Hst Hi); lia|].
  cbn [next_free]. destruct (is_piece_free_spec pieces s Hsize i Hi) as (f & -> & Hiff).
  cbn [mbind option_bind]. destruct (negb f || bool_decide (i ∈ suggested)) eqn:Hskip.
  - destruct (Z.eqb_spec (wrap (i + 1) s) start) as [|Hne].
    { by exists [piece_picker_rand_start_loops], None. }
    destruct (steps_wrap start i Hst Hi Hne) as [Hi' Hs'].
    destruct (IH (wrap (i + 1) s) (with_counters st [piece_picker_rand_start_loops]) Hi' ltac:(lia))
      as (cs & next & -> & Hn).
    exists ([piece_picker_rand_start_loops] ++ cs), next. split.
    + do 2 f_equal. unfold with_counters. cbn. by rewrite <-(assoc_L (++)).
    + destruct next; [|done]. destruct Hn. split; [done|lia].
  - apply orb_false_iff in Hskip as [Hf' _]. destruct f; [|done].
    exists [], (Some i). split.
    + do 2 f_equal. destruct st. unfold with_counters. cbn. by rewrite app_nil_r.
    + split; [by apply Hiff|lia].
Qed.

(** ** The random pick *)

(** aligned ranges of pieces are asked for only when a range is one piece *)
Definition can_align_random (options : picker_options_t) (prefer : Z) : Prop :=
  align_expanded_pieces options = true → 0 ≤ prefer ≤ 1.

Lemma random_loop_spec fuel i start prefer prefer0 pr suggested options st :
  0 ≤ start < num_pieces s → 0 ≤ i < num_pieces s → can_align_random options prefer →
  (prefer0 = 0 → prefer = 0) →
  Z.max 0 (num_blocks st) * (num_pieces s + 1) + steps_to start i < Z.of_nat fuel →
  ∃ st', random_loop fuel i start pieces prefer pr suggested options st s = Some st' ∧
    grows pieces s prefer0 st st'.
Proof using Hok Hsize.
  intros Hst. revert i prefer st. induction fuel as [|fuel IH]; intros i prefer st Hi Ha Hp0 Hf.
  { pose proof (steps_range start i Hst Hi). nia. }
  cbn [random_loop]. destruct (Z.ltb_spec 0 (num_blocks st)) as [Hnum|]; cbn [negb].
  2: { exists st. split; [done|apply grows_refl]. }
  pose proof (steps_range start i Hst Hi).
  destruct (next_free_spec (S (length (m_piece_map (lay s)))) i start suggested st)
    as (cs & next & -> & Hnext); [done|done|unfold num_pieces, vsize in *; lia|].
  cbn [mbind option_bind]. destruct next as [k|].
  2: { eexists. split; [done|]. exact (grows_refl pieces s prefer0 st). }
  destruct Hnext as [Hu Hsteps]. pose proof (usable_range pieces s Hsize k Hu) as Hk.
  destruct (piece_lookup pieces s Hsize k Hk) as (p & b & Hp & _ & _). rewrite Hp.
  cbn [mbind option_bind].
  assert (Hnext : ∀ st1 prefer1 k1, grows pieces s prefer0 st st1 → (prefer0 = 0 → prefer1 = 0) →
    can_align_random options prefer1 → 0 ≤ wrap k1 s < num_pieces s →
    (wrap k1 s ≠ start → Z.max 0 (num_blocks st1) * (num_pieces s + 1) + steps_to start (wrap k1 s)
      < Z.of_nat fuel) →
    ∃ st', (if wrap k1 s =? start then Some st1
            else random_loop fuel (wrap k1 s) start pieces prefer1 pr suggested options st1 s)
           = Some st' ∧ grows pieces s prefer0 st st').
  { intros st1 prefer1 k1 Hg H1 H2 H3 H4. destruct (Z.eqb_spec (wrap k1 s) start) as [|Hne].
    - by exists st1.
    - destruct (IH (wrap k1 s) prefer1 st1 H3 H2 H1 (H4 Hne)) as (st' & -> & Hg').
      exists st'. split; [done|]. by eapply grows_trans. }
  clear IH. destruct ((1 <? prefer) && negb (downloading p)) eqn:Hexp.
  - apply andb_true_iff in Hexp as [Hlt%Z.ltb_lt Hd%negb_true_iff].
    assert (Hal : align_expanded_pieces options = false).
    { destruct (align_expanded_pieces options) eqn:E; [|done]. specialize (Ha E). lia. }
    destruct (expand_piece_spec pieces s Hok Hsize k prefer options Hu (open_view s Hok k p Hp Hd))
      as (lo & hi & -> & Hlo & Hhi & Hr); [intros E; congruence|]. cbn [mbind option_bind].
    destruct (push_pieces _ _ _ _ _ _) as [[l num] prefer'] eqn:Hrun.
    destruct (push_range pieces s Hok lo hi k _ _ _ _ _ _ Hrun Hr ltac:(lia)) as (Hall & -> & Hpos & _).
    cbn [num_blocks with_counters] in *.
    apply Hnext; [|lia|intros E; congruence|apply wrap_range; lia|].
    + exists l, []. rewrite app_nil_r. cbn. split_and!; try done; try lia.
    + intros _. cbn. pose proof (steps_range start (wrap hi s) Hst (wrap_range hi ltac:(lia) ltac:(lia))). nia.
  - destruct (add_blocks_spec pieces s Hok Hsize k prefer pr [] options
      (with_flag (with_counters st cs) flag_random_pieces) Hu) as (st1 & -> & Hg & _); [|done|].
    { intros E. specialize (Ha E). lia. }
    cbn [mbind option_bind]. apply Hnext; [|done|done|apply wrap_range; lia|].
    + by eapply grows_weaken.
    + intros Hne. destruct (steps_wrap start k Hst Hk Hne) as [_ ->].
      destruct Hg as (a & c & _ & _ & _ & _ & _ & Hn & _). cbn in Hn. nia.
Qed.

(** ** The end game *)

(** the block has been requested from another peer *)
Definition busy_pick (pr : torrent_peer) (b : piece_block) : Prop :=
  usable pieces s (piece_index b) ∧ 0 ≤ block_index b < blocks_in_piece (piece_index b) s ∧
  view s (piece_index b) ≠ None ∧
  bstate (block_at s (piece_index b) (block_index b)) = state_requested ∧
  peer (block_at s (piece_index b) (block_index b)) ≠ pr.

Lemma full_pieces_spec l c size options :
  (∀ dp, dp ∈ l → recorded s dp) → c ≤ size →
  ∃ l', full_pieces l c size pieces options s = Some l' ∧ vsize l' ≤ size - c ∧
    ∀ dp, dp ∈ l' → dp ∈ l ∧ pieces⟦dp_index dp⟧ = Some true.
Proof using Hok Hsize Rok.
  revert c. induction l as [|dp l IH]; intros c Hl Hc; cbn [full_pieces].
  { exists []. split; [done|]. change (vsize []) with 0. split; [lia|]. set_solver. }
  destruct (Z.eqb_spec c size).
  { exists []. split; [done|]. change (vsize []) with 0. split; [lia|]. set_solver. }
  destruct (Hl dp ltac:(left)) as [Hi _].
  assert (Hl' : ∀ dp, dp ∈ l → recorded s dp) by (intros; apply Hl; by right).
  destruct (piece_lookup pieces s Hsize _ Hi) as (p & b & _ & _ & Hb). rewrite Hb.
  cbn [mbind option_bind].
  assert (Hlow : ∃ low, (if negb b then Some true else too_low options (dp_index dp) s) = Some low ∧
    (low = false → b = true)).
  { destruct b; [|by exists true]. destruct (too_low_spec pieces s Hsize options _ Hi) as (low & H & _).
    by exists low. }
  destruct Hlow as (low & -> & Hlow). cbn [mbind option_bind]. destruct low.
  - destruct (IH c Hl' Hc) as (l' & H1 & H2 & H3). exists l'. split; [done|]. split; [done|].
    intros d Hd. destruct (H3 d Hd). split; [by right|done].
  - destruct (IH (c + 1) Hl' ltac:(lia)) as (l' & -> & H2 & H3). cbn [mbind option_bind].
    eexists. split; [done|]. rewrite vsize_cons. split; [lia|].
    intros d [->|Hd]%elem_of_cons; [split; [left|by rewrite Hb, Hlow]|].
    destruct (H3 d Hd). split; [by right|done].
Qed.

Lemma busy_blocks_spec bs i idx pr b :
  b ∈ busy_blocks bs i idx pr →
  ∃ k x, b = PieceBlock i (idx + k) ∧ bs⟦k⟧ = Some x ∧ bstate x = state_requested ∧ peer x ≠ pr.
Proof using.
  revert idx. induction bs as [|x bs IH]; intros idx; cbn [busy_blocks]; [intros []%not_elem_of_nil|].
  assert (Hrest : b ∈ busy_blocks bs i (idx + 1) pr → ∃ k y, b = PieceBlock i (idx + k) ∧
    (x :: bs)⟦k⟧ = Some y ∧ bstate y = state_requested ∧ peer y ≠ pr).
  { intros (k & y & -> & Hk & Hy)%IH. pose proof (vget_Some_range _ _ _ Hk).
    exists (k + 1), y. rewrite vget_cons_S by lia. split; [f_equal; lia|done]. }
  destruct (bool_decide (bstate x = state_requested)) eqn:Hst; cbn [negb orb]; [|done].
  destruct (Z.eqb_spec (peer x) pr); [done|]. intros [->|Hb]%elem_of_cons; [|by apply Hrest].
  apply bool_decide_eq_true in Hst. exists 0, x. rewrite Z.add_0_r. done.
Qed.

Lemma busy_blocks_size bs i idx pr : vsize (busy_blocks bs i idx pr) ≤ vsize bs.
Proof using.
  revert idx. induction bs as [|x bs IH]; intros idx; cbn [busy_blocks]; [done|].
  specialize (IH (idx + 1)). rewrite vsize_cons.
  destruct (negb _ || _); rewrite ?vsize_cons; lia.
Qed.

(** what the end game adds: a busy block, or nothing *)
Definition busy_added (pr : torrent_peer) (st st' : pick_state) : Prop :=
  (interesting_blocks st' = interesting_blocks st ∧ num_blocks st' = num_blocks st) ∨
  ∃ b, interesting_blocks st' = interesting_blocks st ++ [b] ∧
    num_blocks st' = num_blocks st - 1 ∧ busy_pick pr b.

Lemma recorded_busy dp bs pr b :
  view s (dp_index dp) = Some (dp, bs) → usable pieces s (dp_index dp) →
  b ∈ busy_blocks bs (dp_index dp) 0 pr → busy_pick pr b.
Proof using Hok.
  intros Hv Hu (k & x & -> & Hk & Hst & Hpr)%busy_blocks_spec. rewrite Z.add_0_l.
  unfold busy_pick. cbn [piece_index block_index]. rewrite (block_at_view s _ dp bs k x Hv Hk).
  split; [done|]. split; [|split; [congruence|done]].
  rewrite <-(view_size s (ck_queues _ (ok_core _ Hok)) _ dp bs Hv). by eapply vget_Some_range.
Qed.

Lemma vset_elem {A} (v w : list A) k x y : v⟦k := x⟧ = Some w → y ∈ w → y ∈ v ∨ y = x.
Proof using.
  intros Hs [j Hj]%elem_of_vget. rewrite (vset_get _ _ _ _ _ Hs) in Hj.
  destruct (j =? k); [right; congruence|left; by eapply vget_elem_of].
Qed.

Lemma span_blocks_rng sp e : span_blocks sp (set_rng e s) = span_blocks sp s.
Proof using.
  unfold span_blocks. generalize (Z.to_nat sp.2) as n, sp.1 as idx.
  induction n as [|n IH]; intros idx; [done|]. cbn [read_blocks]. by rewrite IH.
Qed.

Lemma busy_loop_spec fuel partials pr st e :
  Z.of_nat fuel ≤ vsize partials < 2 ^ 32 →
  (∀ dp, dp ∈ partials → recorded s dp ∧ usable pieces s (dp_index dp)) →
  wp (busy_loop fuel partials (Z.of_nat fuel) pr st) (set_rng e s)
    (λ st' s', (∃ e', s' = set_rng e' s) ∧ busy_added pr st st').
Proof using Hok Rok.
  revert partials st e. induction fuel as [|fuel IH]; intros partials st e Hf Hl; cbn [busy_loop].
  { apply wp_ret. split; [by exists e|by left]. }
  wstep. change (rng (set_rng e s)) with e.
  pose proof (random_range (Z.of_nat (S fuel) - 1) e ltac:(lia)) as Hr.
  destruct (random _ e) as [k e1]. cbn [fst] in Hr. wstep. change (set_rng e1 (set_rng e s)) with (set_rng e1 s).
  destruct (vget_is_Some partials k ltac:(lia)) as [dp Hdp].
  apply wp_bind. eapply wp_reads; [exact Hdp|].
  destruct (Hl dp (vget_elem_of _ _ _ Hdp)) as [[Hi [bs Hv]] Hu].
  destruct (blocks_of_view s Hok _ dp bs Hv) as (sp & Hsp & Hspan).
  apply wp_bind. eapply wp_reads; [exact Hsp|]. apply wp_bind.
  eapply wp_reads; [by rewrite span_blocks_rng|].
  destruct (busy_blocks bs (dp_index dp) 0 pr) as [|b0 temp'] eqn:Htemp.
  - destruct (vget_is_Some partials (Z.of_nat (S fuel) - 1) ltac:(lia)) as [last Hlast].
    apply wp_bind. eapply wp_reads; [exact Hlast|].
    assert (Hset : ∃ w, partials⟦k := last⟧ = Some w) by (rewrite vset_Some by lia; eauto).
    destruct Hset as [w Hw]. apply wp_bind. eapply wp_reads; [exact Hw|].
    replace (Z.of_nat (S fuel) - 1) with (Z.of_nat fuel) by lia.
    eapply wp_mono; [apply (IH w (with_counters st [piece_picker_busy_loops]) e1)|done].
    + rewrite (vset_size _ _ _ _ Hw). lia.
    + intros d Hd. destruct (vset_elem _ _ _ _ _ Hw Hd) as [?| ->]; apply Hl; [done|].
      by eapply vget_elem_of.
  - set (temp := b0 :: temp') in *. wstep. change (rng (set_rng e1 s)) with e1.
    assert (Hsize' : vsize temp ≤ vsize bs) by (rewrite <-Htemp; apply busy_blocks_size).
    pose proof (ck_queues _ (ok_core _ Hok)) as Hq. rewrite (view_size s Hq _ dp bs Hv) in Hsize'.
    pose proof (blocks_in_piece_range (dp_index dp) s (qs_sizes s Hq)).
    pose proof (sz_blocks s (qs_sizes s Hq)). unfold max_blocks_per_piece in *.
    assert (0 < vsize temp) by (unfold temp; rewrite vsize_cons; pose proof (vsize_nonneg temp'); lia).
    pose proof (random_range (vsize temp - 1) e1 ltac:(lia)) as Hr'.
    destruct (random _ e1) as [j e2]. cbn [fst] in Hr'. wstep.
    destruct (vget_is_Some temp j ltac:(lia)) as [b Hb]. apply wp_bind. eapply wp_reads; [exact Hb|].
    apply wp_ret. split; [by exists e2|]. right. exists b. split; [done|]. split; [done|].
    eapply recorded_busy; [done|done|]. rewrite Htemp. by eapply vget_elem_of.
Qed.

Lemma end_game_spec pr options st :
  wp (end_game pieces pr options st) s
    (λ st' s', (∃ e', s' = set_rng e' s) ∧ busy_added pr st st').
Proof using Hok Hsize Rok.
  pose proof (ck_queues _ (ok_core _ Hok)) as Hq. pose proof (qs_dls s Hq) as Hd.
  assert (Hqueue : ∀ c, 0 ≤ queue_number c < 4 → ∃ v, queue (queue_number c) s = Some v).
  { intros c Hc. apply vget_is_Some. by rewrite (dk_len _ _ _ Hd). }
  destruct (Hqueue piece_downloading) as [v0 H0]; [done|].
  destruct (Hqueue piece_full) as [v1 H1]; [done|]. unfold end_game.
  apply wp_bind. eapply wp_reads; [exact H0|]. apply wp_bind. eapply wp_reads; [exact H1|].
  destruct (Z.eqb_spec (Z.min 200 (vsize v0 + vsize v1)) 0).
  { apply wp_ret. split; [exists (rng s); by rewrite set_rng_same|by left]. }
  pose proof (vsize_nonneg v0). pose proof (vsize_nonneg v1).
  destruct (full_pieces_spec v1 0 (Z.min 200 (vsize v0 + vsize v1)) options)
    as (l & Hl & Hlen & Hin); [|lia|].
  { intros dp Hdp. by eapply (queue_recorded s Hok piece_full). }
  apply wp_bind. eapply wp_reads; [exact Hl|].
  rewrite <-(set_rng_same s) at 1. apply (busy_loop_spec (length l) l pr st (rng s)); [unfold vsize in *; lia|].
  intros dp Hdp. destruct (Hin dp Hdp) as [Hv Hb].
  destruct (queue_recorded s Hok piece_full v1 dp ltac:(done) H1 Hv) as (Hrec & p & Hseen & Hnum).
  split; [done|]. split; [done|]. exists (norm p). split; [done|].
  destruct Hrec as [Hi [bs Hview]].
  destruct (ck_pieces _ (ok_core _ Hok) _ _ _ _ Hseen Hview) as [Hh _ _ Hpq]. split; [done|].
  change (download_queue (norm p)) with (download_queue p) in Hpq. unfold proper_queue in Hpq.
  destruct (filtered (norm p)); [|done]. rewrite Hpq in Hnum. done.
Qed.
End picker.
End random.
