(* ===== verification/PickerPicked.v ===== *)
(** [pick_pieces] as a whole: it returns, keeps the invariant, and picks free
    blocks, or one busy block when nothing free is left. *)

From stdpp Require Import gmap.
From S2P Require Import Prelude.
From S2P Require Import Random.
From S2P Require Import PiecePicker.
From S2P Require Import PickerBuckets.
From S2P Require Import PickerState.
From S2P Require Import PickerOps.
From S2P Require Import PickerBlocks.
From S2P Require Import PickerPick.
From S2P Require Import PickerInv.
From S2P Require Import PickerAvail.
From S2P Require Import PickerSteps.
From S2P Require Import PickerDls.
From S2P Require Import PickerCore.
From S2P Require Import PickerMarks.
From S2P Require Import PickerHave.
From S2P Require Import PickerLost.
From S2P Require Import PickerStart.
From S2P Require Import PickerQueries.
From S2P Require Import PickerGrow.
From S2P Require Import PickerPhases.

Open Scope Z_scope.

Section picked.
Context {R : StdRandom} {Rok : StdRandomOk R}.

(** ** What [pick_pieces] does to the picker *)

(** the pieces and their blocks are the same; the order of the list, the
    engine and the recent extents may differ *)
Record alike (s s' : picker) : Prop := {
  al_size : num_pieces s' = num_pieces s;
  al_blocks : m_blocks_per_piece s' = m_blocks_per_piece s;
  al_last : m_blocks_in_last_piece s' = m_blocks_in_last_piece s;
  al_pads : m_pad_blocks s' = m_pad_blocks s;
  al_seeds : m_seeds s' = m_seeds s;
  al_seen : ∀ j, seen s' j = seen s j;
  al_view : ∀ j, view s' j = view s j
}.

#[global] Instance alike_refl : Reflexive alike.
Proof. by split. Qed.

#[global] Instance alike_trans : Transitive alike.
Proof. intros s1 s2 s3 [] []. split; congruence. Qed.

#[global] Instance alike_sym : Symmetric alike.
Proof. intros s1 s2 []. by split. Qed.

Section alike.
Context (s s' : picker) (Ha : alike s s').

Lemma alike_blocks_in_piece i : blocks_in_piece i s' = blocks_in_piece i s.
Proof using Ha. destruct Ha as [H1 H2 H3 _ _ _ _]. unfold blocks_in_piece. by rewrite H1, H2, H3. Qed.

Lemma alike_block_at i j : block_at s' i j = block_at s i j.
Proof using Ha.
  destruct Ha as [_ H2 _ H4 _ _ H6]. unfold block_at. rewrite H6.
  destruct (view s i) as [[dp bs]|]; [done|]. unfold fresh_block, pad_at. by rewrite H2, H4.
Qed.

Lemma alike_usable pieces i : usable pieces s i ↔ usable pieces s' i.
Proof using Ha. unfold usable. by rewrite (al_seen _ _ Ha). Qed.

Lemma alike_free_in i j : free_in s i j ↔ free_in s' i j.
Proof using Ha. unfold free_in. by rewrite alike_blocks_in_piece, alike_block_at, (al_view _ _ Ha). Qed.

Lemma alike_free_pick pieces b : free_pick pieces s b ↔ free_pick pieces s' b.
Proof using Ha. unfold free_pick. by rewrite <-alike_usable, <-alike_free_in. Qed.

Lemma alike_busy_pick pieces pr b : busy_pick pieces s pr b ↔ busy_pick pieces s' pr b.
Proof using Ha.
  unfold busy_pick.
  by rewrite <-alike_usable, alike_blocks_in_piece, alike_block_at, (al_view _ _ Ha).
Qed.

Lemma alike_exhausted options st i : exhausted s options st i → exhausted s' options st i.
Proof using Ha.
  unfold exhausted, locked_at. rewrite (al_view _ _ Ha). intros [|[|[|Hc]]]; [tauto..|].
  right. right. right. intros j Hj. apply Hc. by apply alike_free_in.
Qed.

Lemma alike_progress pieces n prefer st : progress pieces s n prefer st → progress pieces s' n prefer st.
Proof using Ha.
  intros [H1 H2 H3 H4 H5].
  split; try done; (eapply Forall_impl; [|eassumption]); intros b; by apply alike_free_pick.
Qed.
End alike.

Record picked (s s' : picker) : Prop := {
  pi_ok : picker_ok s';
  pi_alike : alike s s'
}.

Lemma picked_refl s : picker_ok s → picked s s.
Proof. intros Hok. by split. Qed.

Lemma picked_trans s1 s2 s3 : picked s1 s2 → picked s2 s3 → picked s1 s3.
Proof. intros [_ H1] [H2 H3]. split; [done|]. by etransitivity. Qed.

(** the engine and the recent extents are not part of the invariant *)
Lemma picked_ignored s e x : picker_ok s → picked s (set_rng e (set_extents x s)).
Proof.
  intros [[Hl [Hz Hd] Hp Hpc] Hc Ht Hpos]. split; [|by split].
  split; [split| | |]; try done; [by destruct Hl|by destruct Hz].
Qed.

Lemma picked_rng s e : picker_ok s → picked s (set_rng e s).
Proof.
  intros Hok. replace (set_rng e s) with (set_rng e (set_extents (m_recent_extents s) s)) by by destruct s.
  by apply picked_ignored.
Qed.

Lemma picked_extents s x : picker_ok s → picked s (set_extents x s).
Proof.
  intros Hok. replace (set_extents x s) with (set_rng (rng s) (set_extents x s)) by by destruct s.
  by apply picked_ignored.
Qed.

Lemma rebuilt_picked s s' : rebuilt s s' → picked s s'.
Proof.
  intros [Hok _ Hseeds Hmv []]. split; [done|].
  assert (Hn : num_pieces s' = num_pieces s) by apply Hmv.
  split; try done; [intros j; apply (seen_moved _ _ _ Hmv)|intros j; by apply view_eq].
Qed.

Lemma wp_rebuild s :
  picker_ok s →
  wp rebuild_if_dirty s (λ _ s', picked s s' ∧ m_dirty s' = false ∧
    m_recent_extents s' = m_recent_extents s).
Proof.
  intros Hok. unfold rebuild_if_dirty. wstep. destruct (m_dirty s) eqn:Hd.
  - eapply wp_mono; [by apply update_pieces_ok|]. intros [] s' Hr. split; [by apply rebuilt_picked|].
    destruct Hr as [_ Hd' _ _ []]. done.
  - apply wp_ret. split; [by apply picked_refl|done].
Qed.

(** ** The result of a phase *)

(** the picks of a phase that starts from [st] and ends in [s'] *)
Record outcome (pieces : bitfield) (s : picker) (prefer : Z) (st : pick_state)
    (r : pick_state * bool) (s' : picker) : Prop := {
  oc_picked : picked s s';
  oc_grows : grows pieces s prefer st r.1;
  oc_done : r.2 = (num_blocks r.1 <=? 0)
}.

Lemma phase_outcome pieces s prefer st st' d :
  picker_ok s → phase_done pieces s prefer st st' d → outcome pieces s prefer st (st', d) s.
Proof. intros Hok [Hg Hd]. split; [by apply picked_refl|done|done]. Qed.

Lemma outcome_none pieces s prefer st :
  picker_ok s → 0 < num_blocks st → outcome pieces s prefer st (st, false) s.
Proof. intros Hok Hn. apply phase_outcome; [done|by apply phase_refl]. Qed.

Lemma alike_grows pieces s s' prefer st st' :
  alike s s' → grows pieces s prefer st st' → grows pieces s' prefer st st'.
Proof.
  intros Ha (a & c & H1 & H2 & H3 & H4 & H5 & H6). exists a, c.
  split_and!; try done; try apply H6; (eapply Forall_impl; [|eassumption]); intros b; by apply alike_free_pick.
Qed.

(** the picker has changed before the phase *)
Lemma outcome_picked pieces s s1 prefer st r s' :
  picked s s1 → outcome pieces s1 prefer st r s' → outcome pieces s prefer st r s'.
Proof.
  intros H1 [H2 H3 H4]. split; [by eapply picked_trans| |done].
  eapply (alike_grows _ s1); [symmetry; apply H1|done].
Qed.

(** blocks were picked before the phase *)
Lemma outcome_grows pieces s prefer st st1 r s' :
  grows pieces s prefer st st1 → outcome pieces s prefer st1 r s' → outcome pieces s prefer st r s'.
Proof. intros Hg [H1 H2 H3]. split; [done|by eapply grows_trans|done]. Qed.

(** one phase after another *)
Lemma outcome_num pieces s prefer st (r : pick_state * bool) s' :
  outcome pieces s prefer st r s' → r.2 = false → 0 < num_blocks r.1.
Proof. intros [_ _ ->] H. by apply Z.leb_gt in H. Qed.

Lemma outcome_seq pieces s prefer st st1 s1 r s' :
  outcome pieces s prefer st (st1, false) s1 → outcome pieces s1 prefer st1 r s' →
  outcome pieces s prefer st r s'.
Proof. intros [H1 H2 _] Ho. eapply outcome_grows; [exact H2|]. by eapply outcome_picked. Qed.

(** ** The phases *)

Section phases.
Context (pieces : bitfield) (prefer : Z) (pr : torrent_peer) (options : picker_options_t).
Context (Ha : can_align options prefer).

Section picker.
Context (s : picker) (Hok : picker_ok s) (Hsize : vsize pieces = num_pieces s).

Lemma pick_list_outcome l check flag ignore st :
  (∀ i, i ∈ l → 0 ≤ i < num_pieces s ∧ ∃ v cs, check i s = Some (v, cs)) →
  0 < num_blocks st →
  ∃ r, pick_list l check flag pieces prefer pr ignore options st s = Some r ∧
    outcome pieces s prefer st r s ∧ grows pieces s prefer st r.1 ∧
    ((∀ i, i ∈ l → ∃ cs, check i s = Some (consider, cs)) →
     ∀ i, i ∈ l → usable pieces s i → visited s ignore options r.1 i).
Proof using Hok Hsize Ha.
  intros Hl Hn.
  destruct (pick_list_spec pieces s Hok Hsize l check flag prefer pr ignore options st Hl Ha Hn)
    as (st' & d & Hrun & Hd & Hcov).
  exists (st', d). split; [done|]. split; [by apply phase_outcome|]. split; [apply Hd|done].
Qed.

Lemma check_priority i (f : Z → verdict * list counter) :
  0 ≤ i < num_pieces s → ∃ v cs, (prio ← piece_priority_of i s; Some (f prio)) = Some (v, cs).
Proof using Hsize.
  intros Hi. destruct (piece_lookup pieces s Hsize i Hi) as (p & _ & Hp & _).
  unfold piece_priority_of. rewrite Hp. cbn. destruct (f _) as [v cs]. by exists v, cs.
Qed.

Lemma suggested_phase_spec suggested st :
  (∀ i, i ∈ suggested → 0 ≤ i < num_pieces s) →
  0 < num_blocks st →
  ∃ r, suggested_phase suggested pieces prefer pr options st s = Some r ∧
    outcome pieces s prefer st r s ∧ grows pieces s prefer st r.1 ∧
    (time_critical_mode options = false →
     ∀ i, i ∈ suggested → usable pieces s i → visited s [] options r.1 i).
Proof using Hok Hsize Ha.
  intros Hsug Hn.
  destruct (pick_list_outcome suggested
    (λ i s, low ← too_low options i s;
            Some (if low : bool then (skip, []) else (consider, [piece_picker_suggest_loops])))
    flag_suggested_pieces [] st) as (r & H1 & H2 & H3 & H4); [|done|].
  { intros i Hi. specialize (Hsug i Hi). split; [done|].
    destruct (too_low_spec pieces s Hsize options i Hsug) as (low & -> & _). destruct low; by do 2 eexists. }
  exists r. split; [exact H1|]. split; [done|]. split; [done|]. intros Ht. apply H4. intros i Hi.
  destruct (too_low_spec pieces s Hsize options i (Hsug i Hi)) as (low & -> & Hlow).
  rewrite (Hlow Ht). by eexists.
Qed.

(** the list holds pieces of the torrent *)
Lemma list_range i : i ∈ m_pieces (lay s) → 0 ≤ i < num_pieces s.
Proof using Hok. intros [t Ht]%elem_of_vget. by eapply (lo_range s (ck_list _ (ok_core _ Hok))). Qed.

Lemma range_up_elem a b i : i ∈ range_up a b → a ≤ i < b.
Proof using.
  unfold range_up. intros Hi. apply list_elem_of_In, in_map_iff in Hi as (k & <- & Hk).
  apply in_seq in Hk. lia.
Qed.

Lemma top_only_outcome l flag ignore st :
  (∀ i, i ∈ l → 0 ≤ i < num_pieces s) → 0 < num_blocks st →
  ∃ r, pick_list l top_only flag pieces prefer pr ignore options st s = Some r ∧
    outcome pieces s prefer st r s.
Proof using Hok Hsize Ha.
  intros Hl Hn. destruct (pick_list_outcome l top_only flag ignore st) as (r & H1 & H2 & _); [|done|eauto].
  intros i Hi. split; [by apply Hl|]. apply check_priority. by apply Hl.
Qed.

Lemma cursor_outcome l flag ignore st :
  (∀ i, i ∈ l → 0 ≤ i < num_pieces s) → 0 < num_blocks st →
  ∃ r, pick_list l not_top flag pieces prefer pr ignore options st s = Some r ∧
    outcome pieces s prefer st r s.
Proof using Hok Hsize Ha.
  intros Hl Hn. destruct (pick_list_outcome l not_top flag ignore st) as (r & H1 & H2 & _); [|done|eauto].
  intros i Hi. split; [by apply Hl|]. apply check_priority. by apply Hl.
Qed.

Lemma sequential_reads_spec suggested st :
  0 < num_blocks st →
  ∃ r, ('(st, done) ← pick_list (m_pieces (lay s)) top_only flag_prio_sequential_pieces pieces
                    prefer pr suggested options st s;
    if (done : bool) || time_critical_mode options then Some (st, done)
    else
      let l := range_up (m_cursor s) (m_reverse_cursor s) in
      if opt_reverse options then
        pick_list (rev l) not_top flag_reverse_sequential pieces prefer pr suggested
          options st s
      else
        pick_list l not_top flag_sequential_pieces pieces prefer pr suggested
          options st s) = Some r ∧ outcome pieces s prefer st r s.
Proof using Hok Hsize Ha.
  intros Hn.
  destruct (top_only_outcome (m_pieces (lay s)) flag_prio_sequential_pieces suggested st list_range Hn)
    as ([st1 d1] & -> & Ho). cbn [mbind option_bind].
  destruct (d1 || time_critical_mode options) eqn:Hd; [by eexists|].
  apply orb_false_iff in Hd as [-> _]. pose proof (outcome_num _ _ _ _ _ _ Ho eq_refl) as Hn1.
  pose proof (cu_cursor _ _ _ _ (ok_cursors _ Hok)). pose proof (cu_reverse _ _ _ _ (ok_cursors _ Hok)).
  assert (Hr : ∀ i, i ∈ range_up (m_cursor s) (m_reverse_cursor s) → 0 ≤ i < num_pieces s)
    by (intros i Hi%range_up_elem; lia).
  assert (Hcursor : ∀ l flag, (∀ i, i ∈ l → 0 ≤ i < num_pieces s) →
    ∃ r, pick_list l not_top flag pieces prefer pr suggested options st1 s = Some r ∧
      outcome pieces s prefer st r s).
  { intros l flag Hl. destruct (cursor_outcome l flag suggested st1 Hl Hn1) as (r & H1 & H2).
    exists r. split; [done|]. by eapply outcome_seq. }
  destruct (opt_reverse options); cbv zeta; apply Hcursor; [|done].
  intros i Hi. apply Hr. apply list_elem_of_In. apply list_elem_of_In in Hi. by apply in_rev.
Qed.

(** ** Rarest first *)

(** the list of a bucket can be read *)
Lemma bucket_list q :
  m_dirty s = false → 0 ≤ q < vsize (m_priority_boundaries (lay s)) →
  ∃ a b l, priority_begin (lay s) q = Some a ∧ priority_end (lay s) q = Some b ∧
    mapM (λ t, (m_pieces (lay s))⟦t⟧) (range_up a b) = Some l ∧
    ∀ i, i ∈ l → 0 ≤ i < num_pieces s.
Proof using Hok.
  intros Hd Hq. pose proof (ck_list _ (ok_core _ Hok)) as Hl.
  destruct (lo_listed _ Hl Hd) as [Hm Hne Hlast _]. set (B := m_priority_boundaries (lay s)) in *.
  assert (Hb : bnd B q ≤ vsize (m_pieces (lay s))).
  { rewrite <-Hlast. apply mono_le; [done|lia|lia]. }
  assert (Hstart : 0 ≤ bnd B (q - 1)).
  { rewrite <-(bnd_neg B (-1)) by lia. apply mono_le; [done|lia|lia]. }
  assert (Hbeg : priority_begin (lay s) q = Some (bnd B (q - 1))).
  { unfold priority_begin. destruct (Z.eqb_spec q 0) as [->|]; [by rewrite bnd_neg|].
    apply bnd_lookup. fold B. lia. }
  exists (bnd B (q - 1)), (bnd B q).
  assert (Hall : ∃ l, mapM (λ t, (m_pieces (lay s))⟦t⟧) (range_up (bnd B (q - 1)) (bnd B q)) = Some l).
  { apply mapM_is_Some_2, Forall_forall. intros t Ht. apply list_elem_of_In, range_up_elem in Ht.
    destruct (vget_is_Some (m_pieces (lay s)) t) as [i Hi]; [lia|]. by exists i. }
  destruct Hall as [l Hl']. exists l. split; [done|]. split; [by apply bnd_lookup|]. split; [done|].
  intros i Hi. apply mapM_Some_1 in Hl'. apply list_elem_of_lookup in Hi as [k Hk].
  destruct (Forall2_lookup_r _ _ _ _ _ Hl' Hk) as (t & _ & Ht). by eapply (lo_range s Hl).
Qed.

Lemma reverse_rarest_spec k suggested st :
  m_dirty s = false → Z.of_nat k ≤ vsize (m_priority_boundaries (lay s)) →
  0 < num_blocks st →
  ∃ r, reverse_rarest k pieces prefer pr suggested options st s = Some r ∧
    outcome pieces s prefer st r s.
Proof using Hok Hsize Ha.
  intros Hd. revert st. induction k as [|k IH]; intros st Hk Hn; cbn [reverse_rarest].
  { eexists. split; [done|]. by apply outcome_none. }
  destruct (bucket_list (Z.of_nat k) Hd ltac:(lia)) as (a & b & l & -> & Hb & Hm & Hl).
  cbn [mbind option_bind]. rewrite Hb. cbn [mbind option_bind]. rewrite Hm. cbn [mbind option_bind].
  destruct (pick_list_outcome (rev l) (λ _ _, Some (consider, [piece_picker_reverse_rare_loops]))
    flag_reverse_rarest_first suggested st) as ([st1 d1] & -> & Ho & _); [|done|].
  { intros i Hi. split; [|by do 2 eexists]. apply Hl. apply list_elem_of_In. apply list_elem_of_In in Hi.
    by apply in_rev. }
  cbn [mbind option_bind]. destruct d1; [by eexists|].
  destruct (IH st1) as (r & H1 & H2); [lia|by apply (outcome_num _ _ _ _ _ _ Ho)|].
  exists r. split; [exact H1|]. by eapply outcome_seq.
Qed.

Lemma pick_extent_spec l have_all suggested st :
  (∀ i, i ∈ l → 0 ≤ i < num_pieces s) → 0 < num_blocks st →
  ∃ st' d h, pick_extent l have_all pieces prefer pr suggested options st s = Some (st', d, h) ∧
    outcome pieces s prefer st (st', d) s.
Proof using Hok Hsize Ha.
  intros Hl. revert have_all st Hl. induction l as [|i l IH]; intros have_all st Hl Hn; cbn [pick_extent].
  { do 3 eexists. split; [done|]. by apply outcome_none. }
  pose proof (Hl i ltac:(left)) as Hi.
  assert (Hl' : ∀ k, k ∈ l → 0 ≤ k < num_pieces s) by (intros; apply Hl; by right).
  destruct (piece_lookup pieces s Hsize i Hi) as (p & b & Hpi & _ & _). rewrite Hpi.
  cbn [mbind option_bind].
  destruct (is_piece_free_spec pieces s Hsize i Hi) as (f & -> & Hf). cbn [mbind option_bind].
  destruct f; cbn [negb]; [|by apply IH].
  destruct (add_blocks_spec pieces s Hok Hsize i prefer pr suggested options
    (with_flag st flag_extent_affinity)) as (st1 & -> & Hg & _); [by apply Hf|done|done|].
  cbn [mbind option_bind].
  destruct (Z.leb_spec (num_blocks st1) 0).
  - do 3 eexists. split; [done|]. split; [by apply picked_refl|done|]. symmetry. by apply Z.leb_le.
  - destruct (IH (have_all && have p) st1) as (st' & d & h' & H1 & H2); [done|done|].
    exists st', d, h'. split; [exact H1|]. by eapply outcome_grows.
Qed.

Lemma extent_pieces_range e :
  0 ≤ e → ∃ l, extent_pieces e s = Some l ∧ ∀ i, i ∈ l → 0 ≤ i < num_pieces s.
Proof using Hok.
  intros He. pose proof (sz_blocks s (qs_sizes s (ck_queues _ (ok_core _ Hok)))).
  unfold extent_pieces. rewrite (proj2 (Z.eqb_neq (m_blocks_per_piece s) 0)) by lia.
  cbn [negb guard_b mbind option_bind]. eexists. split; [done|].
  assert (0 ≤ Z.quot max_piece_affinity_extent (m_blocks_per_piece s)).
  { assert (0 ≤ max_piece_affinity_extent) by done. rewrite Z.quot_div_nonneg by lia. apply Z.div_pos; lia. }
  intros i Hi. apply list_elem_of_In, in_map_iff in Hi as (k & <- & Hk). apply in_seq in Hk. nia.
Qed.

Lemma pick_extents_spec l idx to_erase suggested st :
  Forall (λ e, 0 ≤ e) l → to_erase = -1 ∨ 0 ≤ to_erase < idx → 0 ≤ idx →
  0 < num_blocks st →
  ∃ st' d t, pick_extents l idx to_erase pieces prefer pr suggested options st s = Some (st', d, t) ∧
    outcome pieces s prefer st (st', d) s ∧ (t = -1 ∨ 0 ≤ t < idx + vsize l).
Proof using Hok Hsize Ha.
  revert idx to_erase st. induction l as [|e l IH]; intros idx te st Hl Ht Hidx Hn; cbn [pick_extents].
  { do 3 eexists. split; [done|]. change (vsize []) with 0.
    split; [|lia]. by apply outcome_none. }
  apply Forall_cons_1 in Hl as [He Hl]. rewrite vsize_cons. pose proof (vsize_nonneg l).
  destruct (extent_pieces_range e He) as (ps & -> & Hps). cbn [mbind option_bind].
  destruct (pick_extent_spec ps true suggested st Hps Hn) as (st1 & d1 & h1 & -> & Ho).
  cbn [mbind option_bind]. destruct d1.
  { do 3 eexists. split; [done|]. split; [done|lia]. }
  destruct (IH (idx + 1) (if h1 then idx else te) st1) as (st' & d & t & H1 & H2 & H3);
    [done|destruct h1; lia|lia|by apply (outcome_num _ _ _ _ _ _ Ho)|].
  exists st', d, t. split; [done|]. split; [by eapply outcome_seq|lia].
Qed.

(** in the order of the list, unless the time is critical *)
Lemma rarest_list_spec suggested st :
  0 < num_blocks st →
  ∃ r, pick_list (m_pieces (lay s))
          (λ i s, low ← too_low options i s;
                  Some (if low : bool then stop else consider, [piece_picker_rare_loops]))
          flag_rarest_first pieces prefer pr suggested options st s = Some r ∧
    outcome pieces s prefer st r s ∧
    (time_critical_mode options = false →
     ∀ i, i ∈ m_pieces (lay s) → usable pieces s i → visited s suggested options r.1 i).
Proof using Hok Hsize Ha.
  intros Hn.
  destruct (pick_list_outcome (m_pieces (lay s))
    (λ i s, low ← too_low options i s;
            Some (if low : bool then stop else consider, [piece_picker_rare_loops]))
    flag_rarest_first suggested st) as (r & H1 & H2 & _ & H4); [|done|].
  { intros i Hi. pose proof (list_range i Hi) as Hr. split; [done|].
    destruct (too_low_spec pieces s Hsize options i Hr) as (low & -> & _). by do 2 eexists. }
  exists r. split; [exact H1|]. split; [done|]. intros Ht. apply H4. intros i Hi.
  destruct (too_low_spec pieces s Hsize options i (list_range i Hi)) as (low & -> & Hlow).
  rewrite (Hlow Ht). by eexists.
Qed.

(** a piece that some peer has is in the list, unless nothing is free in it *)
Lemma usable_listed i p :
  m_dirty s = false → usable pieces s i → piece_map i s = Some p → 0 < peer_count p + m_seeds s →
  i ∈ m_pieces (lay s) ∨ ∀ st, covers s st i.
Proof using Hok.
  intros Hd Hu Hp Hc. pose proof (ck_list _ (ok_core _ Hok)) as Hl.
  destruct Hu as (_ & q & Hq & Hh & Hf). unfold seen in Hq. rewrite Hp in Hq. injection Hq as <-.
  rewrite have_norm in Hh. rewrite filtered_norm in Hf.
  assert (Hfull : download_queue p ≠ piece_open → download_queue p ≠ piece_downloading →
    ∀ st, covers s st i).
  { intros Ho Hq st. destruct (view s i) as [[dp bs]|] eqn:Hv.
    - by eapply full_covers.
    - apply (view_open s i p (ck_queues _ (ok_core _ Hok)) Hp) in Hv. done. }
  destruct (decide (download_state p = piece_full ∨ download_state p = piece_finished)) as [Hs|Hs].
  { right. apply Hfull; unfold download_queue; destruct Hs as [-> | ->]; done. }
  left. destruct (inv_slots _ _ (lo_listed _ Hl Hd)) as [_ Hin].
  assert (Hpr : 0 ≤ priority (m_seeds s) p).
  { destruct (lo_map s Hl i p Hp) as (Hc' & Hprio & _). unfold priority.
    rewrite Hf, Hh, (proj2 (Z.eqb_neq (peer_count p + m_seeds s) 0)), !bool_decide_eq_false_2 by (tauto || lia). cbn [orb].
    unfold priority_levels, prio_factor. destruct (reverse p), (bool_decide (download_state p = piece_open)); cbn [negb]; nia. }
  destruct (Hin i p Hp) as [_ Ht]; [unfold PickerRebuild.bucket_of, PickerAvail.pieces; unfold piece_map in Hp; by rewrite Hp|apply vget_Some_range in Hp; lia|]. by eapply vget_elem_of.
Qed.
End picker.

Lemma sequential_phase_spec s suggested st :
  picker_ok s → vsize pieces = num_pieces s → 0 < num_blocks st →
  wp (sequential_phase pieces prefer pr suggested options st) s (outcome pieces s prefer st).
Proof using Ha Rok.
  intros Hok Hsize Hn. unfold sequential_phase. apply wp_bind.
  eapply wp_mono; [by apply wp_rebuild|]. intros [] s1 (Hpi & _ & _).
  pose proof Hpi as [Hok1 Hal].
  destruct (sequential_reads_spec s1 Hok1 ltac:(by rewrite Hsize, (al_size _ _ Hal)) suggested st)
    as (r & Hr & Ho); [done|].
  eapply wp_reads; [exact Hr|]. by eapply outcome_picked.
Qed.

Lemma extents_phase_spec s suggested st :
  picker_ok s → vsize pieces = num_pieces s → Forall (λ e, 0 ≤ e) (m_recent_extents s) →
  0 < num_blocks st →
  wp (extents_phase pieces prefer pr suggested options st) s
    (λ r s', outcome pieces s prefer st r s' ∧ ∃ x, s' = set_extents x s).
Proof using Ha Rok.
  intros Hok Hsize He Hn. unfold extents_phase. wstep.
  destruct (pick_extents_spec s Hok Hsize (m_recent_extents s) 0 (-1) suggested st He)
    as (st' & d & t & Hrun & Ho & Ht); [by left|done|done|].
  apply wp_bind. eapply wp_reads; [exact Hrun|].
  cbv beta iota. destruct (Z.eqb_spec t (-1)); cbn [negb].
  - apply wp_bind, wp_ret, wp_ret. split; [done|]. exists (m_recent_extents s). by destruct s.
  - assert (Her : ∃ l, verase (m_recent_extents s) t = Some l).
    { unfold verase. rewrite (proj2 (Z.leb_le 0 t)), (proj2 (Z.ltb_lt t _)) by lia. by eexists. }
    destruct Her as [l Hl]. apply wp_bind, wp_bind. eapply wp_reads; [exact Hl|].
    apply wp_modify, wp_ret. split; [|by eexists].
    destruct Ho as [_ H2 H3]. split; [by apply picked_extents|done|done].
Qed.

(** some peer is known to have the piece *)
Definition available (s : picker) (i : Z) : Prop :=
  ∃ p, seen s i = Some p ∧ 0 < peer_count p + m_seeds s.

(** nothing is left in the piece, or it is left to another phase *)
Definition passed_over (s : picker) (ignore : list Z) (st : pick_state) (i : Z) : Prop :=
  i ∈ ignore ∨ (prioritize_partials options = true ∧ view s i ≠ None) ∨ exhausted s options st i.

Lemma enough_passed_over s ignore st i : num_blocks st ≤ 0 → passed_over s ignore st i.
Proof using. intros Hn. right. right. right. right. left. by left. Qed.

Lemma rarest_list_covers s suggested st :
  picker_ok s → vsize pieces = num_pieces s → m_dirty s = false →
  0 < num_blocks st →
  wp (reads (λ s, pick_list (m_pieces (lay s))
          (λ i s, low ← too_low options i s;
                  Some (if low : bool then stop else consider, [piece_picker_rare_loops]))
          flag_rarest_first pieces prefer pr suggested options st s)) s
    (λ r s', outcome pieces s prefer st r s' ∧
      (time_critical_mode options = false →
       ∀ i, usable pieces s i → available s i → passed_over s suggested r.1 i)).
Proof using Ha Rok.
  intros Hok Hsize Hd Hn.
  destruct (rarest_list_spec s Hok Hsize suggested st Hn) as (r & Hrun & Ho & Hcov).
  eapply wp_reads; [exact Hrun|]. split; [done|]. intros Ht i Hu (q & Hq & Hav).
  apply seen_Some in Hq as (p & Hpi & <-).
  destruct (usable_listed s Hok i p Hd Hu Hpi Hav) as [Hin|Hc].
  - apply visited_exhausted. by apply Hcov.
  - right. right. right. right. right. apply Hc.
Qed.

Lemma alike_available s s' i : alike s s' → available s i → available s' i.
Proof using. intros [_ _ _ _ Hs Hseen _] (p & Hp & Hav). exists p. by rewrite Hseen, Hs. Qed.

Lemma alike_passed_over s s' ignore st i :
  alike s s' → passed_over s ignore st i → passed_over s' ignore st i.
Proof using.
  intros Hal [|[[Hp Hv]|He]]; [by left|right; left|right; right; by eapply alike_exhausted].
  by rewrite (al_view _ _ Hal).
Qed.

Lemma rarest_phase_spec s suggested st :
  picker_ok s → vsize pieces = num_pieces s →
  (piece_extent_affinity options = true → Forall (λ e, 0 ≤ e) (m_recent_extents s)) →
  0 < num_blocks st →
  wp (rarest_phase pieces prefer pr suggested options st) s
    (λ r s', outcome pieces s prefer st r s' ∧
      (opt_reverse options = false → time_critical_mode options = false →
       ∀ i, usable pieces s i → available s i → passed_over s suggested r.1 i)).
Proof using Ha Rok.
  intros Hok Hsize He Hn. unfold rarest_phase. apply wp_bind.
  eapply wp_mono; [by apply wp_rebuild|]. intros [] s1 (Hpi & Hd & Hx).
  pose proof Hpi as [Hok1 Hal].
  assert (Hsize1 : vsize pieces = num_pieces s1) by by rewrite Hsize, (al_size _ _ Hal).
  destruct (opt_reverse options && negb (time_critical_mode options)) eqn:Hrev.
  - destruct (reverse_rarest_spec s1 Hok1 Hsize1 (length (m_priority_boundaries (lay s1))) suggested st Hd)
      as (r & Hr & Ho); [unfold vsize; lia|done|].
    eapply wp_reads; [exact Hr|]. split; [by eapply outcome_picked|].
    apply andb_true_iff in Hrev as [-> _]. done.
  - clear Hrev. apply wp_bind.
    eapply wp_mono with (Q := λ r s', outcome pieces s1 prefer st r s' ∧ m_dirty s' = false).
    { destruct (piece_extent_affinity options).
      - eapply wp_mono; [apply extents_phase_spec; try done; rewrite Hx; by apply He|].
        intros r s' [Ho [x ->]]. done.
      - apply wp_ret. split; [by apply outcome_none|done]. }
    intros [st1 d1] s2 [Ho Hd2]. destruct d1.
    { apply wp_ret. split; [by eapply outcome_picked|]. intros _ _ i _ _. apply enough_passed_over.
      destruct Ho as [_ _ Hdone]. cbn in Hdone. symmetry in Hdone. by apply Z.leb_le in Hdone. }
    pose proof (outcome_num _ _ _ _ _ _ Ho eq_refl) as Hn1. pose proof Ho as [[Hok2 Hal2] _ _].
    assert (Hal02 : alike s s2) by by etransitivity.
    eapply wp_mono; [apply (rarest_list_covers s2 suggested st1); try done|].
    { by rewrite Hsize, (al_size _ _ Hal02). }
    intros r s' [Ho2 Hcov]. split.
    + eapply outcome_picked; [exact Hpi|]. by eapply outcome_seq.
    + intros _ Ht i Hu Hav. apply (alike_passed_over s2); [by symmetry|].
      apply Hcov; [done|by apply (alike_usable _ _ Hal02)|by eapply alike_available].
Qed.

Lemma random_phase_spec s suggested st :
  picker_ok s → vsize pieces = num_pieces s → 0 < num_pieces s →
  can_align_random options prefer →
  0 < num_blocks st →
  wp (random_phase pieces prefer pr suggested options st) s (outcome pieces s prefer st).
Proof using Rok.
  intros Hok Hsize Hpos Har Hn. unfold wp, random_phase.
  pose proof (lo_size s (ck_list _ (ok_core _ Hok))).
  pose proof (random_range (num_pieces s - 1) (rng s) ltac:(lia)) as Hr.
  destruct (random _ _) as [start e]. cbn [fst] in Hr.
  destruct (random_loop_spec pieces s Hok Hsize (random_fuel st s) start start prefer prefer pr
    suggested options st) as (st' & Hrun & Hg); [lia|lia|done|done| |].
  { pose proof (steps_range s start start ltac:(lia) ltac:(lia)).
    unfold random_fuel. rewrite Z2Nat.id by nia. nia. }
  rewrite Hrun. cbn [mbind option_bind]. do 2 eexists. split; [done|]. split.
  - by apply picked_rng.
  - done.
  - done.
Qed.
End phases.
End picked.
