(* ===== verification/PickerPicking.v ===== *)
(** [pick_pieces] from its first phase to its end: what it returns for any
    options. *)

From stdpp Require Import gmap.
From S2P Require Import Prelude.
From S2P Require Import Random.
From S2P Require Import PiecePicker.
From S2P Require Import PickerBuckets.
From S2P Require Import PickerState.
From S2P Require Import PickerOps.
From S2P Require Import PickerBlocks.
From S2P Require Import PickerPick.
From S2P Require Import PickerInv.
From S2P Require Import PickerAvail.
From S2P Require Import PickerSteps.
From S2P Require Import PickerDls.
From S2P Require Import PickerCore.
From S2P Require Import PickerMarks.
From S2P Require Import PickerHave.
From S2P Require Import PickerLost.
From S2P Require Import PickerStart.
From S2P Require Import PickerQueries.
From S2P Require Import PickerGrow.
From S2P Require Import PickerPhases.
From S2P Require Import PickerPicked.

Open Scope Z_scope.

Section picking.
Context {R : StdRandom} {Rok : StdRandomOk R} {St : StdSort} {Sok : StdSortOk St}.
Context (pieces : bitfield) (n : Z) (pr : torrent_peer).

(** ** Partial pieces *)

Lemma partials_phase_spec s prefer options st :
  picker_ok s → vsize pieces = num_pieces s →
  progress pieces s n prefer st → 0 < num_blocks st →
  ∃ st' d, partials_phase pieces prefer pr options st s = Some (st', d) ∧
    progress pieces s n prefer st' ∧ d = (num_blocks st' <=? 0) ∧
    (time_critical_mode options = false →
     ∀ i, usable pieces s i → view s i ≠ None → exhausted s options st' i).
Proof using Rok Sok.
  intros Hok Hsize Hp Hn. pose proof (ck_queues _ (ok_core _ Hok)) as Hq.
  pose proof (qs_dls s Hq) as Hd. unfold partials_phase.
  destruct (vget_is_Some (m_downloads (dls s)) 0) as [v Hv]; [by rewrite (dk_len _ _ _ Hd)|].
  change (queue (queue_number piece_downloading) s) with ((m_downloads (dls s))⟦0⟧).
  rewrite Hv. cbn [mbind option_bind].
  destruct (eligible_partials_spec pieces s Hok Hsize v options) as (l & -> & Hl1 & Hl2).
  { intros dp Hdp. by eapply (queue_recorded s Hok piece_downloading). }
  cbn [mbind option_bind].
  set (st0 := with_counters st _). set (ordered := if rarest_first options then _ else _).
  assert (Hord : ordered = (ordered.1, ordered.2)) by by destruct ordered.
  assert (Hperm : ordered.1 ≡ₚ l).
  { unfold ordered. destruct (rarest_first options); [|done]. apply sort_perm. }
  assert (Hst : grows pieces s prefer st ordered.2 ∧ 0 < num_blocks ordered.2).
  { unfold ordered, st0. destruct (rarest_first options); (split; [exact (grows_refl pieces s prefer st)|done]). }
  rewrite Hord. destruct Hst as [Hg0 Hn0]. cbv beta iota.
  destruct (pick_partials_spec pieces s Hok Hsize ordered.1 prefer pr options ordered.2)
    as (st1 & d & -> & [Hg1 Hd1] & Hex); [|done|].
  { intros dp Hdp. rewrite Hperm in Hdp. destruct (Hl1 dp Hdp) as [Hin Hu]. split; [|done].
    by eapply (queue_recorded s Hok piece_downloading). }
  cbn [mbind option_bind].
  assert (Hp1 : progress pieces s n prefer st1).
  { eapply progress_grows; [exact Hp|]. by eapply grows_trans. }
  assert (Hcov : time_critical_mode options = false →
     ∀ i, usable pieces s i → view s i ≠ None → exhausted s options st1 i).
  { intros Ht i Hu Hvi. destruct (view s i) as [[dp bs]|] eqn:Hview; [clear Hvi|done].
    pose proof (usable_range pieces s Hsize i Hu) as Hi.
    destruct (piece_lookup pieces s Hsize i Hi) as (p & _ & Hpi & Hseen & _).
    assert (Hf : filtered p = false).
    { destruct Hu as (_ & q & Hq' & _ & Hf). rewrite Hseen in Hq'. injection Hq' as <-.
      by rewrite filtered_norm in Hf. }
    destruct (decide (download_queue p = piece_downloading)) as [Hdq|Hdq].
    2: { right. right. right. by eapply full_covers. }
    destruct (find_dl_piece_view s Hq i dp bs Hview p Hpi) as (it & Hit & Hat).
    pose proof (view_index s Hq i dp bs Hview) as Hidx.
    pose proof (deref_view s Hq i dp bs Hview it Hat) as Hder.
    destruct Hat as (c & w & dp' & Hc & Hqn & Hw & Hpos & _).
    unfold queue_of in Hc. unfold piece_map in Hpi.
    change (m_piece_map (lay s)) with (PickerAvail.pieces s) in Hpi. rewrite Hpi in Hc.
    injection Hc as <-. rewrite Hdq in Hqn. change (queue_number piece_downloading) with 0 in Hqn.
    unfold deref in Hder. rewrite Hw in Hder. cbn [mbind option_bind] in Hder.
    rewrite Hqn in Hw. unfold queue in Hw. rewrite Hv in Hw. injection Hw as <-.
    rewrite <-Hidx. apply Hex. rewrite Hperm. apply Hl2; [done|by eapply vget_elem_of|by rewrite Hidx]. }
  destruct d.
  { by do 2 eexists. }
  symmetry in Hd1. apply Z.leb_gt in Hd1.
  rewrite (append_backup_nil _ (pg_backup _ _ _ _ _ Hp1)), (proj2 (Z.leb_gt _ _) Hd1).
  destruct (append_backup2_spec pieces s n prefer st1 Hp1 Hd1) as (Hp2 & _ & Hex2).
  do 2 eexists. split; [done|]. split; [done|]. split; [done|]. eauto.
Qed.

(** ** From [get_out] on *)

(** the picks are free blocks; when they are fewer than [n], nothing that
    satisfies [left] has been left, and a busy block may follow *)
Definition result_ok (s : picker) (prefer : Z) (options : picker_options_t)
    (left : piece_block → Prop) (st : pick_state) : Prop :=
  ∃ free busy, interesting_blocks st = free ++ busy ∧ Forall (free_pick pieces s) free ∧
    (prefer = 0 → vsize (interesting_blocks st) ≤ n) ∧
    ((n ≤ vsize free ∧ busy = []) ∨
     ((∀ b, left b → b ∈ free) ∧
      (busy = [] ∨ ∃ b, busy = [b] ∧ busy_pick pieces s pr b ∧ on_parole options = false))).

Lemma result_enough s prefer options left st :
  progress pieces s n prefer st → num_blocks st ≤ 0 → result_ok s prefer options left st.
Proof using.
  intros [H1 _ _ H4 H5] Hn. exists (interesting_blocks st), []. rewrite app_nil_r.
  split; [done|]. split; [done|]. split; [intros Hp; specialize (H5 Hp); lia|]. left. split; [lia|done].
Qed.

(** the blocks of the pieces in which nothing is left *)
Definition exhausted_block (s : picker) (options : picker_options_t) (st : pick_state)
    (b : piece_block) : Prop :=
  exhausted s options st (piece_index b) ∧ on_parole options = false ∧
  locked_at s (piece_index b) = false ∧ free_in s (piece_index b) (block_index b).

Lemma finish_pick_spec s prefer options st :
  picker_ok s → vsize pieces = num_pieces s → progress pieces s n prefer st →
  wp (finish_pick pieces pr options st) s
    (λ st' s', picked s s' ∧ result_ok s prefer options (exhausted_block s options st) st').
Proof using Rok.
  intros Hok Hsize Hp. unfold finish_pick.
  assert (Hret : ∀ st, progress pieces s n prefer st → num_blocks st ≤ 0 →
    wp (mret st) s (λ st' s', picked s s' ∧ result_ok s prefer options (exhausted_block s options st) st')).
  { intros st1 H1 H2. apply wp_ret. split; [by apply picked_refl|]. by apply result_enough. }
  destruct (Z.leb_spec (num_blocks st) 0) as [|Hn]; [by apply Hret|].
  change (backup_blocks st) with (backup_blocks (with_flag st flag_backup1)) in *.
  rewrite (append_backup_nil (with_flag st flag_backup1)) by apply Hp. cbn [num_blocks with_flag].
  rewrite (proj2 (Z.leb_gt _ _) Hn).
  set (st1 := with_flag (with_flag st flag_backup1) flag_backup2).
  assert (Hp1 : progress pieces s n prefer st1) by (destruct Hp; by split).
  destruct (append_backup2_spec pieces s n prefer st1 Hp1 Hn) as (Hp2 & Hb2 & Hex).
  set (st2 := append_backup2 st1) in *.
  destruct (Z.leb_spec (num_blocks st2) 0) as [|Hn2].
  { apply wp_ret. split; [by apply picked_refl|]. by apply result_enough. }
  specialize (Hb2 Hn2).
  assert (Hcov : ∀ b, exhausted_block s options st b → b ∈ interesting_blocks st2).
  { intros [i j] (He & Hpar & Hl & Hf). cbn [piece_index block_index] in *.
    destruct (Hex options i He) as [|[|[Hen|Hc]]]; [congruence|congruence| |].
    - unfold enough in Hen. rewrite Hb2 in Hen. change (vsize []) with 0 in Hen. lia.
    - destruct (Hc j Hf) as [|Hin]; [done|]. rewrite Hb2 in Hin. by apply not_elem_of_nil in Hin. }
  assert (Hdone : result_ok s prefer options (exhausted_block s options st) st2).
  { exists (interesting_blocks st2), []. rewrite app_nil_r. split; [done|]. split; [apply Hp2|].
    split; [|right; split; [done|by left]].
    intros H0. pose proof (pg_exact _ _ _ _ _ Hp2 H0). lia. }
  destruct (on_parole options) eqn:Hpar.
  { apply wp_ret. split; [by apply picked_refl|done]. }
  eapply wp_mono; [apply (end_game_spec pieces s Hok Hsize)|].
  intros st' s' [[e ->] Hbusy]. split; [by apply picked_rng|].
  destruct Hbusy as [[Hi Hn']|(b & Hi & Hn' & Hb)].
  - destruct Hdone as (free & busy & H1 & H2). exists free, busy. by rewrite Hi.
  - exists (interesting_blocks st2), [b]. split; [done|]. split; [apply Hp2|]. split.
    { intros H0. rewrite Hi, vsize_app. change (vsize [b]) with 1.
      pose proof (pg_exact _ _ _ _ _ Hp2 H0). lia. }
    right. split; [done|]. right. by exists b.
Qed.

(** ** The phase that depends on the options *)

Definition main_phase (prefer : Z) (suggested : list Z) (options : picker_options_t)
    (st : pick_state) : M (pick_state * bool) :=
  if sequential options then sequential_phase pieces prefer pr suggested options st
  else if rarest_first options then rarest_phase pieces prefer pr suggested options st
  else if time_critical_mode options then
    reads (λ s, pick_list (m_pieces (lay s)) top_only flag_time_critical pieces prefer pr
                  suggested options st s)
  else random_phase pieces prefer pr suggested options st.

(** pieces are picked in random order *)
Definition random_order (options : picker_options_t) : bool :=
  negb (sequential options) && negb (rarest_first options) && negb (time_critical_mode options).

(** the rarest pieces come first, and nothing keeps some of them from being
    looked at *)
Definition plain_rarest (options : picker_options_t) : bool :=
  rarest_first options && negb (sequential options) && negb (opt_reverse options) &&
  negb (time_critical_mode options) && negb (on_parole options).

Lemma main_phase_spec s prefer suggested options st :
  picker_ok s → vsize pieces = num_pieces s → 0 < num_pieces s → 0 ≤ prefer →
  (random_order options = true → can_align_random options prefer) →
  (piece_extent_affinity options = true → Forall (λ e, 0 ≤ e) (m_recent_extents s)) →
  0 < num_blocks st →
  wp (main_phase prefer suggested options st) s
    (λ r s', outcome pieces s prefer st r s' ∧
      (plain_rarest options = true →
       ∀ i, usable pieces s i → available s i → passed_over options s suggested r.1 i)).
Proof using Rok.
  intros Hok Hsize Hpos Hpref Har He Hn.
  assert (Ha : can_align options prefer) by by intros _.
  unfold main_phase, random_order, plain_rarest in *. destruct (sequential options).
  { eapply wp_mono; [by apply sequential_phase_spec|]. intros r s' Ho. split; [done|].
    by rewrite andb_false_r. }
  destruct (rarest_first options); cbn [negb andb] in *.
  { eapply wp_mono; [by apply rarest_phase_spec|]. intros r s' [Ho Hcov]. split; [done|].
    destruct (opt_reverse options), (time_critical_mode options); try done. intros _. by apply Hcov. }
  destruct (time_critical_mode options).
  - destruct (top_only_outcome pieces prefer pr options Ha s Hok Hsize (m_pieces (lay s))
      flag_time_critical suggested st (list_range s Hok) Hn) as (r & Hr & Ho).
    eapply wp_reads; [exact Hr|]. done.
  - eapply wp_mono; [by apply random_phase_spec; auto|done].
Qed.

(** ** [pick_pieces] *)

(** a block that [pick_pieces] has to find *)
Definition must_find (s : picker) (b : piece_block) : Prop :=
  free_pick pieces s b ∧ available s (piece_index b) ∧ locked_at s (piece_index b) = false.

Lemma result_ok_mono s prefer options (left left' : piece_block → Prop) st :
  (∀ b, left' b → left b) → result_ok s prefer options left st → result_ok s prefer options left' st.
Proof using.
  intros Hl (free & busy & H1 & H2 & H3 & H4). exists free, busy. split; [done|]. split; [done|].
  split; [done|]. destruct H4 as [|[H4 H5]]; [by left|right]. split; [|done]. intros b Hb. auto.
Qed.

Lemma result_ok_alike s s' prefer options left st :
  alike s s' → result_ok s' prefer options left st → result_ok s prefer options left st.
Proof using.
  intros Ha (free & busy & H1 & H2 & H3 & H4). exists free, busy. split; [done|]. split.
  { eapply Forall_impl; [|exact H2]. intros b. by apply alike_free_pick. }
  split; [done|]. destruct H4 as [|[H4 [|(b & Hb & Hbusy & Hp)]]]; [by left|by right; split; [|left]|right].
  split; [done|]. right. exists b. split; [done|]. split; [|done]. by eapply (alike_busy_pick s s').
Qed.

(** the whole of [pick_pieces] after the options have been adjusted *)
Lemma phases_spec s prefer suggested options st :
  picker_ok s → vsize pieces = num_pieces s → 0 < num_pieces s → 0 ≤ prefer →
  (random_order options = true → can_align_random options prefer) →
  (piece_extent_affinity options = true → Forall (λ e, 0 ≤ e) (m_recent_extents s)) →
  (∀ i, i ∈ suggested → 0 ≤ i < num_pieces s) →
  progress pieces s n prefer st → 0 < num_blocks st →
  wp ('(st, done) ← reads (λ s, if prioritize_partials options
                                then partials_phase pieces prefer pr options st s
                                else Some (st, false));
      if (done : bool) then mret st
      else
        '(st, done) ← reads (suggested_phase suggested pieces prefer pr options st);
        if (done : bool) then mret st
        else
          '(st, done) ← main_phase prefer suggested options st;
          if (done : bool) then mret st
          else finish_pick pieces pr options st) s
    (λ st' s', picked s s' ∧
       result_ok s prefer options (λ b, plain_rarest options = true ∧ must_find s b) st').
Proof using Rok Sok.
  intros Hok Hsize Hpos Hpref Har He Hsug Hp Hn.
  assert (Ha : can_align options prefer) by by intros _.
  assert (Hstop : ∀ s1 st, picked s s1 → progress pieces s1 n prefer st → num_blocks st ≤ 0 →
    wp (mret st) s1 (λ st' s', picked s s' ∧
      result_ok s prefer options (λ b, plain_rarest options = true ∧ must_find s b) st')).
  { intros s1 st1 H1 H2 H3. apply wp_ret. split; [done|].
    apply result_enough; [|done]. eapply (alike_progress s1); [symmetry; apply H1|done]. }
  assert (Hphase1 : ∃ st1 d1, (if prioritize_partials options
                          then partials_phase pieces prefer pr options st s
                          else Some (st, false)) = Some (st1, d1) ∧
    progress pieces s n prefer st1 ∧ d1 = (num_blocks st1 <=? 0) ∧
    (time_critical_mode options = false → prioritize_partials options = true →
     ∀ i, usable pieces s i → view s i ≠ None → exhausted s options st1 i)).
  { destruct (prioritize_partials options).
    - destruct (partials_phase_spec s prefer options st Hok Hsize Hp Hn) as (st1 & d1 & H1 & H2 & H3 & H4).
      exists st1, d1. auto.
    - exists st, false. split; [done|]. split; [done|]. split; [|done]. symmetry. by apply Z.leb_gt. }
  destruct Hphase1 as (st1 & d1 & Hrun1 & Hp1 & Hd1 & Hcov1). apply wp_bind.
  eapply wp_reads; [exact Hrun1|]. cbv beta iota. destruct d1.
  { apply Hstop; [by apply picked_refl|done|]. by apply Z.leb_le. }
  symmetry in Hd1. apply Z.leb_gt in Hd1. apply wp_bind.
  destruct (suggested_phase_spec pieces prefer pr options Ha s Hok Hsize suggested st1 Hsug Hd1)
    as ([st2 d2] & Hrun2 & Ho2 & Hg2 & Hcov2). cbn [fst] in Hg2, Hcov2.
  eapply wp_reads; [exact Hrun2|]. cbv beta iota.
  assert (Hp2 : progress pieces s n prefer st2) by by eapply progress_grows.
  destruct d2.
  { apply Hstop; [by apply picked_refl|done|]. destruct Ho2 as [_ _ Hd]. cbn in Hd. by apply Z.leb_le. }
  pose proof (outcome_num _ _ _ _ _ _ Ho2 eq_refl) as Hn2. cbn [fst] in Hn2. apply wp_bind.
  eapply wp_mono; [by apply main_phase_spec|]. intros [st3 d3] s1 [Ho3 Hcov3].
  pose proof Ho3 as [Hpi Hg3 Hd3]. cbn [fst snd] in *.
  assert (Hp3 : progress pieces s n prefer st3) by by eapply progress_grows.
  assert (Hp3' : progress pieces s1 n prefer st3) by (eapply alike_progress; [apply Hpi|done]).
  destruct d3; [apply Hstop; [done|done|]; by apply Z.leb_le|].
  eapply wp_mono; [apply (finish_pick_spec s1 prefer); [apply Hpi|by rewrite Hsize, (al_size _ _ (pi_alike _ _ Hpi))|done]|].
  intros st' s' [Hpi' Hres]. split; [by eapply picked_trans|].
  eapply result_ok_alike; [apply Hpi|]. eapply result_ok_mono; [|exact Hres].
  intros [i j] [Hplain ([Hu Hf] & Hav & Hlock)]. cbn [piece_index block_index] in *.
  assert (Hex : exhausted s options st3 i).
  { pose proof Hplain as Hopt. unfold plain_rarest in Hopt. rewrite !andb_true_iff, !negb_true_iff in Hopt.
    destruct Hopt as [[[_ _] Ht] _].
    assert (Hpart : prioritize_partials options = true → view s i ≠ None → exhausted s options st3 i).
    { intros H1 H2. eapply exhausted_grows; [exact Hg3|]. eapply exhausted_grows; [exact Hg2|]. auto. }
    destruct (Hcov3 Hplain i Hu Hav) as [Hin|[[]|]]; [|auto|done].
    destruct (visited_exhausted _ _ _ _ _ (Hcov2 Ht i Hin Hu)) as [[]%not_elem_of_nil|[[]|He2]]; [auto|].
    by eapply exhausted_grows. }
  unfold exhausted_block, locked_at in *. cbn [piece_index block_index].
  rewrite (al_view _ _ (pi_alike _ _ Hpi)). split; [by eapply alike_exhausted; [apply Hpi|]|].
  split; [|split; [done|by eapply (alike_free_in s); [apply Hpi|]]].
  unfold plain_rarest in Hplain. rewrite !andb_true_iff, !negb_true_iff in Hplain. tauto.
Qed.

(** the peer and the options allow [pick_pieces] *)
Record can_pick_from (s : picker) (prefer : Z) (options : picker_options_t) (suggested : list Z) : Prop := {
  cp_size : vsize pieces = num_pieces s;
  cp_pieces : 0 < num_pieces s;
  cp_wanted : 0 < n;
  cp_prefer : 0 ≤ prefer;
  cp_random : random_order options = true → can_align_random options prefer;
  cp_extents : piece_extent_affinity options = true → Forall (λ e, 0 ≤ e) (m_recent_extents s);
  cp_suggested : ∀ i, i ∈ suggested → 0 ≤ i < num_pieces s
}.

Lemma pick_pieces_spec s prefer options suggested num_peers :
  picker_ok s → can_pick_from s prefer options suggested →
  wp (pick_pieces pieces [] n prefer pr options suggested num_peers) s
    (λ st s', picked s s' ∧
       result_ok s prefer options (λ b, plain_rarest options = true ∧ must_find s b) st).
Proof using Rok Sok.
  intros Hok [H1 H2 H3 H4 H5 H6 H7]. unfold pick_pieces.
  pose proof (qs_dls s (ck_queues _ (ok_core _ Hok))) as Hd.
  destruct (vget_is_Some (m_downloads (dls s)) 0) as [v Hv]; [by rewrite (dk_len _ _ _ Hd)|].
  apply wp_bind. eapply wp_reads; [exact Hv|]. apply wp_bind, wp_gets. cbv zeta.
  assert (Hstart : ∀ prefer st, interesting_blocks st = [] → backup_blocks st = [] →
    backup_blocks2 st = [] → num_blocks st = n → progress pieces s n prefer st).
  { intros prefer' st E1 E2 E3 E4. split; rewrite ?E1, ?E2, ?E3, ?E4; try done; change (vsize []) with 0; lia. }
  assert (Hweak : ∀ prefer' options' st, (prefer = 0 → prefer' = 0) →
    plain_rarest options' = plain_rarest options → on_parole options' = on_parole options →
    result_ok s prefer' options' (λ b, plain_rarest options' = true ∧ must_find s b) st →
    result_ok s prefer options (λ b, plain_rarest options = true ∧ must_find s b) st).
  { intros prefer' options' st E1 E2 E3 (free & busy & R1 & R2 & R3 & R4). rewrite E2, E3 in R4.
    exists free, busy. split; [done|]. split; [done|]. split; [auto|exact R4]. }
  destruct (_ || _); cbv beta iota.
  - eapply wp_mono; [apply (phases_spec s 0 suggested (set_prioritize_partials options)); try done|].
    { by apply Hstart. }
    intros st s' [Hpi Hres]. split; [done|]. by eapply Hweak.
  - eapply wp_mono; [apply (phases_spec s prefer suggested options); try done|].
    { by destruct (prefer =? 0); apply Hstart. }
    { by destruct (prefer =? 0). }
    done.
Qed.
End picking.
