(* ===== verification/PickerDistinct.v ===== *)
(** The picks of [pick_pieces] are distinct when the rarest pieces come first,
    contiguous blocks are not preferred and extents do not matter: every phase
    picks from pieces that no other phase picks from. *)

From stdpp Require Import gmap.
From S2P Require Import Prelude.
From S2P Require Import Random.
From S2P Require Import PiecePicker.
From S2P Require Import PickerBuckets.
From S2P Require Import PickerState.
From S2P Require Import PickerOps.
From S2P Require Import PickerBlocks.
From S2P Require Import PickerPick.
From S2P Require Import PickerInv.
From S2P Require Import PickerAvail.
From S2P Require Import PickerSteps.
From S2P Require Import PickerDls.
From S2P Require Import PickerCore.
From S2P Require Import PickerMarks.
From S2P Require Import PickerHave.
From S2P Require Import PickerLost.
From S2P Require Import PickerStart.
From S2P Require Import PickerCheck.
From S2P Require Import PickerQueries.
From S2P Require Import PickerGrow.
From S2P Require Import PickerPhases.
From S2P Require Import PickerPicked.
From S2P Require Import PickerPicking.
From stdpp Require Import list.

Open Scope Z_scope.

Section distinct.
Context {R : StdRandom} {Rok : StdRandomOk R}.

(** the new picks are distinct blocks of the pieces in [P] *)
Definition picks_in (P : Z → Prop) (st st' : pick_state) : Prop :=
  ∃ a, interesting_blocks st' = interesting_blocks st ++ a ∧ backup_blocks2 st' = backup_blocks2 st ∧
    backup_blocks st' = backup_blocks st ∧ NoDup a ∧ ∀ b, b ∈ a → P (piece_index b).

Lemma picks_in_refl P st : picks_in P st st.
Proof. exists []. rewrite app_nil_r. split_and!; try done; [by constructor|]. intros b []%not_elem_of_nil. Qed.

Lemma picks_in_mono (P Q : Z → Prop) st st' :
  (∀ i, P i → Q i) → picks_in P st st' → picks_in Q st st'.
Proof. intros H (a & H1 & H2 & H3 & H4 & H5). exists a. split_and!; auto. Qed.

Lemma picks_in_seq (P Q S : Z → Prop) st1 st2 st3 :
  picks_in P st1 st2 → picks_in Q st2 st3 → (∀ i, P i → Q i → False) →
  (∀ i, P i ∨ Q i → S i) → picks_in S st1 st3.
Proof.
  intros (a & A1 & A2 & A3 & A4 & A5) (b & B1 & B2 & B3 & B4 & B5) Hd HS. exists (a ++ b).
  rewrite B1, B2, B3, A1, A2, A3, (assoc_L (++)). split_and!; try done.
  - apply NoDup_app. split_and!; try done. intros x Hx Hx'. apply (Hd (piece_index x)); auto.
  - intros x [Hx|Hx]%elem_of_app; apply HS; auto.
Qed.

(** blocks of one piece with growing indices *)
Lemma pick_open_sorted n bs i j total num l num' early :
  0 ≤ j → j + Z.of_nat n ≤ total →
  pick_open n bs i j 0 total num 0 = Some (l, num', early) →
  NoDup l ∧ ∀ b, b ∈ l → piece_index b = i ∧ j ≤ block_index b.
Proof.
  revert j num l. induction n as [|n IH]; intros j num l Hj Hn; cbn [pick_open].
  { intros [= <- <- <-]. split; [constructor|]. intros b []%not_elem_of_nil. }
  rewrite Z.add_0_r, Z.rem_small by lia. destruct (bs⟦j⟧) as [x|]; [|done]. cbn [mbind option_bind].
  destruct (negb _).
  { intros H. apply IH in H as [H1 H2]; [|lia..]. split; [done|]. intros b Hb.
    destruct (H2 b Hb). lia. }
  destruct (_ && _).
  { intros [= <- <- <-]. split; [apply NoDup_singleton|]. intros b ->%list_elem_of_singleton. cbn. lia. }
  rewrite Z.ltb_irrefl. destruct (pick_open n bs i (j + 1) 0 total (num - 1) 0) as [[[l1 n1] e1]|] eqn:Hrec; [|done].
  cbn [mbind option_bind]. intros [= <- <- <-]. apply IH in Hrec as [H1 H2]; [|lia..]. split.
  - apply NoDup_cons. split; [|done]. intros Hin. apply H2 in Hin. cbn in Hin. lia.
  - intros b [->|Hb]%elem_of_cons; [cbn; lia|]. destruct (H2 b Hb). lia.
Qed.

Section picker.
Context (pieces : bitfield) (s : picker) (Hok : picker_ok s).

Lemma add_blocks_downloading_in dp bs pr options st st' :
  view s (dp_index dp) = Some (dp, bs) →
  add_blocks_downloading dp pieces 0 pr options st s = Some st' →
  picks_in (λ i, i = dp_index dp) st st'.
Proof using Hok.
  intros Hv. unfold add_blocks_downloading.
  destruct (pieces⟦dp_index dp⟧) as [b|]; [|done]. cbn [mbind option_bind].
  destruct b; cbn [negb]; [|intros [= <-]; apply picks_in_refl].
  destruct (locked dp); [intros [= <-]; apply picks_in_refl|].
  destruct (requested_from_spec s Hok _ dp bs pr Hv) as (ex & exa & c & first & -> & _ & Hc).
  cbn [mbind option_bind]. destruct (_ && _); [intros [= <-]; apply picks_in_refl|].
  destruct (blocks_of_view s Hok _ dp bs Hv) as (sp & Hsp & Hspan).
  rewrite Hsp. cbn [mbind option_bind]. rewrite Hspan. cbn [mbind option_bind].
  rewrite (proj2 (Z.ltb_ge c 0)) by lia. cbn [andb]. rewrite Z.eqb_refl.
  destruct (pick_open _ _ _ _ _ _ _ _) as [[[l num] early]|] eqn:Hpick; [|done].
  cbn [mbind option_bind]. intros [= <-]. pose proof (ck_queues _ (ok_core _ Hok)) as Hq.
  pose proof (blocks_in_piece_range (dp_index dp) s (qs_sizes s Hq)).
  apply pick_open_sorted in Hpick as [H1 H2]; [|lia..].
  exists l. split_and!; try done. intros b Hb. by apply H2.
Qed.

(** what is picked from the open piece or the record of piece [i] *)
Lemma add_blocks_in i pr ignore options st st' :
  0 ≤ i < num_pieces s →
  add_blocks i pieces 0 pr ignore options st s = Some st' →
  picks_in (λ k, k = i ∧ (i ∉ ignore) ∧ (prioritize_partials options = true → view s i = None)) st st'.
Proof using Hok.
  intros Hi. unfold add_blocks. case_bool_decide as Hign; [intros [= <-]; apply picks_in_refl|].
  destruct (vget_is_Some (m_piece_map (lay s)) i Hi) as [p Hp].
  change ((m_piece_map (lay s))⟦i⟧) with (piece_map i s) in Hp. rewrite Hp. cbn [mbind option_bind].
  pose proof (ck_queues _ (ok_core _ Hok)) as Hq. pose proof (view_open s i p Hq Hp) as Ho.
  destruct (decide (download_queue p = piece_open)) as [Hopen|Hopen].
  { rewrite (bool_decide_eq_true_2 (_ = piece_open) Hopen).
    rewrite (bool_decide_eq_false_2 (_ = piece_downloading)) by congruence. cbn [negb andb].
    rewrite Z.eqb_refl. intros [= <-]. eexists. cbn. split; [done|]. split; [done|]. split; [done|].
    split.
    - apply (NoDup_fmap_2_strong (λ j, PieceBlock i (Z.of_nat j))); [|apply NoDup_seq].
      intros x y _ _ [= Hxy]. lia.
    - intros b Hb. apply list_elem_of_In, in_map_iff in Hb as (k & <- & _). split; [done|].
      split; [done|]. intros _. by apply Ho. }
  rewrite (bool_decide_eq_false_2 (_ = piece_open) Hopen). cbn [negb andb].
  destruct (decide (download_queue p = piece_downloading)) as [Hd|Hd].
  2: { rewrite (bool_decide_eq_false_2 _ Hd). cbn [negb]. intros [= <-]. apply picks_in_refl. }
  rewrite (bool_decide_eq_true_2 _ Hd). cbn [negb].
  destruct (prioritize_partials options); [intros [= <-]; apply picks_in_refl|].
  destruct (view s i) as [[dp bs]|] eqn:Hv; [|rewrite (proj1 Ho eq_refl) in Hd; done].
  destruct (find_dl_piece_view s Hq i dp bs Hv p Hp) as (it & Hit & Hat). rewrite Hd in Hit.
  rewrite Hit. cbn [mbind option_bind]. rewrite (deref_view s Hq i dp bs Hv it Hat).
  cbn [mbind option_bind]. intros Hrun. pose proof (view_index s Hq i dp bs Hv) as Hidx.
  apply (add_blocks_downloading_in dp bs) in Hrun; [|by rewrite Hidx].
  eapply picks_in_mono; [|exact Hrun]. intros k ->. by rewrite Hidx.
Qed.

Lemma pick_list_in l check flag pr ignore options st st' d :
  (∀ i, i ∈ l → 0 ≤ i < num_pieces s) → NoDup l →
  pick_list l check flag pieces 0 pr ignore options st s = Some (st', d) →
  picks_in (λ k, k ∈ l ∧ (k ∉ ignore) ∧ (prioritize_partials options = true → view s k = None)) st st'.
Proof using Hok.
  revert st. induction l as [|i l IH]; intros st Hl Hnd; cbn [pick_list].
  { intros [= <- _]. apply picks_in_refl. }
  apply NoDup_cons in Hnd as [Hni Hnd].
  assert (IH' : ∀ st0, picks_in (λ _, False) st st0 →
    pick_list l check flag pieces 0 pr ignore options st0 s = Some (st', d) →
    picks_in (λ k, k ∈ i :: l ∧ (k ∉ ignore) ∧ (prioritize_partials options = true → view s k = None)) st st').
  { intros st0 H0 Hrun. eapply picks_in_seq; [exact H0|eapply IH; [|done|done]|done|].
    - intros k Hk. apply Hl. by right.
    - intros k [[]|(Hk & H1 & H2)]. split; [by right|done]. }
  assert (Hsame : ∀ cs, picks_in (λ _, False) st (with_counters st cs)).
  { intros cs. exact (picks_in_refl _ st). }
  destruct (check i s) as [[v cs]|]; [|done]. cbn [mbind option_bind]. destruct v.
  - destruct (is_piece_free i pieces s) as [f|]; [|done]. cbn [mbind option_bind].
    destruct f; cbn [negb]; [|by apply IH'].
    destruct (add_blocks i pieces 0 pr ignore options _ s) as [st1|] eqn:Hadd; [|done].
    cbn [mbind option_bind]. apply add_blocks_in in Hadd; [|apply Hl; left].
    assert (H1 : picks_in (λ k, k = i ∧ (i ∉ ignore) ∧ (prioritize_partials options = true → view s i = None)) st st1)
      by exact Hadd.
    destruct (_ <=? 0).
    + intros [= <- _]. eapply picks_in_mono; [|exact H1]. intros k (-> & H2 & H3). split; [by left|done].
    + intros Hrun. eapply picks_in_seq; [exact H1|eapply IH; [|done|exact Hrun]| |].
      * intros k Hk. apply Hl. by right.
      * intros k (-> & _) (Hk & _). done.
      * intros k [(-> & H2 & H3)|(Hk & H2 & H3)]; (split; [by (left || right)|done]).
  - by apply IH'.
  - intros [= <- _]. eapply picks_in_mono; [|apply Hsame]. done.
Qed.

Lemma pick_partials_in l pr options st st' d :
  (∀ dp, dp ∈ l → recorded s dp) → NoDup (dp_index <$> l) →
  pick_partials l pieces 0 pr options st s = Some (st', d) →
  picks_in (λ k, k ∈ dp_index <$> l) st st'.
Proof using Hok.
  revert st. induction l as [|dp l IH]; intros st Hl Hnd; cbn [pick_partials].
  { intros [= <- _]. apply picks_in_refl. }
  rewrite fmap_cons in *. apply NoDup_cons in Hnd as [Hni Hnd].
  destruct (add_blocks_downloading dp pieces 0 pr options _ s) as [st1|] eqn:Hadd; [|done].
  cbn [mbind option_bind]. destruct (Hl dp ltac:(left)) as [_ [bs Hv]].
  apply (add_blocks_downloading_in dp bs) in Hadd; [|done].
  assert (H1 : picks_in (λ i, i = dp_index dp) st st1) by exact Hadd.
  assert (Hend : picks_in (λ k, k ∈ dp_index dp :: (dp_index <$> l)) st st1).
  { eapply picks_in_mono; [|exact H1]. intros k ->. by left. }
  destruct (_ <=? 0); [by intros [= <- _]|]. destruct (_ && _); [by intros [= <- _]|].
  intros Hrun. eapply picks_in_seq; [exact H1|eapply IH; [|done|exact Hrun]| |].
  - intros d' Hd. apply Hl. by right.
  - intros k -> Hk. done.
  - intros k [->|Hk]; [by left|by right].
Qed.

Lemma eligible_sublist l options l' :
  eligible_partials l pieces options s = Some l' → l' `sublist_of` l.
Proof using.
  revert l'. induction l as [|dp l IH]; intros l'; cbn [eligible_partials]; [by intros [= <-]|].
  destruct (too_low _ _ _) as [low|]; [|done]. cbn [mbind option_bind].
  destruct (if low then _ else _) as [f|]; [|done]. cbn [mbind option_bind].
  destruct (eligible_partials l pieces options s) as [l1|]; [|done]. cbn [mbind option_bind].
  intros [= <-]. specialize (IH l1 eq_refl). destruct f; by constructor.
Qed.

(** the records of a queue are those of different pieces *)
Lemma ordered_indices v : ordered v → NoDup (dp_index <$> v).
Proof using.
  induction v as [|dp v IH]; intros Hv; [constructor|]. apply ordered_cons in Hv as [Hv Hlt].
  rewrite fmap_cons. apply NoDup_cons. split; [|by apply IH].
  intros (d & Hd & Hin)%list_elem_of_fmap. rewrite Forall_forall in Hlt. specialize (Hlt d Hin).
  unfold dp_lt in Hlt. lia.
Qed.

Lemma partials_phase_in {St : StdSort} {Sok : StdSortOk St} pr options st st' d :
  vsize pieces = num_pieces s → backup_blocks st = [] → backup_blocks2 st = [] →
  partials_phase pieces 0 pr options st s = Some (st', d) →
  picks_in (λ k, view s k ≠ None) st st'.
Proof using Hok Rok.
  intros Hsize Hb Hb2. unfold partials_phase.
  pose proof (qs_dls s (ck_queues _ (ok_core _ Hok))) as Hd.
  destruct (queue (queue_number piece_downloading) s) as [v|] eqn:Hv; [|done]. cbn [mbind option_bind].
  destruct (eligible_partials v pieces options s) as [l|] eqn:Hel; [|done]. cbn [mbind option_bind].
  apply eligible_sublist in Hel.
  set (st0 := with_counters st _). set (ordered := if rarest_first options then _ else _).
  assert (Hord : ordered = (ordered.1, ordered.2)) by by destruct ordered.
  assert (Hperm : ordered.1 ≡ₚ l) by (unfold ordered; destruct (rarest_first options); [apply sort_perm|done]).
  assert (Hst : picks_in (λ _, False) st ordered.2).
  { unfold ordered, st0. destruct (rarest_first options); exact (picks_in_refl _ st). }
  rewrite Hord. cbv beta iota.
  destruct (pick_partials _ _ _ _ _ _ _) as [[st1 d1]|] eqn:Hrun; [|done]. cbn [mbind option_bind].
  assert (Hrec : ∀ dp, dp ∈ ordered.1 → recorded s dp).
  { intros dp Hdp. rewrite Hperm in Hdp. eapply (queue_recorded s Hok piece_downloading); [done|done|].
    eapply elem_of_submseteq; [exact Hdp|by apply sublist_submseteq]. }
  apply pick_partials_in in Hrun; [|done|].
  2: { rewrite Hperm. eapply sublist_NoDup; [|by apply fmap_sublist].
    apply ordered_indices. by eapply (dk_ordered _ _ _ Hd). }
  assert (Hin : picks_in (λ k, view s k ≠ None) st st1).
  { eapply picks_in_seq; [exact Hst|exact Hrun|done|]. intros k [[]|(dp & -> & Hdp)%list_elem_of_fmap].
    destruct (Hrec dp Hdp) as [_ [bs Hview]]. congruence. }
  destruct d1; [by intros [= <- _]|]. pose proof Hin as (a & A1 & A2 & A3 & _).
  rewrite append_backup_nil by congruence. destruct (_ <=? 0); [by intros [= <- _]|].
  assert (Hsame : append_backup2 st1 = st1).
  { destruct st1 as [l1 b1 b21 n1 r1 c1]. cbn in *. by rewrite A2, Hb2. }
  rewrite Hsame. by intros [= <- _].
Qed.

(** the list holds a piece once *)
Lemma list_NoDup : m_dirty s = false → NoDup (m_pieces (lay s)).
Proof using Hok.
  intros Hd. pose proof (ck_list _ (ok_core _ Hok)) as Hl. apply NoDup_alt. intros t u i Ht Hu.
  rewrite <-vget_nat in Ht, Hu.
  destruct (slot_piece _ _ _ _ (lo_listed _ Hl Hd) Ht) as (p & Hp & Hip & _).
  destruct (slot_piece _ _ _ _ (lo_listed _ Hl Hd) Hu) as (q & Hq & Hiq & _).
  rewrite Hp in Hq. injection Hq as ->. lia.
Qed.
End picker.

(** ** Running the phases *)

Lemma bind_run {A B} (m : M A) (k : A → M B) s r :
  (m ≫= k) s = Some r → ∃ x s1, m s = Some (x, s1) ∧ k x s1 = Some r.
Proof. unfold mbind, M_bind. destruct (m s) as [[x s1]|]; [|done]. intros H. by exists x, s1. Qed.

Lemma reads_run {A} (f : picker → option A) s x s1 : reads f s = Some (x, s1) → f s = Some x ∧ s1 = s.
Proof. unfold reads. destruct (f s) as [y|]; [|done]. by intros [= <- <-]. Qed.

Lemma wp_run {A} (m : M A) s (Q : A → picker → Prop) x s1 : wp m s Q → m s = Some (x, s1) → Q x s1.
Proof. intros (y & s2 & Hrun & HQ) Hx. rewrite Hrun in Hx. by injection Hx as -> ->. Qed.

Lemma rarest_phase_in pieces pr suggested options st s st' d s' :
  picker_ok s → opt_reverse options = false → piece_extent_affinity options = false →
  rarest_phase pieces 0 pr suggested options st s = Some ((st', d), s') →
  picked s s' ∧
  picks_in (λ k, (k ∉ suggested) ∧ (prioritize_partials options = true → view s k = None)) st st'.
Proof.
  intros Hok Hrev Hext. unfold rarest_phase. rewrite Hrev, Hext. cbn [andb].
  intros ([] & s1 & H1 & Hrun)%bind_run.
  destruct (wp_run _ _ _ _ _ (wp_rebuild s Hok) H1) as ([Hok1 Hal] & Hd & _).
  apply bind_run in Hrun as ([st1 d1] & s2 & Hret & Hrun). injection Hret as <- <- <-.
  apply reads_run in Hrun as [Hrun ->]. split; [done|]. apply pick_list_in in Hrun; [|done|by apply list_range|by apply list_NoDup].
  eapply picks_in_mono; [|exact Hrun]. intros k (_ & Hk & Hv). split; [done|].
  intros Hp. rewrite <-(al_view _ _ Hal). auto.
Qed.

(** from [get_out] on, with empty backups *)
Lemma finish_pick_in pieces pr options st s st' s' :
  picker_ok s → vsize pieces = num_pieces s → backup_blocks st = [] → backup_blocks2 st = [] →
  finish_pick pieces pr options st s = Some (st', s') →
  interesting_blocks st' = interesting_blocks st ∨
  ∃ b, interesting_blocks st' = interesting_blocks st ++ [b] ∧ busy_pick pieces s pr b.
Proof.
  intros Hok Hsize Hb Hb2. unfold finish_pick. destruct (_ <=? 0); [intros [= <- _]; by left|].
  rewrite (append_backup_nil (with_flag st flag_backup1)) by done.
  destruct (_ <=? 0); [intros [= <- _]; by left|].
  assert (Hsame : append_backup2 (with_flag (with_flag st flag_backup1) flag_backup2) =
                  with_flag (with_flag st flag_backup1) flag_backup2).
  { destruct st as [l b b2 n r c]. cbn in *. by subst b2. }
  rewrite Hsame. destruct (_ <=? 0); [intros [= <- _]; by left|].
  destruct (on_parole options); [intros [= <- _]; by left|]. intros Hrun.
  destruct (wp_run _ _ _ _ _ (end_game_spec pieces s Hok Hsize pr options _) Hrun)
    as [_ [[-> _]|(b & -> & _ & Hbusy)]]; [by left|right]. by exists b.
Qed.

Context {St : StdSort} {Sok : StdSortOk St}.

(** the picks before the end game *)
Definition only_picks (s : picker) (pieces : bitfield) (pr : torrent_peer) (st st' : pick_state) : Prop :=
  ∃ a, NoDup a ∧ (interesting_blocks st' = interesting_blocks st ++ a ∨
    ∃ b, interesting_blocks st' = interesting_blocks st ++ a ++ [b] ∧ busy_pick pieces s pr b).

Lemma picks_only s pieces pr P st st' : picks_in P st st' → only_picks s pieces pr st st'.
Proof. intros (a & H1 & _ & _ & H4 & _). exists a. split; [done|by left]. Qed.

(** the phases, one after another *)
Lemma phases_in pieces pr options suggested st s st' s' :
  picker_ok s → vsize pieces = num_pieces s → (∀ i, i ∈ suggested → 0 ≤ i < num_pieces s) →
  NoDup suggested → plain_rarest options = true → piece_extent_affinity options = false →
  0 < num_blocks st → backup_blocks st = [] → backup_blocks2 st = [] →
  ('(st, done) ← reads (λ s, if prioritize_partials options
                                then partials_phase pieces 0 pr options st s
                                else Some (st, false));
      if (done : bool) then mret st
      else
        '(st, done) ← reads (suggested_phase suggested pieces 0 pr options st);
        if (done : bool) then mret st
        else
          '(st, done) ← main_phase pieces pr 0 suggested options st;
          if (done : bool) then mret st
          else finish_pick pieces pr options st) s = Some (st', s') →
  only_picks s pieces pr st st'.
Proof.
  intros Hok Hsize Hsug Hnd Hplain Hext Hn Hb Hb2.
  assert (Hopt : rarest_first options = true ∧ sequential options = false ∧ opt_reverse options = false).
  { unfold plain_rarest in Hplain. rewrite !andb_true_iff, !negb_true_iff in Hplain. tauto. }
  destruct Hopt as (Hrare & Hseq & Hrev).
  intros ([st1 d1] & s1 & H1 & Hrun)%bind_run. apply reads_run in H1 as [H1 ->].
  set (P1 := λ k, prioritize_partials options = true ∧ view s k ≠ None).
  assert (Hin1 : picks_in P1 st st1).
  { unfold P1. destruct (prioritize_partials options).
    - eapply picks_in_mono; [|by eapply partials_phase_in]. done.
    - injection H1 as <- <-. apply picks_in_refl. }
  destruct d1; [injection Hrun as <- _; by eapply picks_only|].
  apply bind_run in Hrun as ([st2 d2] & s2 & H2 & Hrun). apply reads_run in H2 as [H2 ->].
  set (P2 := λ k, k ∈ suggested ∧ (prioritize_partials options = true → view s k = None)).
  assert (Hin2 : picks_in P2 st1 st2).
  { unfold suggested_phase in H2. apply pick_list_in in H2; [|done|done|done].
    eapply picks_in_mono; [|exact H2]. by intros k (H3 & _ & H4). }
  assert (Hin12 : picks_in (λ k, P1 k ∨ P2 k) st st2).
  { eapply picks_in_seq; [exact Hin1|exact Hin2| |done]. intros k [Hp Hv] [_ Hv']. auto. }
  destruct d2; [injection Hrun as <- _; by eapply picks_only|].
  apply bind_run in Hrun as ([st3 d3] & s3 & H3 & Hrun).
  unfold main_phase in H3. rewrite Hseq, Hrare in H3.
  destruct (rarest_phase_in _ _ _ _ _ _ _ _ _ Hok Hrev Hext H3) as [[Hok3 Hal] Hr].
  assert (Hin3 : picks_in (λ _, True) st st3).
  { eapply picks_in_seq; [exact Hin12|exact Hr| |done].
    intros k [[Hp Hv]|[Hk _]] [Hk' Hv']; auto. }
  destruct d3; [injection Hrun as <- _; by eapply picks_only|].
  destruct Hin3 as (a & A1 & A2 & A3 & A4 & _). exists a. split; [done|].
  apply finish_pick_in in Hrun; [|done|by rewrite Hsize, (al_size _ _ Hal)|congruence|congruence].
  destruct Hrun as [->|(b & -> & Hbusy)]; [by left|right]. exists b. split; [by rewrite A1, (assoc_L (++))|].
  by apply (alike_busy_pick _ _ Hal).
Qed.

(** the picks of a run with these options are distinct *)
Lemma pick_pieces_NoDup pieces n pr options suggested num_peers s st s' :
  picker_ok s → can_pick_from pieces n s 0 options suggested → NoDup suggested →
  plain_rarest options = true → piece_extent_affinity options = false →
  pick_pieces pieces [] n 0 pr options suggested num_peers s = Some (st, s') →
  NoDup (interesting_blocks st).
Proof.
  intros Hok Hc Hnd Hplain Hext Hrun.
  destruct (pick_pieces_spec pieces n pr s 0 options suggested num_peers Hok Hc)
    as (st0 & s0 & Hrun0 & _ & (free & busy & Hi & Hfree & _ & Hcase)).
  rewrite Hrun in Hrun0. injection Hrun0 as <- <-.
  assert (Hno : ∀ b, b ∈ free → ¬ busy_pick pieces s pr b).
  { rewrite Forall_forall in Hfree. intros b Hb (_ & _ & Hv & Hst & _).
    destruct (Hfree b Hb) as [_ [_ [Hv'|Hst']]]; congruence. }
  assert (Honly : ∃ st0, interesting_blocks st0 = [] ∧ only_picks s pieces pr st0 st).
  { unfold pick_pieces in Hrun. apply bind_run in Hrun as (v & s1 & H1 & Hrun).
    apply reads_run in H1 as [_ ->]. apply bind_run in Hrun as (w & s2 & H2 & Hrun).
    injection H2 as <- <-. destruct Hc as [C1 C2 C3 C4 C5 C6 C7].
    destruct (_ || _); eexists; (split; [|eapply phases_in; [..|exact Hrun]]); done. }
  destruct Honly as (st0 & H0 & a & Ha & [Hst|(b & Hst & Hb)]); rewrite Hst, H0 in *; cbn [app] in *.
  - done.
  - apply NoDup_app. split_and!; [done| |apply NoDup_singleton].
    intros x Hx ->%list_elem_of_singleton.
    destruct Hcase as [[_ ->]|[_ [->|(b' & -> & _)]]].
    + rewrite app_nil_r in Hi. apply (Hno b); [|done]. rewrite <-Hi. apply elem_of_app. by left.
    + rewrite app_nil_r in Hi. apply (Hno b); [|done]. rewrite <-Hi. apply elem_of_app. by left.
    + apply app_inj_tail in Hi as [-> ->]. by apply (Hno b').
Qed.
End distinct.
