(* ===== verification/PickerProperties.v ===== *)
(** What is proved of the piece picker: src/btdownloader/torrent/piece_picker.cpp.

    A state that can be reached satisfies [picker_ok] (PickerHave.v,
    [reachable_ok] of PickerCalls.v); most theorems here are about any state
    that does. *)

From stdpp Require Import gmap.
From S2P Require Import Prelude.
From S2P Require Import Random.
From S2P Require Import PiecePicker.
From S2P Require Import PickerBuckets.
From S2P Require Import PickerRebuild.
From S2P Require Import PickerState.
From S2P Require Import PickerOps.
From S2P Require Import PickerBlocks.
From S2P Require Import PickerDls.
From S2P Require Import PickerInv.
From S2P Require Import PickerAvail.
From S2P Require Import PickerSteps.
From S2P Require Import PickerCore.
From S2P Require Import PickerMarks.
From S2P Require Import PickerDownloading.
From S2P Require Import PickerCancel.
From S2P Require Import PickerHave.
From S2P Require Import PickerLost.
From S2P Require Import PickerStart.
From S2P Require Import PickerCheck.
From S2P Require Import PickerCalls.
From S2P Require Import PickerQueries.

Open Scope Z_scope.

(** ** A picker to try the theorems on *)

(** three pieces of four blocks, the last one of two *)
Definition sample0 : picker :=
  match new_picker 4 2 3 7 with
  | Some (_, s) => s
  | None => Picker (Layout [] [] []) true 0 7 (Downloads [] [] []) (Tallies 0 0 0 0 0 0 0 0) 0 0 [] ∅ [] 0 0
  end.

Definition after (c : call) (s : picker) : picker :=
  match run_call c s with Some (_, s') => s' | None => s end.

(** a call that runs, which is decided by running it *)
Definition runs {A} (m : M A) (s : picker) : bool :=
  match m s with Some _ => true | None => false end.

Lemma after_runs c s : runs (run_call c) s = true → run_call c s = Some (tt, after c s).
Proof. unfold runs, after. by destruct (run_call c s) as [[[] s']|]. Qed.

Lemma sample0_new : new_picker 4 2 3 7 = Some (returned, sample0).
Proof.
  destruct (new_picker_spec (R := lcg) 4 2 3 7) as (s & Hs & _); [done|done|done|].
  unfold sample0. by rewrite Hs.
Qed.

Lemma sample0_fresh : fresh_picker 4 2 3 sample0.
Proof. split; vm_compute; done. Qed.

Lemma sample0_ok : picker_ok sample0.
Proof. apply (fresh_picker_ok 4 2 3); [done|done|done|apply sample0_fresh]. Qed.

Lemma after_ok c s : picker_ok s → valid c s → picker_ok (after c s).
Proof.
  intros Hok Hv. destruct (run_call_ok c s Hok Hv) as ([] & s' & Hrun & Hok').
  unfold after. by rewrite Hrun.
Qed.

(** a condition on all pieces, checked piece by piece *)
Lemma counts_fit_check s d :
  forallb (λ k, match piece_map (Z.of_nat k) s with
                | Some p => (0 <=? peer_count p + m_seeds s + d (Z.of_nat k)) &&
                            (peer_count p + m_seeds s + d (Z.of_nat k) <? 2 ^ 26)
                | None => true
                end) (seq 0 (Z.to_nat (num_pieces s))) = true → counts_fit s d.
Proof.
  intros Hall j p Hp. pose proof (vget_Some_range _ _ _ Hp) as Hr.
  change (0 ≤ j < num_pieces s) in Hr.
  rewrite forallb_forall in Hall. specialize (Hall (Z.to_nat j)).
  rewrite Z2Nat.id, Hp in Hall by lia. 
  apply andb_true_iff in Hall as [H1 H2]; [lia|]. apply in_seq. lia.
Qed.

Definition opts0 : picker_options_t := Options true false false false false false false true.

(** one seed, the list in order, block 1 of piece 0 requested from peer 5 *)
Definition sample1 : picker := after call_update_pieces (after call_inc_refcount_all sample0).
Definition sample2 : picker := after (call_mark_as_downloading (PieceBlock 0 1) 5 opts0) sample1.
(** the block has been received and is being written *)
Definition sample3 : picker := after (call_mark_as_writing (PieceBlock 0 1) 5) sample2.

Lemma sample1_ok : picker_ok sample1.
Proof. apply after_ok; [apply after_ok; [apply sample0_ok|by vm_compute]|done]. Qed.

Lemma sample2_ok : picker_ok sample2.
Proof. apply after_ok; [apply sample1_ok|]. by vm_compute. Qed.

Lemma sample3_ok : picker_ok sample3.
Proof. apply after_ok; [apply sample2_ok|]. by vm_compute. Qed.

(** ** The invariant *)

Section invariant.
Context {R : StdRandom} {Rok : StdRandomOk R}.

(** C5: Every state that a new picker reaches by calls that are allowed and
    harmless passes [check_invariant], the checker of debug builds, and its
    tallies are [int]s that are not negative.  A further allowed call returns: it
    reads and writes inside the vectors, and neither the number of seeds nor the
    number of a block among the pad blocks overflows.  When the call is harmless,
    the new state is reachable and passes the checker too.  A call is allowed
    when its arguments are in range, the counters have room and the assertions
    that its outcome depends on hold ([allowed] lists them call by call).  Not
    harmless are four calls that the code permits although they leave the state
    inconsistent: canceling, aborting or restoring blocks of a piece that has
    passed the hash check, and [we_dont_have] of a piece that is not had, when
    dropping its record changes its priority; these return as well. *)
Theorem picker_safe n last total e s c :
  0 < n ≤ max_blocks_per_piece → 0 ≤ last ≤ n → 0 ≤ total < 2 ^ 31 →
  reachable n last total e s → allowed c s →
  check_invariant s = Some true ∧ tallies_fit (tal s) ∧
  ∃ s', run_call c s = Some (tt, s') ∧
    (harmless c s →
     reachable n last total e s' ∧ check_invariant s' = Some true ∧ tallies_fit (tal s')).
Proof.
  intros Hn Hlast Ht Hr Ha. pose proof (reachable_ok n last total e s Hn Hlast Ht Hr) as Hok.
  split; [by apply check_invariant_ok|]. split; [by apply tallies_fit_ok|].
  destruct (run_call_returns c s Hok Ha) as ([] & s' & Hrun & Hok').
  exists s'. split; [done|]. intros Hh. specialize (Hok' Hh).
  split; [by eapply reach_call|]. split; [by apply check_invariant_ok|by apply tallies_fit_ok].
Qed.

(** C11: [update_pieces] puts the list in order: it holds exactly the pieces
    that can be picked, each once, in the slot it knows and in the range of its
    priority; nothing else about the pieces changes. *)
Theorem update_pieces_orders s :
  picker_ok s →
  ∃ s', picker_update_pieces s = Some (tt, s') ∧ picker_ok s' ∧ m_dirty s' = false ∧
    rest_eq s s' ∧ (∀ j, seen s' j = seen s j) ∧
    (∀ t i, (m_pieces (lay s'))⟦t⟧ = Some i ↔
       ∃ p, piece_map i s' = Some p ∧ index p = t ∧ 0 ≤ priority (m_seeds s') p) ∧
    (∀ i p, piece_map i s' = Some p → 0 ≤ priority (m_seeds s') p →
       ∃ b e, priority_range (lay s') (priority (m_seeds s') p) = Some (b, e) ∧ b ≤ index p < e).
Proof.
  intros Hok. destruct (update_pieces_ok s Hok) as ([] & s' & Hrun & [Hok' Hd Hs Hmv Hr]).
  exists s'. pose proof (ck_list _ (ok_core _ Hok')) as Hl. pose proof (lo_listed _ Hl Hd) as Hinv.
  destruct (inv_slots _ _ Hinv) as [Hslots Hin].
  assert (Hlisted : ∀ i p, piece_map i s' = Some p → 0 ≤ priority (m_seeds s') p →
    (m_pieces (lay s'))⟦index p⟧ = Some i).
  { intros i p Hp Hpr. rewrite <-(bucket_of_piece s' i p Hp) in Hpr.
    apply (Hin i p Hp Hpr). apply vget_Some_range in Hp. lia. }
  split_and!; try done.
  - intros j. apply (seen_moved _ _ _ Hmv).
  - intros t i. split.
    + intros Ht. destruct (slot_piece _ _ _ _ Hinv Ht) as (p & Hp & Hi & Hpr & _).
      exists p. split; [done|]. split; [done|]. by rewrite (bucket_of_piece s' i p Hp) in Hpr.
    + intros (p & Hp & <- & Hpr). by apply Hlisted.
  - intros i p Hp Hpr. destruct (slot_piece _ _ _ _ Hinv (Hlisted i p Hp Hpr)) as (q & _ & _ & _ & Hb & Ht).
    rewrite (bucket_of_piece s' i p Hp) in Hb, Ht. set (prio := priority (m_seeds s') p) in *.
    exists (bnd (m_priority_boundaries (lay s')) (prio - 1)), (bnd (m_priority_boundaries (lay s')) prio).
    split; [|done]. unfold priority_range, priority_begin, priority_end.
    destruct (Z.eqb_spec prio 0) as [->|]; rewrite !bnd_lookup by lia; done.
Qed.

(** ** Availability *)

Lemma counted_availability s s' d :
  counted s s' d →
  get_availability s' = imap (λ k a, a + d (Z.of_nat k)) (get_availability s).
Proof.
  intros [_ _ Hn Hp]. apply list_eq. intros k. unfold get_availability.
  rewrite list_lookup_imap, !list_lookup_fmap. rewrite <-!vget_nat.
  destruct ((m_piece_map (lay s))⟦Z.of_nat k⟧) as [p|] eqn:Hk; cbn.
  - destruct (Hp _ _ Hk) as (p' & Hp' & _ & Ha). unfold piece_map in Hp'. rewrite Hp'. cbn.
    by rewrite Ha.
  - rewrite vget_None; [done|]. change (vsize _) with (num_pieces s'). rewrite Hn. intros Hr.
    destruct (vget_is_Some _ _ Hr) as [q Hq]. congruence.
Qed.

Lemma counted_run (m : M unit) s d :
  picker_ok s → wp m s (λ _ s', counted s s' d) →
  ∃ s', m s = Some (tt, s') ∧ picker_ok s' ∧
    get_availability s' = imap (λ k a, a + d (Z.of_nat k)) (get_availability s).
Proof.
  intros Hok ([] & s' & Hrun & Hc). exists s'. split; [done|]. split; [by eapply counted_ok|].
  by apply counted_availability.
Qed.

(** by how much a call changes the availability of each piece *)
Definition availability_change (c : call) : option (Z → Z) :=
  match c with
  | call_inc_refcount i => Some (at_piece i 1)
  | call_inc_refcount_bits bits => Some (bit bits)
  | call_inc_refcount_all => Some (λ _, 1)
  | call_dec_refcount i => Some (at_piece i (-1))
  | call_dec_refcount_bits bits => Some (minus (bit bits))
  | call_dec_refcount_all => Some (λ _, -1)
  | _ => None
  end.

(** C6: A peer that has a piece ([inc_refcount] of an index), the pieces of a
    bitfield or all pieces raises the availability of exactly these pieces by
    one, and lowers it again by one when it goes away ([dec_refcount]), the
    invariant being kept.  Availability is the count of the piece and the number
    of seeds, whichever way the code splits it between the two: a seed that goes
    away is broken up into a count for every piece when a piece has no count of
    its own.  Each call is under its own condition only: the pieces it lowers are
    available, whatever the others are, and the counters have room (for
    [inc_refcount_all] the number of seeds, for [inc_refcount] of an index the
    count of that piece, for the others the sum of each count and the seeds,
    which stays below 2^26). *)
Theorem refcounts_correct c d s :
  picker_ok s → availability_change c = Some d → allowed c s →
  ∃ s', run_call c s = Some (tt, s') ∧ picker_ok s' ∧
    get_availability s' = imap (λ k a, a + d (Z.of_nat k)) (get_availability s).
Proof.
  intros Hok Hd Ha. apply counted_run; [done|]. pose proof (ck_list _ (ok_core _ Hok)) as Hl.
  pose proof (lo_seeds s Hl).
  destruct c; try discriminate Hd; injection Hd as <-; cbn [allowed run_call] in *.
  - destruct Ha as [Hi Hf]. destruct (piece_in_Some i s Hi) as [p Hp].
    eapply inc_refcount_spec; [done|exact Hp|by apply Hf].
  - destruct Ha as (Hi & H0 & Hf). destruct (piece_in_Some i s Hi) as [p Hp].
    pose proof (counts_fit_at _ _ _ _ Hf Hp). eapply dec_refcount_spec; [done|done|exact Hp|lia].
  - apply inc_refcount_bits_spec; [done|apply Ha..].
  - apply dec_refcount_bits_spec; [done|apply Ha..].
  - by apply inc_refcount_all_spec.
  - by apply dec_refcount_all_spec.
Qed.

(** [distributed_copies] is the lowest availability among the pieces, with
    the share of pieces above it in thousandths. *)
Theorem distributed_copies_correct s :
  picker_ok s → num_pieces s * 1000 < 2 ^ 31 →
  (∃ p, p ∈ m_piece_map (lay s) ∧ copies p ≤ max_peer_count) →
  ∃ low, (∀ p, p ∈ m_piece_map (lay s) → low ≤ copies p) ∧
    (∃ p, p ∈ m_piece_map (lay s) ∧ copies p = low) ∧
    distributed_copies s =
      Some (low + m_seeds s,
       Z.quot (vsize (filter (λ p, low < copies p) (m_piece_map (lay s))) * 1000) (num_pieces s)).
Proof. intros Hok. apply distributed_copies_spec, Hok. Qed.

(** ** Blocks *)

(** [mark_as_downloading] returns whether the block could be requested: it
    was neither written nor finished.  The block then has one more peer, the
    caller the last one, and is requested; no other block, priority or count
    changes. *)
Theorem mark_as_downloading_correct s i j pr opts p :
  picker_ok s → piece_map i s = Some p → have p = false → 0 ≤ j < blocks_in_piece i s →
  slices_fit s → num_peers (block_at s i j) + 1 < 2 ^ 14 →
  ∃ s', mark_as_downloading (PieceBlock i j) pr opts s = Some (requestable (block_at s i j), s') ∧
    picker_ok s' ∧
    marked s s' i j (if requestable (block_at s i j) then requested_block (block_at s i j) pr
                     else block_at s i j).
Proof.
  intros Hok Hp Hh Hj Hfit Hnp. pose proof (ok_core _ Hok) as Hc.
  pose proof (vget_Some_range _ _ _ Hp) as Hi.
  assert (Hrun : wp (mark_as_downloading (PieceBlock i j) pr opts) s (λ r s',
    r = requestable (block_at s i j) ∧
    marked s s' i j (if requestable (block_at s i j) then requested_block (block_at s i j) pr
                     else block_at s i j))).
  { destruct (decide (download_queue p = piece_open)); [by eapply mark_new|by eapply mark_again]. }
  destruct Hrun as (r & s' & Hrun & -> & Hm). exists s'. split; [done|].
  split; [by eapply marked_ok|done].
Qed.

(** [mark_as_writing] returns whether the block was still to be received;
    if so it is being written, with no peers requesting it.  A block that was
    received already keeps its state, but the caller becomes its peer when the
    piece has a record. *)
Theorem mark_as_writing_correct s i j pr p :
  picker_ok s → piece_map i s = Some p → have p = false → 0 ≤ j < blocks_in_piece i s →
  slices_fit s →
  ∃ s', mark_as_writing (PieceBlock i j) pr s = Some (requestable (block_at s i j), s') ∧
    picker_ok s' ∧
    marked s s' i j
      (let b := block_at s i j in
       if requestable b then BlockInfo pr 0 state_writing
       else match view s i with None => b | Some _ => with_peer b pr end).
Proof.
  intros Hok Hp Hh Hj Hfit. pose proof (ok_core _ Hok) as Hc.
  pose proof (vget_Some_range _ _ _ Hp) as Hi.
  assert (Hrun : wp (mark_as_writing (PieceBlock i j) pr) s (λ r s',
    r = requestable (block_at s i j) ∧ marked s s' i j (written s i j pr))).
  { destruct (decide (download_queue p = piece_open)); [by eapply write_new|by eapply write_again]. }
  destruct Hrun as (r & s' & Hrun & -> & Hm). exists s'. split; [done|].
  split; [by eapply marked_ok|done].
Qed.

Lemma record_queue s i p :
  queues_ok s → piece_map i s = Some p → download_queue p ≠ piece_open →
  ∃ dp bs, view s i = Some (dp, bs).
Proof.
  intros Hs Hp Hq. destruct (view s i) as [[dp bs]|] eqn:Hv; [eauto|].
  by apply (view_open s i p Hs Hp) in Hv.
Qed.

(** [mark_as_finished] finishes the block of a piece that is not had; when
    it was the last block of a piece whose hash check has passed, the piece is
    had and its record is gone. *)
Theorem mark_as_finished_correct s i j pr p :
  picker_ok s → piece_map i s = Some p → have p = false → 0 ≤ j < blocks_in_piece i s →
  slices_fit s → bstate (block_at s i j) ≠ state_requested →
  ∃ s', mark_as_finished (PieceBlock i j) pr s = Some (tt, s') ∧ picker_ok s' ∧
    let b := block_at s i j in
    if negb (bool_decide (bstate b = state_finished)) && passed_at s i &&
       (finished_at s i + 1 =? blocks_in_piece i s)
    then repieced i (had_piece p) s s'
    else if bool_decide (bstate b = state_finished) && bool_decide (is_Some (view s i))
    then s' = s
    else marked s s' i j
           (if bool_decide (bstate b = state_finished) then b else finished_block b pr).
Proof.
  intros Hok Hp Hh Hj Hfit Hnr. pose proof (ok_core _ Hok) as Hc.
  pose proof (vget_Some_range _ _ _ Hp) as Hi.
  destruct (decide (download_queue p = piece_open)) as [Hq|Hq].
  - destruct (finish_new s i j pr p) as ([] & s' & Hrun & Hm); [done..|].
    cbv beta zeta in Hm. rewrite Hh in Hm. exists s'. split; [done|]. split; [by eapply marked_ok|].
    pose proof (proj2 (view_open s i p (ck_queues _ Hc) Hp) Hq) as Hv.
    assert (Hpass : passed_at s i = false) by (unfold passed_at; by rewrite Hv).
    cbv zeta. rewrite Hpass, andb_false_r, Hv. cbn [andb].
    rewrite (bool_decide_eq_false_2 (is_Some None)), andb_false_r by (by intros [? [=]]). done.
  - destruct (finish_again s i j pr p) as ([] & s' & Hrun & Hm); [done..|].
    cbv beta zeta in Hm. exists s'. split; [done|]. cbv zeta.
    destruct (record_queue s i p (ck_queues _ Hc) Hp Hq) as (dp & bs & Hv).
    rewrite (bool_decide_eq_true_2 (is_Some (view s i))) by (rewrite Hv; eauto). rewrite andb_true_r.
    case_bool_decide as Hf; cbn [negb andb]; [subst; by split|].
    rewrite andb_comm. destruct (_ && _); [split; [apply Hm|done]|].
    split; [by eapply marked_ok|done].
Qed.

(** C7: a block of a piece that is not had is requested, then written, then
    finished.  [mark_as_downloading] and [mark_as_writing] return whether the block
    was still to be received.  Requesting it makes the caller its last peer, one
    more, as long as 14 bits count its peers; writing it leaves it without peers,
    and a block that was received already keeps its state, with the caller as its
    peer if the piece has a record.  [mark_as_finished] of a block that is not
    only requested finishes it, with the caller as its peer; if it was the last
    block of a piece whose hash check has passed, the piece becomes one that is
    had instead; a block that is finished already stays as it is.  No other
    block, priority or count changes.  The slices of the block records fit their
    16 bit index throughout ([slices_fit]). *)
Theorem block_marks_correct s i j pr p :
  picker_ok s → piece_map i s = Some p → have p = false → 0 ≤ j < blocks_in_piece i s →
  slices_fit s →
  let b := block_at s i j in
  (∀ opts, num_peers b + 1 < 2 ^ 14 →
    ∃ s', mark_as_downloading (PieceBlock i j) pr opts s = Some (requestable b, s') ∧
      picker_ok s' ∧ marked s s' i j (if requestable b then requested_block b pr else b)) ∧
  (∃ s', mark_as_writing (PieceBlock i j) pr s = Some (requestable b, s') ∧ picker_ok s' ∧
    marked s s' i j
      (if requestable b then BlockInfo pr 0 state_writing
       else match view s i with None => b | Some _ => with_peer b pr end)) ∧
  (bstate b ≠ state_requested →
    ∃ s', mark_as_finished (PieceBlock i j) pr s = Some (tt, s') ∧ picker_ok s' ∧
      if negb (bool_decide (bstate b = state_finished)) && passed_at s i &&
         (finished_at s i + 1 =? blocks_in_piece i s)
      then repieced i (had_piece p) s s'
      else if bool_decide (bstate b = state_finished) && bool_decide (is_Some (view s i))
      then s' = s
      else marked s s' i j
             (if bool_decide (bstate b = state_finished) then b else finished_block b pr)).
Proof.
  intros Hok Hp Hh Hj Hfit b. split; [|split].
  - intros opts Hn. by eapply mark_as_downloading_correct.
  - by eapply mark_as_writing_correct.
  - intros Hb. by eapply mark_as_finished_correct.
Qed.

Lemma open_block_state s i j p :
  queues_ok s → piece_map i s = Some p → download_queue p = piece_open →
  view s i = None ∧ bstate (block_at s i j) ≠ state_requested.
Proof.
  intros Hs Hp Hq. pose proof (proj2 (view_open s i p Hs Hp) Hq) as Hv. split; [done|].
  unfold block_at. rewrite Hv. unfold fresh_block. cbn. by destruct (pad_at s i j).
Qed.

(** Giving up: [abort_download] takes one peer off a requested block,
    [mark_as_canceled] takes back a block that was being written, and
    [restore_piece] all blocks of a piece.  When no block of the piece is in use
    any more its record is dropped, and the piece is where its priority puts it
    in the list.  For the tally of passed pieces the piece must not have passed
    the hash check. *)
Theorem given_up_correct s i j pr p :
  picker_ok s → piece_map i s = Some p → 0 ≤ j < blocks_in_piece i s → passed_at s i = false →
  let b := block_at s i j in
  (∃ s', abort_download (PieceBlock i j) pr s = Some (tt, s') ∧ picker_ok s' ∧
     if bool_decide (bstate b = state_requested) then
       given_up false s s' i j (aborted_block b pr) (used_at s i - Z.b2z (num_peers b =? 1))
     else s' = s) ∧
  (∃ s', mark_as_canceled (PieceBlock i j) pr s = Some (tt, s') ∧ picker_ok s' ∧
     match view s i with
     | None => s' = s
     | Some _ => given_up false s s' i j (canceled_block b pr)
                   (used_at s i - Z.b2z (bool_decide (bstate b = state_writing)))
     end) ∧
  (∃ s', restore_piece i s = Some (tt, s') ∧ picker_ok s' ∧
     match view s i with None => s' = s | Some _ => dropped s s' i end).
Proof.
  intros Hok Hp Hj Hpass b. pose proof (ok_core _ Hok) as Hc. pose proof (ck_queues _ Hc) as Hqs.
  pose proof (vget_Some_range _ _ _ Hp) as Hi. change (0 ≤ i < num_pieces s) in Hi.
  destruct (decide (download_queue p = piece_open)) as [Hq|Hq].
  - destruct (open_block_state s i j p Hqs Hp Hq) as [Hv Hb]. rewrite Hv.
    rewrite (bool_decide_eq_false_2 (bstate b = _)) by done.
    split_and!; exists s; (split; [|done]);
      unfold abort_download, mark_as_canceled, restore_piece, mbind, M_bind, reads; cbn [piece_index];
      rewrite Hp; cbn [mbind option_bind]; by rewrite (bool_decide_eq_true_2 _ Hq).
  - destruct (record_queue s i p Hqs Hp Hq) as (dp & bs & Hv). rewrite Hv. split_and!.
    + destruct (abort_spec s i j pr p Hc Hp Hj Hq) as ([] & s' & Hrun & Hm).
      cbv beta zeta in Hm. fold b in Hm. exists s'. split; [done|].
      case_bool_decide; cbn [negb] in Hm; [|by subst]. rewrite Hpass in Hm. split; [|done].
      eapply given_up_same_ok; [done|exact Hpass|done|]. rewrite Hpass. exact Hm.
    + destruct (cancel_spec s i j pr p Hc Hp Hj Hq) as ([] & s' & Hrun & Hm).
      cbv beta zeta in Hm. fold b in Hm. exists s'. split; [done|]. split; [by eapply given_up_same_ok|].
      by rewrite Hpass in Hm.
    + destruct (wp_restore_piece s i p Hc Hp Hq) as ([] & s' & Hrun & Hm).
      exists s'. split; [done|]. split; [by eapply dropped_ok|done].
Qed.

(** [write_failed] takes back a block that could not be written, and the
    piece no longer counts as one that has passed the hash check; when none of
    its blocks is in use any more the record of the piece is dropped.  A
    finished block is left alone. *)
Theorem write_failed_correct s i j p :
  picker_ok s → piece_map i s = Some p → 0 ≤ j < blocks_in_piece i s →
  bstate (block_at s i j) ≠ state_requested →
  let b := block_at s i j in
  ∃ s', write_failed (PieceBlock i j) s = Some (tt, s') ∧ picker_ok s' ∧
    match view s i with
    | None => s' = s
    | Some _ =>
        if bool_decide (bstate b = state_finished) then s' = s
        else given_up false (more_passed (- Z.b2z (passed_at s i)) s) s' i j
               (BlockInfo nullptr (num_peers b) state_none)
               (used_at s i - Z.b2z (bool_decide (bstate b = state_writing)))
    end.
Proof.
  intros Hok Hp Hj Hnr b. pose proof (ok_core _ Hok) as Hc. pose proof (ck_queues _ Hc) as Hqs.
  pose proof (vget_Some_range _ _ _ Hp) as Hi. change (0 ≤ i < num_pieces s) in Hi.
  destruct (decide (download_queue p = piece_open)) as [Hq|Hq].
  - destruct (open_block_state s i j p Hqs Hp Hq) as [Hv Hb]. rewrite Hv.
    exists s. split; [|done]. unfold write_failed, mbind, M_bind, reads. cbn [piece_index].
    rewrite Hp. cbn [mbind option_bind]. by rewrite (bool_decide_eq_true_2 _ Hq).
  - destruct (record_queue s i p Hqs Hp Hq) as (dp & bs & Hv). rewrite Hv.
    destruct (write_failed_spec s i j p Hc Hp Hj Hq Hnr) as ([] & s' & Hrun & Hm).
    cbv beta zeta in Hm. fold b in Hm. exists s'. split; [done|].
    case_bool_decide; [by subst|]. rewrite void_passed_more in Hm. split; [|done].
    eapply given_up_ok; [done|exact Hm|done| |cbn; lia|done]. by eapply view_not_had.
Qed.

(** C12: giving up: [abort_download] takes one peer off a requested block,
    [mark_as_canceled] takes back a block that was being written, [restore_piece]
    all blocks of a piece, and [write_failed] a block that could not be written,
    the piece then no longer counting as one that has passed the hash check.  When
    no block of the piece is in use any more its record is dropped, and the piece
    is where its priority puts it in the list.  The first three need a piece that
    has not passed the hash check, for the tally of passed pieces. *)
Theorem taken_back_correct s i j pr p :
  picker_ok s → piece_map i s = Some p → 0 ≤ j < blocks_in_piece i s →
  let b := block_at s i j in
  (passed_at s i = false →
   (∃ s', abort_download (PieceBlock i j) pr s = Some (tt, s') ∧ picker_ok s' ∧
      if bool_decide (bstate b = state_requested) then
        given_up false s s' i j (aborted_block b pr) (used_at s i - Z.b2z (num_peers b =? 1))
      else s' = s) ∧
   (∃ s', mark_as_canceled (PieceBlock i j) pr s = Some (tt, s') ∧ picker_ok s' ∧
      match view s i with
      | None => s' = s
      | Some _ => given_up false s s' i j (canceled_block b pr)
                    (used_at s i - Z.b2z (bool_decide (bstate b = state_writing)))
      end) ∧
   (∃ s', restore_piece i s = Some (tt, s') ∧ picker_ok s' ∧
      match view s i with None => s' = s | Some _ => dropped s s' i end)) ∧
  (bstate b ≠ state_requested →
   ∃ s', write_failed (PieceBlock i j) s = Some (tt, s') ∧ picker_ok s' ∧
     match view s i with
     | None => s' = s
     | Some _ =>
         if bool_decide (bstate b = state_finished) then s' = s
         else given_up false (more_passed (- Z.b2z (passed_at s i)) s) s' i j
                (BlockInfo nullptr (num_peers b) state_none)
                (used_at s i - Z.b2z (bool_decide (bstate b = state_writing)))
     end).
Proof.
  intros Hok Hp Hj b. split.
  - intros Hpass. by eapply given_up_correct.
  - intros Hb. by eapply write_failed_correct.
Qed.

(** ** Pieces *)

(** C8: The hash check: a piece that passes it is had when all its blocks are
    finished and otherwise only marked, and nothing happens to a locked piece;
    [lock_piece] revokes the mark.  The tally of passed pieces follows. *)
Theorem hash_check_correct s i p :
  picker_ok s → piece_map i s = Some p →
  (passed_at s i = false →
   ∃ s', piece_passed i s = Some (tt, s') ∧ picker_ok s' ∧
     if bool_decide (download_queue p = piece_open) || locked_at s i then s' = s
     else if finished_at s i <? blocks_in_piece i s then same_blocks true (more_passed 1 s) s' i
     else repieced i (had_piece p) s s') ∧
  (∃ s', lock_piece i s = Some (tt, s') ∧ picker_ok s' ∧
     if bool_decide (download_queue p = piece_open) then s' = s
     else same_blocks false (more_passed (- Z.b2z (passed_at s i)) s) s' i ∧
       locked_at s' i = true).
Proof.
  intros Hok Hp. split.
  - intros Hpass. destruct (piece_passed_spec s i p Hok Hp Hpass) as ([] & s' & Hrun & Hm).
    exists s'. split; [done|]. destruct (_ || _); [by subst|].
    destruct (_ <? _); [by destruct Hm|]. split; [apply Hm|done].
  - destruct (lock_spec s i p Hok Hp) as ([] & s' & Hrun & Hm). exists s'. split; [done|].
    case_bool_decide; [by subst|]. by rewrite void_passed_more in Hm.
Qed.

(** C9: [we_have] makes a piece one that is had: its record is gone, it is no
    longer in the list, and the tallies and cursors count it.  [we_dont_have]
    makes a piece that is had one that is not, back in the list if it can be
    picked. *)
Theorem we_have_correct s i p :
  picker_ok s → piece_map i s = Some p →
  (have p = false → ∃ s', we_have i s = Some (tt, s') ∧ repieced i (had_piece p) s s') ∧
  (have p = true → we_have i s = Some (tt, s) ∧
     ∃ s', we_dont_have i s = Some (tt, s') ∧ repieced i (set_not_have p) s s').
Proof.
  intros Hok Hp. split; intros Hh.
  - destruct (we_have_spec s i p Hok Hp Hh) as ([] & s' & Hrun & Hm). by exists s'.
  - split.
    + unfold we_have, mbind, M_bind, reads, priority_of. rewrite Hp.
      cbn [mbind option_bind]. rewrite Hp. cbn [mbind option_bind]. by rewrite Hh.
    + destruct (we_dont_have_spec s i p Hok Hp Hh) as ([] & s' & Hrun & Hm). by exists s'.
Qed.

(** C10: [set_piece_priority] gives the piece its new priority and returns
    whether it has become filtered or is no longer so; the tallies, the cursors,
    the list and the queue of the piece follow, other pieces and all blocks stay
    as they were. *)
Theorem set_piece_priority_correct s i p new :
  picker_ok s → piece_map i s = Some p → 0 ≤ new < 8 →
  ∃ s', set_piece_priority i new s
          = Some (negb (Bool.eqb (filtered p) (new =? dont_download)), s') ∧
    if new =? piece_priority p then s' = s else reprioritised i new s s'.
Proof.
  intros Hok Hp Hn. destruct (set_piece_priority_spec s i p new Hok Hp Hn) as (r & s' & Hrun & -> & Hm).
  by exists s'.
Qed.

(** [mark_as_pad] makes a block a pad block, and a piece of pad blocks only
    is had at once. *)
Theorem mark_as_pad_correct s i j p :
  picker_ok s → piece_map i s = Some p → have p = false → 0 ≤ j < blocks_in_piece i s →
  num_pieces s * m_blocks_per_piece s < 2 ^ 31 → pad_at s i j = false →
  ∃ s1 s', mark_as_pad (PieceBlock i j) s = Some (tt, s') ∧ picker_ok s' ∧ padded i j s s1 ∧
    if pads s i + 1 =? blocks_in_piece i s then repieced i (had_piece p) s1 s' else s' = s1.
Proof.
  intros Hok Hp Hh Hj Hmax Hclear.
  destruct (mark_as_pad_spec s i j p Hok Hp Hh Hj Hmax Hclear) as ([] & s' & Hrun & s1 & Hs1 & Hm).
  exists s1, s'. rewrite (pd_count _ _ _ _ Hs1), Z.eqb_refl in Hm. split; [done|].
  destruct (_ =? _); [split; [apply Hm|done]|]. subst. split; [apply Hs1|done].
Qed.

(** A new picker has the pieces it was asked for, none of them had,
    filtered or being downloaded, and satisfies the invariant; a piece of more
    blocks than a counter of 15 bits holds is refused. *)
Theorem new_picker_correct n last total e :
  0 < n → 0 ≤ last ≤ n → 0 ≤ total < 2 ^ 31 →
  if n <=? max_blocks_per_piece then
    ∃ s, new_picker n last total e = Some (returned, s) ∧
      fresh_picker n (if last =? 0 then n else last) total s ∧ picker_ok s
  else ∃ s, new_picker n last total e = Some (threw_invalid_piece_size, s).
Proof.
  intros Hn Hlast Ht. destruct (Z.leb_spec n max_blocks_per_piece) as [Hle|Hgt].
  - destruct (new_picker_spec n last total e) as (s & Hs & Hf); [lia..|]. exists s.
    split; [done|]. split; [done|]. eapply (fresh_picker_ok n _ total); [lia| |done|exact Hf].
    destruct (Z.eqb_spec last 0); lia.
  - unfold new_picker, resize. rewrite (proj2 (Z.ltb_lt _ _) Hgt). by eexists.
Qed.

(** The queries about a block and a piece answer from the state of the
    block, from the record of the piece or, without a record, from whether the
    piece is had. *)
Theorem queries_correct s i j p :
  picker_ok s → piece_map i s = Some p → 0 ≤ j < blocks_in_piece i s →
  block_queries s i j = Some
    match view s i with
    | None => (false, have p, have p, 0, nullptr)
    | Some _ =>
        let b := block_at s i j in
        (bool_decide (bstate b = state_requested),
         bool_decide (bstate b = state_finished) || bool_decide (bstate b = state_writing),
         bool_decide (bstate b = state_finished), num_peers b,
         if bool_decide (bstate b = state_none) then nullptr else peer b)
    end ∧
  is_piece_finished i s = Some
    match view s i with
    | None => have p
    | Some (dp, bs) => count state_none bs + count state_requested bs =? 0
    end ∧
  has_piece_passed i s = Some (had s i || passed_at s i).
Proof.
  intros Hok Hp Hj. pose proof (ok_core _ Hok) as Hc.
  split; [by apply block_queries_spec|by apply is_piece_finished_spec].
Qed.

(** C13: Three operations break the invariant, from any state that satisfies it.
    [we_dont_have] of a piece that is not had but has a record drops the record
    without putting the piece back in its place in the list; the result passes
    [check_invariant] only if the piece stays in its place: when the list is not
    in use ([m_dirty]) or the priority of the piece is the same without the
    record, which is that of a piece that cannot be picked either way.
    [restore_piece] of a piece that has passed the hash check leaves the tally of
    passed pieces one too high.  [resize], which starts a torrent over, sets the
    tally of pad blocks in filtered pieces to 0, although filtered pieces stay
    filtered and keep their pad blocks: with one such block, [check_invariant]
    fails. *)
Theorem invariant_broken s i p :
  picker_ok s → piece_map i s = Some p →
  (have p = false → download_queue p ≠ piece_open →
   ∃ s', we_dont_have i s = Some (tt, s') ∧ view s' i = None ∧
     piece_map i s' = Some (with_state p piece_open) ∧ m_pieces (lay s') = m_pieces (lay s) ∧
     (check_invariant s' = Some true ↔ stays i s)) ∧
  (passed_at s i = true →
   ∃ s', restore_piece i s = Some (tt, s') ∧ view s' i = None ∧
     m_num_passed (tal s') = m_num_passed (tallies_of s') + 1) ∧
  (filtered p = true → 0 < pads s i →
   ∀ n last, 0 < n ≤ max_blocks_per_piece → 0 ≤ last →
   ∃ s', resize n last (num_pieces s) s = Some (returned, s') ∧ pads s' i = pads s i ∧
     (filtered <$> piece_map i s') = Some true ∧
     m_filtered_pad_blocks (tal s') = 0 ∧ check_invariant s' ≠ Some true).
Proof.
  intros Hok Hp. pose proof (ok_core _ Hok) as Hc. split; [|split].
  - intros Hh Hq. destruct (wp_forget s i p Hok Hp Hh) as ([] & s' & Hrun & Hs').
    cbn beta in Hs'. rewrite bool_decide_eq_false_2 in Hs' by done. destruct Hs' as [Hf Hgood].
    exists s'. split; [done|]. split; [apply Hf|]. split; [apply Hf|]. split; [apply Hf|]. split.
    + intros Hck. destruct (forgotten_checked s s' i p Hok Hp Hf Hck) as [|Hst]; [by left|right; eauto].
    + intros Hst. apply check_invariant_ok, Hgood.
      destruct Hst as [|(q & Hq' & Hst)]; [by left|]. right. congruence.
  - intros Hpass. assert (Hq : download_queue p ≠ piece_open).
    { intros Hq. apply (view_open s i p (ck_queues _ Hc) Hp) in Hq. unfold passed_at in Hpass.
      by rewrite Hq in Hpass. }
    destruct (wp_restore_piece s i p Hc Hp Hq) as ([] & s' & Hrun & Hd).
    exists s'. split; [done|]. split; [apply Hd|by eapply dropped_miscounted].
  - intros Hf Hpd n last Hn Hlast.
    destruct (picker_resize_spec n last s Hn Hlast) as (r & s' & Hrun & -> & Hz & Hpp & Hm).
    exists s'. split; [done|]. split; [unfold pads, pad_blocks_in_piece; by rewrite Hpp|].
    split; [unfold piece_map; rewrite Hm, (vget_map restarted _ _ _ Hp); cbn; by rewrite <-Hf|].
    split; [done|]. by eapply resized_unchecked.
Qed.
End invariant.

(** ** Where the code does not do what it means to *)

(** the state after a run of calls *)
Definition after_all (cs : list call) (s : picker) : picker := foldl (λ s c, after c s) s cs.

(** both blocks of the last piece finished, its hash still to be checked *)
Definition finished_piece : picker :=
  after_all [call_mark_as_finished (PieceBlock 2 0) 5; call_mark_as_finished (PieceBlock 2 1) 5]
    sample1.

(** a filtered piece with a pad block *)
Definition padded_picker : picker :=
  after_all [call_mark_as_pad (PieceBlock 0 0); call_set_piece_priority 0 0] sample0.

Definition resized (n last total : Z) (s : picker) : picker :=
  match resize n last total s with Some (_, s') => s' | None => s end.

Lemma resized_run n last total s :
  match resize n last total s with Some (returned, _) => true | _ => false end = true →
  resize n last total s = Some (returned, resized n last total s).
Proof. unfold resized. by destruct (resize n last total s) as [[[] s']|]. Qed.

Definition passed_piece : picker :=
  after_all [call_mark_as_writing (PieceBlock 0 0) 5; call_piece_passed 0] sample1.

(** a piece that has passed the hash check loses its record when its only write
    is canceled, but still counts as one that has passed *)
Lemma mark_as_canceled_forgets_passed :
  passed_at passed_piece 0 = true ∧
  ∃ s', mark_as_canceled (PieceBlock 0 0) 5 passed_piece = Some (tt, s') ∧ view s' 0 = None ∧
    m_num_passed (tal s') = 1 ∧ m_num_passed (tallies_of s') = 0.
Proof.
  split; [by vm_compute|].
  exists (after (call_mark_as_canceled (PieceBlock 0 0) 5) passed_piece).
  pose proof (after_runs (call_mark_as_canceled (PieceBlock 0 0) 5) passed_piece) as Hrun.
  cbn [run_call] in Hrun. split; [apply Hrun; by vm_compute|].
  split_and!; vm_compute; reflexivity.
Qed.

(** ** Witnesses *)

Lemma sample1_reachable : reachable 4 2 3 7 sample1.
Proof.
  eapply (reach_call _ _ _ _ (after call_inc_refcount_all sample0) _ call_update_pieces); [|done|apply after_runs; by vm_compute].
  eapply (reach_call _ _ _ _ sample0 _ call_inc_refcount_all); [|by vm_compute|apply after_runs; by vm_compute].
  apply reach_new, sample0_new.
Qed.

Lemma picker_safe_witness :
  let c := call_mark_as_downloading (PieceBlock 0 1) 5 opts0 in
  check_invariant sample1 = Some true ∧ tallies_fit (tal sample1) ∧
  ∃ s', run_call c sample1 = Some (tt, s') ∧
    (harmless c sample1 →
     reachable 4 2 3 7 s' ∧ check_invariant s' = Some true ∧ tallies_fit (tal s')).
Proof.
  apply (picker_safe (R := lcg) 4 2 3 7 sample1 (call_mark_as_downloading (PieceBlock 0 1) 5 opts0));
    [done|done|done|apply sample1_reachable|by vm_compute].
Defined.

(** piece 1 is not available, but the peer that has pieces 0 and 2 can leave *)
Lemma refcounts_correct_witness :
  (∃ s', inc_refcount_bits [true; false; true] sample0 = Some (tt, s') ∧ picker_ok s' ∧
    get_availability s' = [1; 0; 1]) ∧
  (∃ s', dec_refcount 1 sample1 = Some (tt, s') ∧ picker_ok s' ∧ get_availability s' = [1; 0; 1]) ∧
  let s := after (call_inc_refcount_bits [true; false; true]) sample0 in
  ∃ s', dec_refcount_bits [true; false; true] s = Some (tt, s') ∧ picker_ok s' ∧
    get_availability s' = [0; 0; 0].
Proof.
  assert (Hinc : allowed (call_inc_refcount_bits [true; false; true]) sample0)
    by (split; [by vm_compute|by apply counts_fit_check]).
  split; [|split].
  - destruct (refcounts_correct (call_inc_refcount_bits [true; false; true]) (bit [true; false; true])
      sample0 sample0_ok eq_refl Hinc) as (s' & Hrun & Hok & Hav).
    exists s'. split; [exact Hrun|]. split; [exact Hok|]. rewrite Hav. by vm_compute.
  - destruct (refcounts_correct (call_dec_refcount 1) (at_piece 1 (-1)) sample1 sample1_ok eq_refl)
      as (s' & Hrun & Hok & Hav).
    { split; [by vm_compute|]. split; by apply counts_fit_check. }
    exists s'. split; [exact Hrun|]. split; [exact Hok|]. rewrite Hav. by vm_compute.
  - destruct (refcounts_correct (call_dec_refcount_bits [true; false; true])
      (minus (bit [true; false; true])) (after (call_inc_refcount_bits [true; false; true]) sample0))
      as (s' & Hrun & Hok & Hav).
    { apply after_ok; [apply sample0_ok|split; [exact Hinc|done]]. }
    { exact eq_refl. }
    { split; [by vm_compute|]. split; by apply counts_fit_check. }
    exists s'. split; [exact Hrun|]. split; [exact Hok|]. rewrite Hav. by vm_compute.
Defined.

(** what the block has become, from the block it was *)
Lemma marked_block (R : StdRandom) (s s' : picker) i j x :
  marked s s' i j x → 0 ≤ j < blocks_in_piece i s → block_at s' i j = x.
Proof. intros Hm Hj. rewrite (mk_block _ _ _ _ _ _ Hm j Hj). by rewrite Z.eqb_refl. Qed.

(** a fact about a concrete picker, by running the model; nothing else in the
    context is looked at *)
Ltac by_run :=
  vm_compute; repeat apply conj;
  first [reflexivity | let H := fresh in intros H; discriminate H].

Definition piece_of (i : Z) (s : picker) : piece_pos :=
  match piece_map i s with Some p => p | None => new_piece end.

Lemma block_marks_correct_witness :
  (∃ s', mark_as_downloading (PieceBlock 0 1) 5 opts0 sample1 = Some (true, s') ∧ picker_ok s' ∧
    block_at s' 0 1 = BlockInfo 5 1 state_requested) ∧
  (∃ s', mark_as_writing (PieceBlock 0 1) 5 sample2 = Some (true, s') ∧ picker_ok s' ∧
    block_at s' 0 1 = BlockInfo 5 0 state_writing) ∧
  ∃ s', mark_as_finished (PieceBlock 0 1) 5 sample3 = Some (tt, s') ∧ picker_ok s' ∧
    block_at s' 0 1 = BlockInfo 5 0 state_finished.
Proof.
  assert (Hj : 0 ≤ 1 < blocks_in_piece 0 sample1 ∧ 0 ≤ 1 < blocks_in_piece 0 sample2) by by_run.
  assert (Hr1 : requestable (block_at sample1 0 1) = true) by by_run.
  assert (Hr2 : requestable (block_at sample2 0 1) = true) by by_run.
  assert (Hb : requested_block (block_at sample1 0 1) 5 = BlockInfo 5 1 state_requested) by by_run.
  assert (Hj3 : 0 ≤ 1 < blocks_in_piece 0 sample3) by by_run.
  assert (Hc3 : negb (bool_decide (bstate (block_at sample3 0 1) = state_finished)) &&
    passed_at sample3 0 && (finished_at sample3 0 + 1 =? blocks_in_piece 0 sample3) = false) by by_run.
  assert (Hb3 : bool_decide (bstate (block_at sample3 0 1) = state_finished) = false) by by_run.
  assert (Hx3 : finished_block (block_at sample3 0 1) 5 = BlockInfo 5 0 state_finished) by by_run.
  destruct (block_marks_correct sample1 0 1 5 (piece_of 0 sample1)) as (Hd & _ & _);
    [apply sample1_ok|by_run..|].
  destruct (block_marks_correct sample2 0 1 5 (piece_of 0 sample2)) as (_ & Hw & _);
    [apply sample2_ok|by_run..|].
  destruct (block_marks_correct sample3 0 1 5 (piece_of 0 sample3)) as (_ & _ & Hf);
    [apply sample3_ok|by_run..|].
  rewrite Hr1 in Hd. rewrite Hr2 in Hw. split; [|split].
  - destruct (Hd opts0 ltac:(by_run)) as (s' & Hrun & Hok & Hm). exists s'. split; [exact Hrun|].
    split; [exact Hok|]. rewrite Hb in Hm. exact (marked_block _ _ _ _ _ _ Hm (proj1 Hj)).
  - destruct Hw as (s' & Hrun & Hok & Hm). exists s'. split; [exact Hrun|].
    split; [exact Hok|]. exact (marked_block _ _ _ _ _ _ Hm (proj2 Hj)).
  - destruct (Hf ltac:(by_run)) as (s' & Hrun & Hok & Hm). exists s'. split; [exact Hrun|].
    split; [exact Hok|]. rewrite Hc3, Hb3 in Hm. cbn [andb] in Hm. rewrite Hx3 in Hm.
    exact (marked_block _ _ _ _ _ _ Hm Hj3).
Defined.

Lemma hash_check_correct_witness :
  ∃ s', piece_passed 2 finished_piece = Some (tt, s') ∧ picker_ok s' ∧
    repieced 2 (had_piece (piece_of 2 finished_piece)) finished_piece s'.
Proof.
  assert (Hok : picker_ok finished_piece)
    by (apply after_ok; [apply after_ok; [apply sample1_ok|by_run]|by_run]).
  assert (Hp : piece_map 2 finished_piece = Some (piece_of 2 finished_piece)) by by_run.
  assert (Hpass : passed_at finished_piece 2 = false) by by_run.
  assert (Ho : bool_decide (download_queue (piece_of 2 finished_piece) = piece_open)
               || locked_at finished_piece 2 = false) by by_run.
  assert (Hf : (finished_at finished_piece 2 <? blocks_in_piece 2 finished_piece) = false)
    by by_run.
  destruct (hash_check_correct finished_piece 2 (piece_of 2 finished_piece) Hok Hp) as [Hpp _].
  destruct (Hpp Hpass) as (s' & Hrun & Hok' & Hm). rewrite Ho, Hf in Hm.
  exists s'. split; [exact Hrun|]. split; [exact Hok'|exact Hm].
Defined.

Lemma we_have_correct_witness :
  ∃ s', we_have 0 sample2 = Some (tt, s') ∧ repieced 0 (had_piece (piece_of 0 sample2)) sample2 s'.
Proof.
  apply (we_have_correct sample2 0 (piece_of 0 sample2) sample2_ok); by_run.
Defined.

Lemma set_piece_priority_correct_witness :
  ∃ s', set_piece_priority 0 0 sample2
          = Some (negb (Bool.eqb (filtered (piece_of 0 sample2)) (0 =? dont_download)), s') ∧
    reprioritised 0 0 sample2 s'.
Proof.
  assert (Hne : (0 =? piece_priority (piece_of 0 sample2)) = false) by by_run.
  destruct (set_piece_priority_correct sample2 0 (piece_of 0 sample2) 0)
    as (s' & Hrun & Hm); [apply sample2_ok|by_run|by_run|].
  rewrite Hne in Hm. exists s'. split; [exact Hrun|exact Hm].
Defined.

Lemma new_picker_correct_witness :
  (∃ s : picker, new_picker 4 2 3 7 = Some (returned, s) ∧ fresh_picker 4 2 3 s ∧ picker_ok s) ∧
  ∃ s : picker, new_picker 40000 0 3 7 = Some (threw_invalid_piece_size, s).
Proof.
  split.
  - exact (new_picker_correct (R := lcg) 4 2 3 7 ltac:(lia) ltac:(lia) ltac:(lia)).
  - exact (new_picker_correct (R := lcg) 40000 0 3 7 ltac:(lia) ltac:(lia) ltac:(lia)).
Defined.

Lemma not_stays s i p :
  piece_map i s = Some p → m_dirty s = false →
  priority (m_seeds s) (with_state p piece_open) ≠ priority (m_seeds s) p → ¬ stays i s.
Proof. intros Hp Hd Hpr [Hd'|(q & Hq & Hst)]; congruence. Qed.

Lemma invariant_broken_witness :
  (∃ s', we_dont_have 2 finished_piece = Some (tt, s') ∧ view s' 2 = None ∧
     check_invariant s' ≠ Some true) ∧
  (∃ s', restore_piece 0 passed_piece = Some (tt, s') ∧ view s' 0 = None ∧
     m_num_passed (tal s') = m_num_passed (tallies_of s') + 1) ∧
  ∃ s', resize 4 2 3 padded_picker = Some (returned, s') ∧ m_filtered_pad_blocks (tal s') = 0 ∧
     check_invariant s' ≠ Some true.
Proof.
  assert (Hok1 : picker_ok finished_piece)
    by (apply after_ok; [apply after_ok; [apply sample1_ok|by_run]|by_run]).
  assert (Hok2 : picker_ok passed_piece)
    by (apply after_ok; [apply after_ok; [apply sample1_ok|by_run]|by_run]).
  assert (Hok3 : picker_ok padded_picker)
    by (apply after_ok; [apply after_ok; [apply sample0_ok|by_run]|by_run]).
  assert (Hp1 : piece_map 2 finished_piece = Some (piece_of 2 finished_piece)) by by_run.
  assert (Hp2 : piece_map 0 passed_piece = Some (piece_of 0 passed_piece)) by by_run.
  assert (Hp3 : piece_map 0 padded_picker = Some (piece_of 0 padded_picker)) by by_run.
  assert (Hd : m_dirty finished_piece = false) by by_run.
  assert (Hpr : priority (m_seeds finished_piece) (with_state (piece_of 2 finished_piece) piece_open)
    ≠ priority (m_seeds finished_piece) (piece_of 2 finished_piece)) by by_run.
  assert (Hn : num_pieces padded_picker = 3) by by_run.
  destruct (invariant_broken finished_piece 2 _ Hok1 Hp1) as (H1 & _ & _).
  destruct (invariant_broken passed_piece 0 _ Hok2 Hp2) as (_ & H2 & _).
  destruct (invariant_broken padded_picker 0 _ Hok3 Hp3) as (_ & _ & H3).
  split; [|split; [exact (H2 ltac:(by_run))|]].
  - destruct (H1 ltac:(by_run) ltac:(by_run)) as (s' & Hrun & Hv & _ & _ & Hiff).
    exists s'. split; [exact Hrun|]. split; [exact Hv|]. intros Hck.
    exact (not_stays _ 2 _ Hp1 Hd Hpr (proj1 Hiff Hck)).
  - destruct (H3 ltac:(by_run) ltac:(by_run) 4 2 ltac:(by_run) ltac:(by_run))
      as (s' & Hrun & _ & _ & Hz & Hck).
    rewrite Hn in Hrun. exists s'. split; [exact Hrun|]. split; [exact Hz|exact Hck].
Defined.

Lemma update_pieces_orders_witness :
  ∃ s', picker_update_pieces (after call_inc_refcount_all sample0) = Some (tt, s') ∧
    picker_ok s' ∧ m_dirty s' = false.
Proof.
  assert (Hok : picker_ok (after call_inc_refcount_all sample0))
    by (apply after_ok; [apply sample0_ok|by_run]).
  destruct (update_pieces_orders _ Hok) as (s' & Hrun & Hok' & Hd & _).
  exists s'. split; [exact Hrun|]. split; [exact Hok'|exact Hd].
Defined.

Lemma taken_back_correct_witness :
  (∃ s', abort_download (PieceBlock 0 1) 5 sample2 = Some (tt, s') ∧ picker_ok s' ∧
     given_up false sample2 s' 0 1 (aborted_block (block_at sample2 0 1) 5) 0) ∧
  ∃ s', write_failed (PieceBlock 0 1) sample3 = Some (tt, s') ∧ picker_ok s'.
Proof.
  assert (Hp2 : piece_map 0 sample2 = Some (piece_of 0 sample2)) by by_run.
  assert (Hp3 : piece_map 0 sample3 = Some (piece_of 0 sample3)) by by_run.
  assert (Hj2 : 0 ≤ 1 < blocks_in_piece 0 sample2) by by_run.
  assert (Hj3 : 0 ≤ 1 < blocks_in_piece 0 sample3) by by_run.
  assert (Hst : bool_decide (bstate (block_at sample2 0 1) = state_requested) = true) by by_run.
  assert (Hu : used_at sample2 0 - Z.b2z (num_peers (block_at sample2 0 1) =? 1) = 0) by by_run.
  destruct (taken_back_correct sample2 0 1 5 _ sample2_ok Hp2 Hj2) as [H2 _].
  destruct (taken_back_correct sample3 0 1 5 _ sample3_ok Hp3 Hj3) as [_ H3].
  split.
  - destruct (H2 ltac:(by_run)) as ((s' & Hrun & Hok & Hg) & _).
    rewrite Hst, Hu in Hg. exists s'. split; [exact Hrun|]. split; [exact Hok|exact Hg].
  - destruct (H3 ltac:(by_run)) as (s' & Hrun & Hok & _). exists s'. split; [exact Hrun|exact Hok].
Defined.
