(* ===== verification/PickProperties.v ===== *)
(** What is proved of [pick_pieces]: src/btdownloader/torrent/piece_picker.cpp. *)

From stdpp Require Import gmap.
From S2P Require Import Prelude.
From S2P Require Import Random.
From S2P Require Import PiecePicker.
From S2P Require Import PickerBuckets.
From S2P Require Import PickerState.
From S2P Require Import PickerOps.
From S2P Require Import PickerBlocks.
From S2P Require Import PickerPick.
From S2P Require Import PickerInv.
From S2P Require Import PickerAvail.
From S2P Require Import PickerSteps.
From S2P Require Import PickerDls.
From S2P Require Import PickerCore.
From S2P Require Import PickerMarks.
From S2P Require Import PickerHave.
From S2P Require Import PickerLost.
From S2P Require Import PickerStart.
From S2P Require Import PickerCheck.
From S2P Require Import PickerQueries.
From S2P Require Import PickerGrow.
From S2P Require Import PickerPhases.
From S2P Require Import PickerPicked.
From S2P Require Import PickerPicking.
From S2P Require Import PickerDistinct.
From S2P Require Import PickerCalls.
From S2P Require Import PickerProperties.

Open Scope Z_scope.

(** an instance of [std::sort]: insertion sort *)
Fixpoint insert_by {A} (lt : A → A → bool) (x : A) (l : list A) : list A :=
  match l with
  | [] => [x]
  | y :: l => if lt x y then x :: y :: l else y :: insert_by lt x l
  end.

Definition insertion_sort : StdSort := λ A lt l, foldr (insert_by lt) [] l.

Lemma insert_by_perm {A} (lt : A → A → bool) x l : insert_by lt x l ≡ₚ x :: l.
Proof. induction l as [|y l IH]; cbn; [done|]. destruct (lt x y); [done|]. rewrite IH. apply perm_swap. Qed.

Lemma insertion_sort_ok : StdSortOk insertion_sort.
Proof.
  split. intros A lt l. unfold std_sort, insertion_sort. induction l as [|x l IH]; cbn; [done|].
  by rewrite insert_by_perm, IH.
Qed.

Section pick.
Context {R : StdRandom} {Rok : StdRandomOk R} {St : StdSort} {Sok : StdSortOk St}.

Lemma free_queries pieces s b :
  picker_ok s → vsize pieces = num_pieces s → free_pick pieces s b →
  block_queries s (piece_index b) (block_index b) = Some (false, false, false, 0, nullptr).
Proof.
  intros Hok Hsize [Hu [Hj Hfree]]. destruct b as [i j]. cbn [piece_index block_index] in *.
  pose proof (usable_range pieces s Hsize i Hu) as Hi.
  destruct (piece_lookup pieces s Hsize i Hi) as (p & _ & Hp & Hseen & _).
  rewrite (block_queries_spec s i j p (ok_core _ Hok) Hp Hj). destruct Hu as (_ & q & Hq & Hh & _).
  rewrite Hseen in Hq. injection Hq as <-. rewrite have_norm in Hh.
  destruct (view s i) as [[dp bs]|] eqn:Hv; [|by rewrite Hh].
  destruct Hfree as [|Hfree]; [done|]. cbv zeta. rewrite Hfree.
  destruct (ck_pieces _ (ok_core _ Hok) i _ _ _ Hseen Hv) as [_ [_ _ _ Hb] _ _].
  rewrite <-(view_size s (ck_queues _ (ok_core _ Hok)) i dp bs Hv) in Hj.
  destruct (vget_is_Some bs j Hj) as [x Hx]. specialize (Hb j x Hx).
  rewrite (block_at_view s i dp bs j x Hv Hx) in *. unfold block_ok in Hb. rewrite Hfree in Hb.
  by rewrite Hb.
Qed.

Lemma busy_queries pieces s pr b :
  picker_ok s → vsize pieces = num_pieces s → busy_pick pieces s pr b →
  ∃ k p, block_queries s (piece_index b) (block_index b) = Some (true, false, false, k, p) ∧
    0 < k ∧ p ≠ pr.
Proof.
  intros Hok Hsize (Hu & Hj & Hview & Hst & Hpr). destruct b as [i j]. cbn [piece_index block_index] in *.
  pose proof (usable_range pieces s Hsize i Hu) as Hi.
  destruct (piece_lookup pieces s Hsize i Hi) as (p & _ & Hp & Hseen & _).
  rewrite (block_queries_spec s i j p (ok_core _ Hok) Hp Hj).
  destruct (view s i) as [[dp bs]|] eqn:Hv; [|done]. cbv zeta. rewrite Hst.
  destruct (ck_pieces _ (ok_core _ Hok) i _ _ _ Hseen Hv) as [_ [_ _ _ Hb] _ _].
  rewrite <-(view_size s (ck_queues _ (ok_core _ Hok)) i dp bs Hv) in Hj.
  destruct (vget_is_Some bs j Hj) as [x Hx]. specialize (Hb j x Hx).
  rewrite (block_at_view s i dp bs j x Hv Hx) in *. unfold block_ok in Hb. rewrite Hst in Hb.
  do 2 eexists. split; [done|]. split; [lia|done].
Qed.

Lemma verify_pick_usable pieces s s' l :
  alike s s' → vsize pieces = num_pieces s →
  (∀ b, b ∈ l → usable pieces s (piece_index b)) → verify_pick l pieces s' = Some true.
Proof.
  intros Hal Hsize Hl. unfold verify_pick. rewrite Hsize, (al_size _ _ Hal), Z.eqb_refl. cbn [negb].
  induction l as [|b l IH]; [done|]. cbn [all_of].
  destruct (Hl b ltac:(left)) as (Hb & q & Hq & Hh & Hf). rewrite Hb.
  rewrite <-(al_seen _ _ Hal) in Hq. apply seen_Some in Hq as (p & Hp & <-).
  rewrite have_norm in Hh. rewrite filtered_norm in Hf. cbn [mbind option_bind].
  rewrite Hp. cbn [mbind option_bind]. rewrite Hh, Hf. cbn [negb andb].
  rewrite IH by (intros; apply Hl; by right). done.
Qed.

(** C14: [pick_pieces] returns for every combination of options but one: in
    random order with aligned ranges ([align_expanded_pieces]), at most one
    contiguous block may be preferred.  (The call is with the bitfield of a peer
    that has a bit for each of at least one piece, for at least one block, with
    suggested pieces that exist, and the recent extents that are looked at are
    not negative.)  The picker keeps its invariant and its pieces, and its own
    checker accepts the picks.  They are blocks the peer has and we want, that no peer has been asked for;
    one block that another peer was asked for may follow, but not for a peer on
    parole.  Unless contiguous blocks are preferred, they are no more than was
    asked for. *)
Theorem pick_pieces_correct pieces n prefer pr options suggested num_peers s :
  picker_ok s → can_pick_from pieces n s prefer options suggested →
  ∃ st s', pick_pieces pieces [] n prefer pr options suggested num_peers s = Some (st, s') ∧
    picker_ok s' ∧ alike s s' ∧
    verify_pick (interesting_blocks st) pieces s' = Some true ∧
    (prefer = 0 → vsize (interesting_blocks st) ≤ n) ∧
    ∃ free busy, interesting_blocks st = free ++ busy ∧
      (∀ b, b ∈ free → 0 ≤ block_index b < blocks_in_piece (piece_index b) s ∧
         block_queries s (piece_index b) (block_index b) = Some (false, false, false, 0, nullptr)) ∧
      (busy = [] ∨ ∃ b k p, busy = [b] ∧ on_parole options = false ∧
         0 ≤ block_index b < blocks_in_piece (piece_index b) s ∧
         block_queries s (piece_index b) (block_index b) = Some (true, false, false, k, p) ∧
         0 < k ∧ p ≠ pr).
Proof.
  intros Hok Hc. pose proof (cp_size _ _ _ _ _ _ Hc) as Hsize.
  destruct (pick_pieces_spec pieces n pr s prefer options suggested num_peers Hok Hc)
    as (st & s' & Hrun & [Hok' Hal] & (free & busy & Hi & Hfree & Hn & Hcase)).
  exists st, s'. split; [done|]. split; [done|]. split; [done|].
  rewrite Forall_forall in Hfree.
  assert (Hbusy : busy = [] ∨ ∃ b, busy = [b] ∧ busy_pick pieces s pr b ∧ on_parole options = false)
    by (destruct Hcase as [[_ ->]|[_ ?]]; [by left|done]).
  split; [|split; [done|]].
  - apply (verify_pick_usable pieces s s'); [done|done|]. intros b. rewrite Hi, elem_of_app.
    intros [Hb|Hb]; [by apply Hfree, list_elem_of_In|].
    destruct Hbusy as [->|(b' & -> & Hb' & _)]; [by apply not_elem_of_nil in Hb|].
    apply list_elem_of_singleton in Hb as ->. apply Hb'.
  - exists free, busy. split; [done|]. split.
    + intros b Hb. apply list_elem_of_In, Hfree in Hb. split; [apply Hb|by eapply free_queries].
    + destruct Hbusy as [->|(b & -> & Hb & Hpar)]; [by left|right].
      destruct (busy_queries pieces s pr b Hok Hsize Hb) as (k & p & Hq & Hk).
      exists b, k, p. split; [done|]. split; [done|]. split; [apply Hb|done].
Qed.

End pick.

(** ** Where [pick_pieces] goes wrong *)

#[local] Existing Instance insertion_sort.

(** a bitfield of a peer that has all pieces *)
Definition all_pieces : bitfield := [true; true; true].

Definition picks_of (m : M pick_state) (s : picker) : option (list piece_block) :=
  match m s with Some (st, _) => Some (interesting_blocks st) | None => None end.

(** random order, aligned ranges of pieces *)
Definition opts_aligned : picker_options_t := Options false false false false false false true false.

(** the number of contiguous blocks that [expand_piece] is given is rounded to 0
    pieces when it is negative, and more than a piece from zero; then it divides
    by zero when ranges are aligned, whatever the state *)
Lemma expand_piece_by_zero piece prefer pieces options s :
  align_expanded_pieces options = true → 0 < m_blocks_per_piece s →
  - m_blocks_per_piece s < prefer + m_blocks_per_piece s - 1 → prefer < 0 →
  Z.quot (prefer + m_blocks_per_piece s - 1) (m_blocks_per_piece s) = 0 ∧
  expand_piece piece prefer pieces options s = None.
Proof.
  intros Ha Hn Hlo Hneg. assert (Hq : Z.quot (prefer + m_blocks_per_piece s - 1) (m_blocks_per_piece s) = 0).
  { apply Z.quot_small_iff; lia. }
  split; [done|]. unfold expand_piece. rewrite (proj2 (Z.eqb_neq prefer 0)) by lia.
  rewrite (proj2 (Z.eqb_neq (m_blocks_per_piece s) 0)) by lia. cbn [negb guard_b mbind option_bind].
  rewrite Hq, Ha. done.
Qed.

(** Two runs that go wrong, on the sample pickers.  With a preference for recent
    extents, their pieces are visited again in the order of rarity: the free
    blocks are returned twice, here three pieces with nine free blocks for a
    peer that was asked for 18.  In random order, the number of contiguous blocks
    that are still preferred turns negative when a range of pieces is larger
    than the preference, and the number of whole pieces it is rounded to is then
    0, by which [expand_piece] divides when ranges are aligned. *)
Lemma pick_pieces_faults :
  picks_of (pick_pieces all_pieces [] 18 0 6 opts0 [] 1) sample2 =
    Some (let l := [PieceBlock 0 0; PieceBlock 0 2; PieceBlock 0 3;
                    PieceBlock 1 0; PieceBlock 1 1; PieceBlock 1 2; PieceBlock 1 3;
                    PieceBlock 2 0; PieceBlock 2 1] in l ++ l) ∧
  picks_of (pick_pieces all_pieces [] 8 2 6 opts_aligned [] 1) sample1 = None.
Proof. split; vm_compute; reflexivity. Qed.

(** ** Witnesses *)

#[local] Existing Instance insertion_sort_ok.

Definition opts_rarest : picker_options_t := Options true false false false false false false false.

Lemma sample2_can_pick n : 0 < n → can_pick_from all_pieces n sample2 0 opts_rarest [].
Proof. intros Hn. split; try done. intros i []%not_elem_of_nil. Qed.

Lemma pick_pieces_correct_witness :
  ∃ st s', pick_pieces all_pieces [] 3 0 6 opts_rarest [] 1 sample2 = Some (st, s') ∧
    verify_pick (interesting_blocks st) all_pieces s' = Some true ∧ vsize (interesting_blocks st) ≤ 3.
Proof.
  destruct (pick_pieces_correct all_pieces 3 0 6 opts_rarest [] 1 sample2)
    as (st & s' & Hrun & _ & _ & Hv & Hn & _); [apply sample2_ok|apply sample2_can_pick; lia|].
  exists st, s'. split; [exact Hrun|]. split; [exact Hv|]. by apply Hn.
Defined.

