(* ===== verification/Bitfield.v ===== *)
(** [bitfield]: src/btdownloader/include/libtorrent/bitfield.hpp and
    src/btdownloader/torrent/bitfield.cpp, with the functions of
    src/btdownloader/torrent/ffs.cpp that count bits.

    The bits are stored in 32 bit words in network byte order, the first bit in
    the most significant one.  The allocated array has one more element, the
    first, with the number of bits.  An empty bitfield has no array.  [None] is undefined
    behaviour: no array, an index outside of it, a shift by the width or
    more. *)

From S2P Require Import Prelude.

Open Scope Z_scope.

(** ** The platform *)

(** what the preprocessor and the processor decide *)
Class Platform := {
  big_endian : bool;
  has_popcnt : bool;
  has_builtin_clz : bool;
  has_builtin_ctz : bool
}.

Definition all_ones32 : Z := 0xffffffff.

Definition not32 (x : Z) : Z := Z.lxor x all_ones32.

(** [x << n] *)
Definition shl32 (x n : Z) : option Z :=
  if (0 <=? n) && (n <? 32) then Some (uint 32 (Z.shiftl x n)) else None.

Definition bswap (x : Z) : Z :=
  Z.lor (Z.lor (Z.shiftl (Z.land x 0xff) 24) (Z.shiftl (Z.land x 0xff00) 8))
    (Z.lor (Z.land (Z.shiftr x 8) 0xff00) (Z.shiftr x 24)).

(** the instruction *)
Definition popcnt (x : Z) : Z := foldr (λ i n, Z.b2z (Z.testbit x i) + n) 0 (seqZ 0 32).

(** [__builtin_clz] and [__builtin_ctz] of a number that is not 0 *)
Definition builtin_clz (x : Z) : Z := 31 - Z.log2 x.

Fixpoint builtin_ctz (x : positive) : Z :=
  match x with xO x => 1 + builtin_ctz x | _ => 0 end.

Section bitfield.
Context `{Platform}.

Definition host_to_network (x : Z) : Z := if big_endian then x else bswap x.

Definition network_to_host (x : Z) : Z := if big_endian then x else bswap x.

(** ** ffs.cpp *)

Definition MultiplyDeBruijnBitPosition : list Z :=
  [0; 9; 1; 10; 13; 21; 2; 29; 11; 14; 16; 18; 22; 25; 3; 30;
   8; 12; 20; 28; 15; 17; 24; 7; 19; 27; 23; 6; 26; 5; 4; 31].

Definition log2p1 (v : Z) : option Z :=
  let v := Z.lor v (Z.shiftr v 1) in
  let v := Z.lor v (Z.shiftr v 2) in
  let v := Z.lor v (Z.shiftr v 4) in
  let v := Z.lor v (Z.shiftr v 8) in
  let v := Z.lor v (Z.shiftr v 16) in
  MultiplyDeBruijnBitPosition⟦Z.shiftr (uint 32 (v * 0x07C4ACDD)) 27⟧.

(** the loop of [count_leading_zeros_sw], at word [i] *)
Fixpoint leading_zeros_sw (i : Z) (buf : list Z) : option Z :=
  match buf with
  | [] => Some (i * 32)
  | w :: buf =>
      if w =? 0 then leading_zeros_sw (i + 1) buf
      else l ← log2p1 (network_to_host w); Some (i * 32 + 31 - l)
  end.

Definition count_leading_zeros_sw (buf : list Z) : option Z := leading_zeros_sw 0 buf.

Fixpoint leading_zeros_hw (i : Z) (buf : list Z) : Z :=
  match buf with
  | [] => i * 32
  | w :: buf =>
      if w =? 0 then leading_zeros_hw (i + 1) buf
      else i * 32 + builtin_clz (network_to_host w)
  end.

Definition count_leading_zeros_hw (buf : list Z) : Z := leading_zeros_hw 0 buf.

Definition count_leading_zeros (buf : list Z) : option Z :=
  if has_builtin_clz then Some (count_leading_zeros_hw buf) else count_leading_zeros_sw buf.

(** the inner loop of [count_trailing_ones_sw]; the outer loop goes on when it
    finds no bit *)
Fixpoint first_bit (n : nat) (k v : Z) : option Z :=
  match n with
  | O => None
  | S n => if Z.land v 1 =? 0 then first_bit n (k + 1) (Z.shiftr v 1) else Some k
  end.

(** the words from the last on, [i] of them were seen *)
Fixpoint trailing_ones_sw (i : Z) (rbuf : list Z) : Z :=
  match rbuf with
  | [] => i * 32
  | w :: rbuf =>
      if w =? all_ones32 then trailing_ones_sw (i + 1) rbuf
      else
        match first_bit 32 0 (not32 (network_to_host w)) with
        | Some k => i * 32 + k
        | None => trailing_ones_sw (i + 1) rbuf
        end
  end.

Definition count_trailing_ones_sw (buf : list Z) : Z := trailing_ones_sw 0 (rev buf).

Fixpoint trailing_ones_hw (i : Z) (rbuf : list Z) : Z :=
  match rbuf with
  | [] => i * 32
  | w :: rbuf =>
      if w =? all_ones32 then trailing_ones_hw (i + 1) rbuf
      else i * 32 + builtin_ctz (Z.to_pos (not32 (network_to_host w)))
  end.

Definition count_trailing_ones_hw (buf : list Z) : Z := trailing_ones_hw 0 (rev buf).

Definition count_trailing_ones (buf : list Z) : Z :=
  if has_builtin_ctz then count_trailing_ones_hw buf else count_trailing_ones_sw buf.

(** ** Memory *)

(** the bytes of a word, in the order of their addresses *)
Definition word_bytes (w : Z) : list Z :=
  let bs := [Z.shiftr w 24; Z.land (Z.shiftr w 16) 0xff; Z.land (Z.shiftr w 8) 0xff; Z.land w 0xff] in
  if big_endian then bs else rev bs.

Definition bytes_word (a b c d : Z) : Z :=
  if big_endian then ((a * 256 + b) * 256 + c) * 256 + d else ((d * 256 + c) * 256 + b) * 256 + a.

Fixpoint words_of (mem : list Z) : list Z :=
  match mem with
  | a :: b :: c :: d :: mem => bytes_word a b c d :: words_of mem
  | _ => []
  end.

Definition words_bytes (words : list Z) : list Z := flat_map word_bytes words.

(** [memcpy] of [n] bytes of [b] to the words *)
Definition copy_bytes (b : list Z) (n : Z) (words : list Z) : option (list Z) :=
  guard_b ((0 <=? n) && (n <=? vsize b) && (n <=? 4 * vsize words));;
  Some (words_of (take (Z.to_nat n) b ++ drop (Z.to_nat n) (words_bytes words))).

(** [n] words from word [i] on *)
Definition subspan (i n : Z) (v : list Z) : option (list Z) :=
  guard_b ((0 <=? i) && (0 <=? n) && (i + n <=? vsize v));;
  Some (take (Z.to_nat n) (drop (Z.to_nat i) v)).

(** [memset] of [n] words from word [i] on *)
Definition fill (i n w : Z) (v : list Z) : option (list Z) :=
  guard_b ((0 <=? i) && (0 <=? n) && (i + n <=? vsize v));;
  Some (take (Z.to_nat i) v ++ replicate (Z.to_nat n) w ++ drop (Z.to_nat (i + n)) v).

(** ** The members *)

Record bitfield := Bitfield { m_buf : option (list Z) }.

Definition empty_bitfield : bitfield := Bitfield None.

Definition size (b : bitfield) : option Z :=
  match m_buf b with None => Some 0 | Some v => v⟦0⟧ end.

Definition num_words (b : bitfield) : option Z := s ← size b; Some (Z.quot (s + 31) 32).

Definition empty (b : bitfield) : option bool := s ← size b; Some (s =? 0).

(** word [i] of [buf()] *)
Definition get_word (i : Z) (b : bitfield) : option Z := v ← m_buf b; v⟦i + 1⟧.

Definition set_word (i : Z) (f : Z → Z) (b : bitfield) : option bitfield :=
  v ← m_buf b; w ← v⟦i + 1⟧; v ← v⟦i + 1 := f w⟧; Some (Bitfield (Some v)).

(** [data()]: the bytes of the words *)
Definition data (b : bitfield) : list Z :=
  match m_buf b with None => [] | Some v => words_bytes (drop 1 v) end.

(** [0x80000000 >> (index & 31)] *)
Definition bit_mask (index : Z) : Z := Z.shiftr 0x80000000 (Z.land index 31).

Definition get_bit (index : Z) (b : bitfield) : option bool :=
  w ← get_word (Z.quot index 32) b;
  Some (negb (Z.land w (host_to_network (bit_mask index)) =? 0)).

Definition clear_bit (index : Z) (b : bitfield) : option bitfield :=
  set_word (Z.quot index 32) (λ w, Z.land w (host_to_network (not32 (bit_mask index)))) b.

Definition set_bit (index : Z) (b : bitfield) : option bitfield :=
  set_word (Z.quot index 32) (λ w, Z.lor w (host_to_network (bit_mask index))) b.

(** [n] words from word [i] on are all [w] *)
Fixpoint all_words (n : nat) (w i : Z) (b : bitfield) : option bool :=
  match n with
  | O => Some true
  | S n => x ← get_word i b; if negb (x =? w) then Some false else all_words n w (i + 1) b
  end.

Definition all_set (b : bitfield) : option bool :=
  s ← size b;
  if s =? 0 then Some false
  else
    let words := Z.quot s 32 in
    ones ← all_words (Z.to_nat words) all_ones32 0 b;
    if negb (ones : bool) then Some false
    else
      let rest := Z.land s 31 in
      if 0 <? rest then
        m ← shl32 all_ones32 (32 - rest);
        let mask := host_to_network m in
        w ← get_word words b;
        Some (Z.land w mask =? mask)
      else Some true.

Definition none_set (b : bitfield) : option bool :=
  s ← size b;
  if s =? 0 then Some true else n ← num_words b; all_words (Z.to_nat n) 0 0 b.

(** the steps of [count] for one word, when no instruction does it *)
Definition count_word (v : Z) : Z :=
  let c := uint 32 (v - Z.land (Z.shiftr v 1) 0x55555555) in
  let c := uint 32 (Z.land (Z.shiftr c 2) 0x33333333 + Z.land c 0x33333333) in
  let c := Z.land (uint 32 (Z.shiftr c 4 + c)) 0x0F0F0F0F in
  let c := Z.land (uint 32 (Z.shiftr c 8 + c)) 0x00FF00FF in
  Z.land (uint 32 (Z.shiftr c 16 + c)) 0x0000FFFF.

Fixpoint count_loop (n : nat) (i ret : Z) (b : bitfield) : option Z :=
  match n with
  | O => Some ret
  | S n =>
      v ← get_word i b;
      count_loop n (i + 1) (ret + if has_popcnt then popcnt v else count_word v) b
  end.

Definition count (b : bitfield) : option Z :=
  n ← num_words b; count_loop (Z.to_nat n) 0 0 b.

Definition clear_trailing_bits (b : bitfield) : option bitfield :=
  s ← size b;
  if negb (Z.land s 31 =? 0) then
    n ← num_words b;
    m ← shl32 all_ones32 (32 - Z.land s 31);
    set_word (n - 1) (λ w, Z.land w (host_to_network m)) b
  else Some b.

(** [resize(bits)]; the sum of [bits] and 31 is an [int].  The words of the new array are those that are copied and
    the zeros after them. *)
Definition resize (bits : Z) (b : bitfield) : option bitfield :=
  s ← size b;
  if bits =? s then Some b
  else
    guard_b ((0 <=? bits) && (bits + 31 <? 2 ^ 31));;
    if bits =? 0 then Some (Bitfield None)
    else
      let new_size_words := Z.quot (bits + 31) 32 in
      cur_size_words ← num_words b;
      b ← (if negb (cur_size_words =? new_size_words) then
             old ← match m_buf b with
                   | Some v => subspan 1 (Z.min new_size_words cur_size_words) v
                   | None => Some []
                   end;
             let added := replicate (Z.to_nat (new_size_words - cur_size_words)) 0 in
             Some (Bitfield (Some (uint 32 bits :: old ++ added)))
           else
             v ← m_buf b;
             v ← v⟦0 := uint 32 bits⟧;
             Some (Bitfield (Some v)));
      clear_trailing_bits b.

(** [memset] of the words of [buf()] *)
Definition fill_words (i n w : Z) (b : bitfield) : option bitfield :=
  v ← m_buf b; v ← fill (i + 1) n w v; Some (Bitfield (Some v)).

(** [resize(bits, val)] *)
Definition resize_val (bits : Z) (val : bool) (b : bitfield) : option bitfield :=
  s ← size b;
  if bits =? s then Some b
  else
    let rest := Z.land s 31 in
    b ← resize bits b;
    s' ← size b;
    if s' <=? s then Some b
    else
      let old_size_words := Z.quot (s + 31) 32 in
      new_size_words ← num_words b;
      if val then
        b ← (if negb (old_size_words =? 0) && negb (rest =? 0) then
               set_word (old_size_words - 1)
                 (λ w, Z.lor w (host_to_network (Z.shiftr all_ones32 rest))) b
             else Some b);
        b ← (if old_size_words <? new_size_words then
               fill_words old_size_words (new_size_words - old_size_words) all_ones32 b
             else Some b);
        clear_trailing_bits b
      else
        if old_size_words <? new_size_words then
          fill_words old_size_words (new_size_words - old_size_words) 0 b
        else Some b.

(** [assign(b, bits)] *)
Definition assign (src : list Z) (bits : Z) (b : bitfield) : option bitfield :=
  b ← resize bits b;
  if 0 <? bits then
    v ← m_buf b;
    s ← v⟦0⟧;
    words ← copy_bytes src (Z.quot (bits + 7) 8) (drop 1 v);
    clear_trailing_bits (Bitfield (Some (s :: words)))
  else Some b.

(** the constructors *)
Definition new_bitfield (bits : Z) (val : bool) : option bitfield :=
  resize_val bits val empty_bitfield.

Definition copy (rhs b : bitfield) : option bitfield :=
  s ← size rhs; assign (data rhs) s b.

Definition set_all (b : bitfield) : option bitfield :=
  s ← size b;
  if s =? 0 then Some b
  else n ← num_words b; b ← fill_words 0 n all_ones32 b; clear_trailing_bits b.

Definition clear_all (b : bitfield) : option bitfield :=
  s ← size b;
  if s =? 0 then Some b else n ← num_words b; fill_words 0 n 0 b.

Definition clear (b : bitfield) : bitfield := Bitfield None.

Definition find_first_set (b : bitfield) : option Z :=
  num ← num_words b;
  if num =? 0 then Some (-1)
  else
    v ← m_buf b;
    words ← subspan 1 num v;
    count ← count_leading_zeros words;
    Some (if negb (count =? num * 32) then count else -1).

Definition find_last_clear (b : bitfield) : option Z :=
  num ← num_words b;
  if num =? 0 then Some (-1)
  else
    size ← size b;
    mask ← shl32 all_ones32 (32 - Z.land size 31);
    w ← get_word (num - 1) b;
    let last := Z.lxor w (host_to_network mask) in
    let ext := count_trailing_ones [not32 last] - (31 - Z.rem size 32) in
    if negb (last =? 0) then Some ((num - 1) * 32 + ext)
    else
      v ← m_buf b;
      words ← subspan 1 (num - 1) v;
      Some (size - (count_trailing_ones words + ext)).

(** ** Iterators *)

(** [buf] is a word of [buf()]; it is 0 when there is no array *)
Record const_iterator := ConstIterator { it_buf : Z; it_bit : Z }.

Definition new_iterator (ptr offset : Z) : const_iterator :=
  ConstIterator ptr (Z.shiftr 0x80000000 offset).

Definition begin_it : const_iterator := new_iterator 0 0.

Definition end_it (b : bitfield) : option const_iterator :=
  s ← size b;
  match m_buf b with
  | Some _ =>
      n ← num_words b;
      Some (new_iterator (n - if Z.land s 31 =? 0 then 0 else 1) (Z.land s 31))
  | None => Some (new_iterator 0 (Z.land s 31))
  end.

Definition inc (it : const_iterator) : const_iterator :=
  if it_bit it =? 1 then ConstIterator (it_buf it + 1) 0x80000000
  else ConstIterator (it_buf it) (Z.shiftr (it_bit it) 1).

Definition dec (it : const_iterator) : const_iterator :=
  if it_bit it =? 0x80000000 then ConstIterator (it_buf it - 1) 1
  else ConstIterator (it_buf it) (uint 32 (Z.shiftl (it_bit it) 1)).

Definition deref (it : const_iterator) (b : bitfield) : option bool :=
  w ← get_word (it_buf it) b; Some (negb (Z.land w (host_to_network (it_bit it)) =? 0)).

Definition same_position (i j : const_iterator) : bool :=
  (it_buf i =? it_buf j) && (it_bit i =? it_bit j).
End bitfield.
