(* ===== verification/BitWords.v ===== *)
(** Words of 32 bits: byte order, masks, and the functions that count bits. The
    versions in software and those with instructions compute the same numbers;
    each step of [bitfield::count] adds the neighbours among the digits of a
    number, in a base that is squared. *)

From S2P Require Import Prelude.
From stdpp Require Import list.
From S2P Require Import Bitfield.

Open Scope Z_scope.

Definition is_word (w : Z) : Prop := 0 ≤ w < 2 ^ 32.

(** ** Bits of words *)

Lemma word_high w i : is_word w → 32 ≤ i → Z.testbit w i = false.
Proof.
  intros [H0 H1] Hi. destruct (decide (w = 0)) as [->|Hw]; [apply Z.bits_0|].
  apply Z.bits_above_log2; [done|]. apply Z.log2_lt_pow2; [lia|].
  assert (2 ^ 32 ≤ 2 ^ i) by (apply Z.pow_le_mono_r; lia). lia.
Qed.

Lemma word_of_bits w : 0 ≤ w → (∀ i, 32 ≤ i → Z.testbit w i = false) → is_word w.
Proof.
  intros H0 Hi. split; [done|]. destruct (decide (w = 0)) as [->|Hw]; [done|].
  apply Z.log2_lt_pow2; [lia|]. destruct (Z.lt_ge_cases (Z.log2 w) 32) as [|Hl]; [done|].
  specialize (Hi _ Hl). rewrite Z.bit_log2 in Hi by lia. done.
Qed.

Lemma word_ext a b :
  is_word a → is_word b → (∀ i, 0 ≤ i < 32 → Z.testbit a i = Z.testbit b i) → a = b.
Proof.
  intros Ha Hb Hi. apply Z.bits_inj'. intros i H0.
  destruct (Z.lt_ge_cases i 32); [by apply Hi|]. by rewrite !word_high.
Qed.

Lemma word_land a b : is_word a → is_word (Z.land a b).
Proof.
  intros Ha. apply word_of_bits; [apply Z.land_nonneg; left; apply Ha|].
  intros i Hi. by rewrite Z.land_spec, word_high.
Qed.

Lemma word_lor a b : is_word a → is_word b → is_word (Z.lor a b).
Proof.
  intros Ha Hb. apply word_of_bits; [apply Z.lor_nonneg; split; [apply Ha|apply Hb]|].
  intros i Hi. by rewrite Z.lor_spec, !word_high.
Qed.

Lemma word_lxor a b : is_word a → is_word b → is_word (Z.lxor a b).
Proof.
  intros Ha Hb. apply word_of_bits; [apply Z.lxor_nonneg; split; intros _; [apply Hb|apply Ha]|].
  intros i Hi. by rewrite Z.lxor_spec, !word_high.
Qed.

Lemma word_shiftr a n : 0 ≤ n → is_word a → is_word (Z.shiftr a n).
Proof.
  intros Hn Ha. apply word_of_bits; [apply Z.shiftr_nonneg; apply Ha|].
  intros i Hi. rewrite Z.shiftr_spec by lia. apply word_high; [done|lia].
Qed.

Lemma word_uint a : is_word (uint 32 a).
Proof. apply uint_range. done. Qed.

Lemma ones_bits i : 0 ≤ i < 32 → Z.testbit all_ones32 i = true.
Proof. intros Hi. change all_ones32 with (Z.ones 32). by apply Z.ones_spec_low. Qed.

Lemma word_ones : is_word all_ones32.
Proof. done. Qed.

Lemma word_not a : is_word a → is_word (not32 a).
Proof. intros Ha. by apply word_lxor. Qed.

Lemma not32_spec a i : 0 ≤ i < 32 → Z.testbit (not32 a) i = negb (Z.testbit a i).
Proof. intros Hi. unfold not32. rewrite Z.lxor_spec, ones_bits by done. apply xorb_true_r. Qed.

Lemma not32_zero a : is_word a → not32 a = 0 ↔ a = all_ones32.
Proof.
  intros Ha. split; intros He; [|by subst].
  apply word_ext; [done|done|]. intros i Hi. rewrite ones_bits by done.
  pose proof (not32_spec a i Hi) as Hn. rewrite He, Z.bits_0 in Hn. by destruct (Z.testbit a i).
Qed.

(** ** Byte order *)

(** bit [i] of a swapped word *)
Definition swapped (i : Z) : Z := (3 - i / 8) * 8 + i mod 8.

Lemma swapped_range i : 0 ≤ i < 32 → 0 ≤ swapped i < 32.
Proof.
  intros Hi. unfold swapped. pose proof (Z.div_mod i 8 ltac:(done)).
  pose proof (Z.mod_pos_bound i 8 ltac:(done)). lia.
Qed.

Lemma swapped_swapped i : 0 ≤ i < 32 → swapped (swapped i) = i.
Proof.
  intros Hi. unfold swapped. division.
Qed.

(** a statement about all bits of a word *)
Lemma each_bit (P : Z → Prop) :
  (∀ n, (n < 32)%nat → P (Z.of_nat n)) → ∀ i, 0 ≤ i < 32 → P i.
Proof. intros HP i Hi. rewrite <-(Z2Nat.id i) by lia. apply HP. lia. Qed.

(** evaluates the bits of constants, and the bits of [x] outside of the word *)
Ltac const_bits x Hx :=
  repeat match goal with
  | |- context [Z.testbit x ?k] =>
      first [rewrite (word_high x k Hx) by lia | rewrite (Z.testbit_neg_r x k) by lia]
  | |- context [Z.testbit (Zpos ?c) ?k] =>
      let b := eval vm_compute in (Z.testbit (Zpos c) k) in change (Z.testbit (Zpos c) k) with b
  end.

Lemma bswap_spec x i : is_word x → 0 ≤ i < 32 → Z.testbit (bswap x) i = Z.testbit x (swapped i).
Proof.
  intros Hx. revert i. apply each_bit. intros n Hn. unfold bswap.
  rewrite !Z.lor_spec, !Z.shiftl_spec, !Z.land_spec, !Z.shiftr_spec by lia.
  do 32 (destruct n as [|n]; [cbn -[Z.testbit]; const_bits x Hx;
    rewrite ?andb_true_r, ?andb_false_r, ?orb_false_r, ?orb_false_l; reflexivity|]).
  lia.
Qed.

Lemma bswap_word x : is_word x → is_word (bswap x).
Proof.
  intros Hx. unfold bswap. repeat apply word_lor.
  - apply word_of_bits; [apply Z.shiftl_nonneg, Z.land_nonneg; lia|].
    intros i Hi. rewrite Z.shiftl_spec, Z.land_spec by lia.
    change 0xff with (Z.ones 8). rewrite Z.ones_spec_high by lia. apply andb_false_r.
  - apply word_of_bits; [apply Z.shiftl_nonneg, Z.land_nonneg; lia|].
    intros i Hi. rewrite Z.shiftl_spec, Z.land_spec by lia.
    rewrite (Z.bits_above_log2 0xff00) by (cbn; lia). apply andb_false_r.
  - rewrite Z.land_comm. by apply word_land.
  - by apply word_shiftr.
Qed.

Section order.
Context `{Platform}.

Lemma network_host w : network_to_host w = host_to_network w.
Proof. done. Qed.

Lemma network_word w : is_word w → is_word (host_to_network w).
Proof. unfold host_to_network. destruct big_endian; [done|]. apply bswap_word. Qed.

(** the place of a bit *)
Definition place (i : Z) : Z := if big_endian then i else swapped i.

Lemma place_range i : 0 ≤ i < 32 → 0 ≤ place i < 32.
Proof. unfold place. destruct big_endian; [done|]. apply swapped_range. Qed.

Lemma place_place i : 0 ≤ i < 32 → place (place i) = i.
Proof. unfold place. destruct big_endian; [done|]. apply swapped_swapped. Qed.

Lemma network_spec w i :
  is_word w → 0 ≤ i < 32 → Z.testbit (host_to_network w) i = Z.testbit w (place i).
Proof. unfold host_to_network, place. destruct big_endian; [done|]. apply bswap_spec. Qed.

Lemma network_network w : is_word w → host_to_network (host_to_network w) = w.
Proof.
  intros Hw. apply word_ext; [by apply network_word, network_word|done|]. intros i Hi.
  rewrite !network_spec by (try apply network_word; try apply place_range; done).
  by rewrite place_place.
Qed.

Lemma network_inj v w : is_word v → is_word w → host_to_network v = host_to_network w → v = w.
Proof. intros Hv Hw He. by rewrite <-(network_network v), <-(network_network w), He. Qed.

Lemma network_0 : host_to_network 0 = 0.
Proof. unfold host_to_network. by destruct big_endian. Qed.

Lemma network_ones : host_to_network all_ones32 = all_ones32.
Proof. unfold host_to_network. by destruct big_endian. Qed.

Lemma network_not_zero w : is_word w → w ≠ 0 → host_to_network w ≠ 0.
Proof. intros Hw Hw0 He. apply Hw0, network_inj; [done|done|]. by rewrite network_0. Qed.

Lemma network_not_ones w : is_word w → w ≠ all_ones32 → host_to_network w ≠ all_ones32.
Proof. intros Hw Hw0 He. apply Hw0, network_inj; [done|done|]. by rewrite network_ones. Qed.

(** bit [k] of a stored word, from the first on *)
Definition bit_at (w k : Z) : bool := Z.testbit (network_to_host w) (31 - k).

Lemma bit_at_network w k : is_word w → bit_at (host_to_network w) k = Z.testbit w (31 - k).
Proof. intros Hw. unfold bit_at. by rewrite network_host, network_network. Qed.

Lemma bit_at_place w k : is_word w → 0 ≤ k < 32 → bit_at w k = Z.testbit w (place (31 - k)).
Proof. intros Hw Hk. unfold bit_at. rewrite network_host. apply network_spec; [done|lia]. Qed.

Lemma bit_at_ext a b : is_word a → is_word b → (∀ k, 0 ≤ k < 32 → bit_at a k = bit_at b k) → a = b.
Proof.
  intros Ha Hb Hk. rewrite <-(network_network a), <-(network_network b) by done. f_equal.
  apply word_ext; [by apply network_word..|]. intros i Hi.
  specialize (Hk (31 - i) ltac:(lia)). unfold bit_at in Hk. rewrite !network_host in Hk.
  by replace (31 - (31 - i)) with i in Hk by lia.
Qed.

Lemma bit_at_land a b k :
  is_word a → is_word b → 0 ≤ k < 32 → bit_at (Z.land a b) k = bit_at a k && bit_at b k.
Proof. intros Ha Hb Hk. rewrite !bit_at_place by (try apply word_land; done). apply Z.land_spec. Qed.

Lemma bit_at_lor a b k :
  is_word a → is_word b → 0 ≤ k < 32 → bit_at (Z.lor a b) k = bit_at a k || bit_at b k.
Proof. intros Ha Hb Hk. rewrite !bit_at_place by (try apply word_lor; done). apply Z.lor_spec. Qed.

Lemma bit_at_lxor a b k :
  is_word a → is_word b → 0 ≤ k < 32 → bit_at (Z.lxor a b) k = xorb (bit_at a k) (bit_at b k).
Proof. intros Ha Hb Hk. rewrite !bit_at_place by (try apply word_lxor; done). apply Z.lxor_spec. Qed.

Lemma bit_at_zero k : 0 ≤ k < 32 → bit_at 0 k = false.
Proof. intros Hk. rewrite bit_at_place by done. apply Z.bits_0. Qed.

Lemma bit_at_ones k : 0 ≤ k < 32 → bit_at all_ones32 k = true.
Proof. intros Hk. rewrite bit_at_place by done. apply ones_bits, place_range. lia. Qed.

Lemma bit_at_not a k : is_word a → 0 ≤ k < 32 → bit_at (not32 a) k = negb (bit_at a k).
Proof.
  intros Ha Hk. rewrite !bit_at_place by (try apply word_not; done).
  apply not32_spec, place_range. lia.
Qed.

Lemma word_zero w : is_word w → w = 0 ↔ ∀ k, 0 ≤ k < 32 → bit_at w k = false.
Proof.
  intros Hw. split; [intros -> k; apply bit_at_zero|]. intros Hk. apply bit_at_ext; [done|done|].
  intros k Hk'. by rewrite bit_at_zero, Hk.
Qed.

Lemma word_all_ones w : is_word w → w = all_ones32 ↔ ∀ k, 0 ≤ k < 32 → bit_at w k = true.
Proof.
  intros Hw. split; [intros -> k; apply bit_at_ones|]. intros Hk. apply bit_at_ext; [done|done|].
  intros k Hk'. by rewrite bit_at_ones, Hk.
Qed.
End order.

(** ** The lowest and the highest bit *)

Record lowest (v j : Z) : Prop := {
  lo_range : 0 ≤ j;
  lo_set : Z.testbit v j = true;
  lo_clear i : 0 ≤ i < j → Z.testbit v i = false
}.

Lemma lowest_unique v i j : lowest v i → lowest v j → i = j.
Proof.
  intros [Hi1 Hi2 Hi3] [Hj1 Hj2 Hj3]. destruct (Z.lt_trichotomy i j) as [Hlt|[Heq|Hlt]]; [|done|].
  - rewrite Hj3 in Hi2 by lia. done.
  - rewrite Hi3 in Hj2 by lia. done.
Qed.

Lemma lowest_double v j : lowest v j → lowest (2 * v) (1 + j).
Proof.
  intros [H0 H1 H2]. split; [lia|by rewrite Z.add_1_l, Z.testbit_even_succ by done|].
  intros i Hi. destruct (decide (i = 0)) as [->|]; [apply Z.testbit_even_0|].
  replace i with (Z.succ (i - 1)) by lia. rewrite Z.testbit_even_succ by lia. apply H2. lia.
Qed.

Lemma lowest_half v j : Z.odd v = false → lowest v j → 0 < j ∧ lowest (Z.shiftr v 1) (j - 1).
Proof.
  intros Hv [H0 H1 H2].
  assert (j ≠ 0) by (intros ->; rewrite Z.bit0_odd in H1; congruence).
  split; [lia|]. split; [lia| |].
  - rewrite Z.shiftr_spec by lia. by replace (j - 1 + 1) with j by lia.
  - intros i Hi. rewrite Z.shiftr_spec by lia. apply H2. lia.
Qed.

Lemma builtin_ctz_lowest x : lowest (Zpos x) (builtin_ctz x).
Proof.
  induction x as [x IH|x IH|]; cbn [builtin_ctz].
  - split; [done|done|]. intros. lia.
  - change (Zpos x~0) with (2 * Zpos x). by apply lowest_double.
  - split; [done|done|]. intros. lia.
Qed.

Lemma first_bit_lowest n k v j : lowest v j → j < Z.of_nat n → first_bit n k v = Some (k + j).
Proof.
  revert k v j. induction n as [|n IH]; intros k v j Hl Hn; [destruct Hl; lia|].
  cbn [first_bit]. change 1 with (Z.ones 1) at 1. rewrite Z.land_ones by done.
  change (2 ^ 1) with 2. rewrite Zmod_odd. destruct (Z.odd v) eqn:Ho; cbn [Z.eqb].
  - f_equal. assert (lowest v 0) by (split; [done|by rewrite Z.bit0_odd|lia]).
    rewrite (lowest_unique v j 0) by done. lia.
  - apply lowest_half in Hl as [Hj Hl]; [|done]. rewrite (IH _ _ (j - 1)) by (done || lia). f_equal. lia.
Qed.

(** the highest bits of [v] are copied down [s] places *)
Definition smeared (k s v : Z) : Prop :=
  0 ≤ v ∧ (∀ i, k < i → Z.testbit v i = false) ∧ (∀ i, 0 ≤ i → k - s < i ≤ k → Z.testbit v i = true).

Lemma smear k s v : 0 < s → smeared k s v → smeared k (s + s) (Z.lor v (Z.shiftr v s)).
Proof.
  intros Hs (H0 & Hhi & Hlo). split; [by apply Z.lor_nonneg; rewrite Z.shiftr_nonneg|]. split.
  - intros i Hi. destruct (Z.lt_ge_cases i 0); [by apply Z.testbit_neg_r|].
    rewrite Z.lor_spec, Z.shiftr_spec, !Hhi by lia. done.
  - intros i Hi0 Hi. rewrite Z.lor_spec, Z.shiftr_spec by lia.
    destruct (Z.lt_ge_cases (k - s) i); [by rewrite Hlo by lia|].
    rewrite (Hlo (i + s)) by lia. apply orb_true_r.
Qed.

(** the table of [log2p1] *)
Lemma table_spec n :
  (n < 32)%nat →
  MultiplyDeBruijnBitPosition⟦Z.shiftr (uint 32 (Z.ones (Z.of_nat n + 1) * 0x07C4ACDD)) 27⟧ =
  Some (Z.of_nat n).
Proof. intros Hn. do 32 (destruct n as [|n]; [vm_compute; reflexivity|]). lia. Qed.

Lemma log2p1_spec v : is_word v → v ≠ 0 → log2p1 v = Some (Z.log2 v).
Proof.
  intros Hv Hv0. pose proof (Z.log2_nonneg v). set (k := Z.log2 v) in *.
  assert (Hk : k < 32) by (apply Z.log2_lt_pow2; destruct Hv; lia).
  assert (Hs : smeared k 1 v).
  { split; [apply Hv|]. split; [intros i Hi; apply Z.bits_above_log2; [apply Hv|done]|].
    intros i Hi0 Hi. replace i with k by lia. apply Z.bit_log2. destruct Hv. lia. }
  unfold log2p1. cbn zeta.
  apply smear in Hs; [|done]. apply smear in Hs; [|done]. apply smear in Hs; [|done].
  apply smear in Hs; [|done]. apply smear in Hs; [|done]. cbn [Z.add Pos.add Pos.add_carry Pos.succ] in Hs.
  match goal with |- context [uint 32 (?x * _)] => set (u := x) in * end.
  assert (Hu : u = Z.ones (Z.of_nat (Z.to_nat k) + 1)).
  { apply Z.bits_inj'. intros i Hi. destruct Hs as (_ & Hhi & Hlo). rewrite Z2Nat.id by done.
    destruct (Z.lt_ge_cases k i).
    - rewrite Hhi, Z.ones_spec_high by lia. done.
    - rewrite Hlo, Z.ones_spec_low by lia. done. }
  rewrite Hu, table_spec by lia. f_equal. lia.
Qed.

(** ** The bits of words in a row *)

Section words.
Context `{Platform}.

Definition wbit (ws : list Z) (k : Z) : bool :=
  match ws⟦k / 32⟧ with Some w => bit_at w (k mod 32) | None => false end.

Lemma wbit_cons w ws k :
  0 ≤ k → wbit (w :: ws) k = if k <? 32 then bit_at w k else wbit ws (k - 32).
Proof.
  intros Hk. unfold wbit. rewrite vget_cons. destruct (Z.ltb_spec k 32).
  - by rewrite Z.div_small, Z.mod_small by lia.
  - assert (k / 32 = (k - 32) / 32 + 1 ∧ k mod 32 = (k - 32) mod 32) as [-> ->]
      by division.
    pose proof (Z.div_pos (k - 32) 32 ltac:(lia) ltac:(done)).
    destruct (Z.eqb_spec ((k - 32) / 32 + 1) 0); [lia|]. by rewrite Z.add_simpl_r.
Qed.

Lemma wbit_app ws ws' k :
  0 ≤ k → wbit (ws ++ ws') k = if k <? 32 * vsize ws then wbit ws k else wbit ws' (k - 32 * vsize ws).
Proof.
  intros Hk. unfold wbit. destruct (Z.ltb_spec k (32 * vsize ws)).
  - rewrite vget_app_l; [done|]. apply Z.div_lt_upper_bound; lia.
  - rewrite vget_app_r by (apply Z.div_le_lower_bound; lia).
    replace (k - 32 * vsize ws) with (k + - vsize ws * 32) by lia.
    by rewrite Z.div_add, Z.mod_add by done.
Qed.

Lemma wbit_high ws k : 32 * vsize ws ≤ k → wbit ws k = false.
Proof.
  intros Hk. unfold wbit. rewrite vget_None; [done|]. pose proof (Z.div_le_lower_bound k 32 (vsize ws)). lia.
Qed.

Lemma builtin_clz_spec w :
  is_word w → w ≠ 0 →
  let k := builtin_clz (network_to_host w) in
  0 ≤ k < 32 ∧ bit_at w k = true ∧ ∀ i, 0 ≤ i < k → bit_at w i = false.
Proof.
  intros Hw Hw0. rewrite network_host. pose proof (network_word w Hw) as Hn.
  pose proof (network_not_zero w Hw Hw0).
  set (v := host_to_network w) in *. unfold builtin_clz, bit_at. rewrite network_host. fold v. cbn zeta.
  pose proof (Z.log2_nonneg v). assert (Z.log2 v < 32) by (apply Z.log2_lt_pow2; destruct Hn; lia).
  split; [lia|]. split.
  - replace (31 - (31 - Z.log2 v)) with (Z.log2 v) by lia. apply Z.bit_log2. destruct Hn. lia.
  - intros i Hi. apply Z.bits_above_log2; [apply Hn|lia].
Qed.

(** [m] is the number of zeros in front *)
Definition zeros (ws : list Z) (m : Z) : Prop :=
  0 ≤ m ≤ 32 * vsize ws ∧ (∀ k, 0 ≤ k < m → wbit ws k = false) ∧
  (m < 32 * vsize ws → wbit ws m = true).

Lemma zeros_found w ws m :
  0 ≤ m < 32 → bit_at w m = true → (∀ i, 0 ≤ i < m → bit_at w i = false) → zeros (w :: ws) m.
Proof.
  intros Hm Hset Hclear. unfold zeros. vsize. pose proof (vsize_nonneg ws). split; [lia|]. split.
  - intros k Hk. rewrite wbit_cons by lia. destruct (Z.ltb_spec k 32); [|lia]. by apply Hclear.
  - intros _. rewrite wbit_cons by lia. by destruct (Z.ltb_spec m 32); [|lia].
Qed.

Lemma zeros_skip ws m : zeros ws m → zeros (0 :: ws) (32 + m).
Proof.
  intros (Hm & Hz & Ho). unfold zeros. vsize. split; [lia|]. split.
  - intros k Hk. rewrite wbit_cons by lia. destruct (Z.ltb_spec k 32); [apply bit_at_zero; lia|]. apply Hz. lia.
  - intros Hl. rewrite wbit_cons by lia. destruct (Z.ltb_spec (32 + m) 32); [lia|].
    rewrite Z.add_simpl_l. apply Ho. lia.
Qed.

Lemma leading_zeros_hw_spec ws i :
  Forall is_word ws → ∃ m, leading_zeros_hw i ws = i * 32 + m ∧ zeros ws m.
Proof.
  intros Hws. revert i. induction Hws as [|w ws Hw Hws IH]; intros i; cbn [leading_zeros_hw].
  - exists 0. split; [lia|]. split; [done|]. split; intros; [lia|done].
  - destruct (Z.eqb_spec w 0) as [->|Hw0].
    + destruct (IH (i + 1)) as (m & Hm & Hz). exists (32 + m). split; [lia|]. by apply zeros_skip.
    + destruct (builtin_clz_spec w Hw Hw0) as (Hk & Hset & Hclear).
      eexists. split; [done|]. by apply zeros_found.
Qed.

Lemma leading_zeros_sw_hw ws i : Forall is_word ws → leading_zeros_sw i ws = Some (leading_zeros_hw i ws).
Proof.
  intros Hws. revert i. induction Hws as [|w ws Hw Hws IH]; intros i; cbn [leading_zeros_sw leading_zeros_hw]; [done|].
  destruct (Z.eqb_spec w 0) as [->|Hw0]; [by apply IH|]. rewrite network_host.
  rewrite log2p1_spec; [cbn; f_equal; unfold builtin_clz; lia|by apply network_word|].
  by apply network_not_zero.
Qed.

Lemma count_leading_zeros_spec ws :
  Forall is_word ws → ∃ m, count_leading_zeros ws = Some m ∧ zeros ws m.
Proof.
  intros Hws. unfold count_leading_zeros, count_leading_zeros_hw, count_leading_zeros_sw.
  destruct (leading_zeros_hw_spec ws 0 Hws) as (m & Hm & Hz). exists m. split; [|done].
  rewrite leading_zeros_sw_hw, Hm by done. by destruct has_builtin_clz.
Qed.

(** ** Trailing ones *)

Lemma trailing_spec w j :
  is_word w → lowest (not32 (network_to_host w)) j →
  0 ≤ j < 32 ∧ bit_at w (31 - j) = false ∧ ∀ i, 31 - j < i < 32 → bit_at w i = true.
Proof.
  intros Hw [H0 H1 H2]. rewrite network_host in *. pose proof (network_word w Hw) as Hn.
  assert (Hj : j < 32).
  { destruct (Z.lt_ge_cases j 32); [done|]. rewrite word_high in H1 by (done || by apply word_not). done. }
  rewrite not32_spec in H1 by done. split; [lia|]. unfold bit_at. rewrite network_host. split.
  - replace (31 - (31 - j)) with j by lia. by apply negb_true_iff.
  - intros i Hi. specialize (H2 (31 - i) ltac:(lia)). rewrite not32_spec in H2 by lia.
    by apply negb_false_iff.
Qed.

Lemma not_all_ones w :
  is_word w → w ≠ all_ones32 → 0 < not32 (network_to_host w).
Proof.
  intros Hw Hne. rewrite network_host. pose proof (network_word w Hw) as Hn.
  pose proof (word_not _ Hn) as [Hge _].
  assert (not32 (host_to_network w) ≠ 0); [|lia]. intros He. apply not32_zero in He; [|done].
  by apply (network_not_ones w).
Qed.

(** [m] is the number of ones at the end *)
Definition ones (ws : list Z) (m : Z) : Prop :=
  0 ≤ m ≤ 32 * vsize ws ∧ (∀ k, 32 * vsize ws - m ≤ k < 32 * vsize ws → wbit ws k = true) ∧
  (m < 32 * vsize ws → wbit ws (32 * vsize ws - m - 1) = false).

Lemma wbit_snoc ws w k :
  0 ≤ k < 32 * (vsize ws + 1) →
  wbit (ws ++ [w]) k = if k <? 32 * vsize ws then wbit ws k else bit_at w (k - 32 * vsize ws).
Proof.
  intros Hk. rewrite wbit_app by lia. destruct (Z.ltb_spec k (32 * vsize ws)); [done|].
  rewrite wbit_cons by lia. by destruct (Z.ltb_spec (k - 32 * vsize ws) 32); [|lia].
Qed.

Lemma ones_found ws w j :
  0 ≤ j < 32 → bit_at w (31 - j) = false → (∀ i, 31 - j < i < 32 → bit_at w i = true) →
  ones (ws ++ [w]) j.
Proof.
  intros Hj Hc Hs. unfold ones. rewrite vsize_app. change (vsize [w]) with 1. pose proof (vsize_nonneg ws). split; [lia|]. split.
  - intros k Hk. rewrite wbit_snoc by lia. destruct (Z.ltb_spec k (32 * vsize ws)); [lia|]. apply Hs. lia.
  - intros _. rewrite wbit_snoc by lia.
    destruct (Z.ltb_spec (32 * (vsize ws + 1) - j - 1) (32 * vsize ws)); [lia|].
    rewrite <-Hc. f_equal. lia.
Qed.

Lemma ones_skip ws m : ones ws m → ones (ws ++ [all_ones32]) (32 + m).
Proof.
  intros (Hm & Hs & Hc). unfold ones. rewrite vsize_app. change (vsize [all_ones32]) with 1.
  pose proof (vsize_nonneg ws). split; [lia|]. split.
  - intros k Hk. rewrite wbit_snoc by lia. destruct (Z.ltb_spec k (32 * vsize ws)).
    + apply Hs. lia.
    + apply bit_at_ones. lia.
  - intros Hl. rewrite wbit_snoc by lia.
    destruct (Z.ltb_spec (32 * (vsize ws + 1) - (32 + m) - 1) (32 * vsize ws)); [|lia].
    rewrite <-Hc by lia. f_equal. lia.
Qed.

Lemma trailing_ones_hw_spec ws i :
  Forall is_word ws → ∃ m, trailing_ones_hw i (rev ws) = i * 32 + m ∧ ones ws m.
Proof.
  revert i. induction ws as [|w ws IH] using rev_ind; intros i Hws.
  - exists 0. split; [cbn; lia|]. split; [done|]. split; [|done]. intros k Hk. vsize in Hk. lia.
  - apply Forall_app in Hws as [Hws Hw%Forall_inv]. rewrite rev_app_distr. cbn [rev app trailing_ones_hw].
    destruct (Z.eqb_spec w all_ones32) as [->|Hw0].
    + destruct (IH (i + 1) Hws) as (m & Hm & Hz). exists (32 + m). split; [lia|]. by apply ones_skip.
    + pose proof (not_all_ones w Hw Hw0) as Hp. eexists. split; [done|].
      pose proof (builtin_ctz_lowest (Z.to_pos (not32 (network_to_host w)))) as Hl.
      rewrite Z2Pos.id in Hl by done. destruct (trailing_spec w _ Hw Hl) as (H1 & H2 & H3).
      by apply ones_found.
Qed.

Lemma trailing_ones_sw_hw ws i : Forall is_word ws → trailing_ones_sw i ws = trailing_ones_hw i ws.
Proof.
  intros Hws. revert i. induction Hws as [|w ws Hw Hws IH]; intros i; cbn [trailing_ones_sw trailing_ones_hw]; [done|].
  destruct (Z.eqb_spec w all_ones32) as [->|Hw0]; [by apply IH|].
  pose proof (not_all_ones w Hw Hw0) as Hp.
  pose proof (builtin_ctz_lowest (Z.to_pos (not32 (network_to_host w)))) as Hl.
  rewrite Z2Pos.id in Hl by done. destruct (trailing_spec w _ Hw Hl) as (Hj & _).
  by rewrite (first_bit_lowest _ _ _ _ Hl) by (cbn; lia).
Qed.

Lemma count_trailing_ones_spec ws :
  Forall is_word ws → ∃ m, count_trailing_ones ws = m ∧ ones ws m.
Proof.
  intros Hws. unfold count_trailing_ones, count_trailing_ones_hw, count_trailing_ones_sw.
  destruct (trailing_ones_hw_spec ws 0 Hws) as (m & Hm & Hz). exists m. split; [|done].
  rewrite trailing_ones_sw_hw by by apply Forall_rev. destruct has_builtin_ctz; lia.
Qed.
End words.

(** the number with the digits [ds], the lowest one first, each of [w] bits *)
Fixpoint num (w : Z) (ds : list Z) : Z :=
  match ds with [] => 0 | d :: ds => d + 2 ^ w * num w ds end.

(** every digit is at most [m] *)
Definition small (m : Z) (ds : list Z) : Prop := Forall (λ d, 0 ≤ d ≤ m) ds.

Lemma small_cons m d ds : small m (d :: ds) ↔ 0 ≤ d ≤ m ∧ small m ds.
Proof. unfold small. by rewrite Forall_cons. Qed.

(** neighbours are added *)
Fixpoint pairs (ds : list Z) : list Z :=
  match ds with a :: b :: ds => (a + b) :: pairs ds | _ => [] end.

Fixpoint evens (ds : list Z) : list Z :=
  match ds with a :: _ :: ds => a :: evens ds | _ => [] end.

Fixpoint odds (ds : list Z) : list Z :=
  match ds with _ :: b :: ds => b :: odds ds | _ => [] end.

(** induction by pairs *)
Lemma pairs_ind (P : nat → list Z → Prop) :
  P O [] → (∀ n a b ds, length ds = (2 * n)%nat → P n ds → P (S n) (a :: b :: ds)) →
  ∀ n ds, length ds = (2 * n)%nat → P n ds.
Proof.
  intros H0 HS n. induction n as [|n IH]; intros ds Hl; [by destruct ds|].
  destruct ds as [|a [|b ds]]; [done|cbn in Hl; lia|].
  assert (length ds = (2 * n)%nat) by (cbn in Hl; lia). apply HS; auto.
Qed.

Lemma land_mod w a b : 0 ≤ w → Z.land a b mod 2 ^ w = Z.land (a mod 2 ^ w) (b mod 2 ^ w).
Proof.
  intros Hw. rewrite <-!Z.land_ones by done. apply Z.bits_inj'. intros i Hi.
  rewrite !Z.land_spec. by destruct (Z.testbit a i), (Z.testbit b i), (Z.testbit (Z.ones w) i).
Qed.

(** digits and masks are independent *)
Lemma land_digits w x y X Y :
  0 ≤ w → 0 ≤ x < 2 ^ w → 0 ≤ y < 2 ^ w →
  Z.land (x + 2 ^ w * X) (y + 2 ^ w * Y) = Z.land x y + 2 ^ w * Z.land X Y.
Proof.
  intros Hw Hx Hy. assert (Hp : 0 < 2 ^ w) by (apply Z.pow_pos_nonneg; lia).
  assert (Hmod : ∀ z Z', 0 ≤ z < 2 ^ w → (z + 2 ^ w * Z') mod 2 ^ w = z ∧ (z + 2 ^ w * Z') / 2 ^ w = Z').
  { intros z Z' Hz. rewrite (Z.mul_comm (2 ^ w)), Z.mod_add, Z.div_add by lia.
    rewrite Z.mod_small, Z.div_small by done. done. }
  pose proof (Z.div_mod (Z.land (x + 2 ^ w * X) (y + 2 ^ w * Y)) (2 ^ w) ltac:(lia)) as Hdm.
  rewrite Hdm, Z.add_comm. f_equal; [|f_equal].
  - rewrite land_mod by done. by rewrite (proj1 (Hmod x X Hx)), (proj1 (Hmod y Y Hy)).
  - rewrite <-Z.shiftr_div_pow2, Z.shiftr_land, !Z.shiftr_div_pow2 by done.
    by rewrite (proj2 (Hmod x X Hx)), (proj2 (Hmod y Y Hy)).
Qed.

Lemma num_range w n m ds :
  0 ≤ w → m < 2 ^ w → small m ds → length ds = n → 0 ≤ num w ds < 2 ^ (w * Z.of_nat n).
Proof.
  intros Hw Hm Hs <-. assert (Hp : 0 < 2 ^ w) by (apply Z.pow_pos_nonneg; lia).
  induction Hs as [|d ds Hd Hs IH]; [by rewrite Z.mul_0_r|]. cbn [num length].
  rewrite Nat2Z.inj_succ, Z.mul_succ_r, Z.pow_add_r by lia. nia.
Qed.

(** a mask leaves every other digit *)
Lemma mask_evens w m n ds :
  0 < w → m < 2 ^ w → length ds = (2 * n)%nat → small m ds →
  Z.land (num w ds) (num (2 * w) (replicate n (Z.ones w))) = num (2 * w) (evens ds).
Proof.
  intros Hw Hm Hl. revert n ds Hl. apply (pairs_ind (λ n ds, small m ds → _)); [done|].
  intros n a b ds Hl IH Hs. rewrite !small_cons in Hs. destruct Hs as (Ha & Hb & Hs).
  cbn [num replicate evens].
  assert (Hp : 0 < 2 ^ w) by (apply Z.pow_pos_nonneg; lia).
  replace (a + 2 ^ w * (b + 2 ^ w * num w ds)) with ((a + 2 ^ w * b) + 2 ^ (2 * w) * num w ds)
    by (replace (2 * w) with (w + w) by lia; rewrite Z.pow_add_r by lia; ring).
  assert (Ho : Z.ones w = 2 ^ w - 1) by (rewrite Z.ones_equiv; lia).
  rewrite land_digits; [|lia| |].
  - rewrite IH by done. f_equal. rewrite Z.land_ones, (Z.mul_comm (2 ^ w)), Z.mod_add by lia.
    apply Z.mod_small. lia.
  - replace (2 * w) with (w + w) by lia. rewrite Z.pow_add_r by lia. nia.
  - rewrite Ho. replace (2 * w) with (w + w) by lia. rewrite Z.pow_add_r by lia. nia.
Qed.

(** a shift by a digit *)
Lemma shift_digit w m d ds :
  0 < w → m < 2 ^ w → small m (d :: ds) → Z.shiftr (num w (d :: ds)) w = num w ds.
Proof.
  intros Hw Hm [Hd Hs]%small_cons. cbn [num]. rewrite Z.shiftr_div_pow2 by lia.
  rewrite (Z.mul_comm (2 ^ w)), Z.div_add by (assert (0 < 2 ^ w) by (apply Z.pow_pos_nonneg; lia); lia).
  by rewrite Z.div_small by lia.
Qed.

Lemma num_snoc_0 w ds : num w (ds ++ [0]) = num w ds.
Proof. induction ds as [|d ds IH]; cbn [app num]; [by rewrite Z.mul_0_r|by rewrite IH]. Qed.

Lemma evens_tail n d ds : length (d :: ds) = (2 * n)%nat → evens (ds ++ [0]) = odds (d :: ds).
Proof.
  revert d ds. induction n as [|n IH]; intros d ds Hl; [done|].
  destruct ds as [|b [|d' ds]]; [done|done|]. cbn [app evens odds]. f_equal. apply (IH d'). cbn in *. lia.
Qed.

Lemma num_add w ds ds' :
  length ds = length ds' → num w (zip_with Z.add ds ds') = num w ds + num w ds'.
Proof.
  revert ds'. induction ds as [|d ds IH]; intros [|d' ds'] Hl; cbn in Hl |- *; [done|lia|lia|].
  rewrite IH by lia. ring.
Qed.

Lemma pairs_add n ds : length ds = (2 * n)%nat → zip_with Z.add (evens ds) (odds ds) = pairs ds.
Proof. revert n ds. apply pairs_ind; [done|]. intros n a b ds Hl IH. cbn. by rewrite IH. Qed.

Lemma length_pairs n ds : length ds = (2 * n)%nat → length (pairs ds) = n ∧ length (evens ds) = n ∧ length (odds ds) = n.
Proof.
  revert n ds. apply pairs_ind; [done|]. intros n a b ds Hl (IH1 & IH2 & IH3). cbn. by rewrite IH1, IH2, IH3.
Qed.

Lemma small_pairs n m ds :
  length ds = (2 * n)%nat → small m ds → small (2 * m) (pairs ds) ∧ small m (evens ds) ∧ small m (odds ds).
Proof.
  revert n ds. apply (pairs_ind (λ n ds, small m ds → _)); [intros _; split_and!; constructor|]. intros n a b ds Hl IH Hs.
  rewrite !small_cons in Hs. destruct Hs as (Ha & Hb & (IH1 & IH2 & IH3)%IH).
  cbn. rewrite !small_cons. split_and!; try done; lia.
Qed.

Lemma small_snoc_0 m d ds : small m (d :: ds) → small m (ds ++ [0]).
Proof. intros [Hd Hs]%small_cons. apply Forall_app. split; [done|]. apply Forall_singleton. lia. Qed.

(** the two ways to add neighbours: mask, then add; add, then mask *)
Lemma step_mask w m n ds :
  0 < w → m < 2 ^ w → length ds = (2 * n)%nat → small m ds →
  let mask := num (2 * w) (replicate n (Z.ones w)) in
  Z.land (Z.shiftr (num w ds) w) mask = num (2 * w) (odds ds) ∧
  Z.land (num w ds) mask = num (2 * w) (evens ds) ∧
  num (2 * w) (evens ds) + num (2 * w) (odds ds) = num (2 * w) (pairs ds).
Proof.
  intros Hw Hm Hl Hs mask. split; [|split].
  - destruct ds as [|d ds]; [by rewrite Z.shiftr_0_l|]. rewrite (shift_digit _ m) by done.
    rewrite <-num_snoc_0. unfold mask. rewrite (mask_evens w m n); [|done|done| |].
    + by rewrite (evens_tail n d).
    + rewrite length_app. cbn in *. lia.
    + by eapply small_snoc_0.
  - by apply (mask_evens w m).
  - rewrite <-(pairs_add n) by done. symmetry. apply num_add.
    destruct (length_pairs n ds Hl) as (_ & -> & ->). done.
Qed.

Lemma small_add m xs ys : small m xs → small m ys → small (2 * m) (zip_with Z.add xs ys).
Proof.
  intros Hx. revert ys. induction Hx as [|x xs Hx Hxs IH]; intros ys Hy; [constructor|].
  destruct Hy as [|y ys Hy Hys]; [constructor|]. cbn [zip_with]. apply small_cons. split; [lia|by apply IH].
Qed.

Lemma evens_add n xs :
  length xs = (2 * n)%nat → ∀ ys : list Z, length ys = (2 * n)%nat →
  evens (zip_with Z.add xs ys) = zip_with Z.add (evens ys) (evens xs).
Proof.
  revert n xs. apply (pairs_ind (λ n xs, ∀ ys : list Z, length ys = (2 * n)%nat → _)); [by intros [|]|].
  intros n a b xs Hx IH [|c [|d ys]] Hy; cbn in Hy; [lia|lia|]. cbn. rewrite IH by lia. f_equal. lia.
Qed.

Lemma step_add w m n ds :
  0 < w → 2 * m < 2 ^ w → length ds = (2 * n)%nat → small m ds →
  Z.land (Z.shiftr (num w ds) w + num w ds) (num (2 * w) (replicate n (Z.ones w))) = num (2 * w) (pairs ds).
Proof.
  intros Hw Hm Hl Hs. destruct ds as [|d ds]; [by rewrite Z.shiftr_0_l|].
  pose proof Hs as [Hd Hs']%small_cons. rewrite (shift_digit _ m) by (done || lia).
  rewrite <-(num_snoc_0 w ds), <-num_add by (rewrite length_app; cbn; lia).
  rewrite (mask_evens w (2 * m) n); [|done|done| |].
  - f_equal. rewrite <-(pairs_add n (d :: ds)), <-(evens_tail n d) by done.
    apply (evens_add n); [rewrite length_app; cbn in *; lia|done].
  - rewrite length_zip_with, length_app. cbn in *. lia.
  - apply small_add; [by eapply small_snoc_0|done].
Qed.

(** ** The digits of a word *)

(** the bits of [v] from bit [i] on *)
Fixpoint bits_from (n : nat) (i v : Z) : list Z :=
  match n with O => [] | S n => Z.b2z (Z.testbit v i) :: bits_from n (i + 1) v end.

Lemma length_bits n i v : length (bits_from n i v) = n.
Proof. revert i. induction n as [|n IH]; intros i; cbn; [done|]. by rewrite IH. Qed.

Lemma small_bits n i v : small 1 (bits_from n i v).
Proof.
  revert i. induction n as [|n IH]; intros i; cbn; [constructor|]. apply small_cons.
  split; [by destruct (Z.testbit v i)|apply IH].
Qed.

Lemma num_bits n i v : 0 ≤ i → num 1 (bits_from n i v) = Z.shiftr v i mod 2 ^ Z.of_nat n.
Proof.
  revert i. induction n as [|n IH]; intros i Hi; [by rewrite Z.mod_1_r|]. cbn [bits_from num].
  rewrite IH by lia. change (2 ^ 1) with 2. rewrite Nat2Z.inj_succ, Z.pow_succ_r by lia.
  rewrite Z.rem_mul_r by (try apply Z.pow_nonzero; lia). rewrite Zmod_odd.
  replace (Z.shiftr v (i + 1)) with (Z.shiftr v i / 2)
    by (change 2 with (2 ^ 1); rewrite <-Z.shiftr_div_pow2, Z.shiftr_shiftr by lia; done).
  rewrite <-Z.bit0_odd, Z.shiftr_spec, Z.add_0_l by done. by destruct (Z.testbit v i).
Qed.

(** the sum of the digits *)
Definition sum (ds : list Z) : Z := foldr Z.add 0 ds.

Lemma sum_pairs n ds : length ds = (2 * n)%nat → sum (pairs ds) = sum ds.
Proof. revert n ds. apply pairs_ind; [done|]. intros n a b ds Hl IH. unfold sum in *. cbn [pairs foldr]. lia. Qed.

Lemma popcnt_sum v : popcnt v = sum (bits_from 32 0 v).
Proof. reflexivity. Qed.

(** a step whose sums fit a word *)
Lemma uint_num w n m ds :
  0 ≤ w → m < 2 ^ w → small m ds → length ds = n → w * Z.of_nat n ≤ 32 → uint 32 (num w ds) = num w ds.
Proof.
  intros Hw Hm Hs Hl Hn. apply uint_small. pose proof (num_range w n m ds Hw Hm Hs Hl).
  assert (2 ^ (w * Z.of_nat n) ≤ 2 ^ 32) by (apply Z.pow_le_mono_r; lia). lia.
Qed.

Lemma uint_add w n m ds :
  0 < w → 2 * m < 2 ^ w → small m ds → length ds = (2 * n)%nat → w * Z.of_nat (2 * n) ≤ 32 →
  uint 32 (Z.shiftr (num w ds) w + num w ds) = Z.shiftr (num w ds) w + num w ds.
Proof.
  intros Hw Hm Hs Hl Hn. destruct ds as [|d ds]; [by rewrite Z.shiftr_0_l|].
  pose proof Hs as [Hd _]%small_cons. rewrite (shift_digit _ m) by (done || lia).
  rewrite <-(num_snoc_0 w ds), <-num_add by (rewrite length_app; cbn; lia).
  apply (uint_num w (2 * n) (2 * m)); [lia|done| | |done].
  - apply small_add; [by eapply small_snoc_0|done].
  - rewrite length_zip_with, length_app. cbn in *. lia.
Qed.

(** the steps of [count_word], with the masks of the code *)
Section steps.
Context (ds : list Z).

Lemma step_1 :
  length ds = 32%nat → small 1 ds →
  uint 32 (num 1 ds - Z.land (Z.shiftr (num 1 ds) 1) 0x55555555) = num 2 (pairs ds).
Proof.
  intros Hl Hs. destruct (step_mask 1 1 16 ds) as (Ho & _ & Hp); [done|done|done|done|].
  change 0x55555555 with (num (2 * 1) (replicate 16 (Z.ones 1))). rewrite Ho.
  assert (Hn : num 1 ds = num 2 (evens ds) + 2 * num 2 (odds ds)).
  { clear Ho Hp. revert Hl Hs. change 32%nat with (2 * 16)%nat. revert ds. generalize 16%nat as n.
    intros n ds0. revert n ds0. apply (pairs_ind (λ n ds, small 1 ds → _)); [done|].
    intros n a b ds' Hl IH Hs. rewrite !small_cons in Hs. cbn [num evens odds].
    rewrite IH by apply Hs. ring. }
  rewrite Hn, <-(uint_num 2 16 2 (pairs ds)).
  - change (2 * 1) with 2 in *. rewrite <-Hp. f_equal. ring.
  - done.
  - done.
  - by apply (small_pairs 16 1).
  - by apply (length_pairs 16).
  - done.
Qed.

Lemma step_2 :
  length ds = 16%nat → small 2 ds →
  uint 32 (Z.land (Z.shiftr (num 2 ds) 2) 0x33333333 + Z.land (num 2 ds) 0x33333333) = num 4 (pairs ds).
Proof.
  intros Hl Hs. destruct (step_mask 2 2 8 ds) as (Ho & He & Hp); [done|done|done|done|].
  change 0x33333333 with (num (2 * 2) (replicate 8 (Z.ones 2))). rewrite Ho, He, Z.add_comm, Hp.
  apply (uint_num 4 8 4); [done|done| | |done].
  - by apply (small_pairs 8 2).
  - by apply (length_pairs 8).
Qed.

(** the last three *)
Lemma step_3 w m n mask :
  0 < w → 2 * m < 2 ^ w → length ds = (2 * n)%nat → small m ds → w * Z.of_nat (2 * n) ≤ 32 →
  mask = num (2 * w) (replicate n (Z.ones w)) →
  Z.land (uint 32 (Z.shiftr (num w ds) w + num w ds)) mask = num (2 * w) (pairs ds).
Proof. intros Hw Hm Hl Hs Hn ->. by rewrite (uint_add w n m), (step_add w m n). Qed.
End steps.

Lemma count_word_spec v : is_word v → count_word v = popcnt v.
Proof.
  intros Hv. rewrite popcnt_sum.
  assert (H1 : v = num 1 (bits_from 32 0 v)).
  { rewrite num_bits, Z.shiftr_0_r by done. symmetry. by apply Z.mod_small. }
  pose proof (length_bits 32 0 v) as Hl. pose proof (small_bits 32 0 v) as Hs.
  set (ds := bits_from 32 0 v) in *. clearbody ds. subst v. unfold count_word. cbn zeta.
  rewrite step_1 by done. rewrite <-(sum_pairs 16 ds) by done.
  destruct (small_pairs 16 1 ds) as (Hs1 & _); [done|done|]. destruct (length_pairs 16 ds) as (Hl1 & _); [done|].
  rewrite step_2 by done. rewrite <-(sum_pairs 8 (pairs ds)) by done.
  destruct (small_pairs 8 2 (pairs ds)) as (Hs2 & _); [done|done|]. destruct (length_pairs 8 (pairs ds)) as (Hl2 & _); [done|].
  set (d2 := pairs (pairs ds)) in *.
  rewrite (step_3 d2 4 4 4) by done. rewrite <-(sum_pairs 4 d2) by done.
  destruct (small_pairs 4 4 d2) as (Hs3 & _); [done|done|]. destruct (length_pairs 4 d2) as (Hl3 & _); [done|].
  rewrite (step_3 (pairs d2) 8 8 2) by done. rewrite <-(sum_pairs 2 (pairs d2)) by done.
  destruct (small_pairs 2 8 (pairs d2)) as (Hs4 & _); [done|done|]. destruct (length_pairs 2 (pairs d2)) as (Hl4 & _); [done|].
  rewrite (step_3 (pairs (pairs d2)) 16 16 1) by done. rewrite <-(sum_pairs 1 (pairs (pairs d2))) by done.
  destruct (length_pairs 1 (pairs (pairs d2))) as (Hl5 & _); [done|].
  destruct (pairs (pairs (pairs d2))) as [|d [|]]; [done| |done]. cbn. lia.
Qed.

(** computes the indices of the bits of [x] *)
Ltac bit_indices x :=
  repeat match goal with
  | |- context [Z.testbit x ?k] =>
      lazymatch k with
      | Z0 => fail
      | Zpos _ => fail
      | _ => let k' := eval vm_compute in k in change (Z.testbit x k) with (Z.testbit x k')
      end
  end.

(** the count does not depend on the byte order *)
Lemma popcnt_bswap x : is_word x → popcnt (bswap x) = popcnt x.
Proof.
  intros Hx. rewrite !popcnt_sum. unfold sum. cbn [bits_from foldr].
  rewrite !bswap_spec by done. bit_indices x. lia.
Qed.

(** the ones among the bits of a stored word *)
Lemma popcnt_bits `{Platform} w :
  is_word w → popcnt w = foldr (λ k n, Z.b2z (bit_at w k) + n) 0 (seqZ 0 32).
Proof.
  intros Hw. transitivity (popcnt (network_to_host w)).
  - unfold network_to_host. destruct big_endian; [done|]. by rewrite popcnt_bswap.
  - unfold bit_at. set (x := network_to_host w). unfold popcnt.
    change (seqZ 0 32) with (Z.of_nat <$> seq 0 32). cbn [seq fmap list_fmap foldr].
    bit_indices x. lia.
Qed.
