(* ===== verification/BitfieldOps.v ===== *)
(** A [bitfield] represents a list of bits: each operation does to its words
    what a function on lists does to the bits; bitfields and bytes. *)

From S2P Require Import Prelude.
From stdpp Require Import list.
From S2P Require Import Bitfield.
From S2P Require Import BitWords.

Open Scope Z_scope.

(** bit [k] of a list, [false] outside of it *)
Definition nth_bit (l : list bool) (k : Z) : bool := default false l⟦k⟧.

Lemma nth_bit_high l k : vsize l ≤ k → nth_bit l k = false.
Proof. intros Hk. unfold nth_bit. by rewrite vget_None by lia. Qed.

Lemma nth_bit_ext l l' :
  vsize l = vsize l' → (∀ k, 0 ≤ k < vsize l → nth_bit l k = nth_bit l' k) → l = l'.
Proof.
  intros Hl Hk. apply list_eq_same_length with (length l); [unfold vsize in *; lia|done|].
  intros i x y Hi Hx Hy. specialize (Hk (Z.of_nat i) ltac:(unfold vsize; lia)).
  unfold nth_bit in Hk. rewrite !vget_nat, Hx, Hy in Hk. done.
Qed.

(** the largest size: [size() + 31] is an [int] *)
Definition max_bits : Z := 2 ^ 31 - 32.

(** the words that [n] bits take *)
Definition words_for (n : Z) : Z := (n + 31) / 32.

Lemma words_for_spec n : 0 < n → 32 * (words_for n - 1) < n ≤ 32 * words_for n ∧ 0 < words_for n.
Proof. intros Hn. unfold words_for. division. Qed.

(** the last word, and the bits in it *)
Lemma last_word n :
  0 < n → n mod 32 ≠ 0 → words_for n = n / 32 + 1.
Proof. intros Hn Hr. unfold words_for. division. Qed.

Lemma land_31 n : Z.land n 31 = n mod 32.
Proof. change 31 with (Z.ones 5). by rewrite Z.land_ones. Qed.

Section bitfield.
Context `{Platform}.

(** [b] has [n] bits, and its words the bits [f] *)
Definition holds (b : bitfield) (n : Z) (f : Z → bool) : Prop :=
  ∃ ws, m_buf b = Some (n :: ws) ∧ 0 < n ≤ max_bits ∧ Forall is_word ws ∧ vsize ws = words_for n ∧
    ∀ k, 0 ≤ k < 32 * words_for n → wbit ws k = f k.

Definition represents (b : bitfield) (l : list bool) : Prop :=
  match m_buf b with None => l = [] | Some _ => holds b (vsize l) (nth_bit l) end.

Lemma holds_ext b n f g :
  (∀ k, 0 ≤ k < 32 * words_for n → f k = g k) → holds b n f → holds b n g.
Proof.
  intros Hfg (ws & Hb & Hn & Hws & Hs & Hf). exists ws. split_and!; try done; try lia.
  intros k Hk. by rewrite Hf, Hfg.
Qed.

Lemma holds_represents b n f l :
  holds b n f → vsize l = n → (∀ k, 0 ≤ k < 32 * words_for n → f k = nth_bit l k) → represents b l.
Proof.
  intros Hh <- Hf. unfold represents. pose proof Hh as (ws & -> & _). by eapply holds_ext.
Qed.

Lemma represents_holds b l : represents b l → l ≠ [] → holds b (vsize l) (nth_bit l).
Proof. unfold represents. by destruct (m_buf b). Qed.

Lemma represents_nil b : represents b [] ↔ m_buf b = None.
Proof.
  unfold represents. destruct (m_buf b) as [v|] eqn:Hb; [|done]. split; [|done].
  intros (ws & _ & [Hn _] & _). change (0 < 0) in Hn. lia.
Qed.

Lemma represents_size b l : represents b l → size b = Some (vsize l) ∧ vsize l ≤ max_bits.
Proof.
  unfold represents, size. destruct (m_buf b) as [v|] eqn:Hb; [|by intros ->].
  intros (ws & Hv & Hn & _). rewrite Hb in Hv. injection Hv as ->. split; [done|lia].
Qed.

Lemma num_words_spec b l : represents b l → num_words b = Some (words_for (vsize l)).
Proof.
  intros Hr. unfold num_words. rewrite (proj1 (represents_size b l Hr)). cbn [mbind option_bind].
  unfold words_for. pose proof (vsize_nonneg l). by rewrite Z.quot_div_nonneg by lia.
Qed.

Lemma holds_size b n f : holds b n f → size b = Some n ∧ num_words b = Some (words_for n).
Proof.
  intros (ws & Hb & Hn & _). unfold num_words, size. rewrite Hb.
  change ((n :: ws)⟦0⟧) with (Some n). cbn [mbind option_bind]. split; [done|].
  unfold words_for. by rewrite Z.quot_div_nonneg by lia.
Qed.

(** ** Words *)

Lemma wbit_of ws i w k :
  ws⟦i⟧ = Some w → 0 ≤ k < 32 → wbit ws (32 * i + k) = bit_at w k.
Proof.
  intros Hw Hk. unfold wbit. replace (32 * i + k) with (k + i * 32) by lia.
  rewrite Z.div_add, Z.mod_add, Z.div_small, Z.mod_small, Z.add_0_l by lia. by rewrite Hw.
Qed.

Lemma get_word_holds b n f i :
  holds b n f → 0 ≤ i < words_for n →
  ∃ w, get_word i b = Some w ∧ is_word w ∧ ∀ k, 0 ≤ k < 32 → bit_at w k = f (32 * i + k).
Proof.
  intros (ws & Hb & Hn & Hws & Hs & Hf) Hi. unfold get_word. rewrite Hb. cbn [mbind option_bind].
  rewrite vget_cons_S by lia. destruct (vget_is_Some ws i) as [w Hw]; [lia|]. exists w.
  split; [done|]. split; [rewrite Forall_forall in Hws; by eapply Hws, vget_elem_of|].
  intros k Hk. rewrite <-Hf by lia. symmetry. by apply wbit_of.
Qed.

Lemma wbit_set ws i w w' ws' k :
  ws⟦i⟧ = Some w → ws⟦i := w'⟧ = Some ws' → 0 ≤ k →
  wbit ws' k = if k / 32 =? i then bit_at w' (k mod 32) else wbit ws k.
Proof. intros Hw Hs Hk. unfold wbit. rewrite (vset_get _ _ _ _ _ Hs). by destruct (k / 32 =? i). Qed.

Lemma Forall_vset {A} (P : A → Prop) (v w : list A) i x :
  Forall P v → P x → v⟦i := x⟧ = Some w → Forall P w.
Proof. intros Hv Hx [_ ->]%vset_inv. by apply Forall_insert. Qed.

(** a word is written, its bits by [h] *)
Lemma set_word_holds b n f i g h :
  holds b n f → 0 ≤ i < words_for n →
  (∀ w, is_word w → is_word (g w) ∧ ∀ k, 0 ≤ k < 32 → bit_at (g w) k = h k (bit_at w k)) →
  ∃ b', set_word i g b = Some b' ∧ holds b' n (λ k, if k / 32 =? i then h (k mod 32) (f k) else f k).
Proof.
  intros (ws & Hb & Hn & Hws & Hs & Hf) Hi Hg. unfold set_word. rewrite Hb. cbn [mbind option_bind].
  rewrite vget_cons_S by lia. destruct (vget_is_Some ws i) as [w Hw]; [lia|]. rewrite Hw. cbn [mbind option_bind].
  assert (Hww : is_word w) by (rewrite Forall_forall in Hws; by eapply Hws, vget_elem_of).
  destruct (Hg w Hww) as [Hgw Hh].
  destruct (vset_is_Some ws i (g w)) as [ws' Hws']; [lia|].
  assert (Hset : (n :: ws)⟦i + 1 := g w⟧ = Some (n :: ws')).
  { pose proof Hws' as [_ ->]%vset_inv. rewrite vset_Some by (vsize).
    replace (Z.to_nat (i + 1)) with (S (Z.to_nat i)) by lia. done. }
  rewrite Hset. cbn [mbind option_bind]. eexists. split; [done|]. exists ws'. cbn [m_buf].
  split; [done|]. split; [done|]. split; [by eapply Forall_vset|]. split; [rewrite (vset_size _ _ _ _ Hws'); done|].
  intros k Hk. rewrite (wbit_set _ _ _ _ _ _ Hw Hws') by lia.
  destruct (Z.eqb_spec (k / 32) i) as [He|He]; [|by apply Hf].
  pose proof (Z.mod_pos_bound k 32 ltac:(done)). rewrite Hh by lia. f_equal.
  rewrite <-Hf by done. unfold wbit. by rewrite He, Hw.
Qed.

Lemma wbit_replicate n w k :
  0 ≤ k < 32 * Z.of_nat n → wbit (replicate n w) k = bit_at w (k mod 32).
Proof.
  intros Hk. unfold wbit, vget. pose proof (Z.div_pos k 32 ltac:(lia) ltac:(done)).
  destruct (Z.ltb_spec (k / 32) 0); [lia|]. rewrite lookup_replicate_2; [done|].
  assert (k / 32 < Z.of_nat n) by (apply Z.div_lt_upper_bound; lia). lia.
Qed.

Lemma wbit_take ws n k :
  0 ≤ k → 0 ≤ n → wbit (take (Z.to_nat n) ws) k = if k <? 32 * n then wbit ws k else false.
Proof.
  intros Hk Hn. unfold wbit, vget. pose proof (Z.div_pos k 32 Hk ltac:(done)).
  destruct (Z.ltb_spec (k / 32) 0); [lia|]. destruct (Z.ltb_spec k (32 * n)).
  - rewrite lookup_take_lt; [done|]. assert (k / 32 < n) by (apply Z.div_lt_upper_bound; lia). lia.
  - rewrite lookup_take_ge; [done|]. assert (n ≤ k / 32) by (apply Z.div_le_lower_bound; lia). lia.
Qed.

Lemma wbit_drop ws n k :
  0 ≤ k → 0 ≤ n → wbit (drop (Z.to_nat n) ws) k = wbit ws (32 * n + k).
Proof.
  intros Hk Hn. unfold wbit, vget. replace (32 * n + k) with (k + n * 32) by lia.
  rewrite Z.div_add, Z.mod_add by done. pose proof (Z.div_pos k 32 Hk ltac:(done)).
  destruct (Z.ltb_spec (k / 32) 0); [lia|]. destruct (Z.ltb_spec (k / 32 + n) 0); [lia|].
  rewrite lookup_drop. by replace (Z.to_nat (k / 32 + n)) with (Z.to_nat n + Z.to_nat (k / 32))%nat by lia.
Qed.

(** [memset] of words *)
Lemma fill_words_holds b n f i m w x :
  holds b n f → 0 ≤ i → 0 ≤ m → i + m ≤ words_for n → is_word w → (∀ k, 0 ≤ k < 32 → bit_at w k = x) →
  ∃ b', fill_words i m w b = Some b' ∧
    holds b' n (λ k, if (32 * i <=? k) && (k <? 32 * (i + m)) then x else f k).
Proof.
  intros (ws & Hb & Hn & Hws & Hs & Hf) Hi Hm Him Hw Hx. unfold fill_words. rewrite Hb. cbn [mbind option_bind].
  unfold fill, guard_b. vsize. destruct (Z.leb_spec 0 (i + 1)); [|lia]. destruct (Z.leb_spec 0 m); [|lia].
  destruct (Z.leb_spec (i + 1 + m) (1 + vsize ws)); [|lia]. cbn [andb mbind option_bind].
  eexists. split; [done|]. replace (Z.to_nat (i + 1)) with (S (Z.to_nat i)) by lia.
  replace (Z.to_nat (i + 1 + m)) with (S (Z.to_nat (i + m))) by lia. cbn [take drop app].
  eexists. cbn [m_buf]. split; [done|]. split; [done|]. split; [|split].
  - apply Forall_app. split; [by apply Forall_take|]. apply Forall_app.
    split; [by apply Forall_replicate|by apply Forall_drop].
  - vsize. rewrite vsize_replicate. unfold vsize in *. rewrite length_take, length_drop. lia.
  - assert (Ht : vsize (take (Z.to_nat i) ws) = i) by (unfold vsize in *; rewrite length_take; lia).
    intros k Hk. rewrite wbit_app, Ht by lia.
    destruct (Z.ltb_spec k (32 * i)), (Z.leb_spec (32 * i) k); try lia; cbn [andb].
    + rewrite wbit_take by lia. destruct (Z.ltb_spec k (32 * i)); [|lia]. by apply Hf.
    + rewrite wbit_app by lia. rewrite vsize_replicate, Z2Nat.id by done.
      destruct (Z.ltb_spec (k - 32 * i) (32 * m)), (Z.ltb_spec k (32 * (i + m))); try lia.
      * rewrite wbit_replicate by lia. apply Hx, Z.mod_pos_bound. done.
      * rewrite wbit_drop by lia. rewrite <-Hf by lia. f_equal. lia.
Qed.

(** ** Masks *)

Lemma bit_mask_spec i :
  0 ≤ i → is_word (bit_mask i) ∧ ∀ k, 0 ≤ k < 32 → bit_at (host_to_network (bit_mask i)) k = (k =? i mod 32).
Proof.
  intros Hi. unfold bit_mask. rewrite land_31. pose proof (Z.mod_pos_bound i 32 ltac:(done)).
  assert (Hw : is_word (Z.shiftr 0x80000000 (i mod 32))) by (apply word_shiftr; [lia|done]).
  split; [done|]. intros k Hk. rewrite bit_at_network by done. rewrite Z.shiftr_spec by lia.
  change 0x80000000 with (2 ^ 31). rewrite Z.pow2_bits_eqb by done. apply eq_true_iff_eq.
  rewrite !Z.eqb_eq. lia.
Qed.

(** the mask of the first [r] bits *)
Lemma head_mask r :
  0 < r < 32 → ∃ m, shl32 all_ones32 (32 - r) = Some m ∧ is_word m ∧
    ∀ k, 0 ≤ k < 32 → bit_at (host_to_network m) k = (k <? r).
Proof.
  intros Hr. unfold shl32. destruct (Z.leb_spec 0 (32 - r)); [|lia]. destruct (Z.ltb_spec (32 - r) 32); [|lia].
  eexists. split; [done|]. split; [apply word_uint|]. intros k Hk. rewrite bit_at_network by apply word_uint.
  unfold uint. rewrite Z.mod_pow2_bits_low, Z.shiftl_spec by lia. change all_ones32 with (Z.ones 32).
  destruct (Z.ltb_spec k r).
  - apply Z.ones_spec_low. lia.
  - apply Z.testbit_neg_r. lia.
Qed.

(** the mask of the bits from [r] on *)
Lemma tail_mask r :
  0 ≤ r < 32 → is_word (Z.shiftr all_ones32 r) ∧
    ∀ k, 0 ≤ k < 32 → bit_at (host_to_network (Z.shiftr all_ones32 r)) k = (r <=? k).
Proof.
  intros Hr. assert (Hw : is_word (Z.shiftr all_ones32 r)) by (apply word_shiftr; [lia|done]).
  split; [done|]. intros k Hk. rewrite bit_at_network, Z.shiftr_spec by (done || lia).
  change all_ones32 with (Z.ones 32). destruct (Z.leb_spec r k).
  - apply Z.ones_spec_low. lia.
  - apply Z.ones_spec_high. lia.
Qed.

Lemma clear_trailing_holds b n f :
  holds b n f → ∃ b', clear_trailing_bits b = Some b' ∧ holds b' n (λ k, (k <? n) && f k).
Proof.
  intros Hh. destruct (holds_size b n f Hh) as [Hsz Hnw].
  assert (Hn : 0 < n ≤ max_bits) by by destruct Hh as (ws & _ & Hn & _).
  unfold clear_trailing_bits. rewrite Hsz. cbn [mbind option_bind]. rewrite land_31.
  destruct (words_for_spec n) as (Hw1 & Hw2); [lia|]. pose proof (Z.mod_pos_bound n 32 ltac:(done)).
  destruct (Z.eqb_spec (n mod 32) 0) as [Hz|Hz]; cbn [negb].
  - eexists. split; [done|]. eapply holds_ext; [|done]. intros k Hk.
    destruct (Z.ltb_spec k n); [done|]. exfalso.
    assert (32 * words_for n = n) by (unfold words_for in *; division). lia.
  - rewrite Hnw. cbn [mbind option_bind]. destruct (head_mask (n mod 32)) as (m & Hm & Hmw & Hbits); [lia|].
    rewrite Hm. cbn [mbind option_bind].
    destruct (set_word_holds b n f (words_for n - 1) (λ w, Z.land w (host_to_network m))
      (λ k x, x && (k <? n mod 32)) Hh) as (b' & Hb' & Hh'); [lia| |].
    { intros w Hw. split; [by apply word_land|]. intros k Hk.
      rewrite bit_at_land by (done || by apply network_word). by rewrite Hbits. }
    exists b'. split; [done|]. eapply holds_ext; [|done]. intros k Hk. cbn beta.
    pose proof (last_word n ltac:(lia) Hz) as Hl. rewrite Hl. rewrite Z.add_simpl_r.
    pose proof (Z.div_mod n 32 ltac:(done)). pose proof (Z.div_mod k 32 ltac:(done)).
    pose proof (Z.mod_pos_bound k 32 ltac:(done)).
    destruct (Z.eqb_spec (k / 32) (n / 32)) as [He|He].
    + rewrite andb_comm. f_equal. apply eq_true_iff_eq. rewrite !Z.ltb_lt. lia.
    + destruct (Z.ltb_spec k n); [done|]. rewrite Hl in Hk. lia.
Qed.
End bitfield.

(** [n] bits, the new ones [v] *)
Definition resized (n : Z) (v : bool) (l : list bool) : list bool :=
  take (Z.to_nat n) l ++ replicate (Z.to_nat n - length l) v.

Lemma vsize_resized n v l : 0 ≤ n → vsize (resized n v l) = n.
Proof.
  intros Hn. unfold resized, vsize. rewrite length_app, length_take, length_replicate. lia.
Qed.

Lemma nth_resized n v l k :
  0 ≤ k < n → nth_bit (resized n v l) k = if k <? vsize l then nth_bit l k else v.
Proof.
  intros Hk. unfold nth_bit, resized, vget. destruct (Z.ltb_spec k 0); [lia|].
  unfold vsize. destruct (Z.ltb_spec k (Z.of_nat (length l))).
  - rewrite lookup_app_l by (rewrite length_take; lia). by rewrite lookup_take_lt by lia.
  - rewrite lookup_app_r by (rewrite length_take; lia). rewrite length_take.
    by rewrite lookup_replicate_2 by lia.
Qed.

Lemma resized_same l : resized (vsize l) false l = l.
Proof.
  unfold resized, vsize. rewrite Nat2Z.id, Nat.sub_diag, firstn_all. apply app_nil_r.
Qed.

Section bitfield.
Context `{Platform}.
Implicit Types (l : list bool) (b : bitfield).

(** ** [resize] *)

Lemma represents_words b v l :
  represents b l → m_buf b = Some v →
  ∃ ws, v = vsize l :: ws ∧ Forall is_word ws ∧ vsize ws = words_for (vsize l) ∧ 0 < vsize l ∧
    ∀ k, 0 ≤ k → wbit ws k = nth_bit l k.
Proof.
  unfold represents. intros Hr Hb. rewrite Hb in Hr. destruct Hr as (ws & Hv & Hn & Hws & Hs & Hf).
  rewrite Hb in Hv. injection Hv as ->. exists ws. split_and!; try done; [lia|].
  intros k Hk. destruct (decide (k < 32 * words_for (vsize l))); [by apply Hf|].
  destruct (words_for_spec (vsize l)) as [? _]; [lia|].
  rewrite nth_bit_high, wbit_high by lia. done.
Qed.

(** the new array, when the number of words changes *)
Lemma new_words l ws n :
  0 < n → Forall is_word ws → vsize ws = words_for (vsize l) → (∀ k, 0 ≤ k → wbit ws k = nth_bit l k) →
  let m := Z.min (words_for n) (vsize ws) in
  let new := take (Z.to_nat m) ws ++ replicate (Z.to_nat (words_for n - vsize ws)) 0 in
  Forall is_word new ∧ vsize new = words_for n ∧
  ∀ k, 0 ≤ k < 32 * words_for n → wbit new k = nth_bit l k.
Proof.
  intros Hn Hws Hs Hf m new. destruct (words_for_spec n Hn) as [_ Hpos]. pose proof (vsize_nonneg ws).
  assert (Ht : vsize (take (Z.to_nat m) ws) = m) by (unfold vsize in *; rewrite length_take; lia).
  split; [|split].
  - apply Forall_app. split; [by apply Forall_take|by apply Forall_replicate].
  - unfold new. rewrite vsize_app, Ht, vsize_replicate. lia.
  - intros k Hk. unfold new. rewrite wbit_app, Ht by lia. destruct (Z.ltb_spec k (32 * m)).
    + rewrite wbit_take by lia. destruct (Z.ltb_spec k (32 * m)); [|lia]. apply Hf. lia.
    + rewrite wbit_replicate by lia. rewrite bit_at_zero by by apply Z.mod_pos_bound.
      rewrite <-Hf by lia. by rewrite wbit_high by lia.
Qed.

Lemma resize_core b l n :
  represents b l → 0 < n ≤ max_bits → n ≠ vsize l →
  ∃ b', resize n b = Some b' ∧ holds b' n (λ k, (k <? n) && nth_bit l k).
Proof.
  intros Hr Hn Hne. pose proof (vsize_nonneg l) as Hl. destruct (represents_size b l Hr) as [Hs _].
  destruct (words_for_spec n) as [_ Hpos]; [lia|].
  unfold resize. rewrite Hs. cbn [mbind option_bind]. destruct (Z.eqb_spec n (vsize l)); [done|].
  unfold guard_b. destruct (Z.leb_spec 0 n); [|lia].
  destruct (Z.ltb_spec (n + 31) (2 ^ 31)); [|unfold max_bits in *; lia]. cbn [andb mbind option_bind].
  destruct (Z.eqb_spec n 0); [lia|]. rewrite (num_words_spec b l Hr). cbn [mbind option_bind].
  assert (Hu : uint 32 n = n) by (apply uint_small; unfold max_bits in *; lia).
  assert (Hq : Z.quot (n + 31) 32 = words_for n) by (apply Z.quot_div_nonneg; lia). rewrite Hq, Hu.
  assert (Hgoal : ∀ ws, Forall is_word ws → vsize ws = words_for n →
    (∀ k, 0 ≤ k < 32 * words_for n → wbit ws k = nth_bit l k) →
    ∃ b', clear_trailing_bits (Bitfield (Some (n :: ws))) = Some b' ∧
      holds b' n (λ k, (k <? n) && nth_bit l k)).
  { intros ws Hx1 Hx2 Hx3. apply clear_trailing_holds. exists ws. done. }
  destruct (m_buf b) as [v|] eqn:Hb.
  - destruct (represents_words b v l Hr Hb) as (ws & -> & Hws & Hsw & _ & Hf).
    destruct (Z.eqb_spec (words_for (vsize l)) (words_for n)) as [He|He]; cbn [negb].
    + cbn [mbind option_bind]. change ((vsize l :: ws)⟦0 := n⟧) with (vset (vsize l :: ws) 0 n).
      rewrite vset_Some by (vsize; pose proof (vsize_nonneg ws); lia). cbn [mbind option_bind Z.to_nat].
      apply Hgoal; [done|lia|]. intros k Hk. apply Hf. lia.
    + unfold subspan, guard_b. vsize. pose proof (vsize_nonneg ws).
      destruct (Z.leb_spec 0 (Z.min (words_for n) (words_for (vsize l)))); [|lia].
      destruct (Z.leb_spec (1 + Z.min (words_for n) (words_for (vsize l))) (1 + vsize ws)); [|lia].
      cbn [andb Z.leb mbind option_bind]. rewrite <-Hsw.
      destruct (new_words l ws n ltac:(lia) Hws Hsw Hf) as (Hx1 & Hx2 & Hx3). by apply Hgoal.
  - assert (l = []) as -> by (unfold represents in Hr; by rewrite Hb in Hr).
    assert (Hw0 : words_for (vsize (@nil bool)) = 0) by done. rewrite Hw0.
    destruct (Z.eqb_spec 0 (words_for n)); [lia|]. cbn [negb mbind option_bind app].
    apply Hgoal.
    + by apply Forall_replicate.
    + rewrite vsize_replicate. lia.
    + intros k Hk. rewrite wbit_replicate by lia. rewrite bit_at_zero by by apply Z.mod_pos_bound.
      unfold nth_bit. by rewrite vget_nil.
Qed.

Lemma resize_spec b l n :
  represents b l → 0 ≤ n ≤ max_bits →
  ∃ b', resize n b = Some b' ∧ represents b' (resized n false l).
Proof.
  intros Hr Hn. destruct (decide (n = vsize l)) as [->|Hne].
  { exists b. unfold resize. rewrite (proj1 (represents_size b l Hr)). cbn [mbind option_bind].
    rewrite Z.eqb_refl, resized_same. done. }
  destruct (decide (n = 0)) as [->|Hn0].
  { exists (Bitfield None). unfold resize. rewrite (proj1 (represents_size b l Hr)). cbn [mbind option_bind].
    destruct (Z.eqb_spec 0 (vsize l)); done. }
  destruct (resize_core b l n Hr) as (b' & Hb' & Hh); [lia|done|].
  exists b'. split; [done|]. eapply holds_represents; [done|apply vsize_resized; lia|].
  intros k Hk. cbn beta. destruct (Z.ltb_spec k n); cbn [andb].
  - rewrite nth_resized by lia. destruct (Z.ltb_spec k (vsize l)); [done|]. by apply nth_bit_high.
  - rewrite nth_bit_high; [done|]. by rewrite vsize_resized by lia.
Qed.

(** the words after those that had bits are filled *)
Lemma fill_rest b n f s w x :
  holds b n f → 0 ≤ s → is_word w → (∀ k, 0 ≤ k < 32 → bit_at w k = x) →
  ∃ b', (if words_for s <? words_for n
         then fill_words (words_for s) (words_for n - words_for s) w b else Some b) = Some b' ∧
    holds b' n (λ k, if 32 * words_for s <=? k then x else f k).
Proof.
  intros Hh Hs Hw Hx. assert (0 ≤ words_for s) by (apply Z.div_pos; lia).
  destruct (Z.ltb_spec (words_for s) (words_for n)).
  - destruct (fill_words_holds b n f (words_for s) (words_for n - words_for s) w x Hh) as (b' & Hb' & Hh');
      try done; try lia.
    exists b'. split; [done|]. eapply holds_ext; [|done]. intros k Hk. cbn beta.
    destruct (Z.ltb_spec k (32 * (words_for s + (words_for n - words_for s)))); [|lia]. by rewrite andb_true_r.
  - exists b. split; [done|]. eapply holds_ext; [|done]. intros k Hk. cbn beta.
    by destruct (Z.leb_spec (32 * words_for s) k); [lia|].
Qed.

(** the rest of the last word that had bits is set *)
Lemma set_rest b n f s :
  holds b n f → 0 ≤ s < n →
  ∃ b', (if negb (words_for s =? 0) && negb (s mod 32 =? 0)
         then set_word (words_for s - 1)
           (λ w, Z.lor w (host_to_network (Z.shiftr all_ones32 (s mod 32)))) b
         else Some b) = Some b' ∧
    holds b' n (λ k, if (s <=? k) && (k <? 32 * words_for s) then true else f k).
Proof.
  intros Hh Hs. pose proof (Z.mod_pos_bound s 32 ltac:(done)).
  destruct (decide (s mod 32 = 0)) as [Hz|Hz].
  { rewrite Hz, andb_false_r. exists b. split; [done|]. eapply holds_ext; [|done]. intros k Hk. cbn beta.
    assert (32 * words_for s = s) by (unfold words_for; division).
    destruct (Z.leb_spec s k), (Z.ltb_spec k (32 * words_for s)); try done. lia. }
  destruct (decide (s = 0)) as [->|Hs0]; [done|].
  pose proof (last_word s ltac:(lia) Hz) as Hl. pose proof (Z.div_mod s 32 ltac:(done)).
  pose proof (Z.div_pos s 32 ltac:(lia) ltac:(done)).
  destruct (Z.eqb_spec (words_for s) 0); [lia|]. destruct (Z.eqb_spec (s mod 32) 0); [done|]. cbn [negb andb].
  destruct (tail_mask (s mod 32)) as (Hmw & Hbits); [done|].
  destruct (words_for_spec n) as (? & _); [lia|]. destruct (words_for_spec s) as (? & _); [lia|].
  destruct (set_word_holds b n f (words_for s - 1)
    (λ w, Z.lor w (host_to_network (Z.shiftr all_ones32 (s mod 32)))) (λ k x, x || (s mod 32 <=? k)) Hh)
    as (b' & Hb' & Hh'); [lia| |].
  { intros w Hw. split; [apply word_lor; [done|by apply network_word]|]. intros k Hk.
    rewrite bit_at_lor by (done || by apply network_word). by rewrite Hbits. }
  exists b'. split; [done|]. eapply holds_ext; [|done]. intros k Hk. cbn beta. rewrite Hl, Z.add_simpl_r.
  pose proof (Z.div_mod k 32 ltac:(done)). pose proof (Z.mod_pos_bound k 32 ltac:(done)).
  destruct (Z.eqb_spec (k / 32) (s / 32)) as [He|He].
  - destruct (Z.leb_spec (s mod 32) (k mod 32)), (Z.leb_spec s k), (Z.ltb_spec k (32 * (s / 32 + 1)));
      try lia; cbn [andb]; by rewrite ?orb_true_r, ?orb_false_r.
  - destruct (Z.leb_spec s k), (Z.ltb_spec k (32 * (s / 32 + 1))); try done. lia.
Qed.

Lemma resize_val_spec b l n v :
  represents b l → 0 ≤ n ≤ max_bits →
  ∃ b', resize_val n v b = Some b' ∧ represents b' (resized n v l).
Proof.
  intros Hr Hn. pose proof (vsize_nonneg l) as Hl. unfold resize_val.
  destruct (represents_size b l Hr) as [Hs _]. rewrite Hs. cbn [mbind option_bind].
  destruct (Z.eqb_spec n (vsize l)) as [->|Hne].
  { exists b. split; [done|]. unfold resized, vsize. by rewrite Nat2Z.id, Nat.sub_diag, firstn_all, app_nil_r. }
  destruct (resize_spec b l n Hr Hn) as (b1 & Hb1 & Hr1). rewrite Hb1. cbn [mbind option_bind].
  destruct (represents_size b1 _ Hr1) as [Hs1 _]. rewrite Hs1, vsize_resized by lia. cbn [mbind option_bind].
  destruct (Z.leb_spec n (vsize l)) as [Hle|Hlt].
  { exists b1. split; [done|]. unfold resized in *.
    replace (Z.to_nat n - length l)%nat with O in * by (unfold vsize in Hle; lia). done. }
  assert (Hh : holds b1 n (nth_bit (resized n false l))).
  { rewrite <-(vsize_resized n false l) at 1 by lia. apply represents_holds; [done|].
    intros He. pose proof (vsize_resized n false l ltac:(lia)) as Hx. rewrite He in Hx.
    change (0 = n) in Hx. lia. }
  rewrite land_31, (Z.quot_div_nonneg (vsize l + 31)), (num_words_spec b1 _ Hr1), vsize_resized by lia.
  cbn [mbind option_bind]. change ((vsize l + 31) / 32) with (words_for (vsize l)).
  assert (Hends : ∀ b2 f, holds b2 n f →
    (∀ k, 0 ≤ k < n → f k = if k <? vsize l then nth_bit l k else v) → (∀ k, n ≤ k → f k = false) →
    represents b2 (resized n v l)).
  { intros b2 f Hh2 Hf Hf'. eapply holds_represents; [done|by apply vsize_resized; lia|].
    intros k Hk. destruct (Z.lt_ge_cases k n).
    - rewrite Hf, nth_resized by lia. done.
    - rewrite Hf', nth_bit_high by (rewrite ?vsize_resized; lia). done. }
  assert (Hf0 : ∀ k, 0 ≤ k → nth_bit (resized n false l) k = if k <? vsize l then nth_bit l k else false).
  { intros k Hk. destruct (Z.lt_ge_cases k n); [by apply nth_resized|].
    rewrite nth_bit_high by (rewrite vsize_resized; lia). by destruct (Z.ltb_spec k (vsize l)); [lia|]. }
  destruct v.
  - destruct (set_rest b1 n _ (vsize l) Hh) as (b2 & Hb2 & Hh2); [lia|]. rewrite Hb2. cbn [mbind option_bind].
    destruct (fill_rest b2 n _ (vsize l) all_ones32 true Hh2 Hl) as (b3 & Hb3 & Hh3);
      [done|apply bit_at_ones|]. rewrite Hb3. cbn [mbind option_bind].
    destruct (clear_trailing_holds b3 n _ Hh3) as (b4 & Hb4 & Hh4). exists b4. split; [done|].
    eapply Hends; [done| |]; intros k Hk; cbn beta; destruct (Z.ltb_spec k n); try lia; try done.
    cbn [andb]. rewrite Hf0 by lia.
    destruct (Z.leb_spec (32 * words_for (vsize l)) k), (Z.ltb_spec k (vsize l)),
      (Z.leb_spec (vsize l) k), (Z.ltb_spec k (32 * words_for (vsize l))); try done; try lia.
    destruct (words_for_spec (vsize l)); lia.
  - destruct (fill_rest b1 n _ (vsize l) 0 false Hh Hl) as (b3 & Hb3 & Hh3);
      [done|apply bit_at_zero|]. rewrite Hb3. exists b3. split; [done|].
    assert (vsize l ≤ 32 * words_for (vsize l))
      by (unfold words_for; division).
    eapply Hends; [done| |]; intros k Hk; cbn beta; rewrite Hf0 by lia;
      destruct (Z.leb_spec (32 * words_for (vsize l)) k), (Z.ltb_spec k (vsize l)); try done; lia.
Qed.

(** ** Single bits *)

Lemma nth_insert l i x k :
  0 ≤ i < vsize l → 0 ≤ k → nth_bit (<[Z.to_nat i := x]> l) k = if k =? i then x else nth_bit l k.
Proof.
  intros Hi Hk. unfold nth_bit.
  rewrite (vset_get l i x _ k (vset_Some l i x Hi)). by destruct (k =? i).
Qed.

(** a bit in its word *)
Lemma same_bit k i : 0 ≤ i → k / 32 = i / 32 → (k mod 32 =? i mod 32) = (k =? i).
Proof.
  intros Hi Hk. apply eq_true_iff_eq. rewrite !Z.eqb_eq.
  pose proof (Z.div_mod k 32 ltac:(done)). pose proof (Z.div_mod i 32 ltac:(done)). lia.
Qed.

Lemma index_word l i : 0 ≤ i < vsize l → 0 ≤ i / 32 < words_for (vsize l).
Proof. intros Hi. unfold words_for. division. Qed.

Lemma not_nil l i : 0 ≤ i < vsize l → l ≠ [].
Proof. intros Hi ->. change (0 ≤ i < 0) in Hi. lia. Qed.

Lemma set_bit_spec b l i :
  represents b l → 0 ≤ i < vsize l →
  ∃ b', set_bit i b = Some b' ∧ represents b' (<[Z.to_nat i := true]> l).
Proof.
  intros Hr Hi. pose proof (represents_holds b l Hr (not_nil l i Hi)) as Hh.
  destruct (bit_mask_spec i) as [Hmw Hbits]; [lia|]. unfold set_bit. rewrite Z.quot_div_nonneg by lia.
  destruct (set_word_holds b _ _ (i / 32) (λ w, Z.lor w (host_to_network (bit_mask i)))
    (λ k x, x || (k =? i mod 32)) Hh) as (b' & Hb' & Hh'); [by apply index_word| |].
  { intros w Hw. split; [apply word_lor; [done|by apply network_word]|]. intros k Hk.
    rewrite bit_at_lor by (done || by apply network_word). by rewrite Hbits. }
  exists b'. split; [done|]. eapply holds_represents; [done|unfold vsize; by rewrite length_insert|].
  intros k Hk. cbn beta. rewrite nth_insert by lia. destruct (Z.eqb_spec (k / 32) (i / 32)) as [He|He].
  - rewrite same_bit by (done || lia). destruct (Z.eqb_spec k i); [by apply orb_true_r|by apply orb_false_r].
  - by destruct (Z.eqb_spec k i) as [->|].
Qed.

Lemma clear_bit_spec b l i :
  represents b l → 0 ≤ i < vsize l →
  ∃ b', clear_bit i b = Some b' ∧ represents b' (<[Z.to_nat i := false]> l).
Proof.
  intros Hr Hi. pose proof (represents_holds b l Hr (not_nil l i Hi)) as Hh.
  destruct (bit_mask_spec i) as [Hmw Hbits]; [lia|]. unfold clear_bit. rewrite Z.quot_div_nonneg by lia.
  destruct (set_word_holds b _ _ (i / 32) (λ w, Z.land w (host_to_network (not32 (bit_mask i))))
    (λ k x, x && negb (k =? i mod 32)) Hh) as (b' & Hb' & Hh'); [by apply index_word| |].
  { intros w Hw. split; [by apply word_land|]. intros k Hk.
    rewrite bit_at_land by (done || by apply network_word, word_not). f_equal.
    rewrite bit_at_network by by apply word_not. rewrite not32_spec by lia.
    specialize (Hbits k Hk). rewrite bit_at_network in Hbits by done. by rewrite Hbits. }
  exists b'. split; [done|]. eapply holds_represents; [done|unfold vsize; by rewrite length_insert|].
  intros k Hk. cbn beta. rewrite nth_insert by lia. destruct (Z.eqb_spec (k / 32) (i / 32)) as [He|He].
  - rewrite same_bit by (done || lia). destruct (Z.eqb_spec k i); [by apply andb_false_r|by apply andb_true_r].
  - by destruct (Z.eqb_spec k i) as [->|].
Qed.

Lemma get_bit_spec b l i :
  represents b l → 0 ≤ i < vsize l → get_bit i b = Some (nth_bit l i).
Proof.
  intros Hr Hi. pose proof (represents_holds b l Hr (not_nil l i Hi)) as Hh.
  destruct (bit_mask_spec i) as [Hmw Hbits]; [lia|]. unfold get_bit. rewrite Z.quot_div_nonneg by lia.
  destruct (get_word_holds b _ _ (i / 32) Hh) as (w & Hw & Hww & Hf); [by apply index_word|].
  rewrite Hw. cbn [mbind option_bind]. f_equal. pose proof (Z.mod_pos_bound i 32 ltac:(done)) as Hm.
  pose proof (Hf (i mod 32) Hm) as Hfi.
  rewrite <-Z.div_mod in Hfi by done. rewrite <-Hfi.
  assert (Hz : Z.land w (host_to_network (bit_mask i)) = 0 ↔ bit_at w (i mod 32) = false).
  { rewrite word_zero by by apply word_land. split.
    - intros Hk. specialize (Hk (i mod 32) Hm). rewrite bit_at_land in Hk by (done || by apply network_word).
      by rewrite Hbits, Z.eqb_refl, andb_true_r in Hk.
    - intros Hbit k Hk. rewrite bit_at_land by (done || by apply network_word). rewrite Hbits by done.
      destruct (Z.eqb_spec k (i mod 32)) as [->|]; [by rewrite Hbit|apply andb_false_r]. }
  destruct (bit_at w (i mod 32)); destruct (Z.eqb_spec (Z.land w (host_to_network (bit_mask i))) 0) as [He|He];
    cbn [negb]; try done.
  - by apply Hz in He.
  - by destruct He; apply Hz.
Qed.

(** ** All bits *)

Lemma nth_replicate (n : nat) x k : 0 ≤ k < Z.of_nat n → nth_bit (replicate n x) k = x.
Proof.
  intros Hk. unfold nth_bit, vget. destruct (Z.ltb_spec k 0); [lia|]. by rewrite lookup_replicate_2 by lia.
Qed.

Lemma set_all_spec b l :
  represents b l → ∃ b', set_all b = Some b' ∧ represents b' (replicate (length l) true).
Proof.
  intros Hr. pose proof (vsize_nonneg l). unfold set_all. rewrite (proj1 (represents_size b l Hr)). cbn [mbind option_bind].
  destruct (Z.eqb_spec (vsize l) 0) as [Hz|Hz].
  { exists b. split; [done|]. assert (l = []) as -> by (destruct l; [done|vsize in Hz; pose proof (vsize_nonneg l); lia]). done. }
  rewrite (num_words_spec b l Hr). cbn [mbind option_bind].
  assert (Hh : holds b (vsize l) (nth_bit l)) by (apply represents_holds; [done|]; by intros ->).
  destruct (words_for_spec (vsize l)) as [? ?]; [lia|].
  destruct (fill_words_holds b _ _ 0 (words_for (vsize l)) all_ones32 true Hh) as (b1 & Hb1 & Hh1);
    [lia|lia|lia|done|apply bit_at_ones|].
  rewrite Hb1. cbn [mbind option_bind]. destruct (clear_trailing_holds b1 _ _ Hh1) as (b2 & Hb2 & Hh2).
  exists b2. split; [done|]. eapply holds_represents; [done|by rewrite vsize_replicate|].
  intros k Hk. cbn beta. destruct (Z.leb_spec (32 * 0) k); [|lia].
  destruct (Z.ltb_spec k (32 * (0 + words_for (vsize l)))); [|lia]. cbn [andb].
  destruct (Z.ltb_spec k (vsize l)); cbn [andb].
  - symmetry. apply nth_replicate. unfold vsize in *. lia.
  - symmetry. apply nth_bit_high. by rewrite vsize_replicate.
Qed.

Lemma clear_all_spec b l :
  represents b l → ∃ b', clear_all b = Some b' ∧ represents b' (replicate (length l) false).
Proof.
  intros Hr. pose proof (vsize_nonneg l). unfold clear_all. rewrite (proj1 (represents_size b l Hr)). cbn [mbind option_bind].
  destruct (Z.eqb_spec (vsize l) 0) as [Hz|Hz].
  { exists b. split; [done|]. assert (l = []) as -> by (destruct l; [done|vsize in Hz; pose proof (vsize_nonneg l); lia]). done. }
  rewrite (num_words_spec b l Hr). cbn [mbind option_bind].
  assert (Hh : holds b (vsize l) (nth_bit l)) by (apply represents_holds; [done|]; by intros ->).
  destruct (words_for_spec (vsize l)) as [? ?]; [lia|].
  destruct (fill_words_holds b _ _ 0 (words_for (vsize l)) 0 false Hh) as (b1 & Hb1 & Hh1);
    [lia|lia|lia|done|apply bit_at_zero|].
  rewrite Hb1. exists b1. split; [done|]. eapply holds_represents; [done|by rewrite vsize_replicate|].
  intros k Hk. cbn beta. destruct (Z.leb_spec (32 * 0) k); [|lia].
  destruct (Z.ltb_spec k (32 * (0 + words_for (vsize l)))); [|lia]. cbn [andb]. symmetry.
  destruct (Z.ltb_spec k (vsize l)); [apply nth_replicate; unfold vsize in *; lia|].
  apply nth_bit_high. by rewrite vsize_replicate.
Qed.
End bitfield.

Definition is_byte (x : Z) : Prop := 0 ≤ x < 256.

(** the bits of a byte, the most significant one first *)
Definition byte_bits (x : Z) : list bool := (λ k, Z.testbit x (7 - k)) <$> seqZ 0 8.

(** the bits of bytes in a row *)
Definition bits_of (bs : list Z) : list bool := bs ≫= byte_bits.

(** bit [k] of bytes in a row *)
Definition bbit (bs : list Z) (k : Z) : bool :=
  match bs⟦k / 8⟧ with Some x => Z.testbit x (7 - k mod 8) | None => false end.

Lemma bbit_cons x bs k :
  0 ≤ k → bbit (x :: bs) k = if k <? 8 then Z.testbit x (7 - k) else bbit bs (k - 8).
Proof.
  intros Hk. unfold bbit. rewrite vget_cons. destruct (Z.ltb_spec k 8).
  - by rewrite Z.div_small, Z.mod_small by lia.
  - assert (k / 8 = (k - 8) / 8 + 1 ∧ k mod 8 = (k - 8) mod 8) as [-> ->]
      by division.
    pose proof (Z.div_pos (k - 8) 8 ltac:(lia) ltac:(done)).
    destruct (Z.eqb_spec ((k - 8) / 8 + 1) 0); [lia|]. by rewrite Z.add_simpl_r.
Qed.

Lemma bbit_high bs k : 8 * vsize bs ≤ k → bbit bs k = false.
Proof.
  intros Hk. unfold bbit. rewrite vget_None; [done|]. pose proof (Z.div_le_lower_bound k 8 (vsize bs)). lia.
Qed.

Lemma bbit_app bs bs' k :
  0 ≤ k → bbit (bs ++ bs') k = if k <? 8 * vsize bs then bbit bs k else bbit bs' (k - 8 * vsize bs).
Proof.
  intros Hk. unfold bbit. destruct (Z.ltb_spec k (8 * vsize bs)).
  - rewrite vget_app_l; [done|]. apply Z.div_lt_upper_bound; lia.
  - rewrite vget_app_r by (apply Z.div_le_lower_bound; lia).
    replace (k - 8 * vsize bs) with (k + - vsize bs * 8) by lia.
    by rewrite Z.div_add, Z.mod_add by done.
Qed.

Lemma length_byte_bits x : length (byte_bits x) = 8%nat.
Proof. unfold byte_bits. by rewrite length_fmap, length_seqZ. Qed.

Lemma length_bits_of bs : length (bits_of bs) = (8 * length bs)%nat.
Proof.
  induction bs as [|x bs IH]; [done|]. unfold bits_of in *. cbn [mbind list_bind]. rewrite length_app, IH, length_byte_bits. cbn. lia.
Qed.

Lemma nth_bits_of bs k : 0 ≤ k → nth_bit (bits_of bs) k = bbit bs k.
Proof.
  revert k. induction bs as [|x bs IH]; intros k Hk.
  - unfold nth_bit, bits_of, bbit. cbn [mbind list_bind]. by rewrite !vget_nil.
  - rewrite bbit_cons by done. unfold bits_of. cbn [mbind list_bind]. fold (bits_of bs). unfold nth_bit.
    assert (Hl : vsize (byte_bits x) = 8) by done. destruct (Z.ltb_spec k 8).
    + rewrite vget_app_l by lia. unfold byte_bits, vget. destruct (Z.ltb_spec k 0); [lia|].
      rewrite list_lookup_fmap, lookup_seqZ_lt by lia. cbn. f_equal. lia.
    + rewrite vget_app_r, Hl by lia. apply IH. lia.
Qed.

(** ** Words and bytes *)

(** a byte appended to a number *)
Lemma append_byte x d i :
  is_byte d → 0 ≤ i → Z.testbit (x * 256 + d) i = if i <? 8 then Z.testbit d i else Z.testbit x (i - 8).
Proof.
  intros Hd Hi. change 256 with (2 ^ 8). rewrite <-Z.shiftl_mul_pow2 by done.
  assert (Hdis : Z.land (Z.shiftl x 8) d = 0).
  { apply Z.bits_inj'. intros j Hj. rewrite Z.land_spec, Z.shiftl_spec, Z.bits_0 by done.
    destruct (Z.lt_ge_cases j 8); [by rewrite Z.testbit_neg_r by lia|].
    destruct (decide (d = 0)) as [->|]; [rewrite Z.bits_0; apply andb_false_r|].
    rewrite (Z.bits_above_log2 d); [apply andb_false_r|by destruct Hd|].
    assert (Z.log2 d < 8) by (apply Z.log2_lt_pow2; destruct Hd; lia). lia. }
  rewrite Z.add_nocarry_lxor, Z.lxor_spec, Z.shiftl_spec by done.
  destruct (Z.ltb_spec i 8); [by rewrite (Z.testbit_neg_r x) by lia; apply xorb_false_l|].
  destruct (decide (d = 0)) as [->|]; [rewrite Z.bits_0; apply xorb_false_r|].
  rewrite (Z.bits_above_log2 d); [apply xorb_false_r|by destruct Hd|].
  assert (Z.log2 d < 8) by (apply Z.log2_lt_pow2; destruct Hd; lia). lia.
Qed.

(** the number of four bytes, the most significant one first *)
Definition number4 (a b c d : Z) : Z := ((a * 256 + b) * 256 + c) * 256 + d.

Lemma number4_word a b c d : is_byte a → is_byte b → is_byte c → is_byte d → is_word (number4 a b c d).
Proof. unfold is_byte, is_word, number4. lia. Qed.

Lemma number4_spec a b c d i :
  is_byte a → is_byte b → is_byte c → is_byte d → 0 ≤ i < 32 →
  Z.testbit (number4 a b c d) i =
    if i <? 8 then Z.testbit d i else if i <? 16 then Z.testbit c (i - 8)
    else if i <? 24 then Z.testbit b (i - 16) else Z.testbit a (i - 24).
Proof.
  intros Ha Hb Hc Hd Hi. unfold number4. rewrite append_byte by (done || lia).
  destruct (Z.ltb_spec i 8); [done|]. rewrite append_byte by (done || lia).
  destruct (Z.ltb_spec (i - 8) 8), (Z.ltb_spec i 16); try lia; try done.
  rewrite append_byte by (done || lia).
  destruct (Z.ltb_spec (i - 8 - 8) 8), (Z.ltb_spec i 24); try lia; f_equal; lia.
Qed.

Section bitfield.
Context `{Platform}.
Implicit Types (l : list bool).

(** a bit of four bytes, and of the number they are *)
Lemma bbit_number4 a b c d k :
  is_byte a → is_byte b → is_byte c → is_byte d → 0 ≤ k < 32 →
  bbit [a; b; c; d] k = Z.testbit (number4 a b c d) (31 - k).
Proof.
  intros Ha Hb Hc Hd Hk. rewrite number4_spec by (done || lia). rewrite bbit_cons by lia.
  destruct (Z.ltb_spec k 8).
  { destruct (Z.ltb_spec (31 - k) 8), (Z.ltb_spec (31 - k) 16), (Z.ltb_spec (31 - k) 24); try lia; f_equal; lia. }
  rewrite bbit_cons by lia. destruct (Z.ltb_spec (k - 8) 8).
  { destruct (Z.ltb_spec (31 - k) 8), (Z.ltb_spec (31 - k) 16), (Z.ltb_spec (31 - k) 24); try lia; f_equal; lia. }
  rewrite bbit_cons by lia. destruct (Z.ltb_spec (k - 8 - 8) 8).
  { destruct (Z.ltb_spec (31 - k) 8), (Z.ltb_spec (31 - k) 16), (Z.ltb_spec (31 - k) 24); try lia; f_equal; lia. }
  rewrite bbit_cons by lia. destruct (Z.ltb_spec (k - 8 - 8 - 8) 8); [|lia].
  destruct (Z.ltb_spec (31 - k) 8); [|lia]. f_equal. lia.
Qed.

(** the bytes of a number in the other order *)
Lemma bswap_number4 a b c d :
  is_byte a → is_byte b → is_byte c → is_byte d → bswap (number4 a b c d) = number4 d c b a.
Proof.
  intros Ha Hb Hc Hd. apply word_ext; [by apply bswap_word, number4_word|by apply number4_word|].
  intros i Hi. rewrite bswap_spec by (done || by apply number4_word).
  assert (Hs : swapped i = if i <? 8 then i + 24 else if i <? 16 then i + 8 else if i <? 24 then i - 8 else i - 24).
  { unfold swapped. destruct (Z.ltb_spec i 8), (Z.ltb_spec i 16), (Z.ltb_spec i 24); try lia;
      division. }
  pose proof (swapped_range i Hi). rewrite !number4_spec by done. rewrite Hs.
  destruct (Z.ltb_spec i 8), (Z.ltb_spec i 16), (Z.ltb_spec i 24); try lia.
  - destruct (Z.ltb_spec (i + 24) 8), (Z.ltb_spec (i + 24) 16), (Z.ltb_spec (i + 24) 24); try lia; f_equal; lia.
  - destruct (Z.ltb_spec (i + 8) 8), (Z.ltb_spec (i + 8) 16), (Z.ltb_spec (i + 8) 24); try lia; f_equal; lia.
  - destruct (Z.ltb_spec (i - 8) 8), (Z.ltb_spec (i - 8) 16); try lia; f_equal; lia.
  - destruct (Z.ltb_spec (i - 24) 8); try lia; f_equal; lia.
Qed.

Lemma bytes_word_spec a b c d k :
  is_byte a → is_byte b → is_byte c → is_byte d →
  is_word (bytes_word a b c d) ∧
  (0 ≤ k < 32 → bit_at (bytes_word a b c d) k = bbit [a; b; c; d] k).
Proof.
  intros Ha Hb Hc Hd. unfold bytes_word, bit_at, network_to_host. destruct big_endian.
  - fold (number4 a b c d). split; [by apply number4_word|]. intros Hk. by rewrite bbit_number4.
  - fold (number4 d c b a). split; [by apply number4_word|]. intros Hk.
    by rewrite bbit_number4, bswap_number4.
Qed.

(** the words of bytes have their bits *)
Lemma words_of_spec mem (n : nat) :
  Forall is_byte mem → length mem = (4 * n)%nat →
  Forall is_word (words_of mem) ∧ length (words_of mem) = n ∧
  ∀ k, 0 ≤ k → wbit (words_of mem) k = bbit mem k.
Proof.
  revert mem. induction n as [|n IH]; intros mem Hm Hl.
  - destruct mem; [|done]. split; [constructor|]. split; [done|]. intros k Hk.
    unfold wbit, bbit. cbn [words_of]. by rewrite !vget_nil.
  - destruct mem as [|a [|b [|c [|d mem]]]]; cbn in Hl; try lia.
    rewrite !Forall_cons in Hm. destruct Hm as (Ha & Hb & Hc & Hd & Hm).
    destruct (IH mem Hm) as (IH1 & IH2 & IH3); [lia|]. cbn [words_of].
    split; [constructor; [by apply (bytes_word_spec a b c d 0)|done]|]. split; [cbn; by rewrite IH2|].
    intros k Hk. rewrite wbit_cons by done. change (a :: b :: c :: d :: mem) with ([a; b; c; d] ++ mem).
    rewrite bbit_app by done. change (8 * vsize [a; b; c; d]) with 32.
    destruct (Z.ltb_spec k 32); [apply bytes_word_spec; done || lia|]. apply IH3. lia.
Qed.

(** ** The bytes of words *)

Lemma word_bytes_number a b c d :
  is_byte a → is_byte b → is_byte c → is_byte d →
  [Z.shiftr (number4 a b c d) 24; Z.land (Z.shiftr (number4 a b c d) 16) 0xff;
   Z.land (Z.shiftr (number4 a b c d) 8) 0xff; Z.land (number4 a b c d) 0xff] = [a; b; c; d].
Proof.
  intros Ha Hb Hc Hd. change 0xff with (Z.ones 8). rewrite !Z.land_ones, !Z.shiftr_div_pow2 by done.
  unfold is_byte, number4 in *. change (2 ^ 24) with (256 * (256 * 256)). change (2 ^ 16) with (256 * 256).
  change (2 ^ 8) with 256. rewrite <-!Z.div_div by done.
  repeat f_equal; division.
Qed.

(** every word is the number of four bytes *)
Lemma word_number w : is_word w → ∃ a b c d, w = number4 a b c d ∧ is_byte a ∧ is_byte b ∧ is_byte c ∧ is_byte d.
Proof.
  intros Hw. exists (w / 256 / 256 / 256), (w / 256 / 256 mod 256), (w / 256 mod 256), (w mod 256).
  unfold is_word, is_byte, number4 in *.
  pose proof (Z.mod_pos_bound w 256 ltac:(done)). pose proof (Z.mod_pos_bound (w / 256) 256 ltac:(done)).
  pose proof (Z.mod_pos_bound (w / 256 / 256) 256 ltac:(done)).
  pose proof (Z.div_mod w 256 ltac:(done)). pose proof (Z.div_mod (w / 256) 256 ltac:(done)).
  pose proof (Z.div_mod (w / 256 / 256) 256 ltac:(done)). lia.
Qed.

Lemma word_bytes_spec w k :
  is_word w → Forall is_byte (word_bytes w) ∧ length (word_bytes w) = 4%nat ∧
  (0 ≤ k < 32 → bbit (word_bytes w) k = bit_at w k).
Proof.
  intros (a & b & c & d & -> & Ha & Hb & Hc & Hd)%word_number. unfold word_bytes. cbn zeta.
  rewrite word_bytes_number by done. unfold bit_at, network_to_host. destruct big_endian.
  - split; [repeat apply Forall_cons_2; by try apply Forall_nil_2|]. split; [done|]. intros Hk. by apply bbit_number4.
  - cbn [rev app]. split; [repeat apply Forall_cons_2; by try apply Forall_nil_2|]. split; [done|]. intros Hk.
    by rewrite bbit_number4, bswap_number4.
Qed.

Lemma words_bytes_spec ws :
  Forall is_word ws → Forall is_byte (words_bytes ws) ∧ length (words_bytes ws) = (4 * length ws)%nat ∧
  ∀ k, 0 ≤ k → bbit (words_bytes ws) k = wbit ws k.
Proof.
  induction 1 as [|w ws Hw Hws (IH1 & IH2 & IH3)]; unfold words_bytes in *; cbn [flat_map].
  - split; [constructor|]. split; [done|]. intros k Hk. unfold wbit, bbit. by rewrite !vget_nil.
  - destruct (word_bytes_spec w 0 Hw) as (Hb & Hl & _). split; [by apply Forall_app|].
    split; [rewrite length_app, Hl, IH2; cbn; lia|]. intros k Hk.
    rewrite bbit_app, wbit_cons by done. assert (Hv : vsize (word_bytes w) = 4) by (unfold vsize; by rewrite Hl).
    rewrite Hv. change (8 * 4) with 32. destruct (Z.ltb_spec k 32); [apply word_bytes_spec; done || lia|]. apply IH3. lia.
Qed.

(** ** [assign] *)

(** the first [n] bytes of [src] in the words *)
Lemma copy_bytes_spec src n ws :
  Forall is_byte src → Forall is_word ws → 0 ≤ n → n ≤ vsize src → n ≤ 4 * vsize ws →
  ∃ ws', copy_bytes src n ws = Some ws' ∧ Forall is_word ws' ∧ vsize ws' = vsize ws ∧
    ∀ k, 0 ≤ k < 8 * n → wbit ws' k = bbit src k.
Proof.
  intros Hsrc Hws Hn Hns Hnw. unfold copy_bytes, guard_b.
  destruct (Z.leb_spec 0 n); [|lia]. destruct (Z.leb_spec n (vsize src)); [|lia].
  destruct (Z.leb_spec n (4 * vsize ws)); [|lia]. cbn [andb mbind option_bind]. eexists. split; [done|].
  destruct (words_bytes_spec ws Hws) as (Hb & Hl & _).
  destruct (words_of_spec (take (Z.to_nat n) src ++ drop (Z.to_nat n) (words_bytes ws)) (length ws))
    as (Hx1 & Hx2 & Hx3).
  - apply Forall_app. split; [by apply Forall_take|by apply Forall_drop].
  - rewrite length_app, length_take, length_drop, Hl. unfold vsize in *. lia.
  - split; [done|]. split; [unfold vsize; by rewrite Hx2|]. intros k Hk. rewrite Hx3 by lia.
    assert (Ht : vsize (take (Z.to_nat n) src) = n) by (unfold vsize in *; rewrite length_take; lia).
    rewrite bbit_app, Ht by lia. destruct (Z.ltb_spec k (8 * n)); [|lia].
    unfold bbit, vget. destruct (Z.ltb_spec (k / 8) 0); [done|]. rewrite lookup_take_lt; [done|].
    assert (k / 8 < n) by (apply Z.div_lt_upper_bound; lia). lia.
Qed.

(** the bits that [assign] leaves *)
Definition assigned (src : list Z) (n : Z) : list bool := take (Z.to_nat n) (bits_of src).

Lemma assign_spec (b : bitfield) l src n :
  represents b l → Forall is_byte src → 0 ≤ n ≤ max_bits → n ≤ 8 * vsize src →
  ∃ b', assign src n b = Some b' ∧ represents b' (assigned src n).
Proof.
  intros Hr Hsrc Hn Hns. unfold assign. destruct (resize_spec b l n Hr Hn) as (b1 & Hb1 & Hr1).
  rewrite Hb1. cbn [mbind option_bind]. destruct (Z.ltb_spec 0 n) as [Hpos|Hneg].
  2: { assert (n = 0) as -> by lia. exists b1. split; [done|]. done. }
  assert (Hh : holds b1 n (nth_bit (resized n false l))).
  { rewrite <-(vsize_resized n false l) at 1 by lia. apply represents_holds; [done|].
    intros He. pose proof (vsize_resized n false l ltac:(lia)) as Hx. rewrite He in Hx.
    change (0 = n) in Hx. lia. }
  destruct Hh as (ws & Hb & Hn' & Hws & Hs & Hf). rewrite Hb. cbn [mbind option_bind].
  change ((n :: ws)⟦0⟧) with (Some n). cbn [mbind option_bind drop]. rewrite Z.quot_div_nonneg by lia.
  assert (Hq : n ≤ 8 * ((n + 7) / 8) ≤ n + 7 ∧ 0 ≤ (n + 7) / 8)
    by division.
  destruct (words_for_spec n Hpos) as [Hw1 Hw2].
  destruct (copy_bytes_spec src ((n + 7) / 8) ws Hsrc Hws) as (ws' & Hc & Hws' & Hs' & Hbits);
    [lia|lia|lia|]. rewrite drop_0, Hc. cbn [mbind option_bind].
  destruct (clear_trailing_holds (Bitfield (Some (n :: ws'))) n (wbit ws')) as (b2 & Hb2 & Hh2).
  { exists ws'. split_and!; try done; lia. }
  exists b2. split; [done|].
  assert (Hlen : vsize (assigned src n) = n).
  { unfold assigned, vsize in *. rewrite length_take, length_bits_of. lia. }
  eapply holds_represents; [done|done|]. intros k Hk. cbn beta. destruct (Z.ltb_spec k n); cbn [andb].
  - rewrite Hbits, <-nth_bits_of by lia. unfold nth_bit, assigned, vget.
    destruct (Z.ltb_spec k 0); [done|]. by rewrite lookup_take_lt by lia.
  - symmetry. apply nth_bit_high. lia.
Qed.

(** ** [data] *)

Lemma data_spec (b : bitfield) l :
  represents b l → Forall is_byte (data b) ∧ vsize (data b) = 4 * words_for (vsize l) ∧
  ∀ k, 0 ≤ k → bbit (data b) k = nth_bit l k.
Proof.
  intros Hr. unfold data. destruct (m_buf b) as [v|] eqn:Hb.
  - destruct (represents_words b v l Hr Hb) as (ws & -> & Hws & Hs & _ & Hf). cbn [drop]. rewrite drop_0.
    destruct (words_bytes_spec ws Hws) as (H1 & H2 & H3). split; [done|].
    split; [unfold vsize in *; rewrite H2; lia|]. intros k Hk. by rewrite H3, Hf.
  - assert (l = []) as -> by (unfold represents in Hr; by rewrite Hb in Hr). split; [constructor|].
    split; [done|]. intros k Hk. unfold bbit, nth_bit. by rewrite !vget_nil.
Qed.

(** copying a bitfield copies its bits *)
Lemma copy_spec rhs r b l :
  represents rhs r → represents b l → ∃ b', copy rhs b = Some b' ∧ represents b' r.
Proof.
  intros Hr Hb. destruct (represents_size rhs r Hr) as [Hs Hmax]. pose proof (vsize_nonneg r) as Hn.
  destruct (data_spec rhs r Hr) as (H1 & H2 & H3). unfold copy. rewrite Hs. cbn [mbind option_bind].
  assert (Hle : vsize r ≤ 32 * words_for (vsize r)) by (unfold words_for; division).
  destruct (assign_spec b l (data rhs) (vsize r) Hb H1) as (b' & Hb' & Hr'); [lia|lia|].
  exists b'. split; [done|]. replace r with (assigned (data rhs) (vsize r)); [done|].
  assert (Hlen : vsize (assigned (data rhs) (vsize r)) = vsize r).
  { unfold assigned, vsize in *. rewrite length_take, length_bits_of. lia. }
  apply nth_bit_ext; [done|]. intros k Hk. rewrite Hlen in Hk. rewrite <-H3, <-nth_bits_of by lia.
  unfold nth_bit, assigned, vget. destruct (Z.ltb_spec k 0); [done|]. by rewrite lookup_take_lt by lia.
Qed.
End bitfield.
