(* ===== verification/BitfieldQueries.v ===== *)
(** What the queries of [bitfield] tell about its bits, and its iterators. *)

From S2P Require Import Prelude.
From stdpp Require Import list.
From S2P Require Import Bitfield.
From S2P Require Import BitWords.
From S2P Require Import BitfieldOps.

Open Scope Z_scope.

Lemma forallb_nth (p : bool → bool) l :
  forallb p l = true ↔ ∀ k, 0 ≤ k < vsize l → p (nth_bit l k) = true.
Proof.
  rewrite forallb_forall. split.
  - intros Hp k Hk. destruct (vget_is_Some l k Hk) as [x Hx]. unfold nth_bit. rewrite Hx. cbn.
    by eapply Hp, list_elem_of_In, vget_elem_of.
  - intros Hp x Hx. apply list_elem_of_In, elem_of_vget in Hx as [i Hi].
    specialize (Hp i (vget_Some_range _ _ _ Hi)). unfold nth_bit in Hp. by rewrite Hi in Hp.
Qed.

(** the bits of [f] from [i] on *)
Fixpoint bitsum (f : Z → bool) (i : Z) (n : nat) : Z :=
  match n with O => 0 | S n => Z.b2z (f i) + bitsum f (i + 1) n end.

Lemma bitsum_add f i m n : bitsum f i (m + n) = bitsum f i m + bitsum f (i + Z.of_nat m) n.
Proof.
  revert i. induction m as [|m IH]; intros i; cbn [bitsum Nat.add]; [by rewrite Z.add_0_r|].
  rewrite IH. replace (i + Z.of_nat (S m)) with (i + 1 + Z.of_nat m) by lia. lia.
Qed.

Lemma bitsum_ext f g i j n :
  (∀ k, 0 ≤ k < Z.of_nat n → f (i + k) = g (j + k)) → bitsum f i n = bitsum g j n.
Proof.
  revert i j. induction n as [|n IH]; intros i j Hfg; cbn [bitsum]; [done|].
  f_equal.
  - specialize (Hfg 0 ltac:(lia)). rewrite !Z.add_0_r in Hfg. by rewrite Hfg.
  - apply IH. intros k Hk. specialize (Hfg (k + 1) ltac:(lia)).
    by replace (i + 1 + k) with (i + (k + 1)) by lia; replace (j + 1 + k) with (j + (k + 1)) by lia.
Qed.

(** the ones in a list *)
Definition ones_in (l : list bool) : Z := Z.of_nat (length (filter (λ x, x = true) l)).

Lemma bitsum_ones l n : (length l ≤ n)%nat → bitsum (nth_bit l) 0 n = ones_in l.
Proof.
  unfold ones_in. revert n. induction l as [|x l IH]; intros n Hn.
  - clear Hn. cut (∀ i, 0 ≤ i → bitsum (nth_bit []) i n = 0); [intros Hc; by apply Hc|].
    induction n as [|n IH]; intros i Hi; cbn [bitsum]; [done|].
    rewrite nth_bit_high, IH by (change (vsize (@nil bool)) with 0; lia). done.
  - destruct n as [|n]; [cbn in Hn; lia|]. cbn [bitsum]. specialize (IH n ltac:(cbn in Hn; lia)).
    rewrite (bitsum_ext _ (nth_bit l) (0 + 1) 0).
    2: { intros k Hk. unfold nth_bit. f_equal. replace (0 + 1 + k) with (0 + k + 1) by lia.
         apply vget_cons_S. lia. }
    rewrite IH. destruct x; rewrite ?filter_cons_True, ?filter_cons_False by done; cbn [length];
      change (nth_bit (?b :: l) 0) with b; cbn [Z.b2z]; lia.
Qed.

(** the last bit that is clear, -1 when there is none *)
Record last_clear (l : list bool) (c : Z) : Prop := {
  lc_range : -1 ≤ c < vsize l;
  lc_clear : 0 ≤ c → nth_bit l c = false;
  lc_set k : c < k < vsize l → nth_bit l k = true
}.

(** the first bit that is set, -1 when there is none *)
Record first_set (l : list bool) (c : Z) : Prop := {
  fs_range : -1 ≤ c < vsize l;
  fs_set : 0 ≤ c → nth_bit l c = true;
  fs_clear k : 0 ≤ k < vsize l → (c = -1 ∨ k < c) → nth_bit l k = false
}.

Section bitfield.
Context `{Platform}.
Implicit Types (l : list bool) (b : bitfield).

Lemma all_words_spec b n f w x m i :
  holds b n f → 0 ≤ i → i + Z.of_nat m ≤ words_for n → is_word w → (∀ k, 0 ≤ k < 32 → bit_at w k = x) →
  ∃ r : bool, all_words m w i b = Some r ∧
    (r = true ↔ ∀ k, 32 * i ≤ k < 32 * (i + Z.of_nat m) → f k = x).
Proof.
  intros Hh Hi Him Hw Hx. revert i Hi Him. induction m as [|m IH]; intros i Hi Him; cbn [all_words].
  { exists true. split; [done|]. split; [|done]. intros _ k Hk. lia. }
  destruct (get_word_holds b n f i Hh) as (y & Hy & Hyw & Hf); [lia|]. rewrite Hy. cbn [mbind option_bind].
  destruct (Z.eqb_spec y w) as [->|Hne]; cbn [negb].
  - destruct (IH (i + 1)) as (r & Hr & Hiff); [lia|lia|]. exists r. split; [done|]. rewrite Hiff. split.
    + intros Hk k Hk'. destruct (Z.lt_ge_cases k (32 * (i + 1))); [|apply Hk; lia].
      replace k with (32 * i + (k - 32 * i)) by lia. rewrite <-Hf by lia. apply Hx. lia.
    + intros Hk k Hk'. apply Hk. lia.
  - exists false. split; [done|]. split; [done|]. intros Hk. exfalso. apply Hne.
    apply bit_at_ext; [done|done|]. intros j Hj. rewrite Hx, Hf by done. apply Hk. lia.
Qed.

Lemma size_zero l : vsize l = 0 ↔ l = [].
Proof. split; [|by intros ->]. destruct l; [done|]. vsize. pose proof (vsize_nonneg l). lia. Qed.

Lemma vsize_pos l : l ≠ [] → 0 < vsize l.
Proof. rewrite <-size_zero. pose proof (vsize_nonneg l). lia. Qed.

Lemma bool_eq_iff (a b : bool) : (a = true ↔ b = true) → a = b.
Proof. destruct a, b; intuition congruence. Qed.

Lemma none_set_spec b l : represents b l → none_set b = Some (forallb negb l).
Proof.
  intros Hr. unfold none_set. rewrite (proj1 (represents_size b l Hr)). cbn [mbind option_bind].
  destruct (Z.eqb_spec (vsize l) 0) as [Hz|Hz]; [by apply size_zero in Hz as ->|].
  rewrite (num_words_spec b l Hr). cbn [mbind option_bind]. pose proof (vsize_nonneg l).
  destruct (words_for_spec (vsize l)) as [? ?]; [lia|].
  destruct (all_words_spec b _ _ 0 false (Z.to_nat (words_for (vsize l))) 0
    (represents_holds b l Hr ltac:(by intros ->))) as (r & Hres & Hiff); [lia|lia|done|apply bit_at_zero|].
  rewrite Hres. f_equal. apply bool_eq_iff. rewrite Hiff, forallb_nth. split.
  - intros Hk k Hk'. rewrite Hk by lia. done.
  - intros Hk k Hk'. destruct (Z.lt_ge_cases k (vsize l)); [|by apply nth_bit_high].
    apply negb_true_iff, Hk. lia.
Qed.

(** the check of the last word of [all_set] *)
Lemma head_set b n f i r :
  holds b n f → 0 ≤ i < words_for n → 0 < r < 32 →
  ∃ x : bool, (m ← shl32 all_ones32 (32 - r);
    w ← get_word i b;
    Some (Z.land w (host_to_network m) =? host_to_network m)) = Some x ∧
    (x = true ↔ ∀ k, 32 * i ≤ k < 32 * i + r → f k = true).
Proof.
  intros Hh Hi Hr. destruct (head_mask r Hr) as (m & -> & Hm & Hbits). cbn [mbind option_bind].
  destruct (get_word_holds b n f i Hh Hi) as (w & -> & Hw & Hf). cbn [mbind option_bind].
  eexists. split; [done|]. rewrite Z.eqb_eq. pose proof (network_word m Hm) as Hmn. split.
  - intros He k Hk. replace k with (32 * i + (k - 32 * i)) by lia. rewrite <-Hf by lia.
    assert (Hb : bit_at (Z.land w (host_to_network m)) (k - 32 * i) = bit_at (host_to_network m) (k - 32 * i))
      by by rewrite He.
    rewrite bit_at_land, Hbits in Hb by (done || lia). destruct (Z.ltb_spec (k - 32 * i) r); [|lia].
    by rewrite andb_true_r in Hb.
  - intros Hk. apply bit_at_ext; [by apply word_land|done|]. intros j Hj.
    rewrite bit_at_land, Hbits by done. destruct (Z.ltb_spec j r); [|apply andb_false_r].
    rewrite andb_true_r, Hf by done. apply Hk. lia.
Qed.

Lemma all_set_spec b l : represents b l → all_set b = Some (negb (vsize l =? 0) && forallb id l).
Proof.
  intros Hr. unfold all_set. rewrite (proj1 (represents_size b l Hr)). cbn [mbind option_bind].
  destruct (Z.eqb_spec (vsize l) 0) as [Hz|Hz]; [done|]. cbn [negb andb].
  pose proof (vsize_nonneg l). rewrite Z.quot_div_nonneg, land_31 by lia.
  pose proof (represents_holds b l Hr ltac:(by intros ->)) as Hh.
  pose proof (Z.div_mod (vsize l) 32 ltac:(done)). pose proof (Z.mod_pos_bound (vsize l) 32 ltac:(done)).
  assert (vsize l / 32 ≤ words_for (vsize l)) by (apply Z.div_le_mono; lia).
  destruct (all_words_spec b _ _ all_ones32 true (Z.to_nat (vsize l / 32)) 0 Hh) as (r & Hres & Hiff);
    [lia|lia|done|apply bit_at_ones|].
  rewrite Hres. cbn [mbind option_bind].
  destruct r; cbn [negb].
  - pose proof (proj1 Hiff eq_refl) as Hones. destruct (Z.ltb_spec 0 (vsize l mod 32)).
    + destruct (head_set b _ _ (vsize l / 32) (vsize l mod 32) Hh) as (x & Hx & Hxiff);
        [unfold words_for; division|lia|].
      rewrite Hx. f_equal. apply bool_eq_iff. rewrite Hxiff, forallb_nth. split.
      * intros Hk k Hk'. unfold id. destruct (Z.lt_ge_cases k (32 * (vsize l / 32))); [apply Hones; lia|].
        apply Hk. lia.
      * intros Hk k Hk'. apply Hk. lia.
    + f_equal. symmetry. apply forallb_nth. intros k Hk. apply Hones. lia.
  - f_equal. symmetry. apply not_true_iff_false. rewrite forallb_nth. intros Hk.
    assert (false = true); [|done]. apply Hiff. intros k Hk'. apply Hk. lia.
Qed.

(** ** [count] *)

Lemma popcnt_bitsum w : is_word w → popcnt w = bitsum (bit_at w) 0 32.
Proof. intros Hw. rewrite popcnt_bits by done. reflexivity. Qed.

Lemma count_loop_spec b n f m i ret :
  holds b n f → 0 ≤ i → i + Z.of_nat m ≤ words_for n →
  count_loop m i ret b = Some (ret + bitsum f (32 * i) (32 * m)).
Proof.
  intros Hh. revert i ret. induction m as [|m IH]; intros i ret Hi Him; cbn [count_loop].
  { rewrite Nat.mul_0_r. cbn. f_equal. lia. }
  destruct (get_word_holds b n f i Hh) as (w & -> & Hw & Hf); [lia|]. cbn [mbind option_bind].
  rewrite IH by lia. f_equal.
  replace (if has_popcnt then popcnt w else count_word w) with (popcnt w)
    by (rewrite count_word_spec by done; by destruct has_popcnt).
  rewrite popcnt_bitsum by done. replace (32 * S m)%nat with (32 + 32 * m)%nat by lia.
  rewrite bitsum_add. rewrite (bitsum_ext (bit_at w) f 0 (32 * i)).
  - replace (32 * i + Z.of_nat 32) with (32 * (i + 1)) by lia. lia.
  - intros k Hk. rewrite Z.add_0_l. apply Hf. lia.
Qed.

Lemma count_spec b l : represents b l → count b = Some (ones_in l).
Proof.
  intros Hr. unfold count. rewrite (num_words_spec b l Hr). cbn [mbind option_bind].
  destruct (decide (l = [])) as [->|Hl]; [done|].
  pose proof (represents_holds b l Hr Hl) as Hh.
  pose proof (vsize_pos l Hl).
  destruct (words_for_spec (vsize l)) as [? ?]; [done|].
  rewrite (count_loop_spec b _ _ _ 0 0 Hh) by lia. f_equal. rewrite Z.add_0_l. apply bitsum_ones.
  unfold vsize in *. lia.
Qed.

(** ** Searching *)

Lemma find_first_set_spec b l : represents b l → ∃ c, find_first_set b = Some c ∧ first_set l c.
Proof.
  intros Hr. unfold find_first_set. rewrite (num_words_spec b l Hr). cbn [mbind option_bind].
  pose proof (vsize_nonneg l). destruct (decide (l = [])) as [->|Hl].
  { exists (-1). split; [done|]. split; [done|done|]. intros k Hk. change (0 ≤ k < 0) in Hk. lia. }
  pose proof (vsize_pos l Hl). destruct (words_for_spec (vsize l)) as [Hw1 Hw2]; [lia|].
  destruct (Z.eqb_spec (words_for (vsize l)) 0); [lia|].
  destruct (m_buf b) as [v|] eqn:Hb; [|by unfold represents in Hr; rewrite Hb in Hr].
  destruct (represents_words b v l Hr Hb) as (ws & -> & Hws & Hs & _ & Hf). cbn [mbind option_bind].
  unfold subspan, guard_b. rewrite <-Hs. rewrite vsize_cons. rewrite !(proj2 (Z.leb_le _ _)) by lia.
  cbn [andb mbind option_bind]. change (drop (Z.to_nat 1) (vsize l :: ws)) with ws.
  replace (take (Z.to_nat (vsize ws)) ws) with ws by (unfold vsize; by rewrite Nat2Z.id, firstn_all).
  destruct (count_leading_zeros_spec ws Hws) as (m & Hm & Hrange & Hzero & Hone). rewrite Hm. cbn [mbind option_bind].
  eexists. split; [done|]. destruct (Z.eqb_spec m (vsize ws * 32)) as [He|He]; cbn [negb].
  - split; [lia|lia|]. intros k Hk _. rewrite <-Hf by lia. apply Hzero. lia.
  - assert (Hbit : nth_bit l m = true) by (rewrite <-Hf by lia; apply Hone; lia).
    assert (m < vsize l).
    { destruct (Z.lt_ge_cases m (vsize l)); [done|]. by rewrite nth_bit_high in Hbit. }
    split; [lia|done|]. intros k Hk [?|Hlt]; [lia|]. rewrite <-Hf by lia. apply Hzero. lia.
Qed.

(** the bits of the last word that are clear, as [find_last_clear] computes them *)
Lemma last_flipped b n f r :
  holds b n f → r = n mod 32 → r ≠ 0 → (∀ k, n ≤ k → f k = false) →
  ∃ m w, shl32 all_ones32 (32 - r) = Some m ∧ get_word (words_for n - 1) b = Some w ∧
    is_word (Z.lxor w (host_to_network m)) ∧
    ∀ k, 0 ≤ k < 32 →
      bit_at (Z.lxor w (host_to_network m)) k = (k <? r) && negb (f (32 * (n / 32) + k)).
Proof.
  intros Hh -> Hr Hf0. assert (Hn : 0 < n) by (destruct Hh as (ws & _ & [Hn _] & _); done).
  pose proof (Z.mod_pos_bound n 32 ltac:(done)). pose proof (Z.div_mod n 32 ltac:(done)).
  destruct (words_for_spec n Hn) as [_ Hw]. pose proof (last_word n Hn Hr) as Hl.
  destruct (head_mask (n mod 32)) as (m & Hm & Hmw & Hbits); [lia|].
  destruct (get_word_holds b n f (words_for n - 1) Hh) as (w & Hw' & Hww & Hf); [lia|].
  exists m, w. split; [done|]. split; [done|]. split; [by apply word_lxor, network_word|].
  intros k Hk. rewrite bit_at_lxor by (done || by apply network_word). rewrite Hbits, Hf by done.
  rewrite Hl, Z.add_simpl_r. destruct (Z.ltb_spec k (n mod 32)); cbn [andb]; [by destruct (f _)|].
  by rewrite Hf0 by lia.
Qed.

(** [find_last_clear] is right when the last clear bit is not in the last
    word.  When it is there, at place [p], it returns the size less [p].  When the
    last word is full it shifts by its width. *)
Lemma find_last_clear_spec b l c :
  represents b l → l ≠ [] → last_clear l c →
  find_last_clear b =
    if vsize l mod 32 =? 0 then None
    else if 32 * (vsize l / 32) <=? c then Some (vsize l - c mod 32) else Some c.
Proof.
  intros Hr Hl [Hc Hcc Hcs]. unfold find_last_clear. rewrite (num_words_spec b l Hr). cbn [mbind option_bind].
  pose proof (vsize_pos l Hl) as Hn. set (n := vsize l) in *. destruct (words_for_spec n Hn) as [Hw1 Hw2].
  destruct (Z.eqb_spec (words_for n) 0); [lia|]. rewrite (proj1 (represents_size b l Hr)). cbn [mbind option_bind].
  fold n. rewrite land_31. pose proof (Z.mod_pos_bound n 32 ltac:(done)). pose proof (Z.div_mod n 32 ltac:(done)).
  destruct (Z.eqb_spec (n mod 32) 0) as [Hz|Hz].
  { rewrite Hz. reflexivity. }
  destruct (last_flipped b n (nth_bit l) (n mod 32)) as (m & w & Hm & Hw & Hx & Hbits);
    [by apply represents_holds|done|done|apply nth_bit_high|].
  rewrite Hm, Hw. cbn [mbind option_bind].
  set (x := Z.lxor w (host_to_network m)) in *.
  assert (Hnot : Forall is_word [not32 x]) by (constructor; [by apply word_not|constructor]).
  destruct (count_trailing_ones_spec [not32 x] Hnot) as (t & -> & Ht1 & Ht2 & Ht3).
  change (32 * vsize [not32 x]) with 32 in *. rewrite Z.rem_mod_nonneg by lia.
  pose proof (last_word n Hn Hz) as Hlw. rewrite Hlw, Z.add_simpl_r.
  assert (Hone : ∀ k, 0 ≤ k < 32 → wbit [not32 x] k = negb (bit_at x k)).
  { intros k Hk. rewrite wbit_cons by lia. destruct (Z.ltb_spec k 32); [|lia]. by apply bit_at_not. }
  (* the bits after bit [31 - t] of the word are set *)
  assert (Hset : ∀ k, 31 - t < k < 32 → k < n mod 32 → nth_bit l (32 * (n / 32) + k) = true).
  { intros k Hk Hk'. specialize (Ht2 k ltac:(lia)). rewrite Hone, Hbits in Ht2 by lia.
    rewrite (proj2 (Z.ltb_lt k (n mod 32))) in Ht2 by done.
    by destruct (nth_bit l (32 * (n / 32) + k)). }
  destruct (Z.eqb_spec x 0) as [Hx0|Hx0]; cbn [negb].
  - assert (t = 32) as ->.
    { destruct (Z.lt_ge_cases t 32); [|lia]. specialize (Ht3 ltac:(done)).
      rewrite Hone, Hx0, bit_at_zero in Ht3 by lia. done. }
    assert (Hall : ∀ k, 32 * (n / 32) ≤ k < n → nth_bit l k = true).
    { intros k Hk. replace k with (32 * (n / 32) + (k - 32 * (n / 32))) by lia. apply Hset; lia. }
    destruct (Z.leb_spec (32 * (n / 32)) c) as [Hle|Hgt]; [by rewrite Hall in Hcc by lia; specialize (Hcc ltac:(lia))|].
    destruct (m_buf b) as [v|] eqn:Hb; [|by unfold represents in Hr; rewrite Hb in Hr].
    destruct (represents_words b v l Hr Hb) as (ws & -> & Hws & Hs & _ & Hf). cbn [mbind option_bind].
    fold n in Hs. rewrite Hlw in Hs. pose proof (Z.div_pos n 32 ltac:(lia) ltac:(done)).
    unfold subspan, guard_b. rewrite vsize_cons. rewrite !(proj2 (Z.leb_le _ _)) by lia.
    cbn [andb mbind option_bind]. change (drop (Z.to_nat 1) (vsize l :: ws)) with ws. f_equal.
    set (us := take (Z.to_nat (n / 32)) ws).
    assert (Hus : vsize us = n / 32) by (unfold us, vsize in *; rewrite length_take; lia).
    destruct (count_trailing_ones_spec us) as (t & -> & Hu1 & Hu2 & Hu3); [by apply Forall_take|].
    rewrite Hus in *.
    assert (Hub : ∀ k, 0 ≤ k < 32 * (n / 32) → wbit us k = nth_bit l k).
    { intros k Hk. unfold us. rewrite wbit_take by lia. destruct (Z.ltb_spec k (32 * (n / 32))); [|lia].
      apply Hf. lia. }
    assert (c = 32 * (n / 32) - t - 1); [|lia].
    destruct (Z.lt_trichotomy c (32 * (n / 32) - t - 1)) as [Hlt|[He|Hlt]]; [|done|].
    + specialize (Hu3 ltac:(lia)). rewrite Hub in Hu3 by lia. rewrite Hcs in Hu3 by lia. done.
    + specialize (Hu2 c ltac:(lia)). rewrite Hub in Hu2 by lia. rewrite Hcc in Hu2 by lia. done.
  - assert (Ht : t < 32).
    { destruct (Z.lt_ge_cases t 32); [done|]. exfalso. apply Hx0, word_zero; [done|]. intros k Hk.
      specialize (Ht2 k ltac:(lia)). rewrite Hone in Ht2 by lia. by apply negb_true_iff. }
    specialize (Ht3 Ht). rewrite Hone, Hbits in Ht3 by lia. apply negb_false_iff, andb_true_iff in Ht3 as [Ht3 Hcl].
    apply Z.ltb_lt in Ht3. apply negb_true_iff in Hcl.
    assert (Hce : c = 32 * (n / 32) + (31 - t)).
    { replace (32 - t - 1) with (31 - t) in Hcl by lia.
      destruct (Z.lt_trichotomy c (32 * (n / 32) + (31 - t))) as [Hlt|[He|Hlt]]; [|done|].
      - rewrite Hcs in Hcl by lia. done.
      - specialize (Hset (c - 32 * (n / 32)) ltac:(lia) ltac:(lia)).
        replace (32 * (n / 32) + (c - 32 * (n / 32))) with c in Hset by lia.
        rewrite Hcc in Hset by lia. done. }
    destruct (Z.leb_spec (32 * (n / 32)) c); [|lia]. f_equal.
    assert (c mod 32 = 31 - t); [|lia]. rewrite Hce, Z.mul_comm, Z.add_comm, Z.mod_add by done.
    apply Z.mod_small. lia.
Qed.

(** ** Iterators *)

(** the iterator at bit [k] *)
Definition it_at (k : Z) : const_iterator := ConstIterator (k / 32) (bit_mask k).

Lemma bit_mask_pow k : 0 ≤ k → bit_mask k = 2 ^ (31 - k mod 32).
Proof.
  intros Hk. unfold bit_mask. rewrite land_31. pose proof (Z.mod_pos_bound k 32 ltac:(done)).
  rewrite Z.shiftr_div_pow2 by lia. change 0x80000000 with (2 ^ 31).
  by rewrite Z.pow_sub_r by lia.
Qed.

Lemma begin_at : begin_it = it_at 0.
Proof. done. Qed.

Lemma inc_at k : 0 ≤ k → inc (it_at k) = it_at (k + 1).
Proof.
  intros Hk. unfold inc, it_at. cbn [it_bit it_buf]. rewrite bit_mask_pow by done.
  pose proof (Z.mod_pos_bound k 32 ltac:(done)).
  destruct (decide (k mod 32 = 31)) as [He|Hne].
  - rewrite He. cbn [Z.sub Z.add Z.opp Z.pos_sub Pos.pred_double]. change (2 ^ (31 - 31) =? 1) with true.
    f_equal; [division|]. rewrite bit_mask_pow by lia.
    replace ((k + 1) mod 32) with 0 by division. done.
  - destruct (Z.eqb_spec (2 ^ (31 - k mod 32)) 1) as [Hp|Hp].
    { assert (2 ^ 1 ≤ 2 ^ (31 - k mod 32)) by (apply Z.pow_le_mono_r; lia). lia. }
    f_equal; [division|]. rewrite bit_mask_pow by lia.
    replace ((k + 1) mod 32) with (k mod 32 + 1) by division.
    rewrite Z.shiftr_div_pow2 by done. rewrite <-Z.pow_sub_r by lia. f_equal. lia.
Qed.

Lemma dec_at k : 0 ≤ k → dec (it_at (k + 1)) = it_at k.
Proof.
  intros Hk. unfold dec, it_at. cbn [it_bit it_buf]. rewrite !bit_mask_pow by lia.
  pose proof (Z.mod_pos_bound k 32 ltac:(done)).
  destruct (decide (k mod 32 = 31)) as [He|Hne].
  - replace ((k + 1) mod 32) with 0 by division.
    rewrite He. change (2 ^ (31 - 0) =? 0x80000000) with true. f_equal.
    division.
  - replace ((k + 1) mod 32) with (k mod 32 + 1) by division.
    destruct (Z.eqb_spec (2 ^ (31 - (k mod 32 + 1))) 0x80000000) as [Hp|Hp].
    { assert (2 ^ (31 - (k mod 32 + 1)) ≤ 2 ^ 30) by (apply Z.pow_le_mono_r; lia). lia. }
    f_equal; [division|].
    rewrite Z.shiftl_mul_pow2, <-Z.pow_add_r by lia.
    replace (31 - (k mod 32 + 1) + 1) with (31 - k mod 32) by lia. apply uint_small.
    assert (2 ^ (31 - k mod 32) ≤ 2 ^ 31) by (apply Z.pow_le_mono_r; lia).
    assert (0 < 2 ^ (31 - k mod 32)) by (apply Z.pow_pos_nonneg; lia). lia.
Qed.

Lemma end_at b l : represents b l → end_it b = Some (it_at (vsize l)).
Proof.
  intros Hr. unfold end_it. rewrite (proj1 (represents_size b l Hr)). cbn [mbind option_bind].
  pose proof (vsize_nonneg l). rewrite land_31. destruct (m_buf b) as [v|] eqn:Hb.
  - rewrite (num_words_spec b l Hr). cbn [mbind option_bind]. f_equal. unfold new_iterator, it_at, bit_mask.
    rewrite land_31. f_equal. unfold words_for.
    destruct (Z.eqb_spec (vsize l mod 32) 0); division.
  - assert (l = []) as -> by (unfold represents in Hr; by rewrite Hb in Hr). done.
Qed.

Lemma same_position_at i j : 0 ≤ i → 0 ≤ j → same_position (it_at i) (it_at j) = (i =? j).
Proof.
  intros Hi Hj. unfold same_position, it_at. cbn [it_buf it_bit]. rewrite !bit_mask_pow by done.
  apply eq_true_iff_eq. rewrite andb_true_iff, !Z.eqb_eq. split; [|by intros ->].
  intros [Hd Hp]. pose proof (Z.mod_pos_bound i 32 ltac:(done)). pose proof (Z.mod_pos_bound j 32 ltac:(done)).
  apply Z.pow_inj_r in Hp; [|lia..]. pose proof (Z.div_mod i 32 ltac:(done)).
  pose proof (Z.div_mod j 32 ltac:(done)). lia.
Qed.

Lemma deref_at b l k : represents b l → 0 ≤ k < vsize l → deref (it_at k) b = Some (nth_bit l k).
Proof.
  intros Hr Hk. rewrite <-(get_bit_spec b l k Hr Hk). unfold deref, get_bit, it_at. cbn [it_buf it_bit].
  by rewrite Z.quot_div_nonneg by lia.
Qed.
End bitfield.
