(* ===== verification/BitfieldProperties.v ===== *)
(** Properties of [bitfield]: src/btdownloader/torrent/bitfield.cpp and
    src/btdownloader/torrent/ffs.cpp. *)

From S2P Require Import Prelude.
From stdpp Require Import list.
From S2P Require Import PickerOps.
From S2P Require Import Bitfield.
From S2P Require Import BitWords.
From S2P Require Import BitfieldOps.
From S2P Require Import BitfieldQueries.

Open Scope Z_scope.

(** ** The operations, on words and on lists of bits *)

Inductive op :=
| op_resize (bits : Z)
| op_resize_val (bits : Z) (val : bool)
| op_assign (src : list Z) (bits : Z)
| op_set_bit (i : Z)
| op_clear_bit (i : Z)
| op_set_all
| op_clear_all
| op_clear.

(** what an operation does to the list of bits *)
Definition on_list (o : op) (l : list bool) : list bool :=
  match o with
  | op_resize n => resized n false l
  | op_resize_val n v => resized n v l
  | op_assign src n => assigned src n
  | op_set_bit i => <[Z.to_nat i := true]> l
  | op_clear_bit i => <[Z.to_nat i := false]> l
  | op_set_all => replicate (length l) true
  | op_clear_all => replicate (length l) false
  | op_clear => []
  end.

(** sizes that fit an [int], indices in range, enough bytes *)
Definition allowed (o : op) (l : list bool) : Prop :=
  match o with
  | op_resize n | op_resize_val n _ => 0 ≤ n ≤ max_bits
  | op_assign src n => 0 ≤ n ≤ max_bits ∧ n ≤ 8 * vsize src ∧ Forall is_byte src
  | op_set_bit i | op_clear_bit i => 0 ≤ i < vsize l
  | _ => True
  end.

Fixpoint all_allowed (os : list op) (l : list bool) : Prop :=
  match os with [] => True | o :: os => allowed o l ∧ all_allowed os (on_list o l) end.

Section bitfield.
Context `{Platform}.

Definition on_words (o : op) (b : bitfield) : option bitfield :=
  match o with
  | op_resize n => resize n b
  | op_resize_val n v => resize_val n v b
  | op_assign src n => assign src n b
  | op_set_bit i => set_bit i b
  | op_clear_bit i => clear_bit i b
  | op_set_all => set_all b
  | op_clear_all => clear_all b
  | op_clear => Some (clear b)
  end.

Fixpoint run (os : list op) (b : bitfield) : option bitfield :=
  match os with [] => Some b | o :: os => b ← on_words o b; run os b end.

(** [for (bool x : b)] *)
Fixpoint range_for (fuel : nat) (it last : const_iterator) (b : bitfield) : option (list bool) :=
  if same_position it last then Some []
  else
    match fuel with
    | O => None
    | S fuel => x ← deref it b; l ← range_for fuel (inc it) last b; Some (x :: l)
    end.

Lemma on_words_spec o b l :
  represents b l → allowed o l → ∃ b', on_words o b = Some b' ∧ represents b' (on_list o l).
Proof.
  destruct o; cbn [on_words on_list allowed]; intros Hr Ha.
  - by apply resize_spec.
  - by apply resize_val_spec.
  - destruct Ha as (Hn & Hs & Hb). by apply (assign_spec b l).
  - by apply set_bit_spec.
  - by apply clear_bit_spec.
  - by apply set_all_spec.
  - by apply clear_all_spec.
  - exists (clear b). split; reflexivity.
Qed.

Lemma run_spec os b l :
  represents b l → all_allowed os l →
  ∃ b', run os b = Some b' ∧ represents b' (foldl (λ l o, on_list o l) l os).
Proof.
  revert b l. induction os as [|o os IH]; intros b l Hr Ha; cbn [run foldl]; [by exists b|].
  destruct Ha as [Ho Ha]. destruct (on_words_spec o b l Hr Ho) as (b1 & Hb1 & Hr1). rewrite Hb1.
  by apply IH.
Qed.

Lemma range_for_spec b l n k :
  represents b l → k + Z.of_nat n = vsize l → 0 ≤ k →
  range_for n (it_at k) (it_at (vsize l)) b = Some (drop (Z.to_nat k) l).
Proof.
  intros Hr. revert k. induction n as [|n IH]; intros k Hn Hk; cbn [range_for];
    rewrite same_position_at by lia; destruct (Z.eqb_spec k (vsize l)); try lia.
  - rewrite drop_ge; [done|]. unfold vsize in *. lia.
  - rewrite (deref_at b l k Hr) by lia. cbn [mbind option_bind].
    rewrite inc_at, IH by lia. cbn [mbind option_bind]. f_equal.
    destruct (vget_is_Some l k) as [x Hx]; [lia|]. unfold nth_bit. rewrite Hx.
    replace (Z.to_nat (k + 1)) with (S (Z.to_nat k)) by lia. symmetry. apply drop_S.
    unfold vget in Hx. by destruct (k <? 0).
Qed.

(** C18: a bitfield refines a list of bits.  After any sequence of operations
    whose sizes fit an [int], whose indices are in range and whose buffers are
    long enough, on a machine of either byte order, no
    operation has undefined behaviour, and the words answer every query as the
    list does that the same operations build: size, single bits, all_set
    and none_set as the piece picker uses them, count, the first set bit, the loop
    over the iterators, the bytes of data(), and a copy. *)
Theorem bitfield_refines_list os :
  all_allowed os [] →
  let l := foldl (λ l o, on_list o l) [] os in
  ∃ b, run os empty_bitfield = Some b ∧
    size b = Some (vsize l) ∧ empty b = Some (vsize l =? 0) ∧
    (∀ i, 0 ≤ i < vsize l → get_bit i b = l⟦i⟧) ∧
    all_set b = Some (PickerOps.all_set l) ∧ none_set b = Some (PickerOps.none_set l) ∧
    count b = Some (ones_in l) ∧
    (∃ c, find_first_set b = Some c ∧ first_set l c) ∧
    (∃ last, end_it b = Some last ∧ range_for (length l) begin_it last b = Some l) ∧
    (∀ i, 0 ≤ i < vsize l → (bits_of (data b))⟦i⟧ = l⟦i⟧) ∧
    (∃ c, copy b empty_bitfield = Some c ∧ ∀ i, 0 ≤ i < vsize l → get_bit i c = l⟦i⟧).
Proof.
  intros Ha l. destruct (run_spec os empty_bitfield [] eq_refl Ha) as (b & Hb & Hr). fold l in Hr.
  assert (Hget : ∀ i, 0 ≤ i < vsize l → Some (nth_bit l i) = l⟦i⟧).
  { intros i Hi. destruct (vget_is_Some l i Hi) as [x Hx]. unfold nth_bit. by rewrite Hx. }
  exists b. split; [done|]. split; [by apply represents_size|].
  split; [unfold empty; by rewrite (proj1 (represents_size b l Hr))|].
  split; [intros i Hi; rewrite <-Hget by done; by apply get_bit_spec|].
  split; [by apply all_set_spec|]. split; [by apply none_set_spec|]. split; [by apply count_spec|].
  split; [by apply find_first_set_spec|]. split; [|split].
  - exists (it_at (vsize l)). split; [by apply end_at|]. rewrite begin_at.
    by apply (range_for_spec b l (length l) 0 Hr).
  - intros i Hi. destruct (data_spec b l Hr) as (_ & Hs & Hd). rewrite <-Hget, <-Hd, <-nth_bits_of by lia.
    unfold nth_bit. destruct (vget_is_Some (bits_of (data b)) i) as [x Hx].
    + unfold vsize in *. rewrite length_bits_of. destruct (words_for_spec (Z.of_nat (length l))); lia.
    + by rewrite Hx.
  - destruct (copy_spec b l empty_bitfield [] Hr eq_refl) as (c & Hc & Hrc). exists c. split; [done|].
    intros i Hi. rewrite <-Hget by done. by apply get_bit_spec.
Qed.

(** C19: the versions in software compute what the instructions do, on every
    span of 32 bit words: count_leading_zeros_sw with its multiplication and table,
    count_trailing_ones_sw with its loop, and the five steps by which count adds
    the bits of a word; leading zeros and trailing ones are those of the bits in
    network order. *)
Theorem bit_counts_agree ws :
  Forall is_word ws →
  count_leading_zeros_sw ws = Some (count_leading_zeros_hw ws) ∧
  count_trailing_ones_sw ws = count_trailing_ones_hw ws ∧
  (∀ w, w ∈ ws → count_word w = popcnt w) ∧
  zeros ws (count_leading_zeros_hw ws) ∧ ones ws (count_trailing_ones_hw ws).
Proof.
  intros Hws. split; [by apply leading_zeros_sw_hw|].
  split; [by apply trailing_ones_sw_hw, Forall_rev|].
  split; [intros w Hw; apply count_word_spec; rewrite Forall_forall in Hws; by apply Hws|].
  unfold count_leading_zeros_hw, count_trailing_ones_hw.
  destruct (leading_zeros_hw_spec ws 0 Hws) as (m & -> & Hm).
  destruct (trailing_ones_hw_spec ws 0 Hws) as (t & -> & Ht). done.
Qed.

(** find_last_clear returns the last clear bit only when that bit is not
    in the last word.  When it is, at place p of it, the result is the size less p,
    which is past the end for p = 0; when the size is a multiple of 32 the mask is
    computed by a shift of 32 bits, which is undefined. *)
Theorem find_last_clear_wrong b l c :
  represents b l → l ≠ [] → last_clear l c →
  find_last_clear b =
    if vsize l mod 32 =? 0 then None
    else if 32 * (vsize l / 32) <=? c then Some (vsize l - c mod 32) else Some c.
Proof. apply find_last_clear_spec. Qed.
End bitfield.

(** ** Witnesses *)

#[local] Instance little : Platform :=
  {| big_endian := false; has_popcnt := false; has_builtin_clz := false; has_builtin_ctz := false |}.

Definition sample_ops : list op :=
  [op_resize_val 40 true; op_clear_bit 3; op_clear_bit 36; op_resize 38; op_assign [0xf0; 0x01; 0xff] 18].

Lemma sample_allowed : all_allowed sample_ops [].
Proof.
  cbn [all_allowed sample_ops allowed]. unfold max_bits. split_and!; try lia; try done.
  repeat constructor; unfold is_byte; lia.
Qed.

Lemma bitfield_refines_list_witness :
  ∃ b, run sample_ops empty_bitfield = Some b ∧ size b = Some 18 ∧ count b = Some 7.
Proof.
  destruct (bitfield_refines_list sample_ops sample_allowed) as (b & Hb & Hs & _ & _ & _ & _ & Hc & _).
  exists b. split; [exact Hb|]. split; [exact Hs|exact Hc].
Defined.

Lemma bit_counts_agree_witness :
  count_leading_zeros_sw [0; 0x00080000] = Some 52 ∧ count_word 0x12345678 = popcnt 0x12345678.
Proof.
  assert (Hws : Forall is_word [0; 0x00080000; 0x12345678]) by (repeat constructor; unfold is_word; lia).
  split; [|by apply (bit_counts_agree [0; 0x00080000; 0x12345678] Hws), list_elem_of_further, list_elem_of_further, list_elem_of_here].
  rewrite (proj1 (bit_counts_agree [0; 0x00080000] ltac:(repeat constructor; unfold is_word; lia))).
  reflexivity.
Defined.
