(* ===== verification/IpFilter.v ===== *)
(** [ip_filter] and [port_filter]: src/btdownloader/include/libtorrent/ip_filter.hpp
    and src/btdownloader/torrent/ip_filter.cpp.

    [filter_impl] is a template over the type of addresses; what it needs of the
    type is the class [Address], which the ports and the arrays of bytes of IPv4
    and IPv6 addresses implement.

    The [std::set] of ranges, [m_access_list], is the list of its elements in order.  An iterator
    into it is the key of the element it points to, and [None] at the end: it
    stays valid when other elements are inserted or erased. *)

From S2P Require Import Prelude.

Open Scope Z_scope.

Class Address (A : Type) := {
  addr_lt : A → A → bool;
  addr_eq : A → A → bool;
  zero : A;
  plus_one : A → A;
  minus_one : A → A;
  max_addr : A
}.

(** ** Ports *)

Definition uint16 : Type := Z.

#[export] Instance port_address : Address uint16 := {
  addr_lt a b := a <? b;
  addr_eq a b := a =? b;
  zero := 0;
  plus_one a := (a + 1) mod 2 ^ 16;
  minus_one a := (a - 1) mod 2 ^ 16;
  max_addr := 2 ^ 16 - 1
}.

(** ** Arrays of bytes, the most significant one first *)

Definition bytes (n : nat) : Type := list Z.

(** [operator<] of [std::array] *)
Fixpoint bytes_lt (a b : list Z) : bool :=
  match a, b with
  | x :: a, y :: b => if x <? y then true else if y <? x then false else bytes_lt a b
  | [], _ :: _ => true
  | _, [] => false
  end.

Fixpoint bytes_eq (a b : list Z) : bool :=
  match a, b with
  | x :: a, y :: b => (x =? y) && bytes_eq a b
  | [], [] => true
  | _, _ => false
  end.

(** the loops from the last byte on; [true] when no byte has ended the loop *)
Fixpoint plus_one_loop (a : list Z) : list Z * bool :=
  match a with
  | [] => ([], true)
  | t :: a =>
      let '(a, go_on) := plus_one_loop a in
      if negb go_on then (t :: a, false)
      else if t <? 255 then (t + 1 :: a, false)
      else (0 :: a, true)
  end.

Fixpoint minus_one_loop (a : list Z) : list Z * bool :=
  match a with
  | [] => ([], true)
  | t :: a =>
      let '(a, go_on) := minus_one_loop a in
      if negb go_on then (t :: a, false)
      else if 0 <? t then (t - 1 :: a, false)
      else (255 :: a, true)
  end.

#[export] Instance bytes_address (n : nat) : Address (bytes n) := {
  addr_lt := bytes_lt;
  addr_eq := bytes_eq;
  zero := replicate n 0;
  plus_one a := (plus_one_loop a).1;
  minus_one a := (minus_one_loop a).1;
  max_addr := replicate n 255
}.

(** ** [filter_impl] *)

Record range (A : Type) := Range { start : A; range_access : Z }.
Arguments Range {A}.
Arguments start {A}.
Arguments range_access {A}.

Record ip_range (A : Type) := IpRange { first : A; last : A; flags : Z }.
Arguments IpRange {A}.
Arguments first {A}.
Arguments last {A}.
Arguments flags {A}.

Section filter.
Context {A : Type} `{Address A}.

Definition at_start (k : A) (l : list (range A)) : option (range A) :=
  list_find (λ r, addr_eq (start r) k = true) l ≫= λ p, Some p.2.

(** [*it]; dereferencing the end is undefined behaviour *)
Definition set_deref (it : option A) (l : list (range A)) : option (range A) :=
  k ← it; at_start k l.

(** the first element for which [p] holds *)
Definition first_such (p : range A → bool) (l : list (range A)) : option A :=
  match filter (λ r, p r = true) l with [] => None | r :: _ => Some (start r) end.

Definition begin_of (l : list (range A)) : option A := first_such (λ _, true) l.

Definition upper_bound (a : A) (l : list (range A)) : option A :=
  first_such (λ r, addr_lt a (start r)) l.

(** the elements in front of an iterator *)
Definition in_front (it : option A) (r : range A) : bool :=
  match it with Some k => addr_lt (start r) k | None => true end.

(** [std::prev(it)]; undefined at the beginning *)
Definition set_prev (it : option A) (l : list (range A)) : option (option A) :=
  r ← list.last (filter (λ r, in_front it r = true) l); Some (Some (start r)).

(** [std::next(it)]; undefined at the end *)
Definition set_next (it : option A) (l : list (range A)) : option (option A) :=
  k ← it; Some (upper_bound k l).

(** [insert]: an element with an equal key is kept *)
Fixpoint set_insert (r : range A) (l : list (range A)) : list (range A) :=
  match l with
  | [] => [r]
  | x :: l' =>
      if addr_lt (start x) (start r) then x :: set_insert r l'
      else if addr_lt (start r) (start x) then r :: l
      else l
  end.

(** [erase(i, j)] *)
Definition set_erase (i j : option A) (l : list (range A)) : list (range A) :=
  filter (λ r, (in_front i r || negb (in_front j r)) = true) l.

(** writing the element [it] points to, which keeps its key *)
Definition set_write (it : option A) (r : range A) (l : list (range A)) : list (range A) :=
  match it with
  | Some k => map (λ x, if addr_eq (start x) k then r else x) l
  | None => l
  end.

Definition same_iterator (i j : option A) : bool :=
  match i, j with
  | Some a, Some b => addr_eq a b
  | None, None => true
  | _, _ => false
  end.

(** [filter_impl()] *)
Definition filter_impl : list (range A) := [Range zero 0].

(** the first half of [add_rule]: the elements from [i] to [j] become one that
    starts at [first], unless the element before has the same flags already *)
Definition rule_start (first : A) (flags : Z) (i j : option A) (l : list (range A))
    : option (list (range A)) :=
  ri ← set_deref i l;
  let first_access := range_access ri in
  '(i, first_access, l) ←
    (if negb (addr_eq (start ri) first) && negb (first_access =? flags) then
       Some (Some first, first_access, set_insert (Range first flags) l)
     else if negb (same_iterator i (begin_of l)) then
       pi ← set_prev i l;
       rp ← set_deref pi l;
       if range_access rp =? flags then Some (pi, range_access rp, l)
       else Some (i, first_access, l)
     else Some (i, first_access, l));
  l ← (if negb (same_iterator i j) then n ← set_next i l; Some (set_erase n j l) else Some l);
  ri ← set_deref i l;
  Some (if addr_eq (start ri) first then set_write i (Range first flags) l
        else if negb (first_access =? flags) then set_insert (Range first flags) l
        else l).

(** the second half: the element after the range *)
Definition rule_end (last : A) (flags last_access : Z) (j : option A) (l : list (range A))
    : option (list (range A)) :=
  beyond ← match j with
           | Some _ => rj ← set_deref j l; Some (negb (addr_eq (minus_one (start rj)) last))
           | None => Some (negb (addr_eq last max_addr))
           end;
  let '(j, l) :=
    if (beyond : bool) && negb (last_access =? flags) then
      (Some (plus_one last), set_insert (Range (plus_one last) last_access) l)
    else (j, l) in
  match j with
  | Some _ =>
      rj ← set_deref j l;
      if range_access rj =? flags then
        n ← set_next j l;
        Some (set_erase j n l)
      else Some l
  | None => Some l
  end.

Definition add_rule (first last : A) (flags : Z) (l : list (range A)) : option (list (range A)) :=
  let i := upper_bound first l in
  let j := upper_bound last l in
  i ← (if negb (same_iterator i (begin_of l)) then set_prev i l else Some i);
  pj ← set_prev j l;
  rj ← set_deref pj l;
  let last_access := range_access rj in
  l ← rule_start first flags i j l;
  rule_end last flags last_access j l.

(** [filter_impl::access] *)
Definition access (addr : A) (l : list (range A)) : option Z :=
  let i := upper_bound addr l in
  i ← (if negb (same_iterator i (begin_of l)) then set_prev i l else Some i);
  r ← set_deref i l;
  Some (range_access r).

Fixpoint export_filter (l : list (range A)) : list (ip_range A) :=
  match l with
  | [] => []
  | r :: l =>
      IpRange (start r)
        (match l with [] => max_addr | n :: _ => minus_one (start n) end)
        (range_access r) :: export_filter l
  end.
End filter.

(** ** [ip_filter] and [port_filter] *)

Inductive address :=
| address_v4 (b : bytes 4)
| address_v6 (b : bytes 16).

Record ip_filter := IpFilter {
  m_filter4 : list (range (bytes 4));
  m_filter6 : list (range (bytes 16))
}.

Definition new_ip_filter : ip_filter := IpFilter filter_impl filter_impl.

(** both ends are of one kind, or the conversion of [last] throws *)
Definition ip_add_rule (first last : address) (flags : Z) (f : ip_filter) : option ip_filter :=
  match first, last with
  | address_v4 a, address_v4 b =>
      l ← add_rule (A := bytes 4) a b flags (m_filter4 f); Some (IpFilter l (m_filter6 f))
  | address_v6 a, address_v6 b =>
      l ← add_rule (A := bytes 16) a b flags (m_filter6 f); Some (IpFilter (m_filter4 f) l)
  | _, _ => None
  end.

Definition ip_access (a : address) (f : ip_filter) : option Z :=
  match a with
  | address_v4 b => access (A := bytes 4) b (m_filter4 f)
  | address_v6 b => access (A := bytes 16) b (m_filter6 f)
  end.

Definition ip_export_filter (f : ip_filter) : list (ip_range (bytes 4)) * list (ip_range (bytes 16)) :=
  (export_filter (m_filter4 f), export_filter (m_filter6 f)).

Definition port_filter : Type := list (range uint16).

Definition port_add_rule (first last : uint16) (flags : Z) (f : port_filter) : option port_filter :=
  add_rule first last flags f.

Definition port_access (port : uint16) (f : port_filter) : option Z := access port f.
