(* ===== verification/IpFilterCorrect.v ===== *)
(** [filter_impl] keeps its list of ranges canonical, and [add_rule] changes the
    flags of exactly the addresses of its range.

    [AddressOk] states what the filter relies on: addresses are the numbers from
    0 to a largest one, ordered as numbers. *)

From S2P Require Import Prelude.
From S2P Require Import IpFilter.
From stdpp Require Import list sorting.

Open Scope Z_scope.

Class AddressOk (A : Type) `{Address A} := {
  valid : A → Prop;
  num : A → Z;
  num_max : Z;
  num_lt a b : valid a → valid b → addr_lt a b = (num a <? num b);
  num_eq a b : valid a → valid b → addr_eq a b = (num a =? num b);
  num_inj a b : valid a → valid b → num a = num b → a = b;
  num_range a : valid a → 0 ≤ num a ≤ num_max;
  zero_ok : valid zero ∧ num zero = 0;
  max_ok : valid max_addr ∧ num max_addr = num_max;
  plus_ok a : valid a → num a < num_max → valid (plus_one a) ∧ num (plus_one a) = num a + 1;
  minus_ok a : valid a → 0 < num a → valid (minus_one a) ∧ num (minus_one a) = num a - 1
}.

(** ** Ports and bytes *)

#[export] Program Instance port_address_ok : AddressOk uint16 := {
  valid a := 0 ≤ a < 2 ^ 16;
  num a := a;
  num_max := 2 ^ 16 - 1
}.
Solve Obligations with first [done | intros; cbn in *; lia | intros; cbn in *; rewrite Z.mod_small by lia; lia].

(** the number that bytes stand for *)
Fixpoint number (a : list Z) : Z :=
  match a with [] => 0 | x :: a => x * 256 ^ Z.of_nat (length a) + number a end.

Definition is_byte (x : Z) : Prop := 0 ≤ x < 256.

Lemma pow256_pos n : 0 < 256 ^ Z.of_nat n.
Proof. apply Z.pow_pos_nonneg; lia. Qed.

Lemma pow256_S n : 256 ^ Z.of_nat (S n) = 256 * 256 ^ Z.of_nat n.
Proof. rewrite Nat2Z.inj_succ, Z.pow_succ_r by lia. done. Qed.

Lemma number_range a : Forall is_byte a → 0 ≤ number a < 256 ^ Z.of_nat (length a).
Proof.
  induction 1 as [|x a Hx Ha IH]; [done|]. unfold is_byte in Hx. cbn [number length].
  pose proof (pow256_pos (length a)). rewrite pow256_S. nia.
Qed.

Lemma number_lt a b :
  Forall is_byte a → Forall is_byte b → length a = length b → bytes_lt a b = (number a <? number b).
Proof.
  intros Ha. revert b. induction Ha as [|x a Hx Ha IH]; intros [|y b]; try done.
  intros [Hy Hb]%Forall_cons [= Hl]. cbn [bytes_lt number]. rewrite Hl.
  pose proof (number_range a Ha) as Hr. pose proof (number_range b Hb). rewrite Hl in Hr.
  pose proof (pow256_pos (length b)). symmetry.
  destruct (Z.ltb_spec x y); [apply Z.ltb_lt; nia|]. destruct (Z.ltb_spec y x); [apply Z.ltb_ge; nia|].
  assert (x = y) as -> by lia. rewrite (IH b Hb Hl).
  destruct (Z.ltb_spec (number a) (number b)); [apply Z.ltb_lt; lia|apply Z.ltb_ge; lia].
Qed.

Lemma number_inj a b :
  Forall is_byte a → Forall is_byte b → length a = length b → number a = number b → a = b.
Proof.
  intros Ha. revert b. induction Ha as [|x a Hx Ha IH]; intros [|y b]; try done.
  intros [Hy Hb]%Forall_cons [= Hl]. cbn [number]. rewrite Hl. intros Hn.
  pose proof (number_range a Ha) as Hr. pose proof (number_range b Hb). rewrite Hl in Hr.
  assert (x = y) as -> by nia. f_equal. apply IH; [done|done|lia].
Qed.

Lemma bytes_eq_spec a b : bytes_eq a b = true ↔ a = b.
Proof.
  revert b. induction a as [|x a IH]; intros [|y b]; cbn; try done.
  rewrite andb_true_iff, Z.eqb_eq, IH. split; [by intros [-> ->]|by intros [= -> ->]].
Qed.

Lemma plus_one_loop_spec a :
  Forall is_byte a →
  Forall is_byte (plus_one_loop a).1 ∧ length (plus_one_loop a).1 = length a ∧
  number a + 1 = number (plus_one_loop a).1 +
    Z.b2z (plus_one_loop a).2 * 256 ^ Z.of_nat (length a).
Proof.
  induction 1 as [|x a Hx Ha (IH1 & IH2 & IH3)]; [done|]. cbn [plus_one_loop].
  destruct (plus_one_loop a) as [a' go]. cbn [fst snd] in *. unfold is_byte in *.
  destruct go; cbn [negb Z.b2z] in *.
  - destruct (Z.ltb_spec x 255); cbn [fst snd Z.b2z length number]; rewrite ?IH2, ?pow256_S;
      (split; [constructor; [lia|done]|split; [done|nia]]).
  - cbn [fst snd Z.b2z length number]. rewrite IH2, pow256_S.
    split; [by constructor|split; [done|nia]].
Qed.

Lemma minus_one_loop_spec a :
  Forall is_byte a →
  Forall is_byte (minus_one_loop a).1 ∧ length (minus_one_loop a).1 = length a ∧
  number a - 1 = number (minus_one_loop a).1 -
    Z.b2z (minus_one_loop a).2 * 256 ^ Z.of_nat (length a).
Proof.
  induction 1 as [|x a Hx Ha (IH1 & IH2 & IH3)]; [done|]. cbn [minus_one_loop].
  destruct (minus_one_loop a) as [a' go]. cbn [fst snd] in *. unfold is_byte in *.
  destruct go; cbn [negb Z.b2z] in *.
  - destruct (Z.ltb_spec 0 x); cbn [fst snd Z.b2z length number]; rewrite ?IH2, ?pow256_S;
      (split; [constructor; [lia|done]|split; [done|nia]]).
  - cbn [fst snd Z.b2z length number]. rewrite IH2, pow256_S.
    split; [by constructor|split; [done|nia]].
Qed.

Lemma number_replicate n x : number (replicate n x) * 255 = x * (256 ^ Z.of_nat n - 1).
Proof.
  induction n as [|n IH]; [cbn; lia|]. cbn [replicate number]. rewrite length_replicate, pow256_S. nia.
Qed.

Definition valid_bytes (n : nat) (a : list Z) : Prop := length a = n ∧ Forall is_byte a.

#[local] Obligation Tactic := idtac.

#[export] Program Instance bytes_address_ok (n : nat) : AddressOk (bytes n) := {
  valid := valid_bytes n;
  num := number;
  num_max := 256 ^ Z.of_nat n - 1
}.
Next Obligation. intros n a b [Hl Ha] [Hl' Hb]. apply number_lt; congruence. Qed.
Next Obligation.
  intros n a b [Hl Ha] [Hl' Hb]. cbn. destruct (Z.eqb_spec (number a) (number b)) as [He|He].
  - apply bytes_eq_spec. apply number_inj; congruence.
  - apply not_true_iff_false. intros ->%bytes_eq_spec. done.
Qed.
Next Obligation. intros n a b [Hl Ha] [Hl' Hb]. apply number_inj; congruence. Qed.
Next Obligation. intros n a [Hl Ha]. cbn. pose proof (number_range a Ha). rewrite Hl in *. lia. Qed.
Next Obligation.
  intros n. cbn. split; [split; [apply length_replicate|by apply Forall_replicate]|].
  pose proof (number_replicate n 0). lia.
Qed.
Next Obligation.
  intros n. cbn. split; [split; [apply length_replicate|by apply Forall_replicate]|].
  pose proof (number_replicate n 255). lia.
Qed.
Next Obligation.
  intros n a [Hl Ha] Hn. cbn in *. destruct (plus_one_loop_spec a Ha) as (H1 & H2 & H3).
  rewrite Hl in *. split; [by split|]. pose proof (number_range _ H1). rewrite H2 in *.
  destruct (plus_one_loop a).2; cbn [Z.b2z] in H3; lia.
Qed.
Next Obligation.
  intros n a [Hl Ha] Hn. cbn in *. destruct (minus_one_loop_spec a Ha) as (H1 & H2 & H3).
  rewrite Hl in *. split; [by split|]. pose proof (number_range _ H1). rewrite H2 in *.
  destruct (minus_one_loop a).2; cbn [Z.b2z] in H3; lia.
Qed.

Section filter.
Context {A : Type} `{AddressOk A}.
Implicit Types (l X Y : list (range A)) (r : range A).

(** ** Lists of ranges in order *)

Definition before (r r' : range A) : Prop := num (start r) < num (start r').

Record in_order (l : list (range A)) : Prop := {
  io_valid : ∀ r, r ∈ l → valid (start r);
  io_sorted : StronglySorted before l
}.

Lemma in_order_app X Y :
  in_order (X ++ Y) ↔ in_order X ∧ in_order Y ∧ ∀ x y, x ∈ X → y ∈ Y → before x y.
Proof.
  split.
  - intros [Hv Hs]. apply StronglySorted_app in Hs as (Hxy & Hx & Hy).
    split; [split; [intros; apply Hv, elem_of_app; by left|done]|].
    split; [split; [intros; apply Hv, elem_of_app; by right|done]|]. eauto.
  - intros ([Hv1 Hs1] & [Hv2 Hs2] & Hxy). split.
    + intros r [Hr|Hr]%elem_of_app; auto.
    + apply StronglySorted_app. eauto.
Qed.

Lemma in_order_cons r Y :
  in_order (r :: Y) ↔ valid (start r) ∧ in_order Y ∧ ∀ y, y ∈ Y → before r y.
Proof.
  change (r :: Y) with ([r] ++ Y). rewrite in_order_app. split.
  - intros ([Hv _] & HY & Hxy). split; [apply Hv; by left|]. split; [done|]. intros y. apply Hxy. by left.
  - intros (Hv & HY & Hxy). split; [split; [intros x ->%list_elem_of_singleton; done|repeat constructor]|].
    split; [done|]. intros x y ->%list_elem_of_singleton. apply Hxy.
Qed.

(** an element of the list and those around it *)
Lemma in_order_middle X r Y :
  in_order (X ++ r :: Y) ↔ in_order X ∧ valid (start r) ∧ in_order Y ∧
    (∀ x, x ∈ X → before x r) ∧ (∀ y, y ∈ Y → before r y) ∧ (∀ x y, x ∈ X → y ∈ Y → before x y).
Proof.
  rewrite in_order_app, in_order_cons. split.
  - intros (HX & (Hv & HY & Hry) & Hxy). split; [done|]. split; [done|]. split; [done|].
    split; [intros x Hx; apply Hxy; [done|left]|]. split; [done|]. intros x y Hx Hy. apply Hxy; [done|by right].
  - intros (HX & Hv & HY & Hxr & Hry & Hxy). split; [done|]. split; [done|].
    intros x y Hx [->|Hy]%elem_of_cons; auto.
Qed.

Lemma filter_yes (p : range A → bool) X : (∀ x, x ∈ X → p x = true) → filter (λ r, p r = true) X = X.
Proof.
  induction X as [|x X IH]; intros Hp; [done|]. rewrite filter_cons_True by (apply Hp; left).
  f_equal. apply IH. intros. apply Hp. by right.
Qed.

Lemma filter_no (p : range A → bool) X : (∀ x, x ∈ X → p x = false) → filter (λ r, p r = true) X = [].
Proof.
  induction X as [|x X IH]; intros Hp; [done|]. rewrite filter_cons_False by (rewrite Hp by left; done).
  apply IH. intros. apply Hp. by right.
Qed.

Lemma first_such_cons (p : range A → bool) r Y : p r = true → first_such p (r :: Y) = Some (start r).
Proof. intros Hp. unfold first_such. by rewrite filter_cons_True. Qed.

Lemma begin_of_cons r Y : begin_of (r :: Y) = Some (start r).
Proof. by apply first_such_cons. Qed.

Lemma first_such_app (p : range A → bool) X Y :
  (∀ x, x ∈ X → p x = false) → (∀ y, y ∈ Y → p y = true) → first_such p (X ++ Y) = begin_of Y.
Proof.
  intros HX HY. unfold first_such, begin_of. rewrite filter_app, (filter_no p X HX), (filter_yes p Y HY).
  cbn [app]. unfold first_such. by rewrite filter_yes.
Qed.

Lemma upper_bound_app a X Y :
  valid a → in_order (X ++ Y) → (∀ x, x ∈ X → num (start x) ≤ num a) →
  (∀ y, y ∈ Y → num a < num (start y)) → upper_bound a (X ++ Y) = begin_of Y.
Proof.
  intros Ha Ho HX HY. apply in_order_app in Ho as ([HvX _] & [HvY _] & _).
  apply first_such_app; intros r Hr; rewrite num_lt by auto.
  - apply Z.ltb_ge. auto.
  - apply Z.ltb_lt. auto.
Qed.

(** which elements are in front of the first of [Y] *)
Lemma in_front_begin X Y r :
  in_order (X ++ Y) → r ∈ X ++ Y →
  in_front (begin_of Y) r = match Y with [] => true | y :: _ => num (start r) <? num (start y) end.
Proof.
  intros [Hv _] Hr. destruct Y as [|y Y]; [done|]. rewrite begin_of_cons. cbn [in_front].
  apply num_lt; [by apply Hv|]. apply Hv, elem_of_app. right. left.
Qed.

Lemma in_front_left X Y r : in_order (X ++ Y) → r ∈ X → in_front (begin_of Y) r = true.
Proof.
  intros Ho Hr. rewrite (in_front_begin X) by (done || (apply elem_of_app; by left)).
  destruct Y as [|y Y]; [done|]. apply Z.ltb_lt.
  apply in_order_app in Ho as (_ & _ & Hxy). apply Hxy; [done|left].
Qed.

Lemma in_front_right X Y r : in_order (X ++ Y) → r ∈ Y → in_front (begin_of Y) r = false.
Proof.
  intros Ho Hr. rewrite (in_front_begin X) by (done || (apply elem_of_app; by right)).
  destruct Y as [|y Y]; [by apply not_elem_of_nil in Hr|]. apply Z.ltb_ge.
  apply in_order_app in Ho as (_ & HY & _). apply in_order_cons in HY as (_ & _ & Hy).
  apply elem_of_cons in Hr as [->|Hr]; [done|]. specialize (Hy r Hr). unfold before in Hy. lia.
Qed.

Lemma set_prev_begin X x Y :
  in_order (X ++ x :: Y) → set_prev (begin_of Y) (X ++ x :: Y) = Some (Some (start x)).
Proof.
  intros Ho. change (x :: Y) with ([x] ++ Y) in *. rewrite (assoc_L (++)) in *.
  unfold set_prev. rewrite filter_app.
  rewrite filter_yes by (intros r Hr; by apply (in_front_left (X ++ [x]))).
  rewrite filter_no by (intros r Hr; by apply (in_front_right (X ++ [x]))).
  by rewrite app_nil_r, last_snoc.
Qed.

Lemma set_deref_middle X r Y :
  in_order (X ++ r :: Y) → set_deref (Some (start r)) (X ++ r :: Y) = Some r.
Proof.
  intros Ho. apply in_order_middle in Ho as ([HvX _] & Hv & _ & Hxr & _).
  unfold set_deref, at_start. cbn [mbind option_bind].
  assert (Hfind : list_find (λ x, addr_eq (start x) (start r) = true) (X ++ r :: Y) = Some (length X, r)).
  { apply list_find_Some. split; [by apply list_lookup_middle|]. split.
    - rewrite num_eq by done. by apply Z.eqb_eq.
    - intros k x Hk Hlt. rewrite lookup_app_l in Hk by done. apply list_elem_of_lookup_2 in Hk.
      rewrite num_eq by auto. specialize (Hxr x Hk). unfold before in Hxr. rewrite Z.eqb_eq. lia. }
  by rewrite Hfind.
Qed.

Lemma same_begin X Y :
  in_order (X ++ Y) → same_iterator (begin_of Y) (begin_of (X ++ Y)) = match X with [] => true | _ => false end.
Proof.
  intros Ho. destruct X as [|x X].
  - cbn [app] in *. destruct Y as [|y Y]; [done|]. rewrite begin_of_cons. cbn [same_iterator].
    apply in_order_cons in Ho as [Hv _]. rewrite num_eq by done. by apply Z.eqb_eq.
  - rewrite <-app_comm_cons in *. rewrite begin_of_cons. destruct Y as [|y Y]; [done|].
    rewrite begin_of_cons. cbn [same_iterator]. apply in_order_cons in Ho as (Hv & [HvX _] & Hxy).
    assert (Hy : y ∈ X ++ y :: Y) by (apply elem_of_app; right; left).
    rewrite num_eq by auto. specialize (Hxy y Hy). unfold before in Hxy. apply Z.eqb_neq. lia.
Qed.

Lemma set_insert_app r X Y :
  in_order (X ++ r :: Y) → set_insert r (X ++ Y) = X ++ r :: Y.
Proof.
  induction X as [|x X IH]; cbn [app]; intros Ho.
  - destruct Y as [|y Y]; [done|]. cbn [set_insert].
    apply in_order_cons in Ho as (Hv & HY & Hy). apply in_order_cons in HY as (Hvy & _).
    specialize (Hy y ltac:(left)). unfold before in Hy. rewrite !num_lt by done.
    rewrite (proj2 (Z.ltb_ge _ _)), (proj2 (Z.ltb_lt _ _)) by lia. done.
  - cbn [set_insert]. apply in_order_cons in Ho as (Hv & HX & Hx).
    assert (Hr : r ∈ X ++ r :: Y) by (apply elem_of_app; right; left).
    specialize (Hx r Hr). unfold before in Hx. rewrite num_lt by (done || by apply HX).
    rewrite (proj2 (Z.ltb_lt _ _)) by lia. by rewrite IH.
Qed.

Lemma set_erase_app P M J :
  in_order (P ++ M ++ J) → set_erase (begin_of (M ++ J)) (begin_of J) (P ++ M ++ J) = P ++ J.
Proof.
  intros Ho. pose proof Ho as Ho'. rewrite (assoc_L (++)) in Ho'. unfold set_erase.
  rewrite !filter_app.
  rewrite (filter_yes _ P) by (intros r Hr; by rewrite (in_front_left P)).
  rewrite (filter_no _ M).
  2: { intros r Hr. rewrite (in_front_right P) by (done || (apply elem_of_app; by left)).
    rewrite (in_front_left (P ++ M)); [done|done|apply elem_of_app; by right]. }
  rewrite (filter_yes _ J); [done|]. intros r Hr. rewrite (in_front_right (P ++ M) J) by done.
  apply orb_true_r.
Qed.

Lemma set_next_middle X r Y :
  in_order (X ++ r :: Y) → set_next (Some (start r)) (X ++ r :: Y) = Some (begin_of Y).
Proof.
  intros Ho. unfold set_next. cbn [mbind option_bind]. f_equal.
  pose proof Ho as Hm. apply in_order_middle in Hm as (_ & Hv & _ & Hxr & Hry & _).
  change (r :: Y) with ([r] ++ Y) in *. rewrite (assoc_L (++)) in *.
  apply upper_bound_app; [done|done| |done].
  intros x [Hx| ->%list_elem_of_singleton]%elem_of_app; [|done]. specialize (Hxr x Hx). unfold before in Hxr. lia.
Qed.

Lemma set_write_middle X r r' Y :
  in_order (X ++ r :: Y) → set_write (Some (start r)) r' (X ++ r :: Y) = X ++ r' :: Y.
Proof.
  intros Ho. apply in_order_middle in Ho as ([HvX _] & Hv & [HvY _] & Hxr & Hry & _).
  unfold set_write. rewrite map_app. cbn [map]. rewrite num_eq, Z.eqb_refl by done.
  assert (Hid : ∀ l, (∀ x, x ∈ l → valid (start x) ∧ num (start x) ≠ num (start r)) →
    map (λ x, if addr_eq (start x) (start r) then r' else x) l = l).
  { induction l as [|x l IH]; intros Hl; [done|]. cbn [map].
    destruct (Hl x ltac:(left)) as [H1 H2]. rewrite num_eq, (proj2 (Z.eqb_neq _ _)) by done.
    f_equal. apply IH. intros y Hy. apply Hl. by right. }
  rewrite !Hid; [done| |]; intros x Hx; (split; [by auto|]).
  - specialize (Hry x Hx). unfold before in Hry. lia.
  - specialize (Hxr x Hx). unfold before in Hxr. lia.
Qed.

(** ** The flags of an address *)

(** the flags the list gives to address number [a], [d] when it has none *)
Definition look (a : Z) (l : list (range A)) (d : Z) : Z :=
  foldl (λ d r, if num (start r) <=? a then range_access r else d) d l.

Lemma look_app a X Y d : look a (X ++ Y) d = look a Y (look a X d).
Proof. apply foldl_app. Qed.

Lemma look_cons a r Y d : look a (r :: Y) d = look a Y (if num (start r) <=? a then range_access r else d).
Proof. done. Qed.

Lemma look_above a X d : (∀ x, x ∈ X → a < num (start x)) → look a X d = d.
Proof.
  revert d. induction X as [|x X IH]; intros d HX; [done|]. rewrite look_cons.
  rewrite (proj2 (Z.leb_gt _ _)) by (apply HX; left). apply IH. intros y Hy. apply HX. by right.
Qed.

(** the list in two parts, before and after address [a] *)
Lemma split_at a l :
  in_order l → ∃ X Y, l = X ++ Y ∧ (∀ x, x ∈ X → num (start x) ≤ a) ∧ (∀ y, y ∈ Y → a < num (start y)).
Proof.
  induction l as [|r l IH]; intros Ho.
  { exists [], []. split; [done|]. split; intros x []%not_elem_of_nil. }
  apply in_order_cons in Ho as (Hv & Hl & Hr). destruct (decide (num (start r) ≤ a)).
  - destruct (IH Hl) as (X & Y & -> & HX & HY). exists (r :: X), Y. split; [done|]. split; [|done].
    intros x [->|Hx]%elem_of_cons; auto.
  - exists [], (r :: l). split; [done|]. split; [intros x []%not_elem_of_nil|].
    intros y [->|Hy]%elem_of_cons; [lia|]. specialize (Hr y Hy). unfold before in Hr. lia.
Qed.

(** ** The invariant *)

Fixpoint differ (l : list (range A)) : Prop :=
  match l with
  | r :: ((r' :: _) as l) => range_access r ≠ range_access r' ∧ differ l
  | _ => True
  end.

Lemma differ_app X r Y : differ (X ++ r :: Y) ↔ differ (X ++ [r]) ∧ differ (r :: Y).
Proof.
  induction X as [|x [|x' X] IH]; cbn [app] in *.
  - cbn. tauto.
  - change (differ (x :: r :: Y)) with (range_access x ≠ range_access r ∧ differ (r :: Y)).
    cbn. tauto.
  - change (differ (x :: x' :: X ++ r :: Y)) with
      (range_access x ≠ range_access x' ∧ differ (x' :: X ++ r :: Y)).
    change (differ (x :: x' :: X ++ [r])) with
      (range_access x ≠ range_access x' ∧ differ (x' :: X ++ [r])). rewrite IH. tauto.
Qed.

Lemma differ_tail r Y : differ (r :: Y) → differ Y.
Proof. destruct Y; [done|]. by intros [_ H']. Qed.

(** the first range starts at 0, and neighbours have different flags *)
Record canonical (l : list (range A)) : Prop := {
  cn_order : in_order l;
  cn_zero : ∃ r Y, l = r :: Y ∧ num (start r) = 0;
  cn_differ : differ l
}.

Lemma canonical_split a l :
  canonical l → 0 ≤ a →
  ∃ X r Y, l = X ++ r :: Y ∧ (∀ x, x ∈ X ++ [r] → num (start x) ≤ a) ∧ ∀ y, y ∈ Y → a < num (start y).
Proof.
  intros [Ho (r0 & Y0 & -> & Hz) _] Ha. destruct (split_at a _ Ho) as (X & Y & Heq & HX & HY).
  destruct X as [|r X _] using rev_ind.
  - cbn in Heq. subst Y. specialize (HY r0 ltac:(left)). lia.
  - exists X, r, Y. rewrite Heq, <-(assoc_L (++)). done.
Qed.

Lemma filter_impl_canonical : canonical filter_impl.
Proof.
  destruct zero_ok as [Hv Hn]. split.
  - apply in_order_cons. split; [done|]. split; [split; [intros r []%not_elem_of_nil|constructor]|].
    intros y []%not_elem_of_nil.
  - by exists (Range zero 0), [].
  - done.
Qed.

(** ** [access] *)

Lemma look_split a X r Y d :
  (∀ x, x ∈ X ++ [r] → num (start x) ≤ a) → (∀ y, y ∈ Y → a < num (start y)) →
  look a (X ++ r :: Y) d = range_access r.
Proof.
  intros HX HY. rewrite look_app, look_cons. rewrite (proj2 (Z.leb_le _ _)).
  - by apply look_above.
  - apply HX, elem_of_app. right. left.
Qed.

(** [i] of [access] and of [add_rule] *)
Lemma find_range a X r Y :
  valid a → in_order (X ++ r :: Y) → (∀ x, x ∈ X ++ [r] → num (start x) ≤ num a) →
  (∀ y, y ∈ Y → num a < num (start y)) →
  upper_bound a (X ++ r :: Y) = begin_of Y ∧
  (if negb (same_iterator (begin_of Y) (begin_of (X ++ r :: Y)))
   then set_prev (begin_of Y) (X ++ r :: Y) else Some (begin_of Y)) = Some (Some (start r)) ∧
  set_deref (Some (start r)) (X ++ r :: Y) = Some r.
Proof.
  intros Ha Ho HX HY. pose proof Ho as Ho'. change (r :: Y) with ([r] ++ Y) in Ho'.
  rewrite (assoc_L (++)) in Ho'. split; [|split].
  - change (r :: Y) with ([r] ++ Y). rewrite (assoc_L (++)). by apply upper_bound_app.
  - assert (Hs : same_iterator (begin_of Y) (begin_of (X ++ r :: Y)) = false).
    { change (r :: Y) with ([r] ++ Y). rewrite (assoc_L (++)), same_begin by done. by destruct X. }
    rewrite Hs. by apply set_prev_begin.
  - by apply set_deref_middle.
Qed.

Lemma access_look a l :
  canonical l → valid a → access a l = Some (look (num a) l 0).
Proof.
  intros Hc Ha. destruct (canonical_split (num a) l Hc (proj1 (num_range a Ha))) as (X & r & Y & -> & HX & HY).
  destruct (find_range a X r Y Ha (cn_order _ Hc) HX HY) as (H1 & H2 & H3).
  unfold access. rewrite H1, H2. cbn [mbind option_bind]. rewrite H3. cbn [mbind option_bind].
  by rewrite look_split.
Qed.

(** ** [add_rule] *)

(** the elements of [N] are erased *)
Lemma in_order_erase X r N J : in_order (X ++ r :: N ++ J) → in_order (X ++ r :: J).
Proof.
  rewrite !in_order_middle, in_order_app. intros (HX & Hv & (_ & HJ & _) & H1 & H2 & H3).
  split_and!; try done; intros; [apply H2|apply H3]; try done; apply elem_of_app; by right.
Qed.

Lemma erase_between X r N J :
  in_order (X ++ r :: N ++ J) →
  (if negb (same_iterator (Some (start r)) (begin_of J))
   then n ← set_next (Some (start r)) (X ++ r :: N ++ J);
        Some (set_erase n (begin_of J) (X ++ r :: N ++ J))
   else Some (X ++ r :: N ++ J)) = Some (X ++ r :: J).
Proof.
  intros Ho. rewrite set_next_middle by done. cbn [mbind option_bind].
  assert (Hs : same_iterator (Some (start r)) (begin_of J) = false).
  { destruct J as [|y J]; [done|]. rewrite begin_of_cons. cbn [same_iterator].
    apply in_order_middle in Ho as (_ & Hv & [HvY _] & _ & Hry & _).
    assert (Hy : y ∈ N ++ y :: J) by (apply elem_of_app; right; left).
    rewrite num_eq by auto. specialize (Hry y Hy). unfold before in Hry. apply Z.eqb_neq. lia. }
  rewrite Hs. cbn [negb]. f_equal. pose proof (set_erase_app (X ++ [r]) N J) as He.
  rewrite <-!(assoc_L (++)) in He. by apply He.
Qed.

Lemma in_order_flags X r a Y :
  in_order (X ++ r :: Y) → in_order (X ++ Range (start r) a :: Y).
Proof. by rewrite !in_order_middle. Qed.

Section rule.
Context (f t : A) (fl : Z).
Context (Hf : valid f) (Ht : valid t) (Hft : num f ≤ num t).
Context (P : list (range A)) (ri : range A) (M J : list (range A)).
Context (Ho : in_order (P ++ ri :: M ++ J)).
Context (HP : ∀ x, x ∈ P ++ [ri] → num (start x) ≤ num f).
Context (HM : ∀ y, y ∈ M → num f < num (start y) ≤ num t).
Context (HJ : ∀ y, y ∈ J → num t < num (start y)).

(** the first half leaves the elements up to the start of the range, the last of
    which has the new flags *)
Definition started (P0 : list (range A)) (e : range A) : Prop :=
  in_order (P0 ++ e :: J) ∧ range_access e = fl ∧ num (start e) ≤ num f ∧
  (∀ a d, a < num f → look a (P0 ++ [e]) d = look a (P ++ [ri]) d) ∧
  (differ (P ++ [ri]) → differ (P0 ++ [e])) ∧
  (∀ z Y, P ++ [ri] = z :: Y → num (start z) = 0 → ∃ z' Y', P0 ++ [e] = z' :: Y' ∧ num (start z') = 0).

(** a new range can start at [f] *)
Lemma in_order_new : num (start ri) ≠ num f → in_order (P ++ ri :: Range f fl :: M ++ J).
Proof using Hf Ho HP HM HJ Hft.
  intros Hne. pose proof (HP ri ltac:(apply elem_of_app; right; left)) as Hri.
  change (ri :: Range f fl :: M ++ J) with ([ri] ++ Range f fl :: M ++ J).
  rewrite (assoc_L (++)). change (ri :: M ++ J) with ([ri] ++ M ++ J) in Ho.
  rewrite (assoc_L (++)) in Ho. apply in_order_app in Ho as (H1 & H2 & H3).
  apply in_order_middle. split_and!; try done.
  - intros x Hx. unfold before. cbn [start]. apply elem_of_app in Hx as [Hx| ->%list_elem_of_singleton]; [|lia].
    apply in_order_app in H1 as (_ & _ & H1). specialize (H1 x ri Hx ltac:(left)). unfold before in H1. lia.
  - intros y Hy. unfold before. cbn [start]. apply elem_of_app in Hy as [Hy|Hy].
    + specialize (HM y Hy). lia.
    + specialize (HJ y Hy). lia.
Qed.

Lemma range_valid : valid (start ri) ∧ num (start ri) ≤ num f.
Proof using Ho HP.
  split; [by apply in_order_middle in Ho as (_ & ? & _)|].
  apply HP, elem_of_app. right. left.
Qed.

(** the element in front of [ri] *)
Lemma element_before P' rp :
  P = P' ++ [rp] → differ (P ++ [ri]) →
  num (start rp) < num (start ri) ∧ range_access rp ≠ range_access ri ∧ differ (P' ++ [rp]).
Proof using Ho HP f.
  intros -> Hd. apply in_order_app in Ho as (_ & _ & Hb).
  specialize (Hb rp ri ltac:(apply elem_of_app; right; left) ltac:(left)).
  rewrite <-(assoc_L (++)) in Hd. cbn [app] in Hd. apply differ_app in Hd as [Hd1 [Hd2 _]]. done.
Qed.

(** whether [i] can move to the element before *)
Lemma step_back {B} (k1 : range A → option A → option B) (k2 : option B) :
  (if negb (same_iterator (Some (start ri)) (begin_of (P ++ ri :: M ++ J))) then
     pi ← set_prev (Some (start ri)) (P ++ ri :: M ++ J);
     rp ← set_deref pi (P ++ ri :: M ++ J);
     if range_access rp =? fl then k1 rp pi else k2
   else k2) =
  match list.last P with
  | Some rp => if range_access rp =? fl then k1 rp (Some (start rp)) else k2
  | None => k2
  end.
Proof using Ho HP f.
  rewrite <-(begin_of_cons ri (M ++ J)), same_begin by done.
  destruct P as [|rp P' _] using rev_ind; [done|]. rewrite last_snoc.
  rewrite <-(assoc_L (++)) in Ho |- *. cbn [app] in Ho |- *.
  rewrite set_prev_begin by done. cbn [mbind option_bind].
  rewrite set_deref_middle by done. cbn [mbind option_bind]. by destruct P'.
Qed.

(** the range starts inside of [ri] *)
Lemma rule_start_inside :
  differ (P ++ [ri]) → num (start ri) ≠ num f →
  ∃ P0 e, rule_start f fl (Some (start ri)) (begin_of J) (P ++ ri :: M ++ J) = Some (P0 ++ e :: J) ∧
    started P0 e.
Proof using Hf Ho HP HM HJ Hft.
  intros Hd Hne. destruct range_valid as [Hv Hle].
  unfold rule_start. rewrite set_deref_middle by done. cbn [mbind option_bind].
  rewrite num_eq, (proj2 (Z.eqb_neq (num (start ri)) (num f))) by done. cbn [negb andb].
  destruct (Z.eqb_spec (range_access ri) fl) as [Hfl|Hfl]; cbn [negb].
  - rewrite step_back.
    assert (Hno : match list.last P with
                  | Some rp => if range_access rp =? fl
                               then Some (Some (start rp), range_access rp, P ++ ri :: M ++ J)
                               else Some (Some (start ri), range_access ri, P ++ ri :: M ++ J)
                  | None => Some (Some (start ri), range_access ri, P ++ ri :: M ++ J)
                  end = Some (Some (start ri), range_access ri, P ++ ri :: M ++ J)).
    { destruct (list.last P) as [rp|] eqn:Hl; [|done]. apply last_Some in Hl as [P' Hl].
      destruct (element_before P' rp Hl Hd) as (_ & Hx & _). by rewrite (proj2 (Z.eqb_neq _ _)) by congruence. }
    rewrite Hno. cbn [mbind option_bind]. rewrite erase_between by done. cbn [mbind option_bind].
    pose proof (in_order_erase _ _ _ _ Ho) as Ho'. rewrite set_deref_middle by done. cbn [mbind option_bind].
    rewrite num_eq, (proj2 (Z.eqb_neq (num (start ri)) (num f))) by done.
    rewrite (proj2 (Z.eqb_eq (range_access ri) fl)) by done. cbn [negb].
    exists P, ri. split; [done|]. split; [done|]. split_and!; try done. intros z Y Hz Hn. by exists z, Y.
  - pose proof (in_order_new Hne) as Hn. change (ri :: Range f fl :: M ++ J) with ([ri] ++ Range f fl :: M ++ J) in Hn.
    rewrite (assoc_L (++)) in Hn. pose proof (in_order_erase _ _ _ _ Hn) as Hn'.
    assert (Hins : set_insert (Range f fl) (P ++ ri :: M ++ J) = (P ++ [ri]) ++ Range f fl :: M ++ J).
    { rewrite <-(set_insert_app (Range f fl) (P ++ [ri]) (M ++ J) Hn). by rewrite <-(assoc_L (++)). }
    rewrite Hins. cbn [mbind option_bind]. pose proof (erase_between _ _ _ _ Hn) as He.
    cbn [start] in He. rewrite He. cbn [mbind option_bind].
    pose proof (set_deref_middle _ _ _ Hn') as Hde. cbn [start] in Hde. rewrite Hde. cbn [mbind option_bind start].
    rewrite num_eq, Z.eqb_refl by done.
    pose proof (set_write_middle _ _ (Range f fl) _ Hn') as Hw. cbn [start] in Hw. rewrite Hw.
    exists (P ++ [ri]), (Range f fl). split; [done|]. split; [done|]. cbn [start range_access].
    split_and!; [done|lia| | |].
    + intros a d Ha. rewrite !look_app. cbn [look foldl start].
      by rewrite (proj2 (Z.leb_gt (num f) a)) by lia.
    + intros _. rewrite <-(assoc_L (++)). cbn [app]. apply differ_app. split; [done|]. by split.
    + intros z Y Hz Hn0. rewrite Hz. by exists z, (Y ++ [Range f fl]).
Qed.

(** the range starts where [ri] does *)
Lemma rule_start_same :
  differ (P ++ [ri]) → start ri = f →
  ∃ P0 e, rule_start f fl (Some (start ri)) (begin_of J) (P ++ ri :: M ++ J) = Some (P0 ++ e :: J) ∧
    started P0 e.
Proof using Hf Ho HP HM HJ Hft.
  intros Hd Hs. destruct range_valid as [Hv Hle].
  unfold rule_start. rewrite set_deref_middle by done. cbn [mbind option_bind].
  rewrite num_eq, (proj2 (Z.eqb_eq (num (start ri)) (num f))) by (done || by rewrite Hs). cbn [negb andb].
  rewrite step_back.
  assert (Hstay : differ (P ++ [Range f fl]) → ∃ P0 e,
    (l ← (if negb (same_iterator (Some (start ri)) (begin_of J))
          then n ← set_next (Some (start ri)) (P ++ ri :: M ++ J);
               Some (set_erase n (begin_of J) (P ++ ri :: M ++ J))
          else Some (P ++ ri :: M ++ J));
     r ← set_deref (Some (start ri)) l;
     Some (if addr_eq (start r) f then set_write (Some (start ri)) (Range f fl) l
           else if negb (range_access ri =? fl) then set_insert (Range f fl) l else l)) = Some (P0 ++ e :: J) ∧
    started P0 e).
  { intros Hd'. rewrite erase_between by done. cbn [mbind option_bind].
    pose proof (in_order_erase _ _ _ _ Ho) as Ho'. rewrite set_deref_middle by done. cbn [mbind option_bind].
    rewrite num_eq, (proj2 (Z.eqb_eq (num (start ri)) (num f))) by (done || by rewrite Hs).
    rewrite set_write_middle by done. exists P, (Range f fl). split; [done|].
    split; [rewrite <-Hs; by eapply in_order_flags|]. cbn [start range_access]. split_and!; [done|lia| |done|].
    + intros a d Ha. rewrite !look_app. cbn [look foldl start]. rewrite Hs.
      by rewrite (proj2 (Z.leb_gt (num f) a)) by lia.
    + intros z Y Hz Hn0. destruct P as [|p P']; cbn [app] in Hz |- *.
      * injection Hz as <- <-. exists (Range f fl), []. split; [done|]. cbn. by rewrite <-Hs.
      * injection Hz as <- <-. by eexists _, _. }
  destruct (list.last P) as [rp|] eqn:Hl.
  2: { apply last_None in Hl. apply Hstay. by rewrite Hl. }
  apply last_Some in Hl as [P' Hl]. destruct (element_before P' rp Hl Hd) as (Hlt & Hx & Hd').
  destruct (Z.eqb_spec (range_access rp) fl) as [Hfl|Hfl]; cbn [mbind option_bind].
  2: { apply Hstay. rewrite Hl, <-(assoc_L (++)). cbn [app]. apply differ_app. split; [done|]. by split. }
  clear Hstay. rewrite Hl, <-(assoc_L (++)) in Ho |- *. cbn [app] in Ho |- *.
  change (rp :: ri :: M ++ J) with (rp :: (ri :: M) ++ J) in Ho |- *.
  rewrite erase_between by done. cbn [mbind option_bind]. pose proof (in_order_erase _ _ _ _ Ho) as Ho'.
  rewrite set_deref_middle by done. cbn [mbind option_bind].
  assert (Hvp : valid (start rp)) by by apply in_order_middle in Ho as (_ & ? & _).
  rewrite num_eq, (proj2 (Z.eqb_neq (num (start rp)) (num f))) by (done || (rewrite <-Hs; lia)).
  rewrite (proj2 (Z.eqb_eq (range_access rp) fl)) by done. cbn [negb].
  exists P', rp. split; [done|]. split; [done|]. rewrite Hs in Hlt. split_and!; [done|lia| |done|].
  - intros a d Ha. rewrite Hl, !look_app. cbn [look foldl]. rewrite Hs.
    by rewrite (proj2 (Z.leb_gt (num f) a)) by lia.
  - intros z Y Hz Hn0. rewrite Hl in Hz. destruct P' as [|p P'']; cbn [app] in Hz |- *.
    + injection Hz as <- <-. by eexists _, _.
    + injection Hz as <- <-. by eexists _, _.
Qed.
End rule.

(** the last element before address number [a] is [e] *)
Lemma look_last a P e d : (∀ x, x ∈ P ++ [e] → num (start x) ≤ a) → look a (P ++ [e]) d = range_access e.
Proof. intros HP. apply look_split; [done|]. intros y []%not_elem_of_nil. Qed.

Section rule_end.
Context (t : A) (fl la : Z) (P : list (range A)) (e : range A) (J : list (range A)).
Context (Ht : valid t) (Ho : in_order (P ++ e :: J)) (Hfl : range_access e = fl).
Context (HP : ∀ x, x ∈ P ++ [e] → num (start x) ≤ num t).
Context (HJ : ∀ y, y ∈ J → num t < num (start y)).
Context (Hd : differ (P ++ [e])) (HdJ : differ (Range t la :: J)).

(** the second half leaves the list [P ++ [e]] up to the end of the range, and
    gives the addresses after it the flags they had *)
Definition ended (l : list (range A)) : Prop :=
  in_order l ∧ differ l ∧ (∃ Y, l = P ++ e :: Y) ∧
  (∀ a d, a ≤ num t → look a l d = look a (P ++ [e]) d) ∧
  (∀ a d, num t < a ≤ num_max → look a l d = look a J la).

Lemma ended_app Y :
  in_order (P ++ e :: Y) → differ (e :: Y) → (∀ y, y ∈ Y → num t < num (start y)) →
  (∀ a, num t < a ≤ num_max → look a Y fl = look a J la) → ended (P ++ e :: Y).
Proof using Hd HP Hfl.
  intros HoY HdY HY Hl. split; [done|]. split; [by apply differ_app|]. split; [by exists Y|].
  change (e :: Y) with ([e] ++ Y). rewrite (assoc_L (++)). split; intros a d Ha; rewrite look_app.
  - apply look_above. intros y Hy. specialize (HY y Hy). lia.
  - rewrite look_last; [by rewrite Hfl, Hl|]. intros x Hx. specialize (HP x Hx). lia.
Qed.

(** the element after the range that gets the old flags *)
Lemma rule_end_insert :
  num t < num_max → (∀ y, y ∈ J → num t + 1 < num (start y)) → la ≠ fl →
  set_insert (Range (plus_one t) la) (P ++ e :: J) = P ++ e :: Range (plus_one t) la :: J ∧
  in_order (P ++ e :: Range (plus_one t) la :: J) ∧ ended (P ++ e :: Range (plus_one t) la :: J).
Proof using Hd HP Hfl Ho Ht HdJ HJ.
  intros Hm HJ' Hla. destruct (plus_ok t Ht Hm) as [Hv Hn].
  assert (Ho' : in_order (P ++ e :: Range (plus_one t) la :: J)).
  { change (e :: ?Y) with ([e] ++ Y). rewrite (assoc_L (++)). change (e :: J) with ([e] ++ J) in Ho.
    rewrite (assoc_L (++)) in Ho. apply in_order_app in Ho as (H1 & H2 & H3).
    apply in_order_middle. unfold before in *. cbn [start]. rewrite Hn. split_and!; try done.
    intros x Hx. specialize (HP x Hx). lia. }
  split; [|split; [done|]].
  - change (e :: ?Y) with ([e] ++ Y). rewrite !(assoc_L (++)). apply set_insert_app.
    by rewrite <-(assoc_L (++)).
  - apply ended_app; [done| | |].
    + split; [cbn; congruence|]. by destruct J.
    + intros y [->|Hy]%elem_of_cons; [cbn; lia|auto].
    + intros a Ha. rewrite look_cons. cbn [start range_access].
      by rewrite (proj2 (Z.leb_le _ _)) by lia.
Qed.

(** the element after the range is erased when it has the new flags *)
Lemma rule_end_erase y Y :
  in_order (P ++ e :: y :: Y) →
  (rj ← set_deref (Some (start y)) (P ++ e :: y :: Y);
   if range_access rj =? fl then
     n ← set_next (Some (start y)) (P ++ e :: y :: Y);
     Some (set_erase (Some (start y)) n (P ++ e :: y :: Y))
   else Some (P ++ e :: y :: Y)) =
  Some (P ++ e :: if range_access y =? fl then Y else y :: Y).
Proof.
  intros HoY. change (e :: y :: Y) with ([e] ++ y :: Y) in *. rewrite (assoc_L (++)) in *.
  rewrite set_deref_middle by done. cbn [mbind option_bind].
  destruct (range_access y =? fl); [|by rewrite <-(assoc_L (++))].
  rewrite set_next_middle by done. cbn [mbind option_bind]. f_equal.
  pose proof (set_erase_app (P ++ [e]) [y] Y HoY) as He. cbn [app] in He.
  rewrite begin_of_cons in He. by rewrite He, <-(assoc_L (++)).
Qed.

Lemma rule_end_last : J = [] → ∃ l, rule_end t fl la None (P ++ [e]) = Some l ∧ ended l.
Proof using Hd HP Hfl Ho Ht HdJ HJ.
  intros HeJ. destruct max_ok as [Hvm Hm]. pose proof (num_range t Ht) as Hrt. unfold rule_end.
  rewrite num_eq, Hm by done. cbn [mbind option_bind]. pose proof Ho as Ho'. rewrite HeJ in Ho'. 
  destruct (Z.eqb_spec (num t) num_max) as [Htm|Htm]; cbn [negb andb].
  { eexists. split; [done|]. apply ended_app; [done|done|intros y []%not_elem_of_nil|]. intros a Ha. lia. }
  destruct (Z.eqb_spec la fl) as [Hla|Hla]; cbn [negb].
  { eexists. split; [done|]. apply ended_app; [done|done|intros y []%not_elem_of_nil|]. intros a Ha. by rewrite HeJ, Hla. }
  destruct rule_end_insert as (Hi & Hoi & He); [lia|rewrite HeJ; intros y []%not_elem_of_nil|done|].
  pose proof (rule_end_erase (Range (plus_one t) la) J Hoi) as Hr.
  rewrite HeJ in Hi, Hr, He. rewrite Hi. cbn [start] in Hr. rewrite Hr.
  cbn [range_access]. rewrite (proj2 (Z.eqb_neq _ _)) by done. eauto.
Qed.

Lemma rule_end_before y Y :
  J = y :: Y → ∃ l, rule_end t fl la (Some (start y)) (P ++ e :: y :: Y) = Some l ∧ ended l.
Proof using Hd HP Hfl Ho Ht HdJ HJ.
  intros HeJ. pose proof Ho as Hm. pose proof HJ as HJ'. pose proof HdJ as HdJ'. rewrite HeJ in Hm, HJ', HdJ'.
  unfold rule_end. pose proof Hm as Hs. change (e :: y :: Y) with ([e] ++ y :: Y) in Hs. rewrite (assoc_L (++)) in Hs.
  pose proof (set_deref_middle _ _ _ Hs) as Hdr. rewrite <-(assoc_L (++)) in Hdr. cbn [app] in Hdr.
  rewrite Hdr. cbn [mbind option_bind]. apply in_order_middle in Hs as (_ & Hvy & HoY & _ & HyY & _).
  pose proof (HJ' y ltac:(left)) as Hy. pose proof (num_range _ Hvy) as Hry. pose proof (num_range _ Ht) as Hrt.
  destruct (minus_ok (start y) Hvy) as [Hv1 Hn1]; [lia|]. rewrite num_eq, Hn1 by done.
  destruct HdJ' as [Hla HdY]. cbn [range_access] in Hla.
  destruct (negb (num (start y) - 1 =? num t) && negb (la =? fl)) eqn:Hb.
  - apply andb_true_iff in Hb as [Hb1%negb_true_iff%Z.eqb_neq Hb2%negb_true_iff%Z.eqb_neq].
    destruct rule_end_insert as (Hi & Hoi & He); [lia| |done|].
    { rewrite HeJ. intros x [->|Hx]%elem_of_cons; [lia|]. specialize (HyY x Hx). unfold before in HyY. lia. }
    pose proof (rule_end_erase (Range (plus_one t) la) J Hoi) as Hr. rewrite HeJ in Hi, Hr, He.
    rewrite Hi. cbn [start] in Hr. rewrite Hr.
    cbn [range_access]. rewrite (proj2 (Z.eqb_neq _ _)) by done. eauto.
  - rewrite rule_end_erase by done. eexists. split; [done|].
    apply andb_false_iff in Hb.
    destruct (Z.eqb_spec (range_access y) fl) as [Hyf|Hyf].
    + assert (Hgap : num (start y) = num t + 1)
        by (destruct Hb as [Hb%negb_false_iff%Z.eqb_eq|Hb%negb_false_iff%Z.eqb_eq]; [lia|congruence]).
      apply ended_app; [by eapply (in_order_erase _ _ [y])| |intros x Hx; apply HJ'; by right|].
      * destruct Y as [|y' Y']; [done|]. destruct HdY as [HdY1 HdY2]. split; [congruence|done].
      * intros a Ha. by rewrite HeJ, look_cons, (proj2 (Z.leb_le _ _)), Hyf by lia.
    + apply ended_app; [done|split; [congruence|done]|done|].
      intros a Ha. rewrite HeJ, !look_cons. destruct (Z.leb_spec (num (start y)) a); [done|].
      destruct Hb as [Hb%negb_false_iff%Z.eqb_eq|Hb%negb_false_iff%Z.eqb_eq]; [lia|by rewrite Hb].
Qed.

Lemma rule_end_spec : ∃ l, rule_end t fl la (begin_of J) (P ++ e :: J) = Some l ∧ ended l.
Proof using Hd HP Hfl Ho Ht HdJ HJ.
  assert (Hc : ∀ K, K = J → ∃ l, rule_end t fl la (begin_of K) (P ++ e :: K) = Some l ∧ ended l); [|by apply Hc].
  intros [|y Y] HeK; [by apply rule_end_last|]. rewrite begin_of_cons. by apply rule_end_before.
Qed.
End rule_end.

(** the list around the range from [f] to [t] *)
Lemma canonical_around f t l :
  canonical l → valid f → valid t → num f ≤ num t →
  ∃ P ri M J, l = P ++ ri :: M ++ J ∧
    (∀ x, x ∈ P ++ [ri] → num (start x) ≤ num f) ∧
    (∀ y, y ∈ M → num f < num (start y) ≤ num t) ∧
    (∀ y, y ∈ J → num t < num (start y)).
Proof.
  intros Hc Hf Ht Hft.
  destruct (canonical_split (num f) l Hc (proj1 (num_range f Hf))) as (P & ri & Q & -> & HP & HQ).
  pose proof (cn_order _ Hc) as Ho. apply in_order_middle in Ho as (_ & _ & HoQ & _).
  destruct (split_at (num t) Q HoQ) as (M & J & -> & HM & HJ). exists P, ri, M, J.
  split; [done|]. split; [done|]. split; [|done].
  intros y Hy. split; [apply HQ, elem_of_app; by left|by apply HM].
Qed.

(** the last element that starts in the range, or before *)
Lemma last_before t P ri M J :
  in_order (P ++ ri :: M ++ J) → (∀ x, x ∈ P ++ [ri] → num (start x) ≤ num t) →
  (∀ y, y ∈ M → num (start y) ≤ num t) →
  ∃ N re, P ++ ri :: M ++ J = N ++ re :: J ∧ ∀ x, x ∈ N ++ [re] → num (start x) ≤ num t.
Proof.
  intros Ho HP HM. destruct M as [|re M _] using rev_ind; [by exists P, ri|].
  exists (P ++ ri :: M), re. split; [by rewrite <-!(assoc_L (++))|].
  intros x Hx. apply elem_of_app in Hx as [Hx| ->%list_elem_of_singleton].
  - change (ri :: M) with ([ri] ++ M) in Hx. rewrite (assoc_L (++)) in Hx.
    apply elem_of_app in Hx as [Hx|Hx]; [by apply HP|]. apply HM, elem_of_app. by left.
  - apply HM, elem_of_app. right. left.
Qed.

Lemma differ_flags t r Y : differ (r :: Y) → differ (Range t (range_access r) :: Y).
Proof. by destruct Y. Qed.

Lemma started_below f fl P ri J P0 e x :
  started f fl P ri J P0 e → x ∈ P0 ++ [e] → num (start x) ≤ num f.
Proof.
  intros (Ho & _ & He & _) Hx. apply in_order_middle in Ho as (_ & _ & _ & Hb & _).
  apply elem_of_app in Hx as [Hx| ->%list_elem_of_singleton]; [|done].
  specialize (Hb x Hx). unfold before in Hb. lia.
Qed.

(** the flags the filter gives after a rule was added *)
Lemma add_rule_look f t fl l :
  canonical l → valid f → valid t → num f ≤ num t →
  ∃ l', add_rule f t fl l = Some l' ∧ canonical l' ∧
    ∀ a d, 0 ≤ a ≤ num_max →
      look a l' d = if decide (num f ≤ a ≤ num t) then fl else look a l d.
Proof.
  intros Hc Hf Ht Hft. destruct (canonical_around f t l Hc Hf Ht Hft) as (P & ri & M & J & -> & HP & HM & HJ).
  pose proof (cn_order _ Hc) as Ho. pose proof (cn_differ _ Hc) as Hd.
  destruct (last_before t P ri M J Ho) as (N & re & Heq & HN);
    [intros x Hx; specialize (HP x Hx); lia|intros y Hy; specialize (HM y Hy); lia|].
  assert (HMJ : ∀ y, y ∈ M ++ J → num f < num (start y)).
  { intros y [Hy|Hy]%elem_of_app; [by apply HM|specialize (HJ y Hy); lia]. }
  destruct (find_range f P ri (M ++ J) Hf Ho HP HMJ) as (Hi1 & Hi2 & _).
  unfold add_rule. rewrite Hi1, Hi2. cbn [mbind option_bind].
  pose proof Ho as HoN. rewrite Heq in HoN.
  assert (Hj1 : upper_bound t (P ++ ri :: M ++ J) = begin_of J)
    by (rewrite Heq; by apply (find_range t N re J)).
  assert (Hj2 : set_prev (begin_of J) (P ++ ri :: M ++ J) = Some (Some (start re)))
    by (rewrite Heq; by apply set_prev_begin).
  assert (Hj3 : set_deref (Some (start re)) (P ++ ri :: M ++ J) = Some re)
    by (rewrite Heq; by apply set_deref_middle).
  rewrite Hj1, Hj2. cbn [mbind option_bind]. rewrite Hj3. cbn [mbind option_bind].
  pose proof Hd as Hd1. rewrite differ_app in Hd1. destruct Hd1 as [Hd1 _].
  assert (Hst : ∃ P0 e, rule_start f fl (Some (start ri)) (begin_of J) (P ++ ri :: M ++ J) = Some (P0 ++ e :: J) ∧
    started f fl P ri J P0 e).
  { destruct (decide (num (start ri) = num f)) as [Hs|Hs].
    - apply (rule_start_same f t); try done. apply num_inj; [|done|done].
      by apply in_order_middle in Ho as (_ & ? & _).
    - by apply (rule_start_inside f t). }
  destruct Hst as (P0 & e & Hst & Hst2). rewrite Hst. cbn [mbind option_bind].
  pose proof Hst2 as (Ho0 & Hfl & He & Hlow & Hd0 & Hz).
  destruct (rule_end_spec t fl (range_access re) P0 e J) as (l' & Hl' & Hoe & Hde & [Y HY] & Hle & Hgt); try done.
  { intros x Hx. pose proof (started_below _ _ _ _ _ _ _ _ Hst2 Hx). lia. }
  { by apply Hd0. }
  { rewrite Heq in Hd. apply differ_app in Hd as [_ Hd]. by apply differ_flags. }
  exists l'. split; [done|]. split.
  - split; [done| |done]. destruct (cn_zero _ Hc) as (z & Z & Hl0 & Hn0).
    destruct (Hz z (match P with [] => [] | _ :: P => P ++ [ri] end)) as (z' & Z' & Hz1 & Hz2);
      [destruct P; by injection Hl0 as <- _|done|].
    exists z', (Z' ++ Y). split; [|done]. rewrite HY. change (e :: Y) with ([e] ++ Y).
    by rewrite (assoc_L (++)), Hz1.
  - intros a d Ha. destruct (decide _) as [Hin|Hout].
    + rewrite Hle by lia. rewrite look_last; [done|]. intros x Hx.
      pose proof (started_below _ _ _ _ _ _ _ _ Hst2 Hx). lia.
    + destruct (decide (a < num f)) as [Hlo|Hhi].
      * rewrite Hle, Hlow by lia. change (ri :: M ++ J) with ([ri] ++ M ++ J).
        rewrite (assoc_L (++) P), (look_app a (P ++ [ri])), (look_above a (M ++ J)); [done|].
        intros y Hy. specialize (HMJ y Hy). lia.
      * rewrite Hgt by lia. rewrite Heq. change (re :: J) with ([re] ++ J).
        rewrite (assoc_L (++) N), (look_app a (N ++ [re])), (look_last a N re); [done|].
        intros x Hx. specialize (HN x Hx). lia.
Qed.
End filter.
