(* ===== verification/IpFilterProperties.v ===== *)
(** Properties of [ip_filter] and [port_filter]: a rule changes the flags of the
    addresses of its range and of no other, the rules added last win, and the
    exported list is the shortest that describes the filter. *)

From S2P Require Import Prelude.
From stdpp Require Import list.
From S2P Require Import IpFilter.
From S2P Require Import IpFilterCorrect.

Open Scope Z_scope.

(** ** The exported ranges *)

Section export.
Context {A : Type} `{AddressOk A}.
Implicit Types (l Y : list (range A)) (r : range A).

(** the ranges follow each other from address number [lo] to the last address *)
Fixpoint tiles (lo : Z) (ps : list (ip_range A)) : Prop :=
  match ps with
  | [] => lo = num_max + 1
  | p :: ps =>
      valid (first p) ∧ valid (last p) ∧ num (first p) = lo ∧ num (first p) ≤ num (last p) ∧
      tiles (num (last p) + 1) ps
  end.

(** neighbours have different flags *)
Fixpoint flags_differ (ps : list (ip_range A)) : Prop :=
  match ps with
  | p :: ((q :: _) as ps) => flags p ≠ flags q ∧ flags_differ ps
  | _ => True
  end.

Lemma export_cons r l :
  export_filter (r :: l) =
  IpRange (start r) (match l with [] => max_addr | n :: _ => minus_one (start n) end) (range_access r)
    :: export_filter l.
Proof. done. Qed.

(** the end of the first exported range *)
Lemma export_end r Y :
  in_order (r :: Y) →
  let e := match Y with [] => max_addr | n :: _ => minus_one (start n) end in
  valid e ∧ num (start r) ≤ num e ∧
  num e + 1 = match Y with [] => num_max + 1 | n :: _ => num (start n) end.
Proof.
  intros Ho. apply in_order_cons in Ho as (Hv & [HvY _] & Hb). pose proof (num_range _ Hv).
  destruct max_ok as [Hvm Hm]. destruct Y as [|n Y]; cbn; [rewrite Hm; split_and!; [done|lia|done]|].
  specialize (Hb n ltac:(left)). unfold before in Hb.
  destruct (minus_ok (start n) (HvY n ltac:(left)) ltac:(lia)) as [Hv1 Hn1]. rewrite Hn1.
  split_and!; [done|lia|lia].
Qed.

Lemma export_tiles l :
  in_order l → tiles (match l with [] => num_max + 1 | r :: _ => num (start r) end) (export_filter l).
Proof.
  induction l as [|r l IH]; intros Ho; [done|]. rewrite export_cons. cbn [tiles first last].
  destruct (export_end r l Ho) as (He1 & He2 & He3). apply in_order_cons in Ho as (Hv & Hl & _).
  rewrite He3. split_and!; try done. by apply IH.
Qed.

Lemma export_differ l : differ l → flags_differ (export_filter l).
Proof. induction l as [|r [|r' l] IH]; [done|done|]. intros [Hx Hd]. split; [done|by apply IH]. Qed.

(** an exported range tells the flags of its addresses *)
Lemma export_look a d l p :
  in_order l → p ∈ export_filter l → num (first p) ≤ a ≤ num (last p) → look a l d = flags p.
Proof.
  revert d. induction l as [|r l IH]; intros d Ho Hp Ha; [by apply not_elem_of_nil in Hp|].
  pose proof (export_end r l Ho) as (_ & _ & He). pose proof Ho as Ho'.
  apply in_order_cons in Ho' as (_ & Hl & Hb).
  rewrite export_cons in Hp. apply elem_of_cons in Hp as [->|Hp].
  - cbn [first last flags] in *. rewrite look_cons, (proj2 (Z.leb_le _ _)) by lia. apply look_above.
    intros y Hy. destruct l as [|n l]; [by apply not_elem_of_nil in Hy|].
    apply in_order_cons in Hl as (_ & _ & Hn). apply elem_of_cons in Hy as [->|Hy]; [lia|].
    specialize (Hn y Hy). unfold before in Hn. lia.
  - rewrite look_cons. by apply IH.
Qed.

(** the flags at the start of an element *)
Lemma look_at r Y d : in_order (r :: Y) → look (num (start r)) (r :: Y) d = range_access r.
Proof.
  intros Ho. apply (look_split _ []).
  - intros x ->%list_elem_of_singleton. done.
  - intros y Hy. apply in_order_cons in Ho as (_ & _ & Hb). by apply Hb.
Qed.

(** the flags before the second element *)
Lemma look_before r Y a d :
  in_order (r :: Y) → num (start r) ≤ a → match Y with [] => True | y :: _ => a < num (start y) end →
  look a (r :: Y) d = range_access r.
Proof.
  intros Ho Hr Hy. apply (look_split _ []).
  - intros x ->%list_elem_of_singleton. done.
  - intros x Hx. apply in_order_cons in Ho as (_ & Ho & _). destruct Y as [|y Y]; [by apply not_elem_of_nil in Hx|].
    apply in_order_cons in Ho as (_ & _ & Hb). apply elem_of_cons in Hx as [->|Hx]; [done|].
    specialize (Hb x Hx). unfold before in Hb. lia.
Qed.

(** two lists with the same flags do not end at different places *)
Lemma look_second r Y r' Y' :
  in_order (r :: Y) → in_order (r' :: Y') → differ (r :: Y) → num (start r) = num (start r') →
  range_access r = range_access r' →
  (∀ a, num (start r) ≤ a ≤ num_max → look a (r :: Y) 0 = look a (r' :: Y') 0) →
  match Y, Y' with
  | [], _ => True
  | _ :: _, [] => False
  | y :: _, y' :: _ => num (start y') ≤ num (start y)
  end.
Proof.
  intros Ho Ho' Hd Hs Hr Hl. destruct Y as [|y Y]; [done|].
  pose proof Ho as (Hv & Hoy & Hb)%in_order_cons. specialize (Hb y ltac:(left)). unfold before in Hb.
  pose proof Hoy as (Hvy & _)%in_order_cons. pose proof (num_range _ Hvy). destruct Hd as [Hd _].
  assert (Hin : num (start r) ≤ num (start y) ≤ num_max) by lia. specialize (Hl _ Hin). rewrite look_cons, look_at in Hl by done.
  destruct Y' as [|y' Y']; [|destruct (decide (num (start y') ≤ num (start y))); [done|]].
  - rewrite look_before in Hl by (done || lia). congruence.
  - rewrite look_before in Hl by (done || lia). congruence.
Qed.

(** a list is known by its flags *)
Lemma look_unique r Y r' Y' :
  in_order (r :: Y) → in_order (r' :: Y') → differ (r :: Y) → differ (r' :: Y') →
  num (start r) = num (start r') →
  (∀ a, num (start r) ≤ a ≤ num_max → look a (r :: Y) 0 = look a (r' :: Y') 0) →
  r :: Y = r' :: Y'.
Proof.
  revert r r' Y'. induction Y as [|y Y IH]; intros r r' Y' Ho Ho' Hd Hd' Hs Hl;
    pose proof Ho as (Hv & Hoy & Hb)%in_order_cons; pose proof Ho' as (Hv' & Hoy' & Hb')%in_order_cons;
    pose proof (num_range _ Hv);
    (assert (Hr : range_access r = range_access r')
      by (rewrite <-(look_at r _ 0 Ho), <-(look_at r' _ 0 Ho'), <-Hs; apply Hl; lia));
    (assert (r = r') as <-
      by (destruct r, r'; cbn in *; f_equal; [by apply num_inj|done]));
    pose proof (look_second _ _ _ _ Ho Ho' Hd eq_refl eq_refl Hl) as Hle1;
    (pose proof (look_second _ _ _ _ Ho' Ho Hd' eq_refl eq_refl (λ a Ha, eq_sym (Hl a Ha))) as Hle2).
  - by destruct Y'.
  - destruct Y' as [|y' Y']; [done|]. f_equal. apply IH; try done; [by eapply differ_tail..|lia|].
    intros a Ha. specialize (Hl a). specialize (Hb y ltac:(left)). unfold before in Hb.
    rewrite !(look_cons a r) in Hl. pose proof (num_range _ (io_valid _ Hoy y ltac:(left))).
    rewrite !(look_cons a y), !(look_cons a y') in *.
    rewrite !(proj2 (Z.leb_le _ _)) in * by lia. apply Hl. lia.
Qed.
End export.

(** ** The filter as a function from addresses to flags *)

Section filter.
Context {A : Type} `{AddressOk A}.
Implicit Types (l : list (range A)).

(** every number up to the largest is an address *)
Lemma every_number n : 0 ≤ n → n ≤ num_max → ∃ a, valid a ∧ num a = n.
Proof.
  revert n. apply (natlike_ind (λ n, n ≤ num_max → ∃ a, valid a ∧ num a = n)).
  - intros _. destruct zero_ok. by exists zero.
  - intros n Hn IH Hm. destruct IH as (a & Ha & He); [lia|].
    destruct (plus_ok a Ha) as [Hv Hp]; [lia|]. exists (plus_one a). split; [done|lia].
Qed.

Lemma access_unique l l' :
  canonical l → canonical l' → (∀ a, valid a → access a l = access a l') → l = l'.
Proof.
  intros Hc Hc' Hl. pose proof (cn_zero _ Hc) as (r & Y & -> & Hz).
  pose proof (cn_zero _ Hc') as (r' & Y' & -> & Hz').
  apply look_unique; try apply cn_order; try apply cn_differ; try done; [lia|].
  intros n Hn. rewrite Hz in Hn. destruct (every_number n) as (a & Ha & <-); [lia|lia|].
  specialize (Hl a Ha). rewrite !access_look in Hl by done. by injection Hl.
Qed.

(** C16: on a filter that is in its canonical form - ranges in order from address
    0 on, neighbours with different flags - [add_rule] never dereferences or steps
    past an end of the set: it returns a filter, again in canonical form, in which
    the addresses from [first] to [last] have the flags of the rule, and
    every other address has the flags it had. *)
Theorem add_rule_correct (f t : A) (fl : Z) l :
  canonical l → valid f → valid t → num f ≤ num t →
  ∃ l', add_rule f t fl l = Some l' ∧ canonical l' ∧
    ∀ a, valid a → access a l' = (if decide (num f ≤ num a ≤ num t) then Some fl else access a l) ∧
      is_Some (access a l').
Proof.
  intros Hc Hf Ht Hft. destruct (add_rule_look f t fl l Hc Hf Ht Hft) as (l' & Hl' & Hc' & Hlook).
  exists l'. split; [done|]. split; [done|]. intros a Ha. rewrite !access_look by done.
  rewrite Hlook by (by apply num_range). split; [by destruct (decide _)|done].
Qed.

(** the exported ranges of a canonical filter follow each other without gap or overlap
    from the first address to the last, neighbours differ in their flags, each
    has the flags [access] gives for its addresses, and two filters that give
    every address the same flags export the same list. *)
Theorem export_filter_correct l :
  canonical l →
  tiles 0 (export_filter l) ∧ flags_differ (export_filter l) ∧
  (∀ a p, valid a → p ∈ export_filter l → num (first p) ≤ num a ≤ num (last p) →
    access a l = Some (flags p)) ∧
  ∀ l', canonical l' → (∀ a, valid a → access a l = access a l') → export_filter l = export_filter l'.
Proof.
  intros Hc. split_and!.
  - pose proof (export_tiles l (cn_order _ Hc)) as Ht. by destruct (cn_zero _ Hc) as (r & Y & -> & <-).
  - apply export_differ, cn_differ, Hc.
  - intros a p Ha Hp Hr. rewrite access_look by done. f_equal. by apply export_look; [apply cn_order| |].
  - intros l' Hc' Hl. f_equal. by apply access_unique.
Qed.
End filter.

(** ** [ip_filter] *)

Definition valid_address (a : address) : Prop :=
  match a with address_v4 b => valid (A := bytes 4) b | address_v6 b => valid (A := bytes 16) b end.

(** [a] is between [f] and [t], which are of its kind *)
Definition between (f t a : address) : bool :=
  match f, t, a with
  | address_v4 f, address_v4 t, address_v4 a => (number f <=? number a) && (number a <=? number t)
  | address_v6 f, address_v6 t, address_v6 a => (number f <=? number a) && (number a <=? number t)
  | _, _, _ => false
  end.

Record rule := Rule { rule_first : address; rule_last : address; rule_flags : Z }.

Definition valid_rule (r : rule) : Prop :=
  valid_address (rule_first r) ∧ valid_address (rule_last r) ∧
  between (rule_first r) (rule_last r) (rule_first r) = true.

(** the rules, one after the other *)
Fixpoint add_rules (rs : list rule) (f : ip_filter) : option ip_filter :=
  match rs with
  | [] => Some f
  | r :: rs => f ← ip_add_rule (rule_first r) (rule_last r) (rule_flags r) f; add_rules rs f
  end.

(** the flags of the last rule for [a] *)
Definition last_rule (a : address) (rs : list rule) (d : Z) : Z :=
  foldl (λ d r, if between (rule_first r) (rule_last r) a then rule_flags r else d) d rs.

Record canonical_filter (f : ip_filter) : Prop := {
  canonical4 : canonical (A := bytes 4) (m_filter4 f);
  canonical6 : canonical (A := bytes 16) (m_filter6 f)
}.

Lemma ip_access_some f a : canonical_filter f → valid_address a → ∃ x, ip_access a f = Some x.
Proof.
  intros [H4 H6]. destruct a as [b|b]; intros Hb; cbn [ip_access valid_address] in *;
    rewrite access_look by done; eauto.
Qed.

Lemma ip_add_rule_access r f :
  canonical_filter f → valid_rule r →
  ∃ f', ip_add_rule (rule_first r) (rule_last r) (rule_flags r) f = Some f' ∧ canonical_filter f' ∧
    ∀ a, valid_address a → ip_access a f' =
      if between (rule_first r) (rule_last r) a then Some (rule_flags r) else ip_access a f.
Proof.
  destruct r as [[x|x] [y|y] fl]; intros [H4 H6] (Hx & Hy & Hb); cbn in Hb; try done;
    apply andb_true_iff in Hb as [_ Hb%Z.leb_le]; cbn [ip_add_rule rule_first rule_last rule_flags].
  - destruct (add_rule_look (A := bytes 4) x y fl _ H4 Hx Hy Hb) as (l & Hl & Hc & Hlook). rewrite Hl.
    eexists. split; [done|]. split; [by split|]. intros [a|a] Ha; [|done]. cbn [ip_access between m_filter4].
    rewrite !access_look by done. rewrite Hlook by (by apply (num_range (A := bytes 4))).
    destruct (decide _) as [Hd|Hd]; cbn in Hd.
    + by rewrite !(proj2 (Z.leb_le _ _)) by lia.
    + destruct (Z.leb_spec (number x) (number a)), (Z.leb_spec (number a) (number y)); try done. lia.
  - destruct (add_rule_look (A := bytes 16) x y fl _ H6 Hx Hy Hb) as (l & Hl & Hc & Hlook). rewrite Hl.
    eexists. split; [done|]. split; [by split|]. intros [a|a] Ha; [done|]. cbn [ip_access between m_filter6].
    rewrite !access_look by done. rewrite Hlook by (by apply (num_range (A := bytes 16))).
    destruct (decide _) as [Hd|Hd]; cbn in Hd.
    + by rewrite !(proj2 (Z.leb_le _ _)) by lia.
    + destruct (Z.leb_spec (number x) (number a)), (Z.leb_spec (number a) (number y)); try done. lia.
Qed.

Lemma add_rules_access rs f :
  canonical_filter f → Forall valid_rule rs →
  ∃ f', add_rules rs f = Some f' ∧ canonical_filter f' ∧
    ∀ a x, valid_address a → ip_access a f = Some x → ip_access a f' = Some (last_rule a rs x).
Proof.
  intros Hf Hrs. revert f Hf. induction Hrs as [|r rs Hr Hrs IH]; intros f Hf; [by exists f|].
  destruct (ip_add_rule_access r f Hf Hr) as (f1 & Hf1 & Hc1 & Ha1).
  destruct (IH f1 Hc1) as (f' & Hf' & Hc' & Ha'). exists f'. cbn [add_rules]. rewrite Hf1.
  split; [done|]. split; [done|]. intros a x Ha Hx. apply Ha'; [done|]. rewrite Ha1 by done.
  by destruct (between _ _ a).
Qed.

Lemma new_ip_filter_canonical : canonical_filter new_ip_filter.
Proof. split; apply filter_impl_canonical. Qed.

(** C17: after any sequence of rules was added to a new [ip_filter], each from an
    address to a greater or equal one of its kind, [access] gives an address the flags of
    the last rule whose range has it, and 0 when there is none. *)
Theorem ip_filter_access rs :
  Forall valid_rule rs →
  ∃ f, add_rules rs new_ip_filter = Some f ∧
    ∀ a, valid_address a → ip_access a f = Some (last_rule a rs 0).
Proof.
  intros Hrs. destruct (add_rules_access rs _ new_ip_filter_canonical Hrs) as (f & Hf & _ & Ha).
  exists f. split; [done|]. intros a Hv. apply Ha; [done|].
  destruct a as [b|b]; cbn [ip_access valid_address] in *; cbn [new_ip_filter m_filter4 m_filter6].
  - rewrite access_look by (done || apply filter_impl_canonical). f_equal. cbn.
    by destruct (_ <=? _).
  - rewrite access_look by (done || apply filter_impl_canonical). f_equal. cbn.
    by destruct (_ <=? _).
Qed.

(** ** Witnesses *)

(** ports 10 to 20 are blocked *)
Definition sample_ports : port_filter := [Range 0 0; Range 10 1; Range 21 0].

Lemma sample_ports_canonical : canonical sample_ports.
Proof.
  split.
  - split.
    + intros r Hr. repeat (apply elem_of_cons in Hr as [->|Hr]; [cbn; lia|]). by apply not_elem_of_nil in Hr.
    + repeat constructor.
  - by exists (Range 0 0), [Range 10 1; Range 21 0].
  - done.
Qed.

Lemma sample_ports_added : port_add_rule 10 20 1 filter_impl = Some sample_ports.
Proof. reflexivity. Qed.

Lemma add_rule_correct_witness :
  ∃ l', port_add_rule 15 30 2 sample_ports = Some l' ∧ port_access 20 l' = Some 2 ∧
    port_access 14 l' = Some 1 ∧ port_access 31 l' = Some 0.
Proof.
  destruct (add_rule_correct (A := uint16) 15 30 2 sample_ports) as (l' & Hl & _ & Ha);
    [apply sample_ports_canonical|cbn; lia|cbn; lia|cbn; lia|].
  exists l'. split; [exact Hl|]. split_and!.
  - exact (proj1 (Ha 20 ltac:(cbn; lia))).
  - exact (proj1 (Ha 14 ltac:(cbn; lia))).
  - exact (proj1 (Ha 31 ltac:(cbn; lia))).
Defined.

(** 10.0.0.0 to 10.255.255.255, and 10.1.0.0 to 10.1.0.255 after it *)
Definition sample_rules : list rule := [
  Rule (address_v4 [10; 0; 0; 0]) (address_v4 [10; 255; 255; 255]) 1;
  Rule (address_v4 [10; 1; 0; 0]) (address_v4 [10; 1; 0; 255]) 0
].

Lemma valid_v4 a b c d :
  is_byte a → is_byte b → is_byte c → is_byte d → valid_address (address_v4 [a; b; c; d]).
Proof. intros. split; [done|]. auto. Qed.

Lemma sample_rules_valid : Forall valid_rule sample_rules.
Proof.
  repeat apply Forall_cons_2; [| |apply Forall_nil_2];
    (split_and!; [apply valid_v4; unfold is_byte; lia..|reflexivity]).
Qed.

Lemma ip_filter_access_witness :
  ∃ f, add_rules sample_rules new_ip_filter = Some f ∧
    ip_access (address_v4 [10; 1; 0; 7]) f = Some 0 ∧ ip_access (address_v4 [10; 1; 1; 7]) f = Some 1.
Proof.
  destruct (ip_filter_access sample_rules sample_rules_valid) as (f & Hf & Ha). exists f.
  split; [exact Hf|].
  split; (rewrite Ha by (apply valid_v4; unfold is_byte; lia)); vm_compute; reflexivity.
Defined.
