(* ===== verification/Path.v ===== *)
(** The functions of src/btdownloader/torrent/path.cpp that work on the
    characters of a path, as they are compiled for systems whose separator is a
    slash.  The functions that touch the file system are not here.

    A [std::string] or a [string_view] is its characters; [npos] is [None]. *)

From S2P Require Import Prelude.
From S2P Require Import StringUtil.

Open Scope Z_scope.

(** [TORRENT_SEPARATOR_CHAR] *)
Definition separator : Z := 47.

Definition is_separator (c : Z) : bool := c =? separator.

(** a slash or a back slash *)
Definition any_separator (c : Z) : bool := (c =? 47) || (c =? 92).

(** the characters of a C string, up to the terminating one *)
Fixpoint c_str (s : list Z) : list Z :=
  match s with [] => [] | c :: s => if c =? 0 then [] else c :: c_str s end.

(** [find_last_of] and [strrchr] *)
Fixpoint find_last_of (s : list Z) (c : Z) : option Z :=
  match s with
  | [] => None
  | x :: s =>
      match find_last_of s c with
      | Some p => Some (p + 1)
      | None => if x =? c then Some 0 else None
      end
  end.

(** [find_first_of(s, c, pos)] *)
Definition find_first_from (s : list Z) (c pos : Z) : option Z :=
  p ← find_first_of (drop (Z.to_nat pos) s) c; Some (pos + p).

Definition same_string (a b : list Z) : bool := bool_decide (a = b).

Definition is_complete (f : list Z) : bool :=
  match f with [] => false | c :: _ => c =? 47 end.

Definition is_root_path (f : list Z) : bool := same_string f [47].

(** the loop of [extension], from the last character on; [suffix] was seen *)
Fixpoint extension_loop (rev_f suffix : list Z) : list Z :=
  match rev_f with
  | [] => []
  | c :: rev_f =>
      if c =? 47 then []
      else if negb (c =? 46) then extension_loop rev_f (c :: suffix)
      else c :: suffix
  end.

Definition extension (f : list Z) : list Z := extension_loop (rev f) [].

Definition remove_extension (f : list Z) : list Z :=
  let slash := find_last_of (c_str f) 47 in
  match find_last_of (c_str f) 46 with
  | None => f
  | Some ext =>
      if (ext =? 0) || match slash with Some p => ext <? p | None => false end then f
      else take (Z.to_nat ext) f
  end.

(** the size without a trailing separator *)
Definition stripped_size (s : list Z) : Z :=
  match list.last s with
  | Some c => if c =? 47 then vsize s - 1 else vsize s
  | None => vsize s
  end.

Definition compare_path (lhs rhs : list Z) : bool :=
  same_string (take (Z.to_nat (stripped_size lhs)) lhs) (take (Z.to_nat (stripped_size rhs)) rhs).

(** the loop of [has_parent_path]: whether there is a separator at [len] or
    before; [n] is [len + 1] *)
Fixpoint separator_before (n : nat) (f : list Z) : bool :=
  match n with
  | O => false
  | S n => match f !! n with Some c => any_separator c | None => false end || separator_before n f
  end.

Definition has_parent_path (f : list Z) : bool :=
  match list.last f with
  | None => false
  | Some c =>
      if is_root_path f then false
      else separator_before (if any_separator c then length f - 1 else length f) f
  end.

(** the loop of [parent_path] *)
Fixpoint parent_loop (len : nat) (f : list Z) : nat :=
  match len with
  | O => O
  | S len =>
      match f !! len with
      | Some c => if any_separator c then len else parent_loop len f
      | None => parent_loop len f
      end
  end.

Definition parent_path (f : list Z) : list Z :=
  match list.last f with
  | None => f
  | Some c =>
      if same_string f [47] then []
      else
        let len := if any_separator c then (length f - 1)%nat else length f in
        let len := parent_loop len f in
        let len := match f !! len with
                   | Some c => if any_separator c then S len else len
                   | None => len
                   end in
        take len f
  end.

(** [filename]: the C string after its last slash; when that is the last
    character, the characters between it and the slash before *)
Definition filename (f : list Z) : list Z :=
  let first := c_str f in
  match find_last_of first 47 with
  | None => f
  | Some sep =>
      if sep =? vsize f - 1 then
        let front := take (Z.to_nat sep) first in
        match find_last_of front 47 with
        | Some p => drop (Z.to_nat (p + 1)) front
        | None => front
        end
      else drop (Z.to_nat (sep + 1)) first
  end.

Definition append_path (branch leaf : list Z) : list Z :=
  match list.last branch with
  | None => leaf
  | Some c =>
      if same_string branch [46] then leaf
      else
        match leaf with
        | [] => branch
        | _ => branch ++ (if negb (is_separator c) then [separator] else []) ++ leaf
        end
  end.

(** [printf("%*s", width, s)] pads with spaces on the left, and has no limit *)
Definition padded (width : Z) (s : list Z) : list Z :=
  replicate (Z.to_nat (width - vsize s)) 32 ++ s.

(** [combine_path], of strings that are followed by a terminating character.
    The string that is returned has the size of the whole output, of which
    [snprintf] has written no more than [target_size] characters. *)
Definition combine_path (lhs rhs : list Z) : list Z :=
  match lhs, rhs with
  | [], _ => rhs
  | _, [] => lhs
  | _, _ =>
      if same_string lhs [46] then rhs
      else if same_string rhs [46] then lhs
      else
        let need_sep := match list.last lhs with Some c => negb (is_separator c) | None => true end in
        let target_size := vsize lhs + vsize rhs + 2 in
        let out := padded (vsize lhs) (c_str lhs) ++ (if need_sep then [separator] else [])
                     ++ padded (vsize rhs) (c_str rhs) in
        if vsize out <? target_size then out
        else take (Z.to_nat (target_size - 1)) out ++ replicate (Z.to_nat (vsize out - target_size + 1)) 0
  end.

(** [remove_suffix] of a trailing separator *)
Definition strip_separator (s : list Z) : list Z :=
  match list.last s with
  | Some c => if is_separator c then removelast s else s
  | None => s
  end.

(** the loop that strips common elements; every turn but the last shortens [base] *)
Fixpoint strip_common (fuel : nat) (base target : list Z) : option (list Z * list Z) :=
  match base with
  | [] => Some ([], target)
  | _ =>
      match fuel with
      | O => None
      | S fuel =>
          let '(base_element, base') := split_string base separator in
          let '(target_element, target') := split_string target separator in
          if same_string base_element target_element then strip_common fuel base' target'
          else Some (base, target)
      end
  end.

Definition lexically_relative (base target : list Z) : option (list Z) :=
  let base := strip_separator base in
  let target := strip_separator target in
  '(base, target) ← strip_common (length base) base target;
  let num_steps := Z.of_nat (length (filter (λ c, c = separator) base)) +
                   match base with [] => 0 | _ => 1 end in
  Some (concat (replicate (Z.to_nat num_steps) [46; 46; separator]) ++ target).

Definition rsplit_path (p : list Z) : list Z * list Z :=
  match p with
  | [] => ([], [])
  | _ =>
      let p := strip_separator p in
      match find_last_of p separator with
      | None => ([], p)
      | Some sep => (take (Z.to_nat sep) p, drop (Z.to_nat (sep + 1)) p)
      end
  end.

(** [remove_prefix] of an initial separator *)
Definition strip_initial (p : list Z) : list Z :=
  match p with c :: p' => if is_separator c then p' else p | [] => [] end.

Definition lsplit_path (p : list Z) : list Z * list Z :=
  match p with
  | [] => ([], [])
  | _ =>
      let p := strip_initial p in
      match find_first_of p separator with
      | None => (p, [])
      | Some sep => (take (Z.to_nat sep) p, drop (Z.to_nat (sep + 1)) p)
      end
  end.

(** [lsplit_path(p, pos)] *)
Definition lsplit_path_at (p : list Z) (pos : Z) : list Z * list Z :=
  match p with
  | [] => ([], [])
  | c :: _ =>
      let pos := if is_separator c && (0 <? pos) then pos - 1 else pos in
      let p := strip_initial p in
      match find_first_from p separator pos with
      | None => (p, [])
      | Some sep => (take (Z.to_nat sep) p, drop (Z.to_nat (sep + 1)) p)
      end
  end.
