(* ===== verification/PathCorrect.v ===== *)
(** Paths as lists of elements: what the functions of Path.v do to a path that is
    elements joined by separators. *)

From S2P Require Import Prelude.
From stdpp Require Import list.
From S2P Require Import StringUtil.
From S2P Require Import Path.

Open Scope Z_scope.

(** an element has characters, and none of them ends it *)
Record element_ok (s : list Z) : Prop := {
  el_some : s ≠ [];
  el_sep : separator ∉ s;
  el_back : 92 ∉ s;
  el_nul : 0 ∉ s
}.

Fixpoint join (l : list (list Z)) : list Z :=
  match l with
  | [] => []
  | [x] => x
  | x :: l => x ++ separator :: join l
  end.

Definition elements_ok (l : list (list Z)) : Prop := Forall element_ok l.

Lemma join_cons x l : l ≠ [] → join (x :: l) = x ++ separator :: join l.
Proof. by destruct l. Qed.

Lemma join_app l k : l ≠ [] → k ≠ [] → join (l ++ k) = join l ++ separator :: join k.
Proof.
  intros Hl Hk. induction l as [|x l IH]; [done|]. destruct (decide (l = [])) as [->|Hl'].
  - cbn [app]. by rewrite join_cons.
  - cbn [app]. rewrite !join_cons, IH by (done || by destruct l). by rewrite <-app_assoc.
Qed.

Lemma join_snoc l x : l ≠ [] → join (l ++ [x]) = join l ++ separator :: x.
Proof. intros. by rewrite join_app. Qed.

Lemma join_nil l : elements_ok l → join l = [] → l = [].
Proof.
  intros Hl. destruct l as [|x l]; [done|]. apply Forall_cons in Hl as [Hx _].
  destruct (decide (l = [])) as [->|Hl]; [by intros ?%(el_some _ Hx)|].
  rewrite join_cons by done. by destruct x.
Qed.

Lemma join_not_nil l : elements_ok l → l ≠ [] → join l ≠ [].
Proof. intros Hl Hn Hj. by apply Hn, join_nil. Qed.

(** ** Searching *)

Lemma find_last_of_app s c t : c ∉ t → find_last_of (s ++ c :: t) c = Some (vsize s).
Proof.
  intros Ht. assert (find_last_of t c = None) as Hn.
  { induction t as [|x t IH]; [done|]. apply not_elem_of_cons in Ht as [Hx Ht]. cbn.
    rewrite IH by done. by destruct (Z.eqb_spec x c). }
  induction s as [|x s IH]; cbn [app find_last_of].
  - rewrite Hn. by rewrite Z.eqb_refl.
  - rewrite IH. f_equal. vsize.
Qed.

Lemma find_last_of_none t c : c ∉ t → find_last_of t c = None.
Proof.
  induction t as [|x t IH]; [done|]. intros [Hx Ht]%not_elem_of_cons. cbn.
  rewrite IH by done. by destruct (Z.eqb_spec x c).
Qed.

Lemma find_first_of_app s c t : c ∉ s → find_first_of (s ++ c :: t) c = Some (vsize s).
Proof.
  induction s as [|x s IH]; cbn [app find_first_of].
  - intros _. by rewrite Z.eqb_refl.
  - intros [Hx Hs]%not_elem_of_cons. destruct (Z.eqb_spec x c); [done|].
    rewrite IH by done. cbn. f_equal. vsize.
Qed.

Lemma find_first_of_none s c : c ∉ s → find_first_of s c = None.
Proof.
  induction s as [|x s IH]; [done|]. intros [Hx Hs]%not_elem_of_cons. cbn.
  destruct (Z.eqb_spec x c); [done|]. by rewrite IH.
Qed.

Lemma vsize_to_nat {A} (s : list A) : Z.to_nat (vsize s) = length s.
Proof. unfold vsize. lia. Qed.

Lemma take_vsize {A} (s t : list A) : take (Z.to_nat (vsize s)) (s ++ t) = s.
Proof. by rewrite vsize_to_nat, take_app_length. Qed.

Lemma drop_vsize {A} (s : list A) c t : drop (Z.to_nat (vsize s + 1)) (s ++ c :: t) = t.
Proof.
  replace (Z.to_nat (vsize s + 1)) with (length s + 1)%nat by (unfold vsize; lia).
  rewrite <-drop_drop, drop_app_length. done.
Qed.

Lemma take_vsize_self {A} (s : list A) : take (Z.to_nat (vsize s)) s = s.
Proof. rewrite vsize_to_nat. by apply take_ge. Qed.

Lemma drop_vsize_self {A} (s : list A) : drop (Z.to_nat (vsize s)) s = [].
Proof. rewrite vsize_to_nat. by apply drop_ge. Qed.

(** ** The first and the last character *)

Lemma element_first s : element_ok s → ∃ c s', s = c :: s' ∧ c ≠ separator.
Proof.
  intros Hs. destruct s as [|c s]; [by destruct (el_some _ Hs)|]. exists c, s. split; [done|].
  intros ->. apply (el_sep _ Hs). apply list_elem_of_here.
Qed.

Lemma element_last s : element_ok s → ∃ c, list.last s = Some c ∧ c ≠ 47 ∧ c ≠ 92.
Proof.
  intros Hs. destruct (list.last s) as [c|] eqn:Hc.
  - exists c. apply last_Some_elem_of in Hc. split; [done|].
    split; intros ->; [by apply (el_sep _ Hs)|by apply (el_back _ Hs)].
  - apply last_None in Hc. by destruct (el_some _ Hs).
Qed.

Lemma join_first x l : element_ok x → ∃ c s, join (x :: l) = c :: s ∧ c ≠ separator.
Proof.
  intros (c & s & -> & Hc)%element_first. destruct l as [|y l].
  - by exists c, s.
  - rewrite join_cons by done. by exists c, (s ++ separator :: join (y :: l)).
Qed.

Lemma join_last l : elements_ok l → l ≠ [] → ∃ c, list.last (join l) = Some c ∧ c ≠ 47 ∧ c ≠ 92.
Proof.
  intros Hl Hn. destruct (exists_last Hn) as (k & x & ->).
  apply Forall_app in Hl as [Hk [Hx]%Forall_inv].
  destruct (element_last x) as (c & Hc & ?); [done|]. exists c. split; [|done].
  destruct (decide (k = [])) as [->|Hk']; [done|]. rewrite join_snoc by done.
  change (separator :: x) with ([separator] ++ x). by rewrite !last_app, Hc.
Qed.

Lemma join_not_complete l : elements_ok l → is_complete (join l) = false.
Proof.
  intros Hl. destruct l as [|x l]; [done|]. apply Forall_cons in Hl as [Hx _].
  destruct (join_first x l Hx) as (c & s & -> & Hc). cbn. by apply Z.eqb_neq.
Qed.

Lemma elements_snoc l x : elements_ok (l ++ [x]) ↔ elements_ok l ∧ element_ok x.
Proof.
  unfold elements_ok. rewrite Forall_app, Forall_singleton. done.
Qed.

(** ** Splitting *)

Lemma strip_separator_join l : elements_ok l → strip_separator (join l) = join l.
Proof.
  intros Hl. destruct (decide (l = [])) as [->|Hn]; [done|].
  destruct (join_last l Hl Hn) as (c & Hc & H47 & _). unfold strip_separator. rewrite Hc.
  unfold is_separator. by destruct (Z.eqb_spec c separator).
Qed.

Lemma strip_initial_join l : elements_ok l → strip_initial (join l) = join l.
Proof.
  intros Hl. destruct l as [|x l]; [done|]. apply Forall_cons in Hl as [Hx _].
  destruct (join_first x l Hx) as (c & s & -> & Hc). cbn. unfold is_separator.
  by destruct (Z.eqb_spec c separator).
Qed.

Lemma rsplit_path_join l x :
  elements_ok (l ++ [x]) → rsplit_path (join (l ++ [x])) = (join l, x).
Proof.
  intros Hl. assert (join (l ++ [x]) ≠ []) as Hn by (apply join_not_nil; [done|by destruct l]).
  unfold rsplit_path. rewrite (strip_separator_join _ Hl).
  destruct (join (l ++ [x])) as [|c0 s0] eqn:E; [done|]. rewrite <-E. clear c0 s0 E Hn.
  apply elements_snoc in Hl as [Hl Hx]. destruct (decide (l = [])) as [->|Hn].
  - cbn. rewrite find_last_of_none by apply (el_sep _ Hx). done.
  - rewrite join_snoc by done. rewrite find_last_of_app by apply (el_sep _ Hx).
    by rewrite take_vsize, drop_vsize.
Qed.

Lemma lsplit_path_join x l :
  elements_ok (x :: l) → lsplit_path (join (x :: l)) = (x, join l).
Proof.
  intros Hl. pose proof (join_not_nil _ Hl ltac:(done)) as Hn.
  unfold lsplit_path. rewrite (strip_initial_join _ Hl).
  destruct (join (x :: l)) as [|c0 s0] eqn:E; [done|]. rewrite <-E. clear c0 s0 E Hn.
  apply Forall_cons in Hl as [Hx Hl]. destruct (decide (l = [])) as [->|Hn].
  - cbn. by rewrite find_first_of_none by apply (el_sep _ Hx).
  - rewrite join_cons by done. rewrite find_first_of_app by apply (el_sep _ Hx).
    by rewrite take_vsize, drop_vsize.
Qed.

Lemma join_inj l k : elements_ok l → elements_ok k → join l = join k → l = k.
Proof.
  revert k. induction l as [|x l IH]; intros [|y k] Hl Hk Hj; [done|..].
  - by destruct (join_not_nil _ Hk ltac:(done)).
  - by destruct (join_not_nil _ Hl ltac:(done)).
  - apply (f_equal lsplit_path) in Hj. rewrite !lsplit_path_join in Hj by done.
    injection Hj as -> Hj. f_equal. apply Forall_cons in Hl as [_ Hl].
    apply Forall_cons in Hk as [_ Hk]. by apply IH.
Qed.

Lemma find_first_from_app a b c :
  find_first_from (a ++ b) c (vsize a) = (λ p, vsize a + p) <$> find_first_of b c.
Proof.
  unfold find_first_from. rewrite vsize_to_nat, drop_app_length. by destruct (find_first_of b c).
Qed.

(** the end of an element that starts in [a] and goes on with [s] *)
Lemma split_from a s l :
  separator ∉ s → elements_ok l →
  let p := a ++ s ++ match l with [] => [] | _ => separator :: join l end in
  match find_first_from p separator (vsize a) with
  | None => (p, [])
  | Some sep => (take (Z.to_nat sep) p, drop (Z.to_nat (sep + 1)) p)
  end = (a ++ s, join l).
Proof.
  intros Hs Hl p. unfold p. rewrite find_first_from_app. destruct l as [|y l].
  - rewrite app_nil_r, find_first_of_none by done. done.
  - rewrite find_first_of_app by done. cbn [fmap option_fmap option_map].
    replace (vsize a + vsize s) with (vsize (a ++ s)) by vsize.
    by rewrite app_assoc, take_vsize, drop_vsize.
Qed.

Lemma join_tail x l :
  join (x :: l) = x ++ match l with [] => [] | _ => separator :: join l end.
Proof. destruct l; [by rewrite app_nil_r|done]. Qed.

(** the branch that is one element longer than [front] *)
Lemma lsplit_path_at_join front x l :
  elements_ok (front ++ x :: l) →
  lsplit_path_at (join (front ++ x :: l)) (vsize (join front) + 1) =
    (join (front ++ [x]), join l).
Proof.
  intros Hl. assert (∃ y k, front ++ x :: l = y :: k) as (y & k & Hyk) by (destruct front; eauto).
  pose proof Hl as Hy. rewrite Hyk in Hy. apply Forall_cons in Hy as [Hy _].
  destruct (join_first y k Hy) as (c & s & Hcs & Hc). rewrite <-Hyk in Hcs.
  unfold lsplit_path_at. rewrite (strip_initial_join _ Hl), Hcs. unfold is_separator.
  rewrite (proj2 (Z.eqb_neq _ _) Hc). rewrite <-Hcs. cbn [andb].
  apply Forall_app in Hl as [Hf [Hx Hl]%Forall_cons].
  destruct (decide (front = [])) as [->|Hn].
  - destruct (element_first x Hx) as (d & x' & -> & _). pose proof (el_sep _ Hx) as Hs.
    apply not_elem_of_cons in Hs as [_ Hs].
    pose proof (split_from [d] x' l Hs Hl) as H. cbn [app] in *. rewrite join_tail. exact H.
  - rewrite join_app, join_snoc by (done || by destruct front). rewrite join_tail.
    pose proof (split_from (join front ++ [separator]) x l (el_sep _ Hx) Hl) as H.
    rewrite <-!app_assoc in H. cbn [app] in H.
    replace (vsize (join front) + 1) with (vsize (join front ++ [separator])) by vsize. exact H.
Qed.

(** ** Comparing *)

(** what [compare_path] leaves of a path that may end with a slash *)
Lemma stripped_join l t :
  elements_ok l → t = [] ∨ t = [separator] →
  take (Z.to_nat (stripped_size (join l ++ t))) (join l ++ t) = join l.
Proof.
  intros Hl [->| ->]; unfold stripped_size.
  - rewrite app_nil_r. destruct (decide (l = [])) as [->|Hn]; [done|].
    destruct (join_last l Hl Hn) as (c & -> & Hc & _). rewrite (proj2 (Z.eqb_neq _ _) Hc).
    rewrite vsize_to_nat. by rewrite take_ge.
  - rewrite last_snoc. change (separator =? 47) with true. cbn iota.
    replace (vsize (join l ++ [separator]) - 1) with (vsize (join l)) by vsize.
    by rewrite take_vsize.
Qed.

Lemma compare_path_join l k t u :
  elements_ok l → elements_ok k → t = [] ∨ t = [separator] → u = [] ∨ u = [separator] →
  compare_path (join l ++ t) (join k ++ u) = bool_decide (l = k).
Proof.
  intros Hl Hk Ht Hu. unfold compare_path, same_string. rewrite !stripped_join by done.
  apply bool_decide_ext. split; [by apply join_inj|by intros ->].
Qed.

(** ** Joining *)

(** the element for the current directory, which joining drops *)
Definition dot : list Z := [46].

Lemma append_path_join l k :
  elements_ok l → elements_ok k → l ≠ [dot] →
  append_path (join l) (join k) = join (l ++ k).
Proof.
  intros Hl Hk Hd. unfold append_path. destruct (decide (l = [])) as [->|Hn]; [done|].
  destruct (join_last l Hl Hn) as (c & -> & Hc & _).
  assert (same_string (join l) dot = false) as Hs.
  { apply bool_decide_eq_false. intros Hj. destruct l as [|x l]; [done|].
    destruct (decide (l = [])) as [->|Hl']; [by apply Hd; cbn in Hj; rewrite Hj|].
    rewrite join_cons in Hj by done. apply Forall_cons in Hl as [Hx _].
    destruct x as [|? x]; [by destruct (el_some _ Hx)|]. injection Hj as _ Hj. by destruct x. }
  change [46] with dot. rewrite Hs. destruct (join k) as [|c0 s0] eqn:E.
  - apply join_nil in E as ->; [|done]. by rewrite app_nil_r.
  - rewrite <-E. destruct (decide (k = [])) as [->|Hk']; [done|].
    unfold is_separator. rewrite (proj2 (Z.eqb_neq _ _)) by done. by rewrite join_app.
Qed.

Lemma c_str_id s : 0 ∉ s → c_str s = s.
Proof.
  induction s as [|c s IH]; [done|]. intros [Hc Hs]%not_elem_of_cons. cbn.
  destruct (Z.eqb_spec c 0); [done|]. by rewrite IH.
Qed.

Lemma join_nul l : elements_ok l → 0 ∉ join l.
Proof.
  intros Hl. induction Hl as [|x l Hx Hl IH]; [apply not_elem_of_nil|].
  destruct (decide (l = [])) as [->|Hn]; [apply (el_nul _ Hx)|].
  rewrite join_cons by done. rewrite not_elem_of_app, not_elem_of_cons.
  split; [apply (el_nul _ Hx)|]. done.
Qed.

Lemma padded_id s : padded (vsize s) s = s.
Proof. unfold padded. by rewrite Z.sub_diag. Qed.

(** [combine_path] drops the element for the current directory on both sides *)
Definition combined (l k : list (list Z)) : list (list Z) :=
  if decide (l = []) then k else if decide (k = []) then l
  else if decide (l = [dot]) then k else if decide (k = [dot]) then l else l ++ k.

Lemma join_dot l : elements_ok l → join l = dot ↔ l = [dot].
Proof.
  intros Hl. split; [|by intros ->]. intros Hj. destruct l as [|x l]; [done|].
  destruct (decide (l = [])) as [->|Hn]; [cbn in Hj; by rewrite Hj|].
  rewrite join_cons in Hj by done. apply Forall_cons in Hl as [Hx _].
  destruct x as [|c x]; [by destruct (el_some _ Hx)|]. injection Hj as _ Hj. by destruct x.
Qed.

Lemma combine_path_join l k :
  elements_ok l → elements_ok k → combine_path (join l) (join k) = join (combined l k).
Proof.
  intros Hl Hk. unfold combine_path, combined, same_string.
  destruct (decide (l = [])) as [->|Hln].
  { done. }
  destruct (decide (k = [])) as [->|Hkn].
  { by destruct (join l). }
  pose proof (join_not_nil _ Hl Hln) as Hl'. pose proof (join_not_nil _ Hk Hkn) as Hk'.
  destruct (join l) as [|c0 s0] eqn:El; [done|]. destruct (join k) as [|c1 s1] eqn:Ek; [done|].
  rewrite <-El, <-Ek. clear Hl' Hk' El Ek c0 s0 c1 s1.
  change [46] with dot. case_bool_decide as H1; rewrite join_dot in H1 by done.
  { by rewrite decide_True. }
  rewrite decide_False by done. case_bool_decide as H2; rewrite join_dot in H2 by done.
  { by rewrite decide_True. }
  rewrite decide_False by done. destruct (join_last l Hl Hln) as (c & -> & Hc & _).
  unfold is_separator. rewrite (proj2 (Z.eqb_neq _ _)) by done. cbn [negb].
  rewrite !c_str_id, !padded_id by (by apply join_nul).
  rewrite (proj2 (Z.ltb_lt _ _)) by vsize. rewrite join_app by done. done.
Qed.

(** ** The parent and the leaf *)

Lemma parent_loop_app n a c t :
  any_separator c = true → Forall (λ x, any_separator x = false) t →
  (length a < n ≤ length a + 1 + length t)%nat → parent_loop n (a ++ c :: t) = length a.
Proof.
  intros Hc Ht. induction n as [|n IH]; intros Hn; [lia|]. cbn [parent_loop].
  destruct (decide (n = length a)) as [->|Hne].
  - by rewrite list_lookup_middle, Hc.
  - rewrite lookup_app_r, lookup_cons_ne_0 by lia.
    destruct (t !! pred (n - length a)) as [x|] eqn:Hx.
    + rewrite Forall_lookup in Ht. rewrite (Ht _ _ Hx). apply IH. lia.
    + apply IH. lia.
Qed.

Lemma parent_loop_none n t : Forall (λ x, any_separator x = false) t → parent_loop n t = 0%nat.
Proof.
  intros Ht. induction n as [|n IH]; [done|]. cbn.
  destruct (t !! n) as [x|] eqn:Hx; [|done]. rewrite Forall_lookup in Ht. by rewrite (Ht _ _ Hx).
Qed.

Lemma element_no_separator x : element_ok x → Forall (λ c, any_separator c = false) x.
Proof.
  intros Hx. apply Forall_forall. intros c Hc. unfold any_separator.
  destruct (Z.eqb_spec c 47) as [->|]; [by destruct (el_sep _ Hx)|].
  destruct (Z.eqb_spec c 92) as [->|]; [by destruct (el_back _ Hx)|]. done.
Qed.

Lemma join_root l : elements_ok l → same_string (join l) [47] = false.
Proof.
  intros Hl. apply bool_decide_eq_false. intros Hj. pose proof (join_not_complete l Hl) as Hc.
  by rewrite Hj in Hc.
Qed.

Lemma join_any_separator l :
  elements_ok l → l ≠ [] → ∃ c, list.last (join l) = Some c ∧ any_separator c = false.
Proof.
  intros Hl Hn. destruct (join_last l Hl Hn) as (c & Hc & H1 & H2). exists c. split; [done|].
  unfold any_separator. by rewrite !(proj2 (Z.eqb_neq _ _)).
Qed.

Lemma parent_path_join l x :
  elements_ok (l ++ [x]) →
  parent_path (join (l ++ [x])) = match l with [] => [] | _ => join l ++ [separator] end.
Proof.
  intros Hl. unfold parent_path. rewrite (join_root _ Hl).
  destruct (join_any_separator _ Hl ltac:(by destruct l)) as (c & -> & ->).
  apply elements_snoc in Hl as [Hl Hx]. pose proof (element_no_separator x Hx) as Hs.
  destruct (decide (l = [])) as [->|Hn].
  - cbn [app join]. rewrite parent_loop_none by done.
    destruct x as [|d x]; [done|]. apply Forall_cons in Hs as [Hd _]. cbn. by rewrite Hd.
  - rewrite join_snoc by done. rewrite parent_loop_app; [|done..|].
    + rewrite list_lookup_middle by done. cbn [any_separator Z.eqb orb separator].
      destruct l; [done|]. change (separator :: x) with ([separator] ++ x). rewrite app_assoc.
      rewrite take_app_length'; [done|]. rewrite length_app. simpl. lia.
    + rewrite length_app. simpl. lia.
Qed.

Lemma separator_before_spec n f :
  separator_before n f = true ↔ ∃ i c, (i < n)%nat ∧ f !! i = Some c ∧ any_separator c = true.
Proof.
  induction n as [|n IH]; cbn [separator_before]; [split; [done|intros (i & c & ? & _); lia]|].
  rewrite orb_true_iff, IH. split.
  - intros [H|(i & c & Hi & H)]; [|exists i, c; split; [lia|done]].
    destruct (f !! n) as [c|] eqn:Hc; [|done]. exists n, c. split; [lia|done].
  - intros (i & c & Hi & Hf & Hc). destruct (decide (i = n)) as [->|]; [left; by rewrite Hf|].
    right. exists i, c. split; [lia|done].
Qed.

Lemma has_parent_path_join l :
  elements_ok l → has_parent_path (join l) = bool_decide (1 < length l)%nat.
Proof.
  intros Hl. destruct (decide (l = [])) as [->|Hn]; [done|]. unfold has_parent_path, is_root_path.
  rewrite (join_root _ Hl). destruct (join_any_separator _ Hl Hn) as (c & -> & ->).
  apply eq_true_iff_eq. rewrite separator_before_spec, bool_decide_eq_true.
  destruct (exists_last Hn) as (k & x & ->). rewrite length_app. simpl.
  pose proof Hl as [Hk Hx]%elements_snoc. destruct (decide (k = [])) as [->|Hk'].
  - split; [|simpl; lia]. cbn [app join]. intros (i & d & _ & Hi & Hd).
    pose proof (element_no_separator x Hx) as Hs. rewrite Forall_lookup in Hs.
    by rewrite (Hs _ _ Hi) in Hd.
  - rewrite join_snoc by done. split; [destruct k; simpl; [done|lia]|]. intros _.
    exists (length (join k)), separator. rewrite length_app, list_lookup_middle by done.
    split; [simpl; lia|done].
Qed.

Lemma filename_join l x : elements_ok (l ++ [x]) → filename (join (l ++ [x])) = x.
Proof.
  intros Hl. unfold filename. rewrite (c_str_id _ (join_nul _ Hl)).
  apply elements_snoc in Hl as [Hl Hx]. destruct (decide (l = [])) as [->|Hn].
  - cbn [app join]. by rewrite find_last_of_none by apply (el_sep _ Hx).
  - rewrite join_snoc by done. rewrite find_last_of_app by apply (el_sep _ Hx).
    destruct (element_first x Hx) as (c & s & -> & _).
    assert (vsize (join l) ≠ vsize (join l ++ separator :: c :: s) - 1) as Hne.
    { vsize. pose proof (vsize_nonneg s). lia. }
    rewrite (proj2 (Z.eqb_neq _ _)) by exact Hne. by rewrite drop_vsize.
Qed.

(** ** Relative paths *)

Definition unquoted (s : list Z) : Prop := head s ≠ Some 34.

Lemma find_separator_spec s t pos :
  separator ∉ s → find_separator (s ++ t) separator pos = find_separator t separator (pos + vsize s).
Proof.
  revert pos. induction s as [|c s IH]; intros pos; cbn [app find_separator].
  - by rewrite vsize_nil, Z.add_0_r.
  - intros [Hc Hs]%not_elem_of_cons. rewrite (proj2 (Z.eqb_neq _ _)) by done.
    rewrite IH by done. f_equal. vsize.
Qed.

Lemma split_string_join x l :
  elements_ok (x :: l) → unquoted x → split_string (join (x :: l)) separator = (x, join l).
Proof.
  intros [Hx Hl]%Forall_cons Hq. rewrite join_tail.
  destruct x as [|c x]; [by destruct (el_some _ Hx)|]. cbn [app split_string].
  destruct (Z.eqb_spec c 34) as [->|]; [by destruct Hq|]. cbn [andb Z.to_nat]. rewrite drop_0.
  change (c :: x ++ ?t) with ((c :: x) ++ t). rewrite find_separator_spec by apply (el_sep _ Hx).
  rewrite Z.add_0_l. destruct l as [|y l].
  - cbn [find_separator]. rewrite Z.add_0_r, app_nil_r, take_vsize_self, drop_vsize_self. done.
  - cbn [find_separator]. rewrite Z.eqb_refl, take_vsize, drop_vsize. done.
Qed.

(** the elements that two paths start with *)
Fixpoint without_common (b t : list (list Z)) : list (list Z) * list (list Z) :=
  match b, t with
  | x :: b', y :: t' => if decide (x = y) then without_common b' t' else (b, t)
  | _, _ => (b, t)
  end.

Lemma strip_common_join fuel b t :
  elements_ok b → elements_ok t → Forall unquoted b → Forall unquoted t → (length b ≤ fuel)%nat →
  strip_common fuel (join b) (join t) =
    Some (join (without_common b t).1, join (without_common b t).2).
Proof.
  revert b t. induction fuel as [|fuel IH]; intros b t Hb Ht Qb Qt Hf.
  { destruct b; [|simpl in Hf; lia]. by destruct t. }
  destruct b as [|x b]; [by destruct t|]. cbn [strip_common].
  pose proof (join_not_nil (x :: b) Hb ltac:(done)) as Hj.
  destruct (join (x :: b)) as [|c0 s0] eqn:E; [done|]. rewrite <-E. clear E c0 s0 Hj.
  apply Forall_cons in Qb as [Qx Qb].
  rewrite (split_string_join x b Hb Qx). apply Forall_cons in Hb as [Hx Hb].
  destruct t as [|y t].
  - cbn. unfold same_string. by rewrite bool_decide_eq_false_2 by apply (el_some _ Hx).
  - apply Forall_cons in Qt as [Qy Qt]. rewrite (split_string_join y t Ht Qy).
    apply Forall_cons in Ht as [Hy Ht]. cbn [without_common]. unfold same_string.
    case_bool_decide as Hxy.
    + rewrite decide_True by done. apply IH; try done. simpl in Hf. lia.
    + by rewrite decide_False.
Qed.

Lemma filter_element x : element_ok x → filter (λ c, c = separator) x = [].
Proof.
  intros Hx. pose proof (el_sep _ Hx) as Hs. clear Hx.
  induction x as [|c x IH]; [done|]. apply not_elem_of_cons in Hs as [Hc Hs].
  rewrite filter_cons_False by done. by apply IH.
Qed.

Lemma count_separators l :
  elements_ok l → length (filter (λ c, c = separator) (join l)) = pred (length l).
Proof.
  induction 1 as [|x l Hx Hl IH]; [done|]. destruct (decide (l = [])) as [->|Hn].
  - cbn [join]. by rewrite filter_element.
  - rewrite join_cons, filter_app, filter_element, filter_cons_True by done. cbn [app length].
    rewrite IH. destruct l; [done|]. simpl. lia.
Qed.

Lemma without_common_ok b t :
  elements_ok b → elements_ok t →
  elements_ok (without_common b t).1 ∧ elements_ok (without_common b t).2.
Proof.
  revert t. induction b as [|x b IH]; intros t Hb Ht; [by destruct t|]. destruct t as [|y t]; [done|].
  cbn [without_common]. case_decide; [|done].
  apply IH; [by apply Forall_cons in Hb as [_ ?]|by apply Forall_cons in Ht as [_ ?]].
Qed.

(** up from the directory of [base] to the common one, and down to the target *)
Lemma lexically_relative_join b t :
  elements_ok b → elements_ok t → Forall unquoted b → Forall unquoted t →
  let '(up, down) := without_common b t in
  lexically_relative (join b) (join t) =
    Some (concat (replicate (length up) [46; 46; separator]) ++ join down).
Proof.
  intros Hb Ht Qb Qt. unfold lexically_relative.
  rewrite !strip_separator_join by done. rewrite strip_common_join; [|done..|].
  2:{ clear Ht Qb Qt t. induction Hb as [|x l Hx Hl IH]; [done|].
      destruct (element_first x Hx) as (c & s & -> & _). rewrite join_tail, length_app.
      destruct l; [simpl; lia|]. simpl in *. lia. }
  destruct (without_common_ok b t Hb Ht) as [H1 _].
  destruct (without_common b t) as [up down]. cbn [fst snd mbind option_bind] in *.
  do 3 f_equal. rewrite count_separators by done. destruct (decide (up = [])) as [->|Hn]; [done|].
  pose proof (join_not_nil up H1 Hn). destruct (join up); [done|]. destruct up; [done|].
  f_equal. simpl. lia.
Qed.
