(* ===== verification/FileStorage.v ===== *)
(** Model of src/btdownloader/torrent/file_storage.cpp and
    include/libtorrent/file_storage.hpp: the files of a torrent, in the order
    in which their bytes make up its pieces.

    Record [internal_file_entry] is a file and record [file_storage] the list
    of them.  A fault (undefined behaviour) is [None] in the option monad, and
    failing assertions are not faults: they are not compiled into a release.
    Values are converted to the width of the field they are stored in.  The
    deprecated overloads, [apply_pointer_offset] (which moves the pointers to
    names and hashes into a copy of the same bytes) and the swap of whole
    objects are left out. *)

From stdpp Require Import gmap sets.
From S2P Require Import Prelude.
From S2P Require Import StringUtil.
From S2P Require Import Path.

Open Scope Z_scope.

(** a value converted to a signed type of [w] bits *)
Definition sint (w n : Z) : Z := (n + 2 ^ (w - 1)) mod 2 ^ w - 2 ^ (w - 1).

(** * A file *)

(** What [char const* name] points to: nothing, a copy of a string that the
    entry made, or characters of a buffer of someone else. *)
Inductive name_ptr :=
  | name_null
  | name_copy (s : list Z)
  | name_borrowed (s : list Z).

Record internal_file_entry := InternalFileEntry {
  fe_offset : Z;                (* 48 bits *)
  fe_symlink_index : Z;         (* 15 bits *)
  fe_no_root_dir : bool;
  fe_size : Z;                  (* 48 bits *)
  fe_name_len : Z;              (* 12 bits *)
  fe_pad_file : bool;
  fe_hidden_attribute : bool;
  fe_executable_attribute : bool;
  fe_symlink_attribute : bool;
  fe_name : name_ptr;
  fe_path_index : Z
}.

Definition name_is_owned : Z := 2 ^ 12 - 1.
Definition not_a_symlink : Z := 2 ^ 15 - 1.

Definition new_entry : internal_file_entry :=
  InternalFileEntry 0 not_a_symlink false 0 name_is_owned false false false false name_null (-1).

Definition with_name (e : internal_file_entry) (p : name_ptr) (len : Z) : internal_file_entry :=
  InternalFileEntry (fe_offset e) (fe_symlink_index e) (fe_no_root_dir e) (fe_size e) len
    (fe_pad_file e) (fe_hidden_attribute e) (fe_executable_attribute e) (fe_symlink_attribute e)
    p (fe_path_index e).

Definition with_path (e : internal_file_entry) (no_root : bool) (i : Z) : internal_file_entry :=
  InternalFileEntry (fe_offset e) (fe_symlink_index e) no_root (fe_size e) (fe_name_len e)
    (fe_pad_file e) (fe_hidden_attribute e) (fe_executable_attribute e) (fe_symlink_attribute e)
    (fe_name e) i.

Definition with_offset (e : internal_file_entry) (off : Z) : internal_file_entry :=
  InternalFileEntry (uint 48 off) (fe_symlink_index e) (fe_no_root_dir e) (fe_size e)
    (fe_name_len e) (fe_pad_file e) (fe_hidden_attribute e) (fe_executable_attribute e)
    (fe_symlink_attribute e) (fe_name e) (fe_path_index e).

Definition with_symlink (e : internal_file_entry) (i : Z) (attribute : bool) : internal_file_entry :=
  InternalFileEntry (fe_offset e) (uint 15 i) (fe_no_root_dir e) (fe_size e) (fe_name_len e)
    (fe_pad_file e) (fe_hidden_attribute e) (fe_executable_attribute e) attribute
    (fe_name e) (fe_path_index e).

Definition set_pad_file (e : internal_file_entry) : internal_file_entry :=
  InternalFileEntry (fe_offset e) (fe_symlink_index e) (fe_no_root_dir e) (fe_size e) (fe_name_len e)
    true (fe_hidden_attribute e) (fe_executable_attribute e) (fe_symlink_attribute e)
    (fe_name e) (fe_path_index e).

(** [delete[] name], which is only allowed for what the entry copied *)
Definition delete_name (e : internal_file_entry) : option unit :=
  if fe_name_len e =? name_is_owned
  then match fe_name e with name_borrowed _ => None | _ => Some tt end
  else Some tt.

Definition set_name (e : internal_file_entry) (n : list Z) (borrow_string : bool)
    : option internal_file_entry :=
  delete_name e;;
  match n with
  | [] => Some (with_name e name_null (fe_name_len e))
  | _ =>
      if borrow_string then
        let n := if name_is_owned <=? vsize n then drop (Z.to_nat (name_is_owned - 1)) n else n in
        Some (with_name e (name_borrowed n) (uint 12 (vsize n)))
      else Some (with_name e (name_copy n) name_is_owned)
  end.

(** [filename()]: [name_len] characters, or a C string.  The characters behind
    the end of a borrowed name are not known. *)
Definition entry_filename (e : internal_file_entry) : option (list Z) :=
  if negb (fe_name_len e =? name_is_owned) then
    match fe_name e with
    | name_null => if fe_name_len e =? 0 then Some [] else None
    | name_copy s | name_borrowed s =>
        if fe_name_len e <=? vsize s then Some (take (Z.to_nat (fe_name_len e)) s) else None
    end
  else
    match fe_name e with
    | name_null => Some []
    | name_copy s => Some (c_str s)
    | name_borrowed s => if bool_decide (0 ∈ s) then Some (c_str s) else None
    end.

(** the copy constructor *)
Definition copy_entry (fe : internal_file_entry) : option internal_file_entry :=
  n ← entry_filename fe;
  set_name (with_name fe name_null (fe_name_len fe)) n (negb (fe_name_len fe =? name_is_owned)).

(** the copy assignment to another entry *)
Definition assign_entry (e fe : internal_file_entry) : option internal_file_entry :=
  n ← entry_filename fe;
  set_name (with_name fe (fe_name e) (fe_name_len e)) n (negb (fe_name_len fe =? name_is_owned)).

(** * The files of a torrent *)

(** [m_file_hashes] points to the digests, [None] is the null pointer *)
Record file_storage := FileStorage {
  m_piece_length : Z;
  m_num_pieces : Z;
  m_files : list internal_file_entry;
  m_file_hashes : list (option (list Z));
  m_symlinks : list (list Z);
  m_mtime : list Z;
  m_paths : list (list Z);
  m_name : list Z;
  m_total_size : Z
}.

Definition new_file_storage : file_storage := FileStorage 0 0 [] [] [] [] [] [] 0.

Definition set_num_pieces (fs : file_storage) (n : Z) : file_storage :=
  FileStorage (m_piece_length fs) n (m_files fs) (m_file_hashes fs) (m_symlinks fs) (m_mtime fs)
    (m_paths fs) (m_name fs) (m_total_size fs).

Definition set_piece_length (fs : file_storage) (l : Z) : file_storage :=
  FileStorage l (m_num_pieces fs) (m_files fs) (m_file_hashes fs) (m_symlinks fs) (m_mtime fs)
    (m_paths fs) (m_name fs) (m_total_size fs).

Definition set_storage_name (fs : file_storage) (n : list Z) : file_storage :=
  FileStorage (m_piece_length fs) (m_num_pieces fs) (m_files fs) (m_file_hashes fs)
    (m_symlinks fs) (m_mtime fs) (m_paths fs) n (m_total_size fs).

Definition set_files (fs : file_storage) (v : list internal_file_entry) : file_storage :=
  FileStorage (m_piece_length fs) (m_num_pieces fs) v (m_file_hashes fs) (m_symlinks fs)
    (m_mtime fs) (m_paths fs) (m_name fs) (m_total_size fs).

Definition set_hashes (fs : file_storage) (v : list (option (list Z))) : file_storage :=
  FileStorage (m_piece_length fs) (m_num_pieces fs) (m_files fs) v (m_symlinks fs) (m_mtime fs)
    (m_paths fs) (m_name fs) (m_total_size fs).

Definition set_symlinks (fs : file_storage) (v : list (list Z)) : file_storage :=
  FileStorage (m_piece_length fs) (m_num_pieces fs) (m_files fs) (m_file_hashes fs) v
    (m_mtime fs) (m_paths fs) (m_name fs) (m_total_size fs).

Definition set_mtimes (fs : file_storage) (v : list Z) : file_storage :=
  FileStorage (m_piece_length fs) (m_num_pieces fs) (m_files fs) (m_file_hashes fs)
    (m_symlinks fs) v (m_paths fs) (m_name fs) (m_total_size fs).

Definition set_paths (fs : file_storage) (v : list (list Z)) : file_storage :=
  FileStorage (m_piece_length fs) (m_num_pieces fs) (m_files fs) (m_file_hashes fs)
    (m_symlinks fs) (m_mtime fs) v (m_name fs) (m_total_size fs).

Definition set_total_size (fs : file_storage) (n : Z) : file_storage :=
  FileStorage (m_piece_length fs) (m_num_pieces fs) (m_files fs) (m_file_hashes fs)
    (m_symlinks fs) (m_mtime fs) (m_paths fs) (m_name fs) n.

Definition is_valid (fs : file_storage) : bool := 0 <? m_piece_length fs.
Definition num_files (fs : file_storage) : Z := vsize (m_files fs).
Definition end_piece (fs : file_storage) : Z := m_num_pieces fs.
Definition last_piece (fs : file_storage) : Z := m_num_pieces fs - 1.

(** [v.resize(n, x)] that does not shrink *)
Definition grow_to {A} (v : list A) (n : Z) (x : A) : list A :=
  v ++ replicate (Z.to_nat (n - vsize v)) x.

Definition piece_size (fs : file_storage) (index : Z) : Z :=
  if index =? last_piece fs then
    let size_except_last := (m_num_pieces fs - 1) * m_piece_length fs in
    sint 32 (m_total_size fs - size_except_last)
  else m_piece_length fs.

(** ** Paths *)

(** the position of the last occurrence *)
Fixpoint find_last (v : list (list Z)) (s : list Z) : option Z :=
  match v with
  | [] => None
  | x :: v =>
      match find_last v s with
      | Some p => Some (p + 1)
      | None => if same_string x s then Some 0 else None
      end
  end.

Definition get_or_add_path (fs : file_storage) (path : list Z) : file_storage * Z :=
  match find_last (m_paths fs) path with
  | None => (set_paths fs (m_paths fs ++ [path]), vsize (m_paths fs))
  | Some p => (fs, p)
  end.

(** the loop that strips duplicate separators *)
Fixpoint strip_separators (s : list Z) : list Z :=
  match s with c :: s' => if is_separator c then strip_separators s' else s | [] => [] end.

Definition update_path_index (fs : file_storage) (e : internal_file_entry) (path : list Z)
    (set_leaf : bool) : option (file_storage * internal_file_entry) :=
  if is_complete path then
    e ← set_name e path false;
    Some (fs, with_path e (fe_no_root_dir e) (-2))
  else
    let '(branch_path, leaf) := rsplit_path path in
    match branch_path with
    | [] =>
        e ← (if set_leaf then set_name e leaf false else Some e);
        Some (fs, with_path e (fe_no_root_dir e) (-1))
    | _ =>
        let in_root := same_string (lsplit_path branch_path).1 (m_name fs) in
        let branch_path := if in_root then strip_separators (lsplit_path branch_path).2
                           else branch_path in
        let '(fs, i) := get_or_add_path fs branch_path in
        let e := with_path e (negb in_root) i in
        e ← (if set_leaf then set_name e leaf false else Some e);
        Some (fs, e)
    end.

Definition rename_file (fs : file_storage) (index : Z) (new_filename : list Z)
    : option file_storage :=
  e ← (m_files fs)⟦index⟧;
  '(fs, e) ← update_path_index fs e new_filename true;
  v ← (m_files fs)⟦index := e⟧;
  Some (set_files fs v).

(** ** Adding a file *)

Definition flag_pad_file : Z := 1.
Definition flag_hidden : Z := 2.
Definition flag_executable : Z := 4.
Definition flag_symlink : Z := 8.

Definition has_flag (flags flag : Z) : bool := negb (Z.land flags flag =? 0).

(** the size, the offset and the attributes of a new file *)
Definition set_attributes (e : internal_file_entry) (file_size offset flags : Z)
    : internal_file_entry :=
  InternalFileEntry (uint 48 offset) (fe_symlink_index e) (fe_no_root_dir e)
    (uint 48 file_size) (fe_name_len e) (has_flag flags flag_pad_file) (has_flag flags flag_hidden)
    (has_flag flags flag_executable) (has_flag flags flag_symlink) (fe_name e) (fe_path_index e).

(** [v.resize(v.size() < n ? n : v.size()); v[n - 1] = x] *)
Definition put_last {A} (v : list A) (n : Z) (zero x : A) : option (list A) :=
  (grow_to v n zero)⟦n - 1 := x⟧.

Definition add_file_borrow (fs : file_storage) (filename path : list Z)
    (file_size file_flags : Z) (filehash : option (list Z)) (mtime : Z) (symlink_path : list Z)
    : option file_storage :=
  let fs := if negb (has_parent_path path) then set_storage_name fs path
            else match m_files fs with
                 | [] => set_storage_name fs (lsplit_path path).1
                 | _ => fs
                 end in
  let n := num_files fs + 1 in
  '(fs, e) ← update_path_index fs new_entry path (match filename with [] => true | _ => false end);
  e ← match filename with [] => Some e | _ => set_name e filename true end;
  let e := set_attributes e file_size (m_total_size fs) file_flags in
  fs ← match filehash with
       | Some _ => v ← put_last (m_file_hashes fs) n None filehash; Some (set_hashes fs v)
       | None => Some fs
       end;
  let is_link := match symlink_path with
                 | [] => false
                 | _ => vsize (m_symlinks fs) <? not_a_symlink - 1
                 end in
  let e := if is_link then with_symlink e (vsize (m_symlinks fs)) (fe_symlink_attribute e)
           else with_symlink e (fe_symlink_index e) false in
  let fs := if is_link then set_symlinks fs (m_symlinks fs ++ [symlink_path]) else fs in
  fs ← (if negb (mtime =? 0)
        then v ← put_last (m_mtime fs) n 0 mtime; Some (set_mtimes fs v)
        else Some fs);
  let fs := set_files fs (m_files fs ++ [e]) in
  Some (set_total_size fs (sint 64 (m_total_size fs + fe_size e))).

Definition add_file (fs : file_storage) (path : list Z) (file_size file_flags mtime : Z)
    (symlink_path : list Z) : option file_storage :=
  add_file_borrow fs [] path file_size file_flags None mtime symlink_path.

(** ** What is known of a file *)

(** a digest that was not given is all zeros *)
Definition zero_hash : list Z := replicate 20 0.

Definition hash (fs : file_storage) (index : Z) : option (list Z) :=
  if vsize (m_file_hashes fs) <=? index then Some zero_hash
  else
    p ← (m_file_hashes fs)⟦index⟧;
    match p with
    | None => Some zero_hash
    | Some s => if 20 <=? vsize s then Some (take 20 s) else None
    end.

Definition symlink (fs : file_storage) (index : Z) : option (list Z) :=
  fe ← (m_files fs)⟦index⟧;
  link ← (m_symlinks fs)⟦fe_symlink_index fe⟧;
  Some (append_path (m_name fs) link).

Definition mtime (fs : file_storage) (index : Z) : option Z :=
  if vsize (m_mtime fs) <=? index then Some 0 else (m_mtime fs)⟦index⟧.

Definition file_path (fs : file_storage) (index : Z) (save_path : list Z) : option (list Z) :=
  fe ← (m_files fs)⟦index⟧;
  leaf ← entry_filename fe;
  if fe_path_index fe =? -2 then Some leaf
  else if fe_path_index fe =? -1 then Some (append_path save_path leaf)
  else
    p ← (m_paths fs)⟦fe_path_index fe⟧;
    if fe_no_root_dir fe then Some (append_path (append_path save_path p) leaf)
    else Some (append_path (append_path (append_path save_path (m_name fs)) p) leaf).

Definition internal_file_path (fs : file_storage) (index : Z) : option (list Z) :=
  fe ← (m_files fs)⟦index⟧;
  leaf ← entry_filename fe;
  if 0 <=? fe_path_index fe then
    p ← (m_paths fs)⟦fe_path_index fe⟧;
    Some (append_path (append_path [] p) leaf)
  else Some leaf.

Definition file_name (fs : file_storage) (index : Z) : option (list Z) :=
  fe ← (m_files fs)⟦index⟧; entry_filename fe.

(** the pointer is not modelled, but for whether there is a length beside it *)
Definition file_name_len (fs : file_storage) (index : Z) : option Z :=
  fe ← (m_files fs)⟦index⟧;
  Some (if fe_name_len fe =? name_is_owned then -1 else fe_name_len fe).

Definition file_size (fs : file_storage) (index : Z) : option Z :=
  fe ← (m_files fs)⟦index⟧; Some (fe_size fe).

Definition pad_file_at (fs : file_storage) (index : Z) : option bool :=
  fe ← (m_files fs)⟦index⟧; Some (fe_pad_file fe).

Definition file_offset (fs : file_storage) (index : Z) : option Z :=
  fe ← (m_files fs)⟦index⟧; Some (fe_offset fe).

Definition entry_flags (fe : internal_file_entry) : Z :=
  Z.lor (Z.lor (Z.lor (if fe_pad_file fe then flag_pad_file else 0)
    (if fe_hidden_attribute fe then flag_hidden else 0))
    (if fe_executable_attribute fe then flag_executable else 0))
    (if fe_symlink_attribute fe then flag_symlink else 0).

Definition file_flags (fs : file_storage) (index : Z) : option Z :=
  fe ← (m_files fs)⟦index⟧; Some (entry_flags fe).

Definition file_absolute_path (fs : file_storage) (index : Z) : option bool :=
  fe ← (m_files fs)⟦index⟧; Some (fe_path_index fe =? -2).

(** ** Paths as numbers

    The checksum is the one of Boost: its state, the state of a new one, the
    effect of a byte and the sum of a state. *)
Class Crc32c := {
  crc : Type;
  crc_new : crc;
  process_byte : crc → Z → crc;
  checksum : crc → Z
}.

Section path_hashes.
Context `{Crc32c}.

Definition process_string_lowercase (c : crc) (str : list Z) : crc :=
  fold_left (λ c x, process_byte c (Z.land (to_lower x) 0xff)) str c.

Fixpoint process_path_loop (table : gset Z) (c : crc) (str : list Z) : gset Z :=
  match str with
  | [] => {[checksum c]} ∪ table
  | x :: str =>
      let table := if x =? separator then {[checksum c]} ∪ table else table in
      process_path_loop table (process_byte c (Z.land (to_lower x) 0xff)) str
  end.

Definition process_path_lowercase (table : gset Z) (c : crc) (str : list Z) : gset Z :=
  match str with [] => table | _ => process_path_loop table c str end.

Definition all_path_hashes (fs : file_storage) (table : gset Z) : gset Z :=
  let c := match m_name fs with
           | [] => crc_new
           | _ => process_byte (process_string_lowercase crc_new (m_name fs)) separator
           end in
  fold_left (λ table p, process_path_lowercase table c p) (m_paths fs) table.

(** a directory, unless it is empty, and a separator *)
Definition process_directory (c : crc) (str : list Z) : crc :=
  match str with
  | [] => c
  | _ => process_byte (process_string_lowercase c str) separator
  end.

Definition file_path_hash (fs : file_storage) (index : Z) (save_path : list Z) : option Z :=
  fe ← (m_files fs)⟦index⟧;
  leaf ← entry_filename fe;
  c ← (if fe_path_index fe =? -2 then Some crc_new
       else if fe_path_index fe =? -1 then Some (process_directory crc_new save_path)
       else
         p ← (m_paths fs)⟦fe_path_index fe⟧;
         if fe_no_root_dir fe then
           Some (process_directory (process_directory crc_new save_path) p)
         else
           let c := process_directory crc_new save_path in
           let c := process_byte (process_string_lowercase c (m_name fs)) separator in
           Some (process_directory c p));
  Some (checksum (process_string_lowercase c leaf)).
End path_hashes.

(** ** Pieces and files *)

Definition compare_file_offset (lhs rhs : internal_file_entry) : bool :=
  fe_offset lhs <? fe_offset rhs.

(** [std::upper_bound] in files in the order of their offsets *)
Fixpoint upper_bound (target : internal_file_entry) (v : list internal_file_entry) : Z :=
  match v with
  | [] => 0
  | e :: v => if compare_file_offset target e then 0 else 1 + upper_bound target v
  end.

Definition file_index_at_offset (fs : file_storage) (offset : Z) : Z :=
  upper_bound (with_offset new_entry offset) (m_files fs) - 1.

Record file_slice := FileSlice { fsl_file_index : Z; fsl_offset : Z; fsl_size : Z }.

(** The loop of [map_block], from the file at [index] on, which is the first
    of [files].  Running out of files is undefined behaviour. *)
Fixpoint map_block_loop (files : list internal_file_entry) (index file_offset size : Z)
    : option (list file_slice) :=
  if size <=? 0 then Some []
  else
    match files with
    | [] => None
    | e :: files =>
        if file_offset <? fe_size e then
          let n := Z.min (fe_size e - file_offset) size in
          rest ← map_block_loop files (index + 1) (file_offset + n - fe_size e) (size - n);
          Some (FileSlice index file_offset n :: rest)
        else map_block_loop files (index + 1) (file_offset - fe_size e) size
    end.

Definition map_block (fs : file_storage) (piece offset size : Z) : option (list file_slice) :=
  match m_files fs with
  | [] => Some []
  | _ =>
      let target := with_offset new_entry (piece * m_piece_length fs + offset) in
      let size := if m_total_size fs <? fe_offset target + size
                  then sint 32 (m_total_size fs - fe_offset target) else size in
      let i := upper_bound target (m_files fs) - 1 in
      e ← (m_files fs)⟦i⟧;
      map_block_loop (drop (Z.to_nat i) (m_files fs)) i (fe_offset target - fe_offset e) size
  end.

Record peer_request := PeerRequest { pr_piece : Z; pr_start : Z; pr_length : Z }.

(** dividing by a piece length of zero is undefined behaviour *)
Definition map_file (fs : file_storage) (file_index off size : Z) : option peer_request :=
  if num_files fs <=? file_index then Some (PeerRequest (end_piece fs) 0 0)
  else
    file_off ← file_offset fs file_index;
    let offset := off + file_off in
    if m_total_size fs <=? offset then Some (PeerRequest (end_piece fs) 0 0)
    else
      guard_b (negb (m_piece_length fs =? 0));;
      Some (PeerRequest (sint 32 (Z.quot offset (m_piece_length fs)))
        (sint 32 (Z.rem offset (m_piece_length fs)))
        (if m_total_size fs <? offset + size then sint 32 (m_total_size fs - offset) else size)).

Definition file_piece_range_exclusive (fs : file_storage) (file : Z) : option (Z * Z) :=
  range ← map_file fs file 0 1;
  size ← file_size fs file;
  let begin_piece := if pr_start range =? 0 then pr_piece range else pr_piece range + 1 in
  if file =? num_files fs - 1 then Some (begin_piece, m_num_pieces fs)
  else
    guard_b (negb (m_piece_length fs =? 0));;
    Some (begin_piece,
      sint 32 (Z.quot (pr_piece range * m_piece_length fs + pr_start range + size + 1)
        (m_piece_length fs))).

Definition file_piece_range_inclusive (fs : file_storage) (file : Z) : option (Z * Z) :=
  range ← map_file fs file 0 1;
  size ← file_size fs file;
  guard_b (negb (m_piece_length fs =? 0));;
  Some (pr_piece range,
    sint 32 (Z.quot (pr_piece range * m_piece_length fs + pr_start range + size - 1)
      (m_piece_length fs) + 1)).
