(* ===== verification/FileLayout.v ===== *)
(** The layout of the files of a [file_storage], and what [map_block],
    [map_file] and the piece ranges of a file compute from it. *)

From S2P Require Import Prelude.
From stdpp Require Import list.
From S2P Require Import Path.
From S2P Require Import FileStorage.

Open Scope Z_scope.

(** every file starts where the one before it ends *)
Fixpoint laid_out (off : Z) (files : list internal_file_entry) : Prop :=
  match files with
  | [] => True
  | e :: files => fe_offset e = off ∧ 0 ≤ fe_size e ∧ laid_out (off + fe_size e) files
  end.

Definition sum_sizes (files : list internal_file_entry) : Z :=
  foldr (λ e n, fe_size e + n) 0 files.

Definition max_total : Z := 2 ^ 48.

Definition layout_ok (fs : file_storage) : Prop :=
  laid_out 0 (m_files fs) ∧ m_total_size fs = sum_sizes (m_files fs) ∧ m_total_size fs < max_total.

Lemma sint_small w n : 0 < w → - 2 ^ (w - 1) ≤ n < 2 ^ (w - 1) → sint w n = n.
Proof.
  intros Hw Hn. unfold sint.
  assert (2 ^ w = 2 * 2 ^ (w - 1)) by (rewrite <-Z.pow_succ_r by lia; f_equal; lia).
  rewrite Z.mod_small; lia.
Qed.

Lemma sum_sizes_cons e v : sum_sizes (e :: v) = fe_size e + sum_sizes v.
Proof. done. Qed.

Lemma sum_sizes_app v w : sum_sizes (v ++ w) = sum_sizes v + sum_sizes w.
Proof.
  induction v as [|e v IH]; [done|]. cbn [app]. rewrite !sum_sizes_cons, IH. lia.
Qed.

Lemma laid_out_app off v w :
  laid_out off (v ++ w) ↔ laid_out off v ∧ laid_out (off + sum_sizes v) w.
Proof.
  revert off. induction v as [|e v IH]; intros off; cbn [app laid_out].
  - cbn. rewrite Z.add_0_r. tauto.
  - rewrite IH, sum_sizes_cons, Z.add_assoc. tauto.
Qed.

Lemma laid_out_nonneg off v : laid_out off v → 0 ≤ sum_sizes v.
Proof.
  revert off. induction v as [|e v IH]; intros off; [done|].
  intros (_ & ? & H%IH). rewrite sum_sizes_cons. lia.
Qed.

Lemma layout_split fs i e :
  layout_ok fs → (m_files fs)⟦i⟧ = Some e →
  let front := take (Z.to_nat i) (m_files fs) in
  let back := drop (Z.to_nat (i + 1)) (m_files fs) in
  m_files fs = front ++ e :: back ∧ fe_offset e = sum_sizes front ∧ 0 ≤ fe_size e ∧
  laid_out 0 front ∧ laid_out (fe_offset e + fe_size e) back ∧
  0 ≤ fe_offset e ∧ fe_offset e + fe_size e ≤ m_total_size fs.
Proof.
  intros (Hl & Ht & Hm) He front back. pose proof (vget_Some_range _ _ _ He) as Hr.
  assert (m_files fs = front ++ e :: back) as Hs.
  { rewrite <-(take_drop (Z.to_nat i) (m_files fs)) at 1. f_equal. unfold back.
    replace (Z.to_nat (i + 1)) with (S (Z.to_nat i)) by lia. apply drop_S.
    unfold vget in He. by destruct (i <? 0). }
  rewrite Hs, laid_out_app in Hl. destruct Hl as (H1 & H2 & H3 & H4). rewrite Z.add_0_l in *.
  rewrite Hs, sum_sizes_app, sum_sizes_cons in Ht.
  pose proof (laid_out_nonneg _ _ H1). pose proof (laid_out_nonneg _ _ H4).
  rewrite H2. repeat split; auto; lia.
Qed.

(** ** The file that holds a byte *)

Lemma upper_bound_range target v : 0 ≤ upper_bound target v ≤ vsize v.
Proof.
  induction v as [|e v IH]; cbn [upper_bound]; [done|]. vsize.
  destruct (compare_file_offset _ _); lia.
Qed.

(** it is the last one that starts at the byte or before *)
Lemma upper_bound_files target v w :
  Forall (λ e, fe_offset e ≤ fe_offset target) v →
  match w with e :: _ => fe_offset target < fe_offset e | [] => True end →
  upper_bound target (v ++ w) = vsize v.
Proof.
  induction 1 as [|e v He Hv IH]; intros Hw; cbn [app upper_bound].
  - destruct w as [|e w]; [done|]. cbn. unfold compare_file_offset.
    by rewrite (proj2 (Z.ltb_lt _ _)).
  - unfold compare_file_offset. rewrite (proj2 (Z.ltb_ge _ _)) by done. rewrite IH by done. vsize.
Qed.

Lemma laid_out_before off v x :
  laid_out off v → off + sum_sizes v ≤ x → Forall (λ e, fe_offset e ≤ x) v.
Proof.
  revert off. induction v as [|e v IH]; intros off; [done|].
  intros (He & Hs & Hv) Hx. rewrite sum_sizes_cons in Hx. pose proof (laid_out_nonneg _ _ Hv).
  constructor; [lia|]. eapply IH; [done|lia].
Qed.

(** the split of the files at a byte: the last file that starts there or before *)
Lemma find_file off v x :
  laid_out off v → v ≠ [] → off ≤ x →
  ∃ front e back, v = front ++ e :: back ∧ fe_offset e ≤ x ∧
    Forall (λ e, fe_offset e ≤ x) front ∧
    match back with e' :: _ => x < fe_offset e' | [] => True end.
Proof.
  revert off. induction v as [|e v IH]; intros off; cbn [laid_out]; [done|].
  intros (He & Hs & Hv) _ Hx.
  destruct (decide (off + fe_size e ≤ x)) as [Hn|Hn].
  - destruct v as [|e' v'].
    + exists [], e, []. repeat split; auto; lia.
    + destruct (IH _ Hv ltac:(done) Hn) as (f & e2 & b & -> & H1 & H2 & H3).
      exists (e :: f), e2, b. repeat split; auto. constructor; [lia|done].
  - exists [], e, v. repeat split; auto; [lia|]. destruct v as [|e' v]; [done|].
    cbn in Hv. destruct Hv as (-> & _). lia.
Qed.

Lemma target_offset x : 0 ≤ x < max_total → fe_offset (with_offset new_entry x) = x.
Proof. intros. cbn. by apply uint_small. Qed.

Definition with_file (fs : file_storage) (x i : Z) (e : internal_file_entry) : Prop :=
  upper_bound (with_offset new_entry x) (m_files fs) - 1 = i ∧ (m_files fs)⟦i⟧ = Some e ∧
  fe_offset e ≤ x ∧ (x < m_total_size fs → x < fe_offset e + fe_size e).

Lemma upper_bound_file fs x :
  layout_ok fs → m_files fs ≠ [] → 0 ≤ x < max_total → ∃ i e, with_file fs x i e.
Proof.
  intros (Hl & Ht & Hm) Hne Hx.
  destruct (find_file 0 (m_files fs) x Hl Hne) as (f & e & b & Hs & He & Hf & Hb); [lia|].
  exists (vsize f), e. unfold with_file. rewrite Hs.
  change (f ++ e :: b) with (f ++ [e] ++ b).
  rewrite (app_assoc f [e] b), upper_bound_files.
  - rewrite <-app_assoc. cbn [app]. rewrite vget_middle. split; [vsize|]. split; [done|].
    split; [done|]. intros Hxt. rewrite Ht, Hs, sum_sizes_app, sum_sizes_cons in Hxt.
    rewrite Hs, laid_out_app in Hl. destruct Hl as (H1 & H2 & H3 & H4).
    destruct b as [|e' b]; [cbn in Hxt; lia|]. cbn in H4. lia.
  - rewrite target_offset by done. apply Forall_app. split; [done|]. by constructor.
  - by rewrite target_offset.
Qed.

(** ** Blocks *)

(** a slice is a part of a file, and not empty *)
Definition slice_ok (fs : file_storage) (s : file_slice) : Prop :=
  ∃ e, (m_files fs)⟦fsl_file_index s⟧ = Some e ∧
    0 ≤ fsl_offset s ∧ 0 < fsl_size s ∧ fsl_offset s + fsl_size s ≤ fe_size e.

(** the positions in the torrent of the bytes of a slice *)
Definition slice_bytes (fs : file_storage) (s : file_slice) : list Z :=
  match (m_files fs)⟦fsl_file_index s⟧ with
  | Some e => seqZ (fe_offset e + fsl_offset s) (fsl_size s)
  | None => []
  end.

(** the files are visited in order, and none twice *)
Fixpoint rising (i : Z) (slices : list file_slice) : Prop :=
  match slices with
  | [] => True
  | s :: slices => i ≤ fsl_file_index s ∧ rising (fsl_file_index s + 1) slices
  end.

Record slices_of (fs : file_storage) (from n : Z) (slices : list file_slice) : Prop := {
  so_ok : Forall (slice_ok fs) slices;
  so_rising : rising 0 slices;
  so_bytes : concat (slice_bytes fs <$> slices) = seqZ from n
}.

Lemma seqZ_app m n k : 0 ≤ n → 0 ≤ k → seqZ m n ++ seqZ (m + n) k = seqZ m (n + k).
Proof. intros. symmetry. by apply seqZ_app. Qed.

Lemma rising_mono i j l : rising i l → j ≤ i → rising j l.
Proof. destruct l as [|s l]; [done|]. cbn. intros [? ?] ?. split; [lia|done]. Qed.

Lemma map_block_loop_spec fs front v off fo n :
  m_files fs = front ++ v → laid_out off v →
  n ≤ 0 ∨ 0 ≤ fo ∧ fo + n ≤ sum_sizes v →
  ∃ slices, map_block_loop v (vsize front) fo n = Some slices ∧
    Forall (slice_ok fs) slices ∧ rising (vsize front) slices ∧
    concat (slice_bytes fs <$> slices) = seqZ (off + fo) n.
Proof.
  revert front off fo n. induction v as [|e v IH]; intros front off fo n Hs Hl Hn;
    cbn [map_block_loop]; (destruct (Z.leb_spec n 0); [by exists []; rewrite seqZ_nil by done|]).
  - destruct Hn as [?|[? Hn]]; [lia|]. cbn in Hn. lia.
  - destruct Hn as [?|[Hf Hn]]; [lia|]. rewrite sum_sizes_cons in Hn. destruct Hl as (He & Hz & Hl).
    replace (vsize front + 1) with (vsize (front ++ [e])) by vsize.
    assert (m_files fs = (front ++ [e]) ++ v) as Hs' by (by rewrite <-app_assoc).
    destruct (Z.ltb_spec fo (fe_size e)).
    + set (k := Z.min (fe_size e - fo) n).
      destruct (IH _ (off + fe_size e) (fo + k - fe_size e) (n - k) Hs' Hl) as (r & -> & Hok & Hr & Hb); [lia|].
      cbn [mbind option_bind]. eexists. split; [done|].
      assert ((m_files fs)⟦vsize front⟧ = Some e) as Hg by (rewrite Hs; apply vget_middle).
      split; [|split].
      * constructor; [|done]. exists e. cbn. split; [done|]. lia.
      * cbn. split; [done|]. eapply rising_mono; [done|]. vsize.
      * cbn [fmap list_fmap concat]. rewrite Hb. unfold slice_bytes. cbn. rewrite Hg, He.
        replace (off + fe_size e + (fo + k - fe_size e)) with (off + fo + k) by lia.
        rewrite seqZ_app by lia. f_equal. lia.
    + destruct (IH _ (off + fe_size e) (fo - fe_size e) n Hs' Hl) as (r & -> & Hok & Hr & Hb); [lia|].
      exists r. split_and!; try done.
      * eapply rising_mono; [done|]. vsize.
      * rewrite Hb. f_equal. lia.
Qed.

(** the number of bytes that [map_block] maps *)
Definition mapped_size (fs : file_storage) (from n : Z) : Z := Z.min n (m_total_size fs - from).

Lemma map_block_spec fs piece offset n :
  layout_ok fs → m_files fs ≠ [] → n < 2 ^ 31 →
  let from := piece * m_piece_length fs + offset in
  0 ≤ from < max_total → - 2 ^ 31 ≤ m_total_size fs - from →
  ∃ slices, map_block fs piece offset n = Some slices ∧
    slices_of fs from (mapped_size fs from n) slices.
Proof.
  intros Hl Hne Hn from Hfrom Hback. unfold map_block.
  destruct (upper_bound_file fs from Hl Hne Hfrom) as (i & e & Hu & He & Hle & Hlt).
  destruct (m_files fs) as [|e0 v0] eqn:Hf; [done|]. fold from. rewrite <-Hf in *. clear e0 v0 Hf Hne.
  rewrite Hu, He, target_offset by done. cbn [mbind option_bind].
  destruct (layout_split fs i e Hl He) as (Hs & Ho & Hz & H1 & H2 & _ & _).
  pose proof Hl as (_ & Ht & _).
  rewrite Hs, sum_sizes_app, sum_sizes_cons in Ht. pose proof (laid_out_nonneg _ _ H2).
  assert (drop (Z.to_nat i) (m_files fs) = e :: drop (Z.to_nat (i + 1)) (m_files fs)) as ->.
  { apply vget_Some_range in He as Hr. replace (Z.to_nat (i + 1)) with (S (Z.to_nat i)) by lia.
    apply drop_S. unfold vget in He. by destruct (i <? 0). }
  assert (i = vsize (take (Z.to_nat i) (m_files fs))) as Hi.
  { apply vget_Some_range in He. unfold vsize in *. rewrite length_take. lia. }
  set (n' := if m_total_size fs <? from + n then _ else n).
  assert (n' = mapped_size fs from n) as ->.
  { unfold n', mapped_size. destruct (Z.ltb_spec (m_total_size fs) (from + n)); [|lia].
    rewrite sint_small by lia. lia. }
  destruct (map_block_loop_spec fs _ (e :: drop (Z.to_nat (i + 1)) (m_files fs)) (fe_offset e)
    (from - fe_offset e) (mapped_size fs from n) Hs) as (r & Hloop & Hok & Hr & Hb).
  - cbn. auto.
  - unfold mapped_size in *. rewrite sum_sizes_cons.
    destruct (decide (from < m_total_size fs)); [right|left]; lia.
  - rewrite <-Hi in Hloop. exists r. split; [done|]. split; [done| |].
    + eapply rising_mono; [done|]. apply vsize_nonneg.
    + rewrite Hb. f_equal. lia.
Qed.

(** ** Bytes of files and of pieces *)

(** a file ends before the files behind it start *)
Lemma file_order fs i j e e' :
  layout_ok fs → (m_files fs)⟦i⟧ = Some e → (m_files fs)⟦j⟧ = Some e' → i < j →
  fe_offset e + fe_size e ≤ fe_offset e'.
Proof.
  intros Hl He He' Hij.
  destruct (layout_split fs j e' Hl He') as (_ & -> & _ & Hf & _).
  apply vget_Some_range in He as Hr. apply vget_Some_range in He' as Hr'.
  assert ((take (Z.to_nat j) (m_files fs))⟦i⟧ = Some e) as Hg.
  { unfold vget in *. destruct (i <? 0); [done|]. rewrite lookup_take_lt; [done|lia]. }
  apply vget_elem_of, list_elem_of_split in Hg as (a & b & Hs). rewrite Hs in Hf |- *.
  rewrite laid_out_app in Hf. destruct Hf as (Ha & Ho & _ & Hb).
  rewrite sum_sizes_app, sum_sizes_cons. pose proof (laid_out_nonneg _ _ Hb). lia.
Qed.

(** the byte [x] of the torrent is in the file [i] *)
Definition in_file (fs : file_storage) (i x : Z) : Prop :=
  ∃ e, (m_files fs)⟦i⟧ = Some e ∧ fe_offset e ≤ x < fe_offset e + fe_size e.

Lemma in_file_unique fs i j x : layout_ok fs → in_file fs i x → in_file fs j x → i = j.
Proof.
  intros Hl (e & He & Hx) (e' & He' & Hx').
  destruct (Z.lt_trichotomy i j) as [H|[H|H]]; [|done|].
  - pose proof (file_order fs i j _ _ Hl He He' H). lia.
  - pose proof (file_order fs j i _ _ Hl He' He H). lia.
Qed.

Lemma file_index_at_offset_spec fs i x :
  layout_ok fs → in_file fs i x → file_index_at_offset fs x = i.
Proof.
  intros Hl Hi. pose proof Hi as (e & He & Hx).
  destruct (layout_split fs i e Hl He) as (Hs & _ & _ & _ & _ & H0 & H1).
  pose proof Hl as (_ & _ & Hm).
  destruct (upper_bound_file fs x Hl) as (j & e' & Hu & He' & Hle & Hlt); [|lia|].
  { intros Hn. by rewrite Hn, vget_nil in He. }
  unfold file_index_at_offset. rewrite Hu. eapply (in_file_unique fs _ _ x Hl); [|done].
  exists e'. split; [done|]. lia.
Qed.

(** piece lengths and piece numbers are ints *)
Definition pieces_ok (fs : file_storage) : Prop :=
  0 < m_piece_length fs < 2 ^ 31 ∧ m_total_size fs ≤ (2 ^ 31 - 2) * m_piece_length fs.

Lemma map_file_spec fs i e off n :
  layout_ok fs → pieces_ok fs → (m_files fs)⟦i⟧ = Some e → 0 ≤ off → n < 2 ^ 31 →
  let x := off + fe_offset e in
  map_file fs i off n = Some (
    if m_total_size fs <=? x then PeerRequest (end_piece fs) 0 0
    else PeerRequest (x / m_piece_length fs) (x mod m_piece_length fs) (mapped_size fs x n)).
Proof.
  intros Hl (Hp & Hm) He Ho Hn x. pose proof (vget_Some_range _ _ _ He).
  unfold map_file, num_files, file_offset. rewrite (proj2 (Z.leb_gt _ _)) by lia.
  rewrite He. cbn [mbind option_bind]. fold x.
  destruct (Z.leb_spec (m_total_size fs) x); [done|].
  destruct (layout_split fs i e Hl He) as (_ & _ & _ & _ & _ & Hpos & _).
  assert (0 ≤ x / m_piece_length fs < 2 ^ 31) as Hq.
  { split; [apply Z.div_pos; lia|]. apply Z.div_lt_upper_bound; lia. }
  pose proof (Z.mod_pos_bound x (m_piece_length fs)).
  rewrite (proj2 (Z.eqb_neq _ _)) by lia. cbn [negb guard_b mbind option_bind].
  rewrite Z.quot_div_nonneg, Z.rem_mod_nonneg, !(sint_small 32) by lia.
  unfold mapped_size. destruct (Z.ltb_spec (m_total_size fs) (x + n)); repeat f_equal; try lia.
  rewrite sint_small; lia.
Qed.

Lemma in_file_bounds fs i e :
  layout_ok fs → (m_files fs)⟦i⟧ = Some e → 0 ≤ fe_offset e ∧ 0 ≤ fe_size e ∧
    fe_offset e + fe_size e ≤ m_total_size fs.
Proof. intros Hl He. destruct (layout_split fs i e Hl He) as (? & ? & ? & ? & ? & ? & ?). lia. Qed.

(** The request for a byte of a file is the request for that byte of the
    torrent, and [map_block] leads back to the file. *)
Lemma map_file_block fs i e off :
  layout_ok fs → pieces_ok fs → (m_files fs)⟦i⟧ = Some e → 0 ≤ off < fe_size e →
  ∃ r, map_file fs i off 1 = Some r ∧ pr_length r = 1 ∧ 0 ≤ pr_start r < m_piece_length fs ∧
    map_block fs (pr_piece r) (pr_start r) (pr_length r) = Some [FileSlice i off 1] ∧
    file_index_at_offset fs (pr_piece r * m_piece_length fs + pr_start r) = i.
Proof.
  intros Hl Hp He Ho. pose proof (in_file_bounds fs i e Hl He) as (H0 & _ & H1).
  rewrite (map_file_spec fs i e off 1 Hl Hp He) by lia.
  rewrite (proj2 (Z.leb_gt _ _)) by lia. eexists. split; [done|]. cbn.
  set (x := off + fe_offset e). destruct Hp as (Hp & Hm).
  assert (mapped_size fs x 1 = 1) as Hx by (unfold mapped_size; lia).
  assert (x / m_piece_length fs * m_piece_length fs + x mod m_piece_length fs = x) as Hd.
  { rewrite Z.mul_comm. symmetry. apply Z.div_mod. lia. }
  assert (in_file fs i x) as Hi by (exists e; split; [done|lia]).
  split; [done|]. split; [apply Z.mod_pos_bound; lia|].
  rewrite Hx, Hd. split; [|by apply file_index_at_offset_spec].
  destruct (map_block_spec fs (x / m_piece_length fs) (x mod m_piece_length fs) 1 Hl)
    as (l & -> & [Hok Hr Hb]); rewrite ?Hd in *; pose proof Hl as (_ & _ & Ht); try lia.
  { intros Hn. by rewrite Hn, vget_nil in He. }
  rewrite Hx in Hb. f_equal. destruct l as [|s l]; [done|].
  apply Forall_cons in Hok as [(e' & He' & S1 & S2 & S3) Hok].
  cbn in Hb. unfold slice_bytes at 1 in Hb. rewrite He' in Hb.
  assert (in_file fs (fsl_file_index s) x) as Hi'.
  { exists e'. split; [done|]. rewrite seqZ_cons in Hb by lia. injection Hb as Hb _. lia. }
  assert (i = fsl_file_index s) as -> by (eapply in_file_unique; eauto). simplify_eq.
  apply (f_equal length) in Hb as Hlen.
  rewrite length_app, !length_seqZ in Hlen. cbn [Z.to_nat Pos.to_nat Pos.iter_op] in Hlen.
  destruct l as [|s' l].
  - destruct s as [si so sn]. cbn in *. rewrite seqZ_cons in Hb by lia. injection Hb as Hb _.
    f_equal. f_equal; cbn in Hlen; lia.
  - exfalso. apply Forall_cons in Hok as [(e2 & He2 & T1 & T2 & T3) _]. cbn in Hlen.
    unfold slice_bytes at 1 in Hlen. rewrite He2, length_app, length_seqZ in Hlen. lia.
Qed.

(** ** The pieces of a file *)

Lemma div_between p x l : 0 < l → x / l = p ↔ p * l ≤ x < (p + 1) * l.
Proof.
  intros Hl. split.
  - intros <-. pose proof (Z.div_mod x l ltac:(lia)). pose proof (Z.mod_pos_bound x l Hl). lia.
  - intros Hx. symmetry. apply (Z.div_unique _ _ _ (x - l * p)); lia.
Qed.

Lemma div_ge p x l : 0 < l → p ≤ x / l ↔ p * l ≤ x.
Proof.
  intros Hl. split; intros H.
  - pose proof (Z.mul_div_le x l Hl). nia.
  - apply Z.div_le_lower_bound; lia.
Qed.

Lemma first_byte fs i e :
  layout_ok fs → pieces_ok fs → (m_files fs)⟦i⟧ = Some e → 0 < fe_size e →
  ∃ r, map_file fs i 0 1 = Some r ∧ pr_piece r = fe_offset e / m_piece_length fs ∧
    pr_start r = fe_offset e mod m_piece_length fs ∧
    pr_piece r * m_piece_length fs + pr_start r = fe_offset e.
Proof.
  intros Hl Hp He Hz. pose proof (in_file_bounds fs i e Hl He) as (Ho & _ & Ht).
  rewrite (map_file_spec fs i e 0 1 Hl Hp He) by lia. rewrite Z.add_0_l.
  rewrite (proj2 (Z.leb_gt _ _)) by lia. eexists. split; [done|]. cbn. split; [done|]. split; [done|].
  rewrite Z.mul_comm. symmetry. apply Z.div_mod. destruct Hp. lia.
Qed.

(** the pieces that hold a byte of the file *)
Lemma piece_range_inclusive_spec fs i e :
  layout_ok fs → pieces_ok fs → (m_files fs)⟦i⟧ = Some e → 0 < fe_size e →
  ∃ a b, file_piece_range_inclusive fs i = Some (a, b) ∧
    ∀ p, a ≤ p < b ↔ ∃ x, in_file fs i x ∧ x / m_piece_length fs = p.
Proof.
  intros Hl Hp He Hz. destruct (first_byte fs i e Hl Hp He Hz) as (r & Hr & Hrp & Hrs & Hx).
  pose proof (in_file_bounds fs i e Hl He) as (Ho & _ & Ht). pose proof Hp as (Hlen & Hmax).
  unfold file_piece_range_inclusive, file_size. rewrite Hr, He. cbn [mbind option_bind].
  rewrite (proj2 (Z.eqb_neq _ _)) by lia. cbn [negb guard_b mbind option_bind].
  rewrite Hx, Z.quot_div_nonneg by lia.
  assert (0 ≤ (fe_offset e + fe_size e - 1) / m_piece_length fs < 2 ^ 31 - 1) as Hq.
  { split; [apply Z.div_pos; lia|]. apply Z.div_lt_upper_bound; lia. }
  rewrite sint_small by lia. eexists _, _. split; [done|]. rewrite Hrp. intros p. split.
  - intros [H1 H2]. assert (p ≤ (fe_offset e + fe_size e - 1) / m_piece_length fs) as Hp2 by lia.
    apply div_ge in Hp2; [|lia].
    assert (fe_offset e < (p + 1) * m_piece_length fs).
    { destruct (Z.lt_ge_cases (fe_offset e) ((p + 1) * m_piece_length fs)) as [|Hge]; [done|].
      apply div_ge in Hge; lia. }
    exists (Z.max (fe_offset e) (p * m_piece_length fs)). split; [exists e; split; [done|lia]|].
    apply div_between; lia.
  - intros (x & (e' & He' & Hin) & <-). simplify_eq.
    assert (fe_offset e / m_piece_length fs ≤ x / m_piece_length fs) by (apply Z.div_le_mono; lia).
    assert (x / m_piece_length fs ≤ (fe_offset e + fe_size e - 1) / m_piece_length fs)
      by (apply Z.div_le_mono; lia).
    lia.
Qed.

(** The pieces that start in the file and end in it, or one byte behind it;
    the last file has all the pieces that start in it. *)
Lemma piece_range_exclusive_spec fs i e :
  layout_ok fs → pieces_ok fs → (m_files fs)⟦i⟧ = Some e → 0 < fe_size e →
  ∃ a b, file_piece_range_exclusive fs i = Some (a, b) ∧
    ∀ p, a ≤ p < b ↔ fe_offset e ≤ p * m_piece_length fs ∧
      if i =? num_files fs - 1 then p < m_num_pieces fs
      else (p + 1) * m_piece_length fs ≤ fe_offset e + fe_size e + 1.
Proof.
  intros Hl Hp He Hz. destruct (first_byte fs i e Hl Hp He Hz) as (r & Hr & Hrp & Hrs & Hx).
  pose proof (in_file_bounds fs i e Hl He) as (Ho & _ & Ht). pose proof Hp as (Hlen & Hmax).
  unfold file_piece_range_exclusive, file_size. rewrite Hr, He. cbn [mbind option_bind].
  set (a := if pr_start r =? 0 then pr_piece r else pr_piece r + 1).
  assert (∀ p, a ≤ p ↔ fe_offset e ≤ p * m_piece_length fs) as Ha.
  { intros p. unfold a. pose proof (Z.mod_pos_bound (fe_offset e) (m_piece_length fs)).
    destruct (Z.eqb_spec (pr_start r) 0); split; intros; nia. }
  destruct (Z.eqb_spec i (num_files fs - 1)).
  { eexists _, _. split; [done|]. intros p. specialize (Ha p). tauto. }
  rewrite (proj2 (Z.eqb_neq _ _)) by lia. cbn [negb guard_b mbind option_bind].
  rewrite Hx, Z.quot_div_nonneg by lia.
  assert (0 ≤ (fe_offset e + fe_size e + 1) / m_piece_length fs < 2 ^ 31) as Hq.
  { split; [apply Z.div_pos; lia|]. apply Z.div_lt_upper_bound; lia. }
  rewrite sint_small by lia. eexists _, _. split; [done|]. intros p.
  pose proof (div_ge (p + 1) (fe_offset e + fe_size e + 1) (m_piece_length fs)).
  specialize (Ha p). split; intros [H1 H2]; (split; [tauto|]).
  - apply H; lia.
  - apply H in H2; lia.
Qed.
