(* ===== verification/FileOps.v ===== *)
(** The names and the paths of the files of a [file_storage], and adding and
    renaming files: the storage stays well formed, and a file has the path it
    was given. *)

From S2P Require Import Prelude.
From stdpp Require Import list.
From S2P Require Import StringUtil.
From S2P Require Import Path.
From S2P Require Import PathCorrect.
From S2P Require Import FileStorage.
From S2P Require Import FileLayout.

Open Scope Z_scope.

(** ** Names *)

Lemma c_str_nul s : 0 ∉ c_str s.
Proof.
  induction s as [|c s IH]; [apply not_elem_of_nil|]. cbn. destruct (Z.eqb_spec c 0); [apply not_elem_of_nil|].
  rewrite not_elem_of_cons. auto.
Qed.

(** the pointer and the length beside it fit each other *)
Definition name_ok (e : internal_file_entry) : Prop :=
  match fe_name e with
  | name_null => fe_name_len e = name_is_owned ∨ fe_name_len e = 0
  | name_copy _ => fe_name_len e = name_is_owned
  | name_borrowed s => fe_name_len e = vsize s ∧ vsize s < name_is_owned
  end.

Lemma name_ok_filename e : name_ok e → ∃ n, entry_filename e = Some n.
Proof.
  unfold name_ok, entry_filename. destruct (fe_name e) as [|s|s].
  - intros [->| ->]; eauto.
  - intros ->. eauto.
  - intros [-> ?]. rewrite (proj2 (Z.eqb_neq _ _)) by lia. cbn [negb].
    rewrite Z.leb_refl. eauto.
Qed.

Lemma name_ok_delete e : name_ok e → delete_name e = Some tt.
Proof.
  unfold name_ok, delete_name. destruct (fe_name e) as [|s|s]; [by case_match..|].
  intros [-> ?]. by rewrite (proj2 (Z.eqb_neq _ _)) by lia.
Qed.

(** what [set_name] leaves: [n] is what [filename] gives from then on *)
Lemma set_name_spec e n borrow :
  delete_name e = Some tt → n ≠ [] → (borrow = true → vsize n < name_is_owned) →
  ∃ p len, set_name e n borrow = Some (with_name e p len) ∧
    ∀ e', fe_name e' = p → fe_name_len e' = len →
      name_ok e' ∧ entry_filename e' = Some (if borrow then n else c_str n).
Proof.
  intros He Hn Hb. unfold set_name. rewrite He. cbn [mbind option_bind].
  destruct n as [|c n]; [done|]. destruct borrow.
  - specialize (Hb eq_refl). rewrite (proj2 (Z.leb_gt _ _)) by lia.
    eexists _, _. split; [done|]. intros e' Hp Hlen. unfold name_ok, entry_filename.
    rewrite Hp, Hlen, uint_small by (change name_is_owned with (2 ^ 12 - 1) in Hb; vsize;
      pose proof (vsize_nonneg n); vsize in Hb; lia).
    rewrite (proj2 (Z.eqb_neq _ _)) by lia. cbn [negb]. rewrite Z.leb_refl, take_vsize_self. done.
  - eexists _, _. split; [done|]. intros e' Hp Hlen. unfold name_ok, entry_filename.
    by rewrite Hp, Hlen.
Qed.

(** a copy of an entry has its name *)
Lemma copy_entry_spec fe n :
  name_ok fe → entry_filename fe = Some n →
  ∃ fe', copy_entry fe = Some fe' ∧ fe' = with_name fe (fe_name fe') (fe_name_len fe') ∧
    entry_filename fe' = Some n.
Proof.
  intros He Hn. unfold copy_entry. rewrite Hn. cbn [mbind option_bind].
  assert (delete_name (with_name fe name_null (fe_name_len fe)) = Some tt) as Hd.
  { unfold delete_name. cbn. by case_match. }
  assert (n = [] ∨ n ≠ []) as [->|Hn'] by (destruct n; auto).
  - unfold set_name. rewrite Hd. cbn [mbind option_bind]. eexists. split; [done|]. split; [done|].
    unfold name_ok, entry_filename in *. cbn [fe_name_len fe_name with_name].
    destruct (fe_name fe) as [|s|s].
    + destruct He as [-> | ->]; done.
    + by rewrite He.
    + destruct He as [He Hs]. rewrite He in *. rewrite (proj2 (Z.eqb_neq _ _)) in * by lia.
      cbn [negb] in *.
      rewrite Z.leb_refl, take_vsize_self in Hn. by injection Hn as ->.
  - destruct (set_name_spec _ n (negb (fe_name_len fe =? name_is_owned)) Hd Hn')
      as (p & len & -> & Hs).
    + unfold name_ok, entry_filename in *. destruct (Z.eqb_spec (fe_name_len fe) name_is_owned); [done|].
      intros _. cbn [negb] in Hn. destruct (fe_name fe) as [|s|s]; [|done|].
      * destruct He as [?|Hz]; [done|]. rewrite Hz in Hn. by injection Hn as <-.
      * destruct He as [He Hlt]. rewrite He, Z.leb_refl, take_vsize_self in Hn. by injection Hn as <-.
    + eexists. split; [done|]. split; [done|].
      destruct (Hs (with_name (with_name fe name_null (fe_name_len fe)) p len)) as [_ ->]; [done..|].
      unfold name_ok, entry_filename in *. destruct (Z.eqb_spec (fe_name_len fe) name_is_owned) as [Ho|Ho]; [|done].
      cbn [negb] in *. f_equal. destruct (fe_name fe) as [|s|s].
      * by injection Hn as <-.
      * injection Hn as <-. apply c_str_id, c_str_nul.
      * destruct He as [He Hlt]. lia.
Qed.

(** ** Entries and storages *)

Record entry_ok (paths symlinks : Z) (e : internal_file_entry) : Prop := {
  eo_name : name_ok e;
  eo_path : fe_path_index e = -2 ∨ fe_path_index e = -1 ∨ 0 ≤ fe_path_index e < paths;
  eo_link : fe_symlink_attribute e = true → 0 ≤ fe_symlink_index e < symlinks
}.

Lemma entry_ok_mono p q s t e : entry_ok p s e → p ≤ q → s ≤ t → entry_ok q t e.
Proof. intros [H1 H2 H3] ? ?. split; [done| |intros ?%H3]; lia. Qed.

(** digests are as long as they must be *)
Definition digest_ok (p : option (list Z)) : Prop :=
  match p with Some s => 20 ≤ vsize s | None => True end.

Record names_ok (fs : file_storage) : Prop := {
  no_entries : Forall (entry_ok (vsize (m_paths fs)) (vsize (m_symlinks fs))) (m_files fs);
  no_mtimes : vsize (m_mtime fs) ≤ num_files fs;
  no_hashes : vsize (m_file_hashes fs) ≤ num_files fs;
  no_digests : Forall digest_ok (m_file_hashes fs)
}.

(** only the paths, and those in front, are the same *)
Record more_paths (fs fs' : file_storage) : Prop := {
  mp_paths : ∃ extra, m_paths fs' = m_paths fs ++ extra;
  mp_rest : fs' = set_paths fs (m_paths fs')
}.

Lemma more_paths_refl fs : more_paths fs fs.
Proof. split; [exists []; by rewrite app_nil_r|by destruct fs]. Qed.

Lemma find_last_spec v s p : find_last v s = Some p → v⟦p⟧ = Some s.
Proof.
  revert p. induction v as [|x v IH]; intros p; [done|]. cbn [find_last].
  destruct (find_last v s) as [q|].
  - intros [= <-]. specialize (IH q eq_refl). apply vget_Some_range in IH as Hr.
    by rewrite vget_cons_S by lia.
  - unfold same_string. case_bool_decide as Hx; [|done]. intros [= <-]. by rewrite Hx.
Qed.

Lemma get_or_add_path_spec fs path :
  let '(fs', i) := get_or_add_path fs path in
  more_paths fs fs' ∧ (m_paths fs')⟦i⟧ = Some path.
Proof.
  unfold get_or_add_path. destruct (find_last (m_paths fs) path) as [p|] eqn:Hp.
  - split; [apply more_paths_refl|]. by apply find_last_spec.
  - split; [split; [by exists [path]|done]|]. cbn. apply vget_middle.
Qed.

(** the leaf of the path of a file *)
Definition leaf_of (path : list Z) : list Z :=
  if is_complete path then path else (rsplit_path path).2.

(** the directory of a file below the root, and whether it is below the root *)
Definition directory_of (name path : list Z) : option (bool * list Z) :=
  if is_complete path then None
  else
    match (rsplit_path path).1 with
    | [] => None
    | branch =>
        Some (if same_string (lsplit_path branch).1 name
              then (true, strip_separators (lsplit_path branch).2) else (false, branch))
    end.

(** what [update_path_index] makes of the path index *)
Definition placed (fs : file_storage) (path : list Z) (e : internal_file_entry) : Prop :=
  match directory_of (m_name fs) path with
  | None => fe_path_index e = if is_complete path then -2 else -1
  | Some (root, dir) =>
      (m_paths fs)⟦fe_path_index e⟧ = Some dir ∧ fe_no_root_dir e = negb root
  end.

(** only the name and the path of an entry *)
Definition same_file (e e' : internal_file_entry) : Prop :=
  e' = with_name (with_path e (fe_no_root_dir e') (fe_path_index e')) (fe_name e') (fe_name_len e').

Lemma update_path_index_spec fs e path set_leaf :
  name_ok e → (set_leaf = true ∨ is_complete path = true → leaf_of path ≠ []) →
  ∃ fs' e', update_path_index fs e path set_leaf = Some (fs', e') ∧
    more_paths fs fs' ∧ placed fs' path e' ∧ same_file e e' ∧ name_ok e' ∧
    (if set_leaf || is_complete path then entry_filename e' = Some (c_str (leaf_of path))
     else fe_name e' = fe_name e ∧ fe_name_len e' = fe_name_len e).
Proof.
  intros He Hleaf. unfold update_path_index, placed, directory_of, leaf_of in *.
  destruct (is_complete path) eqn:Hc.
  { destruct (set_name_spec e path false (name_ok_delete e He)) as (p & len & -> & Hs); auto; [done|].
    cbn [mbind option_bind]. eexists _, _. split; [done|]. rewrite orb_true_r.
    destruct (Hs (with_path (with_name e p len) (fe_no_root_dir e) (-2)) eq_refl eq_refl).
    split; [apply more_paths_refl|]. repeat split; auto. }
  rewrite orb_false_r. destruct (rsplit_path path) as [branch leaf]. cbn [fst snd] in *.
  assert (∀ e0, fe_name e0 = fe_name e → fe_name_len e0 = fe_name_len e →
    ∃ p len, (if set_leaf then set_name e0 leaf false else Some e0) = Some (with_name e0 p len) ∧
    ∀ e', fe_name e' = p → fe_name_len e' = len → name_ok e' ∧
      if set_leaf then entry_filename e' = Some (c_str leaf)
      else fe_name e' = fe_name e ∧ fe_name_len e' = fe_name_len e) as Hset.
  { intros e0 H1 H2. destruct set_leaf.
    - destruct (set_name_spec e0 leaf false) as (p & len & -> & Hs); [|by auto|done|eauto].
      apply name_ok_delete. unfold name_ok in *. by rewrite H1, H2.
    - exists (fe_name e0), (fe_name_len e0). split; [by destruct e0|]. intros e' H3 H4.
      split; [|by rewrite H3, H4]. unfold name_ok in *. by rewrite H3, H4, H1, H2. }
  destruct branch as [|c b].
  - destruct (Hset e eq_refl eq_refl) as (p & len & -> & Hs). cbn [mbind option_bind].
    eexists _, _. split; [done|].
    destruct (Hs (with_path (with_name e p len) (fe_no_root_dir e) (-1)) eq_refl eq_refl).
    split; [apply more_paths_refl|]. repeat split; auto.
  - set (root := same_string _ (m_name fs)). set (dir := if root then _ else c :: b).
    pose proof (get_or_add_path_spec fs dir) as Hg. destruct (get_or_add_path fs dir) as [fs' i].
    destruct Hg as [Hm Hi].
    destruct (Hset (with_path e (negb root) i) eq_refl eq_refl) as (p & len & -> & Hs).
    cbn [mbind option_bind]. eexists _, _. split; [done|].
    destruct (Hs (with_name (with_path e (negb root) i) p len) eq_refl eq_refl).
    assert (m_name fs' = m_name fs) as -> by (by rewrite (mp_rest _ _ Hm)).
    split; [done|]. split; [|split; [done|auto]]. fold root.
    unfold dir in Hi. destruct root; (split; [exact Hi|done]).
Qed.

(** ** The path of a file *)

Lemma strip_separators_join l : elements_ok l → strip_separators (join l) = join l.
Proof.
  intros Hl. destruct l as [|x l]; [done|]. apply Forall_cons in Hl as [Hx _].
  destruct (join_first x l Hx) as (c & s & -> & Hc). cbn. unfold is_separator.
  by destruct (Z.eqb_spec c separator).
Qed.

Lemma append_path_assoc save l k :
  elements_ok l → elements_ok k → l ≠ [] → l ≠ [dot] →
  append_path (append_path save (join l)) (join k) = append_path save (join (l ++ k)).
Proof.
  intros Hl Hk Hn Hd. unfold append_path at 2 3.
  destruct (list.last save) as [c|] eqn:Hsave; [|by apply append_path_join].
  destruct (same_string save [46]) eqn:Hs; [by apply append_path_join|].
  pose proof (join_not_nil l Hl Hn) as Hj. pose proof (join_not_nil (l ++ k)) as Hj'.
  destruct (join l) as [|c0 s0] eqn:El; [done|]. rewrite <-El.
  destruct (join (l ++ k)) as [|c1 s1] eqn:Ek.
  { destruct Hj'; [|by destruct l|done]. apply Forall_app. done. }
  rewrite <-Ek. clear Hj' Ek c1 s1.
  set (sep := if negb (is_separator c) then [separator] else []).
  destruct (join_last l Hl Hn) as (d & Hlast & Hd47 & _).
  unfold append_path. rewrite app_assoc, last_app, Hlast.
  assert (same_string ((save ++ sep) ++ join l) [46] = false) as ->.
  { apply bool_decide_eq_false. intros Hx. destruct save as [|b save]; [done|].
    injection Hx as -> Hx. apply (f_equal length) in Hx. rewrite !length_app, El in Hx.
    simpl in Hx. lia. }
  unfold is_separator. rewrite (proj2 (Z.eqb_neq _ _)) by done. cbn [negb].
  assert (k = [] ∨ k ≠ []) as [->|Hk'] by (destruct k; auto).
  - cbn [join]. by rewrite app_nil_r, app_assoc.
  - pose proof (join_not_nil k Hk Hk') as Hjk. destruct (join k) as [|c1 s1] eqn:Ek; [done|].
    rewrite <-Ek, join_app, <-!app_assoc by done. done.
Qed.

Lemma complete_path_leaf path : is_complete path = true → leaf_of path = path.
Proof. unfold leaf_of. by intros ->. Qed.

Lemma leaf_of_join l x : elements_ok (l ++ [x]) → leaf_of (join (l ++ [x])) = x.
Proof. intros Hl. unfold leaf_of. by rewrite join_not_complete, rsplit_path_join. Qed.

Lemma directory_of_join name l x :
  elements_ok (l ++ [x]) →
  directory_of name (join (l ++ [x])) =
    match l with
    | [] => None
    | r :: l' => Some (if same_string r name then (true, join l') else (false, join l))
    end.
Proof.
  intros Hl. unfold directory_of. rewrite join_not_complete, rsplit_path_join by done. cbn [fst].
  apply elements_snoc in Hl as [Hl _]. destruct l as [|r l]; [done|].
  pose proof (join_not_nil _ Hl ltac:(done)) as Hj. destruct (join (r :: l)) as [|c s] eqn:E; [done|].
  rewrite <-E, lsplit_path_join by done. cbn [fst snd].
  apply Forall_cons in Hl as [_ Hl]. by rewrite strip_separators_join.
Qed.

Lemma head_dot (l : list (list Z)) : head l ≠ Some dot → l ≠ [dot].
Proof. by intros Hl ->. Qed.

(** the path of a file that was placed by its path, with a leaf of its own *)
Lemma file_path_placed fs i e save l x leaf :
  (m_files fs)⟦i⟧ = Some e → elements_ok (l ++ [x]) → element_ok leaf → head l ≠ Some dot →
  placed fs (join (l ++ [x])) e → entry_filename e = Some leaf →
  file_path fs i save = Some (append_path save (join (l ++ [leaf]))).
Proof.
  intros He Hl Hleaf Hdot Hp Hn. unfold file_path. rewrite He. cbn [mbind option_bind].
  rewrite Hn. cbn [mbind option_bind]. unfold placed in Hp.
  rewrite directory_of_join, join_not_complete in Hp by done. apply elements_snoc in Hl as [Hl _].
  destruct l as [|r l]; [by rewrite Hp|]. pose proof Hl as [Hr Hl']%Forall_cons.
  assert (elements_ok [leaf]) as Hk by by apply Forall_singleton.
  change leaf with (join [leaf]). unfold same_string in Hp. case_bool_decide as Hname.
  - destruct Hp as [Hi Hroot]. apply vget_Some_range in Hi as Hrange.
    rewrite !(proj2 (Z.eqb_neq _ _)) by lia. rewrite Hi, Hroot. cbn [mbind option_bind negb].
    change (m_name fs) with (join [m_name fs]). rewrite <-Hname.
    assert ([r] ≠ [dot]) as Hrd by (intros [= ->]; done).
    rewrite (append_path_assoc save [r] l), (append_path_assoc save ([r] ++ l) [leaf]);
      try done; [by apply head_dot|by apply Forall_singleton].
  - destruct Hp as [Hi Hroot]. apply vget_Some_range in Hi as Hrange.
    rewrite !(proj2 (Z.eqb_neq _ _)) by lia. rewrite Hi, Hroot. cbn [mbind option_bind negb].
    rewrite (append_path_assoc save (r :: l) [leaf]); try done. by apply head_dot.
Qed.

Lemma file_path_complete fs i e save path leaf :
  (m_files fs)⟦i⟧ = Some e → is_complete path = true → placed fs path e →
  entry_filename e = Some leaf → file_path fs i save = Some leaf.
Proof.
  intros He Hc Hp Hn. unfold file_path. rewrite He. cbn [mbind option_bind]. rewrite Hn.
  cbn [mbind option_bind]. unfold placed, directory_of in Hp. rewrite Hc in Hp. by rewrite Hp.
Qed.

(** the layout of the files, and their names, paths and links *)
Definition storage_ok (fs : file_storage) : Prop := layout_ok fs ∧ names_ok fs.

Lemma new_storage_ok : storage_ok new_file_storage.
Proof. by repeat split. Qed.

(** ** Vectors beside the files *)

Lemma grow_to_size {A} (v : list A) n x : vsize (grow_to v n x) = Z.max (vsize v) n.
Proof. unfold grow_to. rewrite vsize_app. unfold vsize. rewrite length_replicate. lia. Qed.

Lemma grow_to_get {A} (v : list A) n x i :
  (grow_to v n x)⟦i⟧ = if i <? vsize v then v⟦i⟧ else if i <? n then Some x else None.
Proof.
  unfold grow_to. destruct (Z.ltb_spec i (vsize v)); [by rewrite vget_app_l|].
  rewrite vget_app_r by done. unfold vget. destruct (Z.ltb_spec (i - vsize v) 0); [lia|].
  destruct (Z.ltb_spec i n).
  - apply lookup_replicate. split; [done|lia].
  - apply lookup_replicate_None. lia.
Qed.

Lemma put_last_spec {A} (v : list A) n zero x :
  vsize v < n → ∃ w, put_last v n zero x = Some w ∧ vsize w = n ∧
    ∀ i, w⟦i⟧ = if i =? n - 1 then Some x else if i <? vsize v then v⟦i⟧
                else if i <? n then Some zero else None.
Proof.
  intros Hv. unfold put_last. pose proof (vsize_nonneg v).
  destruct (vset_is_Some (grow_to v n zero) (n - 1) x) as [w Hw].
  { rewrite grow_to_size. lia. }
  exists w. split; [done|]. split; [rewrite (vset_size _ _ _ _ Hw), grow_to_size; lia|].
  intros i. rewrite (vset_get _ _ _ _ _ Hw), grow_to_get. done.
Qed.

(** ** Adding *)

Definition new_name (fs : file_storage) (path : list Z) : list Z :=
  if negb (has_parent_path path) then path
  else match m_files fs with [] => (lsplit_path path).1 | _ => m_name fs end.

(** whether the target of a new link is recorded *)
Definition records_link (fs : file_storage) (symlink_path : list Z) : bool :=
  match symlink_path with [] => false | _ => vsize (m_symlinks fs) <? not_a_symlink - 1 end.

Record added (fs fs' : file_storage) (e : internal_file_entry) (filename path : list Z)
    (file_size file_flags : Z) (filehash : option (list Z)) (mtime_ : Z)
    (symlink_path : list Z) : Prop := {
  ad_files : m_files fs' = m_files fs ++ [e];
  ad_name : m_name fs' = new_name fs path;
  ad_size : fe_size e = file_size;
  ad_offset : fe_offset e = m_total_size fs;
  ad_total : m_total_size fs' = m_total_size fs + file_size;
  ad_placed : placed fs' path e;
  ad_leaf : entry_filename e =
    Some (match filename with [] => c_str (leaf_of path) | _ => filename end);
  ad_pad : fe_pad_file e = has_flag file_flags flag_pad_file;
  ad_hidden : fe_hidden_attribute e = has_flag file_flags flag_hidden;
  ad_exec : fe_executable_attribute e = has_flag file_flags flag_executable;
  ad_link : fe_symlink_attribute e =
    records_link fs symlink_path && has_flag file_flags flag_symlink;
  ad_target : if records_link fs symlink_path
    then fe_symlink_index e = vsize (m_symlinks fs) ∧ m_symlinks fs' = m_symlinks fs ++ [symlink_path]
    else m_symlinks fs' = m_symlinks fs;
  ad_mtime : mtime fs' (num_files fs) = Some mtime_;
  ad_hash : hash fs' (num_files fs) =
    Some (match filehash with Some s => take 20 s | None => zero_hash end);
  ad_old : ∀ i, i < num_files fs → mtime fs' i = mtime fs i ∧ hash fs' i = hash fs i;
  ad_paths : ∃ extra, m_paths fs' = m_paths fs ++ extra
}.

(** the modification times, or the digests, with one for a file more *)
Definition with_last {A} (v : list A) (n : Z) (zero : A) (x : option A) : option (list A) :=
  match x with Some x => put_last v n zero x | None => Some v end.

Lemma with_last_spec {A} (v : list A) n zero (x : option A) :
  vsize v < n → ∃ w, with_last v n zero x = Some w ∧ vsize w ≤ n ∧
    (∀ i, i < n - 1 → (if vsize w <=? i then Some zero else w⟦i⟧) =
                      (if vsize v <=? i then Some zero else v⟦i⟧)) ∧
    (if vsize w <=? n - 1 then Some zero else w⟦n - 1⟧) =
      Some (match x with Some x => x | None => zero end) ∧
    ∀ P : A → Prop, Forall P v → P zero → match x with Some x => P x | None => True end → Forall P w.
Proof.
  intros Hv. destruct x as [x|]; cbn [with_last].
  - destruct (put_last_spec v n zero x Hv) as (w & Hw & Hs & Hg). exists w. split; [done|].
    split; [lia|]. split; [|split].
    + intros i Hi. rewrite (proj2 (Z.leb_gt _ _)), Hg by lia.
      rewrite (proj2 (Z.eqb_neq _ _)) by lia.
      destruct (Z.ltb_spec i (vsize v)); [by rewrite (proj2 (Z.leb_gt _ _)) by lia|].
      rewrite (proj2 (Z.leb_le _ _)) by lia. by rewrite (proj2 (Z.ltb_lt _ _)) by lia.
    + rewrite (proj2 (Z.leb_gt _ _)), Hg by lia. by rewrite Z.eqb_refl.
    + intros P Hp Hz Hx. apply Forall_forall. intros y (i & Hi)%elem_of_vget. rewrite Hg in Hi.
      destruct (i =? n - 1); [by injection Hi as <-|]. destruct (i <? vsize v).
      * apply vget_elem_of in Hi. by eapply Forall_forall in Hp.
      * destruct (i <? n); [by injection Hi as <-|done].
  - exists v. split; [done|]. split; [lia|]. split; [done|]. split; [|auto].
    by rewrite (proj2 (Z.leb_le _ _)) by lia.
Qed.

Lemma mtime_alt fs i : mtime fs i = if vsize (m_mtime fs) <=? i then Some 0 else (m_mtime fs)⟦i⟧.
Proof. done. Qed.

Lemma hash_alt fs i :
  hash fs i = (if vsize (m_file_hashes fs) <=? i then Some None else (m_file_hashes fs)⟦i⟧) ≫=
    λ p, match p with
         | None => Some zero_hash
         | Some s => if 20 <=? vsize s then Some (take 20 s) else None
         end.
Proof. unfold hash. by destruct (_ <=? i). Qed.

(** what [add_file_borrow] does when there is a hash and a time, and when not *)
Lemma add_file_borrow_eq fs filename path file_size file_flags filehash mt link :
  add_file_borrow fs filename path file_size file_flags filehash mt link =
    ('(fs1, e) ← update_path_index (set_storage_name fs (new_name fs path)) new_entry path
                  (match filename with [] => true | _ => false end);
     e ← match filename with [] => Some e | _ => set_name e filename true end;
     let e := set_attributes e file_size (m_total_size fs1) file_flags in
     hashes ← with_last (m_file_hashes fs1) (num_files fs + 1) None
                (match filehash with Some _ => Some filehash | None => None end);
     mtimes ← with_last (m_mtime fs1) (num_files fs + 1) 0 (if mt =? 0 then None else Some mt);
     let link_ok := records_link fs1 link in
     let e := if link_ok then with_symlink e (vsize (m_symlinks fs1)) (fe_symlink_attribute e)
              else with_symlink e (fe_symlink_index e) false in
     Some (FileStorage (m_piece_length fs1) (m_num_pieces fs1) (m_files fs1 ++ [e]) hashes
       (if link_ok then m_symlinks fs1 ++ [link] else m_symlinks fs1) mtimes (m_paths fs1)
       (m_name fs1) (sint 64 (m_total_size fs1 + fe_size e)))).
Proof.
  unfold add_file_borrow, new_name, records_link.
  assert (num_files (if negb (has_parent_path path) then set_storage_name fs path
            else match m_files fs with
                 | [] => set_storage_name fs (lsplit_path path).1
                 | _ => fs
                 end) = num_files fs) as ->.
  { destruct (negb _); [done|]. destruct fs as [? ? [|??]]; done. }
  assert ((if negb (has_parent_path path) then set_storage_name fs path
            else match m_files fs with
                 | [] => set_storage_name fs (lsplit_path path).1
                 | _ => fs
                 end) = set_storage_name fs (if negb (has_parent_path path) then path
            else match m_files fs with [] => (lsplit_path path).1 | _ => m_name fs end)) as ->.
  { destruct (negb _); [done|]. destruct fs as [? ? [|??]]; done. }
  destruct (update_path_index _ _ _ _) as [[fs1 e]|]; [|done]. cbn [mbind option_bind].
  destruct (match filename with [] => Some e | _ => _ end) as [e1|]; [|done].
  cbn [mbind option_bind].
  assert (∀ fs2, num_files (set_storage_name fs fs2) = num_files fs) by done.
  destruct filehash as [h|]; cbn [with_last].
  - destruct (put_last _ _ _ _) as [hs|]; [|done]. cbn.
    destruct (match link with [] => false | _ => _ end); destruct (mt =? 0); cbn; try done;
      by destruct (put_last _ _ _ _).
  - cbn. destruct (match link with [] => false | _ => _ end); destruct (mt =? 0); cbn;
      try (by destruct fs1); by destruct (put_last _ _ _ _).
Qed.

Lemma has_flag_range : ∀ flags flag, has_flag flags flag = true ∨ has_flag flags flag = false.
Proof. intros. destruct (has_flag _ _); auto. Qed.

Lemma add_layout fs v e n :
  layout_ok fs → m_files v = m_files fs ++ [e] → fe_offset e = m_total_size fs →
  fe_size e = n → m_total_size v = m_total_size fs + n → 0 ≤ n →
  m_total_size fs + n < max_total → layout_ok v.
Proof.
  intros (Hl & Ht & Hm) Hf Ho Hs Hv Hn Hmax. unfold layout_ok. rewrite Hf, sum_sizes_app, laid_out_app.
  cbn. rewrite Ho, Hs, Hv, Ht. repeat split; auto; lia.
Qed.

Lemma total_size_nonneg fs : layout_ok fs → 0 ≤ m_total_size fs.
Proof. intros (Hl & -> & _). by apply (laid_out_nonneg 0). Qed.

Lemma placed_ext fs fs' path e e' :
  placed fs path e → m_name fs' = m_name fs → m_paths fs' = m_paths fs →
  fe_path_index e' = fe_path_index e → fe_no_root_dir e' = fe_no_root_dir e → placed fs' path e'.
Proof. unfold placed. by intros H -> -> -> ->. Qed.

Lemma placed_path fs path e :
  placed fs path e → fe_path_index e = -2 ∨ fe_path_index e = -1 ∨
    0 ≤ fe_path_index e < vsize (m_paths fs).
Proof.
  unfold placed. destruct (directory_of _ _) as [[root dir]|].
  - intros [Hi%vget_Some_range _]. lia.
  - intros ->. destruct (is_complete path); auto.
Qed.

Lemma records_link_index fs link :
  records_link fs link = true → uint 15 (vsize (m_symlinks fs)) = vsize (m_symlinks fs).
Proof.
  unfold records_link. destruct link; [done|]. intros H%Z.ltb_lt. apply uint_small.
  pose proof (vsize_nonneg (m_symlinks fs)). unfold not_a_symlink in H. lia.
Qed.

Lemma new_entry_ok : name_ok new_entry.
Proof. by left. Qed.

(** the entry that is added, from the one with its name and path *)
Definition final_entry (fs : file_storage) (e : internal_file_entry) (n total flags : Z)
    (link : list Z) : internal_file_entry :=
  let e := set_attributes e n total flags in
  if records_link fs link then with_symlink e (vsize (m_symlinks fs)) (fe_symlink_attribute e)
  else with_symlink e (fe_symlink_index e) false.

Lemma final_entry_spec fs e n total flags link :
  0 ≤ n < max_total → 0 ≤ total < max_total →
  let e' := final_entry fs e n total flags link in
  (fe_name e' = fe_name e ∧ fe_name_len e' = fe_name_len e ∧ fe_path_index e' = fe_path_index e ∧
   fe_no_root_dir e' = fe_no_root_dir e) ∧
  fe_size e' = n ∧ fe_offset e' = total ∧
  fe_pad_file e' = has_flag flags flag_pad_file ∧
  fe_hidden_attribute e' = has_flag flags flag_hidden ∧
  fe_executable_attribute e' = has_flag flags flag_executable ∧
  fe_symlink_attribute e' = records_link fs link && has_flag flags flag_symlink ∧
  (records_link fs link = true → fe_symlink_index e' = vsize (m_symlinks fs)).
Proof.
  intros Hn Ht e'. unfold e', final_entry.
  destruct (records_link fs link) eqn:Hr; cbn; rewrite !(uint_small 48) by done;
    split_and!; try done. intros _. by apply (records_link_index _ link).
Qed.

(** the name, the path and the leaf of the entry, as they are before the rest *)
Lemma name_entry fs filename path :
  vsize filename < name_is_owned → (filename = [] → leaf_of path ≠ []) →
  ∃ fs1 e1, (('(fs1, e) ← update_path_index fs new_entry path
                  (match filename with [] => true | _ => false end);
     e ← match filename with [] => Some e | _ => set_name e filename true end;
     Some (fs1, e)) = Some (fs1, e1)) ∧ more_paths fs fs1 ∧ placed fs1 path e1 ∧ name_ok e1 ∧
    entry_filename e1 = Some (match filename with [] => c_str (leaf_of path) | _ => filename end).
Proof.
  intros Hf Hleaf.
  destruct (update_path_index_spec fs new_entry path (match filename with [] => true | _ => false end)
    new_entry_ok) as (fs1 & e1 & -> & Hmp & Hp & _ & Hok & Hname).
  { intros [H|H]; [apply Hleaf; by destruct filename|]. rewrite complete_path_leaf by done. by destruct path. }
  cbn [mbind option_bind]. destruct filename as [|c s].
  - exists fs1, e1. cbn [mbind option_bind]. auto.
  - destruct (set_name_spec e1 (c :: s) true (name_ok_delete e1 Hok)) as (p & len & -> & Hs); [done..|].
    cbn [mbind option_bind]. exists fs1, (with_name e1 p len).
    destruct (Hs (with_name e1 p len)) as [H1 H2]; [done..|]. auto.
Qed.

Lemma add_file_borrow_spec fs filename path n flags filehash mt link :
  storage_ok fs → 0 ≤ n → m_total_size fs + n < max_total → vsize filename < name_is_owned →
  (filename = [] → leaf_of path ≠ []) → digest_ok filehash →
  ∃ fs' e, add_file_borrow fs filename path n flags filehash mt link = Some fs' ∧
    storage_ok fs' ∧ added fs fs' e filename path n flags filehash mt link.
Proof.
  intros [Hl [He Hm Hh Hd]] Hn Hmax Hf Hleaf Hdig. rewrite add_file_borrow_eq.
  pose proof (total_size_nonneg fs Hl) as Ht0.
  destruct (name_entry (set_storage_name fs (new_name fs path)) filename path Hf Hleaf)
    as (fs1 & e1 & Hrun & [[extra Hex] Hmp] & Hp & Hok & Hname).
  destruct (update_path_index _ _ _ _) as [[fs1' e0]|]; [|done]. cbn [mbind option_bind] in *.
  destruct (match filename with [] => Some e0 | _ => _ end) as [e1'|]; [|done].
  cbn [mbind option_bind] in *. injection Hrun as -> ->.
  assert (m_file_hashes fs1 = m_file_hashes fs ∧ m_mtime fs1 = m_mtime fs ∧ m_files fs1 = m_files fs ∧
    m_symlinks fs1 = m_symlinks fs ∧ m_name fs1 = new_name fs path ∧
    m_total_size fs1 = m_total_size fs) as (-> & -> & Hfiles & Hsl & Hnm & Htot) by (by rewrite Hmp).
  destruct (with_last_spec (m_file_hashes fs) (num_files fs + 1) None
    (match filehash with Some _ => Some filehash | None => None end)) as (hashes & -> & Hh1 & Hh2 & Hh3 & Hh4); [lia|].
  destruct (with_last_spec (m_mtime fs) (num_files fs + 1) 0 (if mt =? 0 then None else Some mt))
    as (mtimes & -> & Hm1 & Hm2 & Hm3 & _); [lia|].
  cbn [mbind option_bind]. rewrite Hfiles, Hsl, Htot.
  assert (records_link fs1 link = records_link fs link) as -> by (unfold records_link; by rewrite Hsl).
  destruct (final_entry_spec fs e1 n (m_total_size fs) flags link)
    as ((En & El & Ep & Er) & Es & Eo & E1 & E2 & E3 & Ea & Ei); [lia..|].
  fold (final_entry fs e1 n (m_total_size fs) flags link). set (e := final_entry _ _ _ _ _ _) in *.
  rewrite Es, (sint_small 64) by (unfold max_total in Hmax; lia).
  eexists _, e. split; [done|].
  assert (name_ok e ∧ entry_filename e = entry_filename e1) as [Hne Hle].
  { unfold name_ok, entry_filename in *. by rewrite En, El. }
  split; [split; [by eapply add_layout|]|].
  - split; cbn; [|unfold num_files in *; cbn; vsize..|apply Hh4; [done|done|by destruct filehash]].
    + apply Forall_app. split.
      * eapply Forall_impl; [exact He|]. intros x Hx. eapply entry_ok_mono; [done| |].
        -- rewrite Hex. cbn. rewrite vsize_app. pose proof (vsize_nonneg extra). lia.
        -- destruct (records_link fs link); vsize.
      * apply Forall_singleton. split; [done|rewrite Ep; by eapply placed_path|].
        rewrite Ea. intros [Hr _]%andb_true_iff. rewrite Hr in *. rewrite Ei by done. vsize.
        pose proof (vsize_nonneg (m_symlinks fs)). lia.
  - replace (num_files fs + 1 - 1) with (num_files fs) in * by lia.
    split; try done; cbn.
    + by eapply placed_ext.
    + by rewrite Hle.
    + destruct (records_link fs link); [|done]. by rewrite Ei.
    + rewrite mtime_alt. cbn. rewrite Hm3. by destruct (Z.eqb_spec mt 0) as [->|].
    + rewrite hash_alt. cbn. rewrite Hh3. destruct filehash as [h|]; [|done]. cbn in *.
      by rewrite (proj2 (Z.leb_le _ _)).
    + intros i Hi. rewrite !mtime_alt, !hash_alt. cbn. by rewrite Hm2, Hh2.
    + by exists extra.
Qed.

(** ** Renaming *)

Record renamed (fs fs' : file_storage) (i : Z) (path : list Z) : Prop := {
  rn_rest : fs' = set_files (set_paths fs (m_paths fs')) (m_files fs');
  rn_paths : ∃ extra, m_paths fs' = m_paths fs ++ extra;
  rn_others : ∀ j, j ≠ i → (m_files fs')⟦j⟧ = (m_files fs)⟦j⟧;
  rn_file : ∃ e e', (m_files fs)⟦i⟧ = Some e ∧ (m_files fs')⟦i⟧ = Some e' ∧ same_file e e' ∧
    placed fs' path e' ∧ entry_filename e' = Some (c_str (leaf_of path))
}.

Lemma layout_same_sizes fs fs' :
  layout_ok fs → m_total_size fs' = m_total_size fs →
  (λ e, (fe_offset e, fe_size e)) <$> m_files fs' = (λ e, (fe_offset e, fe_size e)) <$> m_files fs →
  layout_ok fs'.
Proof.
  intros (Hl & Ht & Hm) Htot Hf. unfold layout_ok. rewrite Htot, Ht.
  rewrite Ht in Hm. clear Ht Htot. revert Hm Hl Hf. generalize 0 as off.
  generalize (m_files fs) as v, (m_files fs') as w. clear fs fs'.
  intros v w off Hm Hl Hf.
  assert (laid_out off w ∧ sum_sizes w = sum_sizes v) as [H1 H2]; [|rewrite H2; auto].
  clear Hm. revert w off Hl Hf. induction v as [|e v IH]; intros [|e' w] off Hl Hf; try done.
  cbn in Hf. injection Hf as Ho Hs Hf. destruct Hl as (L1 & L2 & L3). cbn [laid_out].
  rewrite !sum_sizes_cons, Ho, Hs. destruct (IH w _ L3 Hf) as [? ->]. auto.
Qed.

Lemma rename_file_spec fs i path :
  storage_ok fs → 0 ≤ i < num_files fs → leaf_of path ≠ [] →
  ∃ fs', rename_file fs i path = Some fs' ∧ storage_ok fs' ∧ renamed fs fs' i path.
Proof.
  intros [Hl [He Hm Hh Hd]] Hi Hleaf. unfold rename_file.
  destruct (vget_is_Some (m_files fs) i Hi) as [e Hei]. rewrite Hei. cbn [mbind option_bind].
  pose proof He as He0. rewrite Forall_forall in He0.
  specialize (He0 e (vget_elem_of _ _ _ Hei)). destruct He0 as [Hn0 Hp0 Hl0].
  destruct (update_path_index_spec fs e path true Hn0)
    as (fs1 & e1 & -> & [[extra Hex] Hmp] & Hp & Hsame & Hok & Hname); [done|].
  cbn [mbind option_bind orb] in *.
  assert (m_files fs1 = m_files fs) as -> by (by rewrite Hmp).
  destruct (vset_is_Some (m_files fs) i e1 Hi) as [v Hv]. rewrite Hv. cbn [mbind option_bind].
  eexists. split; [done|]. pose proof (vset_size _ _ _ _ Hv) as Hsize.
  split; [split|].
  - eapply layout_same_sizes; [exact Hl|by rewrite Hmp|]. cbn.
    apply vset_inv in Hv as [_ ->]. rewrite list_fmap_insert. apply list_insert_id.
    rewrite list_lookup_fmap. rewrite <-(Z2Nat.id i), vget_nat in Hei by lia. rewrite Hei. cbn.
    by rewrite Hsame.
  - split; cbn; [|unfold num_files in *; cbn; rewrite Hmp; cbn; lia..|by rewrite Hmp].
    apply Forall_forall. intros x (j & Hj)%elem_of_vget. rewrite (vset_get _ _ _ _ _ Hv) in Hj.
    destruct (j =? i).
    + injection Hj as <-. split; [done|by eapply placed_path|]. rewrite Hsame, Hmp. exact Hl0.
    + rewrite Forall_forall in He. apply (entry_ok_mono (vsize (m_paths fs)) _ (vsize (m_symlinks fs))).
      * eapply He, vget_elem_of, Hj.
      * rewrite Hex, vsize_app. pose proof (vsize_nonneg extra). lia.
      * by rewrite Hmp.
  - split; cbn.
    + by rewrite Hmp.
    + by exists extra.
    + intros j Hj. rewrite (vset_get _ _ _ _ _ Hv). by rewrite (proj2 (Z.eqb_neq _ _)).
    + exists e, e1. rewrite (vset_get _ _ _ _ _ Hv), Z.eqb_refl. split; [done|]. split; [done|].
      split; [done|]. split; [|done]. by eapply placed_ext.
Qed.

(** ** What can be asked *)

Lemma entry_at fs i :
  storage_ok fs → 0 ≤ i < num_files fs →
  ∃ e, (m_files fs)⟦i⟧ = Some e ∧ entry_ok (vsize (m_paths fs)) (vsize (m_symlinks fs)) e.
Proof.
  intros [_ Hok] Hi. pose proof (no_entries _ Hok) as He. destruct (vget_is_Some _ _ Hi) as [e Hei]. exists e. split; [done|].
  rewrite Forall_forall in He. by eapply He, vget_elem_of.
Qed.

(** a file keeps its path when only paths are added *)
Lemma file_path_other fs fs' j j' save extra :
  storage_ok fs → 0 ≤ j < num_files fs → (m_files fs')⟦j'⟧ = (m_files fs)⟦j⟧ →
  m_name fs' = m_name fs → m_paths fs' = m_paths fs ++ extra →
  file_path fs' j' save = file_path fs j save.
Proof.
  intros Hok Hj He Hn Hp. destruct (entry_at fs j Hok Hj) as (e & Hej & [_ Hpi _]).
  unfold file_path. rewrite He, Hej, Hn. cbn [mbind option_bind].
  destruct (entry_filename e) as [leaf|]; [|done]. cbn [mbind option_bind].
  destruct (Z.eqb_spec (fe_path_index e) (-2)); [done|].
  destruct (Z.eqb_spec (fe_path_index e) (-1)); [done|].
  by rewrite Hp, vget_app_l by lia.
Qed.

Lemma beside_defined {A} (v : list A) i zero :
  0 ≤ i → is_Some (if vsize v <=? i then Some zero else v⟦i⟧).
Proof.
  intros Hi. destruct (Z.leb_spec (vsize v) i); [eauto|]. apply vget_is_Some. lia.
Qed.

Lemma accessors_defined `{Crc32c} fs i save :
  storage_ok fs → 0 ≤ i < num_files fs →
  is_Some (file_path fs i save) ∧ is_Some (internal_file_path fs i) ∧ is_Some (file_name fs i) ∧
  is_Some (hash fs i) ∧ is_Some (mtime fs i) ∧ is_Some (file_flags fs i) ∧
  is_Some (file_path_hash fs i save) ∧
  (∀ flags, file_flags fs i = Some flags → has_flag flags flag_symlink = true →
    is_Some (symlink fs i)).
Proof.
  intros Hok Hi. destruct (entry_at fs i Hok Hi) as (e & He & [Hn Hp Hl]).
  destruct (name_ok_filename e Hn) as [leaf Hleaf].
  assert (fe_path_index e = -2 ∨ fe_path_index e = -1 ∨
    ∃ p, (m_paths fs)⟦fe_path_index e⟧ = Some p ∧ 0 ≤ fe_path_index e) as Hdir.
  { destruct Hp as [?|[?|Hp]]; [auto..|]. right. right.
    destruct (vget_is_Some _ _ Hp) as [p ?]. exists p. split; [done|lia]. }
  unfold file_path, internal_file_path, file_name, file_flags, file_path_hash, symlink.
  rewrite He. cbn [mbind option_bind]. rewrite Hleaf. cbn [mbind option_bind].
  split_and!; [| |eauto| |apply beside_defined; lia|eauto| |].
  - destruct Hdir as [->|[->|(p & Hdir & Hpos)]]; [eauto..|].
    rewrite !(proj2 (Z.eqb_neq _ _)) by lia. rewrite Hdir. cbn. by destruct (fe_no_root_dir e); eauto.
  - destruct Hdir as [->|[->|(p & Hdir & Hpos)]]; [eauto..|].
    rewrite (proj2 (Z.leb_le _ _)) by lia. rewrite Hdir. cbn. eauto.
  - rewrite hash_alt. destruct (beside_defined (m_file_hashes fs) i None) as [x Hx]; [lia|].
    rewrite Hx. cbn. destruct x as [s|]; [|eauto]. pose proof (no_digests _ (proj2 Hok)) as Hd.
    destruct (_ <=? i); [done|]. rewrite Forall_forall in Hd. apply vget_elem_of, Hd in Hx. cbn in Hx.
    rewrite (proj2 (Z.leb_le _ _)) by done. eauto.
  - destruct Hdir as [->|[->|(p & Hdir & Hpos)]]; [cbn; eauto..|].
    rewrite !(proj2 (Z.eqb_neq _ _)) by lia. rewrite Hdir. cbn. by destruct (fe_no_root_dir e); cbn; eauto.
  - intros flags [= <-] Hf. assert (fe_symlink_attribute e = true) as Ha.
    { revert Hf. unfold entry_flags. by destruct (fe_pad_file e), (fe_hidden_attribute e),
        (fe_executable_attribute e), (fe_symlink_attribute e). }
    destruct (vget_is_Some (m_symlinks fs) (fe_symlink_index e) (Hl Ha)) as [t ->]. cbn. eauto.
Qed.

(** ** The number of a path *)

(** a directory that joining keeps, and ends with one separator *)
Definition plain (s : list Z) : Prop := s ≠ [46] ∧ list.last s ≠ Some separator.

Lemma append_path_plain s t :
  plain s → s ≠ [] → t ≠ [] → append_path s t = s ++ separator :: t.
Proof.
  intros [Hd Hs] Hn Ht. unfold append_path. destruct (list.last s) as [c|] eqn:Hc.
  - unfold same_string. rewrite bool_decide_eq_false_2 by done. destruct t as [|x t]; [done|].
    unfold is_separator. by destruct (Z.eqb_spec c separator) as [->|].
  - by apply last_None in Hc.
Qed.

Lemma append_path_nil_l t : append_path [] t = t.
Proof. done. Qed.

Lemma append_path_nil_r s : append_path s [] = if same_string s [46] then [] else s.
Proof. unfold append_path. destruct (list.last s) eqn:Hc; [done|]. by apply last_None in Hc as ->. Qed.

Lemma append_path_some s t : t ≠ [] → append_path s t ≠ [].
Proof.
  intros Ht. unfold append_path. destruct (list.last s); [|done]. destruct (same_string _ _); [done|].
  destruct t as [|x t]; [done|]. by destruct s, (negb (is_separator z)).
Qed.

Lemma append_path_is_plain s p : plain s → plain p → p ≠ [] → plain (append_path s p).
Proof.
  intros Hs Hp Hn. destruct (decide (s = [])) as [->|Hsn]; [done|].
  rewrite append_path_plain by done. split.
  - intros Hx. destruct s as [|x s]; [done|]. injection Hx as -> Hx. by destruct s.
  - change (separator :: p) with ([separator] ++ p). rewrite !last_app.
    destruct (list.last p) eqn:E; [by rewrite <-E; apply Hp|]. by apply last_None in E.
Qed.

Lemma append_plain_assoc s p t :
  plain s → plain p → t ≠ [] →
  append_path (append_path s p) t = append_path s (append_path p t).
Proof.
  intros Hs Hp Ht. destruct (decide (s = [])) as [->|Hsn]; [done|].
  destruct (decide (p = [])) as [->|Hpn].
  { rewrite append_path_nil_r. unfold same_string. by rewrite bool_decide_eq_false_2 by apply Hs. }
  pose proof (append_path_is_plain s p Hs Hp Hpn). pose proof (append_path_some s p Hpn).
  rewrite (append_path_plain (append_path s p) t) by done.
  rewrite (append_path_plain s p), (append_path_plain p t), (append_path_plain s)
    by (done || by destruct p). by rewrite <-app_assoc.
Qed.

Section hashes.
Context `{Crc32c}.

Lemma process_string_app c s t :
  process_string_lowercase c (s ++ t) = process_string_lowercase (process_string_lowercase c s) t.
Proof. apply fold_left_app. Qed.

Lemma process_directory_string c s t :
  plain s → t ≠ [] →
  process_string_lowercase (process_directory c s) t = process_string_lowercase c (append_path s t).
Proof.
  intros Hs Ht. destruct s as [|x s]; [done|]. rewrite append_path_plain by done.
  by rewrite process_string_app.
Qed.

(** what the storage's own paths are: the name of the torrent is not empty *)
Definition plain_paths (fs : file_storage) : Prop :=
  plain (m_name fs) ∧ m_name fs ≠ [] ∧ Forall plain (m_paths fs).

(** the number of a file is the one of its path, in lower case *)
Lemma file_path_hash_spec fs i save leaf :
  plain_paths fs → plain save → file_name fs i = Some leaf → leaf ≠ [] →
  file_path_hash fs i save =
    (λ p, checksum (process_string_lowercase crc_new p)) <$> file_path fs i save.
Proof.
  intros (Hn & Hne & Hp) Hs Hleaf Hl. unfold file_name, file_path_hash, file_path in *.
  destruct ((m_files fs)⟦i⟧) as [e|]; [|done]. cbn [mbind option_bind] in *. rewrite Hleaf.
  cbn [mbind option_bind].
  destruct (fe_path_index e =? -2); [done|]. destruct (fe_path_index e =? -1).
  { cbn. by rewrite process_directory_string. }
  destruct ((m_paths fs)⟦fe_path_index e⟧) as [p|] eqn:Hpe; [|done]. cbn [mbind option_bind].
  assert (plain p) as Hpp by (rewrite Forall_forall in Hp; by eapply Hp, vget_elem_of).
  destruct (fe_no_root_dir e); cbn [mbind option_bind fmap option_fmap option_map]; do 2 f_equal.
  - rewrite !process_directory_string by (done || by apply append_path_some).
    by rewrite append_plain_assoc.
  - rewrite process_directory_string by done.
    assert (∀ c, process_byte (process_string_lowercase c (m_name fs)) separator =
      process_directory c (m_name fs)) as -> by (intros; by destruct (m_name fs)).
    rewrite !process_directory_string by (done || by repeat apply append_path_some).
    rewrite (append_plain_assoc (append_path save (m_name fs)) p leaf) by
      (done || by apply append_path_is_plain).
    by rewrite (append_plain_assoc save (m_name fs)) by (done || by apply append_path_some).
Qed.
End hashes.
