(* ===== verification/FileOptimize.v ===== *)
(** Model of [file_storage::optimize] of
    src/btdownloader/torrent/file_storage.cpp, which reorders the files and adds
    pad files between them so that files start where pieces do.

    Iterators of [m_files] are positions. *)

From Stdlib Require Import String.
From S2P Require Import Prelude.
From S2P Require Import Path.
From S2P Require Import FileStorage.

Open Scope Z_scope.

(** [std::iter_swap] *)
Definition vswap {A} (v : list A) (i j : Z) : option (list A) :=
  x ← v⟦i⟧;
  y ← v⟦j⟧;
  v ← v⟦i := y⟧;
  v⟦j := x⟧.

(** a vector beside the files, when it is not empty *)
Definition reorder_beside {A} (v : list A) (zero : A) (index dst : Z) : option (list A) :=
  match v with
  | [] => Some []
  | _ =>
      let v := if vsize v <? index then grow_to v (index + 1) zero else v in
      vswap v dst index
  end.

Definition reorder_file (fs : file_storage) (index dst : Z) : option file_storage :=
  files ← vswap (m_files fs) index dst;
  let fs := set_files fs files in
  mtimes ← reorder_beside (m_mtime fs) 0 index dst;
  let fs := set_mtimes fs mtimes in
  hashes ← reorder_beside (m_file_hashes fs) None index dst;
  Some (set_hashes fs hashes).

(** [v.resize(n, x)] of a vector that is not empty *)
Definition resize_beside {A} (v : list A) (n : Z) (x : A) : list A :=
  match v with [] => [] | _ => take (Z.to_nat n) (grow_to v n x) end.

Definition pad_directory : list Z := bytes_of ".pad"%string.

(** the pad file is put at [i], and what was there at the end; also the
    offset behind it *)
Definition add_pad_file (fs : file_storage) (size i offset pad_file_counter : Z)
    : option (file_storage * Z) :=
  let index := num_files fs in
  let '(fs, path) := get_or_add_path fs pad_directory in
  e ← set_name (set_attributes (with_path new_entry false path) size offset 0)
        (dec_string pad_file_counter) false;
  let e := set_pad_file e in
  let fs := set_files fs (m_files fs ++ [e]) in
  let fs := set_mtimes fs (resize_beside (m_mtime fs) (index + 1) 0) in
  let fs := set_hashes fs (resize_beside (m_file_hashes fs) (index + 1) None) in
  fs ← (if negb (index =? i) then reorder_file fs index i else Some fs);
  Some (fs, sint 64 (offset + size)).

(** The file to put at an aligned position: the first one that is a multiple
    of [alignment], or else the largest one.  [k] is the position of the first
    of [files], and [best_size] the size of the best one so far. *)
Fixpoint best_aligned (files : list internal_file_entry) (k alignment best best_size : Z) : Z :=
  match files with
  | [] => best
  | e :: files =>
      if fe_size e mod uint 64 alignment =? 0 then k
      else if best_size <? fe_size e then best_aligned files (k + 1) alignment k (fe_size e)
      else best_aligned files (k + 1) alignment best best_size
  end.

(** the largest file that fits before the next aligned position *)
Fixpoint best_fit (files : list internal_file_entry) (j pad_size : Z) (best : option (Z * Z))
    : option Z :=
  match files with
  | [] => fst <$> best
  | e :: files =>
      if pad_size <? fe_size e then best_fit files (j + 1) pad_size best
      else
        match best with
        | Some (_, best_size) =>
            best_fit files (j + 1) pad_size
              (if best_size <? fe_size e then Some (j, fe_size e) else best)
        | None => best_fit files (j + 1) pad_size (Some (j, fe_size e))
        end
  end.

(** the loop's variables *)
Record opt_state := OptState {
  op_files : file_storage;
  op_off : Z;
  op_padding_file : Z;
  op_i : Z
}.

Definition write_offset (fs : file_storage) (i off : Z) : option file_storage :=
  e ← (m_files fs)⟦i⟧;
  v ← (m_files fs)⟦i := with_offset e off⟧;
  Some (set_files fs v).

Section optimize.
Context (pad_file_limit alignment : Z) (tail_padding : bool).

(** the file at [i] stays there: what follows the two branches of the loop *)
Definition place_file (st : opt_state) : option opt_state :=
  let '(OptState fs off padding_file i) := st in
  e ← (m_files fs)⟦i⟧;
  fs ← write_offset fs i off;
  let off := sint 64 (off + fe_size e) in
  if tail_padding && (uint 32 pad_file_limit <? fe_size e) && negb (Z.rem off alignment =? 0) then
    let i := i + 1 in
    '(fs, off) ← add_pad_file fs (sint 32 (alignment - Z.rem off alignment)) i off padding_file;
    Some (OptState fs off (padding_file + 1) (i + 1))
  else Some (OptState fs off padding_file (i + 1)).

(** one turn of the loop, at a position that is not the end *)
Definition optimize_step (st : opt_state) : option opt_state :=
  let '(OptState fs off padding_file i) := st in
  guard_b (negb (alignment =? 0));;
  e ← (m_files fs)⟦i⟧;
  if Z.rem off alignment =? 0 then
    let best_match := best_aligned (drop (Z.to_nat i) (m_files fs)) i alignment i (fe_size e) in
    fs ← (if negb (best_match =? i) then reorder_file fs best_match i else Some fs);
    place_file (OptState fs off padding_file i)
  else if (0 <=? pad_file_limit) && (uint 32 pad_file_limit <? fe_size e)
          && negb (fe_pad_file e) then
    let pad_size := sint 32 (alignment - Z.rem off alignment) in
    let best_match :=
      if 0 <? pad_file_limit
      then best_fit (drop (Z.to_nat (i + 1)) (m_files fs)) (i + 1) (uint 32 pad_size) None
      else None in
    match best_match with
    | Some index =>
        fs ← reorder_file fs index i;
        e ← (m_files fs)⟦i⟧;
        fs ← write_offset fs i off;
        Some (OptState fs (sint 64 (off + fe_size e)) padding_file (i + 1))
    | None =>
        '(fs, off) ← add_pad_file fs pad_size i off padding_file;
        Some (OptState fs off (padding_file + 1) (i + 1))
    end
  else place_file st.

Fixpoint optimize_loop (fuel : nat) (st : opt_state) : option opt_state :=
  if op_i st <? num_files (op_files st) then
    match fuel with
    | O => None
    | S fuel => st ← optimize_step st; optimize_loop fuel st
    end
  else Some st.
End optimize.

Definition optimize (fs : file_storage) (pad_file_limit alignment : Z) (tail_padding : bool)
    : option file_storage :=
  let alignment := if alignment =? -1 then m_piece_length fs else alignment in
  st ← optimize_loop pad_file_limit alignment tail_padding
         (2 * length (m_files fs)) (OptState fs 0 0 0);
  Some (set_total_size (op_files st) (op_off st)).
