(* ===== verification/FilePacking.v ===== *)
(** Moving files: the effect of [reorder_file] and [add_pad_file] on the files
    with what is kept beside them; [optimize] returns, keeps the files, lays them
    out again and aligns them. *)

From Stdlib Require Import String.
From S2P Require Import Prelude.
From stdpp Require Import list.
From stdpp Require Import list sorting.
From S2P Require Import StringUtil.
From S2P Require Import Path.
From S2P Require Import PathCorrect.
From S2P Require Import FileStorage.
From S2P Require Import FileLayout.
From S2P Require Import FileOps.
From S2P Require Import FileOptimize.

Open Scope Z_scope.

(** ** Swapping *)

Lemma vswap_split {A} (a b c : list A) x y :
  vswap (a ++ x :: b ++ y :: c) (vsize a) (vsize a + 1 + vsize b) = Some (a ++ y :: b ++ x :: c).
Proof.
  unfold vswap. rewrite vget_middle. cbn [mbind option_bind].
  assert (a ++ x :: b ++ y :: c = (a ++ x :: b) ++ y :: c) as E1 by (by rewrite <-app_assoc).
  assert (vsize a + 1 + vsize b = vsize (a ++ x :: b)) as E2 by vsize.
  rewrite E2, E1, vget_middle. cbn [mbind option_bind]. rewrite <-E1.
  pose proof (vsize_nonneg a). pose proof (vsize_nonneg b). pose proof (vsize_nonneg c).
  rewrite vset_Some by vsize. cbn [mbind option_bind]. rewrite vsize_to_nat.
  rewrite insert_app_r_alt, Nat.sub_diag by done. cbn [list_insert insert].
  rewrite vset_Some; [|unfold vsize; rewrite !length_app; simpl; rewrite !length_app; simpl; lia].
  f_equal. rewrite vsize_to_nat.
  assert (a ++ y :: b ++ y :: c = (a ++ y :: b) ++ y :: c) as -> by (by rewrite <-app_assoc).
  rewrite insert_app_r_alt by (rewrite !length_app; simpl; lia).
  rewrite !length_app. cbn [length]. rewrite Nat.sub_diag. cbn. by rewrite <-app_assoc.
Qed.

Lemma vswap_self {A} (a b : list A) x : vswap (a ++ x :: b) (vsize a) (vsize a) = Some (a ++ x :: b).
Proof.
  unfold vswap. rewrite vget_middle. cbn [mbind option_bind].
  rewrite vset_Some by (vsize; pose proof (vsize_nonneg a); pose proof (vsize_nonneg b); lia).
  cbn [mbind option_bind]. rewrite vsize_to_nat, insert_app_r_alt, Nat.sub_diag by done. cbn.
  rewrite vset_Some by (vsize; pose proof (vsize_nonneg a); pose proof (vsize_nonneg b); lia).
  by rewrite vsize_to_nat, insert_app_r_alt, Nat.sub_diag by done.
Qed.

Lemma vswap_comm {A} (v : list A) i j : vswap v i j = vswap v j i.
Proof.
  unfold vswap. destruct (v⟦i⟧) as [x|] eqn:Hi; destruct (v⟦j⟧) as [y|] eqn:Hj; try done.
  cbn [mbind option_bind].
  apply vget_Some_range in Hi as Ri. apply vget_Some_range in Hj as Rj.
  rewrite !vset_Some by done. cbn [mbind option_bind].
  rewrite !vset_Some by (unfold vsize in *; rewrite length_insert; lia). f_equal.
  destruct (decide (i = j)) as [->|Hne]; [by simplify_eq|].
  apply list_insert_insert_ne. lia.
Qed.

Lemma vswap_fmap {A B} (f : A → B) v i j w :
  vswap v i j = Some w → vswap (f <$> v) i j = Some (f <$> w).
Proof.
  assert (∀ (u : list A) k, (f <$> u)⟦k⟧ = f <$> u⟦k⟧) as Hget.
  { intros u k. unfold vget. destruct (k <? 0); [done|]. apply list_lookup_fmap. }
  assert (∀ (u : list A) k x, (f <$> u)⟦k := f x⟧ = fmap (M:=list) f <$> u⟦k := x⟧) as Hset.
  { intros u k x. unfold vset. assert (vsize (f <$> u) = vsize u) as -> by (unfold vsize; by rewrite length_fmap).
    destruct (_ && _); [|done]. cbn. by rewrite list_fmap_insert. }
  unfold vswap. rewrite !Hget. destruct (v⟦i⟧) as [x|]; [|done]. destruct (v⟦j⟧) as [y|]; [|done].
  cbn [fmap option_fmap option_map mbind option_bind]. rewrite Hset.
  destruct (v⟦i := y⟧) as [u|]; [|done]. cbn [fmap option_fmap option_map mbind option_bind].
  intros Hw. by rewrite Hset, Hw.
Qed.

(** ** The files with what is beside them *)

(** a file without its offset, its time and its digest *)
Definition row : Type := internal_file_entry * Z * option (list Z).

Definition bare (e : internal_file_entry) : internal_file_entry := with_offset e 0.

Definition row_file (r : row) : internal_file_entry := r.1.1.
Definition row_time (r : row) : Z := r.1.2.
Definition row_hash (r : row) : option (list Z) := r.2.

(** a vector beside the files, which is empty when it only has zeros *)
Definition beside {A} (v xs : list A) (zero : A) : Prop :=
  v = xs ∨ v = [] ∧ Forall (λ x, x = zero) xs.

Record has_rows (fs : file_storage) (rows : list row) : Prop := {
  hr_files : bare <$> m_files fs = row_file <$> rows;
  hr_times : beside (m_mtime fs) (row_time <$> rows) 0;
  hr_hashes : beside (m_file_hashes fs) (row_hash <$> rows) None
}.

Lemma has_rows_size fs rows : has_rows fs rows → vsize rows = num_files fs.
Proof.
  intros [H _ _]. apply (f_equal length) in H. rewrite !length_fmap in H.
  unfold num_files, vsize. by rewrite H.
Qed.

Lemma vswap_size {A} (v w : list A) i j :
  vswap v i j = Some w → vsize w = vsize v ∧ w ≡ₚ v ∧ 0 ≤ i < vsize v ∧ 0 ≤ j < vsize v.
Proof.
  unfold vswap. destruct (v⟦i⟧) as [x|] eqn:Hi; [|done]. destruct (v⟦j⟧) as [y|] eqn:Hj; [|done].
  cbn [mbind option_bind]. destruct (v⟦i := y⟧) as [u|] eqn:Hu; [|done]. cbn [mbind option_bind].
  intros Hw. pose proof (vset_size _ _ _ _ Hu). pose proof (vset_size _ _ _ _ Hw).
  apply vget_Some_range in Hi as Ri. apply vget_Some_range in Hj as Rj.
  split; [lia|]. split; [|done]. apply vset_inv in Hu as [_ ->]. apply vset_inv in Hw as [_ ->].
  unfold vget in *. destruct (i <? 0); [done|]. destruct (j <? 0); [done|].
  by apply Permutation_insert_swap.
Qed.

Lemma reorder_beside_spec {A} (v xs ys : list A) zero i j :
  beside v xs zero → vswap xs i j = Some ys → i < vsize xs →
  ∃ w, reorder_beside v zero i j = Some w ∧ beside w ys zero.
Proof.
  intros [->|[-> Hz]] Hs Hi.
  - exists ys. split; [|by left]. destruct xs as [|x xs]; [by rewrite vsize_nil in Hi; destruct i|].
    cbn [reorder_beside]. rewrite (proj2 (Z.ltb_ge _ _)) by lia. by rewrite vswap_comm.
  - exists []. split; [done|]. right. split; [done|]. apply vswap_size in Hs as (_ & -> & _). done.
Qed.

Lemma reorder_file_spec fs rows rows' files i j :
  has_rows fs rows → vswap (m_files fs) i j = Some files → vswap rows i j = Some rows' →
  ∃ fs', reorder_file fs i j = Some fs' ∧ has_rows fs' rows' ∧ m_files fs' = files ∧
    fs' = set_hashes (set_mtimes (set_files fs files) (m_mtime fs')) (m_file_hashes fs').
Proof.
  intros [Hf Ht Hh] Hs Hr. unfold reorder_file. rewrite Hs. cbn [mbind option_bind].
  apply vswap_size in Hr as Hsize. destruct Hsize as (_ & _ & Hi & _).
  destruct (reorder_beside_spec _ _ _ _ i j Ht (vswap_fmap row_time _ _ _ _ Hr)) as (w & Hw & Hbt).
  { unfold vsize in *. rewrite length_fmap. lia. }
  destruct (reorder_beside_spec _ _ _ _ i j Hh (vswap_fmap row_hash _ _ _ _ Hr)) as (u & Hu & Hbh).
  { unfold vsize in *. rewrite length_fmap. lia. }
  cbn [m_mtime set_files m_file_hashes set_mtimes]. rewrite Hw. cbn [mbind option_bind].
  rewrite Hu. cbn [mbind option_bind]. eexists. split; [done|]. split; [|done]. split; cbn; try done.
  pose proof (vswap_fmap bare _ _ _ _ Hs) as H1. rewrite Hf in H1.
  rewrite (vswap_fmap row_file _ _ _ _ Hr) in H1. by injection H1.
Qed.

(** ** Pad files *)

Lemma dec_digits_nul fuel n acc : 0 ∉ acc → 0 ≤ n → 0 ∉ dec_digits fuel n acc.
Proof.
  revert n acc. induction fuel as [|fuel IH]; intros n acc Ha Hn; [done|]. cbn [dec_digits].
  destruct (n =? 0); [done|]. apply IH; [|apply Z.div_pos; lia].
  pose proof (Z.mod_pos_bound n 10 eq_refl). apply not_elem_of_cons. split; [lia|done].
Qed.

Lemma dec_string_nul k : 0 ≤ k → (0 ∉ dec_string k) ∧ dec_string k ≠ [].
Proof.
  intros Hk. unfold dec_string, digits. rewrite (proj2 (Z.ltb_ge _ _)) by done. cbn [app].
  destruct (Z.eqb_spec k 0) as [|Hne].
  - split; [|done]. apply not_elem_of_cons. split; [done|apply not_elem_of_nil].
  - split; [apply dec_digits_nul; [apply not_elem_of_nil|lia]|].
    cbn [dec_digits]. rewrite (proj2 (Z.eqb_neq _ _)) by lia. rewrite dec_digits_acc.
    by destruct (dec_digits _ _ []).
Qed.

(** the pad file number [k], of [size] bytes; [paths] are the storage's *)
Record is_pad (paths : list (list Z)) (k size : Z) (e : internal_file_entry) : Prop := {
  ip_pad : fe_pad_file e = true;
  ip_size : fe_size e = size;
  ip_name : entry_filename e = Some (dec_string k);
  ip_dir : paths⟦fe_path_index e⟧ = Some pad_directory;
  ip_root : fe_no_root_dir e = false;
  ip_link : fe_symlink_attribute e = false;
  ip_ok : name_ok e
}.

Lemma is_pad_bare paths k size e : is_pad paths k size (bare e) ↔ is_pad paths k size e.
Proof. split; intros []; split; done. Qed.

(** what comes behind a position, when the file there makes room *)
Definition rotate {A} (u : list A) : list A :=
  match u with [] => [] | x :: t => t ++ [x] end.

Lemma rotate_perm {A} (u : list A) : rotate u ≡ₚ u.
Proof. destruct u as [|x t]; [done|]. cbn. by rewrite Permutation_app_comm. Qed.

Lemma vswap_rotate {A} (d u : list A) x :
  u ≠ [] → vswap (d ++ u ++ [x]) (vsize (d ++ u)) (vsize d) = Some (d ++ x :: rotate u).
Proof.
  intros Hu. destruct u as [|y u]; [done|]. rewrite vswap_comm. cbn [app rotate].
  replace (vsize (d ++ y :: u)) with (vsize d + 1 + vsize u) by vsize. apply vswap_split.
Qed.

Lemma resize_beside_spec {A} (v xs : list A) zero n :
  beside v xs zero → vsize xs = n → beside (resize_beside v (n + 1) zero) (xs ++ [zero]) zero.
Proof.
  intros [->|[-> Hz]] Hn.
  - destruct xs as [|x xs]; [right; split; [done|by constructor]|]. left. cbn [resize_beside].
    unfold grow_to. rewrite Hn. replace (Z.to_nat (n + 1 - n)) with 1%nat by lia.
    apply take_ge. unfold vsize in Hn. rewrite length_app. simpl in *. lia.
  - right. split; [done|]. apply Forall_app. split; [done|by constructor].
Qed.

Lemma with_pad fs e rows :
  has_rows fs rows →
  has_rows (set_hashes (set_mtimes (set_files fs (m_files fs ++ [e]))
      (resize_beside (m_mtime fs) (num_files fs + 1) 0))
      (resize_beside (m_file_hashes fs) (num_files fs + 1) None))
    (rows ++ [(bare e, 0, None)]).
Proof.
  intros Hr. pose proof (has_rows_size _ _ Hr) as Hs. destruct Hr as [Hf Ht Hh].
  split; cbn; rewrite fmap_app.
  - by rewrite Hf, fmap_app.
  - apply resize_beside_spec; [done|]. unfold vsize in *. by rewrite length_fmap.
  - apply resize_beside_spec; [done|]. unfold vsize in *. by rewrite length_fmap.
Qed.

(** what stays the same when files are moved and padded *)
Record same_rest (fs fs' : file_storage) : Prop := {
  sr_length : m_piece_length fs' = m_piece_length fs;
  sr_pieces : m_num_pieces fs' = m_num_pieces fs;
  sr_links : m_symlinks fs' = m_symlinks fs;
  sr_name : m_name fs' = m_name fs;
  sr_paths : ∃ extra, m_paths fs' = m_paths fs ++ extra
}.

Lemma same_rest_refl fs : same_rest fs fs.
Proof. split; try done. exists []. by rewrite app_nil_r. Qed.

Lemma same_rest_trans a b c : same_rest a b → same_rest b c → same_rest a c.
Proof.
  intros [A1 A2 A3 A4 [x A5]] [B1 B2 B3 B4 [y B5]]. split; try congruence.
  exists (x ++ y). by rewrite B5, A5, app_assoc.
Qed.

Lemma add_pad_file_spec fs rows d u rd ru size off k :
  has_rows fs rows → m_files fs = d ++ u → rows = rd ++ ru → vsize rd = vsize d →
  0 ≤ size < 2 ^ 31 → 0 ≤ off → off + size < max_total → 0 ≤ k →
  ∃ fs' e, add_pad_file fs size (vsize d) off k = Some (fs', off + size) ∧
    m_files fs' = d ++ e :: rotate u ∧ has_rows fs' (rd ++ (bare e, 0, None) :: rotate ru) ∧
    is_pad (m_paths fs') k size e ∧ fe_offset e = off ∧ same_rest fs fs'.
Proof.
  intros Hr Hf -> Hd Hsize Hoff Hmax Hk. unfold add_pad_file.
  pose proof (get_or_add_path_spec fs pad_directory) as Hg.
  destruct (get_or_add_path fs pad_directory) as [fs1 pi]. destruct Hg as [[[extra Hex] Hmp] Hpi].
  set (e0 := set_attributes _ _ _ _).
  destruct (dec_string_nul k Hk) as [Hnul Hne].
  destruct (set_name_spec e0 (dec_string k) false eq_refl Hne) as (p & len & -> & Hset); [done|].
  cbn [mbind option_bind]. set (e := set_pad_file (with_name e0 p len)).
  destruct (Hset e eq_refl eq_refl) as [Hnok Hname]. rewrite c_str_id in Hname by done.
  assert (is_pad (m_paths fs1) k size e ∧ fe_offset e = off) as [Hpad Hoe].
  { split; [split; try done|]; cbn; apply uint_small; unfold max_total in *; lia. }
  clearbody e. clear Hset e0.
  assert (has_rows fs1 (rd ++ ru)) as Hr1 by (rewrite Hmp; by destruct Hr).
  assert (m_files fs1 = m_files fs ∧ num_files fs1 = num_files fs) as [Hf1 Hn1] by (by rewrite Hmp).
  pose proof (with_pad fs1 e _ Hr1) as Hr2. rewrite Hn1 in Hr2.
  assert (same_rest fs fs1) as Hsr by (split; [by rewrite Hmp..|by exists extra]).
  cbn [set_files set_mtimes set_hashes m_mtime m_file_hashes m_files].
  unfold num_files in *. rewrite Hf1, Hf in *. rewrite (sint_small 64) by (unfold max_total in *; lia).
  destruct (decide (u = [])) as [->|Hu].
  - assert (ru = []) as ->.
    { pose proof (has_rows_size _ _ Hr) as Hz. unfold num_files in Hz. rewrite Hf, app_nil_r in Hz.
      rewrite vsize_app in Hz. destruct ru; [done|]. vsize in Hz. pose proof (vsize_nonneg ru). lia. }
    rewrite !app_nil_r in *. rewrite Z.eqb_refl. cbn [negb mbind option_bind].
    eexists _, e. split; [done|]. split; [done|]. split; [exact Hr2|]. split; [done|]. split; [done|].
    destruct Hsr. by split.
  - assert (vsize (d ++ u) ≠ vsize d) as Hneq.
    { vsize. destruct u; [done|]. vsize. pose proof (vsize_nonneg u). lia. }
    rewrite (proj2 (Z.eqb_neq _ _)) by done. cbn [negb].
    assert (ru ≠ []) as Hru.
    { intros ->. pose proof (has_rows_size _ _ Hr) as Hz. unfold num_files in Hz. rewrite Hf in Hz.
      rewrite app_nil_r in Hz. lia. }
    assert (vsize (rd ++ ru) = vsize (d ++ u)) as Hz.
    { rewrite (has_rows_size _ _ Hr). unfold num_files. by rewrite Hf. }
    destruct (reorder_file_spec _ _ (rd ++ (bare e, 0, None) :: rotate ru) (d ++ e :: rotate u)
      (vsize (d ++ u)) (vsize d) Hr2) as (fs' & Hrf & Hr' & Hf' & Hrest).
    + cbn. rewrite <-app_assoc. by apply vswap_rotate.
    + rewrite <-app_assoc, <-Hz, <-Hd. by apply vswap_rotate.
    + rewrite Hrf. cbn [mbind option_bind]. exists fs', e. split; [done|]. split; [done|]. split; [done|].
      rewrite Hrest. cbn. split; [done|]. split; [done|]. destruct Hsr. by split.
Qed.

Section packing.
Context (limit alignment : Z) (tail_padding : bool).
Context (Hlimit : limit < 2 ^ 31) (Hal : 0 < alignment < 2 ^ 31).

(** [off] is where a piece starts *)
Definition aligned (off : Z) : Prop := off mod alignment = 0.

(** a file that has to start where a piece does: it is larger than the limit,
    and it cannot be used to fill the space before another one *)
Definition must_align (e : internal_file_entry) : Prop :=
  fe_pad_file e = false ∧ 0 ≤ limit < fe_size e ∧ (limit = 0 ∨ alignment ≤ fe_size e).

(** a file at an aligned position is a multiple of the alignment, or no file
    that comes later is larger *)
Definition goes_before (e e' : internal_file_entry) : Prop :=
  aligned (fe_offset e) → fe_pad_file e = false → fe_pad_file e' = false →
  fe_size e mod alignment = 0 ∨ fe_size e' ≤ fe_size e.

(** the rows of pad files, with their numbers and sizes *)
Inductive pads (paths : list (list Z)) : list row → Prop :=
  | pads_nil : pads paths []
  | pads_snoc rows e size :
      pads paths rows → is_pad paths (vsize rows) size e → 0 < size < alignment →
      pads paths (rows ++ [(bare e, 0, None)]).

(** Between two turns: the files that have their place, the others, the rows
    that were added. *)
Record packing (fs0 : file_storage) (rows0 : list row) (st : opt_state)
    (d u : list internal_file_entry) (rd ru padded : list row) : Prop := {
  pk_files : m_files (op_files st) = d ++ u;
  pk_i : op_i st = vsize d;
  pk_rows : has_rows (op_files st) (rd ++ ru);
  pk_done : vsize rd = vsize d;
  pk_perm : rd ++ ru ≡ₚ rows0 ++ padded;
  pk_pads : pads (m_paths (op_files st)) padded;
  pk_count : op_padding_file st = vsize padded;
  pk_layout : laid_out 0 d;
  pk_off : op_off st = sum_sizes d;
  pk_sizes : Forall (λ e, 0 ≤ fe_size e) u;
  pk_aligned : Forall (λ e, must_align e → aligned (fe_offset e)) d;
  pk_packed : StronglySorted goes_before d;
  pk_before : Forall (λ e, Forall (goes_before e) u) d;
  pk_rest : same_rest fs0 (op_files st)
}.

Lemma pads_more paths extra padded : pads paths padded → pads (paths ++ extra) padded.
Proof.
  induction 1 as [|rows e size H IH [H1 H2 H3 H4 H5 H6 H7] Hs]; [constructor|].
  apply (pads_snoc _ rows e size); [done| |done]. split; try done.
  rewrite vget_app_l; [done|]. apply vget_Some_range in H4. lia.
Qed.

Lemma packed_snoc d x u :
  StronglySorted goes_before d → Forall (λ e, Forall (goes_before e) (x :: u)) d →
  StronglySorted goes_before (d ++ [x]) ∧ Forall (λ e, Forall (goes_before e) u) d.
Proof.
  intros Hs Hb. induction Hs as [|e d Hs IH He]; cbn [app].
  - split; [by repeat constructor|done].
  - apply Forall_cons in Hb as [[Hx Hu]%Forall_cons Hb]. destruct (IH Hb) as [H1 H2].
    split; [|by constructor]. constructor; [done|]. apply Forall_app. split; [done|by constructor].
Qed.

Lemma goes_before_file e x y :
  fe_size y = fe_size x → fe_pad_file y = fe_pad_file x → goes_before e x → goes_before e y.
Proof. unfold goes_before. by intros -> ->. Qed.

Lemma sum_sizes_snoc d x : sum_sizes (d ++ [x]) = sum_sizes d + fe_size x.
Proof. rewrite sum_sizes_app, sum_sizes_cons. cbn. lia. Qed.

Lemma laid_out_snoc d x :
  laid_out 0 d → fe_offset x = sum_sizes d → 0 ≤ fe_size x → laid_out 0 (d ++ [x]).
Proof. intros Hd Hx Hs. apply laid_out_app. by repeat split. Qed.

(** ** The moves *)

Lemma rows_split (rows ru : list row) (d : list internal_file_entry) x u fs :
  has_rows fs (rows ++ ru) → m_files fs = d ++ x :: u → vsize rows = vsize d →
  ∃ r t, ru = r :: t ∧ row_file r = bare x.
Proof.
  intros Hr Hf Hs. destruct Hr as [H _ _]. rewrite Hf, !fmap_app in H.
  assert (length (bare <$> d) = length (row_file <$> rows)) as Hlen.
  { rewrite !length_fmap. unfold vsize in Hs. lia. }
  apply app_inj_1 in H as [_ H]; [|done]. destruct ru as [|r t]; [done|]. exists r, t.
  split; [done|]. by injection H.
Qed.

(** the file at the position stays there *)
Lemma place_file_step fs0 rows0 fs off k d x u rd ru padded :
  packing fs0 rows0 (OptState fs off k (vsize d)) d (x :: u) rd ru padded →
  off + fe_size x < max_total →
  (must_align x → aligned off) →
  (aligned off → fe_pad_file x = false → fe_size x mod alignment = 0 ∨
    Forall (λ y, fe_size y ≤ fe_size x) u) →
  ∃ fs' r t, write_offset fs (vsize d) off = Some fs' ∧ ru = r :: t ∧
    packing fs0 rows0 (OptState fs' (off + fe_size x) k (vsize d + 1))
      (d ++ [with_offset x off]) u (rd ++ [r]) t padded.
Proof.
  intros [Hf Hi Hr Hd Hp Hpads Hc Hl Ho Hs Ha Hk Hb Hrest] Hmax Hma Hgo. cbn in *.
  destruct (rows_split rd ru d x u fs Hr Hf Hd) as (r & t & -> & Hrx).
  apply Forall_cons in Hs as [Hsx Hs]. pose proof (laid_out_nonneg _ _ Hl) as Hoff.
  assert (uint 48 off = off) as Hu by (apply uint_small; unfold max_total in Hmax; lia).
  unfold write_offset. rewrite Hf, vget_middle. cbn [mbind option_bind].
  rewrite vset_Some by (vsize; pose proof (vsize_nonneg d); pose proof (vsize_nonneg u); lia).
  rewrite vsize_to_nat, insert_app_r_alt, Nat.sub_diag by done. cbn [list_insert insert mbind option_bind].
  eexists _, r, t. split; [done|]. split; [done|].
  assert (Forall (λ e, Forall (goes_before e) (with_offset x off :: u)) d) as Hb'.
  { eapply Forall_impl; [exact Hb|]. intros e [H1 H2]%Forall_cons. constructor; [|done].
    by eapply goes_before_file; [| |exact H1]. }
  destruct (packed_snoc d _ u Hk Hb') as [Hk' Hbu].
  split; cbn; rewrite <-?app_assoc; cbn [app]; try done.
  - by vsize.
  - destruct Hr as [H1 H2 H3]. split; [|done..]. cbn. rewrite <-H1, Hf, !fmap_app. done.
  - by vsize.
  - by apply laid_out_snoc; [|cbn; congruence|].
  - rewrite sum_sizes_snoc. cbn. lia.
  - apply Forall_app. split; [done|]. apply Forall_singleton. intros Hx. cbn. rewrite Hu. by apply Hma.
  - apply Forall_app. split; [done|]. apply Forall_singleton. apply Forall_forall. intros y Hy.
    intros Hao Hpx _. cbn in *. rewrite Hu in Hao. destruct (Hgo Hao Hpx) as [?|Hall]; [by left|].
    right. rewrite Forall_forall in Hall. by apply Hall.
  - destruct Hrest. by split.
Qed.

(** a pad file is put at the position *)
Lemma pad_step fs0 rows0 fs off k d u rd ru padded size :
  packing fs0 rows0 (OptState fs off k (vsize d)) d u rd ru padded →
  0 < size < alignment → off + size < max_total →
  ∃ fs' e, add_pad_file fs size (vsize d) off k = Some (fs', off + size) ∧
    packing fs0 rows0 (OptState fs' (off + size) (k + 1) (vsize d + 1))
      (d ++ [e]) (rotate u) (rd ++ [(bare e, 0, None)]) (rotate ru)
      (padded ++ [(bare e, 0, None)]).
Proof.
  intros [Hf Hi Hr Hd Hp Hpads Hc Hl Ho Hs Ha Hk Hb Hrest] Hsize Hmax. cbn in *.
  pose proof (laid_out_nonneg _ _ Hl) as Hoff. pose proof (vsize_nonneg padded).
  destruct (add_pad_file_spec fs _ d u rd ru size off k Hr Hf eq_refl Hd)
    as (fs' & e & -> & Hf' & Hr' & Hpad & Heo & Hsr); [lia..|].
  exists fs', e. split; [done|]. destruct (sr_paths _ _ Hsr) as [extra Hex].
  assert (Forall (λ x, Forall (goes_before x) (e :: u)) d) as Hb'.
  { eapply Forall_impl; [exact Hb|]. intros x Hx. constructor; [|done].
    intros _ _ Hnp. by rewrite (ip_pad _ _ _ _ Hpad) in Hnp. }
  destruct (packed_snoc d _ u Hk Hb') as [Hk' Hbu].
  split; cbn; rewrite <-?app_assoc; cbn [app]; try done.
  - by vsize.
  - by vsize.
  - rewrite <-(Permutation_middle rd (rotate ru)), rotate_perm, Hp.
    rewrite app_assoc. apply Permutation_cons_append.
  - rewrite Hex. eapply pads_snoc; [by apply pads_more| |done]. by rewrite <-Hex, <-Hc.
  - vsize.
  - apply laid_out_snoc; [done|by rewrite Heo|]. rewrite (ip_size _ _ _ _ Hpad). lia.
  - rewrite sum_sizes_snoc, (ip_size _ _ _ _ Hpad). lia.
  - by rewrite rotate_perm.
  - apply Forall_app. split; [done|]. apply Forall_singleton. intros [Hx _].
    by rewrite (ip_pad _ _ _ _ Hpad) in Hx.
  - apply Forall_app. split.
    + eapply Forall_impl; [exact Hbu|]. intros x Hx. by rewrite rotate_perm.
    + apply Forall_singleton, Forall_forall. intros y _ _ Hx. by rewrite (ip_pad _ _ _ _ Hpad) in Hx.
  - by eapply same_rest_trans.
Qed.

(** another file is moved to the position *)
Lemma swap_step fs0 rows0 fs off k d x u1 y u2 rd ru padded :
  packing fs0 rows0 (OptState fs off k (vsize d)) d (x :: u1 ++ y :: u2) rd ru padded →
  ∃ fs' ru', reorder_file fs (vsize d + 1 + vsize u1) (vsize d) = Some fs' ∧
    packing fs0 rows0 (OptState fs' off k (vsize d)) d (y :: u1 ++ x :: u2) rd ru' padded.
Proof.
  intros [Hf Hi Hr Hd Hp Hpads Hc Hl Ho Hs Ha Hk Hb Hrest]. cbn in *.
  assert (y :: u1 ++ x :: u2 ≡ₚ x :: u1 ++ y :: u2) as Hperm.
  { rewrite <-!Permutation_middle. apply Permutation_swap. }
  assert (∃ rx r1 ry r2, ru = rx :: r1 ++ ry :: r2 ∧ vsize r1 = vsize u1)
    as (rx & r1 & ry & r2 & -> & Hr1).
  { pose proof (has_rows_size _ _ Hr) as Hz. unfold num_files in Hz. rewrite Hf, !vsize_app, Hd in Hz.
    rewrite vsize_cons, vsize_app, vsize_cons in Hz. unfold vsize in *.
    destruct ru as [|rx ru]; [simpl in Hz; lia|]. simpl in Hz.
    destruct (drop (length u1) ru) as [|ry r2] eqn:Hdrop.
    { apply (f_equal length) in Hdrop. rewrite length_drop in Hdrop. simpl in Hdrop. lia. }
    exists rx, (take (length u1) ru), ry, r2. rewrite <-Hdrop, take_drop. split; [done|].
    rewrite length_take. lia. }
  destruct (reorder_file_spec fs _ (rd ++ ry :: r1 ++ rx :: r2) (d ++ y :: u1 ++ x :: u2)
    (vsize d + 1 + vsize u1) (vsize d) Hr) as (fs' & -> & Hr' & Hf' & Hrest').
  - rewrite Hf, vswap_comm. apply vswap_split.
  - rewrite vswap_comm, <-Hr1, <-Hd. apply vswap_split.
  - eexists _, _. split; [done|].
    assert (m_paths fs' = m_paths fs) as Hpaths by (by rewrite Hrest').
    split; cbn; rewrite ?Hpaths; try done.
    + rewrite <-Hp. f_equiv. rewrite <-!Permutation_middle. apply Permutation_swap.
    + by rewrite Hperm.
    + eapply Forall_impl; [exact Hb|]. intros e He. by rewrite Hperm.
    + rewrite Hrest'. destruct Hrest. by split.
Qed.

(** ** The choices *)

(** the best file is at [i], or among those that follow *)
Lemma best_aligned_spec files k best best_size :
  let m := best_aligned files k alignment best best_size in
  (m = best ∧ Forall (λ e, fe_size e ≤ best_size) files) ∨
  ∃ u1 y u2, files = u1 ++ y :: u2 ∧ m = k + vsize u1 ∧
    (fe_size y mod alignment = 0 ∨
     best_size ≤ fe_size y ∧ Forall (λ e, fe_size e ≤ fe_size y) files).
Proof.
  revert k best best_size. induction files as [|e files IH]; intros k best best_size;
    cbn [best_aligned]; [by left|].
  rewrite uint_small by lia. destruct (Z.eqb_spec (fe_size e mod alignment) 0) as [Hm|Hm].
  { right. exists [], e, files. split; [done|]. split; [by vsize|by left]. }
  destruct (Z.ltb_spec best_size (fe_size e)).
  - right. destruct (IH (k + 1) k (fe_size e)) as [[-> Hall]|(u1 & y & u2 & -> & -> & Hy)].
    + exists [], e, files. split; [done|]. split; [by vsize|]. right. split; [lia|].
      constructor; [done|]. exact Hall.
    + exists (e :: u1), y, u2. split; [done|]. split; [vsize|].
      destruct Hy as [?|[? Hall]]; [by left|right]. split; [lia|]. by constructor.
  - destruct (IH (k + 1) best best_size) as [[-> Hall]|(u1 & y & u2 & -> & -> & Hy)].
    + left. split; [done|]. by constructor.
    + right. exists (e :: u1), y, u2. split; [done|]. split; [vsize|].
      destruct Hy as [?|[? Hall]]; [by left|right]. split; [lia|]. constructor; [lia|done].
Qed.

Lemma best_fit_spec files j pad_size best :
  match best_fit files j pad_size best with
  | None => best = None
  | Some m => fst <$> best = Some m ∨
      ∃ u1 y u2, files = u1 ++ y :: u2 ∧ m = j + vsize u1 ∧ fe_size y ≤ pad_size
  end.
Proof.
  revert j best. induction files as [|e files IH]; intros j best; cbn [best_fit].
  { destruct best as [[b n]|]; [by left|done]. }
  assert (∀ best', (best' = best ∨ best' = Some (j, fe_size e) ∧ fe_size e ≤ pad_size) →
    (best' = None → best = None) →
    match best_fit files (j + 1) pad_size best' with
    | None => best = None
    | Some m => fst <$> best = Some m ∨
        ∃ u1 y u2, e :: files = u1 ++ y :: u2 ∧ m = j + vsize u1 ∧ fe_size y ≤ pad_size
    end) as Hstep.
  { intros best' Hb Hnone. specialize (IH (j + 1) best').
    destruct (best_fit files (j + 1) pad_size best') as [m|]; [|auto].
    destruct IH as [Hm|(u1 & y & u2 & -> & -> & Hy)].
    - destruct Hb as [->|[-> Hs]]; [by left|]. right. injection Hm as <-. exists [], e, files.
      split; [done|]. split; [by vsize|done].
    - right. exists (e :: u1), y, u2. split; [done|]. split; [vsize|done]. }
  destruct (Z.ltb_spec pad_size (fe_size e)); [by apply Hstep; [left|]|].
  destruct best as [[b n]|].
  - destruct (n <? fe_size e); (apply Hstep; [|done]); auto.
  - apply Hstep; auto.
Qed.

(** ** A turn *)

#[local] Instance aligned_decision off : Decision (aligned off).
Proof. unfold aligned. apply _. Defined.

(** every turn places a file, or adds a pad file behind which it is aligned *)
Definition measure (off : Z) (u : list internal_file_entry) : nat :=
  (2 * length u + if decide (aligned off) then 0 else 1)%nat.

Definition open_files (st : opt_state) (u : list internal_file_entry) : Prop :=
  ∃ d, m_files (op_files st) = d ++ u ∧ op_i st = vsize d.

(** the invariant of the loop; [bound] is room for the pad files *)
Record good (fs0 : file_storage) (rows0 : list row) (bound : Z) (st : opt_state)
    (d u : list internal_file_entry) (padded : list row) : Prop := {
  gd_packing : ∃ rd ru, packing fs0 rows0 st d u rd ru padded;
  gd_room : op_off st + sum_sizes u + alignment * Z.of_nat (measure (op_off st) u) ≤ bound;
  gd_tail : tail_padding = true → limit = 0 → aligned (op_off st);
  gd_none : limit < 0 → tail_padding = false → padded = []
}.

Lemma pad_size_spec off :
  0 ≤ off → ¬ aligned off →
  sint 32 (alignment - Z.rem off alignment) = alignment - off mod alignment ∧
  0 < alignment - off mod alignment < alignment ∧
  aligned (off + (alignment - off mod alignment)).
Proof.
  unfold aligned. intros Ho Hn. rewrite Z.rem_mod_nonneg by lia.
  pose proof (Z.mod_pos_bound off alignment ltac:(lia)). rewrite sint_small by lia.
  split; [done|]. split; [lia|].
  replace (off + (alignment - off mod alignment)) with (0 + (off / alignment + 1) * alignment).
  - by rewrite Z.mod_add by lia.
  - pose proof (Z.div_mod off alignment ltac:(lia)). lia.
Qed.

Lemma aligned_rem off : 0 ≤ off → (Z.rem off alignment =? 0) = bool_decide (aligned off).
Proof.
  intros Ho. rewrite Z.rem_mod_nonneg by lia. unfold aligned.
  destruct (Z.eqb_spec (off mod alignment) 0); symmetry;
    [by apply bool_decide_eq_true_2|by apply bool_decide_eq_false_2].
Qed.

Lemma sum_sizes_perm u v : u ≡ₚ v → sum_sizes u = sum_sizes v.
Proof.
  induction 1 as [|x u v H IH|x y u|u v w H1 IH1 H2 IH2]; rewrite ?sum_sizes_cons; [done|lia|lia|lia].
Qed.

Lemma sum_sizes_nonneg u : Forall (λ e, 0 ≤ fe_size e) u → 0 ≤ sum_sizes u.
Proof. induction 1; [done|]. rewrite sum_sizes_cons. lia. Qed.

(** the file at the position stays, and may be padded *)
Lemma place_file_spec fs0 rows0 bound fs off k d x u padded :
  good fs0 rows0 bound (OptState fs off k (vsize d)) d (x :: u) padded → bound < max_total →
  (must_align x → aligned off) →
  (aligned off → fe_pad_file x = false → fe_size x mod alignment = 0 ∨
    Forall (λ y, fe_size y ≤ fe_size x) u) →
  ∃ st' d' u' padded', place_file limit alignment tail_padding (OptState fs off k (vsize d)) = Some st' ∧
    good fs0 rows0 bound st' d' u' padded' ∧
    (measure (op_off st') u' < measure off (x :: u))%nat.
Proof.
  intros [(rd & ru & Hpk) Hroom Htail Hnone] Hbound Hma Hgo. cbn [op_off] in *.
  pose proof (pk_off _ _ _ _ _ _ _ _ Hpk) as Hoff. cbn in Hoff.
  pose proof (laid_out_nonneg _ _ (pk_layout _ _ _ _ _ _ _ _ Hpk)) as Hpos.
  pose proof (pk_sizes _ _ _ _ _ _ _ _ Hpk) as [Hsx Hsu]%Forall_cons.
  pose proof (sum_sizes_nonneg u Hsu). rewrite sum_sizes_cons in Hroom.
  destruct (place_file_step fs0 rows0 fs off k d x u rd ru padded Hpk ltac:(lia) Hma Hgo)
    as (fs' & r & t & Hw & -> & Hpk').
  unfold place_file. pose proof (pk_files _ _ _ _ _ _ _ _ Hpk) as Hf. cbn in Hf.
  rewrite Hf, vget_middle. cbn [mbind option_bind]. rewrite Hw. cbn [mbind option_bind].
  rewrite (sint_small 64) by (unfold max_total in Hbound; lia).
  rewrite aligned_rem by lia. set (off' := off + fe_size x) in *.
  assert (alignment * 2 ≤ alignment * Z.of_nat (measure off (x :: u))) as Hm2
    by (apply Z.mul_le_mono_nonneg_l; [lia|]; unfold measure; simpl; lia).
  assert (measure off' u < measure off (x :: u))%nat as Hm
    by (unfold measure; simpl; repeat case_decide; lia).
  destruct (tail_padding && (uint 32 limit <? fe_size x) && negb (bool_decide (aligned off'))) eqn:Htp.
  - apply andb_true_iff in Htp as [[Ht Hbig]%andb_true_iff Hna%negb_true_iff%bool_decide_eq_false].
    destruct (pad_size_spec off' ltac:(lia) Hna) as (-> & Hsz & Hal').
    set (pad := alignment - off' mod alignment) in *.
    assert (vsize d + 1 = vsize (d ++ [with_offset x off])) as Hi by vsize. rewrite Hi in Hpk' |- *.
    destruct (pad_step fs0 rows0 fs' off' k _ u _ t padded pad Hpk' Hsz ltac:(lia))
      as (fs2 & e & -> & Hpk2).
    cbn [mbind option_bind]. eexists _, _, _, _. split; [done|].
    assert (measure (off' + pad) (rotate u) < measure off (x :: u))%nat as Hm'.
    { unfold measure. rewrite (decide_True _ _ Hal'), (Permutation_length (rotate_perm u)).
      simpl. lia. }
    split; [|exact Hm']. split; cbn [op_off]; [by eexists _, _| |done|by rewrite Ht].
    rewrite (sum_sizes_perm _ _ (rotate_perm u)). nia.
  - eexists _, _, _, _. split; [done|]. split; [|exact Hm].
    split; cbn [op_off]; [by eexists _, _|nia| |done].
    intros -> ->. specialize (Htail eq_refl eq_refl). cbn [andb] in Htp.
    apply andb_false_iff in Htp as [Hz|Hz%negb_false_iff%bool_decide_eq_true]; [|done].
    apply Z.ltb_ge in Hz. change (uint 32 0) with 0 in Hz. unfold off'.
    replace (fe_size x) with 0 by lia. by rewrite Z.add_0_r.
Qed.

Lemma good_swap fs0 rows0 bound fs off k d x u1 y u2 padded :
  good fs0 rows0 bound (OptState fs off k (vsize d)) d (x :: u1 ++ y :: u2) padded →
  ∃ fs', reorder_file fs (vsize d + 1 + vsize u1) (vsize d) = Some fs' ∧
    good fs0 rows0 bound (OptState fs' off k (vsize d)) d (y :: u1 ++ x :: u2) padded.
Proof.
  intros [(rd & ru & Hpk) Hroom Htail Hnone]. cbn [op_off] in *.
  destruct (swap_step fs0 rows0 fs off k d x u1 y u2 rd ru padded Hpk) as (fs' & ru' & Hr & Hpk').
  exists fs'. split; [done|].
  assert (y :: u1 ++ x :: u2 ≡ₚ x :: u1 ++ y :: u2) as Hperm.
  { rewrite <-!Permutation_middle. apply Permutation_swap. }
  split; cbn [op_off]; [by eexists _, _| |done|done].
  unfold measure. by rewrite (sum_sizes_perm _ _ Hperm), (Permutation_length Hperm).
Qed.

(** the turn at an aligned position *)
Lemma aligned_step fs0 rows0 bound fs off k d x u padded :
  good fs0 rows0 bound (OptState fs off k (vsize d)) d (x :: u) padded → bound < max_total →
  aligned off →
  let m := best_aligned (x :: u) (vsize d) alignment (vsize d) (fe_size x) in
  ∃ st' d' u' padded',
    (fs ← (if negb (m =? vsize d) then reorder_file fs m (vsize d) else Some fs);
     place_file limit alignment tail_padding (OptState fs off k (vsize d))) = Some st' ∧
    good fs0 rows0 bound st' d' u' padded' ∧
    (measure (op_off st') u' < measure off (x :: u))%nat.
Proof.
  intros Hg Hb Ha m.
  destruct (best_aligned_spec (x :: u) (vsize d) (vsize d) (fe_size x))
    as [[Hm Hall]|(u1 & y & u2 & Hu & Hm & Hy)]; fold m in Hm.
  - rewrite Hm, Z.eqb_refl. cbn [negb mbind option_bind].
    eapply place_file_spec; [done..|]. intros _ _. right. by apply Forall_cons in Hall as [_ ?].
  - destruct u1 as [|x' u1].
    + injection Hu as <- <-. rewrite Hm, vsize_nil, Z.add_0_r, Z.eqb_refl. cbn [negb mbind option_bind].
      eapply place_file_spec; [done..|]. intros _ _. destruct Hy as [?|[_ Hall]]; [by left|right].
      by apply Forall_cons in Hall as [_ ?].
    + injection Hu as <- ->. pose proof (vsize_nonneg u1).
      assert (m = vsize d + 1 + vsize u1) as -> by (rewrite Hm; vsize).
      rewrite (proj2 (Z.eqb_neq _ _)) by lia. cbn [negb].
      destruct (good_swap fs0 rows0 bound fs off k d x u1 y u2 padded Hg) as (fs' & -> & Hg').
      cbn [mbind option_bind].
      assert (measure off (x :: u1 ++ y :: u2) = measure off (y :: u1 ++ x :: u2)) as ->.
      { unfold measure. simpl. by rewrite !length_app. }
      eapply place_file_spec; [done..|]. intros _ _. destruct Hy as [?|[_ Hall]]; [by left|right].
      apply Forall_cons in Hall as [Hx [H1 [_ H2]%Forall_cons]%Forall_app].
      apply Forall_app. split; [done|]. by constructor.
Qed.

(** the turn where a file has to be aligned, and is not *)
Lemma filling_step fs0 rows0 bound fs off k d x u padded :
  good fs0 rows0 bound (OptState fs off k (vsize d)) d (x :: u) padded → bound < max_total →
  ¬ aligned off → 0 ≤ limit →
  let pad_size := sint 32 (alignment - Z.rem off alignment) in
  let m := if 0 <? limit then best_fit u (vsize d + 1) (uint 32 pad_size) None else None in
  ∃ st' d' u' padded',
    match m with
    | Some index =>
        fs ← reorder_file fs index (vsize d);
        e ← (m_files fs)⟦vsize d⟧;
        fs ← write_offset fs (vsize d) off;
        Some (OptState fs (sint 64 (off + fe_size e)) k (vsize d + 1))
    | None =>
        '(fs, off) ← add_pad_file fs pad_size (vsize d) off k;
        Some (OptState fs off (k + 1) (vsize d + 1))
    end = Some st' ∧
    good fs0 rows0 bound st' d' u' padded' ∧
    (measure (op_off st') u' < measure off (x :: u))%nat.
Proof.
  intros Hg Hb Hna Hlim pad_size m. pose proof Hg as [(rd & ru & Hpk) Hroom Htail Hnone].
  cbn [op_off] in *. pose proof (pk_off _ _ _ _ _ _ _ _ Hpk) as Hoff. cbn in Hoff.
  pose proof (laid_out_nonneg _ _ (pk_layout _ _ _ _ _ _ _ _ Hpk)) as Hpos.
  pose proof (pk_sizes _ _ _ _ _ _ _ _ Hpk) as Hsizes. pose proof (sum_sizes_nonneg _ Hsizes) as Hsum.
  destruct (pad_size_spec off ltac:(lia) Hna) as (Hps & Hsz & Hal').
  assert (alignment * 2 ≤ alignment * Z.of_nat (measure off (x :: u))) as Hm2
    by (apply Z.mul_le_mono_nonneg_l; [lia|]; unfold measure; simpl; lia).
  assert (m = None ∨ 0 < limit ∧ ∃ u1 y u2, u = u1 ++ y :: u2 ∧ m = Some (vsize d + 1 + vsize u1) ∧
    fe_size y < alignment) as [->|(Hl0 & u1 & y & u2 & -> & -> & Hy)].
  { unfold m. destruct (Z.ltb_spec 0 limit); [|by left].
    pose proof (best_fit_spec u (vsize d + 1) (uint 32 pad_size) None) as Hf.
    destruct (best_fit _ _ _ _) as [j|]; [|by left]. destruct Hf as [?|(u1 & y & u2 & Hu & -> & Hy)]; [done|].
    right. split; [done|]. exists u1, y, u2. split; [done|]. split; [done|].
    unfold pad_size in Hy. rewrite Hps, uint_small in Hy by lia. lia. }
  - unfold pad_size. rewrite Hps.
    destruct (pad_step fs0 rows0 fs off k d _ rd ru padded _ Hpk Hsz ltac:(lia)) as (fs2 & e & -> & Hpk2).
    cbn [mbind option_bind]. eexists _, _, _, _. split; [done|].
    set (pad := alignment - off mod alignment) in *.
    assert (measure (off + pad) (rotate (x :: u)) < measure off (x :: u))%nat as Hm'.
    { unfold measure. rewrite (decide_True _ _ Hal'), (decide_False _ _ Hna),
        (Permutation_length (rotate_perm (x :: u))). lia. }
    split; [|exact Hm']. split; cbn [op_off]; [by eexists _, _| |done|lia].
    rewrite (sum_sizes_perm _ _ (rotate_perm (x :: u))). nia.
  - destruct (good_swap fs0 rows0 bound fs off k d x u1 y u2 padded Hg) as (fs' & -> & Hg').
    cbn [mbind option_bind]. clear Hpk Hroom Htail Hnone rd ru.
    destruct Hg' as [(rd & ru & Hpk) Hroom Htail Hnone]. cbn [op_off] in *.
    pose proof (pk_sizes _ _ _ _ _ _ _ _ Hpk) as [Hsy Hsu]%Forall_cons.
    pose proof (sum_sizes_nonneg _ Hsu). rewrite sum_sizes_cons in Hroom.
    assert (measure off (x :: u1 ++ y :: u2) = measure off (y :: u1 ++ x :: u2)) as Hmeq.
    { unfold measure. simpl. by rewrite !length_app. }
    rewrite Hmeq in Hm2.
    destruct (place_file_step fs0 rows0 fs' off k d y _ rd ru padded Hpk ltac:(lia))
      as (fs2 & r & t & Hw & -> & Hpk').
    { intros (_ & _ & [?|?]); lia. }
    { done. }
    pose proof (pk_files _ _ _ _ _ _ _ _ Hpk) as Hf. cbn in Hf.
    rewrite Hf, vget_middle. cbn [mbind option_bind]. rewrite Hw. cbn [mbind option_bind].
    rewrite (sint_small 64) by (unfold max_total in Hb; lia).
    eexists _, _, _, _. split; [done|].
    assert (measure (off + fe_size y) (u1 ++ x :: u2) < measure off (x :: u1 ++ y :: u2))%nat as Hm'.
    { rewrite Hmeq. unfold measure. simpl. repeat case_decide; lia. }
    split; [|exact Hm']. split; cbn [op_off]; [by eexists _, _| |lia|done]. rewrite Hmeq in Hm'. nia.
Qed.

Lemma optimize_step_spec fs0 rows0 bound st d x u padded :
  good fs0 rows0 bound st d (x :: u) padded → bound < max_total →
  ∃ st' d' u' padded', optimize_step limit alignment tail_padding st = Some st' ∧
    good fs0 rows0 bound st' d' u' padded' ∧
    (measure (op_off st') u' < measure (op_off st) (x :: u))%nat.
Proof.
  intros Hg Hb. destruct st as [fs off k i]. pose proof Hg as [(rd & ru & Hpk) _ _ _].
  pose proof (pk_i _ _ _ _ _ _ _ _ Hpk) as Hi. cbn in Hi. subst i.
  pose proof (pk_files _ _ _ _ _ _ _ _ Hpk) as Hf. cbn in Hf.
  pose proof (pk_off _ _ _ _ _ _ _ _ Hpk) as Hoff. cbn in Hoff.
  pose proof (laid_out_nonneg _ _ (pk_layout _ _ _ _ _ _ _ _ Hpk)) as Hpos.
  cbn [op_off]. unfold optimize_step. rewrite (proj2 (Z.eqb_neq alignment 0)) by lia.
  cbn [negb guard_b mbind option_bind]. rewrite Hf, vget_middle. cbn [mbind option_bind].
  assert (drop (Z.to_nat (vsize d)) (d ++ x :: u) = x :: u) as ->
    by (by rewrite vsize_to_nat, drop_app_length).
  assert (drop (Z.to_nat (vsize d + 1)) (d ++ x :: u) = u) as -> by apply drop_vsize.
  rewrite aligned_rem by lia. case_bool_decide as Ha; [by eapply aligned_step|].
  destruct ((0 <=? limit) && (uint 32 limit <? fe_size x) && negb (fe_pad_file x)) eqn:Hc.
  - apply andb_true_iff in Hc as [[Hc _]%andb_true_iff _]. apply Z.leb_le in Hc.
    by eapply filling_step.
  - eapply place_file_spec; [done..| |done]. intros (Hp & [Hl Hs] & _). exfalso.
    rewrite Hp, (proj2 (Z.leb_le _ _)), uint_small, (proj2 (Z.ltb_lt _ _)) in Hc by lia. done.
Qed.

Lemma optimize_loop_spec fs0 rows0 bound fuel st d u padded :
  good fs0 rows0 bound st d u padded → bound < max_total → (measure (op_off st) u ≤ fuel)%nat →
  ∃ st' d' padded', optimize_loop limit alignment tail_padding fuel st = Some st' ∧
    good fs0 rows0 bound st' d' [] padded'.
Proof.
  revert st d u padded. induction fuel as [|fuel IH]; intros st d u padded Hg Hb Hf;
    cbn [optimize_loop]; pose proof Hg as [(rd & ru & Hpk) _ _ _];
    pose proof (pk_i _ _ _ _ _ _ _ _ Hpk) as Hi; unfold num_files;
    rewrite (pk_files _ _ _ _ _ _ _ _ Hpk), Hi.
  - assert (u = []) as -> by (destruct u; [done|]; unfold measure in Hf; simpl in Hf; lia).
    rewrite app_nil_r, Z.ltb_irrefl. by exists st, d, padded.
  - destruct u as [|x u].
    { rewrite app_nil_r, Z.ltb_irrefl. by exists st, d, padded. }
    rewrite (proj2 (Z.ltb_lt _ _)) by (vsize; pose proof (vsize_nonneg u); lia).
    destruct (optimize_step_spec fs0 rows0 bound st d x u padded Hg Hb)
      as (st' & d' & u' & padded' & -> & Hg' & Hm).
    cbn [mbind option_bind]. eapply IH; [done..|]. lia.
Qed.
End packing.

(** ** The whole of it *)

(** the times and the digests are those of all the files, or there are none *)
Definition full_beside (fs : file_storage) : Prop :=
  (m_mtime fs = [] ∨ vsize (m_mtime fs) = num_files fs) ∧
  (m_file_hashes fs = [] ∨ vsize (m_file_hashes fs) = num_files fs).

Definition column {A} (v : list A) (zero : A) (n : nat) : list A :=
  match v with [] => replicate n zero | _ => v end.

(** the files as they are, with their times and digests *)
Definition rows_of (fs : file_storage) : list row :=
  let n := length (m_files fs) in
  zip (zip (bare <$> m_files fs) (column (m_mtime fs) 0 n)) (column (m_file_hashes fs) None n).

Lemma column_spec {A} (v : list A) zero n :
  v = [] ∨ vsize v = Z.of_nat n → length (column v zero n) = n ∧ beside v (column v zero n) zero.
Proof.
  intros Hv. destruct v as [|x v]; cbn [column].
  - rewrite length_replicate. split; [done|]. right. split; [done|].
    by apply Forall_replicate.
  - split; [|by left]. destruct Hv as [?|Hv]; [done|]. unfold vsize in Hv. lia.
Qed.

Lemma rows_of_spec fs : full_beside fs → has_rows fs (rows_of fs).
Proof.
  intros [Ht Hh]. unfold rows_of.
  destruct (column_spec (m_mtime fs) 0 _ Ht) as [L1 B1].
  destruct (column_spec (m_file_hashes fs) None _ Hh) as [L2 B2].
  assert (length (bare <$> m_files fs) = length (m_files fs)) as L0 by by rewrite length_fmap.
  assert (length (zip (bare <$> m_files fs) (column (m_mtime fs) 0 (length (m_files fs)))) =
    length (m_files fs)) as L3 by (rewrite length_zip_with; lia).
  split.
  - change row_file with ((fst ∘ fst) : row → _). rewrite list_fmap_compose. symmetry.
    etransitivity; [refine (f_equal (fmap fst) (fst_zip _ _ _)); lia|]. apply fst_zip. lia.
  - assert (row_time <$> rows_of fs = column (m_mtime fs) 0 (length (m_files fs))) as E.
    { change row_time with ((snd ∘ fst) : row → _). rewrite list_fmap_compose. unfold rows_of.
      etransitivity; [refine (f_equal (fmap snd) (fst_zip _ _ _)); lia|]. apply snd_zip. lia. }
    unfold rows_of in E. by rewrite E.
  - assert (row_hash <$> rows_of fs = column (m_file_hashes fs) None (length (m_files fs))) as E.
    { apply snd_zip. lia. }
    unfold rows_of in E. by rewrite E.
Qed.

(** the alignment that is used: by default it is the piece length *)
Definition used_alignment (fs : file_storage) (alignment : Z) : Z :=
  if alignment =? -1 then m_piece_length fs else alignment.

Record optimized (fs fs' : file_storage) (limit alignment : Z) (tail_padding : bool) : Prop := {
  (* the files with their times and digests are the same, with pad files *)
  oz_files : ∃ rows padded, has_rows fs' rows ∧ rows ≡ₚ rows_of fs ++ padded ∧
    pads alignment (m_paths fs') padded ∧ (limit < 0 → tail_padding = false → padded = []);
  oz_rest : same_rest fs fs';
  (* large files start where a piece does *)
  oz_aligned : ∀ i e, (m_files fs')⟦i⟧ = Some e → must_align limit alignment e →
    fe_offset e mod alignment = 0;
  (* and so does what would follow the last file *)
  oz_tail : tail_padding = true → limit = 0 → m_total_size fs' mod alignment = 0;
  (* a file at such a place is a multiple of the alignment, or the largest one *)
  oz_packed : ∀ i j e e', i < j → (m_files fs')⟦i⟧ = Some e → (m_files fs')⟦j⟧ = Some e' →
    goes_before alignment e e'
}.

Lemma sorted_get {A} (R : A → A → Prop) l i j x y :
  StronglySorted R l → i < j → l⟦i⟧ = Some x → l⟦j⟧ = Some y → R x y.
Proof.
  intros Hs. revert i j. induction Hs as [|z l Hs IH Hz]; intros i j Hij Hx Hy; [by rewrite vget_nil in Hx|].
  rewrite vget_cons in Hx, Hy. destruct (Z.eqb_spec j 0) as [->|].
  { destruct (Z.eqb_spec i 0); [lia|]. apply vget_Some_range in Hx. lia. }
  destruct (Z.eqb_spec i 0) as [->|].
  - injection Hx as <-. rewrite Forall_forall in Hz. by eapply Hz, vget_elem_of.
  - eapply (IH (i - 1) (j - 1)); [lia|done..].
Qed.

Lemma laid_out_sizes off v : laid_out off v → Forall (λ e, 0 ≤ fe_size e) v.
Proof.
  revert off. induction v as [|e v IH]; intros off; [constructor|]. intros (_ & Hs & Hv).
  constructor; [done|]. by eapply IH.
Qed.

Lemma optimize_spec fs limit alignment tail_padding :
  let al := used_alignment fs alignment in
  layout_ok fs → full_beside fs → limit < 2 ^ 31 → 0 < al < 2 ^ 31 →
  m_total_size fs + al * (2 * num_files fs) < max_total →
  ∃ fs', optimize fs limit alignment tail_padding = Some fs' ∧ layout_ok fs' ∧
    optimized fs fs' limit al tail_padding.
Proof.
  intros al Hl Hfull Hlim Hal Hroom. pose proof Hl as (Hlay & Ht & _).
  set (bound := m_total_size fs + al * (2 * num_files fs)) in *.
  assert (good limit al tail_padding fs (rows_of fs) bound (OptState fs 0 0 0) [] (m_files fs) []) as Hg.
  { split; cbn; try done.
    - exists [], (rows_of fs). split; cbn; try done; try by constructor.
      + by apply rows_of_spec.
      + by rewrite app_nil_r.
      + by eapply laid_out_sizes.
      + apply same_rest_refl.
    - unfold measure. rewrite decide_True by done. unfold bound, num_files, vsize. lia. }
  destruct (optimize_loop_spec limit al tail_padding Hlim Hal fs (rows_of fs) bound
    (2 * length (m_files fs)) _ _ _ _ Hg Hroom) as (st & d & padded & Hrun & Hg').
  { unfold measure. rewrite decide_True by done. lia. }
  unfold optimize. fold (used_alignment fs alignment). fold al. rewrite Hrun. cbn [mbind option_bind].
  destruct Hg' as [(rd & ru & [Hf Hi Hr Hd Hp Hpads Hc Hlo Ho Hs Ha Hk Hb Hrest]) Hroom' Htail Hnone].
  rewrite app_nil_r in Hf. pose proof (laid_out_nonneg _ _ Hlo).
  eexists. split; [done|]. split.
  - unfold layout_ok. cbn. rewrite Hf. split; [done|]. split; [done|].
    assert (0 ≤ al * Z.of_nat (measure al (op_off st) [])) by lia. cbn [sum_sizes foldr] in Hroom'. lia.
  - split; cbn; try done.
    + exists (rd ++ ru), padded. split; [by destruct Hr|]. done.
    + destruct Hrest. by split.
    + rewrite Hf. intros i e Hie Hm. rewrite Forall_forall in Ha. by eapply Ha; [eapply vget_elem_of|].
    + rewrite Hf. intros i j e e' Hij He He'. by eapply (sorted_get _ d i j).
Qed.

(** ** Names *)

Lemma entry_ok_bare p s e : entry_ok p s (bare e) ↔ entry_ok p s e.
Proof. split; intros []; split; done. Qed.

Lemma pads_rows alignment paths s padded r :
  pads alignment paths padded → r ∈ padded →
  entry_ok (vsize paths) s (row_file r) ∧ row_time r = 0 ∧ row_hash r = None.
Proof.
  induction 1 as [|rows e size H IH Hp Hs]; [by intros ?%not_elem_of_nil|].
  rewrite elem_of_app, list_elem_of_singleton. intros [Hr| ->]; [by apply IH|].
  split; [|done]. apply entry_ok_bare. destruct Hp as [H1 H2 H3 H4 H5 H6 H7].
  apply vget_Some_range in H4. split; [done|auto|]. by rewrite H6.
Qed.

Lemma row_hash_of fs r : full_beside fs → r ∈ rows_of fs → digest_ok (row_hash r) ∨ row_hash r ∈ m_file_hashes fs.
Proof.
  intros Hf Hr. destruct (rows_of_spec fs Hf) as [_ _ [Hh|[_ Hz]]].
  - right. rewrite Hh. by apply list_elem_of_fmap_2.
  - left. rewrite Forall_fmap, Forall_forall in Hz. specialize (Hz r Hr). cbn in Hz. by rewrite Hz.
Qed.

Lemma beside_size {A} (v xs : list A) zero : beside v xs zero → vsize v ≤ vsize xs.
Proof. intros [->|[-> _]]; [done|]. apply vsize_nonneg. Qed.

Lemma optimized_names fs fs' limit al tail :
  names_ok fs → full_beside fs → optimized fs fs' limit al tail → names_ok fs'.
Proof.
  intros [He Hm Hh Hd] Hfull [(rows & padded & Hr & Hp & Hpads & _) Hrest _ _ _].
  destruct (sr_paths _ _ Hrest) as [extra Hex]. pose proof (vsize_nonneg extra) as Hx.
  assert (∀ r, r ∈ rows → entry_ok (vsize (m_paths fs')) (vsize (m_symlinks fs')) (row_file r) ∧
    digest_ok (row_hash r)) as Hrows.
  { intros r Hin. rewrite Hp, elem_of_app in Hin. destruct Hin as [Hin|Hin].
    - split.
      + pose proof (hr_files _ _ (rows_of_spec fs Hfull)) as Hb.
        apply (list_elem_of_fmap_2 row_file) in Hin. rewrite <-Hb in Hin.
        apply list_elem_of_fmap in Hin as (e & -> & Hin). apply entry_ok_bare.
        rewrite Forall_forall in He. eapply entry_ok_mono; [by apply He| |].
        * rewrite Hex, vsize_app. lia.
        * by rewrite (sr_links _ _ Hrest).
      + destruct (row_hash_of fs r Hfull Hin) as [?|Hi]; [done|].
        rewrite Forall_forall in Hd. by apply Hd.
    - destruct (pads_rows al _ (vsize (m_symlinks fs')) _ r Hpads Hin) as (H1 & _ & H2).
      split; [done|]. by rewrite H2. }
  pose proof (has_rows_size _ _ Hr) as Hs. destruct Hr as [Hrf Hrt Hrh].
  split.
  - apply Forall_forall. intros e Hin. apply entry_ok_bare.
    apply (list_elem_of_fmap_2 bare) in Hin. rewrite Hrf in Hin.
    apply list_elem_of_fmap in Hin as (r & -> & Hin). by apply Hrows.
  - apply beside_size in Hrt. unfold vsize in *. rewrite length_fmap in Hrt. lia.
  - apply beside_size in Hrh. unfold vsize in *. rewrite length_fmap in Hrh. lia.
  - destruct Hrh as [->|[-> _]]; [|constructor]. apply Forall_fmap, Forall_forall.
    intros r Hin. by apply Hrows.
Qed.
