(* ===== verification/FileSymlinks.v ===== *)
(** Model of [file_storage::sanitize_symlinks] of
    src/btdownloader/torrent/file_storage.cpp: symbolic links may only lead to
    files and directories of the torrent; the others are made to point to
    themselves.

    An [unordered_map] is a [gmap] and a set a [gset].  The maps of files and
    directories are built when the first link needs them, from what the function
    does not change; here they are built before the first pass. *)

From stdpp Require Import gmap sets.
From S2P Require Import Prelude.
From S2P Require Import Path.
From S2P Require Import FileStorage.

Open Scope Z_scope.

Abbreviation path := (list Z) (only parsing).

(** [file_map]: [insert] does not replace *)
Definition insert_new {A} (m : gmap path A) (k : path) (x : A) : gmap path A :=
  match m !! k with Some _ => m | None => <[k := x]> m end.

Fixpoint build_file_map (fs : file_storage) (js : list Z) (m : gmap path Z) : option (gmap path Z) :=
  match js with
  | [] => Some m
  | j :: js => p ← internal_file_path fs j; build_file_map fs js (insert_new m p j)
  end.

(** the indices of the files *)
Definition file_range (fs : file_storage) : list Z := Z.of_nat <$> seq 0 (length (m_files fs)).

(** a path and the directories above it *)
Fixpoint insert_dirs (fuel : nat) (pv : path) (dirs : gset path) : option (gset path) :=
  match pv with
  | [] => Some dirs
  | _ =>
      match fuel with
      | O => None
      | S fuel => insert_dirs fuel (rsplit_path pv).1 ({[pv]} ∪ dirs)
      end
  end.

Fixpoint build_dir_map (paths : list path) (dirs : gset path) : option (gset path) :=
  match paths with
  | [] => Some dirs
  | p :: paths => dirs ← insert_dirs (length p) p dirs; build_dir_map paths dirs
  end.

Record pass_state := PassState {
  ps_symlinks : list path;
  ps_dir_links : gmap path path;
  ps_to_validate : list Z
}.

Section sanitize.
Context (fs : file_storage) (file_map : gmap path Z) (dir_map : gset path).

Definition is_link (i : Z) : option bool :=
  flags ← file_flags fs i; Some (has_flag flags flag_symlink).

(** the link gets a target of which nothing is known *)
Definition link_to (st : pass_state) (fe : internal_file_entry) (target : path) : option pass_state :=
  v ← (ps_symlinks st)⟦fe_symlink_index fe := target⟧;
  Some (PassState v (ps_dir_links st) (ps_to_validate st)).

(** the link may lead to a directory *)
Definition link_to_dir (st : pass_state) (fe : internal_file_entry) (i : Z) (target : path)
    : option pass_state :=
  st ← link_to st fe target;
  p ← internal_file_path fs i;
  Some (PassState (ps_symlinks st) (<[p := target]> (ps_dir_links st)) (ps_to_validate st)).

(** a link to the file at [j]; when that is a link, it may be to a directory *)
Definition link_to_file (st : pass_state) (fe : internal_file_entry) (i j : Z) (target : path)
    : option pass_state :=
  link ← is_link j;
  if (link : bool) then link_to_dir st fe i target else link_to st fe target.

Definition leave_for_later (st : pass_state) (i : Z) (target : path) : option pass_state :=
  p ← internal_file_path fs i;
  Some (PassState (ps_symlinks st) (<[p := target]> (ps_dir_links st)) (ps_to_validate st ++ [i])).

(** a turn of the first loop, for the link [i] *)
Definition first_pass_link (st : pass_state) (i : Z) : option pass_state :=
  fe ← (m_files fs)⟦i⟧;
  raw ← (ps_symlinks st)⟦fe_symlink_index fe⟧;
  if is_complete raw then p ← internal_file_path fs i; link_to st fe p
  else
    match file_map !! raw with
    | Some j => link_to_file st fe i j raw
    | None =>
        if bool_decide (raw ∈ dir_map) then link_to_dir st fe i raw
        else if 0 <=? fe_path_index fe then
          dir ← (m_paths fs)⟦fe_path_index fe⟧;
          let target := append_path dir raw in
          if bool_decide (target ∈ m_paths fs) then link_to_dir st fe i target
          else if bool_decide (target ∈ dir_map) then link_to_dir st fe i target
          else
            match file_map !! target with
            | Some j => link_to_file st fe i j target
            | None => leave_for_later st i raw
            end
        else leave_for_later st i raw
    end.

Fixpoint first_pass (links : list Z) (st : pass_state) : option pass_state :=
  match links with
  | [] => Some st
  | i :: links =>
      link ← is_link i;
      st ← (if (link : bool) then first_pass_link st i else Some st);
      first_pass links st
  end.

(** The loop over the branches of a target: the target, the branch and the
    links that were traversed; it ends with the target that was reached, or
    fails. *)
Inductive walk :=
  | walking (target branch : path) (traversed : gset path)
  | arrived (target : path)
  | failed.

Definition next_branch (target branch : path) : path :=
  (lsplit_path_at target (vsize branch + 1)).1.

Definition walk_step (dir_links : gmap path path) (target branch : path) (traversed : gset path)
    : walk :=
  if vsize branch <? vsize target then
    if bool_decide (branch ∈ dir_map) then
      walking target (next_branch target branch) traversed
    else
      match dir_links !! branch with
      | None => failed
      | Some link =>
          if bool_decide (branch ∈ traversed) then failed
          else
            let target := combine_path link (drop (Z.to_nat (vsize branch + 1)) target) in
            walking target (next_branch target []) ({[branch]} ∪ traversed)
      end
  else arrived target.

Fixpoint walk_loop (fuel : nat) (dir_links : gmap path path) (w : walk) : option walk :=
  match w with
  | walking target branch traversed =>
      match fuel with
      | O => None
      | S fuel => walk_loop fuel dir_links (walk_step dir_links target branch traversed)
      end
  | _ => Some w
  end.

(** enough turns for the loop, as is proved where it matters *)
Definition walk_fuel (dir_links : gmap path path) (target : path) : nat :=
  let links := map_to_list dir_links in
  let longest := (length target + sum_list ((λ l, S (length l.2)) <$> links))%nat in
  S (S (length links) * S longest).

(** a turn of the second loop *)
Definition second_pass_link (dir_links : gmap path path) (symlinks : list path) (i : Z)
    : option (list path) :=
  fe ← (m_files fs)⟦i⟧;
  target ← symlinks⟦fe_symlink_index fe⟧;
  w ← walk_loop (walk_fuel dir_links target) dir_links
        (walking target (lsplit_path target).1 ∅);
  let ok := match w with
            | arrived t => bool_decide (is_Some (file_map !! t)) || bool_decide (t ∈ dir_map)
            | _ => false
            end in
  if ok then Some symlinks
  else p ← internal_file_path fs i; symlinks⟦fe_symlink_index fe := p⟧.

Fixpoint second_pass (dir_links : gmap path path) (links : list Z) (symlinks : list path)
    : option (list path) :=
  match links with
  | [] => Some symlinks
  | i :: links =>
      symlinks ← second_pass_link dir_links symlinks i;
      second_pass dir_links links symlinks
  end.
End sanitize.

Definition sanitize_symlinks (fs : file_storage) : option file_storage :=
  if existsb fe_symlink_attribute (m_files fs) then
    file_map ← build_file_map fs (file_range fs) ∅;
    dir_map ← build_dir_map (m_paths fs) ∅;
    st ← first_pass fs file_map dir_map (file_range fs) (PassState (m_symlinks fs) ∅ []);
    v ← second_pass fs file_map dir_map (ps_dir_links st) (ps_to_validate st) (ps_symlinks st);
    Some (set_symlinks fs v)
  else Some fs.
