(* ===== verification/FileLinks.v ===== *)
(** [sanitize_symlinks] returns, and what it makes of every link: the targets
    are judged one by one, and those that go through other links are followed
    through the targets these had. *)

From stdpp Require Import gmap sets.
From S2P Require Import Prelude.
From stdpp Require Import list.
From S2P Require Import StringUtil.
From S2P Require Import Path.
From S2P Require Import PathCorrect.
From S2P Require Import FileStorage.
From S2P Require Import FileOps.
From S2P Require Import FileSymlinks.

Open Scope Z_scope.

(** a path of elements, or of none *)
Definition is_path (p : list Z) : Prop := ∃ l, elements_ok l ∧ p = join l.

(** ** Files and directories *)

Definition is_file (fs : file_storage) (p : list Z) : Prop :=
  ∃ j, internal_file_path fs j = Some p.

Definition is_dir (fs : file_storage) (p : list Z) : Prop :=
  ∃ l k, join l ∈ m_paths fs ∧ elements_ok l ∧ (0 < k ≤ length l)%nat ∧ p = join (take k l).

Lemma insert_new_lookup {A} (m : gmap (list Z) A) k x p :
  is_Some (insert_new m k x !! p) ↔ p = k ∨ is_Some (m !! p).
Proof.
  unfold insert_new. destruct (m !! k) as [y|] eqn:Hk.
  - split; [by right|]. intros [->|?]; [by rewrite Hk|done].
  - destruct (decide (p = k)) as [->|Hne].
    + rewrite lookup_insert_eq. split; [by left|]. eauto.
    + rewrite lookup_insert_ne by done. split; [by right|]. by intros [?|?].
Qed.

Lemma build_file_map_spec fs js m :
  (∀ j, j ∈ js → is_Some (internal_file_path fs j)) →
  ∃ m', build_file_map fs js m = Some m' ∧
    ∀ p, is_Some (m' !! p) ↔ is_Some (m !! p) ∨ ∃ j, j ∈ js ∧ internal_file_path fs j = Some p.
Proof.
  revert m. induction js as [|j js IH]; intros m Hjs; cbn [build_file_map].
  - exists m. split; [done|]. intros p. split; [by left|].
    intros [?|(j & Hj & _)]; [done|]. by apply not_elem_of_nil in Hj.
  - destruct (Hjs j) as [q Hq]; [apply list_elem_of_here|]. rewrite Hq. cbn [mbind option_bind].
    destruct (IH (insert_new m q j)) as (m' & Hm & Hspec).
    { intros k Hk. apply Hjs. by apply list_elem_of_further. }
    exists m'. split; [done|]. intros p. rewrite Hspec, insert_new_lookup. split.
    + intros [[->|?]|(k & Hk & ?)]; [|by left|].
      * right. exists j. split; [apply list_elem_of_here|done].
      * right. exists k. split; [by apply list_elem_of_further|done].
    + intros [?|(k & [->|Hk]%elem_of_cons & Hp)]; [by left; right| |right; eauto].
      left. left. congruence.
Qed.

Lemma elem_of_file_range fs j : j ∈ file_range fs ↔ 0 ≤ j < num_files fs.
Proof.
  unfold file_range, num_files, vsize. rewrite list_elem_of_fmap. split.
  - intros (n & -> & Hn%elem_of_seq). lia.
  - intros Hj. exists (Z.to_nat j). split; [lia|]. apply elem_of_seq. lia.
Qed.

Lemma internal_file_path_range fs j p : internal_file_path fs j = Some p → 0 ≤ j < num_files fs.
Proof.
  unfold internal_file_path. destruct ((m_files fs)⟦j⟧) eqn:Hj; [|done]. intros _.
  by apply vget_Some_range in Hj.
Qed.

(** the first file with a path is the one that is found *)
Definition first_file (fs : file_storage) (p : list Z) (j : Z) : Prop :=
  internal_file_path fs j = Some p ∧ ∀ k, k < j → internal_file_path fs k ≠ Some p.

Lemma first_file_unique fs p i j : first_file fs p i → first_file fs p j → i = j.
Proof.
  intros [Hi Hi'] [Hj Hj']. destruct (Z.lt_trichotomy i j) as [Hlt|[?|Hlt]]; [|done|].
  - by destruct (Hj' i Hlt).
  - by destruct (Hi' j Hlt).
Qed.

Lemma build_file_map_first fs n len m m' :
  build_file_map fs (Z.of_nat <$> seq n len) m = Some m' →
  (∀ p j, m !! p = Some j → first_file fs p j) →
  (∀ p k, k < Z.of_nat n → internal_file_path fs k = Some p → is_Some (m !! p)) →
  ∀ p j, m' !! p = Some j → first_file fs p j.
Proof.
  revert n m. induction len as [|len IH]; intros n m; cbn [seq fmap list_fmap build_file_map].
  { by intros [= <-]. }
  destruct (internal_file_path fs (Z.of_nat n)) as [q|] eqn:Hq; [|done]. cbn [mbind option_bind].
  intros Hrun Hm Hall. apply (IH (S n) _ Hrun).
  - intros p j. unfold insert_new. destruct (m !! q) as [x|] eqn:Hx; [apply Hm|].
    destruct (decide (p = q)) as [->|Hne]; [|rewrite lookup_insert_ne by done; apply Hm].
    rewrite lookup_insert_eq. intros [= <-]. split; [done|]. intros k Hk Hkq.
    destruct (Hall q k Hk Hkq). congruence.
  - intros p k Hk Hp. apply insert_new_lookup. destruct (decide (k = Z.of_nat n)) as [->|Hne].
    + left. congruence.
    + right. apply (Hall p k); [lia|done].
Qed.

Lemma file_map_spec fs :
  storage_ok fs → ∃ m, build_file_map fs (file_range fs) ∅ = Some m ∧
    ∀ p, is_Some (m !! p) ↔ is_file fs p.
Proof.
  intros Hok. destruct (build_file_map_spec fs (file_range fs) ∅) as (m & Hm & Hspec).
  { intros j Hj%elem_of_file_range. destruct (entry_at fs j Hok Hj) as (e & He & [Hn Hp _]).
    unfold internal_file_path. rewrite He. cbn [mbind option_bind].
    destruct (name_ok_filename e Hn) as [n ->]. cbn [mbind option_bind].
    destruct (Z.leb_spec 0 (fe_path_index e)); [|eauto].
    destruct (vget_is_Some (m_paths fs) (fe_path_index e)) as [q ->]; [lia|]. cbn. eauto. }
  exists m. split; [done|]. intros p. rewrite Hspec. split.
  - intros [[? Hx]|(j & _ & ?)]; [by rewrite lookup_empty in Hx|]. by exists j.
  - intros (j & Hj). right. exists j. split; [|done].
    apply elem_of_file_range. by eapply internal_file_path_range.
Qed.

Lemma find_last_of_range s c p : find_last_of s c = Some p → 0 ≤ p < vsize s.
Proof.
  revert p. induction s as [|x s IH]; intros p; [done|]. cbn [find_last_of]. vsize.
  pose proof (vsize_nonneg s). destruct (find_last_of s c) as [q|].
  - intros [= <-]. specialize (IH q eq_refl). lia.
  - destruct (x =? c); [|done]. intros [= <-]. lia.
Qed.

Lemma rsplit_path_shorter p : p ≠ [] → (length (rsplit_path p).1 < length p)%nat.
Proof.
  intros Hp. destruct p as [|c p]; [done|]. unfold rsplit_path.
  assert (length (strip_separator (c :: p)) ≤ length (c :: p))%nat as Hs.
  { unfold strip_separator. destruct (list.last _); [|done]. destruct (is_separator z); [|done].
    rewrite <-(take_drop (length (removelast (c :: p))) (c :: p)) at 2. rewrite length_app.
    rewrite length_take.
    assert (length (removelast (c :: p)) ≤ length (c :: p))%nat; [|lia].
    clear. generalize (c :: p). intros l. induction l as [|x l IH]; [done|].
    destruct l; simpl in *; lia. }
  destruct (find_last_of _ _) as [q|] eqn:Hq; [|simpl; lia]. cbn [fst].
  apply find_last_of_range in Hq. unfold vsize in Hq. rewrite length_take. lia.
Qed.

(** the directories above a path of elements, and itself *)
Lemma insert_dirs_spec fuel l dirs :
  elements_ok l → (length (join l) ≤ fuel)%nat →
  ∃ dirs', insert_dirs fuel (join l) dirs = Some dirs' ∧
    ∀ p, p ∈ dirs' ↔ p ∈ dirs ∨ ∃ k, (0 < k ≤ length l)%nat ∧ p = join (take k l).
Proof.
  revert l dirs. induction fuel as [|fuel IH]; intros l dirs Hl Hf.
  - assert (l = []) as ->.
    { apply join_nil; [done|]. by apply nil_length_inv; lia. }
    exists dirs. split; [done|]. intros p. split; [by left|]. intros [?|(k & ? & _)]; [done|]. simpl in *. lia.
  - destruct (decide (l = [])) as [->|Hn].
    { exists dirs. split; [done|]. intros p. split; [by left|]. intros [?|(k & ? & _)]; [done|]. simpl in *. lia. }
    destruct (exists_last Hn) as (l' & x & ->). pose proof Hl as [Hl' Hx]%elements_snoc.
    pose proof (join_not_nil _ Hl Hn) as Hj. pose proof (rsplit_path_shorter _ Hj) as Hshort.
    rewrite rsplit_path_join in Hshort by done. cbn [fst] in Hshort.
    cbn [insert_dirs]. destruct (join (l' ++ [x])) as [|c0 s0] eqn:E; [done|]. rewrite <-E in *.
    rewrite rsplit_path_join by done. cbn [fst].
    destruct (IH l' ({[join (l' ++ [x])]} ∪ dirs) Hl' ltac:(lia)) as (dirs' & Hd & Hspec).
    exists dirs'. split; [done|]. intros p. rewrite Hspec, elem_of_union, elem_of_singleton.
    rewrite length_app. cbn [length]. split.
    + intros [[->|?]|(k & Hk & ->)]; [|by left|].
      * right. exists (length l' + 1)%nat. split; [lia|]. rewrite firstn_all2; [done|].
        rewrite length_app. simpl. lia.
      * right. exists k. split; [lia|]. by rewrite take_app_le by lia.
    + intros [?|(k & Hk & ->)]; [by left; right|].
      destruct (decide (k = length l' + 1)%nat) as [->|].
      * left. left. rewrite firstn_all2; [done|]. rewrite length_app. simpl. lia.
      * right. exists k. split; [lia|]. by rewrite take_app_le by lia.
Qed.

Lemma build_dir_map_spec paths dirs :
  Forall is_path paths →
  ∃ dirs', build_dir_map paths dirs = Some dirs' ∧
    ∀ p, p ∈ dirs' ↔ p ∈ dirs ∨ ∃ l k, join l ∈ paths ∧ elements_ok l ∧
      (0 < k ≤ length l)%nat ∧ p = join (take k l).
Proof.
  intros Hp. revert dirs. induction Hp as [|q paths (l & Hl & ->) Hp IH]; intros dirs; cbn [build_dir_map].
  - exists dirs. split; [done|]. intros p. split; [by left|].
    intros [?|(l & k & Hl & _)]; [done|]. by apply not_elem_of_nil in Hl.
  - destruct (insert_dirs_spec _ l dirs Hl (le_n _)) as (d1 & -> & H1). cbn [mbind option_bind].
    destruct (IH d1) as (d2 & Hd2 & H2). exists d2. split; [done|]. intros p. rewrite H2, H1. split.
    + intros [[?|(k & Hk & ->)]|(l' & k & Hin & ?)]; [by left| |].
      * right. exists l, k. split; [apply list_elem_of_here|done].
      * right. exists l', k. split; [by apply list_elem_of_further|done].
    + intros [?|(l' & k & [Heq|Hin]%elem_of_cons & Hl' & Hk & ->)]; [by left; left| |].
      * left. right. assert (l' = l) as -> by (by apply join_inj). by exists k.
      * right. by exists l', k.
Qed.

(** ** Following a target *)

Lemma vsize_join_take l k :
  elements_ok l → (k < length l)%nat → vsize (join (take k l)) < vsize (join l).
Proof.
  intros Hl Hk. rewrite <-(take_drop k l) at 2.
  destruct (drop k l) as [|x t] eqn:Hd.
  { apply (f_equal length) in Hd. rewrite length_drop in Hd. simpl in Hd. lia. }
  assert (elements_ok (x :: t)) as Hx by (rewrite <-Hd; by apply Forall_drop).
  assert (0 < vsize (join (x :: t))) as Hpos.
  { pose proof (join_not_nil _ Hx ltac:(done)). destruct (join (x :: t)); [done|]. vsize.
    pose proof (vsize_nonneg l0). lia. }
  destruct (decide (take k l = [])) as [->|Hn]; [done|].
  rewrite join_app by done. vsize.
Qed.

Lemma next_branch_join l k :
  elements_ok l → (k < length l)%nat →
  next_branch (join l) (join (take k l)) = join (take (S k) l).
Proof.
  intros Hl Hk. unfold next_branch. destruct (lookup_lt_is_Some_2 l k Hk) as [x Hx].
  assert (l = take k l ++ x :: drop (S k) l) as Hs by (by rewrite <-drop_S, take_drop).
  pose proof (lsplit_path_at_join (take k l) x (drop (S k) l)) as H. rewrite <-Hs in H.
  rewrite H by done. cbn [fst]. f_equal. by rewrite (take_S_r l k x).
Qed.

Lemma first_branch_join l : elements_ok l → next_branch (join l) [] = join (take 1 l).
Proof.
  intros Hl. destruct l as [|x l]; [done|].
  change [] with (join (take 0 (x :: l))). by rewrite next_branch_join by (done || simpl; lia).
Qed.

Lemma first_split_join l : elements_ok l → (lsplit_path (join l)).1 = join (take 1 l).
Proof. intros Hl. destruct l as [|x l]; [done|]. by rewrite lsplit_path_join. Qed.

Lemma rest_join l k :
  elements_ok l → (0 < k < length l)%nat →
  drop (Z.to_nat (vsize (join (take k l)) + 1)) (join l) = join (drop k l).
Proof.
  intros Hl Hk. rewrite <-(take_drop k l) at 2. rewrite join_app.
  - apply drop_vsize.
  - destruct l, k; simpl in *; try lia; done.
  - intros Hd. apply (f_equal length) in Hd. rewrite length_drop in Hd. simpl in Hd. lia.
Qed.

Lemma combined_ok l k : elements_ok l → elements_ok k → elements_ok (combined l k).
Proof. intros. unfold combined. repeat case_decide; try done. by apply Forall_app. Qed.

Lemma length_join_combined l k :
  elements_ok l → elements_ok k →
  (length (join (combined l k)) ≤ length (join l) + S (length (join k)))%nat.
Proof.
  intros Hl Hk. unfold combined. repeat case_decide; try lia.
  rewrite join_app by done. rewrite length_app. simpl. lia.
Qed.

(** What a path leads to, through links: every branch on the way is a directory
    of the torrent, or a link that was not met before. *)
Inductive leads (dir : list Z → Prop) (points : list Z → list Z → Prop) :
    gset (list Z) → list (list Z) → list (list Z) → Prop :=
  | leads_here met ts :
      (∀ j, (0 < j < length ts)%nat → dir (join (take j ts))) → leads dir points met ts ts
  | leads_link met ts k l ts' :
      (0 < k < length ts)%nat → (∀ j, (0 < j < k)%nat → dir (join (take j ts))) →
      ¬ dir (join (take k ts)) → join (take k ts) ∉ met →
      points (join (take k ts)) (join l) → elements_ok l →
      leads dir points ({[join (take k ts)]} ∪ met) (combined l (drop k ts)) ts' →
      leads dir points met ts ts'.

Lemma leads_ext (dir dir' : list Z → Prop) (points points' : list Z → list Z → Prop) met ts ts' :
  (∀ p, dir p ↔ dir' p) → (∀ p t, points p t ↔ points' p t) →
  leads dir points met ts ts' → leads dir' points' met ts ts'.
Proof.
  intros Hd Hp. induction 1 as [met ts Hj|met ts k l ts' Hk Hj Hn Hm Hpt Hl _ IH].
  - apply leads_here. intros j ?. by apply Hd, Hj.
  - apply (leads_link _ _ met ts k l ts'); try done.
    + intros j ?. by apply Hd, Hj.
    + by rewrite <-Hd.
    + by apply Hp.
Qed.

(** the way goes through the first branch that is not a directory *)
Lemma leads_through (dir : list Z → Prop) (points : list Z → list Z → Prop) met ts ts' k :
  leads dir points met ts ts' → (0 < k < length ts)%nat →
  (∀ j, (0 < j < k)%nat → dir (join (take j ts))) → ¬ dir (join (take k ts)) →
  join (take k ts) ∉ met ∧ ∃ l, elements_ok l ∧ points (join (take k ts)) (join l) ∧
    leads dir points ({[join (take k ts)]} ∪ met) (combined l (drop k ts)) ts'.
Proof.
  intros Hlead Hk Hd Hn. destruct Hlead as [met ts Hj|met ts k' l ts' Hk' Hj Hn' Hm Hpt Hl Hlead].
  { by destruct (Hn (Hj k Hk)). }
  destruct (Nat.lt_trichotomy k' k) as [Hlt|[->|Hlt]].
  - destruct Hn'. apply Hd. lia.
  - split; [done|]. by exists l.
  - destruct Hn. apply Hj. lia.
Qed.

Section walks.
Context (dirs : gset (list Z)) (links : gmap (list Z) (list Z)).
Context (Hlinks : ∀ p t, links !! p = Some t → is_path t).

Definition way : gset (list Z) → list (list Z) → list (list Z) → Prop :=
  leads (.∈ dirs) (λ p t, links !! p = Some t).

Lemma way_det met ts t1 t2 : way met ts t1 → way met ts t2 → t1 = t2.
Proof.
  unfold way. intros H1. revert t2.
  induction H1 as [met ts Hj|met ts k l ts' Hk Hj Hn Hm Hpt Hl _ IH]; intros t2 H2.
  - destruct H2 as [|met ts k l ts' Hk _ Hn _ _ _ _]; [done|]. by destruct (Hn (Hj k Hk)).
  - destruct (leads_through _ _ _ _ _ k H2 Hk Hj Hn) as (_ & l' & Hl' & Hpt' & Hlead).
    assert (l' = l) as -> by (apply join_inj; [done..|]; congruence). by apply IH.
Qed.

(** the characters of the links that were not traversed *)
Definition open_links (traversed : gset (list Z)) : gmap (list Z) (list Z) :=
  filter (λ kv, kv.1 ∉ traversed) links.

Definition link_sizes (m : gmap (list Z) (list Z)) : nat :=
  map_fold (λ _ t n, S (length t) + n)%nat 0%nat m.

Lemma link_sizes_delete m p t :
  m !! p = Some t → link_sizes m = (S (length t) + link_sizes (delete p m))%nat.
Proof.
  intros Hm. unfold link_sizes. rewrite <-(insert_delete_id m p t Hm) at 1.
  rewrite map_fold_insert_L; [done| |apply lookup_delete_eq]. intros. lia.
Qed.

Lemma open_links_insert traversed p :
  open_links ({[p]} ∪ traversed) = delete p (open_links traversed).
Proof.
  apply map_eq. intros q. unfold open_links. destruct (decide (q = p)) as [->|Hne].
  - rewrite lookup_delete_eq. apply map_lookup_filter_None. right. intros x _. set_solver.
  - rewrite lookup_delete_ne by done. apply option_eq. intros x.
    rewrite !map_lookup_filter_Some. set_solver.
Qed.

Lemma open_links_lookup traversed p t :
  links !! p = Some t → p ∉ traversed → open_links traversed !! p = Some t.
Proof. intros. by apply map_lookup_filter_Some. Qed.

Lemma walk_loop_spec longest n fuel traversed ts k :
  elements_ok ts → (k ≤ length ts)%nat → (0 < k ∨ ts = [])%nat →
  size (open_links traversed) = n →
  (length (join ts) + link_sizes (open_links traversed) ≤ longest)%nat →
  (∀ j, (0 < j < k)%nat → join (take j ts) ∈ dirs) →
  (n * S longest + (length ts - k) < fuel)%nat →
  ∃ w, walk_loop dirs fuel links (walking (join ts) (join (take k ts)) traversed) = Some w ∧
    ((w = failed ∧ ∀ ts', ¬ way traversed ts ts') ∨
     ∃ ts', elements_ok ts' ∧ w = arrived (join ts') ∧ way traversed ts ts').
Proof.
  revert n traversed ts k. induction fuel as [|fuel IH]; intros n traversed ts k Hts Hk H0 Hn Hlen Hdirs Hf; [lia|].
  cbn [walk_loop]. unfold walk_step. destruct (decide (k = length ts)) as [->|Hne].
  { rewrite (firstn_all ts), Z.ltb_irrefl. destruct fuel; cbn [walk_loop]; (eexists; split; [done|]; right);
      exists ts; (split; [done|]; split; [done|by constructor]). }
  assert (k < length ts)%nat as Hk' by lia. assert (0 < k)%nat as Hk0 by (destruct H0 as [?| ->]; simpl in *; lia).
  rewrite (proj2 (Z.ltb_lt _ _)) by by apply vsize_join_take.
  case_bool_decide as Hdir.
  - rewrite next_branch_join by done. eapply IH; [done|lia|by left; lia|done|done| |lia].
    intros j Hj. destruct (decide (j = k)) as [->|]; [done|]. apply Hdirs. lia.
  - assert (∀ ts', way traversed ts ts' → join (take k ts) ∉ traversed ∧ ∃ l, elements_ok l ∧
      links !! join (take k ts) = Some (join l) ∧
      way ({[join (take k ts)]} ∪ traversed) (combined l (drop k ts)) ts') as Hthrough.
    { intros ts' Hway. by apply (leads_through _ _ _ _ _ k Hway). }
    destruct (links !! join (take k ts)) as [t|] eqn:Hl.
    2:{ destruct fuel; (eexists; split; [done|]; left; split; [done|]);
          intros ts' (_ & l & _ & ? & _)%Hthrough; congruence. }
    case_bool_decide as Htr.
    { destruct fuel; (eexists; split; [done|]; left; split; [done|]);
        by intros ts' (? & _)%Hthrough. }
    destruct (Hlinks _ _ Hl) as (l & Hlo & ->).
    rewrite rest_join, combine_path_join by (done || by apply Forall_drop).
    set (ts2 := combined l (drop k ts)).
    assert (elements_ok ts2) as Hts2 by (apply combined_ok; [done|by apply Forall_drop]).
    rewrite first_branch_join by done.
    pose proof (open_links_lookup _ _ _ Hl Htr) as Ho.
    pose proof (link_sizes_delete _ _ _ Ho) as Hsz.
    assert (length (join (drop k ts)) < length (join ts))%nat as Hdrop.
    { rewrite <-(take_drop k ts) at 2. rewrite join_app, length_app; [simpl; lia| |].
      - destruct ts, k; simpl in *; try lia; done.
      - intros Hd. apply (f_equal length) in Hd. rewrite length_drop in Hd. simpl in Hd. lia. }
    assert (length (join ts2) + link_sizes (open_links ({[join (take k ts)]} ∪ traversed)) ≤ longest)%nat as Hlen2.
    { rewrite open_links_insert. pose proof (length_join_combined l (drop k ts) Hlo ltac:(by apply Forall_drop)).
      fold ts2 in H. lia. }
    assert (length ts2 ≤ length (join ts2))%nat as Hl2.
    { clear - Hts2. induction Hts2 as [|x t Hx Ht IHt]; [done|]. rewrite join_tail, length_app.
      destruct (element_first x Hx) as (c & s & -> & _). destruct t; simpl in *; lia. }
    destruct (IH (pred n) ({[join (take k ts)]} ∪ traversed) ts2 (min 1 (length ts2))) as (w & Hw & Hres).
    + done.
    + lia.
    + destruct ts2; [by right|left]. simpl. lia.
    + rewrite open_links_insert, map_size_delete, Ho, Hn. done.
    + done.
    + intros j Hj. lia.
    + assert (0 < n)%nat.
      { rewrite <-Hn. apply Nat.neq_0_lt_0. intros Hz%map_size_empty_iff. by rewrite Hz, lookup_empty in Ho. }
      destruct n as [|n]; [lia|]. simpl in *. lia.
    + exists w. split.
      * rewrite <-Hw. f_equal. f_equal. destruct ts2; [done|]. simpl. done.
      * destruct Hres as [[-> Hno]|(ts' & ? & -> & Hlead)]; [left|right].
        -- split; [done|]. intros ts' (_ & l' & Hl' & Hpt & Hway)%Hthrough.
           assert (l' = l) as -> by (apply join_inj; [done..|]; congruence). by apply (Hno ts').
        -- exists ts'. split; [done|]. split; [done|].
           eapply leads_link; [|exact Hdirs|done|done|done|done|exact Hlead]. lia.
Qed.
End walks.

Lemma walk_fuel_sizes (links : gmap (list Z) (list Z)) target :
  walk_fuel links target = S (S (size links) * S (length target + link_sizes links)).
Proof.
  unfold walk_fuel, link_sizes. rewrite length_map_to_list, map_fold_foldr.
  do 4 f_equal.
  induction (map_to_list links) as [|[p t] l IH]; [done|]. cbn. by rewrite IH.
Qed.

(** the loop of the second pass ends, with a path that the target leads to *)
Lemma walk_spec dirs links ts :
  (∀ p t, links !! p = Some t → is_path t) → elements_ok ts →
  ∃ w, walk_loop dirs (walk_fuel links (join ts)) links
      (walking (join ts) (lsplit_path (join ts)).1 ∅) = Some w ∧
    ((w = failed ∧ ∀ ts', ¬ way dirs links ∅ ts ts') ∨
     ∃ ts', elements_ok ts' ∧ w = arrived (join ts') ∧ way dirs links ∅ ts ts').
Proof.
  intros Hlinks Hts. rewrite first_split_join, walk_fuel_sizes by done.
  assert (open_links links ∅ = links) as Ho.
  { apply map_eq. intros p. apply option_eq. intros t. unfold open_links.
    rewrite map_lookup_filter_Some. set_solver. }
  assert (length ts ≤ length (join ts))%nat as Hl.
  { clear - Hts. induction Hts as [|x t Hx Ht IHt]; [done|]. rewrite join_tail, length_app.
    destruct (element_first x Hx) as (c & s & -> & _). destruct t; simpl in *; lia. }
  destruct (walk_loop_spec dirs links Hlinks (length (join ts) + link_sizes links) (size links)
    (S (S (size links) * S (length (join ts) + link_sizes links))) ∅ ts (min 1 (length ts)))
    as (w & Hw & Hres); [done|lia| |by rewrite Ho|by rewrite Ho|lia|simpl; lia|].
  - destruct ts; [by right|left]. simpl. lia.
  - exists w. split; [|done]. rewrite <-Hw. do 2 f_equal. destruct ts; [done|]. simpl. done.
Qed.

(** ** The first pass *)

Lemma append_is_path p q : is_path p → is_path q → is_path (append_path p q).
Proof.
  intros (l & Hl & ->) (k & Hk & ->). destruct (decide (l = [dot])) as [->|Hd].
  - cbn. by exists k.
  - rewrite append_path_join by done. exists (l ++ k). split; [by apply Forall_app|done].
Qed.

(** ** What becomes of a link *)

(** the link at [i], and its place among the targets *)
Definition link_at (fs : file_storage) (i idx : Z) : Prop :=
  ∃ e, (m_files fs)⟦i⟧ = Some e ∧ fe_symlink_attribute e = true ∧ fe_symlink_index e = idx.

(** every link has a target of its own *)
Definition own_targets (fs : file_storage) : Prop :=
  ∀ i j idx, link_at fs i idx → link_at fs j idx → i = j.

(** what is in the torrent *)
Definition in_torrent (fs : file_storage) (t : list Z) : Prop := is_file fs t ∨ is_dir fs t.

(** What is made of a target: the link is to point to itself, to a path of the
    torrent, which others may lead through when it is not a file, or it is not
    yet clear. *)
Inductive judgement :=
  | itself
  | to (target : list Z) (through : bool)
  | unclear.

Section judging.
Context (fs : file_storage).

(** below the directory of the link *)
Definition below (e : internal_file_entry) (raw t : list Z) : Prop :=
  0 ≤ fe_path_index e ∧ ∃ dir, (m_paths fs)⟦fe_path_index e⟧ = Some dir ∧ t = append_path dir raw.

Inductive judged (e : internal_file_entry) (raw : list Z) : judgement → Prop :=
  | judged_absolute :
      is_complete raw = true → judged e raw itself
  | judged_file j link :
      is_complete raw = false → first_file fs raw j → is_link fs j = Some link →
      judged e raw (to raw link)
  | judged_dir :
      is_complete raw = false → ¬ is_file fs raw → is_dir fs raw → judged e raw (to raw true)
  | judged_dir_below t :
      is_complete raw = false → ¬ in_torrent fs raw → below e raw t →
      is_dir fs t ∨ t ∈ m_paths fs → judged e raw (to t true)
  | judged_file_below t j link :
      is_complete raw = false → ¬ in_torrent fs raw → below e raw t →
      ¬ is_dir fs t → t ∉ m_paths fs → first_file fs t j → is_link fs j = Some link →
      judged e raw (to t link)
  | judged_unclear :
      is_complete raw = false → ¬ in_torrent fs raw →
      (∀ t, below e raw t → ¬ in_torrent fs t ∧ t ∉ m_paths fs) → judged e raw unclear.

(** the link at [i], whose path is [p], with the target [raw] *)
Definition judged_at (i : Z) (p raw : list Z) (v : judgement) : Prop :=
  ∃ e, (m_files fs)⟦i⟧ = Some e ∧ fe_symlink_attribute e = true ∧
    internal_file_path fs i = Some p ∧ (m_symlinks fs)⟦fe_symlink_index e⟧ = Some raw ∧
    judged e raw v.

(** where others are led that go through the link *)
Definition onward (raw : list Z) (v : judgement) : option (list Z) :=
  match v with
  | itself => None
  | to t through => if through then Some t else None
  | unclear => Some raw
  end.

(** the path is that of links, and the last that leads anywhere leads to [t] *)
Definition points (p t : list Z) : Prop :=
  ∃ i raw v, judged_at i p raw v ∧ onward raw v = Some t ∧
    ∀ j raw' v', i < j → judged_at j p raw' v' → onward raw' v' = None.

(** an unclear target is right when links lead from it to a file or a directory,
    no link being met twice *)
Definition reaches (raw : list Z) : Prop :=
  ∃ ts ts', elements_ok ts ∧ raw = join ts ∧ leads (is_dir fs) points ∅ ts ts' ∧
    in_torrent fs (join ts').

(** the target that a link ends with *)
Definition outcome (p raw : list Z) (v : judgement) (t : list Z) : Prop :=
  match v with
  | itself => t = p
  | to target _ => t = target
  | unclear => reaches raw ∧ t = raw ∨ ¬ reaches raw ∧ t = p
  end.

Lemma below_unique e raw t t' : below e raw t → below e raw t' → t = t'.
Proof. intros (_ & d & Hd & ->) (_ & d' & Hd' & ->). congruence. Qed.

Lemma first_is_file p j : first_file fs p j → is_file fs p.
Proof. intros [Hj _]. by exists j. Qed.

(** two judgements that exclude each other *)
Ltac clash e raw :=
  try congruence;
  repeat match goal with
  | H : below e raw ?a, H' : below e raw ?b |- _ =>
      assert (a = b) as -> by (by eapply below_unique); clear H
  | H : below e raw ?t, A : ∀ t, below e raw t → _ |- _ => destruct (A t H) as [? ?]; clear A
  | H : first_file fs ?p _, N : ¬ is_file fs ?p |- _ => destruct (N (first_is_file _ _ H))
  | H : first_file fs ?p _, N : ¬ in_torrent fs ?p |- _ => destruct (N (or_introl (first_is_file _ _ H)))
  | H : is_dir fs ?p, N : ¬ in_torrent fs ?p |- _ => destruct (N (or_intror H))
  | H : is_dir fs ?p ∨ _ |- _ => destruct H as [H|H]; try done
  end; try done.

Lemma judged_det e raw v v' : judged e raw v → judged e raw v' → v = v'.
Proof.
  assert (∀ p i j a b, first_file fs p i → is_link fs i = Some a → first_file fs p j →
    is_link fs j = Some b → a = b) as Hsame.
  { intros p i j a b Hi Ha Hj Hb. rewrite (first_file_unique fs p i j Hi Hj) in Ha. congruence. }
  destruct 1, 1; clash e raw; f_equal; by eauto.
Qed.

Lemma judged_at_det i p raw v p' raw' v' :
  judged_at i p raw v → judged_at i p' raw' v' → p = p' ∧ raw = raw' ∧ v = v'.
Proof.
  intros (e & He & _ & Hp & Hraw & Hv) (e' & He' & _ & Hp' & Hraw' & Hv'). simplify_eq.
  split_and!; try done. by eapply judged_det.
Qed.
End judging.

Section passes.
Context (fs : file_storage) (file_map : gmap (list Z) Z) (dir_map : gset (list Z)).
Context (Hok : storage_ok fs) (Hfiles : ∀ p, is_Some (file_map !! p) ↔ is_file fs p)
  (Hdirs : ∀ p, p ∈ dir_map ↔ is_dir fs p) (Hpaths : Forall is_path (m_paths fs))
  (Hnames : ∀ p, is_file fs p → is_path p)
  (Hmap : ∀ p j, file_map !! p = Some j → first_file fs p j).

Lemma is_link_spec i e :
  (m_files fs)⟦i⟧ = Some e → is_link fs i = Some (fe_symlink_attribute e).
Proof.
  intros He. unfold is_link, file_flags. rewrite He. cbn. f_equal. unfold entry_flags.
  by destruct (fe_pad_file e), (fe_hidden_attribute e), (fe_executable_attribute e),
    (fe_symlink_attribute e).
Qed.

Lemma internal_path_defined i e :
  (m_files fs)⟦i⟧ = Some e → ∃ p, internal_file_path fs i = Some p.
Proof using Hok.
  intros He. destruct (entry_at fs i Hok) as (e' & He' & [Hn Hp _]); [by eapply vget_Some_range|].
  simplify_eq. unfold internal_file_path. rewrite He. cbn [mbind option_bind].
  destruct (name_ok_filename e Hn) as [n ->]. cbn [mbind option_bind].
  destruct (Z.leb_spec 0 (fe_path_index e)); [|eauto].
  destruct (vget_is_Some (m_paths fs) (fe_path_index e)) as [q ->]; [lia|]. cbn. eauto.
Qed.

(** a target that may be left where it is *)
Definition raw_ok (t : list Z) : Prop := is_complete t = true ∨ is_path t.

(** a link with a path and a target *)
Definition placed_link (i : Z) (p raw : list Z) (idx : Z) (v : list (list Z)) : Prop :=
  ∃ e, (m_files fs)⟦i⟧ = Some e ∧ fe_symlink_attribute e = true ∧ fe_symlink_index e = idx ∧
    internal_file_path fs i = Some p ∧ v⟦idx⟧ = Some raw.

(** What a turn of the first loop does: the link is judged, which decides the
    target it gets, where others are led, and whether it is left for later. *)
Record turn (i : Z) (p raw : list Z) (idx : Z) (v : judgement) (st st' : pass_state) : Prop := {
  tu_size : vsize (ps_symlinks st') = vsize (ps_symlinks st);
  tu_target : ∀ k, (ps_symlinks st')⟦k⟧ =
    if k =? idx then Some (match v with itself => p | to t _ => t | unclear => raw end)
    else (ps_symlinks st)⟦k⟧;
  tu_links : ps_dir_links st' =
    match onward raw v with Some t => <[p := t]> (ps_dir_links st) | None => ps_dir_links st end;
  tu_later : ps_to_validate st' =
    match v with unclear => ps_to_validate st ++ [i] | _ => ps_to_validate st end
}.

Lemma link_to_turn st i p raw e t :
  (m_files fs)⟦i⟧ = Some e → internal_file_path fs i = Some p →
  0 ≤ fe_symlink_index e < vsize (ps_symlinks st) →
  (∃ st', link_to st e t = Some st' ∧ turn i p raw (fe_symlink_index e) (to t false) st st') ∧
  ∃ st', link_to_dir fs st e i t = Some st' ∧ turn i p raw (fe_symlink_index e) (to t true) st st'.
Proof.
  intros He Hp Hidx. unfold link_to_dir, link_to.
  destruct (vset_is_Some (ps_symlinks st) (fe_symlink_index e) t Hidx) as [v Hv].
  rewrite Hv. cbn [mbind option_bind]. rewrite Hp. cbn [mbind option_bind].
  split; (eexists; split; [done|]); split; cbn; try done;
    [by rewrite (vset_size _ _ _ _ Hv)|by intros; apply vset_get|
     by rewrite (vset_size _ _ _ _ Hv)|by intros; apply vset_get].
Qed.

Lemma link_to_file_turn st i p raw e j t :
  (m_files fs)⟦i⟧ = Some e → internal_file_path fs i = Some p → first_file fs t j →
  0 ≤ fe_symlink_index e < vsize (ps_symlinks st) →
  ∃ st' link, is_link fs j = Some link ∧ link_to_file fs st e i j t = Some st' ∧
    turn i p raw (fe_symlink_index e) (to t link) st st'.
Proof using Hok.
  intros He Hp [Hj _] Hidx. apply internal_file_path_range in Hj.
  destruct (vget_is_Some _ _ Hj) as [e' He'].
  destruct (link_to_turn st i p raw e t He Hp Hidx) as [(s1 & H1 & T1) (s2 & H2 & T2)].
  unfold link_to_file. rewrite (is_link_spec j e' He'). cbn [mbind option_bind].
  destruct (fe_symlink_attribute e'); eauto.
Qed.

Lemma leave_for_later_turn st i p raw e :
  internal_file_path fs i = Some p → (ps_symlinks st)⟦fe_symlink_index e⟧ = Some raw →
  ∃ st', leave_for_later fs st i raw = Some st' ∧ turn i p raw (fe_symlink_index e) unclear st st'.
Proof.
  intros Hp Hraw. unfold leave_for_later. rewrite Hp. cbn [mbind option_bind].
  eexists. split; [done|]. split; cbn; try done.
  intros k. by destruct (Z.eqb_spec k (fe_symlink_index e)) as [->|].
Qed.

Lemma first_pass_link_turn st i p raw idx :
  placed_link i p raw idx (ps_symlinks st) →
  ∃ st' e v, (m_files fs)⟦i⟧ = Some e ∧ first_pass_link fs file_map dir_map st i = Some st' ∧
    judged fs e raw v ∧ turn i p raw idx v st st'.
Proof using Hok Hfiles Hdirs Hmap.
  intros (e & He & Ha & <- & Hp & Hraw). pose proof (vget_Some_range _ _ _ Hraw) as Hidx.
  unfold first_pass_link. rewrite He. cbn [mbind option_bind]. rewrite Hraw. cbn [mbind option_bind].
  pose proof (λ t, link_to_turn st i p raw e t He Hp Hidx) as Hto.
  destruct (is_complete raw) eqn:Hc.
  { rewrite Hp. cbn [mbind option_bind]. destruct (Hto p) as [(st' & -> & [T1 T2 T3 T4]) _].
    exists st', e, itself. split_and!; try done. by apply judged_absolute. }
  destruct (file_map !! raw) as [j|] eqn:Hj.
  { apply Hmap in Hj. destruct (link_to_file_turn st i p raw e j raw He Hp Hj Hidx) as (st' & link & Hl & -> & Ht).
    exists st', e, (to raw link). split_and!; try done. by eapply judged_file. }
  assert (∀ t, file_map !! t = None → ¬ is_file fs t) as Hnofile.
  { intros t Hn Hf. apply Hfiles in Hf. rewrite Hn in Hf. by destruct Hf. }
  case_bool_decide as Hd; rewrite Hdirs in Hd.
  { destruct (Hto raw) as [_ (st' & -> & Ht)]. exists st', e, (to raw true).
    split_and!; try done. apply judged_dir; [done|by apply Hnofile|done]. }
  assert (¬ in_torrent fs raw) as Hno by (intros [Hf|?]; [by eapply Hnofile|done]).
  assert (∀ (H : ∀ t, below fs e raw t → ¬ in_torrent fs t ∧ t ∉ m_paths fs),
    ∃ st' e' v, Some e = Some e' ∧ leave_for_later fs st i raw = Some st' ∧ judged fs e' raw v ∧
      turn i p raw (fe_symlink_index e) v st st') as Hlater.
  { intros H. destruct (leave_for_later_turn st i p raw e Hp Hraw) as (st' & -> & Ht).
    exists st', e, unclear. split_and!; try done. by apply judged_unclear. }
  destruct (Z.leb_spec 0 (fe_path_index e)) as [Hpi|Hpi].
  2:{ apply Hlater. intros t [? _]. lia. }
  destruct (entry_at fs i Hok) as (e' & He' & [_ Hbound _]); [by eapply vget_Some_range|]. simplify_eq.
  destruct (vget_is_Some (m_paths fs) (fe_path_index e)) as [dir Hdir]; [lia|].
  rewrite Hdir. cbn [mbind option_bind]. cbv zeta. set (t := append_path dir raw).
  assert (below fs e raw t) as Hbelow by (split; [done|]; by exists dir).
  case_bool_decide as Hm; [|case_bool_decide as Hd2; rewrite Hdirs in Hd2].
  1-2: destruct (Hto t) as [_ (st' & -> & Ht)]; exists st', e, (to t true); split_and!; try done;
    apply judged_dir_below; auto.
  destruct (file_map !! t) as [j|] eqn:Hj2.
  - apply Hmap in Hj2. destruct (link_to_file_turn st i p raw e j t He Hp Hj2 Hidx) as (st' & link & Hl & -> & Ht).
    exists st', e, (to t link). split_and!; try done. by eapply judged_file_below.
  - apply Hlater. intros t' Hb. rewrite (below_unique fs e raw t' t) by done.
    split; [|done]. intros [Hf|?]; [by eapply Hnofile|done].
Qed.
(** *** The first pass *)

(** the path that a link ends with, where it is judged *)
Lemma turn_target_path e p raw v :
  judged fs e raw v → is_path p → raw_ok raw →
  is_path (match v with itself => p | to t _ => t | unclear => raw end) ∧
  ∀ t, onward raw v = Some t → is_path t.
Proof using Hpaths.
  intros Hv Hp Hr.
  assert (is_complete raw = false → is_path raw) as Hraw by (intros; destruct Hr; [congruence|done]).
  assert (∀ t, is_complete raw = false → below fs e raw t → is_path t) as Hbelow.
  { intros t Hc (_ & dir & Hdir & ->). apply append_is_path; [|by apply Hraw].
    rewrite Forall_forall in Hpaths. by eapply Hpaths, vget_elem_of. }
  destruct Hv; cbn; (split; [by eauto|]); intros t'; repeat case_match; intros [= <-]; by eauto.
Qed.

Record pass_ok (st : pass_state) : Prop := {
  pa_size : vsize (ps_symlinks st) = vsize (m_symlinks fs);
  pa_raw : Forall raw_ok (ps_symlinks st);
  pa_links : ∀ p t, ps_dir_links st !! p = Some t → is_path t;
  pa_todo : ∀ j, j ∈ ps_to_validate st → ∃ p idx t,
    placed_link j p t idx (ps_symlinks st) ∧ is_path t
}.

Lemma turn_ok st i p raw idx e v st' :
  pass_ok st → placed_link i p raw idx (ps_symlinks st) → judged fs e raw v →
  turn i p raw idx v st st' → pass_ok st'.
Proof using Hpaths Hnames.
  intros [Hs Hr Hl Ht] Hplaced Hv [T1 T2 T3 T4].
  pose proof Hplaced as (e0 & He & Ha & Hidx & Hp & Hraw).
  assert (raw_ok raw) as Hrok by (rewrite Forall_forall in Hr; by eapply Hr, vget_elem_of).
  destruct (turn_target_path e p raw v Hv) as [Htarget Honward]; [by apply Hnames; exists i|done|].
  set (r := match v with itself => p | to t _ => t | unclear => raw end) in *.
  assert (∀ j q t k, placed_link j q t k (ps_symlinks st) → is_path t →
    ∃ q k t, placed_link j q t k (ps_symlinks st') ∧ is_path t) as Hkeep.
  { intros j q t k (e' & ? & ? & ? & ? & ?) Htp. exists q, k, (if k =? idx then r else t).
    split; [|by destruct (k =? idx)]. exists e'. split_and!; try done. rewrite T2. by destruct (k =? idx); [|]. }
  split.
  - by rewrite T1.
  - apply Forall_forall. intros x (k & Hx)%elem_of_vget. rewrite T2 in Hx.
    destruct (k =? idx); [injection Hx as <-; by right|].
    rewrite Forall_forall in Hr. by eapply Hr, vget_elem_of.
  - intros q t. rewrite T3. destruct (onward raw v) as [t'|] eqn:Ho; [|apply Hl].
    destruct (decide (q = p)) as [->|]; [rewrite lookup_insert_eq; intros [= <-]; by apply Honward|].
    rewrite lookup_insert_ne by done. apply Hl.
  - intros j Hj. assert (j ∈ ps_to_validate st ∨ v = unclear ∧ j = i) as [Hin|[-> ->]].
    { rewrite T4 in Hj. destruct v; [by left..|]. apply elem_of_app in Hj as [?|?%list_elem_of_singleton]; auto. }
    + destruct (Ht j Hin) as (q & k & t & Hq & Htp). by eapply Hkeep.
    + by eapply Hkeep.
Qed.

Lemma link_is_placed st i e :
  pass_ok st → (m_files fs)⟦i⟧ = Some e → fe_symlink_attribute e = true →
  ∃ p raw, placed_link i p raw (fe_symlink_index e) (ps_symlinks st).
Proof using Hok.
  intros [Hs _ _ _] He Ha. destruct (internal_path_defined i e He) as [p Hp].
  destruct (entry_at fs i Hok) as (e' & He' & [_ _ Hidx]); [by eapply vget_Some_range|]. simplify_eq.
  specialize (Hidx Ha). rewrite <-Hs in Hidx. destruct (vget_is_Some _ _ Hidx) as [raw Hraw].
  exists p, raw. by exists e.
Qed.

(** where the last link of a path leads that leads anywhere, below [k] *)
Definition onward_below (k : Z) (p t : list Z) : Prop :=
  ∃ i raw v, i < k ∧ judged_at fs i p raw v ∧ onward raw v = Some t ∧
    ∀ j raw' v', i < j < k → judged_at fs j p raw' v' → onward raw' v' = None.

Lemma onward_skip k p t :
  (∀ raw v, judged_at fs k p raw v → onward raw v = None) → onward_below (k + 1) p t ↔ onward_below k p t.
Proof.
  intros Hno. split; intros (i & raw & v & Hi & Hj & Ho & Hlast); exists i, raw, v.
  - assert (i ≠ k) by (intros ->; rewrite (Hno raw v Hj) in Ho; done).
    split_and!; [lia|done..|]. intros j raw' v' Hj'. apply Hlast. lia.
  - split_and!; [lia|done..|]. intros j raw' v' Hj' Hat.
    destruct (decide (j = k)) as [->|]; [by eapply Hno|]. eapply Hlast; [|done]. lia.
Qed.

Lemma onward_last k p raw v t t' :
  judged_at fs k p raw v → onward raw v = Some t → onward_below (k + 1) p t' ↔ t' = t.
Proof.
  intros Hat Ho. split.
  - intros (i & raw' & v' & Hi & Hj & Ho' & Hlast). destruct (decide (i = k)) as [->|].
    + destruct (judged_at_det _ _ _ _ _ _ _ _ Hj Hat) as (_ & -> & ->). congruence.
    + rewrite (Hlast k raw v) in Ho; [done|lia|done].
  - intros ->. exists k, raw, v. split_and!; [lia|done..|]. intros. lia.
Qed.

(** The state after the files below [k]: with targets of their own, the links
    are judged by the targets they had. *)
Record judged_below (k : Z) (st : pass_state) : Prop := {
  jb_done : ∀ i p raw v e, i < k → judged_at fs i p raw v → (m_files fs)⟦i⟧ = Some e →
    (ps_symlinks st)⟦fe_symlink_index e⟧ =
      Some (match v with itself => p | to t _ => t | unclear => raw end);
  jb_rest : ∀ idx, (∀ i, i < k → ¬ link_at fs i idx) → (ps_symlinks st)⟦idx⟧ = (m_symlinks fs)⟦idx⟧;
  jb_links : ∀ p t, ps_dir_links st !! p = Some t ↔ onward_below k p t;
  jb_all : ∀ i idx, i < k → link_at fs i idx → ∃ p raw v, judged_at fs i p raw v;
  jb_nodup : NoDup (ps_to_validate st);
  jb_later : ∀ i, i ∈ ps_to_validate st ↔ i < k ∧ ∃ p raw, judged_at fs i p raw unclear
}.

Lemma judged_at_link i p raw v : judged_at fs i p raw v → ∃ idx, link_at fs i idx.
Proof. intros (e & He & Ha & _). eexists. by exists e. Qed.

(** a file that is no link changes nothing *)
Lemma judged_below_skip k st :
  (∀ idx, ¬ link_at fs k idx) → judged_below k st → judged_below (k + 1) st.
Proof.
  intros Hno [J1 J2 J3 J4 J5 J6].
  assert (∀ p raw v, ¬ judged_at fs k p raw v) as Hno' by (intros p raw v [idx ?]%judged_at_link; by eapply Hno).
  assert (∀ i, i < k + 1 → i < k ∨ i = k) as Hlt by lia.
  split; try done.
  - intros i p raw v e [?| ->]%Hlt Hj; [by eauto|by destruct (Hno' _ _ _ Hj)].
  - intros idx Hi. apply J2. intros i Hik. apply Hi. lia.
  - intros p t. rewrite J3, onward_skip; [done|]. intros raw v Hj. by destruct (Hno' _ _ _ Hj).
  - intros i idx [?| ->]%Hlt Hl; [by eauto|by destruct (Hno idx)].
  - intros i. rewrite J6. split; [intros [? ?]; split; [lia|done]|].
    intros [[?| ->]%Hlt (p & raw & Hj)]; [|by destruct (Hno' _ _ _ Hj)]. by eauto.
Qed.

Lemma judged_below_turn k st p raw v e st' :
  own_targets fs → judged_below k st → (m_files fs)⟦k⟧ = Some e → fe_symlink_attribute e = true →
  internal_file_path fs k = Some p → (ps_symlinks st)⟦fe_symlink_index e⟧ = Some raw →
  judged fs e raw v → turn k p raw (fe_symlink_index e) v st st' → judged_below (k + 1) st'.
Proof.
  intros Hown [J1 J2 J3 J4 J5 J6] He Ha Hp Hraw Hv [T1 T2 T3 T4].
  assert (link_at fs k (fe_symlink_index e)) as Hlink by by exists e.
  assert (∀ i idx, i < k → link_at fs i idx → idx ≠ fe_symlink_index e) as Hother.
  { intros i idx Hi Hl ->. rewrite (Hown i k _ Hl Hlink) in Hi. lia. }
  assert (judged_at fs k p raw v) as Hat.
  { exists e. split_and!; try done. rewrite <-Hraw. symmetry. apply J2.
    intros i Hi Hl. by destruct (Hother i _ Hi Hl). }
  assert (∀ i, i < k + 1 → i < k ∨ i = k) as Hlt by lia.
  assert (∀ q raw' v', judged_at fs k q raw' v' → q = p ∧ raw' = raw ∧ v' = v) as Hdet
    by (intros; by eapply judged_at_det).
  split.
  - intros i q raw' v' e' [Hi| ->]%Hlt Hj He'.
    + rewrite T2, (proj2 (Z.eqb_neq _ _)); [by eauto|]. apply (Hother i); [done|].
      destruct Hj as (e2 & ? & ? & _). simplify_eq. by eexists.
    + destruct (Hdet _ _ _ Hj) as (-> & -> & ->). simplify_eq. by rewrite T2, Z.eqb_refl.
  - intros idx Hi. rewrite T2, (proj2 (Z.eqb_neq _ _)).
    + apply J2. intros i Hik. apply Hi. lia.
    + intros ->. apply (Hi k); [lia|done].
  - intros q t. rewrite T3. destruct (decide (q = p)) as [->|Hne].
    + destruct (onward raw v) as [t'|] eqn:Ho.
      * rewrite lookup_insert_eq, (onward_last k p raw v t') by done. split; [by intros [= ->]|by intros ->].
      * rewrite J3, onward_skip; [done|]. by intros ? ? (_ & -> & ->)%Hdet.
    + rewrite onward_skip by (by intros ? ? (-> & _)%Hdet).
      rewrite <-J3. destruct (onward raw v); [by rewrite lookup_insert_ne|done].
  - intros i idx [?| ->]%Hlt Hl; by eauto.
  - rewrite T4. destruct v; [done..|]. apply NoDup_app. split; [done|]. split; [|by apply NoDup_singleton].
    intros i [Hi _]%J6 ->%list_elem_of_singleton. lia.
  - intros i. rewrite T4. split.
    + intros Hin. assert (i ∈ ps_to_validate st ∨ v = unclear ∧ i = k) as [[? ?]%J6|[-> ->]].
      { destruct v; [by left..|]. apply elem_of_app in Hin as [?|?%list_elem_of_singleton]; auto. }
      * split; [lia|done].
      * split; [lia|by eauto].
    + intros [[Hi| ->]%Hlt (q & raw' & Hj)].
      * assert (i ∈ ps_to_validate st) by (apply J6; by eauto). destruct v; [done..|].
        apply elem_of_app. by left.
      * destruct (Hdet _ _ _ Hj) as (_ & _ & <-). apply elem_of_app. right. by apply list_elem_of_singleton.
Qed.

(** a turn of the first loop, whether the file is a link or not *)
Lemma first_pass_turn st k :
  pass_ok st → 0 ≤ k < num_files fs →
  ∃ link st', is_link fs k = Some link ∧
    (if (link : bool) then first_pass_link fs file_map dir_map st k else Some st) = Some st' ∧ pass_ok st' ∧
    (own_targets fs → judged_below k st → judged_below (k + 1) st').
Proof using Hok Hfiles Hdirs Hmap Hpaths Hnames.
  intros Hst Hk. destruct (vget_is_Some (m_files fs) k Hk) as [e He].
  exists (fe_symlink_attribute e). rewrite (is_link_spec k e He). destruct (fe_symlink_attribute e) eqn:Ha.
  - destruct (link_is_placed st k e Hst He Ha) as (p & raw & Hplaced).
    destruct (first_pass_link_turn st k p raw _ Hplaced) as (st' & e' & v & He' & Hrun & Hv & Hturn). simplify_eq.
    exists st'. split; [done|]. split; [done|]. split; [by eapply turn_ok|]. intros Hown Hj.
    destruct Hplaced as (e2 & _ & _ & _ & Hp & Hraw). by eapply judged_below_turn.
  - exists st. split_and!; try done. intros _. apply judged_below_skip. intros idx (e' & He' & Ha' & _). congruence.
Qed.

Lemma first_pass_spec n len st :
  (n + len)%nat = length (m_files fs) → pass_ok st →
  ∃ st', first_pass fs file_map dir_map (Z.of_nat <$> seq n len) st = Some st' ∧ pass_ok st' ∧
    (own_targets fs → judged_below (Z.of_nat n) st → judged_below (num_files fs) st').
Proof using Hok Hfiles Hdirs Hmap Hpaths Hnames.
  revert n st. induction len as [|len IH]; intros n st Hn Hst; cbn [seq fmap list_fmap first_pass].
  - exists st. split_and!; try done. intros _. unfold num_files, vsize. by replace (length (m_files fs)) with n by lia.
  - destruct (first_pass_turn st (Z.of_nat n) Hst) as (link & st1 & -> & Hrun & Hst1 & Hj); [unfold num_files, vsize; lia|].
    cbn [mbind option_bind]. rewrite Hrun. cbn [mbind option_bind].
    destruct (IH (S n) st1) as (st' & -> & Hst' & Hj'); [lia|done|]. exists st'. split_and!; try done.
    intros Hown Hb. apply Hj'; [done|]. replace (Z.of_nat (S n)) with (Z.of_nat n + 1) by lia. by apply Hj.
Qed.

(** *** The second pass *)

Lemma second_pass_link_spec (links : gmap (list Z) (list Z)) v j p idx t :
  (∀ p t, links !! p = Some t → is_path t) → placed_link j p t idx v → is_path t →
  ∃ v', second_pass_link fs file_map dir_map links v j = Some v' ∧ vsize v' = vsize v ∧
    ∃ t', (∀ k, v'⟦k⟧ = if k =? idx then Some t' else v⟦k⟧) ∧ is_path t' ∧
      ((∀ q x, links !! q = Some x ↔ points fs q x) → reaches fs t ∧ t' = t ∨ ¬ reaches fs t ∧ t' = p).
Proof using Hfiles Hdirs Hnames.
  intros Hlinks (e & He & Ha & <- & Hp & Ht) (ts & Hts & ->).
  unfold second_pass_link. rewrite He. cbn [mbind option_bind]. rewrite Ht. cbn [mbind option_bind].
  destruct (walk_spec dir_map links ts Hlinks Hts) as (w & -> & Hw). cbn [mbind option_bind].
  set (ok := match w with arrived t => _ | _ => false end).
  assert ((∀ q x, links !! q = Some x ↔ points fs q x) → ok = true ↔ reaches fs (join ts)) as Hreach.
  { intros Hpt. assert (∀ t', way dir_map links ∅ ts t' ↔ leads (is_dir fs) (points fs) ∅ ts t') as Hway.
    { intros t'. by split; apply leads_ext. }
    unfold ok. destruct Hw as [[-> Hno]|(ts' & Hts' & -> & Hlead)].
    - split; [done|]. intros (us & ts' & Hus & Heq & Hlead & _).
      rewrite <-(join_inj ts us Hts Hus Heq) in Hlead.
      by apply Hway, Hno in Hlead.
    - rewrite orb_true_iff, !bool_decide_eq_true, Hfiles, Hdirs. split.
      + intros Hin. exists ts, ts'. split_and!; try done. by apply Hway.
      + intros (us & us' & Hus & Heq & Hlead' & Hin). rewrite <-(join_inj ts us Hts Hus Heq) in Hlead'.
        apply Hway in Hlead'. by rewrite (way_det dir_map links ∅ ts ts' us'). }
  destruct ok eqn:Hokw.
  - exists v. split; [done|]. split; [done|]. exists (join ts). split_and!.
    + intros k. by destruct (Z.eqb_spec k (fe_symlink_index e)) as [->|].
    + by exists ts.
    + intros Hpt. left. split; [by apply Hreach|done].
  - rewrite Hp. cbn [mbind option_bind].
    destruct (vset_is_Some v (fe_symlink_index e) p) as [v' Hv']; [by eapply vget_Some_range|].
    exists v'. split_and!; [done|by apply (vset_size _ _ _ _ Hv')|]. exists p. split_and!.
    + intros k. by apply vset_get.
    + apply Hnames. by exists j.
    + intros Hpt. right. split; [|done]. intros Hr%Hreach; [|done]. congruence.
Qed.

Definition todo_ok (todo : list Z) (v : list (list Z)) : Prop :=
  ∀ j, j ∈ todo → ∃ p idx t, placed_link j p t idx v ∧ is_path t.

(** each link that is left is followed, and nothing else is written *)
Lemma second_pass_spec (links : gmap (list Z) (list Z)) todo v :
  (∀ p t, links !! p = Some t → is_path t) → todo_ok todo v →
  ∃ v', second_pass fs file_map dir_map links todo v = Some v' ∧ vsize v' = vsize v ∧
    (∀ idx, (∀ j, j ∈ todo → ¬ link_at fs j idx) → v'⟦idx⟧ = v⟦idx⟧) ∧
    (own_targets fs → NoDup todo → (∀ q x, links !! q = Some x ↔ points fs q x) →
     ∀ j p idx t, j ∈ todo → placed_link j p t idx v →
       ∃ t', v'⟦idx⟧ = Some t' ∧ (reaches fs t ∧ t' = t ∨ ¬ reaches fs t ∧ t' = p)).
Proof using Hfiles Hdirs Hnames.
  intros Hlinks. revert v. induction todo as [|j todo IH]; intros v Htodo; cbn [second_pass].
  { exists v. split_and!; try done. by intros _ _ _ j p idx t ?%not_elem_of_nil. }
  destruct (Htodo j) as (p & idx & t & Hplaced & Hpath); [apply list_elem_of_here|].
  destruct (second_pass_link_spec links v j p idx t Hlinks Hplaced Hpath) as (v1 & -> & Hs1 & t1 & Hg & Hp1 & Hres).
  cbn [mbind option_bind]. pose proof Hplaced as (e & He & Ha & Hidx & Hp & Ht).
  assert (∀ i q x k, placed_link i q x k v → k ≠ idx → placed_link i q x k v1) as Hkeep.
  { intros i q x k (e' & ? & ? & ? & ? & ?) Hne. exists e'. split_and!; try done.
    rewrite Hg. by rewrite (proj2 (Z.eqb_neq _ _)). }
  destruct (IH v1) as (v' & Hrun & Hs' & Hrest & Hall).
  { intros i Hi. destruct (Htodo i) as (q & k & x & Hq & Hx); [by apply list_elem_of_further|].
    destruct (decide (k = idx)) as [->|Hne]; [|by eauto 6]. exists q, idx, t1. split; [|done].
    destruct Hq as (e' & ? & ? & ? & ? & ?). exists e'. split_and!; try done. by rewrite Hg, Z.eqb_refl. }
  assert (link_at fs j idx) as Hlj by by exists e.
  exists v'. split_and!; [done|by rewrite Hs'| |].
  - intros k Hk. rewrite Hrest by (intros i Hi; apply Hk; by apply list_elem_of_further).
    rewrite Hg. destruct (Z.eqb_spec k idx) as [->|]; [|done]. destruct (Hk j); [apply list_elem_of_here|done].
  - intros Hown [Hnj Hnd]%NoDup_cons Hpt i q k x Hin Hq.
    assert (∀ i, i ∈ todo → ¬ link_at fs i idx) as Hno.
    { intros i' Hi' Hl. rewrite (Hown i' j idx Hl Hlj) in Hi'. done. }
    apply elem_of_cons in Hin as [->|Hin].
    + destruct Hq as (e' & He' & _ & Hk & Hq & Hx). simplify_eq. exists t1.
      rewrite Hrest, Hg, Z.eqb_refl by done. split; [done|]. by apply Hres.
    + apply (Hall Hown Hnd Hpt i q); [done|]. apply Hkeep; [done|]. intros ->.
      destruct (Hno i Hin). destruct Hq as (e' & ? & ? & ? & _). by exists e'.
Qed.
End passes.

(** ** Targets of their own *)

(** a file that is added gets a target behind the others *)
Lemma added_link fs fs' e filename path n flags h mt link i idx :
  storage_ok fs → added fs fs' e filename path n flags h mt link → link_at fs' i idx →
  (link_at fs i idx ∧ idx < vsize (m_symlinks fs) ∧ (m_symlinks fs')⟦idx⟧ = (m_symlinks fs)⟦idx⟧) ∨
  i = num_files fs ∧ idx = vsize (m_symlinks fs) ∧ (m_symlinks fs')⟦idx⟧ = Some link.
Proof.
  intros Hok Ha (x & Hx & Hax & Hidx). pose proof (vget_Some_range _ _ _ Hx) as Hr.
  rewrite (ad_files _ _ _ _ _ _ _ _ _ _ Ha) in Hx, Hr. unfold num_files.
  pose proof (ad_target _ _ _ _ _ _ _ _ _ _ Ha) as Ht.
  destruct (decide (i = vsize (m_files fs))) as [->|Hne].
  - right. split; [done|]. rewrite vget_middle in Hx. injection Hx as <-.
    pose proof (ad_link _ _ _ _ _ _ _ _ _ _ Ha) as Hl. rewrite Hax in Hl.
    destruct (records_link fs link); [|done]. destruct Ht as [Hi ->]. rewrite <-Hidx, Hi.
    split; [done|]. apply vget_middle.
  - left. rewrite vget_app_l in Hx by (revert Hr; vsize).
    destruct (entry_at fs i Hok) as (x' & Hx' & [_ _ Hl]); [by eapply vget_Some_range|]. simplify_eq.
    specialize (Hl Hax). split; [by eexists|]. split; [lia|].
    destruct (records_link fs link); [destruct Ht as [_ ->]; by rewrite vget_app_l by lia|by rewrite Ht].
Qed.

Lemma added_own_targets fs fs' e filename path n flags h mt link :
  storage_ok fs → own_targets fs → added fs fs' e filename path n flags h mt link → own_targets fs'.
Proof.
  intros Hok Hown Ha i j idx Hi Hj.
  destruct (added_link _ _ _ _ _ _ _ _ _ _ _ _ Hok Ha Hi) as [(Hi' & ? & _)|(-> & ? & _)],
    (added_link _ _ _ _ _ _ _ _ _ _ _ _ Hok Ha Hj) as [(Hj' & ? & _)|(-> & ? & _)];
    [by apply (Hown i j idx)|lia..].
Qed.

(** ** The function *)

(** Only the targets are changed.  When every link has a target of its own, each
    is judged by the targets that the torrent gave, and ends with what it is
    judged to be; what no link uses is as it was. *)
Record sanitized (fs fs' : file_storage) : Prop := {
  sz_rest : fs' = set_symlinks fs (m_symlinks fs');
  sz_size : vsize (m_symlinks fs') = vsize (m_symlinks fs);
  sz_links : own_targets fs → ∀ i idx, link_at fs i idx →
    ∃ p raw v t, judged_at fs i p raw v ∧ (m_symlinks fs')⟦idx⟧ = Some t ∧ outcome fs p raw v t;
  sz_others : own_targets fs → ∀ idx, (∀ i, ¬ link_at fs i idx) →
    (m_symlinks fs')⟦idx⟧ = (m_symlinks fs)⟦idx⟧
}.

(** paths and targets are made of elements; a target may also be absolute *)
Record paths_ok (fs : file_storage) : Prop := {
  po_dirs : Forall is_path (m_paths fs);
  po_files : ∀ p, is_file fs p → is_path p;
  po_targets : Forall raw_ok (m_symlinks fs)
}.

Lemma no_links fs i idx : existsb fe_symlink_attribute (m_files fs) = false → ¬ link_at fs i idx.
Proof.
  intros Hx (e & He & Ha & _). apply vget_elem_of in He.
  assert (existsb fe_symlink_attribute (m_files fs) = true); [|congruence].
  apply existsb_exists. exists e. split; [by apply list_elem_of_In|done].
Qed.

Lemma judged_nothing fs : judged_below fs 0 (PassState (m_symlinks fs) ∅ []).
Proof.
  assert (∀ j p raw v, j < 0 → ¬ judged_at fs j p raw v) as Hno.
  { intros j p raw v Hj (e & He & _). apply vget_Some_range in He. lia. }
  split; cbn; try done.
  - intros i p raw v e Hi Hj. by destruct (Hno i p raw v).
  - intros p t. rewrite lookup_empty. split; [done|]. intros (i & raw & v & Hi & Hj & _). by destruct (Hno i p raw v).
  - intros i idx Hi (e & He & _). apply vget_Some_range in He. lia.
  - by apply NoDup_nil.
  - intros i. split; [by intros ?%not_elem_of_nil|]. intros [Hi (p & raw & Hj)]. by destruct (Hno i p raw unclear).
Qed.

Lemma onward_all fs p t : onward_below fs (num_files fs) p t ↔ points fs p t.
Proof.
  assert (∀ i q raw v, judged_at fs i q raw v → i < num_files fs) as Hlt.
  { intros i q raw v (e & He & _). apply vget_Some_range in He. unfold num_files. lia. }
  split.
  - intros (i & raw & v & Hi & Hj & Ho & Hlast). exists i, raw, v. split_and!; try done.
    intros j raw' v' Hij Hat. eapply Hlast; [|done]. split; [done|by eapply Hlt].
  - intros (i & raw & v & Hj & Ho & Hlast). exists i, raw, v. split_and!; try done; [by eapply Hlt|].
    intros j raw' v' [Hij _]. by apply Hlast.
Qed.

(** what the passes leave is what the links are judged to be *)
Lemma passes_outcome fs st v :
  own_targets fs → judged_below fs (num_files fs) st →
  (∀ idx, (∀ j, j ∈ ps_to_validate st → ¬ link_at fs j idx) → v⟦idx⟧ = (ps_symlinks st)⟦idx⟧) →
  (∀ j p idx t, j ∈ ps_to_validate st → placed_link fs j p t idx (ps_symlinks st) →
     ∃ t', v⟦idx⟧ = Some t' ∧ (reaches fs t ∧ t' = t ∨ ¬ reaches fs t ∧ t' = p)) →
  ∀ i idx, link_at fs i idx →
    ∃ p raw u t, judged_at fs i p raw u ∧ v⟦idx⟧ = Some t ∧ outcome fs p raw u t.
Proof.
  intros Hown [J1 J2 J3 J4 J5 J6] Hrest Htodo i idx Hl. pose proof Hl as (e & He & Ha & Hidx).
  assert (i < num_files fs) as Hi by (apply vget_Some_range in He; unfold num_files; lia).
  destruct (J4 i idx Hi Hl) as (p & raw & u & Hj). pose proof (J1 i p raw u e Hi Hj He) as Hs. rewrite Hidx in Hs.
  assert (internal_file_path fs i = Some p) as Hp by (by destruct Hj as (e' & _ & _ & ? & _)).
  assert (u = unclear ∨ u ≠ unclear) as [->|Hu] by (destruct u; by auto).
  - destruct (Htodo i p idx raw) as (t & Ht & Hout); [apply J6; by eauto|by exists e|].
    by exists p, raw, unclear, t.
  - exists p, raw, u. eexists. split; [done|]. rewrite Hrest.
    + split; [exact Hs|]. by destruct u.
    + intros j [_ (p' & raw' & Hj')]%J6 Hlj. rewrite (Hown j i idx Hlj Hl) in Hj'.
      by destruct (judged_at_det _ _ _ _ _ _ _ _ Hj Hj') as (_ & _ & ->).
Qed.

Lemma sanitize_symlinks_spec fs :
  storage_ok fs → paths_ok fs → ∃ fs', sanitize_symlinks fs = Some fs' ∧ sanitized fs fs'.
Proof.
  intros Hok [Hpaths Hnames Hraw]. unfold sanitize_symlinks.
  destruct (existsb fe_symlink_attribute (m_files fs)) eqn:Hx.
  2:{ exists fs. split; [done|]. split; [by destruct fs|done| |done].
      intros _ i idx Hi. by apply no_links in Hi. }
  destruct (file_map_spec fs Hok) as (fm & Hfm & Hfiles). rewrite Hfm. cbn [mbind option_bind].
  destruct (build_dir_map_spec (m_paths fs) ∅ Hpaths) as (dirs & -> & Hd). cbn [mbind option_bind].
  assert (∀ p, p ∈ dirs ↔ is_dir fs p) as Hdirs by (intros p; rewrite Hd; set_solver).
  assert (∀ p j, fm !! p = Some j → first_file fs p j) as Hmap.
  { eapply (build_file_map_first fs 0 _ ∅ fm Hfm).
    - intros p j. by rewrite lookup_empty.
    - intros p k Hk Hp. apply internal_file_path_range in Hp. lia. }
  destruct (first_pass_spec fs fm dirs Hok Hfiles Hdirs Hpaths Hnames Hmap 0 (length (m_files fs))
    (PassState (m_symlinks fs) ∅ [])) as (st & Hrun & [Hs Hr Hl Ht] & Hj).
  { done. }
  { split; cbn; try done. by intros j ?%not_elem_of_nil. }
  unfold file_range. rewrite Hrun. cbn [mbind option_bind].
  destruct (second_pass_spec fs fm dirs Hfiles Hdirs Hnames (ps_dir_links st) (ps_to_validate st) (ps_symlinks st))
    as (v & -> & Hsv & Hrest & Htodo); [done|done|]. cbn [mbind option_bind]. eexists. split; [done|].
  assert (own_targets fs → judged_below fs (num_files fs) st) as Hjudged by (intros; apply Hj; [done|apply judged_nothing]).
  split; cbn; [done|by rewrite Hsv| |].
  - intros Hown. pose proof (Hjudged Hown) as Hb. pose proof Hb as [_ _ J3 _ J5 _].
    apply (passes_outcome fs st v Hown Hb Hrest). apply Htodo; [done..|].
    intros q x. by rewrite J3, onward_all.
  - intros Hown idx Hno. pose proof (Hjudged Hown) as [_ J2 _ _ _ _].
    rewrite Hrest by (intros; apply Hno). apply J2. intros; apply Hno.
Qed.

(** the target of every link is a path, of the torrent or one that reaches it *)
Lemma sanitized_inside fs fs' i idx :
  paths_ok fs → own_targets fs → sanitized fs fs' → link_at fs i idx →
  ∃ t, (m_symlinks fs')⟦idx⟧ = Some t ∧ is_path t ∧ (in_torrent fs t ∨ t ∈ m_paths fs ∨ reaches fs t).
Proof.
  intros [Hpaths Hnames Hraw] Hown Hsan Hl.
  destruct (sz_links _ _ Hsan Hown i idx Hl) as (p & raw & v & t & Hj & Ht & Hout).
  exists t. split; [done|]. destruct Hj as (e & He & Ha & Hp & Hr & Hv).
  assert (is_file fs p) as Hfile by by exists i.
  destruct (turn_target_path fs Hpaths e p raw v Hv) as [Htarget _]; [by apply Hnames| |].
  { rewrite Forall_forall in Hraw. by eapply Hraw, vget_elem_of. }
  assert (∀ q j, first_file fs q j → in_torrent fs q) as Hfirst by (intros q j [Hq _]; left; by exists j).
  destruct Hv; cbn in Hout, Htarget; subst; try (split; [done|]); try (by left; eauto).
  - by left; left.
  - by left; right.
  - match goal with H : _ ∨ _ |- _ => destruct H end; [by left; right|by right; left].
  - destruct Hout as [[? ->]|[_ ->]]; [by split; [|right; right]|]. split; [by apply Hnames|by left; left].
Qed.
