(* ===== verification/FileProperties.v ===== *)
(** Properties of [file_storage] and of the paths of its files. *)

From Stdlib Require Import String.
From stdpp Require Import gmap sets.
From S2P Require Import Prelude.
From stdpp Require Import list.
From S2P Require Import StringUtil.
From S2P Require Import Path.
From S2P Require Import PathCorrect.
From S2P Require Import FileStorage.
From S2P Require Import FileLayout.
From S2P Require Import FileOps.
From S2P Require Import FileOptimize.
From S2P Require Import FilePacking.
From S2P Require Import FileSymlinks.
From S2P Require Import FileLinks.

Open Scope Z_scope.

(** ** Any use of a storage *)

Inductive fs_op :=
  | op_add (filename path : list Z) (n flags : Z) (filehash : option (list Z)) (mt : Z) (link : list Z)
  | op_rename (i : Z) (path : list Z)
  | op_set_name (name : list Z)
  | op_set_piece_length (l : Z)
  | op_set_num_pieces (n : Z)
  | op_optimize (limit alignment : Z) (tail_padding : bool)
  | op_sanitize.

Definition apply_op (o : fs_op) (fs : file_storage) : option file_storage :=
  match o with
  | op_add filename path n flags filehash mt link =>
      add_file_borrow fs filename path n flags filehash mt link
  | op_rename i path => rename_file fs i path
  | op_set_name name => Some (set_storage_name fs name)
  | op_set_piece_length l => Some (set_piece_length fs l)
  | op_set_num_pieces n => Some (set_num_pieces fs n)
  | op_optimize limit alignment tail_padding => optimize fs limit alignment tail_padding
  | op_sanitize => sanitize_symlinks fs
  end.

(** names are not empty and fit their length field, sizes fit 48 bits with all
    padding, indices are in range *)
Definition allowed (o : fs_op) (fs : file_storage) : Prop :=
  match o with
  | op_add filename path n flags filehash mt link =>
      0 ≤ n ∧ m_total_size fs + n < max_total ∧ vsize filename < name_is_owned ∧
      (filename = [] → leaf_of path ≠ []) ∧ digest_ok filehash
  | op_rename i path => 0 ≤ i < num_files fs ∧ leaf_of path ≠ []
  | op_optimize limit alignment tail_padding =>
      full_beside fs ∧ limit < 2 ^ 31 ∧ 0 < used_alignment fs alignment < 2 ^ 31 ∧
      m_total_size fs + used_alignment fs alignment * (2 * num_files fs) < max_total
  | op_sanitize => paths_ok fs
  | _ => True
  end.

Fixpoint run_ops (os : list fs_op) (fs : file_storage) : option file_storage :=
  match os with [] => Some fs | o :: os => fs ← apply_op o fs; run_ops os fs end.

Fixpoint all_allowed (os : list fs_op) (fs : file_storage) : Prop :=
  match os with
  | [] => True
  | o :: os => allowed o fs ∧ ∀ fs', apply_op o fs = Some fs' → all_allowed os fs'
  end.

Lemma names_ok_symlinks fs v :
  vsize v = vsize (m_symlinks fs) → names_ok fs → names_ok (set_symlinks fs v).
Proof. intros Hv [H1 H2 H3 H4]. split; cbn; try done. by rewrite Hv. Qed.

Lemma apply_op_ok o fs :
  storage_ok fs → allowed o fs → ∃ fs', apply_op o fs = Some fs' ∧ storage_ok fs'.
Proof.
  intros Hok Ha. pose proof Hok as [Hl Hn]. destruct o; cbn [apply_op allowed] in *.
  - destruct Ha as (H1 & H2 & H3 & H4 & H5).
    destruct (add_file_borrow_spec fs filename path n flags filehash mt link) as (fs' & e & ? & ? & _);
      eauto.
  - destruct Ha as (H1 & H2). destruct (rename_file_spec fs i path Hok H1 H2) as (fs' & ? & ? & _). eauto.
  - eexists. split; [done|]. split; [done|]. by destruct Hn.
  - eexists. split; [done|]. split; [done|]. by destruct Hn.
  - eexists. split; [done|]. split; [done|]. by destruct Hn.
  - destruct Ha as (H1 & H2 & H3 & H4).
    destruct (optimize_spec fs limit alignment tail_padding Hl H1 H2 H3 H4) as (fs' & ? & ? & ?).
    exists fs'. split; [done|]. split; [done|]. by eapply optimized_names.
  - destruct (sanitize_symlinks_spec fs Hok Ha) as (fs' & ? & [Hr Hs _ _]). exists fs'. split; [done|].
    rewrite Hr. split; [done|]. by apply names_ok_symlinks.
Qed.

Lemma run_ops_ok os fs :
  storage_ok fs → all_allowed os fs → ∃ fs', run_ops os fs = Some fs' ∧ storage_ok fs'.
Proof.
  revert fs. induction os as [|o os IH]; intros fs Hok Ha; cbn [run_ops]; [eauto|].
  destruct Ha as [Ho Ha]. destruct (apply_op_ok o fs Hok Ho) as (fs' & Hr & Hok'). rewrite Hr.
  cbn [mbind option_bind]. by apply IH; [|apply Ha].
Qed.

(** C20: nothing that is done to a new storage by allowed calls - adding files with
    borrowed or copied names, renaming, optimizing, sanitizing links - is undefined
    behaviour or fails to return, and afterwards the files follow each other
    without gaps, their sizes add up to the total size, and every query about a file
    of it is defined. *)
Theorem file_storage_safe `{Crc32c} os :
  all_allowed os new_file_storage →
  ∃ fs, run_ops os new_file_storage = Some fs ∧ layout_ok fs ∧
    ∀ i save, 0 ≤ i < num_files fs →
      is_Some (file_path fs i save) ∧ is_Some (internal_file_path fs i) ∧
      is_Some (file_name fs i) ∧ is_Some (hash fs i) ∧ is_Some (mtime fs i) ∧
      is_Some (file_flags fs i) ∧ is_Some (file_path_hash fs i save) ∧
      (∀ flags, file_flags fs i = Some flags → has_flag flags flag_symlink = true →
        is_Some (symlink fs i)).
Proof.
  intros Ha. destruct (run_ops_ok os _ new_storage_ok Ha) as (fs & Hr & Hok).
  exists fs. split; [done|]. split; [apply Hok|]. intros i save Hi. by apply accessors_defined.
Qed.

(** ** Paths *)

(** C21: on a path of elements joined by slashes, the path functions are the
    operations on the list of elements: the last element and what is before it, the
    first one and what is behind it, the elements up to the one at a position and
    what is behind them, whether two paths are the same (one slash at the end
    apart), joining (a path of the single element '.' is left out in front), and,
    if no element starts with a quotation mark, the way from one path to another. *)
Theorem path_functions_correct l x k :
  elements_ok (l ++ [x]) → elements_ok k →
  rsplit_path (join (l ++ [x])) = (join l, x) ∧
  (∀ y t, l ++ [x] = y :: t → lsplit_path (join (l ++ [x])) = (y, join t)) ∧
  (∀ front y t, l ++ [x] = front ++ y :: t →
     lsplit_path_at (join (l ++ [x])) (vsize (join front) + 1) = (join (front ++ [y]), join t)) ∧
  (∀ t u, t = [] ∨ t = [separator] → u = [] ∨ u = [separator] →
     compare_path (join (l ++ [x]) ++ t) (join k ++ u) = bool_decide (l ++ [x] = k)) ∧
  is_complete (join (l ++ [x])) = false ∧
  has_parent_path (join (l ++ [x])) = bool_decide (l ≠ []) ∧
  parent_path (join (l ++ [x])) = match l with [] => [] | _ => join l ++ [separator] end ∧
  filename (join (l ++ [x])) = x ∧
  (l ++ [x] ≠ [dot] → append_path (join (l ++ [x])) (join k) = join (l ++ [x] ++ k)) ∧
  combine_path (join (l ++ [x])) (join k) = join (combined (l ++ [x]) k) ∧
  (Forall unquoted (l ++ [x]) → Forall unquoted k →
    let '(up, down) := without_common (l ++ [x]) k in
    lexically_relative (join (l ++ [x])) (join k) =
      Some (concat (replicate (length up) [46; 46; separator]) ++ join down)).
Proof.
  intros Hl Hk. split; [by apply rsplit_path_join|].
  split; [intros y t E; rewrite E in *; by apply lsplit_path_join|].
  split; [intros front y t E; rewrite E in *; by apply lsplit_path_at_join|].
  split; [intros t u; by apply compare_path_join|].
  split; [by apply join_not_complete|]. split.
  { rewrite has_parent_path_join by done. apply bool_decide_ext. rewrite length_app. simpl.
    split; [intros ? ->; simpl in *; lia|destruct l; simpl; [done|lia]]. }
  split; [by apply parent_path_join|]. split; [by apply filename_join|].
  split; [intros Hd; rewrite app_assoc; by apply append_path_join|].
  split; [by apply combine_path_join|]. intros Q1 Q2. by apply lexically_relative_join.
Qed.

Lemma path_leaf l x :
  elements_ok (l ++ [x]) → leaf_of (join (l ++ [x])) ≠ [] ∧ c_str (leaf_of (join (l ++ [x]))) = x ∧ element_ok x.
Proof.
  intros Hl. rewrite leaf_of_join by done. apply elements_snoc in Hl as [_ Hx].
  split; [apply Hx|]. split; [apply c_str_id, Hx|done].
Qed.

(** a file that is added with a path of elements, with its last element or
    another one as its name *)
Lemma add_at_path fs fname l x save n flags mt link :
  storage_ok fs → elements_ok (l ++ [x]) → head l ≠ Some dot → fname = [] ∨ element_ok fname →
  vsize fname < name_is_owned → 0 ≤ n → m_total_size fs + n < max_total →
  ∃ fs' e, add_file_borrow fs fname (join (l ++ [x])) n flags None mt link = Some fs' ∧
    added fs fs' e fname (join (l ++ [x])) n flags None mt link ∧
    (m_files fs')⟦num_files fs⟧ = Some e ∧
    file_path fs' (num_files fs) save =
      Some (append_path save (join (l ++ [match fname with [] => x | _ => fname end]))).
Proof.
  intros Hok Hl Hd Hf Hlen Hn Ht. destruct (path_leaf l x Hl) as (Hne & Hx & Hxo).
  destruct (add_file_borrow_spec fs fname (join (l ++ [x])) n flags None mt link)
    as (fs' & e & Hrun & _ & Ha); try done. pose proof Ha as [Af _ _ _ _ Ap Al _ _ _ _ _ _ _ _ _].
  assert ((m_files fs')⟦num_files fs⟧ = Some e) as He by (rewrite Af; apply vget_middle).
  exists fs', e. split; [done|]. split; [done|]. split; [done|]. rewrite Hx in Al.
  eapply file_path_placed; try done. destruct fname; [done|]. by destruct Hf.
Qed.

(** C22: a file has the path that it was added or renamed with, in front of which
    the save path is put: [add_file] appends a file with the size, the time and the
    offset it must have, a borrowed name replaces the last element only, and adding
    below a root or renaming leaves the other files where they are.  The path is made
    of elements, of which the first is not "."; the name that is borrowed is an element
    too, and shorter than 4095 bytes; the new total stays below 2^48.  The number of a
    file is the checksum of its path in lower case when the save path, the name of the
    torrent and its directories are not "." and do not end in a slash, and the names of
    the torrent and of the file are not empty. *)
Theorem file_path_correct `{Crc32c} fs l x save i n flags mt link leaf :
  storage_ok fs → elements_ok (l ++ [x]) → head l ≠ Some dot → element_ok leaf →
  vsize leaf < name_is_owned → 0 ≤ i < num_files fs → 0 ≤ n → m_total_size fs + n < max_total →
  let path := join (l ++ [x]) in
  (∃ fs', add_file fs path n flags mt link = Some fs' ∧ num_files fs' = num_files fs + 1 ∧
    file_path fs' (num_files fs) save = Some (append_path save path) ∧
    file_size fs' (num_files fs) = Some n ∧
    file_offset fs' (num_files fs) = Some (m_total_size fs) ∧
    mtime fs' (num_files fs) = Some mt ∧
    (l ≠ [] → m_files fs ≠ [] →
      ∀ j, 0 ≤ j < num_files fs → file_path fs' j save = file_path fs j save)) ∧
  (∃ fs', add_file_borrow fs leaf path n flags None mt link = Some fs' ∧
    file_path fs' (num_files fs) save = Some (append_path save (join (l ++ [leaf])))) ∧
  (∃ fs', rename_file fs i path = Some fs' ∧
    file_path fs' i save = Some (append_path save path) ∧
    ∀ j, j ≠ i → 0 ≤ j < num_files fs → file_path fs' j save = file_path fs j save) ∧
  (plain_paths fs → plain save → ∀ name, file_name fs i = Some name → name ≠ [] →
    file_path_hash fs i save =
      (λ p, checksum (process_string_lowercase crc_new p)) <$> file_path fs i save).
Proof.
  intros Hok Hl Hd Hleaf Hlen Hi Hn Ht path. destruct (path_leaf l x Hl) as (Hne & Hx & Hxo).
  split; [|split; [|split]].
  - destruct (add_at_path fs [] l x save n flags mt link) as (fs' & e & Hrun & Ha & He & Hp);
      auto; [done|]. destruct Ha as [Af An As Ao At _ _ _ _ _ _ _ Am _ _ [extra Hps]].
    exists fs'. split; [done|]. split; [unfold num_files; rewrite Af; vsize|]. split; [done|].
    unfold file_size, file_offset. rewrite He. cbn [mbind option_bind].
    split; [by rewrite As|]. split; [by rewrite Ao|]. split; [done|].
    intros Hln Hf j Hj. eapply file_path_other; [done|done| | |exact Hps].
    + rewrite Af. by rewrite vget_app_l by (unfold num_files in Hj; lia).
    + rewrite An. unfold new_name. rewrite has_parent_path_join by done.
      rewrite bool_decide_eq_true_2; [by destruct (m_files fs)|]. rewrite length_app. simpl.
      destruct l; [done|simpl; lia].
  - destruct (add_at_path fs leaf l x save n flags mt link) as (fs' & e & Hrun & _ & _ & Hp); auto.
    exists fs'. split; [done|]. destruct leaf; [by destruct (el_some _ Hleaf)|done].
  - destruct (rename_file_spec fs i path Hok Hi Hne)
      as (fs' & Hrun & _ & [Hr [extra Hex] Ho (e & e' & He & He' & _ & Hp & Hname)]).
    exists fs'. split; [done|]. unfold path in Hname. rewrite Hx in Hname.
    split; [by eapply file_path_placed|].
    intros j Hj Hjr. eapply file_path_other; [done|done|by apply Ho|by rewrite Hr|done].
  - intros Hplain Hsave name Hname Hnn. by eapply file_path_hash_spec.
Qed.

(** ** Pieces *)

Lemma piece_size_spec fs p :
  0 < m_piece_length fs < 2 ^ 31 → 0 ≤ p < m_num_pieces fs →
  (m_num_pieces fs - 1) * m_piece_length fs < m_total_size fs ≤ m_num_pieces fs * m_piece_length fs →
  piece_size fs p = Z.min (m_piece_length fs) (m_total_size fs - p * m_piece_length fs).
Proof.
  intros Hl Hp Ht. unfold piece_size, last_piece.
  destruct (Z.eqb_spec p (m_num_pieces fs - 1)) as [->|]; [rewrite sint_small; nia|nia].
Qed.

(** C23: [map_block] returns consecutive non-empty parts of files, in the order of
    the files, which together are exactly the bytes that were asked for, up to the
    end of the torrent; a whole piece is mapped to its own bytes. *)
Theorem map_block_correct fs :
  layout_ok fs → m_files fs ≠ [] →
  (∀ piece offset n, n < 2 ^ 31 →
    let from := piece * m_piece_length fs + offset in
    0 ≤ from < max_total → - 2 ^ 31 ≤ m_total_size fs - from →
    ∃ slices, map_block fs piece offset n = Some slices ∧
      slices_of fs from (Z.min n (m_total_size fs - from)) slices) ∧
  (0 < m_piece_length fs < 2 ^ 31 →
   (m_num_pieces fs - 1) * m_piece_length fs < m_total_size fs ≤ m_num_pieces fs * m_piece_length fs →
   ∀ p, 0 ≤ p < m_num_pieces fs →
    ∃ slices, map_block fs p 0 (piece_size fs p) = Some slices ∧
      slices_of fs (p * m_piece_length fs) (piece_size fs p) slices).
Proof.
  intros Hl Hne. split.
  - intros piece offset n Hn from Hfrom Hback. by apply map_block_spec.
  - intros Hlen Ht p Hp. pose proof (piece_size_spec fs p Hlen Hp Ht) as Hs.
    pose proof (proj2 (proj2 Hl)) as Hmax.
    destruct (map_block_spec fs p 0 (piece_size fs p) Hl Hne) as (slices & Hm & Hsl); [lia|nia|nia|].
    exists slices. split; [done|]. rewrite Z.add_0_r in Hsl.
    by replace (mapped_size fs (p * m_piece_length fs) (piece_size fs p)) with (piece_size fs p) in Hsl
      by (unfold mapped_size; lia).
Qed.

(** C24: the request for a byte of a file is within a piece, and the block of that
    request is that byte of that file; the inclusive range has the pieces with a byte
    of the file, and the exclusive one those that start in the file and end in it, or
    one byte behind it. *)
Theorem map_file_correct fs i e :
  layout_ok fs → pieces_ok fs → (m_files fs)⟦i⟧ = Some e → 0 < fe_size e →
  (∀ off, 0 ≤ off < fe_size e →
    ∃ r, map_file fs i off 1 = Some r ∧ pr_length r = 1 ∧ 0 ≤ pr_start r < m_piece_length fs ∧
      map_block fs (pr_piece r) (pr_start r) (pr_length r) = Some [FileSlice i off 1] ∧
      file_index_at_offset fs (pr_piece r * m_piece_length fs + pr_start r) = i) ∧
  (∀ off n, m_total_size fs ≤ off + fe_offset e → 0 ≤ off → n < 2 ^ 31 →
    map_file fs i off n = Some (PeerRequest (end_piece fs) 0 0)) ∧
  (∃ a b, file_piece_range_inclusive fs i = Some (a, b) ∧
    ∀ p, a ≤ p < b ↔ ∃ x, in_file fs i x ∧ x / m_piece_length fs = p) ∧
  (∃ a b, file_piece_range_exclusive fs i = Some (a, b) ∧
    ∀ p, a ≤ p < b ↔ fe_offset e ≤ p * m_piece_length fs ∧
      if i =? num_files fs - 1 then p < m_num_pieces fs
      else (p + 1) * m_piece_length fs ≤ fe_offset e + fe_size e + 1).
Proof.
  intros Hl Hp He Hs. split; [intros off Ho; by eapply map_file_block|]. split.
  { intros off n Ht Ho Hn. rewrite (map_file_spec fs i e) by done.
    by rewrite (proj2 (Z.leb_le _ _)) by done. }
  split; [by eapply piece_range_inclusive_spec|by apply piece_range_exclusive_spec].
Qed.


(** C26: [sanitize_symlinks] returns when the paths of the files are made of elements,
    and so are the targets that are not absolute; only targets change.  When every link
    has a target of its own, as links that are added have, each is judged by the
    targets that the torrent gave: an absolute one is replaced by the path of the link
    itself; one that names a file or a directory of the torrent stays; one that names
    a file or a directory below the directory of the link becomes that path; any other
    stays if it leads to a file or a directory, through directories and links that are
    not met twice, and is replaced by the path of the link if not.  So every link ends
    with a path of elements that is in the torrent or leads there through the targets
    the links had (which a later link may still lose). *)
Theorem sanitize_symlinks_correct fs :
  storage_ok fs → paths_ok fs →
  ∃ fs', sanitize_symlinks fs = Some fs' ∧ storage_ok fs' ∧
    fs' = set_symlinks fs (m_symlinks fs') ∧
    (own_targets fs → own_targets fs' ∧
     (∀ i idx, link_at fs i idx →
        ∃ p raw v t, judged_at fs i p raw v ∧ (m_symlinks fs')⟦idx⟧ = Some t ∧ outcome fs p raw v t ∧
          is_path t ∧ (in_torrent fs t ∨ t ∈ m_paths fs ∨ reaches fs t)) ∧
     ∀ idx, (∀ i, ¬ link_at fs i idx) → (m_symlinks fs')⟦idx⟧ = (m_symlinks fs)⟦idx⟧).
Proof.
  intros Hok Hp. destruct (sanitize_symlinks_spec fs Hok Hp) as (fs' & Hr & Hs). exists fs'.
  split; [done|]. pose proof Hs as [Hrest Hsize Hlinks Hothers]. split; [|split; [done|]].
  - destruct Hok as [Hl Hn]. rewrite Hrest. split; [done|]. by apply names_ok_symlinks.
  - intros Hown. split; [rewrite Hrest; exact Hown|]. split; [|by apply Hothers].
    intros i idx Hi. destruct (Hlinks Hown i idx Hi) as (p & raw & v & t & Hj & Ht & Hout).
    destruct (sanitized_inside fs fs' i idx Hp Hown Hs Hi) as (t' & Ht' & Hin).
    assert (t' = t) as -> by congruence. by exists p, raw, v, t.
Qed.

(** ** Faults *)

(** the state in which the second pass follows the target of the link [i] *)
Definition walk_of (fs : file_storage) (i : Z)
    : option (gset (list Z) * gmap (list Z) (list Z) * list Z) :=
  fm ← build_file_map fs (file_range fs) ∅;
  dm ← build_dir_map (m_paths fs) ∅;
  st ← first_pass fs fm dm (file_range fs) (PassState (m_symlinks fs) ∅ []);
  fe ← (m_files fs)⟦i⟧;
  target ← (ps_symlinks st)⟦fe_symlink_index fe⟧;
  if bool_decide (i ∈ ps_to_validate st) then Some (dm, ps_dir_links st, target) else None.

Open Scope string_scope.

(** a directory "b", a link "x" to "." and a link to "x//b" *)
Definition looping : list fs_op :=
  [op_add [] (bytes_of "t/b/a") 5 0 None 0 [];
   op_add [] (bytes_of "t/x") 0 flag_symlink None 0 (bytes_of ".");
   op_add [] (bytes_of "t/y") 0 flag_symlink None 0 (bytes_of "x//b")].

(** two files, of which the first only has a time *)
Definition half_timed : list fs_op :=
  [op_set_piece_length 16; op_add [] (bytes_of "t/a") 5 0 None 7 [];
   op_add [] (bytes_of "t/b") 40 0 None 0 []].

(** two files, of which the first ends one byte short of a piece *)
Definition one_short : list fs_op :=
  [op_set_piece_length 16; op_set_num_pieces 2; op_add [] (bytes_of "t/a") 15 0 None 0 [];
   op_add [] (bytes_of "t/b") 17 0 None 0 []].

Close Scope string_scope.

(** a sequence of operations is allowed on a storage that is known *)
Ltac run_allowed :=
  repeat match goal with
  | |- all_allowed _ _ => hnf
  | |- True => exact I
  | |- _ ∧ (∀ fs, apply_op _ _ = Some fs → _) => split
  | |- ∀ fs, apply_op _ _ = Some fs → _ =>
      let fs := fresh "fs" in let E := fresh "E" in
      intros fs E; vm_compute in E; injection E as <-
  | |- allowed (op_add _ _ _ _ _ _ _) _ => split_and!; [done..|intros _; vm_compute; done|done]
  | |- allowed _ _ => done
  end.

Lemma borrowed_name_lost e n :
  delete_name e = Some tt → name_is_owned ≤ vsize n < name_is_owned + 4094 →
  ∃ e', set_name e n true = Some e' ∧ entry_filename e' = Some (drop 4094 n).
Proof.
  intros Hd Hn. unfold set_name. rewrite Hd. cbn [mbind option_bind].
  destruct n as [|c s]; [by destruct Hn|]. rewrite (proj2 (Z.leb_le _ _)) by lia.
  set (m := drop (Z.to_nat (name_is_owned - 1)) (c :: s)).
  assert (0 ≤ vsize m < name_is_owned) as Hm.
  { unfold m, vsize in *. rewrite length_drop. change (name_is_owned) with 4095 in *. lia. }
  eexists. split; [done|]. unfold entry_filename. cbn [fe_name_len fe_name with_name].
  rewrite uint_small by (change name_is_owned with 4095 in Hm; lia).
  rewrite (proj2 (Z.eqb_neq _ _)) by lia. cbn [negb]. by rewrite Z.leb_refl, take_vsize_self.
Qed.

Lemma empty_rename_breaks fs i e s :
  (m_files fs)⟦i⟧ = Some e → fe_name e = name_borrowed s → 0 < fe_name_len e < name_is_owned →
  ∃ fs', rename_file fs i [] = Some fs' ∧ file_name fs' i = None.
Proof.
  intros He Hs Hlen. unfold rename_file. rewrite He. cbn [mbind option_bind].
  unfold update_path_index. cbn [is_complete rsplit_path]. unfold set_name, delete_name.
  rewrite (proj2 (Z.eqb_neq _ _)) by lia. cbn [mbind option_bind].
  destruct (vset_is_Some (m_files fs) i
    (with_path (with_name e name_null (fe_name_len e)) (fe_no_root_dir (with_name e name_null (fe_name_len e))) (-1)))
    as [v Hv]; [by eapply vget_Some_range|].
  rewrite Hv. cbn [mbind option_bind]. eexists. split; [done|]. unfold file_name. cbn [m_files set_files].
  rewrite (vset_get _ _ _ _ _ Hv), Z.eqb_refl. cbn [mbind option_bind]. unfold entry_filename. cbn.
  rewrite (proj2 (Z.eqb_neq _ _)) by lia. cbn. by rewrite (proj2 (Z.eqb_neq _ _)) by lia.
Qed.

(** the second turn leaves everything as it was *)
Definition cycles (dirs : gset (list Z)) (links : gmap (list Z) (list Z)) (target : list Z) : bool :=
  match walk_step dirs links target (lsplit_path target).1 ∅ with
  | walking t b tr =>
      match walk_step dirs links t b tr with
      | walking t' b' tr' => bool_decide (t' = t) && bool_decide (b' = b) && bool_decide (tr' = tr)
      | _ => false
      end
  | _ => false
  end.

Lemma cycles_forever dirs links target :
  cycles dirs links target = true →
  ∀ fuel, walk_loop dirs fuel links (walking target (lsplit_path target).1 ∅) = None.
Proof.
  unfold cycles. destruct (walk_step _ _ _ _ _) as [t b tr| |] eqn:H1; [|done..].
  destruct (walk_step dirs links t b tr) as [t' b' tr'| |] eqn:H2; [|done..].
  intros [[->%bool_decide_eq_true ->%bool_decide_eq_true]%andb_true_iff
    ->%bool_decide_eq_true]%andb_true_iff [|fuel]; [done|]. cbn [walk_loop]. rewrite H1.
  induction fuel as [|fuel IH]; [done|]. cbn [walk_loop]. by rewrite H2.
Qed.

(** C27: what goes wrong.  A borrowed name of 4095 bytes or more loses its first 4094
    bytes; renaming a file with a borrowed name to an empty path leaves a name that
    cannot be read.  [optimize] swaps outside of a vector when only some of the files
    have a time.  The second pass of [sanitize_symlinks] never ends for a link through
    a link to "." and an empty element.  The exclusive range of a file can contain a
    piece that ends in the next file. *)
Theorem file_storage_faults :
  (∀ e n, delete_name e = Some tt → name_is_owned ≤ vsize n < name_is_owned + 4094 →
    ∃ e', set_name e n true = Some e' ∧ entry_filename e' = Some (drop 4094 n)) ∧
  (∀ fs i e s, (m_files fs)⟦i⟧ = Some e → fe_name e = name_borrowed s →
    0 < fe_name_len e < name_is_owned →
    ∃ fs', rename_file fs i [] = Some fs' ∧ file_name fs' i = None) ∧
  (∃ fs, run_ops half_timed new_file_storage = Some fs ∧ storage_ok fs ∧
    optimize fs 0 16 false = None) ∧
  (∃ fs dirs links target, run_ops looping new_file_storage = Some fs ∧ storage_ok fs ∧
    walk_of fs 2 = Some (dirs, links, target) ∧
    ∀ fuel, walk_loop dirs fuel links (walking target (lsplit_path target).1 ∅) = None) ∧
  (∃ fs, run_ops one_short new_file_storage = Some fs ∧ storage_ok fs ∧
    file_piece_range_exclusive fs 0 = Some (0, 1) ∧
    in_file fs 1 15 ∧ 15 / m_piece_length fs = 0).
Proof.
  split; [exact borrowed_name_lost|]. split; [exact empty_rename_breaks|]. split; [|split].
  - destruct (run_ops_ok half_timed _ new_storage_ok) as (fs & Hr & Hok); [run_allowed|].
    exists fs. split; [done|]. split; [done|]. vm_compute in Hr. injection Hr as <-. reflexivity.
  - destruct (run_ops_ok looping _ new_storage_ok) as (fs & Hr & Hok); [run_allowed|].
    assert (match walk_of fs 2 with Some (d, l, t) => cycles d l t | None => false end = true) as Hc.
    { clear Hok. vm_compute in Hr. injection Hr as <-. vm_compute. reflexivity. }
    destruct (walk_of fs 2) as [[[d l] t]|] eqn:E; [|done].
    exists fs, d, l, t. split; [exact Hr|]. split; [exact Hok|]. split; [exact E|].
    by apply cycles_forever.
  - destruct (run_ops_ok one_short _ new_storage_ok) as (fs & Hr & Hok); [run_allowed|].
    exists fs. split; [done|]. split; [done|]. vm_compute in Hr. injection Hr as <-.
    split; [reflexivity|]. split; [|reflexivity]. eexists. split; [reflexivity|]. cbn. lia.
Qed.

(** ** Samples *)

(** the checksum bit by bit: the reflected polynomial 0x1EDC6F41 *)
Fixpoint crc_bits (n : nat) (c : Z) : Z :=
  match n with
  | O => c
  | S n => crc_bits n (if Z.odd c then Z.lxor (Z.shiftr c 1) 0x82F63B78 else Z.shiftr c 1)
  end.

#[local] Instance crc32c_bitwise : Crc32c := {
  crc := Z;
  crc_new := 0xFFFFFFFF;
  process_byte c x := crc_bits 8 (Z.lxor c x);
  checksum c := Z.lxor c 0xFFFFFFFF
}.

(** the check value of the algorithm *)
Example crc32c_check :
  checksum (process_string_lowercase crc_new (bytes_of "123456789"%string)) = 0xE3069283.
Proof. reflexivity. Qed.

Definition element_okb (s : list Z) : bool :=
  match s with [] => false | _ => true end &&
  forallb (λ c, negb (c =? 47) && negb (c =? 92) && negb (c =? 0)) s.

Fixpoint split_elements (p cur : list Z) : list (list Z) :=
  match p with
  | [] => match cur with [] => [] | _ => [rev cur] end
  | c :: p => if c =? 47 then rev cur :: split_elements p [] else split_elements p (c :: cur)
  end.

Definition is_pathb (p : list Z) : bool :=
  let l := split_elements p [] in forallb element_okb l && bool_decide (p = join l).

Definition paths_okb (fs : file_storage) : bool :=
  forallb is_pathb (m_paths fs) &&
  forallb (λ j, match internal_file_path fs j with Some p => is_pathb p | None => true end)
    (file_range fs) &&
  forallb (λ t, is_complete t || is_pathb t) (m_symlinks fs).

Lemma element_okb_ok s : element_okb s = true → element_ok s.
Proof.
  intros [Hs Hc]%andb_true_iff. rewrite forallb_forall in Hc.
  assert (∀ x, x ∈ s → x ≠ 47 ∧ x ≠ 92 ∧ x ≠ 0) as Hx.
  { intros x Hin. specialize (Hc x (proj1 (list_elem_of_In _ _) Hin)).
    apply andb_true_iff in Hc as [[H1 H2]%andb_true_iff H3].
    apply negb_true_iff, Z.eqb_neq in H1, H2, H3. done. }
  split; [by destruct s|..]; intros Hin; by destruct (Hx _ Hin) as (? & ? & ?).
Qed.

Lemma is_pathb_ok p : is_pathb p = true → is_path p.
Proof.
  intros [Hl Hp%bool_decide_eq_true]%andb_true_iff. exists (split_elements p []).
  split; [|done]. apply Forall_forall. intros x Hx. apply element_okb_ok.
  rewrite forallb_forall in Hl. by apply Hl, list_elem_of_In.
Qed.

Lemma paths_okb_ok fs : paths_okb fs = true → paths_ok fs.
Proof.
  intros [[Hd Hf]%andb_true_iff Ht]%andb_true_iff. rewrite forallb_forall in Hd, Hf, Ht.
  split.
  - apply Forall_forall. intros x Hx. by apply is_pathb_ok, Hd, list_elem_of_In.
  - intros p (j & Hj). apply is_pathb_ok. pose proof (internal_file_path_range _ _ _ Hj) as Hr.
    specialize (Hf j). rewrite Hj in Hf. apply Hf, list_elem_of_In. by apply elem_of_file_range.
  - apply Forall_forall. intros x Hx. specialize (Ht x (proj1 (list_elem_of_In _ _) Hx)).
    apply orb_true_iff in Ht as [?|?]; [by left|right; by apply is_pathb_ok].
Qed.

Open Scope string_scope.

(** two files, a link to a directory and one through it *)
Definition sample_ops : list fs_op :=
  [op_set_piece_length 16; op_set_num_pieces 3;
   op_add [] (bytes_of "t/a") 5 0 None 0 [];
   op_add (bytes_of "b") (bytes_of "t/d/x") 40 0 None 0 [];
   op_add [] (bytes_of "t/e") 0 flag_symlink None 0 (bytes_of "d");
   op_add [] (bytes_of "t/f") 0 flag_symlink None 0 (bytes_of "e/b");
   op_add [] (bytes_of "t/g") 0 flag_symlink None 0 (bytes_of "../h")].

Close Scope string_scope.

Definition sample : file_storage := default new_file_storage (run_ops sample_ops new_file_storage).

Lemma sample_storage_ok : run_ops sample_ops new_file_storage = Some sample ∧ storage_ok sample.
Proof.
  destruct (run_ops_ok sample_ops _ new_storage_ok) as (fs & Hr & Hok); [run_allowed|].
  unfold sample. rewrite Hr. exact (conj eq_refl Hok).
Qed.

(** the second link is followed, and the third one made to point to itself *)
Example sample_sanitized :
  m_symlinks <$> sanitize_symlinks sample =
    Some [bytes_of "d"; bytes_of "e/b"; bytes_of "g"]%string.
Proof. vm_compute. reflexivity. Qed.

Lemma file_storage_safe_witness :
  ∃ fs, run_ops (sample_ops ++ [op_sanitize; op_optimize 0 (-1) true; op_rename 1 (bytes_of "t/z"%string)])
    new_file_storage = Some fs ∧ layout_ok fs.
Proof.
  destruct (file_storage_safe (sample_ops ++
    [op_sanitize; op_optimize 0 (-1) true; op_rename 1 (bytes_of "t/z"%string)])) as (fs & Hr & Hl & _).
  - run_allowed; try (apply paths_okb_ok; vm_compute; reflexivity).
    vm_compute. repeat split; auto; discriminate.
  - exists fs. split; [exact Hr|exact Hl].
Defined.

Lemma sample_elements : elements_ok ([bytes_of "t"%string; bytes_of "z"%string] ++ [bytes_of "u"%string]).
Proof. by repeat constructor; apply element_okb_ok. Qed.

Lemma path_functions_correct_witness :
  rsplit_path (bytes_of "t/z/u"%string) = (bytes_of "t/z"%string, bytes_of "u"%string).
Proof.
  exact (proj1 (path_functions_correct [bytes_of "t"%string; bytes_of "z"%string] (bytes_of "u"%string) []
    sample_elements (Forall_nil_2 _))).
Defined.

Lemma file_path_correct_witness :
  ∃ fs', rename_file sample 1 (bytes_of "t/z/u"%string) = Some fs' ∧
    file_path fs' 1 (bytes_of "/s"%string) = Some (bytes_of "/s/t/z/u"%string).
Proof.
  destruct (file_path_correct sample [bytes_of "t"%string; bytes_of "z"%string] (bytes_of "u"%string)
    (bytes_of "/s"%string) 1 7 0 0 [] (bytes_of "v"%string)) as (_ & _ & (fs' & Hr & Hp & _) & _).
  - exact (proj2 sample_storage_ok).
  - exact sample_elements.
  - discriminate.
  - by apply element_okb_ok.
  - done.
  - done.
  - done.
  - done.
  - exists fs'. split; [exact Hr|]. rewrite Hp. vm_compute. reflexivity.
Defined.

Lemma map_block_correct_witness :
  ∃ slices, map_block sample 0 3 20 = Some slices ∧ slices_of sample 3 20 slices.
Proof.
  refine (proj1 (map_block_correct sample (proj1 (proj2 sample_storage_ok)) _) 0 3 20 _ _ _).
  - vm_compute. discriminate.
  - done.
  - vm_compute. split; [discriminate|done].
  - vm_compute. discriminate.
Defined.

Lemma sample_pieces : pieces_ok sample.
Proof. vm_compute. repeat split; discriminate. Qed.

Lemma map_file_correct_witness :
  ∃ a b, file_piece_range_inclusive sample 1 = Some (a, b) ∧
    ∀ p, a ≤ p < b ↔ ∃ x, in_file sample 1 x ∧ x / 16 = p.
Proof.
  assert (∃ e, (m_files sample)⟦1⟧ = Some e ∧ 0 < fe_size e) as (e & He & Hs)
    by (eexists; split; vm_compute; reflexivity).
  exact (proj1 (proj2 (proj2 (map_file_correct sample 1 e (proj1 (proj2 sample_storage_ok)) sample_pieces He Hs)))).
Defined.


Definition own_targetsb (fs : file_storage) : bool :=
  forallb (λ i, forallb (λ j,
    match (m_files fs)⟦i⟧, (m_files fs)⟦j⟧ with
    | Some e, Some e' => negb (fe_symlink_attribute e && fe_symlink_attribute e' &&
                               (fe_symlink_index e =? fe_symlink_index e')) || (i =? j)
    | _, _ => true
    end) (file_range fs)) (file_range fs).

Lemma own_targetsb_ok fs : own_targetsb fs = true → own_targets fs.
Proof.
  intros Hb i j idx (e & He & Ha & Hi) (e' & He' & Ha' & Hj). unfold own_targetsb in Hb.
  rewrite forallb_forall in Hb. pose proof (vget_Some_range _ _ _ He). pose proof (vget_Some_range _ _ _ He').
  specialize (Hb i). rewrite forallb_forall in Hb.
  assert (∀ k, 0 ≤ k < num_files fs → List.In k (file_range fs)) as Hin
    by (intros k Hk; by apply list_elem_of_In, elem_of_file_range).
  specialize (Hb (Hin i ltac:(done)) j (Hin j ltac:(done))).
  rewrite He, He', Ha, Ha', Hi, Hj, Z.eqb_refl in Hb. by apply Z.eqb_eq.
Qed.

(** the target "e/b" of the second link leads through the first *)
Lemma sanitize_symlinks_correct_witness :
  (own_targets sample ∧ link_at sample 3 1) ∧
  ∃ fs', sanitize_symlinks sample = Some fs' ∧ m_symlinks fs' = [bytes_of "d"; bytes_of "e/b"; bytes_of "g"]%string ∧
    ∃ p raw v t, judged_at sample 3 p raw v ∧ (m_symlinks fs')⟦1⟧ = Some t ∧ outcome sample p raw v t ∧
      is_path t ∧ (in_torrent sample t ∨ t ∈ m_paths sample ∨ reaches sample t).
Proof.
  destruct (sanitize_symlinks_correct sample (proj2 sample_storage_ok)) as (fs' & Hr & _ & _ & Hall).
  - apply paths_okb_ok. vm_compute. reflexivity.
  - assert (own_targets sample) as Hown by (apply own_targetsb_ok; vm_compute; reflexivity).
    assert (link_at sample 3 1) as Hl by (eexists; split; [vm_compute; reflexivity|split; reflexivity]).
    split; [exact (conj Hown Hl)|]. exists fs'. split; [exact Hr|]. split.
    + pose proof sample_sanitized as Hs. rewrite Hr in Hs. injection Hs as Hs. exact Hs.
    + exact (proj1 (proj2 (Hall Hown)) 3 1 Hl).
Defined.

Open Scope string_scope.

(** a link through a link that is later made to point to itself leads nowhere *)
Definition dangling : list fs_op :=
  [op_add [] (bytes_of "t/x") 5 0 None 0 [];
   op_add [] (bytes_of "t/A") 0 flag_symlink None 0 (bytes_of "B/x");
   op_add [] (bytes_of "t/B") 0 flag_symlink None 0 (bytes_of ".")].

Lemma dangling_link :
  (m_symlinks <$> (run_ops dangling new_file_storage ≫= sanitize_symlinks)) = Some [bytes_of "B/x"; bytes_of "B"].
Proof. vm_compute. reflexivity. Qed.

Close Scope string_scope.
