(* ===== verification/Utf8.v ===== *)
(** Model of src/btdownloader/torrent/utf8.cpp and of the functions of
    src/btdownloader/torrent/ConvertUTF.cpp that it and torrent_info.cpp call:
    UTF-8 and UTF-32, and [verify_encoding] of torrent_info.cpp.

    A string is its bytes, numbers from 0 to 255; reading behind its end is
    undefined behaviour, [None].  A [wchar_t] has 32 bits, as on every system
    but Windows, so the conversions from and to UTF-16 are left out.  Pointers
    that a conversion moves are returned: what is left of the source, and what
    was written to the target. *)

From S2P Require Import Prelude.

Open Scope Z_scope.

Inductive ConversionResult := conversionOK | sourceExhausted | targetExhausted | sourceIllegal.

#[export] Instance ConversionResult_eq_dec : EqDecision ConversionResult.
Proof. solve_decision. Defined.

Inductive ConversionFlags := strictConversion | lenientConversion.

Definition strict (flags : ConversionFlags) : bool :=
  match flags with strictConversion => true | lenientConversion => false end.

Definition UNI_REPLACEMENT_CHAR : Z := 0xFFFD.
Definition UNI_MAX_LEGAL_UTF32 : Z := 0x10FFFF.
Definition UNI_SUR_HIGH_START : Z := 0xD800.
Definition UNI_SUR_LOW_END : Z := 0xDFFF.

Definition trailingBytesForUTF8 : list Z := Eval cbv in
  replicate 192 0 ++ replicate 32 1 ++ replicate 16 2 ++ replicate 8 3 ++ replicate 4 4 ++ replicate 4 5.

Definition offsetsFromUTF8 : list Z :=
  [0x00000000; 0x00003080; 0x000E2080; 0x03C82080; 0xFA082080; 0x82082080].

Definition firstByteMark : list Z := [0x00; 0x00; 0xC0; 0xE0; 0xF0; 0xF8; 0xFC].

(** * One character *)

(** [case k] of the switch over the length: the byte [k - 1] must continue the
    character; shorter characters do not come there *)
Definition continues (source : list Z) (length k : Z) : option bool :=
  if length <? k then Some true
  else a ← source⟦k - 1⟧; Some (negb ((a <? 0x80) || (0xBF <? a))).

(** the switch over the first byte *)
Definition second_ok (first a : Z) : bool :=
  if first =? 0xE0 then negb (a <? 0xA0)
  else if first =? 0xED then negb (0x9F <? a)
  else if first =? 0xF0 then negb (a <? 0x90)
  else if first =? 0xF4 then negb (0x8F <? a)
  else true.

Definition isLegalUTF8 (source : list Z) (length : Z) : option bool :=
  if (length <? 1) || (4 <? length) then Some false
  else
    b ← continues source length 4;
    if negb b then Some false
    else
      b ← continues source length 3;
      if negb b then Some false
      else
        b ← continues source length 2;
        if negb b then Some false
        else
          first ← source⟦0⟧;
          b ← (if length <? 2 then Some true else a ← source⟦1⟧; Some (second_ok first a));
          if negb b then Some false
          else if (0x80 <=? first) && (first <? 0xC2) then Some false
          else Some (negb (0xF4 <? first)).

(** the bytes of a character in one number; this is the loop of
    parse_utf8_codepoint and the switch of ConvertUTF8toUTF32 *)
Definition gather (s : list Z) : Z :=
  fold_left (λ ch c, uint 32 (uint 32 (Z.shiftl ch 6) + c)) s 0.

(** the first [len] bytes as a character *)
Definition decode_sequence (source : list Z) (len : Z) : option Z :=
  off ← offsetsFromUTF8⟦len - 1⟧;
  Some (uint 32 (gather (take (Z.to_nat len) source) - off)).

(** the character and its length; -1 if it is invalid *)
Definition parse_utf8_codepoint (str : list Z) : option (Z * Z) :=
  first ← str⟦0⟧;
  trailing ← trailingBytesForUTF8⟦first⟧;
  let sequence_len := trailing + 1 in
  if vsize str <? sequence_len then Some (-1, vsize str)
  else if 4 <? sequence_len then Some (-1, sequence_len)
  else
    legal ← isLegalUTF8 str sequence_len;
    if negb legal then Some (-1, sequence_len)
    else
      ch ← decode_sequence str sequence_len;
      if 0x7fffffff <? ch then Some (-1, sequence_len) else Some (ch, sequence_len).

(** * UTF-8 to UTF-32 *)

(** [room] is the size of the target.  A turn of the loop takes a character. *)
Fixpoint utf8_to_utf32_loop (fuel : nat) (flags : ConversionFlags) (room : Z) (source target : list Z)
    (result : ConversionResult) : option (list Z * list Z * ConversionResult) :=
  match source with
  | [] => Some (source, target, result)
  | first :: _ =>
      match fuel with
      | O => None
      | S fuel =>
          extraBytesToRead ← trailingBytesForUTF8⟦first⟧;
          if vsize source <=? extraBytesToRead then Some (source, target, sourceExhausted)
          else
            legal ← isLegalUTF8 source (extraBytesToRead + 1);
            if negb legal then Some (source, target, sourceIllegal)
            else
              ch ← decode_sequence source (extraBytesToRead + 1);
              let rest := drop (Z.to_nat (extraBytesToRead + 1)) source in
              if room <=? vsize target then Some (source, target, targetExhausted)
              else if ch <=? UNI_MAX_LEGAL_UTF32 then
                if (UNI_SUR_HIGH_START <=? ch) && (ch <=? UNI_SUR_LOW_END) then
                  if strict flags then Some (source, target, sourceIllegal)
                  else utf8_to_utf32_loop fuel flags room rest (target ++ [UNI_REPLACEMENT_CHAR]) result
                else utf8_to_utf32_loop fuel flags room rest (target ++ [ch]) result
              else utf8_to_utf32_loop fuel flags room rest (target ++ [UNI_REPLACEMENT_CHAR]) sourceIllegal
      end
  end.

Definition ConvertUTF8toUTF32 (source : list Z) (room : Z) (flags : ConversionFlags)
    : option (list Z * list Z * ConversionResult) :=
  utf8_to_utf32_loop (length source) flags room source [] conversionOK.

(** * UTF-32 to UTF-8 *)

Definition bytesToWrite (ch : Z) : Z :=
  if ch <? 0x80 then 1 else if ch <? 0x800 then 2 else if ch <? 0x10000 then 3
  else if ch <=? UNI_MAX_LEGAL_UTF32 then 4 else 3.

(** the switch over the number of bytes, from the last byte to the first *)
Fixpoint write_bytes (n : nat) (mark ch : Z) (written : list Z) : list Z :=
  match n with
  | O => written
  | S O => uint 8 (Z.lor ch mark) :: written
  | S n => write_bytes n mark (Z.shiftr ch 6) (uint 8 (Z.land (Z.lor ch 0x80) 0xBF) :: written)
  end.

Definition write_sequence (n ch : Z) : option (list Z) :=
  mark ← firstByteMark⟦n⟧; Some (write_bytes (Z.to_nat n) mark ch []).

Fixpoint utf32_to_utf8_loop (flags : ConversionFlags) (room : Z) (source target : list Z)
    (result : ConversionResult) : option (list Z * list Z * ConversionResult) :=
  match source with
  | [] => Some (source, target, result)
  | ch :: rest =>
      if strict flags && (UNI_SUR_HIGH_START <=? ch) && (ch <=? UNI_SUR_LOW_END)
      then Some (source, target, sourceIllegal)
      else
        let n := bytesToWrite ch in
        let too_large := UNI_MAX_LEGAL_UTF32 <? ch in
        let ch := if too_large then UNI_REPLACEMENT_CHAR else ch in
        let result := if too_large then sourceIllegal else result in
        if room <? vsize target + n then Some (source, target, targetExhausted)
        else
          s ← write_sequence n ch;
          utf32_to_utf8_loop flags room rest (target ++ s) result
  end.

Definition ConvertUTF32toUTF8 (source : list Z) (room : Z) (flags : ConversionFlags)
    : option (list Z * list Z * ConversionResult) :=
  utf32_to_utf8_loop flags room source [] conversionOK.

(** * Wide strings *)

(** [utf8_wchar(utf8, ec)]: the string and the error.  The rest of a string
    that is not UTF-8 is taken for Latin-1, without what came before. *)
Definition utf8_wchar (utf8 : list Z) : option (list Z * ConversionResult) :=
  '(rest, wide, ret) ← ConvertUTF8toUTF32 utf8 (vsize utf8) lenientConversion;
  if decide (ret = sourceIllegal) then Some (rest, ret) else Some (wide, ret).

Definition wchar_utf8 (wide : list Z) : option (list Z * ConversionResult) :=
  match wide with
  | [] => Some ([], conversionOK)
  | _ =>
      '(_, utf8, ret) ← ConvertUTF32toUTF8 wide (vsize wide * 6) lenientConversion;
      Some (utf8, ret)
  end.

(** * verify_encoding *)

(** what a turn of the loop makes of the conversion of one character, which
    left [rest] and wrote [cps]: where it goes on, the character and whether
    it was valid *)
Definition decoded (source rest cps : list Z) (res : ConversionResult) : option (list Z * Z * bool) :=
  match res with
  | sourceExhausted | sourceIllegal =>
      match cps with
      | [] => Some (match res with sourceExhausted => [] | _ => drop 1 rest end, 95, false)
      | codepoint :: _ => Some (rest, codepoint, true)
      end
  | _ =>
      codepoint ← cps⟦0⟧;
      if codepoint =? UNI_REPLACEMENT_CHAR then Some (rest, 95, false)
      else Some (rest, codepoint, true)
  end.

Fixpoint verify_loop (fuel : nat) (ptr tmp_path : list Z) (valid_encoding : bool)
    : option (list Z * bool) :=
  match ptr with
  | [] => Some (tmp_path, valid_encoding)
  | _ =>
      match fuel with
      | O => None
      | S fuel =>
          '(rest, cps, res) ← ConvertUTF8toUTF32 ptr 1 lenientConversion;
          '(ptr, codepoint, valid) ← decoded ptr rest cps res;
          '(_, sequence, _) ← ConvertUTF32toUTF8 [codepoint] 5 lenientConversion;
          verify_loop fuel ptr (tmp_path ++ take 5 sequence) (valid_encoding && valid)
      end
  end.

(** whether [target] is UTF-8, and what is left in it *)
Definition verify_encoding (target : list Z) : option (bool * list Z) :=
  match target with
  | [] => Some (true, target)
  | _ =>
      '(tmp_path, valid_encoding) ← verify_loop (length target) target [] true;
      Some (valid_encoding, if (valid_encoding : bool) then target else tmp_path)
  end.
