(* ===== verification/Utf8Correct.v ===== *)
(** UTF-8 as the standard defines it, and that the functions of Utf8.v read and
    write it: a character is accepted exactly when it is the encoding of a
    scalar value, and the conversions are inverse to each other. *)

From S2P Require Import Prelude.
From stdpp Require Import list.
From S2P Require Import Utf8.

Open Scope Z_scope.

(** arithmetic with division by numbers *)

(** * UTF-8 *)

Definition byte (c : Z) : Prop := 0 ≤ c < 256.

(** a code point that is not a surrogate *)
Definition scalar (c : Z) : Prop := 0 ≤ c ≤ 0x10FFFF ∧ ¬ (0xD800 ≤ c ≤ 0xDFFF).

(** the encoding of a scalar value, by division *)
Definition encode (c : Z) : list Z :=
  if c <? 0x80 then [c]
  else if c <? 0x800 then [0xC0 + c / 64; 0x80 + c mod 64]
  else if c <? 0x10000 then [0xE0 + c / 4096; 0x80 + (c / 64) mod 64; 0x80 + c mod 64]
  else [0xF0 + c / 262144; 0x80 + (c / 4096) mod 64; 0x80 + (c / 64) mod 64; 0x80 + c mod 64].

Definition utf8_of (cps : list Z) : list Z := concat (encode <$> cps).

Lemma utf8_of_app cps cqs : utf8_of (cps ++ cqs) = utf8_of cps ++ utf8_of cqs.
Proof. unfold utf8_of. by rewrite fmap_app, concat_app. Qed.

Lemma utf8_of_one c : utf8_of [c] = encode c.
Proof. unfold utf8_of. cbn. by rewrite app_nil_r. Qed.

(** [s] is the encoding of [cps] *)
Definition utf8 (s cps : list Z) : Prop := Forall scalar cps ∧ s = utf8_of cps.

Lemma utf8_nil : utf8 [] [].
Proof. done. Qed.

Lemma utf8_cons c s cps : scalar c → utf8 s cps → utf8 (encode c ++ s) (c :: cps).
Proof. intros Hc [H ->]. split; [by constructor|done]. Qed.

Lemma utf8_app s t cps cqs : utf8 s cps → utf8 t cqs → utf8 (s ++ t) (cps ++ cqs).
Proof.
  intros [H1 ->] [H2 ->]. split; [by apply Forall_app|by rewrite utf8_of_app].
Qed.

Ltac encode_cases c :=
  unfold encode; destruct (Z.ltb_spec c 0x80); [|destruct (Z.ltb_spec c 0x800);
    [|destruct (Z.ltb_spec c 0x10000)]].

Lemma encode_size c : 1 ≤ vsize (encode c) ≤ 4.
Proof. encode_cases c; unfold vsize; cbn; lia. Qed.

Lemma encode_bytes c : scalar c → Forall byte (encode c).
Proof.
  intros [Hc _]. unfold byte. encode_cases c; repeat (apply Forall_cons_2 || apply Forall_nil_2); division.
Qed.

Lemma encode_some c : encode c ≠ [].
Proof. by encode_cases c. Qed.

(** * One character *)

Definition trailing_of (c : Z) : Z :=
  if c <? 192 then 0 else if c <? 224 then 1 else if c <? 240 then 2
  else if c <? 248 then 3 else if c <? 252 then 4 else 5.

Lemma trailing_table c : byte c → trailingBytesForUTF8⟦c⟧ = Some (trailing_of c).
Proof.
  intros Hc. unfold vget. destruct (Z.ltb_spec c 0) as [H|_]; [unfold byte in Hc; lia|].
  assert (∀ n : nat, n ∈ seq 0 256 → trailingBytesForUTF8 !! n = Some (trailing_of (Z.of_nat n))) as Ht.
  { apply Forall_forall. refine (bool_decide_unpack _ _). vm_compute. exact I. }
  specialize (Ht (Z.to_nat c)). rewrite Z2Nat.id in Ht by (unfold byte in Hc; lia). apply Ht.
  apply elem_of_seq. unfold byte in Hc. lia.
Qed.

Definition joined (s : list Z) : Z := fold_left (λ ch c, ch * 64 + c) s 0.

Lemma gather_spec s : Forall byte s → vsize s ≤ 4 → gather s = joined s.
Proof.
  intros Hs Hn. unfold gather, joined.
  assert (∀ ch, 0 ≤ ch → (ch + 1) * 256 ^ vsize s ≤ 2 ^ 32 →
    fold_left (λ ch c, uint 32 (uint 32 (Z.shiftl ch 6) + c)) s ch =
    fold_left (λ ch c, ch * 64 + c) s ch) as Hg.
  { clear Hn. induction Hs as [|c s Hc Hs IH]; intros ch Hch Hb; [done|]. cbn [fold_left].
    revert Hb. replace (vsize (c :: s)) with (Z.succ (vsize s)) by vsize.
    pose proof (vsize_nonneg s). rewrite Z.pow_succ_r by done. intros Hb.
    assert (0 < 256 ^ vsize s) by (by apply Z.pow_pos_nonneg).
    unfold byte in Hc. rewrite Z.shiftl_mul_pow2 by done. change (2 ^ 6) with 64.
    rewrite (uint_small 32 (ch * 64)), uint_small; [|nia..]. apply IH; nia. }
  apply Hg; [done|]. rewrite Z.mul_1_l. change (2 ^ 32) with (256 ^ 4). apply Z.pow_le_mono_r; lia.
Qed.

(** a byte that goes on with a character *)
Definition continuation (a : Z) : Prop := 0x80 ≤ a ≤ 0xBF.

#[export] Instance continuation_dec a : Decision (continuation a).
Proof. unfold continuation. apply _. Defined.

Lemma continues_spec s n k a :
  s⟦k - 1⟧ = Some a → k ≤ n → ∃ b, continues s n k = Some b ∧ (b = true ↔ continuation a).
Proof.
  intros Ha Hk. unfold continues. rewrite (proj2 (Z.ltb_ge n k) Hk), Ha. cbn [mbind option_bind].
  eexists. split; [done|]. unfold continuation. destruct (Z.ltb_spec a 0x80), (Z.ltb_spec 0xBF a); naive_solver lia.
Qed.

Lemma continues_short s n k : n < k → continues s n k = Some true.
Proof. intros Hk. unfold continues. by rewrite (proj2 (Z.ltb_lt n k) Hk). Qed.

(** the second byte of the encoding of a scalar value that begins with [a] *)
Definition second_range (a b : Z) : Prop :=
  (a = 0xE0 → 0xA0 ≤ b) ∧ (a = 0xED → b ≤ 0x9F) ∧ (a = 0xF0 → 0x90 ≤ b) ∧ (a = 0xF4 → b ≤ 0x8F).

Lemma second_ok_spec a b : second_ok a b = true ↔ second_range a b.
Proof.
  unfold second_ok, second_range.
  destruct (Z.eqb_spec a 0xE0), (Z.eqb_spec a 0xED), (Z.eqb_spec a 0xF0), (Z.eqb_spec a 0xF4); subst;
    try done; rewrite ?negb_true_iff, ?Z.ltb_ge; naive_solver lia.
Qed.

(** the bytes of a legal character *)
Definition legal (s : list Z) : Prop :=
  match s with
  | [a] => a < 0x80
  | a :: b :: r => 0xC2 ≤ a ≤ 0xF4 ∧ second_range a b ∧ Forall continuation (b :: r)
  | [] => False
  end.

Lemma isLegalUTF8_one a r :
  byte a → a < 192 → isLegalUTF8 (a :: r) 1 = Some (bool_decide (legal [a])).
Proof.
  intros Ha Hs. unfold isLegalUTF8. rewrite !continues_short by lia.
  change ((a :: r)⟦0⟧) with (Some a). change ((1 <? 1) || (4 <? 1)) with false. change (1 <? 2) with true.
  cbn [mbind option_bind negb]. unfold byte in Ha.
  rewrite (proj2 (Z.ltb_lt a 0xC2)), (proj2 (Z.ltb_ge 0xF4 a)), andb_true_r by lia.
  case_bool_decide as H; cbn in H; destruct (Z.leb_spec 0x80 a); done || lia.
Qed.

#[export] Instance legal_dec s : Decision (legal s).
Proof. unfold legal, second_range. destruct s as [|a [|b r]]; apply _. Defined.

(** the checks of the continuing bytes, from the last one *)
Lemma continues_list s n k x t :
  s⟦k - 1⟧ = Some x → k ≤ n →
  (b ← continues s n k; if negb b then Some false else t) =
    if decide (continuation x) then t else Some false.
Proof.
  intros Hx Hk. destruct (continues_spec s n k x Hx Hk) as (b & -> & Hb). cbn [mbind option_bind].
  destruct (decide (continuation x)) as [Hc|Hc], b; naive_solver.
Qed.

Lemma continues_skip s n k t :
  n < k → (b ← continues s n k; if negb b then Some false else t) = t.
Proof. intros Hk. by rewrite continues_short. Qed.

(** the checks of the first two bytes *)
Lemma first_two a b :
  192 ≤ a → (if negb (second_ok a b) then Some false
    else if (0x80 <=? a) && (a <? 0xC2) then Some false else Some (negb (0xF4 <? a))) =
  Some (bool_decide (0xC2 ≤ a ≤ 0xF4 ∧ second_range a b)).
Proof.
  intros Ha. pose proof (second_ok_spec a b) as Hs. rewrite (proj2 (Z.leb_le 0x80 a)) by lia.
  destruct (second_ok a b), (Z.ltb_spec a 0xC2), (Z.ltb_spec 0xF4 a); cbn [negb andb]; f_equal;
    symmetry; rewrite ?bool_decide_eq_true, ?bool_decide_eq_false; naive_solver lia.
Qed.

(** the checks decide what [legal] says *)
Ltac decide_legal :=
  unfold legal;
  repeat match goal with |- context [decide (continuation ?x)] =>
    destruct (decide (continuation x)) end;
  f_equal; symmetry; rewrite ?bool_decide_eq_false; try (apply bool_decide_ext);
  rewrite ?Forall_cons, ?Forall_nil; tauto.

Lemma isLegalUTF8_spec t r a :
  t⟦0⟧ = Some a → byte a → vsize t = trailing_of a + 1 → vsize t ≤ 4 →
  isLegalUTF8 (t ++ r) (vsize t) = Some (bool_decide (legal t)).
Proof.
  intros Ha Hb Hn H4. destruct t as [|a' t]; [done|]. injection Ha as ->. unfold trailing_of in Hn.
  destruct t as [|b t].
  { change (vsize [a]) with 1 in *. cbn [app]. rewrite isLegalUTF8_one; [done..|].
    destruct (Z.ltb_spec a 192); [done|]. repeat case_match; lia. }
  assert (192 ≤ a) as Ha.
  { destruct (Z.ltb_spec a 192); [|done]. revert Hn. vsize. pose proof (vsize_nonneg t). lia. }
  destruct t as [|c [|d [|e t]]]; [change (vsize _) with 2|change (vsize _) with 3|change (vsize _) with 4|].
  4:{ revert H4. vsize. pose proof (vsize_nonneg t). lia. }
  all: clear Hn H4; unfold isLegalUTF8; change ((_ <? 1) || _) with false; cbn [app].
  - rewrite (continues_skip _ 2 4), (continues_skip _ 2 3) by done.
    rewrite (continues_list _ 2 2 b) by done. change ((a :: b :: r)⟦0⟧) with (Some a).
    change (2 <? 2) with false. change ((a :: b :: r)⟦1⟧) with (Some b). cbn [mbind option_bind].
    rewrite first_two by done. decide_legal.
  - rewrite (continues_skip _ 3 4) by done.
    rewrite (continues_list _ 3 3 c), (continues_list _ 3 2 b) by done.
    change ((a :: b :: c :: r)⟦0⟧) with (Some a).
    change (3 <? 2) with false. change ((a :: b :: c :: r)⟦1⟧) with (Some b). cbn [mbind option_bind].
    rewrite first_two by done. decide_legal.
  - rewrite (continues_list _ 4 4 d), (continues_list _ 4 3 c), (continues_list _ 4 2 b) by done.
    change ((a :: b :: c :: d :: r)⟦0⟧) with (Some a).
    change (4 <? 2) with false. change ((a :: b :: c :: d :: r)⟦1⟧) with (Some b). cbn [mbind option_bind].
    rewrite first_two by done. decide_legal.
Qed.

(** ** Legal characters are encodings *)

(** what [decode_sequence] subtracts *)
Lemma decode_sequence_spec t r off :
  Forall byte t → vsize t ≤ 4 → offsetsFromUTF8⟦vsize t - 1⟧ = Some off →
  decode_sequence (t ++ r) (vsize t) = Some (uint 32 (joined t - off)).
Proof.
  intros Hb Hn Hoff. unfold decode_sequence. rewrite Hoff. cbn [mbind option_bind].
  unfold vsize at 1. rewrite Nat2Z.id, take_app_length, gather_spec; done.
Qed.

Definition offset_of (n : Z) : Z :=
  if n =? 1 then 0 else if n =? 2 then 0x3080 else if n =? 3 then 0xE2080 else 0x3C82080.

Lemma offset_table n : 1 ≤ n ≤ 4 → offsetsFromUTF8⟦n - 1⟧ = Some (offset_of n).
Proof. intros Hn. assert (n = 1 ∨ n = 2 ∨ n = 3 ∨ n = 4) as [->|[->|[->| ->]]] by lia; done. Qed.

Lemma encode_first c :
  scalar c → ∃ a, (encode c)⟦0⟧ = Some a ∧ byte a ∧ vsize (encode c) = trailing_of a + 1.
Proof.
  intros [Hc _]. unfold trailing_of, byte. encode_cases c; eexists; (split; [reflexivity|]);
    change (vsize [_]) with 1; change (vsize [_; _]) with 2; change (vsize [_; _; _]) with 3;
    change (vsize [_; _; _; _]) with 4.
  all: repeat case_match; division.
Qed.

Lemma encode_legal c : scalar c → legal (encode c).
Proof.
  intros [Hc Hs]. unfold second_range. encode_cases c; cbn [legal]; [lia| | |];
    rewrite ?Forall_cons, Forall_nil; unfold continuation, second_range; repeat split; intros; division.
Qed.

Lemma encode_joined c : scalar c → joined (encode c) - offset_of (vsize (encode c)) = c.
Proof.
  intros [Hc Hs]. unfold joined. encode_cases c; cbn [fold_left];
    [change (offset_of _) with 0|change (offset_of _) with 0x3080
    |change (offset_of _) with 0xE2080|change (offset_of _) with 0x3C82080]; division.
Qed.

(** every legal character is the encoding of a scalar value *)
Lemma legal_two a b : legal [a; b] → a < 224 → ∃ c, scalar c ∧ [a; b] = encode c.
Proof.
  intros (Ha & _ & Hc) H2. exists (joined [a; b] - 0x3080). unfold joined, scalar. cbn [fold_left].
  apply Forall_cons in Hc as [Hc _]. unfold continuation in Hc. split; [lia|]. unfold encode.
  rewrite (proj2 (Z.ltb_ge _ 0x80)), (proj2 (Z.ltb_lt _ 0x800)) by lia. f_equal; [division|f_equal; division].
Qed.

Lemma legal_three a b c : legal [a; b; c] → 224 ≤ a < 240 → ∃ x, scalar x ∧ [a; b; c] = encode x.
Proof.
  intros (Ha & (H1 & H2 & _) & Hc) H3. exists (joined [a; b; c] - 0xE2080). unfold joined, scalar. cbn [fold_left].
  rewrite !Forall_cons in Hc. destruct Hc as (Hb & Hc & _). unfold continuation in *. split; [lia|]. unfold encode.
  rewrite (proj2 (Z.ltb_ge _ 0x80)), (proj2 (Z.ltb_ge _ 0x800)), (proj2 (Z.ltb_lt _ 0x10000)) by lia.
  f_equal; [division|f_equal; [division|f_equal; division]].
Qed.

Lemma legal_four a b c d : legal [a; b; c; d] → 240 ≤ a → ∃ x, scalar x ∧ [a; b; c; d] = encode x.
Proof.
  intros (Ha & (_ & _ & H1 & H2) & Hc) H3. exists (joined [a; b; c; d] - 0x3C82080).
  unfold joined, scalar. cbn [fold_left]. rewrite !Forall_cons in Hc. destruct Hc as (Hb & Hc & Hd & _).
  unfold continuation in *. split; [lia|]. unfold encode.
  rewrite (proj2 (Z.ltb_ge _ 0x80)), (proj2 (Z.ltb_ge _ 0x800)), (proj2 (Z.ltb_ge _ 0x10000)) by lia.
  f_equal; [division|f_equal; [division|f_equal; [division|f_equal; division]]].
Qed.

Lemma legal_encode t a :
  t⟦0⟧ = Some a → byte a → vsize t = trailing_of a + 1 → legal t → ∃ c, scalar c ∧ t = encode c.
Proof.
  intros Ha Hb Hn Hl. destruct t as [|a' t]; [done|]. injection Ha as ->.
  assert (a ≤ 0xF4) as H4 by (destruct t; cbn [legal] in Hl; lia). unfold trailing_of in Hn.
  destruct (Z.ltb_spec a 192); [|destruct (Z.ltb_spec a 224); [|destruct (Z.ltb_spec a 240);
    [|rewrite (proj2 (Z.ltb_lt a 248)) in Hn by lia]]].
  all: destruct t as [|b [|c [|d [|e t]]]]; try (revert Hn; vsize; pose proof (vsize_nonneg t); lia).
  - exists a. cbn [legal] in Hl. unfold byte, scalar in *. split; [lia|]. unfold encode.
    by rewrite (proj2 (Z.ltb_lt _ _)) by lia.
  - by apply legal_two.
  - by apply legal_three.
  - by apply legal_four.
Qed.

(** reading the encoding of a scalar value *)
Lemma encode_read c r :
  scalar c → ∃ a, (encode c ++ r)⟦0⟧ = Some a ∧ trailingBytesForUTF8⟦a⟧ = Some (vsize (encode c) - 1) ∧
    isLegalUTF8 (encode c ++ r) (vsize (encode c)) = Some true ∧
    decode_sequence (encode c ++ r) (vsize (encode c)) = Some c.
Proof.
  intros Hc. destruct (encode_first c Hc) as (a & Ha & Hb & Hn). pose proof (encode_size c) as Hs.
  exists a. split; [rewrite vget_app_l by lia; done|]. split; [rewrite trailing_table by done; f_equal; lia|].
  split.
  - rewrite (isLegalUTF8_spec _ _ a) by (done || lia). f_equal. apply bool_decide_eq_true.
    by apply encode_legal.
  - rewrite (decode_sequence_spec _ _ (offset_of (vsize (encode c)))); [|by apply encode_bytes|lia|by apply offset_table].
    f_equal. rewrite encode_joined by done. apply uint_small. destruct Hc. lia.
Qed.

(** what comes first in a string of bytes *)
Lemma read_cases a s :
  Forall byte (a :: s) → let n := trailing_of a + 1 in
  trailingBytesForUTF8⟦a⟧ = Some (n - 1) ∧ 1 ≤ n ∧
  (vsize (a :: s) < n ∨ n ≤ vsize (a :: s) ∧ isLegalUTF8 (a :: s) n = Some false ∨
   ∃ c r, scalar c ∧ a :: s = encode c ++ r ∧ n = vsize (encode c)).
Proof.
  intros Hb n. apply Forall_cons in Hb as [Ha Hb]. split; [rewrite trailing_table by done; f_equal; lia|].
  assert (1 ≤ n) as H1 by (unfold n, trailing_of; repeat case_match; lia). split; [done|].
  destruct (Z.ltb_spec (vsize (a :: s)) n) as [|Hn]; [by left|right].
  destruct (Z.ltb_spec 4 n) as [H4|H4].
  { left. split; [done|]. unfold isLegalUTF8. by rewrite (proj2 (Z.ltb_lt 4 n)), orb_true_r by done. }
  set (t := take (Z.to_nat n) (a :: s)). assert (vsize t = n) as Ht.
  { unfold t, vsize in *. rewrite length_take. lia. }
  assert (t⟦0⟧ = Some a) as Hf by (unfold t; by destruct (Z.to_nat n) eqn:E; [lia|]).
  pose proof (isLegalUTF8_spec t (drop (Z.to_nat n) (a :: s)) a Hf Ha ltac:(unfold n in Ht; lia) ltac:(lia)) as Hl.
  unfold t in Hl at 1. rewrite take_drop, Ht in Hl. rewrite Hl. case_bool_decide as Hd; [right|by left].
  destruct (legal_encode t a Hf Ha Ht Hd) as (c & Hc & Hct).
  exists c, (drop (Z.to_nat n) (a :: s)). split; [done|]. rewrite <-Hct, Ht. split; [|done].
  unfold t. by rewrite take_drop.
Qed.

Lemma parse_encode c r : scalar c → parse_utf8_codepoint (encode c ++ r) = Some (c, vsize (encode c)).
Proof.
  intros Hc. destruct (encode_read c r Hc) as (a & Ha & Ht & Hl & Hd). pose proof (encode_size c).
  unfold parse_utf8_codepoint. rewrite Ha. cbn [mbind option_bind]. rewrite Ht. cbn [mbind option_bind].
  rewrite Z.sub_add, (proj2 (Z.ltb_ge (vsize (encode c ++ r)) _)) by (vsize; pose proof (vsize_nonneg r); lia).
  rewrite (proj2 (Z.ltb_ge 4 _)), Hl by lia. cbn [mbind option_bind negb]. rewrite Hd. cbn [mbind option_bind].
  destruct Hc. by rewrite (proj2 (Z.ltb_ge _ _)) by lia.
Qed.

(** whether a string begins with the encoding of a scalar value *)
Definition readable (s : list Z) : Prop := ∃ c r, scalar c ∧ s = encode c ++ r.

Lemma parse_spec a s :
  Forall byte (a :: s) →
  (∃ n, parse_utf8_codepoint (a :: s) = Some (-1, n) ∧ 1 ≤ n ≤ vsize (a :: s)) ∨ readable (a :: s).
Proof.
  intros Hb. destruct (read_cases a s Hb) as (Ht & H1 & Hcases).
  set (n := trailing_of a + 1) in *. destruct Hcases as [Hs|[[Hs Hl]|(c & r & Hc & Hs & _)]]; [| |by right; exists c, r].
  all: left; unfold parse_utf8_codepoint; change ((a :: s)⟦0⟧) with (Some a); cbn [mbind option_bind];
    rewrite Ht; cbn [mbind option_bind]; rewrite Z.sub_add.
  - rewrite (proj2 (Z.ltb_lt _ _)) by done. eexists. split; [done|]. vsize. pose proof (vsize_nonneg s). lia.
  - rewrite (proj2 (Z.ltb_ge _ _)) by done. exists n.
    destruct (4 <? n); [done|]. rewrite Hl. done.
Qed.

(** * The conversions *)

Lemma vsize_app_le {A} (s t : list A) : vsize s ≤ vsize (s ++ t).
Proof. vsize. pose proof (vsize_nonneg t). lia. Qed.

(** a turn of the loop that reads *)
Lemma read_turn fuel flags room c r target result :
  scalar c →
  utf8_to_utf32_loop (S fuel) flags room (encode c ++ r) target result =
    if room <=? vsize target then Some (encode c ++ r, target, targetExhausted)
    else utf8_to_utf32_loop fuel flags room r (target ++ [c]) result.
Proof.
  intros Hc. destruct (encode_read c r Hc) as (a & Ha & Ht & Hl & Hd). pose proof (encode_size c).
  destruct (encode c ++ r) as [|a' s] eqn:Hs; [done|]. injection Ha as ->. cbn [utf8_to_utf32_loop].
  rewrite Ht. cbn [mbind option_bind]. rewrite Z.sub_add.
  rewrite (proj2 (Z.leb_gt _ _)) by (rewrite <-Hs; pose proof (vsize_app_le (encode c) r); lia).
  rewrite Hl. cbn [mbind option_bind negb]. rewrite Hd. cbn [mbind option_bind].
  destruct (room <=? vsize target); [done|]. destruct Hc as [Hc Hsur]. unfold UNI_MAX_LEGAL_UTF32.
  rewrite (proj2 (Z.leb_le _ _)) by lia. unfold UNI_SUR_HIGH_START, UNI_SUR_LOW_END.
  replace ((0xD800 <=? c) && (c <=? 0xDFFF)) with false
    by (symmetry; rewrite andb_false_iff, !Z.leb_gt; lia).
  f_equal. rewrite <-Hs. unfold vsize. by rewrite Nat2Z.id, drop_app_length.
Qed.

Lemma read_stop fuel flags room a s target result :
  Forall byte (a :: s) → ¬ readable (a :: s) →
  ∃ res, (res = sourceExhausted ∨ res = sourceIllegal) ∧
    utf8_to_utf32_loop (S fuel) flags room (a :: s) target result = Some (a :: s, target, res).
Proof.
  intros Hb Hr. destruct (read_cases a s Hb) as (Ht & H1 & Hcases). cbn [utf8_to_utf32_loop].
  rewrite Ht. cbn [mbind option_bind]. rewrite Z.sub_add.
  destruct Hcases as [Hs|[[Hs Hl]|(c & r & Hc & Hs & _)]]; [| |by destruct Hr; exists c, r].
  - rewrite (proj2 (Z.leb_le _ _)) by lia. eauto.
  - rewrite (proj2 (Z.leb_gt _ _)) by lia. rewrite Hl. eauto.
Qed.

Lemma encode_length c : (1 ≤ length (encode c))%nat.
Proof. pose proof (encode_size c). unfold vsize in *. lia. Qed.

Lemma readable_dec s : Forall byte s → readable s ∨ ¬ readable s.
Proof.
  intros Hb. destruct s as [|a s].
  { right. intros (c & r & _ & Hs). by destruct (encode_some c), (encode c). }
  destruct (parse_spec a s Hb) as [(n & Hp & Hn)|]; [right|by left].
  intros (c & r & Hc & Hs). rewrite Hs, parse_encode in Hp by done. injection Hp as Hp _.
  destruct Hc. lia.
Qed.

(** what is read, and why it ends *)
Lemma read_spec fuel flags room s target result :
  Forall byte s → (length s ≤ fuel)%nat →
  ∃ cps rest res, utf8_to_utf32_loop fuel flags room s target result = Some (rest, target ++ cps, res) ∧
    Forall scalar cps ∧ s = utf8_of cps ++ rest ∧
    (rest = [] ∧ res = result ∨ room ≤ vsize (target ++ cps) ∧ res = targetExhausted ∧ readable rest ∨
     rest ≠ [] ∧ ¬ readable rest ∧ (res = sourceExhausted ∨ res = sourceIllegal)).
Proof.
  revert s target. induction fuel as [|fuel IH]; intros s target Hb Hn.
  { destruct s; [|cbn in Hn; lia]. exists [], [], result. rewrite app_nil_r. repeat split; auto. }
  destruct s as [|a s]; [exists [], [], result; rewrite app_nil_r; repeat split; auto|].
  destruct (readable_dec _ Hb) as [(c & r & Hc & Hs)|Hr].
  - rewrite Hs in *. rewrite read_turn by done. destruct (Z.leb_spec room (vsize target)).
    + exists [], (encode c ++ r), targetExhausted. rewrite app_nil_r. repeat split; auto.
      right. left. repeat split; auto. by exists c, r.
    + apply Forall_app in Hb as [_ Hb]. pose proof (encode_length c). rewrite length_app in Hn.
      destruct (IH r (target ++ [c]) Hb) as (cps & rest & res & Hrun & Hcps & -> & Hres); [lia|].
      exists (c :: cps), rest, res. rewrite <-app_assoc in Hrun. split; [done|]. split; [by constructor|].
      split; [by unfold utf8_of; cbn; rewrite <-app_assoc|]. by rewrite <-app_assoc in Hres.
  - destruct (read_stop fuel flags room a s target result Hb Hr) as (res & Hres & Hrun).
    exists [], (a :: s), res. rewrite app_nil_r. split; [done|]. split; [done|]. split; [done|].
    right. right. done.
Qed.

(** two functions that agree below [n], by evaluation *)
Lemma agree_below (n : nat) (f g : Z → Z) :
  forallb (λ i, f (Z.of_nat i) =? g (Z.of_nat i)) (seq 0 n) = true → ∀ x, 0 ≤ x < Z.of_nat n → f x = g x.
Proof.
  intros Hf x Hx. rewrite forallb_forall in Hf. specialize (Hf (Z.to_nat x)).
  rewrite Z2Nat.id in Hf by lia. apply Z.eqb_eq, Hf, in_seq. lia.
Qed.

(** a byte that is not the first *)
Lemma masked_byte ch : uint 8 (Z.land (Z.lor ch 0x80) 0xBF) = 0x80 + ch mod 64.
Proof.
  replace (Z.land (Z.lor ch 0x80) 0xBF) with (Z.lor (Z.land ch (Z.ones 6)) 0x80).
  - rewrite Z.land_ones by done. change (2 ^ 6) with 64. pose proof (Z.mod_pos_bound ch 64 eq_refl).
    by apply (agree_below 64 (λ x, uint 8 (Z.lor x 0x80)) (λ x, 0x80 + x)).
  - apply Z.bits_inj'. intros n Hn. rewrite Z.land_spec, !Z.lor_spec, Z.land_spec.
    change 0xBF with (Z.lor (Z.ones 6) 0x80). rewrite Z.lor_spec.
    destruct (Z.testbit ch n), (Z.testbit (Z.ones 6) n), (Z.testbit 0x80 n); done.
Qed.

Lemma marked_byte (n : nat) mark x :
  0 ≤ x < Z.of_nat n → forallb (λ i, uint 8 (Z.lor (Z.of_nat i) mark) =? mark + Z.of_nat i) (seq 0 n) = true →
  uint 8 (Z.lor x mark) = mark + x.
Proof. intros Hx Hf. by apply (agree_below n (λ x, uint 8 (Z.lor x mark)) (λ x, mark + x)). Qed.

(** the bytes that are written for a character *)
Lemma write_encode c : scalar c → write_sequence (bytesToWrite c) c = Some (encode c).
Proof.
  intros [Hc _]. unfold bytesToWrite, encode, write_sequence, UNI_MAX_LEGAL_UTF32.
  destruct (Z.ltb_spec c 0x80); [|destruct (Z.ltb_spec c 0x800); [|destruct (Z.ltb_spec c 0x10000);
    [|rewrite (proj2 (Z.leb_le _ _)) by lia]]]; cbn [vget firstByteMark].
  - change (firstByteMark⟦1⟧) with (Some 0). change (Z.to_nat 1) with 1%nat. cbn [mbind option_bind write_bytes].
    by rewrite (marked_byte 128) by (lia || done).
  - change (firstByteMark⟦2⟧) with (Some 0xC0). change (Z.to_nat 2) with 2%nat. cbn [mbind option_bind write_bytes].
    rewrite masked_byte, Z.shiftr_div_pow2 by done. change (2 ^ 6) with 64.
    by rewrite (marked_byte 32) by (done || division).
  - change (firstByteMark⟦3⟧) with (Some 0xE0). change (Z.to_nat 3) with 3%nat. cbn [mbind option_bind write_bytes].
    rewrite !masked_byte, !Z.shiftr_div_pow2 by done. change (2 ^ 6) with 64.
    rewrite (marked_byte 16) by (done || division). by rewrite Z.div_div by done.
  - change (firstByteMark⟦4⟧) with (Some 0xF0). change (Z.to_nat 4) with 4%nat. cbn [mbind option_bind write_bytes].
    rewrite !masked_byte, !Z.shiftr_div_pow2 by done. change (2 ^ 6) with 64.
    rewrite (marked_byte 8) by (done || division). by rewrite !Z.div_div by done.
Qed.

Lemma encode_bytesToWrite c : scalar c → vsize (encode c) = bytesToWrite c.
Proof.
  intros [Hc _]. unfold bytesToWrite, UNI_MAX_LEGAL_UTF32. encode_cases c; try done.
  by rewrite (proj2 (Z.leb_le _ _)) by lia.
Qed.

Lemma write_spec flags room cps target result :
  Forall scalar cps → vsize (target ++ utf8_of cps) ≤ room →
  utf32_to_utf8_loop flags room cps target result = Some ([], target ++ utf8_of cps, result).
Proof.
  intros Hcps. revert target. induction Hcps as [|c cps Hc Hcps IH]; intros target Hr.
  { unfold utf8_of. cbn. by rewrite app_nil_r. }
  cbn [utf32_to_utf8_loop]. unfold UNI_SUR_HIGH_START, UNI_SUR_LOW_END. pose proof Hc as [Hr1 Hr2].
  replace (strict flags && (0xD800 <=? c) && (c <=? 0xDFFF)) with false
    by (symmetry; rewrite !andb_false_iff, !Z.leb_gt; lia).
  unfold UNI_MAX_LEGAL_UTF32. rewrite (proj2 (Z.ltb_ge _ c)) by lia.
  change (utf8_of (c :: cps)) with (encode c ++ utf8_of cps) in *. rewrite app_assoc in *.
  rewrite (proj2 (Z.ltb_ge room _)).
  - rewrite write_encode by done. by apply IH.
  - rewrite <-encode_bytesToWrite by done. pose proof (vsize_app_le (target ++ encode c) (utf8_of cps)) as Hle.
    revert Hle Hr. vsize; lia.
Qed.

(** * Repairing a string *)

Definition well_formed (s : list Z) : Prop := ∃ cps, utf8 s cps.

Lemma utf8_readable a s cps : utf8 (a :: s) cps → readable (a :: s).
Proof.
  intros [Hc Hs]. destruct cps as [|c cps]; [done|]. apply Forall_cons in Hc as [Hc _]. by exists c, (utf8_of cps).
Qed.

(** the first character of a string is determined *)
Lemma encode_first_inj c d r t : scalar c → scalar d → encode c ++ r = encode d ++ t → c = d ∧ r = t.
Proof.
  intros Hc Hd He. pose proof (parse_encode c r Hc) as H1. rewrite He, parse_encode in H1 by done.
  injection H1 as ->. split; [done|]. by apply app_inv_head in He.
Qed.

Lemma utf8_cons_inv c r cps : scalar c → utf8 (encode c ++ r) cps → ∃ cps', cps = c :: cps' ∧ utf8 r cps'.
Proof.
  intros Hc [Hcps Hs]. destruct cps as [|d cps]; [by destruct (encode_some c), (encode c)|].
  apply Forall_cons in Hcps as [Hd Hcps].
  destruct (encode_first_inj c d r (utf8_of cps) Hc Hd Hs) as [-> ->]. by exists cps.
Qed.

(** UTF-8 without the replacement character *)
Definition unreplaced (s : list Z) : Prop := ∃ cps, utf8 s cps ∧ UNI_REPLACEMENT_CHAR ∉ cps.

Lemma unreplaced_cons c r :
  scalar c → unreplaced (encode c ++ r) ↔ c ≠ UNI_REPLACEMENT_CHAR ∧ unreplaced r.
Proof.
  intros Hc. split.
  - intros (cps & Hu & Hn). destruct (utf8_cons_inv c r cps Hc Hu) as (cps' & -> & Hu').
    rewrite not_elem_of_cons in Hn. split; [naive_solver|]. exists cps'. naive_solver.
  - intros [Hn (cps & Hu & Hnot)]. exists (c :: cps). split; [by apply utf8_cons|]. rewrite not_elem_of_cons. naive_solver.
Qed.

Lemma unreplaced_nil : unreplaced [].
Proof. exists []. split; [apply utf8_nil|apply not_elem_of_nil]. Qed.

Lemma unreplaced_readable a s : unreplaced (a :: s) → readable (a :: s).
Proof. intros (cps & Hu & _). by eapply utf8_readable. Qed.

(** the conversion of one character, and why it ends *)
Lemma convert_one c r :
  scalar c → Forall byte r →
  ∃ res, ConvertUTF8toUTF32 (encode c ++ r) 1 lenientConversion = Some (r, [c], res) ∧
    ((res = conversionOK ∨ res = targetExhausted) ∨
     (res = sourceExhausted ∨ res = sourceIllegal) ∧ r ≠ [] ∧ ¬ readable r).
Proof.
  intros Hc Hb. unfold ConvertUTF8toUTF32. pose proof (encode_length c).
  destruct (length (encode c ++ r)) as [|fuel] eqn:Hf; rewrite length_app in Hf; [lia|].
  rewrite read_turn by done. change (1 <=? vsize []) with false. cbn [app].
  destruct r as [|a r]; [exists conversionOK; split; [by destruct fuel|by left; left]|].
  destruct fuel as [|fuel]; [cbn in Hf; lia|]. destruct (readable_dec _ Hb) as [(d & t & Hd & Hs)|Hbad].
  - exists targetExhausted. rewrite Hs, read_turn by done. split; [done|]. by left; right.
  - destruct (read_stop fuel lenientConversion 1 a r [c] conversionOK Hb Hbad) as (res & Hres & ->).
    exists res. split; [done|]. by right.
Qed.

Lemma convert_bad a s :
  Forall byte (a :: s) → ¬ readable (a :: s) →
  ∃ res, ConvertUTF8toUTF32 (a :: s) 1 lenientConversion = Some (a :: s, [], res) ∧
    (res = sourceExhausted ∨ res = sourceIllegal).
Proof.
  intros Hb Hbad. destruct (read_stop (length s) lenientConversion 1 a s [] conversionOK Hb Hbad) as (res & ? & ?).
  by exists res.
Qed.

(** a turn of the loop: [s] is what replaces the characters before [ptr'] *)
Record turned (ptr ptr' : list Z) (codepoint : Z) (valid : bool) : Prop := {
  tu_scalar : scalar codepoint;
  tu_less : (length ptr' < length ptr)%nat;
  tu_bytes : Forall byte ptr';
  tu_valid : unreplaced ptr ↔ valid = true ∧ unreplaced ptr'
}.

Lemma decoded_turn ptr :
  Forall byte ptr → ptr ≠ [] →
  ∃ rest cps res ptr' codepoint valid,
    ConvertUTF8toUTF32 ptr 1 lenientConversion = Some (rest, cps, res) ∧
    decoded ptr rest cps res = Some (ptr', codepoint, valid) ∧ turned ptr ptr' codepoint valid.
Proof.
  intros Hb Hne. destruct ptr as [|a s]; [done|].
  destruct (readable_dec _ Hb) as [(c & r & Hc & Hs)|Hbad].
  - rewrite Hs in *. clear a s Hs Hne. apply Forall_app in Hb as [_ Hb]. pose proof (encode_length c) as Hlen.
    pose proof (unreplaced_cons c r Hc) as Hu. assert (length r < length (encode c ++ r))%nat by (rewrite length_app; lia).
    destruct (convert_one c r Hc Hb) as (res & Hconv & Hres).
    destruct Hres as [Hres|(Hres & Hne & Hbad)].
    + exists r, [c], res, r, (if c =? UNI_REPLACEMENT_CHAR then 95 else c), (negb (c =? UNI_REPLACEMENT_CHAR)).
      split; [done|]. split; [unfold decoded; change ([c]⟦0⟧) with (Some c); cbn [mbind option_bind];
        destruct Hres as [-> | ->], (c =? UNI_REPLACEMENT_CHAR); done|].
      split; [destruct (c =? _); [unfold scalar; lia|done]|done|done|].
      rewrite Hu, negb_true_iff, Z.eqb_neq. done.
    + exists r, [c], res, r, c, true. split; [done|]. split; [by destruct Hres as [-> | ->]|].
      split; [done..|]. assert (¬ unreplaced r) by (intros Hr; destruct r; [done|]; by apply Hbad, unreplaced_readable).
      naive_solver.
  - destruct (convert_bad a s Hb Hbad) as (res & Hconv & Hres).
    assert (¬ unreplaced (a :: s)) as Hnot by (intros Hu; by apply Hbad, unreplaced_readable).
    exists (a :: s), [], res, (match res with sourceExhausted => [] | _ => drop 1 (a :: s) end), 95, false.
    apply Forall_cons in Hb as [_ Hb]. split; [done|]. split; [by destruct Hres as [-> | ->]|].
    destruct Hres as [-> | ->]; cbn [drop]; rewrite ?drop_0; (split; [unfold scalar; lia|cbn; lia|done|naive_solver]).
Qed.

Lemma verify_loop_spec fuel ptr tmp v :
  Forall byte ptr → (length ptr ≤ fuel)%nat →
  ∃ cps v', verify_loop fuel ptr tmp v = Some (tmp ++ utf8_of cps, v') ∧ Forall scalar cps ∧
    (v' = true ↔ v = true ∧ unreplaced ptr).
Proof.
  revert ptr tmp v. induction fuel as [|fuel IH]; intros ptr tmp v Hb Hn.
  { destruct ptr; [|cbn in Hn; lia]. exists [], v. rewrite app_nil_r. pose proof unreplaced_nil. naive_solver. }
  destruct ptr as [|a s]; [exists [], v; rewrite app_nil_r; pose proof unreplaced_nil; naive_solver|].
  destruct (decoded_turn (a :: s) Hb) as (rest & cps & res & ptr' & c & valid & Hconv & Hdec & [Hc Hless Hb' Hv]); [done|].
  cbn [verify_loop]. rewrite Hconv. cbn [mbind option_bind]. rewrite Hdec. cbn [mbind option_bind].
  unfold ConvertUTF32toUTF8. rewrite write_spec; [|by apply Forall_singleton|].
  2:{ unfold utf8_of. cbn. rewrite app_nil_r. pose proof (encode_size c). lia. }
  cbn [mbind option_bind app]. unfold utf8_of at 1. cbn [concat fmap list_fmap]. rewrite app_nil_r.
  rewrite take_ge by (pose proof (encode_size c); unfold vsize in *; lia).
  destruct (IH ptr' (tmp ++ encode c) (v && valid) Hb') as (cps' & v' & -> & Hcps & Hv'); [cbn in *; lia|].
  exists (c :: cps'), v'. rewrite <-app_assoc. split; [done|]. split; [by constructor|].
  rewrite Hv', Hv, andb_true_iff. tauto.
Qed.

(** * What the functions promise *)

Lemma verify_encoding_spec target :
  Forall byte target →
  ∃ valid target', verify_encoding target = Some (valid, target') ∧ well_formed target' ∧
    (valid = true ↔ unreplaced target) ∧ (valid = true → target' = target).
Proof.
  intros Hb. destruct target as [|a s].
  { exists true, []. split; [done|]. split; [by exists []|]. pose proof unreplaced_nil. naive_solver. }
  destruct (verify_loop_spec (length (a :: s)) (a :: s) [] true Hb) as (cps & v & Hrun & Hcps & Hv); [done|].
  unfold verify_encoding. rewrite Hrun. cbn [mbind option_bind app]. eexists _, _. split; [done|].
  destruct v.
  - split; [|naive_solver]. destruct Hv as [Hv _]. destruct Hv as [_ (cps' & Hu & _)]; [done|]. by exists cps'.
  - split; [by exists cps|]. naive_solver.
Qed.

(** [utf8_wchar] reads exactly what is UTF-8, and [wchar_utf8] writes it *)
Lemma utf8_size cps : Forall scalar cps → vsize cps ≤ vsize (utf8_of cps) ≤ vsize cps * 4.
Proof.
  induction 1 as [|c cps Hc _ IH]; [done|]. change (utf8_of (c :: cps)) with (encode c ++ utf8_of cps).
  vsize. pose proof (encode_size c). lia.
Qed.

(** what follows the encoding of characters in UTF-8 *)
Lemma utf8_prefix cps rest cqs :
  Forall scalar cps → utf8 (utf8_of cps ++ rest) cqs → ∃ cqs', cqs = cps ++ cqs' ∧ utf8 rest cqs'.
Proof.
  intros Hc. revert cqs. induction Hc as [|c cps Hc Hcps IH]; intros cqs Hu; [by exists cqs|].
  change (utf8_of (c :: cps)) with (encode c ++ utf8_of cps) in Hu. rewrite <-app_assoc in Hu.
  destruct (utf8_cons_inv _ _ _ Hc Hu) as (cqs' & -> & Hu'). destruct (IH _ Hu') as (cqs'' & -> & Hr).
  by exists cqs''.
Qed.

Lemma utf8_inj s cps cqs : utf8 s cps → utf8 s cqs → cps = cqs.
Proof.
  intros [Hc ->] Hu. rewrite <-(app_nil_r (utf8_of cps)) in Hu.
  destruct (utf8_prefix cps [] cqs Hc Hu) as (r & -> & [Hr Hn]). destruct r as [|c r]; [by rewrite app_nil_r|].
  pose proof (encode_some c). unfold utf8_of in Hn. cbn in Hn. by destruct (encode c).
Qed.

(** [utf8_wchar] reads exactly what is UTF-8, and [wchar_utf8] writes it *)
Lemma utf8_wchar_spec s :
  Forall byte s →
  ∃ wide ret, utf8_wchar s = Some (wide, ret) ∧ (ret = conversionOK ↔ well_formed s) ∧
    (∀ cps, utf8 s cps → wide = cps).
Proof.
  intros Hb. unfold utf8_wchar, ConvertUTF8toUTF32.
  destruct (read_spec (length s) lenientConversion (vsize s) s [] conversionOK Hb) as (cps & rest & res & -> & Hcps & Hs & Hres);
    [done|]. cbn [app mbind option_bind] in *.
  destruct Hres as [[-> ->]|[(Hroom & _ & Hr)|(Hne & Hbad & Hres)]].
  - rewrite app_nil_r in Hs. exists cps, conversionOK. split; [done|]. split; [split; [by exists cps|done]|].
    intros cqs Hu. by eapply utf8_inj; [|exact Hu].
  - exfalso. destruct Hr as (c & r & Hc & ->). rewrite Hs in Hroom. revert Hroom. vsize.
    pose proof (utf8_size cps Hcps). pose proof (encode_size c). pose proof (vsize_nonneg r). lia.
  - assert (∀ cqs, ¬ utf8 s cqs) as Hno.
    { intros cqs Hu. rewrite Hs in Hu. destruct (utf8_prefix _ _ _ Hcps Hu) as (cqs' & _ & Hr).
      destruct rest as [|a rest]; [done|]. by eapply Hbad, utf8_readable. }
    assert (res = conversionOK ↔ well_formed s) as Hok.
    { split; [by destruct Hres as [-> | ->]|]. intros (cqs & Hu). by destruct (Hno cqs). }
    destruct (decide (res = sourceIllegal)); eexists _, res; (split; [done|]); (split; [done|]);
      intros cqs Hu; by destruct (Hno cqs).
Qed.

Lemma wchar_utf8_spec cps : Forall scalar cps → wchar_utf8 cps = Some (utf8_of cps, conversionOK).
Proof.
  intros Hc. destruct cps as [|c cps]; [done|]. unfold wchar_utf8, ConvertUTF32toUTF8.
  rewrite write_spec; [done|done|]. cbn [app]. pose proof (utf8_size _ Hc). lia.
Qed.

Lemma utf8_bytes cps : Forall scalar cps → Forall byte (utf8_of cps).
Proof.
  induction 1 as [|c cps Hc _ IH]; [constructor|]. apply Forall_app. split; [by apply encode_bytes|done].
Qed.
