(* ===== verification/TorrentPath.v ===== *)
(** Model of [sanitize_append_path_element] of
    src/btdownloader/torrent/torrent_info.cpp, as it is compiled for systems
    whose separator is a slash, and what it makes of an element of a path that
    comes from a torrent file. *)

From S2P Require Import Prelude.
From stdpp Require Import list.
From S2P Require Import StringUtil.
From S2P Require Import Path.
From S2P Require Import FileStorage.
From S2P Require Import FileLayout.
From S2P Require Import Utf8.
From S2P Require Import PathCorrect.
From S2P Require Import Utf8Correct.

Open Scope Z_scope.

(** [strchr(s, c) != nullptr]; the terminating character is found too *)
Definition strchr (s : list Z) (c : Z) : bool := existsb (Z.eqb c) (s ++ [0]).

Definition valid_path_character (c : Z) : bool :=
  if c <? 32 then false else if 127 <? c then true else negb (strchr [] c).

Definition bad_cp : list Z := [0x202a; 0x202b; 0x202c; 0x202d; 0x202e; 0x200e; 0x200f].

Definition filter_path_character (c : Z) : bool :=
  if existsb (Z.eqb c) bad_cp then true else if 127 <? c then false else strchr [47; 92] c.

(** the loop that looks for the dot of an extension, down from [j]; -1 when it
    is not behind [limit] *)
Fixpoint find_dot (fuel : nat) (element : list Z) (j limit : Z) : option Z :=
  if limit <? j then
    match fuel with
    | O => None
    | S fuel =>
        c ← element⟦j⟧;
        if c =? 46 then Some j else find_dot fuel element (j - 1) limit
    end
  else Some (-1).

(** the text that was added, its size and the number of its dots, a [char] *)
Record added_text := AddedText { at_text : list Z; at_added : Z; at_dots : Z }.

(** what cannot be used is replaced *)
Definition underscored (t : added_text) : added_text :=
  AddedText (at_text t ++ [95]) (at_added t + 1) (at_dots t).

Fixpoint append_loop (fuel : nat) (element : list Z) (i : Z) (found_extension : bool) (t : added_text)
    : option added_text :=
  if i <? vsize element then
    match fuel with
    | O => None
    | S fuel =>
        '(code_point, seq_len) ← parse_utf8_codepoint (drop (Z.to_nat i) element);
        if (0 <=? code_point) && filter_path_character code_point then
          append_loop fuel element (i + seq_len) found_extension t
        else if (code_point <? 0) || negb (valid_path_character code_point) then
          append_loop fuel element (i + seq_len) found_extension (underscored t)
        else
          let text := at_text t ++ take (Z.to_nat seq_len) (drop (Z.to_nat i) element) in
          let added := at_added t + seq_len in
          let num_dots := if code_point =? 46 then sint 8 (at_dots t + 1) else at_dots t in
          let t := AddedText text added num_dots in
          if (240 <=? added) && negb found_extension then
            dot ← find_dot (length element) element (vsize element - 1) (Z.max (vsize element - 10) i);
            if dot =? -1 then Some t
            else append_loop fuel element (dot - 1 + seq_len) true t
          else append_loop fuel element (i + seq_len) found_extension t
    end
  else Some t.

(** [erase(end() - n, end())] *)
Definition erase_back (s : list Z) (n : Z) : option (list Z) :=
  if n <=? vsize s then Some (take (Z.to_nat (vsize s - n)) s) else None.

Definition sanitize_append_path_element (path element : list Z) : option (list Z) :=
  if same_string element [46] then Some path
  else
    let added_separator := match path with [] => 0 | _ => 1 end in
    let path := match path with [] => path | _ => path ++ [separator] end in
    match element with
    | [] => Some (path ++ [95])
    | _ =>
        t ← append_loop (length element) element 0 false (AddedText [] 0 0);
        let path := path ++ at_text t in
        if (at_added t =? at_dots t) && (at_added t <=? 2)
        then erase_back path (at_added t + added_separator)
        else match path with [] => Some [95] | _ => Some path end
    end.

(** * Text that is clean *)

(** a character of a name: no separator, no control character and no mark that
    changes the direction of the text *)
Definition clean_char (c : Z) : Prop :=
  scalar c ∧ 32 ≤ c ∧ c ≠ 47 ∧ c ≠ 92 ∧ ¬ 0x202A ≤ c ≤ 0x202E ∧ ¬ 0x200E ≤ c ≤ 0x200F.

(** the characters that the code neither leaves out nor replaces *)
Lemma clean_char_code c :
  clean_char c ↔ scalar c ∧ filter_path_character c = false ∧ valid_path_character c = true.
Proof.
  unfold clean_char, filter_path_character, valid_path_character, strchr, bad_cp.
  assert (existsb (Z.eqb c) [0x202a; 0x202b; 0x202c; 0x202d; 0x202e; 0x200e; 0x200f] = true ↔
    0x202A ≤ c ≤ 0x202E ∨ 0x200E ≤ c ≤ 0x200F) as Hbad.
  { cbn [existsb]. rewrite !orb_true_iff, !Z.eqb_eq. split; [intuition lia|]. intros H.
    assert (c = 0x202a ∨ c = 0x202b ∨ c = 0x202c ∨ c = 0x202d ∨ c = 0x202e ∨ c = 0x200e ∨ c = 0x200f) by lia.
    intuition. }
  destruct (existsb (Z.eqb c) [0x202a; 0x202b; 0x202c; 0x202d; 0x202e; 0x200e; 0x200f]).
  - assert (0x202A ≤ c ≤ 0x202E ∨ 0x200E ≤ c ≤ 0x200F) by (by apply Hbad). naive_solver.
  - assert (¬ (0x202A ≤ c ≤ 0x202E ∨ 0x200E ≤ c ≤ 0x200F)) by (intros H; by apply Hbad in H).
    cbn [app existsb]. rewrite ?orb_false_r.
    destruct (Z.ltb_spec c 32), (Z.ltb_spec 127 c), (Z.eqb_spec c 47), (Z.eqb_spec c 92), (Z.eqb_spec c 0);
      cbn [orb negb]; naive_solver lia.
Qed.

Definition clean (s : list Z) : Prop := ∃ cps, s = utf8_of cps ∧ Forall clean_char cps.

Lemma clean_scalars cps : Forall clean_char cps → Forall scalar cps.
Proof. intros H. eapply Forall_impl; [exact H|]. by intros c [Hc _]. Qed.

Lemma clean_nil : clean [].
Proof. by exists []. Qed.

Lemma clean_app s t : clean s → clean t → clean (s ++ t).
Proof.
  intros (cps & -> & H1) (cqs & -> & H2). exists (cps ++ cqs). split; [by rewrite utf8_of_app|by apply Forall_app].
Qed.

Lemma clean_one c : clean_char c → clean (encode c).
Proof. intros Hc. exists [c]. split; [by rewrite utf8_of_one|by apply Forall_singleton]. Qed.

Lemma clean_underscore : clean [95].
Proof. apply (clean_one 95). unfold clean_char, scalar. lia. Qed.

(** the bytes of a character: itself, or none below 128 *)
Lemma encode_high c : scalar c → 128 ≤ c → Forall (λ b, 128 ≤ b) (encode c).
Proof.
  intros [Hc _] Hh. encode_cases c; [lia|..]; repeat (apply Forall_cons_2 || apply Forall_nil_2); division.
Qed.

Lemma encode_ascii c b : scalar c → b ∈ encode c → b < 128 → b = c.
Proof.
  intros Hc Hb Hl. destruct (Z.lt_ge_cases c 128) as [H|H].
  - revert Hb. unfold encode. rewrite (proj2 (Z.ltb_lt _ _) H). by intros ?%list_elem_of_singleton.
  - pose proof (encode_high c Hc H) as Hf. rewrite Forall_forall in Hf. specialize (Hf b Hb). cbn in Hf. lia.
Qed.

Lemma clean_byte s b : clean s → b ∈ s → b < 128 → clean_char b.
Proof.
  intros (cps & -> & Hc) Hb Hl. induction Hc as [|c cps Hc Hcps IH]; [by apply not_elem_of_nil in Hb|].
  change (utf8_of (c :: cps)) with (encode c ++ utf8_of cps) in Hb. apply elem_of_app in Hb as [Hb|Hb]; [|auto].
  by rewrite (encode_ascii c b (proj1 Hc) Hb Hl).
Qed.

Lemma clean_element s : clean s → s ≠ [] → element_ok s.
Proof.
  intros Hs Hne. assert (∀ b, b ∈ s → b < 128 → 32 ≤ b ∧ b ≠ 47 ∧ b ≠ 92) as Hb.
  { intros b Hb Hl. pose proof (clean_byte s b Hs Hb Hl) as Hc. unfold clean_char in Hc. tauto. }
  split; [done|..]; intros Hin; destruct (Hb _ Hin); unfold separator in *; lia.
Qed.

(** * The loop *)

(** the number of dots *)
Definition dots (cps : list Z) : Z := Z.of_nat (length (filter (λ c, c = 46) cps)).

Lemma dots_cons c cps : dots (c :: cps) = (if c =? 46 then 1 else 0) + dots cps.
Proof.
  unfold dots. rewrite filter_cons. destruct (decide (c = 46)) as [->|Hne].
  - cbn [length Z.eqb Pos.eqb]. lia.
  - by rewrite (proj2 (Z.eqb_neq c 46) Hne).
Qed.

Lemma dots_range cps : Forall scalar cps → 0 ≤ dots cps ≤ vsize (utf8_of cps).
Proof.
  induction 1 as [|c cps Hc _ IH]; [done|]. rewrite dots_cons.
  change (utf8_of (c :: cps)) with (encode c ++ utf8_of cps). vsize. pose proof (encode_size c).
  destruct (c =? 46); lia.
Qed.

(** what the loop does to [t]: it adds the characters [cps] *)
Record adds (t t' : added_text) (cps : list Z) : Prop := {
  ads_clean : Forall clean_char cps;
  ads_text : at_text t' = at_text t ++ utf8_of cps;
  ads_added : at_added t' = at_added t + vsize (utf8_of cps);
  ads_dots : ∀ k, at_dots t = sint 8 k → at_dots t' = sint 8 (k + dots cps)
}.

Lemma adds_nil t : adds t t [].
Proof.
  split; [done|by rewrite app_nil_r|change (vsize (utf8_of [])) with 0; lia|]. intros k ->. f_equal. change (dots []) with 0. lia.
Qed.

Lemma sint_add w a b : 0 < w → sint w (sint w a + b) = sint w (a + b).
Proof.
  intros Hw. unfold sint. f_equal. replace ((a + 2 ^ (w - 1)) mod 2 ^ w - 2 ^ (w - 1) + b + 2 ^ (w - 1))
    with ((a + 2 ^ (w - 1)) mod 2 ^ w + b) by lia.
  rewrite Zplus_mod_idemp_l. f_equal. lia.
Qed.

Lemma adds_trans t u v cps cqs : adds t u cps → adds u v cqs → adds t v (cps ++ cqs).
Proof.
  intros [A1 A2 A3 A4] [B1 B2 B3 B4].
  split; [by apply Forall_app|by rewrite B2, A2, <-app_assoc, utf8_of_app| |].
  - rewrite B3, A3, utf8_of_app. vsize.
  - intros k Hk. rewrite (B4 _ (A4 k Hk)). f_equal. unfold dots. rewrite filter_app, length_app. lia.
Qed.

(** one character is added *)
Lemma adds_char t c :
  clean_char c →
  adds t (AddedText (at_text t ++ encode c) (at_added t + vsize (encode c))
    (if c =? 46 then sint 8 (at_dots t + 1) else at_dots t)) [c].
Proof.
  intros Hc. split; cbn [at_text at_added at_dots]; rewrite ?utf8_of_one; [|done..|].
  - by apply Forall_singleton.
  - intros k ->. rewrite dots_cons. change (dots []) with 0.
    destruct (c =? 46); [rewrite sint_add by done|]; f_equal; lia.
Qed.

Lemma find_dot_spec fuel s j limit :
  -1 ≤ limit → j < vsize s → (Z.to_nat (j - limit) ≤ fuel)%nat →
  ∃ d, find_dot fuel s j limit = Some d ∧ (d = -1 ∨ limit < d ≤ j ∧ s⟦d⟧ = Some 46).
Proof.
  revert j. induction fuel as [|fuel IH]; intros j Hl Hj Hf; cbn [find_dot].
  - rewrite (proj2 (Z.ltb_ge _ _)) by lia. eauto.
  - destruct (Z.ltb_spec limit j); [|eauto]. destruct (vget_is_Some s j) as [c Hc]; [lia|].
    rewrite Hc. cbn [mbind option_bind]. destruct (Z.eqb_spec c 46) as [->|].
    + exists j. split; [done|]. right. split; [lia|done].
    + destruct (IH (j - 1)) as (d & Hd & Hcase); [lia..|]. exists d. split; [done|].
      destruct Hcase as [?|[Hr Hs]]; [by left|]. right. split; [lia|done].
Qed.

(** where a text goes on *)
Lemma drop_encode {A} (s e r : list A) i :
  0 ≤ i → drop (Z.to_nat i) s = e ++ r → drop (Z.to_nat (i + vsize e)) s = r.
Proof.
  intros Hi Hs. rewrite Z2Nat.inj_add by (done || apply vsize_nonneg). rewrite <-drop_drop, Hs.
  unfold vsize. by rewrite Nat2Z.id, drop_app_length.
Qed.

Lemma vsize_drop {A} (s : list A) i : 0 ≤ i ≤ vsize s → vsize (drop (Z.to_nat i) s) = vsize s - i.
Proof. intros Hi. unfold vsize in *. rewrite length_drop. lia. Qed.

(** a turn that reads an encoded character *)
Lemma append_turn_char fuel element i found t c r :
  scalar c → 0 ≤ i < vsize element → drop (Z.to_nat i) element = encode c ++ r →
  let go i found t := append_loop fuel element i found t in
  append_loop (S fuel) element i found t =
    if filter_path_character c then go (i + vsize (encode c)) found t
    else if negb (valid_path_character c)
    then go (i + vsize (encode c)) found (underscored t)
    else
      let t := AddedText (at_text t ++ encode c) (at_added t + vsize (encode c))
                 (if c =? 46 then sint 8 (at_dots t + 1) else at_dots t) in
      if (240 <=? at_added t) && negb found then
        dot ← find_dot (length element) element (vsize element - 1) (Z.max (vsize element - 10) i);
        if dot =? -1 then Some t else go (dot - 1 + vsize (encode c)) true t
      else go (i + vsize (encode c)) found t.
Proof.
  intros Hc Hi Hd go. cbn [append_loop]. rewrite (proj2 (Z.ltb_lt i _)) by lia. rewrite Hd, parse_encode by done.
  cbn [mbind option_bind]. destruct Hc as [Hc _]. rewrite (proj2 (Z.leb_le 0 c)), (proj2 (Z.ltb_ge c 0)) by lia.
  cbn [andb orb]. by rewrite take_vsize.
Qed.

(** a turn that reads something else *)
Lemma append_turn_bad fuel element i found t :
  Forall byte element → 0 ≤ i < vsize element → ¬ readable (drop (Z.to_nat i) element) →
  ∃ n, 1 ≤ n ≤ vsize element - i ∧
    append_loop (S fuel) element i found t =
    append_loop fuel element (i + n) found (underscored t).
Proof.
  intros Hb Hi Hr. pose proof (vsize_drop element i ltac:(lia)) as Hs.
  destruct (drop (Z.to_nat i) element) as [|a s] eqn:Hd; [change (vsize []) with 0 in Hs; lia|].
  destruct (parse_spec a s) as [(n & Hp & Hn)|]; [|exists n|done].
  { rewrite <-Hd. by apply Forall_drop. }
  split; [lia|]. cbn [append_loop]. rewrite (proj2 (Z.ltb_lt i _)), Hd, Hp by lia. done.
Qed.

Lemma append_end fuel element i found t : vsize element ≤ i → append_loop fuel element i found t = Some t.
Proof. intros Hi. destruct fuel; cbn [append_loop]; by rewrite (proj2 (Z.ltb_ge _ _)). Qed.

Lemma adds_underscore t : adds t (underscored t) [95].
Proof. apply (adds_char t 95). unfold clean_char, scalar; lia. Qed.

(** the loop ends; what it adds is clean and no longer than what it reads *)
Lemma append_loop_spec fuel element i found t :
  Forall byte element → 0 ≤ i → vsize element - i ≤ Z.of_nat fuel →
  ∃ t' cps, append_loop fuel element i found t = Some t' ∧ adds t t' cps ∧
    vsize (utf8_of cps) ≤ Z.max 0 (vsize element - i).
Proof.
  intros Hb. revert i found t. induction fuel as [|fuel IH]; intros i found t Hi Hf;
    (destruct (Z.lt_ge_cases i (vsize element)) as [Hlt|];
     [|rewrite append_end by done; exists t, []; split; [done|]; split; [apply adds_nil|change (vsize (utf8_of [])) with 0; lia]]).
  { lia. }
  destruct (readable_dec (drop (Z.to_nat i) element)) as [(c & r & Hc & Hd)|Hbad]; [by apply Forall_drop| |].
  - rewrite (append_turn_char fuel element i found t c r) by done. cbv zeta.
    pose proof (encode_size c) as Hn. assert (vsize (encode c) ≤ vsize element - i) as Hle.
    { rewrite <-vsize_drop by lia. rewrite Hd. apply vsize_app_le. }
    set (t1 := AddedText (at_text t ++ encode c) _ _).
    destruct (filter_path_character c) eqn:Hfc.
    { destruct (IH (i + vsize (encode c)) found t) as (t' & cps & -> & ? & ?); [lia..|].
      exists t', cps. split; [done|]; split; [done|]. lia. }
    destruct (valid_path_character c) eqn:Hv; cbn [negb].
    + assert (adds t t1 [c]) as Ht1 by (by apply adds_char, clean_char_code).
      assert (∀ i' found', i + vsize (encode c) ≤ i' →
        ∃ t' cps, append_loop fuel element i' found' t1 = Some t' ∧ adds t t' cps ∧
          vsize (utf8_of cps) ≤ Z.max 0 (vsize element - i)) as Hgo.
      { intros i' found' Hi'. destruct (IH i' found' t1) as (t' & cps & -> & Ha & Hs); [lia..|].
        exists t', ([c] ++ cps). split; [done|]. split; [by eapply adds_trans|].
        rewrite utf8_of_app, utf8_of_one. vsize. }
      destruct ((240 <=? at_added t1) && negb found); [|by apply Hgo].
      destruct (find_dot_spec (length element) element (vsize element - 1) (Z.max (vsize element - 10) i))
        as (d & -> & Hd'); [lia|lia|unfold vsize; lia|]. cbn [mbind option_bind].
      destruct (Z.eqb_spec d (-1)) as [|Hne].
      * exists t1, [c]. split; [done|]. split; [done|]. rewrite utf8_of_one. lia.
      * apply Hgo. lia.
    + destruct (IH (i + vsize (encode c)) found (underscored t)) as (t' & cps & -> & Ha & Hs); [lia..|].
      exists t', ([95] ++ cps). split; [done|]. split; [eapply adds_trans; [apply adds_underscore|done]|].
      rewrite utf8_of_app, utf8_of_one. change (encode 95) with [95]. vsize.
  - destruct (append_turn_bad fuel element i found t Hb ltac:(lia) Hbad) as (n & Hn & ->).
    destruct (IH (i + n) found (underscored t)) as (t' & cps & -> & Ha & Hs); [lia..|].
    exists t', ([95] ++ cps). split; [done|]. split; [eapply adds_trans; [apply adds_underscore|done]|].
    rewrite utf8_of_app, utf8_of_one. change (encode 95) with [95]. vsize.
Qed.

(** ** Short text *)

Definition usable (c : Z) : Prop :=
  scalar c ∧ (filter_path_character c = true ∨ valid_path_character c = true).

Definition kept (cps : list Z) : list Z := filter (λ c, filter_path_character c = false) cps.

Lemma kept_cons c cps : kept (c :: cps) = if filter_path_character c then kept cps else c :: kept cps.
Proof. unfold kept. rewrite filter_cons. by destruct (filter_path_character c). Qed.

Lemma kept_app cps cqs : kept (cps ++ cqs) = kept cps ++ kept cqs.
Proof. apply filter_app. Qed.

Lemma vsize_drop_app {A} (s e r : list A) i :
  0 ≤ i → drop (Z.to_nat i) s = e ++ r → e ≠ [] → 0 ≤ i < vsize s ∧ i + vsize e + vsize r = vsize s.
Proof.
  intros Hi Hs He. assert (length (drop (Z.to_nat i) s) = length e + length r)%nat as Hl
    by (rewrite Hs; apply length_app).
  rewrite length_drop in Hl. unfold vsize. destruct e; [done|]. cbn [length] in *. lia.
Qed.

(** text below the limit is kept, but for the characters that are filtered *)
Lemma append_loop_exact fuel element i found t cps :
  0 ≤ i → vsize element - i ≤ Z.of_nat fuel → drop (Z.to_nat i) element = utf8_of cps →
  Forall usable cps → at_added t + vsize (utf8_of (kept cps)) < 240 →
  ∃ t', append_loop fuel element i found t = Some t' ∧ adds t t' (kept cps).
Proof.
  intros Hi Hf Hd Hu. revert fuel i t Hi Hf Hd. induction Hu as [|c cps [Hc Hv] Hu IH]; intros fuel i t Hi Hf Hd Hlim.
  { exists t. split; [|apply adds_nil]. apply append_end.
    assert (length (drop (Z.to_nat i) element) = 0%nat) as Hl by (by rewrite Hd). rewrite length_drop in Hl.
    unfold vsize. lia. }
  change (utf8_of (c :: cps)) with (encode c ++ utf8_of cps) in Hd. pose proof (encode_size c) as Hn.
  destruct (vsize_drop_app element (encode c) (utf8_of cps) i Hi Hd (encode_some c)) as [Hi' Hsz].
  pose proof (vsize_nonneg (utf8_of cps)). destruct fuel as [|fuel]; [lia|].
  rewrite (append_turn_char fuel element i found t c (utf8_of cps)) by done. cbv zeta.
  pose proof (drop_encode element (encode c) (utf8_of cps) i Hi Hd) as Hd'.
  rewrite kept_cons in *. destruct (filter_path_character c) eqn:Hfc.
  { apply IH; done || lia. }
  assert (valid_path_character c = true) as Hvc by (by destruct Hv). rewrite Hvc. cbn [negb].
  set (t1 := AddedText (at_text t ++ encode c) _ _).
  change (utf8_of (c :: kept cps)) with (encode c ++ utf8_of (kept cps)) in Hlim.
  revert Hlim. vsize. pose proof (vsize_nonneg (utf8_of (kept cps))). intros Hlim.
  rewrite (proj2 (Z.leb_gt 240 (at_added t1))) by (cbn; lia). cbn [andb].
  destruct (IH fuel (i + vsize (encode c)) t1) as (t' & -> & Ht'); [lia|lia|done|cbn; lia|].
  exists t'. split; [done|]. by apply (adds_trans t t1 t' [c]); [apply adds_char, clean_char_code|].
Qed.

(** ** Long text *)

(** what is added of an element that has no character that is replaced *)
Lemma append_loop_limit fuel element i t cps :
  0 ≤ i → vsize element - i ≤ Z.of_nat fuel → drop (Z.to_nat i) element = utf8_of cps →
  Forall usable cps → at_added t < 240 → Forall byte element →
  ∃ t', append_loop fuel element i false t = Some t' ∧ at_added t' < 250.
Proof.
  intros Hi Hf Hd Hu. revert fuel i t Hi Hf Hd. induction Hu as [|c cps [Hc Hv] Hu IH]; intros fuel i t Hi Hf Hd Hlim Hb.
  { exists t. split; [|lia]. apply append_end.
    assert (length (drop (Z.to_nat i) element) = 0%nat) as Hl by (by rewrite Hd). rewrite length_drop in Hl.
    unfold vsize. lia. }
  change (utf8_of (c :: cps)) with (encode c ++ utf8_of cps) in Hd. pose proof (encode_size c) as Hn.
  destruct (vsize_drop_app element (encode c) (utf8_of cps) i Hi Hd (encode_some c)) as [Hi' Hsz].
  pose proof (vsize_nonneg (utf8_of cps)). destruct fuel as [|fuel]; [lia|].
  rewrite (append_turn_char fuel element i false t c (utf8_of cps)) by done. cbv zeta.
  pose proof (drop_encode element (encode c) (utf8_of cps) i Hi Hd) as Hd'.
  destruct (filter_path_character c) eqn:Hfc; [by apply IH; done || lia|].
  assert (valid_path_character c = true) as Hvc by (by destruct Hv). rewrite Hvc. cbn [negb].
  set (t1 := AddedText (at_text t ++ encode c) _ _). rewrite andb_true_r.
  destruct (Z.leb_spec 240 (at_added t1)); [|by apply IH; done || lia].
  destruct (find_dot_spec (length element) element (vsize element - 1) (Z.max (vsize element - 10) i))
    as (d & -> & Hdd); [lia|lia|unfold vsize; lia|]. cbn [mbind option_bind].
  destruct (Z.eqb_spec d (-1)) as [|Hne]; [exists t1; split; [done|cbn; lia]|].
  destruct (append_loop_spec fuel element (d - 1 + vsize (encode c)) true t1 Hb) as (t' & cqs & -> & Ha & Hs); [lia..|].
  exists t'. split; [done|]. rewrite (ads_added _ _ _ Ha). cbn [at_added t1]. lia.
Qed.

(** * The function *)

Definition dotdot : list Z := [46; 46].

(** an element that is safe to put behind a separator *)
Definition safe_element (s : list Z) : Prop := clean s ∧ s ≠ [] ∧ s ≠ dot ∧ s ≠ dotdot.

Definition under (path e : list Z) : list Z := match path with [] => e | _ => path ++ separator :: e end.

(** what is appended: nothing, or a safe element *)
Definition appended (path path' : list Z) : Prop :=
  path' = path ∨ ∃ e, safe_element e ∧ path' = under path e.

Lemma all_dots cps :
  Forall scalar cps → dots cps = vsize (utf8_of cps) → cps = replicate (length cps) 46.
Proof.
  induction 1 as [|c cps Hc Hcps IH]; [done|]. rewrite dots_cons.
  change (utf8_of (c :: cps)) with (encode c ++ utf8_of cps). vsize. pose proof (encode_size c).
  pose proof (dots_range cps Hcps). destruct (Z.eqb_spec c 46) as [->|]; [|lia].
  change (vsize (encode 46)) with 1. intros Hd. cbn [length replicate]. f_equal. apply IH. lia.
Qed.

(** text of dots only, as the code tells it *)
Lemma short_dots cps :
  Forall scalar cps → vsize (utf8_of cps) ≤ 2 →
  vsize (utf8_of cps) = sint 8 (dots cps) ↔ utf8_of cps = [] ∨ utf8_of cps = dot ∨ utf8_of cps = dotdot.
Proof.
  intros Hc Hs. pose proof (dots_range cps Hc) as Hd. rewrite sint_small by (cbn; lia). split.
  - intros He. symmetry in He. apply all_dots in He as Ha; [|done]. rewrite Ha in Hs |- *. clear -Hs.
    destruct (length cps) as [|[|[|n]]]; auto. exfalso. cbn [replicate] in Hs.
    change (utf8_of (46 :: 46 :: 46 :: replicate n 46)) with ([46; 46; 46] ++ utf8_of (replicate n 46)) in Hs.
    revert Hs. vsize. pose proof (vsize_nonneg (utf8_of (replicate n 46))). change (vsize [46; 46; 46]) with 3. lia.
  - assert (scalar 46) as Hdot by (unfold scalar; lia).
    assert (∀ n, utf8_of cps = replicate n 46 → cps = replicate n 46) as Hn.
    { intros n He. apply (utf8_inj (utf8_of cps)); [done|]. split; [by apply Forall_replicate|].
      rewrite He. clear. induction n; [done|]. cbn. by f_equal. }
    intros [He|[He|He]]; [rewrite (Hn 0%nat He)|rewrite (Hn 1%nat He)|rewrite (Hn 2%nat He)]; done.
Qed.

Lemma erase_back_app s t n : n = vsize t → erase_back (s ++ t) n = Some s.
Proof.
  intros ->. unfold erase_back. rewrite (proj2 (Z.leb_le _ _)) by (vsize; pose proof (vsize_nonneg s); lia).
  f_equal. replace (vsize (s ++ t) - vsize t) with (vsize s) by vsize. apply take_vsize.
Qed.

(** the text that an element becomes; it is appended unless it is short dots *)
Lemma sanitize_spec path element :
  Forall byte element → element ≠ dot → element ≠ [] →
  ∃ t cps, append_loop (length element) element 0 false (AddedText [] 0 0) = Some t ∧
    at_text t = utf8_of cps ∧ Forall clean_char cps ∧ at_added t = vsize (utf8_of cps) ∧
    vsize (utf8_of cps) ≤ vsize element ∧
    let e := utf8_of cps in
    sanitize_append_path_element path element =
      Some (if decide (e = [] ∨ e = dot ∨ e = dotdot) then path else under path e).
Proof.
  intros Hb Hd Hne.
  destruct (append_loop_spec (length element) element 0 false (AddedText [] 0 0) Hb) as (t & cps & Hrun & [Hc Ht Ha Hdots] & Hs);
    [done|unfold vsize; lia|]. exists t, cps. cbn [at_text at_added at_dots app] in *.
  specialize (Hdots 0 eq_refl). rewrite Z.add_0_l in *. split; [done|]. split; [done|]. split; [done|].
  split; [done|]. split; [pose proof (vsize_nonneg element); lia|]. cbv zeta.
  unfold sanitize_append_path_element. unfold same_string. rewrite (bool_decide_eq_false_2 _ Hd).
  destruct element as [|c element]; [done|]. rewrite Hrun. cbn [mbind option_bind].
  rewrite Ht, Ha, Hdots. set (e := utf8_of cps). pose proof (short_dots cps (clean_scalars _ Hc)) as Hsh. fold e in Hsh.
  destruct (decide (e = [] ∨ e = dot ∨ e = dotdot)) as [Hdot|Hdot].
  - assert (vsize e ≤ 2) as H2 by (by destruct Hdot as [-> |[-> | ->]]).
    rewrite (proj2 (Z.eqb_eq _ _)), (proj2 (Z.leb_le _ _)) by (done || by apply Hsh). cbn [andb].
    destruct path as [|p path]; [rewrite Z.add_0_r; by apply (erase_back_app [])|].
    rewrite <-app_assoc. apply erase_back_app. vsize.
  - replace ((vsize e =? sint 8 (dots cps)) && (vsize e <=? 2)) with false.
    2:{ symmetry. apply andb_false_iff. destruct (Z.leb_spec (vsize e) 2); [left|by right].
        apply Z.eqb_neq. by intros ?%Hsh. }
    unfold under. destruct path as [|p path]; [|by rewrite <-app_assoc].
    cbn [app]. destruct e; [by destruct Hdot; left|done].
Qed.

Lemma sanitize_appended path element :
  Forall byte element → ∃ path', sanitize_append_path_element path element = Some path' ∧ appended path path'.
Proof.
  intros Hb. destruct (decide (element = dot)) as [->|Hd]; [by exists path; split; [|left]|].
  destruct element as [|c element].
  { exists (under path [95]). split; [unfold sanitize_append_path_element, under; destruct path; [done|cbn; by rewrite <-app_assoc]|].
    right. exists [95]. split; [|done]. split; [apply clean_underscore|done]. }
  destruct (sanitize_spec path (c :: element) Hb Hd) as (t & cps & _ & _ & Hc & _ & _ & ->); [done|].
  eexists. split; [done|]. case_decide as Hn; [by left|]. right. exists (utf8_of cps). split; [|done].
  split; [by exists cps|]. tauto.
Qed.

(** ** Clean elements are kept *)

Lemma kept_clean cps : Forall clean_char cps → kept cps = cps.
Proof.
  induction 1 as [|c cps (_ & Hf & _)%clean_char_code _ IH]; [done|]. by rewrite kept_cons, Hf, IH.
Qed.

Lemma usable_clean cps : Forall clean_char cps → Forall usable cps.
Proof. intros H. eapply Forall_impl; [exact H|]. intros c (Hc & _ & Hv)%clean_char_code. split; [done|by right]. Qed.

Lemma sanitize_safe path e :
  safe_element e → vsize e < 240 → sanitize_append_path_element path e = Some (under path e).
Proof.
  intros ((cps & -> & Hc) & Hne & Hd & Hdd) Hs.
  assert (Forall byte (utf8_of cps)) as Hb by (apply utf8_bytes, clean_scalars, Hc).
  destruct (sanitize_spec path (utf8_of cps) Hb Hd Hne) as (t & cqs & Hrun & Ht & Hcq & _ & _ & ->).
  destruct (append_loop_exact (length (utf8_of cps)) (utf8_of cps) 0 false (AddedText [] 0 0) cps)
    as (t' & Hrun' & Ha); [done|unfold vsize; lia|done|by apply usable_clean| |].
  { rewrite kept_clean by done. cbn. lia. }
  rewrite kept_clean in Ha by done. rewrite Hrun in Hrun'. injection Hrun' as <-.
  pose proof (ads_text _ _ _ Ha) as He. cbn [at_text app] in He. rewrite Ht in He. rewrite He.
  by rewrite decide_False by tauto.
Qed.

(** ** The end of a clean path *)

Lemma encode_tail c p w : scalar c → encode c = p ++ w → p ≠ [] → Forall continuation w ∧ (length w ≤ 3)%nat.
Proof.
  intros Hc He Hp. pose proof (encode_legal c Hc) as Hl. pose proof (encode_size c) as Hs. rewrite He in Hl, Hs.
  destruct p as [|a p]; [done|]. split.
  - cbn [app] in Hl. destruct (p ++ w) as [|b r] eqn:Hpw; [by apply app_nil in Hpw as [_ ->]|].
    destruct Hl as (_ & _ & Hl). rewrite <-Hpw in Hl. by apply Forall_app in Hl as [_ Hl].
  - unfold vsize in Hs. rewrite length_app in Hs. cbn [length] in Hs. lia.
Qed.

(** the end of encoded characters: what is left of one, and those behind it *)
Lemma utf8_suffix cps p s :
  Forall scalar cps → utf8_of cps = p ++ s →
  ∃ w front cqs, s = w ++ utf8_of cqs ∧ cps = front ++ cqs ∧ Forall continuation w ∧ (length w ≤ 3)%nat.
Proof.
  intros Hc. revert p. induction Hc as [|c cps Hc Hcps IH]; intros p He.
  { exists [], [], []. symmetry in He. apply app_nil in He as [_ ->]. repeat split; try done. cbn. lia. }
  change (utf8_of (c :: cps)) with (encode c ++ utf8_of cps) in He.
  apply app_eq_inv in He as [(m & Hm & ->)|(m & -> & Hm)].
  - destruct p as [|a p].
    + exists [], [], (c :: cps). cbn [app] in Hm. subst m. repeat split; try done. cbn. lia.
    + destruct (encode_tail c (a :: p) m Hc Hm) as [Hw Hlen]; [done|]. exists m, [c], cps. done.
  - destruct (IH m Hm) as (w & front & cqs & -> & -> & Hw & Hlen). by exists w, (c :: front), cqs.
Qed.

Lemma parse_stray a s : continuation a → parse_utf8_codepoint (a :: s) = Some (-1, 1).
Proof.
  intros Ha. assert (byte a) as Hb by (unfold byte, continuation in *; lia). unfold parse_utf8_codepoint.
  change ((a :: s)⟦0⟧) with (Some a). cbn [mbind option_bind]. rewrite trailing_table by done.
  unfold trailing_of. rewrite (proj2 (Z.ltb_lt a 192)) by (unfold continuation in Ha; lia).
  cbn [mbind option_bind]. change (0 + 1) with 1. rewrite (proj2 (Z.ltb_ge _ 1)) by (vsize; pose proof (vsize_nonneg s); lia).
  rewrite isLegalUTF8_one by (done || unfold continuation in Ha; lia). unfold continuation in Ha.
  rewrite bool_decide_eq_false_2; [done|]. cbn. lia.
Qed.

(** each byte of a piece that is read alone takes a turn *)
Lemma append_loop_stray fuel element i found t w s :
  Forall continuation w → 0 ≤ i → drop (Z.to_nat i) element = w ++ s →
  ∃ t', append_loop (length w + fuel) element i found t = append_loop fuel element (i + vsize w) found t' ∧
    adds t t' (replicate (length w) 95).
Proof.
  intros Hw. revert i t. induction Hw as [|a w Ha Hw IH]; intros i t Hi Hd.
  { exists t. split; [cbn [length Nat.add]; f_equal; change (vsize []) with 0; lia|apply adds_nil]. }
  destruct (vsize_drop_app element [a] (w ++ s) i Hi Hd ltac:(done)) as [Hi' _].
  destruct (IH (i + 1) (underscored t)) as (t' & Hrun & Ha'); [lia|by apply (drop_encode element [a])|].
  exists t'. split; [|by apply (adds_trans t (underscored t) t' [95]); [apply adds_underscore|]].
  cbn [length Nat.add append_loop]. rewrite (proj2 (Z.ltb_lt i _)), Hd by lia. cbn [app].
  rewrite parse_stray by done. cbn [mbind option_bind Z.leb Z.compare andb Z.ltb orb]. rewrite Hrun.
  f_equal. vsize.
Qed.

Lemma append_loop_slashes fuel element i found t n s :
  0 ≤ i → drop (Z.to_nat i) element = replicate n 47 ++ s →
  append_loop (n + fuel) element i found t = append_loop fuel element (i + Z.of_nat n) found t.
Proof.
  revert i. induction n as [|n IH]; intros i Hi Hd; [by rewrite Z.add_0_r|].
  destruct (vsize_drop_app element [47] (replicate n 47 ++ s) i Hi Hd ltac:(done)) as [Hi' _].
  cbn [Nat.add]. rewrite (append_turn_char _ element i found t 47 (replicate n 47 ++ s)) by (done || unfold scalar; lia).
  change (filter_path_character 47) with true. cbv zeta iota. change (vsize (encode 47)) with 1.
  rewrite IH; [f_equal; lia|lia|]. by apply (drop_encode element [47]).
Qed.

(** * The name that is borrowed *)

Lemma strip_separators_spec s :
  ∃ n, s = replicate n 47 ++ strip_separators s ∧ head (strip_separators s) ≠ Some separator.
Proof.
  induction s as [|c s (n & Hs & Hh)]; [by exists 0%nat|]. cbn [strip_separators]. unfold is_separator, separator in *.
  destruct (Z.eqb_spec c 47) as [->|Hne].
  - exists (S n). split; [cbn [replicate app]; by f_equal|done].
  - exists 0%nat. split; [done|]. cbn. congruence.
Qed.

(** characters of a clean path *)
Definition path_char (c : Z) : Prop := clean_char c ∨ c = 47.

Lemma path_char_usable c : path_char c → usable c.
Proof.
  intros [(Hc & _ & Hv)%clean_char_code| ->]; [split; [done|by right]|]. split; [unfold scalar; lia|by left].
Qed.

Lemma join_chars l : Forall clean l → ∃ cps, join l = utf8_of cps ∧ Forall path_char cps.
Proof.
  assert (∀ s, clean s → ∃ cps, s = utf8_of cps ∧ Forall path_char cps) as Hs.
  { intros s (cps & -> & Hc). exists cps. split; [done|]. eapply Forall_impl; [exact Hc|]. by left. }
  induction 1 as [|s l Hcs Hl (cqs & Hj & Hq)]; [by exists []|]. destruct (Hs s Hcs) as (cps & He & Hc).
  destruct l as [|x l]; [by exists cps|]. rewrite join_cons, Hj, He by done. exists (cps ++ 47 :: cqs). split.
  - rewrite utf8_of_app. done.
  - apply Forall_app. split; [done|]. constructor; [by right|done].
Qed.

(** the text that is added for slashes, a rest of a character and characters *)
Lemma text_of_name n w cqs :
  Forall continuation w → Forall path_char cqs → vsize (w ++ utf8_of cqs) < 240 →
  let raw := replicate n 47 ++ w ++ utf8_of cqs in
  ∃ t, append_loop (length raw) raw 0 false (AddedText [] 0 0) = Some t ∧
    at_text t = utf8_of (replicate (length w) 95 ++ kept cqs).
Proof.
  intros Hw Hq Hs raw. unfold raw at 1. rewrite length_app, length_replicate, length_app.
  rewrite (append_loop_slashes _ raw 0 false _ n (w ++ utf8_of cqs)) by done. rewrite Z.add_0_l.
  assert (drop (Z.to_nat (Z.of_nat n)) raw = w ++ utf8_of cqs) as Hd.
  { rewrite Nat2Z.id. unfold raw. by rewrite drop_app_length' by (by rewrite length_replicate). }
  destruct (append_loop_stray (length (utf8_of cqs)) raw (Z.of_nat n) false (AddedText [] 0 0) w (utf8_of cqs))
    as (t1 & -> & H1); [done|lia|done|].
  assert (Forall usable cqs) as Hu by (eapply Forall_impl; [exact Hq|apply path_char_usable]).
  assert (vsize (utf8_of (kept cqs)) ≤ vsize (utf8_of cqs)) as Hk.
  { clear. induction cqs as [|c cqs IH]; [done|]. rewrite kept_cons.
    change (utf8_of (c :: cqs)) with (encode c ++ utf8_of cqs). pose proof (encode_size c).
    destruct (filter_path_character c); [vsize|].
    change (utf8_of (c :: kept cqs)) with (encode c ++ utf8_of (kept cqs)). vsize. }
  assert (vsize (utf8_of (replicate (length w) 95)) = vsize w) as Hw95.
  { clear. induction w as [|a w IH]; [done|]. cbn [length replicate].
    change (utf8_of (95 :: replicate (length w) 95)) with ([95] ++ utf8_of (replicate (length w) 95)). vsize. }
  destruct (append_loop_exact (length (utf8_of cqs)) raw (Z.of_nat n + vsize w) false t1 cqs) as (t & -> & H2).
  - pose proof (vsize_nonneg w). lia.
  - unfold raw, vsize. rewrite !length_app, length_replicate. lia.
  - by apply drop_encode; [lia|].
  - done.
  - rewrite (ads_added _ _ _ H1). cbn [at_added]. revert Hs. vsize.
  - exists t. split; [done|]. by rewrite (ads_text _ _ _ H2), (ads_text _ _ _ H1), utf8_of_app.
Qed.

(** the last separator *)
Lemma last_split {A} `{EqDecision A} (c : A) (l : list A) : c ∉ l ∨ ∃ u v, l = u ++ c :: v ∧ c ∉ v.
Proof.
  induction l as [|x l [IH|(u & v & -> & Hv)]]; [left; apply not_elem_of_nil| |].
  - destruct (decide (x = c)) as [->|Hne]; [right; by exists [], l|]. left. apply not_elem_of_cons. naive_solver.
  - right. by exists (x :: u), v.
Qed.

Lemma last_split_inj (c : Z) s t s' t' : c ∉ t → c ∉ t' → s ++ c :: t = s' ++ c :: t' → s = s' ∧ t = t'.
Proof.
  intros Ht Ht' He. pose proof (find_last_of_app s c t Ht) as H1. rewrite He, find_last_of_app in H1 by done.
  injection H1 as Hs. apply app_inj_1 in He as [-> He]; [|unfold vsize in Hs; lia]. by injection He.
Qed.

Lemma path_bytes cps : Forall path_char cps → 47 ∉ cps → 47 ∉ utf8_of cps.
Proof.
  intros Hp Hn. assert (clean (utf8_of cps)) as Hc.
  { exists cps. split; [done|]. rewrite Forall_forall in Hp |- *. intros c Hin. by destruct (Hp c Hin) as [| ->]. }
  intros Hin. apply clean_byte in Hin; [|done|lia]. unfold clean_char in Hin. tauto.
Qed.

(** what remains of text that is all separators *)
Lemma kept_nil cps : Forall path_char cps → kept cps = [] → cps = replicate (length cps) 47.
Proof.
  induction 1 as [|c cps Hc Hcps IH]; [done|]. rewrite kept_cons. destruct Hc as [(_ & -> & _)%clean_char_code| ->]; [done|].
  change (filter_path_character 47) with true. cbv iota. intros Hk. cbn [length replicate]. f_equal. by apply IH.
Qed.

Lemma utf8_of_nil cps : utf8_of cps = [] → cps = [].
Proof.
  destruct cps as [|c cps]; [done|]. change (utf8_of (c :: cps)) with (encode c ++ utf8_of cps).
  intros Hn. apply app_nil in Hn as [Hn _]. by apply encode_some in Hn.
Qed.

(** the parts of a name that ends a clean path *)
Lemma name_parts k p raw :
  Forall clean k → let F := strip_separators raw in
  join k = p ++ F → F ≠ [] → vsize F < 240 →
  ∃ w cqs t, F = w ++ utf8_of cqs ∧ Forall path_char cqs ∧ 
    append_loop (length raw) raw 0 false (AddedText [] 0 0) = Some t ∧
    at_text t = utf8_of (replicate (length w) 95 ++ kept cqs).
Proof.
  intros Hk F Hj Hne Hs. destruct (join_chars k Hk) as (cps & Hcps & Hpc). rewrite Hcps in Hj.
  assert (Forall scalar cps) as Hsc by (eapply Forall_impl; [exact Hpc|]; intros c Hc; apply (path_char_usable c Hc)).
  destruct (utf8_suffix cps p F Hsc Hj) as (w & front & cqs & HF & -> & Hw & _).
  apply Forall_app in Hpc as [_ Hq]. destruct (strip_separators_spec raw) as (n & Hraw & _). fold F in Hraw.
  rewrite HF in Hs. destruct (text_of_name n w cqs Hw Hq Hs) as (t & Hrun & Ht). cbv zeta in Hrun.
  rewrite <-HF, <-Hraw in Hrun. by exists w, cqs, t.
Qed.

Definition underscores (n : nat) : list Z := utf8_of (replicate n 95).

Lemma underscores_eq n : underscores n = replicate n 95.
Proof.
  induction n as [|n IH]; [done|]. unfold underscores in *. cbn [replicate].
  change (utf8_of (95 :: replicate n 95)) with (95 :: utf8_of (replicate n 95)). by f_equal.
Qed.

Lemma join_ends k x : ∃ p, join (k ++ [x]) = p ++ x.
Proof.
  destruct k as [|y k]; [by exists []|]. rewrite join_snoc by done.
  exists (join (y :: k) ++ [separator]). by rewrite <-app_assoc.
Qed.

Lemma kept_no_slash cps : Forall path_char cps → 47 ∉ cps → kept cps = cps.
Proof.
  intros Hp Hn. apply kept_clean. rewrite Forall_forall in Hp |- *. intros c Hc. by destruct (Hp c Hc) as [| ->].
Qed.

Lemma app_self_nil {A} (s t : list A) : s ++ t = t → s = [].
Proof. intros He. apply (app_inj_2 s [] t t); [done|]. done. Qed.

(** only dots end in dots *)
Lemma dots_suffix e s x : e = [] ∨ e = dot ∨ e = dotdot → e = s ++ x → x = [] ∨ x = dot ∨ x = dotdot.
Proof.
  unfold dot, dotdot. intros He Hs. destruct s as [|a [|b s]]; cbn [app] in Hs.
  - by subst.
  - destruct He as [-> |[-> | ->]]; simplify_eq; auto.
  - destruct He as [-> |[-> | ->]]; [done|done|]. injection Hs as _ _ Hs. symmetry in Hs. apply app_nil in Hs as [_ ->]. by left.
Qed.

Section name.
Context (k0 : list (list Z)) (x p F w cqs e : list Z).
Context (Hx : safe_element x) (Hj : join (k0 ++ [x]) = p ++ F) (HF : F = w ++ utf8_of cqs)
  (Hq : Forall path_char cqs) (He : e = replicate (length w) 95 ++ utf8_of (kept cqs))
  (Hcase : x = e ∨ e = [] ∨ e = dot ∨ e = dotdot).

(** the name is in the last element *)
Lemma name_in_last : 47 ∉ cqs → F = e.
Proof.
  intros Hno. rewrite (kept_no_slash cqs Hq Hno) in He. destruct Hcase as [->|Hd].
  - destruct (join_ends k0 e) as (p' & Hj'). rewrite Hj' in Hj. apply app_inj_2 in Hj as [_ ->]; [done|].
    rewrite HF, He, !length_app, length_replicate. done.
  - destruct w as [|a w']; [by rewrite HF, He|]. exfalso. by destruct Hd as [Hd|[Hd|Hd]]; rewrite Hd in He.
Qed.

(** it is not longer *)
Lemma name_not_longer u v : cqs = u ++ 47 :: v → 47 ∉ v → head F = Some separator.
Proof.
  intros -> Hv. apply Forall_app in Hq as [Hu Hq']. apply Forall_cons in Hq' as [_ Hqv].
  pose proof (path_bytes v Hqv Hv) as Hvb.
  assert (47 ∉ x) as Hxs by (destruct Hx as (Hc & Hn & _); by apply (clean_element x Hc Hn)).
  assert (utf8_of (u ++ 47 :: v) = utf8_of u ++ 47 :: utf8_of v) as Hu8 by (by rewrite utf8_of_app).
  rewrite Hu8 in HF. rewrite kept_app, kept_cons, (kept_no_slash v Hqv Hv) in He.
  change (filter_path_character 47) with true in He. cbv iota in He. rewrite utf8_of_app in He.
  assert (x = utf8_of v) as ->.
  { rewrite HF, app_assoc, app_assoc in Hj. destruct k0 as [|y k1].
    - exfalso. apply Hxs. cbn [app join] in Hj. rewrite Hj. apply elem_of_app. right. apply list_elem_of_here.
    - rewrite join_snoc in Hj by done. by apply last_split_inj in Hj as [_ ->]. }
  destruct Hcase as [Hc|Hd].
  - rewrite <-Hc, app_assoc in He. symmetry in He. apply app_self_nil, app_nil in He as [Hw Hk].
    apply utf8_of_nil, kept_nil in Hk as Hu47; [|done]. rewrite HF. destruct w; [|done].
    rewrite Hu47. destruct (length u); done.
  - exfalso. rewrite app_assoc in He. apply dots_suffix in He; [|done]. destruct Hx as (_ & ? & ? & ?). tauto.
Qed.
End name.

(** a name that ends a clean path, with the text [e] that it became: it is
    that text, or it is dots *)
Lemma name_is_text k p raw e t :
  k ≠ [] → Forall safe_element k → let F := strip_separators raw in
  join k = p ++ F → F ≠ [] → vsize F < 240 →
  append_loop (length raw) raw 0 false (AddedText [] 0 0) = Some t → at_text t = e →
  list.last k = Some e ∨ e = [] ∨ e = dot ∨ e = dotdot → F = e.
Proof.
  intros Hkn Hk F Hj Hne Hs Hrun He Hcase.
  assert (Forall clean k) as Hkc by (eapply Forall_impl; [exact Hk|]; by intros s [? _]).
  destruct (name_parts k p raw Hkc Hj Hne Hs) as (w & cqs & t' & HF & Hq & Hrun' & Ht).
  fold F in HF. rewrite Hrun in Hrun'. injection Hrun' as <-. rewrite He, utf8_of_app in Ht.
  fold (underscores (length w)) in Ht. rewrite underscores_eq in Ht. clear Hrun He.
  destruct (exists_last Hkn) as (k0 & x & ->). apply Forall_app in Hk as [_ Hx]. apply Forall_cons in Hx as [Hx _].
  rewrite last_snoc in Hcase.
  assert (x = e ∨ e = [] ∨ e = dot ∨ e = dotdot) as Hc' by (destruct Hcase as [[= ->]|]; auto).
  destruct (last_split 47 cqs) as [Hno|(u & v & Hu & Hv)].
  - eapply name_in_last; eauto.
  - exfalso. destruct (strip_separators_spec raw) as (_ & _ & Hh). apply Hh. fold F.
    eapply name_not_longer; eauto.
Qed.
