(* ===== verification/TorrentInfo.v ===== *)
(** Model of [torrent_info::parse_info_section] of
    src/btdownloader/torrent/torrent_info.cpp, with the functions that read the
    files of a torrent from its info dictionary, and of merkle.cpp.

    A function that reports an error through an [error_code] and returns false
    gives [failed], with the error, or none when it returns false and sets no
    error; [None] is undefined behaviour.  The pointers into the copy of the
    info section are offsets into it; the names and the digests that a
    [file_storage] borrows are what they point to.  [hasher] is CommonCrypto's
    on the systems of Apple: the class [Sha1]. *)

From Stdlib Require Import String.
From S2P Require Import Prelude.
From S2P Require Import StringUtil.
From S2P Require Import Path.
From S2P Require Import Bdecode.
From S2P Require Import BdecodeNode.
From S2P Require Import FileStorage.
From S2P Require Import FileSymlinks.
From S2P Require Import TorrentPath.

Open Scope Z_scope.

(** * merkle.cpp *)

Definition merkle_get_parent (tree_node : Z) : Z := Z.quot (tree_node - 1) 2.

Definition merkle_get_sibling (tree_node : Z) : Z :=
  tree_node + (if negb (Z.land tree_node 1 =? 0) then 1 else -1).

Definition merkle_num_nodes (leafs : Z) : Z := Z.shiftl leafs 1 - 1.

(** the loop; shifting a number into the sign is undefined *)
Fixpoint leafs_loop (fuel : nat) (pieces ret : Z) : option Z :=
  if ret <? pieces then
    match fuel with
    | O => None
    | S fuel => if ret <? 2 ^ 30 then leafs_loop fuel pieces (Z.shiftl ret 1) else None
    end
  else Some ret.

Definition merkle_num_leafs (pieces : Z) : option Z := leafs_loop 31 pieces 1.

(** * Errors *)

Inductive torrent_error :=
  | torrent_info_no_dict | metadata_too_large | torrent_missing_piece_length | torrent_missing_name
  | torrent_invalid_name | torrent_invalid_length | torrent_file_parse_failed | no_files_in_torrent
  | too_many_pieces_in_torrent | torrent_missing_pieces | torrent_invalid_hashes.

Inductive res (A : Type) :=
  | ok (x : A)
  | failed (ec : option torrent_error).
Arguments ok {A} _.
Arguments failed {A} _.

Definition fail {A} (ec : torrent_error) : option (res A) := Some (failed (Some ec)).

(** the next step, unless one failed *)
Definition try {A B} (m : option (res A)) (k : A → option (res B)) : option (res B) :=
  r ← m; match r with ok x => k x | failed ec => Some (failed ec) end.

Declare Scope torrent_scope.
Notation "x ⇐ m ; k" := (try m (λ x, k)) (at level 20, m at level 100, k at level 200) : torrent_scope.
Notation "' p ⇐ m ; k" := (try m (λ x, match x with p => k end))
  (at level 20, p pattern, m at level 100, k at level 200) : torrent_scope.
Open Scope torrent_scope.

(** * Loops over a list *)

(** [k] items from [i] on, with the node that keeps the caches *)
Section for_items.
Context {T : Type} (body : bdecode_node → Z → T → option (bdecode_node * res T)).

Fixpoint for_items (k : nat) (n : bdecode_node) (i : Z) (s : T) : option (bdecode_node * res T) :=
  match k with
  | O => Some (n, ok s)
  | S k =>
      '(n, r) ← body n i s;
      match r with ok s => for_items k n (i + 1) s | failed ec => Some (n, failed ec) end
  end.
End for_items.

(** [for (int i = 0, end(n.list_size()); i < end; ++i)] *)
Definition for_list {T} (body : bdecode_node → Z → Z → T → option (bdecode_node * res T))
    (n : bdecode_node) (s : T) : option (bdecode_node * res T) :=
  '(n, len) ← list_size n;
  for_items (λ n i s, body n len i s) (Z.to_nat len) n 0 s.

Definition is_string (n : bdecode_node) : option bool := is_type tok_string (node_type n).

(** * A file *)

Definition attribute_flag (file_flags c : Z) : Z :=
  if c =? 108 then Z.lor file_flags flag_symlink
  else if c =? 120 then Z.lor file_flags flag_executable
  else if c =? 104 then Z.lor file_flags flag_hidden
  else if c =? 112 then Z.lor file_flags flag_pad_file
  else file_flags.

Definition get_file_attributes (dict : bdecode_node) : option Z :=
  attr ← dict_find_string dict (bytes_of "attr");
  if operator_bool attr then s ← string_value attr; Some (fold_left attribute_flag s 0) else Some 0.

Definition path_length (p : bdecode_node) : option (bdecode_node * res Z) :=
  '(p, r) ← for_list (λ p _ i ret,
    '(p, e) ← list_at p i;
    b ← is_string e;
    if (b : bool) then l ← string_length e; Some (p, ok (ret + l))
    else Some (p, failed (Some torrent_invalid_name))) p 0;
  '(p, len) ← list_size p;
  Some (p, match r with ok ret => ok (ret + len) | failed ec => failed ec end).

(** the loop over the elements of a path: the path and the last name *)
Definition path_elements (p : bdecode_node) (path : list Z) : option (res (list Z * list Z)) :=
  '(_, r) ← for_list (λ p len i s,
    '(p, e) ← list_at p i;
    v ← string_value e;
    path ← sanitize_append_path_element s.1 v;
    Some (p, ok (path, if i =? len - 1 then strip_separators v else s.2))) p (path, []);
  Some r.

Definition symlink_elements (p : bdecode_node) : option (res (list Z)) :=
  '(_, r) ← for_list (λ p _ i s,
    '(p, e) ← list_at p i;
    v ← string_value e;
    path ← sanitize_append_path_element s v;
    Some (p, ok path)) p [];
  Some r.

(** [dict.dict_find_list(key ".utf-8")], or without *)
Definition find_utf8 (find : bdecode_node → list Z → option bdecode_node) (dict : bdecode_node) (key : list Z)
    : option bdecode_node :=
  p ← find dict (key ++ bytes_of ".utf-8");
  if operator_bool p then Some p else find dict key.

(** the path of a file of a torrent with one file, and its name *)
Definition top_level_path (dict : bdecode_node) (path : list Z) : option (res (list Z * list Z)) :=
  p ← find_utf8 dict_find_string dict (bytes_of "name");
  len ← (if operator_bool p then string_length p else Some 0);
  if len =? 0 then fail torrent_missing_name
  else
    v ← string_value p;
    path ← sanitize_append_path_element path v;
    match path with [] => fail torrent_missing_name | _ => Some (ok (path, strip_separators v)) end.

(** the path of a file of a list, and its name; the number of pad files without
    a path *)
Definition listed_path (dict : bdecode_node) (root_dir : list Z) (file_flags pad_file_cnt : Z)
    : option (res (list Z * list Z * Z)) :=
  p ← find_utf8 dict_find_list dict (bytes_of "path");
  '(p, len) ← (if operator_bool p then list_size p else Some (p, 0));
  if 0 <? len then
    '(p, r) ← path_length p;
    _ ⇐ Some r;
    '(path, filename) ⇐ path_elements p root_dir;
    Some (ok (if vsize path =? vsize root_dir then path ++ [separator] ++ [95] else path, filename, pad_file_cnt))
  else if has_flag file_flags flag_pad_file then
    let cnt := take 9 (dec_string pad_file_cnt) in
    Some (ok (combine_path (bytes_of ".pad") cnt, [], pad_file_cnt + 1))
  else fail torrent_missing_name.

Definition pad_file_name : list Z := bytes_of "_____padding_file_".

Definition symlink_target (dict : bdecode_node) (file_flags : Z) : option (res (list Z)) :=
  if has_flag file_flags flag_symlink then
    s_p ← dict_find_list dict (bytes_of "symlink path");
    if operator_bool s_p then
      '(s_p, r) ← path_length s_p;
      _ ⇐ Some r;
      symlink_elements s_p
    else Some (ok [])
  else Some (ok []).

(** the name is borrowed when the path ends with it *)
Definition borrowed_name (path filename : list Z) : list Z :=
  if (vsize path <? vsize filename)
     || negb (same_string (drop (Z.to_nat (vsize path - vsize filename)) path) filename)
  then [] else filename.

Definition extract_single_file (dict : bdecode_node) (files : file_storage) (root_dir : list Z)
    (top_level : bool) (pad_file_cnt : Z) : option (res (file_storage * Z)) :=
  ty ← node_type dict;
  if negb (bool_decide (ty = tok_dict)) then Some (failed None)
  else
    file_flags ← get_file_attributes dict;
    file_size ← (if has_flag file_flags flag_symlink then Some 0
                 else dict_find_int_value dict (bytes_of "length") (-1));
    if file_size <? 0 then fail torrent_invalid_length
    else
      mtime ← dict_find_int_value dict (bytes_of "mtime") 0;
      '(path, filename, pad_file_cnt) ⇐
        (if top_level
         then '(path, filename) ⇐ top_level_path dict root_dir; Some (ok (path, filename, pad_file_cnt))
         else listed_path dict root_dir file_flags pad_file_cnt);
      let file_flags := if search pad_file_name path =? -1 then file_flags
                        else Z.lor file_flags flag_pad_file in
      fh ← dict_find_string dict (bytes_of "sha1");
      len ← (if operator_bool fh then string_length fh else Some 0);
      filehash ← (if len =? 20 then v ← string_value fh; Some (Some v) else Some None);
      symlink_path ⇐ symlink_target dict file_flags;
      files ← add_file_borrow files (borrowed_name path filename) path file_size file_flags filehash
                mtime symlink_path;
      Some (ok (files, pad_file_cnt)).

Definition extract_files (files_list : bdecode_node) (target : file_storage) (root_dir : list Z)
    : option (res file_storage) :=
  ty ← node_type files_list;
  if negb (bool_decide (ty = tok_list)) then fail torrent_file_parse_failed
  else
    '(_, r) ← for_list (λ n _ i s,
      '(n, e) ← list_at n i;
      r ← extract_single_file e s.1 root_dir false s.2;
      Some (n, r)) files_list (target, 0);
    s ⇐ Some r;
    files ← sanitize_symlinks s.1;
    Some (ok files).

Definition int32_max : Z := 2 ^ 31 - 1.

(** * The info section *)

(** [hasher(section).final()] *)
Class Sha1 := sha1 : list Z → list Z.

Definition multifile : Z := 1.
Definition private_torrent : Z := 2.
Definition ssl_torrent : Z := 8.

(** the members that the info section is read into *)
Record torrent_info := TorrentInfo {
  ti_files : file_storage;
  ti_similar_torrents : list Z;        (* offsets in the info section *)
  ti_collections : list (Z * Z);       (* offsets and lengths *)
  ti_merkle_tree : list (list Z);
  ti_info_section : list Z;
  ti_piece_hashes : option Z;          (* offset, or null *)
  ti_info_hash : list Z;
  ti_merkle_first_leaf : Z;
  ti_flags : Z                         (* 8 bits *)
}.

Definition new_torrent_info : torrent_info :=
  TorrentInfo new_file_storage [] [] [] [] None (replicate 20 0) 0 0.

Definition set_ti_files (ti : torrent_info) (fs : file_storage) : torrent_info :=
  TorrentInfo fs (ti_similar_torrents ti) (ti_collections ti) (ti_merkle_tree ti) (ti_info_section ti)
    (ti_piece_hashes ti) (ti_info_hash ti) (ti_merkle_first_leaf ti) (ti_flags ti).

Definition set_ti_section (ti : torrent_info) (section info_hash : list Z) : torrent_info :=
  TorrentInfo (ti_files ti) (ti_similar_torrents ti) (ti_collections ti) (ti_merkle_tree ti) section
    (ti_piece_hashes ti) info_hash (ti_merkle_first_leaf ti) (ti_flags ti).

Definition set_ti_flags (ti : torrent_info) (flags : Z) : torrent_info :=
  TorrentInfo (ti_files ti) (ti_similar_torrents ti) (ti_collections ti) (ti_merkle_tree ti) (ti_info_section ti)
    (ti_piece_hashes ti) (ti_info_hash ti) (ti_merkle_first_leaf ti) (uint 8 flags).

Definition set_ti_hashes (ti : torrent_info) (hashes : option Z) (tree : list (list Z)) (first_leaf : Z)
    : torrent_info :=
  TorrentInfo (ti_files ti) (ti_similar_torrents ti) (ti_collections ti) tree (ti_info_section ti)
    hashes (ti_info_hash ti) first_leaf (ti_flags ti).

Definition set_ti_related (ti : torrent_info) (similar : list Z) (collections : list (Z * Z)) : torrent_info :=
  TorrentInfo (ti_files ti) similar collections (ti_merkle_tree ti) (ti_info_section ti)
    (ti_piece_hashes ti) (ti_info_hash ti) (ti_merkle_first_leaf ti) (ti_flags ti).

(** an error, and the torrent is marked as invalid *)
Definition reject (ti : torrent_info) (ec : option torrent_error) : option (torrent_info * res unit) :=
  Some (set_ti_files ti (set_piece_length (ti_files ti) 0), failed ec).

(** [string_ptr() + info_ptr_diff], from the start of the copy of the section *)
Definition section_offset (info p : bdecode_node) : option Z :=
  t ← (m_root_tokens info)⟦m_token_idx info⟧;
  ptr ← string_ptr p;
  Some (ptr - offset t).

(** the digests of similar torrents *)
Definition read_similar (info similar : bdecode_node) (found : list Z) : option (list Z) :=
  '(_, r) ← for_list (T := list Z) (λ n _ i found,
    '(n, e) ← list_at n i;
    b ← is_string e;
    if (b : bool) then
      '(n, e) ← list_at n i;
      len ← string_length e;
      if len =? 20 then '(n, e) ← list_at n i; off ← section_offset info e; Some (n, ok (found ++ [off]))
      else Some (n, ok found)
    else Some (n, ok found)) similar found;
  match r with ok found => Some found | failed _ => None end.

Definition read_collections (info collections : bdecode_node) (found : list (Z * Z)) : option (list (Z * Z)) :=
  '(_, r) ← for_list (T := list (Z * Z)) (λ n _ i found,
    '(n, e) ← list_at n i;
    b ← is_string e;
    if (b : bool) then
      off ← section_offset info e;
      len ← string_length e;
      Some (n, ok (found ++ [(off, len)]))
    else Some (n, ok found)) collections found;
  match r with ok found => Some found | failed _ => None end.

(** [v.resize(n)] *)
Definition resize {A} (v : list A) (n : Z) (x : A) : list A := take (Z.to_nat n) (grow_to v n x).

(** the digests of the pieces, or the tree *)
Definition read_hashes (ti : torrent_info) (info pieces root_hash : bdecode_node) (num_pieces : Z)
    : option (torrent_info * res unit) :=
  if operator_bool pieces then
    len ← string_length pieces;
    if negb (len =? num_pieces * 20) then reject ti (Some torrent_invalid_hashes)
    else off ← section_offset info pieces;
      Some (set_ti_hashes ti (Some off) (ti_merkle_tree ti) (ti_merkle_first_leaf ti), ok tt)
  else
    len ← string_length root_hash;
    if negb (len =? 20) then reject ti (Some torrent_invalid_hashes)
    else if num_pieces <=? 0 then reject ti (Some no_files_in_torrent)
    else
      num_leafs ← merkle_num_leafs num_pieces;
      let num_nodes := merkle_num_nodes num_leafs in
      v ← string_value root_hash;
      tree ← (resize (ti_merkle_tree ti) num_nodes zero_hash)⟦0 := v⟧;
      Some (set_ti_hashes ti (ti_piece_hashes ti) tree (num_nodes - num_leafs), ok tt).

(** what comes behind the digests, and the commit of the files *)
Definition read_rest (ti : torrent_info) (info : bdecode_node) (files : file_storage)
    : option (torrent_info * res unit) :=
  priv ← dict_find_int_value info (bytes_of "private") 0;
  let ti := set_ti_flags ti (Z.lor (ti_flags ti) (if negb (priv =? 0) then private_torrent else 0)) in
  similar ← dict_find_list info (bytes_of "similar");
  sim ← (if operator_bool similar then read_similar info similar (ti_similar_torrents ti)
         else Some (ti_similar_torrents ti));
  collections ← dict_find_list info (bytes_of "collections");
  col ← (if operator_bool collections then read_collections info collections (ti_collections ti)
         else Some (ti_collections ti));
  let ti := set_ti_related ti sim col in
  cert ← dict_find_string info (bytes_of "ssl-cert");
  let ti := if operator_bool cert then set_ti_flags ti (Z.lor (ti_flags ti) ssl_torrent) else ti in
  Some (set_ti_files ti files, ok tt).

(** the checks of the files, their digests and the rest *)
Definition read_pieces (ti : torrent_info) (info : bdecode_node) (files : file_storage) (max_pieces : Z)
    : option (torrent_info * res unit) :=
  if num_files files =? 0 then reject ti (Some no_files_in_torrent)
  else if match m_name files with [] => true | _ => false end then reject ti (Some torrent_missing_name)
  else if (int32_max - m_piece_length files) * m_piece_length files <=? m_total_size files
  then reject ti (Some too_many_pieces_in_torrent)
  else
    let files := set_num_pieces files
      (sint 32 (Z.quot (m_total_size files + m_piece_length files - 1) (m_piece_length files))) in
    pieces ← dict_find_string info (bytes_of "pieces");
    root_hash ← dict_find_string info (bytes_of "root hash");
    if negb (operator_bool pieces) && negb (operator_bool root_hash)
    then reject ti (Some torrent_missing_pieces)
    else if (Z.quot int32_max 20 <=? m_num_pieces files) || (max_pieces <? m_num_pieces files)
    then reject ti (Some too_many_pieces_in_torrent)
    else
      '(ti, r) ← read_hashes ti info pieces root_hash (m_num_pieces files);
      match r with
      | ok _ => read_rest ti info files
      | failed ec => Some (ti, failed ec)
      end.

Definition default_piece_limit : Z := 0x100000.

Section parse.
Context `{Sha1}.

Definition parse_info_section (ti : torrent_info) (info : bdecode_node) (max_pieces : Z)
    : option (torrent_info * res unit) :=
  ty ← node_type info;
  if negb (bool_decide (ty = tok_dict)) then Some (ti, failed (Some torrent_info_no_dict))
  else
    section ← data_section info;
    if int32_max <=? vsize section
    then Some (set_ti_section ti (ti_info_section ti) (sha1 section), failed (Some metadata_too_large))
    else
      let ti := set_ti_section ti section (sha1 section) in
      piece_length ← dict_find_int_value info (bytes_of "piece length") (-1);
      if (piece_length <=? 0) || (int32_max <? piece_length)
      then Some (ti, failed (Some torrent_missing_piece_length))
      else
        let files := set_piece_length new_file_storage piece_length in
        name_ent ← find_utf8 dict_find_string info (bytes_of "name");
        if negb (operator_bool name_ent) then reject ti (Some torrent_missing_name)
        else
          v ← string_value name_ent;
          name ← sanitize_append_path_element [] v;
          name ← match name with [] => to_hex (ti_info_hash ti) | _ => Some name end;
          files_node ← dict_find_list info (bytes_of "files");
          if negb (operator_bool files_node) then
            r ← extract_single_file info files [] true 0;
            match r with
            | failed ec => reject ti ec
            | ok (files, _) =>
                files ← sanitize_symlinks files;
                read_pieces (set_ti_flags ti (Z.land (ti_flags ti) (Z.lnot multifile))) info files max_pieces
            end
          else
            r ← extract_files files_node files name;
            match r with
            | failed ec => reject ti ec
            | ok files => read_pieces (set_ti_flags ti (Z.lor (ti_flags ti) multifile)) info files max_pieces
            end.
End parse.

(** the digest of a piece, from [m_piece_hashes] or the tree *)
Definition hash_for_piece (ti : torrent_info) (idx : Z) : option (list Z) :=
  match ti_merkle_tree ti with
  | [] => off ← ti_piece_hashes ti; span (ti_info_section ti) (off + idx * 20) 20
  | _ => (ti_merkle_tree ti)⟦ti_merkle_first_leaf ti + idx⟧
  end.
