(* ===== verification/TorrentFiles.v ===== *)
(** What the info dictionary says about the files of a torrent, as functions of
    its items, and that the functions of TorrentInfo.v read that from a node. *)

From Stdlib Require Import String.
From S2P Require Import Prelude.
From stdpp Require Import list.
From S2P Require Import StringUtil.
From S2P Require Import Path.
From S2P Require Import Bdecode.
From S2P Require Import BdecodeNode.
From S2P Require Import BencodeGrammar.
From S2P Require Import BdecodeNodeCorrect.
From S2P Require Import FileStorage.
From S2P Require Import FileSymlinks.
From S2P Require Import Utf8Correct.
From S2P Require Import TorrentPath.
From S2P Require Import TorrentInfo.

Open Scope Z_scope.
Open Scope torrent_scope.

(** * Items by key *)

Section lookup.
Context (l : list (bstr * cst)).

Definition string_at (key : list Z) : option (list Z) :=
  match find_pair key l with Some (CStr s) => Some (content s) | _ => None end.

Definition list_at_key (key : list Z) : option (list cst) :=
  match find_pair key l with Some (CList v) => Some v | _ => None end.

Definition int_at (key : list Z) (default : Z) : Z :=
  match find_pair key l with Some (CInt neg ds) => int_of neg ds | _ => default end.

(** the key with ".utf-8" first *)
Definition prefer_utf8 {A} (find : list Z → option A) (key : list Z) : option A :=
  match find (key ++ bytes_of ".utf-8") with Some x => Some x | None => find key end.
End lookup.

(** ** What the nodes return *)

Lemma denotes_some n c : denotes n c → operator_bool n = true.
Proof.
  intros (off & Hl & _). pose proof (located_range _ _ _ _ _ Hl). unfold operator_bool.
  by rewrite (proj2 (Z.eqb_neq _ _)) by lia.
Qed.

Section found.
Context (n : bdecode_node) (l : list (bstr * cst)) (Hn : denotes n (CDict l)).

Lemma find_string key :
  ∃ m, dict_find_string n key = Some m ∧
    match string_at l key with
    | Some v => ∃ s, denotes m (CStr s) ∧ content s = v
    | None => m = default_node
    end.
Proof.
  destruct (denotes_dict_find_type tok_string n l key Hn) as (m & Hm & Hc). exists m. split; [done|].
  unfold string_at. destruct (find_pair key l) as [[neg ds|s|v|v]|]; cbn in Hc; try done. by exists s.
Qed.

Lemma find_list key :
  ∃ m, dict_find_list n key = Some m ∧
    match list_at_key l key with Some v => denotes m (CList v) | None => m = default_node end.
Proof.
  destruct (denotes_dict_find_type tok_list n l key Hn) as (m & Hm & Hc). exists m. split; [done|].
  unfold list_at_key. destruct (find_pair key l) as [[neg ds|s|v|v]|]; done.
Qed.

Lemma find_int_value key default : dict_find_int_value n key default = Some (int_at l key default).
Proof.
  unfold dict_find_int_value, int_at. destruct (denotes_dict_find n l key Hn) as (m & -> & Hc).
  cbn [mbind option_bind]. destruct (find_pair key l) as [v|]; [|by subst m].
  rewrite (denotes_type m v Hc). cbn [mbind option_bind].
  destruct v as [neg ds|s|v|v]; cbn; try done. by rewrite (denotes_int m neg ds Hc).
Qed.

Lemma find_string_utf8 key :
  ∃ m, find_utf8 dict_find_string n key = Some m ∧
    match prefer_utf8 (string_at l) key with
    | Some v => ∃ s, denotes m (CStr s) ∧ content s = v
    | None => m = default_node
    end.
Proof.
  unfold find_utf8, prefer_utf8. destruct (find_string (key ++ bytes_of ".utf-8")) as (m & -> & Hm).
  cbn [mbind option_bind]. destruct (string_at l (key ++ bytes_of ".utf-8")) as [v|].
  - destruct Hm as (s & Hs & Hv). rewrite (denotes_some _ _ Hs). exists m. split; [done|]. by exists s.
  - subst m. apply find_string.
Qed.

Lemma find_list_utf8 key :
  ∃ m, find_utf8 dict_find_list n key = Some m ∧
    match prefer_utf8 (list_at_key l) key with Some v => denotes m (CList v) | None => m = default_node end.
Proof.
  unfold find_utf8, prefer_utf8. destruct (find_list (key ++ bytes_of ".utf-8")) as (m & -> & Hm).
  cbn [mbind option_bind]. destruct (list_at_key l (key ++ bytes_of ".utf-8")) as [v|].
  - rewrite (denotes_some _ _ Hm). by exists m.
  - subst m. apply find_list.
Qed.
End found.

(** ** Loops over a list *)

Lemma for_items_spec {T} (body : bdecode_node → Z → T → option (bdecode_node * res T)) {A} (l : list A)
    (N : bdecode_node → Prop) (J : Z → T → Prop) (F : option torrent_error → Prop) k n i s :
  (∀ n i c s, N n → l⟦i⟧ = Some c → J i s →
     ∃ n' r, body n i s = Some (n', r) ∧ N n' ∧
       match r with ok s => J (i + 1) s | failed ec => F ec end) →
  N n → J i s → 0 ≤ i → i + Z.of_nat k = vsize l →
  ∃ n' r, for_items body k n i s = Some (n', r) ∧ N n' ∧
    match r with ok s => J (vsize l) s | failed ec => F ec end.
Proof.
  intros Hbody. revert n i s. induction k as [|k IH]; intros n i s Hn Hj Hi Hk.
  { exists n, (ok s). split; [done|]. split; [done|]. by replace (vsize l) with i by lia. }
  cbn [for_items]. destruct (vget_is_Some l i) as [c Hc]; [lia|].
  destruct (Hbody n i c s Hn Hc Hj) as (n' & r & -> & Hn' & Hr). cbn [mbind option_bind].
  destruct r as [s'|ec]; [|by exists n', (failed ec)]. apply IH; [done|done|lia|lia].
Qed.

Lemma for_list_spec {T} (body : bdecode_node → Z → Z → T → option (bdecode_node * res T)) l
    (J : Z → T → Prop) (F : option torrent_error → Prop) n s :
  (∀ n i c s, denotes n (CList l) → l⟦i⟧ = Some c → J i s →
     ∃ n' r, body n (vsize l) i s = Some (n', r) ∧ denotes n' (CList l) ∧
       match r with ok s => J (i + 1) s | failed ec => F ec end) →
  denotes n (CList l) → J 0 s →
  ∃ n' r, for_list body n s = Some (n', r) ∧ denotes n' (CList l) ∧
    match r with ok s => J (vsize l) s | failed ec => F ec end.
Proof.
  intros Hbody Hn Hj. unfold for_list. destruct (denotes_list_size n l Hn) as (n1 & -> & Hn1).
  cbn [mbind option_bind]. eapply (for_items_spec _ l (λ n, denotes n (CList l))); [done|done|done|done|].
  pose proof (vsize_nonneg l). lia.
Qed.

(** * A file *)

Definition names_of (l : list cst) : option (list (list Z)) :=
  mapM (λ c, match c with CStr s => Some (content s) | _ => None end) l.

(** [sanitize_append_path_element], which returns *)
Definition append_element (path element : list Z) : list Z :=
  default path (sanitize_append_path_element path element).

Definition append_elements (path : list Z) (names : list (list Z)) : list Z :=
  fold_left append_element names path.

Definition attributes_of (l : list (bstr * cst)) : Z :=
  match string_at l (bytes_of "attr") with Some s => fold_left attribute_flag s 0 | None => 0 end.

(** the path of a file and the name behind it *)
Definition path_of_names (root : list Z) (names : list (list Z)) : list Z * list Z :=
  let path := append_elements root names in
  (if vsize path =? vsize root then path ++ [separator] ++ [95] else path,
   match list.last names with Some s => strip_separators s | None => [] end).

Definition listed_path_of (l : list (bstr * cst)) (root : list Z) (flags cnt : Z)
    : res (list Z * list Z * Z) :=
  match prefer_utf8 (list_at_key l) (bytes_of "path") with
  | Some ((_ :: _) as items) =>
      match names_of items with
      | None => failed (Some torrent_invalid_name)
      | Some names => ok (path_of_names root names, cnt)
      end
  | _ =>
      if has_flag flags flag_pad_file
      then ok (combine_path (bytes_of ".pad") (take 9 (dec_string cnt)), [], cnt + 1)
      else failed (Some torrent_missing_name)
  end.

Definition top_path_of (l : list (bstr * cst)) (root : list Z) : res (list Z * list Z) :=
  match prefer_utf8 (string_at l) (bytes_of "name") with
  | Some ((_ :: _) as s) =>
      match append_element root s with
      | [] => failed (Some torrent_missing_name)
      | path => ok (path, strip_separators s)
      end
  | _ => failed (Some torrent_missing_name)
  end.

Definition target_of (l : list (bstr * cst)) (flags : Z) : res (list Z) :=
  if has_flag flags flag_symlink then
    match list_at_key l (bytes_of "symlink path") with
    | Some items =>
        match names_of items with
        | None => failed (Some torrent_invalid_name)
        | Some names => ok (append_elements [] names)
        end
    | None => ok []
    end
  else ok [].

(** a file, as it is added *)
Record file_item := FileItem {
  fi_path : list Z;
  fi_name : list Z;
  fi_size : Z;
  fi_flags : Z;
  fi_hash : option (list Z);
  fi_mtime : Z;
  fi_target : list Z
}.

Definition file_path_of (l : list (bstr * cst)) (root : list Z) (top_level : bool) (cnt : Z)
    : res (list Z * list Z * Z) :=
  if top_level then match top_path_of l root with ok p => ok (p, cnt) | failed ec => failed ec end
  else listed_path_of l root (attributes_of l) cnt.

Definition file_of (c : cst) (root : list Z) (top_level : bool) (cnt : Z) : res (file_item * Z) :=
  match c with
  | CDict l =>
      let flags := attributes_of l in
      let size := if has_flag flags flag_symlink then 0 else int_at l (bytes_of "length") (-1) in
      if size <? 0 then failed (Some torrent_invalid_length)
      else
        match file_path_of l root top_level cnt with
        | failed ec => failed ec
        | ok (path, filename, cnt) =>
            let flags := if search pad_file_name path =? -1 then flags else Z.lor flags flag_pad_file in
            match target_of l flags with
            | failed ec => failed ec
            | ok target =>
                ok (FileItem path (borrowed_name path filename) size flags
                      (match string_at l (bytes_of "sha1") with
                       | Some s => if vsize s =? 20 then Some s else None
                       | None => None
                       end) (int_at l (bytes_of "mtime") 0) target, cnt)
            end
        end
  | _ => failed None
  end.

Definition add_item (fs : file_storage) (f : file_item) : option file_storage :=
  add_file_borrow fs (fi_name f) (fi_path f) (fi_size f) (fi_flags f) (fi_hash f) (fi_mtime f) (fi_target f).

(** * Reading it from a node *)

(** the bytes of an item are bytes *)
Definition of_bytes (c : cst) : Prop := Forall byte (print c).

Lemma of_bytes_string s : of_bytes (CStr s) → Forall byte (content s).
Proof. unfold of_bytes. cbn [print]. unfold print_str. rewrite !Forall_app. tauto. Qed.

Lemma of_bytes_item l c : of_bytes (CList l) → c ∈ l → of_bytes c.
Proof.
  unfold of_bytes. rewrite print_list_eq, !Forall_app. unfold print_list. intros (_ & Hl & _) Hc.
  apply list_elem_of_split in Hc as (l1 & l2 & ->). rewrite map_app, concat_app in Hl. cbn in Hl.
  apply Forall_app in Hl as [_ Hl]. by apply Forall_app in Hl as [Hl _].
Qed.

Lemma of_bytes_value l key c : of_bytes (CDict l) → find_pair key l = Some c → of_bytes c.
Proof.
  unfold of_bytes. rewrite print_dict_eq, !Forall_app. intros (_ & Hl & _).
  induction l as [|[k v] l IH]; [done|]. unfold print_pairs in Hl. cbn in Hl. cbn [find_pair].
  apply Forall_app in Hl as [Hkv Hl]. apply Forall_app in Hkv as [_ Hv].
  destruct (decide (key = content k)); [by intros [= <-]|by apply IH].
Qed.

Lemma string_at_bytes l key s : of_bytes (CDict l) → string_at l key = Some s → Forall byte s.
Proof.
  intros Hb. unfold string_at. destruct (find_pair key l) as [[neg ds|v|v|v]|] eqn:Hf; try done.
  intros [= <-]. by eapply of_bytes_string, of_bytes_value.
Qed.

Lemma list_at_key_bytes l key v : of_bytes (CDict l) → list_at_key l key = Some v → of_bytes (CList v).
Proof.
  intros Hb. unfold list_at_key. destruct (find_pair key l) as [[neg ds|s|w|w]|] eqn:Hf; try done.
  intros [= ->]. by eapply of_bytes_value.
Qed.

Lemma append_element_eq path s :
  Forall byte s → sanitize_append_path_element path s = Some (append_element path s).
Proof. intros Hs. unfold append_element. by destruct (sanitize_appended path s Hs) as (path' & -> & _). Qed.

Lemma get_file_attributes_spec dict l :
  denotes dict (CDict l) → get_file_attributes dict = Some (attributes_of l).
Proof.
  intros Hd. unfold get_file_attributes, attributes_of.
  destruct (find_string dict l Hd (bytes_of "attr")) as (m & -> & Hm). cbn [mbind option_bind].
  destruct (string_at l (bytes_of "attr")) as [s|]; [|by subst].
  destruct Hm as (s' & Hs & <-). rewrite (denotes_some _ _ Hs). by destruct (denotes_string m s' Hs) as [_ ->].
Qed.

Definition string_of (c : cst) : option (list Z) := match c with CStr s => Some (content s) | _ => None end.

Lemma is_string_spec n c : denotes n c → is_string n = Some (bool_decide (is_Some (string_of c))).
Proof.
  intros Hn. unfold is_string. rewrite (denotes_type n c Hn). unfold is_type. cbn [mbind option_bind].
  f_equal. apply bool_decide_ext. destruct c; cbn; split; try done; by intros [? ?].
Qed.

Lemma names_of_app l1 l2 :
  names_of (l1 ++ l2) = a ← names_of l1; b ← names_of l2; Some (a ++ b).
Proof.
  unfold names_of. induction l1 as [|c l1 IH]; cbn [app mapM].
  { cbn. by destruct (mapM _ l2). }
  destruct c; try done. cbn [mbind option_bind]. rewrite IH.
  destruct (mapM _ l1) as [a|]; [|done]. cbn [mbind option_bind]. by destruct (mapM _ l2).
Qed.

(** the names of the first [i] items *)
Lemma names_of_take l i c :
  l⟦i⟧ = Some c →
  names_of (take (Z.to_nat (i + 1)) l) =
    names ← names_of (take (Z.to_nat i) l); s ← string_of c; Some (names ++ [s]).
Proof.
  intros Hc. pose proof (vget_Some_range _ _ _ Hc).
  replace (Z.to_nat (i + 1)) with (S (Z.to_nat i)) by lia.
  unfold vget in Hc. rewrite (proj2 (Z.ltb_ge i 0)) in Hc by lia.
  rewrite (take_S_r _ _ _ Hc), names_of_app.
  destruct (names_of (take (Z.to_nat i) l)) as [names|]; [|done]. cbn [mbind option_bind].
  by destruct c.
Qed.

Lemma names_of_None l i : names_of (take i l) = None → names_of l = None.
Proof.
  intros Hn. rewrite <-(take_drop i l). by rewrite names_of_app, Hn.
Qed.

(** the loop in the goal: [J] holds before each item and [F] of each failure *)
Ltac list_loop l J F p r Hp Hr :=
  match goal with |- context [for_list ?body ?n ?s] =>
    destruct (for_list_spec body l J F n s) as (p & r & -> & Hp & Hr) end.

(** [path_length] fails when an item is not a string *)
Lemma path_length_spec p items :
  denotes p (CList items) →
  ∃ p' r, path_length p = Some (p', r) ∧ denotes p' (CList items) ∧
    match r with ok _ => is_Some (names_of items)
    | failed ec => ec = Some torrent_invalid_name ∧ names_of items = None end.
Proof.
  intros Hp. unfold path_length.
  list_loop items (λ (i _ : Z), is_Some (names_of (take (Z.to_nat i) items)))
    (λ ec, ec = Some torrent_invalid_name ∧ names_of items = None) p1 r Hp1 Hr; [|done|by eexists|].
  - intros n i c s Hn Hc [names Hi]. destruct (denotes_list_at n items i c Hn Hc) as (n' & e & -> & Hn' & He).
    cbn [mbind option_bind]. rewrite (is_string_spec e c He). cbn [mbind option_bind].
    pose proof (names_of_take items i c Hc) as Ht. rewrite Hi in Ht. cbn [mbind option_bind] in Ht.
    destruct c as [neg ds|v|v|v]; cbn [string_of] in *.
    2:{ rewrite bool_decide_eq_true_2 by eauto. destruct (denotes_string e v He) as [-> _]. cbn [mbind option_bind].
        eexists _, (ok _). split; [done|]. split; [done|]. rewrite Ht. by eexists. }
    all: eexists _, (failed _); (split; [done|]); (split; [done|]); (split; [done|]); by eapply names_of_None.
  - cbn [mbind option_bind]. destruct (denotes_list_size p1 items Hp1) as (p2 & -> & Hp2). cbn [mbind option_bind].
    exists p2, (match r with ok ret => ok (ret + vsize items) | failed ec => failed ec end).
    split; [done|]. split; [done|]. destruct r as [ret|ec]; [|done]. revert Hr.
    rewrite take_ge; [done|]. unfold vsize. lia.
Qed.

(** the loops over the elements: the path of the first [i] names *)
Lemma names_of_bytes items names s :
  of_bytes (CList items) → names_of items = Some names → s ∈ names → Forall byte s.
Proof.
  intros Hb Hn Hs. unfold names_of in Hn. apply mapM_Some_1 in Hn.
  apply list_elem_of_lookup_1 in Hs as [i Hi]. destruct (Forall2_lookup_r _ _ _ _ _ Hn Hi) as (c & Hc & Hcs).
  destruct c as [neg ds|v|v|v]; try done. injection Hcs as <-.
  eapply of_bytes_string, of_bytes_item; [exact Hb|]. by eapply list_elem_of_lookup_2.
Qed.

Lemma names_of_lookup items names i c :
  names_of items = Some names → items⟦i⟧ = Some c → ∃ s, c = CStr s ∧ names⟦i⟧ = Some (content s).
Proof.
  intros Hn Hc. unfold names_of in Hn. apply mapM_Some_1 in Hn. unfold vget in *.
  destruct (i <? 0); [done|]. destruct (Forall2_lookup_l _ _ _ _ _ Hn Hc) as (s & Hs & Hcs).
  destruct c as [neg ds|v|v|v]; try done. injection Hcs as <-. by exists v.
Qed.

Lemma names_of_size items names : names_of items = Some names → vsize names = vsize items.
Proof. intros Hn. apply mapM_Some_1, Forall2_length in Hn. unfold vsize. by rewrite Hn. Qed.

Lemma append_elements_take root names i s :
  names⟦i⟧ = Some s →
  append_elements root (take (Z.to_nat (i + 1)) names) =
    append_element (append_elements root (take (Z.to_nat i) names)) s.
Proof.
  intros Hs. pose proof (vget_Some_range _ _ _ Hs). replace (Z.to_nat (i + 1)) with (S (Z.to_nat i)) by lia.
  unfold vget in Hs. rewrite (proj2 (Z.ltb_ge i 0)) in Hs by lia. rewrite (take_S_r _ _ _ Hs).
  unfold append_elements. by rewrite fold_left_app.
Qed.

Lemma last_vget {A} (l : list A) i x : l⟦i⟧ = Some x → i = vsize l - 1 → list.last l = Some x.
Proof.
  intros Hx ->. pose proof (vget_Some_range _ _ _ Hx). unfold vget in Hx.
  rewrite (proj2 (Z.ltb_ge _ 0)) in Hx by lia. rewrite last_lookup, <-Hx. f_equal. unfold vsize. lia.
Qed.

Lemma path_elements_spec p items names root :
  denotes p (CList items) → of_bytes (CList items) → names_of items = Some names → items ≠ [] →
  path_elements p root = Some (ok (append_elements root names,
    match list.last names with Some s => strip_separators s | None => [] end)).
Proof.
  intros Hp Hb Hn Hne. unfold path_elements. pose proof (names_of_size items names Hn) as Hsz.
  list_loop items (λ i (s : list Z * list Z), s.1 = append_elements root (take (Z.to_nat i) names) ∧
      (i = vsize items → Some s.2 = strip_separators <$> list.last names)) (λ _ : option torrent_error, False) p1 r Hp1 Hr.
  - intros n i c s Hnd Hc [Hs _]. destruct (denotes_list_at n items i c Hnd Hc) as (n' & e & -> & Hn' & He).
    cbn [mbind option_bind]. destruct (names_of_lookup _ _ _ _ Hn Hc) as (v & -> & Hv).
    destruct (denotes_string e v He) as [_ ->]. cbn [mbind option_bind].
    assert (Forall byte (content v)) as Hvb.
    { eapply names_of_bytes; [done|done|]. by eapply vget_elem_of. }
    rewrite (append_element_eq _ _ Hvb). cbn [mbind option_bind]. eexists _, (ok _). split; [done|].
    split; [done|]. cbn [fst snd]. split; [by rewrite (append_elements_take _ _ _ _ Hv), Hs|].
    intros Hi. rewrite (proj2 (Z.eqb_eq _ _)) by lia. rewrite (last_vget _ _ _ Hv); [done|lia].
  - done.
  - cbn. split; [done|]. intros H0. destruct items; [done|]. revert H0. vsize. pose proof (vsize_nonneg items). lia.
  - cbn [mbind option_bind]. destruct r as [[path f]|]; [|done]. cbn [fst snd] in Hr. destruct Hr as [-> Hf].
    specialize (Hf eq_refl). rewrite take_ge by (unfold vsize in *; lia).
    destruct (list.last names); [|done]. cbn in Hf. by injection Hf as ->.
Qed.

Lemma symlink_elements_spec p items names :
  denotes p (CList items) → of_bytes (CList items) → names_of items = Some names →
  symlink_elements p = Some (ok (append_elements [] names)).
Proof.
  intros Hp Hb Hn. unfold symlink_elements. pose proof (names_of_size items names Hn) as Hsz.
  list_loop items (λ i (s : list Z), s = append_elements [] (take (Z.to_nat i) names))
    (λ _ : option torrent_error, False) p1 r Hp1 Hr.
  - intros n i c s Hnd Hc ->. destruct (denotes_list_at n items i c Hnd Hc) as (n' & e & -> & Hn' & He).
    cbn [mbind option_bind]. destruct (names_of_lookup _ _ _ _ Hn Hc) as (v & -> & Hv).
    destruct (denotes_string e v He) as [_ ->]. cbn [mbind option_bind].
    rewrite append_element_eq by (eapply names_of_bytes; [done|done|]; by eapply vget_elem_of).
    cbn [mbind option_bind]. eexists _, (ok _). split; [done|]. split; [done|].
    by rewrite (append_elements_take _ _ _ _ Hv).
  - done.
  - done.
  - cbn [mbind option_bind]. destruct r as [path|]; [|done]. by rewrite Hr, take_ge by (unfold vsize in *; lia).
Qed.

Section dictionary.
Context (dict : bdecode_node) (l : list (bstr * cst)) (Hd : denotes dict (CDict l)) (Hb : of_bytes (CDict l)).

Lemma string_found m v s :
  string_at l v = Some s → (∃ s', denotes m (CStr s') ∧ content s' = s) →
  operator_bool m = true ∧ string_length m = Some (vsize s) ∧ string_value m = Some s.
Proof.
  intros _ (s' & Hs & <-). split; [by eapply denotes_some|]. by apply denotes_string.
Qed.

Lemma prefer_bytes key s : prefer_utf8 (string_at l) key = Some s → Forall byte s.
Proof.
  unfold prefer_utf8. destruct (string_at l (key ++ bytes_of ".utf-8")) as [v|] eqn:Hv.
  - intros [= <-]. by eapply string_at_bytes.
  - intros Hs. by eapply string_at_bytes.
Qed.

Lemma prefer_list_bytes key v : prefer_utf8 (list_at_key l) key = Some v → of_bytes (CList v).
Proof.
  unfold prefer_utf8. destruct (list_at_key l (key ++ bytes_of ".utf-8")) as [w|] eqn:Hw.
  - intros [= <-]. by eapply list_at_key_bytes.
  - intros Hs. by eapply list_at_key_bytes.
Qed.

Lemma top_level_path_spec root : top_level_path dict root = Some (top_path_of l root).
Proof.
  unfold top_level_path, top_path_of. destruct (find_string_utf8 dict l Hd (bytes_of "name")) as (m & -> & Hm).
  cbn [mbind option_bind]. destruct (prefer_utf8 (string_at l) (bytes_of "name")) as [s|] eqn:Hs; [|by subst].
  destruct Hm as (s' & Hm & Hc). rewrite (denotes_some _ _ Hm).
  destruct (denotes_string m s' Hm) as [-> ->]. cbn [mbind option_bind]. rewrite Hc.
  destruct s as [|c s]; [done|]. replace (vsize (c :: s) =? 0) with false
    by (symmetry; apply Z.eqb_neq; vsize; pose proof (vsize_nonneg s); lia).
  rewrite append_element_eq by (by eapply prefer_bytes). cbn [mbind option_bind]. by destruct (append_element root (c :: s)).
Qed.

Lemma listed_path_spec root flags cnt : listed_path dict root flags cnt = Some (listed_path_of l root flags cnt).
Proof.
  unfold listed_path, listed_path_of. destruct (find_list_utf8 dict l Hd (bytes_of "path")) as (m & -> & Hm).
  cbn [mbind option_bind]. destruct (prefer_utf8 (list_at_key l) (bytes_of "path")) as [items|] eqn:Hi.
  2:{ subst m. cbn [operator_bool default_node m_token_idx Z.eqb negb mbind option_bind Z.ltb Z.compare].
      by destruct (has_flag flags flag_pad_file). }
  rewrite (denotes_some _ _ Hm). destruct (denotes_list_size m items Hm) as (m1 & -> & Hm1). cbn [mbind option_bind].
  destruct items as [|c items].
  { change (0 <? vsize []) with false. by destruct (has_flag flags flag_pad_file). }
  rewrite (proj2 (Z.ltb_lt 0 _)) by (vsize; pose proof (vsize_nonneg items); lia).
  pose proof (prefer_list_bytes _ _ Hi) as Hbi.
  destruct (path_length_spec m1 (c :: items) Hm1) as (m2 & r & -> & Hm2 & Hr). cbn [mbind option_bind].
  unfold try at 1. destruct r as [n|ec]; cbn [mbind option_bind]; [|by destruct Hr as [-> ->]].
  destruct Hr as [names Hn]. rewrite Hn. by rewrite (path_elements_spec m2 (c :: items) names root) by done.
Qed.

Lemma symlink_target_spec flags : symlink_target dict flags = Some (target_of l flags).
Proof.
  unfold symlink_target, target_of. destruct (has_flag flags flag_symlink); [|done].
  destruct (find_list dict l Hd (bytes_of "symlink path")) as (m & -> & Hm). cbn [mbind option_bind].
  destruct (list_at_key l (bytes_of "symlink path")) as [items|] eqn:Hi; [|by subst].
  rewrite (denotes_some _ _ Hm). destruct (path_length_spec m items Hm) as (m1 & r & -> & Hm1 & Hr).
  cbn [mbind option_bind]. unfold try. destruct r as [n|ec]; cbn [mbind option_bind]; [|by destruct Hr as [-> ->]].
  destruct Hr as [names Hn]. rewrite Hn. apply (symlink_elements_spec _ items); [done| |done]. by eapply list_at_key_bytes.
Qed.

Lemma path_spec root top cnt :
  (if top : bool then '(path, filename) ⇐ top_level_path dict root; Some (ok (path, filename, cnt))
   else listed_path dict root (attributes_of l) cnt) = Some (file_path_of l root top cnt).
Proof.
  unfold file_path_of. destruct top; [|apply listed_path_spec]. rewrite top_level_path_spec. unfold try.
  cbn [mbind option_bind]. by destruct (top_path_of l root) as [[path f]|].
Qed.

Lemma file_hash_spec :
  (fh ← dict_find_string dict (bytes_of "sha1");
   len ← (if operator_bool fh then string_length fh else Some 0);
   if len =? 20 then v ← string_value fh; Some (Some v) else Some None) =
  Some (match string_at l (bytes_of "sha1") with
        | Some s => if vsize s =? 20 then Some s else None
        | None => None
        end).
Proof.
  destruct (find_string dict l Hd (bytes_of "sha1")) as (m & -> & Hm). cbn [mbind option_bind].
  destruct (string_at l (bytes_of "sha1")) as [s|]; [|by subst].
  destruct Hm as (s' & Hs & <-). rewrite (denotes_some _ _ Hs). destruct (denotes_string m s' Hs) as [-> ->].
  cbn [mbind option_bind]. by destruct (vsize (content s') =? 20).
Qed.
End dictionary.

(** [extract_single_file] adds the file that the dictionary describes *)
Lemma extract_single_file_spec dict c files root top cnt :
  denotes dict c → of_bytes c →
  extract_single_file dict files root top cnt =
    match file_of c root top cnt with
    | failed ec => Some (failed ec)
    | ok (f, cnt) => files ← add_item files f; Some (ok (files, cnt))
    end.
Proof.
  intros Hd Hb. unfold extract_single_file. rewrite (denotes_type dict c Hd). cbn [mbind option_bind].
  destruct c as [neg ds|s|v|l]; try done. change (bool_decide (cst_type (CDict l) = tok_dict)) with true.
  cbn [negb file_of]. rewrite (get_file_attributes_spec dict l Hd). cbn [mbind option_bind].
  rewrite !(find_int_value dict l Hd).
  replace (if has_flag (attributes_of l) flag_symlink then Some 0 else Some (int_at l (bytes_of "length") (-1)))
    with (Some (if has_flag (attributes_of l) flag_symlink then 0 else int_at l (bytes_of "length") (-1)))
    by (by destruct (has_flag (attributes_of l) flag_symlink)).
  cbn [mbind option_bind]. destruct (_ <? 0); [done|]. cbn [mbind option_bind].
  rewrite (path_spec dict l Hd Hb). unfold try at 1. cbn [mbind option_bind].
  destruct (file_path_of l root top cnt) as [[[path filename] cnt']|ec]; [|done].
  pose proof (file_hash_spec dict l Hd) as Hh.
  destruct (dict_find_string dict (bytes_of "sha1")) as [fh|]; [|done]. cbn [mbind option_bind] in *.
  destruct (if operator_bool fh then string_length fh else Some 0) as [len|]; [|done]. cbn [mbind option_bind] in *.
  rewrite Hh. cbn [mbind option_bind]. rewrite (symlink_target_spec dict l Hd Hb). unfold try at 1. cbn [mbind option_bind].
  destruct (target_of l _) as [target|ec]; done.
Qed.
