(* ===== verification/TorrentCorrect.v ===== *)
(** What the files of a torrent are: the paths that are read are made of safe
    elements, below the name of the torrent, and the storage they are added to
    stays well formed. *)

From Stdlib Require Import String.
From stdpp Require Import gmap sets.
From S2P Require Import Prelude.
From stdpp Require Import list.
From S2P Require Import StringUtil.
From S2P Require Import Path.
From S2P Require Import PathCorrect.
From S2P Require Import Bdecode.
From S2P Require Import BdecodeNode.
From S2P Require Import BencodeGrammar.
From S2P Require Import BdecodeNodeCorrect.
From S2P Require Import BdecodeWalk.
From S2P Require Import FileStorage.
From S2P Require Import FileLayout.
From S2P Require Import FileOps.
From S2P Require Import FileSymlinks.
From S2P Require Import FileLinks.
From S2P Require Import Utf8Correct.
From S2P Require Import TorrentPath.
From S2P Require Import TorrentInfo.
From S2P Require Import TorrentFiles.

Open Scope Z_scope.
Open Scope torrent_scope.

(** * Paths of safe elements *)

Lemma safe_elements l : Forall safe_element l → elements_ok l.
Proof. intros H. eapply Forall_impl; [exact H|]. intros s (Hc & Hn & _). by apply clean_element. Qed.

Lemma under_join l e : Forall safe_element l → under (join l) e = join (l ++ [e]).
Proof.
  intros Hl. apply safe_elements in Hl. destruct l as [|x l]; [done|]. rewrite join_snoc by done.
  pose proof (join_not_nil _ Hl ltac:(done)). unfold under. by destruct (join (x :: l)).
Qed.

Lemma append_element_join l s :
  Forall safe_element l → Forall byte s →
  ∃ es, append_element (join l) s = join (l ++ es) ∧ Forall safe_element es.
Proof.
  intros Hl Hs. unfold append_element. destruct (sanitize_appended (join l) s Hs) as (path & -> & Ha). cbn.
  destruct Ha as [->|(e & He & ->)]; [exists []; by rewrite app_nil_r|].
  exists [e]. split; [by apply under_join|by apply Forall_singleton].
Qed.

Lemma append_elements_join l names :
  Forall safe_element l → (∀ s, s ∈ names → Forall byte s) →
  ∃ es, append_elements (join l) names = join (l ++ es) ∧ Forall safe_element es.
Proof.
  revert l. induction names as [|s names IH]; intros l Hl Hb; [exists []; by rewrite app_nil_r|].
  unfold append_elements. cbn [fold_left].
  destruct (append_element_join l s Hl) as (es & -> & Hes); [apply Hb, list_elem_of_here|].
  destruct (IH (l ++ es)) as (es' & Hj & Hes'); [by apply Forall_app|by intros t Ht; apply Hb, list_elem_of_further|].
  exists (es ++ es'). rewrite app_assoc. split; [exact Hj|]. by apply Forall_app.
Qed.

Lemma underscore_safe : safe_element [95].
Proof. split; [apply clean_underscore|done]. Qed.

(** the path of the names of a file goes below the root *)
Lemma path_of_names_join r names :
  r ≠ [] → Forall safe_element r → (∀ s, s ∈ names → Forall byte s) →
  ∃ es, (path_of_names (join r) names).1 = join (r ++ es) ∧ es ≠ [] ∧ Forall safe_element es.
Proof.
  intros Hr Hs Hb. unfold path_of_names. destruct (append_elements_join r names Hs Hb) as (es & -> & Hes). cbn [fst].
  destruct es as [|e es].
  - rewrite app_nil_r, Z.eqb_refl. exists [[95]]. split; [by rewrite join_snoc|]. split; [done|].
    apply Forall_singleton, underscore_safe.
  - exists (e :: es). split; [|done]. rewrite (proj2 (Z.eqb_neq _ _)); [done|].
    rewrite join_app by done. vsize. pose proof (vsize_nonneg (join (e :: es))). lia.
Qed.

(** ** Pad files without a path *)

Lemma digit_clean n : 0 ≤ n < 10 → clean_char (48 + n).
Proof.
  intros Hn. unfold clean_char, scalar. lia.
Qed.

Lemma ascii_clean s : Forall (λ c, clean_char c ∧ c < 128) s → clean s.
Proof.
  induction 1 as [|c s [Hc Hl] _ IH]; [apply clean_nil|]. change (c :: s) with ([c] ++ s).
  apply clean_app; [|done]. pose proof (clean_one c Hc) as H. unfold encode in H.
  by rewrite (proj2 (Z.ltb_lt _ _)) in H.
Qed.

Definition is_digit_char (c : Z) : Prop := 48 ≤ c ≤ 57.

Lemma dec_digits_chars fuel n acc :
  0 ≤ n → Forall is_digit_char acc → Forall is_digit_char (dec_digits fuel n acc).
Proof.
  revert n acc. induction fuel as [|fuel IH]; intros n acc Hn Ha; [done|]. cbn [dec_digits].
  destruct (n =? 0); [done|]. apply IH; [division|]. constructor; [unfold is_digit_char; division|done].
Qed.

Lemma dec_string_chars n : 0 ≤ n → Forall is_digit_char (dec_string n) ∧ dec_string n ≠ [].
Proof.
  intros Hn. unfold dec_string. rewrite (proj2 (Z.ltb_ge n 0)) by done. cbn [app].
  destruct (Z.eqb_spec n 0) as [->|H0].
  - split; [|done]. apply Forall_singleton. unfold is_digit_char. lia.
  - split; [apply dec_digits_chars; [lia|constructor]|]. unfold digits. cbn [dec_digits].
    rewrite (proj2 (Z.eqb_neq _ _)), dec_digits_acc by lia. by intros [_ ?]%app_nil.
Qed.

Definition pad_dir : list Z := bytes_of ".pad".

Lemma pad_path_join cnt :
  0 ≤ cnt → let d := take 9 (dec_string cnt) in
  combine_path pad_dir d = join [pad_dir; d] ∧ Forall safe_element [pad_dir; d].
Proof.
  intros Hc d. destruct (dec_string_chars cnt Hc) as [Hd Hn].
  assert (Forall is_digit_char d ∧ d ≠ []) as [Hdd Hdn].
  { split; [by apply Forall_take|]. unfold d. by destruct (dec_string cnt). }
  assert (∀ c, is_digit_char c → clean_char c ∧ c < 128) as Hcl.
  { intros c Hcc. unfold is_digit_char in Hcc. replace c with (48 + (c - 48)) by lia. split; [apply digit_clean; lia|lia]. }
  assert (safe_element d) as Hs.
  { split; [apply ascii_clean; by eapply Forall_impl; [exact Hdd|]|]. split; [done|].
    destruct Hdd as [|c d' Hcd _]; [done|]. unfold is_digit_char in Hcd. split; intros [= ?]; lia. }
  assert (safe_element pad_dir) as Hp.
  { split; [|done]. apply ascii_clean. change pad_dir with [46; 112; 97; 100].
    repeat (apply Forall_cons_2 || apply Forall_nil_2); (unfold clean_char, scalar; lia). }
  assert (Forall safe_element [pad_dir; d]) as Hall by (by repeat (apply Forall_cons_2 || apply Forall_nil_2)).
  split; [|done]. pose proof (safe_elements _ Hall) as Hok. apply Forall_cons in Hok as [H1 H2].
  change pad_dir with (join [pad_dir]) at 1. change d with (join [d]) at 1.
  rewrite combine_path_join; [|by apply Forall_singleton|done]. unfold combined.
  destruct Hs as (_ & _ & Hdot & _). by rewrite !decide_False by naive_solver.
Qed.

(** * What is read for a file *)

(** the item of a file in the torrent with the elements [r], and the number of
    pad files *)
Record item_ok (r : list (list Z)) (top : bool) (cnt : Z) (f : file_item) (l : list (list Z)) : Prop := {
  io_path : fi_path f = join l;
  io_safe : Forall safe_element l;
  io_some : l ≠ [];
  (* a file is below the root, or a pad file *)
  io_place : if top then vsize l = 1
             else (∃ es, es ≠ [] ∧ l = r ++ es) ∨
               (has_flag (fi_flags f) flag_pad_file = true ∧ l = [pad_dir; take 9 (dec_string cnt)]);
  io_size : 0 ≤ fi_size f;
  io_hash : digest_ok (fi_hash f);
  io_target : ∃ t, fi_target f = join t ∧ Forall safe_element t;
  (* the borrowed name ends the path *)
  io_name : fi_name f = [] ∨ ∃ p, join l = p ++ fi_name f ∧ head (fi_name f) ≠ Some separator
}.

Lemma borrowed_name_spec path name :
  borrowed_name path name = [] ∨ borrowed_name path name = name ∧ ∃ p, path = p ++ name.
Proof.
  unfold borrowed_name. destruct (Z.ltb_spec (vsize path) (vsize name)); [by left|]. cbn [orb].
  unfold same_string. case_bool_decide as Hd; [|by left]. right. split; [done|].
  eexists. symmetry. rewrite <-Hd at 1. apply take_drop.
Qed.

Lemma strip_separators_head s : head (strip_separators s) ≠ Some separator.
Proof. by destruct (strip_separators_spec s) as (n & _ & ?). Qed.

Lemma path_of_names_head root names : head (path_of_names root names).2 ≠ Some separator.
Proof. unfold path_of_names. cbn [snd]. destruct (list.last names); [apply strip_separators_head|done]. Qed.

Section item.
Context (r : list (list Z)) (Hr : Forall safe_element r) (l : list (bstr * cst)) (Hb : of_bytes (CDict l)).

Lemma top_path_ok path name :
  r = [] → top_path_of l (join r) = ok (path, name) →
  head name ≠ Some separator ∧ ∃ e, path = join [e] ∧ safe_element e.
Proof.
  intros -> . unfold top_path_of. destruct (prefer_utf8 (string_at l) (bytes_of "name")) as [s|] eqn:Hs; [|done].
  destruct s as [|c s]; [done|]. assert (Forall byte (c :: s)) as Hbs by (by eapply prefer_bytes).
  unfold append_element. destruct (sanitize_appended (join []) (c :: s) Hbs) as (p & -> & Ha). cbn [from_option].
  destruct Ha as [->|(e & He & ->)]; [done|]. cbn [under join]. destruct e as [|d e]; [done|].
  intros [= <- <-]. split; [apply (strip_separators_head (c :: s))|]. by exists (d :: e).
Qed.

Lemma listed_path_ok flags cnt path name cnt' :
  r ≠ [] → 0 ≤ cnt → listed_path_of l (join r) flags cnt = ok (path, name, cnt') →
  head name ≠ Some separator ∧ 0 ≤ cnt' ∧ ∃ k, path = join k ∧ Forall safe_element k ∧
    ((∃ es, es ≠ [] ∧ k = r ++ es) ∨
     (has_flag flags flag_pad_file = true ∧ k = [pad_dir; take 9 (dec_string cnt)])).
Proof.
  intros Hrn Hc. unfold listed_path_of.
  destruct (prefer_utf8 (list_at_key l) (bytes_of "path")) as [items|] eqn:Hi;
    [destruct items as [|c items]|].
  2:{ destruct (names_of (c :: items)) as [names|] eqn:Hn; [|done]. intros H.
      destruct (path_of_names_join r names Hrn Hr) as (es & He & Hen & Hes).
      { intros s Hs. eapply names_of_bytes; [|exact Hn|done]. by eapply prefer_list_bytes. }
      pose proof (path_of_names_head (join r) names) as Hh.
      destruct (path_of_names (join r) names) as [p n]. injection H as -> -> ->. split; [done|].
      split; [done|]. exists (r ++ es). split; [done|]. split; [by apply Forall_app|]. left. by exists es. }
  all: destruct (has_flag flags flag_pad_file) eqn:Hf; [|done]; intros [= <- <- <-];
    (split; [done|]); (split; [lia|]); destruct (pad_path_join cnt Hc) as [Hj Hs];
    exists [pad_dir; take 9 (dec_string cnt)]; split; [exact Hj|]; (split; [exact Hs|]); by right.
Qed.

Lemma path_ok_of (top : bool) cnt path name cnt' :
  (if top then r = [] else r ≠ []) → 0 ≤ cnt → file_path_of l (join r) top cnt = ok (path, name, cnt') →
  head name ≠ Some separator ∧ 0 ≤ cnt' ∧ ∃ k, path = join k ∧ Forall safe_element k ∧ k ≠ [] ∧
    (if top then vsize k = 1
     else (∃ es, es ≠ [] ∧ k = r ++ es) ∨
       (has_flag (attributes_of l) flag_pad_file = true ∧ k = [pad_dir; take 9 (dec_string cnt)])).
Proof.
  intros Ht Hc. unfold file_path_of. destruct top.
  - destruct (top_path_of l (join r)) as [[p n]|] eqn:Hp; [|done]. intros [= -> -> ->].
    destruct (top_path_ok _ _ Ht Hp) as (Hh & e & -> & He). split; [done|]. split; [done|].
    exists [e]. split; [done|]. split; [by apply Forall_singleton|]. done.
  - intros Hp. destruct (listed_path_ok _ _ _ _ _ Ht Hc Hp) as (Hh & Hc' & k & -> & Hk & Hcase).
    split; [done|]. split; [done|]. exists k. split; [done|]. split; [done|]. split; [|done].
    destruct Hcase as [(es & Hes & ->)|[_ ->]]; [|done]. by intros [_ ?]%app_nil.
Qed.

Lemma target_ok flags t : target_of l flags = ok t → ∃ k, t = join k ∧ Forall safe_element k.
Proof.
  unfold target_of. destruct (has_flag flags flag_symlink); [|intros [= <-]; by exists []].
  destruct (list_at_key l (bytes_of "symlink path")) as [items|] eqn:Hi; [|intros [= <-]; by exists []].
  destruct (names_of items) as [names|] eqn:Hn; [|done]. intros [= <-].
  destruct (append_elements_join [] names) as (es & He & Hes); [done| |by exists es].
  intros s Hs. eapply names_of_bytes; [|exact Hn|done]. by eapply list_at_key_bytes.
Qed.

End item.

Lemma has_flag_lor a b f : has_flag a f = true → has_flag (Z.lor a b) f = true.
Proof.
  unfold has_flag. rewrite !negb_true_iff, !Z.eqb_neq, Z.land_lor_distr_l. intros Ha Hl.
  apply Ha. by apply Z.lor_eq_0_l in Hl.
Qed.

(** everything that is read for a file is as it must be *)
Lemma file_of_ok r c (top : bool) cnt f cnt' :
  Forall safe_element r → of_bytes c → (if top then r = [] else r ≠ []) → 0 ≤ cnt →
  file_of c (join r) top cnt = ok (f, cnt') → 0 ≤ cnt' ∧ ∃ l, item_ok r top cnt f l.
Proof.
  intros Hr Hb Ht Hc. unfold file_of. destruct c as [neg ds|s|v|l]; try done.
  destruct (Z.ltb_spec (if has_flag (attributes_of l) flag_symlink then 0 else int_at l (bytes_of "length") (-1)) 0)
    as [|Hsize]; [done|].
  destruct (file_path_of l (join r) top cnt) as [[[path name] n]|] eqn:Hp; [|done].
  destruct (path_ok_of r Hr l Hb top cnt path name n Ht Hc Hp) as (Hh & Hn & k & -> & Hk & Hkn & Hplace).
  set (flags := if search pad_file_name (join k) =? -1 then _ else _).
  destruct (target_of l flags) as [t|] eqn:Htg; [|done]. intros [= <- <-]. split; [done|]. exists k.
  split; cbn [fi_path fi_size fi_flags fi_hash fi_target fi_name]; try done.
  - destruct top; [done|]. destruct Hplace as [?|[Hf ?]]; [by left|right]. split; [|done].
    unfold flags. destruct (search _ _ =? -1); [done|by apply has_flag_lor].
  - destruct (string_at l _) as [s|]; [|exact I].
    destruct (Z.eqb_spec (vsize s) 20); [cbn; lia|exact I].
  - by eapply target_ok.
  - destruct (borrowed_name_spec (join k) name) as [->|[-> Hp']]; [by left|]. right.
    destruct Hp' as [p Hp']. by exists p.
Qed.

(** * Adding the files *)

(** what finding the path index changes of a storage *)
Lemma update_path_index_rest fs e path set_leaf fs' e' :
  update_path_index fs e path set_leaf = Some (fs', e') →
  fs' = fs ∨ ∃ b dir, directory_of (m_name fs) path = Some (b, dir) ∧ fs' = set_paths fs (m_paths fs ++ [dir]).
Proof.
  unfold update_path_index, directory_of. destruct (is_complete path).
  { destruct (set_name e path false); [|done]. intros [= <- _]. by left. }
  destruct (rsplit_path path) as [branch leaf]. cbn [fst]. destruct branch as [|c b].
  { destruct (if set_leaf then _ else _); [|done]. intros [= <- _]. by left. }
  set (root := same_string _ (m_name fs)). set (dir := if root then _ else c :: b).
  assert (Some (if root then (true, dir) else (false, dir)) = Some (if root
    then (true, strip_separators (lsplit_path (c :: b)).2) else (false, c :: b))) as <- by (by unfold dir; destruct root).
  unfold get_or_add_path. destruct (find_last (m_paths fs) dir).
  - destruct (if set_leaf then _ else _); [|done]. intros [= <- _]. by left.
  - destruct (if set_leaf then _ else _); [|done]. intros [= <- _]. right. destruct root; by eexists _, dir.
Qed.

(** what adding a file changes of the paths and the links *)
Record also_added (fs fs' : file_storage) (path link : list Z) : Prop := {
  aa_paths : m_paths fs' = m_paths fs ∨
    ∃ b dir, directory_of (new_name fs path) path = Some (b, dir) ∧ m_paths fs' = m_paths fs ++ [dir];
  aa_links : m_symlinks fs' = m_symlinks fs ∨ m_symlinks fs' = m_symlinks fs ++ [link];
  aa_piece_length : m_piece_length fs' = m_piece_length fs
}.

Lemma add_rest fs filename path n flags h mt link fs' :
  add_file_borrow fs filename path n flags h mt link = Some fs' → also_added fs fs' path link.
Proof.
  rewrite add_file_borrow_eq.
  destruct (update_path_index _ _ _ _) as [[fs1 e]|] eqn:Hu; [|done]. cbn [mbind option_bind].
  apply update_path_index_rest in Hu. cbn [m_paths m_name set_storage_name] in Hu.
  destruct (match filename with [] => Some e | _ => _ end); [|done]. cbn [mbind option_bind].
  destruct (with_last (m_file_hashes fs1) _ _ _); [|done]. cbn [mbind option_bind].
  destruct (with_last (m_mtime fs1) _ _ _); [|done]. cbn [mbind option_bind].
  intros [= <-]. split; cbn [m_paths m_symlinks m_piece_length].
  - destruct Hu as [->|(b & dir & Hdir & ->)]; [by left|]. right. by exists b, dir.
  - destruct Hu as [->|(b & dir & _ & ->)]; cbn [m_symlinks set_paths set_storage_name];
      destruct (records_link _ link); auto.
  - by destruct Hu as [->|(b & dir & _ & ->)].
Qed.

Lemma join_is_path l : Forall safe_element l → is_path (join l).
Proof. intros Hl. exists l. split; [by apply safe_elements|done]. Qed.

(** the end of a path is a path *)
Lemma path_suffix l p s :
  elements_ok l → join l = p ++ s → s ≠ [] → head s ≠ Some separator → is_path s.
Proof.
  intros Hl. revert p. induction Hl as [|x l Hx Hl IH]; intros p Hj Hs Hh.
  { symmetry in Hj. by apply app_nil in Hj as [_ ->]. }
  assert (∀ t, x = p ++ t → s = t ++ drop (length x) (join (x :: l)) → is_path s) as Hin.
  { intros t Ht ->. destruct (decide (l = [])) as [->|Hne].
    - cbn [join] in *. rewrite drop_all, app_nil_r in *. exists [t]. split; [|done]. apply Forall_singleton.
      destruct Hx as [_ H1 H2 H3]. subst x. rewrite not_elem_of_app in H1, H2, H3. split; tauto.
    - rewrite join_cons, drop_app_length in * by done. exists (t :: l). split; [|by rewrite join_cons].
      constructor; [|done]. destruct Hx as [_ H1 H2 H3]. subst x. rewrite not_elem_of_app in H1, H2, H3.
      split; [|tauto..]. by intros ->. }
  destruct (decide (l = [])) as [->|Hne].
  - cbn [join] in Hj. apply (Hin s); [done|]. cbn [join]. by rewrite drop_all, app_nil_r.
  - rewrite join_cons in Hj by done. apply app_eq_inv in Hj as [(t & Ht & ->)|(t & -> & Ht)].
    + apply (Hin t); [done|]. by rewrite join_cons, drop_app_length by done.
    + destruct t as [|c t]; [cbn [app] in Ht; by subst s|]. injection Ht as _ Ht. by eapply IH.
Qed.

Lemma vget_app_Some {A} (v w : list A) i x : v⟦i⟧ = Some x → (v ++ w)⟦i⟧ = Some x.
Proof. intros H. pose proof (vget_Some_range _ _ _ H). by rewrite vget_app_l by lia. Qed.

(** the leaf of a file of the torrent *)
Definition leaf_name (f : file_item) (l : list (list Z)) : list Z :=
  match fi_name f with [] => default [] (list.last l) | name => name end.

(** how the file [f] with the path [l] is stored *)
Definition file_at (fs : file_storage) (i : Z) (f : file_item) (l : list (list Z)) : Prop :=
  ∃ e, (m_files fs)⟦i⟧ = Some e ∧ fe_size e = fi_size f ∧ placed fs (join l) e ∧
    entry_filename e = Some (leaf_name f l).

Lemma file_at_more fs fs' i f l e extra :
  file_at fs i f l → m_files fs' = m_files fs ++ [e] → m_name fs' = m_name fs → m_paths fs' = m_paths fs ++ extra →
  file_at fs' i f l.
Proof.
  intros (e0 & He & Hs & Hp & Hn) Hf Hname Hpaths. exists e0. split; [rewrite Hf; by apply vget_app_Some|].
  split; [done|]. split; [|done]. unfold placed in *. rewrite Hname.
  destruct (directory_of _ _) as [[b dir]|]; [|done]. destruct Hp as [Hi Hr]. split; [|done].
  rewrite Hpaths. by apply vget_app_Some.
Qed.

Lemma sum_by_snoc {A} (f : A → Z) l x : sum_by f (l ++ [x]) = sum_by f l + f x.
Proof. unfold sum_by. rewrite foldr_app. cbn [foldr]. induction l as [|y l IH]; cbn [foldr]; [lia|]. rewrite IH. lia. Qed.

(** the name that the first file gives *)
Definition named (fs : file_storage) (fl : list (file_item * list (list Z))) : Prop :=
  match fl with [] => m_name fs = [] | (f, l) :: _ => head l = Some (m_name fs) end.

Definition total_of (fl : list (file_item * list (list Z))) : Z := sum_by (λ p, fi_size p.1) fl.

(** the targets of the links, as the torrent gives them *)
Definition targets_of (fs : file_storage) (fl : list (file_item * list (list Z))) : Prop :=
  ∀ i f l idx, fl⟦i⟧ = Some (f, l) → link_at fs i idx → (m_symlinks fs)⟦idx⟧ = Some (fi_target f).

(** the files [fl], with their paths, have been added *)
Record files_inv (fs : file_storage) (fl : list (file_item * list (list Z))) : Prop := {
  fv_ok : storage_ok fs;
  fv_paths : paths_ok fs;
  fv_size : num_files fs = vsize fl;
  fv_total : m_total_size fs = total_of fl;
  fv_name : named fs fl;
  fv_own : own_targets fs;
  fv_targets : targets_of fs fl;
  fv_files : ∀ i f l, fl⟦i⟧ = Some (f, l) → file_at fs i f l
}.

Lemma elements_last l : Forall safe_element l → l ≠ [] → ∃ k x, l = k ++ [x] ∧ elements_ok (k ++ [x]).
Proof.
  intros Hl Hn. destruct (exists_last Hn) as (k & x & ->). exists k, x. split; [done|]. by apply safe_elements.
Qed.

Lemma directory_is_path name l b dir :
  Forall safe_element l → l ≠ [] → directory_of name (join l) = Some (b, dir) → is_path dir.
Proof.
  intros Hl Hn. destruct (elements_last l Hl Hn) as (k & x & -> & Hok). rewrite directory_of_join by done.
  apply elements_snoc in Hok as [Hk _]. destruct k as [|r k]; [done|].
  pose proof Hk as [_ Hk']%Forall_cons. destruct (same_string r name); intros [= <- <-]; [by exists k|by exists (r :: k)].
Qed.

(** the leaf of a file that is read is a path *)
Lemma leaf_is_path r top cnt f l : item_ok r top cnt f l → is_path (leaf_name f l) ∧ leaf_name f l ≠ [].
Proof.
  intros [Hp Hs Hn _ _ _ _ Hname]. destruct (elements_last l Hs Hn) as (k & x & -> & Hok).
  unfold leaf_name. rewrite last_snoc. destruct (fi_name f) as [|c s] eqn:Hf.
  - cbn [default]. apply elements_snoc in Hok as [_ Hx]. split; [|apply Hx].
    exists [x]. split; [by apply Forall_singleton|done].
  - destruct Hname as [|(p & Hj & Hh)]; [done|]. split; [|done].
    by apply (path_suffix (k ++ [x]) p).
Qed.

Lemma internal_path_more fs fs' e extra j p :
  storage_ok fs → m_files fs' = m_files fs ++ [e] → m_paths fs' = m_paths fs ++ extra → 0 ≤ j < num_files fs →
  internal_file_path fs' j = Some p → internal_file_path fs j = Some p.
Proof.
  intros Hok Hf Hp Hj. destruct (entry_at fs j Hok Hj) as (e' & He & [_ Hpi _]).
  unfold internal_file_path. rewrite Hf, vget_app_l, He by (unfold num_files in Hj; lia). cbn [mbind option_bind].
  destruct (entry_filename e') as [leaf|]; [|done]. cbn [mbind option_bind].
  destruct (Z.leb_spec 0 (fe_path_index e')); [|done]. by rewrite Hp, vget_app_l by lia.
Qed.

(** the entry of a new file has a path *)
Lemma internal_path_new fs i e leaf p :
  (m_files fs)⟦i⟧ = Some e → Forall is_path (m_paths fs) → entry_filename e = Some leaf → is_path leaf →
  internal_file_path fs i = Some p → is_path p.
Proof.
  intros He Hp Hn Hl. unfold internal_file_path. rewrite He. cbn [mbind option_bind]. rewrite Hn. cbn [mbind option_bind].
  destruct (0 <=? fe_path_index e); [|by intros [= <-]].
  destruct ((m_paths fs)⟦fe_path_index e⟧) as [d|] eqn:Hd; [|done]. cbn [mbind option_bind]. intros [= <-].
  apply append_is_path; [|done]. apply append_is_path; [exists []; split; [apply Forall_nil_2|done]|].
  apply vget_elem_of in Hd. rewrite Forall_forall in Hp. by apply Hp.
Qed.

(** the name of the storage is kept, but for its first file *)
Lemma named_added fs fs' fl f l :
  num_files fs = vsize fl → named fs fl → Forall safe_element l → l ≠ [] → 2 ≤ vsize l ∨ fl = [] →
  m_name fs' = new_name fs (join l) → named fs' (fl ++ [(f, l)]).
Proof.
  intros Hsz Hn Hl Hln Hmulti Hm. pose proof (safe_elements l Hl) as Hok. revert Hm.
  unfold new_name, named. rewrite has_parent_path_join by done. destruct l as [|x l]; [done|].
  destruct fl as [|[g m] fl].
  - cbn [app]. intros ->. replace (m_files fs) with (@nil internal_file_entry)
      by (unfold num_files in Hsz; revert Hsz; destruct (m_files fs); [done|unfold vsize; cbn; lia]).
    rewrite lsplit_path_join by done. case_bool_decide as H1; [done|]. cbn [negb].
    destruct l as [|y l]; [done|]. cbn in H1. lia.
  - destruct Hmulti as [H2|]; [|done]. rewrite bool_decide_eq_true_2 by (revert H2; unfold vsize; lia). cbn [negb app]. intros ->.
    destruct (m_files fs) eqn:E; [|done]. exfalso. unfold num_files in Hsz. rewrite E in Hsz.
    unfold vsize in Hsz. cbn in Hsz. lia.
Qed.

Lemma add_item_spec r top cnt fs fl f l :
  files_inv fs fl → item_ok r top cnt f l → m_total_size fs + fi_size f < max_total →
  vsize (fi_name f) < name_is_owned → 2 ≤ vsize l ∨ fl = [] →
  ∃ fs', add_item fs f = Some fs' ∧ files_inv fs' (fl ++ [(f, l)]) ∧
    m_total_size fs' = m_total_size fs + fi_size f ∧ m_piece_length fs' = m_piece_length fs.
Proof.
  intros [Hok [Hdirs Hfiles Htargets] Hsz Hsum Hname0 Hown Htg Hat] Hi Htot Hlen Hmulti.
  destruct (leaf_is_path _ _ _ _ _ Hi) as [Hleaf Hleafn]. pose proof Hi as [Hp Hs Hn _ Hfs Hh (t & Ht & Hts) _].
  destruct (elements_last l Hs Hn) as (k & x & Hk & Hkx).
  destruct (add_file_borrow_spec fs (fi_name f) (fi_path f) (fi_size f) (fi_flags f) (fi_hash f) (fi_mtime f) (fi_target f))
    as (fs' & e & Hrun & Hok' & Ha); try done.
  { intros _. rewrite Hp, Hk, leaf_of_join by done. apply elements_snoc in Hkx as [_ Hx]. apply Hx. }
  pose proof (add_rest _ _ _ _ _ _ _ _ _ Hrun) as [Hpaths Hlinks Hpl]. rewrite Hp in Ha, Hpaths.
  pose proof (added_own_targets _ _ _ _ _ _ _ _ _ _ Hok Hown Ha) as Hown'.
  pose proof (λ i idx, added_link _ _ _ _ _ _ _ _ _ _ i idx Hok Ha) as Hlink.
  destruct Ha as [Af An As Ao At Ap Al _ _ _ _ _ _ _ _ [extra Hex]].
  exists fs'. split; [done|]. split; [|done].
  assert (Forall is_path (m_paths fs')) as Hdirs'.
  { destruct Hpaths as [->|(b & dir & Hdir & ->)]; [done|]. apply Forall_app. split; [done|].
    apply Forall_singleton. by apply (directory_is_path (new_name fs (join l)) l b). }
  assert ((m_files fs')⟦num_files fs⟧ = Some e) as He by (rewrite Af; apply vget_middle).
  assert (entry_filename e = Some (leaf_name f l)) as Hname.
  { rewrite Al. unfold leaf_name. destruct (fi_name f); [|done]. rewrite Hk, leaf_of_join, last_snoc by done. cbn.
    apply elements_snoc in Hkx as [_ Hx]. by rewrite c_str_id by apply Hx. }
  assert (num_files fs' = num_files fs + 1) as Hnum by (unfold num_files; rewrite Af; vsize).
  assert (m_name fs' = new_name fs (join l)) as Hnew by (done).
  split; [done| |rewrite Hnum, Hsz; vsize|by unfold total_of; rewrite sum_by_snoc, At, Hsum|by eapply named_added|done| |].
  - split; [done| |].
    + intros p [j Hj]. assert (0 ≤ j < num_files fs') as Hr.
      { unfold internal_file_path in Hj. destruct ((m_files fs')⟦j⟧) eqn:E; [|done]. by eapply vget_Some_range. }
      destruct (decide (j = num_files fs)) as [->|Hne].
      * by eapply internal_path_new.
      * apply Hfiles. exists j. eapply internal_path_more; [done|done|done|lia|done].
    + rewrite Ht in Hlinks. destruct Hlinks as [->| ->]; [done|]. apply Forall_app. split; [done|].
      apply Forall_singleton. right. by apply join_is_path.
  - intros i g m idx Hg Hl. destruct (Hlink i idx Hl) as [(Hl' & _ & ->)|(-> & _ & ->)].
    + apply (Htg i g m idx); [|done]. destruct Hl' as (e2 & Hx & _). apply vget_Some_range in Hx.
      rewrite vget_app_l in Hg; [done|]. unfold num_files in Hsz. lia.
    + rewrite Hsz, vget_middle in Hg. by injection Hg as -> ->.
  - intros i g m Hg. destruct (decide (i = vsize fl)) as [->|Hne].
    + rewrite vget_middle in Hg. injection Hg as <- <-. exists e. rewrite <-Hsz. done.
    + assert (0 ≤ i < vsize fl) as Hr by (pose proof (vget_Some_range _ _ _ Hg) as Hr; revert Hr; vsize).
      rewrite vget_app_l in Hg by lia. eapply file_at_more; [by apply Hat|done| |done].
      rewrite An. unfold new_name. rewrite Hk, has_parent_path_join by done.
      destruct Hmulti as [H2| ->]; [|unfold vsize in Hr; cbn in Hr; lia].
      rewrite bool_decide_eq_true_2; [|rewrite <-Hk; unfold vsize in H2; lia].
      destruct (m_files fs) eqn:E; [|done]. exfalso. unfold num_files in Hsz. rewrite E in Hsz.
      unfold vsize in *. cbn in Hsz. lia.
Qed.

(** * A list of files *)

Definition add_file_of (root : list Z) (acc : res (list file_item * Z)) (c : cst) : res (list file_item * Z) :=
  match acc with
  | failed ec => failed ec
  | ok (fl, n) =>
      match file_of c root false n with
      | failed ec => failed ec
      | ok (f, n) => ok (fl ++ [f], n)
      end
  end.

(** the files of a list, up to the first that cannot be read *)
Definition files_of (items : list cst) (root : list Z) : res (list file_item * Z) :=
  fold_left (add_file_of root) items (ok ([], 0)).

Lemma files_of_take items root i c :
  items⟦i⟧ = Some c →
  files_of (take (Z.to_nat (i + 1)) items) root = add_file_of root (files_of (take (Z.to_nat i) items) root) c.
Proof.
  intros Hc. pose proof (vget_Some_range _ _ _ Hc). replace (Z.to_nat (i + 1)) with (S (Z.to_nat i)) by lia.
  unfold vget in Hc. rewrite (proj2 (Z.ltb_ge i 0)) in Hc by lia. rewrite (take_S_r _ _ _ Hc).
  unfold files_of. by rewrite fold_left_app.
Qed.

Lemma files_of_failed items root i ec :
  files_of (take i items) root = failed ec → files_of items root = failed ec.
Proof.
  intros Hf. rewrite <-(take_drop i items). unfold files_of in *. rewrite fold_left_app, Hf.
  generalize (drop i items). intros l. by induction l.
Qed.

(** the size of a file, and the name that may be borrowed *)
Definition size_of (c : cst) : Z :=
  match c with
  | CDict l => if has_flag (attributes_of l) flag_symlink then 0 else Z.max 0 (int_at l (bytes_of "length") (-1))
  | _ => 0
  end.

Definition name_of (top_level : bool) (c : cst) : list Z :=
  match c with
  | CDict l =>
      if top_level then strip_separators (default [] (prefer_utf8 (string_at l) (bytes_of "name")))
      else
        match prefer_utf8 (list_at_key l) (bytes_of "path") with
        | Some items => strip_separators (default [] (list.last (default [] (names_of items))))
        | None => []
        end
  | _ => []
  end.

(** sizes and names that fit their fields *)
Record fits (top_level : bool) (items : list cst) : Prop := {
  ft_sizes : sum_by size_of items < max_total;
  ft_names : ∀ c, c ∈ items → vsize (name_of top_level c) < name_is_owned
}.

Lemma size_of_nonneg c : 0 ≤ size_of c.
Proof. destruct c as [neg ds|s|v|l]; cbn; try lia. destruct (has_flag _ _); lia. Qed.

Lemma path_name_of l root top cnt path name n :
  file_path_of l root top cnt = ok (path, name, n) → name = [] ∨ name = name_of top (CDict l).
Proof.
  unfold file_path_of, name_of, top_path_of, listed_path_of. destruct top.
  - destruct (prefer_utf8 (string_at l) (bytes_of "name")) as [s|]; [|done].
    destruct s as [|c s]; [done|]. destruct (append_element root (c :: s)); [done|]. intros [= _ <- _]. by right.
  - destruct (prefer_utf8 (list_at_key l) (bytes_of "path")) as [items|];
      [|destruct (has_flag _ _); [|done]; intros [= _ <- _]; by left].
    destruct items as [|c items]; [destruct (has_flag _ _); [|done]; intros [= _ <- _]; by left|].
    destruct (names_of (c :: items)) as [names|]; [|done]. intros [= _ <- _]. right.
    change (default [] (Some names)) with names. by destruct (list.last names).
Qed.

Lemma file_of_fits c root top cnt f n :
  file_of c root top cnt = ok (f, n) → fi_size f = size_of c ∧ (fi_name f = [] ∨ fi_name f = name_of top c).
Proof.
  unfold file_of. destruct c as [neg ds|s|v|l]; try done. unfold size_of.
  set (len := int_at l (bytes_of "length") (-1)).
  destruct (Z.ltb_spec (if has_flag (attributes_of l) flag_symlink then 0 else len) 0) as [|Hs]; [done|].
  destruct (file_path_of l root top cnt) as [[[path name] m]|] eqn:Hp; [|done].
  destruct (target_of l _); [|done]. intros [= <- _]. cbn [fi_size fi_name]. split.
  - destruct (has_flag _ flag_symlink); lia.
  - destruct (borrowed_name_spec path name) as [->|[-> _]]; [by left|]. by eapply path_name_of.
Qed.

(** the loop over the files: those of the first [i] items *)
Record files_read (items : list cst) (r : list (list Z)) (length_ i : Z) (fs : file_storage) (n : Z)
    (fl : list (file_item * list (list Z))) : Prop := {
  fr_files : files_of (take (Z.to_nat i) items) (join r) = ok (fl.*1, n);
  fr_inv : files_inv fs fl;
  fr_count : 0 ≤ n;
  fr_items : Forall (λ p, ∃ k, item_ok r false k p.1 p.2) fl;
  fr_size : vsize fl = i;
  fr_total : m_total_size fs = sum_by size_of (take (Z.to_nat i) items);
  fr_length : m_piece_length fs = length_
}.

(** a file is two elements deep *)
Lemma item_depth r k f l : r ≠ [] → item_ok r false k f l → 2 ≤ vsize l.
Proof.
  intros Hr [_ _ _ Hplace _ _ _ _]. destruct Hplace as [(es & Hes & ->)|[_ ->]]; [|by unfold vsize].
  unfold vsize. rewrite length_app. destruct r; [done|]. destruct es; [done|]. cbn [length]. lia.
Qed.

Lemma files_step items r len i c fs n fl :
  Forall safe_element r → r ≠ [] → of_bytes (CList items) → fits false items → items⟦i⟧ = Some c →
  files_read items r len i fs n fl →
  match file_of c (join r) false n with
  | failed ec => files_of items (join r) = failed ec
  | ok (f, m) => ∃ fs' l, add_item fs f = Some fs' ∧ files_read items r len (i + 1) fs' m (fl ++ [(f, l)])
  end.
Proof.
  intros Hr Hrn Hb [Hsum Hnames] Hc [Hf Hinv Hn Hit Hsz Htot Hlen].
  assert (of_bytes c) as Hbc by (eapply of_bytes_item; [exact Hb|]; by eapply vget_elem_of).
  pose proof (files_of_take items (join r) i c Hc) as Hnext. rewrite Hf in Hnext. cbn [add_file_of] in Hnext.
  destruct (file_of c (join r) false n) as [[f m]|ec] eqn:Hfo; [|by eapply files_of_failed].
  destruct (file_of_ok r c false n f m Hr Hbc Hrn Hn Hfo) as [Hm [l Hl]].
  destruct (file_of_fits _ _ _ _ _ _ Hfo) as [Hfs Hfn].
  assert (sum_by size_of (take (Z.to_nat (i + 1)) items) = sum_by size_of (take (Z.to_nat i) items) + size_of c) as Hs'.
  { pose proof (vget_Some_range _ _ _ Hc). replace (Z.to_nat (i + 1)) with (S (Z.to_nat i)) by lia.
    unfold vget in Hc. rewrite (proj2 (Z.ltb_ge i 0)) in Hc by lia. rewrite (take_S_r _ _ _ Hc). apply sum_by_snoc. }
  destruct (add_item_spec r false n fs fl f l Hinv Hl) as (fs' & Hrun & Hinv' & Ht' & Hl').
  - rewrite Htot, Hfs. rewrite <-Hs'. eapply Z.le_lt_trans; [|exact Hsum]. apply sum_by_take_le, size_of_nonneg.
  - destruct Hfn as [->| ->]; [done|]. apply Hnames. by eapply vget_elem_of.
  - left. by eapply item_depth.
  - exists fs', l. split; [done|]. split; try done.
    + rewrite Hnext, fmap_app. done.
    + apply Forall_app. split; [done|]. apply Forall_singleton. by exists n.
    + rewrite <-Hsz. vsize.
    + by rewrite Ht', Htot, Hfs, Hs'.
    + by rewrite Hl'.
Qed.

Lemma new_files_inv length_ : files_inv (set_piece_length new_file_storage length_) [].
Proof.
  split; [|split|done|done|done| | |]; try done.
  2:{ intros i j idx (e & He & _). unfold vget in He. cbn in He. destruct (i <? 0); by rewrite ?lookup_nil in He. }
  2:{ intros i f l idx Hf. unfold vget in Hf. destruct (i <? 0); by rewrite ?lookup_nil in Hf. }
  - intros p [j Hj]. unfold internal_file_path, vget in Hj. cbn in Hj. destruct (j <? 0); by rewrite ?lookup_nil in Hj.
  - intros i f l Hf. unfold vget in Hf. destruct (i <? 0); by rewrite ?lookup_nil in Hf.
Qed.

(** the storage that the files of a torrent give: the links are sanitized when
    all files are there *)
Record torrent_files (top : bool) (length_ : Z) (r : list (list Z)) (fs : file_storage)
    (fl : list (file_item * list (list Z))) : Prop := {
  tf_ok : storage_ok fs;
  tf_size : num_files fs = vsize fl;
  tf_total : m_total_size fs = total_of fl;
  tf_name : named fs fl;
  tf_length : m_piece_length fs = length_;
  tf_items : ∀ i f l, fl⟦i⟧ = Some (f, l) → (∃ n, item_ok r top n f l) ∧ file_at fs i f l;
  tf_links : ∃ fs0 n, storage_ok fs0 ∧ paths_ok fs0 ∧ own_targets fs0 ∧ targets_of fs0 fl ∧
    sanitized fs0 (set_num_pieces fs n)
}.

(** links are sanitized when the files are all there *)
Lemma files_finished r top fs fl :
  files_inv fs fl → Forall (λ p, ∃ k, item_ok r top k p.1 p.2) fl →
  ∃ fs', sanitize_symlinks fs = Some fs' ∧ torrent_files top (m_piece_length fs) r fs' fl.
Proof.
  intros [Hok Hp Hs Ht Hname Hown Htg Hat] Hit. destruct (sanitize_symlinks_spec fs Hok Hp) as (fs' & Hrun & Hsan).
  exists fs'. split; [done|]. pose proof Hsan as [Hrest Hsz _ _]. destruct Hok as [Hl [H1 H2 H3 H4]].
  split; try (by rewrite Hrest).
  - rewrite Hrest. split; [done|]. split; cbn; try done. by rewrite Hsz.
  - intros i f l Hf. split; [|rewrite Hrest; exact (Hat i f l Hf)]. rewrite Forall_forall in Hit.
    apply vget_elem_of in Hf. by apply (Hit (f, l)).
  - exists fs, (m_num_pieces fs). do 4 (split; [done|]). by replace (set_num_pieces fs' _) with fs' by (rewrite Hrest; by destruct fs).
Qed.

Lemma extract_files_spec n items length_ r :
  denotes n (CList items) → of_bytes (CList items) → Forall safe_element r → r ≠ [] → fits false items →
  match files_of items (join r) with
  | failed ec => extract_files n (set_piece_length new_file_storage length_) (join r) = Some (failed ec)
  | ok (fi, _) => ∃ fs fl, extract_files n (set_piece_length new_file_storage length_) (join r) = Some (ok fs) ∧
      fi = fl.*1 ∧ torrent_files false length_ r fs fl
  end.
Proof.
  intros Hn Hb Hr Hrn Hfit. unfold extract_files. rewrite (denotes_type n _ Hn). cbn [mbind option_bind].
  change (negb _) with false. cbv iota.
  list_loop items (λ i (s : file_storage * Z), ∃ fl, files_read items r length_ i s.1 s.2 fl)
    (λ ec, files_of items (join r) = failed ec) n1 out Hn1 Hres.
  - intros e i c [fs k] He Hc [fl Hfl]. cbn [fst snd] in *.
    destruct (denotes_list_at e items i c He Hc) as (e' & m & -> & He' & Hm). cbn [mbind option_bind].
    assert (of_bytes c) as Hbc by (eapply of_bytes_item; [exact Hb|]; by eapply vget_elem_of).
    rewrite (extract_single_file_spec m c fs (join r) false k Hm Hbc).
    pose proof (files_step items r length_ i c fs k fl Hr Hrn Hb Hfit Hc Hfl) as Hstep.
    destruct (file_of c (join r) false k) as [[f k']|ec]; [|by exists e', (failed ec)].
    destruct Hstep as (fs' & l & -> & Hread). exists e', (ok (fs', k')). split; [done|]. split; [done|]. by eexists.
  - done.
  - exists []. split; try done. apply new_files_inv.
  - cbn [mbind option_bind]. unfold try. cbn [mbind option_bind]. destruct out as [[fs k]|ec]; [|by rewrite Hres].
    destruct Hres as [fl [Hf Hinv _ Hit Hsz Htot Hlen]]. cbn [fst snd] in *.
    rewrite !take_ge in * by (unfold vsize in *; lia). rewrite Hf.
    destruct (files_finished r false fs fl Hinv Hit) as (fs' & -> & Hfin). rewrite Hlen in Hfin.
    cbn [mbind option_bind]. by exists fs', fl.
Qed.

(** * The names of the files *)

(** an element is appended as the text it becomes, or dropped *)
Lemma append_element_cases l v :
  Forall safe_element l → Forall byte v → strip_separators v ≠ [] →
  strip_separators v = dot ∧ append_element (join l) v = join l ∨
  ∃ t e, append_loop (length v) v 0 false (AddedText [] 0 0) = Some t ∧ at_text t = e ∧
    (safe_element e ∧ append_element (join l) v = join (l ++ [e]) ∨
     (e = [] ∨ e = dot ∨ e = dotdot) ∧ append_element (join l) v = join l).
Proof.
  intros Hl Hv Hs. destruct (decide (v = dot)) as [->|Hd]; [by left|]. right.
  destruct v as [|c v]; [done|].
  destruct (sanitize_spec (join l) (c :: v) Hv Hd) as (t & cps & Hrun & Ht & Hc & _ & _ & Hap); [done|].
  exists t, (utf8_of cps). split; [done|]. split; [done|]. unfold append_element. cbv zeta in Hap. rewrite Hap. cbn [from_option].
  destruct (decide (utf8_of cps = [] ∨ utf8_of cps = dot ∨ utf8_of cps = dotdot)) as [Hdec|Hdec]; [by right|]. left.
  assert (safe_element (utf8_of cps)) by (split; [by exists cps|tauto]). split; [done|]. by apply under_join.
Qed.

Lemma safe_elements_snoc k e : Forall safe_element k → safe_element e → elements_ok (k ++ [e]).
Proof. intros Hk He. apply safe_elements, Forall_app. split; [done|by apply Forall_singleton]. Qed.

(** the name that ends the path of an element [v]: it is the element of the
    path, or dots *)
Lemma name_of_element k v l p :
  Forall safe_element k → Forall byte v → l ≠ [] → Forall safe_element l →
  (append_element (join k) v = join l ∨ append_element (join k) v = join k) →
  let F := strip_separators v in
  join l = p ++ F → F ≠ [] → vsize F < 240 → list.last l = Some F ∨ F = dot ∨ F = dotdot.
Proof.
  intros Hk Hv Hln Hl Hc F Hj HF Hs.
  destruct (append_element_cases k v Hk Hv HF) as [[Hdot _]|(t & e & Hrun & Ht & He)]; [by right; left|].
  destruct He as [[He Ha]|[He Ha]].
  - left. pose proof (safe_elements_snoc k e Hk He) as Hke. rewrite Ha in Hc.
    destruct Hc as [Hc|Hc]; apply join_inj in Hc; try done; try by apply safe_elements.
    2:{ apply (f_equal length) in Hc. rewrite length_app in Hc. cbn in Hc. lia. }
    subst l. rewrite last_snoc. f_equal. symmetry.
    eapply (name_is_text (k ++ [e]) p v e t); try done. left. by rewrite last_snoc.
  - right. assert (F = e) as -> by (eapply (name_is_text l p v e t); try done; by right).
    destruct He as [->|[-> | ->]]; auto. done.
Qed.

(** appending elements makes a path longer *)
Lemma same_size_join r es :
  r ≠ [] → vsize (join (r ++ es)) = vsize (join r) → es = [].
Proof.
  intros Hr. destruct es as [|e es]; [done|]. rewrite join_app by done.
  unfold vsize. rewrite !length_app. cbn. rewrite ?length_app. lia.
Qed.

Lemma names_path_cases r names v :
  r ≠ [] → Forall safe_element r → (∀ s, s ∈ names ++ [v] → Forall byte s) →
  let P := (path_of_names (join r) (names ++ [v])).1 in
  ∃ k, Forall safe_element k ∧ (append_element (join k) v = P ∨ append_element (join k) v = join k).
Proof.
  intros Hr Hs Hb P. destruct (append_elements_join r names Hs) as (es & He & Hes).
  { intros s Hin. apply Hb. apply elem_of_app. by left. }
  assert (Forall safe_element (r ++ es)) as Hre by (by apply Forall_app).
  exists (r ++ es). split; [done|]. unfold P, path_of_names, append_elements. rewrite fold_left_app. cbn [fold_left fst].
  unfold append_elements in He. rewrite He.
  destruct (Z.eqb_spec (vsize (append_element (join (r ++ es)) v)) (vsize (join r))) as [Hz|Hz]; [|by left]. right.
  destruct (append_element_join (r ++ es) v Hre) as (es' & Ha & _).
  { apply Hb, elem_of_app. right. by apply list_elem_of_singleton. }
  rewrite Ha in *. rewrite <-app_assoc in Hz. apply same_size_join in Hz; [|done].
  apply app_nil in Hz as [-> ->]. by rewrite !app_nil_r.
Qed.

(** the borrowed name of a file is the last element of its path, or dots *)
Lemma name_of_file r c (top : bool) cnt f n l :
  Forall safe_element r → of_bytes c → (if top then r = [] else r ≠ []) →
  file_of c (join r) top cnt = ok (f, n) → fi_path f = join l → l ≠ [] → Forall safe_element l →
  vsize (name_of top c) < 240 →
  fi_name f = [] ∨ list.last l = Some (fi_name f) ∨ fi_name f = dot ∨ fi_name f = dotdot.
Proof.
  intros Hr Hb Ht Hf Hp Hln Hl Hs. destruct (file_of_fits _ _ _ _ _ _ Hf) as [_ Hn].
  destruct (decide (fi_name f = [])) as [?|Hne]; [by left|right]. destruct Hn as [?|Hn]; [done|].
  revert Hf. unfold file_of. destruct c as [neg ds|s|v|d]; try done.
  destruct (_ <? 0); [done|]. destruct (file_path_of d (join r) top cnt) as [[[path name] m]|] eqn:Hpath; [|done].
  destruct (target_of d _); [|done]. intros [= <- _]. cbn [fi_name fi_path] in *.
  destruct (borrowed_name_spec path name) as [?|[Hbn [p Hpn]]]; [done|]. rewrite Hbn in *. subst path.
  revert Hpath Hn. unfold file_path_of, name_of, top_path_of, listed_path_of. destruct top.
  - destruct (prefer_utf8 (string_at d) (bytes_of "name")) as [s|] eqn:Hs'; [|done].
    destruct s as [|c s]; [done|]. destruct (append_element (join r) (c :: s)) as [|y path] eqn:Ha; [done|].
    intros [= Hpath _ _] Hn. change (default [] (Some (c :: s))) with (c :: s) in Hn.
    rewrite Hn. apply (name_of_element r (c :: s) l p); try done.
    + by eapply prefer_bytes.
    + left. by rewrite Ha, Hpath.
    + by rewrite <-Hn.
    + by rewrite <-Hn.
    + revert Hs. unfold name_of. by rewrite Hs'.
  - destruct (prefer_utf8 (list_at_key d) (bytes_of "path")) as [items|] eqn:Hi;
      [|destruct (has_flag _ _); [|done]; intros [= _ <- _]; done].
    destruct items as [|c items]; [destruct (has_flag _ _); [|done]; intros [= _ <- _]; done|].
    destruct (names_of (c :: items)) as [names|] eqn:Hnames; [|done].
    change (default [] (Some names)) with names.
    assert (∀ s, s ∈ names → Forall byte s) as Hbn'.
    { intros s Hin. eapply names_of_bytes; [|exact Hnames|done]. by eapply prefer_list_bytes. }
    assert (names ≠ []) as Hnn.
    { intros ->. pose proof (names_of_size _ _ Hnames) as Hsz. revert Hsz. unfold vsize. cbn. lia. }
    destruct (exists_last Hnn) as (fr & v & ->). rewrite last_snoc. cbn [default]. intros [= Hpath _ _] Hn. change (id v) with v in Hn.
    destruct (names_path_cases r fr v Ht Hr Hbn') as (k & Hk & Hcase).
    rewrite Hn. apply (name_of_element k v l p); try done.
    + apply Hbn', elem_of_app. right. by apply list_elem_of_singleton.
    + destruct Hcase as [Hc|Hc]; [left|by right]. rewrite Hc. unfold path_of_names. exact Hpath.
    + by rewrite <-Hn.
    + by rewrite <-Hn.
    + revert Hs. unfold name_of. rewrite Hi, Hnames. change (default [] (Some (fr ++ [v]))) with (fr ++ [v]).
      by rewrite last_snoc.
Qed.
