(* ===== verification/TorrentNodes.v ===== *)
(** Where the strings of a torrent are: the nodes that are found in a node, by
    their offsets in its bytes. *)

From Stdlib Require Import String.
From S2P Require Import Prelude.
From stdpp Require Import list.
From S2P Require Import Bdecode.
From S2P Require Import BdecodeNode.
From S2P Require Import StringUtil.
From S2P Require Import BencodeGrammar.
From S2P Require Import BdecodeCorrect.
From S2P Require Import BdecodeNodeCorrect.
From S2P Require Import TorrentInfo.
From S2P Require Import TorrentFiles.

Open Scope Z_scope.
Open Scope torrent_scope.

(** the item in a buffer of its own, behind zeros *)
Lemma located_alone toks buf off idx c :
  located toks buf off idx c → located toks (replicate (Z.to_nat off) 0 ++ print c) off idx c.
Proof.
  intros Hl. pose proof (located_range _ _ _ _ _ Hl) as Hr.
  assert (vsize (replicate (Z.to_nat off) 0) = off) as Hz by (unfold vsize; rewrite length_replicate; lia).
  destruct Hl as (pre & next & post & bpre & bpost & Ht & Hi & Hb & Ho & Hn & Hok & Hmax).
  exists pre, next, post, (replicate (Z.to_nat off) 0), []. rewrite app_nil_r. split_and!; try done.
  rewrite vsize_app, Hz. lia.
Qed.

Lemma print_head c : cst_ok c → ∃ ch s, print c = ch :: s ∧ ch ≠ 0.
Proof.
  destruct 1 as [neg ds _ _|s (Hd & Hn & _)| |]; try by eexists _, _.
  cbn [print]. unfold print_str, digit_list in *. destruct (len_digits s) as [|d ds]; [exfalso; vsize in Hn; lia|].
  eexists d, _. split; [done|]. apply Forall_cons_1 in Hd as [Hd _]. apply numeric_range in Hd.
  unfold ch_0 in Hd. lia.
Qed.

(** the items of a container are within its bytes *)
Lemma child_located toks buf off idx c j x v :
  located toks buf off idx c → is_container c →
  idx_list (off + 1) (idx + 1) (items c) !! j = Some x → items c !! j = Some v →
  ∃ o, located toks buf o x v ∧ off ≤ o ∧ o + vsize (print v) ≤ off + vsize (print c).
Proof.
  intros Hl Hc Hx Hv. pose proof (located_range _ _ _ _ _ Hl) as Hr.
  destruct (located_container _ _ _ _ _ Hl Hc) as [_ Hi].
  destruct (Forall2_lookup_lr _ _ _ _ _ _ Hi Hx Hv) as (o & Ho). exists o. split; [done|].
  pose proof (located_alone _ _ _ _ _ Hl) as Ha. destruct (located_container _ _ _ _ _ Ha Hc) as [_ Hi0].
  destruct (Forall2_lookup_lr _ _ _ _ _ _ Hi0 Hx Hv) as (o0 & Ho0).
  assert (o0 = o) as ->.
  { destruct (located_token _ _ _ _ _ Ho) as (t & Ht & <- & _), (located_token _ _ _ _ _ Ho0) as (t0 & Ht0 & <- & _).
    by simplify_eq. }
  pose proof (located_range _ _ _ _ _ Ho0) as Hr0.
  assert (vsize (replicate (Z.to_nat off) 0 ++ print c) = off + vsize (print c)) as Hsz.
  { rewrite vsize_app. unfold vsize at 1. rewrite length_replicate. lia. }
  split; [|lia]. destruct (decide (off ≤ o)) as [|Hlt]; [done|exfalso].
  destruct Ho0 as (_ & _ & _ & bpre & bpost & _ & _ & Hb & Hbo & _ & Hok & _).
  destruct (print_head v Hok) as (ch & s & Hp & Hch). rewrite Hp in Hb.
  assert ((replicate (Z.to_nat off) 0 ++ print c)⟦o⟧ = Some ch) as Hget.
  { rewrite Hb, <-Hbo. apply vget_middle. }
  rewrite vget_app_l in Hget by (unfold vsize; rewrite length_replicate; lia).
  apply vget_elem_of, elem_of_replicate in Hget as [? _]. done.
Qed.

(** * Nodes within a node *)

(** [m] is the item [v], within the item [c] of the node [n] *)
Definition inside (n : bdecode_node) (c : cst) (m : bdecode_node) (v : cst) : Prop :=
  m_root_tokens m = m_root_tokens n ∧ m_buffer m = m_buffer n ∧
  ∃ off o, located (m_root_tokens n) (m_buffer n) off (m_token_idx n) c ∧
    located (m_root_tokens n) (m_buffer n) o (m_token_idx m) v ∧
    off ≤ o ∧ o + vsize (print v) ≤ off + vsize (print c).

Lemma inside_trans n c m v k w : inside n c m v → inside m v k w → inside n c k w.
Proof.
  intros (Ht & Hb & off & o & Hc & Hv & H1 & H2) (Ht' & Hb' & o' & p & Hv' & Hw & H3 & H4).
  rewrite Ht, Hb in *. split; [done|]. split; [done|]. exists off, p. split; [done|]. split; [done|].
  destruct (located_token _ _ _ _ _ Hv) as (t & Ht1 & <- & _), (located_token _ _ _ _ _ Hv') as (t' & Ht1' & <- & _).
  simplify_eq. lia.
Qed.

(** the same item, with caches of its own *)
Definition same_place (n n' : bdecode_node) : Prop :=
  m_root_tokens n' = m_root_tokens n ∧ m_buffer n' = m_buffer n ∧ m_token_idx n' = m_token_idx n.

Lemma same_place_trans n m k : same_place n m → same_place m k → same_place n k.
Proof. intros (? & ? & ?) (? & ? & ?). by split_and!; etrans. Qed.

Lemma inside_same n c m v m' : inside n c m v → same_place m m' → inside n c m' v.
Proof. intros (Ht & Hb & Hi) (Ht' & Hb' & Hi'). unfold inside. rewrite Ht', Hb', Hi'. done. Qed.

Lemma inside_of_same n n' c m v : same_place n n' → inside n' c m v → inside n c m v.
Proof. intros (Ht & Hb & Hi). unfold inside. by rewrite Ht, Hb, Hi. Qed.

Lemma list_size_same n n' k : list_size n = Some (n', k) → same_place n n'.
Proof.
  unfold list_size. intros H. destruct (negb _); [by injection H as <- _|].
  destruct (if negb (m_last_index n =? -1) then _ else _) as [token ret].
  destruct (count_items _ _ _ _); [|done]. cbn [mbind option_bind] in H. by injection H as <- _.
Qed.

Lemma list_at_inside n n' l i c m :
  denotes n (CList l) → l⟦i⟧ = Some c → list_at n i = Some (n', m) →
  same_place n n' ∧ inside n (CList l) m c.
Proof.
  intros (off & Hl & Hc) Hi. pose proof (vget_Some_range _ _ _ Hi).
  destruct (located_container _ _ _ _ _ Hl I) as [Hs Hit].
  destruct (idx_list_lookup _ _ _ _ _ _ _ Hit Hi) as (x & o & Hx & Ho). cbn [stride items] in *.
  pose proof (lookup_start_spec _ 1 n _ i x eq_refl Hs Hc ltac:(lia)) as Hls.
  unfold list_at. destruct (lookup_start n i) as [token item].
  rewrite !Z.mul_1_l in Hls. rewrite (Hls Hx). cbn [mbind option_bind]. intros [= <- <-]. split; [done|].
  split; [done|]. split; [done|]. exists off.
  unfold vget in Hi, Hx. rewrite (proj2 (Z.ltb_ge i 0)) in Hi, Hx by lia.
  destruct (child_located _ _ _ _ (CList l) _ _ _ Hl I Hx Hi) as (p & Hp). exists p. split; [done|]. exact Hp.
Qed.

Lemma dict_find_inside n l key v m :
  denotes n (CDict l) → find_pair key l = Some v → dict_find n key = Some m → inside n (CDict l) m v.
Proof.
  intros (off & Hl & Hc) Hf. unfold dict_find.
  destruct (located_container _ _ _ _ _ Hl I) as [Hs Hit].
  destruct (find_key_spec _ _ key l _ _ (S (length (m_root_tokens n))) Hs Hit) as (r & -> & Hr).
  { pose proof (siblings_bound _ _ _ Hs). pose proof (located_range _ _ _ _ _ Hl). unfold vsize in *. lia. }
  rewrite Hf in Hr. destruct Hr as (x & o & -> & Ho & j & Hx & Hv). cbn [mbind option_bind]. intros [= <-].
  split; [done|]. split; [done|]. exists off.
  destruct (child_located _ _ _ _ (CDict l) _ _ _ Hl I Hx Hv) as (p & Hp). exists p. split; [done|]. exact Hp.
Qed.

Lemma dict_find_type_inside ty n l key v m :
  denotes n (CDict l) → find_pair key l = Some v → cst_type v = ty → dict_find_type ty n key = Some m →
  inside n (CDict l) m v.
Proof.
  intros Hn Hf Hty. destruct (denotes_dict_find n l key Hn) as (m' & Hm & Hd). rewrite Hf in Hd.
  unfold dict_find_type. rewrite Hm. cbn [mbind option_bind]. rewrite (denotes_type _ _ Hd). cbn [mbind option_bind].
  rewrite decide_True by done. intros [= <-]. by eapply dict_find_inside.
Qed.

(** ** The offset of a string in the section *)

Lemma span_inner bpre s bpost k n x :
  span (bpre ++ s ++ bpost) (vsize bpre + k) n = Some x → 0 ≤ k → 0 ≤ n → k + n ≤ vsize s → span s k n = Some x.
Proof.
  intros Hs Hk Hn Hl. unfold span in *. rewrite !(proj2 (Z.leb_le _ _)) in * by lia. cbn [andb].
  destruct (_ && _); [|done]. rewrite <-Hs. f_equal. unfold vsize in *.
  rewrite Z2Nat.inj_add, Nat2Z.id, <-drop_drop, drop_app_length by lia.
  rewrite drop_app_le, take_app_le by (rewrite ?length_drop; lia). done.
Qed.

Lemma section_offset_spec info c e s :
  inside info c e (CStr s) →
  ∃ k, section_offset info e = Some k ∧ 0 ≤ k ∧ span (print c) k (vsize (content s)) = Some (content s).
Proof.
  intros (Ht & Hb & off & o & Hc & He & H1 & H2). unfold section_offset, string_ptr. rewrite Ht.
  destruct (located_token _ _ _ _ _ Hc) as (ti & Hti & <- & _). rewrite Hti. cbn [mbind option_bind].
  destruct (located_string _ _ _ _ _ He) as (t & sz & Hte & _ & _ & Hsz & Hlen & Ho & Hspan).
  rewrite Hte. cbn [mbind option_bind]. eexists. split; [done|].
  destruct (located_next _ _ _ _ _ He) as (nx & Hnx & Hnxo). change (vsize (tokens o (CStr s))) with 1 in Hnx.
  unfold token_source_span in Hsz. rewrite Hte, Hnx in Hsz. cbn [mbind option_bind] in Hsz. injection Hsz as <-.
  assert (0 ≤ start_offset t).
  { pose proof (print_str_size s) as Hp. change (print_str s) with (print (CStr s)) in Hp. pose proof (vsize_nonneg (len_digits s)). lia. }
  split; [lia|]. destruct Hc as (_ & _ & _ & bpre & bpost & _ & _ & Hbuf & Hbp & _).
  rewrite Hbuf in Hspan. apply (span_inner bpre _ bpost); [|lia|apply vsize_nonneg|lia].
  rewrite Hbp. by replace (offset ti + (offset t + start_offset t - offset ti)) with (offset t + start_offset t) by lia.
Qed.

(** * The lists of strings of the section *)

(** a loop over a list, which stays where it is *)
Lemma for_list_at {T} (body : bdecode_node → Z → Z → T → option (bdecode_node * res T)) l
    (J : Z → T → Prop) n0 s :
  (∀ n i c s, denotes n (CList l) → same_place n0 n → l⟦i⟧ = Some c → J i s →
     ∃ n' s', body n (vsize l) i s = Some (n', ok s') ∧ denotes n' (CList l) ∧ same_place n n' ∧ J (i + 1) s') →
  denotes n0 (CList l) → J 0 s →
  ∃ n' s', for_list body n0 s = Some (n', ok s') ∧ J (vsize l) s'.
Proof.
  intros Hbody Hn Hj. unfold for_list. destruct (denotes_list_size n0 l Hn) as (n1 & Hsz & Hn1).
  rewrite Hsz. cbn [mbind option_bind]. apply list_size_same in Hsz.
  destruct (for_items_spec (λ n i s, body n (vsize l) i s) l (λ n, denotes n (CList l) ∧ same_place n0 n) J (λ _, False)
    (Z.to_nat (vsize l)) n1 0 s) as (n' & r & -> & _ & Hr).
  - intros n i c t [Hd Hs] Hc Ht. destruct (Hbody n i c t Hd Hs Hc Ht) as (n' & t' & Hrun & Hd' & Hs' & Ht').
    exists n', (ok t'). split; [done|]. split; [|done]. split; [done|]. by eapply same_place_trans.
  - done.
  - done.
  - lia.
  - pose proof (vsize_nonneg l). lia.
  - destruct r as [t|]; [|done]. by exists n', t.
Qed.

(** the strings of a list with a property *)
Definition strings_with (P : list Z → bool) (items : list cst) : list (list Z) :=
  filter (λ s, P s = true) (omap string_of items).

Lemma strings_with_take P items i c :
  items⟦i⟧ = Some c →
  strings_with P (take (Z.to_nat (i + 1)) items) =
    strings_with P (take (Z.to_nat i) items) ++
      match string_of c with Some s => if P s then [s] else [] | None => [] end.
Proof.
  intros Hc. pose proof (vget_Some_range _ _ _ Hc). replace (Z.to_nat (i + 1)) with (S (Z.to_nat i)) by lia.
  unfold vget in Hc. rewrite (proj2 (Z.ltb_ge i 0)) in Hc by lia. rewrite (take_S_r _ _ _ Hc).
  unfold strings_with. rewrite omap_app, filter_app. f_equal. cbn. destruct (string_of c) as [s|]; [|done]. cbn.
  unfold filter, list_filter. cbn. by destruct (P s).
Qed.

Section section.
Context (info : bdecode_node) (ci : cst).

(** the places [offs] of the section hold the strings [l] *)
Definition holds_at (offs : list (Z * Z)) (l : list (list Z)) : Prop :=
  Forall2 (λ o s, span (print ci) o.1 o.2 = Some s ∧ o.2 = vsize s) offs l.

Lemma read_similar_spec n items found :
  denotes n (CList items) → inside info ci n (CList items) →
  ∃ offs, read_similar info n found = Some (found ++ offs) ∧
    holds_at (map (λ o, (o, 20)) offs) (strings_with (λ s, vsize s =? 20) items).
Proof.
  intros Hn Hin. unfold read_similar.
  match goal with |- context [for_list ?body ?n ?s] =>
    destruct (for_list_at body items (λ i found', ∃ offs, found' = found ++ offs ∧
      holds_at (map (λ o, (o, 20)) offs) (strings_with (λ s, vsize s =? 20) (take (Z.to_nat i) items))) n s)
      as (n1 & s1 & -> & Hs1) end.
  - intros m i c f Hm Hsame Hc (offs & -> & Hoffs).
    destruct (denotes_list_at m items i c Hm Hc) as (m1 & e1 & Hat1 & Hm1 & He1).
    destruct (list_at_inside m m1 items i c e1 Hm Hc Hat1) as [Hs1 _]. rewrite Hat1. cbn [mbind option_bind].
    rewrite (is_string_spec e1 c He1). cbn [mbind option_bind].
    pose proof (strings_with_take (λ s, vsize s =? 20) items i c Hc) as Hst.
    destruct (string_of c) as [s|] eqn:Hcs.
    2:{ rewrite bool_decide_eq_false_2 by (intros [? ?]; done). eexists _, _. split; [done|]. split; [done|]. split; [done|].
        exists offs. split; [done|]. by rewrite Hst, app_nil_r. }
    rewrite bool_decide_eq_true_2 by eauto. destruct c as [neg ds|v|v|v]; try done. injection Hcs as <-.
    destruct (denotes_list_at m1 items i _ Hm1 Hc) as (m2 & e2 & Hat2 & Hm2 & He2).
    destruct (list_at_inside m1 m2 items i _ e2 Hm1 Hc Hat2) as [Hs2 _]. rewrite Hat2. cbn [mbind option_bind].
    destruct (denotes_string e2 v He2) as [-> _]. cbn [mbind option_bind].
    destruct (Z.eqb_spec (vsize (content v)) 20) as [H20|H20].
    + destruct (denotes_list_at m2 items i _ Hm2 Hc) as (m3 & e3 & Hat3 & Hm3 & He3).
      destruct (list_at_inside m2 m3 items i _ e3 Hm2 Hc Hat3) as [Hs3 Hin3]. rewrite Hat3. cbn [mbind option_bind].
      assert (same_place n m2) as Hnm by (by do 2 (eapply same_place_trans; [|done])).
      destruct (section_offset_spec info ci e3 v) as (k & -> & Hk & Hspan).
      { eapply inside_trans; [exact Hin|]. by eapply inside_of_same. }
      cbn [mbind option_bind]. eexists _, _. split; [done|]. split; [done|].
      split; [by do 2 (eapply same_place_trans; [done|])|].
      exists (offs ++ [k]). split; [by rewrite app_assoc|]. rewrite Hst, map_app. apply Forall2_app; [done|].
      rewrite H20 in Hspan. by repeat constructor.
    + eexists _, _. split; [done|]. split; [done|]. split; [by eapply same_place_trans|].
      exists offs. split; [done|]. by rewrite Hst, app_nil_r.
  - done.
  - exists []. split; [by rewrite app_nil_r|]. constructor.
  - cbn [mbind option_bind]. destruct Hs1 as (offs & -> & Hh). exists offs. split; [done|].
    by rewrite take_ge in Hh by (unfold vsize; lia).
Qed.

Lemma read_collections_spec n items found :
  denotes n (CList items) → inside info ci n (CList items) →
  ∃ offs, read_collections info n found = Some (found ++ offs) ∧
    holds_at offs (strings_with (λ _, true) items).
Proof.
  intros Hn Hin. unfold read_collections.
  match goal with |- context [for_list ?body ?n ?s] =>
    destruct (for_list_at body items (λ i found', ∃ offs, found' = found ++ offs ∧
      holds_at offs (strings_with (λ _, true) (take (Z.to_nat i) items))) n s)
      as (n1 & s1 & -> & Hs1) end.
  - intros m i c f Hm Hsame Hc (offs & -> & Hoffs).
    destruct (denotes_list_at m items i c Hm Hc) as (m1 & e1 & Hat1 & Hm1 & He1).
    destruct (list_at_inside m m1 items i c e1 Hm Hc Hat1) as [Hs1 Hin1]. rewrite Hat1. cbn [mbind option_bind].
    rewrite (is_string_spec e1 c He1). cbn [mbind option_bind].
    pose proof (strings_with_take (λ _, true) items i c Hc) as Hst.
    destruct (string_of c) as [s|] eqn:Hcs.
    2:{ rewrite bool_decide_eq_false_2 by (intros [? ?]; done). eexists _, _. split; [done|]. split; [done|]. split; [done|].
        exists offs. split; [done|]. by rewrite Hst, app_nil_r. }
    rewrite bool_decide_eq_true_2 by eauto. destruct c as [neg ds|v|v|v]; try done. injection Hcs as <-.
    destruct (section_offset_spec info ci e1 v) as (k & -> & Hk & Hspan).
    { eapply inside_trans; [exact Hin|]. by eapply inside_of_same. }
    cbn [mbind option_bind]. destruct (denotes_string e1 v He1) as [-> _]. cbn [mbind option_bind].
    eexists _, _. split; [done|]. split; [done|]. split; [done|].
    exists (offs ++ [(k, vsize (content v))]). split; [by rewrite app_assoc|]. rewrite Hst. apply Forall2_app; [done|].
    by repeat constructor.
  - done.
  - exists []. split; [by rewrite app_nil_r|]. constructor.
  - cbn [mbind option_bind]. destruct Hs1 as (offs & -> & Hh). exists offs. split; [done|].
    by rewrite take_ge in Hh by (unfold vsize; lia).
Qed.
End section.
