(* ===== verification/TorrentSection.v ===== *)
(** What [parse_info_section] makes of an info dictionary: which error it
    reports, or what the members of the [torrent_info] are. *)

From Stdlib Require Import String.
From S2P Require Import Prelude.
From stdpp Require Import list.
From S2P Require Import StringUtil.
From S2P Require Import Path.
From S2P Require Import PathCorrect.
From S2P Require Import Bdecode.
From S2P Require Import BdecodeNode.
From S2P Require Import BencodeGrammar.
From S2P Require Import BdecodeNodeCorrect.
From S2P Require Import BdecodeWalk.
From S2P Require Import FileStorage.
From S2P Require Import FileLayout.
From S2P Require Import FileOps.
From S2P Require Import FileSymlinks.
From S2P Require Import FileLinks.
From S2P Require Import Utf8Correct.
From S2P Require Import TorrentPath.
From S2P Require Import TorrentInfo.
From S2P Require Import TorrentFiles.
From S2P Require Import TorrentCorrect.
From S2P Require Import TorrentNodes.

Open Scope Z_scope.
Open Scope torrent_scope.

(** * Merkle trees *)

(** the number of leafs is the least power of two that is enough *)
Lemma merkle_num_leafs_spec pieces :
  1 ≤ pieces ≤ 2 ^ 30 →
  ∃ k, merkle_num_leafs pieces = Some (2 ^ k) ∧ 0 ≤ k ≤ 30 ∧ pieces ≤ 2 ^ k ∧ (k = 0 ∨ 2 ^ (k - 1) < pieces).
Proof.
  intros Hp. unfold merkle_num_leafs.
  assert (∀ fuel j, 0 ≤ j ≤ 30 → 30 < j + Z.of_nat fuel → (j = 0 ∨ 2 ^ (j - 1) < pieces) →
    ∃ k, leafs_loop fuel pieces (2 ^ j) = Some (2 ^ k) ∧ 0 ≤ k ≤ 30 ∧ pieces ≤ 2 ^ k ∧ (k = 0 ∨ 2 ^ (k - 1) < pieces))
    as Hloop; [|by apply (Hloop 31%nat 0); [lia|lia|left]].
  induction fuel as [|fuel IH]; intros j Hj Hf Hlow; [lia|]. cbn [leafs_loop].
  destruct (Z.ltb_spec (2 ^ j) pieces) as [Hlt|Hge]; [|by exists j].
  assert (j < 30) as Hj30.
  { destruct (decide (j < 30)); [done|]. replace j with 30 in Hlt by lia. lia. }
  rewrite (proj2 (Z.ltb_lt _ _)) by (apply Z.pow_lt_mono_r; lia).
  rewrite Z.shiftl_mul_pow2 by lia. change (2 ^ 1) with 2.
  replace (2 ^ j * 2) with (2 ^ (j + 1)) by (rewrite Z.pow_add_r by lia; lia).
  apply IH; [lia|lia|]. right. by replace (j + 1 - 1) with j by lia.
Qed.

(** * The name of the torrent *)

Lemma hex_digit_clean c : c ∈ hex_chars → clean_char c ∧ c < 128.
Proof.
  intros Hc. assert (Forall (λ c, clean_char c ∧ c < 128) hex_chars) as Hall.
  { change hex_chars with [48; 49; 50; 51; 52; 53; 54; 55; 56; 57; 97; 98; 99; 100; 101; 102].
    repeat (apply Forall_cons_2 || apply Forall_nil_2); (unfold clean_char, scalar; lia). }
  rewrite Forall_forall in Hall. by apply Hall.
Qed.

Lemma to_hex_chars s h : to_hex s = Some h → ∀ c, c ∈ h → c ∈ hex_chars.
Proof.
  revert h. induction s as [|b s IH]; intros h; cbn [to_hex]; [intros [= <-] c Hc; by apply elem_of_nil in Hc|].
  destruct (hex_chars⟦Z.shiftr b 4⟧) as [hi|] eqn:Hhi; [|done]. cbn [mbind option_bind].
  destruct (hex_chars⟦Z.land b 15⟧) as [lo|] eqn:Hlo; [|done]. cbn [mbind option_bind].
  destruct (to_hex s) as [out|]; [|done]. intros [= <-] c. rewrite !elem_of_cons.
  intros [->|[->|Hc]]; [by eapply vget_elem_of|by eapply vget_elem_of|by apply (IH out)].
Qed.

(** a digest in hexadecimal names a directory *)
Lemma to_hex_safe s :
  Forall byte s → vsize s = 20 → ∃ h, to_hex s = Some h ∧ h ≠ [] ∧ safe_element h.
Proof.
  intros Hb Hs. destruct (to_hex_spec s Hb) as (h & Hh & _ & Hl & _). exists h. split; [done|].
  assert (h ≠ []) as Hn by (intros ->; unfold vsize in *; cbn in *; lia). split; [done|].
  split; [apply ascii_clean, Forall_forall; intros c Hc; eapply hex_digit_clean, to_hex_chars; done|].
  split; [done|]. split; intros ->; unfold vsize in *; cbn in *; lia.
Qed.

(** what the code relies on of SHA-1 *)
Definition sha1_ok `{Sha1} : Prop := ∀ s, Forall byte (sha1 s) ∧ vsize (sha1 s) = 20.

Definition torrent_name_of (hex name : list Z) : list Z :=
  match append_element [] name with [] => hex | path => path end.

Lemma torrent_name_spec `{Sha1} (s name : list Z) :
  sha1_ok → Forall byte name →
  ∃ h r, to_hex (sha1 s) = Some h ∧ torrent_name_of h name = join r ∧ Forall safe_element r ∧ r ≠ [].
Proof.
  intros Hsha Hb. destruct (Hsha s) as [Hh1 Hh2]. destruct (to_hex_safe (sha1 s) Hh1 Hh2) as (h & Hh & _ & Hsafe).
  exists h. unfold torrent_name_of. destruct (append_element_join [] name ltac:(done) Hb) as (es & Ha & Hes).
  change (join []) with (@nil Z) in Ha. rewrite Ha. change ([] ++ es) with es. destruct es as [|e es].
  - exists [h]. split; [done|]. split; [done|]. split; [by apply Forall_singleton|done].
  - exists (e :: es). split; [done|]. split; [|done]. pose proof (join_not_nil _ (safe_elements _ Hes) ltac:(done)).
    by destruct (join (e :: es)).
Qed.

(** * The files *)

(** the files that the dictionary describes *)
Definition files_described (l : list (bstr * cst)) (root : list Z) : res (list file_item) :=
  match list_at_key l (bytes_of "files") with
  | Some items => match files_of items root with ok (fl, _) => ok fl | failed ec => failed ec end
  | None => match file_of (CDict l) [] true 0 with ok (f, _) => ok [f] | failed ec => failed ec end
  end.

Definition is_multifile (l : list (bstr * cst)) : bool :=
  match list_at_key l (bytes_of "files") with Some _ => true | None => false end.

Definition fits_info (l : list (bstr * cst)) : Prop :=
  match list_at_key l (bytes_of "files") with Some items => fits false items | None => fits true [CDict l] end.

(** the root of the paths: a torrent with one file has none *)
Definition root_of (multi : bool) (r : list (list Z)) : list (list Z) := if multi then r else [].

Lemma extract_one_spec n l length_ :
  denotes n (CDict l) → of_bytes (CDict l) → fits true [CDict l] →
  match file_of (CDict l) [] true 0 with
  | failed ec => extract_single_file n (set_piece_length new_file_storage length_) [] true 0 = Some (failed ec)
  | ok (f, _) => ∃ fs fs' k p, extract_single_file n (set_piece_length new_file_storage length_) [] true 0 = Some (ok (fs, k)) ∧
      sanitize_symlinks fs = Some fs' ∧ torrent_files true length_ [] fs' [(f, p)]
  end.
Proof.
  intros Hn Hb [Hsz Hnm]. rewrite (extract_single_file_spec n _ _ [] true 0 Hn Hb).
  destruct (file_of (CDict l) [] true 0) as [[f k]|ec] eqn:Hf; [|done].
  destruct (file_of_ok [] (CDict l) true 0 f k) as [Hk [p Hp]]; try done.
  destruct (file_of_fits _ _ _ _ _ _ Hf) as [Hfs Hfn].
  destruct (add_item_spec [] true 0 _ [] f p (new_files_inv length_) Hp) as (fs & Hrun & Hinv & Ht & Hl).
  - rewrite Hfs. cbn in Hsz |- *. lia.
  - destruct Hfn as [->| ->]; [done|]. apply Hnm. by apply list_elem_of_singleton.
  - by right.
  - rewrite Hrun. cbn [mbind option_bind].
    destruct (files_finished [] true fs [(f, p)] Hinv) as (fs' & Hsan & Htf).
    { apply Forall_singleton. by exists 0. }
    rewrite Hl in Htf. by exists fs, fs', k, p.
Qed.

(** the path of a file on the disk *)
Lemma torrent_file_path top len r fs fl i f l save :
  torrent_files top len r fs fl → fl⟦i⟧ = Some (f, l) →
  fi_name f = [] ∨ list.last l = Some (fi_name f) →
  Forall safe_element l ∧ file_path fs i save = Some (append_path save (join l)).
Proof.
  intros Ht Hf Hname. destruct (tf_items _ _ _ _ _ Ht i f l Hf) as [[n Hi] (e & He & _ & Hp & Hleaf)].
  pose proof (io_safe _ _ _ _ _ Hi) as Hs. split; [done|].
  destruct (elements_last l Hs (io_some _ _ _ _ _ Hi)) as (k & x & Hk & Hok).
  assert (leaf_name f l = x) as Hx.
  { unfold leaf_name. rewrite Hk, last_snoc in *. destruct (fi_name f); [done|]. destruct Hname as [|[= ->]]; done. }
  rewrite Hx in Hleaf. subst l. apply (file_path_placed fs i e save k x x); try done.
  - by apply elements_snoc in Hok as [_ ?].
  - apply Forall_app in Hs as [Hs _]. destruct Hs as [|y k (_ & _ & Hd & _) _]; [done|]. cbn. by intros [= ->].
Qed.

(** * The verdict *)

Definition piece_count (total length_ : Z) : Z := Z.quot (total + length_ - 1) length_.

(** the checks of the digests; [None] is success *)
Definition hashes_verdict (pieces root_hash : option (list Z)) (n : Z) : option torrent_error :=
  match pieces, root_hash with
  | Some s, _ => if vsize s =? n * 20 then None else Some torrent_invalid_hashes
  | None, Some s =>
      if negb (vsize s =? 20) then Some torrent_invalid_hashes
      else if n <=? 0 then Some no_files_in_torrent else None
  | None, None => Some torrent_missing_pieces
  end.

(** the checks of the files that were read *)
Definition pieces_verdict (l : list (bstr * cst)) (total length_ max_pieces : Z) : option torrent_error :=
  let n := piece_count total length_ in
  let pieces := string_at l (bytes_of "pieces") in
  let root_hash := string_at l (bytes_of "root hash") in
  if (int32_max - length_) * length_ <=? total then Some too_many_pieces_in_torrent
  else if negb (bool_decide (is_Some pieces)) && negb (bool_decide (is_Some root_hash))
  then Some torrent_missing_pieces
  else if (Z.quot int32_max 20 <=? n) || (max_pieces <? n) then Some too_many_pieces_in_torrent
  else hashes_verdict pieces root_hash n.

(** what a dictionary is answered with; an error without a code comes from a
    file that is no dictionary *)
Definition verdict (l : list (bstr * cst)) (root : list Z) (max_pieces : Z) : res (list file_item) :=
  let length_ := int_at l (bytes_of "piece length") (-1) in
  if (length_ <=? 0) || (int32_max <? length_) then failed (Some torrent_missing_piece_length)
  else if negb (bool_decide (is_Some (prefer_utf8 (string_at l) (bytes_of "name"))))
  then failed (Some torrent_missing_name)
  else
    match files_described l root with
    | failed ec => failed ec
    | ok [] => failed (Some no_files_in_torrent)
    | ok fl =>
        match pieces_verdict l (sum_by fi_size fl) length_ max_pieces with
        | Some e => failed (Some e)
        | None => ok fl
        end
    end.

(** * The digests *)

Section read.
Context (info : bdecode_node) (l : list (bstr * cst)) (Hn : denotes info (CDict l)).

(** a string of the dictionary, and where it is *)
Lemma section_string key v m :
  string_at l key = Some v → dict_find_string info key = Some m →
  operator_bool m = true ∧ string_length m = Some (vsize v) ∧ string_value m = Some v ∧
  ∃ k, section_offset info m = Some k ∧ 0 ≤ k ∧ span (print (CDict l)) k (vsize v) = Some v.
Proof.
  intros Hv Hm. destruct (find_string info l Hn key) as (m' & Hm' & Hd). rewrite Hv in Hd. simplify_eq.
  destruct Hd as (s & Hs & <-). split; [by eapply denotes_some|]. destruct (denotes_string m s Hs) as [-> ->].
  split; [done|]. split; [done|]. unfold string_at in Hv.
  destruct (find_pair key l) as [[neg ds|s'|w|w]|] eqn:Hf; try done. injection Hv as <-.
  apply section_offset_spec. by eapply (dict_find_type_inside tok_string).
Qed.

Lemma no_string key m : string_at l key = None → dict_find_string info key = Some m → m = default_node.
Proof. intros Hv Hm. destruct (find_string info l Hn key) as (m' & Hm' & Hd). rewrite Hv in Hd. by simplify_eq. Qed.

(** the digests, as they are kept *)
Definition hashes_kept (ti : torrent_info) (n : Z) : Prop :=
  match string_at l (bytes_of "pieces") with
  | Some s => ti_merkle_tree ti = [] ∧
      ∃ k, ti_piece_hashes ti = Some k ∧ 0 ≤ k ∧ span (print (CDict l)) k (n * 20) = Some s
  | None => ∃ s k, string_at l (bytes_of "root hash") = Some s ∧ vsize s = 20 ∧
      0 ≤ k ≤ 30 ∧ n ≤ 2 ^ k ∧ (k = 0 ∨ 2 ^ (k - 1) < n) ∧ ti_merkle_first_leaf ti = 2 ^ k - 1 ∧
      ti_merkle_tree ti = s :: replicate (Z.to_nat (2 ^ (k + 1) - 2)) zero_hash
  end.

Lemma read_hashes_spec ti pieces root_hash n :
  ti_merkle_tree ti = [] → n ≤ 2 ^ 30 →
  dict_find_string info (bytes_of "pieces") = Some pieces →
  dict_find_string info (bytes_of "root hash") = Some root_hash →
  (operator_bool pieces || operator_bool root_hash) = true →
  match hashes_verdict (string_at l (bytes_of "pieces")) (string_at l (bytes_of "root hash")) n with
  | Some e => read_hashes ti info pieces root_hash n = reject ti (Some e)
  | None => ∃ k tree leaf, let ti' := set_ti_hashes ti k tree leaf in
      read_hashes ti info pieces root_hash n = Some (ti', ok tt) ∧ hashes_kept ti' n
  end.
Proof.
  intros Htree Hmax Hp Hr Hsome. unfold read_hashes, hashes_verdict, hashes_kept.
  destruct (string_at l (bytes_of "pieces")) as [s|] eqn:Hs.
  - destruct (section_string _ _ _ Hs Hp) as (-> & -> & _ & k & -> & Hk & Hspan). cbn [mbind option_bind].
    destruct (Z.eqb_spec (vsize s) (n * 20)) as [He|He]; cbn [negb]; [|done].
    eexists _, _, _. split; [done|]. split; [done|]. rewrite <-He. by exists k.
  - rewrite (no_string _ _ Hs Hp) in *. cbn [operator_bool default_node m_token_idx Z.eqb negb orb] in *.
    destruct (string_at l (bytes_of "root hash")) as [h|] eqn:Hh.
    2:{ by rewrite (no_string _ _ Hh Hr) in Hsome. }
    destruct (section_string _ _ _ Hh Hr) as (_ & -> & -> & _). cbn [mbind option_bind].
    destruct (Z.eqb_spec (vsize h) 20) as [He|He]; cbn [negb]; [|done].
    destruct (Z.leb_spec n 0) as [Hn0|Hn0]; [done|].
    destruct (merkle_num_leafs_spec n) as (k & -> & Hk & Hle & Hlow); [lia|]. cbn [mbind option_bind].
    unfold merkle_num_nodes. rewrite Z.shiftl_mul_pow2 by lia. change (2 ^ 1) with 2.
    replace (2 ^ k * 2) with (2 ^ (k + 1)) by (rewrite Z.pow_add_r by lia; lia).
    assert (1 ≤ 2 ^ k) as H1 by (pose proof (Z.pow_pos_nonneg 2 k); lia).
    assert (2 ^ (k + 1) = 2 * 2 ^ k) as H2 by (rewrite Z.pow_add_r by lia; lia).
    assert (resize (ti_merkle_tree ti) (2 ^ (k + 1) - 1) zero_hash =
      zero_hash :: replicate (Z.to_nat (2 ^ (k + 1) - 2)) zero_hash) as ->.
    { unfold resize, grow_to. rewrite Htree. change (vsize []) with 0. rewrite Z.sub_0_r. cbn [app].
      rewrite take_ge by (rewrite length_replicate; lia).
      replace (Z.to_nat (2 ^ (k + 1) - 1)) with (S (Z.to_nat (2 ^ (k + 1) - 2))) by lia. done. }
    cbn [mbind option_bind]. eexists _, _, _. split; [reflexivity|]. exists h, k. split_and!; try done; cbn; lia.
Qed.
End read.

(** * Flags *)

Lemma has_flag_uint8 x f : 0 ≤ f < 256 → has_flag (uint 8 x) f = has_flag x f.
Proof.
  intros Hf. unfold has_flag, uint. rewrite <-Z.land_ones, <-Z.land_assoc, (Z.land_comm (Z.ones 8)) by lia.
  rewrite Z.land_ones by lia. by rewrite Z.mod_small by (change (2 ^ 8) with 256; lia).
Qed.

Lemma has_flag_or a b f : has_flag (Z.lor a b) f = has_flag a f || has_flag b f.
Proof.
  unfold has_flag. rewrite Z.land_lor_distr_l. destruct (Z.eqb_spec (Z.land a f) 0) as [Ha|Ha].
  - by rewrite Ha, Z.lor_0_l.
  - cbn [negb orb]. apply negb_true_iff, Z.eqb_neq. intros [? _]%Z.lor_eq_0_iff. done.
Qed.

(** a flag of the members, after they were set or not *)
Ltac read_flag f :=
  destruct (bool_decide _), (negb _); cbn;
  rewrite ?has_flag_uint8, ?has_flag_or, ?has_flag_uint8, ?has_flag_or by (unfold f; lia);
  unfold has_flag at 2; cbn; by rewrite ?orb_false_r.

(** * The rest of the dictionary *)

Section rest.
Context (info : bdecode_node) (l : list (bstr * cst)) (Hn : denotes info (CDict l)).

Definition other_strings (key : list Z) : list cst := default [] (list_at_key l key).

(** what the keys behind the digests make of the members *)
Record rest_read (ti ti' : torrent_info) : Prop := {
  rr_section : ti_info_section ti' = ti_info_section ti;
  rr_hash : ti_info_hash ti' = ti_info_hash ti;
  rr_tree : ti_merkle_tree ti' = ti_merkle_tree ti;
  rr_leaf : ti_merkle_first_leaf ti' = ti_merkle_first_leaf ti;
  rr_pieces : ti_piece_hashes ti' = ti_piece_hashes ti;
  rr_multi : has_flag (ti_flags ti') multifile = has_flag (ti_flags ti) multifile;
  rr_private : has_flag (ti_flags ti') private_torrent =
    has_flag (ti_flags ti) private_torrent || negb (int_at l (bytes_of "private") 0 =? 0);
  rr_ssl : has_flag (ti_flags ti') ssl_torrent =
    has_flag (ti_flags ti) ssl_torrent || bool_decide (is_Some (string_at l (bytes_of "ssl-cert")));
  rr_similar : ∃ offs, ti_similar_torrents ti' = ti_similar_torrents ti ++ offs ∧
    holds_at (CDict l) (map (λ o, (o, 20)) offs) (strings_with (λ s, vsize s =? 20) (other_strings (bytes_of "similar")));
  rr_collections : ∃ offs, ti_collections ti' = ti_collections ti ++ offs ∧
    holds_at (CDict l) offs (strings_with (λ _, true) (other_strings (bytes_of "collections")))
}.

Lemma section_list key m :
  dict_find_list info key = Some m →
  match list_at_key l key with
  | Some items => operator_bool m = true ∧ denotes m (CList items) ∧ inside info (CDict l) m (CList items)
  | None => operator_bool m = false
  end.
Proof.
  intros Hm. destruct (find_list info l Hn key) as (m' & Hm' & Hd). simplify_eq.
  destruct (list_at_key l key) as [items|] eqn:Hi; [|by subst m].
  split; [by eapply denotes_some|]. split; [done|]. unfold list_at_key in Hi.
  destruct (find_pair key l) as [[neg ds|s'|w|w]|] eqn:Hf; try done. injection Hi as ->.
  by eapply (dict_find_type_inside tok_list).
Qed.

Lemma read_rest_spec ti files :
  ∃ ti', read_rest ti info files = Some (ti', ok tt) ∧ ti_files ti' = files ∧ rest_read ti ti'.
Proof.
  unfold read_rest. rewrite (find_int_value info l Hn). cbn [mbind option_bind].
  set (priv := int_at l (bytes_of "private") 0). set (t1 := set_ti_flags ti _).
  destruct (find_list info l Hn (bytes_of "similar")) as (m & Hm & _). rewrite Hm. cbn [mbind option_bind].
  apply section_list in Hm.
  assert (∃ offs, (if operator_bool m then read_similar info m (ti_similar_torrents t1) else Some (ti_similar_torrents t1))
    = Some (ti_similar_torrents ti ++ offs) ∧
    holds_at (CDict l) (map (λ o, (o, 20)) offs) (strings_with (λ s, vsize s =? 20) (other_strings (bytes_of "similar"))))
    as (sim & -> & Hsim).
  { unfold other_strings. destruct (list_at_key l (bytes_of "similar")) as [items|].
    - destruct Hm as (-> & Hd & Hin). exact (read_similar_spec info (CDict l) m items (ti_similar_torrents t1) Hd Hin).
    - rewrite Hm. exists []. split; [by rewrite app_nil_r|constructor]. }
  cbn [mbind option_bind]. clear Hm.
  destruct (find_list info l Hn (bytes_of "collections")) as (m' & Hm & _). rewrite Hm. cbn [mbind option_bind].
  apply section_list in Hm.
  assert (∃ offs, (if operator_bool m' then read_collections info m' (ti_collections t1) else Some (ti_collections t1))
    = Some (ti_collections ti ++ offs) ∧
    holds_at (CDict l) offs (strings_with (λ _, true) (other_strings (bytes_of "collections")))) as (col & -> & Hcol).
  { unfold other_strings. destruct (list_at_key l (bytes_of "collections")) as [items|].
    - destruct Hm as (-> & Hd & Hin). exact (read_collections_spec info (CDict l) m' items (ti_collections t1) Hd Hin).
    - rewrite Hm. exists []. split; [by rewrite app_nil_r|constructor]. }
  cbn [mbind option_bind]. destruct (find_string info l Hn (bytes_of "ssl-cert")) as (cert & -> & Hc). cbn [mbind option_bind].
  assert (operator_bool cert = bool_decide (is_Some (string_at l (bytes_of "ssl-cert")))) as ->.
  { destruct (string_at l (bytes_of "ssl-cert")); [|by rewrite Hc].
    destruct Hc as (s & Hs & _). by rewrite (denotes_some _ _ Hs). }
  eexists. split; [reflexivity|]. split; [done|].
  split; try by destruct (bool_decide _).
  - read_flag multifile.
  - read_flag private_torrent.
  - read_flag ssl_torrent.
  - exists sim. by destruct (bool_decide _).
  - exists col. by destruct (bool_decide _).
Qed.
End rest.

(** * The info section *)

Section parse.
Context `{Sha1} (Hsha : sha1_ok).
Context (info : bdecode_node) (l : list (bstr * cst)) (Hn : denotes info (CDict l)) (Hb : of_bytes (CDict l)).

Definition length_of : Z := int_at l (bytes_of "piece length") (-1).

(** the members when the dictionary is accepted *)
Record info_parsed (ti ti' : torrent_info) (r : list (list Z)) (fl : list (file_item * list (list Z))) : Prop := {
  ip_section : ti_info_section ti' = print (CDict l);
  ip_hash : ti_info_hash ti' = sha1 (print (CDict l));
  ip_files : torrent_files (negb (is_multifile l)) length_of r (ti_files ti') fl;
  ip_pieces : m_num_pieces (ti_files ti') = piece_count (total_of fl) length_of;
  ip_hashes : hashes_kept l ti' (m_num_pieces (ti_files ti'));
  ip_multi : has_flag (ti_flags ti') multifile = is_multifile l;
  ip_private : has_flag (ti_flags ti') private_torrent =
    has_flag (ti_flags ti) private_torrent || negb (int_at l (bytes_of "private") 0 =? 0);
  ip_ssl : has_flag (ti_flags ti') ssl_torrent =
    has_flag (ti_flags ti) ssl_torrent || bool_decide (is_Some (string_at l (bytes_of "ssl-cert")));
  ip_similar : ∃ offs, ti_similar_torrents ti' = ti_similar_torrents ti ++ offs ∧
    holds_at (CDict l) (map (λ o, (o, 20)) offs)
      (strings_with (λ s, vsize s =? 20) (other_strings l (bytes_of "similar")));
  ip_collections : ∃ offs, ti_collections ti' = ti_collections ti ++ offs ∧
    holds_at (CDict l) offs (strings_with (λ _, true) (other_strings l (bytes_of "collections")))
}.

Lemma set_num_pieces_files top len r fs fl n :
  torrent_files top len r fs fl → torrent_files top len r (set_num_pieces fs n) fl.
Proof.
  intros [[Hl Hs] H1 H2 H3 H4 H5 (fs0 & k & Hok & Hp & Hsan)]. split; try done.
  - split; [done|]. by destruct Hs.
  - by exists fs0, k.
Qed.

Lemma torrent_total_nonneg top len r fs fl : torrent_files top len r fs fl → 0 ≤ total_of fl.
Proof. intros [[Hl _] _ Ht _ _ _ _]. rewrite <-Ht. by apply total_size_nonneg. Qed.

Lemma files_named top len r fs fl :
  torrent_files top len r fs fl → fl ≠ [] → num_files fs ≠ 0 ∧ m_name fs ≠ [].
Proof.
  intros [_ Hsz _ Hname _ Hit _] Hne. destruct fl as [|[f k] fl]; [done|]. split.
  - rewrite Hsz. vsize. pose proof (vsize_nonneg fl). lia.
  - destruct (Hit 0 f k eq_refl) as [[n [_ Hs _ _ _ _ _ _]] _]. cbn in Hname.
    destruct Hs as [|x k (_ & Hx & _) _]; [done|]. by injection Hname as <-.
Qed.

Lemma read_pieces_spec ti fs fl r top max_pieces :
  torrent_files top length_of r fs fl → ti_merkle_tree ti = [] → 0 < length_of ≤ int32_max → fl ≠ [] →
  match pieces_verdict l (total_of fl) length_of max_pieces with
  | Some e => read_pieces ti info fs max_pieces = reject ti (Some e)
  | None => ∃ ti' k tree leaf, read_pieces ti info fs max_pieces = Some (ti', ok tt) ∧
      let t1 := set_ti_hashes ti k tree leaf in
      hashes_kept l t1 (piece_count (total_of fl) length_of) ∧ rest_read l t1 ti' ∧
      ti_files ti' = set_num_pieces fs (piece_count (total_of fl) length_of)
  end.
Proof using Hn.
  intros Hfs Htree Hlen Hne. destruct (files_named _ _ _ _ _ Hfs Hne) as [Hnum Hname].
  pose proof (torrent_total_nonneg _ _ _ _ _ Hfs) as Htot. unfold read_pieces, pieces_verdict.
  rewrite (proj2 (Z.eqb_neq _ _)) by done. destruct (m_name fs) as [|ch name] eqn:Em; [done|]. clear Hname.
  rewrite (tf_total _ _ _ _ _ Hfs), (tf_length _ _ _ _ _ Hfs).
  destruct (Z.leb_spec ((int32_max - length_of) * length_of) (total_of fl)) as [|Hmany]; [done|].
  fold (piece_count (total_of fl) length_of). set (n := piece_count (total_of fl) length_of).
  assert (0 ≤ n < int32_max) as Hnr.
  { unfold n, piece_count. rewrite Z.quot_div_nonneg by lia. split; [apply Z.div_pos; lia|].
    apply Z.div_lt_upper_bound; [lia|]. nia. }
  rewrite sint_small by (unfold int32_max in Hnr; lia).
  destruct (find_string info l Hn (bytes_of "pieces")) as (p & Hp & Hpd). rewrite Hp. cbn [mbind option_bind].
  destruct (find_string info l Hn (bytes_of "root hash")) as (h & Hh & Hhd). rewrite Hh. cbn [mbind option_bind].
  assert (∀ key m, match string_at l key with Some v => ∃ s, denotes m (CStr s) ∧ content s = v | None => m = default_node end →
    operator_bool m = bool_decide (is_Some (string_at l key))) as Hbool.
  { intros key m. destruct (string_at l key); [|by intros ->]. intros (s & Hs & _). by rewrite (denotes_some _ _ Hs). }
  rewrite <-(Hbool _ p Hpd), <-(Hbool _ h Hhd). cbn [m_num_pieces set_num_pieces].
  destruct (negb (operator_bool p) && negb (operator_bool h)) eqn:Hnone; [done|].
  destruct ((Z.quot int32_max 20 <=? n) || (max_pieces <? n)) eqn:Hlim; [done|].
  apply orb_false_iff in Hlim as [Hl20 _]. apply Z.leb_gt in Hl20.
  pose proof (read_hashes_spec info l Hn ti p h n Htree) as Hrh.
  destruct (hashes_verdict _ _ n) as [e|].
  - rewrite Hrh; [done|unfold int32_max in Hl20; change (Z.quot (2 ^ 31 - 1) 20) with 107374182 in Hl20; lia|done|done|].
    by destruct (operator_bool p), (operator_bool h).
  - destruct Hrh as (k & tree & leaf & -> & Hkept).
    + unfold int32_max in Hl20; change (Z.quot (2 ^ 31 - 1) 20) with 107374182 in Hl20; lia.
    + done.
    + done.
    + by destruct (operator_bool p), (operator_bool h).
    + cbn [mbind option_bind].
      destruct (read_rest_spec info l Hn (set_ti_hashes ti k tree leaf) (set_num_pieces fs n)) as (ti' & -> & Hf & Hr).
      exists ti', k, tree, leaf. split; [done|]. split; [done|]. done.
Qed.

(** the files of the torrent keep the torrent invalid *)
Definition rejected (ti ti' : torrent_info) : Prop :=
  ti_files ti' = ti_files ti ∨ ti_files ti' = set_piece_length (ti_files ti) 0.

Definition with_multifile (ti : torrent_info) (multi : bool) : torrent_info :=
  set_ti_flags ti (if multi then Z.lor (ti_flags ti) multifile else Z.land (ti_flags ti) (Z.lnot multifile)).

Lemma with_multifile_flags ti multi :
  has_flag (ti_flags (with_multifile ti multi)) multifile = multi ∧
  has_flag (ti_flags (with_multifile ti multi)) private_torrent = has_flag (ti_flags ti) private_torrent ∧
  has_flag (ti_flags (with_multifile ti multi)) ssl_torrent = has_flag (ti_flags ti) ssl_torrent.
Proof.
  assert (∀ f, has_flag (Z.land (ti_flags ti) (Z.lnot multifile)) f = has_flag (ti_flags ti) (Z.land (Z.lnot multifile) f)) as Hl.
  { intros f. unfold has_flag. by rewrite Z.land_assoc. }
  destruct multi; cbn [with_multifile set_ti_flags ti_flags];
    rewrite !has_flag_uint8 by (unfold multifile, private_torrent, ssl_torrent; lia).
  - rewrite !has_flag_or. split_and!; [by rewrite orb_true_r|by rewrite orb_false_r|by rewrite orb_false_r].
  - rewrite !Hl. split; [|done]. unfold has_flag. change (Z.land (Z.lnot multifile) multifile) with 0. by rewrite Z.land_0_r.
Qed.

(** once the files are read *)
Lemma pieces_read ti fs fl r max_pieces :
  let t0 := with_multifile (set_ti_section ti (print (CDict l)) (sha1 (print (CDict l)))) (is_multifile l) in
  torrent_files (negb (is_multifile l)) length_of r fs fl → ti_merkle_tree ti = [] → 0 < length_of ≤ int32_max → fl ≠ [] →
  match pieces_verdict l (total_of fl) length_of max_pieces with
  | Some e => ∃ ti', read_pieces t0 info fs max_pieces = Some (ti', failed (Some e)) ∧ rejected ti ti'
  | None => ∃ ti', read_pieces t0 info fs max_pieces = Some (ti', ok tt) ∧ info_parsed ti ti' r fl
  end.
Proof using Hn.
  intros t0 Hfs Htree Hlen Hne.
  pose proof (read_pieces_spec t0 fs fl r (negb (is_multifile l)) max_pieces Hfs Htree Hlen Hne) as Hr.
  destruct (pieces_verdict _ _ _ _) as [e|]; [rewrite Hr; eexists; split; [done|by right]|].
  destruct Hr as (ti' & k & tree & leaf & Hrun & Hk & [R1 R2 R3 R4 R5 R6 R7 R8 R9 R10] & Hf). exists ti'. split; [done|].
  destruct (with_multifile_flags (set_ti_section ti (print (CDict l)) (sha1 (print (CDict l)))) (is_multifile l))
    as (M1 & M2 & M3). fold t0 in M1, M2, M3.
  split; rewrite ?Hf; try done.
  - by apply set_num_pieces_files.
  - unfold hashes_kept in *. by rewrite R3, R4, R5.
  - by rewrite R6.
  - rewrite R7. cbn [set_ti_hashes ti_flags]. by rewrite M2.
  - rewrite R8. cbn [set_ti_hashes ti_flags]. by rewrite M3.
Qed.

(** the files of the section, one or many *)
Lemma files_node_spec n r ti :
  dict_find_list info (bytes_of "files") = Some n → fits_info l → Forall safe_element r → r ≠ [] →
  let fs := set_piece_length new_file_storage length_of in
  let again ti (k : file_storage → bool → option (torrent_info * res unit)) :=
    if negb (operator_bool n) then
      x ← extract_single_file info fs [] true 0;
      match x with failed ec => reject ti ec | ok (fs, _) => fs ← sanitize_symlinks fs; k fs false end
    else
      x ← extract_files n fs (join r);
      match x with failed ec => reject ti ec | ok fs => k fs true end in
  match files_described l (join r) with
  | failed ec => ∀ k, again ti k = reject ti ec
  | ok items => ∃ fs' fl, items = fl.*1 ∧
      torrent_files (negb (is_multifile l)) length_of (root_of (is_multifile l) r) fs' fl ∧
      ∀ k, again ti k = k fs' (is_multifile l)
  end.
Proof using Hn Hb.
  intros Hf Hfit Hr Hrn fs again. unfold again, files_described, is_multifile, fits_info in *.
  destruct (find_list info l Hn (bytes_of "files")) as (n' & Hn' & Hd). simplify_eq.
  destruct (list_at_key l (bytes_of "files")) as [items|] eqn:Hi.
  - rewrite (denotes_some _ _ Hd). cbn [negb root_of].
    pose proof (extract_files_spec n items length_of r Hd (list_at_key_bytes _ _ _ Hb Hi) Hr Hrn Hfit) as He.
    destruct (files_of items (join r)) as [[fi k]|ec]; [|by intros k; unfold fs; rewrite He].
    destruct He as (fs' & fl & He & -> & Ht). exists fs', fl. split; [done|]. split; [done|]. intros k'. by unfold fs; rewrite He.
  - subst n. cbn [operator_bool default_node m_token_idx Z.eqb negb root_of].
    pose proof (extract_one_spec info l length_of Hn Hb Hfit) as He.
    destruct (file_of (CDict l) [] true 0) as [[f k]|ec]; [|by intros k; unfold fs; rewrite He].
    destruct He as (fs1 & fs' & k' & p & He & Hs & Ht). exists fs', [(f, p)]. split; [done|]. split; [done|].
    intros k2. unfold fs. rewrite He. cbn [mbind option_bind]. by rewrite Hs.
Qed.

Lemma sum_by_fst {B} (g : file_item → Z) (v : list (file_item * B)) : sum_by g v.*1 = sum_by (λ p, g p.1) v.
Proof. unfold sum_by. induction v as [|p v IH]; [done|]. cbn. by rewrite IH. Qed.

Lemma no_files top len r fs ti max_pieces :
  torrent_files top len r fs [] → read_pieces ti info fs max_pieces = reject ti (Some no_files_in_torrent).
Proof. intros Hf. unfold read_pieces. by rewrite (tf_size _ _ _ _ _ Hf). Qed.

(** [parse_info_section] returns, with the error of the dictionary or with its
    files *)
Lemma parse_info_section_spec ti max_pieces :
  ti_merkle_tree ti = [] → fits_info l →
  ∃ hex r ti', to_hex (sha1 (print (CDict l))) = Some hex ∧ Forall safe_element r ∧ r ≠ [] ∧
    join r = torrent_name_of hex (default [] (prefer_utf8 (string_at l) (bytes_of "name"))) ∧
    match verdict l (join r) max_pieces with
    | failed ec => parse_info_section ti info max_pieces = Some (ti', failed ec) ∧ rejected ti ti'
    | ok files => parse_info_section ti info max_pieces = Some (ti', ok tt) ∧
        ∃ fl, files = fl.*1 ∧ info_parsed ti ti' (root_of (is_multifile l) r) fl
    end.
Proof using Hsha Hn Hb.
  intros Htree Hfit. set (name := default [] (prefer_utf8 (string_at l) (bytes_of "name"))).
  assert (Forall byte name) as Hname.
  { unfold name. destruct (prefer_utf8 (string_at l) (bytes_of "name")) eqn:E; [by eapply prefer_bytes|constructor]. }
  destruct (torrent_name_spec (print (CDict l)) name Hsha Hname) as (hex & r & Hhex & Hroot & Hr & Hrn).
  exists hex, r.
  assert (∀ (P : torrent_info → Prop), (∃ ti', P ti') → ∃ ti', to_hex (sha1 (print (CDict l))) = Some hex ∧
    Forall safe_element r ∧ r ≠ [] ∧ join r = torrent_name_of hex name ∧ P ti') as Hout by (intros P [t Ht]; by exists t).
  apply Hout. clear Hout. unfold parse_info_section. rewrite (denotes_type _ _ Hn). cbn [mbind option_bind].
  change (bool_decide (cst_type (CDict l) = tok_dict)) with true. cbn [negb].
  rewrite (denotes_data_section _ _ Hn). cbn [mbind option_bind].
  assert (vsize (print (CDict l)) < int32_max) as Hsz.
  { destruct Hn as (off & Hl & _). pose proof (located_range _ _ _ _ _ Hl). unfold max_offset, int32_max in *. lia. }
  rewrite (proj2 (Z.leb_gt _ _) Hsz). rewrite (find_int_value info l Hn). cbn [mbind option_bind].
  unfold verdict. change (int_at l (bytes_of "piece length") (-1)) with length_of.
  destruct ((length_of <=? 0) || (int32_max <? length_of)) eqn:Hlen; [by eexists; split; [done|left]|].
  apply orb_false_iff in Hlen as [Hl1%Z.leb_gt Hl2%Z.ltb_ge].
  destruct (find_string_utf8 info l Hn (bytes_of "name")) as (ne & -> & Hne). cbn [mbind option_bind].
  destruct (prefer_utf8 (string_at l) (bytes_of "name")) as [nm|] eqn:Hnm.
  2:{ subst ne. rewrite bool_decide_eq_false_2 by (by intros [? ?]). by eexists; split; [done|right]. }
  rewrite bool_decide_eq_true_2 by eauto. destruct Hne as (s & Hne & Hs). rewrite (denotes_some _ _ Hne). cbn [negb].
  destruct (denotes_string ne s Hne) as [_ ->]. cbn [mbind option_bind]. rewrite Hs.
  change nm with name. rewrite (append_element_eq [] name Hname). cbn [mbind option_bind].
  set (t0 := set_ti_section ti (print (CDict l)) (sha1 (print (CDict l)))).
  assert (match append_element [] name with
    [] => to_hex (ti_info_hash t0) | _ :: _ => Some (append_element [] name) end = Some (join r)) as ->.
  { rewrite <-Hroot. unfold torrent_name_of. by destruct (append_element [] name). }
  cbn [mbind option_bind].
  destruct (find_list info l Hn (bytes_of "files")) as (fn & Hfn & _). rewrite Hfn. cbn [mbind option_bind].
  pose proof (files_node_spec fn r t0 Hfn Hfit Hr Hrn) as Hfiles.
  cbv zeta in Hfiles. destruct (files_described l (join r)) as [items|ec].
  2:{ eexists. split; [exact (Hfiles (λ fs multi, read_pieces (with_multifile t0 multi) info fs max_pieces))|by right]. }
  destruct Hfiles as (fs & fl & -> & Hfs & Hk).
  specialize (Hk (λ fs multi, read_pieces (with_multifile t0 multi) info fs max_pieces)). cbv beta in Hk.
  rewrite sum_by_fst. fold (total_of fl). destruct fl as [|p fl].
  { eexists. split; [etrans; [exact Hk|]; by rewrite (no_files _ _ _ _ _ _ Hfs)|by right]. }
  pose proof (pieces_read ti fs (p :: fl) _ max_pieces Hfs Htree ltac:(lia) ltac:(done)) as Hp. cbv zeta in Hp. fold t0 in Hp.
  cbn [fmap list_fmap]. destruct (pieces_verdict _ _ _ _) as [e|]; destruct Hp as (ti' & Hp & Hdone); exists ti'.
  - split; [by etrans|done].
  - split; [by etrans|]. by exists (p :: fl).
Qed.
End parse.

(** * The pieces *)

(** every byte is in a piece, and every piece but the last is full *)
Lemma piece_count_spec total len :
  0 ≤ total → 0 < len →
  let n := piece_count total len in 0 ≤ n ∧ (n - 1) * len < total ≤ n * len.
Proof. intros Ht Hl. unfold piece_count. rewrite Z.quot_div_nonneg by lia. division. Qed.

Lemma span_Some s off k n : span s off n = Some k → 0 ≤ n → k = take (Z.to_nat n) (drop (Z.to_nat off) s) ∧ vsize k = n.
Proof.
  unfold span. intros H Hn. destruct (Z.leb_spec 0 off), (Z.leb_spec 0 n), (Z.leb_spec (off + n) (vsize s)); try done.
  cbn [andb] in H. injection H as <-. split; [done|]. unfold vsize in *. rewrite length_take, length_drop. lia.
Qed.

(** a part of a part *)
Lemma span_span s off n k i m : span s off n = Some k → 0 ≤ i → 0 ≤ m → i + m ≤ n → span s (off + i) m = span k i m.
Proof.
  intros Hs Hi Hm Hl. pose proof Hs as [Hk Hv]%span_Some; [|lia]. unfold span in *.
  destruct (Z.leb_spec 0 off), (Z.leb_spec 0 n), (Z.leb_spec (off + n) (vsize s)); try done.
  rewrite !(proj2 (Z.leb_le _ _)) by lia. cbn [andb]. f_equal. rewrite Hk.
  rewrite skipn_firstn_comm, take_take, drop_drop. f_equal; [lia|]. f_equal. lia.
Qed.

(** the digest of a piece is what the dictionary says *)
Lemma hash_for_piece_spec l ti n i :
  hashes_kept l ti n → ti_info_section ti = print (CDict l) → 0 ≤ i < n →
  match string_at l (bytes_of "pieces") with
  | Some s => hash_for_piece ti i = span s (i * 20) 20 ∧ vsize s = n * 20
  | None => ∃ h, hash_for_piece ti i = Some h ∧
      (n = 1 → string_at l (bytes_of "root hash") = Some h) ∧ (1 < n → h = zero_hash)
  end.
Proof.
  unfold hashes_kept, hash_for_piece. intros Hk Hs Hi. destruct (string_at l (bytes_of "pieces")) as [s|].
  - destruct Hk as (-> & k & -> & Hk & Hspan). cbn [mbind option_bind]. rewrite Hs.
    split; [|by apply span_Some in Hspan as [_ ?]; [|lia]]. apply (span_span _ _ (n * 20)); [done|lia|lia|lia].
  - destruct Hk as (s & k & Hr & H20 & Hk & Hle & Hlow & Hleaf & ->). rewrite Hleaf.
    assert (2 ^ (k + 1) = 2 * 2 ^ k) as H2 by (rewrite Z.pow_add_r by lia; lia).
    destruct (decide (k = 0)) as [->|Hk0].
    + exists s. change (2 ^ 0) with 1 in *. replace (1 - 1 + i) with 0 by lia. split; [done|]. split; [done|lia].
    + assert (1 ≤ 2 ^ (k - 1)) by (pose proof (Z.pow_pos_nonneg 2 (k - 1)); lia).
      assert (2 ^ k = 2 * 2 ^ (k - 1)) as H3 by (rewrite <-Z.pow_succ_r by lia; f_equal; lia).
      exists zero_hash. split; [|split; [lia|done]]. unfold vget. rewrite (proj2 (Z.ltb_ge _ _)) by lia.
      replace (Z.to_nat (2 ^ k - 1 + i)) with (S (Z.to_nat (2 ^ k - 2 + i))) by lia. cbn.
      apply lookup_replicate. split; [done|lia].
Qed.

(** * The paths *)

(** the items that describe the files *)
Definition described_items (l : list (bstr * cst)) : list cst := default [CDict l] (list_at_key l (bytes_of "files")).

(** names that are short, and not dots *)
Definition plain_names (l : list (bstr * cst)) : Prop :=
  ∀ c, c ∈ described_items l →
    let name := name_of (negb (is_multifile l)) c in vsize name < 240 ∧ name ≠ dot ∧ name ≠ dotdot.

Lemma files_of_elem items root fl n f :
  files_of items root = ok (fl, n) → f ∈ fl → ∃ c k m, c ∈ items ∧ file_of c root false k = ok (f, m).
Proof.
  unfold files_of. revert fl n. induction items as [|c items IH] using rev_ind; intros fl n.
  - intros [= <- _] Hf. by apply elem_of_nil in Hf.
  - rewrite fold_left_app. cbn [fold_left]. destruct (fold_left _ items _) as [[fl' k]|]; [|done]. cbn [add_file_of].
    destruct (file_of c root false k) as [[g m]|] eqn:Hc; [|done]. intros [= <- <-] [Hf|Hf]%elem_of_app.
    + destruct (IH _ _ eq_refl Hf) as (c' & k' & m' & Hin & Hrun). exists c', k', m'. split; [|done].
      apply elem_of_app. by left.
    + apply list_elem_of_singleton in Hf as ->. exists c, k, m. split; [|done]. apply elem_of_app. right.
      by apply list_elem_of_singleton.
Qed.

(** every file of the description is one of an item *)
Lemma described_elem l root fl f :
  files_described l root = ok fl → f ∈ fl →
  ∃ c k m, c ∈ described_items l ∧
    file_of c (if is_multifile l then root else []) (negb (is_multifile l)) k = ok (f, m).
Proof.
  unfold files_described, described_items, is_multifile. destruct (list_at_key l (bytes_of "files")) as [items|]; cbn [from_option id negb].
  - destruct (files_of items root) as [[fl' n]|] eqn:Hf; [|done]. intros [= ->] Hin. by eapply files_of_elem.
  - destruct (file_of (CDict l) [] true 0) as [[g m]|] eqn:Hf; [|done]. intros [= <-] ->%list_elem_of_singleton.
    exists (CDict l), 0, m. split; [by apply list_elem_of_singleton|done].
Qed.

Lemma verdict_described l root max_pieces fl :
  verdict l root max_pieces = ok fl → files_described l root = ok fl ∧ fl ≠ [] ∧ 0 < length_of l ≤ int32_max.
Proof.
  unfold verdict. fold (length_of l). destruct ((length_of l <=? 0) || (int32_max <? length_of l)) eqn:Hl; [done|].
  apply orb_false_iff in Hl as [?%Z.leb_gt ?%Z.ltb_ge]. destruct (negb _); [done|].
  destruct (files_described l root) as [[|f fs]|]; [done| |done]. destruct (pieces_verdict _ _ _ _); [done|].
  intros [= <-]. done.
Qed.

(** where a file of the torrent is *)
Definition torrent_place (l : list (bstr * cst)) (r : list (list Z)) (es : list (list Z)) : Prop :=
  if is_multifile l then (∃ fs, fs ≠ [] ∧ es = r ++ fs) ∨ ∃ d, es = [pad_dir; d] else ∃ e, es = [e].

Lemma torrent_paths `{Sha1} ti ti' l r fl root max_pieces i save :
  info_parsed l ti ti' (root_of (is_multifile l) r) fl → verdict l root max_pieces = ok fl.*1 → root = join r →
  Forall safe_element r → r ≠ [] → of_bytes (CDict l) → plain_names l → 0 ≤ i < num_files (ti_files ti') →
  ∃ es, es ≠ [] ∧ Forall safe_element es ∧ torrent_place l r es ∧
    file_path (ti_files ti') i save = Some (append_path save (join es)).
Proof.
  intros Hp Hv -> Hr Hrn Hb Hplain Hi. pose proof (ip_files _ _ _ _ _ Hp) as Hf.
  rewrite (tf_size _ _ _ _ _ Hf) in Hi. destruct (vget_is_Some fl i Hi) as [[f es] Hfl].
  destruct (tf_items _ _ _ _ _ Hf i f es Hfl) as [[n Hio] _]. destruct (verdict_described _ _ _ _ Hv) as (Hd & _ & _).
  destruct (described_elem _ _ _ f Hd) as (c & k & m & Hc & Hrun).
  { apply vget_elem_of in Hfl. apply list_elem_of_fmap. by exists (f, es). }
  destruct (Hplain c Hc) as (H240 & Hdot & Hdd).
  assert (of_bytes c) as Hbc.
  { revert Hc. unfold described_items. destruct (list_at_key l (bytes_of "files")) as [items|] eqn:E; cbn.
    - intros Hc. eapply of_bytes_item; [|exact Hc]. by eapply list_at_key_bytes.
    - intros ->%list_elem_of_singleton. done. }
  assert ((if is_multifile l then join r else []) = join (root_of (is_multifile l) r)) as Hroot by by destruct (is_multifile l).
  rewrite Hroot in Hrun.
  assert (Forall safe_element (root_of (is_multifile l) r)) as Hr' by by destruct (is_multifile l).
  pose proof Hio as [Hpath Hs Hn Hplace _ _ _ _].
  destruct (torrent_file_path _ _ _ _ fl i f es save Hf Hfl) as [_ Hfp].
  { destruct (file_of_fits _ _ _ _ _ _ Hrun) as [_ Hname].
    destruct (name_of_file (root_of (is_multifile l) r) c (negb (is_multifile l)) k f m es) as [?|[?|Hdots]]; try done;
      [by destruct (is_multifile l)|by left|by right|]. left. destruct Hname as [?|Hname]; [done|].
    rewrite Hname in Hdots. by destruct Hdots. }
  exists es. split; [done|]. split; [done|]. split; [|done]. unfold torrent_place. destruct (is_multifile l); cbn [negb root_of] in *.
  - destruct Hplace as [Hl|[_ ->]]; [by left|right; by eexists].
  - destruct es as [|e [|e' es]]; [done|by exists e|]. revert Hplace. vsize. pose proof (vsize_nonneg es). lia.
Qed.
