(* ===== verification/TorrentMerkle.v ===== *)
(** The hash tree of a torrent: [add_merkle_nodes] and [build_merkle_list] of
    src/btdownloader/torrent/torrent_info.cpp, and that what is added is
    authentic.  The nodes of a [std::map] are those of a finite map; a
    [sha1_hash] has 20 bytes. *)

From stdpp Require Import gmap.
From S2P Require Import Prelude.
From stdpp Require Import list.
From S2P Require Import StringUtil.
From S2P Require Import TorrentInfo.

Open Scope Z_scope.

Section merkle.
Context `{Sha1}.

(** the digest of a node and its sibling, the left one first *)
Definition hash_pair (n : Z) (h s : list Z) : list Z :=
  if merkle_get_sibling n <? n then sha1 (s ++ h) else sha1 (h ++ s).

(** the loop up to the root: the digest that is found there, and the nodes to
    add; none when a sibling is missing *)
Fixpoint climb (fuel : nat) (subtree : gmap Z (list Z)) (n : Z) (h : list Z) (to_add : gmap Z (list Z))
    : option (option (list Z * gmap Z (list Z))) :=
  if 0 <? n then
    match fuel with
    | O => None
    | S fuel =>
        match subtree !! merkle_get_sibling n with
        | None => Some None
        | Some s =>
            climb fuel subtree (merkle_get_parent n) (hash_pair n h s)
              (<[merkle_get_sibling n := s]> (<[n := h]> to_add))
        end
    end
  else Some (Some (h, to_add)).

Definition set_merkle_tree (ti : torrent_info) (tree : list (list Z)) : torrent_info :=
  set_ti_hashes ti (ti_piece_hashes ti) tree (ti_merkle_first_leaf ti).

(** the nodes are added in the order of the map, which does not matter *)
Definition add_nodes (tree : list (list Z)) (to_add : gmap Z (list Z)) : option (list (list Z)) :=
  map_fold (λ i h tree, t ← tree; t⟦i := h⟧) (Some tree) to_add.

(** an [int] has room for 31 steps up *)
Definition tree_depth : nat := 31.

Definition add_merkle_nodes (ti : torrent_info) (subtree : gmap Z (list Z)) (piece : Z)
    : option (torrent_info * bool) :=
  let n := ti_merkle_first_leaf ti + piece in
  match subtree !! n with
  | None => Some (ti, false)
  | Some h =>
      r ← climb tree_depth subtree n h ∅;
      match r with
      | None => Some (ti, false)
      | Some (h, to_add) =>
          root ← (ti_merkle_tree ti)⟦0⟧;
          if negb (bool_decide (h = root)) then Some (ti, false)
          else tree ← add_nodes (ti_merkle_tree ti) to_add; Some (set_merkle_tree ti tree, true)
      end
  end.

Fixpoint siblings_up (fuel : nat) (tree : list (list Z)) (n : Z) (ret : gmap Z (list Z)) : option (gmap Z (list Z)) :=
  if 0 <? n then
    match fuel with
    | O => None
    | S fuel =>
        s ← tree⟦merkle_get_sibling n⟧;
        siblings_up fuel tree (merkle_get_parent n) (<[merkle_get_sibling n := s]> ret)
    end
  else Some ret.

Definition build_merkle_list (ti : torrent_info) (piece : Z) : option (gmap Z (list Z)) :=
  let n := ti_merkle_first_leaf ti + piece in
  h ← (ti_merkle_tree ti)⟦n⟧;
  root ← (ti_merkle_tree ti)⟦0⟧;
  siblings_up tree_depth (ti_merkle_tree ti) n (<[0 := root]> (<[n := h]> ∅)).

(** * Families *)

Lemma parent_range n : 0 < n → 0 ≤ merkle_get_parent n < n ∧ n = 2 * merkle_get_parent n + 1 + (n - 1) mod 2.
Proof. intros Hn. unfold merkle_get_parent. rewrite Z.quot_div_nonneg by lia. division. Qed.

(** the left child is odd *)
Lemma sibling_cases n :
  0 < n → let p := merkle_get_parent n in
  n = 2 * p + 1 ∧ merkle_get_sibling n = 2 * p + 2 ∨ n = 2 * p + 2 ∧ merkle_get_sibling n = 2 * p + 1.
Proof.
  intros Hn p. destruct (parent_range n Hn) as [_ Hp]. fold p in Hp. unfold merkle_get_sibling.
  replace (Z.land n 1) with (n mod 2) by (symmetry; apply (Z.land_ones n 1); lia).
  destruct (Z.eqb_spec (n mod 2) 0); cbn [negb]; division.
Qed.

(** the node and its parents up to the root are digests of their children *)
Inductive authentic (t : list (list Z)) : Z → Prop :=
| authentic_root : authentic t 0
| authentic_up n p a b :
    0 < n → t⟦merkle_get_parent n⟧ = Some p → t⟦2 * merkle_get_parent n + 1⟧ = Some a →
    t⟦2 * merkle_get_parent n + 2⟧ = Some b → p = sha1 (a ++ b) →
    authentic t (merkle_get_parent n) → authentic t n.

(** [a] is [n] or above it *)
Inductive above (n : Z) : Z → Prop :=
| above_self : above n n
| above_parent a : above n a → 0 < a → above n (merkle_get_parent a).

Lemma above_above n a b : above n a → above a b → above n b.
Proof. intros Ha. induction 1; [done|]. by constructor. Qed.

(** * What is added is authentic *)

Lemma climb_sound fuel subtree n h add r add' :
  climb fuel subtree n h add = Some (Some (r, add')) → 0 ≤ n → (n = 0 ∨ ∀ i, is_Some (add !! i) → n + 1 < i) →
  add ⊆ add' ∧ (∀ i, is_Some (add' !! i) → is_Some (add !! i) ∨ (0 < i ≤ n + n mod 2 ∧ (add' !! i = subtree !! i ∨ above n i))) ∧
  (0 < n → add' !! n = Some h ∧ is_Some (add' !! merkle_get_sibling n)) ∧ (n = 0 → r = h ∧ add' = add) ∧
  ∀ t, (∀ i v, add' !! i = Some v → t⟦i⟧ = Some v) → t⟦0⟧ = Some r → authentic t n ∧ t⟦n⟧ = Some h.
Proof.
  revert n h add. induction fuel as [|fuel IH]; intros n h add Hc Hn Hadd; cbn [climb] in Hc.
  { destruct (Z.ltb_spec 0 n); [done|]. injection Hc as <- <-. assert (n = 0) as -> by lia.
    split; [done|]. split; [naive_solver|]. split; [lia|]. split; [done|]. intros t _ Hz. split; [constructor|done]. }
  destruct (Z.ltb_spec 0 n) as [Hp|Hp].
  2:{ injection Hc as <- <-. assert (n = 0) as -> by lia.
      split; [done|]. split; [naive_solver|]. split; [lia|]. split; [done|]. intros t _ H0. split; [constructor|done]. }
  destruct Hadd as [|Hadd]; [lia|]. destruct (subtree !! merkle_get_sibling n) as [s|] eqn:Hs; [|done].
  destruct (parent_range n Hp) as [Hpr _]. pose proof (sibling_cases n Hp) as Hsib. cbv zeta in Hsib.
  set (p := merkle_get_parent n) in *. set (sn := merkle_get_sibling n) in *.
  assert (add !! n = None ∧ add !! sn = None) as [Hnn Hsn].
  { split; apply eq_None_not_Some; intros Hi; apply Hadd in Hi; lia. }
  destruct (IH p (hash_pair n h s) (<[sn := s]> (<[n := h]> add)) Hc) as (Hsub & Hkeys & Hpn & H0 & Ht).
  { lia. }
  { destruct (decide (p = 0)); [by left|right]. intros i. rewrite !lookup_insert_is_Some. intros [<-|[_ [<-|[_ Hi]]]];
      [lia|lia|]. apply Hadd in Hi. lia. }
  assert (add' !! sn = Some s ∧ add' !! n = Some h) as [Hsn' Hn'].
  { split; (eapply lookup_weaken; [|exact Hsub]); [by rewrite lookup_insert_eq|].
    rewrite lookup_insert_ne by lia. by rewrite lookup_insert_eq. }
  split; [|split; [|split; [|split]]].
  - etrans; [|exact Hsub]. etrans; [by apply (insert_subseteq _ n h)|].
    apply insert_subseteq. by rewrite lookup_insert_ne by lia.
  - intros i Hi. destruct (Hkeys i Hi) as [Hin|[Hr Hcase]].
    + apply lookup_insert_is_Some in Hin as [<-|[_ Hin]]; [right; split; [division|left; by rewrite Hsn', Hs]|].
      apply lookup_insert_is_Some in Hin as [<-|[_ Hin]]; [right; split; [division|right; constructor]|by left].
    + right. split; [division|]. destruct Hcase as [?|Ha]; [by left|right]. eapply above_above; [|exact Ha].
      unfold p. constructor; [constructor|done].
  - intros _. split; [done|]. by exists s.
  - lia.
  - intros t Hadd' Hroot. destruct (Ht t Hadd' Hroot) as [Hauth Hph]. split; [|by apply Hadd'].
    pose proof (Hadd' _ _ Hn') as Hgn. pose proof (Hadd' _ _ Hsn') as Hgs. unfold hash_pair in Hph. fold sn in Hph.
    destruct Hsib as [[Hl Hr]|[Hl Hr]]; rewrite Hl in Hgn; rewrite Hr in Hgs.
    + destruct (Z.ltb_spec sn n); [lia|]. by eapply authentic_up.
    + destruct (Z.ltb_spec sn n); [|lia]. by eapply authentic_up.
Qed.

(** ** The nodes in the tree *)

Lemma add_nodes_spec tree to_add :
  (∀ i, is_Some (to_add !! i) → 0 ≤ i < vsize tree) →
  ∃ tree', add_nodes tree to_add = Some tree' ∧ vsize tree' = vsize tree ∧
    ∀ i, tree'⟦i⟧ = match to_add !! i with Some h => Some h | None => tree⟦i⟧ end.
Proof.
  unfold add_nodes. revert to_add.
  apply (map_fold_weak_ind (λ out (m : gmap Z (list Z)), (∀ i, is_Some (m !! i) → 0 ≤ i < vsize tree) →
    ∃ tree', out = Some tree' ∧ vsize tree' = vsize tree ∧
      ∀ i, tree'⟦i⟧ = match m !! i with Some h => Some h | None => tree⟦i⟧ end)).
  - intros _. by exists tree.
  - intros i h m out Hi IH Hr. destruct IH as (t & -> & Hsz & Ht).
    { intros j Hj. apply Hr. rewrite lookup_insert_is_Some. destruct (decide (i = j)); [by left|by right]. }
    cbn [mbind option_bind]. destruct (vset_is_Some t i h) as [w Hw].
    { rewrite Hsz. apply Hr. rewrite lookup_insert_eq. by eexists. }
    exists w. split; [done|]. split; [by rewrite (vset_size _ _ _ _ Hw)|]. intros j.
    rewrite (vset_get _ _ _ _ _ Hw). destruct (Z.eqb_spec j i) as [->|Hne]; [by rewrite lookup_insert_eq|].
    by rewrite lookup_insert_ne, Ht by done.
Qed.

(** what is accepted is authentic, and nothing else of the tree changes but the
    nodes next to those above the piece *)
Lemma add_merkle_nodes_sound ti ti' subtree piece :
  let n := ti_merkle_first_leaf ti + piece in
  0 ≤ n < vsize (ti_merkle_tree ti) → vsize (ti_merkle_tree ti) mod 2 = 1 →
  add_merkle_nodes ti subtree piece = Some (ti', true) →
  ti' = set_merkle_tree ti (ti_merkle_tree ti') ∧ vsize (ti_merkle_tree ti') = vsize (ti_merkle_tree ti) ∧
  (ti_merkle_tree ti')⟦0⟧ = (ti_merkle_tree ti)⟦0⟧ ∧
  (ti_merkle_tree ti')⟦n⟧ = subtree !! n ∧ authentic (ti_merkle_tree ti') n.
Proof.
  intros n Hn Hodd. unfold add_merkle_nodes. fold n. destruct (subtree !! n) as [h|] eqn:Hh; [|done].
  destruct (climb tree_depth subtree n h ∅) as [[[r to_add]|]|] eqn:Hc; [|done|done]. cbn [mbind option_bind].
  destruct ((ti_merkle_tree ti)⟦0⟧) as [root|] eqn:Hroot; [|done]. cbn [mbind option_bind].
  case_bool_decide as Heq; [|done]. subst r. cbn [negb].
  destruct (climb_sound _ _ _ _ _ _ _ Hc) as (_ & Hkeys & _ & _ & Ht).
  { lia. }
  { right. intros i [? Hi]. by rewrite lookup_empty in Hi. }
  assert (∀ i, is_Some (to_add !! i) → 0 < i ≤ n + n mod 2) as Hrange.
  { intros i Hi. destruct (Hkeys i Hi) as [[? He]|[? _]]; [by rewrite lookup_empty in He|done]. }
  destruct (add_nodes_spec (ti_merkle_tree ti) to_add) as (t & -> & Hsz & Hget).
  { intros i Hi. specialize (Hrange i Hi). division. }
  cbn [mbind option_bind]. intros [= <-]. cbn [set_merkle_tree set_ti_hashes ti_merkle_tree].
  assert (t⟦0⟧ = Some root) as Ht0.
  { rewrite Hget, Hroot. destruct (to_add !! 0) eqn:E; [|done].
    specialize (Hrange 0 ltac:(by eexists)). lia. }
  destruct (Ht t) as [Ha Hl]; [intros i v Hi; by rewrite Hget, Hi|done|].
  split; [done|]. split; [done|]. split; [by rewrite Ht0|]. split; [done|done].
Qed.

(** two authentic trees with the same root agree, or SHA-1 collides *)
Lemma authentic_binding t u n :
  authentic t n → authentic u n → t⟦0⟧ = u⟦0⟧ →
  (∀ i h, t⟦i⟧ = Some h → vsize h = 20) → (∀ i h, u⟦i⟧ = Some h → vsize h = 20) →
  t⟦n⟧ = u⟦n⟧ ∨ ∃ x y, x ≠ y ∧ vsize x = 40 ∧ vsize y = 40 ∧ sha1 x = sha1 y.
Proof.
  intros Ht Hu H0 Htl Hul. revert Hu. induction Ht as [|n p a b Hn Hp Ha Hb Hpd Ht IH]; intros Hu; [by left|].
  inversion Hu as [|n' p' a' b' _ Hp' Ha' Hb' Hpd' Hu']; [lia|]. subst n'.
  destruct (IH Hu') as [Heq|]; [|by right].
  assert (p = p') as <- by congruence.
  pose proof (Htl _ _ Ha). pose proof (Htl _ _ Hb). pose proof (Hul _ _ Ha'). pose proof (Hul _ _ Hb').
  destruct (decide (a ++ b = a' ++ b')) as [Hab|Hab].
  - left. apply app_inj_1 in Hab as [<- <-]; [|unfold vsize in *; lia].
    destruct (sibling_cases n Hn) as [[-> _]|[-> _]]; congruence.
  - right. exists (a ++ b), (a' ++ b'). split; [done|]. rewrite !vsize_app. split; [lia|]. split; [lia|]. congruence.
Qed.

(** * What is built is accepted *)

Lemma above_range n a : above n a → 0 ≤ n → 0 ≤ a ≤ n.
Proof. intros Ha Hn. induction Ha as [|a Ha IH Hp]; [lia|]. destruct (parent_range a Hp). specialize (IH). lia. Qed.

(** the siblings of all nodes above [n] *)
Definition has_siblings (t : list (list Z)) (m : gmap Z (list Z)) (n : Z) : Prop :=
  ∀ a, above n a → 0 < a → is_Some (m !! merkle_get_sibling a).

Definition nodes_of (t : list (list Z)) (m : gmap Z (list Z)) : Prop := ∀ i v, m !! i = Some v → t⟦i⟧ = Some v.

Lemma authentic_sibling t n :
  authentic t n → 0 < n → ∃ s, t⟦merkle_get_sibling n⟧ = Some s.
Proof.
  intros Ha Hn. inversion Ha as [|n' p a b _ _ H1 H2 _ _]; [lia|]. subst.
  destruct (sibling_cases n Hn) as [[_ ->]|[_ ->]]; eauto.
Qed.

Lemma authentic_parent t n : authentic t n → 0 < n → authentic t (merkle_get_parent n).
Proof. intros Ha Hn. by inversion Ha; subst; [lia|]. Qed.

Lemma parent_depth n k : 0 < n → n < 2 ^ Z.of_nat (S k) - 1 → merkle_get_parent n < 2 ^ Z.of_nat k - 1.
Proof.
  intros Hn Hk. destruct (parent_range n Hn) as [_ Hp]. pose proof (Z.mod_pos_bound (n - 1) 2 ltac:(lia)).
  rewrite Nat2Z.inj_succ, Z.pow_succ_r in Hk by lia. lia.
Qed.

Lemma siblings_up_spec fuel t n m :
  authentic t n → 0 ≤ n → n < 2 ^ Z.of_nat fuel - 1 ∨ n = 0 → nodes_of t m →
  ∃ m', siblings_up fuel t n m = Some m' ∧ nodes_of t m' ∧ (∀ i, is_Some (m !! i) → is_Some (m' !! i)) ∧
    has_siblings t m' n.
Proof.
  revert n m. induction fuel as [|fuel IH]; intros n m Ha Hn Hk Hm; cbn [siblings_up]; destruct (Z.ltb_spec 0 n) as [Hp|Hp].
  1: exfalso; cbn in Hk; lia.
  1,3: exists m; split; [done|]; split; [done|]; split; [done|]; intros a Hab Ha0; apply above_range in Hab; lia.
  destruct (authentic_sibling t n Ha Hp) as [s Hs]. rewrite Hs. cbn [mbind option_bind].
  destruct (parent_range n Hp) as [Hpr _].
  destruct (IH (merkle_get_parent n) (<[merkle_get_sibling n:=s]> m)) as (m' & Hrun & Hn' & Hsub & Hsib).
  - by apply authentic_parent.
  - lia.
  - left. apply parent_depth; [done|]. lia.
  - intros i v. destruct (decide (i = merkle_get_sibling n)) as [->|]; [rewrite lookup_insert_eq; by intros [= <-]|].
    rewrite lookup_insert_ne by done. apply Hm.
  - exists m'. split; [done|]. split; [done|]. split.
    + intros i Hi. apply Hsub. rewrite lookup_insert_is_Some. destruct (decide (merkle_get_sibling n = i)); [by left|by right].
    + intros a Hab Ha0.
      assert (a = n ∨ above (merkle_get_parent n) a) as [->|Hab'].
      { clear -Hab. induction Hab as [|a Hab IH Hp]; [by left|right]. destruct IH as [->|IH]; [constructor|]. by constructor. }
      * apply Hsub. rewrite lookup_insert_eq. by eexists.
      * by apply Hsib.
Qed.

Lemma climb_complete fuel t m n h to_add :
  authentic t n → t⟦n⟧ = Some h → 0 ≤ n → n < 2 ^ Z.of_nat fuel - 1 ∨ n = 0 → nodes_of t m → has_siblings t m n →
  ∃ r to_add', climb fuel m n h to_add = Some (Some (r, to_add')) ∧ t⟦0⟧ = Some r.
Proof.
  revert n h to_add. induction fuel as [|fuel IH]; intros n h to_add Ha Hh Hn Hk Hm Hs; cbn [climb];
    destruct (Z.ltb_spec 0 n) as [Hp|Hp].
  1: exfalso; cbn in Hk; lia.
  1,3: assert (n = 0) as -> by lia; by exists h, to_add.
  destruct (Hs n) as [s Hsn]; [constructor|done|]. rewrite Hsn. pose proof (Hm _ _ Hsn) as Hts.
  destruct (parent_range n Hp) as [Hpr _]. apply IH.
  - by apply authentic_parent.
  - inversion Ha as [|n' p a b _ Hpar H1 H2 -> _]; [lia|]. subst n'. rewrite Hpar. f_equal.
    unfold hash_pair. destruct (sibling_cases n Hp) as [[Hl Hr]|[Hl Hr]]; rewrite Hr in Hts; rewrite Hl in Hh at 1.
    + destruct (Z.ltb_spec (merkle_get_sibling n) n); [lia|]. congruence.
    + destruct (Z.ltb_spec (merkle_get_sibling n) n); [|lia]. congruence.
  - lia.
  - left. apply parent_depth; [done|]. lia.
  - done.
  - intros a Hab. apply Hs. eapply above_above; [|exact Hab]. constructor; [constructor|done].
Qed.

(** the list that is built for a piece is accepted by a torrent with the same
    root *)
Lemma build_merkle_list_complete ti ti2 piece :
  let n := ti_merkle_first_leaf ti + piece in
  0 ≤ n < 2 ^ 31 - 1 → is_Some ((ti_merkle_tree ti)⟦n⟧) → authentic (ti_merkle_tree ti) n →
  ti_merkle_first_leaf ti2 = ti_merkle_first_leaf ti → vsize (ti_merkle_tree ti2) = vsize (ti_merkle_tree ti) →
  (ti_merkle_tree ti2)⟦0⟧ = (ti_merkle_tree ti)⟦0⟧ → vsize (ti_merkle_tree ti) mod 2 = 1 →
  ∃ m ti2', build_merkle_list ti piece = Some m ∧ add_merkle_nodes ti2 m piece = Some (ti2', true) ∧
    (ti_merkle_tree ti2')⟦n⟧ = (ti_merkle_tree ti)⟦n⟧.
Proof.
  intros n Hn [h Hh] Ha Hleaf Hsz Hroot Hodd. unfold build_merkle_list. fold n. rewrite Hh. cbn [mbind option_bind].
  pose proof (vget_Some_range _ _ _ Hh) as Hrange.
  destruct (vget_is_Some (ti_merkle_tree ti) 0) as [root H0]; [lia|]. rewrite H0. cbn [mbind option_bind].
  destruct (siblings_up_spec tree_depth (ti_merkle_tree ti) n (<[0:=root]> (<[n:=h]> ∅)) Ha) as (m & -> & Hm & Hin & Hs).
  - lia.
  - left. unfold tree_depth. lia.
  - intros i v. destruct (decide (i = 0)) as [->|]; [rewrite lookup_insert_eq; by intros [= <-]|].
    rewrite lookup_insert_ne by done. destruct (decide (i = n)) as [->|]; [rewrite lookup_insert_eq; by intros [= <-]|].
    by rewrite lookup_insert_ne, lookup_empty by done.
  - assert (is_Some (m !! n)) as [h' Hmn].
    { apply Hin. rewrite lookup_insert_is_Some. destruct (decide (0 = n)); [by left|right]. split; [done|].
      rewrite lookup_insert_eq. by eexists. }
    pose proof (Hm _ _ Hmn) as Hh'. rewrite Hh in Hh'. injection Hh' as <-.
    destruct (climb_complete tree_depth (ti_merkle_tree ti) m n h ∅ Ha Hh) as (r & to_add & Hc & Hrr);
      [lia|left; unfold tree_depth; lia|done|done|].
    assert (∃ ti2', add_merkle_nodes ti2 m piece = Some (ti2', true)) as [ti2' Hadd].
    { unfold add_merkle_nodes. rewrite Hleaf. fold n. rewrite Hmn, Hc. cbn [mbind option_bind].
      rewrite Hroot, Hrr. cbn [mbind option_bind]. rewrite bool_decide_eq_true_2 by done. cbn [negb].
      destruct (climb_sound _ _ _ _ _ _ _ Hc) as (_ & Hkeys & _); [lia|right; intros i [? Hi]; by rewrite lookup_empty in Hi|].
      destruct (add_nodes_spec (ti_merkle_tree ti2) to_add) as (t & -> & _); [|by eexists].
      intros i Hi. rewrite Hsz. destruct (Hkeys i Hi) as [[? He]|[? _]]; [by rewrite lookup_empty in He|].
      division. }
    exists m, ti2'. split; [done|]. split; [done|].
    destruct (add_merkle_nodes_sound ti2 ti2' m piece) as (_ & _ & _ & Hget & _); rewrite ?Hleaf, ?Hsz; try done.
    rewrite Hleaf in Hget. fold n in Hget. by rewrite Hget, Hmn.
Qed.
End merkle.
