(* ===== verification/TorrentProperties.v ===== *)
(** The properties of the metadata of a torrent: the conversions between UTF-8
    and code points, the paths of files, the info section and the hash tree. *)

From Stdlib Require Import String.
From stdpp Require Import gmap.
From S2P Require Import Prelude.
From stdpp Require Import list.
From S2P Require Import StringUtil.
From S2P Require Import Path.
From S2P Require Import PathCorrect.
From S2P Require Import Bdecode.
From S2P Require Import BdecodeNode.
From S2P Require Import BencodeGrammar.
From S2P Require Import BdecodeTheorems.
From S2P Require Import BdecodeNodeCorrect.
From S2P Require Import FileStorage.
From S2P Require Import FileSymlinks.
From S2P Require Import FileLinks.
From S2P Require Import Utf8.
From S2P Require Import Utf8Correct.
From S2P Require Import TorrentPath.
From S2P Require Import TorrentInfo.
From S2P Require Import TorrentFiles.
From S2P Require Import TorrentCorrect.
From S2P Require Import TorrentSection.
From S2P Require Import TorrentMerkle.

Open Scope Z_scope.

(** * UTF-8 *)

(** C35: the conversions are inverse on code points, [utf8_wchar] succeeds exactly
    on well-formed UTF-8, and [verify_encoding] always leaves well-formed UTF-8: it
    returns true, and changes nothing, exactly when the text is well formed and has
    no replacement characters. *)
Theorem utf8_conversions_correct target cps :
  Forall byte target → Forall scalar cps →
  wchar_utf8 cps = Some (utf8_of cps, conversionOK) ∧
  utf8_wchar (utf8_of cps) = Some (cps, conversionOK) ∧
  (∃ wide ret, utf8_wchar target = Some (wide, ret) ∧ (ret = conversionOK ↔ well_formed target)) ∧
  ∃ valid target', verify_encoding target = Some (valid, target') ∧ well_formed target' ∧
    (valid = true ↔ unreplaced target) ∧ (valid = true → target' = target).
Proof.
  intros Ht Hc. split; [by apply wchar_utf8_spec|]. split; [|split].
  - destruct (utf8_wchar_spec (utf8_of cps)) as (w & ret & -> & Hok & Hw); [by apply utf8_bytes|].
    rewrite (Hw cps) by done. do 2 f_equal. apply Hok. by exists cps.
  - destruct (utf8_wchar_spec target Ht) as (w & ret & -> & Hok & _). by exists w, ret.
  - by apply verify_encoding_spec.
Qed.

(** * Paths *)

(** C36: [sanitize_append_path_element] returns the path, or the path with one
    element more: well-formed UTF-8 without separators, control characters and marks
    of direction, that is not empty, "." or "..".  An element that is all that
    already, and shorter than 240 bytes, is appended as it is. *)
Theorem sanitize_append_path_element_correct path element :
  Forall byte element →
  (∃ path', sanitize_append_path_element path element = Some path' ∧
     (path' = path ∨ ∃ e, safe_element e ∧ path' = under path e)) ∧
  (safe_element element → vsize element < 240 →
     sanitize_append_path_element path element = Some (under path element)).
Proof. intros Hb. split; [by apply sanitize_appended|]. intros. by apply sanitize_safe. Qed.

(** * The info section *)

(** C37: [parse_info_section] returns for every dictionary whose sizes and names fit
    their fields.  It fails exactly when the verdict on the items of the dictionary
    is an error, with that error, and the files stay as they were or without a piece
    length.  Otherwise the files are those that are described, in a well-formed
    storage with the right number of pieces, and the digests, the flags, the similar
    torrents and the collections are where the dictionary has them. *)
Theorem parse_info_section_correct `{Sha1} ti info l max_pieces :
  sha1_ok → denotes info (CDict l) → of_bytes (CDict l) → fits_info l → ti_merkle_tree ti = [] →
  ∃ hex r ti', to_hex (sha1 (print (CDict l))) = Some hex ∧ Forall safe_element r ∧ r ≠ [] ∧
    join r = torrent_name_of hex (default [] (prefer_utf8 (string_at l) (bytes_of "name"))) ∧
    match verdict l (join r) max_pieces with
    | failed ec => parse_info_section ti info max_pieces = Some (ti', failed ec) ∧ rejected ti ti'
    | ok files => parse_info_section ti info max_pieces = Some (ti', ok tt) ∧
        ∃ fl, files = fl.*1 ∧ info_parsed l ti ti' (root_of (is_multifile l) r) fl
    end.
Proof. intros. by apply parse_info_section_spec. Qed.

(** C38: the pieces cover the files, the last one being the only one that may be
    short, and [hash_for_piece] returns the twenty bytes of the piece in the
    dictionary, or a node of the hash tree: its root when there is one piece, and
    zeros before the nodes are known. *)
Theorem hash_for_piece_correct `{Sha1} ti ti' l r fl max_pieces root :
  info_parsed l ti ti' r fl → verdict l root max_pieces = ok fl.*1 →
  let n := m_num_pieces (ti_files ti') in
  (0 ≤ n ∧ (n - 1) * length_of l < m_total_size (ti_files ti') ≤ n * length_of l) ∧
  ∀ i, 0 ≤ i < n →
    match string_at l (bytes_of "pieces") with
    | Some s => hash_for_piece ti' i = span s (i * 20) 20 ∧ vsize s = n * 20
    | None => ∃ h, hash_for_piece ti' i = Some h ∧
        (n = 1 → string_at l (bytes_of "root hash") = Some h) ∧ (1 < n → h = zero_hash)
    end.
Proof.
  intros Hp Hv n. destruct (verdict_described _ _ _ _ Hv) as (_ & _ & Hlen). pose proof (ip_files _ _ _ _ _ Hp) as Hf. split.
  - unfold n. rewrite (ip_pieces _ _ _ _ _ Hp), (tf_total _ _ _ _ _ Hf). apply piece_count_spec; [|lia].
    by eapply torrent_total_nonneg.
  - intros i Hi. eapply hash_for_piece_spec; [apply Hp|apply Hp|done].
Qed.

(** the dictionary of a key of what was parsed *)
Lemma parsed_dict buffer depth token res info key :
  Forall byte buffer → bdecode buffer depth token = Some res → is_error (r_ec res) = false →
  node_type (node_of buffer res) = Some tok_dict →
  dict_find_dict (node_of buffer res) key = Some info → operator_bool info = true →
  ∃ l, denotes info (CDict l) ∧ of_bytes (CDict l).
Proof.
  intros Hb Hrun Hec Hty Hinfo Hsome.
  destruct (bdecode_cases buffer depth token) as [(c & r & Hbuf & (Hmax & Hok & _) & Hs)|(res' & Hr & He & _)]; [|congruence].
  rewrite Hrun in Hs. injection Hs as ->. pose proof (success_denotes buffer c r Hbuf Hok Hmax) as Hn. cbv zeta in Hn.
  fold (success c) in Hn. rewrite (denotes_type _ _ Hn) in Hty. destruct c as [| | |l]; try done.
  destruct (denotes_dict_find_type tok_dict _ l key Hn) as (m & Hm & Hc).
  unfold dict_find_dict in Hinfo. rewrite Hm in Hinfo. injection Hinfo as ->.
  assert (of_bytes (CDict l)) as Hl by (unfold of_bytes; rewrite Hbuf in Hb; by apply Forall_app in Hb as [? _]).
  destruct (find_pair key l) as [v|] eqn:Hv; [|by subst info]. destruct (decide (cst_type v = tok_dict)) as [Hd|]; [|by subst info].
  destruct v as [| | |d]; try done. exists d. split; [done|]. by eapply of_bytes_value.
Qed.

(** C39: what is read from a buffer of any bytes stays below the directory of the
    torrent, when the sizes of its files have a sum below 2^48 and their names fit
    their field.  When such a torrent is accepted, the path of each of its files is the
    save path with elements that are not empty, "." or ".." and hold no separators, the
    first being those of the name of the torrent, the directory of pad files, or the
    only one, provided that the names are shorter than 240 bytes and are not dots.  The
    links are what [sanitize_symlinks] makes of the targets that the torrent gives,
    one for each link: every link has a relative path of elements for a target, which
    is a file or a directory of the torrent, or leads to one through directories of
    the torrent and the targets its links were given. *)
Theorem torrent_paths_safe `{Sha1} buffer depth token res info ti' max_pieces :
  sha1_ok → Forall byte buffer → bdecode buffer depth token = Some res → is_error (r_ec res) = false →
  node_type (node_of buffer res) = Some tok_dict →
  dict_find_dict (node_of buffer res) (bytes_of "info") = Some info → operator_bool info = true →
  parse_info_section new_torrent_info info max_pieces = Some (ti', ok tt) →
  (∃ l, denotes info (CDict l)) ∧ ∀ l, denotes info (CDict l) → fits_info l →
    ∃ hex r, to_hex (ti_info_hash ti') = Some hex ∧ Forall safe_element r ∧ r ≠ [] ∧
      join r = torrent_name_of hex (default [] (prefer_utf8 (string_at l) (bytes_of "name"))) ∧
      (plain_names l → ∀ i save, 0 ≤ i < num_files (ti_files ti') →
         ∃ es, es ≠ [] ∧ Forall safe_element es ∧ torrent_place l r es ∧
           file_path (ti_files ti') i save = Some (append_path save (join es))) ∧
      ∃ fl fs0 n, verdict l (join r) max_pieces = ok fl.*1 ∧ targets_of fs0 fl ∧
        paths_ok fs0 ∧ own_targets fs0 ∧ sanitized fs0 (set_num_pieces (ti_files ti') n) ∧
        ∀ i idx, link_at (ti_files ti') i idx → ∃ t, (m_symlinks (ti_files ti'))⟦idx⟧ = Some t ∧ is_path t ∧
          (in_torrent fs0 t ∨ t ∈ m_paths fs0 ∨ reaches fs0 t).
Proof.
  intros Hsha Hb Hrun Hec Hty Hinfo Hsome Hparse.
  destruct (parsed_dict buffer depth token res info _ Hb Hrun Hec Hty Hinfo Hsome) as (l0 & Hn0 & Hl0).
  split; [by exists l0|]. intros l Hn Hfit.
  assert (of_bytes (CDict l)) as Hl.
  { apply denotes_data_section in Hn as Hd. apply denotes_data_section in Hn0. unfold of_bytes in *. congruence. }
  destruct (parse_info_section_spec Hsha info l Hn Hl new_torrent_info max_pieces eq_refl Hfit)
    as (hex & r & ti & Hhex & Hr & Hrn & Hname & Hv).
  destruct (verdict l (join r) max_pieces) as [files|ec] eqn:Hverdict; destruct Hv as [Hp Hv]; [|congruence].
  rewrite Hparse in Hp. injection Hp as <-. destruct Hv as (fl & -> & Hip). exists hex, r.
  rewrite (ip_hash _ _ _ _ _ Hip). split; [done|]. split; [done|]. split; [done|]. split; [done|]. split.
  - intros Hplain i save Hi. by eapply torrent_paths.
  - destruct (tf_links _ _ _ _ _ (ip_files _ _ _ _ _ Hip)) as (fs0 & n & _ & Hpok & Hown & Htg & Hsan). exists fl, fs0, n.
    split; [done|]. split; [done|]. split; [done|]. split; [done|]. split; [done|]. intros i idx Hlink.
    apply (sanitized_inside fs0 _ i idx Hpok Hown Hsan). destruct Hsan as [Hrest _ _ _].
    assert (m_files (ti_files ti') = m_files fs0) as Hf by (change (m_files (set_num_pieces (ti_files ti') n) = m_files fs0); by rewrite Hrest).
    destruct Hlink as (e & He & Ha). exists e. by rewrite <-Hf.
Qed.

(** * The hash tree *)

(** C40: what [add_merkle_nodes] accepts is authentic: every node above the piece is
    the digest of its children up to the root, which stays; a piece gets the digest
    that was given for it.  Two trees with the same root that are authentic for a
    piece agree on its digest, or SHA-1 collides.  The list that [build_merkle_list]
    builds from an authentic tree is accepted by every tree with the same root. *)
Theorem merkle_nodes_correct `{Sha1} ti ti2 piece :
  let n := ti_merkle_first_leaf ti + piece in
  let tree := ti_merkle_tree ti in
  0 ≤ n < vsize tree → n < 2 ^ 31 - 1 → vsize tree mod 2 = 1 →
  ti_merkle_first_leaf ti2 = ti_merkle_first_leaf ti → vsize (ti_merkle_tree ti2) = vsize tree →
  (ti_merkle_tree ti2)⟦0⟧ = tree⟦0⟧ →
  (∀ subtree ti', add_merkle_nodes ti subtree piece = Some (ti', true) →
     hash_for_piece ti' piece = subtree !! n ∧ (ti_merkle_tree ti')⟦0⟧ = tree⟦0⟧ ∧ authentic (ti_merkle_tree ti') n) ∧
  (authentic tree n →
     (∃ m ti', build_merkle_list ti piece = Some m ∧ add_merkle_nodes ti2 m piece = Some (ti', true) ∧
        hash_for_piece ti' piece = hash_for_piece ti piece) ∧
     (authentic (ti_merkle_tree ti2) n → Forall (λ h, vsize h = 20) tree → Forall (λ h, vsize h = 20) (ti_merkle_tree ti2) →
        hash_for_piece ti2 piece = hash_for_piece ti piece ∨
        ∃ x y, x ≠ y ∧ vsize x = 40 ∧ vsize y = 40 ∧ sha1 x = sha1 y)).
Proof.
  intros n tree Hn Hmax Hodd Hleaf Hsz Hroot.
  assert (∀ t, vsize (ti_merkle_tree t) = vsize tree → ti_merkle_first_leaf t = ti_merkle_first_leaf ti →
    hash_for_piece t piece = (ti_merkle_tree t)⟦n⟧) as Hhash.
  { intros t Ht Hl. unfold hash_for_piece. rewrite Hl. fold n. destruct (ti_merkle_tree t); [|done].
    rewrite <-Ht in Hn. unfold vsize in Hn. cbn in Hn. lia. }
  split.
  - intros subtree ti' Hadd. destruct (add_merkle_nodes_sound ti ti' subtree piece Hn Hodd Hadd) as (Hti & Hs & H0 & Hl & Ha).
    split; [|done]. rewrite Hhash; [exact Hl|done|by rewrite Hti].
  - intros Ha. split.
    + destruct (build_merkle_list_complete ti ti2 piece (conj (proj1 Hn) Hmax) (vget_is_Some tree n Hn) Ha Hleaf Hsz Hroot Hodd)
        as (m & ti' & Hb & Hadd & Hl).
      exists m, ti'. split; [done|]. split; [done|].
      assert (0 ≤ ti_merkle_first_leaf ti2 + piece < vsize (ti_merkle_tree ti2)) as Hr2 by (rewrite Hleaf, Hsz; exact Hn).
      assert (vsize (ti_merkle_tree ti2) mod 2 = 1) as Hodd2 by (by rewrite Hsz).
      destruct (add_merkle_nodes_sound ti2 ti' m piece Hr2 Hodd2 Hadd) as (Hti & Hs & _).
      rewrite !Hhash; try done; [by rewrite Hs|by rewrite Hti].
    + intros Ha2 Ht1 Ht2. rewrite !Hhash by done. rewrite Forall_forall in Ht1, Ht2.
      destruct (authentic_binding (ti_merkle_tree ti2) tree n Ha2 Ha Hroot) as [?|?];
        [intros i h Hi; by eapply Ht2, vget_elem_of|intros i h Hi; by eapply Ht1, vget_elem_of|by left|by right].
Qed.

(** * What goes wrong *)

Section faults.
Context `{Sha1}.

(** the torrent of a buffer *)
Definition load (buffer : list Z) : option (torrent_info * res unit) :=
  res ← bdecode buffer 100 1000;
  info ← dict_find_dict (node_of buffer res) (bytes_of "info");
  parse_info_section new_torrent_info info default_piece_limit.

(** a member of the files of a torrent that is accepted *)
Definition of_files {A} (f : file_storage → option A) (buffer : list Z) : option A :=
  '(ti, r) ← load buffer; match r with ok _ => f (ti_files ti) | failed _ => None end.

Definition dots_behind : list Z := bytes_of
  "d4:infod5:filesld6:lengthi10e4:pathl3:a..2:..eee4:name1:n12:piece lengthi16e6:pieces20:AAAAAAAAAAAAAAAAAAAAee".

Definition too_large : list Z := bytes_of
  "d4:infod5:filesld6:lengthi281474976710656e4:pathl1:aeee4:name1:n12:piece lengthi16e6:pieces0:ee".

Definition pad_first : list Z := bytes_of
  "d4:infod5:filesld4:attr1:p6:lengthi5eed6:lengthi6e4:pathl1:zeee4:name1:n12:piece lengthi16e6:pieces20:AAAAAAAAAAAAAAAAAAAAee".

Definition no_dictionary : list Z := bytes_of
  "d4:infod5:filesli5ee4:name1:n12:piece lengthi16e6:pieces20:AAAAAAAAAAAAAAAAAAAAee".

(** What goes wrong, on a buffer or a text each.  The last element ".." of a path is dropped, but is the name of
    the file when the element before ends with two dots: the file is the directory
    above.  A size of 2^48 is accepted and is a size of zero.  The name of a torrent
    whose first file is a pad file without a path is ".pad".  A file that is no
    dictionary is refused without an error code.  The extension of a long element
    loses its dot when the last character before the limit has more than one byte, and
    control characters are replaced without a limit.  Text that is taken for Latin-1
    loses what comes before its first illegal byte.  A replacement character in
    well-formed text is taken for an error. *)
Lemma torrent_metadata_faults :
  of_files (λ fs, file_path fs 0 (bytes_of "s")) dots_behind = Some (bytes_of "s/n/..") ∧
  of_files (λ fs, file_size fs 0) too_large = Some 0 ∧
  of_files (λ fs, Some (m_name fs)) pad_first = Some (bytes_of ".pad") ∧
  option_map snd (load no_dictionary) = Some (failed None) ∧
  sanitize_append_path_element [] (replicate 238 97 ++ [195; 169] ++ bytes_of "bbb.exe") =
    Some (replicate 238 97 ++ [195; 169] ++ bytes_of "exe") ∧
  option_map vsize (sanitize_append_path_element [] (replicate 300 1)) = Some 300 ∧
  utf8_wchar [97; 0xC0; 98] = Some ([0xC0; 98], sourceIllegal) ∧
  utf8 [239; 191; 189] [0xFFFD] ∧ verify_encoding [239; 191; 189] = Some (false, [95]).
Proof.
  split; [vm_compute; reflexivity|].
  split; [vm_compute; reflexivity|].
  split; [vm_compute; reflexivity|].
  split; [vm_compute; reflexivity|].
  split; [vm_compute; reflexivity|].
  split; [vm_compute; reflexivity|].
  split; [vm_compute; reflexivity|].
  split; [|vm_compute; reflexivity].
  split; [|done]. apply Forall_singleton. unfold scalar. lia.
Qed.
End faults.

(** * Samples *)

#[local] Instance sha1_sample : Sha1 := λ s, replicate 20 (vsize s mod 256).

Lemma sha1_sample_ok : sha1_ok.
Proof.
  intros s. change (sha1 s) with (replicate 20 (vsize s mod 256)).
  split; [|unfold vsize; by rewrite length_replicate]. apply Forall_replicate. unfold byte. apply Z.mod_pos_bound. lia.
Qed.

(** strings and numbers of a torrent *)
Definition text (s : String.string) : bstr := BStr (dec_string (vsize (bytes_of s))) (bytes_of s).
Definition num (s : String.string) : cst := CInt false (bytes_of s).

(** a torrent with a file and a link to it *)
Definition sample_items : list (bstr * cst) :=
  [ (text "files", CList
      [ CDict [ (text "length", num "30"); (text "path", CList [CStr (text "a"); CStr (text "b.c")]) ];
        CDict [ (text "attr", CStr (text "l"));
                (text "path", CList [CStr (text "l")]);
                (text "symlink path", CList [CStr (text "a"); CStr (text "b.c")]) ] ]);
    (text "name", CStr (text "n"));
    (text "piece length", num "16");
    (text "pieces", CStr (text "AAAAAAAAAAAAAAAAAAAABBBBBBBBBBBBBBBBBBBB"));
    (text "private", num "1") ].

Definition sample_torrent : cst := CDict [ (text "info", CDict sample_items) ].

Lemma bytes_check s : forallb (λ c, (0 <=? c) && (c <? 256)) s = true → Forall byte s.
Proof.
  intros Hs. apply Forall_forall. intros c Hc. rewrite forallb_forall in Hs.
  specialize (Hs c (proj1 (list_elem_of_In _ _) Hc)). apply andb_true_iff in Hs as [?%Z.leb_le ?%Z.ltb_lt]. by split.
Qed.

Lemma digits_check s : forallb numeric s = true → digit_list s.
Proof.
  intros Hs. apply Forall_forall. intros c Hc. rewrite forallb_forall in Hs. by apply Hs, list_elem_of_In.
Qed.

Lemma sample_torrent_ok : cst_ok sample_torrent.
Proof. unfold sample_torrent, sample_items. repeat constructor; try (by apply digits_check); vm_compute; congruence. Qed.

Lemma sample_items_ok : cst_ok (CDict sample_items).
Proof. unfold sample_items. repeat constructor; try (by apply digits_check); vm_compute; congruence. Qed.

Definition sample_info : bdecode_node := node_of (print (CDict sample_items)) (success (CDict sample_items)).

Lemma sample_info_denotes : denotes sample_info (CDict sample_items).
Proof.
  apply (success_denotes _ (CDict sample_items) []); [by rewrite app_nil_r|apply sample_items_ok|]. vm_compute. congruence.
Qed.

Lemma sample_bytes : of_bytes (CDict sample_items).
Proof. apply bytes_check. vm_compute. reflexivity. Qed.

Lemma sample_fits : fits_info sample_items.
Proof.
  change (fits_info sample_items) with (fits false (match sample_items with (_, CList v) :: _ => v | _ => [] end)).
  split; [vm_compute; reflexivity|]. cbn [sample_items]. intros c Hc.
  repeat (apply elem_of_cons in Hc as [->|Hc]; [vm_compute; reflexivity|]). by apply elem_of_nil in Hc.
Qed.

(** ** UTF-8 and paths *)

Lemma utf8_conversions_correct_witness :
  Forall byte [97; 0xE2; 0x82; 0xAC; 0x80] ∧ Forall scalar [97; 0x20AC] ∧
  verify_encoding [97; 0xE2; 0x82; 0xAC; 0x80] = Some (false, [97; 0xE2; 0x82; 0xAC; 95]) ∧
  ∃ valid target', verify_encoding [97; 0xE2; 0x82; 0xAC; 0x80] = Some (valid, target') ∧ well_formed target' ∧
    (valid = true ↔ unreplaced [97; 0xE2; 0x82; 0xAC; 0x80]) ∧ (valid = true → target' = [97; 0xE2; 0x82; 0xAC; 0x80]).
Proof.
  assert (Forall byte [97; 0xE2; 0x82; 0xAC; 0x80]) as Hb by (by apply bytes_check).
  assert (Forall scalar [97; 0x20AC]) as Hc.
  { repeat (apply Forall_cons_2 || apply Forall_nil_2); unfold scalar; lia. }
  split; [exact Hb|]. split; [exact Hc|]. split; [reflexivity|].
  exact (proj2 (proj2 (proj2 (utf8_conversions_correct _ _ Hb Hc)))).
Defined.

Lemma sanitize_append_path_element_correct_witness :
  Forall byte [46; 46; 47; 97] ∧ sanitize_append_path_element [98] [46; 46; 47; 97] = Some [98; 47; 46; 46; 97] ∧
  ∃ path', sanitize_append_path_element [98] [46; 46; 47; 97] = Some path' ∧
     (path' = [98] ∨ ∃ e, safe_element e ∧ path' = under [98] e).
Proof.
  assert (Forall byte [46; 46; 47; 97]) as Hb by (by apply bytes_check).
  split; [exact Hb|]. split; [reflexivity|]. exact (proj1 (sanitize_append_path_element_correct [98] _ Hb)).
Defined.

(** ** The info section *)

Lemma parse_info_section_correct_witness :
  (sha1_ok ∧ denotes sample_info (CDict sample_items) ∧ of_bytes (CDict sample_items) ∧ fits_info sample_items ∧
   ti_merkle_tree new_torrent_info = []) ∧
  ∃ hex r ti', to_hex (sha1 (print (CDict sample_items))) = Some hex ∧ Forall safe_element r ∧ r ≠ [] ∧
    join r = torrent_name_of hex (default [] (prefer_utf8 (string_at sample_items) (bytes_of "name"))) ∧
    match verdict sample_items (join r) 1000 with
    | failed ec => parse_info_section new_torrent_info sample_info 1000 = Some (ti', failed ec) ∧ rejected new_torrent_info ti'
    | ok files => parse_info_section new_torrent_info sample_info 1000 = Some (ti', ok tt) ∧
        ∃ fl, files = fl.*1 ∧
          info_parsed sample_items new_torrent_info ti' (root_of (is_multifile sample_items) r) fl
    end.
Proof.
  split; [split_and!; [apply sha1_sample_ok|apply sample_info_denotes|apply sample_bytes|apply sample_fits|done]|].
  exact (parse_info_section_correct new_torrent_info sample_info sample_items 1000 sha1_sample_ok sample_info_denotes
    sample_bytes sample_fits eq_refl).
Defined.

(** the sample is accepted *)
Lemma sample_parsed :
  ∃ ti' r fl, verdict sample_items (bytes_of "n") 1000 = ok fl.*1 ∧
    info_parsed sample_items new_torrent_info ti' (root_of (is_multifile sample_items) r) fl ∧ vsize fl = 2.
Proof.
  destruct (parse_info_section_spec sha1_sample_ok sample_info sample_items sample_info_denotes sample_bytes
    new_torrent_info 1000 eq_refl sample_fits) as (hex & r & ti' & _ & _ & _ & Hj & Hv).
  assert (join r = bytes_of "n") as Hn by (rewrite Hj; vm_compute; reflexivity). rewrite Hn in Hv.
  destruct (verdict sample_items (bytes_of "n") 1000) as [files|] eqn:E; [|vm_compute in E; discriminate E].
  destruct Hv as (_ & fl & -> & Hp). exists ti', r, fl. split; [done|]. split; [done|].
  apply (f_equal (λ o, match o with ok l => vsize l | failed _ => 0 end)) in E. vm_compute in E.
  unfold vsize. rewrite <-(length_fmap fst). symmetry. exact E.
Qed.

Lemma hash_for_piece_correct_witness :
  ∃ ti' r fl, info_parsed sample_items new_torrent_info ti' r fl ∧ verdict sample_items (bytes_of "n") 1000 = ok fl.*1 ∧
    let n := m_num_pieces (ti_files ti') in
    (0 ≤ n ∧ (n - 1) * length_of sample_items < m_total_size (ti_files ti') ≤ n * length_of sample_items) ∧
    ∀ i, 0 ≤ i < n →
      match string_at sample_items (bytes_of "pieces") with
      | Some s => hash_for_piece ti' i = BdecodeNode.span s (i * 20) 20 ∧ vsize s = n * 20
      | None => ∃ h, hash_for_piece ti' i = Some h ∧
          (n = 1 → string_at sample_items (bytes_of "root hash") = Some h) ∧ (1 < n → h = zero_hash)
      end.
Proof.
  destruct sample_parsed as (ti' & r & fl & Hv & Hp & _). exists ti', (root_of (is_multifile sample_items) r), fl.
  split; [exact Hp|]. split; [exact Hv|]. exact (hash_for_piece_correct _ _ _ _ _ _ _ Hp Hv).
Defined.

(** ** From the bytes to the paths *)

Definition sample_result : Bdecode.result := default (success sample_torrent) (bdecode (print sample_torrent) 100 1000).

Definition sample_found : bdecode_node :=
  default default_node (dict_find_dict (node_of (print sample_torrent) sample_result) (bytes_of "info")).

Lemma sample_found_denotes : denotes sample_found (CDict sample_items).
Proof.
  assert (denotes (node_of (print sample_torrent) (success sample_torrent)) sample_torrent) as Hroot.
  { apply (success_denotes _ sample_torrent []); [by rewrite app_nil_r|apply sample_torrent_ok|]. vm_compute. congruence. }
  destruct (denotes_dict_find_type tok_dict _ _ (bytes_of "info") Hroot) as (m & Hm & Hd).
  replace sample_found with m; [exact Hd|]. unfold sample_found, sample_result, dict_find_dict.
  replace (default (success sample_torrent) (bdecode (print sample_torrent) 100 1000)) with (success sample_torrent)
    by (vm_compute; reflexivity).
  by rewrite Hm.
Qed.

Definition sample_loaded : torrent_info :=
  match parse_info_section new_torrent_info sample_found 1000 with Some (ti, _) => ti | None => new_torrent_info end.

Lemma torrent_paths_safe_witness :
  (sha1_ok ∧ Forall byte (print sample_torrent) ∧ bdecode (print sample_torrent) 100 1000 = Some sample_result ∧
   is_error (r_ec sample_result) = false ∧
   node_type (node_of (print sample_torrent) sample_result) = Some tok_dict ∧
   dict_find_dict (node_of (print sample_torrent) sample_result) (bytes_of "info") = Some sample_found ∧
   operator_bool sample_found = true ∧
   parse_info_section new_torrent_info sample_found 1000 = Some (sample_loaded, ok tt)) ∧
  file_path (ti_files sample_loaded) 0 (bytes_of "s") = Some (bytes_of "s/n/a/b.c") ∧
  denotes sample_found (CDict sample_items) ∧ fits_info sample_items ∧
  ∃ hex r, to_hex (ti_info_hash sample_loaded) = Some hex ∧ Forall safe_element r ∧ r ≠ [] ∧
    join r = torrent_name_of hex (default [] (prefer_utf8 (string_at sample_items) (bytes_of "name"))) ∧
    (plain_names sample_items → ∀ i save, 0 ≤ i < num_files (ti_files sample_loaded) →
       ∃ es, es ≠ [] ∧ Forall safe_element es ∧ torrent_place sample_items r es ∧
         file_path (ti_files sample_loaded) i save = Some (append_path save (join es))) ∧
    ∃ fl fs0 n, verdict sample_items (join r) 1000 = ok fl.*1 ∧ targets_of fs0 fl ∧
      paths_ok fs0 ∧ own_targets fs0 ∧ sanitized fs0 (set_num_pieces (ti_files sample_loaded) n) ∧
      ∀ i idx, link_at (ti_files sample_loaded) i idx → ∃ t, (m_symlinks (ti_files sample_loaded))⟦idx⟧ = Some t ∧
        is_path t ∧ (in_torrent fs0 t ∨ t ∈ m_paths fs0 ∨ reaches fs0 t).
Proof.
  assert (Forall byte (print sample_torrent)) as Hb by (apply bytes_check; vm_compute; reflexivity).
  assert (bdecode (print sample_torrent) 100 1000 = Some sample_result) as H1 by (vm_compute; reflexivity).
  assert (is_error (r_ec sample_result) = false) as H2 by (vm_compute; reflexivity).
  assert (node_type (node_of (print sample_torrent) sample_result) = Some tok_dict) as H3 by (vm_compute; reflexivity).
  assert (dict_find_dict (node_of (print sample_torrent) sample_result) (bytes_of "info") = Some sample_found) as H4
    by (vm_compute; reflexivity).
  assert (operator_bool sample_found = true) as H5 by (vm_compute; reflexivity).
  assert (parse_info_section new_torrent_info sample_found 1000 = Some (sample_loaded, ok tt)) as H6 by (vm_compute; reflexivity).
  split; [split_and!; [apply sha1_sample_ok|exact Hb|exact H1|exact H2|exact H3|exact H4|exact H5|exact H6]|].
  split; [vm_compute; reflexivity|].
  split; [exact sample_found_denotes|]. split; [exact sample_fits|].
  exact (proj2 (torrent_paths_safe _ _ _ _ _ _ _ sha1_sample_ok Hb H1 H2 H3 H4 H5 H6) sample_items
    sample_found_denotes sample_fits).
Defined.

(** ** The tree *)

Definition with_tree (tree : list (list Z)) : torrent_info := set_ti_hashes new_torrent_info None tree 1.

Definition full_tree : list (list Z) :=
  [sha1 (replicate 20 1 ++ replicate 20 2); replicate 20 1; replicate 20 2].

Lemma merkle_nodes_correct_witness :
  let ti := with_tree full_tree in
  let ti2 := with_tree [sha1 (replicate 20 1 ++ replicate 20 2); zero_hash; zero_hash] in
  authentic full_tree 1 ∧
  (∃ m ti', build_merkle_list ti 0 = Some m ∧ add_merkle_nodes ti2 m 0 = Some (ti', true) ∧
     hash_for_piece ti' 0 = hash_for_piece ti 0).
Proof.
  intros ti ti2.
  assert (authentic full_tree 1) as Ha.
  { apply (authentic_up _ 1 (sha1 (replicate 20 1 ++ replicate 20 2)) (replicate 20 1) (replicate 20 2));
      [lia|reflexivity|reflexivity|reflexivity|reflexivity|apply authentic_root]. }
  assert (0 ≤ 1 + 0 < vsize full_tree) as H1 by (split; [lia|vm_compute; reflexivity]).
  assert (1 + 0 < 2 ^ 31 - 1) as H2 by (vm_compute; reflexivity).
  split; [exact Ha|].
  exact (proj1 (proj2 (merkle_nodes_correct ti ti2 0 H1 H2 eq_refl eq_refl eq_refl eq_refl) Ha)).
Defined.
