(* ===== verification/Tailqueue.v ===== *)
(** [tailqueue] of src/btdownloader/include/libtorrent/tailqueue.hpp: a queue
    whose links are inside of its elements, and that it is a list.

    The elements are pointers, which are numbers; the [next] fields of all
    elements there are make up a store, as an element can be reached through
    several queues.  Reading or writing the field of what is not in the store is
    undefined behaviour, and [None].  The elements of a queue are linked from the
    first to the last, and each operation does to the links what a function on
    lists does to the elements.  Elements that are not in the queue keep their
    links. *)

From stdpp Require Import gmap.
From S2P Require Import Prelude.
From stdpp Require Import list.

Open Scope Z_scope.

Abbreviation ptr := Z (only parsing).

(** the fields [tailqueue_node::next] *)
Abbreviation nexts := (gmap ptr (option ptr)) (only parsing).

Record tailqueue := Tailqueue {
  m_first : option ptr;
  m_last : option ptr;
  m_size : Z
}.

Definition new_tailqueue : tailqueue := Tailqueue None None 0.

Definition get_next (h : nexts) (e : ptr) : option (option ptr) := h !! e.

Definition set_next (h : nexts) (e : ptr) (n : option ptr) : option nexts :=
  _ ← h !! e; Some (<[e := n]> h).

Definition empty (q : tailqueue) : bool := m_size q =? 0.

Definition first (q : tailqueue) : option ptr := m_first q.

Definition last (q : tailqueue) : option ptr := m_last q.

Definition pop_front (h : nexts) (q : tailqueue) : option (nexts * tailqueue * ptr) :=
  e ← m_first q;
  n ← get_next h e;
  let l := if bool_decide (m_last q = Some e) then None else m_last q in
  h ← set_next h e None;
  Some (h, Tailqueue n l (m_size q - 1), e).

Definition push_front (h : nexts) (q : tailqueue) (e : ptr) : option (nexts * tailqueue) :=
  h ← set_next h e (m_first q);
  let l := match m_last q with None => Some e | l => l end in
  Some (h, Tailqueue (Some e) l (m_size q + 1)).

Definition push_back (h : nexts) (q : tailqueue) (e : ptr) : option (nexts * tailqueue) :=
  h ← match m_last q with Some l => set_next h l (Some e) | None => Some h end;
  let f := match m_last q with Some _ => m_first q | None => Some e end in
  h ← set_next h e None;
  Some (h, Tailqueue f (Some e) (m_size q + 1)).

Definition get_all (q : tailqueue) : tailqueue * option ptr := (new_tailqueue, m_first q).

(** the two queues that are swapped, in their new order *)
Definition swap (q rhs : tailqueue) : tailqueue * tailqueue := (rhs, q).

(** this queue and the other one, which are two objects *)
Definition append (h : nexts) (q rhs : tailqueue) : option (nexts * tailqueue * tailqueue) :=
  match m_first rhs with
  | None => Some (h, q, rhs)
  | _ =>
      match m_first q with
      | None => let '(q, rhs) := swap q rhs in Some (h, q, rhs)
      | _ =>
          l ← m_last q;
          h ← set_next h l (m_first rhs);
          Some (h, Tailqueue (m_first q) (m_last rhs) (m_size q + m_size rhs), new_tailqueue)
      end
  end.

Definition prepend (h : nexts) (q rhs : tailqueue) : option (nexts * tailqueue * tailqueue) :=
  match m_first rhs with
  | None => Some (h, q, rhs)
  | _ =>
      match m_first q with
      | None => let '(q, rhs) := swap q rhs in Some (h, q, rhs)
      | _ => let '(q, rhs) := swap q rhs in append h q rhs
      end
  end.

(** what an iterator that starts at [p] visits before it is null *)
Fixpoint iterate (fuel : nat) (h : nexts) (p : option ptr) : option (list ptr) :=
  match p with
  | None => Some []
  | Some e =>
      match fuel with
      | O => None
      | S fuel => n ← get_next h e; l ← iterate fuel h n; Some (e :: l)
      end
  end.

(** from [p], the elements [l] and then [q] *)
Fixpoint segment (h : nexts) (p : option ptr) (l : list ptr) (q : option ptr) : Prop :=
  match l with
  | [] => p = q
  | x :: l => p = Some x ∧ ∃ n, h !! x = Some n ∧ segment h n l q
  end.

Record is_queue (h : nexts) (q : tailqueue) (l : list ptr) : Prop := {
  queue_links : segment h (m_first q) l None;
  queue_last : m_last q = list.last l;
  queue_size : m_size q = vsize l;
  queue_nodup : NoDup l
}.

Lemma nodup_snoc (l : list ptr) x : NoDup l → x ∉ l → NoDup (l ++ [x]).
Proof.
  intros Hl Hx. apply NoDup_app. split; [done|]. split; [|apply NoDup_singleton].
  by intros y Hy ->%list_elem_of_singleton.
Qed.

Lemma segment_frame h h' p l q :
  (∀ x, x ∈ l → h' !! x = h !! x) → segment h p l q → segment h' p l q.
Proof.
  revert p. induction l as [|x l IH]; intros p Hh; [done|].
  intros (-> & n & Hn & Hs). split; [done|]. exists n.
  rewrite Hh by left. split; [done|]. apply IH; [|done]. intros y Hy. apply Hh. by right.
Qed.

Lemma segment_app h p l l' q :
  segment h p (l ++ l') q ↔ ∃ r, segment h p l r ∧ segment h r l' q.
Proof.
  revert p. induction l as [|x l IH]; intros p; cbn.
  - split; [eauto|by intros (r & -> & ?)].
  - setoid_rewrite IH. naive_solver.
Qed.

Lemma segment_elem h p l q x : segment h p l q → x ∈ l → is_Some (h !! x).
Proof.
  revert p. induction l as [|y l IH]; intros p; [by intros ? ?%elem_of_nil|].
  intros (-> & n & Hn & Hs) [->|Hx]%elem_of_cons; eauto.
Qed.

Lemma segment_last h p l x q : segment h p (l ++ [x]) q → h !! x = Some q.
Proof. rewrite segment_app. by intros (r & _ & -> & n & Hn & ->). Qed.

Lemma segment_insert h p l q e n : e ∉ l → segment h p l q → segment (<[e := n]> h) p l q.
Proof.
  intros He. apply segment_frame. intros x Hx. apply lookup_insert_ne. by intros ->.
Qed.

(** a link behind the last element is replaced *)
Lemma segment_relink h p l x q q' :
  NoDup (l ++ [x]) → segment h p (l ++ [x]) q → segment (<[x := q']> h) p (l ++ [x]) q'.
Proof.
  intros [_ [Hx _]]%NoDup_app. rewrite !segment_app.
  intros (r & Hs & -> & n & Hn & <-). exists (Some x). split.
  - apply segment_insert; [|done]. intros H. apply (Hx x H). by left.
  - split; [done|]. exists q'. by rewrite lookup_insert_eq.
Qed.

Lemma queue_frame h h' q l :
  (∀ x, x ∈ l → h' !! x = h !! x) → is_queue h q l → is_queue h' q l.
Proof. intros Hh [H1 H2 H3 H4]. split; try done. by eapply segment_frame. Qed.

Lemma new_queue h : is_queue h new_tailqueue [].
Proof. by split; [..|constructor]. Qed.

Lemma queue_elem h q l x : is_queue h q l → x ∈ l → is_Some (h !! x).
Proof. intros Hq. eapply segment_elem, Hq. Qed.

Lemma queue_empty h q l : is_queue h q l → empty q = bool_decide (l = []).
Proof.
  intros Hq. unfold empty. rewrite (queue_size _ _ _ Hq).
  destruct l as [|x l]; [done|]. rewrite bool_decide_false by done. apply Z.eqb_neq. vsize.
  pose proof (vsize_nonneg l). lia.
Qed.

Lemma queue_first h q l : is_queue h q l → first q = head l.
Proof. intros [H _ _ _]. destruct l; [done|]. by destruct H. Qed.

Lemma set_next_Some h e n : is_Some (h !! e) → set_next h e n = Some (<[e := n]> h).
Proof. intros [? Hx]. unfold set_next. by rewrite Hx. Qed.

Lemma pop_front_spec h q x l :
  is_queue h q (x :: l) →
  ∃ h' q', pop_front h q = Some (h', q', x) ∧ is_queue h' q' l ∧
    h' = <[x := None]> h.
Proof.
  intros [[H1 (n & Hn & Hs)] H2 H3 [Hx Hnd]%NoDup_cons].
  unfold pop_front, get_next. rewrite H1. cbn. rewrite Hn. cbn.
  rewrite set_next_Some by eauto. cbn. do 2 eexists. split; [done|]. split; [|done].
  split; [by apply segment_insert| | |done]; cbn.
  - rewrite H2. destruct l as [|y l]; cbn [list.last].
    + by rewrite bool_decide_true.
    + rewrite bool_decide_false; [done|]. intros Heq. by apply Hx, last_Some_elem_of.
  - rewrite H3. vsize.
Qed.

Lemma push_front_spec h q l x :
  is_queue h q l → x ∉ l → is_Some (h !! x) →
  ∃ q', push_front h q x = Some (<[x := m_first q]> h, q') ∧
    is_queue (<[x := m_first q]> h) q' (x :: l).
Proof.
  intros [H1 H2 H3 H4] Hx Hd. unfold push_front. rewrite set_next_Some by done. cbn.
  eexists. split; [done|]. split; cbn.
  - split; [done|]. exists (m_first q). rewrite lookup_insert_eq. split; [done|].
    by apply segment_insert.
  - rewrite H2. destruct l as [|y l]; [done|]. cbn [list.last].
    destruct (list.last (y :: l)) eqn:E; [done|]. by apply last_None in E.
  - rewrite H3. vsize.
  - by constructor.
Qed.

Lemma push_back_spec h q l x :
  is_queue h q l → x ∉ l → is_Some (h !! x) →
  ∃ h' q', push_back h q x = Some (h', q') ∧ is_queue h' q' (l ++ [x]) ∧
    dom h' = dom h ∧ ∀ y, y ∉ l → y ≠ x → h' !! y = h !! y.
Proof.
  intros [H1 H2 H3 H4] Hx Hd. unfold push_back. rewrite H2.
  destruct l as [|e l _] using rev_ind; cbn [list.last].
  - cbn. rewrite set_next_Some by done. cbn. do 2 eexists. split; [done|].
    split; [split; cbn|]. 
    + split; [done|]. exists None. by rewrite lookup_insert_eq.
    + done.
    + rewrite H3. vsize.
    + by apply NoDup_singleton.
    + split; [|by intros y _ Hy; rewrite lookup_insert_ne].
      apply dom_insert_lookup_L. done.
  - rewrite last_snoc in *. pose proof (segment_last _ _ _ _ _ H1) as He.
    rewrite set_next_Some by eauto. cbn.
    assert (x ≠ e) as Hxe by (intros ->; apply Hx, elem_of_app; right; by left).
    rewrite set_next_Some by (by rewrite lookup_insert_ne). cbn. do 2 eexists. split; [done|].
    split; [split; cbn|split].
    + apply segment_app. exists (Some x). split.
      * apply segment_insert; [done|]. by eapply segment_relink.
      * split; [done|]. exists None. by rewrite lookup_insert_eq.
    + by rewrite last_snoc.
    + rewrite H3. vsize.
    + by apply nodup_snoc.
    + rewrite !dom_insert_lookup_L; [done|eauto|by rewrite lookup_insert_ne].
    + intros y Hy Hyx. rewrite lookup_insert_ne by done. apply lookup_insert_ne.
      intros ->. apply Hy, elem_of_app. right. by left.
Qed.

Lemma swap_spec h q rhs l r :
  is_queue h q l → is_queue h rhs r →
  is_queue h (swap q rhs).1 r ∧ is_queue h (swap q rhs).2 l.
Proof. done. Qed.

Lemma get_all_spec h q l :
  is_queue h q l → is_queue h (get_all q).1 [] ∧ segment h (get_all q).2 l None.
Proof. intros Hq. split; [apply new_queue|apply Hq]. Qed.

Lemma append_spec h q rhs l r :
  is_queue h q l → is_queue h rhs r → l ## r →
  ∃ h' q' rhs', append h q rhs = Some (h', q', rhs') ∧
    is_queue h' q' (l ++ r) ∧ is_queue h' rhs' [] ∧
    dom h' = dom h ∧ ∀ y, y ∉ l → h' !! y = h !! y.
Proof.
  intros Hq Hr Hd. unfold append.
  pose proof (queue_first _ _ _ Hr) as Hf. unfold first in Hf. rewrite Hf.
  destruct r as [|x r]; cbn [head].
  { exists h, q, rhs. rewrite app_nil_r. split_and!; done. }
  pose proof (queue_first _ _ _ Hq) as Hl. unfold first in Hl. rewrite Hl.
  destruct l as [|e l _] using rev_ind; cbn [head app].
  { exists h, rhs, q. split_and!; done. }
  destruct (head (l ++ [e])) as [f|] eqn:E; [|by destruct l].
  destruct Hq as [H1 H2 H3 H4]. rewrite H2, last_snoc. cbn.
  pose proof (segment_last _ _ _ _ _ H1) as He'.
  rewrite set_next_Some by eauto. cbn. do 3 eexists. split; [done|].
  assert (e ∉ x :: r) as He by (intros H; apply (Hd e); [apply elem_of_app; right; by left|done]).
  destruct Hr as [R1 R2 R3 R4]. split; [split; cbn|split; [apply new_queue|split]].
  - apply segment_app. exists (Some x). split.
    + rewrite <-Hl. by eapply segment_relink.
    + apply segment_insert; [done|]. rewrite Hf in R1. exact R1.
  - by rewrite R2, last_app_cons.
  - rewrite H3, R3. vsize.
  - apply NoDup_app. split; [done|]. split; [|done]. intros y Hy Hyr. by apply (Hd y).
  - by apply dom_insert_lookup_L.
  - intros y Hy. apply lookup_insert_ne. intros ->. apply Hy, elem_of_app. right. by left.
Qed.

Lemma prepend_spec h q rhs l r :
  is_queue h q l → is_queue h rhs r → l ## r →
  ∃ h' q' rhs', prepend h q rhs = Some (h', q', rhs') ∧
    is_queue h' q' (r ++ l) ∧ is_queue h' rhs' [].
Proof.
  intros Hq Hr Hd. unfold prepend.
  pose proof (queue_first _ _ _ Hr) as Hf. unfold first in Hf. rewrite Hf.
  destruct r as [|x r]; cbn [head].
  { by exists h, q, rhs. }
  pose proof (queue_first _ _ _ Hq) as Hl. unfold first in Hl. rewrite Hl.
  destruct l as [|e l]; cbn [head].
  { exists h, rhs, q. by rewrite app_nil_r. }
  cbn [swap].
  destruct (append_spec h rhs q (x :: r) (e :: l)) as (h' & q' & rhs' & Ha & H1 & H2 & _);
    [done|done|by intros y ? ?; eapply Hd|]. by exists h', q', rhs'.
Qed.

(** an iterator visits the elements in their order, and comes to an end *)
Lemma iterate_spec h q l fuel :
  is_queue h q l → (length l ≤ fuel)%nat → iterate fuel h (m_first q) = Some l.
Proof.
  intros [Hs _ _ _]. revert Hs. generalize (m_first q). revert fuel.
  induction l as [|x l IH]; intros fuel p Hs Hf; cbn in Hs.
  - subst. by destruct fuel.
  - destruct Hs as (-> & n & Hn & Hs). destruct fuel as [|fuel]; [cbn in Hf; lia|].
    cbn [iterate]. unfold get_next. rewrite Hn. cbn. by rewrite (IH fuel) by (done || cbn in Hf; lia).
Qed.
