(* ===== verification/DiskFence.v ===== *)
(** [disk_job_fence] of src/btdownloader/torrent/disk_job_fence.cpp: the jobs of
    a storage run at the same time, but for a fence job, which runs alone.

    The jobs are pointers; the store has the fields of [disk_io_job] that the
    fence uses: the link of the queue it is on and its flags.  Every function
    holds the mutex of the fence for as long as it works on its members, so it
    is one step here.  What raise_fence does before it locks is to a job nobody
    else has yet. *)

From stdpp Require Import gmap.
From S2P Require Import Prelude.
From S2P Require Import Tailqueue.

Open Scope Z_scope.

(** the flags of a [disk_io_job], 8 bits *)
Definition fence : Z := 2.
Definition in_progress : Z := 4.

(** [bool(flags & flag)] *)
Definition flag_of (flags flag : Z) : bool := negb (Z.land flags flag =? 0).

Definition flag_on (flags flag : Z) : Z := Z.lor flags flag.

(** [flags &= ~flag] *)
Definition flag_off (flags flag : Z) : Z := Z.land flags (uint 8 (Z.lnot flag)).

Record disk_job_fence := DiskJobFence {
  m_has_fence : Z;
  m_blocked_jobs : tailqueue;
  m_outstanding_jobs : Z
}.

Definition new_fence : disk_job_fence := DiskJobFence 0 new_tailqueue 0.

(** the fields of all jobs, and a fence *)
Record fence_state := FenceState {
  fs_next : gmap ptr (option ptr);
  fs_flags : gmap ptr Z;
  fs_fence : disk_job_fence
}.

Definition raised (s : fence_state) : Z := m_has_fence (fs_fence s).
Definition blocked (s : fence_state) : tailqueue := m_blocked_jobs (fs_fence s).
Definition outstanding (s : fence_state) : Z := m_outstanding_jobs (fs_fence s).

Definition set_nexts (s : fence_state) (h : gmap ptr (option ptr)) : fence_state :=
  FenceState h (fs_flags s) (fs_fence s).

Definition set_raised (s : fence_state) (n : Z) : fence_state :=
  FenceState (fs_next s) (fs_flags s) (DiskJobFence n (blocked s) (outstanding s)).

Definition set_blocked (s : fence_state) (h : gmap ptr (option ptr)) (q : tailqueue)
    : fence_state :=
  FenceState h (fs_flags s) (DiskJobFence (raised s) q (outstanding s)).

Definition set_outstanding (s : fence_state) (n : Z) : fence_state :=
  FenceState (fs_next s) (fs_flags s) (DiskJobFence (raised s) (blocked s) n).

(** [j->flags = f(j->flags)] *)
Definition update_flags (s : fence_state) (j : ptr) (f : Z → Z) : option fence_state :=
  x ← fs_flags s !! j;
  Some (FenceState (fs_next s) (<[j := f x]> (fs_flags s)) (fs_fence s)).

Definition job_flag (s : fence_state) (j : ptr) (flag : Z) : option bool :=
  x ← fs_flags s !! j; Some (flag_of x flag).

(** [j->flags |= in_progress; ++m_outstanding_jobs] *)
Definition start_job (s : fence_state) (j : ptr) : option fence_state :=
  s ← update_flags s j (λ f, flag_on f in_progress);
  Some (set_outstanding s (outstanding s + 1)).

Definition block_job (s : fence_state) (j : ptr) : option fence_state :=
  '(h, q) ← push_back (fs_next s) (blocked s) j;
  Some (set_blocked s h q).

(** The loop that posts the jobs behind a fence that is lowered; it takes a job
    from the queue in every turn but the last. *)
Fixpoint release_jobs (fuel : nat) (s : fence_state) (jobs : tailqueue) (ret : Z)
    : option (fence_state * tailqueue * Z) :=
  if empty (blocked s) then Some (s, jobs, ret)
  else
    match fuel with
    | O => None
    | S fuel =>
        '(h, q, bj) ← pop_front (fs_next s) (blocked s);
        let s := set_blocked s h q in
        is_fence ← job_flag s bj fence;
        if (is_fence : bool) then
          if (outstanding s =? 0) && empty jobs then
            s ← start_job s bj;
            '(h, jobs) ← push_back (fs_next s) jobs bj;
            Some (set_nexts s h, jobs, ret + 1)
          else
            '(h, q) ← push_front (fs_next s) (blocked s) bj;
            Some (set_blocked s h q, jobs, ret)
        else
          s ← start_job s bj;
          '(h, jobs) ← push_back (fs_next s) jobs bj;
          release_jobs fuel (set_nexts s h) jobs (ret + 1)
    end.

(** also the number of jobs that were put on the queue [jobs] *)
Definition job_complete (s : fence_state) (j : ptr) (jobs : tailqueue)
    : option (fence_state * tailqueue * Z) :=
  s ← update_flags s j (λ f, flag_off f in_progress);
  let s := set_outstanding s (outstanding s - 1) in
  is_fence ← job_flag s j fence;
  if (is_fence : bool) then
    let s := set_raised s (raised s - 1) in
    release_jobs (Z.to_nat (m_size (blocked s))) s jobs 0
  else if (0 <? outstanding s) || (raised s =? 0) then Some (s, jobs, 0)
  else
    '(h, q, bj) ← pop_front (fs_next s) (blocked s);
    s ← start_job (set_blocked s h q) bj;
    '(h, jobs) ← push_front (fs_next s) jobs bj;
    Some (set_nexts s h, jobs, 1).

Definition is_blocked (s : fence_state) (j : ptr) : option (fence_state * bool) :=
  if raised s =? 0 then s ← start_job s j; Some (s, false)
  else s ← block_job s j; Some (s, true).

Definition has_fence (s : fence_state) : bool := negb (raised s =? 0).

Definition num_blocked (s : fence_state) : Z := m_size (blocked s).

Definition num_outstanding_jobs (s : fence_state) : Z := outstanding s.

Inductive fence_post := fence_post_fence | fence_post_flush | fence_post_none.

(** [j] is the fence job and [fj] the job that flushes the cache, [cnt] the
    counter of blocked jobs *)
Definition raise_fence (s : fence_state) (j fj : ptr) (cnt : Z)
    : option (fence_state * Z * fence_post) :=
  s ← update_flags s j (λ f, flag_on f fence);
  if (raised s =? 0) && (outstanding s =? 0) then
    s ← start_job (set_raised s (raised s + 1)) j;
    Some (s, cnt, fence_post_fence)
  else
    let s := set_raised s (raised s + 1) in
    '(s, cnt) ← (if 1 <? raised s then s ← block_job s fj; Some (s, cnt + 1)
                 else s ← start_job s fj; Some (s, cnt));
    s ← block_job s j;
    Some (s, cnt + 1, if 1 <? raised s then fence_post_none else fence_post_flush).
