(* ===== verification/FenceCorrect.v ===== *)
(** [disk_job_fence] keeps its jobs in order: [B] are the jobs it blocks and [R]
    those that run.  A fence runs alone; while it waits it is the first of the
    blocked jobs and something else runs.  Then a storage with its [disk_job_fence]
    and the calls of its client, as src/btdownloader/torrent/disk_io_thread.cpp
    makes them, and the invariant of every sequence of calls. *)

From stdpp Require Import gmap.
From S2P Require Import Prelude.
From stdpp Require Import list.
From S2P Require Import Tailqueue.
From S2P Require Import DiskFence.

Open Scope Z_scope.

(** * Flags *)

Lemma flag_on_same f flag : flag ≠ 0 → flag_of (flag_on f flag) flag = true.
Proof.
  intros Hf. unfold flag_of, flag_on. apply negb_true_iff, Z.eqb_neq.
  rewrite Z.land_lor_distr_l, Z.land_diag. intros [_ H]%Z.lor_eq_0_iff. done.
Qed.

Lemma flag_on_other f a b : Z.land a b = 0 → flag_of (flag_on f a) b = flag_of f b.
Proof. intros H. unfold flag_of, flag_on. by rewrite Z.land_lor_distr_l, H, Z.lor_0_r. Qed.

Lemma flag_off_progress f :
  flag_of (flag_off f in_progress) in_progress = false ∧
  flag_of (flag_off f in_progress) fence = flag_of f fence.
Proof.
  unfold flag_of, flag_off. rewrite <-!Z.land_assoc.
  change (Z.land (uint 8 (Z.lnot in_progress)) in_progress) with 0.
  change (Z.land (uint 8 (Z.lnot in_progress)) fence) with fence. by rewrite Z.land_0_r.
Qed.

(** a flag of a job, false for what is not a job *)
Definition flagb (flag : Z) (s : fence_state) (j : ptr) : bool :=
  default false (job_flag s j flag).

Abbreviation fenceb := (flagb fence).
Abbreviation activeb := (flagb in_progress).

Lemma job_flag_flagb s j flag : is_Some (fs_flags s !! j) → job_flag s j flag = Some (flagb flag s j).
Proof. intros [f Hf]. unfold flagb, job_flag. by rewrite Hf. Qed.

Lemma flagb_ext flag s s' j : fs_flags s' !! j = fs_flags s !! j → flagb flag s' j = flagb flag s j.
Proof. intros H. unfold flagb, job_flag. by rewrite H. Qed.

(** the jobs [P] were started *)
Definition started (P : list ptr) (s s' : fence_state) : Prop :=
  ∀ j, fs_flags s' !! j =
    if bool_decide (j ∈ P) then (λ f, flag_on f in_progress) <$> fs_flags s !! j
    else fs_flags s !! j.

Lemma started_fenceb P s s' j : started P s s' → fenceb s' j = fenceb s j.
Proof.
  intros H. specialize (H j). unfold flagb, job_flag. rewrite H.
  case_bool_decide; [|done]. destruct (fs_flags s !! j) as [f|]; [|done]. cbn.
  by apply flag_on_other.
Qed.

Lemma started_activeb P s s' j :
  started P s s' → j ∈ P → is_Some (fs_flags s !! j) → activeb s' j = true.
Proof.
  intros H Hj [f Hf]. specialize (H j). unfold flagb, job_flag. rewrite H, Hf.
  rewrite bool_decide_true by done. cbn. by apply flag_on_same.
Qed.

Lemma started_activeb_ne P s s' j : started P s s' → j ∉ P → activeb s' j = activeb s j.
Proof. intros H Hj. apply flagb_ext. rewrite H. by rewrite bool_decide_false. Qed.

Lemma started_dom P s s' j : started P s s' → is_Some (fs_flags s !! j) → is_Some (fs_flags s' !! j).
Proof. intros H. rewrite H. case_bool_decide; [|done]. by rewrite fmap_is_Some. Qed.

Lemma started_nil s s' : fs_flags s' = fs_flags s → started [] s s'.
Proof. intros H j. rewrite H. by rewrite bool_decide_false by apply not_elem_of_nil. Qed.

Lemma started_app P Q s s' s'' :
  P ## Q → started P s s' → started Q s' s'' → started (P ++ Q) s s''.
Proof.
  intros Hd H1 H2 j. rewrite H2, H1. specialize (Hd j).
  destruct (decide (j ∈ P)), (decide (j ∈ Q)); repeat case_bool_decide;
    try rewrite elem_of_app in *; by intuition.
Qed.

Lemma start_job_spec s j :
  is_Some (fs_flags s !! j) →
  ∃ s', start_job s j = Some s' ∧ started [j] s s' ∧ fs_next s' = fs_next s ∧
    blocked s' = blocked s ∧ raised s' = raised s ∧ outstanding s' = outstanding s + 1.
Proof.
  intros [f Hf]. unfold start_job, update_flags. rewrite Hf. cbn. eexists. split; [done|].
  split; [|done]. intros i. cbn. destruct (decide (i = j)) as [->|Hi].
  - rewrite lookup_insert_eq, bool_decide_true by (by apply list_elem_of_singleton). by rewrite Hf.
  - rewrite lookup_insert_ne by done. rewrite bool_decide_false; [done|].
    by intros ?%list_elem_of_singleton.
Qed.

Lemma elem_of_snoc (l : list ptr) i j : i ∈ l ++ [j] ↔ i ∈ l ∨ i = j.
Proof. by rewrite elem_of_app, list_elem_of_singleton. Qed.

(** * The order of the jobs *)

(** no two fences in a row *)
Fixpoint spaced (f : ptr → bool) (l : list ptr) : Prop :=
  match l with
  | a :: ((b :: _) as l') => f a && f b = false ∧ spaced f l'
  | _ => True
  end.

Definition normal (f : ptr → bool) (l : list ptr) : Prop := ∀ j, j ∈ l → f j = false.

Inductive order_ok (f : ptr → bool) : list ptr → list ptr → Prop :=
  | order_free R : normal f R → order_ok f [] R
  | order_waits x B R : f x = true → spaced f (x :: B) → normal f R → R ≠ [] → order_ok f (x :: B) R
  | order_runs x B : f x = true → spaced f (x :: B) → order_ok f B [x].

Lemma spaced_cons f a l : spaced f (a :: l) → spaced f l.
Proof. by destruct l; [|intros []]. Qed.

Lemma spaced_app f l l' : spaced f (l ++ l') → spaced f l'.
Proof. induction l as [|a l IH]; [done|]. intros H%spaced_cons. auto. Qed.

Lemma spaced_snoc f l x : spaced f l → f x = false → spaced f (l ++ [x]).
Proof.
  induction l as [|a [|b l] IH]; [done|..].
  - intros _ Hx. cbn. by rewrite Hx, andb_false_r.
  - intros [Hab Hl] Hx. split; [done|]. by apply IH.
Qed.

Lemma spaced_snoc_fence f l x y : spaced f (l ++ [x]) → f x = false → spaced f (l ++ [x; y]).
Proof.
  induction l as [|a [|b l] IH]; cbn.
  - intros _ ->. done.
  - intros [Hax _] Hx. rewrite Hx. by rewrite andb_false_r.
  - intros [Hab Hl] Hx. split; [done|]. by apply IH.
Qed.

Lemma spaced_ext f g l : (∀ j, j ∈ l → g j = f j) → spaced f l → spaced g l.
Proof.
  induction l as [|a [|b l] IH]; [done..|]. intros Hg [Hab Hl]. split.
  - by rewrite !Hg by set_solver.
  - apply IH; [|done]. intros j Hj. apply Hg. by right.
Qed.

Lemma normal_ext f g l : (∀ j, j ∈ l → g j = f j) → normal f l → normal g l.
Proof. intros Hg Hn j Hj. rewrite Hg by done. by apply Hn. Qed.

Lemma order_ext f g B R :
  (∀ j, j ∈ B ∨ j ∈ R → g j = f j) → order_ok f B R → order_ok g B R.
Proof.
  intros Hg H. revert Hg. destruct H as [R' Hn|x B' R' Hx Hs Hn HR|x B' Hx Hs]; intros Hg.
  - apply order_free. eapply normal_ext; [|done]. auto.
  - apply order_waits; [|eapply spaced_ext; [|done]|eapply normal_ext; [|done]|done]; auto.
    rewrite Hg; [done|]. left. by left.
  - apply order_runs; [|eapply spaced_ext; [|done]].
    + rewrite Hg; [done|]. right. by left.
    + intros j [->|Hj]%elem_of_cons; apply Hg; [right; by left|by left].
Qed.

(** a fence that runs, runs alone, and no other one is the next *)
Lemma order_running f B R j :
  order_ok f B R → j ∈ R → f j = true → R = [j] ∧ spaced f (j :: B).
Proof.
  intros [R' Hn|x B' R' _ _ Hn _|x B' Hx Hs] Hj Hf.
  - by rewrite Hn in Hf.
  - by rewrite Hn in Hf.
  - apply list_elem_of_singleton in Hj as ->. done.
Qed.

(** while no fence runs, the first blocked job is one *)
Lemma order_waiting f B R j :
  order_ok f B R → j ∈ R → f j = false →
  normal f R ∧ (B = [] ∨ ∃ x B', B = x :: B' ∧ f x = true ∧ spaced f B).
Proof.
  intros [R' Hn|x B' R' Hx Hs Hn _|x B' Hx Hs] Hj Hf; [by auto|by eauto 10|].
  apply list_elem_of_singleton in Hj as ->. congruence.
Qed.

Lemma spaced_head f j B x : spaced f (j :: B) → f j = true → head B = Some x → f x = false.
Proof. destruct B as [|y B]; [done|]. intros [H _] Hj [= <-]. by rewrite Hj in H. Qed.

(** * The invariant *)

Fixpoint fences (f : ptr → bool) (l : list ptr) : Z :=
  match l with [] => 0 | j :: l => Z.b2z (f j) + fences f l end.

Lemma fences_app f l l' : fences f (l ++ l') = fences f l + fences f l'.
Proof. induction l; cbn; lia. Qed.

Lemma fences_nonneg f l : 0 ≤ fences f l.
Proof. induction l as [|j l IH]; cbn; [lia|]. destruct (f j); cbn; lia. Qed.

Lemma fences_normal f l : fences f l = 0 ↔ normal f l.
Proof.
  unfold normal. induction l as [|x l IH]; cbn.
  - split; [|done]. by intros _ j ?%elem_of_nil.
  - pose proof (fences_nonneg f l). split.
    + intros H0 j [->|Hj]%elem_of_cons; [destruct (f x); cbn in *; [lia|done]|].
      apply IH; [destruct (f x); cbn in *; lia|done].
    + intros Hn. rewrite (Hn x) by left. cbn. apply IH. intros j Hj. apply Hn. by right.
Qed.

Lemma fences_ext f g l : (∀ j, j ∈ l → g j = f j) → fences g l = fences f l.
Proof.
  induction l as [|x l IH]; cbn; intros Hg; [done|]. rewrite Hg, IH by set_solver. done.
Qed.

Record fence_inv (s : fence_state) (B R : list ptr) : Prop := {
  fi_queue : is_queue (fs_next s) (blocked s) B;
  fi_jobs : ∀ j, j ∈ B ∨ j ∈ R → is_Some (fs_flags s !! j);
  fi_blocked : ∀ j, j ∈ B → activeb s j = false;
  fi_running : ∀ j, j ∈ R → activeb s j = true;
  fi_nodup : NoDup R;
  fi_outstanding : outstanding s = vsize R;
  fi_raised : raised s = fences (fenceb s) (R ++ B);
  fi_order : order_ok (fenceb s) B R
}.

(** a job that is not known to the fence, and not on a queue *)
Record fresh_job (s : fence_state) (B R : list ptr) (j : ptr) : Prop := {
  fresh_blocked : j ∉ B;
  fresh_running : j ∉ R;
  fresh_flags : is_Some (fs_flags s !! j);
  fresh_next : is_Some (fs_next s !! j);
  fresh_inactive : activeb s j = false;
  fresh_normal : fenceb s j = false
}.

(** without a fence nothing is blocked *)
Lemma unraised_blocked s B R : fence_inv s B R → raised s = 0 → B = [] ∧ normal (fenceb s) R.
Proof.
  intros I H0. pose proof (fi_raised _ _ _ I) as Hr. rewrite H0, fences_app in Hr.
  pose proof (fences_nonneg (fenceb s) R). pose proof (fences_nonneg (fenceb s) B).
  destruct (fi_order _ _ _ I) as [R Hn|x B R Hx|x B Hx]; [done|..]; cbn in *; rewrite Hx in *;
    cbn in *; pose proof (fences_nonneg (fenceb s) B); lia.
Qed.

(** * The operations *)

(** jobs [P] were started beside [R], and [B] are blocked now *)
Lemma started_inv s s' B R P :
  started P s s' → is_queue (fs_next s') (blocked s') B →
  (∀ j, j ∈ B ∨ j ∈ R ∨ j ∈ P → is_Some (fs_flags s !! j)) →
  (∀ j, j ∈ B → activeb s j = false ∧ j ∉ P) → (∀ j, j ∈ R → activeb s j = true) →
  NoDup (R ++ P) → outstanding s' = vsize (R ++ P) →
  raised s' = fences (fenceb s) ((R ++ P) ++ B) → order_ok (fenceb s) B (R ++ P) →
  fence_inv s' B (R ++ P).
Proof.
  intros Hs Hq Hd HB HR Hnd Ho Hr Hord.
  assert (∀ j, fenceb s' j = fenceb s j) as Hf by (intros; by eapply started_fenceb).
  split; try done.
  - intros j Hj. eapply started_dom; [done|]. apply Hd. set_solver.
  - intros j Hj. destruct (HB j Hj). by rewrite (started_activeb_ne _ _ _ _ Hs).
  - intros j Hj. destruct (decide (j ∈ P)).
    + eapply started_activeb; eauto.
    + rewrite (started_activeb_ne _ _ _ _ Hs) by done. set_solver.
  - rewrite Hr. symmetry. by apply fences_ext.
  - eapply order_ext; [|done]. auto.
Qed.

Lemma is_blocked_spec s B R j :
  fence_inv s B R → fresh_job s B R j →
  ∃ s' b, is_blocked s j = Some (s', b) ∧
    (∀ i, i ≠ j → fs_flags s' !! i = fs_flags s !! i) ∧
    (b = false → B = [] ∧ fence_inv s' [] (R ++ [j]) ∧ fs_next s' = fs_next s) ∧
    (b = true → fence_inv s' (B ++ [j]) R ∧
       dom (fs_next s') = dom (fs_next s) ∧
       ∀ i, i ∉ B → i ≠ j → fs_next s' !! i = fs_next s !! i).
Proof.
  intros I F. unfold is_blocked. destruct (Z.eqb_spec (raised s) 0) as [H0|H0].
  - destruct (start_job_spec s j (fresh_flags _ _ _ _ F)) as (s' & -> & Hs & Hn & Hb & Hr & Ho).
    destruct (unraised_blocked _ _ _ I H0) as [-> Hnorm].
    exists s', false. split; [done|]. split.
    { intros i Hi. rewrite Hs, bool_decide_false; [done|]. by intros ?%list_elem_of_singleton. }
    split; [intros _|done]. split; [done|]. split; [|done].
    assert (normal (fenceb s) (R ++ [j])) as Hn'.
    { intros i [Hi| ->]%elem_of_snoc; [by apply Hnorm|apply F]. }
    eapply started_inv; [done|rewrite Hn, Hb; apply I|..].
    + intros i [Hi|[Hi| ->%list_elem_of_singleton]];
        [by apply not_elem_of_nil in Hi|apply (fi_jobs _ _ _ I); by right|apply F].
    + intros i Hi. by apply not_elem_of_nil in Hi.
    + apply I.
    + apply nodup_snoc; [apply I|apply F].
    + rewrite Ho, (fi_outstanding _ _ _ I). vsize.
    + rewrite Hr, H0, app_nil_r. symmetry. by apply fences_normal.
    + by apply order_free.
  - destruct (push_back_spec (fs_next s) (blocked s) B j) as (h & q & Hp & Hq & Hd & Hfr);
      [apply I|apply F..|].
    unfold block_job. rewrite Hp. cbn. do 2 eexists. split; [done|]. split; [done|].
    split; [done|]. intros _. split; [|by split].
    split; cbn; try apply I; try done.
    + intros i [[Hi| ->]%elem_of_snoc|Hi]; [|apply F|];
        apply (fi_jobs _ _ _ I); auto.
    + intros i [Hi| ->]%elem_of_snoc; [by apply (fi_blocked _ _ _ I)|apply F].
    + change (raised s = fences (fenceb s) (R ++ B ++ [j])).
      rewrite (fi_raised _ _ _ I), app_assoc, (fences_app _ _ [j]). cbn.
      rewrite (fresh_normal _ _ _ _ F). cbn. lia.
    + apply (order_ext (fenceb s)); [done|]. pose proof (fresh_normal _ _ _ _ F) as Hj.
      destruct (fi_order _ _ _ I) as [R' Hn|x B' R' Hx Hs Hn HR|x B' Hx Hs].
      * exfalso. apply H0. rewrite (fi_raised _ _ _ I), app_nil_r. by apply fences_normal.
      * apply order_waits; try done. by apply (spaced_snoc _ (x :: B')).
      * apply order_runs; [done|]. by apply (spaced_snoc _ (x :: B')).
Qed.

(** [s1] is [s] when the flag of a fence was set on [j]; [fj] will flush the cache *)
Record marked (s s1 : fence_state) (B R : list ptr) (j fj : ptr) : Prop := {
  mk_next : fs_next s1 = fs_next s;
  mk_queue : is_queue (fs_next s1) (blocked s1) B;
  mk_raised : raised s1 = raised s;
  mk_outstanding : outstanding s1 = vsize R;
  mk_flags i : i ≠ j → fs_flags s1 !! i = fs_flags s !! i;
  mk_jobs i : i ∈ B ∨ i ∈ R ∨ i = j ∨ i = fj → is_Some (fs_flags s1 !! i);
  mk_fence : fenceb s1 j = true ∧ fenceb s1 fj = false;
  mk_inactive i : i ∈ B ∨ i = j ∨ i = fj → activeb s1 i = false;
  mk_active i : i ∈ R → activeb s1 i = true;
  mk_count : fences (fenceb s1) (R ++ B) = raised s;
  mk_order : order_ok (fenceb s1) B R
}.

Lemma mark_fence s B R j fj :
  fence_inv s B R → fresh_job s B R j → fresh_job s B R fj → j ≠ fj →
  ∃ s1, update_flags s j (λ f, flag_on f fence) = Some s1 ∧ marked s s1 B R j fj.
Proof.
  intros I F G Hne. destruct (fresh_flags _ _ _ _ F) as [f Hf]. unfold update_flags. rewrite Hf. cbn.
  eexists. split; [done|]. set (s1 := FenceState _ _ _).
  assert (∀ i, i ≠ j → fs_flags s1 !! i = fs_flags s !! i) as Hfl
    by (intros i Hi; by apply lookup_insert_ne).
  assert (∀ flag i, i ≠ j → flagb flag s1 i = flagb flag s i) as Hsame
    by (intros flag i Hi; apply flagb_ext; auto).
  assert (fs_flags s1 !! j = Some (flag_on f fence)) as Hj by apply lookup_insert_eq.
  assert (∀ i, i ∈ B ∨ i ∈ R → i ≠ j) as HnotJ by (destruct F; intros i ? ->; tauto).
  assert (activeb s1 j = false) as Haj.
  { pose proof (fresh_inactive _ _ _ _ F) as Ha. unfold flagb, job_flag in Ha |- *.
    rewrite Hf in Ha. rewrite Hj. cbn in Ha |- *. by rewrite flag_on_other. }
  split; try done; try apply I.
  - intros i [?|[?|[->| ->]]]; [rewrite Hfl by auto; apply (fi_jobs _ _ _ I); auto..|by rewrite Hj|].
    rewrite Hfl by done. apply G.
  - split; [unfold flagb, job_flag; rewrite Hj; by apply flag_on_same|].
    rewrite Hsame by done. apply G.
  - intros i [?|[->| ->]]; [rewrite Hsame by auto; by apply I|done|rewrite Hsame by done; apply G].
  - intros i Hi. rewrite Hsame by auto. by apply I.
  - rewrite (fi_raised _ _ _ I). apply fences_ext. intros i Hi%elem_of_app. apply Hsame, HnotJ. tauto.
  - eapply order_ext; [|apply I]. auto.
Qed.

Lemma block_job_spec s B j :
  is_queue (fs_next s) (blocked s) B → j ∉ B → is_Some (fs_next s !! j) →
  ∃ s', block_job s j = Some s' ∧ is_queue (fs_next s') (blocked s') (B ++ [j]) ∧
    fs_flags s' = fs_flags s ∧ raised s' = raised s ∧ outstanding s' = outstanding s ∧
    dom (fs_next s') = dom (fs_next s) ∧
    ∀ i, i ∉ B → i ≠ j → fs_next s' !! i = fs_next s !! i.
Proof.
  intros Hq Hj Hn. unfold block_job.
  destruct (push_back_spec _ _ _ _ Hq Hj Hn) as (h & q & -> & Hq' & Hd & Hf).
  cbn. eexists. split; [done|]. by repeat (split; [done|]).
Qed.

(** nothing runs: the fence is started *)
Lemma raise_idle s s1 j fj :
  marked s s1 [] [] j fj → raised s = 0 →
  ∃ s', start_job (set_raised s1 (raised s + 1)) j = Some s' ∧ fence_inv s' [] [j] ∧
    started [j] s1 s' ∧ fs_next s' = fs_next s.
Proof.
  intros M H0.
  destruct (start_job_spec (set_raised s1 (raised s + 1)) j) as (s' & -> & Hs & Hn & Hb & Hr & Ho);
    [apply (mk_jobs _ _ _ _ _ _ M); auto|].
  eexists. split; [done|]. split; [|by rewrite Hn, <-(mk_next _ _ _ _ _ _ M)].
  apply (started_inv s1 s' [] [] [j]); [done|rewrite Hn, Hb; apply M|..].
  - intros i Hi. apply (mk_jobs _ _ _ _ _ _ M). set_solver.
  - intros i Hi. by apply not_elem_of_nil in Hi.
  - intros i Hi. by apply not_elem_of_nil in Hi.
  - apply NoDup_singleton.
  - rewrite Ho. change (outstanding s1 + 1 = 1). rewrite (mk_outstanding _ _ _ _ _ _ M). vsize.
  - rewrite Hr. change (raised s + 1 = Z.b2z (fenceb s1 j) + 0).
    rewrite (proj1 (mk_fence _ _ _ _ _ _ M)). cbn. lia.
  - apply order_runs; [apply M|done].
Qed.

(** the first fence, behind jobs that run: the cache is flushed *)
Lemma raise_first s s1 R j fj :
  marked s s1 [] R j fj → raised s = 0 → R ≠ [] → NoDup (R ++ [fj]) → j ≠ fj →
  is_Some (fs_next s !! j) → normal (fenceb s1) R →
  ∃ s2 s', start_job (set_raised s1 (raised s + 1)) fj = Some s2 ∧ block_job s2 j = Some s' ∧
    raised s2 = 1 ∧ raised s' = 1 ∧ fence_inv s' [j] (R ++ [fj]) ∧ started [fj] s1 s' ∧
    dom (fs_next s') = dom (fs_next s) ∧ (∀ i, i ≠ j → fs_next s' !! i = fs_next s !! i).
Proof.
  intros M H0 HR Hnd Hne Hj Hnorm.
  destruct (start_job_spec (set_raised s1 (raised s + 1)) fj) as (s2 & E2 & Hs & Hn & Hb & Hr & Ho);
    [apply (mk_jobs _ _ _ _ _ _ M); auto|].
  cbn in Hn. rewrite (mk_next _ _ _ _ _ _ M) in Hn.
  destruct (block_job_spec s2 [] j) as (s3 & E3 & Hq3 & Hfl3 & Hr3 & Ho3 & Hd3 & Hfr3).
  { rewrite Hn, Hb, <-(mk_next _ _ _ _ _ _ M). apply M. }
  { apply not_elem_of_nil. }
  { by rewrite Hn. }
  assert (raised s2 = 1) as Hr2.
  { rewrite Hr. change (raised s + 1 = 1). lia. }
  assert (started [fj] s1 s3) as Hs3 by (intros i; by rewrite Hfl3, Hs).
  exists s2, s3. rewrite Hr3. split; [done|]. split; [done|]. split; [done|]. split; [done|].
  split; [|split; [done|]; split; [by rewrite Hd3, Hn|intros i Hi; by rewrite Hfr3, Hn by set_solver]].
  eapply started_inv; [exact Hs3|done|..].
  - intros i Hi. apply (mk_jobs _ _ _ _ _ _ M). set_solver.
  - intros i ->%list_elem_of_singleton. split; [apply (mk_inactive _ _ _ _ _ _ M); auto|].
    by intros ?%list_elem_of_singleton.
  - apply M.
  - done.
  - rewrite Ho3, Ho. change (outstanding s1 + 1 = vsize (R ++ [fj])).
    rewrite (mk_outstanding _ _ _ _ _ _ M). vsize.
  - rewrite Hr3, Hr2, !fences_app. pose proof (mk_count _ _ _ _ _ _ M) as Hc.
    rewrite app_nil_r in Hc. cbn. destruct (mk_fence _ _ _ _ _ _ M) as [-> ->]. cbn. lia.
  - apply order_waits; [apply M|done| |by destruct R].
    intros i [Hi| ->]%elem_of_snoc; [by apply Hnorm|apply M].
Qed.

(** another fence is up: both jobs wait behind it *)
Lemma raise_behind s s1 B R j fj :
  marked s s1 B R j fj → 0 < raised s → NoDup R → j ∉ B → fj ∉ B → j ≠ fj →
  is_Some (fs_next s !! j) → is_Some (fs_next s !! fj) →
  ∃ s2 s', block_job (set_raised s1 (raised s + 1)) fj = Some s2 ∧ block_job s2 j = Some s' ∧
    raised s2 = raised s + 1 ∧ raised s' = raised s + 1 ∧ fence_inv s' (B ++ [fj; j]) R ∧
    fs_flags s' = fs_flags s1 ∧ dom (fs_next s') = dom (fs_next s) ∧
    (∀ i, i ∉ B → i ≠ j → i ≠ fj → fs_next s' !! i = fs_next s !! i).
Proof.
  intros M H0 Hnd Hj Hfj Hne Hnj Hnfj. rewrite <-(mk_next _ _ _ _ _ _ M) in *.
  destruct (block_job_spec (set_raised s1 (raised s + 1)) B fj)
    as (s2 & E2 & Hq2 & Hfl2 & Hr2 & Ho2 & Hd2 & Hfr2); [apply M|done|done|]. cbn in *.
  destruct (block_job_spec s2 (B ++ [fj]) j) as (s3 & E3 & Hq3 & Hfl3 & Hr3 & Ho3 & Hd3 & Hfr3).
  { done. }
  { by intros [?| ?]%elem_of_snoc. }
  { apply elem_of_dom. rewrite Hd2. by apply elem_of_dom. }
  assert (raised s2 = raised s + 1) as Hr2'.
  { by rewrite Hr2. }
  assert (fs_flags s3 = fs_flags s1) as Hfl by by rewrite Hfl3.
  assert (∀ flag i, flagb flag s3 i = flagb flag s1 i) as Hsame
    by (intros; apply flagb_ext; by rewrite Hfl).
  exists s2, s3. rewrite Hr3. split; [done|]. split; [done|]. split; [done|]. split; [done|].
  split; [|split; [done|]; split; [by rewrite Hd3|
    intros i Hi Hij Hif; rewrite Hfr3; [by apply Hfr2|by intros [?| ?]%elem_of_snoc|done]]].
  rewrite <-app_assoc in Hq3. split; try done.
  - intros i Hi. rewrite Hfl. apply (mk_jobs _ _ _ _ _ _ M). set_solver.
  - intros i Hi. rewrite Hsame. apply (mk_inactive _ _ _ _ _ _ M). set_solver.
  - intros i Hi. rewrite Hsame. by apply M.
  - rewrite Ho3, Ho2. apply M.
  - rewrite Hr3, Hr2', app_assoc, fences_app, (fences_ext (fenceb s1)), (mk_count _ _ _ _ _ _ M) by auto.
    cbn. rewrite !Hsame. destruct (mk_fence _ _ _ _ _ _ M) as [-> ->]. cbn. lia.
  - apply (order_ext (fenceb s1)); [auto|]. destruct (mk_fence _ _ _ _ _ _ M) as [_ Hf].
    pose proof (mk_count _ _ _ _ _ _ M) as Hc.
    destruct (mk_order _ _ _ _ _ _ M) as [R' Hn|x B' R' Hx Hs Hn HR|x B' Hx Hs].
    + exfalso. rewrite app_nil_r in Hc. apply fences_normal in Hn. lia.
    + apply order_waits; try done.
      apply (spaced_snoc_fence _ (x :: B')); [|done]. by apply (spaced_snoc _ (x :: B')).
    + apply order_runs; [done|].
      apply (spaced_snoc_fence _ (x :: B')); [|done]. by apply (spaced_snoc _ (x :: B')).
Qed.

Lemma raise_fence_spec s B R j fj cnt :
  fence_inv s B R → fresh_job s B R j → fresh_job s B R fj → j ≠ fj →
  ∃ s' c p, raise_fence s j fj cnt = Some (s', c, p) ∧
    (∀ i, i ≠ j → i ≠ fj → fs_flags s' !! i = fs_flags s !! i) ∧
    fenceb s' j = true ∧ fenceb s' fj = false ∧
    dom (fs_next s') = dom (fs_next s) ∧
    (∀ i, i ∉ B → i ≠ j → i ≠ fj → fs_next s' !! i = fs_next s !! i) ∧
    match p with
    | fence_post_fence => B = [] ∧ R = [] ∧ fence_inv s' [] [j] ∧ c = cnt ∧
                          fs_flags s' !! fj = fs_flags s !! fj ∧ fs_next s' = fs_next s
    | fence_post_flush => B = [] ∧ R ≠ [] ∧ fence_inv s' [j] (R ++ [fj]) ∧ c = cnt + 1
    | fence_post_none => fence_inv s' (B ++ [fj; j]) R ∧ c = cnt + 2
    end.
Proof.
  intros I F G Hne. unfold raise_fence.
  destruct (mark_fence s B R j fj I F G Hne) as (s1 & -> & M). cbn.
  assert (∀ i, i ≠ j → i ≠ fj → i ∉ [j]) as Hnj by set_solver.
  assert (∀ i, i ≠ j → i ≠ fj → i ∉ [fj]) as Hnfj by set_solver.
  rewrite (mk_raised _ _ _ _ _ _ M), (mk_outstanding _ _ _ _ _ _ M).
  assert (raised s = 0 → B = []) as HB by (intros H; by apply (unraised_blocked _ _ _ I)).
  pose proof (fences_nonneg (fenceb s1) (R ++ B)) as Hr. rewrite (mk_count _ _ _ _ _ _ M) in Hr.
  destruct (Z.eqb_spec (raised s) 0) as [H0|H0]; cbn [andb].
  2: { destruct (raise_behind s s1 B R j fj M) as (s2 & s3 & E2 & E3 & Hr2 & Hr3 & I' & Hfl & Hd & Hfr);
         [lia|apply I|apply F|apply G|done|apply F|apply G|].
       rewrite (proj2 (Z.ltb_lt _ _)), E2 by lia. cbn. rewrite E3. cbn.
       rewrite Hr3, (proj2 (Z.ltb_lt _ _)) by lia. do 3 eexists. split; [done|].
       pose proof (mk_fence _ _ _ _ _ _ M) as [Hj Hfj].
       split_and!; try done; [|by rewrite (flagb_ext _ s1 s3) by by rewrite Hfl..|lia].
       intros i Hi _. rewrite Hfl. by apply M. }
  specialize (HB H0). subst B. destruct (unraised_blocked _ _ _ I H0) as [_ Hnorm].
  destruct (Z.eqb_spec (vsize R) 0) as [HR|HR].
  - assert (R = []) as -> by (destruct R; [done|]; vsize in HR; pose proof (vsize_nonneg R); lia).
    destruct (raise_idle s s1 j fj M H0) as (s' & -> & I' & Hs & Hn). cbn.
    do 3 eexists. split; [done|]. rewrite Hn. split_and!; try done.
    + intros i Hi Hif. rewrite Hs, bool_decide_false by auto. by apply M.
    + rewrite (started_fenceb _ _ _ _ Hs). apply M.
    + rewrite (started_fenceb _ _ _ _ Hs). apply M.
    + rewrite Hs, bool_decide_false by set_solver. by apply M.
  - destruct (raise_first s s1 R j fj M H0) as (s2 & s3 & E2 & E3 & Hr2 & Hr3 & I' & Hs & Hd & Hfr);
      [by intros ->|apply nodup_snoc; [apply I|apply G]|done|apply F| |].
    { eapply normal_ext; [|done]. intros i Hi. apply flagb_ext, M. intros ->.
      by apply (fresh_running _ _ _ _ F). }
    rewrite (proj2 (Z.ltb_ge _ _)), E2 by lia. cbn. rewrite E3. cbn.
    rewrite Hr3. do 3 eexists. split; [done|].
    split_and!; try done; [|by rewrite (started_fenceb _ _ _ _ Hs); apply M..|intros i _ Hi _; by apply Hfr|split_and!; try done; by intros ->].
    intros i Hi Hif. rewrite Hs, bool_decide_false by auto. by apply M.
Qed.

(** the jobs [P] of [B] were moved from the blocked queue to [jobs] and started *)
Record posted (s s' : fence_state) (jobs' : tailqueue) (J P B : list ptr) : Prop := {
  po_queue : is_queue (fs_next s') (blocked s') B;
  po_jobs : is_queue (fs_next s') jobs' (J ++ P);
  po_started : started P s s';
  po_raised : raised s' = raised s;
  po_outstanding : outstanding s' = outstanding s + vsize P;
  po_dom : dom (fs_next s') = dom (fs_next s);
  po_frame i : i ∉ J → i ∉ P ++ B → fs_next s' !! i = fs_next s !! i
}.

(** the head of the blocked jobs is posted *)
Lemma post_head s jobs x B J :
  is_queue (fs_next s) (blocked s) (x :: B) → is_queue (fs_next s) jobs J → x ∉ J →
  B ## J → is_Some (fs_flags s !! x) →
  ∃ h q s1 h' jobs', pop_front (fs_next s) (blocked s) = Some (h, q, x) ∧
    start_job (set_blocked s h q) x = Some s1 ∧ push_back (fs_next s1) jobs x = Some (h', jobs') ∧
    posted s (set_nexts s1 h') jobs' J [x] B.
Proof.
  intros Hq Hj Hx Hd Hf.
  pose proof (queue_nodup _ _ _ Hq) as [HxB _]%NoDup_cons.
  pose proof (queue_elem _ _ _ x Hq ltac:(by left)) as Hdom.
  destruct (pop_front_spec _ _ _ _ Hq) as (h & q & -> & Hq' & ->).
  destruct (start_job_spec (set_blocked s (<[x:=None]> (fs_next s)) q) x) as
    (s1 & E1 & Hs & Hn & Hb & Hr & Ho); [done|]. cbn in Hn.
  destruct (push_back_spec (fs_next s1) jobs J x) as (h' & jobs' & E2 & Hj' & Hd' & Hfr).
  { rewrite Hn. eapply queue_frame; [|done]. intros i Hi. apply lookup_insert_ne. by intros ->. }
  { done. }
  { rewrite Hn, lookup_insert_eq. by eexists. }
  do 5 eexists. split; [done|]. split; [done|]. split; [done|].
  split; cbn; try done.
  - change (blocked (set_nexts s1 h')) with (blocked s1). rewrite Hb.
    eapply queue_frame; [|exact Hq']. intros i Hi.
    rewrite Hfr; [by rewrite Hn|intros ?; by apply (Hd i)|by intros ->].
  - rewrite Hd', Hn. by apply dom_insert_lookup_L.
  - intros i HiJ Hi. rewrite Hfr by set_solver. rewrite Hn. apply lookup_insert_ne. set_solver.
Qed.

Lemma posted_nil s jobs J B :
  is_queue (fs_next s) (blocked s) B → is_queue (fs_next s) jobs J → posted s s jobs J [] B.
Proof.
  intros Hq Hj. split; try done; [by rewrite app_nil_r|vsize].
Qed.

Lemma posted_trans s s1 s2 j1 j2 J P P' B :
  P ## P' → posted s s1 j1 J P (P' ++ B) → posted s1 s2 j2 (J ++ P) P' B →
  posted s s2 j2 J (P ++ P') B.
Proof.
  intros Hd [] []. split; try congruence.
  - by rewrite app_assoc.
  - by eapply started_app.
  - rewrite po_outstanding1, po_outstanding0. vsize.
  - intros i Hi HiP. rewrite po_frame1, po_frame0; set_solver.
Qed.

Lemma release_jobs_spec fuel s jobs ret B J :
  is_queue (fs_next s) (blocked s) B → is_queue (fs_next s) jobs J → B ## J →
  (length B ≤ fuel)%nat → (∀ j, j ∈ B → is_Some (fs_flags s !! j)) →
  0 ≤ outstanding s → (∀ x, head B = Some x → fenceb s x = true → 0 < outstanding s) →
  ∃ s' jobs' P B', release_jobs fuel s jobs ret = Some (s', jobs', ret + vsize P) ∧
    B = P ++ B' ∧ posted s s' jobs' J P B' ∧ normal (fenceb s) P ∧
    ∀ x, head B' = Some x → fenceb s x = true.
Proof.
  revert s jobs ret B J. induction fuel as [|fuel IH]; intros s jobs ret B J Hq Hj Hd Hlen Hf Ho Hh.
  all: cbn [release_jobs]; rewrite (queue_empty _ _ _ Hq); destruct B as [|x B]; cbn in Hlen; try lia.
  1,2: rewrite bool_decide_true by done; exists s, jobs, [], []; rewrite Z.add_0_r;
    split_and!; try done; [by apply posted_nil|intros ? ?%elem_of_nil; done].
  rewrite bool_decide_false by done.
  assert (x ∉ J) as HxJ by (intros ?; apply (Hd x); [by left|done]).
  assert (B ## J) as HdB by (intros i ? ?; apply (Hd i); [by right|done]).
  assert (is_Some (fs_flags s !! x)) as Hfx by (apply Hf; by left).
  pose proof (queue_nodup _ _ _ Hq) as [HxB HndB]%NoDup_cons.
  destruct (fenceb s x) eqn:Ex.
  - specialize (Hh x eq_refl Ex).
    destruct (pop_front_spec _ _ _ _ Hq) as (h & q & -> & Hq' & ->). cbn.
    rewrite job_flag_flagb by done. change (fenceb (set_blocked s _ q) x) with (fenceb s x).
    rewrite Ex. cbn. change (outstanding (set_blocked s _ q)) with (outstanding s).
    rewrite (proj2 (Z.eqb_neq _ _)) by lia. cbn.
    destruct (push_front_spec _ q B x Hq' HxB) as (q2 & -> & Hq2);
      [rewrite lookup_insert_eq; by eexists|]. cbn.
    eexists _, jobs, [], (x :: B). rewrite Z.add_0_r. split; [done|]. split; [done|].
    split; [|split; [by intros ? ?%elem_of_nil|by intros ? [= <-]]].
    split; cbn; try done; try rewrite app_nil_r.
    + eapply queue_frame; [|done]. intros i Hi. rewrite !lookup_insert_ne by (by intros ->). done.
    + vsize.
    + rewrite !dom_insert_lookup_L; [done|by eapply queue_elem, list_elem_of_here|].
      rewrite lookup_insert_eq. by eexists.
    + intros i _ Hi. rewrite !lookup_insert_ne by set_solver. done.
  - destruct (post_head s jobs x B J Hq Hj HxJ HdB Hfx)
      as (h & q & s1 & h' & jobs' & -> & Es & Ep & Hpo). cbn.
    rewrite job_flag_flagb by done. change (fenceb (set_blocked s h q) x) with (fenceb s x).
    rewrite Ex, Es. cbn. rewrite Ep. cbn. set (s2 := set_nexts s1 h') in *.
    assert (∀ i, fenceb s2 i = fenceb s i) as Hsame by (intros; eapply started_fenceb, Hpo).
    destruct (IH s2 jobs' (ret + 1) B (J ++ [x])) as (s' & jobs2 & P & B' & -> & -> & Hpo2 & HnP & HB').
    + apply Hpo.
    + apply Hpo.
    + intros i HiB [HiJ| ->]%elem_of_snoc; [by apply (HdB i)|done].
    + lia.
    + intros i Hi. eapply started_dom; [apply Hpo|]. apply Hf. by right.
    + rewrite (po_outstanding _ _ _ _ _ _ Hpo). vsize.
    + intros y _ _. rewrite (po_outstanding _ _ _ _ _ _ Hpo). vsize.
    + exists s', jobs2, (x :: P), B'. split; [f_equal; f_equal; vsize|]. split; [done|]. split.
      * change (x :: P) with ([x] ++ P). eapply posted_trans; [|exact Hpo|done].
        intros i ->%list_elem_of_singleton Hi. apply HxB, elem_of_app. by left.
      * split; [|intros y Hy; rewrite <-Hsame; by apply HB'].
        intros i [->|Hi]%elem_of_cons; [done|]. rewrite <-Hsame. by apply HnP.
Qed.

(** ** A job completes *)

(** [s1] is [s] without the running job [j] *)
Record cleared (s s1 : fence_state) (j : ptr) : Prop := {
  cl_next : fs_next s1 = fs_next s;
  cl_blocked : blocked s1 = blocked s;
  cl_raised : raised s1 = raised s;
  cl_outstanding : outstanding s1 = outstanding s - 1;
  cl_flags i : i ≠ j → fs_flags s1 !! i = fs_flags s !! i;
  cl_job : is_Some (fs_flags s1 !! j);
  cl_fence i : fenceb s1 i = fenceb s i;
  cl_inactive : activeb s1 j = false
}.

Lemma clear_job s j :
  is_Some (fs_flags s !! j) →
  ∃ s0, update_flags s j (λ f, flag_off f in_progress) = Some s0 ∧ outstanding s0 = outstanding s ∧
    cleared s (set_outstanding s0 (outstanding s - 1)) j.
Proof.
  intros [f Hf]. unfold update_flags. rewrite Hf. cbn. eexists. split; [done|]. split; [done|].
  split; try done; cbn.
  - intros i Hi. by apply lookup_insert_ne.
  - rewrite lookup_insert_eq. by eexists.
  - intros i. unfold flagb, job_flag. cbn. destruct (decide (i = j)) as [->|Hi].
    + rewrite lookup_insert_eq, Hf. cbn. apply flag_off_progress.
    + by rewrite lookup_insert_ne.
  - unfold flagb, job_flag. cbn. rewrite lookup_insert_eq. cbn. apply flag_off_progress.
Qed.

(** what it means for the jobs [P] at the head of [P ++ B'] to be started when [j] completes *)
Record completed (s s' : fence_state) (jobs' : tailqueue) (B' R' J P : list ptr) (j : ptr) : Prop := {
  cm_inv : fence_inv s' B' (R' ++ P);
  cm_jobs : is_queue (fs_next s') jobs' (J ++ P) ∨ is_queue (fs_next s') jobs' (P ++ J);
  cm_flags i : i ≠ j → i ∉ P → fs_flags s' !! i = fs_flags s !! i;
  cm_fence i : fenceb s' i = fenceb s i;
  cm_inactive : activeb s' j = false;
  cm_known : is_Some (fs_flags s' !! j);
  cm_dom : dom (fs_next s') = dom (fs_next s);
  cm_frame i : i ∉ J → i ∉ P ++ B' → fs_next s' !! i = fs_next s !! i
}.

Lemma running_split_ne s B R1 R2 j i :
  fence_inv s B (R1 ++ j :: R2) → i ∈ R1 ++ R2 ∨ i ∈ B → i ≠ j.
Proof.
  intros I [Hi|Hi] ->.
  - pose proof (fi_nodup _ _ _ I) as H. apply NoDup_app in H as (_ & H1 & [H2 _]%NoDup_cons).
    apply elem_of_app in Hi as [Hi|Hi]; [|done]. apply (H1 j Hi). by left.
  - pose proof (fi_blocked _ _ _ I j Hi) as H. rewrite (fi_running _ _ _ I) in H; [done|].
    apply elem_of_app. right. by left.
Qed.

(** the fence is lowered *)
Lemma complete_fence s s1 jobs B J j :
  fence_inv s B [j] → cleared s s1 j → fenceb s j = true →
  is_queue (fs_next s) jobs J → B ## J →
  ∃ s' jobs' P B', release_jobs (Z.to_nat (m_size (blocked s1))) (set_raised s1 (raised s1 - 1)) jobs 0
      = Some (s', jobs', vsize P) ∧
    B = P ++ B' ∧ completed s s' jobs' B' [] J P j ∧ (B ≠ [] → P ≠ []).
Proof.
  intros I C Hj Hq Hd. set (s2 := set_raised s1 (raised s1 - 1)).
  assert (∀ i, i ∈ B → i ≠ j) as Hne by (intros; eapply (running_split_ne s B [] []); eauto).
  assert (fs_next s2 = fs_next s ∧ blocked s2 = blocked s) as [Hn2 Hb2].
  { split; [apply C|]. change (blocked s1 = blocked s). apply C. }
  destruct (order_running _ _ _ _ (fi_order _ _ _ I) (list_elem_of_here j []) Hj) as [_ Hs].
  assert (∀ x, head B = Some x → fenceb s x = false) as Hhead.
  { intros x Hx. by eapply spaced_head. }
  destruct (release_jobs_spec (Z.to_nat (m_size (blocked s1))) s2 jobs 0 B J)
    as (s' & jobs' & P & B' & -> & HB & Hpo & HnP & HB').
  - rewrite Hn2, Hb2. apply I.
  - by rewrite Hn2.
  - done.
  - rewrite (cl_blocked _ _ _ C), (queue_size _ _ _ (fi_queue _ _ _ I)). unfold vsize. lia.
  - intros i Hi. change (fs_flags s2) with (fs_flags s1). rewrite (cl_flags _ _ _ C) by auto.
    apply (fi_jobs _ _ _ I). auto.
  - change (0 ≤ outstanding s1). rewrite (cl_outstanding _ _ _ C), (fi_outstanding _ _ _ I). vsize.
  - intros x Hx Hf. change (fenceb s1 x = true) in Hf. rewrite (cl_fence _ _ _ C), Hhead in Hf; done.
  - exists s', jobs', P, B'. split; [done|]. split; [done|].
    assert (∀ i, fenceb s' i = fenceb s i) as Hsame.
    { intros i. rewrite (started_fenceb _ _ _ _ (po_started _ _ _ _ _ _ Hpo)).
      change (fenceb s1 i = fenceb s i). apply C. }
    assert (B ≠ [] → P ≠ []) as HP.
    { intros HBne ->. destruct B as [|x B]; [done|]. cbn in HB. subst B'.
      specialize (HB' x eq_refl). change (fenceb s1 x = true) in HB'.
      rewrite (cl_fence _ _ _ C), Hhead in HB'; done. }
    split; [|done]. pose proof (queue_nodup _ _ _ (fi_queue _ _ _ I)) as Hnd.
    rewrite HB in Hnd. apply NoDup_app in Hnd as (HndP & HPB & HndB).
    split.
    + eapply (started_inv s2 s' B' [] P); [apply Hpo|apply Hpo|..].
      * intros i Hi. change (is_Some (fs_flags s1 !! i)). assert (i ∈ B) as HiB by (subst B; set_solver).
        rewrite (cl_flags _ _ _ C) by auto. apply (fi_jobs _ _ _ I). auto.
      * intros i Hi. split; [|intros HiP; by apply (HPB i)].
        assert (i ∈ B) as HiB by (subst B; set_solver).
        change (activeb s1 i = false). rewrite (flagb_ext _ s s1) by (apply C; auto). by apply I.
      * intros i Hi. by apply not_elem_of_nil in Hi.
      * done.
      * rewrite (po_outstanding _ _ _ _ _ _ Hpo). change (outstanding s1 + vsize P = vsize P).
        rewrite (cl_outstanding _ _ _ C), (fi_outstanding _ _ _ I). vsize.
      * rewrite (po_raised _ _ _ _ _ _ Hpo). change (raised s1 - 1 = fences (fenceb s1) (P ++ B')).
        rewrite (fences_ext (fenceb s)) by (intros; apply C).
        rewrite (cl_raised _ _ _ C), (fi_raised _ _ _ I), HB. cbn. rewrite Hj. cbn. lia.
      * destruct B' as [|x B']; [by apply order_free|]. apply order_waits; [by apply HB'| |done|].
        -- apply (spaced_ext (fenceb s)); [intros; apply C|]. rewrite HB in Hs. by eapply (spaced_app _ (j :: P)).
        -- apply HP. rewrite HB. by destruct P.
    + left. apply Hpo.
    + intros i Hi HiP. rewrite (po_started _ _ _ _ _ _ Hpo), bool_decide_false by done. by apply C.
    + done.
    + rewrite (started_activeb_ne _ _ _ _ (po_started _ _ _ _ _ _ Hpo)); [apply C|].
      intros HjP. apply (Hne j); [|done]. rewrite HB. apply elem_of_app. by left.
    + eapply started_dom; [apply Hpo|]. apply C.
    + rewrite (po_dom _ _ _ _ _ _ Hpo). by rewrite Hn2.
    + intros i HiJ Hi. rewrite (po_frame _ _ _ _ _ _ Hpo) by done. by rewrite Hn2.
Qed.

(** the last job in front of a fence completes: the fence is started *)
Lemma start_waiting s s1 jobs x B J j :
  fence_inv s (x :: B) [j] → cleared s s1 j → fenceb s j = false → fenceb s x = true →
  is_queue (fs_next s) jobs J → x :: B ## J →
  ∃ h q s2 h' jobs', pop_front (fs_next s1) (blocked s1) = Some (h, q, x) ∧
    start_job (set_blocked s1 h q) x = Some s2 ∧ push_front (fs_next s2) jobs x = Some (h', jobs') ∧
    completed s (set_nexts s2 h') jobs' B [] J [x] j.
Proof.
  intros I C Hj Hx Hq Hd.
  assert (x ≠ j) as Hxj by (apply (running_split_ne s (x :: B) [] []); [done|right; by left]).
  assert (x ∉ J) as HxJ by (intros ?; apply (Hd x); [by left|done]).
  pose proof (queue_nodup _ _ _ (fi_queue _ _ _ I)) as [HxB HndB]%NoDup_cons.
  pose proof (fi_queue _ _ _ I) as HqB. rewrite <-(cl_next _ _ _ C), <-(cl_blocked _ _ _ C) in HqB.
  assert (is_Some (fs_next s1 !! x)) as Hdx by (eapply queue_elem; [done|by left]).
  destruct (pop_front_spec _ _ _ _ HqB) as (h & q & -> & Hq' & ->).
  destruct (start_job_spec (set_blocked s1 (<[x:=None]> (fs_next s1)) q) x)
    as (s2 & E & Hs & Hn & Hb & Hr & Ho).
  { change (is_Some (fs_flags s1 !! x)). rewrite (cl_flags _ _ _ C) by done.
    apply (fi_jobs _ _ _ I). left. by left. }
  cbn in Hn. destruct (push_front_spec (fs_next s2) jobs J x) as (jobs' & Ep & Hj').
  { rewrite Hn, (cl_next _ _ _ C). eapply queue_frame; [|done].
    intros i Hi. apply lookup_insert_ne. by intros ->. }
  { done. }
  { rewrite Hn, lookup_insert_eq. by eexists. }
  do 5 eexists. split; [done|]. split; [done|]. split; [done|].
  assert (∀ i, fenceb s2 i = fenceb s i) as Hsame.
  { intros i. rewrite (started_fenceb _ _ _ _ Hs). apply C. }
  split; cbn.
  - eapply (started_inv s1 _ B [] [x]); [exact Hs|..].
    + cbn. change (blocked (set_nexts s2 _)) with (blocked s2). rewrite Hb, Hn.
      eapply queue_frame; [|exact Hq']. intros i Hi. apply lookup_insert_ne. by intros ->.
    + intros i Hi. assert (i ∈ x :: B) as HiB by set_solver.
      rewrite (cl_flags _ _ _ C); [apply (fi_jobs _ _ _ I); auto|].
      eapply (running_split_ne s _ [] []); eauto.
    + intros i Hi. split; [|by intros ->%list_elem_of_singleton].
      rewrite (flagb_ext _ s s1); [apply I; by right|]. apply C.
      eapply (running_split_ne s _ [] []); [done|]. right. by right.
    + intros i Hi. by apply not_elem_of_nil in Hi.
    + apply NoDup_singleton.
    + change (outstanding s2 = vsize [x]). rewrite Ho. change (outstanding s1 + 1 = vsize [x]).
      rewrite (cl_outstanding _ _ _ C), (fi_outstanding _ _ _ I). vsize.
    + change (raised s2 = fences (fenceb s1) (x :: B)). rewrite Hr. change (raised s1 = fences (fenceb s1) (x :: B)).
      rewrite (fences_ext (fenceb s)) by (intros; apply C).
      rewrite (cl_raised _ _ _ C), (fi_raised _ _ _ I). cbn. rewrite Hj. done.
    + apply order_runs; [by rewrite (cl_fence _ _ _ C)|].
      apply (spaced_ext (fenceb s)); [intros; apply C|].
      destruct (order_waiting _ _ _ _ (fi_order _ _ _ I) (list_elem_of_here j []) Hj)
        as [_ [?|(y & B' & [= <- <-] & _ & Hsp)]]; done.
  - right. done.
  - intros i Hi HiP. rewrite Hs, bool_decide_false by done. by apply C.
  - done.
  - rewrite (flagb_ext _ s2) by done. rewrite (started_activeb_ne _ _ _ _ Hs); [apply C|].
    by intros <-%list_elem_of_singleton.
  - eapply (started_dom _ s1); [exact Hs|apply C].
  - rewrite Hn, !dom_insert_lookup_L; rewrite ?(cl_next _ _ _ C); try done.
    + by rewrite <-(cl_next _ _ _ C).
    + rewrite lookup_insert_eq. by eexists.
  - intros i HiJ Hi. rewrite Hn, !lookup_insert_ne by set_solver. by rewrite (cl_next _ _ _ C).
Qed.

(** other jobs still run, or none is blocked: nothing is started *)
Lemma complete_idle s s1 jobs B R1 R2 J j :
  fence_inv s B (R1 ++ j :: R2) → cleared s s1 j → fenceb s j = false →
  is_queue (fs_next s) jobs J → B = [] ∨ R1 ++ R2 ≠ [] →
  completed s s1 jobs B (R1 ++ R2) J [] j.
Proof.
  intros I C Hj Hq Hor.
  assert (∀ i, i ∈ R1 ++ R2 ∨ i ∈ B → i ≠ j) as Hne by (intros; eapply running_split_ne; eauto).
  assert (j ∈ R1 ++ j :: R2) as HjR by (apply elem_of_app; right; by left).
  assert (∀ i, i ∈ R1 ++ R2 → i ∈ R1 ++ j :: R2) as Hsub by set_solver.
  destruct (order_waiting _ _ _ _ (fi_order _ _ _ I) HjR Hj) as [Hn Hw].
  assert (normal (fenceb s1) (R1 ++ R2)) as Hn1.
  { intros i Hi. rewrite (cl_fence _ _ _ C). auto. }
  split; rewrite ?app_nil_r; try apply C; try (left; rewrite (cl_next _ _ _ C); done).
  - split.
    + rewrite (cl_next _ _ _ C), (cl_blocked _ _ _ C). apply I.
    + intros i Hi. rewrite (cl_flags _ _ _ C) by (apply Hne; tauto).
      apply (fi_jobs _ _ _ I). destruct Hi; auto.
    + intros i Hi. rewrite (flagb_ext _ s s1) by (apply C; auto). by apply I.
    + intros i Hi. rewrite (flagb_ext _ s s1) by (apply C; auto). apply I. auto.
    + pose proof (fi_nodup _ _ _ I) as Hnd. by apply NoDup_ListNoDup, NoDup_remove_1, NoDup_ListNoDup in Hnd.
    + rewrite (cl_outstanding _ _ _ C), (fi_outstanding _ _ _ I). vsize.
    + rewrite (cl_raised _ _ _ C), (fi_raised _ _ _ I).
      rewrite (fences_ext (fenceb s) (fenceb s1)) by (intros; apply C).
      rewrite !fences_app. cbn. rewrite Hj. cbn. lia.
    + destruct Hw as [->|(x & B' & -> & Hx & Hsp)]; [by apply order_free|].
      destruct Hor as [?|Hor]; [done|].
      apply order_waits; [by rewrite (cl_fence _ _ _ C)| |done|done].
      eapply spaced_ext; [|done]. intros; apply C.
  - intros i Hi _. by apply C.
  - by rewrite (cl_next _ _ _ C).
  - intros i _ _. by rewrite (cl_next _ _ _ C).
Qed.

Lemma job_complete_spec s jobs B R1 R2 J j :
  fence_inv s B (R1 ++ j :: R2) → is_queue (fs_next s) jobs J → B ## J →
  ∃ s' jobs' P B', job_complete s j jobs = Some (s', jobs', vsize P) ∧ B = P ++ B' ∧
    completed s s' jobs' B' (R1 ++ R2) J P j ∧ (R1 ++ R2 = [] → B ≠ [] → P ≠ []).
Proof.
  intros I Hq Hd. assert (j ∈ R1 ++ j :: R2) as HjR by (apply elem_of_app; right; by left).
  destruct (clear_job s j) as (s0 & E & Ho & C); [apply (fi_jobs _ _ _ I); auto|].
  unfold job_complete. rewrite E. cbn [mbind option_bind]. rewrite Ho.
  set (s1 := set_outstanding s0 _) in *.
  rewrite job_flag_flagb by apply C. rewrite (cl_fence _ _ _ C). cbn [mbind option_bind].
  destruct (fenceb s j) eqn:Hj.
  - destruct (order_running _ _ _ _ (fi_order _ _ _ I) HjR Hj) as [HR _].
    assert (R1 = [] ∧ R2 = []) as [-> ->].
    { destruct R1 as [|y [|z R1]]; [|discriminate HR..]. by injection HR. }
    destruct (complete_fence s s1 jobs B J j) as (s' & jobs' & P & B' & HE & HB & Hc & HP); try done.
    exists s', jobs', P, B'. auto.
  - rewrite (cl_outstanding _ _ _ C), (fi_outstanding _ _ _ I), (cl_raised _ _ _ C).
    destruct (order_waiting _ _ _ _ (fi_order _ _ _ I) HjR Hj) as [Hn Hw].
    destruct (decide (B = [] ∨ R1 ++ R2 ≠ [])) as [Hor|Hor].
    + replace ((0 <? vsize (R1 ++ j :: R2) - 1) || (raised s =? 0)) with true.
      * exists s1, jobs, [], B. split; [done|]. split; [done|].
        split; [by apply complete_idle|]. intros HR. destruct Hor; [by intros []|done].
      * symmetry. apply orb_true_iff. destruct Hor as [->|Hor].
        -- right. apply Z.eqb_eq. rewrite (fi_raised _ _ _ I), app_nil_r. by apply fences_normal.
        -- left. apply Z.ltb_lt. rewrite vsize_app, vsize_cons in *.
           destruct (R1 ++ R2) eqn:ER; [done|]. assert (0 < vsize (R1 ++ R2)) as H.
           { rewrite ER. vsize. pose proof (vsize_nonneg l). lia. }
           rewrite vsize_app in H. lia.
    + assert (B ≠ [] ∧ R1 ++ R2 = []) as [HB [-> ->]%app_nil].
      { split; [by intros ->; auto|]. destruct (decide (R1 ++ R2 = [])); [done|]. destruct Hor. auto. }
      destruct Hw as [?|(x & B' & -> & Hx & Hsp)]; [done|].
      replace ((0 <? vsize ([] ++ [j]) - 1) || (raised s =? 0)) with false.
      * destruct (start_waiting s s1 jobs x B' J j) as (h & q & s2 & h' & jobs' & E1 & E2 & E3 & Hc);
          try done.
        rewrite E1. cbn. rewrite E2. cbn. rewrite E3. cbn.
        exists (set_nexts s2 h'), jobs', [x], B'. by split_and!.
      * symmetry. apply orb_false_iff. split; [done|]. apply Z.eqb_neq.
        rewrite (fi_raised _ _ _ I). cbn. rewrite Hj, Hx. pose proof (fences_nonneg (fenceb s) B').
        cbn. lia.
Qed.

(** * A storage and its client

    The client has a queue of jobs that completions have released, which it
    shares with other storages, the counter of blocked jobs, and the jobs it has
    in hand: those it was told to run when it added them, and those it took from
    the queue. *)
Record machine := Machine {
  mc_state : fence_state;
  mc_jobs : tailqueue;
  mc_blocked : Z;
  mc_hand : list ptr
}.

Inductive call :=
  | call_add (j : ptr)                 (* disk_io_thread::add_job *)
  | call_fence (j fj : ptr)            (* disk_io_thread::add_fence_job *)
  | call_complete (j : ptr)            (* disk_io_thread::add_completed_jobs_impl *)
  | call_take                          (* a released job is taken *)
  | call_other (j : ptr).              (* a job of another storage is released *)

(** the new state and the jobs that have arrived *)
Definition apply_call (c : call) (m : machine) : option (machine * list ptr) :=
  let s := mc_state m in
  match c with
  | call_add j =>
      '(s, b) ← is_blocked s j;
      Some (Machine s (mc_jobs m) (mc_blocked m + Z.b2z b)
              (if (b : bool) then mc_hand m else j :: mc_hand m), [j])
  | call_fence j fj =>
      '(s, cnt, post) ← raise_fence s j fj (mc_blocked m);
      Some (match post with
            | fence_post_fence => (Machine s (mc_jobs m) cnt (j :: mc_hand m), [j])
            | fence_post_flush => (Machine s (mc_jobs m) cnt (fj :: mc_hand m), [fj; j])
            | fence_post_none => (Machine s (mc_jobs m) cnt (mc_hand m), [fj; j])
            end)
  | call_complete j =>
      '(s, jobs, ret) ← job_complete s j (mc_jobs m);
      Some (Machine s jobs (mc_blocked m - ret) (filter (λ i, i ≠ j) (mc_hand m)), [])
  | call_take =>
      '(h, jobs, j) ← pop_front (fs_next s) (mc_jobs m);
      Some (Machine (set_nexts s h) jobs (mc_blocked m) (j :: mc_hand m), [])
  | call_other j =>
      '(h, jobs) ← push_back (fs_next s) (mc_jobs m) j;
      Some (Machine (set_nexts s h) jobs (mc_blocked m) (mc_hand m), [])
  end.

(** the jobs on a queue *)
Definition on_queue (s : fence_state) (q : tailqueue) (j : ptr) : Prop :=
  ∃ l, iterate (Z.to_nat (m_size q)) (fs_next s) (first q) = Some l ∧ j ∈ l.

(** a job is added once, when it is on no queue and has no flags; a job completes
    when it runs *)
Definition new_job (m : machine) (A : list ptr) (j : ptr) : Prop :=
  (j ∉ A) ∧ (¬ on_queue (mc_state m) (mc_jobs m) j) ∧ is_Some (fs_next (mc_state m) !! j) ∧
  fs_flags (mc_state m) !! j = Some 0.

Definition allowed (c : call) (m : machine) (A : list ptr) : Prop :=
  match c with
  | call_add j => new_job m A j
  | call_fence j fj => new_job m A j ∧ new_job m A fj ∧ j ≠ fj
  | call_complete j => j ∈ A ∧ job_flag (mc_state m) j in_progress = Some true
  | call_take => empty (mc_jobs m) = false
  | call_other j => (j ∉ A) ∧ (¬ on_queue (mc_state m) (mc_jobs m) j) ∧ is_Some (fs_next (mc_state m) !! j)
  end.

Fixpoint run (cs : list call) (m : machine) (A : list ptr) : option (machine * list ptr) :=
  match cs with
  | [] => Some (m, A)
  | c :: cs => '(m, js) ← apply_call c m; run cs m (A ++ js)
  end.

Fixpoint all_allowed (cs : list call) (m : machine) (A : list ptr) : Prop :=
  match cs with
  | [] => True
  | c :: cs =>
      allowed c m A ∧
      match apply_call c m with Some (m, js) => all_allowed cs m (A ++ js) | None => True end
  end.

(** a storage on which nothing has happened, among any jobs *)
Definition new_machine (h : gmap ptr (option ptr)) (flags : gmap ptr Z) : machine :=
  Machine (FenceState h flags new_fence) new_tailqueue 0 [].

(** [S] has been started, [B] is blocked, and [R] runs; [J] is the queue of released
    jobs, and what runs is in hand or on it *)
Record machine_ok (m : machine) (A S B R J : list ptr) : Prop := {
  mo_arrived : A = S ++ B;
  mo_once : NoDup A;
  mo_inv : fence_inv (mc_state m) B R;
  mo_started : R ⊆ S;
  mo_done j : j ∈ S → j ∉ R → activeb (mc_state m) j = false;
  mo_known j : j ∈ A → is_Some (fs_flags (mc_state m) !! j);
  mo_jobs : is_queue (fs_next (mc_state m)) (mc_jobs m) J;
  mo_apart : B ## J;
  mo_hand j : j ∈ R → j ∈ mc_hand m ∨ j ∈ J;
  mo_count : mc_blocked m = vsize B;
  mo_last f : f ∈ R → fenceb (mc_state m) f = true → list.last S = Some f
}.

Lemma on_queue_spec s q l j : is_queue (fs_next s) q l → on_queue s q j ↔ j ∈ l.
Proof.
  intros Hq. unfold on_queue, first.
  pose proof (iterate_spec _ _ _ (Z.to_nat (m_size q)) Hq) as Hi.
  rewrite (queue_size _ _ _ Hq) in *. unfold vsize in *. rewrite Nat2Z.id in *. rewrite Hi by done.
  naive_solver.
Qed.

Lemma fence_inv_nexts s B R h :
  fence_inv s B R → is_queue h (blocked s) B → fence_inv (set_nexts s h) B R.
Proof. intros [] Hq. by split. Qed.

Section calls.
Context (m : machine) (A S B R J : list ptr) (M : machine_ok m A S B R J).

Lemma new_job_fresh j :
  new_job m A j → fresh_job (mc_state m) B R j ∧ (j ∉ S) ∧ (j ∉ J).
Proof.
  destruct M. intros (HA & HJ & Hn & Hf). rewrite on_queue_spec in HJ by done.
  rewrite mo_arrived0, elem_of_app in HA.
  split; [|tauto]. unfold flagb, job_flag. split; [tauto| |by eexists|done|..].
  - intros HR. apply HA. left. by apply mo_started0.
  - unfold flagb, job_flag. by rewrite Hf.
  - unfold flagb, job_flag. by rewrite Hf.
Qed.

Lemma add_ok j :
  new_job m A j →
  ∃ m' S' B' R' J', apply_call (call_add j) m = Some (m', [j]) ∧ machine_ok m' (A ++ [j]) S' B' R' J'.
Proof.
  intros Hnew. destruct (new_job_fresh j Hnew) as (F & HS & HJ).
  destruct M as [HA Hnd I HR Hdone Hkn Hj Hap Hh Hc Hl].
  destruct (is_blocked_spec _ _ _ _ I F) as (s' & b & E & Hfl & Hb0 & Hb1).
  unfold apply_call. rewrite E. cbn.
  assert (NoDup (A ++ [j])) as Hnd' by (apply nodup_snoc; [done|apply Hnew]).
  assert (∀ i, i ∈ S → activeb s' i = activeb (mc_state m) i) as Hact.
  { intros i Hi. apply flagb_ext, Hfl. by intros ->. }
  destruct b.
  - destruct (Hb1 eq_refl) as (I' & Hd & Hfr). eexists _, S, (B ++ [j]), R, J. split; [done|].
    split; cbn; try done.
    + by rewrite HA, app_assoc.
    + intros i Hi Hir. rewrite Hact by done. auto.
    + intros i Hi. destruct (decide (i = j)) as [->|Hij].
      * apply (fi_jobs _ _ _ I'). left. apply elem_of_app. right. by left.
      * rewrite Hfl by done. apply Hkn. set_solver.
    + eapply queue_frame; [|done]. intros i Hi. apply Hfr; [|by intros ->].
      intros HiB. by apply (Hap i).
    + intros i [HiB| ->]%elem_of_snoc Hi; [by apply (Hap i)|done].
    + vsize.
    + intros f Hf Hff. apply Hl; [done|]. rewrite <-Hff. symmetry. apply flagb_ext, Hfl.
      intros ->. by apply (fresh_running _ _ _ _ F).
  - destruct (Hb0 eq_refl) as (-> & I' & Hn). eexists _, (S ++ [j]), [], (R ++ [j]), J. split; [done|].
    rewrite app_nil_r in HA. split; cbn; try done.
    + by rewrite HA, app_nil_r.
    + set_solver.
    + intros i [Hi| ->]%elem_of_snoc Hir; [|set_solver]. rewrite Hact by done. apply Hdone; set_solver.
    + intros i [Hi| ->]%elem_of_snoc.
      * rewrite Hfl; [auto|]. intros ->. by apply (proj1 Hnew).
      * apply (fi_jobs _ _ _ I'). right. set_solver.
    + by rewrite Hn.
    + intros i [Hi| ->]%elem_of_snoc; [destruct (Hh i Hi); [left; by right|by right]|left; by left].
    + lia.
    + intros f Hf Hff. destruct (order_running _ _ _ _ (fi_order _ _ _ I') Hf Hff) as [HRf _].
      apply app_singleton in HRf as [[-> [= ->]]|[_ ?]]; [by rewrite last_snoc|done].
Qed.

(** what is not among the jobs of a call keeps its flags *)
Lemma flags_kept s' (js : list ptr) flag i :
  (∀ i, i ∉ js → fs_flags s' !! i = fs_flags (mc_state m) !! i) →
  i ∉ js → flagb flag s' i = flagb flag (mc_state m) i.
Proof. intros Hfl Hi. by apply flagb_ext, Hfl. Qed.

Lemma fence_ok j fj :
  new_job m A j → new_job m A fj → j ≠ fj →
  ∃ m' js S' B' R' J', apply_call (call_fence j fj) m = Some (m', js) ∧
    machine_ok m' (A ++ js) S' B' R' J'.
Proof.
  intros Hj' Hfj' Hne. destruct (new_job_fresh j Hj') as (F & HS & HJ).
  destruct (new_job_fresh fj Hfj') as (G & HS' & HJ').
  destruct M as [HA Hnd I HR Hdone Hkn Hj Hap Hh Hc Hl].
  destruct (raise_fence_spec _ _ _ _ _ (mc_blocked m) I F G Hne)
    as (s' & c & p & E & Hfl & Hfj & Hffj & Hd & Hfr & Hp).
  unfold apply_call. rewrite E. cbn.
  assert (∀ i, i ∈ S → activeb s' i = activeb (mc_state m) i) as Hact.
  { intros i Hi. apply flagb_ext, Hfl; by intros ->. }
  assert (∀ i, i ∈ A → is_Some (fs_flags s' !! i)) as Hkn'.
  { intros i Hi. rewrite Hfl; [auto|..]; intros ->; [by apply (proj1 Hj')|by apply (proj1 Hfj')]. }
  assert (NoDup (A ++ [j])) as Hnd1 by (apply nodup_snoc; [done|apply Hj']).
  assert (NoDup (A ++ [fj; j])) as Hnd2.
  { change [fj; j] with ([fj] ++ [j]). rewrite app_assoc. apply nodup_snoc.
    - apply nodup_snoc; [done|apply Hfj'].
    - intros [?| ->]%elem_of_snoc; [by apply (proj1 Hj')|done]. }
  assert (∀ B', (∀ i, i ∈ B' → i ∈ B ∨ i = j ∨ i = fj) → is_queue (fs_next s') (mc_jobs m) J ∧ B' ## J)
    as HqJ.
  { intros B' HB'. split.
    - eapply queue_frame; [|done]. intros i Hi. apply Hfr; try by intros ->.
      intros HiB. by apply (Hap i).
    - intros i [?|[->| ->]]%HB' Hi; [by apply (Hap i)|done..]. }
  assert (∀ f, f ∈ R → fenceb s' f = true → list.last S = Some f) as Hl'.
  { intros f Hf Hff. apply Hl; [done|]. rewrite <-Hff. symmetry. apply flagb_ext, Hfl.
    - intros ->. by apply (fresh_running _ _ _ _ F).
    - intros ->. by apply (fresh_running _ _ _ _ G). }
  destruct p.
  - destruct Hp as (-> & -> & I' & -> & _ & Hn). rewrite app_nil_r in HA.
    eexists _, [j], (S ++ [j]), [], [j], J. split; [done|].
    split; cbn; try done.
    + by rewrite HA, app_nil_r.
    + set_solver.
    + intros i [Hi| ->]%elem_of_snoc Hir; [|set_solver]. rewrite Hact by done. apply Hdone; set_solver.
    + intros i [Hi| ->]%elem_of_snoc; [auto|]. apply (fi_jobs _ _ _ I'). right. by left.
    + by rewrite Hn.
    + intros i ->%list_elem_of_singleton. left. by left.
    + intros f ->%list_elem_of_singleton _. by rewrite last_snoc.
  - destruct Hp as (-> & HR0 & I' & ->). rewrite app_nil_r in HA.
    eexists _, [fj; j], (S ++ [fj]), [j], (R ++ [fj]), J. split; [done|].
    destruct (HqJ [j]) as [HqJ' Hap']; [set_solver|].
    split; cbn; try done.
    + by rewrite HA, <-app_assoc.
    + set_solver.
    + intros i [Hi| ->]%elem_of_snoc Hir; [|set_solver]. rewrite Hact by done. apply Hdone; set_solver.
    + intros i Hi. destruct (decide (i ∈ A)); [auto|]. apply (fi_jobs _ _ _ I'). set_solver.
    + intros i [Hi| ->]%elem_of_snoc; [destruct (Hh i Hi); [left; by right|by right]|left; by left].
    + rewrite Hc. vsize.
    + intros f [Hf| ->]%elem_of_snoc Hff; [|congruence].
      destruct (order_running _ _ _ _ (fi_order _ _ _ I') (proj2 (elem_of_app _ _ _) (or_introl Hf)) Hff) as [HRf _].
      by apply app_singleton in HRf as [[? _]|[_ ?]].
  - destruct Hp as (I' & ->). eexists _, [fj; j], S, (B ++ [fj; j]), R, J. split; [done|].
    destruct (HqJ (B ++ [fj; j])) as [HqJ' Hap']; [set_solver|].
    split; cbn; try done.
    + by rewrite HA, app_assoc.
    + intros i Hi Hir. rewrite Hact by done. auto.
    + intros i Hi. destruct (decide (i ∈ A)); [auto|]. apply (fi_jobs _ _ _ I'). set_solver.
    + rewrite Hc. vsize.
Qed.

Lemma complete_ok j :
  j ∈ A → job_flag (mc_state m) j in_progress = Some true →
  ∃ m' S' B' R' J', apply_call (call_complete j) m = Some (m', []) ∧
    machine_ok m' (A ++ []) S' B' R' J' ∧ S' ++ B' = S ++ B ∧
    vsize R' + vsize B' = vsize R + vsize B - 1 ∧ vsize B' + vsize J' = vsize B + vsize J.
Proof.
  intros HjA Hact. destruct M as [HA Hnd I HR Hdone Hkn Hj Hap Hh Hc Hl].
  assert (activeb (mc_state m) j = true) as Ha by (unfold flagb; by rewrite Hact).
  assert (j ∈ R) as HjR.
  { destruct (decide (j ∈ R)); [done|]. subst A. apply elem_of_app in HjA as [HjS|HjB].
    - by rewrite Hdone in Ha.
    - by rewrite (fi_blocked _ _ _ I) in Ha. }
  apply list_elem_of_split in HjR as (R1 & R2 & ->).
  destruct (job_complete_spec _ _ B R1 R2 J j I Hj Hap) as (s' & jobs' & P & B' & E & HB & C & _).
  unfold apply_call. rewrite E. cbn. rewrite HB, app_assoc in HA.
  assert (∀ i, i ∈ S → i ∉ P ++ B') as HSB.
  { intros i Hi HiB. rewrite HA, <-app_assoc in Hnd. apply NoDup_app in Hnd as (_ & H & _). by apply (H i). }
  assert (∀ i, i ∈ R1 ++ R2 → i ∈ R1 ++ j :: R2) as Hsub by set_solver.
  assert (∃ J', is_queue (fs_next s') jobs' J' ∧ vsize J' = vsize J + vsize P ∧ ∀ i, i ∈ J' ↔ i ∈ J ∨ i ∈ P)
    as (J' & HJ' & HJs & HJP).
  { destruct (cm_jobs _ _ _ _ _ _ _ _ C) as [H|H].
    - exists (J ++ P). split; [done|]. split; [vsize|]. intros i. apply elem_of_app.
    - exists (P ++ J). split; [done|]. split; [vsize|]. set_solver. }
  rewrite app_nil_r. exists (Machine s' jobs' (mc_blocked m - vsize P) (filter (λ i, i ≠ j) (mc_hand m))), (S ++ P), B', ((R1 ++ R2) ++ P), J'.
  split; [done|]. split; [|split; [by rewrite HB, app_assoc|rewrite HB, HJs; vsize]].
  split; cbn; try done.
  - apply C.
  - set_solver.
  - intros i Hi Hir. assert (i ∈ S) as HiS by set_solver.
    destruct (decide (i = j)) as [->|Hij]; [by eapply cm_inactive|].
    rewrite !not_elem_of_app in Hir. destruct Hir as [[HiR1 HiR2] HiP].
    assert (¬ (i ∈ R1 ++ j :: R2)) as HiR by (rewrite elem_of_app, elem_of_cons; tauto).
    rewrite (flagb_ext _ (mc_state m)) by by apply C. auto.
  - intros i Hi. destruct (decide (i = j)) as [->|Hij]; [by eapply cm_known|].
    destruct (decide (i ∈ P)) as [HiP|HiP].
    + apply (fi_jobs _ _ _ (cm_inv _ _ _ _ _ _ _ _ C)). right. set_solver.
    + rewrite (cm_flags _ _ _ _ _ _ _ _ C) by done. auto.
  - intros i Hi HiJ. apply HJP in HiJ as [HiJ|HiP]; [apply (Hap i); [set_solver|done]|].
    pose proof (queue_nodup _ _ _ (fi_queue _ _ _ I)) as HndB. rewrite HB in HndB.
    apply NoDup_app in HndB as (_ & H & _). by apply (H i).
  - intros i [Hi|Hi]%elem_of_app; [|right; apply HJP; by right].
    destruct (Hh i (Hsub i Hi)) as [Hhand|HiJ]; [left|right; apply HJP; by left].
    apply list_elem_of_filter. split; [|done]. by eapply running_split_ne; [|left].
  - rewrite Hc, HB. vsize.
  - intros f Hf Hff.
    destruct (order_running _ _ _ _ (fi_order _ _ _ (cm_inv _ _ _ _ _ _ _ _ C)) Hf Hff) as [HRf _].
    apply app_singleton in HRf as [[HR0 ->]|[HRf ->]]; [by rewrite last_snoc|].
    exfalso. rewrite (cm_fence _ _ _ _ _ _ _ _ C) in Hff.
    destruct (order_running _ _ _ f (fi_order _ _ _ I)) as [HRj _]; [set_solver|done|].
    apply (f_equal length) in HRj, HRf. rewrite !length_app in *. cbn in *. lia.
Qed.

Lemma take_ok :
  empty (mc_jobs m) = false →
  ∃ m' J', apply_call call_take m = Some (m', []) ∧ machine_ok m' (A ++ []) S B R J' ∧
    vsize J' = vsize J - 1.
Proof.
  intros He. destruct M as [HA Hnd I HR Hdone Hkn Hj Hap Hh Hc Hl].
  rewrite (queue_empty _ _ _ Hj) in He. apply bool_decide_eq_false in He.
  destruct J as [|x J']; [done|]. destruct (pop_front_spec _ _ _ _ Hj) as (h & q & E & Hq & ->).
  unfold apply_call. rewrite E. cbn. rewrite app_nil_r. eexists _, J'. split; [done|].
  split; [|vsize]. split; cbn; try done.
  - apply fence_inv_nexts; [done|]. eapply queue_frame; [|apply I].
    intros i Hi. apply lookup_insert_ne. intros <-. apply (Hap x Hi). by left.
  - intros i Hi HiJ. apply (Hap i Hi). by right.
  - intros i Hi. destruct (Hh i Hi) as [?|[->|?]%elem_of_cons]; [left; by right|left; by left|by right].
Qed.

Lemma other_ok j :
  allowed (call_other j) m A →
  ∃ m' J', apply_call (call_other j) m = Some (m', []) ∧ machine_ok m' (A ++ []) S B R J'.
Proof.
  intros (HjA & HjJ & Hn). destruct M as [HA Hnd I HR Hdone Hkn Hj Hap Hh Hc Hl].
  rewrite (on_queue_spec _ _ _ _ Hj) in HjJ.
  destruct (push_back_spec _ _ _ _ Hj HjJ Hn) as (h & q & E & Hq & Hd & Hfr).
  unfold apply_call. rewrite E. cbn. rewrite app_nil_r. eexists _, (J ++ [j]). split; [done|].
  split; cbn; try done.
  - apply fence_inv_nexts; [done|]. eapply queue_frame; [|apply I].
    intros i Hi. apply Hfr; [intros HiJ; by apply (Hap i)|]. intros ->. set_solver.
  - intros i Hi [HiJ| ->]%elem_of_snoc; [by apply (Hap i)|]. set_solver.
  - intros i Hi. destruct (Hh i Hi) as [?|?]; [by left|right; apply elem_of_app; by left].
Qed.
End calls.

Lemma call_ok c m A S B R J :
  machine_ok m A S B R J → allowed c m A →
  ∃ m' js S' B' R' J', apply_call c m = Some (m', js) ∧ machine_ok m' (A ++ js) S' B' R' J'.
Proof.
  intros M Hc. destruct c as [j|j fj|j| |j].
  - destruct (add_ok _ _ _ _ _ _ M j Hc) as (m' & S' & B' & R' & J' & E & M'). eauto 10.
  - destruct Hc as (H1 & H2 & H3).
    destruct (fence_ok _ _ _ _ _ _ M j fj H1 H2 H3) as (m' & js & S' & B' & R' & J' & E & M'). eauto 10.
  - destruct Hc as [H1 H2].
    destruct (complete_ok _ _ _ _ _ _ M j H1 H2) as (m' & S' & B' & R' & J' & E & M' & _). eauto 10.
  - destruct (take_ok _ _ _ _ _ _ M Hc) as (m' & J' & E & M' & _). eauto 10.
  - destruct (other_ok _ _ _ _ _ _ M j Hc) as (m' & J' & E & M'). eauto 10.
Qed.

Lemma run_ok cs m A S B R J :
  machine_ok m A S B R J → all_allowed cs m A →
  ∃ m' A' S' B' R' J', run cs m A = Some (m', A') ∧ machine_ok m' A' S' B' R' J'.
Proof.
  revert m A S B R J. induction cs as [|c cs IH]; intros m A S B R J M; cbn; [eauto 10|].
  intros [Hc Hcs]. destruct (call_ok c m A S B R J M Hc) as (m' & js & S' & B' & R' & J' & E & M').
  rewrite E in *. cbn. eauto.
Qed.

Lemma new_machine_ok h flags : machine_ok (new_machine h flags) [] [] [] [] [].
Proof.
  split; try done; cbn; try (by intros ? ?%elem_of_nil).
  - constructor.
  - split; cbn; try done; try (by intros ? ?%elem_of_nil).
    + apply new_queue.
    + by intros j [?%elem_of_nil|?%elem_of_nil].
    + constructor.
    + apply order_free. by intros j ?%elem_of_nil.
  - apply new_queue.
Qed.

(** ** What can be seen of a run *)

Lemma queue_contents s q l :
  is_queue (fs_next s) q l → iterate (Z.to_nat (m_size q)) (fs_next s) (first q) = Some l.
Proof.
  intros Hq. apply iterate_spec; [done|]. rewrite (queue_size _ _ _ Hq). unfold vsize. lia.
Qed.

Section observed.
Context (m : machine) (A S B R J : list ptr) (M : machine_ok m A S B R J).

Lemma flag_value j flag : j ∈ A → job_flag (mc_state m) j flag = Some (flagb flag (mc_state m) j).
Proof. intros Hj. apply job_flag_flagb. by eapply mo_known. Qed.

Lemma active_running j : j ∈ A → activeb (mc_state m) j = true ↔ j ∈ R.
Proof.
  destruct M. intros Hj. split; [|by apply (fi_running _ _ _ mo_inv0)]. intros Ha.
  destruct (decide (j ∈ R)) as [|Hn]; [done|]. rewrite mo_arrived0 in Hj.
  apply elem_of_app in Hj as [Hj|Hj]; [by rewrite mo_done0 in Ha|].
  by rewrite (fi_blocked _ _ _ mo_inv0) in Ha.
Qed.

Lemma running_arrived j : j ∈ R → j ∈ A.
Proof. destruct M. intros Hj. rewrite mo_arrived0. apply elem_of_app. left. auto. Qed.

Lemma running_count :
  num_outstanding_jobs (mc_state m) = vsize (filter (λ j, activeb (mc_state m) j = true) A).
Proof.
  unfold num_outstanding_jobs. rewrite (fi_outstanding _ _ _ (mo_inv _ _ _ _ _ _ M)).
  unfold vsize. f_equal. apply Permutation_length, NoDup_Permutation.
  - apply (fi_nodup _ _ _ (mo_inv _ _ _ _ _ _ M)).
  - apply NoDup_filter. apply M.
  - intros j. rewrite list_elem_of_filter. split.
    + intros Hj. pose proof (running_arrived j Hj). by rewrite active_running.
    + intros [Ha Hj]. by apply active_running.
Qed.

Lemma fence_up :
  has_fence (mc_state m) = true ↔
  ∃ f, f ∈ R ++ B ∧ fenceb (mc_state m) f = true.
Proof.
  unfold has_fence. rewrite negb_true_iff, Z.eqb_neq, (fi_raised _ _ _ (mo_inv _ _ _ _ _ _ M)).
  rewrite fences_normal. unfold normal. split.
  - intros Hn. destruct (existsb (fenceb (mc_state m)) (R ++ B)) eqn:E.
    + apply existsb_exists in E as (f & Hf & ?). exists f. by rewrite list_elem_of_In.
    + destruct Hn. intros j Hj%list_elem_of_In. apply not_true_is_false. intros Hf.
      apply not_true_iff_false in E. apply E, existsb_exists. eauto.
  - intros (f & Hf & Ht) Hn. by rewrite (Hn f Hf) in Ht.
Qed.

(** a fence that runs *)
Lemma fence_alone f :
  f ∈ A → fenceb (mc_state m) f = true → activeb (mc_state m) f = true →
  ∃ S', S = S' ++ [f] ∧ ∀ j, j ∈ S' → activeb (mc_state m) j = false.
Proof.
  intros Hf Hff Ha. apply active_running in Ha; [|done].
  destruct (order_running _ _ _ _ (fi_order _ _ _ (mo_inv _ _ _ _ _ _ M)) Ha Hff) as [HR _].
  destruct M. specialize (mo_last0 f Ha Hff). apply last_Some in mo_last0 as [S' ->]. exists S'. split; [done|].
  intros j Hj. apply mo_done0; [apply elem_of_app; by left|]. rewrite HR.
  intros ->%list_elem_of_singleton. rewrite mo_arrived0, <-app_assoc in mo_once0.
  apply NoDup_app in mo_once0 as (_ & H & _). apply (H f Hj). by left.
Qed.
End observed.
