(* ===== verification/FenceProperties.v ===== *)
(** Properties of [disk_job_fence] and of the queue it is made of:
    src/btdownloader/torrent/disk_job_fence.cpp and
    src/btdownloader/include/libtorrent/tailqueue.hpp. *)

From stdpp Require Import gmap.
From S2P Require Import Prelude.
From stdpp Require Import list.
From S2P Require Import Tailqueue.
From S2P Require Import DiskFence.
From S2P Require Import FenceCorrect.

Open Scope Z_scope.

(** every operation of a queue does what a function on lists does to the
    elements that an iterator visits, and leaves the links of other elements
    alone. *)
Theorem tailqueue_refines_list h q rhs l r x :
  is_queue h q l → is_queue h rhs r → l ## r → x ∉ l → is_Some (h !! x) →
  iterate (length l) h (first q) = Some l ∧ empty q = bool_decide (l = []) ∧
  (∃ h' q', push_back h q x = Some (h', q') ∧ is_queue h' q' (l ++ [x]) ∧
     ∀ y, y ∉ l → y ≠ x → h' !! y = h !! y) ∧
  (∃ h' q', push_front h q x = Some (h', q') ∧ is_queue h' q' (x :: l) ∧
     ∀ y, y ≠ x → h' !! y = h !! y) ∧
  (∃ h' q' rhs', append h q rhs = Some (h', q', rhs') ∧ is_queue h' q' (l ++ r) ∧
     is_queue h' rhs' [] ∧ ∀ y, y ∉ l → h' !! y = h !! y) ∧
  (∃ h' q' rhs', prepend h q rhs = Some (h', q', rhs') ∧ is_queue h' q' (r ++ l) ∧
     is_queue h' rhs' []) ∧
  (∀ y l', l = y :: l' → ∃ h' q', pop_front h q = Some (h', q', y) ∧ is_queue h' q' l' ∧
     ∀ z, z ≠ y → h' !! z = h !! z).
Proof.
  intros Hq Hr Hd Hx Hn. split; [by apply iterate_spec|]. split; [by eapply queue_empty|].
  split; [|split; [|split; [|split]]].
  - destruct (push_back_spec _ _ _ _ Hq Hx Hn) as (h' & q' & E & H1 & _ & H2). eauto 10.
  - destruct (push_front_spec _ _ _ _ Hq Hx Hn) as (q' & E & H). do 2 eexists. split_and!; try done.
    intros y Hy. by apply lookup_insert_ne.
  - destruct (append_spec _ _ _ _ _ Hq Hr Hd) as (h' & q' & rhs' & E & H1 & H2 & _ & H3). eauto 10.
  - destruct (prepend_spec _ _ _ _ _ Hq Hr Hd) as (h' & q' & rhs' & E & H1 & H2). eauto 10.
  - intros y l' ->. destruct (pop_front_spec _ _ _ _ Hq) as (h' & q' & E & H1 & ->).
    do 2 eexists. split_and!; try done. intros z Hz. by apply lookup_insert_ne.
Qed.

(** C28: no allowed sequence of calls has undefined behaviour.  The jobs are started
    in the order in which they arrive: those that are blocked are the last ones,
    and the counters count them.  While a fence job runs, every job that arrived
    before it has completed and every job that arrived after it is blocked.
    Without a fence no job is blocked. *)
Theorem fences_keep_order cs h flags :
  all_allowed cs (new_machine h flags) [] →
  ∃ m A, run cs (new_machine h flags) [] = Some (m, A) ∧
    let s := mc_state m in
    ∃ S B, A = S ++ B ∧ NoDup A ∧
      iterate (Z.to_nat (num_blocked s)) (fs_next s) (first (blocked s)) = Some B ∧
      num_blocked s = vsize B ∧ mc_blocked m = vsize B ∧
      num_outstanding_jobs s = vsize (filter (λ j, job_flag s j in_progress = Some true) A) ∧
      (∀ j, j ∈ B → job_flag s j in_progress = Some false) ∧
      (∀ f, f ∈ A → job_flag s f fence = Some true → job_flag s f in_progress = Some true →
        ∃ S', S = S' ++ [f] ∧ ∀ j, j ∈ S' → job_flag s j in_progress = Some false) ∧
      (has_fence s = true ↔ ∃ f, f ∈ A ∧ job_flag s f fence = Some true ∧
        (f ∈ B ∨ job_flag s f in_progress = Some true)) ∧
      (has_fence s = false → B = []).
Proof.
  intros Hall. destruct (run_ok cs _ _ _ _ _ _ (new_machine_ok h flags) Hall)
    as (m & A & S & B & R & J & E & M).
  exists m, A. split; [done|]. cbn. exists S, B.
  pose proof (mo_inv _ _ _ _ _ _ M) as I. pose proof (mo_arrived _ _ _ _ _ _ M) as HA.
  assert (∀ j flag b, j ∈ A → job_flag (mc_state m) j flag = Some b ↔ flagb flag (mc_state m) j = b) as Hflag.
  { intros j flag b Hj. rewrite (flag_value _ _ _ _ _ _ M) by done. split; [by intros [=]|by intros ->]. }
  assert (∀ j, j ∈ B → j ∈ A) as HBA by (intros; rewrite HA; apply elem_of_app; by right).
  assert (∀ j, j ∈ S → j ∈ A) as HSA by (intros; rewrite HA; apply elem_of_app; by left).
  split; [done|]. split; [apply M|]. split; [apply queue_contents, I|].
  split; [apply (queue_size _ _ _ (fi_queue _ _ _ I))|]. split; [apply M|]. split.
  { rewrite (running_count _ _ _ _ _ _ M). f_equal. apply list_filter_iff. intros j.
    unfold flagb. destruct (job_flag _ j _) as [[]|]; naive_solver. }
  split; [intros j Hj; apply Hflag; [auto|]; by apply I|].
  split; [|split].
  - intros f Hf. rewrite !Hflag by done. intros Hff Ha.
    destruct (fence_alone _ _ _ _ _ _ M f Hf Hff Ha) as (S' & -> & HS'). exists S'. split; [done|].
    intros j Hj. apply Hflag; [|by apply HS']. apply HSA, elem_of_app. by left.
  - rewrite (fence_up _ _ _ _ _ _ M). split.
    + intros (f & Hf & Hff). assert (f ∈ A) as HfA.
      { apply elem_of_app in Hf as [Hf|Hf]; [by eapply running_arrived|auto]. }
      exists f. split; [done|]. split; [by apply Hflag|]. apply elem_of_app in Hf as [Hf|Hf]; [right|by left].
      apply Hflag; [done|]. by apply I.
    + intros (f & Hf & Hff & Hor). exists f. split; [|by apply Hflag]. apply elem_of_app.
      destruct Hor as [?|Ha]; [by right|left]. apply Hflag in Ha; [|done].
      by eapply active_running.
  - unfold has_fence. rewrite negb_false_iff, Z.eqb_eq. intros H0. by apply (unraised_blocked _ _ _ I).
Qed.

(** the jobs that have arrived and have not completed *)
Definition pending (m : machine) : Z :=
  num_outstanding_jobs (mc_state m) + num_blocked (mc_state m).

Lemma pending_jobs m A S B R J : machine_ok m A S B R J → pending m = vsize R + vsize B.
Proof.
  intros M. pose proof (mo_inv _ _ _ _ _ _ M) as I. unfold pending. f_equal; [apply I|].
  apply (queue_size _ _ _ (fi_queue _ _ _ I)).
Qed.

Lemma order_idle s B : fence_inv s B [] → B = [].
Proof. intros I. pose proof (fi_order _ _ _ I) as H. by inversion H. Qed.

(** the client takes a released job, or completes a job that it has in hand *)
Definition working (c : call) (m : machine) (A : list ptr) : Prop :=
  match c with
  | call_take => allowed call_take m A
  | call_complete j => allowed (call_complete j) m A ∧ j ∈ mc_hand m
  | _ => False
  end.

Fixpoint all_working (cs : list call) (m : machine) (A : list ptr) : Prop :=
  match cs with
  | [] => True
  | c :: cs =>
      working c m A ∧ match apply_call c m with Some (m, js) => all_working cs m (A ++ js) | None => True end
  end.

Definition completes (c : call) : Z := match c with call_complete _ => 1 | _ => 0 end.

Definition completions (cs : list call) : Z := foldr (λ c, Z.add (completes c)) 0 cs.

(** a job that is blocked has to be released, taken and completed, one that is
    released taken and completed, one in hand completed *)
Definition work_left (m : machine) : Z := pending m + num_blocked (mc_state m) + m_size (mc_jobs m).

Lemma work_left_jobs m A S B R J :
  machine_ok m A S B R J → work_left m = vsize R + 2 * vsize B + vsize J.
Proof.
  intros M. unfold work_left. rewrite (pending_jobs _ _ _ _ _ _ M). pose proof (mo_inv _ _ _ _ _ _ M) as I.
  rewrite (queue_size _ _ _ (mo_jobs _ _ _ _ _ _ M)). unfold num_blocked.
  rewrite (queue_size _ _ _ (fi_queue _ _ _ I)). lia.
Qed.

(** a step of the client does one part of the work *)
Lemma working_ok c m A S B R J :
  machine_ok m A S B R J → working c m A →
  ∃ m' S' B' R' J', apply_call c m = Some (m', []) ∧ machine_ok m' (A ++ []) S' B' R' J' ∧
    pending m' = pending m - completes c ∧ work_left m' = work_left m - 1.
Proof.
  intros M Hw. destruct c as [j|j fj|j| |j]; try done.
  - destruct Hw as [[Hj Ha] _].
    destruct (complete_ok _ _ _ _ _ _ M j Hj Ha) as (m' & S' & B' & R' & J' & E & M' & _ & Hn & Hq).
    exists m', S', B', R', J'. split; [done|]. split; [done|].
    rewrite (pending_jobs _ _ _ _ _ _ M), (pending_jobs _ _ _ _ _ _ M'),
      (work_left_jobs _ _ _ _ _ _ M), (work_left_jobs _ _ _ _ _ _ M'). cbn [completes]. lia.
  - destruct (take_ok _ _ _ _ _ _ M Hw) as (m' & J' & E & M' & Hq). exists m', S, B, R, J'.
    split; [done|]. split; [done|].
    rewrite (pending_jobs _ _ _ _ _ _ M), (pending_jobs _ _ _ _ _ _ M'),
      (work_left_jobs _ _ _ _ _ _ M), (work_left_jobs _ _ _ _ _ _ M'). cbn [completes]. lia.
Qed.

(** while a job is pending the client can go on *)
Lemma can_work m A S B R J : machine_ok m A S B R J → 0 < pending m → ∃ c, working c m A.
Proof.
  intros M Hp. rewrite (pending_jobs _ _ _ _ _ _ M) in Hp. pose proof (mo_inv _ _ _ _ _ _ M) as I.
  destruct R as [|j R]; [apply order_idle in I as ->; vsize in Hp; lia|].
  destruct (mo_hand _ _ _ _ _ _ M j (list_elem_of_here _ _)) as [Hh|Hq].
  - exists (call_complete j). assert (j ∈ A) as Hj by (eapply running_arrived; [done|by left]).
    split; [|done]. split; [done|]. rewrite (flag_value _ _ _ _ _ _ M) by done. f_equal. apply I. by left.
  - exists call_take. cbn. rewrite (queue_empty _ _ _ (mo_jobs _ _ _ _ _ _ M)).
    apply bool_decide_eq_false. intros ->. by apply elem_of_nil in Hq.
Qed.

Lemma drained m A S B R J :
  machine_ok m A S B R J → pending m = 0 →
  empty (blocked (mc_state m)) = true ∧ ∀ j, j ∈ A → job_flag (mc_state m) j in_progress = Some false.
Proof.
  intros M Hz. pose proof (mo_inv _ _ _ _ _ _ M) as I. assert (R = [] ∧ B = []) as [-> ->].
  { rewrite (pending_jobs _ _ _ _ _ _ M) in Hz. unfold vsize in Hz. split; apply length_zero_iff_nil; lia. }
  split; [rewrite (queue_empty _ _ _ (fi_queue _ _ _ I)); by apply bool_decide_true|].
  intros j Hj. rewrite (flag_value _ _ _ _ _ _ M) by done. f_equal.
  apply not_true_is_false. rewrite (active_running _ _ _ _ _ _ M) by done. apply not_elem_of_nil.
Qed.

(** C29: every job that runs has been handed out: the client was told to run it when it
    was added, or has taken it from the queue of released jobs, or will find it there.
    While a job has not completed, the client can take a released job or complete one
    that it has in hand; each such step is one of the steps that are left, and each
    completion leaves one job less.  So in whatever order the client works, after
    as many steps as there were left nothing runs and nothing is blocked. *)
Theorem fences_drain cs h flags m A ws :
  all_allowed cs (new_machine h flags) [] →
  run cs (new_machine h flags) [] = Some (m, A) →
  all_working ws m A →
  ∃ m', run ws m A = Some (m', A) ∧
    pending m' = pending m - completions ws ∧
    work_left m' = work_left m - vsize ws ∧ pending m' ≤ work_left m' ∧
    (∀ j, j ∈ A → job_flag (mc_state m') j in_progress = Some true →
       j ∈ mc_hand m' ∨ on_queue (mc_state m') (mc_jobs m') j) ∧
    (0 < pending m' → ∃ c, working c m' A) ∧
    (pending m' = 0 → empty (blocked (mc_state m')) = true ∧
      ∀ j, j ∈ A → job_flag (mc_state m') j in_progress = Some false).
Proof.
  intros Hall Hrun. destruct (run_ok cs _ _ _ _ _ _ (new_machine_ok h flags) Hall)
    as (m0 & A0 & S & B & R & J & E & M). rewrite Hrun in E. injection E as <- <-. clear Hall Hrun.
  revert m S B R J M. induction ws as [|c ws IH]; intros m S B R J M; cbn.
  - intros _. exists m. split; [done|]. split; [lia|]. split; [vsize|]. split; [|split; [|split]].
    + rewrite (pending_jobs _ _ _ _ _ _ M), (work_left_jobs _ _ _ _ _ _ M).
      pose proof (vsize_nonneg B). pose proof (vsize_nonneg J). lia.
    + intros j Hj Hrun. rewrite (flag_value _ _ _ _ _ _ M) in Hrun by done. injection Hrun as Hrun.
      rewrite (on_queue_spec _ _ _ _ (mo_jobs _ _ _ _ _ _ M)). apply (mo_hand _ _ _ _ _ _ M).
      by eapply active_running.
    + by eapply can_work.
    + by eapply drained.
  - intros [Hw Hws].
    destruct (working_ok c m A S B R J M Hw) as (m1 & S' & B' & R' & J' & E & M' & Hp & Hl).
    rewrite E in *. cbn. rewrite app_nil_r in *.
    destruct (IH m1 S' B' R' J' M' Hws) as (m' & E' & Hp' & Hl' & H1). exists m'. split; [done|].
    split; [unfold completions in *; cbn [foldr]; lia|]. split; [vsize|done].
Qed.

(** * Samples *)

Definition not_queued (m : machine) (j : ptr) : bool :=
  let q := mc_jobs m in
  match iterate (Z.to_nat (m_size q)) (fs_next (mc_state m)) (first q) with
  | Some l => bool_decide (j ∉ l)
  | None => true
  end && bool_decide (is_Some (fs_next (mc_state m) !! j)).

Definition new_jobb (m : machine) (A : list ptr) (j : ptr) : bool :=
  bool_decide (j ∉ A) && not_queued m j && bool_decide (fs_flags (mc_state m) !! j = Some 0).

Definition allowedb (c : call) (m : machine) (A : list ptr) : bool :=
  match c with
  | call_add j => new_jobb m A j
  | call_fence j fj => new_jobb m A j && new_jobb m A fj && bool_decide (j ≠ fj)
  | call_complete j =>
      bool_decide (j ∈ A) && bool_decide (job_flag (mc_state m) j in_progress = Some true)
  | call_take => negb (empty (mc_jobs m))
  | call_other j => bool_decide (j ∉ A) && not_queued m j
  end.

Fixpoint all_allowedb (cs : list call) (m : machine) (A : list ptr) : bool :=
  match cs with
  | [] => true
  | c :: cs =>
      allowedb c m A &&
      match apply_call c m with Some (m, js) => all_allowedb cs m (A ++ js) | None => true end
  end.

Lemma not_queued_ok m j :
  not_queued m j = true →
  (¬ on_queue (mc_state m) (mc_jobs m) j) ∧ is_Some (fs_next (mc_state m) !! j).
Proof.
  unfold not_queued, on_queue. intros [H1 H2%bool_decide_eq_true]%andb_true_iff. split; [|done].
  intros (l & E & Hj). rewrite E in H1. by apply bool_decide_eq_true in H1.
Qed.

Lemma new_jobb_ok m A j : new_jobb m A j = true → new_job m A j.
Proof.
  intros [[H1%bool_decide_eq_true H2]%andb_true_iff H3%bool_decide_eq_true]%andb_true_iff.
  by destruct (not_queued_ok m j H2).
Qed.

Lemma allowedb_ok c m A : allowedb c m A = true → allowed c m A.
Proof.
  destruct c; cbn.
  - apply new_jobb_ok.
  - intros [[?%new_jobb_ok ?%new_jobb_ok]%andb_true_iff ?%bool_decide_eq_true]%andb_true_iff. done.
  - by intros [?%bool_decide_eq_true ?%bool_decide_eq_true]%andb_true_iff.
  - apply negb_true_iff.
  - intros [?%bool_decide_eq_true ?%not_queued_ok]%andb_true_iff. done.
Qed.

Lemma all_allowedb_ok cs m A : all_allowedb cs m A = true → all_allowed cs m A.
Proof.
  revert m A. induction cs as [|c cs IH]; intros m A; [done|]. cbn.
  intros [H1%allowedb_ok H2]%andb_true_iff. split; [done|].
  destruct (apply_call c m) as [[m' js]|]; auto.
Qed.

(** eight jobs that are on no queue *)
Definition sample_links : gmap ptr (option ptr) :=
  list_to_map ((λ j, (j, None)) <$> [1; 2; 3; 4; 5; 6; 7; 8]).

Definition sample_flags : gmap ptr Z := list_to_map ((λ j, (j, 0)) <$> [1; 2; 3; 4; 5; 6; 7; 8]).

(** two jobs, a fence, a job behind it, and a second fence *)
Definition sample_calls : list call :=
  [call_add 1; call_add 2; call_fence 3 4; call_add 5; call_fence 6 7; call_complete 2;
   call_other 8; call_complete 1; call_complete 4].

(** the two fences wait in the order of their arrival, the first one runs *)
Example sample_run :
  option_map (λ '(m, A), (A, iterate 8 (fs_next (mc_state m)) (first (blocked (mc_state m))),
      iterate 8 (fs_next (mc_state m)) (first (mc_jobs m)),
      job_flag (mc_state m) 3 in_progress)) (run sample_calls (new_machine sample_links sample_flags) [])
  = Some ([1; 2; 4; 3; 5; 7; 6], Some [5; 7; 6], Some [3; 8], Some true).
Proof. vm_compute. reflexivity. Qed.

Lemma sample_fence m A :
  run sample_calls (new_machine sample_links sample_flags) [] = Some (m, A) →
  job_flag (mc_state m) 3 fence = Some true.
Proof.
  intros E. assert (option_map (λ r, job_flag (mc_state r.1) 3 fence)
    (run sample_calls (new_machine sample_links sample_flags) []) = Some (Some true)) as H
    by (vm_compute; reflexivity). rewrite E in H. by injection H.
Qed.

Lemma sample_calls_allowed :
  all_allowed sample_calls (new_machine sample_links sample_flags) [].
Proof. apply all_allowedb_ok. vm_compute. reflexivity. Qed.

Lemma fences_keep_order_witness :
  ∃ m A, run sample_calls (new_machine sample_links sample_flags) [] = Some (m, A) ∧
    mc_blocked m = 3 ∧ job_flag (mc_state m) 1 in_progress = Some false.
Proof.
  destruct (fences_keep_order sample_calls sample_links sample_flags sample_calls_allowed)
    as (m & A & E & S & B & HA & _ & Hit & Hn & Hc & _ & _ & Hf & _).
  pose proof sample_run as Hs. rewrite E in Hs. unfold option_map in Hs. injection Hs as HAs HBs _ Hr.
  assert (mc_blocked m = 3) as Hb.
  { assert (option_map (λ r, mc_blocked r.1) (run sample_calls (new_machine sample_links sample_flags) [])
      = Some 3) as Hb by (vm_compute; reflexivity). rewrite E in Hb. by injection Hb. }
  exists m, A. split; [exact E|]. split; [exact Hb|].
  destruct (Hf 3) as (S' & HS & Hd).
  - rewrite HAs. do 3 apply list_elem_of_further. apply list_elem_of_here.
  - exact (sample_fence m A E).
  - exact Hr.
  - apply Hd. rewrite HA, HS in HAs. destruct S' as [|a S']; [discriminate HAs|].
    injection HAs as -> _. left.
Defined.

Fixpoint all_workingb (cs : list call) (m : machine) (A : list ptr) : bool :=
  match cs with
  | [] => true
  | c :: cs =>
      match c with
      | call_take => true
      | call_complete j => bool_decide (j ∈ mc_hand m)
      | _ => false
      end && allowedb c m A &&
      match apply_call c m with Some (m, js) => all_workingb cs m (A ++ js) | None => true end
  end.

Lemma all_workingb_ok cs m A : all_workingb cs m A = true → all_working cs m A.
Proof.
  revert m A. induction cs as [|c cs IH]; intros m A; [done|]. cbn.
  intros [[H0 H1%allowedb_ok]%andb_true_iff H2]%andb_true_iff. split.
  - destruct c; try done. split; [done|]. by apply bool_decide_eq_true in H0.
  - destruct (apply_call c m) as [[m' js]|]; auto.
Qed.

(** the client takes the first fence and the job of the other storage, ends the
    fence, and so on *)
Definition sample_work : list call :=
  [call_take; call_take; call_complete 3; call_take; call_take; call_complete 5; call_complete 7;
   call_take; call_complete 6].

Lemma fences_drain_witness :
  ∃ m A m', run sample_calls (new_machine sample_links sample_flags) [] = Some (m, A) ∧
    run sample_work m A = Some (m', A) ∧ pending m = 4 ∧ pending m' = 0 ∧ work_left m = 9 ∧ work_left m' = 0.
Proof.
  assert (match run sample_calls (new_machine sample_links sample_flags) [] with
          | Some (m, A) => all_workingb sample_work m A && (pending m =? 4) && (work_left m =? 9)
          | None => false
          end = true) as H by (vm_compute; reflexivity).
  destruct (run sample_calls (new_machine sample_links sample_flags) []) as [[m A]|] eqn:E;
    [|discriminate H].
  apply andb_true_iff in H as [[H Hp4%Z.eqb_eq]%andb_true_iff Hl9%Z.eqb_eq].
  destruct (fences_drain sample_calls sample_links sample_flags m A sample_work sample_calls_allowed E)
    as (m' & E' & Hp & Hl & _).
  - apply all_workingb_ok. exact H.
  - exists m, A, m'. split; [reflexivity|]. split; [exact E'|]. split; [exact Hp4|].
    split; [rewrite Hp, Hp4; reflexivity|]. split; [exact Hl9|]. rewrite Hl, Hl9. reflexivity.
Defined.
