(* ===== verification/PacketBuffer.v ===== *)
(** [packet_buffer] of src/btdownloader/torrent/packet_buffer.cpp: the packets of
    a uTP connection that were received out of order, or sent and not
    acknowledged, by their 16 bit sequence number; and that it is a map from
    sequence numbers to packets.

    The storage is an array of pointers, a number for each packet and [None] for
    the null pointer.  Indices are 32 bit unsigned integers that wrap.  Accesses
    out of the array are faults, [None] in the option monad.  The numbers from
    [m_first] to [m_last] are kept in slots that are distinct modulo the
    capacity. *)

From stdpp Require Import gmap.
From S2P Require Import Prelude.
From stdpp Require Import list.

Open Scope Z_scope.

Abbreviation u32 := (uint 32).

(** [compare_less_wrap] of src/btdownloader/torrent/utp_stream.cpp *)
Definition compare_less_wrap (lhs rhs mask : Z) : bool :=
  let dist_down := Z.land (u32 (lhs - rhs)) mask in
  let dist_up := Z.land (u32 (rhs - lhs)) mask in
  dist_up <? dist_down.

Abbreviation packet_ptr := (option Z) (only parsing).

Record packet_buffer := PacketBuffer {
  m_storage : list packet_ptr;
  m_capacity : Z;
  m_size : Z;
  m_first : Z;
  m_last : Z
}.

Definition new_packet_buffer : packet_buffer := PacketBuffer [] 0 0 0 0.

Definition with_first (pb : packet_buffer) (i : Z) : packet_buffer :=
  PacketBuffer (m_storage pb) (m_capacity pb) (m_size pb) i (m_last pb).

Definition with_last (pb : packet_buffer) (i : Z) : packet_buffer :=
  PacketBuffer (m_storage pb) (m_capacity pb) (m_size pb) (m_first pb) i.

Definition with_size (pb : packet_buffer) (n : Z) : packet_buffer :=
  PacketBuffer (m_storage pb) (m_capacity pb) n (m_first pb) (m_last pb).

Definition with_storage (pb : packet_buffer) (v : list packet_ptr) : packet_buffer :=
  PacketBuffer v (m_capacity pb) (m_size pb) (m_first pb) (m_last pb).

Definition size (pb : packet_buffer) : Z := m_size pb.
Definition empty (pb : packet_buffer) : bool := m_size pb =? 0.
Definition capacity (pb : packet_buffer) : Z := m_capacity pb.
Definition cursor (pb : packet_buffer) : Z := m_first pb.
Definition span (pb : packet_buffer) : Z := Z.land (u32 (m_last pb - m_first pb)) 0xffff.

(** [i & (m_capacity - 1)] *)
Definition masked (cap i : Z) : Z := Z.land i (u32 (cap - 1)).

Definition slot (pb : packet_buffer) (i : Z) : option packet_ptr :=
  (m_storage pb)⟦masked (m_capacity pb) i⟧.

Definition set_slot (pb : packet_buffer) (i : Z) (p : packet_ptr) : option packet_buffer :=
  v ← (m_storage pb)⟦masked (m_capacity pb) i := p⟧; Some (with_storage pb v).

(** the loop that doubles the capacity *)
Fixpoint double (fuel : nat) (new_size size : Z) : option Z :=
  if new_size <? size then
    match fuel with O => None | S fuel => double fuel (u32 (Z.shiftl new_size 1)) size end
  else Some new_size.

(** the loop that moves [n] packets, from [i] on *)
Fixpoint move_slots (n : nat) (pb : packet_buffer) (i new_size : Z) (v : list packet_ptr)
    : option (list packet_ptr) :=
  match n with
  | O => Some v
  | S n =>
      p ← slot pb i;
      v ← v⟦masked new_size i := p⟧;
      move_slots n pb (u32 (i + 1)) new_size v
  end.

Definition reserve (pb : packet_buffer) (size : Z) : option packet_buffer :=
  new_size ← double 32 (if m_capacity pb =? 0 then 16 else m_capacity pb) size;
  v ← move_slots (Z.to_nat (m_capacity pb)) pb (m_first pb) new_size
        (replicate (Z.to_nat new_size) None);
  Some (PacketBuffer v new_size (m_size pb) (m_first pb) (m_last pb)).

(** the empty slots from [i] downwards, up to the first one *)
Fixpoint free_space (fuel : nat) (pb : packet_buffer) (i free : Z) : option Z :=
  if i =? masked (m_capacity pb) (m_first pb) then Some free
  else
    match fuel with
    | O => None
    | S fuel =>
        p ← slot pb i;
        match p with
        | Some _ => Some free
        | None => free_space fuel pb (masked (m_capacity pb) (u32 (i - 1))) (u32 (free + 1))
        end
    end.

(** [insert] into a buffer that is not empty, before the packet is stored *)
Definition make_room (pb : packet_buffer) (idx : Z) : option packet_buffer :=
  let cap := m_capacity pb in
  let first := m_first pb in
  pb ← (if compare_less_wrap idx first 0xffff then
          free ← free_space (Z.to_nat cap) pb (masked cap (u32 (first - 1))) 0;
          let before := Z.land (u32 (first - idx)) 0xffff in
          pb ← (if free <? before then reserve pb (u32 (before + cap - free)) else Some pb);
          Some (with_first pb idx)
        else if u32 (first + cap) <=? idx then reserve pb (u32 (idx - first + 1))
        else if idx <? first then
          let wrapped := Z.land (u32 (first + cap)) 0xffff in
          if (wrapped <=? idx) && (cap <? 0xffff)
          then reserve pb (u32 (cap + (idx + 1 - wrapped)))
          else Some pb
        else Some pb);
  Some (if compare_less_wrap (m_last pb) (Z.land (u32 (idx + 1)) 0xffff) 0xffff
        then with_last pb (Z.land (u32 (idx + 1)) 0xffff) else pb).

(** the loops of [remove] that look for the next packet *)
Fixpoint skip_up (n : nat) (pb : packet_buffer) (i : Z) : option Z :=
  match n with
  | O => Some i
  | S n =>
      p ← slot pb i;
      match p with Some _ => Some i | None => skip_up n pb (u32 (i + 1)) end
  end.

Fixpoint skip_down (n : nat) (pb : packet_buffer) (i : Z) : option Z :=
  match n with
  | O => Some i
  | S n =>
      p ← slot pb i;
      match p with Some _ => Some i | None => skip_down n pb (u32 (i - 1)) end
  end.

(** also the packet that was removed *)
Definition remove (pb : packet_buffer) (idx : Z) : option (packet_buffer * packet_ptr) :=
  if u32 (m_first pb + m_capacity pb) <=? idx then Some (pb, None)
  else if compare_less_wrap idx (m_first pb) 0xffff then Some (pb, None)
  else
    old_value ← slot pb idx;
    pb ← set_slot pb idx None;
    let pb := match old_value with
              | Some _ =>
                  let pb := with_size pb (m_size pb - 1) in
                  if m_size pb =? 0 then with_last pb (m_first pb) else pb
              | None => pb
              end in
    let n := Z.to_nat (m_capacity pb) in
    pb ← (if (idx =? m_first pb) && negb (m_size pb =? 0) then
            i ← skip_up n pb (u32 (m_first pb + 1));
            Some (with_first pb (Z.land i 0xffff))
          else Some pb);
    pb ← (if (Z.land (u32 (idx + 1)) 0xffff =? m_last pb) && negb (m_size pb =? 0) then
            i ← skip_down n pb (u32 (m_last pb - 1));
            Some (with_last pb (Z.land (u32 (i + 1)) 0xffff))
          else Some pb);
    Some (pb, old_value).

(** also the packet that was replaced *)
Definition insert (pb : packet_buffer) (idx : Z) (value : packet_ptr)
    : option (packet_buffer * packet_ptr) :=
  match value with
  | None => remove pb idx
  | Some _ =>
      pb ← (if negb (m_size pb =? 0) then make_room pb idx
            else Some (with_last (with_first pb idx) (Z.land (u32 (idx + 1)) 0xffff)));
      pb ← (if m_capacity pb =? 0 then reserve pb 16 else Some pb);
      old_value ← slot pb idx;
      pb ← set_slot pb idx value;
      let pb := if m_size pb =? 0 then with_first pb idx else pb in
      let pb := match old_value with None => with_size pb (m_size pb + 1) | Some _ => pb end in
      Some (pb, old_value)
  end.

Definition at_ (pb : packet_buffer) (idx : Z) : option packet_ptr :=
  if u32 (m_first pb + m_capacity pb) <=? idx then Some None
  else if compare_less_wrap idx (m_first pb) 0xffff then Some None
  else slot pb idx.

(** a sequence number *)
Definition w16 (i : Z) : Z := i mod 2 ^ 16.

Lemma w16_range i : 0 ≤ w16 i < 2 ^ 16.
Proof. apply Z.mod_pos_bound. lia. Qed.

Lemma w16_small i : 0 ≤ i < 2 ^ 16 → w16 i = i.
Proof. apply Z.mod_small. Qed.

Lemma w16_add i n : w16 (i + n * 2 ^ 16) = w16 i.
Proof. unfold w16. rewrite Z.mod_add; lia. Qed.

Lemma w16_add_l i j : w16 (w16 i + j) = w16 (i + j).
Proof. unfold w16. by rewrite Zplus_mod_idemp_l. Qed.

Lemma w16_sub_l i j : w16 (w16 i - j) = w16 (i - j).
Proof. unfold w16. by rewrite Zminus_mod_idemp_l. Qed.

Lemma w16_sub_r i j : w16 (i - w16 j) = w16 (i - j).
Proof. unfold w16. by rewrite Zminus_mod_idemp_r. Qed.

Lemma w16_u32 i : Z.land (u32 i) 0xffff = w16 i.
Proof.
  change 0xffff with (Z.ones 16). rewrite Z.land_ones by lia. unfold uint, w16.
  change (2 ^ 32) with (2 ^ 16 * 2 ^ 16). rewrite Z.rem_mul_r by lia.
  rewrite Z.mul_comm, Z.mod_add by lia. by rewrite Z.mod_mod by lia.
Qed.

(** the difference of two numbers that are close *)
Lemma w16_diff i j : w16 (j + w16 (i - j)) = w16 i.
Proof. rewrite Z.add_comm, w16_add_l. f_equal. lia. Qed.

Lemma w16_opp i : w16 (- i) = if w16 i =? 0 then 0 else 2 ^ 16 - w16 i.
Proof.
  unfold w16. destruct (Z.eqb_spec (i mod 2 ^ 16) 0) as [H|H].
  - by rewrite Z.mod_opp_l_z.
  - by rewrite Z.mod_opp_l_nz.
Qed.

(** [lhs] is less than [rhs] when it is before it by less than half the numbers *)
Lemma compare_less_wrap_spec i j :
  compare_less_wrap i j 0xffff = (2 ^ 15 <? w16 (i - j)).
Proof.
  unfold compare_less_wrap. rewrite !w16_u32.
  replace (j - i) with (- (i - j)) by lia. rewrite w16_opp.
  pose proof (w16_range (i - j)). destruct (Z.eqb_spec (w16 (i - j)) 0) as [->|]; [done|].
  destruct (Z.ltb_spec (2 ^ 16 - w16 (i - j)) (w16 (i - j))), (Z.ltb_spec (2 ^ 15) (w16 (i - j)));
    try done; lia.
Qed.

(** ** Slots *)

(** a capacity that is not zero *)
Definition cap_ok (cap : Z) : Prop := ∃ k, 4 ≤ k ≤ 15 ∧ cap = 2 ^ k.

Lemma cap_range cap : cap_ok cap → 16 ≤ cap ≤ 2 ^ 15.
Proof.
  intros (k & Hk & ->). split.
  - change 16 with (2 ^ 4). apply Z.pow_le_mono_r; lia.
  - apply Z.pow_le_mono_r; lia.
Qed.

Lemma cap_divides cap n : cap_ok cap → 16 ≤ n → ∃ q, 0 < q ∧ 2 ^ n = cap * q.
Proof.
  intros (k & Hk & ->) Hn. exists (2 ^ (n - k)). split; [apply Z.pow_pos_nonneg; lia|]. rewrite <-Z.pow_add_r by lia. f_equal. lia.
Qed.

Lemma mod_cap cap i n : cap_ok cap → 16 ≤ n → (i mod 2 ^ n) mod cap = i mod cap.
Proof.
  intros Hc Hn. destruct (cap_divides cap n Hc Hn) as (q & Hq & ->). pose proof (cap_range cap Hc).
  rewrite Z.rem_mul_r by lia. rewrite Z.mul_comm, Z.mod_add by lia. by rewrite Z.mod_mod by lia.
Qed.

Lemma u32_mod_cap cap i : cap_ok cap → u32 i mod cap = i mod cap.
Proof. intros Hc. apply mod_cap; [done|lia]. Qed.

Lemma masked_mod cap i : cap_ok cap → masked cap i = i mod cap.
Proof.
  intros Hc. pose proof (cap_range cap Hc). destruct Hc as (k & Hk & ->). unfold masked.
  rewrite uint_small by lia.
  replace (2 ^ k - 1) with (Z.ones k) by (rewrite Z.ones_equiv; lia).
  apply Z.land_ones. lia.
Qed.

(** distinct offsets have distinct slots *)
Lemma slots_distinct cap f o o' :
  0 < cap → 0 ≤ o < cap → 0 ≤ o' < cap → (f + o) mod cap = (f + o') mod cap → o = o'.
Proof.
  intros Hc Ho Ho' H. pose proof (Z.div_mod (f + o) cap ltac:(lia)).
  pose proof (Z.div_mod (f + o') cap ltac:(lia)). rewrite H in *.
  assert (o - o' = cap * ((f + o) / cap - (f + o') / cap)) by lia.
  destruct (Z.lt_total ((f + o) / cap) ((f + o') / cap)) as [|[|]]; nia.
Qed.

(** The slots [st] hold [m], whose numbers are the [n] that follow [f]. *)
Record window (st : list packet_ptr) (cap f n : Z) (m : gmap Z Z) : Prop := {
  wi_cap : cap_ok cap;
  wi_size : vsize st = cap;
  wi_first : 0 ≤ f < 2 ^ 16;
  wi_span : 0 ≤ n ≤ cap;
  wi_slots o : 0 ≤ o < cap → st⟦(f + o) mod cap⟧ = Some (m !! w16 (f + o));
  wi_keys i : is_Some (m !! i) → 0 ≤ i < 2 ^ 16 ∧ w16 (i - f) < n
}.

Section window.
Context (st : list packet_ptr) (cap f n : Z) (m : gmap Z Z) (W : window st cap f n m).

Lemma window_cap : 16 ≤ cap ≤ 2 ^ 15.
Proof. apply cap_range, W. Qed.

Lemma window_outside o : n ≤ o < 2 ^ 16 → m !! w16 (f + o) = None.
Proof.
  intros Ho. apply eq_None_not_Some. intros Hs. apply (wi_keys _ _ _ _ _ W) in Hs as [_ H].
  rewrite w16_sub_l in H. replace (f + o - f) with o in H by lia.
  pose proof (wi_span _ _ _ _ _ W). rewrite w16_small in H; lia.
Qed.

Lemma window_get i : w16 (i - f) < cap → st⟦i mod cap⟧ = Some (m !! w16 i).
Proof.
  intros Hi. pose proof (w16_range (i - f)).
  pose proof (wi_slots _ _ _ _ _ W (w16 (i - f)) ltac:(lia)) as H'. rewrite w16_diff in H'.
  rewrite <-H'. f_equal. rewrite <-(mod_cap cap i 16) by (lia || eapply wi_cap, W).
  rewrite <-(mod_cap cap (f + _) 16) by (lia || eapply wi_cap, W). f_equal. symmetry. apply w16_diff.
Qed.

(** the window can start at later numbers that are not there *)
Lemma window_forward a :
  0 ≤ a ≤ n → (∀ o, 0 ≤ o < a → m !! w16 (f + o) = None) → window st cap (w16 (f + a)) (n - a) m.
Proof.
  intros Ha Hm. pose proof window_cap. pose proof (wi_span _ _ _ _ _ W) as Hn.
  pose proof (wi_first _ _ _ _ _ W) as Hf. split; [eapply wi_cap, W|eapply wi_size, W|apply w16_range|lia| |].
  - intros o Ho. rewrite w16_add_l.
    replace ((w16 (f + a) + o) mod cap) with ((f + (a + o)) mod cap).
    2: { rewrite <-(mod_cap cap _ 16), <-(mod_cap cap (w16 (f + a) + o) 16) by (lia || eapply wi_cap, W).
         f_equal. change (w16 (f + (a + o)) = w16 (w16 (f + a) + o)). rewrite w16_add_l. f_equal. lia. }
    replace (f + a + o) with (f + (a + o)) by lia.
    destruct (decide (a + o < cap)) as [Hl|Hl]; [by apply W; lia|].
    replace (f + (a + o)) with (f + (a + o - cap) + 1 * cap) at 1 by lia.
    rewrite Z.mod_add by lia. rewrite (wi_slots _ _ _ _ _ W) by lia.
    rewrite Hm by lia. symmetry. f_equal. apply window_outside. lia.
  - intros i Hi. destruct (wi_keys _ _ _ _ _ W i Hi) as [H1 H2]. split; [done|].
    pose proof (w16_range (i - f)).
    assert (a ≤ w16 (i - f)) as Hge.
    { destruct (decide (w16 (i - f) < a)) as [Hlt|]; [|lia].
      specialize (Hm (w16 (i - f)) ltac:(lia)). rewrite w16_diff, w16_small in Hm by done.
      rewrite Hm in Hi. by destruct Hi. }
    replace (w16 (i - w16 (f + a))) with (w16 (i - f) - a); [lia|].
    symmetry. rewrite <-(w16_small (w16 (i - f) - a)) by lia. rewrite w16_sub_l.
    unfold w16. rewrite Zminus_mod_idemp_r. f_equal. lia.
Qed.

(** or at earlier ones, for which there is room *)
Lemma window_back b : 0 ≤ b → b + n ≤ cap → window st cap (w16 (f - b)) (b + n) m.
Proof.
  intros Hb Hn. pose proof window_cap. pose proof (wi_span _ _ _ _ _ W) as Hs.
  pose proof (wi_first _ _ _ _ _ W) as Hf.
  split; [eapply wi_cap, W|eapply wi_size, W|apply w16_range|lia| |].
  - intros o Ho. rewrite w16_add_l. replace (f - b + o) with (f + (o - b)) by lia.
    replace ((w16 (f - b) + o) mod cap) with ((f + (o - b)) mod cap).
    2: { rewrite <-(mod_cap cap _ 16), <-(mod_cap cap (w16 (f - b) + o) 16) by (lia || eapply wi_cap, W).
         f_equal. change (w16 (f + (o - b)) = w16 (w16 (f - b) + o)). rewrite w16_add_l. f_equal. lia. }
    destruct (decide (b ≤ o)) as [Hl|Hl]; [by apply W; lia|].
    rewrite <-(Z.mod_add (f + (o - b)) 1 cap) by lia.
    replace (f + (o - b) + 1 * cap) with (f + (cap + o - b)) by lia.
    rewrite (wi_slots _ _ _ _ _ W), (window_outside (cap + o - b)) by lia. symmetry. f_equal.
    rewrite <-(w16_add _ 1). replace (f + (o - b) + 1 * 2 ^ 16) with (f + (2 ^ 16 + o - b)) by lia.
    apply window_outside. lia.
  - intros i Hi. destruct (wi_keys _ _ _ _ _ W i Hi) as [H1 H2]. split; [done|].
    pose proof (w16_range (i - f)).
    replace (w16 (i - w16 (f - b))) with (w16 (i - f) + b); [lia|].
    symmetry. rewrite <-(w16_small (w16 (i - f) + b)) by lia. rewrite w16_add_l.
    unfold w16. rewrite Zminus_mod_idemp_r. f_equal. lia.
Qed.

Lemma window_span n' :
  0 ≤ n' ≤ cap → (∀ i, is_Some (m !! i) → w16 (i - f) < n') → window st cap f n' m.
Proof.
  intros Hn Hk. split; [eapply wi_cap, W|eapply wi_size, W|eapply wi_first, W|done| |].
  - eapply wi_slots, W.
  - intros i Hi. split; [by eapply wi_keys|by apply Hk].
Qed.

Lemma window_set i p :
  0 ≤ i < 2 ^ 16 → w16 (i - f) < n →
  ∃ st', st⟦i mod cap := p⟧ = Some st' ∧
    window st' cap f n (match p with Some x => <[i := x]> m | None => delete i m end).
Proof.
  intros Hi Hd. pose proof window_cap. pose proof (wi_span _ _ _ _ _ W) as Hs.
  pose proof (w16_range (i - f)) as Hd'. set (m' := match p with Some _ => _ | None => _ end).
  assert (∀ j, m' !! j = if decide (j = i) then p else m !! j) as Hm'.
  { intros j. unfold m'. case_decide as Hj; destruct p; subst;
      by rewrite ?lookup_insert_eq, ?lookup_delete_eq, ?lookup_insert_ne, ?lookup_delete_ne by done. }
  destruct (vset_is_Some st (i mod cap) p) as [st' Hst].
  { rewrite (wi_size _ _ _ _ _ W). apply Z.mod_pos_bound. lia. }
  exists st'. split; [done|].
  split; [eapply wi_cap, W| |eapply wi_first, W|done| |].
  - rewrite (vset_size _ _ _ _ Hst). eapply wi_size, W.
  - intros o Ho. rewrite (vset_get _ _ _ _ _ Hst), Hm'.
    assert ((f + w16 (i - f)) mod cap = i mod cap) as Hslot.
    { rewrite <-(mod_cap cap _ 16), <-(mod_cap cap i 16) by (lia || eapply wi_cap, W).
      f_equal. apply w16_diff. }
    destruct (decide (o = w16 (i - f))) as [->|Hne].
    + rewrite Hslot, Z.eqb_refl, w16_diff, w16_small by done. by rewrite decide_True.
    + destruct (Z.eqb_spec ((f + o) mod cap) (i mod cap)) as [Heq|_].
      { destruct Hne. apply (slots_distinct cap f); [lia|lia|lia|by rewrite Hslot]. }
      rewrite decide_False; [by eapply wi_slots|]. intros <-. apply Hne.
      rewrite w16_sub_l. replace (f + o - f) with o by lia. rewrite w16_small; lia.
  - intros j. rewrite Hm'. case_decide as Hj; [by subst|]. eapply wi_keys, W.
Qed.
End window.

(** ** More slots *)

Lemma double_spec fuel cap n :
  cap_ok cap → 0 ≤ n ≤ 2 ^ 15 → 2 ^ 15 ≤ cap * 2 ^ Z.of_nat fuel →
  ∃ cap', double fuel cap n = Some cap' ∧ cap_ok cap' ∧ cap ≤ cap' ∧ n ≤ cap'.
Proof.
  revert cap. induction fuel as [|fuel IH]; intros cap Hc Hn Hf; cbn [double];
    pose proof (cap_range cap Hc); destruct (Z.ltb_spec cap n).
  - change (2 ^ Z.of_nat 0) with 1 in Hf. lia.
  - by exists cap.
  - rewrite Z.shiftl_mul_pow2 by lia. rewrite uint_small by lia.
    destruct (IH (cap * 2 ^ 1)) as (cap' & E & Hc' & Hle & Hn').
    + destruct Hc as (k & Hk & ->). exists (k + 1). rewrite Z.pow_add_r by lia. split; [|done].
      assert (2 ^ k < 2 ^ 15) as Hlt by lia. apply Z.pow_lt_mono_r_iff in Hlt; lia.
    + done.
    + rewrite Nat2Z.inj_succ, Z.pow_succ_r in Hf by lia. lia.
    + exists cap'. split; [done|]. split; [done|]. lia.
  - by exists cap.
Qed.

Lemma slot_spec pb i : cap_ok (m_capacity pb) → slot pb i = (m_storage pb)⟦i mod m_capacity pb⟧.
Proof. intros Hc. unfold slot. by rewrite masked_mod. Qed.

Lemma move_slots_spec pb new_size n k v :
  cap_ok (m_capacity pb) → cap_ok new_size → m_capacity pb ≤ new_size →
  vsize (m_storage pb) = m_capacity pb → 0 ≤ m_first pb < 2 ^ 16 →
  0 ≤ k → k + Z.of_nat n = m_capacity pb → vsize v = new_size →
  ∃ v', move_slots n pb (m_first pb + k) new_size v = Some v' ∧ vsize v' = new_size ∧
    ∀ o, 0 ≤ o < new_size →
      v'⟦(m_first pb + o) mod new_size⟧ =
        if decide (k ≤ o < m_capacity pb) then (m_storage pb)⟦(m_first pb + o) mod m_capacity pb⟧
        else v⟦(m_first pb + o) mod new_size⟧.
Proof.
  intros Hc Hc' Hle Hst Hf. pose proof (cap_range _ Hc). pose proof (cap_range _ Hc').
  revert k v. induction n as [|n IH]; intros k v Hk Hn Hv; cbn [move_slots].
  - exists v. split; [done|]. split; [done|]. intros o Ho. rewrite decide_False; [done|]. lia.
  - rewrite slot_spec by done.
    destruct (vget_is_Some (m_storage pb) ((m_first pb + k) mod m_capacity pb)) as [p Hp].
    { rewrite Hst. apply Z.mod_pos_bound. lia. }
    rewrite Hp. cbn. rewrite masked_mod by done.
    destruct (vset_is_Some v ((m_first pb + k) mod new_size) p) as [v1 Hv1].
    { rewrite Hv. apply Z.mod_pos_bound. lia. }
    rewrite Hv1. cbn. rewrite uint_small by lia. rewrite <-Z.add_assoc.
    destruct (IH (k + 1) v1) as (v' & E & Hv' & Hs); [lia|lia|by rewrite (vset_size _ _ _ _ Hv1)|].
    exists v'. split; [done|]. split; [done|]. intros o Ho. rewrite Hs by done.
    rewrite (vset_get _ _ _ _ _ Hv1). destruct (decide (o = k)) as [->|Hne].
    + rewrite decide_False by lia. rewrite Z.eqb_refl, decide_True by lia. by rewrite Hp.
    + destruct (Z.eqb_spec ((m_first pb + o) mod new_size) ((m_first pb + k) mod new_size)) as [Heq|_].
      { destruct Hne. apply (slots_distinct new_size (m_first pb)); lia. }
      destruct (decide (k + 1 ≤ o < m_capacity pb)), (decide (k ≤ o < m_capacity pb)); try done; lia.
Qed.

Abbreviation holds pb := (window (m_storage pb) (m_capacity pb) (m_first pb)).

Lemma reserve_spec pb n m size :
  holds pb n m → 0 ≤ size ≤ 2 ^ 15 →
  ∃ pb', reserve pb size = Some pb' ∧ holds pb' n m ∧ size ≤ m_capacity pb' ∧
    m_capacity pb ≤ m_capacity pb' ∧ m_first pb' = m_first pb ∧ m_last pb' = m_last pb ∧
    m_size pb' = m_size pb.
Proof.
  intros W Hs. pose proof (window_cap _ _ _ _ _ W) as Hcap. unfold reserve.
  rewrite (proj2 (Z.eqb_neq _ _)) by lia.
  destruct (double_spec 32 (m_capacity pb) size) as (cap' & -> & Hc' & Hle & Hsz);
    [eapply wi_cap, W|done|change (2 ^ Z.of_nat 32) with (2 ^ 32); lia|].
  cbn. pose proof (cap_range _ Hc').
  pose proof (wi_first _ _ _ _ _ W) as Hf.
  destruct (move_slots_spec pb cap' (Z.to_nat (m_capacity pb)) 0 (replicate (Z.to_nat cap') None))
    as (v & E & Hv & Hget); try done; try lia;
    [eapply wi_cap, W|eapply wi_size, W|rewrite vsize_replicate; lia|].
  rewrite Z.add_0_r in E. rewrite E. cbn. eexists. split; [done|]. cbn.
  split; [|done]. pose proof (wi_span _ _ _ _ _ W).
  split; [done|done|done|lia| |eapply wi_keys, W].
  intros o Ho. rewrite Hget by done. case_decide as Hin.
  - apply W. lia.
  - rewrite vget_replicate by (pose proof (Z.mod_pos_bound (m_first pb + o) cap' ltac:(lia)); lia).
    symmetry. f_equal. apply (window_outside _ _ _ _ _ W). lia.
Qed.

Lemma reserve_empty pb :
  m_capacity pb = 0 → 0 ≤ m_first pb < 2 ^ 16 →
  ∃ pb', reserve pb 16 = Some pb' ∧ holds pb' 0 ∅ ∧ m_first pb' = m_first pb ∧
    m_last pb' = m_last pb ∧ m_size pb' = m_size pb.
Proof.
  intros Hc Hf. unfold reserve. rewrite Hc. cbn -[Z.to_nat replicate Z.modulo].
  eexists. split; [done|]. cbn -[Z.to_nat replicate Z.modulo]. split; [|done].
  split; [by exists 4|done|done|lia| |].
  - intros o Ho. cbn [m_capacity m_storage m_first].
    pose proof (Z.mod_pos_bound (m_first pb + o) 16 ltac:(lia)).
    rewrite vget_replicate; [by rewrite lookup_empty|]. change (Z.of_nat (Z.to_nat 16)) with 16. lia.
  - intros i. rewrite lookup_empty. by intros [? ?].
Qed.

(** * The buffer *)

#[local] Arguments reserve : simpl never.
#[local] Arguments skip_up : simpl never.
#[local] Arguments skip_down : simpl never.

Abbreviation span16 pb := (w16 (m_last pb - m_first pb)).

(** [pb] holds the packets of [m] *)
Record packets (pb : packet_buffer) (m : gmap Z Z) : Prop := {
  pk_window : m_capacity pb ≠ 0 → holds pb (span16 pb) m;
  pk_new : m_capacity pb = 0 → m = ∅ ∧ m_first pb = 0;
  pk_size : m_size pb = Z.of_nat (base.size m);
  pk_last : 0 ≤ m_last pb < 2 ^ 16;
  pk_empty : m = ∅ → m_last pb = m_first pb;
  pk_ends : m ≠ ∅ → is_Some (m !! m_first pb) ∧ is_Some (m !! w16 (m_last pb - 1))
}.

Lemma packets_window pb m : packets pb m → m ≠ ∅ → holds pb (span16 pb) m ∧ 1 ≤ span16 pb.
Proof.
  intros P Hm. assert (m_capacity pb ≠ 0) as Hc by (intros Hc; by destruct (pk_new _ _ P Hc)).
  pose proof (pk_window _ _ P Hc) as W. split; [done|].
  destruct (pk_ends _ _ P Hm) as [H _]. apply (wi_keys _ _ _ _ _ W) in H as [_ H].
  rewrite Z.sub_diag in H. change (w16 0) with 0 in H. lia.
Qed.

(** the slots behind the last packet are free *)
Lemma free_space_spec pb n m fuel j :
  holds pb n m → is_Some (m !! m_first pb) → is_Some (m !! w16 (m_first pb + n - 1)) →
  0 ≤ j ≤ m_capacity pb - n → m_capacity pb - n - j < Z.of_nat fuel →
  free_space fuel pb ((m_first pb - 1 - j) mod m_capacity pb) j = Some (m_capacity pb - n).
Proof.
  intros W Hfirst Hlast. pose proof (window_cap _ _ _ _ _ W). pose proof (wi_cap _ _ _ _ _ W) as Hc.
  pose proof (wi_span _ _ _ _ _ W). pose proof (wi_first _ _ _ _ _ W).
  set (cap := m_capacity pb) in *. set (f := m_first pb) in *.
  assert (1 ≤ n).
  { apply (wi_keys _ _ _ _ _ W) in Hfirst as [_ Hf]. rewrite Z.sub_diag in Hf. change (w16 0) with 0 in Hf. lia. }
  assert (∀ j, (f - 1 - j) mod cap = (f + (cap - 1 - j)) mod cap) as Hmod.
  { intros i. rewrite <-(Z.mod_add (f - 1 - i) 1 cap) by lia. f_equal. lia. }
  revert j. induction fuel as [|fuel IH]; intros j Hj Hfuel; [lia|]. cbn [free_space].
  change (m_capacity pb) with cap. change (m_first pb) with f. rewrite masked_mod by done.
  destruct (Z.eqb_spec ((f - 1 - j) mod cap) (f mod cap)) as [Heq|Hne].
  - f_equal. rewrite Hmod in Heq. replace (f mod cap) with ((f + 0) mod cap) in Heq by (f_equal; lia).
    apply slots_distinct in Heq; lia.
  - rewrite slot_spec by done. change (m_capacity pb) with cap. rewrite Z.mod_mod by lia.
    rewrite Hmod. rewrite (wi_slots _ _ _ _ _ W) by lia. cbn.
    destruct (decide (j = cap - n)) as [->|Hlt].
    + replace (f + (cap - 1 - (cap - n))) with (f + n - 1) by lia. by destruct Hlast as [x ->].
    + rewrite (window_outside _ _ _ _ _ W) by lia. rewrite masked_mod by done.
      rewrite (uint_small 32 (j + 1)) by lia.
      replace (u32 ((f + (cap - 1 - j)) mod cap - 1) mod cap) with ((f - 1 - (j + 1)) mod cap).
      * apply IH; lia.
      * unfold uint. rewrite mod_cap by (done || lia). rewrite Zminus_mod_idemp_l.
        rewrite <-(Z.mod_add (f - 1 - (j + 1)) 1 cap) by lia. f_equal. lia.
Qed.

(** [idx] is less than half of the numbers away from the packets, and it is not a
    number that has wrapped while the window has not *)
Definition in_reach (pb : packet_buffer) (idx : Z) : Prop :=
  let d := w16 (idx - m_first pb) in
  (d < 2 ^ 15 ∧ (m_first pb ≤ idx ∨ 2 ^ 16 ≤ m_first pb + m_capacity pb)) ∨
  (2 ^ 15 < d ∧ 2 ^ 16 - d + span16 pb ≤ 2 ^ 15).

(** there is a slot for [idx], and [m_first] and [m_last] include it *)
Record roomy (pb : packet_buffer) (m : gmap Z Z) (idx : Z) : Prop := {
  ro_window : holds pb (span16 pb) m;
  ro_idx : w16 (idx - m_first pb) < span16 pb;
  ro_last : 0 ≤ m_last pb < 2 ^ 16;
  ro_first_in : is_Some (m !! m_first pb) ∨ m_first pb = idx;
  ro_last_in : is_Some (m !! w16 (m_last pb - 1)) ∨ w16 (m_last pb - 1) = idx
}.

(** the two cases of [make_room] *)
Lemma roomy_forward pb m idx :
  packets pb m → m ≠ ∅ → 0 ≤ idx < 2 ^ 16 → w16 (idx - m_first pb) < 2 ^ 15 →
  ∀ pb1, holds pb1 (span16 pb) m → w16 (idx - m_first pb) < m_capacity pb1 →
  m_first pb1 = m_first pb → m_last pb1 = m_last pb →
  roomy (if compare_less_wrap (m_last pb1) (w16 (idx + 1)) 0xffff
         then with_last pb1 (w16 (idx + 1)) else pb1) m idx.
Proof.
  intros P Hm Hi Hd pb1 W Hcap Hf Hl. destruct (packets_window _ _ P Hm) as [_ Hs].
  pose proof (w16_range (idx - m_first pb)). pose proof (wi_span _ _ _ _ _ W). rewrite <-Hf, <-Hl in *.
  set (d := w16 (idx - m_first pb1)) in *. set (s := span16 pb1) in *.
  pose proof (window_cap _ _ _ _ _ W).
  rewrite compare_less_wrap_spec.
  replace (w16 (m_last pb1 - w16 (idx + 1))) with (w16 (s - (d + 1))).
  2: { unfold s, d, w16. rewrite Zminus_mod_idemp_r, Zminus_mod_idemp_l, Zminus_mod, Zplus_mod_idemp_l.
       rewrite <-Zminus_mod. f_equal. lia. }
  destruct (pk_ends _ _ P Hm) as [He1 He2]. rewrite <-Hf in He1. rewrite <-Hl in He2.
  pose proof (pk_last _ _ P) as Hlr. rewrite <-Hl in Hlr.
  destruct (decide (d + 1 ≤ s)) as [Hle|Hlt].
  - rewrite (w16_small (s - (d + 1))) by lia. rewrite (proj2 (Z.ltb_ge _ _)) by lia.
    split; [done|fold d s; lia|done|auto|auto].
  - rewrite <-(w16_add _ 1), w16_small by lia. rewrite (proj2 (Z.ltb_lt _ _)) by lia.
    assert (w16 (w16 (idx + 1) - m_first pb1) = d + 1) as Hs'.
    { rewrite w16_sub_l. replace (idx + 1 - m_first pb1) with (idx - m_first pb1 + 1) by lia.
      rewrite <-w16_add_l. apply w16_small. fold d. lia. }
    split; cbn.
    + rewrite Hs'. apply (window_span _ _ _ _ _ W); [lia|]. intros i Hi'.
      destruct (wi_keys _ _ _ _ _ W i Hi'). lia.
    + rewrite Hs'. fold d. lia.
    + apply w16_range.
    + auto.
    + right. rewrite w16_sub_l. replace (idx + 1 - 1) with idx by lia. by apply w16_small.
Qed.

Lemma roomy_backward pb m idx :
  packets pb m → m ≠ ∅ → 0 ≤ idx < 2 ^ 16 →
  let b := 2 ^ 16 - w16 (idx - m_first pb) in
  2 ^ 15 < w16 (idx - m_first pb) → b + span16 pb ≤ 2 ^ 15 →
  ∀ pb1, holds pb1 (span16 pb) m → b + span16 pb ≤ m_capacity pb1 →
  m_first pb1 = m_first pb → m_last pb1 = m_last pb →
  roomy (with_first pb1 idx) m idx ∧ compare_less_wrap (m_last pb1) (w16 (idx + 1)) 0xffff = false.
Proof.
  intros P Hm Hi b Hd Hb pb1 W Hcap Hf Hl. destruct (packets_window _ _ P Hm) as [_ Hs].
  pose proof (w16_range (idx - m_first pb)). destruct (pk_ends _ _ P Hm) as [_ He].
  assert (idx = w16 (m_first pb - b)) as Hidx.
  { transitivity (w16 idx); [by rewrite w16_small|]. unfold b.
    rewrite <-(w16_add (m_first pb - _) 1), <-(w16_diff idx (m_first pb)). f_equal. lia. }
  assert (0 < b < 2 ^ 15) as Hb0 by lia. clearbody b.
  assert (w16 (m_last pb - idx) = b + span16 pb) as Hspan.
  { rewrite Hidx at 1. rewrite w16_sub_r.
    replace (m_last pb - (m_first pb - b)) with ((m_last pb - m_first pb) + b) by lia.
    rewrite <-w16_add_l, w16_small; lia. }
  split.
  - split; cbn; rewrite ?Hl, ?Hspan; [|rewrite Z.sub_diag; change (w16 0) with 0; lia|eapply pk_last, P|auto|auto].
    pose proof (window_back _ _ _ _ _ W b ltac:(lia) ltac:(lia)) as Wb. rewrite Hf, <-Hidx in Wb. exact Wb.
  - rewrite compare_less_wrap_spec, Hl. apply Z.ltb_ge.
    replace (w16 (m_last pb - w16 (idx + 1))) with (b + span16 pb - 1); [lia|].
    rewrite w16_sub_r. replace (m_last pb - (idx + 1)) with (m_last pb - idx - 1) by lia.
    rewrite <-(w16_sub_l (m_last pb - idx)), Hspan. symmetry. apply w16_small. lia.
Qed.

Lemma make_room_spec pb m idx :
  packets pb m → m ≠ ∅ → 0 ≤ idx < 2 ^ 16 → in_reach pb idx →
  ∃ pb', make_room pb idx = Some pb' ∧ roomy pb' m idx ∧ m_size pb' = m_size pb.
Proof.
  intros P Hm Hi Hreach. destruct (packets_window _ _ P Hm) as [W Hs].
  pose proof (window_cap _ _ _ _ _ W). pose proof (wi_span _ _ _ _ _ W).
  pose proof (wi_first _ _ _ _ _ W) as Hf. pose proof (wi_cap _ _ _ _ _ W) as Hc.
  pose proof (w16_range (idx - m_first pb)). destruct (pk_ends _ _ P Hm) as [He1 He2].
  unfold make_room. rewrite !w16_u32, compare_less_wrap_spec.
  destruct Hreach as [[Hd Hw]|[Hd Hb]].
  - rewrite (proj2 (Z.ltb_ge _ _)) by lia.
    assert (∀ pb1, holds pb1 (span16 pb) m → w16 (idx - m_first pb) < m_capacity pb1 →
      m_first pb1 = m_first pb → m_last pb1 = m_last pb → m_size pb1 = m_size pb →
      ∃ pb', Some (if compare_less_wrap (m_last pb1) (w16 (idx + 1)) 0xffff
                   then with_last pb1 (w16 (idx + 1)) else pb1) = Some pb' ∧
             roomy pb' m idx ∧ m_size pb' = m_size pb) as Hdone.
    { intros pb1 W1 Hc1 Hf1 Hl1 Hs1. eexists. split; [done|].
      split; [by apply (roomy_forward pb)|]. by destruct (compare_less_wrap _ _ _). }
    assert (w16 (idx - m_first pb) = if m_first pb <=? idx then idx - m_first pb
      else idx + 2 ^ 16 - m_first pb) as Hdist.
    { destruct (Z.leb_spec (m_first pb) idx); [apply w16_small; lia|].
      rewrite <-(w16_add _ 1), w16_small; lia. }
    rewrite (uint_small 32 (m_first pb + m_capacity pb)) by lia.
    destruct (Z.leb_spec (m_first pb + m_capacity pb) idx) as [Hx1|Hx1].
    + rewrite (proj2 (Z.leb_le _ _)) in Hdist by lia.
      destruct (reserve_spec pb _ m (idx - m_first pb + 1) W) as (pb1 & E & W1 & Hc1 & _ & Hf1 & Hl1 & Hs1);
        [lia|]. rewrite uint_small, E by lia. cbn. apply Hdone; try done; lia.
    + destruct (Z.ltb_spec idx (m_first pb)) as [Hx2|Hx2].
      2: { rewrite (proj2 (Z.leb_le _ _)) in Hdist by lia. cbn. apply Hdone; try done; lia. }
      rewrite (proj2 (Z.leb_gt _ _)) in Hdist by lia.
      replace (w16 (m_first pb + m_capacity pb)) with (m_first pb + m_capacity pb - 2 ^ 16).
      2: { rewrite <-(w16_add _ (-1)), w16_small; lia. }
      destruct (Z.leb_spec (m_first pb + m_capacity pb - 2 ^ 16) idx) as [Hx3|Hx3].
      * rewrite (proj2 (Z.ltb_lt _ 0xffff)) by lia. cbn [andb].
        destruct (reserve_spec pb _ m (u32 (m_capacity pb + (idx + 1 - (m_first pb + m_capacity pb - 2 ^ 16)))) W)
          as (pb1 & E & W1 & Hc1 & _ & Hf1 & Hl1 & Hs1); [rewrite uint_small; lia|].
        rewrite E. cbn. rewrite uint_small in Hc1 by lia. apply Hdone; try done; lia.
      * cbn. apply Hdone; try done; lia.
  - rewrite (proj2 (Z.ltb_lt _ _)) by lia. rewrite masked_mod by done.
    rewrite u32_mod_cap by done.
    replace (m_first pb - 1) with (m_first pb - 1 - 0) by lia.
    rewrite (free_space_spec pb (span16 pb) m); [|done|done| |lia|lia].
    2: { replace (w16 (m_first pb + span16 pb - 1)) with (w16 (m_last pb - 1)); [done|].
         by rewrite <-w16_sub_l, <-(w16_diff (m_last pb) (m_first pb)), w16_sub_l. }
    cbn. replace (w16 (m_first pb - idx)) with (2 ^ 16 - w16 (idx - m_first pb)).
    2: { replace (m_first pb - idx) with (- (idx - m_first pb)) by lia. rewrite w16_opp.
         rewrite (proj2 (Z.eqb_neq _ _)); lia. }
    set (b := 2 ^ 16 - w16 (idx - m_first pb)) in *.
    assert (∀ pb1, holds pb1 (span16 pb) m → b + span16 pb ≤ m_capacity pb1 →
      m_first pb1 = m_first pb → m_last pb1 = m_last pb → m_size pb1 = m_size pb →
      ∃ pb', Some (if compare_less_wrap (m_last (with_first pb1 idx)) (w16 (idx + 1)) 0xffff
                   then with_last (with_first pb1 idx) (w16 (idx + 1)) else with_first pb1 idx) = Some pb' ∧
             roomy pb' m idx ∧ m_size pb' = m_size pb) as Hdone.
    { intros pb1 W1 Hc1 Hf1 Hl1 Hs1. eexists. split; [done|]. change (m_last (with_first pb1 idx)) with (m_last pb1).
      destruct (roomy_backward pb m idx P Hm Hi Hd Hb pb1) as [Hr ->]; done. }
    destruct (Z.ltb_spec (m_capacity pb - span16 pb) b) as [Hx1|Hx1].
    + destruct (reserve_spec pb _ m (u32 (b + m_capacity pb - (m_capacity pb - span16 pb))) W)
        as (pb1 & E & W1 & Hc1 & _ & Hf1 & Hl1 & Hs1); [rewrite uint_small; lia|].
      rewrite E. cbn. rewrite uint_small in Hc1 by lia. apply Hdone; try done; lia.
    + cbn. apply Hdone; try done; lia.
Qed.

(** * Insertion *)

Lemma window_empty st cap f n f' n' :
  window st cap f n ∅ → 0 ≤ f' < 2 ^ 16 → 0 ≤ n' ≤ cap → window st cap f' n' ∅.
Proof.
  intros W Hf' Hn'. pose proof (window_cap _ _ _ _ _ W).
  split; [eapply wi_cap, W|eapply wi_size, W|done|done| |].
  - intros o Ho. rewrite lookup_empty.
    replace ((f' + o) mod cap) with ((f + (f' + o - f) mod cap) mod cap).
    + rewrite (wi_slots _ _ _ _ _ W); [by rewrite lookup_empty|]. apply Z.mod_pos_bound. lia.
    + rewrite Zplus_mod_idemp_r. f_equal. lia.
  - intros i. rewrite lookup_empty. by intros [? ?].
Qed.

Lemma slot_get pb n m i :
  holds pb n m → w16 (i - m_first pb) < m_capacity pb → slot pb i = Some (m !! w16 i).
Proof.
  intros W Hi. rewrite slot_spec by (eapply wi_cap, W). by apply (window_get _ _ _ _ _ W).
Qed.

Lemma set_slot_spec pb n m i p :
  holds pb n m → 0 ≤ i < 2 ^ 16 → w16 (i - m_first pb) < n →
  ∃ st, set_slot pb i p = Some (with_storage pb st) ∧
    window st (m_capacity pb) (m_first pb) n (match p with Some x => <[i := x]> m | None => delete i m end).
Proof.
  intros W Hi Hd. destruct (window_set _ _ _ _ _ W i p Hi Hd) as (st & E & W'). exists st.
  unfold set_slot. rewrite masked_mod by (eapply wi_cap, W). by rewrite E.
Qed.

(** [insert] once there is room *)
Definition store (pb : packet_buffer) (idx : Z) (value : packet_ptr) : option (packet_buffer * packet_ptr) :=
  old_value ← slot pb idx;
  pb ← set_slot pb idx value;
  let pb := if m_size pb =? 0 then with_first pb idx else pb in
  let pb := match old_value with None => with_size pb (m_size pb + 1) | Some _ => pb end in
  Some (pb, old_value).

Lemma store_spec pb m idx x :
  roomy pb m idx → 0 ≤ idx < 2 ^ 16 → m_size pb = Z.of_nat (base.size m) → (m = ∅ → m_first pb = idx) →
  ∃ pb', store pb idx (Some x) = Some (pb', m !! idx) ∧ packets pb' (<[idx := x]> m).
Proof.
  intros R Hi Hsz Hempty. pose proof (ro_window _ _ _ R) as W. pose proof (ro_idx _ _ _ R) as Hd.
  pose proof (window_cap _ _ _ _ _ W). pose proof (wi_span _ _ _ _ _ W).
  unfold store. rewrite (slot_get _ _ _ _ W), (w16_small idx) by lia. cbn.
  destruct (set_slot_spec _ _ _ idx (Some x) W Hi Hd) as (st & -> & W'). cbn.
  assert ((if m_size pb =? 0 then with_first (with_storage pb st) idx else with_storage pb st) =
          with_storage pb st) as ->.
  { destruct (Z.eqb_spec (m_size pb) 0) as [Hz|]; [|done]. rewrite Hsz in Hz.
    assert (m = ∅) as Hm by (apply map_size_empty_iff; lia). unfold with_first, with_storage. cbn.
    by rewrite (Hempty Hm). }
  eexists. split; [done|].
  assert (∀ pb', m_storage pb' = st → m_capacity pb' = m_capacity pb → m_first pb' = m_first pb →
    m_last pb' = m_last pb → m_size pb' = Z.of_nat (base.size (<[idx:=x]> m)) →
    packets pb' (<[idx:=x]> m)) as Hdone.
  { intros pb' Hst Hc Hf Hl Hs. assert (∀ j, is_Some (m !! j) ∨ j = idx → is_Some (<[idx:=x]> m !! j)) as Hin.
    { intros j Hj. destruct (decide (j = idx)) as [->|]; [by rewrite lookup_insert_eq|].
      rewrite lookup_insert_ne by done. naive_solver. }
    split; rewrite ?Hst, ?Hc, ?Hf, ?Hl; try done.
    - lia.
    - eapply ro_last, R.
    - intros He. by apply insert_non_empty in He.
    - intros _. split; apply Hin; apply R. }
  rewrite map_size_insert in Hdone. destruct (m !! idx); apply Hdone; cbn; try done; unfold id; lia.
Qed.

Lemma roomy_reserved pb m idx :
  m = ∅ → packets pb m → 0 ≤ idx < 2 ^ 16 →
  let pb1 := with_last (with_first pb idx) (w16 (idx + 1)) in
  ∃ pb2, (if m_capacity pb1 =? 0 then reserve pb1 16 else Some pb1) = Some pb2 ∧ roomy pb2 m idx ∧
    m_size pb2 = m_size pb ∧ m_first pb2 = idx.
Proof.
  intros -> P Hi pb1.
  assert (w16 (w16 (idx + 1) - idx) = 1) as Hspan.
  { rewrite w16_sub_l. replace (idx + 1 - idx) with 1 by lia. done. }
  assert (∀ pb2 n, holds pb2 n ∅ → m_first pb2 = idx → m_last pb2 = w16 (idx + 1) → roomy pb2 ∅ idx) as Hdone.
  { intros pb2 n W Hf Hl. pose proof (window_cap _ _ _ _ _ W).
    split; rewrite ?Hf, ?Hl, ?Hspan, ?Z.sub_diag; [|done|apply w16_range|auto|].
    - apply (window_empty _ _ _ _ _ _ W); lia.
    - right. rewrite w16_sub_l. replace (idx + 1 - 1) with idx by lia. by apply w16_small. }
  change (m_capacity pb1) with (m_capacity pb). destruct (Z.eqb_spec (m_capacity pb) 0) as [Hc|Hc].
  - destruct (reserve_empty pb1) as (pb2 & E & W & Hf & Hl & Hs); [done|done|]. exists pb2.
    split; [done|]. split; [by eapply Hdone|]. by split.
  - exists pb1. split; [done|]. split; [|done]. eapply Hdone; [|done|done].
    pose proof (pk_window _ _ P Hc) as W. pose proof (wi_span _ _ _ _ _ W) as Hn.
    exact (window_empty _ _ _ _ _ _ W Hi Hn).
Qed.

Lemma packets_size pb m : packets pb m → (m_size pb =? 0) = bool_decide (m = ∅).
Proof.
  intros P. rewrite (pk_size _ _ P). apply eq_bool_prop_intro. rewrite bool_decide_spec, Is_true_true, Z.eqb_eq.
  rewrite <-(map_size_empty_iff m). lia.
Qed.

Lemma insert_packet pb m idx x :
  packets pb m → 0 ≤ idx < 2 ^ 16 → (m ≠ ∅ → in_reach pb idx) →
  ∃ pb', insert pb idx (Some x) = Some (pb', m !! idx) ∧ packets pb' (<[idx := x]> m).
Proof.
  intros P Hi Hr. pose proof (pk_size _ _ P) as Hsz. unfold insert. rewrite (packets_size _ _ P).
  case_bool_decide as Hm; cbn [negb].
  - rewrite w16_u32. cbn [mbind option_bind].
    destruct (roomy_reserved _ _ _ Hm P Hi) as (pb2 & E & R & Hs & Hf). rewrite E. cbn [mbind option_bind].
    apply store_spec; try done. by rewrite Hs.
  - destruct (make_room_spec _ _ _ P Hm Hi (Hr Hm)) as (pb1 & -> & R & Hs). cbn [mbind option_bind].
    pose proof (window_cap _ _ _ _ _ (ro_window _ _ _ R)). rewrite (proj2 (Z.eqb_neq _ _)) by lia.
    cbn [mbind option_bind]. apply store_spec; try done. by rewrite Hs.
Qed.

(** * Lookup and removal *)

(** the numbers [at] and [remove] do not mistake for another one *)
Definition addressed (pb : packet_buffer) (idx : Z) : Prop :=
  let d := w16 (idx - m_first pb) in
  d < m_capacity pb ∨ 2 ^ 15 < d ∨ m_first pb ≤ idx.

(** the two guards of [at] and [remove] *)
Lemma guards_spec pb m idx :
  packets pb m → m_capacity pb ≠ 0 → 0 ≤ idx < 2 ^ 16 → addressed pb idx →
  if (u32 (m_first pb + m_capacity pb) <=? idx) || compare_less_wrap idx (m_first pb) 0xffff
  then m !! idx = None else w16 (idx - m_first pb) < m_capacity pb.
Proof.
  intros P Hcap Hi Ha. pose proof (pk_window _ _ P Hcap) as W. pose proof (window_cap _ _ _ _ _ W).
  pose proof (wi_first _ _ _ _ _ W). pose proof (wi_span _ _ _ _ _ W). pose proof (w16_range (idx - m_first pb)).
  assert (span16 pb ≤ w16 (idx - m_first pb) → m !! idx = None) as Hout.
  { intros Hd. rewrite <-(w16_small idx), <-(w16_diff idx (m_first pb)) by done.
    apply (window_outside _ _ _ _ _ W). lia. }
  rewrite uint_small, compare_less_wrap_spec by lia.
  destruct (Z.leb_spec (m_first pb + m_capacity pb) idx) as [Hx|Hx]; cbn [orb].
  - apply Hout. rewrite (w16_small (idx - _)); lia.
  - destruct (Z.ltb_spec (2 ^ 15) (w16 (idx - m_first pb))) as [Hy|Hy]; [apply Hout; lia|].
    destruct Ha as [Ha|[Ha|Ha]]; [lia|lia|]. rewrite w16_small; lia.
Qed.

Lemma skip_up_packet pb n m k a e :
  holds pb n m → 0 ≤ a ≤ e → e < m_capacity pb → e - a < Z.of_nat k → is_Some (m !! w16 (m_first pb + e)) →
  ∃ b, skip_up k pb (m_first pb + a) = Some (m_first pb + b) ∧ a ≤ b ≤ e ∧
    is_Some (m !! w16 (m_first pb + b)) ∧ ∀ o, a ≤ o < b → m !! w16 (m_first pb + o) = None.
Proof.
  intros W. pose proof (window_cap _ _ _ _ _ W). pose proof (wi_first _ _ _ _ _ W).
  revert a. induction k as [|k IH]; intros a Ha He Hk Hs; [lia|]. unfold skip_up; fold skip_up.
  rewrite (slot_get _ _ _ _ W); cbn [mbind option_bind].
  2: { replace (m_first pb + a - m_first pb) with a by lia. rewrite w16_small; lia. }
  destruct (m !! w16 (m_first pb + a)) as [x|] eqn:Hx.
  - exists a. split; [done|]. split; [lia|]. split; [by rewrite Hx|]. lia.
  - assert (a ≠ e) as Hne by (intros ->; rewrite Hx in Hs; by destruct Hs).
    rewrite uint_small by lia. rewrite <-Z.add_assoc.
    destruct (IH (a + 1)) as (b & -> & Hb & Hs' & Hn); [lia|lia|lia|done|].
    exists b. split; [done|]. split; [lia|]. split; [done|]. intros o Ho.
    destruct (decide (o = a)) as [->|]; [done|]. apply Hn. lia.
Qed.

Lemma w16_of_u32 i : w16 (u32 i) = w16 i.
Proof.
  unfold uint, w16. change (2 ^ 32) with (2 ^ 16 * 2 ^ 16). rewrite Z.rem_mul_r by lia.
  rewrite Z.mul_comm, Z.mod_add by lia. by rewrite Z.mod_mod by lia.
Qed.

Lemma u32_sub i j : u32 (u32 i - j) = u32 (i - j).
Proof. unfold uint. by rewrite Zminus_mod_idemp_l. Qed.

Lemma skip_down_packet pb n m k j a :
  holds pb n m → w16 (j - m_first pb) = a → a < m_capacity pb → a < Z.of_nat k → is_Some (m !! m_first pb) →
  ∃ b, skip_down k pb (u32 j) = Some (u32 (j - b)) ∧ 0 ≤ b ≤ a ∧ is_Some (m !! w16 (j - b)) ∧
    ∀ o, 0 ≤ o < b → m !! w16 (j - o) = None.
Proof.
  intros W. revert j a. induction k as [|k IH]; intros j a Ha Hc Hk Hs; [pose proof (w16_range (j - m_first pb)); lia|].
  unfold skip_down; fold skip_down. pose proof (w16_range (j - m_first pb)). pose proof (window_cap _ _ _ _ _ W).
  rewrite (slot_get _ _ _ _ W), w16_of_u32; cbn [mbind option_bind].
  2: { by rewrite <-w16_sub_l, w16_of_u32, w16_sub_l, Ha. }
  destruct (m !! w16 j) as [x|] eqn:Hx.
  - exists 0. rewrite Z.sub_0_r. split; [done|]. split; [lia|]. split; [by rewrite Hx|]. lia.
  - assert (a ≠ 0) as Hne.
    { intros ->. rewrite <-(w16_diff j (m_first pb)), Ha, Z.add_0_r, w16_small in Hx by (eapply wi_first, W).
      rewrite Hx in Hs. by destruct Hs. }
    rewrite u32_sub. destruct (IH (j - 1) (a - 1)) as (b & -> & Hb & Hs' & Hn); [|lia|lia|done|].
    + replace (j - 1 - m_first pb) with (j - m_first pb - 1) by lia. rewrite <-w16_sub_l, Ha. apply w16_small. lia.
    + exists (b + 1). replace (j - (b + 1)) with (j - 1 - b) by lia. split; [done|]. split; [lia|].
      split; [done|]. intros o Ho. destruct (decide (o = 0)) as [->|]; [by rewrite Z.sub_0_r|].
      replace (j - o) with (j - 1 - (o - 1)) by lia. apply Hn. lia.
Qed.

Lemma first_moved pb n m :
  holds pb n m → m ≠ ∅ → m !! m_first pb = None →
  ∃ a, skip_up (Z.to_nat (m_capacity pb)) pb (u32 (m_first pb + 1)) = Some (m_first pb + a) ∧ 0 ≤ a ≤ n ∧
    is_Some (m !! w16 (m_first pb + a)) ∧ holds (with_first pb (w16 (m_first pb + a))) (n - a) m.
Proof.
  intros W Hm Hf. pose proof (window_cap _ _ _ _ _ W). pose proof (wi_first _ _ _ _ _ W).
  pose proof (wi_span _ _ _ _ _ W). apply map_choose in Hm as (i & x & Hi).
  destruct (wi_keys _ _ _ _ _ W i (mk_is_Some _ _ Hi)) as [Hr Hd]. pose proof (w16_range (i - m_first pb)).
  set (e := w16 (i - m_first pb)) in *.
  assert (w16 (m_first pb + e) = i) as He by (unfold e; by rewrite w16_diff, w16_small).
  assert (e ≠ 0). { intros H0'. rewrite H0', Z.add_0_r, w16_small in He by done. congruence. }
  rewrite uint_small by lia.
  destruct (skip_up_packet pb n m (Z.to_nat (m_capacity pb)) 1 e W) as (a & E & Ha & Hs & Hn);
    [lia|lia|lia|by rewrite He, Hi|].
  exists a. split; [done|]. split; [lia|]. split; [done|]. apply (window_forward _ _ _ _ _ W); [lia|].
  intros o Ho. destruct (decide (o = 0)) as [->|]; [|apply Hn; lia]. by rewrite Z.add_0_r, w16_small.
Qed.

Lemma last_moved pb m :
  holds pb (span16 pb) m → is_Some (m !! m_first pb) →
  ∃ i pb', skip_down (Z.to_nat (m_capacity pb)) pb (u32 (m_last pb - 1)) = Some i ∧
    pb' = with_last pb (Z.land (u32 (i + 1)) 0xffff) ∧
    holds pb' (span16 pb') m ∧ is_Some (m !! w16 (m_last pb' - 1)).
Proof.
  intros W Hf. pose proof (window_cap _ _ _ _ _ W). pose proof (wi_span _ _ _ _ _ W).
  destruct (wi_keys _ _ _ _ _ W _ Hf) as [Hfr Hn]. rewrite Z.sub_diag in Hn. change (w16 0) with 0 in Hn.
  set (s := span16 pb) in *.
  destruct (skip_down_packet pb s m (Z.to_nat (m_capacity pb)) (m_last pb - 1) (s - 1) W)
    as (b & E & Hb & Hs & Hnone); [|lia|lia|done|].
  { replace (m_last pb - 1 - m_first pb) with (m_last pb - m_first pb - 1) by lia.
    rewrite <-(w16_sub_l (m_last pb - _)). apply w16_small. fold s. pose proof (w16_range (m_last pb - m_first pb)). lia. }
  eexists _, _. split; [done|]. split; [done|]. cbn. rewrite w16_u32, <-w16_add_l, w16_of_u32, w16_add_l.
  replace (m_last pb - 1 - b + 1) with (m_last pb - b) by lia. rewrite !w16_sub_l.
  replace (m_last pb - b - m_first pb) with (m_last pb - m_first pb - b) by lia.
  rewrite <-(w16_sub_l (m_last pb - m_first pb)). fold s. rewrite (w16_small (s - b)) by lia.
  split; [|by replace (m_last pb - b - 1) with (m_last pb - 1 - b) by lia].
  apply (window_span _ _ _ _ _ W); [lia|]. intros i Hi. destruct (wi_keys _ _ _ _ _ W i Hi) as [Hir Hid].
  destruct (decide (w16 (i - m_first pb) < s - b)) as [|Hge]; [done|]. exfalso.
  pose proof (Hnone (s - 1 - w16 (i - m_first pb)) ltac:(lia)) as Hno.
  replace (m_last pb - 1 - (s - 1 - w16 (i - m_first pb))) with (w16 (i - m_first pb) + m_last pb - s) in Hno by lia.
  unfold s in Hno. rewrite w16_sub_r in Hno.
  replace (w16 (i - m_first pb) + m_last pb - (m_last pb - m_first pb)) with (m_first pb + w16 (i - m_first pb)) in Hno by lia.
  rewrite w16_diff, w16_small in Hno by done. rewrite Hno in Hi. by destruct Hi.
Qed.

Lemma window_any st cap f n n' m :
  window st cap f n m → n ≤ n' ≤ cap → window st cap f n' m.
Proof.
  intros W Hn. pose proof (wi_span _ _ _ _ _ W). apply (window_span _ _ _ _ _ W); [lia|].
  intros i Hi. destruct (wi_keys _ _ _ _ _ W i Hi). lia.
Qed.

Lemma clear_slot pb n m idx :
  holds pb n m → 0 ≤ idx < 2 ^ 16 → w16 (idx - m_first pb) < m_capacity pb →
  ∃ st, set_slot pb idx None = Some (with_storage pb st) ∧ holds (with_storage pb st) n (delete idx m).
Proof.
  intros W Hi Hd. pose proof (wi_span _ _ _ _ _ W).
  pose proof (window_any _ _ _ _ (m_capacity pb) _ W ltac:(lia)) as Wc.
  destruct (set_slot_spec _ _ _ idx None Wc Hi Hd) as (st & E & W'). exists st. split; [done|].
  apply (window_span _ _ _ _ _ W'); [done|]. intros i Hs. apply (wi_keys _ _ _ _ _ W).
  destruct Hs as [x Hs]. apply lookup_delete_Some in Hs as [_ Hs]. by eexists.
Qed.

(** what [remove] has to repair: the packet at [idx] is gone *)
Record trimmed (pb : packet_buffer) (m : gmap Z Z) (idx : Z) : Prop := {
  tr_window : holds pb (span16 pb) m;
  tr_size : m_size pb = Z.of_nat (base.size m);
  tr_last : 0 ≤ m_last pb < 2 ^ 16;
  tr_some : m ≠ ∅;
  tr_first_in : is_Some (m !! m_first pb) ∨ m_first pb = idx ∧ m !! idx = None;
  tr_last_in : is_Some (m !! w16 (m_last pb - 1)) ∨ w16 (m_last pb - 1) = idx
}.

Lemma trim_first pb m idx :
  trimmed pb m idx → m !! idx = None →
  ∃ pb', (if (idx =? m_first pb) && negb (m_size pb =? 0) then
            i ← skip_up (Z.to_nat (m_capacity pb)) pb (u32 (m_first pb + 1));
            Some (with_first pb (Z.land i 0xffff))
          else Some pb) = Some pb' ∧
    trimmed pb' m idx ∧ is_Some (m !! m_first pb') ∧ m_capacity pb' = m_capacity pb.
Proof.
  intros T Hn. pose proof (tr_window _ _ _ T) as W. pose proof (tr_some _ _ _ T) as Hm.
  assert (m_size pb ≠ 0).
  { rewrite (tr_size _ _ _ T). pose proof (map_size_non_empty_iff m) as [_ H]. specialize (H Hm). lia. }
  rewrite (proj2 (Z.eqb_neq (m_size pb) 0)) by done. rewrite andb_true_r.
  destruct (Z.eqb_spec idx (m_first pb)) as [Hf|Hf].
  - rewrite Hf in Hn. destruct (first_moved _ _ _ W Hm Hn) as (a & -> & Ha & Hs & W'). cbn [mbind option_bind].
    pose proof (window_cap _ _ _ _ _ W). pose proof (wi_first _ _ _ _ _ W). pose proof (wi_span _ _ _ _ _ W).
    replace (Z.land (m_first pb + a) 0xffff) with (w16 (m_first pb + a)).
    2: { rewrite <-w16_u32. by rewrite uint_small by lia. }
    eexists. split; [done|]. split; [|by split].
    assert (span16 (with_first pb (w16 (m_first pb + a))) = span16 pb - a) as Hsp.
    { cbn. rewrite w16_sub_r. replace (m_last pb - (m_first pb + a)) with (m_last pb - m_first pb - a) by lia.
      rewrite <-(w16_sub_l (m_last pb - m_first pb)). apply w16_small.
      pose proof (w16_range (m_last pb - m_first pb)). lia. }
    split; [by rewrite Hsp|exact (tr_size _ _ _ T)|exact (tr_last _ _ _ T)|done|by left|exact (tr_last_in _ _ _ T)].
  - exists pb. split; [done|]. split; [done|]. split; [|done].
    destruct (tr_first_in _ _ _ T) as [|[? _]]; [done|congruence].
Qed.

Lemma trim_last pb m idx :
  trimmed pb m idx → is_Some (m !! m_first pb) → 0 ≤ idx < 2 ^ 16 →
  ∃ pb', (if (Z.land (u32 (idx + 1)) 0xffff =? m_last pb) && negb (m_size pb =? 0) then
            i ← skip_down (Z.to_nat (m_capacity pb)) pb (u32 (m_last pb - 1));
            Some (with_last pb (Z.land (u32 (i + 1)) 0xffff))
          else Some pb) = Some pb' ∧ packets pb' m.
Proof.
  intros T Hs Hi. pose proof (tr_window _ _ _ T) as W. pose proof (tr_some _ _ _ T) as Hm.
  pose proof (window_cap _ _ _ _ _ W).
  assert (m_size pb ≠ 0).
  { rewrite (tr_size _ _ _ T). pose proof (map_size_non_empty_iff m) as [_ H']. specialize (H' Hm). lia. }
  rewrite (proj2 (Z.eqb_neq (m_size pb) 0)) by done. rewrite andb_true_r, w16_u32.
  destruct (Z.eqb_spec (w16 (idx + 1)) (m_last pb)) as [Hl|Hl].
  - destruct (last_moved _ _ W Hs) as (i & pb' & -> & E & W' & Hl'). cbn [mbind option_bind].
    rewrite <-E. exists pb'. split; [done|].
    assert (m_capacity pb' = m_capacity pb ∧ m_first pb' = m_first pb ∧ m_size pb' = m_size pb ∧
      0 ≤ m_last pb' < 2 ^ 16) as (Hc & Hf & Hsz & Hlr).
    { subst pb'. split; [done|]. split; [done|]. split; [done|]. cbn. rewrite w16_u32. apply w16_range. }
    split; [done|lia|by rewrite Hsz, (tr_size _ _ _ T)|done|done|]. intros _. by rewrite Hf.
  - exists pb. split; [done|]. split; [done|lia|exact (tr_size _ _ _ T)|exact (tr_last _ _ _ T)|done|]. intros _. split; [done|].
    destruct (tr_last_in _ _ _ T) as [|Hx]; [done|]. destruct Hl. subst idx. rewrite w16_add_l.
    replace (m_last pb - 1 + 1) with (m_last pb) by lia. exact (w16_small _ (tr_last _ _ _ T)).
Qed.

(** the guards of the two loops are false when nothing was removed *)
Lemma nothing_removed pb m idx :
  packets pb m → m !! idx = None → 0 ≤ idx < 2 ^ 16 →
  (idx =? m_first pb) && negb (m_size pb =? 0) = false ∧
  (Z.land (u32 (idx + 1)) 0xffff =? m_last pb) && negb (m_size pb =? 0) = false.
Proof.
  intros P Hn Hi. rewrite w16_u32, (packets_size _ _ P). case_bool_decide as Hm; [by rewrite !andb_false_r|].
  destruct (pk_ends _ _ P Hm) as [Hf Hl]. rewrite !andb_true_r. split; apply Z.eqb_neq; intros He.
  - rewrite <-He, Hn in Hf. by destruct Hf.
  - rewrite <-He, w16_sub_l in Hl. replace (idx + 1 - 1) with idx in Hl by lia.
    rewrite w16_small, Hn in Hl by done. by destruct Hl.
Qed.

(** and the last packet leaves an empty buffer *)
Lemma last_removed pb1 n m idx :
  holds pb1 n m → m = ∅ → m_size pb1 = 0 →
  let pb := with_last pb1 (m_first pb1) in
  (idx =? m_first pb) && negb (m_size pb =? 0) = false ∧
  (Z.land (u32 (idx + 1)) 0xffff =? m_last pb) && negb (m_size pb =? 0) = false ∧ packets pb m.
Proof.
  intros W -> Hs pb. subst pb. cbn. rewrite Hs, !andb_false_r. split; [done|]. split; [done|].
  pose proof (window_cap _ _ _ _ _ W). split; cbn; try done.
  - intros _. rewrite Z.sub_diag. change (w16 0) with 0. apply (window_empty _ _ _ _ _ _ W); [eapply wi_first, W|lia].
  - lia.
  - eapply wi_first, W.
Qed.

Lemma size_delete (m : gmap Z Z) idx x :
  m !! idx = Some x → Z.of_nat (base.size (delete idx m)) = Z.of_nat (base.size m) - 1.
Proof.
  intros Hx. rewrite <-(insert_delete_id m idx x Hx) at 2.
  rewrite map_size_insert_None by apply lookup_delete_eq. lia.
Qed.

Lemma removed_trimmed pb m idx x pb1 :
  packets pb m → m !! idx = Some x → delete idx m ≠ ∅ → holds pb1 (span16 pb) (delete idx m) →
  m_first pb1 = m_first pb → m_last pb1 = m_last pb → m_size pb1 = m_size pb - 1 →
  trimmed pb1 (delete idx m) idx.
Proof.
  intros P Hx Hm W Hf Hl Hs. assert (m ≠ ∅) as Hm0 by (intros ->; by rewrite lookup_empty in Hx).
  destruct (pk_ends _ _ P Hm0) as [He1 He2]. split.
  - rewrite <-Hf, <-Hl in W. exact W.
  - by rewrite Hs, (pk_size _ _ P), (size_delete _ _ _ Hx).
  - rewrite Hl. eapply pk_last, P.
  - done.
  - rewrite Hf. destruct (decide (idx = m_first pb)) as [->|]; [right; by rewrite lookup_delete_eq|].
    left. by rewrite lookup_delete_ne.
  - rewrite Hl. destruct (decide (idx = w16 (m_last pb - 1))) as [->|]; [by right|].
    left. by rewrite lookup_delete_ne.
Qed.

(** the slot of [idx], past the guards *)
Lemma slot_reached pb m idx :
  packets pb m → m_capacity pb ≠ 0 → 0 ≤ idx < 2 ^ 16 → (m ≠ ∅ → w16 (idx - m_first pb) < m_capacity pb) →
  slot pb idx = Some (m !! idx) ∧
  ∃ st, set_slot pb idx None = Some (with_storage pb st) ∧ holds (with_storage pb st) (span16 pb) (delete idx m).
Proof.
  intros P Hc Hi Hd. pose proof (pk_window _ _ P Hc) as W. destruct (decide (m = ∅)) as [->|Hm].
  - pose proof (window_cap _ _ _ _ _ W).
    assert (holds (with_first pb idx) (span16 pb) ∅) as W' by
      (apply (window_empty _ _ _ _ _ _ W); [done|eapply wi_span, W]).
    assert (w16 (idx - m_first (with_first pb idx)) < m_capacity (with_first pb idx)) as Hd'.
    { cbn. rewrite Z.sub_diag. change (w16 0) with 0. lia. }
    split; [by apply (slot_get _ _ _ _ W')|].
    destruct (clear_slot _ _ _ _ W' Hi Hd') as (st & E & Ws). exists st.
    unfold set_slot in *. cbn [with_first m_storage m_capacity] in E.
    destruct (vset _ _ _) as [v|]; [|done]. split; [apply (f_equal (option_map m_storage)) in E; cbn in E; injection E as ->; done|].
    rewrite delete_empty in *. apply (window_empty _ _ _ _ _ _ Ws); [eapply wi_first, W|eapply wi_span, W].
  - specialize (Hd Hm). split; [|by apply clear_slot].
    rewrite (slot_get _ _ _ _ W Hd). by rewrite w16_small.
Qed.

Lemma guards_passed pb m idx :
  packets pb m → m_capacity pb ≠ 0 → 0 ≤ idx < 2 ^ 16 → (m ≠ ∅ → addressed pb idx) →
  if (u32 (m_first pb + m_capacity pb) <=? idx) || compare_less_wrap idx (m_first pb) 0xffff
  then m !! idx = None else m ≠ ∅ → w16 (idx - m_first pb) < m_capacity pb.
Proof.
  intros P Hc Hi Ha. destruct (decide (m = ∅)) as [->|Hm].
  - destruct (_ || _); [apply lookup_empty|done].
  - pose proof (guards_spec _ _ _ P Hc Hi (Ha Hm)) as G. destruct (_ || _); [done|by intros _].
Qed.

Lemma new_guard pb m idx :
  packets pb m → m_capacity pb = 0 → 0 ≤ idx → (u32 (m_first pb + m_capacity pb) <=? idx) = true ∧ m = ∅.
Proof.
  intros P Hc Hi. destruct (pk_new _ _ P Hc) as [-> ->]. rewrite Hc. change (u32 (0 + 0)) with 0.
  split; [by apply Z.leb_le|done].
Qed.

Lemma at_spec pb m idx :
  packets pb m → 0 ≤ idx < 2 ^ 16 → (m ≠ ∅ → addressed pb idx) → at_ pb idx = Some (m !! idx).
Proof.
  intros P Hi Ha. unfold at_. destruct (decide (m_capacity pb = 0)) as [Hc|Hc].
  - destruct (new_guard _ _ idx P Hc) as [-> ->]; [lia|]. by rewrite lookup_empty.
  - pose proof (guards_passed _ _ _ P Hc Hi Ha) as G.
    destruct (_ <=? idx); [|cbn [orb] in G; destruct (compare_less_wrap _ _ _)]; [by rewrite G..|].
    by destruct (slot_reached _ _ _ P Hc Hi G).
Qed.

Lemma remove_packet pb m idx :
  packets pb m → 0 ≤ idx < 2 ^ 16 → (m ≠ ∅ → addressed pb idx) →
  ∃ pb', remove pb idx = Some (pb', m !! idx) ∧ packets pb' (delete idx m).
Proof.
  intros P Hi Ha. unfold remove. destruct (decide (m_capacity pb = 0)) as [Hc|Hc].
  { destruct (new_guard _ _ idx P Hc) as [-> ->]; [lia|]. exists pb. by rewrite lookup_empty, delete_empty. }
  pose proof (guards_passed _ _ _ P Hc Hi Ha) as G.
  destruct (_ <=? idx); [|cbn [orb] in G; destruct (compare_less_wrap _ _ _)];
    [cbn in G; exists pb; by rewrite G, delete_id..|].
  destruct (slot_reached _ _ _ P Hc Hi G) as (-> & st & -> & W'). cbn [mbind option_bind].
  set (pb1 := with_storage pb st) in *. destruct (m !! idx) as [x|] eqn:Hx.
  2: { rewrite delete_id in * by done.
       assert (packets pb1 m) as P1 by (split; [done|exact (pk_new _ _ P)|exact (pk_size _ _ P)|exact (pk_last _ _ P)|
         exact (pk_empty _ _ P)|exact (pk_ends _ _ P)]).
       destruct (nothing_removed _ _ _ P1 Hx Hi) as [-> E]. cbn [mbind option_bind]. rewrite E.
       by exists pb1. }
  set (pb2 := with_size pb1 (m_size pb1 - 1)). assert (holds pb2 (span16 pb) (delete idx m)) as W2 by done.
  assert (m_size pb2 = m_size pb - 1) as Hs by done. pose proof (size_delete m idx x Hx) as Hd.
  pose proof (pk_size _ _ P). destruct (Z.eqb_spec (m_size pb2) 0) as [Hz|Hz].
  - assert (delete idx m = ∅) as Hm by (apply map_size_empty_inv; lia).
    destruct (last_removed _ _ _ idx W2 Hm Hz) as (E1 & E2 & P').
    rewrite E1. cbn [mbind option_bind]. rewrite E2. cbn [mbind option_bind]. by eexists.
  - assert (delete idx m ≠ ∅) as Hm by (intros He; rewrite He in Hd; rewrite map_size_empty in Hd; lia).
    pose proof (removed_trimmed _ _ _ _ pb2 P Hx Hm W2 eq_refl eq_refl Hs) as T.
    destruct (trim_first _ _ _ T) as (pb3 & E & T3 & Hf & Hc3); [apply lookup_delete_eq|].
    rewrite E. cbn [mbind option_bind]. rewrite <-Hc3.
    destruct (trim_last _ _ _ T3 Hf Hi) as (pb4 & E4 & P4). rewrite E4. cbn [mbind option_bind]. by exists pb4.
Qed.

(** * Sequences of calls *)

Inductive call := Insert (idx x : Z) | Remove (idx : Z) | At (idx : Z).

Definition number (c : call) : Z :=
  match c with Insert idx _ | Remove idx | At idx => idx end.

(** a call, and the packet it returns *)
Definition step (pb : packet_buffer) (c : call) : option (packet_buffer * packet_ptr) :=
  match c with
  | Insert idx x => insert pb idx (Some x)
  | Remove idx => remove pb idx
  | At idx => p ← at_ pb idx; Some (pb, p)
  end.

Fixpoint run (pb : packet_buffer) (cs : list call) : option (packet_buffer * list packet_ptr) :=
  match cs with
  | [] => Some (pb, [])
  | c :: cs => '(pb, p) ← step pb c; '(pb, ps) ← run pb cs; Some (pb, p :: ps)
  end.

(** the same on a map *)
Definition map_step (m : gmap Z Z) (c : call) : gmap Z Z :=
  match c with Insert idx x => <[idx := x]> m | Remove idx => delete idx m | At _ => m end.

Fixpoint map_run (m : gmap Z Z) (cs : list call) : gmap Z Z * list packet_ptr :=
  match cs with
  | [] => (m, [])
  | c :: cs => let '(m', ps) := map_run (map_step m c) cs in (m', m !! number c :: ps)
  end.

(** [i] is a sequence number, one of the [width] that follow [lo] *)
Definition near (lo width i : Z) : Prop := 0 ≤ i < 2 ^ 16 ∧ w16 (i - lo) < width.

Section near.
Context (lo width : Z) (Hlo : 0 ≤ lo < 2 ^ 16) (Hw : width ≤ 2 ^ 15).
Context (Hwrap : lo + width ≤ 2 ^ 16 ∨ width ≤ 16).

(** the distance of two of these numbers *)
Lemma near_distance i j :
  near lo width i → near lo width j →
  w16 (i - j) = if w16 (j - lo) <=? w16 (i - lo) then w16 (i - lo) - w16 (j - lo)
                else 2 ^ 16 + w16 (i - lo) - w16 (j - lo).
Proof.
  intros [_ Hi] [_ Hj]. pose proof (w16_range (i - lo)). pose proof (w16_range (j - lo)).
  assert (w16 (i - j) = w16 (w16 (i - lo) - w16 (j - lo))) as ->.
  { rewrite w16_sub_r, w16_sub_l. f_equal. lia. }
  destruct (Z.leb_spec (w16 (j - lo)) (w16 (i - lo))).
  - apply w16_small. lia.
  - rewrite <-(w16_add _ 1), w16_small; lia.
Qed.

Lemma near_order i : near lo width i → i = if lo <=? i then lo + w16 (i - lo) else lo + w16 (i - lo) - 2 ^ 16.
Proof.
  intros [Hi _]. destruct (Z.leb_spec lo i).
  - rewrite w16_small; lia.
  - rewrite <-(w16_add _ 1), w16_small; lia.
Qed.

Lemma near_forward pb m i j :
  holds pb (span16 pb) m → near lo width i → near lo width j → w16 (i - j) < 2 ^ 15 → m_first pb = j →
  w16 (i - j) < m_capacity pb ∨ j ≤ i.
Proof.
  intros W Ni Nj Hd Hf. pose proof (window_cap _ _ _ _ _ W). pose proof (near_distance _ _ Ni Nj) as Hij.
  pose proof (near_order _ Ni). pose proof (near_order _ Nj). destruct Ni as [Hi Hi'], Nj as [Hj Hj'].
  pose proof (w16_range (i - lo)). pose proof (w16_range (j - lo)).
  destruct (w16 (j - lo) <=? w16 (i - lo)) eqn:E; [|lia]. apply Z.leb_le in E.
  destruct (lo <=? i) eqn:E1, (lo <=? j) eqn:E2; lia.
Qed.

Lemma near_reach pb m i :
  packets pb m → m ≠ ∅ → (∀ k, is_Some (m !! k) → near lo width k) → near lo width i →
  in_reach pb i ∧ addressed pb i.
Proof.
  intros P Hm Hk Ni. destruct (packets_window _ _ P Hm) as [W Hs]. destruct (pk_ends _ _ P Hm) as [Hf Hl].
  pose proof (Hk _ Hf) as Nf. pose proof (near_distance _ _ Ni Nf) as Hd. pose proof (window_cap _ _ _ _ _ W).
  pose proof (wi_first _ _ _ _ _ W). pose proof (w16_range (i - lo)). pose proof (w16_range (m_first pb - lo)).
  pose proof Ni as [Hi Hi']. pose proof Nf as [_ Hf'].
  destruct (w16 (m_first pb - lo) <=? w16 (i - lo)) eqn:E;
    [apply Z.leb_le in E|apply Z.leb_gt in E].
  - assert (w16 (i - m_first pb) < 2 ^ 15) as Hlt by lia.
    destruct (near_forward _ _ _ _ W Ni Nf Hlt eq_refl) as [Hc|Hc]; (split; [left|]); auto.
    + split; [done|]. destruct (decide (m_first pb ≤ i)) as [|Hgt]; [auto|right].
      assert (w16 (i - m_first pb) = i + 2 ^ 16 - m_first pb); [|lia].
      rewrite <-(w16_add _ 1), w16_small; lia.
    + by left.
    + right. by right.
  - assert (2 ^ 15 < w16 (i - m_first pb)) as Hgt by lia.
    split; [|right; by left]. right. split; [done|].
    pose proof (near_distance _ _ (Hk _ Hl) Nf) as Hd2. pose proof (Hk _ Hl) as [_ Hl'].
    pose proof (w16_range (w16 (m_last pb - 1) - lo)). pose proof (wi_span _ _ _ _ _ W).
    rewrite w16_sub_l in Hd2. replace (m_last pb - 1 - m_first pb) with (m_last pb - m_first pb - 1) in Hd2 by lia.
    rewrite <-(w16_sub_l (m_last pb - m_first pb)), (w16_small (_ - 1)) in Hd2
      by (pose proof (w16_range (m_last pb - m_first pb)); lia).
    destruct (_ <=? w16 (w16 (m_last pb - 1) - lo)); lia.
Qed.

Lemma calls_spec cs pb m :
  packets pb m → (∀ k, is_Some (m !! k) → near lo width k) → Forall (λ c, near lo width (number c)) cs →
  ∃ pb', run pb cs = Some (pb', (map_run m cs).2) ∧ packets pb' (map_run m cs).1.
Proof.
  intros P Hk Hcs. revert pb m P Hk. induction Hcs as [|c cs Hc _ IH]; intros pb m P Hk; [by exists pb|].
  assert (∃ pb', step pb c = Some (pb', m !! number c) ∧ packets pb' (map_step m c)) as (pb1 & E & P1).
  { assert (m ≠ ∅ → in_reach pb (number c)) as Hr by (intros Hm; by eapply near_reach).
    assert (m ≠ ∅ → addressed pb (number c)) as Ha by (intros Hm; by eapply near_reach).
    destruct Hc as [Hi _]. destruct c as [idx x|idx|idx]; cbn in *.
    - by apply insert_packet.
    - by apply remove_packet.
    - rewrite (at_spec _ _ _ P Hi Ha). by exists pb. }
  cbn [run map_run]. rewrite E. cbn [mbind option_bind].
  destruct (IH pb1 (map_step m c) P1) as (pb2 & E2 & P2).
  - intros k Hks. destruct c as [idx x|idx|idx]; cbn in *; [| |by apply Hk].
    + destruct (decide (k = idx)) as [->|]; [done|]. rewrite lookup_insert_ne in Hks by done. by apply Hk.
    + destruct (decide (k = idx)) as [->|]; [done|]. rewrite lookup_delete_ne in Hks by done. by apply Hk.
  - destruct (map_run (map_step m c) cs) as [m' ps]. rewrite E2. cbn. by exists pb2.
Qed.
End near.

Lemma packets_new : packets new_packet_buffer ∅.
Proof. split; cbn; done. Qed.
