(* ===== verification/PacketProperties.v ===== *)
(** What holds of a [packet_buffer]. *)

From stdpp Require Import gmap.
From S2P Require Import Prelude.
From stdpp Require Import list.
From S2P Require Import PacketBuffer.

Open Scope Z_scope.

(** * A map from sequence numbers *)

(** C30: every sequence of [insert], [remove] and [at] on a new buffer returns what
    it returns on a map from sequence numbers to packets, without an access out of
    the storage, when the numbers are fewer than half of them apart and either do
    not wrap around or are at most the 16 of the first allocation; at the end the
    buffer has the size of the map, and [cursor] and [span] are the number of the
    first packet and the distance to the end of the last one. *)
Theorem packet_buffer_refines_map lo width cs :
  0 ≤ lo < 2 ^ 16 → width ≤ 2 ^ 15 → lo + width ≤ 2 ^ 16 ∨ width ≤ 16 →
  Forall (λ c, near lo width (number c)) cs →
  let '(m, ps) := map_run ∅ cs in
  ∃ pb, run new_packet_buffer cs = Some (pb, ps) ∧ size pb = Z.of_nat (base.size m) ∧
    empty pb = bool_decide (m = ∅) ∧
    (m ≠ ∅ → is_Some (m !! cursor pb) ∧ is_Some (m !! w16 (cursor pb + span pb - 1)) ∧
             ∀ i, is_Some (m !! i) → w16 (i - cursor pb) < span pb).
Proof.
  intros Hlo Hw Hwrap Hcs.
  destruct (calls_spec lo width Hlo Hw Hwrap cs _ _ packets_new) as (pb & E & P); [|done|].
  { intros k. rewrite lookup_empty. by intros [? ?]. }
  destruct (map_run ∅ cs) as [m ps]. cbn in *. exists pb. split; [done|]. split; [by apply pk_size|].
  split; [by apply packets_size|]. intros Hm. destruct (packets_window _ _ P Hm) as [W _].
  unfold cursor, span. rewrite w16_u32. destruct (pk_ends _ _ P Hm) as [Hf Hl].
  split; [done|]. split; [|by intros i Hi; eapply wi_keys].
  rewrite <-(w16_sub_l (_ + _)), w16_diff, w16_sub_l. done.
Qed.

Lemma packet_buffer_refines_map_witness :
  let cs := [Insert 65530 1; Insert 3 2; At 3; Remove 65530; Insert 7 5; At 7; Insert 65529 7;
             Remove 3; Remove 7; At 65529] in
  Forall (λ c, near 65529 16 (number c)) cs ∧
  let '(m, ps) := map_run ∅ cs in
  (∃ pb, run new_packet_buffer cs = Some (pb, ps) ∧ size pb = Z.of_nat (base.size m) ∧
    empty pb = bool_decide (m = ∅) ∧
    (m ≠ ∅ → is_Some (m !! cursor pb) ∧ is_Some (m !! w16 (cursor pb + span pb - 1)) ∧
             ∀ i, is_Some (m !! i) → w16 (i - cursor pb) < span pb)) ∧
  ps = [None; None; Some 2; Some 1; None; Some 5; None; Some 2; Some 5; Some 7].
Proof.
  intros cs. assert (Forall (λ c, near 65529 16 (number c)) cs) as H
    by (unfold cs; rewrite !Forall_cons, Forall_nil; repeat (split; [by vm_compute|]); done).
  split; [exact H|].
  pose proof (packet_buffer_refines_map 65529 16 cs ltac:(lia) ltac:(lia) ltac:(lia) H) as Hr.
  destruct (map_run ∅ cs) as [m ps] eqn:E. split; [exact Hr|].
  apply (f_equal snd) in E. vm_compute in E. by subst ps.
Defined.

(** * Numbers that have wrapped *)

(** [make_room] does not see that such a number is out of the capacity *)
Lemma make_room_wrapped pb idx :
  16 ≤ m_capacity pb → 0 ≤ idx < m_first pb → m_first pb + m_capacity pb < 2 ^ 16 →
  w16 (idx - m_first pb) < 2 ^ 15 → ∃ l, make_room pb idx = Some (with_last pb l).
Proof.
  intros Hcap Hi Hc Hd. unfold make_room. rewrite !w16_u32, compare_less_wrap_spec, (uint_small 32 (m_first pb + _)) by lia.
  rewrite (proj2 (Z.ltb_ge (2 ^ 15) _)), (proj2 (Z.leb_gt (m_first pb + _) idx)), (proj2 (Z.ltb_lt idx (m_first pb))) by lia.
  rewrite (w16_small (m_first pb + _)), (proj2 (Z.leb_gt (m_first pb + _) idx)) by lia. cbn.
  destruct (compare_less_wrap _ _ _); [by eexists|]. exists (m_last pb). by destruct pb.
Qed.

(** a sequence number that has wrapped around, while the capacity does not reach
    the last sequence number, is mistaken for the number in its slot: [at] returns
    the packet of that number, and [insert] replaces that packet without growing. *)
Theorem wrapped_number_mistaken pb m idx x :
  packets pb m → m ≠ ∅ → 0 ≤ idx < m_first pb → m_first pb + m_capacity pb < 2 ^ 16 →
  w16 (idx - m_first pb) < 2 ^ 15 →
  let j := m_first pb + (idx - m_first pb) mod m_capacity pb in
  j ≠ idx ∧ at_ pb idx = Some (m !! j) ∧
  ∃ pb', insert pb idx (Some x) = Some (pb', m !! j) ∧ capacity pb' = capacity pb ∧
    at_ pb' j = Some (Some x).
Proof.
  intros P Hm Hi Hc Hd j. destruct (packets_window _ _ P Hm) as [W _].
  pose proof (window_cap _ _ _ _ _ W). pose proof (Z.mod_pos_bound (idx - m_first pb) (m_capacity pb) ltac:(lia)).
  assert (j mod m_capacity pb = idx mod m_capacity pb) as Hj.
  { unfold j. rewrite Zplus_mod_idemp_r. f_equal. lia. }
  assert (slot pb idx = Some (m !! j)) as Hslot.
  { rewrite slot_spec, <-Hj by (eapply wi_cap, W). rewrite <-slot_spec by (eapply wi_cap, W).
    rewrite (slot_get _ _ _ _ W), w16_small; [done|lia|]. rewrite w16_small; lia. }
  assert (w16 (j - m_first pb) = (idx - m_first pb) mod m_capacity pb) as Hjf by (rewrite w16_small; lia).
  split; [lia|]. split.
  { unfold at_. rewrite (uint_small 32 (m_first pb + _)), compare_less_wrap_spec by lia.
    rewrite (proj2 (Z.leb_gt (m_first pb + _) idx)), (proj2 (Z.ltb_ge (2 ^ 15) _)) by lia. exact Hslot. }
  destruct (make_room_wrapped pb idx) as (l & E); [lia|done..|].
  assert (slot (with_last pb l) idx = slot pb idx) as Hsl by done.
  unfold insert. rewrite (packets_size _ _ P), bool_decide_eq_false_2 by done. cbn [negb].
  rewrite E. cbn [mbind option_bind].
  replace (m_capacity (with_last pb l) =? 0) with false by (symmetry; apply Z.eqb_neq; cbn; lia).
  cbn [mbind option_bind]. rewrite Hsl, Hslot. cbn [mbind option_bind]. unfold set_slot.
  destruct (vset_is_Some (m_storage (with_last pb l)) (masked (m_capacity (with_last pb l)) idx) (Some x))
    as [st Hst].
  { cbn. rewrite masked_mod, (wi_size _ _ _ _ _ W) by (eapply wi_cap, W). apply Z.mod_pos_bound. lia. }
  rewrite Hst. cbn [mbind option_bind with_storage m_size].
  assert (∀ pb', m_storage pb' = st → m_capacity pb' = m_capacity pb → m_first pb' = m_first pb →
    capacity pb' = capacity pb ∧ at_ pb' j = Some (Some x)) as Hdone.
  { intros pb' Hs' Hc' Hf'. split; [done|]. unfold at_. rewrite Hf', Hc', compare_less_wrap_spec, Hjf, uint_small by lia.
    rewrite (proj2 (Z.leb_gt (m_first pb + _) j)), (proj2 (Z.ltb_ge (2 ^ 15) _)) by lia. unfold slot.
    pose proof (wi_cap _ _ _ _ _ W) as Hok. cbn in Hst.
    rewrite Hs', Hc', (vset_get _ _ _ _ _ Hst), !masked_mod, Hj by done. by rewrite Z.eqb_refl. }
  pose proof (packets_size _ _ P) as Hsz. rewrite bool_decide_eq_false_2 in Hsz by done.
  change (m_size (with_last pb l)) with (m_size pb). rewrite Hsz.
  eexists. split; [done|]. destruct (m !! j); by apply Hdone.
Qed.
