(* ===== verification/Bandwidth.v ===== *)
(** Rate limits: [bandwidth_channel] of src/btdownloader/torrent/bandwidth_limit.cpp,
    [bw_request] of bandwidth_queue_entry.cpp and [bandwidth_manager] of
    bandwidth_manager.cpp.

    Channels are shared by the requests that point to them, so they are kept in a
    store, and a channel is its address.  Peers are numbers.  The callbacks to the
    peers are returned as the requests that are answered, in their order; what a
    peer asks for while it is called is a later call, which the code allows for by
    calling back at the end, from a queue of its own.  A channel that is not there,
    an eleventh channel of a request and an overflow of [tmp] are faults, [None] in
    the option monad. *)

From stdpp Require Import gmap.
From S2P Require Import Prelude.
From stdpp Require Import list.

Open Scope Z_scope.

(** * Channels *)

Record bandwidth_channel := Channel {
  tmp : Z;
  distribute_quota : Z;
  m_quota_left : Z;
  m_limit : Z
}.

Definition inf : Z := 2 ^ 31 - 1.

Definition new_channel : bandwidth_channel := Channel 0 0 0 0.

Definition with_tmp (n : Z) (c : bandwidth_channel) : bandwidth_channel :=
  Channel n (distribute_quota c) (m_quota_left c) (m_limit c).

Definition with_quota (n : Z) (c : bandwidth_channel) : bandwidth_channel :=
  Channel (tmp c) (distribute_quota c) n (m_limit c).

Definition throttle (limit : Z) (c : bandwidth_channel) : bandwidth_channel :=
  Channel (tmp c) (distribute_quota c) (m_quota_left c) limit.

(** a conversion to [int] *)
Definition to_int (n : Z) : Z := (n + 2 ^ 31) mod 2 ^ 32 - 2 ^ 31.

Definition quota_left (c : bandwidth_channel) : Z :=
  if m_limit c =? 0 then inf else Z.max (to_int (m_quota_left c)) 0.

Definition update_quota (dt_milliseconds : Z) (c : bandwidth_channel) : bandwidth_channel :=
  if m_limit c =? 0 then c
  else
    let to_add := Z.quot (m_limit c * dt_milliseconds + 500) 1000 in
    let q := if inf - m_quota_left c <? to_add then inf
             else
               let q := m_quota_left c + to_add in
               let q := if m_limit c <? Z.quot q 3 then m_limit c * 3 else q in
               Z.min q inf in
    Channel (tmp c) (to_int (Z.max q 0)) q (m_limit c).

Definition return_quota (amount : Z) (c : bandwidth_channel) : bandwidth_channel :=
  if m_limit c =? 0 then c else with_quota (m_quota_left c + amount) c.

Definition use_quota (amount : Z) (c : bandwidth_channel) : bandwidth_channel :=
  if m_limit c =? 0 then c else with_quota (m_quota_left c - amount) c.

Definition need_queueing (amount : Z) (c : bandwidth_channel) : bool * bandwidth_channel :=
  if m_quota_left c - amount <? m_limit c then (true, c)
  else (false, with_quota (m_quota_left c - amount) c).

(** * The channels, by their address *)

Abbreviation channels := (gmap Z bandwidth_channel).

Definition update (cs : channels) (p : Z) (f : bandwidth_channel → bandwidth_channel) : option channels :=
  c ← cs !! p; Some (<[p := f c]> cs).

Fixpoint update_all (cs : channels) (ps : list Z) (f : bandwidth_channel → bandwidth_channel)
    : option channels :=
  match ps with
  | [] => Some cs
  | p :: ps => cs ← update cs p f; update_all cs ps f
  end.

(** * Requests *)

Record bw_request := Request {
  peer : Z;
  priority : Z;
  assigned : Z;
  request_size : Z;
  ttl : Z;
  channel : list Z
}.

Definition max_bandwidth_channels : nat := 10.

Definition new_request (pe blk prio : Z) (k : list Z) : bw_request := Request pe prio 0 blk 20 k.

Definition with_assigned (n : Z) (r : bw_request) : bw_request :=
  Request (peer r) (priority r) n (request_size r) (ttl r) (channel r).

Definition with_ttl (n : Z) (r : bw_request) : bw_request :=
  Request (peer r) (priority r) (assigned r) (request_size r) n (channel r).

(** the loop over the channels that finds the most limiting one *)
Fixpoint least_quota (cs : channels) (ps : list Z) (prio quota : Z) : option Z :=
  match ps with
  | [] => Some quota
  | p :: ps =>
      c ← cs !! p;
      let quota := if m_limit c =? 0 then quota
                   else if tmp c =? 0 then quota
                   else Z.min (to_int (Z.quot (distribute_quota c * prio) (tmp c))) quota in
      least_quota cs ps prio quota
  end.

(** [bw_request::assign_bandwidth], with its limit of five channels *)
Definition assign_bandwidth (cs : channels) (r : bw_request) : option (Z * bw_request * channels) :=
  let quota := request_size r - assigned r in
  let r := with_ttl (ttl r - 1) r in
  if quota =? 0 then Some (quota, r, cs)
  else
    quota ← least_quota cs (take 5 (channel r)) (priority r) quota;
    cs ← update_all cs (take 5 (channel r)) (use_quota quota);
    Some (quota, with_assigned (assigned r + quota) r, cs).

(** * The manager *)

Record bandwidth_manager := Manager {
  m_queue : list bw_request;
  m_queued_bytes : Z;
  m_channel : Z;
  m_abort : bool
}.

Definition new_manager (chan : Z) : bandwidth_manager := Manager [] 0 chan false.

Definition queue_size (m : bandwidth_manager) : Z := vsize (m_queue m).
Definition queued_bytes (m : bandwidth_manager) : Z := m_queued_bytes m.

Definition is_queued (m : bandwidth_manager) (pe : Z) : bool :=
  existsb (λ r, peer r =? pe) (m_queue m).

(** also the requests that are answered *)
Definition close (m : bandwidth_manager) : bandwidth_manager * list bw_request :=
  (Manager [] 0 (m_channel m) true, rev (m_queue m)).

(** the argument of the callback, with the channel and the peer *)
Definition callback (m : bandwidth_manager) (r : bw_request) : Z * Z * Z :=
  (peer r, m_channel m, assigned r).

(** the channels that have no quota of their own for [blk] *)
Fixpoint queue_channels (cs : channels) (blk : Z) (chan k : list Z) : option (channels * list Z) :=
  match chan with
  | [] => Some (cs, k)
  | p :: chan =>
      c ← cs !! p;
      let '(q, c) := need_queueing blk c in
      let cs := <[p := c]> cs in
      if q then
        if (length k <? max_bandwidth_channels)%nat then queue_channels cs blk chan (k ++ [p]) else None
      else queue_channels cs blk chan k
  end.

Definition request_bandwidth (m : bandwidth_manager) (cs : channels) (pe blk prio : Z) (chan : list Z)
    : option (Z * bandwidth_manager * channels) :=
  if m_abort m then Some (0, m, cs)
  else
    match chan with
    | [] => Some (blk, m, cs)
    | _ =>
        '(cs, k) ← queue_channels cs blk chan [];
        match k with
        | [] => Some (blk, m, cs)
        | _ => Some (0, Manager (m_queue m ++ [new_request pe blk prio k]) (m_queued_bytes m + blk)
                          (m_channel m) (m_abort m), cs)
        end
    end.

Definition check_invariant (m : bandwidth_manager) : bool :=
  fold_left (λ queued r, queued + (request_size r - assigned r)) (m_queue m) 0 =? m_queued_bytes m.

(** ** [update_quotas] *)

(** the requests of peers that disconnect are taken out, the channels of the others
    are reset *)
Fixpoint drop_disconnecting (dis : Z → bool) (cs : channels) (q : list bw_request) (bytes : Z)
    : option (channels * list bw_request * list bw_request * Z) :=
  match q with
  | [] => Some (cs, [], [], bytes)
  | i :: q =>
      if dis (peer i) then
        cs ← update_all cs (channel i) (return_quota (assigned i));
        '(cs, live, gone, bytes) ← drop_disconnecting dis cs q (bytes - (request_size i - assigned i));
        Some (cs, live, with_assigned 0 i :: gone, bytes)
      else
        cs ← update_all cs (channel i) (with_tmp 0);
        '(cs, live, gone, bytes) ← drop_disconnecting dis cs q bytes;
        Some (cs, i :: live, gone, bytes)
  end.

(** the sum of the priorities of each channel, and the channels that have one *)
Fixpoint add_priority (cs : channels) (ps : list Z) (prio : Z) (chans : list Z) : option (channels * list Z) :=
  match ps with
  | [] => Some (cs, chans)
  | p :: ps =>
      c ← cs !! p;
      let chans := if tmp c =? 0 then chans ++ [p] else chans in
      if prio <? inf - tmp c
      then add_priority (<[p := with_tmp (tmp c + prio) c]> cs) ps prio chans
      else None
  end.

Fixpoint add_priorities (cs : channels) (q : list bw_request) (chans : list Z) : option (channels * list Z) :=
  match q with
  | [] => Some (cs, chans)
  | r :: q => '(cs, chans) ← add_priority cs (channel r) (priority r) chans; add_priorities cs q chans
  end.

(** the requests that stay, and the ones that are answered *)
Fixpoint assign_all (cs : channels) (q : list bw_request) (bytes : Z)
    : option (channels * list bw_request * list bw_request * Z) :=
  match q with
  | [] => Some (cs, [], [], bytes)
  | i :: q =>
      '(a, i, cs) ← assign_bandwidth cs i;
      if (assigned i =? request_size i) || ((ttl i <=? 0) && (0 <? assigned i)) then
        '(cs, wait, done, bytes) ← assign_all cs q (bytes - (a + (request_size i - assigned i)));
        Some (cs, wait, i :: done, bytes)
      else
        '(cs, wait, done, bytes) ← assign_all cs q (bytes - a);
        Some (cs, i :: wait, done, bytes)
  end.

(** [dt] is in milliseconds *)
Definition update_quotas (m : bandwidth_manager) (cs : channels) (dis : Z → bool) (dt : Z)
    : option (bandwidth_manager * channels * list bw_request) :=
  if m_abort m then Some (m, cs, [])
  else if bool_decide (m_queue m = []) then Some (m, cs, [])
  else
    let dt_milliseconds := if 3000 <? dt then 3000 else dt in
    '(cs, live, gone, bytes) ← drop_disconnecting dis cs (m_queue m) (m_queued_bytes m);
    '(cs, chans) ← add_priorities cs live [];
    cs ← update_all cs chans (update_quota dt_milliseconds);
    '(cs, wait, done, bytes) ← assign_all cs live bytes;
    Some (Manager wait bytes (m_channel m) (m_abort m), cs, rev (gone ++ done)).
