(* ===== verification/BandwidthCorrect.v ===== *)
(** The loops of the bandwidth manager in closed form: what each does to a channel,
    and how much a request is given; the invariant of the manager, what a round and a
    request do to the account of a channel, and sequences of calls with the bytes that
    are handed out through a channel. *)

From stdpp Require Import gmap.
From S2P Require Import Prelude.
From stdpp Require Import list.
From S2P Require Import Bandwidth.
From S2P Require Import Bandwidth.

Open Scope Z_scope.

(** * Sums *)

Definition zsum {A} (f : A → Z) (l : list A) : Z := foldr (λ x, Z.add (f x)) 0 l.

Section zsum.
Context {A : Type}.
Implicit Types (f g : A → Z) (l : list A).

Lemma zsum_cons f x l : zsum f (x :: l) = f x + zsum f l.
Proof. done. Qed.

Lemma zsum_app f l k : zsum f (l ++ k) = zsum f l + zsum f k.
Proof. induction l as [|x l IH]; [done|]. rewrite <-app_comm_cons, !zsum_cons, IH. lia. Qed.

Lemma zsum_rev f l : zsum f (rev l) = zsum f l.
Proof. induction l as [|x l IH]; [done|]. cbn [rev]. rewrite zsum_app, !zsum_cons, IH. cbn. lia. Qed.

Lemma zsum_fmap {B} (h : B → A) f (k : list B) : zsum f (h <$> k) = zsum (λ x, f (h x)) k.
Proof. induction k as [|x k IH]; [done|]. by rewrite fmap_cons, !zsum_cons, IH. Qed.

Lemma zsum_ext f g l : (∀ x, x ∈ l → f x = g x) → zsum f l = zsum g l.
Proof. induction l as [|x l IH]; intros H; [done|]. rewrite !zsum_cons, H, IH; set_solver. Qed.

Lemma zsum_le f g l : (∀ x, x ∈ l → f x ≤ g x) → zsum f l ≤ zsum g l.
Proof.
  induction l as [|x l IH]; intros H; [done|]. rewrite !zsum_cons.
  apply Z.add_le_mono; [|apply IH]; set_solver.
Qed.

Lemma zsum_nonneg f l : (∀ x, x ∈ l → 0 ≤ f x) → 0 ≤ zsum f l.
Proof.
  induction l as [|x l IH]; intros H; [done|]. rewrite zsum_cons.
  apply Z.add_nonneg_nonneg; [|apply IH]; set_solver.
Qed.

Lemma zsum_elem f l x : (∀ y, y ∈ l → 0 ≤ f y) → x ∈ l → f x ≤ zsum f l.
Proof.
  intros H [k1 [k2 ->]]%list_elem_of_split. rewrite zsum_app, zsum_cons.
  assert (0 ≤ zsum f k1) by (apply zsum_nonneg; set_solver).
  assert (0 ≤ zsum f k2) by (apply zsum_nonneg; set_solver). lia.
Qed.

Lemma zsum_plus f g l : zsum (λ x, f x + g x) l = zsum f l + zsum g l.
Proof. induction l as [|x l IH]; [done|]. rewrite !zsum_cons, IH. lia. Qed.

Lemma zsum_mul k f l : zsum (λ x, k * f x) l = k * zsum f l.
Proof. induction l as [|x l IH]; [cbn; lia|]. rewrite !zsum_cons, IH. lia. Qed.

(** the elements that have a property, and the others *)
Lemma zsum_filter (P : A → Prop) `{∀ x, Decision (P x)} f l :
  zsum f (filter P l) + zsum f (filter (λ x, ¬ P x) l) = zsum f l.
Proof.
  induction l as [|x l IH]; [done|]. rewrite !filter_cons.
  destruct (decide (P x)) as [Hx|Hx], (decide (¬ P x)); try done; rewrite !zsum_cons; lia.
Qed.
End zsum.

(** * Channels *)

(** how often a channel occurs *)
Definition occ (c : Z) (ps : list Z) : nat := length (filter (λ p, p = c) ps).

Lemma occ_nil c : occ c [] = 0%nat.
Proof. done. Qed.

Lemma occ_cons c p ps : occ c (p :: ps) = ((if decide (p = c) then 1 else 0) + occ c ps)%nat.
Proof. unfold occ. rewrite filter_cons. by case_decide. Qed.

Lemma occ_app c ps qs : occ c (ps ++ qs) = (occ c ps + occ c qs)%nat.
Proof. unfold occ. by rewrite filter_app, length_app. Qed.

Lemma occ_pos c ps : (0 < occ c ps)%nat ↔ c ∈ ps.
Proof.
  induction ps as [|p ps IH]; [rewrite occ_nil; pose proof (not_elem_of_nil c); intuition lia|].
  rewrite occ_cons, elem_of_cons. case_decide; subst; intuition (lia || congruence).
Qed.

Lemma occ_zero c ps : c ∉ ps → occ c ps = 0%nat.
Proof. rewrite <-occ_pos. lia. Qed.

Lemma occ_NoDup c ps : NoDup ps → c ∈ ps → occ c ps = 1%nat.
Proof.
  induction 1 as [|p ps Hp Hps IH]; [by intros ?%not_elem_of_nil|].
  rewrite occ_cons, elem_of_cons. case_decide; subst.
  - intros _. by rewrite occ_zero.
  - intros [?|?]; [congruence|]. by rewrite IH.
Qed.

Lemma occ_take c n ps : (occ c (take n ps) ≤ occ c ps)%nat.
Proof. rewrite <-(take_drop n ps) at 2. rewrite occ_app. lia. Qed.

#[global] Arguments occ : simpl never.
#[global] Arguments zsum : simpl never.

(** every address in [ps] is that of a channel *)
Definition there (cs : channels) (ps : list Z) : Prop := ∀ p, p ∈ ps → is_Some (cs !! p).

Lemma update_all_spec cs ps f :
  there cs ps → ∃ cs', update_all cs ps f = Some cs' ∧ ∀ c, cs' !! c = Nat.iter (occ c ps) f <$> cs !! c.
Proof.
  revert cs. induction ps as [|p ps IH]; intros cs Hps; cbn.
  - exists cs. split; [done|]. intros c. rewrite occ_nil. cbn. by destruct (cs !! c).
  - unfold update. destruct (Hps p (list_elem_of_here _ _)) as [x Hx]. rewrite Hx. cbn.
    destruct (IH (<[p:=f x]> cs)) as (cs' & E & Hc).
    { intros q Hq. destruct (decide (q = p)) as [->|]; [by rewrite lookup_insert_eq|].
      rewrite lookup_insert_ne by done. apply Hps. by apply list_elem_of_further. }
    exists cs'. split; [done|]. intros c. rewrite Hc, occ_cons.
    destruct (decide (p = c)) as [->|Hne].
    + rewrite lookup_insert_eq, Hx. cbn. f_equal. apply Nat.iter_swap.
    + by rewrite lookup_insert_ne.
Qed.

Lemma iter_with_tmp n k c : Nat.iter n (with_tmp k) c = if (n =? 0)%nat then c else with_tmp k c.
Proof. induction n as [|[|n] IH]; [done|done|]. cbn in *. by rewrite IH. Qed.

Lemma with_quota_id c : with_quota (m_quota_left c) c = c.
Proof. by destruct c. Qed.

(** the quota changes when there is a limit *)
Definition charge (n : Z) (c : bandwidth_channel) : bandwidth_channel :=
  if m_limit c =? 0 then c else with_quota (m_quota_left c - n) c.

Lemma charge_charge n k c : charge n (charge k c) = charge (n + k) c.
Proof.
  unfold charge. destruct (m_limit c =? 0) eqn:E; cbn; rewrite ?E; [done|].
  unfold with_quota. cbn. f_equal. lia.
Qed.

Lemma charge_0 c : charge 0 c = c.
Proof. unfold charge. destruct (_ =? _); [done|]. rewrite Z.sub_0_r. apply with_quota_id. Qed.

Lemma iter_use_quota n q c : Nat.iter n (use_quota q) c = charge (Z.of_nat n * q) c.
Proof.
  induction n as [|n IH]; [by rewrite charge_0|]. rewrite Nat.iter_succ, IH.
  change (use_quota q) with (charge q). rewrite charge_charge. f_equal. lia.
Qed.

Lemma return_quota_charge q c : return_quota q c = charge (- q) c.
Proof. unfold return_quota, charge. by rewrite Z.sub_opp_r. Qed.

Lemma iter_return_quota n q c : Nat.iter n (return_quota q) c = charge (- (Z.of_nat n * q)) c.
Proof.
  induction n as [|n IH]; [by rewrite charge_0|]. rewrite Nat.iter_succ.
  rewrite IH, return_quota_charge, charge_charge. f_equal. lia.
Qed.

(** * Taking out the requests of peers that disconnect *)

(** how often the requests [rs] use a channel, and with what weight *)
Definition uses (c : Z) (rs : list bw_request) : Z := zsum (λ r, Z.of_nat (occ c (channel r))) rs.

Definition weight (c : Z) (rs : list bw_request) : Z :=
  zsum (λ r, Z.of_nat (occ c (channel r)) * priority r) rs.

(** what they were assigned of it *)
Definition holding (c : Z) (rs : list bw_request) : Z :=
  zsum (λ r, Z.of_nat (occ c (channel r)) * assigned r) rs.

Definition remaining (r : bw_request) : Z := request_size r - assigned r.

Definition live_of (dis : Z → bool) (q : list bw_request) : list bw_request :=
  filter (λ r, dis (peer r) = false) q.

Definition gone_of (dis : Z → bool) (q : list bw_request) : list bw_request :=
  filter (λ r, dis (peer r) = true) q.

Lemma sum_live_gone f dis q : zsum f (live_of dis q) + zsum f (gone_of dis q) = zsum f q.
Proof.
  rewrite <-(zsum_filter (λ r, dis (peer r) = false) f q). f_equal. f_equal.
  apply list_filter_iff. intros r. destruct (dis (peer r)); intuition congruence.
Qed.

Lemma live_cons dis r q :
  live_of dis (r :: q) = if dis (peer r) then live_of dis q else r :: live_of dis q.
Proof. unfold live_of. rewrite filter_cons. by destruct (dis (peer r)). Qed.

Lemma gone_cons dis r q :
  gone_of dis (r :: q) = if dis (peer r) then r :: gone_of dis q else gone_of dis q.
Proof. unfold gone_of. rewrite filter_cons. by destruct (dis (peer r)). Qed.

Lemma live_elem dis q r : r ∈ live_of dis q → r ∈ q.
Proof. intros [_ H]%list_elem_of_filter. done. Qed.

Lemma gone_elem dis q r : r ∈ gone_of dis q → r ∈ q.
Proof. intros [_ H]%list_elem_of_filter. done. Qed.

Definition all_there (cs : channels) (q : list bw_request) : Prop := ∀ r, r ∈ q → there cs (channel r).

Lemma there_fmap cs cs' ps (F : Z → bandwidth_channel → bandwidth_channel) :
  (∀ c, cs' !! c = F c <$> cs !! c) → there cs ps → there cs' ps.
Proof. intros H Ht p Hp. rewrite H. destruct (Ht p Hp) as [x ->]. by eexists. Qed.

Lemma all_there_fmap cs cs' q (F : Z → bandwidth_channel → bandwidth_channel) :
  (∀ c, cs' !! c = F c <$> cs !! c) → all_there cs q → all_there cs' q.
Proof. intros H Ht r Hr. eapply there_fmap, Ht, Hr. done. Qed.

Definition reset (n : Z) (c : bandwidth_channel) : bandwidth_channel :=
  if n =? 0 then c else with_tmp 0 c.

Lemma reset_add n k c : 0 ≤ n → 0 ≤ k → reset (n + k) c = reset n (reset k c).
Proof.
  intros Hn Hk. unfold reset.
  destruct (Z.eqb_spec (n + k) 0), (Z.eqb_spec n 0), (Z.eqb_spec k 0); try lia; done.
Qed.

Lemma charge_reset n k c : charge n (reset k c) = reset k (charge n c).
Proof. unfold charge, reset. destruct (k =? 0); [done|]. cbn. by destruct (_ =? 0). Qed.

Lemma uses_nonneg c q : 0 ≤ uses c q.
Proof. apply zsum_nonneg. lia. Qed.

Lemma drop_spec dis cs q bytes :
  all_there cs q →
  ∃ cs', drop_disconnecting dis cs q bytes =
      Some (cs', live_of dis q, with_assigned 0 <$> gone_of dis q, bytes - zsum remaining (gone_of dis q)) ∧
    ∀ c, cs' !! c = (λ x, reset (uses c (live_of dis q)) (charge (- holding c (gone_of dis q)) x)) <$> cs !! c.
Proof.
  revert cs bytes. induction q as [|r q IH]; intros cs bytes Hq; cbn [drop_disconnecting].
  - exists cs. split; [f_equal; f_equal; change (zsum remaining (gone_of dis [])) with 0; lia|]. intros c.
    change (- holding c (gone_of dis [])) with 0. change (uses c (live_of dis [])) with 0.
    destruct (cs !! c); [|done]. cbn. by rewrite charge_0.
  - assert (all_there cs q) as Hq' by (intros r' Hr'; apply Hq; by apply list_elem_of_further).
    pose proof (Hq r (list_elem_of_here _ _)) as Hr. rewrite live_cons, gone_cons. destruct (dis (peer r)).
    + destruct (update_all_spec cs (channel r) (return_quota (assigned r)) Hr) as (cs1 & -> & Hc1). cbn.
      destruct (IH cs1 (bytes - (request_size r - assigned r))) as (cs' & -> & Hc'); [by eapply all_there_fmap; [exact Hc1|]|].
      cbn. exists cs'. split; [rewrite zsum_cons; do 2 f_equal; unfold remaining; lia|].
      intros c. rewrite Hc', Hc1. destruct (cs !! c) as [x|]; [|done]. cbn. f_equal.
      rewrite iter_return_quota, charge_charge. unfold holding. rewrite zsum_cons. do 2 f_equal. lia.
    + destruct (update_all_spec cs (channel r) (with_tmp 0) Hr) as (cs1 & -> & Hc1). cbn.
      destruct (IH cs1 bytes) as (cs' & -> & Hc'); [by eapply all_there_fmap; [exact Hc1|]|].
      cbn. exists cs'. split; [done|].
      intros c. rewrite Hc', Hc1. destruct (cs !! c) as [x|]; [|done]. cbn. f_equal.
      rewrite iter_with_tmp. unfold uses. rewrite zsum_cons, Z.add_comm, reset_add by (lia || apply uses_nonneg).
      f_equal. rewrite <-charge_reset. f_equal. unfold reset.
      by destruct (occ c (channel r)).
Qed.

(** * The priorities of each channel *)

(** [chans] holds the channels of [U] that have a priority, each once *)
Record tallied (U : Z → Prop) (cs : channels) (chans : list Z) : Prop := {
  ta_NoDup : NoDup chans;
  ta_some c : U c → ∃ x, cs !! c = Some x ∧ 0 ≤ tmp x ∧ (c ∈ chans ↔ tmp x ≠ 0);
  ta_in c : c ∈ chans → U c
}.

Lemma add_priority_spec U cs ps prio chans :
  tallied U cs chans → (∀ p, p ∈ ps → U p) → 0 < prio →
  (∀ c x, cs !! c = Some x → c ∈ ps → tmp x + Z.of_nat (occ c ps) * prio < inf) →
  ∃ cs' chans', add_priority cs ps prio chans = Some (cs', chans') ∧ tallied U cs' chans' ∧
    ∀ c, cs' !! c = (λ x, with_tmp (tmp x + Z.of_nat (occ c ps) * prio) x) <$> cs !! c.
Proof.
  revert cs chans. induction ps as [|p ps IH]; intros cs chans T HU Hp Hlim; cbn [add_priority].
  - exists cs, chans. split; [done|]. split; [done|]. intros c. rewrite occ_nil.
    destruct (cs !! c) as [x|]; [|done]. cbn. rewrite Z.add_0_r. by destruct x.
  - destruct (ta_some _ _ _ T p) as (x & Hx & Hx0 & Hin); [apply HU, list_elem_of_here|].
    rewrite Hx. cbn [mbind option_bind].
    pose proof (Hlim p x Hx (list_elem_of_here _ _)) as Hl. rewrite occ_cons, decide_True in Hl by done.
    rewrite (proj2 (Z.ltb_lt _ _)) by nia.
    set (cs1 := <[p := _]> cs). set (chans1 := if _ =? 0 then _ else _).
    assert (tallied U cs1 chans1) as T1.
    { unfold cs1, chans1. split.
      - destruct (Z.eqb_spec (tmp x) 0) as [H0|H0]; [|apply T]. apply NoDup_app.
        split; [apply T|]. split; [|apply NoDup_singleton]. intros y Hy ->%list_elem_of_singleton.
        apply Hin in Hy. done.
      - intros c Hc. destruct (decide (c = p)) as [->|Hne].
        + rewrite lookup_insert_eq. eexists. split; [done|]. cbn. split; [lia|].
          destruct (Z.eqb_spec (tmp x) 0) as [H0|H0]; [rewrite elem_of_app, list_elem_of_singleton; intuition lia|].
          rewrite Hin. intuition lia.
        + rewrite lookup_insert_ne by done. destruct (ta_some _ _ _ T c Hc) as (y & Hy & Hy0 & Hyc).
          exists y. split; [done|]. split; [done|]. rewrite <-Hyc. destruct (_ =? 0); [|done].
          rewrite elem_of_app, list_elem_of_singleton. intuition congruence.
      - intros c Hc. destruct (_ =? 0); [|by eapply ta_in].
        apply elem_of_app in Hc as [Hc| ->%list_elem_of_singleton]; [by eapply ta_in|]. apply HU, list_elem_of_here. }
    destruct (IH cs1 chans1 T1) as (cs' & chans' & E & T' & Hc').
    + intros q Hq. apply HU. by apply list_elem_of_further.
    + done.
    + intros c y Hy Hc. unfold cs1 in Hy. destruct (decide (c = p)) as [->|Hne].
      * rewrite lookup_insert_eq in Hy. injection Hy as <-. cbn. lia.
      * rewrite lookup_insert_ne in Hy by done.
        pose proof (Hlim c y Hy (list_elem_of_further _ _ _ Hc)) as Hl'.
        rewrite occ_cons, decide_False in Hl' by congruence. exact Hl'.
    + exists cs', chans'. split; [done|]. split; [done|]. intros c. rewrite Hc'. unfold cs1.
      rewrite occ_cons. destruct (decide (p = c)) as [->|Hne].
      * rewrite lookup_insert_eq, Hx. cbn. unfold with_tmp. cbn. do 2 f_equal. lia.
      * by rewrite lookup_insert_ne.
Qed.

Lemma weight_nonneg c q : (∀ r, r ∈ q → 0 < priority r) → 0 ≤ weight c q.
Proof. intros H. apply zsum_nonneg. intros r Hr. specialize (H r Hr). nia. Qed.

Lemma add_priorities_spec U cs q chans :
  tallied U cs chans → (∀ r p, r ∈ q → p ∈ channel r → U p) → (∀ r, r ∈ q → 0 < priority r) →
  (∀ c x, cs !! c = Some x → U c → tmp x + weight c q < inf) →
  ∃ cs' chans', add_priorities cs q chans = Some (cs', chans') ∧ tallied U cs' chans' ∧
    ∀ c, cs' !! c = (λ x, with_tmp (tmp x + weight c q) x) <$> cs !! c.
Proof.
  revert cs chans. induction q as [|r q IH]; intros cs chans T HU Hp Hlim; cbn [add_priorities].
  - exists cs, chans. split; [done|]. split; [done|]. intros c.
    destruct (cs !! c) as [x|]; [|done]. cbn. change (weight c []) with 0. rewrite Z.add_0_r. by destruct x.
  - assert (∀ c, 0 ≤ weight c q) as Hw.
    { intros c. apply weight_nonneg. intros r' Hr'. apply Hp. by apply list_elem_of_further. }
    assert (∀ c, weight c (r :: q) = Z.of_nat (occ c (channel r)) * priority r + weight c q) as Hwr by done.
    destruct (add_priority_spec U cs (channel r) (priority r) chans) as (cs1 & chans1 & E1 & T1 & Hc1).
    + done.
    + intros p. apply HU. apply list_elem_of_here.
    + apply Hp. apply list_elem_of_here.
    + intros c x Hx Hc. pose proof (Hlim c x Hx ltac:(eapply HU; [apply list_elem_of_here|done])) as Hl.
      rewrite Hwr in Hl. specialize (Hw c). lia.
    + rewrite E1. cbn [mbind option_bind]. destruct (IH cs1 chans1) as (cs' & chans' & E & T' & Hc').
      * done.
      * intros r' p Hr'. apply HU. by apply list_elem_of_further.
      * intros r' Hr'. apply Hp. by apply list_elem_of_further.
      * intros c x Hx Hc. rewrite Hc1 in Hx. destruct (cs !! c) as [y|] eqn:Hy; [|done].
        injection Hx as <-. specialize (Hlim c y Hy Hc). rewrite Hwr in Hlim. cbn. lia.
      * exists cs', chans'. split; [done|]. split; [done|]. intros c. rewrite Hc', Hc1, Hwr.
        destruct (cs !! c) as [y|]; [|done]. cbn. unfold with_tmp. cbn. do 2 f_equal. lia.
Qed.

Lemma uses_weight c q : (∀ r, r ∈ q → 0 < priority r) → uses c q ≠ 0 → weight c q ≠ 0.
Proof.
  intros Hp Hu. enough (uses c q ≤ weight c q) by (pose proof (uses_nonneg c q); lia).
  apply zsum_le. intros r Hr. specialize (Hp r Hr). nia.
Qed.

Lemma uses_elem c q : uses c q ≠ 0 ↔ ∃ r, r ∈ q ∧ c ∈ channel r.
Proof.
  split.
  - intros Hu. induction q as [|r q IH]; [done|]. destruct (decide (c ∈ channel r)) as [Hc|Hc].
    + exists r. split; [apply list_elem_of_here|done].
    + destruct IH as (r' & Hr' & Hc').
      * intros H0. apply Hu. unfold uses in *. by rewrite zsum_cons, H0, occ_zero.
      * exists r'. split; [by apply list_elem_of_further|done].
  - intros (r & Hr & Hc). apply occ_pos in Hc.
    pose proof (zsum_elem (λ r, Z.of_nat (occ c (channel r))) q r) as H. cbn in H.
    unfold uses. specialize (H ltac:(intros; lia) Hr). lia.
Qed.

(** a channel before the round, and when the requests are assigned *)
Definition prepared (dt : Z) (live gone : list bw_request) (c : Z) (x : bandwidth_channel) : bandwidth_channel :=
  let x := charge (- holding c gone) x in
  if uses c live =? 0 then x else update_quota dt (with_tmp (weight c live) x).

Lemma charge_tmp n x : tmp (charge n x) = tmp x.
Proof. unfold charge. by destruct (_ =? 0). Qed.

Lemma with_tmp_with_tmp n k x : with_tmp n (with_tmp k x) = with_tmp n x.
Proof. done. Qed.

Lemma prepare_spec dis dt cs q bytes :
  all_there cs q → (∀ r, r ∈ q → 0 < priority r) → (∀ c, weight c q < inf) →
  ∃ cs1 cs2 chans cs3,
    drop_disconnecting dis cs q bytes =
      Some (cs1, live_of dis q, with_assigned 0 <$> gone_of dis q, bytes - zsum remaining (gone_of dis q)) ∧
    add_priorities cs1 (live_of dis q) [] = Some (cs2, chans) ∧
    update_all cs2 chans (update_quota dt) = Some cs3 ∧
    ∀ c, cs3 !! c = prepared dt (live_of dis q) (gone_of dis q) c <$> cs !! c.
Proof.
  intros Hq Hp Hlim. destruct (drop_spec dis cs q bytes Hq) as (cs1 & E1 & Hc1).
  set (live := live_of dis q) in *. set (gone := gone_of dis q) in *.
  assert (∀ r, r ∈ live → 0 < priority r) as Hlp by (intros r Hr; eapply Hp, live_elem, Hr).
  assert (all_there cs1 live) as Hl1.
  { intros r Hr. eapply there_fmap; [exact Hc1|]. eapply Hq, live_elem, Hr. }
  set (U := λ c, uses c live ≠ 0).
  assert (∀ c x, U c → cs1 !! c = Some x → tmp x = 0) as Htmp.
  { intros c x Hu Hx. rewrite Hc1 in Hx. destruct (cs !! c) as [y|]; [|done]. injection Hx as <-.
    unfold reset. by rewrite (proj2 (Z.eqb_neq _ _)). }
  destruct (add_priorities_spec U cs1 live []) as (cs2 & chans & E2 & T & Hc2).
  - split; [apply NoDup_nil_2| |by intros c ?%not_elem_of_nil]. intros c Hc.
    pose proof (proj1 (uses_elem _ _) Hc) as (r & Hr & Hcr). destruct (Hl1 r Hr c Hcr) as [x Hx].
    exists x. split; [done|]. rewrite (Htmp c x Hc Hx). split; [done|].
    split; [by intros ?%not_elem_of_nil|done].
  - intros r p Hr Hpr. apply uses_elem. by exists r.
  - done.
  - intros c x Hx Hc. rewrite (Htmp c x Hc Hx). specialize (Hlim c).
    pose proof (weight_nonneg c gone) as Hg. unfold weight in *. rewrite <-(sum_live_gone _ dis) in Hlim.
    fold live gone in Hlim. specialize (Hg ltac:(intros r Hr; eapply Hp, gone_elem, Hr)). lia.
  - destruct (update_all_spec cs2 chans (update_quota dt)) as (cs3 & E3 & Hc3).
    { intros c Hc. destruct (ta_some _ _ _ T c (ta_in _ _ _ T c Hc)) as (x & Hx & _). by eexists. }
    exists cs1, cs2, chans, cs3. split; [done|]. split; [done|]. split; [done|].
    intros c. rewrite Hc3, Hc2, Hc1. destruct (cs !! c) as [x|] eqn:Hx; [|done]. cbn. f_equal. unfold prepared.
    destruct (Z.eqb_spec (uses c live) 0) as [Hu|Hu].
    + rewrite occ_zero by (intros Hc; by apply (ta_in _ _ _ T) in Hc). cbn.
      assert (weight c live = 0) as ->.
      { unfold weight. transitivity (zsum (λ r : bw_request, 0 * 1) live); [|rewrite zsum_mul; lia].
        apply zsum_ext. intros r Hr. rewrite occ_zero; [lia|]. intros Hc.
        assert (uses c live ≠ 0) by (apply uses_elem; by exists r). lia. }
      rewrite Hu. change (reset 0 ?y) with y. rewrite Z.add_0_r. by destruct (charge _ x).
    + assert (c ∈ chans) as Hc.
      { destruct (ta_some _ _ _ T c Hu) as (y & Hy & _ & Hyc). apply Hyc. rewrite Hc2 in Hy.
        destruct (cs1 !! c) as [z|] eqn:Hz; [|done]. injection Hy as <-. cbn.
        rewrite (Htmp c z Hu Hz). by apply uses_weight. }
      rewrite occ_NoDup by (done || apply T). cbn [Nat.iter]. unfold reset.
      rewrite (proj2 (Z.eqb_neq _ _)) by done. by rewrite with_tmp_with_tmp.
Qed.

(** * Assigning the quotas *)

(** what an assignment leaves alone of a channel *)
Definition rate (x : bandwidth_channel) : Z * Z * Z := (tmp x, distribute_quota x, m_limit x).

Definition same_rates (cs cs' : channels) : Prop := ∀ c, rate <$> cs !! c = rate <$> cs' !! c.

Lemma least_quota_rates cs cs' ps prio quota :
  same_rates cs cs' → least_quota cs ps prio quota = least_quota cs' ps prio quota.
Proof.
  intros H. revert quota. induction ps as [|p ps IH]; intros quota; [done|]. cbn [least_quota].
  specialize (H p). destruct (cs !! p) as [x|], (cs' !! p) as [y|]; try done. cbn in *.
  unfold rate in H. injection H as -> -> ->. apply IH.
Qed.

(** a channel that has been prepared for a request of priority [prio] *)
Definition serving (prio : Z) (x : bandwidth_channel) : Prop :=
  prio ≤ tmp x ∧ 0 ≤ distribute_quota x ≤ inf.

Lemma least_quota_spec cs ps prio quota :
  0 < prio → 0 ≤ quota → (∀ p, p ∈ ps → ∃ x, cs !! p = Some x ∧ serving prio x) →
  ∃ g, least_quota cs ps prio quota = Some g ∧ 0 ≤ g ≤ quota ∧
    (∀ p x, p ∈ ps → cs !! p = Some x → m_limit x ≠ 0 → g * tmp x ≤ distribute_quota x * prio) ∧
    (g = quota ∨ ∃ p x, p ∈ ps ∧ cs !! p = Some x ∧ m_limit x ≠ 0 ∧
      g = Z.quot (distribute_quota x * prio) (tmp x)).
Proof.
  intros Hp. revert quota. induction ps as [|p ps IH]; intros quota Hq Hps; cbn [least_quota].
  - exists quota. split; [done|]. split; [lia|]. split; [by intros p x ?%not_elem_of_nil|by left].
  - destruct (Hps p (list_elem_of_here _ _)) as (x & Hx & Ht & Hd). rewrite Hx. cbn [mbind option_bind].
    rewrite (proj2 (Z.eqb_neq (tmp x) 0)) by lia.
    set (s := Z.quot (distribute_quota x * prio) (tmp x)).
    assert (0 ≤ s ≤ inf ∧ s * tmp x ≤ distribute_quota x * prio) as [Hs Hs'].
    { unfold s. rewrite Z.quot_div_nonneg by nia.
      pose proof (Z.div_mod (distribute_quota x * prio) (tmp x) ltac:(lia)).
      pose proof (Z.mod_pos_bound (distribute_quota x * prio) (tmp x) ltac:(lia)).
      assert (0 ≤ distribute_quota x * prio / tmp x) by (apply Z.div_pos; nia).
      split; [|nia]. split; [done|]. apply Z.div_le_upper_bound; nia. }
    assert (to_int s = s) as ->.
    { unfold to_int, inf in *. rewrite Z.mod_small; lia. }
    destruct (IH (if m_limit x =? 0 then quota else Z.min s quota)) as (g & E & Hg & Hsh & Hmin).
    + destruct (_ =? _); lia.
    + intros q Hq'. apply Hps. by apply list_elem_of_further.
    + exists g. split; [done|]. split; [destruct (_ =? _) in Hg; lia|]. split.
      * intros q y [->|Hq']%elem_of_cons Hy Hl; [|by eapply Hsh].
        assert (y = x) as -> by congruence. rewrite (proj2 (Z.eqb_neq (m_limit x) 0)) in Hg by done. nia.
      * destruct Hmin as [Hmin|(q & y & Hq' & Hy)]; [|right; exists q, y; split; [by apply list_elem_of_further|done]].
        destruct (Z.eqb_spec (m_limit x) 0) as [Hl|Hl]; [by left|].
        destruct (Z.min_spec s quota) as [[_ Hm]|[_ Hm]]; [right|left; congruence].
        exists p, x. split; [apply list_elem_of_here|]. split; [done|]. split; [done|]. by rewrite Hmin.
Qed.

Definition grant (cs : channels) (r : bw_request) : Z :=
  default 0 (least_quota cs (take 5 (channel r)) (priority r) (remaining r)).

Definition served (cs : channels) (r : bw_request) : bw_request :=
  with_assigned (assigned r + grant cs r) (with_ttl (ttl r - 1) r).

(** a request that is answered at the end of the round *)
Definition answered (r : bw_request) : bool :=
  (assigned r =? request_size r) || ((ttl r <=? 0) && (0 <? assigned r)).

Definition serveable (cs : channels) (r : bw_request) : Prop :=
  0 < remaining r ∧ 0 < priority r ∧ ∀ c, c ∈ channel r → ∃ x, cs !! c = Some x ∧ serving (priority r) x.

Lemma take_elem {A} (n : nat) (l : list A) x : x ∈ take n l → x ∈ l.
Proof. intros H. rewrite <-(take_drop n l). apply elem_of_app. by left. Qed.

Lemma grant_spec cs r :
  serveable cs r →
  least_quota cs (take 5 (channel r)) (priority r) (remaining r) = Some (grant cs r) ∧
  0 ≤ grant cs r ≤ remaining r ∧
  (∀ c x, c ∈ take 5 (channel r) → cs !! c = Some x → m_limit x ≠ 0 →
    grant cs r * tmp x ≤ distribute_quota x * priority r) ∧
  (grant cs r = remaining r ∨ ∃ c x, c ∈ take 5 (channel r) ∧ cs !! c = Some x ∧ m_limit x ≠ 0 ∧
    grant cs r = Z.quot (distribute_quota x * priority r) (tmp x)).
Proof.
  intros (Hr & Hp & Hc).
  destruct (least_quota_spec cs (take 5 (channel r)) (priority r) (remaining r)) as (g & E & Hg & Hs); [done|lia| |].
  - intros p Hp'. eapply Hc, take_elem, Hp'.
  - unfold grant. rewrite E. by split.
Qed.

(** what the requests are given of a channel *)
Definition given (cs : channels) (c : Z) (q : list bw_request) : Z :=
  zsum (λ r, Z.of_nat (occ c (take 5 (channel r))) * grant cs r) q.

Lemma rate_charge n x : rate (charge n x) = rate x.
Proof. unfold charge. by destruct (_ =? 0). Qed.

Lemma assign_bandwidth_spec cs0 cs r :
  same_rates cs0 cs → serveable cs0 r →
  ∃ cs', assign_bandwidth cs r = Some (grant cs0 r, served cs0 r, cs') ∧ same_rates cs0 cs' ∧
    ∀ c, cs' !! c = charge (Z.of_nat (occ c (take 5 (channel r))) * grant cs0 r) <$> cs !! c.
Proof.
  intros H S. destruct (grant_spec _ _ S) as (E & _ & _). destruct S as (Hr & Hp & Hc).
  unfold assign_bandwidth. unfold remaining in *. rewrite (proj2 (Z.eqb_neq _ _)) by lia.
  rewrite <-(least_quota_rates cs0 cs) by done. cbn [priority channel with_ttl]. rewrite E. cbn [mbind option_bind].
  destruct (update_all_spec cs (take 5 (channel r)) (use_quota (grant cs0 r))) as (cs' & -> & Hcs').
  - intros c Hct. apply take_elem in Hct. destruct (Hc c Hct) as (x & Hx & _). specialize (H c). rewrite Hx in H.
    by destruct (cs !! c).
  - exists cs'. split; [done|].
    assert (∀ c, cs' !! c = charge (Z.of_nat (occ c (take 5 (channel r))) * grant cs0 r) <$> cs !! c) as Hch.
    { intros c. rewrite Hcs'. destruct (cs !! c); [|done]. cbn. f_equal. apply iter_use_quota. }
    split; [|done]. intros c. rewrite H, Hch. destruct (cs !! c); [|done]. cbn. by rewrite rate_charge.
Qed.

Definition waiting (cs : channels) (q : list bw_request) : list bw_request :=
  filter (λ r, answered r = false) (served cs <$> q).

Definition finished (cs : channels) (q : list bw_request) : list bw_request :=
  filter (λ r, answered r = true) (served cs <$> q).

Lemma waiting_cons cs r q :
  waiting cs (r :: q) = if answered (served cs r) then waiting cs q else served cs r :: waiting cs q.
Proof. unfold waiting. rewrite fmap_cons, filter_cons. by destruct (answered _). Qed.

Lemma finished_cons cs r q :
  finished cs (r :: q) = if answered (served cs r) then served cs r :: finished cs q else finished cs q.
Proof. unfold finished. rewrite fmap_cons, filter_cons. by destruct (answered _). Qed.

Lemma sum_waiting_finished f cs q :
  zsum f (waiting cs q) + zsum f (finished cs q) = zsum (λ r, f (served cs r)) q.
Proof.
  rewrite <-(zsum_fmap (served cs) f), <-(zsum_filter (λ r, answered r = false) f (served cs <$> q)).
  f_equal. f_equal.
  apply list_filter_iff. intros r. destruct (answered r); intuition congruence.
Qed.

Lemma assign_all_spec cs0 cs q bytes :
  same_rates cs0 cs → (∀ r, r ∈ q → serveable cs0 r) →
  ∃ cs', assign_all cs q bytes =
      Some (cs', waiting cs0 q, finished cs0 q,
            bytes - (zsum (grant cs0) q + zsum remaining (finished cs0 q))) ∧
    ∀ c, cs' !! c = charge (given cs0 c q) <$> cs !! c.
Proof.
  revert cs bytes. induction q as [|r q IH]; intros cs bytes H S; cbn [assign_all].
  - exists cs. split; [do 2 f_equal; change (bytes = bytes - 0); lia|]. intros c.
    change (given cs0 c []) with 0. destruct (cs !! c); [|done]. cbn. by rewrite charge_0.
  - destruct (assign_bandwidth_spec cs0 cs r H (S r (list_elem_of_here _ _))) as (cs1 & E & H1 & Hc1).
    rewrite E. cbn [mbind option_bind]. rewrite waiting_cons, finished_cons.
    change (_ || _) with (answered (served cs0 r)).
    assert (∀ r', r' ∈ q → serveable cs0 r') as S' by (intros r' Hr'; apply S; by apply list_elem_of_further).
    assert (∀ cs' : channels, (∀ c, cs' !! c = charge (given cs0 c q) <$> cs1 !! c) →
      ∀ c, cs' !! c = charge (given cs0 c (r :: q)) <$> cs !! c) as Hgive.
    { intros cs' Hc' c. rewrite Hc', Hc1. destruct (cs !! c); [|done]. cbn. rewrite charge_charge.
      do 2 f_equal. unfold given. rewrite zsum_cons. lia. }
    destruct (answered (served cs0 r)).
    + destruct (IH cs1 (bytes - (grant cs0 r + remaining (served cs0 r))) H1 S') as (cs' & E' & Hc').
      fold (remaining (served cs0 r)). rewrite E'. cbn [mbind option_bind]. exists cs'. split; [|by apply Hgive].
      rewrite !zsum_cons. do 2 f_equal. lia.
    + destruct (IH cs1 (bytes - grant cs0 r) H1 S') as (cs' & E' & Hc').
      rewrite E'. cbn [mbind option_bind]. exists cs'. split; [|by apply Hgive].
      rewrite !zsum_cons. do 2 f_equal. lia.
Qed.

Record channel_ok (x : bandwidth_channel) : Prop := {
  co_tmp : 0 ≤ tmp x;
  co_quota : 0 ≤ distribute_quota x ≤ inf;
  co_limit : 0 ≤ m_limit x < inf
}.

Record request_ok (cs : channels) (r : bw_request) : Prop := {
  ro_priority : 0 < priority r;
  ro_assigned : 0 ≤ assigned r < request_size r;
  ro_there : there cs (channel r)
}.

Record manager_ok (m : bandwidth_manager) (cs : channels) : Prop := {
  mo_bytes : m_queued_bytes m = zsum remaining (m_queue m);
  mo_requests r : r ∈ m_queue m → request_ok cs r;
  mo_channels c x : cs !! c = Some x → channel_ok x
}.

Lemma check_invariant_spec m :
  check_invariant m = (zsum remaining (m_queue m) =? m_queued_bytes m).
Proof.
  unfold check_invariant. f_equal.
  enough (∀ acc, fold_left (λ queued r, queued + (request_size r - assigned r)) (m_queue m) acc =
    acc + zsum remaining (m_queue m)) as H by (rewrite H; lia).
  induction (m_queue m) as [|r q IH]; intros acc; cbn [fold_left]; [change (zsum remaining []) with 0; lia|].
  rewrite IH, zsum_cons. unfold remaining. lia.
Qed.

(** * The quota of a round *)

(** the bytes that are added in [dt] milliseconds *)
Definition added (dt limit : Z) : Z := (limit * dt + 500) / 1000.

Lemma added_nonneg dt limit : 0 ≤ dt → 0 ≤ limit → 0 ≤ added dt limit.
Proof. intros. apply Z.div_pos; nia. Qed.

Lemma update_quota_same dt x : tmp (update_quota dt x) = tmp x ∧ m_limit (update_quota dt x) = m_limit x.
Proof. unfold update_quota. by destruct (_ =? 0). Qed.

Lemma update_quota_spec dt x :
  0 ≤ dt → 0 < m_limit x < inf →
  let y := update_quota dt x in
  distribute_quota y = Z.max (m_quota_left y) 0 ∧ m_quota_left y ≤ inf ∧
  m_quota_left y ≤ m_quota_left x + added dt (m_limit x) ∧ (0 ≤ m_quota_left x → 0 ≤ m_quota_left y).
Proof.
  intros Hdt Hl. unfold update_quota. rewrite (proj2 (Z.eqb_neq _ _)) by lia.
  rewrite Z.quot_div_nonneg by nia. fold (added dt (m_limit x)).
  pose proof (added_nonneg dt (m_limit x) Hdt ltac:(lia)) as Ha.
  assert (0 ≤ inf) by done. cbn [distribute_quota m_quota_left]. set (q := if _ <? _ then _ else _).
  assert (q ≤ inf ∧ q ≤ m_quota_left x + added dt (m_limit x) ∧ (0 ≤ m_quota_left x → 0 ≤ q)) as (Hq & Hq1 & Hq2).
  { unfold q. destruct (Z.ltb_spec (inf - m_quota_left x) (added dt (m_limit x))); [split; [done|]; split; lia|].
    destruct (Z.ltb_spec (m_limit x) (Z.quot (m_quota_left x + added dt (m_limit x)) 3)) as [Hx|Hx]; [|lia].
    assert (0 ≤ m_quota_left x + added dt (m_limit x)).
    { destruct (decide (0 ≤ m_quota_left x + added dt (m_limit x))) as [|Hn]; [done|].
      assert (Z.quot (m_quota_left x + added dt (m_limit x)) 3 ≤ 0); [|lia].
      rewrite <-(Z.opp_involutive (_ + _)), Z.quot_opp_l by lia.
      pose proof (Z.quot_pos (- (m_quota_left x + added dt (m_limit x))) 3). lia. }
    rewrite Z.quot_div_nonneg in Hx by lia.
    pose proof (Z.mul_div_le (m_quota_left x + added dt (m_limit x)) 3). lia. }
  split; [|by split]. unfold to_int, inf in *. rewrite Z.mod_small; lia.
Qed.

Lemma charge_same n x :
  tmp (charge n x) = tmp x ∧ distribute_quota (charge n x) = distribute_quota x ∧
  m_limit (charge n x) = m_limit x ∧ (m_limit x ≠ 0 → m_quota_left (charge n x) = m_quota_left x - n).
Proof. unfold charge. destruct (Z.eqb_spec (m_limit x) 0) as [H|H]; cbn; intuition. Qed.

Lemma charge_ok n x : channel_ok x → channel_ok (charge n x).
Proof. destruct (charge_same n x) as (H1 & H2 & H3 & _). intros []. split; congruence. Qed.

Lemma prepared_limit dt live gone c x : m_limit (prepared dt live gone c x) = m_limit x.
Proof.
  unfold prepared. destruct (charge_same (- holding c gone) x) as (_ & _ & H & _).
  destruct (_ =? 0); [done|]. destruct (update_quota_same dt (with_tmp (weight c live) (charge (- holding c gone) x)))
    as [_ ->]. exact H.
Qed.

Lemma prepared_spec dt live gone c x :
  0 ≤ dt → channel_ok x → (∀ r, r ∈ live → 0 < priority r) →
  let y := prepared dt live gone c x in
  channel_ok y ∧ (uses c live ≠ 0 → tmp y = weight c live) ∧
  (m_limit x ≠ 0 → uses c live ≠ 0 → distribute_quota y = Z.max (m_quota_left y) 0) ∧
  (m_limit x ≠ 0 → m_quota_left y ≤ m_quota_left x + holding c gone + added dt (m_limit x)) ∧
  (m_limit x ≠ 0 → 0 ≤ m_quota_left x → 0 ≤ holding c gone → 0 ≤ m_quota_left y).
Proof.
  intros Hdt Hx Hp. unfold prepared. pose proof (charge_ok (- holding c gone) x Hx) as Hz.
  destruct (charge_same (- holding c gone) x) as (_ & _ & Hl & Hq). set (z := charge _ x) in *.
  pose proof (weight_nonneg c live Hp). pose proof (co_limit _ Hx).
  pose proof (added_nonneg dt (m_limit x) Hdt ltac:(lia)).
  destruct (Z.eqb_spec (uses c live) 0) as [Hu|Hu].
  { split; [done|]. split; [done|]. split; [done|]. split; intros Hl0; rewrite Hq by done; lia. }
  set (w := with_tmp (weight c live) z). destruct (update_quota_same dt w) as [Ht Hlw].
  assert (m_limit w = m_limit x) as Hlx by (rewrite <-Hl; done).
  destruct (decide (m_limit x = 0)) as [Hlz|Hlz].
  - assert (update_quota dt w = w) as -> by (unfold update_quota; rewrite Hlx, Hlz; done).
    split; [destruct Hz; by split|]. split; [done|]. by split.
  - destruct (update_quota_spec dt w) as (Hd & Hi & Ha & Hn); [done|rewrite Hlx; lia|].
    change (m_quota_left w) with (m_quota_left z) in *. rewrite Hq in * by done. rewrite Hlx in *.
    split; [split; [rewrite Ht; done|rewrite Hd; unfold inf in *; lia|rewrite Hlw; lia]|].
    split; [done|]. split; [done|]. split; intros _; lia.
Qed.

(** * A round *)

Lemma served_remaining cs r : remaining (served cs r) = remaining r - grant cs r.
Proof. unfold remaining. cbn. lia. Qed.

Lemma given_bound cs live c x :
  (∀ r, r ∈ live → serveable cs r) → cs !! c = Some x → m_limit x ≠ 0 → channel_ok x →
  (uses c live ≠ 0 → tmp x = weight c live) → given cs c live ≤ distribute_quota x.
Proof.
  intros S Hx Hl Hok Ht. pose proof (co_quota _ Hok). destruct (decide (uses c live = 0)) as [Hu|Hu].
  - unfold given. transitivity (zsum (λ _ : bw_request, 0 * 1) live); [|rewrite zsum_mul; lia].
    apply zsum_le. intros r Hr. rewrite occ_zero; [lia|]. intros Hc%take_elem.
    assert (uses c live ≠ 0) by (apply uses_elem; by exists r). lia.
  - pose proof (uses_weight c live ltac:(intros r Hr; by apply S) Hu).
    pose proof (weight_nonneg c live ltac:(intros r Hr; by apply S)).
    enough (weight c live * given cs c live ≤ distribute_quota x * weight c live) by nia.
    unfold given, weight at 2. rewrite <-!zsum_mul. apply zsum_le. intros r Hr.
    destruct (grant_spec cs r (S r Hr)) as (_ & Hg & Hs & _). destruct (S r Hr) as (_ & Hp & _).
    pose proof (occ_take c 5 (channel r)). destruct (decide (c ∈ take 5 (channel r))) as [Hc|Hc].
    + specialize (Hs c x Hc Hx Hl). rewrite Ht in Hs by done.
      transitivity (Z.of_nat (occ c (take 5 (channel r))) * (distribute_quota x * priority r)); nia.
    + rewrite (occ_zero c (take 5 _)) by done. nia.
Qed.

Lemma live_serveable dt live gone cs cs3 :
  0 ≤ dt → (∀ c x, cs !! c = Some x → channel_ok x) → (∀ r, r ∈ live → request_ok cs r) →
  (∀ c, cs3 !! c = prepared dt live gone c <$> cs !! c) → ∀ r, r ∈ live → serveable cs3 r.
Proof.
  intros Hdt Hch Hr Hc3 r Hin. destruct (Hr r Hin) as [Hp Ha Ht]. unfold serveable, remaining.
  split; [lia|]. split; [done|]. intros c Hc. destruct (Ht c Hc) as [x Hx]. rewrite Hc3, Hx. eexists. split; [done|].
  assert (∀ r, r ∈ live → 0 < priority r) as Hpr by (intros r' Hr'; by apply (ro_priority cs), Hr).
  destruct (prepared_spec dt live gone c x Hdt (Hch c x Hx) Hpr) as ([_ Hq _] & Htmp & _).
  split; [|done]. rewrite Htmp by (apply uses_elem; by exists r). unfold weight.
  transitivity (Z.of_nat (occ c (channel r)) * priority r).
  - apply occ_pos in Hc. nia.
  - apply (zsum_elem (λ r, Z.of_nat (occ c (channel r)) * priority r)); [|done].
    intros y Hy. specialize (Hpr y Hy). nia.
Qed.

Lemma waiting_elem cs live r :
  r ∈ waiting cs live → ∃ r0, r0 ∈ live ∧ r = served cs r0 ∧ answered r = false.
Proof. intros [Ha Hr]%list_elem_of_filter. apply list_elem_of_fmap in Hr as (r0 & -> & Hr0). by exists r0. Qed.

Lemma finished_elem cs live r :
  r ∈ finished cs live → ∃ r0, r0 ∈ live ∧ r = served cs r0 ∧ answered r = true.
Proof. intros [Ha Hr]%list_elem_of_filter. apply list_elem_of_fmap in Hr as (r0 & -> & Hr0). by exists r0. Qed.

Definition clamp (dt : Z) : Z := if 3000 <? dt then 3000 else dt.

Lemma round_spec m cs dis dt :
  manager_ok m cs → m_abort m = false → m_queue m ≠ [] → (∀ c, weight c (m_queue m) < inf) → 0 ≤ dt →
  let live := live_of dis (m_queue m) in
  let gone := gone_of dis (m_queue m) in
  ∃ cs3 cs',
    let m' := Manager (waiting cs3 live) (zsum remaining (waiting cs3 live)) (m_channel m) false in
    update_quotas m cs dis dt =
      Some (m', cs', rev ((with_assigned 0 <$> gone) ++ finished cs3 live)) ∧
    manager_ok m' cs' ∧ (∀ r, r ∈ live → serveable cs3 r) ∧
    (∀ c, cs3 !! c = prepared (clamp dt) live gone c <$> cs !! c) ∧
    (∀ c, cs' !! c = charge (given cs3 c live) <$> cs3 !! c).
Proof.
  intros M Hab Hq Hw Hdt live gone. unfold update_quotas. rewrite Hab, bool_decide_eq_false_2 by done.
  fold (clamp dt). assert (0 ≤ clamp dt) as Hcl by (unfold clamp; destruct (_ <? _); lia).
  destruct (prepare_spec dis (clamp dt) cs (m_queue m) (m_queued_bytes m))
    as (cs1 & cs2 & chans & cs3 & E1 & E2 & E3 & Hc3).
  { intros r Hr. apply (mo_requests _ _ M r Hr). }
  { intros r Hr. apply (mo_requests _ _ M r Hr). }
  { done. }
  fold live gone in E1, E2, Hc3. rewrite E1. cbn [mbind option_bind]. rewrite E2. cbn [mbind option_bind].
  rewrite E3. cbn [mbind option_bind].
  assert (∀ r, r ∈ live → request_ok cs r) as Hlive by (intros r Hr; eapply (mo_requests _ _ M), live_elem, Hr).
  pose proof (live_serveable _ _ _ _ _ Hcl (mo_channels _ _ M) Hlive Hc3) as S.
  destruct (assign_all_spec cs3 cs3 live (m_queued_bytes m - zsum remaining gone)) as (cs' & E4 & Hc'); [done|done|].
  rewrite E4. cbn [mbind option_bind]. exists cs3, cs'. cbv zeta.
  assert (m_queued_bytes m - zsum remaining gone - (zsum (grant cs3) live + zsum remaining (finished cs3 live)) =
    zsum remaining (waiting cs3 live)) as ->.
  { rewrite (mo_bytes _ _ M), <-(sum_live_gone remaining dis). fold live gone.
    pose proof (sum_waiting_finished remaining cs3 live) as Hs.
    rewrite (zsum_ext (λ r, remaining (served cs3 r)) (λ r, remaining r + (-1) * grant cs3 r)) in Hs by (intros r _; cbn beta; rewrite served_remaining; lia).
    rewrite zsum_plus, zsum_mul in Hs. lia. }
  split; [done|]. split; [|done]. split; [done| |].
  - intros r (r0 & Hr0 & -> & Ha)%waiting_elem. destruct (Hlive r0 Hr0) as [Hp Has Ht].
    destruct (grant_spec _ _ (S r0 Hr0)) as (_ & Hg & _). unfold remaining in Hg. split; [done| |].
    + apply orb_false_iff in Ha as [Ha _]. apply Z.eqb_neq in Ha. cbn in *. lia.
    + intros c Hc. destruct (Ht c Hc) as [x Hx]. rewrite Hc', Hc3, Hx. by eexists.
  - intros c x Hx. rewrite Hc', Hc3 in Hx. destruct (cs !! c) as [y|] eqn:Hy; [|done]. injection Hx as <-.
    apply charge_ok. apply (prepared_spec (clamp dt) live gone c y Hcl (mo_channels _ _ M c y Hy)).
    intros r Hr. by apply (ro_priority cs), Hlive.
Qed.

(** ** The account of a channel *)

Lemma given_unused cs live c : uses c live = 0 → given cs c live = 0.
Proof.
  intros Hu. unfold given. transitivity (zsum (λ _ : bw_request, 0 * 1) live); [|rewrite zsum_mul; lia].
  apply zsum_ext. intros r Hr. rewrite occ_zero; [lia|]. intros Hc%take_elem.
  assert (uses c live ≠ 0) by (apply uses_elem; by exists r). lia.
Qed.

(** the requests have no more channels than [assign_bandwidth] looks at *)
Definition few_channels (q : list bw_request) : Prop := ∀ r, r ∈ q → (length (channel r) ≤ 5)%nat.

Lemma holding_served cs live c :
  few_channels live →
  holding c (waiting cs live) + holding c (finished cs live) = holding c live + given cs c live.
Proof.
  intros Hf. unfold holding, given. rewrite sum_waiting_finished, <-zsum_plus. apply zsum_ext. intros r Hr.
  rewrite take_ge by (by apply Hf). cbn. lia.
Qed.

Lemma holding_nonneg c q : (∀ r, r ∈ q → 0 ≤ assigned r) → 0 ≤ holding c q.
Proof. intros H. apply zsum_nonneg. intros r Hr. specialize (H r Hr). nia. Qed.

(** a channel after the round *)
Definition after_round (cs3 : channels) (dt : Z) (live gone : list bw_request) (c : Z) (x : bandwidth_channel)
    : bandwidth_channel := charge (given cs3 c live) (prepared dt live gone c x).

Lemma round_account (cs cs3 : channels) live gone dt c x :
  0 ≤ dt → channel_ok x → cs !! c = Some x → 0 < m_limit x →
  (∀ c, cs3 !! c = prepared dt live gone c <$> cs !! c) → (∀ r, r ∈ live → serveable cs3 r) →
  few_channels live → (∀ r, r ∈ gone → 0 ≤ assigned r) →
  let y := after_round cs3 dt live gone c x in
  let done := rev ((with_assigned 0 <$> gone) ++ finished cs3 live) in
  m_limit y = m_limit x ∧ (0 ≤ m_quota_left x → 0 ≤ m_quota_left y) ∧
  m_quota_left y + holding c (waiting cs3 live) + holding c done ≤
    m_quota_left x + holding c live + holding c gone + added dt (m_limit x).
Proof.
  intros Hdt Hok Hx Hl Hc3 S Hf Hg y fin.
  assert (∀ r, r ∈ live → 0 < priority r) as Hp by (intros r Hr; by apply S).
  destruct (prepared_spec dt live gone c x Hdt Hok Hp) as (Hok3 & Ht & Hd & Hq & Hn).
  pose proof (prepared_limit dt live gone c x) as Hlim. set (x3 := prepared dt live gone c x) in *.
  destruct (charge_same (given cs3 c live) x3) as (_ & _ & Hly & Hqy). fold x3 in y. change (charge _ x3) with y in *.
  rewrite Hlim in *. specialize (Hqy ltac:(lia)). specialize (Hq ltac:(lia)). specialize (Hn ltac:(lia)).
  split; [done|]. split.
  - intros H0. specialize (Hn H0 (holding_nonneg _ _ Hg)). rewrite Hqy.
    destruct (decide (uses c live = 0)) as [Hu|Hu]; [rewrite given_unused by done; lia|].
    enough (given cs3 c live ≤ distribute_quota x3) by (specialize (Hd ltac:(lia) Hu); lia).
    apply given_bound; [done|by rewrite Hc3, Hx|lia|done|done].
  - assert (holding c fin = holding c (finished cs3 live)) as ->.
    { unfold fin, holding. rewrite zsum_rev, zsum_app, zsum_fmap.
      rewrite (zsum_ext _ (λ _ : bw_request, 0 * 1) gone), zsum_mul by (intros; cbn; lia). lia. }
    pose proof (holding_served cs3 live c Hf). lia.
Qed.

(** * A request *)

Definition needs (cs : channels) (blk p : Z) : bool :=
  match cs !! p with Some c => (need_queueing blk c).1 | None => false end.

(** a channel that has the quota pays at once *)
Definition pay (blk : Z) (c : bandwidth_channel) : bandwidth_channel := (need_queueing blk c).2.

Lemma pay_spec blk x :
  0 ≤ m_limit x → channel_ok x →
  channel_ok (pay blk x) ∧ m_limit (pay blk x) = m_limit x ∧
  m_quota_left (pay blk x) = m_quota_left x - (if (need_queueing blk x).1 then 0 else blk) ∧
  (0 ≤ m_quota_left x → 0 ≤ m_quota_left (pay blk x)).
Proof.
  intros Hl [H1 H2 H3]. unfold pay, need_queueing.
  destruct (Z.ltb_spec (m_quota_left x - blk) (m_limit x)); cbn; (split; [by split|]); lia.
Qed.

Lemma filter_ext_in {A} (P Q : A → Prop) `{∀ x, Decision (P x), ∀ x, Decision (Q x)} (l : list A) :
  (∀ x, x ∈ l → P x ↔ Q x) → filter P l = filter Q l.
Proof.
  induction l as [|x l IH]; intros H'; [done|]. rewrite !filter_cons, IH by set_solver.
  pose proof (H' x (list_elem_of_here _ _)). destruct (decide (P x)), (decide (Q x)); try done; intuition.
Qed.

Lemma filter_all {A} (P : A → Prop) `{∀ x, Decision (P x)} (l : list A) :
  (∀ x, x ∈ l → P x) → filter P l = l.
Proof. induction l as [|x l IH]; intros H'; [done|]. rewrite filter_cons_True, IH; set_solver. Qed.

Lemma filter_none {A} (P : A → Prop) `{∀ x, Decision (P x)} (l : list A) :
  (∀ x, x ∈ l → ¬ P x) → filter P l = [].
Proof. induction l as [|x l IH]; intros H'; [done|]. rewrite filter_cons_False, IH; set_solver. Qed.

Lemma queue_channels_spec (cs : channels) blk chan k :
  NoDup chan → there cs chan → (length k + length chan ≤ 10)%nat →
  ∃ cs', queue_channels cs blk chan k = Some (cs', k ++ filter (λ p, needs cs blk p = true) chan) ∧
    ∀ c, cs' !! c = (if decide (c ∈ chan) then pay blk else id) <$> cs !! c.
Proof.
  revert cs k. induction chan as [|p chan IH]; intros cs k Hnd Ht Hlen; cbn [queue_channels].
  - exists cs. split; [by rewrite app_nil_r|]. intros c. destruct (decide _) as [Hc|Hc]; [by apply not_elem_of_nil in Hc|].
    by destruct (cs !! c).
  - apply NoDup_cons in Hnd as [Hp Hnd]. destruct (Ht p (list_elem_of_here _ _)) as [x Hx]. rewrite Hx.
    cbn [mbind option_bind]. destruct (need_queueing blk x) as [q x'] eqn:Eq.
    set (cs1 := <[p := x']> cs).
    assert (there cs1 chan) as Ht1.
    { intros c Hc. unfold cs1. destruct (decide (c = p)) as [->|]; [by rewrite lookup_insert_eq|].
      rewrite lookup_insert_ne by done. apply Ht. by apply list_elem_of_further. }
    assert (filter (λ c, needs cs1 blk c = true) chan = filter (λ c, needs cs blk c = true) chan) as Hfil.
    { apply filter_ext_in. intros c Hc. unfold needs, cs1. by rewrite lookup_insert_ne by (intros ->; done). }
    assert (∀ cs' : channels, (∀ c, cs' !! c = (if decide (c ∈ chan) then pay blk else id) <$> cs1 !! c) →
      ∀ c, cs' !! c = (if decide (c ∈ p :: chan) then pay blk else id) <$> cs !! c) as Hpay.
    { intros cs' Hc' c. rewrite Hc'. unfold cs1. destruct (decide (c = p)) as [->|Hne].
      - rewrite lookup_insert_eq, Hx, decide_False, decide_True by (done || apply list_elem_of_here).
        cbn. unfold pay. by rewrite Eq.
      - rewrite lookup_insert_ne by done. destruct (decide (c ∈ chan)), (decide (c ∈ p :: chan)) as [Hi|Hi]; try done.
        + destruct Hi. by apply list_elem_of_further.
        + apply elem_of_cons in Hi. intuition. }
    rewrite filter_cons. cbn [length] in Hlen.
    assert (needs cs blk p = q) as Hneed by (unfold needs; by rewrite Hx, Eq). rewrite Hneed. destruct q.
    + rewrite (proj2 (Nat.ltb_lt _ _)) by (unfold max_bandwidth_channels; lia).
      destruct (IH cs1 (k ++ [p])) as (cs' & -> & Hc'); [done|done|rewrite length_app; cbn; lia|].
      exists cs'. split; [|by apply Hpay]. by rewrite Hfil, <-app_assoc, decide_True.
    + destruct (IH cs1 k) as (cs' & -> & Hc'); [done|done|lia|]. exists cs'. split; [|by apply Hpay].
      by rewrite Hfil, decide_False.
Qed.

(** * Calls *)

Inductive call :=
  | Ask (pe blk prio : Z) (chan : list Z)
  | Round (dis : Z → bool) (dt : Z)
  | Close.

(** a request of [blk] bytes, with what is returned at once and the channels that
    have the quota for it; or the requests that are answered *)
Inductive event :=
  | Asked (blk result : Z) (paid : list Z)
  | Answered (rs : list bw_request).

Definition step (m : bandwidth_manager) (cs : channels) (ca : call)
    : option (event * bandwidth_manager * channels) :=
  match ca with
  | Ask pe blk prio chan =>
      '(n, m', cs') ← request_bandwidth m cs pe blk prio chan;
      Some (Asked blk n (if m_abort m then [] else filter (λ p, needs cs blk p = false) chan), m', cs')
  | Round dis dt => '(m', cs', rs) ← update_quotas m cs dis dt; Some (Answered rs, m', cs')
  | Close => let '(m', rs) := close m in Some (Answered rs, m', cs)
  end.

Fixpoint run (m : bandwidth_manager) (cs : channels) (calls : list call)
    : option (list event * bandwidth_manager * channels) :=
  match calls with
  | [] => Some ([], m, cs)
  | ca :: calls =>
      '(ev, m, cs) ← step m cs ca;
      '(evs, m, cs) ← run m cs calls;
      Some (ev :: evs, m, cs)
  end.

(** the bytes for the peers that are limited by [c] *)
Definition handed (c : Z) (ev : event) : Z :=
  match ev with
  | Asked blk _ paid => Z.of_nat (occ c paid) * blk
  | Answered rs => holding c rs
  end.

(** what the calls add to a channel at most *)
Definition income (limit : Z) (ca : call) : Z :=
  match ca with Round _ dt => added (clamp dt) limit | _ => 0 end.

Definition call_priority (ca : call) : Z := match ca with Ask _ _ prio _ => prio | _ => 0 end.

Definition call_ok (cs : channels) (ca : call) : Prop :=
  match ca with
  | Ask _ blk prio chan => 0 < blk ∧ 0 < prio ∧ NoDup chan ∧ there cs chan ∧ (length chan ≤ 5)%nat
  | Round _ dt => 0 ≤ dt
  | Close => True
  end.

(** a state between calls; [total] bounds the priorities *)
Record state_ok (m : bandwidth_manager) (cs : channels) (total : Z) : Prop := {
  st_manager : manager_ok m cs;
  st_few : few_channels (m_queue m);
  st_weight c : weight c (m_queue m) ≤ total
}.

(** the account of a limited channel after a call *)
Definition accounted (m m' : bandwidth_manager) (cs cs' : channels) (out : Z → Z) (inc : Z → Z) : Prop :=
  ∀ c x, cs !! c = Some x → 0 < m_limit x → ∃ x', cs' !! c = Some x' ∧ m_limit x' = m_limit x ∧
    (0 ≤ m_quota_left x → 0 ≤ m_quota_left x') ∧
    m_quota_left x' + holding c (m_queue m') + out c ≤
      m_quota_left x + holding c (m_queue m) + inc (m_limit x).

Lemma holding_queue m cs c : manager_ok m cs → 0 ≤ holding c (m_queue m).
Proof. intros M. apply holding_nonneg. intros r Hr. by apply (mo_requests _ _ M). Qed.

Lemma request_ok_mono (cs cs' : channels) r :
  (∀ c, is_Some (cs !! c) → is_Some (cs' !! c)) → request_ok cs r → request_ok cs' r.
Proof. intros H [Hp Ha Ht]. split; [done|done|]. intros c Hc. by apply H, Ht. Qed.

(** ** The three calls *)

Lemma close_step m cs total :
  state_ok m cs total →
  ∃ rs m', step m cs Close = Some (Answered rs, m', cs) ∧ state_ok m' cs total ∧
    accounted m m' cs cs (λ c, holding c rs) (λ _, 0).
Proof.
  intros S. exists (rev (m_queue m)), (Manager [] 0 (m_channel m) true). split; [done|]. split.
  - split; [|by intros r ?%not_elem_of_nil|intros c; change (weight c []) with 0;
      transitivity (weight c (m_queue m)); [apply weight_nonneg; intros r Hr; by apply (mo_requests _ _ (st_manager _ _ _ S))|apply S]].
    split; [done|by intros r ?%not_elem_of_nil|]. eapply mo_channels, S.
  - intros c x Hx Hl. exists x. split; [done|]. split; [done|]. split; [done|].
    change (holding c (m_queue (Manager [] 0 (m_channel m) true))) with 0. unfold holding at 1.
    rewrite zsum_rev. fold (holding c (m_queue m)). lia.
Qed.

Lemma round_step m cs total dis dt :
  state_ok m cs total → total < inf → 0 ≤ dt →
  ∃ rs m' cs', step m cs (Round dis dt) = Some (Answered rs, m', cs') ∧ state_ok m' cs' total ∧
    (∀ c, is_Some (cs !! c) → is_Some (cs' !! c)) ∧
    accounted m m' cs cs' (λ c, holding c rs) (λ limit, added (clamp dt) limit).
Proof.
  intros S Htot Hdt. pose proof (st_manager _ _ _ S) as M. cbn [step].
  assert (0 ≤ clamp dt) as Hcl by (unfold clamp; destruct (_ <? _); lia).
  assert (update_quotas m cs dis dt = Some (m, cs, []) →
    ∃ rs m' cs', ('(m', cs', rs) ← update_quotas m cs dis dt; Some (Answered rs, m', cs')) =
      Some (Answered rs, m', cs') ∧ state_ok m' cs' total ∧
      (∀ c, is_Some (cs !! c) → is_Some (cs' !! c)) ∧
      accounted m m' cs cs' (λ c, holding c rs) (λ limit, added (clamp dt) limit)) as Hnone.
  { intros E. exists [], m, cs. rewrite E. split; [done|]. split; [done|]. split; [done|].
    intros c x Hx Hl. exists x. split; [done|]. split; [done|]. split; [done|].
    change (holding c []) with 0. pose proof (added_nonneg (clamp dt) (m_limit x)). lia. }
  destruct (m_abort m) eqn:Hab; [apply Hnone; unfold update_quotas; by rewrite Hab|].
  destruct (decide (m_queue m = [])) as [Hq|Hq].
  { apply Hnone. unfold update_quotas. by rewrite Hab, bool_decide_eq_true_2. }
  clear Hnone. assert (∀ c, weight c (m_queue m) < inf) as Hw by (intros c; pose proof (st_weight _ _ _ S c); lia).
  destruct (round_spec m cs dis dt M Hab Hq Hw Hdt) as (cs3 & cs' & E & M' & Sv & Hc3 & Hc').
  rewrite E. cbn [mbind option_bind]. eexists _, _, cs'. split; [done|].
  set (live := live_of dis (m_queue m)) in *. set (gone := gone_of dis (m_queue m)) in *.
  assert (few_channels live) as Hfl by (intros r Hr; by eapply (st_few _ _ _ S), live_elem).
  split; [|split].
  - split; [done| |].
    + intros r (r0 & Hr0 & -> & _)%waiting_elem. exact (Hfl r0 Hr0).
    + intros c. cbn [m_queue]. transitivity (weight c live).
      * unfold weight. pose proof (sum_waiting_finished (λ r, Z.of_nat (occ c (channel r)) * priority r) cs3 live) as Hs.
        change (weight c (waiting cs3 live) + weight c (finished cs3 live) = weight c live) in Hs.
        enough (0 ≤ weight c (finished cs3 live)) by (unfold weight in *; lia).
        apply weight_nonneg. intros r (r0 & Hr0 & -> & _)%finished_elem. cbn. by apply Sv.
      * transitivity (weight c (m_queue m)); [|apply S].
        assert (weight c live + weight c gone = weight c (m_queue m)) as Hs by apply sum_live_gone.
        enough (0 ≤ weight c gone) by lia. apply weight_nonneg.
        intros r Hr. by eapply (mo_requests _ _ M), gone_elem.
  - intros c [x Hx]. rewrite Hc', Hc3, Hx. by eexists.
  - intros c x Hx Hl. exists (after_round cs3 (clamp dt) live gone c x).
    split; [rewrite Hc', Hc3, Hx; done|].
    destruct (round_account cs cs3 live gone (clamp dt) c x Hcl (mo_channels _ _ M c x Hx) Hx Hl Hc3 Sv Hfl)
      as (H1 & H2 & H3).
    { intros r Hr. by eapply (mo_requests _ _ M), gone_elem. }
    split; [done|]. split; [done|]. cbn [m_queue].
    assert (holding c live + holding c gone = holding c (m_queue m)) by apply sum_live_gone. lia.
Qed.

(** what [request_bandwidth] does when it is open *)
Lemma request_spec m cs pe blk prio chan :
  m_abort m = false → NoDup chan → there cs chan → (length chan ≤ 10)%nat →
  let k := filter (λ p, needs cs blk p = true) chan in
  ∃ cs', request_bandwidth m cs pe blk prio chan =
      Some (if decide (k = []) then (blk, m, cs')
            else (0, Manager (m_queue m ++ [new_request pe blk prio k]) (m_queued_bytes m + blk)
                       (m_channel m) (m_abort m), cs')) ∧
    ∀ c, cs' !! c = (if decide (c ∈ chan) then pay blk else id) <$> cs !! c.
Proof.
  intros Hab Hnd Ht Hlen k. unfold request_bandwidth. rewrite Hab. destruct chan as [|p chan].
  - exists cs. split; [done|]. intros c.
    destruct (decide _) as [Hc|Hc]; [by apply not_elem_of_nil in Hc|]. by destruct (cs !! c).
  - destruct (queue_channels_spec cs blk (p :: chan) [] Hnd Ht Hlen) as (cs' & E & Hc'). rewrite E.
    cbn [mbind option_bind app]. fold k. exists cs'. split; [|done]. by destruct k.
Qed.

Lemma ask_paid cs blk chan c x :
  NoDup chan → cs !! c = Some x →
  Z.of_nat (occ c (filter (λ p, needs cs blk p = false) chan)) * blk =
  if decide (c ∈ chan) then m_quota_left x - m_quota_left (pay blk x) else 0.
Proof.
  intros Hnd Hx. assert (needs cs blk c = (need_queueing blk x).1) as Hn by (unfold needs; by rewrite Hx).
  assert (m_quota_left x - m_quota_left (pay blk x) = if needs cs blk c then 0 else blk) as ->.
  { rewrite Hn. unfold pay, need_queueing. destruct (_ <? _); cbn; lia. }
  destruct (decide (c ∈ chan)) as [Hc|Hc].
  - destruct (needs cs blk c) eqn:E.
    + rewrite occ_zero; [lia|]. intros [H _]%list_elem_of_filter. congruence.
    + rewrite occ_NoDup; [lia|by apply NoDup_filter|]. by apply list_elem_of_filter.
  - rewrite occ_zero; [lia|]. intros [_ H]%list_elem_of_filter. done.
Qed.

Lemma ask_state m cs cs' total pe blk prio k :
  state_ok m cs total → 0 < blk → 0 < prio → NoDup k → there cs' k → (length k ≤ 5)%nat →
  (∀ c, is_Some (cs !! c) → is_Some (cs' !! c)) → (∀ c x, cs' !! c = Some x → channel_ok x) →
  state_ok (Manager (m_queue m ++ [new_request pe blk prio k]) (m_queued_bytes m + blk)
              (m_channel m) (m_abort m)) cs' (total + prio).
Proof.
  intros S Hb Hp Hnd Ht Hk Hmono Hch. pose proof (st_manager _ _ _ S) as M. split; cbn [m_queue m_queued_bytes].
  - split; cbn [m_queue m_queued_bytes]; [| |done].
    + rewrite zsum_app, (mo_bytes _ _ M), zsum_cons. change (zsum remaining []) with 0.
      change (remaining (new_request pe blk prio k)) with (blk - 0). lia.
    + intros r [Hr| ->%list_elem_of_singleton]%elem_of_app; [|split; [done|cbn; lia|done]].
      by eapply request_ok_mono, (mo_requests _ _ M).
  - intros r [Hr| ->%list_elem_of_singleton]%elem_of_app; [by apply (st_few _ _ _ S)|done].
  - intros c. unfold weight. rewrite zsum_app, zsum_cons. fold (weight c (m_queue m)).
    change (zsum _ []) with 0. cbn [channel priority new_request]. pose proof (st_weight _ _ _ S c).
    destruct (decide (c ∈ k)); [rewrite occ_NoDup by done|rewrite occ_zero by done]; lia.
Qed.

Lemma ask_step m cs total pe blk prio chan :
  state_ok m cs total → call_ok cs (Ask pe blk prio chan) →
  ∃ ev m' cs', step m cs (Ask pe blk prio chan) = Some (ev, m', cs') ∧ state_ok m' cs' (total + prio) ∧
    (∀ c, is_Some (cs !! c) → is_Some (cs' !! c)) ∧ accounted m m' cs cs' (λ c, handed c ev) (λ _, 0).
Proof.
  intros S (Hb & Hp & Hnd & Ht & Hlen). pose proof (st_manager _ _ _ S) as M. cbn [step].
  destruct (m_abort m) eqn:Hab.
  { unfold request_bandwidth. rewrite Hab. cbn. eexists _, m, cs. split; [done|].
    split; [split; [done|apply S|intros c; pose proof (st_weight _ _ _ S c); lia]|]. split; [done|].
    intros c x Hx Hl. exists x. split; [done|]. split; [done|]. split; [done|]. cbn. rewrite occ_nil. lia. }
  destruct (request_spec m cs pe blk prio chan Hab Hnd Ht ltac:(lia)) as (cs' & E & Hc').
  set (k := filter (λ p, needs cs blk p = true) chan) in *. rewrite E.
  assert (∀ c, is_Some (cs !! c) → is_Some (cs' !! c)) as Hmono.
  { intros c [x Hx]. rewrite Hc', Hx. by eexists. }
  assert (∀ c x, cs' !! c = Some x → channel_ok x) as Hch.
  { intros c x Hx. rewrite Hc' in Hx. destruct (cs !! c) as [y|] eqn:Hy; [|done]. injection Hx as <-.
    pose proof (mo_channels _ _ M c y Hy) as Hok. destruct (decide (c ∈ chan)); [|exact Hok].
    apply pay_spec; [apply Hok|done]. }
  assert (∀ m' n, (∀ c, holding c (m_queue m') = holding c (m_queue m)) →
    accounted m m' cs cs' (λ c, handed c (Asked blk n (filter (λ p, needs cs blk p = false) chan))) (λ _, 0)) as Hacc.
  { intros m' n Hh c x Hx Hl. rewrite Hc', Hx. eexists. split; [done|].
    pose proof (mo_channels _ _ M c x Hx) as Hok.
    destruct (pay_spec blk x ltac:(lia) Hok) as (_ & Hpl & _ & Hpn).
    cbn [handed]. rewrite Hh, (ask_paid cs blk chan c x Hnd Hx).
    destruct (decide (c ∈ chan)); (split; [done|]); (split; [done|]); cbn [id]; lia. }
  destruct (decide (k = [])) as [Hk|Hk]; cbn [mbind option_bind]; eexists _, _, cs'; (split; [done|]).
  - split; [|split; [done|by apply Hacc]].
    split; [|apply S|intros c; pose proof (st_weight _ _ _ S c); lia].
    split; [apply M| |done]. intros r Hr. by eapply request_ok_mono, (mo_requests _ _ M).
  - split; [|split; [done|apply Hacc]].
    + apply (ask_state _ cs); try done; unfold k.
      * by apply NoDup_filter.
      * intros c [_ Hc]%list_elem_of_filter. by apply Hmono, Ht.
      * etransitivity; [apply length_filter|done].
    + intros c. cbn [m_queue]. unfold holding. rewrite zsum_app, zsum_cons. cbn.
      change (zsum _ []) with 0. lia.
Qed.

(** * Runs *)

Definition total_priority (calls : list call) : Z := zsum call_priority calls.

Lemma state_ok_mono m cs total total' : state_ok m cs total → total ≤ total' → state_ok m cs total'.
Proof. intros [M F W] H. split; [done|done|]. intros c. specialize (W c). lia. Qed.

Lemma call_ok_mono (cs cs' : channels) ca :
  (∀ c, is_Some (cs !! c) → is_Some (cs' !! c)) → call_ok cs ca → call_ok cs' ca.
Proof. intros H. destruct ca; cbn; [|done|done]. intros (?&?&?&Ht&?). do 3 (split; [done|]). split; [|done]. intros c Hc. by apply H, Ht. Qed.

Lemma call_priority_nonneg cs ca : call_ok cs ca → 0 ≤ call_priority ca.
Proof. destruct ca; cbn; [|done|done]. lia. Qed.

Lemma step_spec m cs total ca :
  state_ok m cs total → call_ok cs ca → total < inf →
  ∃ ev m' cs', step m cs ca = Some (ev, m', cs') ∧ state_ok m' cs' (total + call_priority ca) ∧
    (∀ c, is_Some (cs !! c) → is_Some (cs' !! c)) ∧
    accounted m m' cs cs' (λ c, handed c ev) (λ limit, income limit ca).
Proof.
  intros S Hca Htot. destruct ca as [pe blk prio chan|dis dt|]; cbn [call_priority].
  - by apply ask_step.
  - destruct (round_step m cs total dis dt S Htot Hca) as (rs & m' & cs' & E & S' & Hm & Ha).
    rewrite Z.add_0_r. by exists (Answered rs), m', cs'.
  - destruct (close_step m cs total S) as (rs & m' & E & S' & Ha).
    rewrite Z.add_0_r. by exists (Answered rs), m', cs.
Qed.

Lemma accounted_trans m1 m2 m3 cs1 cs2 cs3 out1 out2 inc1 inc2 :
  accounted m1 m2 cs1 cs2 out1 inc1 → accounted m2 m3 cs2 cs3 out2 inc2 →
  accounted m1 m3 cs1 cs3 (λ c, out1 c + out2 c) (λ l, inc1 l + inc2 l).
Proof.
  intros H1 H2 c x Hx Hl. destruct (H1 c x Hx Hl) as (x2 & Hx2 & Hl2 & Hn2 & Ha2).
  destruct (H2 c x2 Hx2 ltac:(lia)) as (x3 & Hx3 & Hl3 & Hn3 & Ha3).
  exists x3. split; [done|]. split; [congruence|]. split; [auto|]. rewrite Hl2 in Ha3. lia.
Qed.

Lemma run_spec_accounted calls m cs total :
  state_ok m cs total → Forall (call_ok cs) calls → total + total_priority calls < inf →
  ∃ evs m' cs', run m cs calls = Some (evs, m', cs') ∧
    state_ok m' cs' (total + total_priority calls) ∧
    accounted m m' cs cs' (λ c, zsum (handed c) evs) (λ limit, zsum (income limit) calls).
Proof.
  revert m cs total. induction calls as [|ca calls IH]; intros m cs total S Hcs Htot; cbn [run].
  - exists [], m, cs. split; [done|]. change (total_priority []) with 0. rewrite Z.add_0_r. split; [done|].
    intros c x Hx Hl. exists x. split; [done|]. split; [done|]. split; [done|]. change (zsum (handed c) []) with 0. change (zsum (income (m_limit x)) []) with 0. lia.
  - apply Forall_cons in Hcs as [Hca Hcs]. unfold total_priority in *. rewrite zsum_cons in Htot.
    assert (0 ≤ zsum call_priority calls).
    { apply zsum_nonneg. intros ca' Hca'. eapply call_priority_nonneg. by eapply Forall_forall in Hcs. }
    pose proof (call_priority_nonneg _ _ Hca).
    destruct (step_spec m cs total ca S Hca ltac:(lia)) as (ev & m1 & cs1 & E & S1 & Hm & A1).
    rewrite E. cbn [mbind option_bind].
    destruct (IH m1 cs1 (total + call_priority ca)) as (evs & m2 & cs2 & E2 & S2 & A2); [done| |lia|].
    { eapply Forall_impl; [exact Hcs|]. intros ca'. by apply call_ok_mono. }
    rewrite E2. cbn [mbind option_bind]. exists (ev :: evs), m2, cs2. split; [done|].
    rewrite zsum_cons, Z.add_assoc. split; [done|]. exact (accounted_trans _ _ _ _ _ _ _ _ _ _ A1 A2).
Qed.

Lemma new_state chan cs :
  (∀ c x, cs !! c = Some x → channel_ok x) → state_ok (new_manager chan) cs 0.
Proof.
  intros H. split; [|by intros r ?%not_elem_of_nil|intros c; done].
  split; [done|by intros r ?%not_elem_of_nil|done].
Qed.
