(* ===== verification/BandwidthProperties.v ===== *)
(** What holds of the bandwidth manager. *)

From stdpp Require Import gmap.
From S2P Require Import Prelude.
From stdpp Require Import list.
From S2P Require Import Bandwidth BandwidthCorrect.

Open Scope Z_scope.

(** * Limits *)

(** C31: let every request ask for bytes, with a positive priority, of at most five
    different channels that are there, and let the priorities of all requests that are
    made have a sum below 2^31 - 1, as the limits of the channels are.  Then no sequence
    of such requests, rounds and [close] on a new manager has undefined behaviour, and
    [check_invariant] holds after it: the queued bytes are what the queued requests
    still wait for.  The bytes that were handed out through a channel with a limit, at
    once or by a callback, are never more than its quota at the start and what the
    limit adds in the rounds, of at most three seconds each. *)
Theorem rate_limits_kept chan cs calls :
  (∀ c x, cs !! c = Some x → channel_ok x) → Forall (call_ok cs) calls → total_priority calls < inf →
  ∃ evs m cs', run (new_manager chan) cs calls = Some (evs, m, cs') ∧ check_invariant m = true ∧
    ∀ c x, cs !! c = Some x → 0 < m_limit x → 0 ≤ m_quota_left x →
      zsum (handed c) evs ≤ m_quota_left x + zsum (income (m_limit x)) calls.
Proof.
  intros Hch Hcalls Htot.
  destruct (run_spec_accounted calls _ _ 0 (new_state chan cs Hch) Hcalls ltac:(lia)) as (evs & m & cs' & E & S & A).
  exists evs, m, cs'. split; [done|]. pose proof (st_manager _ _ _ S) as M. split.
  - rewrite check_invariant_spec, (mo_bytes _ _ M). apply Z.eqb_refl.
  - intros c x Hx Hl Hq. destruct (A c x Hx Hl) as (x' & _ & _ & Hn & Ha).
    pose proof (holding_queue m cs' c M). change (holding c (m_queue (new_manager chan))) with 0 in Ha.
    specialize (Hn Hq). lia.
Qed.

Definition two_channels : channels := {[1 := throttle 1000 new_channel; 2 := throttle 300 new_channel]}.

Definition some_calls : list call :=
  [Ask 7 600 1 [1; 2]; Ask 8 600 3 [1]; Round (λ _, false) 500; Round (Z.eqb 7) 500; Round (λ _, false) 5000].

Lemma rate_limits_kept_witness :
  ∃ evs m cs', run (new_manager 0) two_channels some_calls = Some (evs, m, cs') ∧ check_invariant m = true ∧
    zsum (handed 1) evs ≤ 0 + 4000 ∧ zsum (handed 1) evs = 600.
Proof.
  destruct (rate_limits_kept 0 two_channels some_calls) as (evs & m & cs' & E & Hi & H).
  - intros c x Hx. unfold two_channels in Hx. apply lookup_insert_Some in Hx as [[_ <-]|[_ Hx]]; [by split|].
    apply lookup_singleton_Some in Hx as [_ <-]. by split.
  - unfold some_calls. rewrite !Forall_cons, Forall_nil. cbn [call_ok].
    assert (there two_channels [1; 2] ∧ there two_channels [1]) as [H12 H1].
    { split; intros c Hc; [apply elem_of_cons in Hc as [->|Hc]; [by eexists|]|];
        apply list_elem_of_singleton in Hc as ->; by eexists. }
    assert (NoDup [1; 2] ∧ NoDup [1]) as [Hd12 Hd1].
    { split; [|apply NoDup_singleton]. apply NoDup_cons. split; [by intros ?%list_elem_of_singleton|apply NoDup_singleton]. }
    repeat split; try done; cbn; lia.
  - done.
  - exists evs, m, cs'. split; [exact E|]. split; [exact Hi|].
    split; [exact (H 1 (throttle 1000 new_channel) eq_refl eq_refl ltac:(done))|].
    assert (option_map (λ r, zsum (handed 1) r.1.1) (run (new_manager 0) two_channels some_calls) = Some 600)
      as Hrun by (vm_compute; reflexivity).
    rewrite E in Hrun. cbn [option_map fst] in Hrun. congruence.
Defined.

(** * A round *)

(** C32: a round of [update_quotas] returns.  The requests of peers that disconnect
    are answered with nothing, and what they had is given back.  Each other request
    is given what it still asks for, or the share of its priority in the quota of the
    most limiting of its first five channels, and no channel with a limit gives more
    than its quota.  A request stays until it has all it asked for, or something
    after its twenty rounds. *)
Theorem update_quotas_correct m cs dis dt :
  manager_ok m cs → m_abort m = false → m_queue m ≠ [] → (∀ c, weight c (m_queue m) < inf) → 0 ≤ dt →
  let live := live_of dis (m_queue m) in
  let gone := gone_of dis (m_queue m) in
  ∃ cs1 m' cs' rs, update_quotas m cs dis dt = Some (m', cs', rs) ∧ manager_ok m' cs' ∧
    (∀ c, cs1 !! c = prepared (clamp dt) live gone c <$> cs !! c) ∧
    (∀ r, r ∈ live → 0 ≤ grant cs1 r ≤ remaining r ∧
       (grant cs1 r = remaining r ∨ ∃ c x, c ∈ take 5 (channel r) ∧ cs1 !! c = Some x ∧ m_limit x ≠ 0 ∧
          grant cs1 r = Z.quot (distribute_quota x * priority r) (weight c live))) ∧
    (∀ c x, cs1 !! c = Some x → m_limit x ≠ 0 → given cs1 c live ≤ distribute_quota x) ∧
    (∀ c, cs' !! c = charge (given cs1 c live) <$> cs1 !! c) ∧
    m_queue m' = filter (λ r, answered r = false) (served cs1 <$> live) ∧
    rs = rev ((with_assigned 0 <$> gone) ++ filter (λ r, answered r = true) (served cs1 <$> live)) ∧
    (∀ r, r ∈ m_queue m' → assigned r < request_size r ∧ (0 < ttl r ∨ assigned r = 0)).
Proof.
  intros M Hab Hq Hw Hdt live gone.
  destruct (round_spec m cs dis dt M Hab Hq Hw Hdt) as (cs1 & cs' & E & M' & S & H1 & H').
  fold live gone in E, M', S, H1, H'. exists cs1. eexists _, cs', _.
  assert (∀ c x, cs1 !! c = Some x → channel_ok x ∧ (uses c live ≠ 0 → tmp x = weight c live)) as Hx1.
  { intros c x Hx. rewrite H1 in Hx. destruct (cs !! c) as [y|] eqn:Hy; [|done]. injection Hx as <-.
    assert (0 ≤ clamp dt) as Hcl by (unfold clamp; destruct (_ <? _); lia).
    destruct (prepared_spec (clamp dt) live gone c y Hcl (mo_channels _ _ M c y Hy)) as (Hok & Ht & _); [|by split].
    intros r Hr. by apply S. }
  split; [exact E|]. split; [exact M'|]. split; [exact H1|]. split; [|split; [|split; [exact H'|split; [done|]]]].
  - intros r Hr. destruct (grant_spec _ _ (S r Hr)) as (_ & Hg & _ & Hmin). split; [done|].
    destruct Hmin as [|(c & x & Hc & Hx & Hl & Hmin)]; [by left|right]. exists c, x.
    do 3 (split; [done|]). destruct (Hx1 c x Hx) as [_ Ht].
    rewrite <-Ht; [done|]. apply uses_elem. exists r.
    split; [done|by eapply take_elem].
  - intros c x Hx Hl. destruct (Hx1 c x Hx) as [Hok Ht]. by apply given_bound.
  - split; [reflexivity|]. intros r Hr. pose proof (mo_requests _ _ M' r Hr) as Hok. split; [apply Hok|].
    destruct (waiting_elem _ _ _ Hr) as (_ & _ & _ & [_ Ha]%orb_false_iff). pose proof (ro_assigned _ _ Hok).
    apply andb_false_iff in Ha as [Ha%Z.leb_gt|Ha%Z.ltb_ge]; [by left|right; lia].
Qed.

Lemma update_quotas_correct_witness :
  let m := Manager [new_request 7 600 1 [1; 2]; new_request 8 600 3 [1]] 1200 0 false in
  ∃ cs1 m' cs' rs, update_quotas m two_channels (λ _, false) 500 = Some (m', cs', rs) ∧ manager_ok m' cs' ∧
    grant cs1 (new_request 8 600 3 [1]) = 375 ∧ given cs1 1 (m_queue m) ≤ 500.
Proof.
  intros m.
  assert (manager_ok m two_channels) as M.
  { split; [done| |].
    - intros r [->|[->|Hr%not_elem_of_nil]%elem_of_cons]%elem_of_cons; [| |done];
        (split; [done|done|]); intros c Hc; [apply elem_of_cons in Hc as [->|Hc]; [by eexists|]|];
        apply list_elem_of_singleton in Hc as ->; by eexists.
    - intros c x Hx. unfold two_channels in Hx. apply lookup_insert_Some in Hx as [[_ <-]|[_ Hx]]; [by split|].
      apply lookup_singleton_Some in Hx as [_ <-]. by split. }
  assert (∀ c, weight c (m_queue m) < inf) as Hw.
  { intros c. unfold weight. cbn [m_queue m]. rewrite !zsum_cons. cbn [channel priority new_request]. change (zsum _ []) with 0.
    rewrite !occ_cons, occ_nil. repeat case_decide; cbn; unfold inf; lia. }
  destruct (update_quotas_correct m two_channels (λ _, false) 500 M eq_refl ltac:(done) Hw ltac:(lia))
    as (cs1 & m' & cs' & rs & E & M' & H1 & Hg & Hgiven & _).
  exists cs1, m', cs', rs. split; [exact E|]. split; [exact M'|].
  assert (cs1 !! 1 = Some (Channel 4 500 500 1000)) as H11 by (rewrite (H1 1); vm_compute; reflexivity). split.
  - unfold grant. cbn [channel new_request take least_quota priority]. rewrite H11. vm_compute. reflexivity.
  - exact (Hgiven 1 _ H11 ltac:(done)).
Defined.

(** * Limits that are not kept, requests that are not answered *)

(** six peers that share a limit of one byte per second *)
Definition six : list Z := [1; 2; 3; 4; 5; 6].

Definition slow_queue (t : Z) : list bw_request := (λ p, Request p 1 0 100 t [1]) <$> six.

(** they have been assigned nothing, and the quota is less than they are *)
Record starving (m : bandwidth_manager) (cs : channels) : Prop := {
  sv_manager : manager_ok m cs;
  sv_queue : ∃ t, m_queue m = slow_queue t;
  sv_channel : ∃ x, cs !! 1 = Some x ∧ m_limit x = 1 ∧ 0 ≤ m_quota_left x ≤ 5;
  sv_open : m_abort m = false
}.

Lemma slow_live t : live_of (λ _, false) (slow_queue t) = slow_queue t.
Proof. reflexivity. Qed.

Lemma slow_gone t : gone_of (λ _, false) (slow_queue t) = [].
Proof. reflexivity. Qed.

Lemma slow_weight t c : weight c (slow_queue t) = if decide (1 = c) then 6 else 0.
Proof.
  unfold weight, slow_queue. rewrite zsum_fmap. cbn [channel priority]. rewrite occ_cons, occ_nil.
  case_decide; reflexivity.
Qed.

Lemma slow_quota x : m_limit x = 1 → 0 ≤ m_quota_left x ≤ 5 →
  let y := update_quota 1000 x in m_limit y = 1 ∧ 0 ≤ m_quota_left y ≤ 5 ∧ distribute_quota y = m_quota_left y.
Proof.
  destruct x as [tm dq q l]. cbn [m_limit m_quota_left]. intros -> Hq.
  assert (q = 0 ∨ q = 1 ∨ q = 2 ∨ q = 3 ∨ q = 4 ∨ q = 5) as H by lia.
  by destruct H as [-> |[-> |[-> |[-> |[-> | ->]]]]]; vm_compute.
Qed.

Lemma slow_served cs t x r :
  cs !! 1 = Some x → m_limit x = 1 → tmp x = 6 → 0 ≤ distribute_quota x ≤ 5 → r ∈ slow_queue t →
  grant cs r = 0 ∧ answered (served cs r) = false ∧ served cs r = Request (peer r) 1 0 100 (t - 1) [1].
Proof.
  intros Hx Hl Ht Hd Hr. apply list_elem_of_fmap in Hr as (p & -> & _).
  assert (grant cs (Request p 1 0 100 t [1]) = 0) as Hg.
  { unfold grant. cbn [channel take least_quota priority]. rewrite Hx. cbn [mbind option_bind].
    rewrite Hl, Ht, Z.mul_1_r, Z.quot_small by lia. reflexivity. }
  split; [done|]. unfold served. rewrite Hg. split; [|done]. unfold answered. cbn. by rewrite andb_false_r.
Qed.

Lemma starving_round m cs :
  starving m cs → ∃ m' cs', update_quotas m cs (λ _, false) 1000 = Some (m', cs', []) ∧ starving m' cs'.
Proof.
  intros [M [t Hq] (x & Hx & Hl & Hql) Hab].
  destruct (round_spec m cs (λ _, false) 1000) as (cs3 & cs' & E & M' & _ & H3 & H'); try done.
  { by rewrite Hq. }
  { intros c. rewrite Hq, slow_weight. by case_decide. }
  rewrite Hq, slow_live, slow_gone in *. change (clamp 1000) with 1000 in H3.
  pose proof (H3 1) as H31. rewrite Hx in H31. cbn [fmap option_fmap option_map] in H31. unfold prepared in H31.
  change (- holding 1 []) with 0 in H31. rewrite charge_0 in H31.
  rewrite (proj2 (Z.eqb_neq _ _)), slow_weight in H31 by (apply uses_elem; eexists; split; apply list_elem_of_here).
  rewrite decide_True in H31 by done.
  destruct (slow_quota (with_tmp 6 x) Hl Hql) as (Hl3 & Hq3 & Hd3).
  destruct (update_quota_same 1000 (with_tmp 6 x)) as [Ht3 _]. set (x3 := update_quota 1000 _) in *.
  assert (∀ r, r ∈ slow_queue t → grant cs3 r = 0 ∧ answered (served cs3 r) = false ∧
    served cs3 r = Request (peer r) 1 0 100 (t - 1) [1]) as Hs.
  { intros r Hr. apply (slow_served cs3 t x3); try done. lia. }
  assert (waiting cs3 (slow_queue t) = slow_queue (t - 1) ∧ finished cs3 (slow_queue t) = []) as [Hw Hf].
  { assert (served cs3 <$> slow_queue t = slow_queue (t - 1)) as Hsv.
    { unfold slow_queue at 2. rewrite (list_fmap_ext (served cs3) (λ r, Request (peer r) 1 0 100 (t - 1) [1])).
      - reflexivity.
      - intros i r Hi. apply Hs. by eapply list_elem_of_lookup_2. }
    unfold waiting, finished. rewrite Hsv.
    assert (∀ r, r ∈ slow_queue (t - 1) → answered r = false) as Ha.
    { intros r Hr. rewrite <-Hsv in Hr. apply list_elem_of_fmap in Hr as (r0 & -> & Hr0). by apply Hs. }
    split; [by apply filter_all|]. apply filter_none. intros r Hr. by rewrite Ha. }
  rewrite Hw, Hf in *. eexists _, cs'. split; [exact E|]. split; [exact M'|by exists (t - 1)| |done].
  rewrite H', H31. assert (given cs3 1 (slow_queue t) = 0) as ->.
  { unfold given. transitivity (zsum (λ _ : bw_request, 0 * 1) (slow_queue t)); [|rewrite zsum_mul; lia].
    apply zsum_ext. intros r Hr. destruct (Hs r Hr) as (-> & _). lia. }
  cbn. rewrite charge_0. by exists x3.
Qed.

Fixpoint rounds (n : nat) (m : bandwidth_manager) (cs : channels)
    : option (bandwidth_manager * channels * list bw_request) :=
  match n with
  | O => Some (m, cs, [])
  | S n =>
      '(m, cs, rs) ← update_quotas m cs (λ _, false) 1000;
      '(m, cs, rs') ← rounds n m cs;
      Some (m, cs, rs ++ rs')
  end.

Lemma starving_rounds n m cs :
  starving m cs → ∃ m' cs', rounds n m cs = Some (m', cs', []) ∧ starving m' cs'.
Proof.
  revert m cs. induction n as [|n IH]; intros m cs S; [by exists m, cs|]. cbn [rounds].
  destruct (starving_round m cs S) as (m1 & cs1 & -> & S1). cbn [mbind option_bind].
  destruct (IH m1 cs1 S1) as (m2 & cs2 & -> & S2). cbn. by exists m2, cs2.
Qed.

Definition slow_channel : channels := {[1 := throttle 1 new_channel]}.

Lemma slow_start : starving (Manager (slow_queue 20) 600 0 false) slow_channel.
Proof.
  split; [|by exists 20|by exists (throttle 1 new_channel)|done]. split; [done| |].
  - intros r Hr. apply list_elem_of_fmap in Hr as (p & -> & _). split; [done|cbn; lia|].
    intros c ->%list_elem_of_singleton. by eexists.
  - intros c x Hx. unfold slow_channel in Hx. apply lookup_singleton_Some in Hx as [_ <-]. by split.
Qed.

Definition six_channels : channels :=
  list_to_map ((λ p, (p, throttle (if p =? 6 then 10 else 100000) new_channel)) <$> six).

Definition plenty : channels := {[1 := Channel 0 0 3000 1000; 2 := throttle 300 new_channel]}.

(** C33: what goes wrong.  The sixth channel of a request neither limits nor is
    charged: ten kilobytes are handed out in a second through a channel that is
    limited to ten bytes per second.  When more peers share a limit of one byte per
    second than the five bytes its quota can reach, none of them is ever answered,
    not after its twenty rounds either.  And a channel that pays for a request at
    once is not paid back when the peer disconnects before another channel has let
    the request through. *)
Theorem bandwidth_faults :
  (∃ r m cs', run (new_manager 0) six_channels [Ask 7 10000 1 six; Round (λ _, false) 1000] =
      Some ([Asked 10000 0 []; Answered [r]], m, cs') ∧
    peer r = 7 ∧ assigned r = 10000 ∧ 6 ∈ channel r ∧ m_limit <$> cs' !! 6 = Some 10 ∧
    m_quota_left <$> cs' !! 6 = Some 10) ∧
  (∃ m cs', run (new_manager 0) slow_channel ((λ p, Ask p 100 1 [1]) <$> six) =
      Some ((λ _, Asked 100 0 []) <$> six, m, cs') ∧
    ∀ n, ∃ m' cs'', rounds n m cs' = Some (m', cs'', []) ∧ queue_size m' = 6) ∧
  (∃ m cs', run (new_manager 0) plenty [Ask 7 1000 1 [1; 2]; Round (λ _, true) 0] =
      Some ([Asked 1000 0 [1]; Answered [Request 7 1 0 1000 20 [2]]], m, cs') ∧
    m_quota_left <$> plenty !! 1 = Some 3000 ∧ m_quota_left <$> cs' !! 1 = Some 2000).
Proof.
  split; [|split].
  - eexists _, _, _. split; [vm_compute; reflexivity|]. cbn [peer assigned channel].
    split; [done|]. split; [done|]. split; [by vm_compute; repeat constructor|]. by vm_compute.
  - exists (Manager (slow_queue 20) 600 0 false), slow_channel. split; [vm_compute; reflexivity|]. intros n.
    destruct (starving_rounds n _ _ slow_start) as (m & cs & E & S). exists m, cs. split; [exact E|].
    destruct (sv_queue _ _ S) as [t Ht]. unfold queue_size. by rewrite Ht.
  - eexists _, _. split; [vm_compute; reflexivity|]. by vm_compute.
Qed.
