(* ===== verification/FileProgress.v ===== *)
(** [file_progress] of src/btdownloader/torrent/file_progress.cpp: how many bytes of
    each file are in pieces that are had; what its loops add up, and what holds of
    it.

    The picker is what it answers for a piece, a file storage that of FileStorage.
    The callback for a file that is complete is modelled by the list of the files it
    is called with.  The loops run with fuel, and running out of it is a fault, like
    an access out of a vector: [None] in the option monad. *)

From stdpp Require Import gmap sets.
From S2P Require Import Prelude.
From stdpp Require Import list.
From S2P Require Import Random PiecePicker PickerState PickerOps PickerBlocks PickerSteps PickerCore PickerLost PickerHave PickerProperties.
From S2P Require Import FileStorage.
From S2P Require Import FileLayout.

Open Scope Z_scope.

(** [m_file_progress] *)
Abbreviation file_progress := (list Z).

Definition new_file_progress : file_progress := [].
Definition empty (v : file_progress) : bool := bool_decide (v = []).
Definition clear (v : file_progress) : file_progress := [].

(** [v[i] += add] *)
Definition add_to (v : file_progress) (i add : Z) : option file_progress :=
  n ← v⟦i⟧; v⟦i := n + add⟧.

(** the loop of [init] that finds the file of a piece *)
Fixpoint seek_file (fuel : nat) (fs : file_storage) (off file_index file_offset : Z) : option (Z * Z) :=
  size ← file_size fs file_index;
  if size <=? file_offset then
    match fuel with
    | O => None
    | S fuel =>
        start ← FileStorage.file_offset fs (file_index + 1);
        seek_file fuel fs off (file_index + 1) (off - start)
    end
  else Some (file_index, file_offset).

(** the loop of [init] that adds a piece *)
Fixpoint add_piece (fuel : nat) (fs : file_storage) (file_index file_offset size : Z) (v : file_progress)
    : option (Z * file_progress) :=
  if size =? 0 then Some (file_index, v)
  else
    match fuel with
    | O => None
    | S fuel =>
        fsize ← file_size fs file_index;
        let add := Z.min size (fsize - file_offset) in
        v ← add_to v file_index add;
        let size := size - add in
        if 0 <? size then add_piece fuel fs (file_index + 1) 0 size v
        else add_piece fuel fs file_index file_offset size v
    end.

(** the loop of [init] over [n] pieces, from [piece] on *)
Fixpoint init_pieces (n : nat) (have : Z → option bool) (fs : file_storage) (piece off file_index : Z)
    (v : file_progress) : option file_progress :=
  match n with
  | O => Some v
  | S n =>
      let piece_size := m_piece_length fs in
      start ← FileStorage.file_offset fs file_index;
      '(file_index, file_offset) ← seek_file (length (m_files fs)) fs off file_index (off - start);
      h ← have piece;
      if negb h then init_pieces n have fs (piece + 1) (off + piece_size) file_index v
      else
        let size := Z.min piece_size (m_total_size fs - off) in
        '(file_index, v) ← add_piece (S (length (m_files fs))) fs file_index file_offset size v;
        init_pieces n have fs (piece + 1) (off + piece_size) file_index v
  end.

Definition init (have : Z → option bool) (fs : file_storage) (v : file_progress) : option file_progress :=
  if negb (empty v) then Some v
  else init_pieces (Z.to_nat (end_piece fs)) have fs 0 0 0 (replicate (Z.to_nat (num_files fs)) 0).

(** [fp.resize(n)], then the copy *)
Definition export_progress (v fp : file_progress) : file_progress :=
  v ++ drop (length v) (take (length v) (grow_to fp (vsize v) 0)).

(** the loop of [update]; [completed_cb] tells whether there is a callback *)
Fixpoint update_files (fuel : nat) (fs : file_storage) (completed_cb : bool) (off file_index size : Z)
    (v : file_progress) : option (file_progress * list Z) :=
  if size <=? 0 then Some (v, [])
  else
    match fuel with
    | O => None
    | S fuel =>
        start ← FileStorage.file_offset fs file_index;
        fsize ← file_size fs file_index;
        let add := Z.min (fsize - (off - start)) size in
        v ← add_to v file_index add;
        n ← v⟦file_index⟧;
        pad ← pad_file_at fs file_index;
        '(v, calls) ← update_files fuel fs completed_cb (off + add) (file_index + 1) (size - add) v;
        Some (v, (if (fsize <=? n) && completed_cb && negb pad then [file_index] else []) ++ calls)
    end.

Definition update (fs : file_storage) (index : Z) (completed_cb : bool) (v : file_progress)
    : option (file_progress * list Z) :=
  if empty v then Some (v, [])
  else
    let off := index * m_piece_length fs in
    update_files (S (length (m_files fs))) fs completed_cb off (file_index_at_offset fs off)
      (piece_size fs index) v.

Definition check_invariant (file_sizes : list Z) (v : file_progress) : bool :=
  forallb (λ p, p.1 <=? p.2) (zip v file_sizes).

(** * Counting bytes *)

(** the number of the [n] bytes from [lo] on that have [q] *)
Definition count (q : Z → bool) (lo n : Z) : Z := vsize (filter (λ x, q x = true) (seqZ lo n)).

Lemma count_split q lo n k : 0 ≤ n → 0 ≤ k → count q lo (n + k) = count q lo n + count q (lo + n) k.
Proof. intros. unfold count. rewrite <-FileLayout.seqZ_app, filter_app by done. apply vsize_app. Qed.

Lemma count_ext q q' lo n : (∀ x, lo ≤ x < lo + n → q x = q' x) → count q lo n = count q' lo n.
Proof.
  intros H. unfold count. f_equal. assert (∀ x, x ∈ seqZ lo n → q x = q' x) as H'.
  { intros x Hx%elem_of_seqZ. by apply H. }
  clear H. induction (seqZ lo n) as [|x l IH]; [done|]. rewrite !filter_cons, IH, H' by set_solver. done.
Qed.

Lemma count_true lo n : 0 ≤ n → count (λ _, true) lo n = n.
Proof.
  intros Hn. unfold count. transitivity (vsize (seqZ lo n)).
  - f_equal. induction (seqZ lo n) as [|x l IH]; [done|]. by rewrite filter_cons_True, IH.
  - unfold vsize. rewrite length_seqZ. lia.
Qed.

Lemma count_false lo n : count (λ _, false) lo n = 0.
Proof.
  unfold count. transitivity (vsize ([] : list Z)); [|done]. f_equal.
  induction (seqZ lo n) as [|x l IH]; [done|]. by rewrite filter_cons_False.
Qed.

Lemma count_bounds q lo n : 0 ≤ n → 0 ≤ count q lo n ≤ n.
Proof.
  intros Hn. unfold count. split; [apply vsize_nonneg|]. unfold vsize.
  pose proof (length_filter (λ x, q x = true) (seqZ lo n)). rewrite length_seqZ in *. lia.
Qed.

(** [x] is one of the [n] bytes from [a] on *)
Definition within (a n x : Z) : bool := (a <=? x) && (x <? a + n).

Lemma within_spec a n x : within a n x = true ↔ a ≤ x < a + n.
Proof. unfold within. rewrite andb_true_iff, Z.leb_le, Z.ltb_lt. done. Qed.

Lemma within_false a n x : ¬ (a ≤ x < a + n) → within a n x = false.
Proof. rewrite <-within_spec. by destruct (within a n x). Qed.

(** [n] more bytes inside a file *)
Lemma count_add q a n lo k :
  0 ≤ n → lo ≤ a → a + n ≤ lo + k → (∀ x, a ≤ x < a + n → q x = false) →
  count (λ x, q x || within a n x) lo k = count q lo k + n.
Proof.
  intros Hn Hlo Hhi Hq. replace k with ((a - lo) + (n + (lo + k - a - n))) by lia.
  rewrite !count_split by lia. replace (lo + (a - lo)) with a by lia.
  rewrite (count_ext (λ x, q x || within a n x) q lo), (count_ext (λ x, q x || within a n x) q (a + n)).
  - rewrite (count_ext _ (λ _, true) a), (count_ext q (λ _, false) a), count_true, count_false by (done ||
      intros x Hx; rewrite ?Hq by done; by apply within_spec). lia.
  - intros x Hx. rewrite within_false by lia. apply orb_false_r.
  - intros x Hx. rewrite within_false by lia. apply orb_false_r.
Qed.

Lemma count_outside q a n lo k :
  a + n ≤ lo ∨ lo + k ≤ a → count (λ x, q x || within a n x) lo k = count q lo k.
Proof. intros H. apply count_ext. intros x Hx. rewrite within_false by lia. apply orb_false_r. Qed.

(** * Progress *)

(** [v] counts the bytes of each file that have [q] *)
Definition counts (fs : file_storage) (q : Z → bool) (v : file_progress) : Prop :=
  vsize v = num_files fs ∧
  ∀ i e, (m_files fs)⟦i⟧ = Some e → v⟦i⟧ = Some (count q (fe_offset e) (fe_size e)).

Lemma counts_ext fs q q' v :
  layout_ok fs → (∀ x, 0 ≤ x < m_total_size fs → q x = q' x) → counts fs q v → counts fs q' v.
Proof.
  intros Hl Hq [Hs Hv]. split; [done|]. intros i e He. rewrite (Hv i e He). f_equal.
  destruct (in_file_bounds fs i e Hl He) as (?&?&?). apply count_ext. intros x Hx. apply Hq. lia.
Qed.

(** [n] more bytes of the file [i] *)
Lemma add_to_spec fs q v i e a n :
  layout_ok fs → counts fs q v → (m_files fs)⟦i⟧ = Some e → 0 ≤ n →
  fe_offset e ≤ a → a + n ≤ fe_offset e + fe_size e → (∀ x, a ≤ x < a + n → q x = false) →
  ∃ v', add_to v i n = Some v' ∧ counts fs (λ x, q x || within a n x) v'.
Proof.
  intros Hl [Hs Hv] He Hn Hlo Hhi Hq. unfold add_to. rewrite (Hv i e He). cbn [mbind option_bind].
  destruct (vset_is_Some v i (count q (fe_offset e) (fe_size e) + n)) as [v' Hv'].
  { rewrite Hs. unfold num_files. by eapply vget_Some_range. }
  exists v'. split; [done|]. split; [by rewrite (vset_size _ _ _ _ Hv')|]. intros j e' He'.
  rewrite (vset_get _ _ _ _ _ Hv'). destruct (Z.eqb_spec j i) as [->|Hne].
  - assert (e' = e) as -> by congruence. f_equal. symmetry. by apply count_add.
  - rewrite (Hv j e' He'). f_equal. symmetry. apply count_outside.
    destruct (Z.lt_total i j) as [Hij|[Hij|Hij]]; [left|done|right].
    + pose proof (file_order fs i j e e' Hl He He' Hij). lia.
    + pose proof (file_order fs j i e' e Hl He' He Hij). lia.
Qed.

(** the file behind one that is not the last with bytes *)
Lemma next_file fs i e :
  layout_ok fs → (m_files fs)⟦i⟧ = Some e → fe_offset e + fe_size e < m_total_size fs →
  ∃ e', (m_files fs)⟦i + 1⟧ = Some e' ∧ fe_offset e' = fe_offset e + fe_size e.
Proof.
  intros Hl He Hlt. destruct (layout_split fs i e Hl He) as (Hs & Ho & _ & _ & Hb & _).
  pose proof (vget_Some_range _ _ _ He) as Hr. destruct Hl as (_ & Ht & _).
  set (back := drop (Z.to_nat (i + 1)) (m_files fs)) in *. destruct back as [|e' back'] eqn:Eb.
  - rewrite Hs, sum_sizes_app, sum_sizes_cons in Ht. cbn in Ht. lia.
  - exists e'. split; [|by destruct Hb].
    assert (drop (Z.to_nat (i + 1)) (m_files fs) !! 0%nat = Some e') as Hd by (fold back; by rewrite Eb).
    rewrite lookup_drop, Nat.add_0_r in Hd. unfold vget. by destruct (Z.ltb_spec (i + 1) 0); [lia|].
Qed.

(** [q] on the bytes before [off] *)
Definition before (q : Z → bool) (off x : Z) : bool := q x && (x <? off).

Section init.
Context (fs : file_storage) (h : Z → bool) (Hl : layout_ok fs) (Hpl : 0 < m_piece_length fs).

(** the bytes of the pieces that are had *)
Definition had_byte (x : Z) : bool := h (x / m_piece_length fs).

Lemma seek_file_spec fuel off i e :
  (m_files fs)⟦i⟧ = Some e → fe_offset e ≤ off < m_total_size fs → vsize (m_files fs) - i ≤ Z.of_nat fuel →
  ∃ j e', seek_file fuel fs off i (off - fe_offset e) = Some (j, off - fe_offset e') ∧
    (m_files fs)⟦j⟧ = Some e' ∧ fe_offset e' ≤ off < fe_offset e' + fe_size e'.
Proof.
  revert i e. induction fuel as [|fuel IH]; intros i e He Ho Hf; pose proof (vget_Some_range _ _ _ He);
    [lia|]; cbn [seek_file]; unfold file_size; rewrite He; cbn [mbind option_bind].
  destruct (Z.leb_spec (fe_size e) (off - fe_offset e)).
  - destruct (next_file fs i e Hl He ltac:(lia)) as (e' & He' & Ho'). unfold FileStorage.file_offset.
    rewrite He'. cbn [mbind option_bind]. apply IH; [done|lia|lia].
  - exists i, e. split; [done|]. split; [done|]. lia.
Qed.

Lemma add_piece_spec fuel q i e a n v :
  (m_files fs)⟦i⟧ = Some e → fe_offset e ≤ a ≤ fe_offset e + fe_size e → 0 ≤ n → a + n ≤ m_total_size fs →
  counts fs q v → (∀ x, a ≤ x < a + n → q x = false) → vsize (m_files fs) - i + 1 ≤ Z.of_nat fuel →
  ∃ j e' v', add_piece fuel fs i (a - fe_offset e) n v = Some (j, v') ∧
    (m_files fs)⟦j⟧ = Some e' ∧ fe_offset e' ≤ a + n ∧ counts fs (λ x, q x || within a n x) v'.
Proof.
  revert q i e a n v. induction fuel as [|fuel IH]; intros q i e a n v He Ha Hn Ht Hv Hq Hf;
    pose proof (vget_Some_range _ _ _ He) as Hr; [lia|]; cbn [add_piece].
  destruct (Z.eqb_spec n 0) as [->|Hnz].
  { exists i, e, v. split; [done|]. split; [done|]. split; [lia|]. eapply counts_ext; [done| |done].
    intros x _. cbn. rewrite within_false by lia. by rewrite orb_false_r. }
  unfold file_size. rewrite He. cbn [mbind option_bind].
  set (k := Z.min n (fe_size e - (a - fe_offset e))).
  destruct (add_to_spec fs q v i e a k Hl Hv He) as (v1 & E1 & Hv1); [lia|lia|lia|intros x Hx; apply Hq; lia|].
  rewrite E1. cbn [mbind option_bind]. destruct (Z.ltb_spec 0 (n - k)) as [Hmore|Hend].
  - destruct (next_file fs i e Hl He ltac:(lia)) as (e' & He' & Ho').
    destruct (IH (λ x, q x || within a k x) (i + 1) e' (a + k) (n - k) v1) as (j & e2 & v2 & E2 & He2 & Ho2 & Hv2);
      [done|destruct (in_file_bounds fs _ _ Hl He'); lia|lia|lia|done| |lia|].
    { intros x Hx. rewrite Hq by lia. apply within_false. lia. }
    replace (a + k - fe_offset e') with 0 in E2 by lia. exists j, e2, v2. split; [done|]. split; [done|].
    split; [lia|]. eapply counts_ext; [done| |done]. intros x _. cbn. rewrite <-orb_assoc. f_equal.
    apply eq_bool_prop_intro. rewrite !Is_true_true, orb_true_iff, !within_spec. lia.
  - replace (n - k) with 0 by lia. exists i, e, v1. split; [by destruct fuel|]. split; [done|]. split; [lia|].
    by replace k with n in Hv1 by lia.
Qed.

(** the number of pieces is that of the bytes *)
Definition pieces_cover : Prop :=
  m_num_pieces fs = (m_total_size fs + m_piece_length fs - 1) / m_piece_length fs.

Lemma piece_start (Hcov : pieces_cover) p : 0 ≤ p → p < m_num_pieces fs ↔ p * m_piece_length fs < m_total_size fs.
Proof.
  intros Hp. rewrite Hcov. rewrite <-Z.le_succ_l, div_ge by done. lia.
Qed.

Lemma had_byte_in p x : p * m_piece_length fs ≤ x < (p + 1) * m_piece_length fs → had_byte x = h p.
Proof. intros Hx. unfold had_byte. f_equal. by apply div_between. Qed.

Lemma init_pieces_spec have n p i e v :
  pieces_cover → Z.of_nat n + p = m_num_pieces fs → 0 ≤ p → (∀ j, 0 ≤ j < m_num_pieces fs → have j = Some (h j)) →
  (m_files fs)⟦i⟧ = Some e → fe_offset e ≤ p * m_piece_length fs →
  counts fs (before had_byte (p * m_piece_length fs)) v →
  ∃ v', init_pieces n have fs p (p * m_piece_length fs) i v = Some v' ∧ counts fs had_byte v'.
Proof.
  intros Hcov Hn Hp Hhave. revert p i e v Hn Hp. induction n as [|n IH]; intros p i e v Hn Hp He Ho Hv; cbn [init_pieces].
  - exists v. split; [done|]. eapply counts_ext; [done| |done]. intros x Hx. unfold before.
    assert (¬ p * m_piece_length fs < m_total_size fs) by (rewrite <-piece_start by done; lia).
    rewrite (proj2 (Z.ltb_lt _ _)) by lia. apply andb_true_r.
  - set (l := m_piece_length fs) in *. set (off := p * l) in *.
    assert (off < m_total_size fs) as Hoff by (apply piece_start; [done|done|lia]).
    pose proof (vget_Some_range _ _ _ He) as Hr.
    unfold FileStorage.file_offset. rewrite He. cbn [mbind option_bind].
    destruct (seek_file_spec (length (m_files fs)) off i e He) as (j & e' & E & He' & Ho'); [lia|unfold vsize; lia|].
    rewrite E. cbn [mbind option_bind]. rewrite Hhave by lia. cbn [mbind option_bind].
    assert (off + l = (p + 1) * l) as Hnext by (unfold off; lia).
    destruct (h p) eqn:Hhp; cbn [negb].
    + set (sz := Z.min l (m_total_size fs - off)). pose proof (vget_Some_range _ _ _ He') as Hr'.
      destruct (add_piece_spec (S (length (m_files fs))) (before had_byte off) j e' off sz v)
        as (k & e2 & v2 & E2 & He2 & Ho2 & Hv2);
        [done|lia|lia|lia|done|intros x Hx; unfold before; rewrite (proj2 (Z.ltb_ge _ _)) by lia; apply andb_false_r|
         unfold vsize; lia|].
      rewrite E2. cbn [mbind option_bind]. rewrite Hnext. apply (IH (p + 1) k e2); [lia|lia|done|lia|].
      eapply counts_ext; [done| |done]. intros x Hx. unfold before. rewrite <-Hnext.
      apply eq_bool_prop_intro. rewrite !Is_true_true, orb_true_iff, !andb_true_iff, within_spec, !Z.ltb_lt.
      split; [|intros [Hh Hlt]; destruct (decide (x < off)); [by left|right; lia]].
      intros [[Hh Hlt]|Hin]; [split; [done|lia]|]. split; [|lia]. rewrite (had_byte_in p); [done|]. unfold off in *. lia.
    + rewrite Hnext. apply (IH (p + 1) j e'); [lia|lia|done|lia|]. eapply counts_ext; [done| |done].
      intros x Hx. unfold before. rewrite <-Hnext.
      apply eq_bool_prop_intro. rewrite !Is_true_true, !andb_true_iff, !Z.ltb_lt.
      split; [intros [Hh Hlt]; split; [done|lia]|]. intros [Hh Hlt]. split; [done|].
      destruct (decide (x < off)) as [|Hge]; [done|]. rewrite (had_byte_in p) in Hh by (unfold off in *; lia). congruence.
Qed.

Lemma init_spec have :
  pieces_cover → (∀ j, 0 ≤ j < m_num_pieces fs → have j = Some (h j)) →
  ∃ v, init have fs new_file_progress = Some v ∧ counts fs had_byte v.
Proof.
  intros Hcov Hhave. unfold init, empty, new_file_progress. rewrite bool_decide_eq_true_2 by done. cbn [negb].
  set (v0 := replicate _ 0).
  assert (counts fs (before had_byte 0) v0) as H0.
  { split; [unfold v0, num_files; rewrite vsize_replicate; vsize; pose proof (vsize_nonneg (m_files fs)); lia|].
    intros i e He. unfold v0. pose proof (vget_Some_range _ _ _ He). rewrite vget_replicate by (unfold num_files; lia).
    f_equal. symmetry. etransitivity; [|apply (count_false (fe_offset e) (fe_size e))]. apply count_ext. intros x Hx.
    destruct (in_file_bounds fs i e Hl He). unfold before. rewrite (proj2 (Z.ltb_ge _ _)) by lia. apply andb_false_r. }
  destruct (decide (m_num_pieces fs ≤ 0)) as [Hn|Hn].
  - unfold end_piece. replace (Z.to_nat (m_num_pieces fs)) with O by lia. exists v0. split; [done|].
    eapply counts_ext; [done| |exact H0]. intros x Hx. unfold before.
    assert (¬ 0 * m_piece_length fs < m_total_size fs) by (rewrite <-piece_start by done; lia). lia.
  - assert (0 * m_piece_length fs < m_total_size fs) as Ht by (apply piece_start; [done|done|lia]).
    destruct (m_files fs) as [|e fs'] eqn:Ef.
    { destruct Hl as (_ & Hs & _). rewrite Ef in Hs. cbn in Hs. lia. }
    assert ((m_files fs)⟦0⟧ = Some e) as He by (by rewrite Ef).
    apply (init_pieces_spec have (Z.to_nat (m_num_pieces fs)) 0 0 e); try done; [lia| ].
    destruct Hl as [Hlay _]. rewrite Ef in Hlay. destruct Hlay. lia.
Qed.
End init.

(** * A new piece *)

Section update.
Context (fs : file_storage) (Hl : layout_ok fs).

(** the file [j] is reported: it starts before [lim] and all its bytes are there *)
Definition reported (cb : bool) (v : file_progress) (i lim j : Z) : Prop :=
  cb = true ∧ i ≤ j ∧ ∃ e, (m_files fs)⟦j⟧ = Some e ∧ fe_pad_file e = false ∧ fe_offset e < lim ∧
    v⟦j⟧ = Some (fe_size e).

Lemma last_reported cb v i e lim j :
  (m_files fs)⟦i⟧ = Some e → lim ≤ fe_offset e + fe_size e → ¬ reported cb v (i + 1) lim j.
Proof.
  intros He Hlim (_ & Hij & e' & He' & _ & Ho & _). pose proof (file_order fs i j e e' Hl He He' ltac:(lia)). lia.
Qed.

Lemma reported_step cb v i e lim j :
  (m_files fs)⟦i⟧ = Some e → fe_offset e < lim →
  reported cb v i lim j ↔
    (j = i ∧ cb = true ∧ fe_pad_file e = false ∧ v⟦i⟧ = Some (fe_size e)) ∨ reported cb v (i + 1) lim j.
Proof.
  intros He Ho. unfold reported. split.
  - intros (Hcb & Hij & e' & He' & Hp & Ho' & Hv). destruct (decide (j = i)) as [->|Hne].
    + left. assert (e' = e) as -> by congruence. done.
    + right. split; [done|]. split; [lia|]. by exists e'.
  - intros [(-> & Hcb & Hp & Hv)|(Hcb & Hij & Hr)].
    + split; [done|]. split; [done|]. by exists e.
    + split; [done|]. split; [lia|done].
Qed.

Lemma update_files_spec fuel q i e a n v cb :
  (m_files fs)⟦i⟧ = Some e → fe_offset e ≤ a ≤ fe_offset e + fe_size e → 0 < n → a + n ≤ m_total_size fs →
  counts fs q v → (∀ x, a ≤ x < a + n → q x = false) → vsize (m_files fs) - i ≤ Z.of_nat fuel →
  ∃ v' calls, update_files fuel fs cb a i n v = Some (v', calls) ∧
    counts fs (λ x, q x || within a n x) v' ∧ NoDup calls ∧ ∀ j, j ∈ calls ↔ reported cb v' i (a + n) j.
Proof.
  revert q i e a n v. induction fuel as [|fuel IH]; intros q i e a n v He Ha Hn Ht Hv Hq Hf;
    pose proof (vget_Some_range _ _ _ He) as Hr; [lia|]; cbn [update_files].
  rewrite (proj2 (Z.leb_gt _ _)) by lia. unfold FileStorage.file_offset, file_size, pad_file_at.
  rewrite He. cbn [mbind option_bind]. set (k := Z.min (fe_size e - (a - fe_offset e)) n).
  destruct (add_to_spec fs q v i e a k Hl Hv He) as (v1 & -> & Hv1); [lia|lia|lia|intros x Hx; apply Hq; lia|].
  cbn [mbind option_bind]. pose proof (proj2 Hv1 i e He) as Hget. rewrite Hget. cbn [mbind option_bind].
  assert (∃ v' calls, update_files fuel fs cb (a + k) (i + 1) (n - k) v1 = Some (v', calls) ∧
    counts fs (λ x, q x || within a n x) v' ∧ NoDup calls ∧
    ∀ j, j ∈ calls ↔ reported cb v' (i + 1) (a + n) j) as (v' & calls & E & Hv' & Hnd & Hcalls).
  { destruct (decide (0 < n - k)) as [Hmore|Hend].
    - destruct (next_file fs i e Hl He ltac:(lia)) as (e' & He' & Ho').
      destruct (IH (λ x, q x || within a k x) (i + 1) e' (a + k) (n - k) v1) as (v' & calls & E & Hv' & Hnd & Hcalls);
        [done|destruct (in_file_bounds fs _ _ Hl He'); lia|lia|lia|done| |lia|].
      { intros x Hx. rewrite Hq by lia. apply within_false. lia. }
      exists v', calls. split; [done|]. split; [|split; [done|by replace (a + n) with (a + k + (n - k)) by lia]].
      eapply counts_ext; [done| |done]. intros x _. cbn. rewrite <-orb_assoc. f_equal.
      apply eq_bool_prop_intro. rewrite !Is_true_true, orb_true_iff, !within_spec. lia.
    - replace (n - k) with 0 by lia. exists v1, []. split; [by destruct fuel|].
      split; [by replace k with n in Hv1 by lia|]. split; [constructor|]. intros j.
      split; [by intros ?%not_elem_of_nil|]. intros Hrep. exfalso. eapply last_reported; [exact He| |exact Hrep]. lia. }
  rewrite E. cbn [mbind option_bind].
  assert (v'⟦i⟧ = v1⟦i⟧) as Hsame.
  { rewrite (proj2 Hv' i e He), Hget. f_equal. apply count_ext. intros x Hx. f_equal.
    apply eq_bool_prop_intro. rewrite !Is_true_true, !within_spec. lia. }
  rewrite Hget in Hsame.
  eexists v', _. split; [done|]. split; [done|].
  assert (∀ j, j ∈ calls → i < j) as Hbig by (intros j (_ & Hj & _)%Hcalls; lia).
  pose proof (count_bounds (λ x, q x || within a k x) (fe_offset e) (fe_size e)) as Hcr.
  destruct (in_file_bounds fs i e Hl He) as (_ & Hsz & _). specialize (Hcr Hsz).
  set (c := count _ _ _) in *. set (here := if _ && _ && _ then [i] else []).
  assert (∀ j, j ∈ here ↔ j = i ∧ cb = true ∧ fe_pad_file e = false ∧ v'⟦i⟧ = Some (fe_size e)) as Hhere.
  { intros j. unfold here. rewrite Hsame. destruct (Z.leb_spec (fe_size e) c), cb, (fe_pad_file e); cbn;
      rewrite ?list_elem_of_singleton, ?elem_of_nil; split; try done; intros Hj; try (by destruct Hj as (_&_&?&_)).
    - split; [done|]. split; [done|]. split; [done|]. f_equal. lia.
    - by destruct Hj.
    - destruct Hj as (_ & Hj1 & Hj2 & [= Hj3]). first [done|lia].
    - destruct Hj as (_ & Hj1 & Hj2 & [= Hj3]). first [done|lia].
    - destruct Hj as (_ & Hj1 & Hj2 & [= Hj3]). first [done|lia]. }
  split.
  - apply NoDup_app. split; [unfold here; destruct (_ && _); repeat constructor; by intros ?%not_elem_of_nil|].
    split; [|done]. intros j Hj Hjc. apply Hhere in Hj as [-> _]. apply Hbig in Hjc. lia.
  - intros j. rewrite elem_of_app, Hhere, Hcalls, (reported_step cb v' i e (a + n) j He) by (auto || lia). done.
Qed.
End update.

(** * Progress and the picker *)

Lemma count_lt q lo n x : 0 ≤ n → lo ≤ x < lo + n → q x = false → count q lo n < n.
Proof.
  intros Hn Hx Hq. replace n with ((x - lo) + (1 + (lo + n - x - 1))) at 1 by lia. rewrite !count_split by lia.
  replace (lo + (x - lo)) with x by lia.
  rewrite (count_ext q (λ _, false) x 1) by (intros y Hy; by replace y with x by lia). rewrite count_false.
  pose proof (count_bounds q lo (x - lo) ltac:(lia)).
  pose proof (count_bounds q (x + 1) (lo + n - x - 1) ltac:(lia)). lia.
Qed.

Lemma counts_unique fs q v v' : counts fs q v → counts fs q v' → v = v'.
Proof.
  intros [Hs Hv] [Hs' Hv']. apply list_eq. intros i.
  destruct ((m_files fs)⟦Z.of_nat i⟧) as [e|] eqn:He.
  - specialize (Hv _ e He). specialize (Hv' _ e He). rewrite vget_nat in Hv, Hv'. congruence.
  - rewrite vget_nat in He. apply lookup_ge_None in He. unfold num_files, vsize in *.
    rewrite !lookup_ge_None_2 by lia. done.
Qed.

Section piece.
Context (fs : file_storage) (h : Z → bool) (Hl : layout_ok fs) (Hpo : pieces_ok fs) (Hcov : pieces_cover fs).

Lemma piece_bytes i :
  0 ≤ i < m_num_pieces fs →
  i * m_piece_length fs < m_total_size fs ∧
  piece_size fs i = Z.min (m_piece_length fs) (m_total_size fs - i * m_piece_length fs).
Proof.
  intros Hi. destruct Hpo as [Hpl Hmax]. pose proof (proj1 (piece_start fs ltac:(lia) Hcov i ltac:(lia)) ltac:(lia)) as Hoff.
  split; [done|]. unfold piece_size, FileStorage.last_piece. destruct (Z.eqb_spec i (m_num_pieces fs - 1)) as [->|Hne].
  - pose proof (piece_start fs ltac:(lia) Hcov (m_num_pieces fs) ltac:(lia)) as [_ Hend].
    assert (m_total_size fs ≤ m_num_pieces fs * m_piece_length fs) by lia. rewrite sint_small by lia. lia.
  - pose proof (proj1 (piece_start fs ltac:(lia) Hcov (i + 1) ltac:(lia)) ltac:(lia)). lia.
Qed.

(** the pieces that are had, and [i] *)
Definition and_piece (i j : Z) : bool := h j || (j =? i).

Lemma and_piece_bytes i x :
  0 ≤ i < m_num_pieces fs → 0 ≤ x < m_total_size fs →
  had_byte fs h x || within (i * m_piece_length fs) (piece_size fs i) x = had_byte fs (and_piece i) x.
Proof.
  intros Hi Hx. destruct Hpo as [Hpl _]. destruct (piece_bytes i Hi) as [_ ->]. unfold had_byte, and_piece.
  f_equal. apply eq_bool_prop_intro. rewrite !Is_true_true, within_spec, Z.eqb_eq, div_between by lia. lia.
Qed.

Lemma new_piece_spec i cb v :
  0 ≤ i < m_num_pieces fs → h i = false → counts fs (had_byte fs h) v →
  ∃ v' calls, update fs i cb v = Some (v', calls) ∧ counts fs (had_byte fs (and_piece i)) v' ∧ NoDup calls ∧
    (∀ j, j ∈ calls → cb = true ∧ ∃ e, (m_files fs)⟦j⟧ = Some e ∧ fe_pad_file e = false ∧ v'⟦j⟧ = Some (fe_size e)) ∧
    (∀ j e, (m_files fs)⟦j⟧ = Some e → 0 < fe_size e →
      j ∈ calls ↔ cb = true ∧ fe_pad_file e = false ∧ v⟦j⟧ ≠ Some (fe_size e) ∧ v'⟦j⟧ = Some (fe_size e)).
Proof.
  intros Hi Hh Hv. destruct (piece_bytes i Hi) as [Hoff Hsz]. pose proof Hpo as [Hpl _].
  set (l := m_piece_length fs) in *. set (off := i * l) in *. set (n := piece_size fs i) in *.
  assert (m_files fs ≠ []) as Hne.
  { intros Hn. destruct Hl as (_ & Ht & _). rewrite Hn in Ht. cbn in Ht. nia. }
  destruct (upper_bound_file fs off Hl Hne ltac:(destruct Hl as (_ & _ & ?); nia)) as (k & e & Hk & He & Hle & Hlt).
  specialize (Hlt Hoff).
  assert (file_index_at_offset fs off = k) as Hidx by exact Hk.
  assert (∀ x, off ≤ x < off + n → had_byte fs h x = false) as Hq.
  { intros x Hx. rewrite (had_byte_in fs h ltac:(lia) i); [done|]. unfold off in *. fold l. lia. }
  destruct (update_files_spec fs Hl (S (length (m_files fs))) (had_byte fs h) k e off n v cb)
    as (v' & calls & E & Hv' & Hnd & Hcalls); [done|lia|lia|lia|done|done| |].
  { pose proof (vget_Some_range _ _ _ He). unfold vsize in *. lia. }
  assert (counts fs (had_byte fs (and_piece i)) v') as Hv2.
  { eapply counts_ext; [done| |exact Hv']. intros x Hx. by apply and_piece_bytes. }
  exists v', calls. unfold update, empty. rewrite bool_decide_eq_false_2.
  2: { intros ->. destruct Hv as [Hv _]. change (0 = vsize (m_files fs)) in Hv.
       pose proof (vget_Some_range _ _ _ He). lia. }
  fold l off n. rewrite Hidx. split; [done|]. split; [done|]. split; [done|]. split.
  - intros j (Hcb & _ & e' & He' & Hp & _ & Hg)%Hcalls. split; [done|]. by exists e'.
  - intros j e' He' Hs'. rewrite Hcalls. unfold reported. rewrite (proj2 Hv j e' He'), (proj2 Hv' j e' He').
    split.
    + intros (Hcb & Hkj & e2 & He2 & Hp & Ho & Hg). assert (e2 = e') as -> by congruence.
      split; [done|]. split; [done|]. split; [|done]. intros [= Heq].
      enough (count (had_byte fs h) (fe_offset e') (fe_size e') < fe_size e') by lia.
      apply (count_lt _ _ _ (Z.max off (fe_offset e'))); [lia| |apply Hq; lia].
      destruct (decide (j = k)) as [->|Hjk]; [assert (e' = e) as -> by congruence; lia|].
      pose proof (file_order fs k j e e' Hl He He' ltac:(lia)). lia.
    + intros (Hcb & Hp & Hnot & Hg). split; [done|].
      assert (fe_offset e' < off + n ∧ off < fe_offset e' + fe_size e') as [Hb1 Hb2].
      { destruct (decide (fe_offset e' < off + n ∧ off < fe_offset e' + fe_size e')) as [|Hout]; [done|].
        rewrite count_outside in Hg by lia. done. }
      split; [|by exists e']. destruct (Z.le_gt_cases k j) as [|Hjk]; [done|].
      pose proof (file_order fs j k e' e Hl He' He Hjk). lia.
Qed.
End piece.

Section picker.
Context {R : StdRandom} {Rok : StdRandomOk R}.

(** the pieces that the picker has *)
Definition is_had (s : picker) (j : Z) : bool := bool_decide (have_piece j s = Some true).

Lemma have_piece_had s j : 0 ≤ j < num_pieces s → have_piece j s = Some (is_had s j).
Proof.
  intros Hj. unfold is_had, have_piece. destruct (vget_is_Some (m_piece_map (lay s)) j Hj) as [p Hp].
  unfold piece_map. rewrite Hp. cbn [mbind option_bind]. fold (have p). by destruct (have p).
Qed.

Lemma we_have_had s s' i p j :
  repieced i (had_piece p) s s' → piece_map i s = Some p → is_had s' j = and_piece (is_had s) i j.
Proof.
  intros Hrp Hp. pose proof (rp_seen _ _ _ _ Hrp j) as Hseen. unfold is_had, and_piece, have_piece.
  destruct (Z.eqb_spec j i) as [->|Hne].
  - rewrite orb_true_r. apply seen_Some in Hseen as (q & Hq & Hn). rewrite Hq. cbn [mbind option_bind].
    fold (have q). rewrite <-have_norm, Hn, have_norm. apply bool_decide_eq_true_2. done.
  - rewrite orb_false_r. unfold seen in Hseen.
    destruct (piece_map j s) as [q|], (piece_map j s') as [q'|]; try done. assert (norm q' = norm q) as Hn by (cbn in Hseen; congruence).
    cbn [mbind option_bind]. fold (have q) (have q'). by rewrite <-(have_norm q), <-Hn, !have_norm.
Qed.

(** C34: the progress of a file is the number of its bytes in pieces that the picker
    has.  [init] computes it; when the picker has one more piece, [update] turns it into
    what [init] computes from the picker then.  The callback is called once for each
    file with bytes, other than a pad file, that this piece completes, and for no file
    that is not complete. *)
Theorem file_progress_follows_picker fs s i p :
  layout_ok fs → pieces_ok fs → pieces_cover fs → picker_ok s → num_pieces s = m_num_pieces fs →
  piece_map i s = Some p → have p = false →
  ∃ v s' v' calls,
    init (λ j, have_piece j s) fs new_file_progress = Some v ∧
    (∀ j e, (m_files fs)⟦j⟧ = Some e →
       v⟦j⟧ = Some (count (λ x, is_had s (x / m_piece_length fs)) (fe_offset e) (fe_size e))) ∧
    we_have i s = Some (tt, s') ∧ update fs i true v = Some (v', calls) ∧
    init (λ j, have_piece j s') fs new_file_progress = Some v' ∧ NoDup calls ∧
    (∀ j, j ∈ calls → ∃ e, (m_files fs)⟦j⟧ = Some e ∧ fe_pad_file e = false ∧ v'⟦j⟧ = Some (fe_size e)) ∧
    (∀ j e, (m_files fs)⟦j⟧ = Some e → 0 < fe_size e →
       j ∈ calls ↔ fe_pad_file e = false ∧ v⟦j⟧ ≠ Some (fe_size e) ∧ v'⟦j⟧ = Some (fe_size e)).
Proof.
  intros Hl Hpo Hcov Hok Hnum Hp Hh. pose proof Hpo as [Hpl _].
  pose proof (vget_Some_range _ _ _ Hp) as Hi. fold (num_pieces s) in Hi.
  destruct (we_have_spec s i p Hok Hp Hh) as ([] & s' & Hrun & Hrp).
  assert (is_had s i = false) as Hih.
  { unfold is_had, have_piece. rewrite Hp. cbn. fold (have p). by rewrite Hh. }
  destruct (init_spec fs (is_had s) Hl ltac:(lia) (λ j, have_piece j s) Hcov) as (v & Hv & Hc).
  { intros j Hj. apply have_piece_had. lia. }
  destruct (init_spec fs (is_had s') Hl ltac:(lia) (λ j, have_piece j s') Hcov) as (v2 & Hv2 & Hc2).
  { intros j Hj. apply have_piece_had. rewrite (rp_size _ _ _ _ Hrp). lia. }
  destruct (new_piece_spec fs (is_had s) Hl Hpo Hcov i true v ltac:(lia) Hih Hc) as (v' & calls & Hu & Hc' & Hnd & H1 & H2).
  assert (v2 = v') as ->.
  { eapply counts_unique; [exact Hc2|]. eapply counts_ext; [done| |exact Hc']. intros x _. unfold had_byte.
    symmetry. by eapply we_have_had. }
  exists v, s', v', calls. split; [done|]. split; [apply Hc|]. do 4 (split; [done|]).
  split; [intros j Hj; by apply H1|]. intros j e He Hs. rewrite (H2 j e He Hs). intuition.
Qed.

End picker.

(** two files in the three pieces of a picker *)
Definition two_files : file_storage :=
  FileStorage 65536 3
    [InternalFileEntry 0 not_a_symlink false 60000 0 false false false false name_null (-1);
     InternalFileEntry 60000 not_a_symlink false 103840 0 false false false false name_null (-1)]
    [] [] [] [] [] 163840.

Lemma file_progress_follows_picker_witness :
  ∃ v s' v' calls,
    init (λ j, have_piece j sample1) two_files new_file_progress = Some v ∧
    we_have 0 sample1 = Some (tt, s') ∧ update two_files 0 true v = Some (v', calls) ∧
    init (λ j, have_piece j s') two_files new_file_progress = Some v' ∧ v' = [60000; 5536] ∧ calls = [0].
Proof.
  assert (∃ p, piece_map 0 sample1 = Some p ∧ have p = false) as (p & Hp & Hh) by (eexists; by vm_compute).
  destruct (file_progress_follows_picker two_files sample1 0 p) as (v & s' & v' & calls & H1 & _ & H2 & H3 & H4 & _);
    [by vm_compute|by vm_compute|done|apply sample1_ok|by vm_compute|exact Hp|exact Hh|].
  exists v, s', v', calls. split; [exact H1|]. split; [exact H2|]. split; [exact H3|]. split; [exact H4|].
  assert (v = [0; 0]) as Hv by (vm_compute in H1; congruence). rewrite Hv in H3. vm_compute in H3.
  split; congruence.
Defined.
